(* ===== verification/_CoqProject ===== *)
-Q . S2P
Prelude.v
GoBytes.v
JobsTypes.v
JobsPolicy.v
JobsMemory.v
JobsMemoryInv.v
JobsMemoryQueue.v
JobsMemoryClaims.v
JobsOnce.v
JobsRegistry.v
JobsRegistryFacts.v
JobsMetrics.v
JobsQueueIface.v
JobsWorker.v
JobsWorkerFacts.v
JobsWorkerLoop.v
JobsDispatcher.v
Cache.v
CacheFacts.v
CacheNamespace.v
Redis.v
JobsRedis.v
JobsRedisInv.v
JobsRedisScripts.v
JobsRedisFacts.v
JobsRedisClaims.v
Float64.v
Throttle.v
ThrottleFacts.v
Decimal.v
DecimalFacts.v
DotEnv.v
StorageKey.v
StorageOptions.v
StorageStream.v
StorageMemory.v
StorageMemoryFacts.v
StorageClaims.v
StorageUpload.v
StorageClaimsInv.v
StorageClaimsOps.v
StorageClaimsRuns.v
AuthModels.v
AuthSessions.v
AuthOneTime.v
AuthWorld.v
AuthInv.v
AuthFacts.v
AuthClaims.v
GoText.v
Regex.v
SqlClassify.v
AtlasSchema.v
SchemaClassify.v
SchemaTypeFacts.v
SchemaTableFacts.v
SchemaSql.v
SchemaPlan.v
SchemaPlanFacts.v
MigrationDir.v
RenameFacts.v
MigrationLedger.v
MigrationLedgerFacts.v
SqlSafetyFacts.v
MigrationFacts.v
ResourcePolicy.v
ResourcePolicyFacts.v
UpgradeDiff.v
UpgradePatchFacts.v
GoEncoding.v
UpgradePlan.v
UpgradeFacts.v
UrlBase.v
Presign.v
PresignFacts.v
AuthBackground.v
GenFiles.v
GenFilesFacts.v
ListQuery.v
AuthCsrf.v
