(* ===== verification/Prelude.v ===== *)
(** * Gombit: a verification development

    Gombit (src/) is a web framework in Go.  This library models the parts of it that keep
    state under concurrent use and whose mistakes lose work, repeat it, or let the wrong
    person in: the background job system (src/jobs) with its in-process and Redis queues,
    the cache (src/cache), sessions, mailed links, throttling, background work and the CSRF
    defence of authentication (src/auth), the object storage contract with its in-process driver, the ownership of
    stored files, their upload and their signed URLs (src/storage), database migrations
    (src/migrations and the SQL classifier of src/manifest), the policy of what a resource
    exposes (src/resourcepolicy) and what a list of it may be asked (src/database), the files a
    generator writes (src/resourcegen), upgrades of the framework (src/upgrade), decimals
    (src/types/decimal.go) and .env files (src/config/dotenv.go), each from the source, and
    proves what makes them correct.

    ** The parts and how they interact

    An application registers job types with a registry and dispatches jobs.  The dispatcher
    encodes a job into an envelope and pushes it to a queue; a worker reserves a delivery
    under a lease, renews the lease while the registry runs the handler, and settles the
    delivery: acknowledged, released for a retry, postponed, or buried as failed.  Handlers
    guard effects with Once, which keeps records in the same store.  The queue is a contract
    with two drivers, one in the process and one made of Lua scripts in a Redis server.

    Authentication keeps users, refresh tokens and mailed links in three tables.  A refresh
    token is rotated at each use, in a transaction that follows an unlocked read; resets,
    verifications and email changes use a link once; a throttle counts attempts in the
    cache; mail is sent by a bounded set of workers behind a token bucket.  In cookie mode a
    middleware asks state-changing requests to repeat a signed cookie.  Uploaded files go to an object store; a table of claims says which file a record
    owns, so that cleaning up never deletes one that is in use.  A driver without URLs of its
    own is served by the application: a signer makes the URLs, and a handler answers them.
    What a resource's API reads and writes is resolved from the model's tags; its lists
    are filtered, searched, ordered and aggregated over declared columns.  The generator that
    makes a resource plans its files and writes them as one transaction.

    A schema change becomes a migration: Atlas, an external program, writes SQL; a classifier
    reads the difference of the two schemas, and a second one the statements; a gate refuses
    what could lose data or fail on the rows there are until it is acknowledged, and records
    the acknowledgement in the file, where lint finds it.  Renames are written directly, with
    the statements that undo them.  Applied versions are kept in two ledgers, one of Atlas and
    one of the framework, which a rollback moves back by a batch.

    An upgrade of the framework reads a manifest of releases and the application's go.mod,
    plans what to change by hand and by itself, runs the go commands, and restores the files
    when they fail; changes are shown as unified diffs.

    ** Files

    - [Prelude]: results, 64-bit integers, times, the tactics ([breflect]), the hint database
      and the lemmas on lists and maps the components share.  [GoBytes]: the functions of Go's
      bytes and strings packages the code uses.  [Float64]: rounding, as an argument with its
      laws.
    - [JobsTypes], [JobsPolicy]: jobs/errors.go and the data of jobs/job.go, jobs/queue.go,
      jobs/failed.go and jobs/unique.go; jobs/policy.go.
    - [JobsMemory]: jobs/memory.go, the in-process queue, one definition per method.
      [JobsMemoryInv]: its operations as steps, reachability and the invariant [wf].
      [JobsMemoryQueue], [JobsMemoryClaims]: what happens to one job over any sequence of
      operations, order, exclusion and loss; counts, attempts, failed jobs and unique keys.
    - [JobsOnce]: Once of jobs/unique.go over the class [OnceStore] and its laws, which the
      memory queue is proved to keep.
    - [JobsRegistry], [JobsRegistryFacts]: jobs/registry.go and jobs/context.go.
    - [JobsMetrics]: jobs/metrics.go.
    - [JobsQueueIface]: the driver contract of jobs/queue.go: the class [Queue], the abstract
      status of a job, the laws [QueueLaws], and the memory queue as an instance.
    - [JobsWorker], [JobsWorkerFacts], [JobsWorkerLoop]: jobs/worker.go, proved against the
      contract: one delivery, the life of a job over many deliveries, and the loop with its
      shutdown as a step relation.
    - [JobsDispatcher]: jobs/dispatcher.go, and a job's way from Dispatch to its handler.
    - [Redis]: the commands the scripts use, as a class with their documented laws, and an
      instance.  [JobsRedis]: jobs/redis.go, scripts and methods.  [JobsRedisInv],
      [JobsRedisScripts], [JobsRedisFacts], [JobsRedisClaims]: the keys and
      members are unambiguous, the database represents a set of abstract jobs, each script
      and call acts on them, and the claims.
    - [Cache], [CacheFacts]: cache/memory.go.  [CacheNamespace]: cache/cache.go,
      cache/namespace.go and cache/noop.go over records of operations.
    - [Throttle], [ThrottleFacts]: auth/throttle.go, as programs whose cache calls interleave.
    - [AuthModels], [AuthSessions], [AuthOneTime]: the tables, auth/service.go with
      auth/sessions.go and auth/account_state.go, and the mailed links of auth/onetime.go,
      auth/password.go, auth/password_change.go, auth/verification.go, auth/email_change.go.
      [AuthWorld]: calls in flight as a step function.  [AuthInv], [AuthFacts],
      [AuthClaims]: the invariant, every operation, and the claims.  [AuthBackground]:
      auth/background.go as steps that interleave.  [AuthCsrf]: auth/csrf.go with the cookie
      of auth/cookie.go.
    - [Decimal], [DecimalFacts]: types/decimal.go.  [DotEnv]: config/dotenv.go.
    - [StorageKey], [StorageOptions]: internal/storagekey, storage/key.go,
      storage/errors.go, storage/url.go and the types of storage/storage.go.
    - [StorageStream]: storage/stream.go over the class [Reader] and its laws.
    - [StorageMemory], [StorageMemoryFacts]: storage/memory and the in-process publication of
      storage/lifecycle.go.
    - [StorageClaims], [StorageUpload]: storage/claims/claims.go and storage/upload, as
      programs of statements, transactions and store requests.  [StorageClaimsInv],
      [StorageClaimsOps]: rely and guarantee, and that every operation keeps them.
      [StorageClaimsRuns]: the claims over every interleaving, and the
      operations run alone.

    - [GoText], [Regex]: more of Go's strings, strconv and fmt; regular expressions as a
      backtracking matcher with the equations to follow one on a text of known shape.
    - [SqlClassify]: manifest/classify.go.  [AtlasSchema]: the shape of Atlas's schemas and
      changes, in a store that keeps the identity of tables and columns.
    - [SchemaClassify]: migrations/schemaplan/classify.go.  [SchemaTypeFacts],
      [SchemaTableFacts]: what its verdicts mean for the values and the rows there are, on a
      class [Database] of what the three servers do.
    - [SchemaSql], [SchemaPlan], [SchemaPlanFacts]: the statements' half and the rest of
      schemaplan (lint.go, plan.go, drift.go) and the directives of migrations/dir.go.
    - [MigrationDir], [MigrationFacts], [RenameFacts]: migrations/rename.go, registry.go,
      revisions.go and makemigrations.go: the directory, versions and renames.
    - [ResourcePolicy], [ResourcePolicyFacts]: resourcepolicy.  [ListQuery]:
      database/listquery.go, database/aggregate.go and TextProblem of database/text.go.
    - [GenFiles], [GenFilesFacts]: resourcegen/fstx.go, internal/atomicfile and the plan of
      resourcegen/generate.go, over a file system every call of which may fail.
    - [UpgradeDiff], [UpgradePatchFacts]: upgrade/diff.go.  [UpgradePlan], [UpgradeFacts]:
      internal/frameworkmod, upgrade/manifest.go, policy.go, plan.go, apply.go and the validation of config.go and schema.go.
    - [GoEncoding]: decimal numbers, base64 and query strings.  [UrlBase]:
      internal/urlbase.  [Presign], [PresignFacts]: storage/presign and storage/direct.go.
    - [MigrationLedger], [MigrationLedgerFacts]: migrate.go, rollback.go, seed.go, reset.go,
      dbstate.go and the tables of revisions.go.  [SqlSafetyFacts]: the two splitters of
      SQL, and that no statement passes unread.

    ** How the code is translated

    A method that changes its receiver returns the new receiver beside its result; an error
    is a value of an error type that errors.Is and errors.As inspect.  A method that holds its
    mutex throughout is one step; where a method takes the lock more than once, each critical
    section is a definition of its own and the theorems let other operations come in between.
    Code that talks to a server is a sequence of calls between which anything else may run:
    the throttle and the claims protocol are trees of calls, the rotation of a refresh token
    is an unlocked read followed by one transaction, and every call may be refused or lose
    its answer after it took effect.  Every reading of a clock is an argument: the i-th
    reading of a call is [clk i], and no theorem assumes more of the readings than it says;
    the claims protocol assumes only that clocks are within a drift of the true time whose
    double is at most its margin of five minutes.  The same holds for the answers of a
    context.  Integers that could overflow are kept at their width ([wrap_int64]).  A Go map
    is a finite map; where the code iterates over one, the result is proved independent of
    the order.  Code outside the repository (JSON codecs of application types, MIME parsing,
    HMAC and SHA-256, random identifiers, float64 rounding, the Redis server, the decimal library's
    parser, Atlas with its HCL reader and differ, the execution of SQL, semver, GORM's parsed
    schemas) is an argument, with its documented behaviour as a named hypothesis.

    ** What the theorems show

    - The memory queue: its states are well formed (C18); a lease excludes other
      deliveries (C1); no operation loses a job (C8); a unique key
      admits one job ([unique_exclusive]); it implements the abstract contract
      (C19).
    - The Redis queue: every sequence of calls is a run of the abstract queue
      (C4), their keys keeping their types; the reserve script's loop
      ends (C38), and delivers in order ([rReserve_delivers_first]); the
      holder of a lease settles ([rsettle_moves]), and nobody else gets the job meanwhile
      (C21).
    - The worker: how each outcome settles (C17), how often a failing job
      runs (C16), and the invariant of its loop ([worker_loop_invariant]).
      A dispatched job reaches its handler (C31).
    - Once: done is done, failed runs again ([once_effect_not_repeated],
      C37).
    - Authentication: the tables stay sound under every interleaving (C9); a
      refresh token rotates once (C3), what presenting a live or a
      rotated one does ([live_token_rotates], [rotated_token_again]); a mailed link works once
      (C32); disabling and resetting are final ([disabled_stays_revoked],
      [old_password_never_signs_in]); signing out others and listing sessions are exact
      ([sign_out_others_keeps_own], [activeSessionRows_exact]).  The throttle's limit holds
      under every interleaving (C33).
    - Background work: a client's answer tells nothing of the work under way
      (C26), resources are bounded (C29), a close that
      succeeds has finished everything (C14), and every close returns
      ([close_returns]).
    - CSRF: what passes the middleware (C15), and a minted token goes on working
      (C39).
    - Storage: Put is all or nothing (C34) and publication copies once
      ([publish_copies_once]).  A file a record refers to is never deleted
      (C2), and a forgotten key stays empty ([deleting_is_final]); deleting
      and failing to create a record clean up ([DeleteWith_deletes],
      [failed_CreateWith_cleans]); a sweep reaches every claim ([eachKey_visits_all]).
    - Signed URLs: what is served was public or signed for exactly that key and expiry
      (C5), a signed URL works until its end ([signed_url_lives]), an
      upload stores once and only what was granted (C10), and a grant used as
      it says is accepted (C35).  A signature is bound to its message up to
      an HMAC collision between two messages that are given, so no theorem assumes that there
      are none.  API prefixes have one form ([canonical_prefix]).
    - Resource policy: no tag is dropped (C12), and the exposed columns are
      ones persistence can honour ([exposed_surface_sound]).  Lists: a search is for literal
      text (C27), pages hold every row once (C25), filters bind
      what a column holds ([filter_binds]) and aggregates are over declared columns
      ([aggregates_declared]).
    - Generated files: all or none (C13), the developer's are kept
      (C28), and a refused run leaves no trace
      ([failed_generation_leaves_no_trace]); a failure of the system while directories are
      made can leave one behind ([mkdir_fault_leaves_a_directory]).
    - Upgrades: a diff is the change (C20) by a shortest script (C36);
      the commands land on the target (C24); the plan is complete
      ([plan_complete]); a failed upgrade restores the files ([failed_upgrade_restores]); the
      next release is its bump ([next_release_is_its_bump]).
    - Migrations: a widening keeps every value (C22), a narrowing does
      lose one ([narrow_loses_a_value]), and a plan with nothing unsafe applies to the rows
      there are (C7), but for the defaults and the NULLS NOT DISTINCT
      indexes the classifier calls safe wrongly ([defaults_called_safe],
      [nulls_not_distinct_called_safe]).  What the gate accepted passes lint, which finds the
      gate's own steps (C6), what nothing acknowledges is refused
      ([gate_refuses]), and no statement the runner executes passes unread where the SQL has
      no comments (C23).  Renames are read
      back as written ([rename_sql_declares]) and undone by their down migration
      ([rename_down_undoes_up]); a failed run restores the directory once the
      SQL is written, and before that leaves at most an empty directory or that one file
      (C30); new
      versions sort last ([next_version_sorts_last]).  The ledgers stay sound whatever fails
      (C11); a rollback undoes a run ([rollback_undoes_migrate]) or, failing,
      nothing ([failed_rollback_keeps]).  The two splitters of SQL agree on bare SQL
      ([splitters_agree]) and differ on dashes in a string
      ([dashes_in_a_string_hide_a_delete]).
    - The cache: exact counters ([increment_exact]), invisible eviction
      ([evictions_invisible]), and the race of the two clock readings
      (C40).
    - Decimals: a spelling's shape is the number's ([spelling_agrees]), and a column accepts
      what it stores exactly ([DecimalStorageProblem_exact]).  .env files read back as written
      ([dotenv_roundtrip]).

    ** Fuel and bounds

    A loop with a counter recurses on the number of its turns (the backoffs' doublings, the
    upgrade's versions, the probe's 100 tries, the 1000 hops of a session chain).  Other
    recursions take fuel that the definitions or theorems show to be enough: trimming takes
    the length of the slice, the sweep's batches the number of keys, the reserve script one
    turn per member of its sets and one more, the claims' batches one turn per selected key
    and one more; reading a source to its end takes one read per byte and one more, since a
    well-behaved reader makes progress, and the theorems ask for that much and prove that a
    result is returned.  The memory queue's theorems bound the number of operations by the
    largest int64, the width of its counters, and the Redis queue's by 2 to the 53, beyond
    which its server's scores are not exact.  A loop of a regular expression takes the length
    of the text, each turn consuming a byte; the scans of SQL recurse on the text, and
    stripping comments or parentheses takes its length.

    ** Not modelled

    The local and S3 storage drivers, multipart reading, the ranges of served objects, tracing
    and logging, message texts, the goroutine scheduler beyond the interleavings above, and the
    rest of the framework: HTTP, admin, authorization, the SQL GORM builds, the texts of the
    generators and the commands.  Of upgrades: codemods, the templates of configuration, contracts and files.  Of
    migrations: the Atlas program, the generated loader, the statements that wipe a database,
    and the command lines and messages. *)

From stdpp Require Import base tactics numbers list sorting strings gmap fin_maps.
From Stdlib Require Import ZArith Lia.

Local Open Scope Z_scope.

(** ** Scopes and hint databases *)

Declare Scope gombit_scope.
Delimit Scope gombit_scope with gombit.

Create HintDb gombit.
Create Rewrite HintDb gombit.

(** ** Results

    A Go function that returns [(T, error)] returns [Ok v] for a nil error and
    [Err e] otherwise.  A method that mutates its receiver returns the new
    receiver beside its result, because Go code may mutate before it fails. *)

Inductive result (E A : Type) : Type :=
| Ok (a : A)
| Err (e : E).
Arguments Ok {E A} a.
Arguments Err {E A} e.

Definition result_bind {E A B} (m : result E A) (f : A -> result E B) : result E B :=
  match m with Ok a => f a | Err e => Err e end.

Notation "'let?' x ':=' m 'in' k" := (result_bind m (fun x => k))
  (at level 10, x name, m at level 100, k at level 200) : gombit_scope.

(** ** Machine integers

    Go's [int] and [int64] are 64-bit two's complement, [uint64] is modulo
    2^64.  A model keeps them as [Z] and writes the wrap-around where the
    source does arithmetic that could leave the range. *)

Definition min_int64 : Z := - 2 ^ 63.
Definition max_int64 : Z := 2 ^ 63 - 1.
Definition max_uint64 : Z := 2 ^ 64 - 1.

Definition wrap_int64 (z : Z) : Z := (z + 2 ^ 63) mod 2 ^ 64 - 2 ^ 63.
Definition wrap_uint64 (z : Z) : Z := z mod 2 ^ 64.

Definition in_int64 (z : Z) : Prop := min_int64 <= z <= max_int64.

Lemma wrap_int64_id z : in_int64 z -> wrap_int64 z = z.
Proof.
  unfold in_int64, min_int64, max_int64, wrap_int64. intros H.
  rewrite Z.mod_small; lia.
Qed.

Lemma wrap_int64_range z : in_int64 (wrap_int64 z).
Proof.
  unfold in_int64, min_int64, max_int64, wrap_int64.
  pose proof (Z.mod_pos_bound (z + 2 ^ 63) (2 ^ 64)). lia.
Qed.

Lemma wrap_uint64_id z : 0 <= z <= max_uint64 -> wrap_uint64 z = z.
Proof. unfold wrap_uint64, max_uint64. intros H. apply Z.mod_small. lia. Qed.

(** ** Time

    A [time.Time] is the number of nanoseconds since Go's zero time (January 1
    of year 1, UTC), so [IsZero] is being 0; a [time.Duration] is a signed
    number of nanoseconds.  Monotonic clock readings and locations are not
    modelled: Before, After, Equal and Add only look at the instant. *)

Abbreviation time := Z (only parsing).
Abbreviation duration := Z (only parsing).

Definition Nanosecond : duration := 1.
Definition Microsecond : duration := 1000.
Definition Millisecond : duration := 1000000.
Definition Second : duration := 1000000000.
Definition Minute : duration := 60 * Second.
Definition Hour : duration := 60 * Minute.

Definition IsZero (t : time) : bool := t =? 0.
Definition Before (a b : time) : bool := a <? b.
Definition After (a b : time) : bool := b <? a.
Definition Add (t : time) (d : duration) : time := t + d.

Lemma Before_true a b : Before a b = true <-> a < b.
Proof. apply Z.ltb_lt. Qed.

Lemma Before_false a b : Before a b = false <-> b <= a.
Proof. apply Z.ltb_ge. Qed.

Lemma After_true a b : After a b = true <-> b < a.
Proof. apply Z.ltb_lt. Qed.

Lemma IsZero_true t : IsZero t = true <-> t = 0.
Proof. apply Z.eqb_eq. Qed.

(** ** Tactics *)

(** Turn the boolean tests of the source into the propositions they decide. *)
Ltac breflect :=
  repeat match goal with
  | H : _ && _ = true |- _ => apply andb_true_iff in H; destruct H
  | H : _ || _ = false |- _ => apply orb_false_iff in H; destruct H
  | H : negb _ = true |- _ => apply negb_true_iff in H
  | H : negb _ = false |- _ => apply negb_false_iff in H
  | H : Before _ _ = true |- _ => apply Before_true in H
  | H : Before _ _ = false |- _ => apply Before_false in H
  | H : After _ _ = true |- _ => apply After_true in H
  | H : (_ <? _) = true |- _ => apply Z.ltb_lt in H
  | H : (_ <? _) = false |- _ => apply Z.ltb_ge in H
  | H : (_ <=? _) = true |- _ => apply Z.leb_le in H
  | H : (_ <=? _) = false |- _ => apply Z.leb_gt in H
  | H : (_ =? _) = true |- _ => apply Z.eqb_eq in H
  | H : (_ =? _) = false |- _ => apply Z.eqb_neq in H
  | H : String.eqb _ _ = true |- _ => apply String.eqb_eq in H
  | H : String.eqb _ _ = false |- _ => apply String.eqb_neq in H
  | H : IsZero _ = true |- _ => apply IsZero_true in H
  | H : bool_decide _ = true |- _ => apply bool_decide_eq_true_1 in H
  | H : bool_decide _ = false |- _ => apply bool_decide_eq_false_1 in H
  end.

(** Split every [if] and [match] of the hypotheses and the goal, keeping the
    equations. *)
Ltac split_cases := repeat (case_match; simplify_eq/=).

(** ** Go's string order

    Go compares strings byte by byte, as [String.compare] does. *)

Lemma string_compare_trans s1 s2 s3 c :
  String.compare s1 s2 = c -> String.compare s2 s3 = c -> String.compare s1 s3 = c.
Proof.
  revert s2 s3. induction s1 as [|a s1 IH]; intros [|b s2] [|d s3]; simpl; try congruence.
  unfold Ascii.compare.
  destruct (N.compare_spec (Ascii.N_of_ascii a) (Ascii.N_of_ascii b)),
    (N.compare_spec (Ascii.N_of_ascii b) (Ascii.N_of_ascii d)),
    (N.compare_spec (Ascii.N_of_ascii a) (Ascii.N_of_ascii d)); intros; subst; try lia;
    try congruence; eauto.
Qed.

Lemma string_ltb_leb s1 s2 : String.ltb s1 s2 = negb (String.leb s2 s1).
Proof.
  unfold String.ltb, String.leb. rewrite (String.compare_antisym s2 s1).
  by destruct (String.compare s1 s2).
Qed.

Lemma string_leb_trans s1 s2 s3 :
  String.leb s1 s2 = true -> String.leb s2 s3 = true -> String.leb s1 s3 = true.
Proof.
  unfold String.leb. intros H1 H2.
  destruct (String.compare s1 s2) eqn:E1; [|  |done].
  - apply String.compare_eq_iff in E1 as ->. done.
  - destruct (String.compare s2 s3) eqn:E2; [| |done].
    + apply String.compare_eq_iff in E2 as <-. by rewrite E1.
    + by rewrite (string_compare_trans _ _ _ _ E1 E2).
Qed.

(** ** The least element of a list, as a Go loop over a map finds it

    [for _, x := range m { if next == nil || x.before(next) { next = x } }] *)

Section Least.
Context {A : Type} (before : A -> A -> bool).

Definition least_step (next : option A) (x : A) : option A :=
  match next with
  | None => Some x
  | Some n => if before x n then Some x else next
  end.

Definition least (l : list A) : option A := fold_left least_step l None.

Context (before_irrefl : forall x, before x x = false).
Context (before_trans : forall x y z, before x y = true -> before y z = true -> before x z = true).

Lemma least_from (l : list A) (n : A) :
  exists m, fold_left least_step l (Some n) = Some m /\ (m = n \/ m ∈ l) /\
    (m = n \/ before m n = true).
Proof using before_irrefl before_trans.
  revert n. induction l as [|x l IH]; intros n; simpl.
  - exists n. auto.
  - destruct (before x n) eqn:E.
    + destruct (IH x) as (m & -> & Hin & Hle). exists m. split; [done|].
      split; [set_solver|]. right.
      destruct Hle as [->|Hle]; [done | by eapply before_trans].
    + destruct (IH n) as (m & -> & Hin & Hle). exists m. split; [done|].
      split; [set_solver | done].
Qed.

Lemma least_None (l : list A) : least l = None <-> l = [].
Proof using before_irrefl before_trans.
  split; [|by intros ->]. destruct l as [|x l]; [done|]. unfold least; simpl.
  destruct (least_from l x) as (m & -> & _). done.
Qed.

Lemma least_elem (l : list A) (m : A) : least l = Some m -> m ∈ l.
Proof using before_irrefl before_trans.
  destruct l as [|x l]; [done|]. unfold least; simpl.
  destruct (least_from l x) as (m' & -> & Hin & _). intros [= ->]. set_solver.
Qed.

Context (before_negtrans : forall x y z, before x y = false -> before y z = false -> before x z = false).

Lemma least_minimal_from (l : list A) (n m : A) :
  fold_left least_step l (Some n) = Some m ->
  before n m = false /\ forall x, x ∈ l -> before x m = false.
Proof using before_irrefl before_trans before_negtrans.
  revert n. induction l as [|x l IH]; intros n; simpl.
  - intros [= ->]. split; [apply before_irrefl | set_solver].
  - destruct (before x n) eqn:E; intros Hm; apply IH in Hm as [Hn Hl].
    + split.
      * destruct (before n m) eqn:En; [|done].
        by rewrite (before_trans x n m) in Hn.
      * intros y [->|Hy]%elem_of_cons; [done | by apply Hl].
    + split; [done|]. intros y [->|Hy]%elem_of_cons; [|by apply Hl].
      by eapply before_negtrans.
Qed.

Lemma least_minimal (l : list A) (m : A) :
  least l = Some m -> forall x, x ∈ l -> before x m = false.
Proof using before_irrefl before_trans before_negtrans.
  destruct l as [|x l]; [done|]. unfold least; simpl. intros Hm.
  apply least_minimal_from in Hm as [Hx Hl].
  intros y [->|Hy]%elem_of_cons; [done | by apply Hl].
Qed.

(** When distinct elements of the list are ordered one way or the other, the
    loop's answer does not depend on the order the list comes in: Go's
    randomised map iteration cannot be observed. *)
Lemma least_permutation (l l' : list A) :
  (forall x y, x ∈ l -> y ∈ l -> before x y = false -> before y x = false -> x = y) ->
  l ≡ₚ l' -> least l = least l'.
Proof using before_irrefl before_trans before_negtrans.
  intros Htot Hp. destruct (least l) as [m|] eqn:E, (least l') as [m'|] eqn:E'.
  - f_equal. apply Htot.
    + by apply least_elem.
    + rewrite Hp. by apply least_elem.
    + eapply least_minimal; [done|]. rewrite <- Hp. by apply least_elem.
    + eapply least_minimal; [done|]. rewrite Hp. by apply least_elem.
  - apply least_None in E'. subst l'. apply Permutation_nil_r in Hp. by subst l.
  - apply least_None in E. subst l. apply Permutation_nil_l in Hp. by subst l'.
  - done.
Qed.
End Least.
