(* ===== verification/GoBytes.v ===== *)
(** * The parts of Go's bytes and strings packages the modelled code uses

    A byte slice or a string is its list of bytes.  [TrimSpace] trims the runes
    of [unicode.IsSpace]; since every such rune has one UTF-8 encoding, a rune
    at an end of the slice is one of the byte sequences below. *)

From stdpp Require Import base tactics numbers list strings gmap sets.
From Stdlib Require Import ZArith Lia Ascii.
From S2P Require Import Prelude.

Local Open Scope list_scope.

Abbreviation bytes := (list ascii) (only parsing).

Definition of_string (s : string) : bytes := String.list_ascii_of_string s.
Definition to_string (b : bytes) : string := String.string_of_list_ascii b.

Lemma to_of_string s : to_string (of_string s) = s.
Proof. apply String.string_of_list_ascii_of_string. Qed.

(** A byte as a number, and whether it is within bounds. *)
Definition code (c : ascii) : Z := Z.of_nat (nat_of_ascii c).

Definition within (lo hi : Z) (c : ascii) : bool := (lo <=? code c)%Z && (code c <=? hi)%Z.

Definition byte_of (n : nat) : ascii := ascii_of_nat n.

(** ** Prefixes *)

Fixpoint strip_prefix (p b : bytes) : option bytes :=
  match p, b with
  | [], _ => Some b
  | x :: p, y :: b => if Ascii.eqb x y then strip_prefix p b else None
  | _ :: _, [] => None
  end.

(** [bytes.TrimPrefix] *)
Definition TrimPrefix (b p : bytes) : bytes :=
  match strip_prefix p b with Some r => r | None => b end.

(** [strings.HasPrefix] *)
Definition HasPrefix (b p : bytes) : bool :=
  match strip_prefix p b with Some _ => true | None => false end.

(** [strings.HasSuffix] *)
Definition HasSuffix (b p : bytes) : bool := HasPrefix (rev b) (rev p).

(** [strings.TrimSuffix] *)
Definition TrimSuffix (b p : bytes) : bytes :=
  match strip_prefix (rev p) (rev b) with Some r => rev r | None => b end.

(** ** Trimming *)

(** The UTF-8 encodings of the runes of [unicode.IsSpace]. *)
Definition space_runes : list bytes :=
  map (map byte_of)
    [[9]; [10]; [11]; [12]; [13]; [32]; [194; 133]; [194; 160]; [225; 154; 128];
     [226; 128; 128]; [226; 128; 129]; [226; 128; 130]; [226; 128; 131]; [226; 128; 132];
     [226; 128; 133]; [226; 128; 134]; [226; 128; 135]; [226; 128; 136]; [226; 128; 137];
     [226; 128; 138]; [226; 128; 168]; [226; 128; 169]; [226; 128; 175]; [226; 129; 159];
     [227; 128; 128]]%nat.

(** The rest of [b] after the first of [seqs] it starts with. *)
Fixpoint strip_any (seqs : list bytes) (b : bytes) : option bytes :=
  match seqs with
  | [] => None
  | s :: seqs => match strip_prefix s b with Some r => Some r | None => strip_any seqs b end
  end.

Fixpoint trim_fuel (n : nat) (seqs : list bytes) (b : bytes) : bytes :=
  match n with
  | O => b
  | S n => match strip_any seqs b with Some r => trim_fuel n seqs r | None => b end
  end.

(** Each pass strips a byte at least, so the length of the slice is enough. *)
Definition trim_left (seqs : list bytes) (b : bytes) : bytes := trim_fuel (length b) seqs b.

Definition trim_right (seqs : list bytes) (b : bytes) : bytes :=
  rev (trim_left (map (@rev ascii) seqs) (rev b)).

(** [bytes.TrimSpace] *)
Definition TrimSpace (b : bytes) : bytes := trim_right space_runes (trim_left space_runes b).

(** The cut set [" \t"] of [bytes.TrimLeft] and [bytes.TrimRight]. *)
Definition blank_cutset : list bytes := map (map byte_of) [[32]; [9]]%nat.

Definition TrimLeftBlank (b : bytes) : bytes := trim_left blank_cutset b.
Definition TrimRightBlank (b : bytes) : bytes := trim_right blank_cutset b.

(** ** Searching *)

(** [bytes.IndexByte]: [None] for -1. *)
Fixpoint IndexByte (b : bytes) (c : ascii) : option nat :=
  match b with
  | [] => None
  | x :: b => if Ascii.eqb x c then Some O
              else match IndexByte b c with Some i => Some (S i) | None => None end
  end.

(** [bytes.Cut] at a one-byte separator. *)
Fixpoint CutByte (b : bytes) (c : ascii) : option (bytes * bytes) :=
  match b with
  | [] => None
  | x :: b => if Ascii.eqb x c then Some ([], b)
              else match CutByte b c with Some (l, r) => Some (x :: l, r) | None => None end
  end.

(** [bytes.Split] at a one-byte separator. *)
Fixpoint SplitByte (b : bytes) (c : ascii) : list bytes :=
  match b with
  | [] => [[]]
  | x :: b =>
      if Ascii.eqb x c then [] :: SplitByte b c
      else match SplitByte b c with
           | [] => [[x]]
           | l :: ls => (x :: l) :: ls
           end
  end.

(** ** Facts *)

Lemma strip_prefix_Some p b r : strip_prefix p b = Some r <-> b = p ++ r.
Proof.
  revert b. induction p as [|x p IH]; intros b; simpl; [naive_solver|].
  destruct b as [|y b]; [naive_solver|].
  destruct (Ascii.eqb_spec x y) as [->|Hne]; [rewrite IH|]; naive_solver.
Qed.

Lemma strip_prefix_None p b : strip_prefix p b = None <-> forall r, b <> p ++ r.
Proof.
  destruct (strip_prefix p b) as [r|] eqn:E.
  - apply strip_prefix_Some in E. naive_solver.
  - split; [|done]. intros _ r Hr%strip_prefix_Some. congruence.
Qed.

Lemma HasPrefix_true b p : HasPrefix b p = true <-> exists r, b = p ++ r.
Proof.
  unfold HasPrefix. destruct (strip_prefix p b) as [r|] eqn:E.
  - apply strip_prefix_Some in E. naive_solver.
  - rewrite strip_prefix_None in E. naive_solver.
Qed.

Lemma HasSuffix_true b p : HasSuffix b p = true <-> exists r, b = r ++ p.
Proof.
  unfold HasSuffix. rewrite HasPrefix_true. split; intros [r Hr].
  - exists (rev r). apply (f_equal (@rev ascii)) in Hr.
    by rewrite rev_involutive, rev_app_distr, rev_involutive in Hr.
  - exists (rev r). by rewrite Hr, rev_app_distr.
Qed.

Lemma strip_any_None seqs b :
  strip_any seqs b = None <-> forall s, s ∈ seqs -> strip_prefix s b = None.
Proof.
  induction seqs as [|s seqs IH]; simpl; [set_solver|].
  destruct (strip_prefix s b) eqn:E; [split; [done|]|].
  - intros H. rewrite H in E; [done | set_solver].
  - rewrite IH. set_solver.
Qed.

Lemma strip_any_Some seqs b r :
  strip_any seqs b = Some r -> exists s, s ∈ seqs /\ b = s ++ r.
Proof.
  induction seqs as [|s seqs IH]; simpl; [done|].
  destruct (strip_prefix s b) eqn:E; intros H.
  - apply strip_prefix_Some in E. exists s. simplify_eq. set_solver.
  - destruct (IH H) as (s' & Hs & ->). exists s'. set_solver.
Qed.

Section Trim.
Context (seqs : list bytes) (Hne : Forall (fun s => s <> []) seqs).

Lemma trim_fuel_None n b : strip_any seqs b = None -> trim_fuel n seqs b = b.
Proof using. intros H. destruct n; simpl; [done|]. by rewrite H. Qed.

(** The loop ends on a slice that starts with none of the sequences. *)
Lemma trim_fuel_stops n b : (length b <= n)%nat -> strip_any seqs (trim_fuel n seqs b) = None.
Proof using Hne.
  revert b. induction n as [|n IH]; intros b Hn; simpl.
  - destruct b; [|simpl in Hn; lia]. apply strip_any_None. intros s Hs.
    rewrite Forall_forall in Hne. specialize (Hne s Hs). by destruct s.
  - destruct (strip_any seqs b) as [r|] eqn:E; [|done]. apply IH.
    destruct (strip_any_Some _ _ _ E) as (s & Hs & ->). rewrite length_app in Hn.
    rewrite Forall_forall in Hne. specialize (Hne s Hs). destruct s; [done|]. simpl in Hn. lia.
Qed.

Lemma trim_left_id b : strip_any seqs b = None -> trim_left seqs b = b.
Proof using. apply trim_fuel_None. Qed.

(** Trimming keeps a suffix. *)
Lemma trim_fuel_suffix n b : exists p, b = p ++ trim_fuel n seqs b.
Proof using.
  revert b. induction n as [|n IH]; intros b; simpl; [by exists []|].
  destruct (strip_any seqs b) as [r|] eqn:E; [|by exists []].
  destruct (strip_any_Some _ _ _ E) as (s & _ & ->). destruct (IH r) as [p Hp].
  exists (s ++ p). rewrite <- app_assoc. by rewrite <- Hp.
Qed.

End Trim.

Lemma space_runes_nonempty : Forall (fun s => s <> []) space_runes.
Proof. repeat constructor; discriminate. Qed.

Lemma blank_cutset_nonempty : Forall (fun s => s <> []) blank_cutset.
Proof. repeat constructor; discriminate. Qed.

(** A sequence of [seqs] starts or ends with one of these bytes. *)
Definition heads (seqs : list bytes) : list ascii := omap head seqs.

Lemma strip_any_head seqs c b :
  Forall (fun s => s <> []) seqs -> c ∉ heads seqs -> strip_any seqs (c :: b) = None.
Proof.
  intros Hne Hc. apply strip_any_None. intros s Hs.
  rewrite Forall_forall in Hne. specialize (Hne s Hs). destruct s as [|d s]; [done|]. simpl.
  destruct (Ascii.eqb_spec d c) as [->|]; [|done].
  exfalso. apply Hc. unfold heads. apply list_elem_of_omap. exists (c :: s). done.
Qed.

Lemma trim_right_last seqs b c :
  Forall (fun s => s <> []) seqs -> c ∉ heads (map (@rev ascii) seqs) ->
  trim_right seqs (b ++ [c]) = b ++ [c].
Proof.
  intros Hne Hc. unfold trim_right. rewrite rev_app_distr. simpl.
  rewrite trim_left_id; [by simpl; rewrite rev_involutive|].
  apply strip_any_head; [|done]. apply Forall_map. eapply Forall_impl; [exact Hne|].
  intros s Hs H. apply Hs. apply (f_equal (@rev ascii)) in H. by rewrite rev_involutive in H.
Qed.

(** A slice none of whose bytes starts or ends a sequence is not trimmed. *)
Lemma trim_both_id seqs b :
  Forall (fun s => s <> []) seqs ->
  Forall (fun c => (c ∉ heads seqs) /\ c ∉ heads (map (@rev ascii) seqs)) b ->
  trim_right seqs (trim_left seqs b) = b.
Proof.
  intros Hne Hb. rewrite trim_left_id.
  - destruct b as [|c b _] using rev_ind; [done|]. apply Forall_app in Hb as [_ Hb].
    inversion Hb as [|? ? [_ Hc] _]. by apply trim_right_last.
  - destruct b as [|c b].
    + apply strip_any_None. intros s Hs. rewrite Forall_forall in Hne. specialize (Hne s Hs).
      by destruct s.
    + inversion Hb as [|? ? [Hc _] _]. by apply strip_any_head.
Qed.

Lemma CutByte_app l c r : c ∉ l -> CutByte (l ++ c :: r) c = Some (l, r).
Proof.
  induction l as [|x l IH]; intros Hc; simpl.
  - by rewrite Ascii.eqb_refl.
  - destruct (Ascii.eqb_spec x c) as [->|]; [set_solver|]. rewrite IH; [done | set_solver].
Qed.

Lemma IndexByte_app l c r : c ∉ l -> IndexByte (l ++ c :: r) c = Some (length l).
Proof.
  induction l as [|x l IH]; intros Hc; simpl.
  - by rewrite Ascii.eqb_refl.
  - destruct (Ascii.eqb_spec x c) as [->|]; [set_solver|]. rewrite IH; [done | set_solver].
Qed.

Lemma SplitByte_nonempty b c : SplitByte b c <> [].
Proof.
  destruct b as [|x b]; simpl; [done|]. destruct (Ascii.eqb x c); [done|].
  by destruct (SplitByte b c).
Qed.

Lemma SplitByte_app l c r : c ∉ l -> SplitByte (l ++ c :: r) c = l :: SplitByte r c.
Proof.
  induction l as [|x l IH]; intros Hc; simpl.
  - by rewrite Ascii.eqb_refl.
  - destruct (Ascii.eqb_spec x c) as [->|]; [set_solver|]. rewrite IH; [done | set_solver].
Qed.

(** A separator anywhere splits the pieces before it from those after it. *)
Lemma SplitByte_app_sep a c b : SplitByte (a ++ c :: b) c = SplitByte a c ++ SplitByte b c.
Proof.
  induction a as [|x a IH]; simpl.
  - by rewrite Ascii.eqb_refl.
  - destruct (Ascii.eqb_spec x c) as [->|]; [by rewrite IH|]. rewrite IH.
    pose proof (SplitByte_nonempty a c). by destruct (SplitByte a c).
Qed.

Lemma TrimSuffix_app b p : TrimSuffix (b ++ p) p = b.
Proof.
  unfold TrimSuffix. rewrite rev_app_distr.
  rewrite (proj2 (strip_prefix_Some (rev p) _ (rev b))) by done. apply rev_involutive.
Qed.
