(* ===== verification/JobsTypes.v ===== *)
(** * jobs/errors.go and the error values of the jobs package

    Go errors are modelled as trees: a package-level sentinel, a leaf, a value
    that wraps another with [%w], [errors.Join], and the package's own error
    types ([*Error], [permanentError], [*DuplicateError]).  [errors.Is] and
    [errors.As] walk the tree depth first, as the standard library does.  The
    rendered messages are not modelled: a wrapping keeps the operand it was
    formatted with.

    The second part has the data of the package. *)

From stdpp Require Import base tactics strings gmap.
From Stdlib Require Import ZArith Lia Ascii.
From S2P Require Import Prelude.

Local Open Scope string_scope.
Local Open Scope Z_scope.

(** Why running a job failed. *)
Inductive Kind : Type :=
| KindUnknownJob
| KindDecode
| KindUnsupportedVersion
| KindPanic
| KindTimeout
| KindUpgrade
| KindHandler.

#[export] Instance Kind_eq_dec : EqDecision Kind.
Proof. solve_decision. Defined.

(** The package-level error values: each [errors.New] is its own identity. *)
Inductive sentinel : Type :=
(* errors.go *)
| ErrUnknownJob | ErrDecode | ErrUnsupportedVersion | ErrPanic | ErrTimeout
| ErrUpgrade | ErrHandler
(* queue.go *)
| ErrNoJob | ErrLeaseLost | ErrDuplicateJob | ErrInvalidQueue | ErrClosed
(* failed.go, unique.go *)
| ErrNotFailed | ErrDuplicateDispatch | ErrInProgress
(* registry.go *)
| ErrInvalidName | ErrDuplicateName | ErrInvalidJobType | ErrNameMismatch
| ErrVersionMismatch | errJobTimeout
(* worker.go *)
| ErrNoQueue | errSetAside | errNotSetAside.

#[export] Instance sentinel_eq_dec : EqDecision sentinel.
Proof. solve_decision. Defined.

Scheme All for option.

Inductive error : Type :=
| Sentinel (s : sentinel)
| Text (msg : string)
| Wrapf (operand : string) (e : error)
| Join (e1 e2 : error)
| JobError (kind : Kind) (name : string) (version : Z) (cause : option error)
| PermanentError (e : error)
| DuplicateError (queue key holderID : string).

(** [kindSentinels] *)
Definition kindSentinels (k : Kind) : sentinel :=
  match k with
  | KindUnknownJob => ErrUnknownJob
  | KindDecode => ErrDecode
  | KindUnsupportedVersion => ErrUnsupportedVersion
  | KindPanic => ErrPanic
  | KindTimeout => ErrTimeout
  | KindUpgrade => ErrUpgrade
  | KindHandler => ErrHandler
  end.

(** [errors.Is(err, target)] for a sentinel target: the value itself, its [Is]
    method, then what it unwraps to. *)
Fixpoint Is (err : error) (target : sentinel) : bool :=
  match err with
  | Sentinel s => bool_decide (s = target)
  | Text _ => false
  | Wrapf _ e => Is e target
  | Join e1 e2 => Is e1 target || Is e2 target
  | JobError k _ _ cause =>
      bool_decide (kindSentinels k = target) ||
      match cause with Some e => Is e target | None => false end
  | PermanentError e => Is e target
  | DuplicateError _ _ _ => bool_decide (ErrDuplicateDispatch = target)
  end.

(** [errors.As(err, &jobErr)] for [*Error]: the first one on the chain. *)
Fixpoint As_Error (err : error) : option Kind :=
  match err with
  | Sentinel _ | Text _ | DuplicateError _ _ _ => None
  | Wrapf _ e | PermanentError e => As_Error e
  | Join e1 e2 => match As_Error e1 with Some k => Some k | None => As_Error e2 end
  | JobError k _ _ _ => Some k
  end.

(** [errors.As(err, &p)] for [permanentError]. *)
Fixpoint As_permanentError (err : error) : bool :=
  match err with
  | Sentinel _ | Text _ | DuplicateError _ _ _ => false
  | Wrapf _ e => As_permanentError e
  | Join e1 e2 => As_permanentError e1 || As_permanentError e2
  | JobError _ _ _ cause => match cause with Some e => As_permanentError e | None => false end
  | PermanentError _ => true
  end.

(** [Classify]: the kind of a failure, [None] for a nil error (the empty Kind). *)
Definition Classify (err : option error) : option Kind :=
  match err with
  | None => None
  | Some e => match As_Error e with Some k => Some k | None => Some KindHandler end
  end.

(** [Permanent] *)
Definition Permanent (err : option error) : option error :=
  match err with
  | None => None
  | Some e => Some (PermanentError e)
  end.

(** [IsPermanent] *)
Definition IsPermanent (err : option error) : bool :=
  match err with
  | None => false
  | Some e => As_permanentError e || bool_decide (Classify err = Some KindDecode)
  end.

(** ** Facts *)

(** The outermost classified failure decides: whatever a handler's error wraps
    (a sub-job's failure, say), a [JobError] is of its own kind. *)
Lemma Classify_JobError k n v c : Classify (Some (JobError k n v c)) = Some k.
Proof. reflexivity. Qed.

Lemma Is_kind k n v c : Is (JobError k n v c) (kindSentinels k) = true.
Proof. simpl. by rewrite bool_decide_eq_true_2. Qed.

Lemma IsPermanent_JobError k n v c :
  IsPermanent (Some (JobError k n v c)) =
  match c with Some e => As_permanentError e | None => false end || bool_decide (k = KindDecode).
Proof.
  unfold IsPermanent. simpl. f_equal.
  destruct (decide (k = KindDecode)) as [->|]; [done|].
  rewrite !bool_decide_eq_false_2; congruence.
Qed.

#[export] Hint Rewrite IsPermanent_JobError : gombit.

(** * The data of the jobs package

    Envelopes, deliveries, failures and statistics (jobs/job.go, jobs/queue.go,
    jobs/failed.go), uniqueness keys (jobs/unique.go), and the name rule they
    share with the configuration (config.ValidJobName). *)

Local Open Scope string_scope.
Local Open Scope Z_scope.

(** [type Envelope struct]; the payload is its raw bytes. *)
Record Envelope : Type := mkEnvelope {
  ID : string;
  Name : string;
  Version : Z;
  Payload : string;
  Metadata : gmap string string;
  EnqueuedAt : time;
  Attempt : Z
}.

(** [env.Attempt = n] *)
Definition setAttempt (n : Z) (e : Envelope) : Envelope :=
  mkEnvelope (ID e) (Name e) (Version e) (Payload e) (Metadata e) (EnqueuedAt e) n.

(** [Envelope.validate] *)
Definition Envelope_validate (e : Envelope) : option error :=
  if String.eqb (Name e) "" then
    Some (JobError KindDecode "" 0 (Some (Text "envelope has no job name")))
  else if String.eqb (ID e) "" then
    Some (JobError KindDecode (Name e) 0 (Some (Text "envelope has no job ID")))
  else None.

(** ** Names *)

(** The character class of [ValidJobName].  The source ranges over runes: a
    multi-byte rune is outside every class, and so is its first byte here, so
    reading bytes stops at the same place. *)
Definition name_letter (c : ascii) : bool :=
  let n := Z.of_nat (nat_of_ascii c) in
  ((97 <=? n) && (n <=? 122)) || ((48 <=? n) && (n <=? 57)).

Definition name_separator (c : ascii) : bool :=
  Ascii.eqb c "_" || Ascii.eqb c "." || Ascii.eqb c ":" || Ascii.eqb c "-".

(** The loop, [first] when [i = 0]. *)
Fixpoint valid_name_from (first : bool) (s : string) : bool :=
  match s with
  | EmptyString => true
  | String c s =>
      (name_letter c || (negb first && name_separator c)) && valid_name_from false s
  end.

(** [config.ValidJobName] *)
Definition ValidJobName (name : string) : bool :=
  if String.eqb name "" || (128 <? Z.of_nat (String.length name)) then false
  else valid_name_from true name.

(** [ValidName] *)
Definition ValidName (name : string) : bool := ValidJobName name.

(** ** Uniqueness keys *)

Record UniqueKey : Type := mkUniqueKey {
  Key : string;
  TTL : duration;
  UntilDone : bool
}.

(** [UniqueKey.validate] *)
Definition UniqueKey_validate (u : UniqueKey) : option error :=
  if String.eqb (Key u) "" then Some (Text "jobs: empty uniqueness key")
  else if TTL u <=? 0 then Some (Wrapf (Key u) (Text "TTL must be positive"))
  else None.

(** ** Failures *)

Inductive Reason : Type := ReasonExhausted | ReasonPermanent | ReasonUndecodable.

#[export] Instance Reason_eq_dec : EqDecision Reason.
Proof. solve_decision. Defined.

(** [type Failure struct]; the source keeps the text of the last error, the
    model the error itself. *)
Record Failure : Type := mkFailure {
  FReason : Reason;
  FKind : Kind;
  FError : error;
  FAt : time
}.

(** [f.At = t] *)
Definition setAt (t : time) (f : Failure) : Failure :=
  mkFailure (FReason f) (FKind f) (FError f) t.

Record FailedJob : Type := mkFailedJob {
  FJQueue : string;
  FJEnvelope : Envelope;
  FJRawEnvelope : string;
  FJAttempts : Z;
  FJFailure : Failure
}.

(** ** Deliveries *)

Record Delivery : Type := mkDelivery {
  DQueue : string;
  DEnvelope : Envelope;
  DReceipt : string;
  DLeaseExpired : bool;
  DAvailableAt : time;
  DErr : option error
}.

(** The key a delivery's job is stored under. *)
Definition DKey (d : Delivery) : string * string := (DQueue d, ID (DEnvelope d)).

Record QueueStats : Type := mkQueueStats {
  Ready : Z;
  Scheduled : Z;
  Reserved : Z;
  SFailed : Z;
  OldestReady : time
}.

(** ** Facts *)

Lemma ValidName_bounds s :
  ValidName s = true -> s <> "" /\ (1 <= String.length s <= 128)%nat.
Proof.
  unfold ValidName, ValidJobName. case_match eqn:E; [done|]. intros _.
  breflect. split; [done|]. destruct s; [done|]. simpl in *. lia.
Qed.
