(* ===== verification/JobsPolicy.v ===== *)
(** * jobs/policy.go: execution options and retry delays, and the worker's
    reserve back-off (jobs/worker.go)

    Durations are int64 nanoseconds; the loops are written with the
    multiplication wrapped to 64 bits, so that the closed forms below also say
    that no doubling overflows. *)

From stdpp Require Import base tactics strings.
From Stdlib Require Import ZArith Lia.
From S2P Require Import Prelude JobsTypes.

Local Open Scope string_scope.
Local Open Scope Z_scope.

(** [type Backoff func(attempt int) time.Duration] *)
Definition Backoff : Type := Z -> duration.

(** [type Options struct]; a nil Backoff is [None]. *)
Record Options : Type := mkOptions {
  MaxAttempts : Z;
  Timeout : duration;
  OBackoff : option Backoff
}.

Definition NoTimeout : duration := -1.
Definition DefaultMaxAttempts : Z := 5.
Definition defaultBackoffBase : duration := 10 * Second.
Definition defaultBackoffMax : duration := 10 * Minute.

(** The doubling loop of [Exponential]: [n] bounds the iterations left
    ([i < attempt]). *)
Fixpoint exponential_loop (n : nat) (max wait : duration) : duration :=
  match n with
  | O => wait
  | S n =>
      if wait <? max then
        if Z.quot max 2 <? wait then max
        else exponential_loop n max (wrap_int64 (wait * 2))
      else wait
  end.

Definition Exponential (base max : duration) : Backoff := fun attempt =>
  let wait := exponential_loop (Z.to_nat (attempt - 1)) max base in
  if max <? wait then max else wait.

Definition DefaultBackoff : Backoff := Exponential defaultBackoffBase defaultBackoffMax.

Definition Constant (d : duration) : Backoff := fun _ => d.

(** [Jittered]; [int64N n] is the draw of [rand.Int64N(n)]. *)
Definition Jittered (int64N : Z -> Z) (b : Backoff) : Backoff := fun attempt =>
  let d := b attempt in
  if d <=? 1 then d
  else
    let half := Z.quot d 2 in
    wrap_int64 (half + int64N (wrap_int64 (d - half + 1))).

(** [Options.validate] *)
Definition validate (o : Options) : option error :=
  if MaxAttempts o <? 0 then Some (Text "options: MaxAttempts is negative")
  else if (Timeout o <? 0) && negb (Timeout o =? NoTimeout) then
    Some (Text "options: Timeout is negative")
  else None.

(** [Options.resolve] *)
Definition resolve (o defaults : Options) : Options :=
  let m := if MaxAttempts o =? 0 then MaxAttempts defaults else MaxAttempts o in
  let m := if m =? 0 then DefaultMaxAttempts else m in
  let t := if Timeout o =? 0 then Timeout defaults else Timeout o in
  let t := if t =? NoTimeout then 0 else t in
  let b := match OBackoff o with None => OBackoff defaults | Some b => Some b end in
  let b := match b with None => Some DefaultBackoff | Some b => Some b end in
  mkOptions m t b.

(** [policy.Backoff(attempt)]: calling a nil function panics in Go; a resolved
    policy always has one ([resolve_backoff]). *)
Definition callBackoff (o : Options) (attempt : Z) : option duration :=
  match OBackoff o with Some b => Some (b attempt) | None => None end.

Definition maxReserveBackoff : duration := 30 * Second.

Fixpoint reserveBackoff_loop (n : nat) (wait : duration) : duration :=
  match n with
  | O => wait
  | S n =>
      if wait <? maxReserveBackoff then reserveBackoff_loop n (wrap_int64 (wait * 2))
      else wait
  end.

(** [reserveBackoff] of worker.go *)
Definition reserveBackoff (poll : duration) (failures : Z) : duration :=
  let wait := reserveBackoff_loop (Z.to_nat (failures - 1)) poll in
  if maxReserveBackoff <? wait then maxReserveBackoff else wait.

(** ** The closed forms *)

Lemma pow2_ge_1 (n : nat) : 1 <= 2 ^ Z.of_nat n.
Proof. pose proof (Z.pow_pos_nonneg 2 (Z.of_nat n)). lia. Qed.

Lemma pow2_succ (n : nat) : 2 ^ Z.of_nat (S n) = 2 * 2 ^ Z.of_nat n.
Proof. rewrite Nat2Z.inj_succ, Z.pow_succ_r; lia. Qed.

(** A value already at or past the cap stays past it when doubled. *)
Lemma min_scaled_past (cap w : Z) (n : nat) :
  0 <= w -> cap <= w -> Z.min (w * 2 ^ Z.of_nat n) cap = Z.min w cap.
Proof. intros Hw Hc. pose proof (pow2_ge_1 n). nia. Qed.

Lemma exponential_loop_spec n max wait :
  0 <= wait -> in_int64 max ->
  Z.min (exponential_loop n max wait) max = Z.min (wait * 2 ^ Z.of_nat n) max.
Proof.
  intros Hw Hmax. revert wait Hw.
  induction n as [|n IH]; intros wait Hw; [simpl; f_equal; lia|].
  cbn [exponential_loop]. destruct (wait <? max) eqn:E1; breflect.
  - destruct (Z.quot max 2 <? wait) eqn:E2; breflect.
    + assert (max < wait * 2).
      { pose proof (Z.quot_rem' max 2). pose proof (Z.rem_bound_pos max 2). lia. }
      rewrite pow2_succ. pose proof (pow2_ge_1 n). nia.
    + assert (wait * 2 <= max).
      { pose proof (Z.quot_rem' max 2). pose proof (Z.rem_bound_pos max 2). lia. }
      rewrite wrap_int64_id by (unfold in_int64, min_int64 in *; lia).
      rewrite IH by lia. rewrite pow2_succ. f_equal. lia.
  - symmetry. apply min_scaled_past; lia.
Qed.

Lemma reserveBackoff_loop_spec n wait :
  0 <= wait ->
  Z.min (reserveBackoff_loop n wait) maxReserveBackoff =
  Z.min (wait * 2 ^ Z.of_nat n) maxReserveBackoff.
Proof.
  revert wait. induction n as [|n IH]; intros wait Hw; [simpl; f_equal; lia|].
  cbn [reserveBackoff_loop]. destruct (wait <? maxReserveBackoff) eqn:E; breflect.
  - rewrite wrap_int64_id
      by (unfold in_int64, min_int64, max_int64, maxReserveBackoff, Second in *; lia).
    rewrite IH by lia. rewrite pow2_succ. f_equal. lia.
  - symmetry. apply min_scaled_past; lia.
Qed.

Lemma cap_is_min (max wait : Z) : (if max <? wait then max else wait) = Z.min wait max.
Proof. destruct (max <? wait) eqn:E; breflect; lia. Qed.

(** The doubling loop of Exponential computes base times 2 to the attempt minus one, capped
    at max, for every attempt and every 64-bit cap, without overflowing on the way. *)
Theorem Exponential_closed_form (base max attempt : Z) :
  0 <= base -> in_int64 max -> 1 <= attempt ->
  Exponential base max attempt = Z.min (base * 2 ^ (attempt - 1)) max.
Proof.
  intros Hb Hm Ha. unfold Exponential. rewrite cap_is_min, exponential_loop_spec by done.
  rewrite Z2Nat.id by lia. done.
Qed.

Lemma Exponential_closed_form_witness :
  Exponential (10 * Second) (10 * Minute) 100 = 600 * Second.
Proof.
  rewrite (Exponential_closed_form (10 * Second) (10 * Minute) 100);
    [reflexivity | vm_compute; discriminate | split; vm_compute; discriminate | lia].
Defined.

(** The wait after failed reserves doubles from the poll interval up to its maximum. *)
Theorem reserveBackoff_closed_form (poll failures : Z) :
  0 <= poll -> 1 <= failures ->
  reserveBackoff poll failures = Z.min (poll * 2 ^ (failures - 1)) maxReserveBackoff.
Proof.
  intros Hp Hf. unfold reserveBackoff. rewrite cap_is_min, reserveBackoff_loop_spec by done.
  rewrite Z2Nat.id by lia. done.
Qed.

Lemma reserveBackoff_closed_form_witness : reserveBackoff Second 4 = 8 * Second.
Proof.
  rewrite (reserveBackoff_closed_form Second 4); [reflexivity | vm_compute; discriminate | lia].
Defined.

(** ** Options *)

Lemma validate_None o :
  validate o = None <-> 0 <= MaxAttempts o /\ (0 <= Timeout o \/ Timeout o = NoTimeout).
Proof.
  unfold validate. destruct (MaxAttempts o <? 0) eqn:E1; breflect.
  { split; [done | lia]. }
  destruct ((Timeout o <? 0) && negb (Timeout o =? NoTimeout)) eqn:E2.
  - breflect. split; [done | lia].
  - split; [|done]. intros _. split; [done|].
    apply andb_false_iff in E2 as [E2|E2]; breflect; auto.
Qed.

(** A resolved policy never lacks a back-off. *)
Lemma resolve_backoff o d : exists b, OBackoff (resolve o d) = Some b.
Proof. unfold resolve; simpl. destruct (OBackoff o), (OBackoff d); eauto. Qed.

Lemma resolve_MaxAttempts_nonzero o d : MaxAttempts (resolve o d) <> 0.
Proof.
  unfold resolve, DefaultMaxAttempts; simpl. destruct (MaxAttempts o =? 0) eqn:E1; breflect.
  - destruct (MaxAttempts d =? 0) eqn:E2; breflect; lia.
  - destruct (MaxAttempts o =? 0) eqn:E2; breflect; lia.
Qed.

Lemma resolve_Timeout_not_NoTimeout o d : Timeout (resolve o d) <> NoTimeout.
Proof.
  unfold resolve, NoTimeout; simpl.
  destruct (Timeout o =? 0); [destruct (Timeout d =? -1) eqn:E | destruct (Timeout o =? -1) eqn:E];
    breflect; lia.
Qed.

(** What a resolved policy that passes [validate] guarantees a worker: at
    least one attempt, a timeout that is a real bound or none (0), a back-off. *)
Lemma resolve_valid o d :
  validate (resolve o d) = None ->
  1 <= MaxAttempts (resolve o d) /\ 0 <= Timeout (resolve o d) /\
  exists b, OBackoff (resolve o d) = Some b.
Proof.
  intros [Hm Ht]%validate_None.
  pose proof (resolve_MaxAttempts_nonzero o d).
  pose proof (resolve_Timeout_not_NoTimeout o d).
  split; [lia|]. split; [|apply resolve_backoff]. by destruct Ht.
Qed.

(** Valid options over valid defaults resolve to a valid policy. *)
Lemma resolve_preserves_valid o d :
  validate o = None -> validate d = None -> validate (resolve o d) = None.
Proof.
  rewrite !validate_None. unfold resolve, NoTimeout, DefaultMaxAttempts; simpl.
  intros [Hm Ht] [Hm' Ht'].
  split.
  - destruct (MaxAttempts o =? 0) eqn:E; breflect;
      [destruct (MaxAttempts d =? 0) | destruct (MaxAttempts o =? 0)]; lia.
  - left. destruct (Timeout o =? 0) eqn:E;
      [destruct (Timeout d =? -1) eqn:E' | destruct (Timeout o =? -1) eqn:E'];
      breflect; lia.
Qed.

(** Jitter stays within half the delay and the delay, for any random draw. *)
Lemma Jittered_range int64N b attempt :
  (forall n, 0 < n -> 0 <= int64N n < n) -> 1 < b attempt -> in_int64 (b attempt) ->
  Z.quot (b attempt) 2 <= Jittered int64N b attempt <= b attempt.
Proof.
  intros Hr Hd Hi. unfold Jittered. destruct (b attempt <=? 1) eqn:E; breflect; [lia|].
  set (d := b attempt) in *. set (half := Z.quot d 2).
  assert (0 <= half /\ 2 * half <= d <= 2 * half + 1).
  { unfold half. pose proof (Z.quot_rem' d 2). pose proof (Z.rem_bound_pos d 2). lia. }
  unfold in_int64, min_int64, max_int64 in Hi.
  rewrite (wrap_int64_id (d - half + 1)) by (unfold in_int64, min_int64, max_int64; lia).
  pose proof (Hr (d - half + 1)). rewrite wrap_int64_id
    by (unfold in_int64, min_int64, max_int64; lia). lia.
Qed.
