(* ===== verification/JobsMemory.v ===== *)
(** * jobs/memory.go: the in-process queue

    [MemoryQueue] with every method of the [Queue] and [OnceStore] interfaces.
    Each method is a function from the queue to the queue and the method's
    result; the mutex makes each one atomic.  What the model takes as
    arguments: the clock ([now], or [clk i] for the i-th reading of a method
    that reads it more than once), and the fresh UUID of a lease.

    [q.jobs] maps a (queue, ID) pair to a pointer; a method that mutates
    [*job] updates the map at the key it looked the job up by. *)

From stdpp Require Import base tactics numbers list sorting strings gmap fin_maps.
From Stdlib Require Import ZArith Lia.
From S2P Require Import Prelude JobsTypes.

Local Open Scope string_scope.
Local Open Scope Z_scope.

(** ** State *)

Record memoryClaim : Type := mkClaim {
  c_holder : string;
  c_expires : time
}.

Definition onceDoneMarker : string := "done".
Definition claimSweepEvery : Z := 256.

Definition memoryKey : Type := string * string.

Record memoryJob : Type := mkJob {
  j_queue : string;
  j_env : Envelope;
  j_attempts : Z;
  j_availableAt : time;
  j_seq : Z;
  j_reserved : bool;
  j_receipt : string;
  j_leaseDeadline : time;
  j_failure : option Failure;
  j_raw : string;
  j_unique : string;
  j_uniqueTTL : duration;
  j_heldUnique : bool
}.

Record MemoryQueue : Type := mkQueue {
  q_ops : Z;
  q_jobs : gmap (string * string) memoryJob;
  q_uniques : gmap (string * string) memoryClaim;
  q_once : gmap string memoryClaim;
  q_seq : Z;
  q_closed : bool
}.

(** [NewMemoryQueue] *)
Definition NewMemoryQueue : MemoryQueue := mkQueue 0 ∅ ∅ ∅ 0 false.

Definition set_jobs (m : gmap (string * string) memoryJob) (q : MemoryQueue) : MemoryQueue :=
  mkQueue (q_ops q) m (q_uniques q) (q_once q) (q_seq q) (q_closed q).

Definition set_uniques (m : gmap (string * string) memoryClaim) (q : MemoryQueue) : MemoryQueue :=
  mkQueue (q_ops q) (q_jobs q) m (q_once q) (q_seq q) (q_closed q).

Definition set_once (m : gmap string memoryClaim) (q : MemoryQueue) : MemoryQueue :=
  mkQueue (q_ops q) (q_jobs q) (q_uniques q) m (q_seq q) (q_closed q).

Definition set_seq (n : Z) (q : MemoryQueue) : MemoryQueue :=
  mkQueue (q_ops q) (q_jobs q) (q_uniques q) (q_once q) n (q_closed q).

(** [*job = j], for the job stored under [k]. *)
Definition put_job (k : string * string) (j : memoryJob) (q : MemoryQueue) : MemoryQueue :=
  set_jobs (<[k := j]> (q_jobs q)) q.

(** ** Claims *)

(** A claim is held at [now] while [now.Before(c.expires)]. *)
Definition live (now : time) (c : memoryClaim) : bool := Before now (c_expires c).

(** [sweepClaims] *)
Definition sweepClaims (now : time) (q : MemoryQueue) : MemoryQueue :=
  let ops := q_ops q + 1 in
  if ops <? claimSweepEvery then
    mkQueue ops (q_jobs q) (q_uniques q) (q_once q) (q_seq q) (q_closed q)
  else
    mkQueue 0 (q_jobs q)
      (filter (fun kc => live now kc.2 = true) (q_uniques q))
      (filter (fun kc => live now kc.2 = true) (q_once q))
      (q_seq q) (q_closed q).

(** [ClaimCount] *)
Definition ClaimCount (q : MemoryQueue) : nat := (size (q_uniques q) + size (q_once q))%nat.

(** [releaseUnique]: the job without its claim, and the claims. *)
Definition releaseUnique (j : memoryJob) (uniques : gmap (string * string) memoryClaim)
    : memoryJob * gmap (string * string) memoryClaim :=
  if negb (j_heldUnique j) then (j, uniques)
  else
    let ukey := (j_queue j, j_unique j) in
    let uniques :=
      match uniques !! ukey with
      | Some claim => if String.eqb (c_holder claim) (ID (j_env j)) then delete ukey uniques else uniques
      | None => uniques
      end in
    (mkJob (j_queue j) (j_env j) (j_attempts j) (j_availableAt j) (j_seq j) (j_reserved j)
       (j_receipt j) (j_leaseDeadline j) (j_failure j) (j_raw j) (j_unique j) (j_uniqueTTL j) false,
     uniques).

(** ** Push *)

(** [at.IsZero() || at.Before(now)] means now. *)
Definition clampAt (at_ now : time) : time :=
  if IsZero at_ || Before at_ now then now else at_.

(** The job [push] stores. *)
Definition newJob (queue : string) (env : Envelope) (at_ : time) (seq : Z)
    (unique : option UniqueKey) : memoryJob :=
  let held := match unique with Some u => UntilDone u | None => false end in
  mkJob queue (setAttempt 0 env) 0 at_ seq false "" 0 None ""
    (match unique with Some u => if UntilDone u then Key u else "" | None => "" end)
    (match unique with Some u => if UntilDone u then TTL u else 0 | None => 0 end)
    held.

(** The claim that refuses a unique push, if one is live. *)
Definition heldBy (now : time) (ukey : string * string)
    (uniques : gmap (string * string) memoryClaim) : option memoryClaim :=
  match uniques !! ukey with
  | Some claim => if live now claim then Some claim else None
  | None => None
  end.

(** The refusal of a unique push whose key is held. *)
Definition push_refused (now : time) (queue : string) (unique : option UniqueKey)
    (uniques : gmap (string * string) memoryClaim) : option error :=
  match unique with
  | None => None
  | Some u =>
      match heldBy now (queue, Key u) uniques with
      | Some claim => Some (DuplicateError queue (Key u) (c_holder claim))
      | None => None
      end
  end.

(** [push] *)
Definition push (clk : nat -> time) (queue : string) (env : Envelope) (at_ : time)
    (unique : option UniqueKey) (q : MemoryQueue) : MemoryQueue * option error :=
  if negb (ValidName queue) then (q, Some (Wrapf queue (Sentinel ErrInvalidQueue)))
  else if String.eqb (ID env) "" then (q, Some (Wrapf (Name env) (Text "envelope has no ID")))
  else if q_closed q then (q, Some (Sentinel ErrClosed))
  else
    let q1 := match unique with Some _ => sweepClaims (clk 0%nat) q | None => q end in
    match push_refused (clk 1%nat) queue unique (q_uniques q1) with
    | Some e => (q1, Some e)
    | None =>
        let key := (queue, ID env) in
        match q_jobs q1 !! key with
        | Some _ => (q1, Some (Wrapf (ID env) (Sentinel ErrDuplicateJob)))
        | None =>
            let now := clk 2%nat in
            let at_ := clampAt at_ now in
            let seq := wrap_uint64 (q_seq q1 + 1) in
            let job := newJob queue env at_ seq unique in
            let uniques :=
              match unique with
              | Some u => <[(queue, Key u) := mkClaim (ID env) (Add now (TTL u))]> (q_uniques q1)
              | None => q_uniques q1
              end in
            (put_job key job (set_uniques uniques (set_seq seq q1)), None)
        end
    end.

(** [Push] *)
Definition Push (clk : nat -> time) (queue : string) (env : Envelope) (at_ : time)
    (q : MemoryQueue) : MemoryQueue * option error :=
  push clk queue env at_ None q.

(** [PushUnique] *)
Definition PushUnique (clk : nat -> time) (queue : string) (env : Envelope) (at_ : time)
    (unique : UniqueKey) (q : MemoryQueue) : MemoryQueue * option error :=
  match UniqueKey_validate unique with
  | Some e => (q, Some e)
  | None => push clk queue env at_ (Some unique) q
  end.

(** ** Reserve *)

(** [available] *)
Definition available (now : time) (j : memoryJob) : bool :=
  match j_failure j with
  | Some _ => false
  | None => if j_reserved j then negb (Before now (j_leaseDeadline j))
            else negb (Before now (j_availableAt j))
  end.

(** [readyAt] *)
Definition readyAt (j : memoryJob) : time :=
  if j_reserved j then j_leaseDeadline j else j_availableAt j.

(** [before] *)
Definition before (j other : memoryJob) : bool :=
  let a := readyAt j in
  let b := readyAt other in
  if negb (a =? b) then Before a b else j_seq j <? j_seq other.

Definition before_entry (x y : (string * string) * memoryJob) : bool := before x.2 y.2.

(** The jobs the scan of one queue does not skip. *)
Definition candidates (now : time) (queue : string)
    (l : list ((string * string) * memoryJob)) : list ((string * string) * memoryJob) :=
  filter (fun kj => String.eqb (j_queue kj.2) queue && available now kj.2 = true) l.

(** The scan of one queue: [least] over the candidates, in the order the map
    iterates. *)
Definition next_job (now : time) (queue : string)
    (l : list ((string * string) * memoryJob)) : option ((string * string) * memoryJob) :=
  least before_entry (candidates now queue l).

(** The first queue with an available job. *)
Fixpoint reserve_scan (now : time) (queues : list string)
    (l : list ((string * string) * memoryJob))
    : option (string * ((string * string) * memoryJob)) :=
  match queues with
  | [] => None
  | queue :: queues =>
      match next_job now queue l with
      | Some kj => Some (queue, kj)
      | None => reserve_scan now queues l
      end
  end.

(** The leased job. *)
Definition lease_job (receipt : string) (deadline : time) (j : memoryJob) : memoryJob :=
  mkJob (j_queue j) (j_env j) (wrap_int64 (j_attempts j + 1)) (j_availableAt j) (j_seq j) true
    receipt deadline (j_failure j) (j_raw j) (j_unique j) (j_uniqueTTL j) (j_heldUnique j).

Fixpoint first_invalid (queues : list string) : option string :=
  match queues with
  | [] => None
  | queue :: queues => if negb (ValidName queue) then Some queue else first_invalid queues
  end.

(** [Reserve]; [uuid] is what [uuid.NewString] returns. *)
Definition Reserve (now : time) (uuid : string) (queues : list string) (lease : duration)
    (q : MemoryQueue) : MemoryQueue * result error Delivery :=
  if lease <=? 0 then (q, Err (Text "reserve: lease must be positive"))
  else match first_invalid queues with
  | Some queue => (q, Err (Wrapf queue (Sentinel ErrInvalidQueue)))
  | None =>
      if q_closed q then (q, Err (Sentinel ErrClosed))
      else match reserve_scan now queues (map_to_list (q_jobs q)) with
      | None => (q, Err (Sentinel ErrNoJob))
      | Some (queue, (k, next)) =>
          let next' := lease_job uuid (Add now lease) next in
          (put_job k next' q,
           Ok (mkDelivery queue (setAttempt (j_attempts next') (j_env next)) uuid
                 (j_reserved next) (readyAt next) None))
      end
  end.

(** ** Settling a delivery *)

(** [leased] *)
Definition leased (d : Delivery) (q : MemoryQueue) : result error memoryJob :=
  if q_closed q then Err (Sentinel ErrClosed)
  else match q_jobs q !! DKey d with
  | None => Err (Wrapf (ID (DEnvelope d)) (Sentinel ErrLeaseLost))
  | Some job =>
      if negb (j_reserved job) || String.eqb (DReceipt d) "" ||
         negb (String.eqb (j_receipt job) (DReceipt d))
      then Err (Wrapf (ID (DEnvelope d)) (Sentinel ErrLeaseLost))
      else Ok job
  end.

(** [Ack] *)
Definition Ack (d : Delivery) (q : MemoryQueue) : MemoryQueue * option error :=
  match leased d q with
  | Err e => (q, Some e)
  | Ok job =>
      let '(job, uniques) := releaseUnique job (q_uniques q) in
      (set_jobs (delete (j_queue job, ID (j_env job)) (q_jobs q)) (set_uniques uniques q), None)
  end.

(** The job [release] returns to its queue. *)
Definition released_job (attempts at_ seq : Z) (j : memoryJob) : memoryJob :=
  mkJob (j_queue j) (j_env j) attempts at_ seq false "" (j_leaseDeadline j) (j_failure j)
    (j_raw j) (j_unique j) (j_uniqueTTL j) (j_heldUnique j).

(** [release] *)
Definition release (now : time) (d : Delivery) (at_ : time) (uncount : bool) (q : MemoryQueue)
    : MemoryQueue * option error :=
  match leased d q with
  | Err e => (q, Some e)
  | Ok job =>
      let attempts := if uncount && (0 <? j_attempts job) then j_attempts job - 1
                      else j_attempts job in
      let at_ := clampAt at_ now in
      let seq := wrap_uint64 (q_seq q + 1) in
      (put_job (DKey d) (released_job attempts at_ seq job) (set_seq seq q), None)
  end.

(** [Release] *)
Definition Release (now : time) (d : Delivery) (at_ : time) (q : MemoryQueue) :=
  release now d at_ false q.

(** [Postpone] *)
Definition Postpone (now : time) (d : Delivery) (at_ : time) (q : MemoryQueue) :=
  release now d at_ true q.

(** [Extend] *)
Definition Extend (now : time) (d : Delivery) (lease : duration) (q : MemoryQueue)
    : MemoryQueue * option error :=
  if lease <=? 0 then (q, Some (Text "extend: lease must be positive"))
  else match leased d q with
  | Err e => (q, Some e)
  | Ok job =>
      (put_job (DKey d)
         (mkJob (j_queue job) (j_env job) (j_attempts job) (j_availableAt job) (j_seq job)
            (j_reserved job) (j_receipt job) (Add now lease) (j_failure job) (j_raw job)
            (j_unique job) (j_uniqueTTL job) (j_heldUnique job)) q, None)
  end.

(** The job [Bury] sets aside, its claim still to be released. *)
Definition buried_job (f : Failure) (j : memoryJob) : memoryJob :=
  mkJob (j_queue j) (j_env j) (j_attempts j) (j_availableAt j) (j_seq j) false ""
    (j_leaseDeadline j) (Some f) (j_raw j) (j_unique j) (j_uniqueTTL j) (j_heldUnique j).

(** [Bury] *)
Definition Bury (now : time) (d : Delivery) (f : Failure) (q : MemoryQueue)
    : MemoryQueue * option error :=
  match leased d q with
  | Err e => (q, Some e)
  | Ok job =>
      let f := if IsZero (FAt f) then setAt now f else f in
      let '(job, uniques) := releaseUnique (buried_job f job) (q_uniques q) in
      (put_job (DKey d) job (set_uniques uniques q), None)
  end.

(** ** Once records *)

Inductive OnceState : Type := OnceAcquired | OnceDone | OnceBusy.

#[export] Instance OnceState_eq_dec : EqDecision OnceState.
Proof. solve_decision. Defined.

(** [BeginOnce] *)
Definition BeginOnce (now : time) (key token : string) (lock : duration) (q : MemoryQueue)
    : MemoryQueue * OnceState :=
  let q := sweepClaims now q in
  let free := (set_once (<[key := mkClaim token (Add now lock)]> (q_once q)) q, OnceAcquired) in
  match q_once q !! key with
  | Some claim =>
      if live now claim then
        (q, if String.eqb (c_holder claim) onceDoneMarker then OnceDone else OnceBusy)
      else free
  | None => free
  end.

(** [FinishOnce] *)
Definition FinishOnce (clk : nat -> time) (key token : string) (keep : duration) (q : MemoryQueue)
    : MemoryQueue * option error :=
  let lost := (q, Some (Wrapf key (Sentinel ErrLeaseLost))) in
  match q_once q !! key with
  | Some claim =>
      if String.eqb (c_holder claim) token && live (clk 0%nat) claim then
        (set_once (<[key := mkClaim onceDoneMarker (Add (clk 1%nat) keep)]> (q_once q)) q, None)
      else lost
  | None => lost
  end.

(** [AbandonOnce] *)
Definition AbandonOnce (key token : string) (q : MemoryQueue) : MemoryQueue * option error :=
  match q_once q !! key with
  | Some claim =>
      if String.eqb (c_holder claim) token then (set_once (delete key (q_once q)) q, None)
      else (q, None)
  | None => (q, None)
  end.

(** ** Failed jobs *)

(** [failedJob]; Go dereferences [j.failure], so it is only called on a job
    that has one. *)
Definition failedJob (j : memoryJob) (f : Failure) : FailedJob :=
  mkFailedJob (j_queue j) (setAttempt (j_attempts j) (j_env j)) (j_raw j) (j_attempts j) f.

(** [failed] *)
Definition failed (queue id : string) (q : MemoryQueue) : result error (memoryJob * Failure) :=
  if q_closed q then Err (Sentinel ErrClosed)
  else match q_jobs q !! (queue, id) with
  | Some job => match j_failure job with
                | Some f => Ok (job, f)
                | None => Err (Wrapf id (Sentinel ErrNotFailed))
                end
  | None => Err (Wrapf id (Sentinel ErrNotFailed))
  end.

(** The order of a failed-jobs listing: most recent first, then ID descending. *)
Definition failed_before (a b : FailedJob) : bool :=
  let ta := FAt (FJFailure a) in
  let tb := FAt (FJFailure b) in
  if negb (ta =? tb) then After ta tb
  else String.ltb (ID (FJEnvelope b)) (ID (FJEnvelope a)).

(** [a] may stand before [b]. *)
Definition failed_le (a b : FailedJob) : Prop := failed_before b a = false.

#[export] Instance failed_le_dec a b : Decision (failed_le a b).
Proof. unfold failed_le. apply _. Defined.

Definition failed_entry (queue : string) (kj : (string * string) * memoryJob) : list FailedJob :=
  if String.eqb (j_queue kj.2) queue then
    match j_failure kj.2 with Some f => [failedJob kj.2 f] | None => [] end
  else [].

(** [Failed] *)
Definition Failed (queue : string) (limit : Z) (q : MemoryQueue) : result error (list FailedJob) :=
  if negb (ValidName queue) then Err (Wrapf queue (Sentinel ErrInvalidQueue))
  else if q_closed q then Err (Sentinel ErrClosed)
  else
    let out := merge_sort failed_le (map_to_list (q_jobs q) ≫= failed_entry queue) in
    Ok (if (0 <? limit) && (limit <? Z.of_nat (length out)) then take (Z.to_nat limit) out else out).

(** [FailedJob] *)
Definition GetFailedJob (queue id : string) (q : MemoryQueue) : result error FailedJob :=
  match failed queue id q with
  | Err e => Err e
  | Ok (job, f) => Ok (failedJob job f)
  end.

(** The job [RetryFailed] puts back. *)
Definition retried_job (now : time) (seq : Z) (held : bool) (j : memoryJob) : memoryJob :=
  mkJob (j_queue j) (j_env j) 0 now seq (j_reserved j) (j_receipt j) (j_leaseDeadline j) None
    (j_raw j) (j_unique j) (j_uniqueTTL j) held.

(** [RetryFailed] *)
Definition RetryFailed (clk : nat -> time) (queue id : string) (q : MemoryQueue)
    : MemoryQueue * option error :=
  match failed queue id q with
  | Err e => (q, Some e)
  | Ok (job, _) =>
      let seq := wrap_uint64 (q_seq q + 1) in
      if String.eqb (j_unique job) "" then
        (put_job (queue, id) (retried_job (clk 1%nat) seq (j_heldUnique job) job) (set_seq seq q),
         None)
      else
        let ukey := (queue, j_unique job) in
        let now := clk 0%nat in
        let claimed := set_uniques
          (<[ukey := mkClaim id (Add now (j_uniqueTTL job))]> (q_uniques q)) q in
        let free := (put_job (queue, id) (retried_job (clk 1%nat) seq true job)
                       (set_seq seq claimed), None) in
        match heldBy now ukey (q_uniques q) with
        | Some claim =>
            if negb (String.eqb (c_holder claim) id)
            then (q, Some (DuplicateError queue (j_unique job) (c_holder claim)))
            else free
        | None => free
        end
  end.

(** [ForgetFailed] *)
Definition ForgetFailed (queue id : string) (q : MemoryQueue) : MemoryQueue * option error :=
  match failed queue id q with
  | Err e => (q, Some e)
  | Ok _ => (set_jobs (delete (queue, id) (q_jobs q)) q, None)
  end.

(** What [PurgeFailed] deletes. *)
Definition purged (queue : string) (before : time) (j : memoryJob) : bool :=
  String.eqb (j_queue j) queue &&
  match j_failure j with
  | Some f => IsZero before || Before (FAt f) before
  | None => false
  end.

(** [PurgeFailed] *)
Definition PurgeFailed (queue : string) (before : time) (q : MemoryQueue)
    : MemoryQueue * result error nat :=
  if negb (ValidName queue) then (q, Err (Wrapf queue (Sentinel ErrInvalidQueue)))
  else if q_closed q then (q, Err (Sentinel ErrClosed))
  else
    (set_jobs (filter (fun kj => purged queue before kj.2 = false) (q_jobs q)) q,
     Ok (size (filter (fun kj => purged queue before kj.2 = true) (q_jobs q)))).

(** ** Statistics *)

(** One iteration of the loop of [Stats]. *)
Definition stats_step (now : time) (queue : string) (st : QueueStats)
    (kj : (string * string) * memoryJob) : QueueStats :=
  let job := kj.2 in
  if negb (String.eqb (j_queue job) queue) then st
  else match j_failure job with
  | Some _ => mkQueueStats (Ready st) (Scheduled st) (Reserved st) (SFailed st + 1) (OldestReady st)
  | None =>
      if j_reserved job && Before now (j_leaseDeadline job) then
        mkQueueStats (Ready st) (Scheduled st) (Reserved st + 1) (SFailed st) (OldestReady st)
      else if negb (j_reserved job) && Before now (j_availableAt job) then
        mkQueueStats (Ready st) (Scheduled st + 1) (Reserved st) (SFailed st) (OldestReady st)
      else
        let at_ := readyAt job in
        mkQueueStats (Ready st + 1) (Scheduled st) (Reserved st) (SFailed st)
          (if IsZero (OldestReady st) || Before at_ (OldestReady st) then at_ else OldestReady st)
  end.

(** [Stats] *)
Definition Stats (now : time) (queue : string) (q : MemoryQueue) : result error QueueStats :=
  if negb (ValidName queue) then Err (Wrapf queue (Sentinel ErrInvalidQueue))
  else if q_closed q then Err (Sentinel ErrClosed)
  else Ok (fold_left (stats_step now queue) (map_to_list (q_jobs q)) (mkQueueStats 0 0 0 0 0)).

(** [Len] *)
Definition Len (q : MemoryQueue) : nat := size (q_jobs q).

(** [Close] *)
Definition Close (q : MemoryQueue) : MemoryQueue :=
  mkQueue (q_ops q) ∅ (q_uniques q) (q_once q) (q_seq q) true.
