(* ===== verification/JobsMemoryInv.v ===== *)
(** * The invariant of the in-process queue

    The operations of [MemoryQueue] as one type of steps, the invariant [wf]
    that every reachable queue satisfies, and the run of a sequence of steps. *)

From stdpp Require Import base tactics numbers list sorting strings gmap fin_maps.
From Stdlib Require Import ZArith Lia.
From S2P Require Import Prelude JobsTypes JobsMemory.

Local Open Scope string_scope.
Local Open Scope Z_scope.

(** ** Steps *)

(** Every method that can change the queue, with what its caller and the clock
    give it. *)
Inductive op : Type :=
| OPush (clk : nat -> time) (queue : string) (env : Envelope) (at_ : time)
| OPushUnique (clk : nat -> time) (queue : string) (env : Envelope) (at_ : time) (u : UniqueKey)
| OReserve (now : time) (uuid : string) (queues : list string) (lease : duration)
| OAck (d : Delivery)
| ORelease (now : time) (d : Delivery) (at_ : time)
| OPostpone (now : time) (d : Delivery) (at_ : time)
| OExtend (now : time) (d : Delivery) (lease : duration)
| OBury (now : time) (d : Delivery) (f : Failure)
| OBeginOnce (now : time) (key token : string) (lock : duration)
| OFinishOnce (clk : nat -> time) (key token : string) (keep : duration)
| OAbandonOnce (key token : string)
| ORetryFailed (clk : nat -> time) (queue id : string)
| OForgetFailed (queue id : string)
| OPurgeFailed (queue : string) (before : time)
| OClose.

Definition apply (o : op) (q : MemoryQueue) : MemoryQueue :=
  match o with
  | OPush clk queue env at_ => (Push clk queue env at_ q).1
  | OPushUnique clk queue env at_ u => (PushUnique clk queue env at_ u q).1
  | OReserve now uuid queues lease => (Reserve now uuid queues lease q).1
  | OAck d => (Ack d q).1
  | ORelease now d at_ => (Release now d at_ q).1
  | OPostpone now d at_ => (Postpone now d at_ q).1
  | OExtend now d lease => (Extend now d lease q).1
  | OBury now d f => (Bury now d f q).1
  | OBeginOnce now key token lock => (BeginOnce now key token lock q).1
  | OFinishOnce clk key token keep => (FinishOnce clk key token keep q).1
  | OAbandonOnce key token => (AbandonOnce key token q).1
  | ORetryFailed clk queue id => (RetryFailed clk queue id q).1
  | OForgetFailed queue id => (ForgetFailed queue id q).1
  | OPurgeFailed queue before => (PurgeFailed queue before q).1
  | OClose => Close q
  end.

(** The delivery a step hands out. *)
Definition delivered (o : op) (q : MemoryQueue) : option Delivery :=
  match o with
  | OReserve now uuid queues lease =>
      match (Reserve now uuid queues lease q).2 with Ok d => Some d | Err _ => None end
  | _ => None
  end.

(** The instants a step reads the clock at. *)
Definition reads_at (o : op) (P : time -> Prop) : Prop :=
  match o with
  | OPush clk _ _ _ | OPushUnique clk _ _ _ _ | OFinishOnce clk _ _ _
  | ORetryFailed clk _ _ => forall i, P (clk i)
  | OReserve now _ _ _ | ORelease now _ _ | OPostpone now _ _ | OExtend now _ _
  | OBury now _ _ | OBeginOnce now _ _ _ => P now
  | OAck _ | OAbandonOnce _ _ | OForgetFailed _ _ | OPurgeFailed _ _ | OClose => True
  end.

(** The clock is past the zero time, and a UUID is not empty. *)
Definition op_ok (o : op) : Prop :=
  reads_at o (fun t => 0 < t) /\
  match o with
  | OReserve _ uuid _ _ => uuid <> ""
  | _ => True
  end.

(** ** The invariant *)

(** A stored job, under its key, in a queue whose last sequence number is
    [bound], after at most [n] steps. *)
Record job_ok (bound n : Z) (k : string * string) (j : memoryJob) : Prop := mkJobOk {
  jo_key : k = (j_queue j, ID (j_env j));
  jo_name : ValidName (j_queue j) = true;
  jo_id : ID (j_env j) <> "";
  jo_attempt : Attempt (j_env j) = 0;
  jo_seq : 0 < j_seq j <= bound;
  jo_attempts : 0 <= j_attempts j <= n;
  jo_receipt : j_reserved j = true <-> j_receipt j <> "";
  jo_failed : forall f, j_failure j = Some f -> j_reserved j = false /\ j_heldUnique j = false;
  jo_held : j_heldUnique j = true -> j_unique j <> "";
  jo_available : 0 < j_availableAt j;
  jo_deadline : j_reserved j = true -> 0 < j_leaseDeadline j
}.

Record wf (n : Z) (q : MemoryQueue) : Prop := mkWf {
  wf_jobs : map_Forall (job_ok (q_seq q) n) (q_jobs q);
  wf_seq_inj : forall k k' j j', q_jobs q !! k = Some j -> q_jobs q !! k' = Some j' ->
    j_seq j = j_seq j' -> k = k';
  wf_seq : 0 <= q_seq q <= n;
  wf_ops : 0 <= q_ops q < claimSweepEvery;
  wf_closed : q_closed q = true -> q_jobs q = ∅
}.

(** ** Generic preservation lemmas *)

Lemma job_ok_mono b b' n n' k j :
  b <= b' -> n <= n' -> job_ok b n k j -> job_ok b' n' k j.
Proof. intros Hb Hn []. split; auto; lia. Qed.

Lemma wf_mono n n' q : n <= n' -> wf n q -> wf n' q.
Proof.
  intros Hn []. split; auto; [|lia].
  eapply map_Forall_impl; [done|]. intros k j. apply job_ok_mono; lia.
Qed.

(** Only the jobs, the sequence number, the sweep counter and the closed flag
    matter. *)
Lemma wf_claims n q q' :
  q_jobs q' = q_jobs q -> q_seq q' = q_seq q -> q_closed q' = q_closed q ->
  0 <= q_ops q' < claimSweepEvery -> wf n q -> wf n q'.
Proof. intros Hj Hs Hc Ho []. split; rewrite ?Hj, ?Hs, ?Hc; auto. Qed.

Lemma wf_set_uniques n m q : wf n q -> wf n (set_uniques m q).
Proof. intros Hwf. apply (wf_claims n q); [done..|apply Hwf|done]. Qed.

Lemma wf_set_once n m q : wf n q -> wf n (set_once m q).
Proof. intros Hwf. apply (wf_claims n q); [done..|apply Hwf|done]. Qed.

Lemma wf_sweepClaims n now q : wf n q -> wf n (sweepClaims now q).
Proof.
  intros Hwf. unfold sweepClaims. pose proof (wf_ops _ _ Hwf).
  case_match eqn:E; breflect; (apply (wf_claims n q); [done..| |done]); simpl;
    unfold claimSweepEvery in *; lia.
Qed.

(** Dropping jobs. *)
Lemma wf_set_jobs n m q : m ⊆ q_jobs q -> wf n q -> wf n (set_jobs m q).
Proof.
  intros Hsub []. split; simpl; auto.
  - intros k j Hk. apply wf_jobs0. by eapply lookup_weaken.
  - intros k k' j j' Hk Hk'. eapply wf_seq_inj0; eapply lookup_weaken; eauto.
  - intros Hc. rewrite (wf_closed0 Hc) in Hsub. apply (anti_symm (⊆)); [done | apply map_empty_subseteq].
Qed.

(** Rewriting a job in place. *)
Lemma wf_put_same n k j j' q :
  q_jobs q !! k = Some j -> j_seq j' = j_seq j -> job_ok (q_seq q) n k j' ->
  wf n q -> wf n (put_job k j' q).
Proof.
  intros Hk Hseq Hok []. split; simpl; auto.
  - by apply map_Forall_insert_2.
  - intros k1 k2 j1 j2 H1 H2 He.
    destruct (decide (k = k1)) as [<-|], (decide (k = k2)) as [<-|]; simplify_map_eq; eauto.
    + eapply wf_seq_inj0; [exact Hk | exact H2 | congruence].
    + eapply wf_seq_inj0; [exact H1 | exact Hk | congruence].
  - intros Hc. rewrite (wf_closed0 Hc) in Hk. by rewrite lookup_empty in Hk.
Qed.

(** Storing a job, new or not, under the next sequence number. *)
Lemma wf_put_next n k j q :
  q_closed q = false -> n < max_uint64 ->
  j_seq j = q_seq q + 1 -> job_ok (q_seq q + 1) (n + 1) k j ->
  wf n q -> wf (n + 1) (put_job k j (set_seq (q_seq q + 1) q)).
Proof.
  intros Hopen Hn Hseq Hok []. split; simpl; [| |lia|done|congruence].
  - apply map_Forall_insert_2; [done|].
    eapply map_Forall_impl; [done|]. intros k' j'. apply job_ok_mono; lia.
  - intros k1 k2 j1 j2 H1 H2 He.
    destruct (decide (k = k1)) as [<-|], (decide (k = k2)) as [<-|]; simplify_map_eq; eauto.
    + pose proof (jo_seq _ _ _ _ (wf_jobs0 _ _ H2)). lia.
    + pose proof (jo_seq _ _ _ _ (wf_jobs0 _ _ H1)). lia.
Qed.

(** ** Where the operations look *)

Lemma leased_Ok d q j :
  leased d q = Ok j ->
  q_closed q = false /\ q_jobs q !! DKey d = Some j /\ j_reserved j = true /\
  j_receipt j = DReceipt d /\ DReceipt d <> "".
Proof.
  unfold leased. intros H. split_cases. by breflect.
Qed.

Lemma leased_Err d q e :
  leased d q = Err e -> e = Sentinel ErrClosed \/ Is e ErrLeaseLost = true.
Proof. unfold leased. intros H. split_cases; auto; right; done. Qed.

Lemma failed_Ok queue id q j f :
  failed queue id q = Ok (j, f) ->
  q_closed q = false /\ q_jobs q !! (queue, id) = Some j /\ j_failure j = Some f.
Proof. unfold failed. intros H. split_cases. done. Qed.

Lemma next_job_Some now queue l kj :
  next_job now queue l = Some kj ->
  kj ∈ l /\ j_queue kj.2 = queue /\ available now kj.2 = true.
Proof.
  intros H. assert (kj ∈ candidates now queue l) as Hin.
  { unfold next_job in H. destruct (candidates now queue l) as [|x c] eqn:E; [done|].
    rewrite <- E in *. clear E x c. revert H. generalize (candidates now queue l) as c.
    intros c. unfold least. 
    cut (forall n, fold_left (least_step before_entry) c n = Some kj -> n = Some kj \/ kj ∈ c).
    { intros Hc H. destruct (Hc _ H); done. }
    induction c as [|x c IH]; intros n Hn; simpl in Hn; [auto|].
    destruct (IH _ Hn) as [Hx|Hx]; [|right; set_solver].
    destruct n as [y|]; simpl in Hx; [|right; set_solver].
    case_match; simplify_eq; [right; set_solver | auto]. }
  unfold candidates in Hin. apply list_elem_of_filter in Hin as [Ht Hin]. breflect. done.
Qed.

Lemma reserve_scan_Some now queues l queue kj :
  reserve_scan now queues l = Some (queue, kj) ->
  queue ∈ queues /\ next_job now queue l = Some kj.
Proof.
  induction queues as [|x queues IH]; simpl; [done|].
  case_match eqn:E; intros; simplify_eq; [set_solver|].
  destruct IH; [done|]. set_solver.
Qed.

(** A successful Reserve: the job it leases, and how the queue changes. *)
Lemma Reserve_Ok now uuid queues lease q q' d :
  Reserve now uuid queues lease q = (q', Ok d) ->
  exists k j, q_jobs q !! k = Some j /\ available now j = true /\ j_queue j ∈ queues /\
    DQueue d = j_queue j /\ 0 < lease /\ q_closed q = false /\ first_invalid queues = None /\
    q' = put_job k (lease_job uuid (Add now lease) j) q /\
    d = mkDelivery (j_queue j) (setAttempt (wrap_int64 (j_attempts j + 1)) (j_env j)) uuid
          (j_reserved j) (readyAt j) None /\
    next_job now (j_queue j) (map_to_list (q_jobs q)) = Some (k, j).
Proof.
  unfold Reserve. intros H. case_match eqn:El; breflect; [done|].
  case_match eqn:Ei; [done|]. case_match eqn:Ec; [done|].
  case_match eqn:Es; [|done]. destruct p as [queue [k j]].
  apply reserve_scan_Some in Es as [Hq Hn]. pose proof Hn as Hn'.
  apply next_job_Some in Hn' as (Hin & Hj & Hav). simpl in *.
  apply elem_of_map_to_list in Hin. simplify_eq. exists k, j. auto 12.
Qed.

(** A refused Reserve changes nothing. *)
Lemma Reserve_Err now uuid queues lease q q' e :
  Reserve now uuid queues lease q = (q', Err e) -> q' = q.
Proof. unfold Reserve. intros H. split_cases; done. Qed.

Lemma releaseUnique_job j m :
  exists h, (releaseUnique j m).1 =
    mkJob (j_queue j) (j_env j) (j_attempts j) (j_availableAt j) (j_seq j) (j_reserved j)
      (j_receipt j) (j_leaseDeadline j) (j_failure j) (j_raw j) (j_unique j) (j_uniqueTTL j) h
    /\ h = false.
Proof.
  unfold releaseUnique. destruct (j_heldUnique j) eqn:E; simpl.
  - eauto.
  - exists false. split; [|done]. destruct j; simpl in *; congruence.
Qed.

(** ** Every operation preserves the invariant *)

Section Preservation.
Context (n : Z) (q : MemoryQueue).
Context (Hn : n < max_int64) (Hwf : wf n q).

#[local] Hint Resolve wf_set_uniques wf_set_once wf_sweepClaims : gombit.

Local Lemma n_uint : n < max_uint64.
Proof using Hn. unfold max_int64, max_uint64 in *. lia. Qed.

Local Lemma next_seq : wrap_uint64 (q_seq q + 1) = q_seq q + 1.
Proof using Hn Hwf.
  apply wrap_uint64_id. pose proof (wf_seq _ _ Hwf). pose proof n_uint. lia.
Qed.

Local Lemma wf_next q' : wf n q' -> wf (n + 1) q'.
Proof using. apply wf_mono. lia. Qed.

Lemma clampAt_positive at_ now : 0 < now -> 0 < clampAt at_ now.
Proof using.
  unfold clampAt. intros H. case_match eqn:E; [done|]. apply orb_false_iff in E as [_ E].
  breflect. lia.
Qed.

Lemma newJob_ok queue env at_ s u m :
  ValidName queue = true -> ID env <> "" -> 0 < s -> 0 <= m -> 0 < at_ ->
  (forall u', u = Some u' -> Key u' <> "") ->
  job_ok s m (queue, ID env) (newJob queue env at_ s u).
Proof using.
  intros Hq Hid Hs Hm Hat Hu. split; simpl; auto; try lia; try done.
  destruct u as [u|]; [|done]. intros ->. auto.
Qed.

Lemma push_wf clk queue env at_ u :
  0 < clk 2%nat ->
  (forall u', u = Some u' -> Key u' <> "") -> wf (n + 1) (push clk queue env at_ u q).1.
Proof using Hn Hwf.
  intros Hclk Hu. unfold push.
  case_match eqn:E1; [by apply wf_next|].
  case_match eqn:E2; [by apply wf_next|].
  case_match eqn:E3; [by apply wf_next|]. breflect.
  set (q1 := match u with Some _ => sweepClaims (clk 0%nat) q | None => q end).
  assert (wf n q1 /\ q_seq q1 = q_seq q /\ q_closed q1 = false) as (Hwf1 & Hs & Hc).
  { subst q1. destruct u; [|auto]. split; [auto with gombit|].
    unfold sweepClaims. case_match; auto. }
  case_match; [by apply wf_next|]. case_match eqn:Ej; [by apply wf_next|].
  simpl. rewrite Hs, next_seq, <- Hs.
  match goal with |- wf _ (put_job _ _ (set_uniques ?m _)) =>
    change (wf (n + 1) (put_job (queue, ID env)
      (newJob queue env (clampAt at_ (clk 2%nat)) (q_seq q1 + 1) u)
      (set_seq (q_seq (set_uniques m q1) + 1) (set_uniques m q1)))) end.
  pose proof (wf_seq _ _ Hwf1). pose proof n_uint.
  apply wf_put_next; [done|done|done| |auto with gombit].
  apply newJob_ok; auto using clampAt_positive; simpl; lia.
Qed.

Lemma Reserve_wf now uuid queues lease :
  0 < now -> uuid <> "" -> wf (n + 1) (Reserve now uuid queues lease q).1.
Proof using Hn Hwf.
  intros Hnow Hu. destruct (Reserve now uuid queues lease q) as [q' [d|e]] eqn:E; simpl.
  - apply Reserve_Ok in E as (k & j & Hk & Hav & Hq & _ & Hl & Hc & _ & -> & _).
    pose proof (wf_jobs _ _ Hwf _ _ Hk) as [].
    eapply wf_put_same; [done|done| |by apply wf_next].
    split; simpl; auto.
    + rewrite wrap_int64_id; [lia|]. unfold in_int64, min_int64, max_int64 in *. lia.
    + done.
    + intros f Hf. unfold available in Hav. rewrite Hf in Hav. done.
    + unfold Add. lia.
  - apply Reserve_Err in E as ->. by apply wf_next.
Qed.

Lemma Ack_wf d : wf (n + 1) (Ack d q).1.
Proof using Hwf.
  unfold Ack. case_match eqn:E; [|by apply wf_next].
  destruct (releaseUnique a (q_uniques q)) as [j' m]. simpl.
  apply wf_next. apply wf_set_jobs; [|auto with gombit]. apply delete_subseteq.
Qed.

Lemma release_wf now d at_ uncount : 0 < now -> wf (n + 1) (release now d at_ uncount q).1.
Proof using Hn Hwf.
  intros Hnow. unfold release. case_match eqn:E; [|by apply wf_next].
  apply leased_Ok in E as (Hc & Hk & Hr & Hrec & Hne). simpl. rewrite next_seq.
  pose proof (wf_jobs _ _ Hwf _ _ Hk) as []. pose proof (wf_seq _ _ Hwf). pose proof n_uint.
  apply wf_put_next; auto.
  split; simpl; auto; try lia; try done.
  - destruct (uncount && (0 <? j_attempts a)) eqn:E; breflect; lia.
  - intros f Hf. destruct (jo_failed0 f Hf). congruence.
  - by apply clampAt_positive.
Qed.

Lemma Extend_wf now d lease : 0 < now -> wf (n + 1) (Extend now d lease q).1.
Proof using Hwf.
  intros Hnow. unfold Extend. case_match eqn:El; breflect; [by apply wf_next|]. case_match eqn:E; [|by apply wf_next].
  apply leased_Ok in E as (Hc & Hk & Hr & Hrec & Hne). simpl.
  pose proof (wf_jobs _ _ Hwf _ _ Hk) as [].
  eapply wf_put_same; [done|done| |by apply wf_next]. split; simpl; auto; unfold Add; lia.
Qed.

Lemma Bury_wf now d f : wf (n + 1) (Bury now d f q).1.
Proof using Hwf.
  unfold Bury. case_match eqn:E; [|by apply wf_next].
  apply leased_Ok in E as (Hc & Hk & Hr & Hrec & Hne).
  pose proof (wf_jobs _ _ Hwf _ _ Hk) as [].
  set (f' := if IsZero (FAt f) then setAt now f else f).
  destruct (releaseUnique_job (buried_job f' a) (q_uniques q)) as (h & Hj & ->).
  destruct (releaseUnique (buried_job f' a) (q_uniques q)) as [j' m]. simpl in Hj. subst j'.
  simpl. eapply wf_put_same with (j := a); [done|done| |].
  - split; simpl; auto; try lia; done.
  - apply wf_next. auto with gombit.
Qed.

Lemma RetryFailed_wf clk queue id : 0 < clk 1%nat -> wf (n + 1) (RetryFailed clk queue id q).1.
Proof using Hn Hwf.
  intros Hclk. unfold RetryFailed. case_match eqn:E; [|by apply wf_next]. destruct a as [j f].
  apply failed_Ok in E as (Hc & Hk & Hf). rewrite next_seq.
  pose proof (wf_jobs _ _ Hwf _ _ Hk) as []. pose proof (wf_seq _ _ Hwf). pose proof n_uint.
  assert (forall t h, 0 < t -> (h = true -> j_unique j <> "") ->
    job_ok (q_seq q + 1) (n + 1) (queue, id) (retried_job t (q_seq q + 1) h j)) as Hok.
  { intros t h Ht Hh. split; simpl; auto; try lia. done. }
  case_match eqn:Eu; simpl.
  - apply wf_put_next; auto.
  - breflect.
    assert (forall m, wf (n + 1) (put_job (queue, id) (retried_job (clk 1%nat) (q_seq q + 1) true j)
       (set_seq (q_seq q + 1) (set_uniques m q)))) as Hput.
    { intros m. change (q_seq q) with (q_seq (set_uniques m q)) at 2.
      apply wf_put_next; auto with gombit. }
    case_match; [case_match; simpl; [by apply wf_next|] |]; apply Hput.
Qed.

(** One step keeps the invariant. *)
Lemma apply_wf o : op_ok o -> wf (n + 1) (apply o q).
Proof using Hn Hwf.
  destruct o; simpl; intros [Hnow Hok].
  - by apply push_wf.
  - unfold PushUnique. case_match eqn:E; [by apply wf_next|]. apply push_wf; [apply Hnow|].
    intros u' [= <-]. unfold UniqueKey_validate in E. case_match eqn:E'; [done|]. by breflect.
  - by apply Reserve_wf.
  - apply Ack_wf.
  - by apply release_wf.
  - by apply release_wf.
  - by apply Extend_wf.
  - apply Bury_wf.
  - apply wf_next. unfold BeginOnce. repeat case_match; simpl; auto with gombit.
  - apply wf_next. unfold FinishOnce. repeat case_match; simpl; auto with gombit.
  - apply wf_next. unfold AbandonOnce. repeat case_match; simpl; auto with gombit.
  - apply RetryFailed_wf. apply Hnow.
  - apply wf_next. unfold ForgetFailed. case_match; simpl; [|done].
    apply wf_set_jobs; [apply delete_subseteq | exact Hwf].
  - apply wf_next. unfold PurgeFailed. repeat case_match; simpl; [done..|].
    apply wf_set_jobs; [apply map_filter_subseteq | exact Hwf].
  - destruct Hwf. split; simpl; auto using map_Forall_empty; try done; lia.
Qed.
End Preservation.

(** ** Reachable queues *)

Inductive reachable : Z -> MemoryQueue -> Prop :=
| reachable_new : reachable 0 NewMemoryQueue
| reachable_step n q o : reachable n q -> op_ok o -> reachable (n + 1) (apply o q).

Lemma wf_of_reachable n q : reachable n q -> n <= max_int64 -> wf n q.
Proof.
  induction 1 as [|n q o Hr IH Hok]; intros Hn.
  - split; simpl; auto using map_Forall_empty; try done; lia.
  - apply apply_wf; [lia| |done]. apply IH. lia.
Qed.
