(* ===== verification/JobsMemoryQueue.v ===== *)
(** * What the in-process queue promises

    The life of one job as a transition system ([fate]), and that every
    operation moves every stored job along it; from that, leases exclude each
    other, and jobs leave the queue only by being acknowledged, forgotten,
    purged or dropped with the queue.

    The second part has the theorems of the queue. *)

From stdpp Require Import base tactics numbers list sorting strings gmap fin_maps.
From Stdlib Require Import ZArith Lia.
From S2P Require Import Prelude JobsTypes JobsMemory JobsMemoryInv.

Local Open Scope string_scope.
Local Open Scope Z_scope.

(** ** The life of a job *)

(** [holds d k j]: [d] is the current lease of job [j], stored under [k]. *)
Definition holds (d : Delivery) (k : string * string) (j : memoryJob) : Prop :=
  DKey d = k /\ j_reserved j = true /\ j_receipt j = DReceipt d.

(** What a step may do to a stored job: nothing, or one of the moves the
    [Queue] contract names, each with its guard. *)
Inductive fate : op -> string * string -> memoryJob -> option memoryJob -> Prop :=
| fate_same o k j : fate o k j (Some j)
| fate_reserve now uuid queues lease k j :
    available now j = true -> 0 < lease -> j_queue j ∈ queues ->
    fate (OReserve now uuid queues lease) k j (Some (lease_job uuid (Add now lease) j))
| fate_ack d k j : holds d k j -> fate (OAck d) k j None
| fate_release now d at_ k j s :
    holds d k j ->
    fate (ORelease now d at_) k j (Some (released_job (j_attempts j) (clampAt at_ now) s j))
| fate_postpone now d at_ k j s :
    holds d k j ->
    fate (OPostpone now d at_) k j
      (Some (released_job (if 0 <? j_attempts j then j_attempts j - 1 else j_attempts j)
               (clampAt at_ now) s j))
| fate_extend now d lease k j j' :
    holds d k j -> 0 < lease ->
    j_leaseDeadline j' = Add now lease -> j_receipt j' = j_receipt j ->
    j_reserved j' = true -> j_failure j' = j_failure j -> j_env j' = j_env j ->
    j_attempts j' = j_attempts j -> j_queue j' = j_queue j ->
    fate (OExtend now d lease) k j (Some j')
| fate_bury now d f k j f' j' :
    holds d k j -> (f' = f \/ f' = setAt now f) ->
    j_failure j' = Some f' -> j_reserved j' = false -> j_heldUnique j' = false ->
    j_env j' = j_env j -> j_attempts j' = j_attempts j -> j_queue j' = j_queue j ->
    fate (OBury now d f) k j (Some j')
| fate_retry clk queue id j f s h :
    j_failure j = Some f ->
    fate (ORetryFailed clk queue id) (queue, id) j (Some (retried_job (clk 1%nat) s h j))
| fate_forget queue id j f :
    j_failure j = Some f -> fate (OForgetFailed queue id) (queue, id) j None
| fate_purge queue before k j f :
    j_failure j = Some f -> j_queue j = queue -> before = 0 \/ FAt f < before ->
    fate (OPurgeFailed queue before) k j None
| fate_close k j : fate OClose k j None.

Create HintDb fate.
#[export] Hint Constructors fate : fate.

Lemma sweepClaims_jobs now q : q_jobs (sweepClaims now q) = q_jobs q.
Proof. unfold sweepClaims. by case_match. Qed.

Lemma push_lookup clk queue env at_ u q k j :
  q_jobs q !! k = Some j -> q_jobs (push clk queue env at_ u q).1 !! k = Some j.
Proof.
  intros Hk. unfold push. case_match; [done|]. case_match; [done|]. case_match; [done|].
  set (q1 := match u with Some _ => sweepClaims (clk 0%nat) q | None => q end).
  assert (q_jobs q1 = q_jobs q) as Hq by (subst q1; destruct u; auto using sweepClaims_jobs).
  case_match; simpl; [by rewrite Hq|]. case_match eqn:Ej; simpl; rewrite ?Hq in *; [done|].
  rewrite lookup_insert_ne; [done | congruence].
Qed.

Section Fate.
Context (n : Z) (q : MemoryQueue) (Hwf : wf n q).
Context (k : string * string) (j : memoryJob) (Hk : q_jobs q !! k = Some j).

(** A delivery that is the current lease of some job is [j]'s or leaves [j]
    alone. *)
Local Lemma leased_here d a : leased d q = Ok a -> DKey d = k -> a = j /\ holds d k j.
Proof using Hk.
  intros (_ & Ha & Hr & Hrec & _)%leased_Ok <-. rewrite Hk in Ha. simplify_eq. done.
Qed.

Local Lemma put_elsewhere k' j' q' :
  k' <> k -> q_jobs q' !! k = Some j -> q_jobs (put_job k' j' q') !! k = Some j.
Proof using. intros Hne H. simpl. by rewrite lookup_insert_ne. Qed.

Lemma fate_of_Reserve now uuid queues lease :
  fate (OReserve now uuid queues lease) k j
    (q_jobs (Reserve now uuid queues lease q).1 !! k).
Proof using Hk.
  destruct (Reserve now uuid queues lease q) as [q' [d|e]] eqn:E; simpl.
  - apply Reserve_Ok in E as (k' & j' & Hk' & Hav & Hq & _ & Hl & _ & _ & -> & _).
    destruct (decide (k' = k)) as [->|]; simpl.
    + simplify_map_eq. auto with fate.
    + rewrite lookup_insert_ne, Hk by done. auto with fate.
  - apply Reserve_Err in E as ->. rewrite Hk. auto with fate.
Qed.

Lemma fate_of_Ack d : fate (OAck d) k j (q_jobs (Ack d q).1 !! k).
Proof using Hwf Hk.
  unfold Ack. case_match eqn:E; simpl; [|rewrite Hk; auto with fate].
  destruct (releaseUnique_job a (q_uniques q)) as (h & Hj & _).
  destruct (releaseUnique a (q_uniques q)) as [a' m]. simpl in *. subst a'. simpl.
  pose proof E as E'. apply leased_Ok in E' as (_ & Ha & _).
  pose proof (jo_key _ _ _ _ (wf_jobs _ _ Hwf _ _ Ha)) as Hkey. rewrite <- Hkey.
  destruct (decide (DKey d = k)) as [He|Hne].
  - destruct (leased_here _ _ E He). rewrite He, lookup_delete_eq. auto with fate.
  - rewrite lookup_delete_ne, Hk by done. auto with fate.
Qed.

Lemma fate_of_release now d at_ :
  fate (ORelease now d at_) k j (q_jobs (Release now d at_ q).1 !! k) /\
  fate (OPostpone now d at_) k j (q_jobs (Postpone now d at_ q).1 !! k).
Proof using Hk.
  unfold Release, Postpone, release.
  case_match eqn:E; simpl; [|rewrite Hk; auto with fate].
  destruct (decide (DKey d = k)) as [He|Hne].
  - destruct (leased_here _ _ E He) as [-> Hh]. rewrite He, !lookup_insert_eq. auto with fate.
  - rewrite !lookup_insert_ne, Hk by done. auto with fate.
Qed.

Lemma fate_of_Extend now d lease :
  fate (OExtend now d lease) k j (q_jobs (Extend now d lease q).1 !! k).
Proof using Hk.
  unfold Extend. case_match eqn:El; simpl; [rewrite Hk; auto with fate|]. breflect.
  case_match eqn:E; simpl; [|rewrite Hk; auto with fate].
  destruct (decide (DKey d = k)) as [He|Hne].
  - destruct (leased_here _ _ E He) as [-> Hh]. rewrite He, lookup_insert_eq.
    apply fate_extend; auto. apply Hh.
  - rewrite lookup_insert_ne, Hk by done. auto with fate.
Qed.

Lemma fate_of_Bury now d f : fate (OBury now d f) k j (q_jobs (Bury now d f q).1 !! k).
Proof using Hk.
  unfold Bury. case_match eqn:E; simpl; [|rewrite Hk; auto with fate].
  set (f' := if IsZero (FAt f) then setAt now f else f).
  destruct (releaseUnique_job (buried_job f' a) (q_uniques q)) as (h & Hj & ->).
  destruct (releaseUnique (buried_job f' a) (q_uniques q)) as [a' m]. simpl in Hj. subst a'. simpl.
  destruct (decide (DKey d = k)) as [He|Hne].
  - destruct (leased_here _ _ E He) as [-> Hh]. rewrite He, lookup_insert_eq.
    eapply (fate_bury now d f k j f'); auto. subst f'. case_match; auto.
  - rewrite lookup_insert_ne, Hk by done. auto with fate.
Qed.

Lemma fate_of_RetryFailed clk queue id :
  fate (ORetryFailed clk queue id) k j (q_jobs (RetryFailed clk queue id q).1 !! k).
Proof using Hk.
  unfold RetryFailed. case_match eqn:E; simpl; [|rewrite Hk; auto with fate].
  destruct a as [a f]. apply failed_Ok in E as (_ & Ha & Hf).
  assert (forall s h q', q_jobs q' = q_jobs q ->
    fate (ORetryFailed clk queue id) k j
      (q_jobs (put_job (queue, id) (retried_job (clk 1%nat) s h a) q') !! k)) as Hput.
  { intros s h q' Hq'. simpl. rewrite Hq'. destruct (decide ((queue, id) = k)) as [He|Hne].
    - subst k. rewrite lookup_insert_eq. simplify_map_eq. eauto with fate.
    - rewrite lookup_insert_ne, Hk by done. auto with fate. }
  repeat case_match; simpl; try by (apply Hput). rewrite Hk. auto with fate.
Qed.

Lemma fate_of_ForgetFailed queue id :
  fate (OForgetFailed queue id) k j (q_jobs (ForgetFailed queue id q).1 !! k).
Proof using Hk.
  unfold ForgetFailed. case_match eqn:E; simpl; [|rewrite Hk; auto with fate].
  destruct a as [a f]. apply failed_Ok in E as (_ & Ha & Hf).
  destruct (decide ((queue, id) = k)) as [He|Hne].
  - subst k. rewrite lookup_delete_eq. simplify_map_eq. eauto with fate.
  - rewrite lookup_delete_ne, Hk by done. auto with fate.
Qed.

Lemma fate_of_PurgeFailed queue before :
  fate (OPurgeFailed queue before) k j (q_jobs (PurgeFailed queue before q).1 !! k).
Proof using Hk.
  unfold PurgeFailed. repeat (case_match; simpl; [rewrite Hk; auto with fate|]).
  simpl. destruct (purged queue before j) eqn:E.
  - rewrite (map_lookup_filter_None_2 _ _ k).
    2: { right. intros x Hx. simplify_map_eq. congruence. }
    unfold purged in E. breflect. case_match eqn:Ef; [|done].
    eapply fate_purge; [done|done|]. apply orb_true_iff in H2 as [?|?]; breflect; auto.
  - rewrite (map_lookup_filter_Some_2 _ _ _ j); auto with fate.
Qed.

Lemma apply_fate o : fate o k j (q_jobs (apply o q) !! k).
Proof using Hwf Hk.
  destruct o; simpl.
  - unfold Push. rewrite (push_lookup _ _ _ _ _ _ k j); auto with fate.
  - unfold PushUnique. case_match; simpl; [rewrite Hk; auto with fate|].
    rewrite (push_lookup _ _ _ _ _ _ k j); auto with fate.
  - apply fate_of_Reserve.
  - apply fate_of_Ack.
  - apply fate_of_release.
  - apply fate_of_release.
  - apply fate_of_Extend.
  - apply fate_of_Bury.
  - unfold BeginOnce. repeat case_match; simpl; rewrite sweepClaims_jobs, Hk; auto with fate.
  - unfold FinishOnce. repeat case_match; simpl; rewrite Hk; auto with fate.
  - unfold AbandonOnce. repeat case_match; simpl; rewrite Hk; auto with fate.
  - apply fate_of_RetryFailed.
  - apply fate_of_ForgetFailed.
  - apply fate_of_PurgeFailed.
  - rewrite lookup_empty. auto with fate.
Qed.
End Fate.

(** ** Jobs are not lost *)

Lemma job_kept_or_gone n q k j o :
  wf n q -> q_jobs q !! k = Some j ->
  match q_jobs (apply o q) !! k with
  | Some j' => j_env j' = j_env j /\ j_queue j' = j_queue j
  | None =>
      (exists d, o = OAck d /\ holds d k j) \/
      (exists f, j_failure j = Some f /\
         (o = OForgetFailed k.1 k.2 \/ exists before, o = OPurgeFailed k.1 before)) \/
      o = OClose
  end.
Proof.
  intros Hwf Hk. pose proof (jo_key _ _ _ _ (wf_jobs _ _ Hwf _ _ Hk)) as Hkey.
  pose proof (apply_fate _ _ Hwf _ _ Hk o) as Hf.
  remember (q_jobs (apply o q) !! k) as r eqn:Er. clear Er.
  inversion Hf; simplify_eq/=; eauto 10.
Qed.

(** ** Sequences of steps *)

Fixpoint run (os : list op) (q : MemoryQueue) : MemoryQueue :=
  match os with
  | [] => q
  | o :: os => run os (apply o q)
  end.

(** The deliveries a sequence hands out. *)
Fixpoint deliveries (os : list op) (q : MemoryQueue) : list Delivery :=
  match os with
  | [] => []
  | o :: os => option_list (delivered o q) ++ deliveries os (apply o q)
  end.

(** Steps that neither settle the lease [r], nor shorten it below [t], nor
    reuse its UUID, nor close the queue. *)
Definition quiet (r : string) (t : time) (o : op) : Prop :=
  match o with
  | OReserve _ uuid _ _ => uuid <> r
  | OAck d | ORelease _ d _ | OPostpone _ d _ | OBury _ d _ => DReceipt d <> r
  | OExtend now d lease => DReceipt d <> r \/ t <= now + lease
  | OClose => False
  | _ => True
  end.

(** The job under [k] is leased to [r] until [t] at least. *)
Definition leased_until (r : string) (t : time) (k : string * string) (q : MemoryQueue) : Prop :=
  exists j, q_jobs q !! k = Some j /\ j_reserved j = true /\ j_receipt j = r /\
    t <= j_leaseDeadline j.

Lemma delivered_key n q o d :
  wf n q -> delivered o q = Some d ->
  exists now j, reads_at o (fun t => t = now) /\ q_jobs q !! DKey d = Some j /\
    available now j = true.
Proof.
  intros Hwf. destruct o; simpl; try done.
  destruct (Reserve now uuid queues lease q) as [q' [d'|e]] eqn:E; simpl; intros; simplify_eq.
  apply Reserve_Ok in E as (k & j & Hk & Hav & _ & _ & _ & _ & _ & _ & -> & _).
  exists now, j. pose proof (jo_key _ _ _ _ (wf_jobs _ _ Hwf _ _ Hk)) as ->. done.
Qed.

Lemma leased_until_unavailable n q r t k now :
  wf n q -> leased_until r t k q -> now < t ->
  forall j, q_jobs q !! k = Some j -> available now j = false.
Proof.
  intros Hwf (j & Hk & Hr & Hrec & Hd) Hnow j' Hk'.
  assert (j' = j) as -> by congruence. pose proof (wf_jobs _ _ Hwf _ _ Hk) as [].
  unfold available. destruct (j_failure j) eqn:Ef; [done|]. rewrite Hr.
  apply negb_false_iff, Before_true. lia.
Qed.

Lemma leased_until_step n q r t k o :
  wf n q -> leased_until r t k q -> reads_at o (fun now => now < t) -> quiet r t o ->
  leased_until r t k (apply o q) /\ forall d, delivered o q = Some d -> DKey d <> k.
Proof.
  intros Hwf Hl Ht Hq. split.
  - destruct Hl as (j & Hk & Hr & Hrec & Hd).
    pose proof (jo_failed _ _ _ _ (wf_jobs _ _ Hwf _ _ Hk)) as Hnf.
    pose proof (apply_fate _ _ Hwf _ _ Hk o) as Hf.
    remember (q_jobs (apply o q) !! k) as r' eqn:Er. symmetry in Er.
    destruct Hf; simpl in *.
    all: try (match goal with H : holds _ _ _ |- _ => destruct H as (? & ? & ?); congruence end).
    all: try (match goal with H : j_failure _ = Some _ |- _ =>
                apply Hnf in H as [? ?]; congruence end).
    all: try done.
    + by exists j.
    + exfalso. rewrite (leased_until_unavailable n q r t k now Hwf) with (j := j) in H; try done.
      by exists j.
    + destruct H as (? & ? & ?). exists j'. unfold Add in *. intuition congruence.
  - intros d Hd <-. destruct (delivered_key _ _ _ _ Hwf Hd) as (now & j & Hnow & Hk & Hav).
    assert (now < t) by (destruct o; simpl in *; simplify_eq/=; done).
    rewrite (leased_until_unavailable _ _ _ _ _ _ Hwf Hl) with (j := j) in Hav; done.
Qed.

Lemma leased_until_run os : forall n q r t k,
  wf n q -> n + Z.of_nat (length os) <= max_int64 -> Forall op_ok os ->
  leased_until r t k q -> Forall (fun o => reads_at o (fun now => now < t)) os ->
  Forall (quiet r t) os ->
  leased_until r t k (run os q) /\ (k ∉ (DKey <$> deliveries os q)) /\
  wf (n + Z.of_nat (length os)) (run os q).
Proof.
  induction os as [|o os IH]; intros n q r t k Hwf Hn Hok Hl Ht Hq.
  { simpl. rewrite Z.add_0_r. split; [done|]. split; [set_solver|done]. }
  inversion Hok; inversion Ht; inversion Hq; subst. simpl in Hn.
  destruct (leased_until_step _ _ _ _ _ o Hwf Hl) as [Hl' Hd]; [done..|].
  destruct (IH (n + 1) (apply o q) r t k) as (Hl'' & Hnin & Hwf''); auto.
  { apply apply_wf; auto. lia. } { lia. }
  cbn [run deliveries length]. split; [done|]. split.
  - rewrite fmap_app, not_elem_of_app. split; [|done].
    destruct (delivered o q) as [d|]; simpl; [|set_solver].
    rewrite list_elem_of_singleton. intros ->. by apply (Hd d).
  - replace (n + Z.of_nat (S (length os))) with (n + 1 + Z.of_nat (length os)) by lia. done.
Qed.

(** * The theorems of the in-process queue

    Reserve's order and completeness, the exclusion and the loss of leases,
    the consistency of Stats with Reserve, uniqueness claims, and the failed
    jobs. *)

Local Open Scope string_scope.
Local Open Scope list_scope.
Local Open Scope Z_scope.

(** ** The order of jobs *)

Lemma before_lex j j' :
  before j j' = true <-> readyAt j < readyAt j' \/ (readyAt j = readyAt j' /\ j_seq j < j_seq j').
Proof. unfold before. destruct (readyAt j =? readyAt j') eqn:E; breflect; simpl;
  [rewrite Z.ltb_lt | rewrite Before_true]; lia. Qed.

Lemma before_lex_false j j' :
  before j j' = false <-> readyAt j' < readyAt j \/ (readyAt j = readyAt j' /\ j_seq j' <= j_seq j).
Proof. rewrite <- not_true_iff_false, before_lex. lia. Qed.

Lemma before_entry_irrefl x : before_entry x x = false.
Proof. apply before_lex_false. lia. Qed.

Lemma before_entry_trans x y z :
  before_entry x y = true -> before_entry y z = true -> before_entry x z = true.
Proof. unfold before_entry. rewrite !before_lex. lia. Qed.

Lemma before_entry_negtrans x y z :
  before_entry x y = false -> before_entry y z = false -> before_entry x z = false.
Proof. unfold before_entry. rewrite !before_lex_false. lia. Qed.

#[local] Hint Resolve before_entry_irrefl before_entry_trans before_entry_negtrans : gombit.

Lemma next_job_None now queue l :
  next_job now queue l = None <->
  forall kj, kj ∈ l -> j_queue kj.2 = queue -> available now kj.2 = false.
Proof.
  unfold next_job. rewrite (least_None before_entry); eauto with gombit. unfold candidates. split.
  - intros E kj Hin Hq. destruct (available now kj.2) eqn:Ea; [|done].
    assert (kj ∈ candidates now queue l) as Hc.
    { apply list_elem_of_filter. rewrite Ea, Hq, String.eqb_refl. done. }
    unfold candidates in Hc. rewrite E in Hc. set_solver.
  - intros H.
    destruct (filter _ l) as [|kj c] eqn:E; [done|].
    assert (kj ∈ kj :: c) as Hin by set_solver. rewrite <- E in Hin.
    apply list_elem_of_filter in Hin as [Ht Hin]. breflect.
    rewrite H in *; done.
Qed.

Lemma next_job_minimal now queue l kj x :
  next_job now queue l = Some kj -> x ∈ l -> j_queue x.2 = queue -> available now x.2 = true ->
  before x.2 kj.2 = false.
Proof.
  intros H Hin Hq Ha.
  apply (least_minimal before_entry) with (l := candidates now queue l) (x := x) (m := kj);
    eauto with gombit.
  apply list_elem_of_filter. rewrite Ha, Hq, String.eqb_refl. done.
Qed.

Lemma next_job_permutation n q now queue l :
  wf n q -> l ≡ₚ map_to_list (q_jobs q) ->
  next_job now queue l = next_job now queue (map_to_list (q_jobs q)).
Proof.
  intros Hwf Hp. apply least_permutation; eauto with gombit.
  - intros [k1 j1] [k2 j2] H1 H2. unfold before_entry; simpl. rewrite !before_lex_false.
    apply list_elem_of_filter in H1 as [_ H1], H2 as [_ H2].
    rewrite Hp in H1, H2. apply elem_of_map_to_list in H1, H2. intros.
    assert (k1 = k2) as -> by (eapply wf_seq_inj; eauto; lia). congruence.
  - unfold candidates. by rewrite Hp.
Qed.

(** The job [Reserve] picks does not depend on the order in which Go iterates over the map.
    *)
Theorem Reserve_order_independent n q now queues l :
  wf n q -> l ≡ₚ map_to_list (q_jobs q) ->
  reserve_scan now queues l = reserve_scan now queues (map_to_list (q_jobs q)).
Proof.
  intros Hwf Hp. induction queues as [|queue queues IH]; simpl; [done|].
  erewrite next_job_permutation by done. by rewrite IH.
Qed.

(** ** Reserve takes the oldest job of the first queue that has one *)

Lemma reserve_scan_first now queues l queue kj :
  reserve_scan now queues l = Some (queue, kj) ->
  exists pre post, queues = pre ++ queue :: post /\ forall x, x ∈ pre -> next_job now x l = None.
Proof.
  induction queues as [|x queues IH]; simpl; [done|].
  case_match eqn:E; intros; simplify_eq.
  - exists [], queues. split; [done | set_solver].
  - destruct IH as (pre & post & -> & Hpre); [done|]. exists (x :: pre), post.
    split; [done|]. intros y [->|Hy]%elem_of_cons; auto.
Qed.

Lemma reserve_scan_None now queues l :
  reserve_scan now queues l = None <-> forall x, x ∈ queues -> next_job now x l = None.
Proof.
  induction queues as [|x queues IH]; simpl; [set_solver|].
  case_match eqn:E; [split; [done|]|].
  - intros H. rewrite H in E; [done | set_solver].
  - rewrite IH. set_solver.
Qed.

(** No job of [queue] is available at [now]. *)
Definition drained (now : time) (queue : string) (q : MemoryQueue) : Prop :=
  forall k j, q_jobs q !! k = Some j -> j_queue j = queue -> available now j = false.

Lemma next_job_drained now queue q :
  next_job now queue (map_to_list (q_jobs q)) = None <-> drained now queue q.
Proof.
  rewrite next_job_None. unfold drained. split.
  - intros H k j Hk. apply (H (k, j)). by apply elem_of_map_to_list.
  - intros H [k j] Hk%elem_of_map_to_list. by apply H with k.
Qed.

(** Reserve takes queues in the order given and, within one, the job that became ready
    first, the one pushed first among equals; it fails with ErrNoJob only when every queue
    is drained, and a failed Reserve changes nothing. *)
Theorem Reserve_oldest_first n q now uuid queues lease :
  wf n q ->
  match Reserve now uuid queues lease q with
  | (_, Ok d) =>
      exists pre post j, queues = pre ++ DQueue d :: post /\
        (forall x, x ∈ pre -> drained now x q) /\
        q_jobs q !! DKey d = Some j /\ available now j = true /\ DAvailableAt d = readyAt j /\
        forall k' j', q_jobs q !! k' = Some j' -> j_queue j' = DQueue d ->
          available now j' = true ->
          readyAt j < readyAt j' \/ (readyAt j = readyAt j' /\ j_seq j <= j_seq j')
  | (q', Err e) =>
      q' = q /\
      (e = Sentinel ErrNoJob ->
         0 < lease /\ q_closed q = false /\ forall x, x ∈ queues -> drained now x q)
  end.
Proof.
  intros Hwf. destruct (Reserve now uuid queues lease q) as [q' [d|e]] eqn:E.
  - pose proof E as E0. apply Reserve_Ok in E as (k & j & Hk & Hav & _ & Hq & _ & Hc & Hi & _ & Hd & Hn).
    unfold Reserve in E0. rewrite Hi, Hc in E0. case_match; [done|].
    case_match eqn:Es; [|done]. destruct p as [queue [k' j']].
    assert (queue = j_queue j) as -> by (simplify_eq/=; done).
    destruct (reserve_scan_first _ _ _ _ _ Es) as (pre & post & -> & Hpre).
    pose proof (jo_key _ _ _ _ (wf_jobs _ _ Hwf _ _ Hk)) as Hkey.
    exists pre, post, j. rewrite Hq. split; [done|].
    split; [intros x Hx; by apply next_job_drained, Hpre|].
    split; [by rewrite Hd; unfold DKey; simpl; rewrite <- Hkey|].
    split; [done|]. split; [by rewrite Hd|].
    intros k2 j2 Hk2 Hq2 Ha2.
    pose proof (next_job_minimal _ _ _ _ (k2, j2) Hn ltac:(by apply elem_of_map_to_list) Hq2 Ha2)
      as Hmin%before_lex_false.
    simpl in Hmin. lia.
  - pose proof (Reserve_Err _ _ _ _ _ _ _ E) as ->. split; [done|]. intros ->.
    unfold Reserve in E. case_match; [done|]. case_match; [done|]. case_match; [done|].
    case_match eqn:Es; [by destruct p as [? [? ?]]|]. breflect.
    split; [done|]. split; [done|]. intros x Hx. apply next_job_drained.
    by apply (reserve_scan_None now queues (map_to_list (q_jobs q))).
Qed.

(** ** Concrete queues, for the witnesses *)

Ltac solve_op_ok := repeat constructor; simpl; first [lia | discriminate].

Lemma run_app os os' q : run (os ++ os') q = run os' (run os q).
Proof. revert q. induction os as [|o os IH]; intros q; simpl; auto. Qed.

Lemma run_reachable os :
  Forall op_ok os -> reachable (Z.of_nat (length os)) (run os NewMemoryQueue).
Proof.
  induction os as [|o os IH] using rev_ind; intros Hok; [constructor|].
  apply Forall_app in Hok as [Hos Ho]. rewrite run_app, length_app. simpl.
  replace (Z.of_nat (length os + 1)) with (Z.of_nat (length os) + 1) by lia.
  apply reachable_step; [auto|]. by inversion Ho.
Qed.

(** What a sequence of steps from a new queue gives is well formed. *)
Lemma wf_run os :
  Forall op_ok os -> Z.of_nat (length os) <= max_int64 ->
  wf (Z.of_nat (length os)) (run os NewMemoryQueue).
Proof. intros Hok Hn. apply wf_of_reachable; [by apply run_reachable | done]. Qed.

Definition sample_env (id : string) : Envelope := mkEnvelope id "mail" 1 "{}" ∅ 50 0.

(** Two jobs pushed, the first one leased at 200 until 300. *)
Definition sample_pushes : list op :=
  [OPush (fun _ => 100) "default" (sample_env "a") 0;
   OPush (fun _ => 101) "default" (sample_env "b") 0].

Definition sample_queue : MemoryQueue := run sample_pushes NewMemoryQueue.

Lemma sample_queue_wf : wf 2 sample_queue.
Proof. apply (wf_run sample_pushes); [solve_op_ok | done]. Qed.

Definition sample_delivery : Delivery :=
  mkDelivery "default" (setAttempt 1 (sample_env "a")) "r1" false 100 None.

Lemma sample_reserve :
  Reserve 200 "r1" ["default"] 100 sample_queue =
  ((Reserve 200 "r1" ["default"] 100 sample_queue).1, Ok sample_delivery).
Proof. vm_compute. reflexivity. Qed.

Lemma Reserve_order_independent_witness :
  reserve_scan 200 ["default"] (rev (map_to_list (q_jobs sample_queue))) =
  reserve_scan 200 ["default"] (map_to_list (q_jobs sample_queue)).
Proof.
  apply (Reserve_order_independent 2 sample_queue 200 ["default"]
    (rev (map_to_list (q_jobs sample_queue))) sample_queue_wf).
  symmetry. apply Permutation_rev.
Defined.

Lemma Reserve_oldest_first_witness :
  exists d q', Reserve 200 "r1" ["default"] 100 sample_queue = (q', Ok d) /\
  forall k' j', q_jobs sample_queue !! k' = Some j' -> j_queue j' = "default" ->
    available 200 j' = true -> DAvailableAt d <= readyAt j'.
Proof.
  pose proof (Reserve_oldest_first 2 sample_queue 200 "r1" ["default"] 100 sample_queue_wf) as H.
  rewrite sample_reserve in H. cbv beta iota in H.
  destruct H as (pre & post & j & _ & _ & _ & _ & Hj & H).
  do 2 eexists. split; [exact sample_reserve|].
  intros k' j' Hk Hq Ha. specialize (H k' j' Hk Hq Ha). rewrite Hj. lia.
Defined.

(** ** Unique locks *)

(** What the lock of a stored job is, when the clock was read at instants of [R]: a job that
    holds its key until done has the claim, in its own name and for its time to live after a
    reading, unless that time has passed between two readings; while it is not set aside it
    holds its key; and set aside, it has no claim left. *)
Record lock_ok (R : time -> Prop) (uniques : gmap (string * string) memoryClaim) (j : memoryJob) : Prop := mkLockOk {
  lo_held : j_heldUnique j = true ->
    (exists c s, uniques !! (j_queue j, j_unique j) = Some c /\ c_holder c = ID (j_env j) /\
       R s /\ c_expires c = s + j_uniqueTTL j) \/
    (exists s t, R s /\ R t /\ s + j_uniqueTTL j <= t);
  lo_kept : j_unique j <> "" -> j_failure j = None -> j_heldUnique j = true;
  lo_freed : forall c, is_Some (j_failure j) -> j_unique j <> "" ->
    uniques !! (j_queue j, j_unique j) = Some c -> c_holder c <> ID (j_env j)
}.

Definition locks_ok (R : time -> Prop) (q : MemoryQueue) : Prop :=
  map_Forall (fun _ => lock_ok R (q_uniques q)) (q_jobs q).

(** What a lock is about. *)
Definition lockOf (j : memoryJob) : string * string * string * duration * bool * bool :=
  (j_queue j, ID (j_env j), j_unique j, j_uniqueTTL j, j_heldUnique j, match j_failure j with Some _ => true | None => false end).

Lemma lock_ok_same R m j j' : lockOf j' = lockOf j -> lock_ok R m j -> lock_ok R m j'.
Proof.
  unfold lockOf. intros [= Eq Ei Eu Et Eh Ef] [].
  split; rewrite ?Eq, ?Ei, ?Eu, ?Et, ?Eh; auto.
  - intros Hu Hf. rewrite Hf in Ef. apply lo_kept0; [done|]. by destruct (j_failure j).
  - intros c [f Hf]. rewrite Hf in Ef. apply lo_freed0. by destruct (j_failure j).
Qed.

Section Locks.
Context (R : time -> Prop).

(** A claim written in another job's name, over one that has expired or was its own. *)
Lemma lock_ok_write m j uq key id e t :
  (j_queue j = uq -> ID (j_env j) <> id) -> R t ->
  (forall c, m !! (uq, key) = Some c -> c_expires c <= t \/ c_holder c = id) ->
  lock_ok R m j -> lock_ok R (<[(uq, key) := mkClaim id e]> m) j.
Proof using.
  intros Hne Ht Hc []. split; [|done|].
  - intros Hh. destruct (lo_held0 Hh) as [(c & s & Hm & Hid & Hs & He)|H]; [|by right].
    destruct (decide ((uq, key) = (j_queue j, j_unique j))) as [E|E].
    + rewrite <- E in Hm. injection E as E _. destruct (Hc c Hm) as [He'|Hh'].
      * right. exists s, t. split_and!; [done..|lia].
      * by destruct (Hne (eq_sym E)); rewrite <- Hid.
    + left. exists c, s. rewrite lookup_insert_ne by done. done.
  - intros c Hf Hu. destruct (decide ((uq, key) = (j_queue j, j_unique j))) as [E|E].
    + rewrite E, lookup_insert_eq. injection E as E _. intros [= <-]. cbn. intros ->. by apply Hne.
    + rewrite lookup_insert_ne by done. by apply lo_freed0.
Qed.

Lemma lock_ok_delete m j uq key c :
  (j_queue j = uq -> ID (j_env j) <> c_holder c) -> m !! (uq, key) = Some c ->
  lock_ok R m j -> lock_ok R (delete (uq, key) m) j.
Proof using.
  intros Hne Hc []. split; [|done|].
  - intros Hh. destruct (lo_held0 Hh) as [(c' & s & Hm & Hid & Hs & He)|H]; [|by right]. left. exists c', s.
    rewrite lookup_delete_ne; [done|]. intros [= -> ->]. rewrite Hc in Hm. injection Hm as ->. by apply Hne.
  - intros c' Hf Hu [_ Hm]%lookup_delete_Some. by apply lo_freed0.
Qed.

Lemma locks_ok_sweep now q : R now -> locks_ok R q -> locks_ok R (sweepClaims now q).
Proof using.
  intros Hnow Hq. unfold sweepClaims. case_match; [exact Hq|]. intros k j Hk. destruct (Hq k j Hk). split; cbn; [|done|].
  - intros Hh. destruct (lo_held0 Hh) as [(c & s & Hm & Hid & Hs & He)|H']; [|by right].
    destruct (live now c) eqn:E.
    + left. exists c, s. by rewrite map_lookup_filter_Some.
    + right. exists s, now. unfold live in E. breflect. split_and!; [done..|lia].
  - intros c Hf Hu [Hm _]%map_lookup_filter_Some. by apply lo_freed0.
Qed.

(** Rewriting a job in place, its lock untouched. *)
Lemma locks_ok_put k j j' q n :
  q_jobs q !! k = Some j -> lockOf j' = lockOf j -> locks_ok R q -> locks_ok R (put_job k j' (set_seq n q)).
Proof using.
  intros Hk Hl Hq. apply map_Forall_insert_2; [|exact Hq]. eapply lock_ok_same; [exact Hl|by eapply Hq].
Qed.

Lemma locks_ok_drop m q : m ⊆ q_jobs q -> locks_ok R q -> locks_ok R (set_jobs m q).
Proof using. intros Hm Hq k j Hk. apply (Hq k). by eapply lookup_weaken. Qed.

Context (n : Z) (q : MemoryQueue) (Hwf : wf n q) (Hq : locks_ok R q).

(** Jobs under other keys. *)
Local Lemma other_job k j queue id :
  q_jobs q !! k = Some j -> k <> (queue, id) -> j_queue j = queue -> ID (j_env j) <> id.
Proof using Hwf. intros Hk Hne <- <-. apply Hne. by apply (wf_jobs _ _ Hwf _ _ Hk). Qed.

(** The other jobs' locks when a job lets go of its own, and what is left of that. *)
Lemma released_locks k j j1 :
  q_jobs q !! k = Some j -> lockOf j1 = (j_queue j, ID (j_env j), j_unique j, j_uniqueTTL j, j_heldUnique j, true) ->
  j_failure j = None ->
  map_Forall (fun _ => lock_ok R (releaseUnique j1 (q_uniques q)).2) (delete k (q_jobs q)) /\
  lock_ok R (releaseUnique j1 (q_uniques q)).2 (releaseUnique j1 (q_uniques q)).1.
Proof using Hwf Hq.
  unfold lockOf. intros Hk [= Eq Ei Eu Et Eh Ef] Hf. unfold releaseUnique.
  destruct (wf_jobs _ _ Hwf _ _ Hk) as [Hkey _ _ _ _ _ _ _ _ _ _]. pose proof (Hq k j Hk) as Hj.
  rewrite Eh. destruct (j_heldUnique j) eqn:Eheld; cbn [negb fst snd].
  - rewrite Eq, Eu, Ei. split.
    + intros k' j' [Hne Hk']%lookup_delete_Some. destruct (q_uniques q !! _) as [c|] eqn:Ec; [|by apply (Hq k')].
      destruct (String.eqb_spec (c_holder c) (ID (j_env j))) as [E|E]; [|by apply (Hq k')].
      apply lock_ok_delete with c; [|done|by apply (Hq k')]. rewrite E. eapply other_job; [done|]. congruence.
    + split; cbn; [done| |].
      * intros _ Hn. by rewrite Hn in Ef.
      * intros c _ _. rewrite ?Ei. destruct (q_uniques q !! _) as [c0|] eqn:Ec; [|by rewrite Ec].
        destruct (String.eqb_spec (c_holder c0) (ID (j_env j))) as [E|E]; [by rewrite lookup_delete_eq|].
        rewrite Ec. by intros [= <-].
  - split; [by apply map_Forall_delete|]. assert (j_unique j = "") as Hu.
    { destruct (decide (j_unique j = "")) as [|Hne]; [done|]. by rewrite (lo_kept _ _ _ Hj Hne Hf) in Eheld. }
    split; rewrite ?Eh, ?Eu; done.
Qed.

Lemma push_locks clk queue env at_ u :
  (forall i, R (clk i)) -> (forall u', u = Some u' -> Key u' <> "") -> locks_ok R (push clk queue env at_ u q).1.
Proof using Hwf Hq.
  intros Hclk Hu. unfold push. case_match; [done|]. case_match; [done|]. case_match; [done|].
  set (q1 := match u with Some _ => sweepClaims (clk 0%nat) q | None => q end).
  assert (q_jobs q1 = q_jobs q /\ locks_ok R q1) as [Hj Hq1].
  { subst q1. destruct u; [|done]. split; [unfold sweepClaims; by case_match|by apply locks_ok_sweep]. }
  destruct (push_refused _ _ _ _) eqn:Er; [done|]. rewrite Hj. destruct (q_jobs q !! (queue, ID env)) eqn:Ej; [done|].
  cbn [fst]. unfold locks_ok. cbn. rewrite Hj. apply map_Forall_insert_2.
  - destruct u as [u|]; [|by split]. unfold newJob. destruct (UntilDone u) eqn:Eu; split; cbn; try done.
    intros _. left. exists (mkClaim (ID env) (Add (clk 2%nat) (TTL u))), (clk 2%nat).
    rewrite lookup_insert_eq. done.
  - destruct u as [u|]; [|intros k j Hk; apply (Hq1 k); by rewrite Hj].
    intros k j Hk. apply lock_ok_write with (clk 1%nat); [|done| |apply (Hq1 k); by rewrite Hj].
    + eapply other_job; [done|]. congruence.
    + intros c Hc. left. cbn in Er. unfold heldBy in Er. rewrite Hc in Er. unfold live in Er.
      destruct (Before _ _) eqn:E; [done|]. by breflect.
Qed.

Lemma Ack_locks d : locks_ok R (Ack d q).1.
Proof using Hwf Hq.
  unfold Ack. destruct (leased d q) as [j|e] eqn:E; [|done].
  apply leased_Ok in E as (Hc & Hk & Hr & _). pose proof (wf_jobs _ _ Hwf _ _ Hk) as Hok.
  assert (j_failure j = None) as Hf by (destruct (j_failure j) as [f|] eqn:Ef; [|done]; destruct (jo_failed _ _ _ _ Hok f Ef); congruence).
  destruct (releaseUnique_job j (q_uniques q)) as (h & Hj & ->).
  assert ((releaseUnique (buried_job (mkFailure ReasonExhausted KindHandler (Text "") 0) j) (q_uniques q)).2 = (releaseUnique j (q_uniques q)).2) as Hm.
  { unfold releaseUnique. cbn. by destruct (j_heldUnique j). }
  destruct (released_locks (DKey d) j (buried_job (mkFailure ReasonExhausted KindHandler (Text "") 0) j) Hk) as [Hd _];
    [done..|]. rewrite Hm in Hd.
  destruct (releaseUnique j (q_uniques q)) as [j' m]. cbn in *. subst j'. cbn.
  rewrite <- (jo_key _ _ _ _ Hok). exact Hd.
Qed.

Lemma Bury_locks now d f : locks_ok R (Bury now d f q).1.
Proof using Hwf Hq.
  unfold Bury. destruct (leased d q) as [j|e] eqn:E; [|done].
  apply leased_Ok in E as (Hc & Hk & Hr & _). pose proof (wf_jobs _ _ Hwf _ _ Hk) as Hok.
  assert (j_failure j = None) as Hf by (destruct (j_failure j) as [f'|] eqn:Ef; [|done]; destruct (jo_failed _ _ _ _ Hok f' Ef); congruence).
  set (f1 := if IsZero _ then _ else _). destruct (released_locks (DKey d) j (buried_job f1 j) Hk) as [Hd Hj]; [done..|].
  destruct (releaseUnique (buried_job f1 j) (q_uniques q)) as [j' m]. cbn in *. unfold locks_ok. cbn.
  rewrite <- insert_delete_eq. by apply map_Forall_insert_2.
Qed.

Lemma RetryFailed_locks clk queue id : (forall i, R (clk i)) -> locks_ok R (RetryFailed clk queue id q).1.
Proof using Hwf Hq.
  intros Hclk. unfold RetryFailed. destruct (failed queue id q) as [[j f]|e] eqn:E; [|done].
  apply failed_Ok in E as (Hc & Hk & Hf). pose proof (wf_jobs _ _ Hwf _ _ Hk) as Hok. pose proof (Hq _ _ Hk) as Hj.
  destruct (jo_failed _ _ _ _ Hok f Hf) as [_ Hheld].
  destruct (String.eqb_spec (j_unique j) "") as [Hu|Hu].
  { cbn [fst]. unfold locks_ok. cbn. apply map_Forall_insert_2; [|exact Hq]. split; cbn; rewrite ?Hheld, ?Hu; done. }
  set (claimed := <[(queue, j_unique j) := mkClaim id (Add (clk 0%nat) (j_uniqueTTL j))]> (q_uniques q)).
  pose proof (jo_key _ _ _ _ Hok) as [= Ejq Eji].
  assert ((forall c, q_uniques q !! (queue, j_unique j) = Some c -> c_expires c <= clk 0%nat \/ c_holder c = id) ->
    forall seq, locks_ok R (put_job (queue, id) (retried_job (clk 1%nat) seq true j) (set_seq seq (set_uniques claimed q)))) as Hfree.
  { intros Hold seq. unfold locks_ok. cbn. rewrite <- insert_delete_eq. apply map_Forall_insert_2.
    - split; cbn; [|done|intros c [? [=]]]. intros _. left.
      exists (mkClaim id (Add (clk 0%nat) (j_uniqueTTL j))), (clk 0%nat). unfold claimed. rewrite <- Ejq, lookup_insert_eq. by rewrite <- Eji.
    - intros k' j' [Hne Hk']%lookup_delete_Some. unfold claimed.
      apply lock_ok_write with (clk 0%nat); [|done|exact Hold|by apply (Hq k')]. eapply other_job; [done|congruence]. }
  unfold heldBy. destruct (q_uniques q !! (queue, j_unique j)) as [c|] eqn:Ec; [|by apply Hfree].
  unfold live. destruct (Before (clk 0%nat) (c_expires c)) eqn:El.
  - destruct (String.eqb_spec (c_holder c) id) as [Eh|Eh]; cbn [negb]; [|done]. apply Hfree. intros c' [= <-]. by right.
  - apply Hfree. intros c' [= <-]. left. by breflect.
Qed.

Lemma apply_locks o : reads_at o R -> locks_ok R (apply o q).
Proof using Hwf Hq.
  destruct o; simpl; intros Hnow.
  - by apply push_locks.
  - unfold PushUnique. case_match eqn:E; [done|]. apply push_locks; [done|].
    intros u' [= <-]. unfold UniqueKey_validate in E. case_match eqn:E'; [done|]. by breflect.
  - destruct (Reserve now uuid queues lease q) as [q' [d|e]] eqn:E; simpl; [|by apply Reserve_Err in E as ->].
    apply Reserve_Ok in E as (k & j & Hk & _ & _ & _ & _ & _ & _ & -> & _). by apply (locks_ok_put k j _ q (q_seq q)).
  - apply Ack_locks.
  - unfold Release, release. destruct (leased d q) as [j|e] eqn:E; [|done]. apply leased_Ok in E as (_ & Hk & _).
    by eapply locks_ok_put.
  - unfold Postpone, release. destruct (leased d q) as [j|e] eqn:E; [|done]. apply leased_Ok in E as (_ & Hk & _).
    by eapply locks_ok_put.
  - unfold Extend. case_match; [done|]. destruct (leased d q) as [j|e] eqn:E; [|done]. apply leased_Ok in E as (_ & Hk & _).
    by apply (locks_ok_put _ j _ q (q_seq q)).
  - apply Bury_locks.
  - unfold BeginOnce. repeat case_match; by apply locks_ok_sweep.
  - unfold FinishOnce. by repeat case_match.
  - unfold AbandonOnce. by repeat case_match.
  - by apply RetryFailed_locks.
  - unfold ForgetFailed. case_match; [|done]. apply locks_ok_drop; [apply delete_subseteq|done].
  - unfold PurgeFailed. repeat case_match; [done..|]. apply locks_ok_drop; [apply map_filter_subseteq|done].
  - apply map_Forall_empty.
Qed.
End Locks.

(** ** The invariant, for every reachable queue *)

(** C18. Every state a sequence of queue operations reaches from a new queue is well formed:
    jobs are stored under their own key with distinct sequence numbers, leases and failures
    agree with the job they belong to, and attempts are counted within the number of
    operations. A job that holds its unique key until done has the lock in its own name, for
    its time to live after a reading of the clock, unless that time has passed between two
    readings; it holds the key as long as it is not set aside; and a job set aside has no
    lock left. *)
Theorem reachable_wf os :
  Forall op_ok os -> Z.of_nat (length os) <= max_int64 ->
  wf (Z.of_nat (length os)) (run os NewMemoryQueue) /\
  forall R, Forall (fun o => reads_at o R) os -> locks_ok R (run os NewMemoryQueue).
Proof.
  intros Hok Hn. split; [by apply wf_run|]. intros R HR. revert Hok Hn HR.
  induction os as [|o os IH] using rev_ind; intros Hok Hn HR; [apply map_Forall_empty|].
  apply Forall_app in Hok as [Hok _]. apply Forall_app in HR as [HR HR']. rewrite length_app in Hn. cbn [length] in Hn.
  rewrite run_app. cbn [run]. apply (apply_locks R (Z.of_nat (length os))); [apply wf_run; [done|lia]| |by inversion HR'].
  apply IH; [done|lia|done].
Qed.

(** A unique job is set aside and retried. *)
Definition lock_steps : list op :=
  [OPushUnique (fun _ => 100) "default" (sample_env "a") 0 (mkUniqueKey "report:7" 1000 true);
   OReserve 200 "r1" ["default"] 100;
   OBury 250 (mkDelivery "default" (setAttempt 1 (sample_env "a")) "r1" false 100 None) (mkFailure ReasonPermanent KindHandler (Text "no") 0);
   ORetryFailed (fun _ => 300) "default" "a"].

Lemma reachable_wf_witness :
  wf 4 (run lock_steps NewMemoryQueue) /\ locks_ok (fun t => 100 <= t <= 300) (run lock_steps NewMemoryQueue).
Proof.
  destruct (reachable_wf lock_steps) as [H1 H2]; [solve_op_ok|vm_compute; discriminate|].
  split; [exact H1|]. apply H2. repeat constructor; cbn; lia.
Defined.

(** ** Leases *)

(** C1. While a lease lasts, the job is nobody else's: after [Reserve] hands out a delivery,
    no sequence of other queue operations whose clock readings are before the lease's end,
    and which do not themselves use that lease, delivers the job again, and the holder of
    the delivery still holds the lease. *)
Theorem lease_exclusive n q now uuid queues lease q' d os :
  wf n q -> n + 1 + Z.of_nat (length os) <= max_int64 -> uuid <> "" -> 0 < now ->
  Reserve now uuid queues lease q = (q', Ok d) ->
  Forall op_ok os ->
  Forall (fun o => reads_at o (fun t => t < now + lease)) os ->
  Forall (quiet uuid (now + lease)) os ->
  (DKey d ∉ (DKey <$> deliveries os q')) /\ exists j, leased d (run os q') = Ok j.
Proof.
  intros Hwf Hn Hu Hnow Hres Hok Ht Hq.
  assert (wf (n + 1) q') as Hwf'.
  { pose proof (Reserve_wf n q ltac:(lia) Hwf now uuid queues lease Hnow Hu) as H. by rewrite Hres in H. }
  pose proof Hres as (k & j & Hk & Hav & _ & _ & _ & _ & _ & -> & -> & _)%Reserve_Ok.
  pose proof (jo_key _ _ _ _ (wf_jobs _ _ Hwf _ _ Hk)) as Hkey.
  assert (leased_until uuid (now + lease) k (put_job k (lease_job uuid (Add now lease) j) q)) as Hl.
  { eexists. split; [apply lookup_insert_eq|]. done. }
  destruct (leased_until_run os _ _ _ _ _ Hwf' ltac:(lia) Hok Hl Ht Hq)
    as ((j' & Hk' & Hr' & Hrec' & _) & Hnin & Hwf'').
  unfold DKey at 1; simpl. rewrite <- Hkey. split; [done|].
  exists j'. unfold leased, DKey; simpl. rewrite <- Hkey, Hk', Hr', Hrec', String.eqb_refl.
  apply String.eqb_neq in Hu. rewrite Hu.
  destruct (q_closed (run os _)) eqn:Ec; [|done].
  by rewrite (wf_closed _ _ Hwf'' Ec) in Hk'.
Qed.

(** While "a" is leased by "r1" until 300, another worker reserving, a third
    pushing and "r1" itself extending do not deliver "a" again. *)
Definition sample_interleaving : list op :=
  [OReserve 250 "r2" ["default"] 100; OReserve 251 "r3" ["default"] 100;
   OPush (fun _ => 260) "default" (sample_env "c") 0;
   OExtend 270 sample_delivery 100; OReserve 299 "r4" ["default"; "low"] 10].

Lemma lease_exclusive_witness :
  ("default", "a") ∉ (DKey <$> deliveries sample_interleaving
     (Reserve 200 "r1" ["default"] 100 sample_queue).1).
Proof.
  apply (lease_exclusive 2 sample_queue 200 "r1" ["default"] 100 _ sample_delivery
           sample_interleaving sample_queue_wf).
  - vm_compute; discriminate.
  - discriminate.
  - lia.
  - apply sample_reserve.
  - solve_op_ok.
  - repeat constructor; lia.
  - repeat constructor; simpl; first [discriminate | right; lia].
Defined.

(** C8. No job is lost: a single queue operation, whichever it is, keeps every stored job
    with its envelope on its queue, except an Ack by the holder of its lease, an operator's
    ForgetFailed or PurgeFailed of a job that had failed, and Close. *)
Theorem jobs_not_lost n q k j o :
  wf n q -> q_jobs q !! k = Some j ->
  match q_jobs (apply o q) !! k with
  | Some j' => j_env j' = j_env j /\ j_queue j' = j_queue j
  | None =>
      (exists d, o = OAck d /\ holds d k j) \/
      (exists f, j_failure j = Some f /\
         (o = OForgetFailed k.1 k.2 \/ exists before, o = OPurgeFailed k.1 before)) \/
      o = OClose
  end.
Proof. apply job_kept_or_gone. Qed.

Definition sample_job : memoryJob := newJob "default" (sample_env "a") 100 1 None.

Lemma jobs_not_lost_witness :
  match q_jobs (apply (OReserve 200 "r1" ["default"] 100) sample_queue) !! ("default", "a") with
  | Some j' => j_env j' = sample_env "a"
  | None => False
  end.
Proof.
  pose proof (jobs_not_lost 2 sample_queue ("default", "a") sample_job
    (OReserve 200 "r1" ["default"] 100) sample_queue_wf ltac:(vm_compute; reflexivity)) as H.
  destruct (q_jobs (apply _ sample_queue) !! _); [apply H|].
  destruct H as [(d & Hd & _)|[(f & Hf & _)|H]]; discriminate.
Defined.

(** A delivery whose job has since been reserved again can no longer settle
    it: every call fails with ErrLeaseLost and changes nothing. *)
Lemma leased_lost n q now uuid queues lease q' d d' :
  wf n q -> Reserve now uuid queues lease q = (q', Ok d') ->
  DKey d' = DKey d -> DReceipt d <> uuid ->
  leased d q' = Err (Wrapf (ID (DEnvelope d)) (Sentinel ErrLeaseLost)).
Proof.
  intros Hwf (k & j & Hk & _ & _ & _ & _ & Hc & _ & -> & -> & _)%Reserve_Ok Hkey Hr.
  pose proof (jo_key _ _ _ _ (wf_jobs _ _ Hwf _ _ Hk)) as ->.
  unfold leased; simpl. rewrite Hc, <- Hkey. unfold DKey; simpl. rewrite lookup_insert_eq. simpl.
  destruct (String.eqb uuid (DReceipt d)) eqn:E; [breflect; congruence|].
  by rewrite orb_true_r.
Qed.

(** Once a job was delivered again, the earlier delivery is powerless: its Ack, Release,
    Postpone, Extend and Bury all fail with ErrLeaseLost and leave the queue as it was. *)
Theorem stale_lease_refused n q now uuid queues lease q' d d' t at_ f len :
  wf n q -> Reserve now uuid queues lease q = (q', Ok d') ->
  DKey d' = DKey d -> DReceipt d <> uuid -> 0 < len ->
  exists e, Is e ErrLeaseLost = true /\
    Ack d q' = (q', Some e) /\ Release t d at_ q' = (q', Some e) /\
    Postpone t d at_ q' = (q', Some e) /\ Extend t d len q' = (q', Some e) /\
    Bury t d f q' = (q', Some e).
Proof.
  intros Hwf Hres Hk Hr Hlen. pose proof (leased_lost _ _ _ _ _ _ _ _ _ Hwf Hres Hk Hr) as Hl.
  exists (Wrapf (ID (DEnvelope d)) (Sentinel ErrLeaseLost)).
  split; [|unfold Ack, Release, Postpone, release, Extend, Bury; rewrite Hl].
  - reflexivity.
  - destruct (len <=? 0) eqn:E; breflect; [lia|]. done.
Qed.

Lemma stale_lease_refused_witness :
  exists e, Is e ErrLeaseLost = true /\
    (Ack sample_delivery (run [OReserve 400 "r2" ["default"] 100]
       (Reserve 200 "r1" ["default"] 100
         (run [OPush (fun _ => 100) "default" (sample_env "a") 0] NewMemoryQueue)).1)).2 = Some e.
Proof.
  set (q1 := run [OPush (fun _ => 100) "default" (sample_env "a") 0] NewMemoryQueue).
  set (q2 := (Reserve 200 "r1" ["default"] 100 q1).1).
  set (d' := mkDelivery "default" (setAttempt 2 (sample_env "a")) "r2" true 300 None).
  assert (wf 2 q2) as Hwf.
  { apply (wf_run [OPush (fun _ => 100) "default" (sample_env "a") 0;
                   OReserve 200 "r1" ["default"] 100]); [solve_op_ok | done]. }
  destruct (stale_lease_refused 2 q2 400 "r2" ["default"] 100
    (Reserve 400 "r2" ["default"] 100 q2).1 sample_delivery d' 400 0
    (mkFailure ReasonExhausted KindHandler (Text "boom") 0) 1 Hwf) as (e & He & Hack & _).
  - vm_compute. reflexivity.
  - reflexivity.
  - discriminate.
  - lia.
  - exists e. split; [exact He|]. simpl run. rewrite Hack. reflexivity.
Defined.
