(* ===== verification/JobsMemoryClaims.v ===== *)
(** * Statistics, attempts and failed jobs of the in-process queue

    Stats counts every job once and agrees with what Reserve would do; Release
    keeps the attempt Reserve counted and Postpone takes it back; a buried job
    is listed, most recent first, and comes back with fresh attempts.

    The second part is about uniqueness claims and Once records. *)

From stdpp Require Import base tactics numbers list sorting strings gmap fin_maps.
From Stdlib Require Import ZArith Lia Sorted.
From S2P Require Import Prelude JobsTypes JobsMemory JobsMemoryInv JobsMemoryQueue.

Local Open Scope string_scope.
Local Open Scope list_scope.
Local Open Scope Z_scope.

(** ** Stats *)

Definition on_queue (queue : string) (kj : (string * string) * memoryJob) : bool :=
  String.eqb (j_queue kj.2) queue.

Definition stats_total (st : QueueStats) : Z := Ready st + Scheduled st + Reserved st + SFailed st.

(** The earliest [readyAt] among the entries of a list, from a start value. *)
Definition oldest_from (at_ : time) (l : list ((string * string) * memoryJob)) : time :=
  fold_left (fun t kj => if IsZero t || Before (readyAt kj.2) t then readyAt kj.2 else t) l at_.

Lemma stats_step_total now queue st kj :
  stats_total (stats_step now queue st kj) =
  stats_total st + (if on_queue queue kj then 1 else 0).
Proof.
  unfold stats_total, stats_step, on_queue. repeat (case_match; simpl); try lia; done.
Qed.

(** A job is Ready exactly when Reserve may take it. *)
Lemma stats_step_ready now queue st kj :
  let c := on_queue queue kj && available now kj.2 in
  Ready (stats_step now queue st kj) = Ready st + (if c then 1 else 0) /\
  OldestReady (stats_step now queue st kj) =
    if c && (IsZero (OldestReady st) || Before (readyAt kj.2) (OldestReady st))
    then readyAt kj.2 else OldestReady st.
Proof.
  unfold stats_step, on_queue, available.
  destruct (String.eqb (j_queue kj.2) queue); simpl; [|lia].
  destruct (j_failure kj.2); simpl; [lia|].
  destruct (j_reserved kj.2); simpl;
    [destruct (Before now (j_leaseDeadline kj.2)) | destruct (Before now (j_availableAt kj.2))];
    simpl; split; try lia; done.
Qed.

Lemma stats_fold now queue l : forall st,
  stats_total (fold_left (stats_step now queue) l st) =
    stats_total st + Z.of_nat (length (filter (fun kj => on_queue queue kj = true) l)) /\
  Ready (fold_left (stats_step now queue) l st) =
    Ready st + Z.of_nat (length (candidates now queue l)) /\
  OldestReady (fold_left (stats_step now queue) l st) =
    oldest_from (OldestReady st) (candidates now queue l).
Proof.
  induction l as [|kj l IH]; intros st.
  { simpl. unfold candidates. simpl. repeat split; try lia; done. }
  cbn [fold_left]. destruct (IH (stats_step now queue st kj)) as (H1 & H2 & H3).
  rewrite H1, H2, H3. clear H1 H2 H3 IH.
  rewrite stats_step_total. destruct (stats_step_ready now queue st kj) as [-> ->].
  unfold candidates. rewrite !filter_cons. fold (on_queue queue kj).
  destruct (on_queue queue kj); simpl; repeat case_decide; try congruence; simpl.
  - destruct (available now kj.2); [|done]. simpl. repeat split; try lia.
  - destruct (available now kj.2); [done|]. simpl. repeat split; try lia.
  - repeat split; lia.
Qed.

(** Folding the minimum finds the [readyAt] of the least entry. *)
Lemma oldest_from_le l : forall t,
  0 < t -> (forall kj, kj ∈ l -> 0 < readyAt kj.2) ->
  0 < oldest_from t l /\ oldest_from t l <= t /\
  (forall kj, kj ∈ l -> oldest_from t l <= readyAt kj.2) /\
  (oldest_from t l = t \/ exists kj, kj ∈ l /\ oldest_from t l = readyAt kj.2).
Proof.
  induction l as [|x l IH]; intros t Ht Hpos; simpl.
  { repeat split; [done|lia|set_solver|auto]. }
  replace (IsZero t) with false by (symmetry; apply Z.eqb_neq; lia). simpl.
  destruct (Before (readyAt x.2) t) eqn:E; breflect.
  - destruct (IH (readyAt x.2)) as (H1 & H2 & H3 & H4); [apply Hpos; set_solver|set_solver|].
    repeat split; [done|unfold oldest_from in *; lia| |].
    + intros kj [->|Hk]%elem_of_cons; [exact H2 | by apply H3].
    + right. destruct H4 as [H4|(y & Hy & H4)]; [exists x | exists y]; set_solver.
  - destruct (IH t) as (H1 & H2 & H3 & H4); [done|set_solver|].
    repeat split; [done|exact H2| |].
    + intros kj [->|Hk]%elem_of_cons; [unfold oldest_from in *; lia | by apply H3].
    + destruct H4 as [H4|(y & Hy & H4)]; [by left | right; exists y; set_solver].
Qed.

Lemma oldest_from_least c kj :
  (forall x, x ∈ c -> 0 < readyAt x.2) -> least before_entry c = Some kj ->
  oldest_from 0 c = readyAt kj.2.
Proof.
  intros Hpos Hl.
  pose proof (least_elem before_entry before_entry_irrefl before_entry_trans _ _ Hl) as Hin.
  pose proof (least_minimal before_entry before_entry_irrefl before_entry_trans
    before_entry_negtrans _ _ Hl) as Hmin.
  destruct c as [|x c]; [done|]. simpl.
  destruct (oldest_from_le c (readyAt x.2)) as (_ & H2 & H3 & H4);
    [apply Hpos; set_solver | set_solver|].
  change (oldest_from (readyAt x.2) c = readyAt kj.2).
  assert (oldest_from (readyAt x.2) c <= readyAt kj.2).
  { apply elem_of_cons in Hin as [->|Hin]; [done | by apply H3]. }
  assert (readyAt kj.2 <= oldest_from (readyAt x.2) c); [|lia].
  destruct H4 as [->|(y & Hy & ->)].
  - pose proof (Hmin x ltac:(set_solver)) as Hx%before_lex_false. lia.
  - pose proof (Hmin y ltac:(set_solver)) as Hx%before_lex_false. lia.
Qed.

Lemma candidates_positive n q now queue x :
  wf n q -> x ∈ candidates now queue (map_to_list (q_jobs q)) -> 0 < readyAt x.2.
Proof.
  intros Hwf [_ Hin]%list_elem_of_filter. destruct x as [k j].
  apply elem_of_map_to_list in Hin. pose proof (wf_jobs _ _ Hwf _ _ Hin) as [].
  unfold readyAt; simpl. destruct (j_reserved j); auto.
Qed.

(** Stats tells what a worker would find: its counts partition the jobs of the queue, and
    the ready count is positive, with the oldest ready time that of the job Reserve
    delivers, exactly when Reserve of that queue at that moment delivers one. *)
Theorem Stats_agrees_with_Reserve n q now queue st uuid lease :
  wf n q -> 0 < lease -> Stats now queue q = Ok st ->
  stats_total st =
    Z.of_nat (length (filter (fun kj => on_queue queue kj = true) (map_to_list (q_jobs q)))) /\
  match (Reserve now uuid [queue] lease q).2 with
  | Ok d => 0 < Ready st /\ OldestReady st = DAvailableAt d
  | Err e => e = Sentinel ErrNoJob /\ Ready st = 0 /\ OldestReady st = 0
  end.
Proof.
  intros Hwf Hl HS. unfold Stats in HS. case_match eqn:Ev; [done|]. case_match eqn:Ec; [done|].
  injection HS as <-. breflect.
  destruct (stats_fold now queue (map_to_list (q_jobs q)) (mkQueueStats 0 0 0 0 0)) as (Ht & Hr & Ho).
  rewrite Ht, Hr, Ho. change (stats_total (mkQueueStats 0 0 0 0 0)) with 0. simpl.
  split; [lia|].
  unfold Reserve, first_invalid. rewrite Ev, Ec. simpl.
  destruct (lease <=? 0) eqn:E; breflect; [lia|].
  destruct (next_job now queue (map_to_list (q_jobs q))) as [[k j]|] eqn:En; simpl.
  - split; [|by apply (oldest_from_least _ (k, j)); [intros x; by eapply candidates_positive|]].
    pose proof (least_elem before_entry before_entry_irrefl before_entry_trans _ _ En) as Hin.
    destruct (candidates now queue _); [set_solver | simpl; lia].
  - apply least_None in En; [|apply before_entry_irrefl|apply before_entry_trans].
    rewrite En. done.
Qed.

Lemma Stats_agrees_with_Reserve_witness :
  exists st, Stats 200 "default" sample_queue = Ok st /\ stats_total st = 2 /\ OldestReady st = 100.
Proof.
  exists (mkQueueStats 2 0 0 0 100). split; [vm_compute; reflexivity|].
  pose proof (Stats_agrees_with_Reserve 2 sample_queue 200 "default"
    (mkQueueStats 2 0 0 0 100) "r1" 100 sample_queue_wf ltac:(lia)
    ltac:(vm_compute; reflexivity)) as [_ H].
  rewrite sample_reserve in H. split; [reflexivity | apply H].
Defined.

(** ** Attempts *)

(** The attempts the queue counts for the job under [k]. *)
Definition attempts_of (k : string * string) (q : MemoryQueue) : option Z :=
  j_attempts <$> q_jobs q !! k.

Lemma Reserve_leases n q now uuid queues lease q' d :
  wf n q -> n < max_int64 -> uuid <> "" -> Reserve now uuid queues lease q = (q', Ok d) ->
  exists j, q_jobs q !! DKey d = Some j /\ Attempt (DEnvelope d) = j_attempts j + 1 /\
    attempts_of (DKey d) q' = Some (j_attempts j + 1) /\
    leased d q' = Ok (lease_job uuid (Add now lease) j) /\ 0 <= j_attempts j.
Proof.
  intros Hwf Hn Hu (k & j & Hk & _ & _ & _ & _ & Hc & _ & -> & -> & _)%Reserve_Ok.
  pose proof (wf_jobs _ _ Hwf _ _ Hk) as [].
  assert (wrap_int64 (j_attempts j + 1) = j_attempts j + 1) as Hw.
  { apply wrap_int64_id. unfold in_int64, min_int64, max_int64 in *. lia. }
  exists j. unfold attempts_of, leased, DKey; simpl. rewrite Hc, Hw, <- jo_key, lookup_insert_eq.
  simpl. rewrite Hw, String.eqb_refl. apply String.eqb_neq in Hu. rewrite Hu. simpl.
  repeat split; auto; lia.
Qed.

(** A delivery counts one attempt, a postponed one gives it back. *)
Theorem attempts_counted n q now uuid queues lease q' d t at_ :
  wf n q -> n < max_int64 -> uuid <> "" -> Reserve now uuid queues lease q = (q', Ok d) ->
  attempts_of (DKey d) q = Some (Attempt (DEnvelope d) - 1) /\
  attempts_of (DKey d) q' = Some (Attempt (DEnvelope d)) /\
  attempts_of (DKey d) (Release t d at_ q').1 = Some (Attempt (DEnvelope d)) /\
  attempts_of (DKey d) (Postpone t d at_ q').1 = Some (Attempt (DEnvelope d) - 1) /\
  attempts_of (DKey d) (Ack d q').1 = None.
Proof.
  intros Hwf Hn Hu Hres.
  destruct (Reserve_leases _ _ _ _ _ _ _ _ Hwf Hn Hu Hres) as (j & Hk & Ha & Ha' & Hl & Hp).
  split; [unfold attempts_of; rewrite Hk, Ha; simpl; f_equal; lia|].
  split; [by rewrite Ha|].
  pose proof (wf_jobs _ _ Hwf _ _ Hk) as [].
  assert (wrap_int64 (j_attempts j + 1) = j_attempts j + 1) as Hw.
  { apply wrap_int64_id. unfold in_int64, min_int64, max_int64 in *. lia. }
  unfold attempts_of, Release, Postpone, release, Ack. rewrite Hl. simpl.
  rewrite !lookup_insert_eq. simpl. rewrite Hw, Ha.
  replace (0 <? j_attempts j + 1) with true by (symmetry; apply Z.ltb_lt; lia).
  split; [done|]. split; [done|].
  destruct (releaseUnique_job (lease_job uuid (Add now lease) j) (q_uniques q')) as (h & Hj & _).
  destruct (releaseUnique _ (q_uniques q')) as [j' m]. simpl in *. subst j'. simpl.
  rewrite <- jo_key, lookup_delete_eq. done.
Qed.

Lemma attempts_counted_witness :
  attempts_of ("default", "a")
    (Postpone 210 sample_delivery 500 (Reserve 200 "r1" ["default"] 100 sample_queue).1).1 = Some 0.
Proof.
  apply (attempts_counted 2 sample_queue 200 "r1" ["default"] 100 _ sample_delivery 210 500
    sample_queue_wf); [reflexivity | discriminate | apply sample_reserve].
Defined.

(** ** Failed jobs *)

Lemma failed_le_iff a b :
  failed_le a b <->
  FAt (FJFailure b) < FAt (FJFailure a) \/
  (FAt (FJFailure a) = FAt (FJFailure b) /\
   String.leb (ID (FJEnvelope b)) (ID (FJEnvelope a)) = true).
Proof.
  unfold failed_le, failed_before.
  destruct (FAt (FJFailure b) =? FAt (FJFailure a)) eqn:E; simpl; breflect.
  - rewrite string_ltb_leb, negb_false_iff. intuition lia.
  - unfold After. rewrite Z.ltb_ge. lia.
Qed.

#[local] Instance failed_le_total : Total failed_le.
Proof.
  intros a b. rewrite !failed_le_iff.
  pose proof (String.leb_total (ID (FJEnvelope a)) (ID (FJEnvelope b))).
  destruct (Z.lt_trichotomy (FAt (FJFailure a)) (FAt (FJFailure b))) as [|[]]; intuition.
Qed.

#[local] Instance failed_le_trans : Transitive failed_le.
Proof.
  intros a b c. rewrite !failed_le_iff. intros [H1|[H1 L1]] [H2|[H2 L2]]; try (left; lia).
  right. split; [lia|]. by eapply string_leb_trans.
Qed.

Lemma failed_entry_elem queue kj fj :
  fj ∈ failed_entry queue kj <->
  j_queue kj.2 = queue /\ exists f, j_failure kj.2 = Some f /\ fj = failedJob kj.2 f.
Proof.
  unfold failed_entry. destruct (String.eqb (j_queue kj.2) queue) eqn:E; breflect.
  - destruct (j_failure kj.2) as [f|].
    + rewrite list_elem_of_singleton. naive_solver.
    + rewrite elem_of_nil. naive_solver.
  - rewrite elem_of_nil. naive_solver.
Qed.

(** Failed lists the failed jobs of a queue and no others, the most recent failure first,
    and a limit takes a prefix of that list. *)
Theorem Failed_lists_most_recent_first queue q limit out :
  Failed queue limit q = Ok out ->
  StronglySorted failed_le out /\
  exists all, Failed queue 0 q = Ok all /\
    out = (if 0 <? limit then take (Z.to_nat limit) all else all) /\
    forall fj, fj ∈ all <->
      exists k j f, q_jobs q !! k = Some j /\ j_queue j = queue /\ j_failure j = Some f /\
        fj = failedJob j f.
Proof.
  unfold Failed. intros H. case_match; [done|]. case_match; [done|].
  set (all := merge_sort failed_le (map_to_list (q_jobs q) ≫= failed_entry queue)) in *.
  assert (StronglySorted failed_le all) as Hs by (apply StronglySorted_merge_sort; apply _).
  assert (out = if 0 <? limit then take (Z.to_nat limit) all else all) as Hout.
  { injection H as <-. destruct (0 <? limit) eqn:E; simpl; [|done]. breflect.
    destruct (limit <? Z.of_nat (length all)) eqn:E'; [done|]. breflect.
    rewrite take_ge; [done | lia]. }
  split.
  - rewrite Hout. case_match; [|done]. 
    rewrite <- (take_drop (Z.to_nat limit) all) in Hs. by apply StronglySorted_app_1_l in Hs.
  - exists all. split; [done|]. split; [done|]. intros fj. unfold all.
    rewrite merge_sort_Permutation, list_elem_of_bind. split.
    + intros ([k j] & (Hq & f & Hf & ->)%failed_entry_elem & Hin%elem_of_map_to_list).
      simpl in *. eauto 10.
    + intros (k & j & f & Hk & Hq & Hf & ->). exists (k, j). split.
      * apply failed_entry_elem. simpl. eauto.
      * by apply elem_of_map_to_list.
Qed.

Definition sample_failure (t : time) : Failure :=
  mkFailure ReasonExhausted KindHandler (Text "boom") t.

(** A job delivered, buried at 250, the other delivered and buried at 260. *)
Definition sample_buried : MemoryQueue :=
  run (sample_pushes ++
    [OReserve 200 "r1" ["default"] 100; OBury 250 sample_delivery (sample_failure 0);
     OReserve 201 "r2" ["default"] 100;
     OBury 260 (mkDelivery "default" (setAttempt 1 (sample_env "b")) "r2" false 101 None)
       (sample_failure 0)]) NewMemoryQueue.

Definition sample_failed (id : string) (t : time) : FailedJob :=
  mkFailedJob "default" (setAttempt 1 (sample_env id)) "" 1 (sample_failure t).

Lemma Failed_lists_most_recent_first_witness :
  Failed "default" 1 sample_buried = Ok [sample_failed "b" 260] /\
  StronglySorted failed_le [sample_failed "b" 260].
Proof.
  assert (Failed "default" 1 sample_buried = Ok [sample_failed "b" 260]) as H
    by (vm_compute; reflexivity).
  split; [exact H | exact (proj1 (Failed_lists_most_recent_first "default" sample_buried 1 _ H))].
Defined.

(** A settled lease, buried: what the queue then holds. *)
Lemma Bury_Ok t d f q a :
  leased d q = Ok a ->
  let f1 := if IsZero (FAt f) then setAt t f else f in
  exists m b, Bury t d f q = (put_job (DKey d) b (set_uniques m q), None) /\
    j_failure b = Some f1 /\ j_env b = j_env a /\ j_attempts b = j_attempts a /\
    j_queue b = j_queue a /\ j_raw b = j_raw a /\ j_reserved b = false.
Proof.
  intros Hl f1. unfold Bury. rewrite Hl. fold f1.
  destruct (releaseUnique_job (buried_job f1 a) (q_uniques q)) as (h & Hj & _).
  destruct (releaseUnique (buried_job f1 a) (q_uniques q)) as [b m].
  simpl in Hj. subst b. eexists m, _. split; [reflexivity|]. done.
Qed.

Lemma RetryFailed_Ok clk queue id q j f :
  failed queue id q = Ok (j, f) -> (RetryFailed clk queue id q).2 = None ->
  exists s h, q_jobs (RetryFailed clk queue id q).1 !! (queue, id) =
    Some (retried_job (clk 1%nat) s h j).
Proof.
  intros Hf. unfold RetryFailed. rewrite Hf.
  repeat case_match; simpl; intros; simplify_eq; rewrite lookup_insert_eq; eauto.
Qed.

(** A job set aside can be looked at and retried: Bury of a held delivery succeeds, the
    failed job reads back with its envelope, attempts and failure, no Reserve can take it,
    and a RetryFailed that succeeds makes it available again with no attempt counted. *)
Theorem bury_then_retry n q now uuid queues lease q' d f t clk :
  wf n q -> n < max_int64 -> uuid <> "" -> Reserve now uuid queues lease q = (q', Ok d) ->
  let q1 := (Bury t d f q').1 in
  let f1 := if IsZero (FAt f) then setAt t f else f in
  (Bury t d f q').2 = None /\
  (exists fj, GetFailedJob (DQueue d) (ID (DEnvelope d)) q1 = Ok fj /\
     FJEnvelope fj = DEnvelope d /\ FJAttempts fj = Attempt (DEnvelope d) /\ FJFailure fj = f1) /\
  (forall j u, q_jobs q1 !! DKey d = Some j -> available u j = false) /\
  ((RetryFailed clk (DQueue d) (ID (DEnvelope d)) q1).2 = None ->
   exists j, q_jobs (RetryFailed clk (DQueue d) (ID (DEnvelope d)) q1).1 !! DKey d = Some j /\
     j_attempts j = 0 /\ j_failure j = None /\ available (clk 1%nat) j = true).
Proof.
  intros Hwf Hn Hu Hres q1 f1.
  destruct (Reserve_leases _ _ _ _ _ _ _ _ Hwf Hn Hu Hres) as (j & Hk & Ha & Ha' & Hl & Hp).
  pose proof Hres as (k & j' & Hk' & _ & _ & _ & _ & Hc & _ & Hq' & Hd & _)%Reserve_Ok.
  pose proof (jo_key _ _ _ _ (wf_jobs _ _ Hwf _ _ Hk')) as Hkey.
  assert (k = DKey d) as -> by (rewrite Hd; done). assert (j' = j) as -> by congruence.
  destruct (Bury_Ok t d f q' _ Hl) as (m & b & Hb & Hbf & Hbe & Hba & Hbq & Hbr & Hbres).
  fold f1 in Hbf. subst q1. rewrite Hb. cbn [fst snd].
  set (q1 := put_job (DKey d) b (set_uniques m q')).
  assert (q_jobs q1 !! DKey d = Some b) as Hqb by apply lookup_insert_eq.
  assert (failed (DQueue d) (ID (DEnvelope d)) q1 = Ok (b, f1)) as Hf.
  { unfold failed. fold (DKey d). rewrite Hqb, Hbf. unfold q1; simpl. by rewrite Hq'; simpl; rewrite Hc. }
  split; [done|]. split; [|split].
  - eexists. unfold GetFailedJob. rewrite Hf. split; [done|]. unfold failedJob; simpl.
    rewrite Hba, Hbe. simpl. rewrite Hd. done.
  - intros j0 u H0. assert (j0 = b) as -> by congruence. unfold available. by rewrite Hbf.
  - intros Hr. destruct (RetryFailed_Ok clk _ _ _ _ _ Hf Hr) as (s & h & Hrj).
    exists (retried_job (clk 1%nat) s h b). split; [done|]. split; [done|]. split; [done|].
    unfold available; simpl. rewrite Hbres. apply negb_true_iff, Before_false. lia.
Qed.

Lemma bury_then_retry_witness :
  exists j, q_jobs (RetryFailed (fun _ => 300) "default" "a"
      (Bury 250 sample_delivery (sample_failure 0)
         (Reserve 200 "r1" ["default"] 100 sample_queue).1).1).1 !! ("default", "a") = Some j /\
    j_attempts j = 0 /\ j_failure j = None /\ available 300 j = true.
Proof.
  apply (bury_then_retry 2 sample_queue 200 "r1" ["default"] 100 _ sample_delivery
    (sample_failure 0) 250 (fun _ => 300) sample_queue_wf);
    [reflexivity | discriminate | apply sample_reserve | vm_compute; reflexivity].
Defined.

(** * Uniqueness claims and Once records of the in-process queue

    A live uniqueness claim refuses every other unique push of its key until
    its job is acknowledged or buried, or it expires; a live Once record answers
    every BeginOnce until its token finishes or abandons it, or it expires. *)

Local Open Scope string_scope.
Local Open Scope list_scope.
Local Open Scope Z_scope.

(** ** Held claims *)

(** A map of claims holds [k] for [h] until [t] at least. *)
Definition held {K} `{Countable K} (k : K) (h : string) (t : time)
    (m : gmap K memoryClaim) : Prop :=
  exists c, m !! k = Some c /\ c_holder c = h /\ t <= c_expires c.

Section Held.
Context {K : Type} `{Countable K}.
Implicit Types (m : gmap K memoryClaim) (k : K).

Lemma held_filter k h t now m :
  now < t -> held k h t m -> held k h t (filter (fun kc => live now kc.2 = true) m).
Proof.
  intros Hn (c & Hc & Hh & Ht). exists c. split; [|done].
  apply map_lookup_filter_Some_2; [done|]. unfold live. apply Before_true. simpl. lia.
Qed.

Lemma held_insert_ne k k' c h t m : k' <> k -> held k h t m -> held k h t (<[k' := c]> m).
Proof. intros Hne (c' & Hc & Hh & Ht). exists c'. by rewrite lookup_insert_ne. Qed.

Lemma held_insert_eq k h t e m : t <= e -> held k h t (<[k := mkClaim h e]> m).
Proof. intros Ht. exists (mkClaim h e). by rewrite lookup_insert_eq. Qed.

Lemma held_delete_ne k k' h t m : k' <> k -> held k h t m -> held k h t (delete k' m).
Proof. intros Hne (c' & Hc & Hh & Ht). exists c'. by rewrite lookup_delete_ne. Qed.
End Held.

#[local] Hint Resolve held_filter held_insert_ne held_delete_ne : gombit.

Lemma held_sweep now k h t q :
  now < t -> held k h t (q_uniques q) -> held k h t (q_uniques (sweepClaims now q)).
Proof. unfold sweepClaims. intros. case_match; simpl; auto with gombit. Qed.

Lemma held_once_sweep now k h t q :
  now < t -> held k h t (q_once q) -> held k h t (q_once (sweepClaims now q)).
Proof. unfold sweepClaims. intros. case_match; simpl; auto with gombit. Qed.

(** A held claim is what a unique push or a retry finds. *)
Lemma held_heldBy now k h t m :
  now < t -> held k h t m -> exists c, heldBy now k m = Some c /\ c_holder c = h.
Proof.
  intros Hn (c & Hc & Hh & Ht). exists c. unfold heldBy. rewrite Hc. unfold live.
  replace (Before now (c_expires c)) with true; [done|]. symmetry. apply Before_true. lia.
Qed.

(** Only the holder's own job gives a claim up. *)
Lemma held_releaseUnique j h t k m :
  (j_queue j, ID (j_env j)) <> (k.1, h) -> held k h t m -> held k h t (releaseUnique j m).2.
Proof.
  intros Hne Hh. unfold releaseUnique. repeat case_match; simpl; auto.
  destruct (decide ((j_queue j, j_unique j) = k)) as [<-|]; [|auto with gombit].
  breflect. destruct Hh as (c & Hc & Hh & _). simpl in *. congruence.
Qed.

(** Steps that do not settle the job [h] on queue [k.1], nor retry it, nor
    close the queue. *)
Definition unique_quiet (k : string * string) (h : string) (o : op) : Prop :=
  match o with
  | OAck d | OBury _ d _ => DKey d <> (k.1, h)
  | ORetryFailed _ queue id => (queue, id) <> (k.1, h)
  | OClose => False
  | _ => True
  end.

Lemma push_held clk queue env at_ u k h t q :
  (forall i, clk i < t) -> held k h t (q_uniques q) ->
  held k h t (q_uniques (push clk queue env at_ u q).1).
Proof.
  intros Ht Hh. unfold push. case_match; [done|]. case_match; [done|]. case_match; [done|].
  set (q1 := match u with Some _ => sweepClaims (clk 0%nat) q | None => q end).
  assert (held k h t (q_uniques q1)) as Hq1 by (subst q1; destruct u; auto using held_sweep).
  case_match eqn:Er; [done|]. case_match; [done|]. simpl. destruct u as [u|]; [|done].
  unfold push_refused in Er. case_match eqn:Eh; [done|].
  apply held_insert_ne; [|done]. intros <-.
  destruct (held_heldBy (clk 1%nat) (queue, Key u) h t (q_uniques q1)) as (c & Hc & _); [auto..|].
  unfold q1 in *. congruence.
Qed.

Lemma held_step n q o k h t :
  wf n q -> held k h t (q_uniques q) -> reads_at o (fun now => now < t) -> unique_quiet k h o ->
  held k h t (q_uniques (apply o q)).
Proof.
  intros Hwf Hh Ht Hq. destruct o; simpl in *.
  - by apply push_held.
  - unfold PushUnique. case_match; [done|]. by apply push_held.
  - destruct (Reserve now uuid queues lease q) as [q' [d|e]] eqn:E; simpl.
    + apply Reserve_Ok in E as (? & ? & _ & _ & _ & _ & _ & _ & _ & -> & _). done.
    + by apply Reserve_Err in E as ->.
  - unfold Ack. case_match eqn:E; [|done]. apply leased_Ok in E as (_ & Ha & _).
    pose proof (jo_key _ _ _ _ (wf_jobs _ _ Hwf _ _ Ha)) as Hkey.
    pose proof (held_releaseUnique a h t k (q_uniques q) ltac:(congruence) Hh).
    by destruct (releaseUnique a (q_uniques q)).
  - unfold Release, release. by repeat case_match.
  - unfold Postpone, release. by repeat case_match.
  - unfold Extend. by repeat case_match.
  - unfold Bury. case_match eqn:E; [|done]. apply leased_Ok in E as (_ & Ha & _).
    pose proof (jo_key _ _ _ _ (wf_jobs _ _ Hwf _ _ Ha)) as Hkey.
    set (b := buried_job _ a).
    pose proof (held_releaseUnique b h t k (q_uniques q) ltac:(simpl; congruence) Hh).
    by destruct (releaseUnique b (q_uniques q)).
  - unfold BeginOnce. repeat case_match; simpl; auto using held_sweep.
  - unfold FinishOnce. by repeat case_match.
  - unfold AbandonOnce. by repeat case_match.
  - unfold RetryFailed. case_match; [|done]. destruct a as [j f]. case_match; [done|].
    destruct (decide ((queue, j_unique j) = k)) as [<-|Hne].
    + destruct (held_heldBy (clk 0%nat) _ _ _ _ (Ht 0%nat) Hh) as (c & -> & Hc).
      case_match eqn:Ei; [done|]. breflect. simpl in *. congruence.
    + repeat case_match; simpl; auto with gombit.
  - unfold ForgetFailed. by repeat case_match.
  - unfold PurgeFailed. by repeat case_match.
  - done.
Qed.

Lemma apply_closed o q : o <> OClose -> q_closed (apply o q) = q_closed q.
Proof.
  intros Ho. destruct o; simpl; [..|done].
  all: unfold PushUnique, Push, push, Reserve, Ack, Release, Postpone, release, Extend, Bury,
         BeginOnce, FinishOnce, AbandonOnce, RetryFailed, ForgetFailed, PurgeFailed, sweepClaims.
  all: repeat (case_match; simpl in *; simplify_eq/=; try done).
Qed.

Lemma held_run os : forall n q k h t,
  wf n q -> n + Z.of_nat (length os) <= max_int64 -> Forall op_ok os ->
  held k h t (q_uniques q) -> Forall (fun o => reads_at o (fun now => now < t)) os ->
  Forall (unique_quiet k h) os ->
  held k h t (q_uniques (run os q)) /\ q_closed (run os q) = q_closed q.
Proof.
  induction os as [|o os IH]; intros n q k h t Hwf Hn Hok Hh Ht Hq; [done|].
  inversion Hok; inversion Ht; inversion Hq; subst. simpl in Hn. simpl.
  destruct (IH (n + 1) (apply o q) k h t) as [Hr Hrc]; auto.
  { apply apply_wf; auto; lia. } { lia. } { by eapply held_step. }
  rewrite Hrc. split; [done|]. apply apply_closed. by intros ->.
Qed.

Lemma sweepClaims_closed now q : q_closed (sweepClaims now q) = q_closed q.
Proof. unfold sweepClaims. by case_match. Qed.

Lemma PushUnique_Ok clk queue env at_ u q q' :
  PushUnique clk queue env at_ u q = (q', None) ->
  ValidName queue = true /\ q_closed q' = false /\
  held (queue, Key u) (ID env) (clk 2%nat + TTL u) (q_uniques q').
Proof.
  unfold PushUnique, push. intros H.
  case_match; [done|]. case_match; [done|]. case_match; [done|]. case_match eqn:Ec; [done|].
  case_match; [done|]. case_match; [done|]. breflect. simplify_eq/=.
  split; [done|]. split; [by rewrite sweepClaims_closed|]. by apply held_insert_eq.
Qed.

(** What a unique push of a held key gives. *)
Lemma PushUnique_refused clk queue env at_ u q h t :
  ValidName queue = true -> ID env <> "" -> UniqueKey_validate u = None -> q_closed q = false ->
  (forall i, clk i < t) -> held (queue, Key u) h t (q_uniques q) ->
  (PushUnique clk queue env at_ u q).2 = Some (DuplicateError queue (Key u) h) /\
  q_jobs (PushUnique clk queue env at_ u q).1 = q_jobs q.
Proof.
  intros Hv Hid Hu Hc Ht Hh. unfold PushUnique, push. rewrite Hu, Hv, Hc.
  apply String.eqb_neq in Hid. rewrite Hid. simpl.
  destruct (held_heldBy (clk 1%nat) (queue, Key u) h t (q_uniques (sweepClaims (clk 0%nat) q)))
    as (c & -> & <-); auto using held_sweep. simpl.
  split; [done | apply sweepClaims_jobs].
Qed.

(** A unique key admits one job: after a PushUnique succeeded, and while its lock lasts and
    nothing ends that job, every other PushUnique of the key on the queue is refused with a
    DuplicateError naming the first job, and stores nothing. *)
Theorem unique_exclusive n q clk queue env at_ u q' os clk' env' at_' u' :
  wf n q -> n + 1 + Z.of_nat (length os) <= max_int64 -> 0 < clk 2%nat ->
  PushUnique clk queue env at_ u q = (q', None) ->
  Forall op_ok os -> Forall (unique_quiet (queue, Key u) (ID env)) os ->
  Forall (fun o => reads_at o (fun t => t < clk 2%nat + TTL u)) os ->
  Key u' = Key u -> UniqueKey_validate u' = None -> ID env' <> "" ->
  (forall i, clk' i < clk 2%nat + TTL u) ->
  let r := PushUnique clk' queue env' at_' u' (run os q') in
  r.2 = Some (DuplicateError queue (Key u) (ID env)) /\ q_jobs r.1 = q_jobs (run os q').
Proof.
  intros Hwf Hn Hclk Hpush Hok Hq Ht Hk Hu' Hid Hclk' r.
  pose proof (PushUnique_Ok _ _ _ _ _ _ _ Hpush) as (Hv & Hc & Hh).
  assert (wf (n + 1) q') as Hwf'.
  { unfold PushUnique in Hpush. case_match eqn:Eu; [done|].
    pose proof (push_wf n q ltac:(lia) Hwf clk queue env at_ (Some u) Hclk) as H.
    rewrite Hpush in H. apply H. intros u0 [= <-]. unfold UniqueKey_validate in Eu.
    case_match eqn:E'; [done|]. by breflect. }
  destruct (held_run os _ _ _ _ _ Hwf' ltac:(lia) Hok Hh Ht Hq) as [Hh' Hc'].
  subst r. rewrite <- Hk in *. eapply PushUnique_refused; eauto; congruence.
Qed.

Definition sample_unique : UniqueKey := mkUniqueKey "report:7" 1000 true.

(** "a" holds the key from 100 to 1100; it is reserved, its lease is lost, it is
    released and reserved again; "b" is refused at 900. *)
Definition sample_unique_steps : list op :=
  [OReserve 200 "r1" ["default"] 100; OReserve 350 "r2" ["default"] 100;
   OAck (mkDelivery "default" (sample_env "b") "r2" false 0 None);
   ORelease 400 (mkDelivery "default" (sample_env "a") "r2" false 0 None) 0;
   OReserve 500 "r3" ["default"] 100].

Lemma unique_exclusive_witness :
  (PushUnique (fun _ => 900) "default" (sample_env "b") 0 sample_unique
    (run sample_unique_steps
       (PushUnique (fun _ => 100) "default" (sample_env "a") 0 sample_unique NewMemoryQueue).1)).2 =
  Some (DuplicateError "default" "report:7" "a").
Proof.
  apply (unique_exclusive 0 NewMemoryQueue (fun _ => 100) "default" (sample_env "a") 0
    sample_unique _ sample_unique_steps (fun _ => 900) (sample_env "b") 0 sample_unique
    (wf_run [] ltac:(constructor) ltac:(vm_compute; discriminate))).
  - vm_compute; discriminate.
  - lia.
  - vm_compute. reflexivity.
  - solve_op_ok.
  - repeat constructor; discriminate.
  - repeat constructor; simpl; lia.
  - reflexivity.
  - reflexivity.
  - discriminate.
  - simpl. lia.
Defined.

(** ** Once records *)

(** Steps in which [token] neither finishes nor abandons [key]. *)
Definition once_quiet (key token : string) (o : op) : Prop :=
  match o with
  | OFinishOnce _ k tk _ | OAbandonOnce k tk => k = key -> tk <> token
  | _ => True
  end.

Lemma once_unchanged o q :
  match o with
  | OBeginOnce _ _ _ _ | OFinishOnce _ _ _ _ | OAbandonOnce _ _ | OPush _ _ _ _
  | OPushUnique _ _ _ _ _ => True
  | _ => q_once (apply o q) = q_once q
  end.
Proof.
  destruct o; simpl; try done.
  all: unfold Reserve, Ack, Release, Postpone, release, Extend, Bury, RetryFailed, ForgetFailed,
         PurgeFailed; repeat (case_match; simpl in *; simplify_eq/=; try done).
Qed.

Lemma push_once clk queue env at_ u k h t q :
  (forall i, clk i < t) -> held k h t (q_once q) ->
  held k h t (q_once (push clk queue env at_ u q).1).
Proof.
  intros Ht Hh. unfold push. case_match; [done|]. case_match; [done|]. case_match; [done|].
  set (q1 := match u with Some _ => sweepClaims (clk 0%nat) q | None => q end).
  assert (held k h t (q_once q1)) as Hq1 by (subst q1; destruct u; auto using held_once_sweep).
  repeat case_match; done.
Qed.

Lemma held_once_step q o key h t :
  held key h t (q_once q) -> reads_at o (fun now => now < t) -> once_quiet key h o ->
  held key h t (q_once (apply o q)).
Proof.
  intros Hh Ht Hq. pose proof (once_unchanged o q) as Hu.
  destruct o; try (by rewrite Hu); simpl in *; clear Hu.
  - by apply push_once.
  - unfold PushUnique. case_match; [done|]. by apply push_once.
  - unfold BeginOnce. pose proof (held_once_sweep now _ _ _ _ Ht Hh) as Hh'.
    destruct (decide (key0 = key)) as [->|].
    + destruct Hh' as (c & Hc & Hh' & Hce). rewrite Hc. unfold live.
      replace (Before now (c_expires c)) with true by (symmetry; apply Before_true; lia).
      simpl. by exists c.
    + repeat case_match; simpl; auto with gombit.
  - unfold FinishOnce. destruct Hh as (c & Hc & Hh & Hce).
    destruct (decide (key0 = key)) as [->|].
    + rewrite Hc. replace (String.eqb (c_holder c) token) with false.
      2: { symmetry. apply String.eqb_neq. intros E. apply Hq; congruence. }
      simpl. by exists c.
    + repeat case_match; simpl; try (by exists c). apply held_insert_ne; [done|]. by exists c.
  - unfold AbandonOnce. destruct Hh as (c & Hc & Hh & Hce).
    destruct (decide (key0 = key)) as [->|].
    + rewrite Hc. replace (String.eqb (c_holder c) token) with false.
      2: { symmetry. apply String.eqb_neq. intros E. apply Hq; congruence. }
      simpl. by exists c.
    + repeat case_match; simpl; try (by exists c). apply held_delete_ne; [done|]. by exists c.
Qed.

Lemma held_once_run os : forall q key h t,
  held key h t (q_once q) -> Forall (fun o => reads_at o (fun now => now < t)) os ->
  Forall (once_quiet key h) os -> held key h t (q_once (run os q)).
Proof.
  induction os as [|o os IH]; intros q key h t Hh Ht Hq; [done|].
  inversion Ht; inversion Hq; subst. simpl. apply IH; auto. by apply held_once_step.
Qed.

(** What BeginOnce answers for a held key. *)
Lemma BeginOnce_held now key token lock q h t :
  now < t -> held key h t (q_once q) ->
  (BeginOnce now key token lock q).2 =
    if String.eqb h onceDoneMarker then OnceDone else OnceBusy.
Proof.
  intros Hn Hh. apply (held_once_sweep now) in Hh as (c & Hc & <- & Ht); [|done].
  unfold BeginOnce. rewrite Hc. unfold live.
  replace (Before now (c_expires c)) with true by (symmetry; apply Before_true; lia).
  done.
Qed.

Lemma BeginOnce_acquired now key token lock q q' :
  BeginOnce now key token lock q = (q', OnceAcquired) -> held key token (now + lock) (q_once q').
Proof.
  unfold BeginOnce. intros H. repeat case_match; simplify_eq; simpl; by apply held_insert_eq.
Qed.
