(* ===== verification/JobsOnce.v ===== *)
(** * jobs/unique.go: Once

    [Once] runs an effect under a lock of an [OnceStore].  The store is an
    interface here as in the source: its operations are the class [OnceStore],
    what [Once] relies on is the class [OnceStoreLaws], and [MemoryQueue]
    implements both.  Application code ([fn]) may use the store itself and ends
    in a return or a panic. *)

From stdpp Require Import base tactics numbers list strings gmap fin_maps.
From Stdlib Require Import ZArith Lia.
From S2P Require Import Prelude JobsTypes JobsMemory JobsMemoryInv JobsMemoryQueue JobsMemoryClaims.

Local Open Scope string_scope.
Local Open Scope list_scope.
Local Open Scope Z_scope.

(** How a call of application code ends: it returns its error (nil is [None])
    or panics. *)
Inductive outcome : Type :=
| Returned (err : option error)
| Panicked (value : string).

(** ** The store *)

(** [type OnceStore interface], the clock passed to the methods that read it. *)
Class OnceStore (S : Type) : Type := {
  beginOnce : time -> string -> string -> duration -> S -> S * result error OnceState;
  finishOnce : (nat -> time) -> string -> string -> duration -> S -> S * option error;
  abandonOnce : string -> string -> S -> S * option error
}.

(** What a store has on record for a key. *)
Inductive record : Type := Running (token : string) | Done.

(** The contract: [recorded key r t s] says that [s] has [r] on record for
    [key] until [t] at least, [free key s] that it has nothing. *)
Class OnceStoreLaws (S : Type) `{OnceStore S} : Type := {
  okToken : string -> Prop;
  recorded : string -> record -> time -> S -> Prop;
  free : string -> S -> Prop;
  begin_free now key token lock s : free key s -> (beginOnce now key token lock s).2 = Ok OnceAcquired;
  begin_acquired now key token lock s s' :
    okToken token -> beginOnce now key token lock s = (s', Ok OnceAcquired) ->
    recorded key (Running token) (now + lock) s';
  begin_recorded now key token lock s r t :
    recorded key r t s -> now < t ->
    (beginOnce now key token lock s).2 =
      Ok (match r with Done => OnceDone | Running _ => OnceBusy end) /\
    recorded key r t (beginOnce now key token lock s).1;
  finish_recorded clk key token keep s t :
    recorded key (Running token) t s -> clk 0%nat < t ->
    recorded key Done (clk 1%nat + keep) (finishOnce clk key token keep s).1;
  abandon_recorded key token s t :
    recorded key (Running token) t s ->
    free key (abandonOnce key token s).1 /\ (abandonOnce key token s).2 = None
}.

(** ** Options *)

Record onceConfig : Type := mkOnceConfig { keep : duration; lock : duration }.

Definition DefaultOnceKeep : duration := 7 * 24 * Hour.
Definition DefaultOnceLock : duration := 15 * Minute.

(** [KeepFor] and [LockFor]. *)
Inductive OnceOption : Type := KeepFor (d : duration) | LockFor (d : duration).

Definition applyOnceOption (c : onceConfig) (o : OnceOption) : onceConfig :=
  match o with
  | KeepFor d => mkOnceConfig d (lock c)
  | LockFor d => mkOnceConfig (keep c) d
  end.

Definition onceOptions (opts : list OnceOption) : onceConfig :=
  fold_left applyOnceOption opts (mkOnceConfig DefaultOnceKeep DefaultOnceLock).

(** ** Once *)

Section Once.
Context {S : Type} `{OnceStore S}.

(** The defer of [Once] when [fn] returned [err]: the lock is released, and a
    release that fails is joined to the error.  (After a panic the named result
    is still nil, so a failed release is dropped.) *)
Definition abandoned (key token : string) (err : error) (s : S) : S * outcome :=
  let '(s, abandonErr) := abandonOnce key token s in
  (s, Returned (Some match abandonErr with
                     | Some e => Join err (Wrapf key e)
                     | None => err
                     end)).

(** [Once].  [store] says whether the context carries a store, [token] is what
    [newToken] returns; the clock is read by BeginOnce (0) and FinishOnce (1
    and 2). *)
Definition Once (store : bool) (clk : nat -> time) (token key : string)
    (fn : S -> S * outcome) (opts : list OnceOption) (s : S) : S * outcome :=
  if String.eqb key "" then (s, Returned (Some (Text "jobs: Once: empty key")))
  else
    let cfg := onceOptions opts in
    if (keep cfg <=? 0) || (lock cfg <=? 0) then
      (s, Returned (Some (Text "jobs: Once: KeepFor and LockFor must be positive")))
    else if negb store then fn s
    else match beginOnce (clk 0%nat) key token (lock cfg) s with
    | (s, Err e) => (s, Returned (Some (Wrapf key e)))
    | (s, Ok OnceDone) => (s, Returned None)
    | (s, Ok OnceBusy) => (s, Returned (Some (Wrapf key (Sentinel ErrInProgress))))
    | (s, Ok OnceAcquired) =>
        match fn s with
        | (s, Returned None) =>
            ((finishOnce (fun i => clk (1 + i)%nat) key token (keep cfg) s).1, Returned None)
        | (s, Returned (Some err)) => abandoned key token err s
        | (s, Panicked v) => ((abandonOnce key token s).1, Panicked v)
        end
    end.

(** The calls [Once] makes are valid. *)
Definition once_valid (key : string) (opts : list OnceOption) : Prop :=
  key <> "" /\ 0 < keep (onceOptions opts) /\ 0 < lock (onceOptions opts).

(** [Once] past its argument checks, inside a worker. *)
Lemma Once_valid clk token key fn opts s :
  once_valid key opts ->
  Once true clk token key fn opts s =
  match beginOnce (clk 0%nat) key token (lock (onceOptions opts)) s with
  | (s, Err e) => (s, Returned (Some (Wrapf key e)))
  | (s, Ok OnceDone) => (s, Returned None)
  | (s, Ok OnceBusy) => (s, Returned (Some (Wrapf key (Sentinel ErrInProgress))))
  | (s, Ok OnceAcquired) =>
      match fn s with
      | (s, Returned None) =>
          ((finishOnce (fun i => clk (1 + i)%nat) key token (keep (onceOptions opts)) s).1,
           Returned None)
      | (s, Returned (Some err)) => abandoned key token err s
      | (s, Panicked v) => ((abandonOnce key token s).1, Panicked v)
      end
  end.
Proof using.
  intros (Hk & Hkeep & Hlock). unfold Once.
  apply String.eqb_neq in Hk as ->.
  replace (keep (onceOptions opts) <=? 0) with false by (symmetry; apply Z.leb_gt; lia).
  replace (lock (onceOptions opts) <=? 0) with false by (symmetry; apply Z.leb_gt; lia).
  done.
Qed.

Context `{!OnceStoreLaws S}.

(** [fn] leaves the run's own record alone. *)
Definition respects (key token : string) (t : time) (fn : S -> S * outcome) : Prop :=
  forall s, recorded key (Running token) t s -> recorded key (Running token) t (fn s).1.

(** A key on record: [fn] is not called. *)
Lemma Once_recorded clk token key fn opts s r t :
  once_valid key opts -> recorded key r t s -> clk 0%nat < t ->
  Once true clk token key fn opts s =
    ((beginOnce (clk 0%nat) key token (lock (onceOptions opts)) s).1,
     Returned (match r with
               | Done => None
               | Running _ => Some (Wrapf key (Sentinel ErrInProgress))
               end)).
Proof using OnceStoreLaws0.
  intros Hv Hr Ht. rewrite Once_valid by done.
  destruct (begin_recorded (clk 0%nat) key token (lock (onceOptions opts)) s r t Hr Ht) as [H2 _].
  destruct (beginOnce _ _ _ _ s) as [s' res]; simpl in *. subst res. by destruct r.
Qed.

(** A run that acquires the key and succeeds before its lock expires leaves
    the key done. *)
Lemma Once_success_recorded clk token key fn opts s s1 s2 :
  once_valid key opts -> okToken token ->
  beginOnce (clk 0%nat) key token (lock (onceOptions opts)) s = (s1, Ok OnceAcquired) ->
  respects key token (clk 0%nat + lock (onceOptions opts)) fn ->
  fn s1 = (s2, Returned None) ->
  clk 1%nat < clk 0%nat + lock (onceOptions opts) ->
  (Once true clk token key fn opts s).2 = Returned None /\
  recorded key Done (clk 2%nat + keep (onceOptions opts)) (Once true clk token key fn opts s).1.
Proof using OnceStoreLaws0.
  intros Hv Htok Hb Hfn Hrun Hclk. rewrite Once_valid by done. rewrite Hb, Hrun.
  split; [done|]. simpl.
  apply (begin_acquired _ _ _ _ _ _ Htok), Hfn in Hb. rewrite Hrun in Hb.
  by apply (finish_recorded (fun i => clk (Datatypes.S i)) _ _ _ _ _ Hb).
Qed.

(** A run that acquires the key and fails or panics leaves the key free, and
    ends as [fn] did. *)
Lemma Once_failure_free clk token key fn opts s s1 s2 out :
  once_valid key opts -> okToken token ->
  beginOnce (clk 0%nat) key token (lock (onceOptions opts)) s = (s1, Ok OnceAcquired) ->
  respects key token (clk 0%nat + lock (onceOptions opts)) fn ->
  fn s1 = (s2, out) -> out <> Returned None ->
  (Once true clk token key fn opts s).2 = out /\
  free key (Once true clk token key fn opts s).1.
Proof using OnceStoreLaws0.
  intros Hv Htok Hb Hfn Hrun Hout. rewrite Once_valid by done. rewrite Hb, Hrun.
  apply (begin_acquired _ _ _ _ _ _ Htok), Hfn in Hb. rewrite Hrun in Hb. simpl in Hb.
  apply abandon_recorded in Hb as [Hfree Hnone].
  destruct out as [[err|]|v]; [|done|done]. unfold abandoned.
  destruct (abandonOnce key token s2) as [s3 ae]; simpl in *. by subst ae.
Qed.

(** On a free key [fn] runs, from the store [beginOnce] leaves. *)
Lemma Once_free_runs clk token key fn opts s :
  once_valid key opts -> free key s ->
  let s1 := (beginOnce (clk 0%nat) key token (lock (onceOptions opts)) s).1 in
  Once true clk token key fn opts s =
  match fn s1 with
  | (s, Returned None) =>
      ((finishOnce (fun i => clk (1 + i)%nat) key token (keep (onceOptions opts)) s).1,
       Returned None)
  | (s, Returned (Some err)) => abandoned key token err s
  | (s, Panicked v) => ((abandonOnce key token s).1, Panicked v)
  end.
Proof using OnceStoreLaws0.
  intros Hv Hf s1. rewrite Once_valid by done.
  pose proof (begin_free (clk 0%nat) key token (lock (onceOptions opts)) s Hf) as Hb.
  subst s1. destruct (beginOnce _ _ _ _ s) as [s1 res]; simpl in *. by subst res.
Qed.
End Once.

(** ** MemoryQueue as a store *)

#[export] Instance MemoryQueue_OnceStore : OnceStore MemoryQueue := {
  beginOnce now key token lock q := let '(q, st) := BeginOnce now key token lock q in (q, Ok st);
  finishOnce := FinishOnce;
  abandonOnce := AbandonOnce
}.

(** A token is any string but the marker of a completed effect; [newToken]
    returns UUIDs. *)
Definition memory_okToken (token : string) : Prop := token <> onceDoneMarker.

Definition memory_recorded (key : string) (r : record) (t : time) (q : MemoryQueue) : Prop :=
  match r with
  | Running token => token <> onceDoneMarker /\ held key token t (q_once q)
  | Done => held key onceDoneMarker t (q_once q)
  end.

Definition memory_free (key : string) (q : MemoryQueue) : Prop := q_once q !! key = None.

Lemma memory_begin_free now key token lock q :
  memory_free key q -> (beginOnce now key token lock q).2 = Ok OnceAcquired.
Proof.
  unfold memory_free. intros Hf. simpl. unfold BeginOnce.
  replace (q_once (sweepClaims now q) !! key) with (@None memoryClaim); [done|].
  unfold sweepClaims. case_match; simpl; [by rewrite Hf|].
  symmetry. apply map_lookup_filter_None_2. by left.
Qed.

Lemma memory_begin_recorded now key token lock q r t :
  memory_recorded key r t q -> now < t ->
  (beginOnce now key token lock q).2 =
    Ok (match r with Done => OnceDone | Running _ => OnceBusy end) /\
  memory_recorded key r t (beginOnce now key token lock q).1.
Proof.
  intros Hr Ht. simpl.
  assert (forall h, held key h t (q_once q) ->
    (BeginOnce now key token lock q).2 = (if String.eqb h onceDoneMarker then OnceDone else OnceBusy) /\
    held key h t (q_once (BeginOnce now key token lock q).1)) as Hb.
  { intros h Hh. split; [by eapply BeginOnce_held|].
    by apply (held_once_step q (OBeginOnce now key token lock)). }
  destruct (BeginOnce now key token lock q) as [q' st]; simpl in *.
  destruct r as [tk|]; simpl in Hr.
  - destruct Hr as [Hne Hh]. destruct (Hb tk Hh) as [-> Hh'].
    by apply String.eqb_neq in Hne as E; rewrite E.
  - by destruct (Hb _ Hr) as [-> Hh'].
Qed.

Lemma memory_finish_recorded clk key token keep q t :
  memory_recorded key (Running token) t q -> clk 0%nat < t ->
  memory_recorded key Done (clk 1%nat + keep) (finishOnce clk key token keep q).1.
Proof.
  intros [_ (c & Hc & Hh & Hce)] Ht. simpl. unfold FinishOnce.
  rewrite Hc, Hh, String.eqb_refl. unfold live.
  replace (Before (clk 0%nat) (c_expires c)) with true by (symmetry; apply Before_true; lia).
  simpl. by apply held_insert_eq.
Qed.

Lemma memory_abandon_recorded key token q t :
  memory_recorded key (Running token) t q ->
  memory_free key (abandonOnce key token q).1 /\ (abandonOnce key token q).2 = None.
Proof.
  intros [_ (c & Hc & Hh & Hce)]. simpl. unfold AbandonOnce, memory_free.
  rewrite Hc, Hh, String.eqb_refl. simpl. by rewrite lookup_delete_eq.
Qed.

#[export, refine] Instance MemoryQueue_OnceStoreLaws : OnceStoreLaws MemoryQueue := {
  okToken := memory_okToken;
  recorded := memory_recorded;
  free := memory_free
}.
Proof.
  - exact memory_begin_free.
  - intros now key token lock q q' Htok Hb. simpl in Hb. split; [exact Htok|].
    destruct (BeginOnce now key token lock q) as [q1 st] eqn:E. simplify_eq.
    by apply BeginOnce_acquired in E.
  - exact memory_begin_recorded.
  - exact memory_finish_recorded.
  - exact memory_abandon_recorded.
Defined.

(** Whatever the queue does before a record expires, it stays, unless its own
    token finishes or abandons it. *)
Lemma recorded_run key r t q os :
  recorded key r t q -> Forall (fun o => reads_at o (fun now => now < t)) os ->
  Forall (once_quiet key (match r with Running tk => tk | Done => onceDoneMarker end)) os ->
  recorded key r t (run os q).
Proof.
  intros Hr Ht Hq. destruct r as [tk|]; simpl in *; [destruct Hr; split; [done|]|];
    by apply held_once_run.
Qed.

(** A finished effect is not repeated: after Once ran its function to success within its
    lock, every Once with the same key within the kept time returns success without calling
    its function, through any queue operations that leave the record alone. *)
Theorem once_effect_not_repeated clk token key fn opts (q q1 q2 : MemoryQueue) os clk' token' opts' :
  once_valid key opts -> once_valid key opts' -> token <> onceDoneMarker ->
  beginOnce (clk 0%nat) key token (lock (onceOptions opts)) q = (q1, Ok OnceAcquired) ->
  respects key token (clk 0%nat + lock (onceOptions opts)) fn ->
  fn q1 = (q2, Returned None) ->
  clk 1%nat < clk 0%nat + lock (onceOptions opts) ->
  let until := clk 2%nat + keep (onceOptions opts) in
  Forall (fun o => reads_at o (fun now => now < until)) os ->
  Forall (once_quiet key onceDoneMarker) os -> clk' 0%nat < until ->
  let q3 := run os (Once true clk token key fn opts q).1 in
  (Once true clk token key fn opts q).2 = Returned None /\
  forall fn', Once true clk' token' key fn' opts' q3 =
    ((beginOnce (clk' 0%nat) key token' (lock (onceOptions opts')) q3).1, Returned None).
Proof.
  intros Hv Hv' Htok Hb Hfn Hrun Hclk until Hos Hq Hclk' q3.
  assert (okToken (S:=MemoryQueue) token) as Hok by exact Htok.
  destruct (Once_success_recorded _ _ _ _ _ _ _ _ Hv Hok Hb Hfn Hrun Hclk) as [Hret Hdone].
  split; [done|]. intros fn'. apply (recorded_run _ _ _ _ os) in Hdone; [|done|done].
  exact (Once_recorded clk' token' key fn' opts' q3 Done until Hv' Hdone Hclk').
Qed.

(** C37. A failed effect can run again: when the function of a Once returns an error or
    panics, Once reports it and gives the lock up, so that the next Once with the same key
    runs its function at once. *)
Theorem once_failure_runs_again clk token key fn opts (q q1 q2 : MemoryQueue) out
    clk' token' fn' opts' :
  once_valid key opts -> once_valid key opts' -> token <> onceDoneMarker ->
  beginOnce (clk 0%nat) key token (lock (onceOptions opts)) q = (q1, Ok OnceAcquired) ->
  respects key token (clk 0%nat + lock (onceOptions opts)) fn ->
  fn q1 = (q2, out) -> out <> Returned None ->
  let q3 := (Once true clk token key fn opts q).1 in
  let q4 := (beginOnce (clk' 0%nat) key token' (lock (onceOptions opts')) q3).1 in
  (Once true clk token key fn opts q).2 = out /\
  (Once true clk' token' key fn' opts' q3).2 = (fn' q4).2.
Proof.
  intros Hv Hv' Htok Hb Hfn Hrun Hout q3 q4.
  assert (okToken (S:=MemoryQueue) token) as Hok by exact Htok.
  destruct (Once_failure_free _ _ _ _ _ _ _ _ _ Hv Hok Hb Hfn Hrun Hout) as [Hret Hfree].
  split; [done|]. subst q4. rewrite (Once_free_runs clk' token' key fn' opts' q3 Hv' Hfree).
  destruct (fn' _) as [q5 [[err|]|v]]; simpl; [|done|done].
  unfold abandoned. simpl. unfold AbandonOnce. by repeat case_match; simplify_eq/=.
Qed.

(** While an effect runs, no other run of it starts: within the lock of an acquired Once,
    any other Once with the key fails with ErrInProgress without calling its function, and
    that error is not permanent, so the worker tries again later. *)
Theorem once_waits_for_running now token key lock (q q1 : MemoryQueue) os clk' token' opts' :
  once_valid key opts' -> token <> onceDoneMarker ->
  beginOnce now key token lock q = (q1, Ok OnceAcquired) ->
  Forall (fun o => reads_at o (fun t => t < now + lock)) os ->
  Forall (once_quiet key token) os -> clk' 0%nat < now + lock ->
  let e := Wrapf key (Sentinel ErrInProgress) in
  (forall fn', (Once true clk' token' key fn' opts' (run os q1)).2 = Returned (Some e)) /\
  Is e ErrInProgress = true /\ IsPermanent (Some e) = false.
Proof.
  intros Hv Htok Hb Hos Hq Hclk e. split; [|done]. intros fn'.
  assert (okToken (S:=MemoryQueue) token) as Hok by exact Htok.
  apply (begin_acquired _ _ _ _ _ _ Hok) in Hb.
  apply (recorded_run _ _ _ _ os) in Hb; [|done|done].
  by rewrite (Once_recorded clk' token' key fn' opts' _ _ _ Hv Hb Hclk).
Qed.

(** ** Witnesses *)

(** An effect that only returns. *)
Definition effect (out : outcome) (q : MemoryQueue) : MemoryQueue * outcome := (q, out).

Lemma effect_respects key token t out : respects key token t (effect out).
Proof. by intros s Hs. Qed.

(** A clock that moves on by a millisecond at each reading. *)
Definition ticking (start : time) (i : nat) : time := start + Millisecond * Z.of_nat i.

Lemma default_once_valid key : key <> "" -> once_valid key [].
Proof. intros H. split; [done|]. split; reflexivity. Qed.

Lemma once_effect_not_repeated_witness :
  (Once true (ticking (2 * Hour)) "tok2" "mail:7" (effect (Panicked "again")) []
    (run [OBeginOnce (1 * Hour) "mail:7" "x" Minute]
      (Once true (ticking 100) "tok" "mail:7" (effect (Returned None)) [] NewMemoryQueue).1)).2
  = Returned None.
Proof.
  rewrite (proj2 (once_effect_not_repeated (ticking 100) "tok" "mail:7" (effect (Returned None)) []
    NewMemoryQueue _ _ [OBeginOnce (1 * Hour) "mail:7" "x" Minute] (ticking (2 * Hour)) "tok2" []
    ltac:(by apply default_once_valid) ltac:(by apply default_once_valid) ltac:(discriminate)
    ltac:(vm_compute; reflexivity) (effect_respects _ _ _ _) ltac:(reflexivity)
    ltac:(reflexivity) ltac:(repeat constructor; reflexivity) ltac:(repeat constructor)
    ltac:(reflexivity)) _).
  reflexivity.
Defined.

Lemma once_failure_runs_again_witness :
  (Once true (ticking 500) "tok2" "mail:7" (effect (Returned None)) []
     (Once true (ticking 100) "tok" "mail:7" (effect (Panicked "boom")) [] NewMemoryQueue).1).2
  = Returned None.
Proof.
  apply (once_failure_runs_again (ticking 100) "tok" "mail:7" (effect (Panicked "boom")) []
    NewMemoryQueue _ _ _ (ticking 500) "tok2" (effect (Returned None)) []
    ltac:(by apply default_once_valid) ltac:(by apply default_once_valid) ltac:(discriminate)
    ltac:(vm_compute; reflexivity) (effect_respects _ _ _ _) ltac:(reflexivity)
    ltac:(discriminate)).
Defined.

Lemma once_waits_for_running_witness :
  (Once true (ticking 500) "tok2" "mail:7" (effect (Returned None)) []
    (run [OBeginOnce 200 "mail:8" "y" Minute]
      (BeginOnce 100 "mail:7" "tok" Minute NewMemoryQueue).1)).2
  = Returned (Some (Wrapf "mail:7" (Sentinel ErrInProgress))).
Proof.
  apply (once_waits_for_running 100 "tok" "mail:7" Minute NewMemoryQueue _
    [OBeginOnce 200 "mail:8" "y" Minute] (ticking 500) "tok2" []
    ltac:(by apply default_once_valid) ltac:(discriminate) ltac:(vm_compute; reflexivity)
    ltac:(repeat constructor; reflexivity) ltac:(repeat constructor) ltac:(reflexivity)).
Defined.
