(* ===== verification/JobsRegistry.v ===== *)
(** * jobs/registry.go: job names bound to handlers

    [Registry] with Register, Options, Has, Names, Encode and Run.  What Go
    reads through reflection and encoding/json is data here: a [JobType] is
    what Register can observe of the type parameter, a [JobArg] what Encode can
    observe of the job it is given; marshalling and unmarshalling are the
    functions encoding/json computes for the type.  Application code (upgrade
    steps, decoders, propagators, handlers) may panic; a handler may use the
    store of type [S] the worker's queue is in, and runs on a context of the
    opaque type [C].

    Spans (jobs/otel.go) are not modelled: they observe a run and do not change
    it. *)

From stdpp Require Import base tactics numbers list sorting strings gmap fin_maps.
From Stdlib Require Import ZArith Lia.
From S2P Require Import Prelude GoBytes JobsTypes JobsPolicy JobsMemory JobsOnce.

Local Open Scope string_scope.
Local Open Scope list_scope.
Local Open Scope Z_scope.

(** A call of application code: its value, or a panic. *)
Inductive comp (A : Type) : Type :=
| Value (a : A)
| Panic (v : string).
Arguments Value {A} a.
Arguments Panic {A} v.

(** [type Upgrade] *)
Definition Upgrade : Type := string -> comp (result error string).

(** [emptyPayload] *)
Definition emptyPayload (payload : string) : bool :=
  let trimmed := TrimSpace (of_string payload) in
  bool_decide (trimmed = []) || bool_decide (trimmed = of_string "null").

(** [type Info struct] *)
Record Info : Type := mkInfo {
  IID : string;
  IName : string;
  IVersion : Z;
  IQueuedVersion : Z;
  IAttempt : Z;
  IMaxAttempts : Z;
  IEnqueuedAt : time
}.

(** The policy a worker relies on: an attempt at least, a timeout that bounds
    or is absent, a back-off. *)
Definition policy_ok (o : Options) : Prop :=
  1 <= MaxAttempts o /\ 0 <= Timeout o /\ exists b, OBackoff o = Some b.

Section Registry.
Context {C S : Type}.

(** What a handler is called with: the context the propagators restored, with
    the job's Info and its own deadline, if it has one. *)
Record HandlerCtx : Type := mkHandlerCtx {
  h_parent : C;
  h_info : Info;
  h_timeout : option duration
}.

(** A decoded job's handler call: how it ended, and [context.Cause] of its
    context at that point. *)
Definition Call : Type := HandlerCtx -> S -> S * (outcome * option error).

Record registration : Type := mkRegistration {
  r_name : string;
  r_version : Z;
  r_goType : string;
  r_upgrades : gmap Z (option Upgrade);
  r_options : Options;
  r_decode : string -> comp (result error Call)
}.

(** [type Propagator interface] *)
Record Propagator : Type := mkPropagator {
  Inject : C -> gmap string string -> gmap string string;
  Extract : C -> gmap string string -> comp C
}.

Record Registry : Type := mkRegistry {
  byName : gmap string registration;
  byType : gmap string registration;
  propagators : list Propagator;
  defaults : Options
}.

(** [NewRegistry]'s options; the clock and the ID generator are arguments of
    [Encode]. *)
Inductive RegistryOption : Type :=
| WithPropagator (p : Propagator)
| WithDefaultOptions (o : Options).

Definition applyRegistryOption (r : Registry) (o : RegistryOption) : Registry :=
  match o with
  | WithPropagator p =>
      mkRegistry (byName r) (byType r) (propagators r ++ [p]) (defaults r)
  | WithDefaultOptions o => mkRegistry (byName r) (byType r) (propagators r) o
  end.

(** [NewRegistry] *)
Definition NewRegistry (opts : list RegistryOption) : Registry :=
  fold_left applyRegistryOption opts (mkRegistry ∅ ∅ [] (mkOptions 0 0 None)).

(** ** Register *)

(** [type registerConfig struct] *)
Record registerConfig : Type := mkRegisterConfig {
  cfg_upgrades : gmap Z (option Upgrade);
  cfg_duplicates : list Z;
  cfg_options : option Options
}.

Inductive RegisterOption : Type :=
| UpgradeFrom (from : Z) (fn : option Upgrade)
| WithOptions (o : Options).

Definition applyRegisterOption (c : registerConfig) (o : RegisterOption) : registerConfig :=
  match o with
  | UpgradeFrom from fn =>
      let dups := match cfg_upgrades c !! from with
                  | Some _ => cfg_duplicates c ++ [from]
                  | None => cfg_duplicates c
                  end in
      mkRegisterConfig (<[from := fn]> (cfg_upgrades c)) dups (cfg_options c)
  | WithOptions o => mkRegisterConfig (cfg_upgrades c) (cfg_duplicates c) (Some o)
  end.

(** What [Register] observes of the type parameter [T]: its identity, whether
    it is a struct, the zero value's JobName, whether it or its pointer type
    implements one of [customCodecs], the error of marshalling the zero value,
    the zero value's JobVersion when [T] implements Versioned, and whether its
    pointer type does. *)
Record JobType : Type := mkJobType {
  t_goType : string;
  t_struct : bool;
  t_name : string;
  t_customCodec : bool;
  t_marshalZero : option error;
  t_version : option Z;
  t_pointerVersioned : bool
}.

(** [jobVersion] *)
Definition jobVersion (v : option Z) : Z := match v with Some v => v | None => 1 end.

(** The step the loop over [cfg.upgrades] refuses. *)
Definition bad_upgrade (version : Z) (step : Z * option Upgrade) : bool :=
  (step.1 <? 1) || (version <=? step.1) || match step.2 with None => true | Some _ => false end.

(** The decoder [Register] stores: [unmarshal] is json.Unmarshal into [T]. *)
Definition decoder {T : Type} (unmarshal : string -> comp (result error T))
    (handler : HandlerCtx -> T -> S -> S * (outcome * option error))
    : string -> comp (result error Call) := fun payload =>
  match unmarshal payload with
  | Panic v => Panic v
  | Value (Err e) => Value (Err e)
  | Value (Ok job) => Value (Ok (fun ctx => handler ctx job))
  end.

(** The checks of [Register] on the type and the options, before the registry
    is looked at: the configuration and the policy they resolve to. *)
Definition checkRegistration (dflt : Options) (t : JobType) (handler_nil : bool)
    (opts : list RegisterOption) : result error (registerConfig * Options) :=
  let refuse := Err (Wrapf (t_goType t) (Sentinel ErrInvalidJobType)) in
  if negb (t_struct t) then refuse
  else if handler_nil then refuse
  else if negb (ValidName (t_name t)) then Err (Wrapf (t_name t) (Sentinel ErrInvalidName))
  else if t_customCodec t then refuse
  else match t_marshalZero t with
  | Some _ => refuse
  | None =>
      if match t_version t with None => t_pointerVersioned t | Some _ => false end then refuse
      else
        let version := jobVersion (t_version t) in
        if version <? 1 then refuse
        else
          let cfg := fold_left applyRegisterOption opts (mkRegisterConfig ∅ [] None) in
          match cfg_duplicates cfg with
          | _ :: _ => refuse
          | [] =>
              let invalid := match cfg_options cfg with Some o => validate o | None => None end in
              let options := match cfg_options cfg with Some o => o | None => mkOptions 0 0 None end in
              match invalid with
              | Some _ => refuse
              | None =>
                  if existsb (bad_upgrade version) (map_to_list (cfg_upgrades cfg)) then refuse
                  else
                    let resolved := resolve options dflt in
                    match validate resolved with
                    | Some _ => refuse
                    | None => Ok (cfg, resolved)
                    end
              end
          end
  end.

(** [Register]; a nil handler is [None]. *)
Definition Register {T : Type} (t : JobType)
    (unmarshal : string -> comp (result error T))
    (handler : option (HandlerCtx -> T -> S -> S * (outcome * option error)))
    (opts : list RegisterOption) (r : Registry) : Registry * option error :=
  match checkRegistration (defaults r) t (match handler with None => true | Some _ => false end) opts,
        handler with
  | Err e, _ => (r, Some e)
  | Ok _, None => (r, None)
  | Ok (cfg, resolved), Some handler =>
      let reg := mkRegistration (t_name t) (jobVersion (t_version t)) (t_goType t)
                   (cfg_upgrades cfg) resolved (decoder unmarshal handler) in
      match byName r !! t_name t with
      | Some _ => (r, Some (Wrapf (t_name t) (Sentinel ErrDuplicateName)))
      | None =>
          (mkRegistry (<[t_name t := reg]> (byName r)) (<[t_goType t := reg]> (byType r))
             (propagators r) (defaults r), None)
      end
  end.

(** [Options] *)
Definition RegistryOptions (name : string) (r : Registry) : Options :=
  match byName r !! name with
  | Some reg => r_options reg
  | None => resolve (mkOptions 0 0 None) (defaults r)
  end.

(** [Has] *)
Definition Has (name : string) (r : Registry) : bool :=
  match byName r !! name with Some _ => true | None => false end.

Definition name_le (a b : string) : Prop := String.leb a b = true.

#[local] Instance name_le_dec a b : Decision (name_le a b).
Proof. unfold name_le. apply _. Defined.

(** [Names] *)
Definition Names (r : Registry) : list string :=
  merge_sort name_le (map fst (map_to_list (byName r))).

(** ** Encode *)

(** The job [Encode] is given.  A value or a non-nil pointer is what Encode
    reads of it after following the pointer: its type, its name and version,
    and json.Marshal of it. *)
Inductive JobArg : Type :=
| NilJob
| NilPointer (goType : string)
| JobValue (goType name : string) (version : option Z) (marshal : result error string).

(** The metadata [Encode] collects: nil when no propagator writes any. *)
Definition injected (ctx : C) (ps : list Propagator) : gmap string string :=
  fold_left (fun m p => Inject p ctx m) ps ∅.

(** [Encode]; [id] is what [newID] returns. *)
Definition Encode (now : time) (id : string) (ctx : C) (job : JobArg) (r : Registry)
    : result error Envelope :=
  match job with
  | NilJob => Err (Wrapf "nil job" (Sentinel ErrInvalidJobType))
  | NilPointer goType => Err (Wrapf goType (Sentinel ErrInvalidJobType))
  | JobValue goType name version marshal =>
      match byType r !! goType with
      | None => Err (JobError KindUnknownJob name 0 (Some (Text goType)))
      | Some reg =>
          if negb (String.eqb name (r_name reg)) then Err (Wrapf goType (Sentinel ErrNameMismatch))
          else if negb (jobVersion version =? r_version reg) then
            Err (Wrapf goType (Sentinel ErrVersionMismatch))
          else match marshal with
          | Err e => Err (Wrapf name e)
          | Ok payload =>
              Ok (mkEnvelope id (r_name reg) (r_version reg) payload
                    (injected ctx (propagators r)) now 0)
          end
      end
  end.

(** ** Run *)

(** The loop of [upgrade] from version [v] with [n] steps to go; [queued] is
    the envelope's version. *)
Fixpoint upgrade_loop (reg : registration) (queued : Z) (n : nat) (v : Z) (payload : string)
    : comp (result error string) :=
  match n with
  | O => Value (Ok payload)
  | Datatypes.S n =>
      match r_upgrades reg !! v with
      | None => Value (Err (JobError KindUnsupportedVersion (r_name reg) queued
                  (Some (Text "no UpgradeFrom step"))))
      | Some None => Panic "nil function"
      | Some (Some step) =>
          match step payload with
          | Panic p => Panic p
          | Value (Err e) => Value (Err (JobError KindUpgrade (r_name reg) v (Some e)))
          | Value (Ok next) =>
              if emptyPayload next then
                Value (Err (JobError KindDecode (r_name reg) queued
                  (Some (Text "upgrade returned an empty or null payload"))))
              else upgrade_loop reg queued n (v + 1) next
          end
      end
  end.

(** [upgrade]: [for v := version; v < reg.version; v++] takes
    [reg.version - version] iterations. *)
Definition upgrade (reg : registration) (env : Envelope) : comp (result error string) :=
  let version := Version env in
  if version <? 1 then
    Value (Err (JobError KindDecode (r_name reg) version (Some (Text "invalid payload version"))))
  else if r_version reg <? version then
    Value (Err (JobError KindUnsupportedVersion (r_name reg) version
      (Some (Text "a newer producer queued it"))))
  else if emptyPayload (Payload env) then
    Value (Err (JobError KindDecode (r_name reg) version (Some (Text "empty or null payload"))))
  else upgrade_loop reg version (Z.to_nat (r_version reg - version)) version (Payload env).

(** The propagators restore the dispatching context, in order. *)
Fixpoint extracted (ps : list Propagator) (ctx : C) (m : gmap string string) : comp C :=
  match ps with
  | [] => Value ctx
  | p :: ps =>
      match Extract p ctx m with
      | Panic v => Panic v
      | Value ctx => extracted ps ctx m
      end
  end.

(** The Info of a run. *)
Definition runInfo (reg : registration) (env : Envelope) : Info :=
  mkInfo (ID env) (r_name reg) (r_version reg) (Version env) (Attempt env)
    (MaxAttempts (r_options reg)) (EnqueuedAt env).

(** The deadline [Run] puts on the handler's context. *)
Definition runTimeout (reg : registration) : option duration :=
  if 0 <? Timeout (r_options reg) then Some (Timeout (r_options reg)) else None.

(** What the recovery in [Run] makes of a panic. *)
Definition recovered (reg : registration) (v : string) : error :=
  JobError KindPanic (r_name reg) (r_version reg) (Some (Text v)).

(** The end of [Run]: the handler call and what its error becomes. *)
Definition runCall (reg : registration) (call : Call) (ctx : HandlerCtx) (s : S)
    : S * option error :=
  match call ctx s with
  | (s, (Panicked v, _)) => (s, Some (recovered reg v))
  | (s, (Returned None, _)) => (s, None)
  | (s, (Returned (Some err), cause)) =>
      let timedOut := match cause with Some c => Is c errJobTimeout | None => false end in
      (s, Some (if timedOut
                then JobError KindTimeout (r_name reg) (r_version reg) (Some (Wrapf "after" err))
                else JobError KindHandler (r_name reg) (r_version reg) (Some err)))
  end.

(** [Run] *)
Definition Run (ctx : C) (env : Envelope) (r : Registry) (s : S) : S * option error :=
  match Envelope_validate env with
  | Some e => (s, Some e)
  | None =>
      match byName r !! Name env with
      | None => (s, Some (JobError KindUnknownJob (Name env) (Version env) None))
      | Some reg =>
          match extracted (propagators r) ctx (Metadata env) with
          | Panic v => (s, Some (recovered reg v))
          | Value ctx =>
              match upgrade reg env with
              | Panic v => (s, Some (recovered reg v))
              | Value (Err e) => (s, Some e)
              | Value (Ok payload) =>
                  match r_decode reg payload with
                  | Panic v => (s, Some (recovered reg v))
                  | Value (Err e) =>
                      (s, Some (JobError KindDecode (r_name reg) (r_version reg) (Some e)))
                  | Value (Ok call) =>
                      runCall reg call (mkHandlerCtx ctx (runInfo reg env) (runTimeout reg)) s
                  end
              end
          end
      end
  end.
End Registry.

Arguments HandlerCtx : clear implicits.
Arguments Call : clear implicits.
Arguments registration : clear implicits.
Arguments Propagator : clear implicits.
Arguments Registry : clear implicits.
