(* ===== verification/JobsRegistryFacts.v ===== *)
(** * What the job registry guarantees

    The invariant of a registry built by NewRegistry and Register, the
    specification of payload upgrades as a chain of steps, the classification
    of every failure of Run, and the round trip from Encode to the handler. *)

From stdpp Require Import base tactics numbers list sorting strings gmap fin_maps.
From Stdlib Require Import ZArith Lia.
From S2P Require Import Prelude GoBytes JobsTypes JobsPolicy JobsMemory JobsOnce JobsRegistry.

Local Open Scope string_scope.
Local Open Scope list_scope.
Local Open Scope Z_scope.

Section Facts.
Context {C S : Type}.
Implicit Types (r : Registry C S) (reg : registration C S).

(** ** The invariant *)

Definition registration_ok (name : string) reg : Prop :=
  r_name reg = name /\ ValidName name = true /\ 1 <= r_version reg /\
  policy_ok (r_options reg) /\
  forall v step, r_upgrades reg !! v = Some step -> 1 <= v < r_version reg /\ step <> None.

Definition registry_wf r : Prop :=
  (forall name reg, byName r !! name = Some reg -> registration_ok name reg) /\
  (forall goType reg, byType r !! goType = Some reg ->
     r_goType reg = goType /\ byName r !! r_name reg = Some reg).

(** Registries as programs build them. *)
Inductive built : Registry C S -> Prop :=
| built_new opts : built (NewRegistry opts)
| built_register T t unmarshal (handler : option (HandlerCtx C -> T -> S -> S * (outcome * option error)))
    opts r :
    built r -> built (Register t unmarshal handler opts r).1.

Lemma NewRegistry_maps opts :
  byName (@NewRegistry C S opts) = ∅ /\ byType (@NewRegistry C S opts) = ∅.
Proof using.
  unfold NewRegistry.
  assert (forall r, byName (fold_left applyRegistryOption opts r) = byName r /\
                    byType (fold_left applyRegistryOption opts r) = byType r) as H.
  { induction opts as [|o opts IH]; intros r; simpl; [done|].
    destruct (IH (applyRegistryOption r o)) as [-> ->]. by destruct o. }
  apply H.
Qed.

(** What a passed check has established. *)
Lemma checkRegistration_Ok dflt t nil opts cfg resolved :
  checkRegistration dflt t nil opts = Ok (cfg, resolved) ->
  nil = false /\ ValidName (t_name t) = true /\ 1 <= jobVersion (t_version t) /\
  policy_ok resolved /\
  forall v step, cfg_upgrades cfg !! v = Some step ->
    1 <= v < jobVersion (t_version t) /\ step <> None.
Proof using.
  unfold checkRegistration. intros H.
  repeat (match type of H with
          | (if ?b then _ else _) = _ => destruct b eqn:?
          | (match ?x with _ => _ end) = _ => destruct x eqn:?
          end; [done || idtac..]; try done).
  simplify_eq. breflect. split; [done|]. split; [done|]. split; [done|].
  split; [by apply resolve_valid|].
  intros v step Hv.
  match goal with H : existsb _ _ = false |- _ => rename H into Hbad end.
  assert (bad_upgrade (jobVersion (t_version t)) (v, step) = false) as Hs.
  { destruct (bad_upgrade _ (v, step)) eqn:E; [|done]. rewrite <- Hbad. symmetry.
    apply existsb_exists. exists (v, step). split; [|done].
    apply list_elem_of_In, elem_of_map_to_list. done. }
  unfold bad_upgrade in Hs. simpl in Hs. apply orb_false_iff in Hs as [Hs Hn]. breflect.
  split; [lia|]. by destruct step.
Qed.

Lemma Register_wf {T} t unmarshal
    (handler : option (HandlerCtx C -> T -> S -> S * (outcome * option error))) opts r :
  registry_wf r -> registry_wf (Register t unmarshal handler opts r).1.
Proof using.
  intros [Hn Ht]. unfold Register.
  destruct (checkRegistration _ _ _ _) as [[cfg resolved]|e] eqn:E; [|done].
  destruct handler as [handler|]; [|done].
  apply checkRegistration_Ok in E as (_ & Hname & Hver & Hpol & Hup).
  destruct (byName r !! t_name t) eqn:Hfresh; [done|]. unfold registry_wf. simpl. split.
  - intros name reg [[<- <-]|[Hne Hr]]%lookup_insert_Some; [|by apply Hn].
    unfold registration_ok. simpl. auto.
  - intros goType reg [[<- <-]|[Hne Hr]]%lookup_insert_Some.
    + simpl. by rewrite lookup_insert_eq.
    + apply Ht in Hr as [Hg Hb]. split; [done|]. rewrite lookup_insert_ne; [done|].
      intros E. congruence.
Qed.

Lemma wf_of_built r : built r -> registry_wf r.
Proof using.
  induction 1 as [opts|T t um h opts r _ IH]; [|by apply Register_wf].
  destruct (NewRegistry_maps opts) as [Hn Ht]. split; intros k reg H.
  - rewrite Hn in H. by rewrite lookup_empty in H.
  - rewrite Ht in H. by rewrite lookup_empty in H.
Qed.

(** Every registry built by options and registrations is consistent: each name has a
    registration that passed the checks, with a complete chain of upgrades and a bounded
    policy, and the lookup by Go type agrees with the lookup by name. *)
Theorem built_registry_wf r :
  built r ->
  (forall name reg, byName r !! name = Some reg -> registration_ok name reg) /\
  (forall goType reg, byType r !! goType = Some reg ->
     r_goType reg = goType /\ byName r !! r_name reg = Some reg).
Proof using. apply wf_of_built. Qed.

(** A registration succeeds once per name, and a failed one changes nothing. *)
Theorem Register_all_or_nothing {T} t unmarshal
    (handler : option (HandlerCtx C -> T -> S -> S * (outcome * option error))) opts r :
  match Register t unmarshal handler opts r with
  | (r', Some e) =>
      r' = r /\ (Is e ErrInvalidJobType = true \/ Is e ErrInvalidName = true \/
                 Is e ErrDuplicateName = true /\ Has (t_name t) r = true)
  | (r', None) =>
      Has (t_name t) r = false /\ Has (t_name t) r' = true /\
      (forall opts', exists e, Register t unmarshal handler opts' r' = (r', Some e)) /\
      (forall name, name <> t_name t -> byName r' !! name = byName r !! name)
  end.
Proof using.
  assert (forall dflt nil opts0 e, @checkRegistration dflt t nil opts0 = Err e ->
    Is e ErrInvalidJobType = true \/ Is e ErrInvalidName = true) as Hcheck.
  { intros dflt nil opts0 e H. unfold checkRegistration in H.
    repeat (case_match; simplify_eq/=; auto). }
  unfold Register at 1.
  destruct (checkRegistration (defaults r) _ _ opts) as [[cfg resolved]|e] eqn:E.
  2: { split; [done|]. apply Hcheck in E. tauto. }
  destruct handler as [handler|].
  2: { apply checkRegistration_Ok in E. naive_solver. }
  unfold Has. destruct (byName r !! t_name t) eqn:Hfresh; [by auto|].
  split; [done|]. simpl. rewrite lookup_insert_eq. split; [done|]. split.
  - intros opts'. unfold Register. simpl.
    destruct (checkRegistration _ _ _ opts') as [[cfg' resolved']|e']; [|by eauto].
    rewrite lookup_insert_eq. eauto.
  - intros name Hne. by rewrite lookup_insert_ne.
Qed.

(** The policy of any name, registered or not, is bounded when the defaults are valid. *)
Theorem RegistryOptions_ok r name :
  built r -> validate (defaults r) = None -> policy_ok (RegistryOptions name r).
Proof using.
  intros Hb Hd. unfold RegistryOptions. destruct (byName r !! name) as [reg|] eqn:E.
  - by apply (wf_of_built r Hb) in E as (_ & _ & _ & Hp & _).
  - apply resolve_valid, resolve_preserves_valid; [done | exact Hd].
Qed.

(** ** Upgrades *)

(** [chain reg v p p']: the registered steps from version [v] on take the
    payload [p] to the payload [p'] at the registered version. *)
Inductive chain reg : Z -> string -> string -> Prop :=
| chain_done p : chain reg (r_version reg) p p
| chain_step v p p1 p' step :
    v < r_version reg -> r_upgrades reg !! v = Some (Some step) ->
    step p = Value (Ok p1) -> emptyPayload p1 = false ->
    chain reg (v + 1) p1 p' -> chain reg v p p'.

Lemma upgrade_loop_chain reg queued n : forall v p p',
  v + Z.of_nat n = r_version reg ->
  (upgrade_loop reg queued n v p = Value (Ok p') <-> chain reg v p p').
Proof using.
  induction n as [|n IH]; intros v p p' Hv.
  - replace v with (r_version reg) by lia. simpl. split.
    + intros [= <-]. constructor.
    + inversion 1; subst; [done | lia].
  - cbn [upgrade_loop]. split.
    + intros H. repeat (case_match; simplify_eq/=). eapply chain_step; eauto; [lia|].
      apply IH; [lia | done].
    + inversion 1 as [|? ? p1 ? step Hlt Hs Hp He Hc]; subst; [lia|].
      rewrite Hs, Hp, He. apply IH; [lia | done].
Qed.

(** An old payload is upgraded step by step: upgrade gives a payload exactly when the queued
    version is between 1 and the registered one, the payload is not empty, and the
    registered steps lead from it, one version at a time, to that result. *)
Theorem upgrade_spec reg env p :
  upgrade reg env = Value (Ok p) <->
  1 <= Version env <= r_version reg /\ emptyPayload (Payload env) = false /\
  chain reg (Version env) (Payload env) p.
Proof using.
  unfold upgrade.
  destruct (Version env <? 1) eqn:E1; breflect; [split; [done | lia]|].
  destruct (r_version reg <? Version env) eqn:E2; breflect; [split; [done | lia]|].
  destruct (emptyPayload (Payload env)) eqn:E3; [split; [done | naive_solver]|].
  rewrite upgrade_loop_chain by lia. split; [|naive_solver]. intros H. auto with lia.
Qed.

(** Every failure of an upgrade is classified. *)
Lemma upgrade_loop_error reg queued n : forall v p e,
  upgrade_loop reg queued n v p = Value (Err e) ->
  exists k n v c, e = JobError k n v c /\ k ∈ [KindUnsupportedVersion; KindUpgrade; KindDecode].
Proof using.
  induction n as [|n IH]; intros v p e; cbn [upgrade_loop]; [done|]. intros H.
  repeat (case_match; simplify_eq/=; try (do 4 eexists; split; [reflexivity | set_solver])).
  eauto.
Qed.

Lemma upgrade_error reg env e :
  upgrade reg env = Value (Err e) ->
  exists k n v c, e = JobError k n v c /\ k ∈ [KindUnsupportedVersion; KindUpgrade; KindDecode].
Proof using.
  unfold upgrade. intros H.
  repeat (case_match; simplify_eq/=; try (do 4 eexists; split; [reflexivity | set_solver])).
  by eapply upgrade_loop_error.
Qed.

(** ** Run *)

(** Every failure of Run is a classified job error: an invalid envelope, an unknown job, a
    payload that cannot be decoded or upgraded, a handler's error, a timeout and a panic all
    come back as an Error with a kind, the job's name and its version. *)
Theorem Run_failure_classified ctx env r s s' e :
  Run ctx env r s = (s', Some e) -> exists k n v c, e = JobError k n v c.
Proof using.
  unfold Run, runCall, Envelope_validate, recovered. intros H.
  repeat (case_match; simplify_eq/=; try (by do 4 eexists)).
  match goal with H : upgrade _ _ = _ |- _ => apply upgrade_error in H end. naive_solver.
Qed.

(** [Run] succeeds exactly when every stage does and the handler returns nil. *)
Theorem Run_success_iff ctx env r s s' :
  Run ctx env r s = (s', None) <->
  Name env <> "" /\ ID env <> "" /\
  exists reg ctx' payload call cause,
    byName r !! Name env = Some reg /\
    extracted (propagators r) ctx (Metadata env) = Value ctx' /\
    upgrade reg env = Value (Ok payload) /\ r_decode reg payload = Value (Ok call) /\
    call (mkHandlerCtx ctx' (runInfo reg env) (runTimeout reg)) s = (s', (Returned None, cause)).
Proof using.
  unfold Run, runCall, Envelope_validate. split.
  - intros H. destruct (String.eqb (Name env) "") eqn:En; [done|].
    destruct (String.eqb (ID env) "") eqn:Ei; [done|]. breflect.
    split; [done|]. split; [done|]. revert H.
    repeat case_match; intros; simplify_eq. do 5 eexists. eauto 10.
  - intros (Hn & Hi & reg & ctx' & payload & call & cause & Hr & Hx & Hu & Hd & Hc).
    apply String.eqb_neq in Hn as ->. apply String.eqb_neq in Hi as ->.
    by rewrite Hr, Hx, Hu, Hd, Hc.
Qed.

(** ** Encode *)

(** What Encode writes, Run hands to the handler. *)
Lemma Encode_Run {T} t unmarshal
    (handler : HandlerCtx C -> T -> S -> S * (outcome * option error)) opts r r1
    now id ctx payload v attempt ctx1 ctx2 :
  Register t unmarshal (Some handler) opts r = (r1, None) ->
  unmarshal payload = Value (Ok v) -> emptyPayload payload = false -> id <> "" ->
  extracted (propagators r1) ctx1 (injected ctx (propagators r1)) = Value ctx2 ->
  exists env reg,
    Encode now id ctx (JobValue (t_goType t) (t_name t) (t_version t) (Ok payload)) r1 = Ok env /\
    ID env = id /\ Attempt env = 0 /\ byName r1 !! t_name t = Some reg /\
    forall s, Run ctx1 (setAttempt attempt env) r1 s =
      runCall reg (fun c => handler c v)
        (mkHandlerCtx ctx2
           (mkInfo id (t_name t) (jobVersion (t_version t)) (jobVersion (t_version t)) attempt
              (MaxAttempts (r_options reg)) now)
           (runTimeout reg)) s.
Proof using.
  unfold Register. intros Hreg Hun Hpay Hid Hx.
  destruct (checkRegistration _ _ _ _) as [[cfg resolved]|e] eqn:E; [|done].
  destruct (byName r !! t_name t); [done|]. simplify_eq.
  apply checkRegistration_Ok in E as (_ & Hname & Hver & _).
  unfold Encode. simpl in *. rewrite lookup_insert_eq. simpl.
  rewrite String.eqb_refl, Z.eqb_refl. simpl.
  do 2 eexists. split; [reflexivity|]. split; [done|]. split; [done|].
  split; [by rewrite lookup_insert_eq|]. intros s.
  unfold Run, Envelope_validate. simpl.
  apply ValidName_bounds in Hname as [Hne _].
  apply String.eqb_neq in Hne as ->. apply String.eqb_neq in Hid as ->.
  rewrite lookup_insert_eq, Hx. unfold upgrade. simpl.
  replace (jobVersion (t_version t) <? 1) with false by (symmetry; apply Z.ltb_ge; lia).
  rewrite Z.ltb_irrefl, Hpay, Z.sub_diag. simpl. unfold decoder. by rewrite Hun.
Qed.
End Facts.

(** ** Witnesses *)

(** A job at version 2 whose payloads decode to themselves, with an upgrade
    step from version 1. *)
Definition sample_type : JobType :=
  mkJobType "mail.Welcome" true "mail:welcome" false None (Some 2) true.

Definition sample_unmarshal (p : string) : comp (result error string) := Value (Ok p).

Definition sample_handler (c : HandlerCtx unit) (job : string) (s : list string)
    : list string * (outcome * option error) := (job :: s, (Returned None, None)).

Definition sample_register_options : list RegisterOption :=
  [UpgradeFrom 1 (Some (fun p => Value (Ok "{}"))); WithOptions (mkOptions 3 Minute None)].

Definition sample_registry : Registry unit (list string) :=
  (Register sample_type sample_unmarshal (Some sample_handler) sample_register_options
     (NewRegistry [])).1.

Definition sample_queued : Envelope := mkEnvelope "id-1" "mail:welcome" 1 "{old}" ∅ 5 1.

Lemma sample_registered :
  Register sample_type sample_unmarshal (Some sample_handler) sample_register_options
    (NewRegistry []) = (sample_registry, None).
Proof. apply injective_projections; reflexivity. Qed.

Lemma sample_registry_built : built sample_registry.
Proof. apply built_register, built_new. Qed.

Example sample_run : Run tt sample_queued sample_registry [] = (["{}"], None).
Proof. vm_compute. reflexivity. Qed.

Example sample_null : emptyPayload (String (byte_of 10) " null ") = true.
Proof. vm_compute. reflexivity. Qed.

Lemma built_registry_wf_witness :
  exists reg, byName sample_registry !! "mail:welcome" = Some reg /\ registration_ok "mail:welcome" reg.
Proof.
  eexists. split; [reflexivity|].
  apply (proj1 (built_registry_wf sample_registry sample_registry_built)). reflexivity.
Defined.

Lemma RegistryOptions_ok_witness : policy_ok (RegistryOptions "nothing:registered" sample_registry).
Proof.
  apply (RegistryOptions_ok sample_registry "nothing:registered" sample_registry_built).
  vm_compute. reflexivity.
Defined.

Lemma Run_failure_classified_witness :
  exists e, Run tt (setAttempt 1 (mkEnvelope "id-2" "mail:other" 1 "{}" ∅ 5 0)) sample_registry []
    = ([], Some e) /\ exists k n v c, e = JobError k n v c.
Proof.
  eexists. split; [vm_compute; reflexivity|].
  eapply (Run_failure_classified tt (setAttempt 1 (mkEnvelope "id-2" "mail:other" 1 "{}" ∅ 5 0))
    sample_registry []).
  vm_compute. reflexivity.
Defined.
