(* ===== verification/JobsMetrics.v ===== *)
(** * jobs/metrics.go: what a worker records

    Per-series counters and histograms, and the exposition of
    [WritePrometheus].  Lines of the exposition are values of [line]; their
    text is not modelled.  The counters are unbounded here: 2^63 deliveries, or
    2^63 nanoseconds (292 years) of handler time in one series, are not
    reached. *)

From stdpp Require Import base tactics numbers list sorting strings gmap fin_maps.
From Stdlib Require Import ZArith Lia.
From S2P Require Import Prelude JobsTypes.

Local Open Scope string_scope.
Local Open Scope list_scope.
Local Open Scope Z_scope.

(** ** Outcomes *)

Definition ResultSucceeded : string := "succeeded".
Definition ResultRetried : string := "retried".
Definition ResultFailed : string := "failed".
Definition ResultInterrupted : string := "interrupted".
Definition ResultPostponed : string := "postponed".
Definition ResultAbandoned : string := "abandoned".
Definition ResultUndecodable : string := "undecodable".
Definition ResultUnsettled : string := "unsettled".

Definition unknownJobLabel : string := "unknown".

(** ** Histograms *)

(** [latencyBuckets], in nanoseconds.  The source compares [d.Seconds()] with
    bounds in seconds, both float64.  Rounding cannot move a duration across a
    bound: the nearest durations to a bound are a nanosecond away, far more than
    the spacing of float64 at 1800, and a duration equal to a bound rounds to
    the bound's own value. *)
Definition latencyBuckets : list duration :=
  [10 * Millisecond; 50 * Millisecond; 100 * Millisecond; 500 * Millisecond; 1 * Second;
   5 * Second; 10 * Second; 30 * Second; 60 * Second; 300 * Second; 1800 * Second].

Record histogram : Type := mkHistogram {
  buckets : list Z;
  h_count : Z;
  h_nanos : Z
}.

Definition emptyHistogram : histogram := mkHistogram (map (fun _ => 0) latencyBuckets) 0 0.

(** Add one to the first bucket whose bound is not below [d]. *)
Fixpoint fill (bounds : list duration) (d : duration) (counts : list Z) : list Z :=
  match bounds, counts with
  | bound :: bounds, n :: counts =>
      if d <=? bound then (n + 1) :: counts else n :: fill bounds d counts
  | _, _ => counts
  end.

(** [histogram.observe] *)
Definition observe (d : duration) (h : histogram) : histogram :=
  mkHistogram (fill latencyBuckets d (buckets h)) (h_count h + 1) (h_nanos h + d).

(** ** Series *)

Record jobCounter : Type := mkCounter {
  jc_count : Z;
  jc_run : histogram;
  jc_wait : histogram
}.

Definition emptyCounter : jobCounter := mkCounter 0 emptyHistogram emptyHistogram.

(** A [metricsSeries] is (job, queue, result). *)
Definition metricsSeries : Type := string * string * string.

Record Metrics : Type := mkMetrics {
  inFlight : gmap string Z;
  series : gmap (string * string * string) jobCounter
}.

Definition NewMetrics : Metrics := mkMetrics ∅ ∅.

(** [inFlightFor(queue).Add(n)] *)
Definition addInFlight (queue : string) (n : Z) (m : Metrics) : Metrics :=
  let v := match inFlight m !! queue with Some v => v | None => 0 end in
  mkMetrics (<[queue := v + n]> (inFlight m)) (series m).

(** [started] and [finished] *)
Definition started (queue : string) (m : Metrics) : Metrics := addInFlight queue 1 m.
Definition finished (queue : string) (m : Metrics) : Metrics := addInFlight queue (-1) m.

(** [record] *)
Definition recordOutcome (job queue result : string) (run wait : duration) (m : Metrics) : Metrics :=
  let key := (job, queue, result) in
  let c := match series m !! key with Some c => c | None => emptyCounter end in
  let c' := mkCounter (jc_count c + 1) (observe run (jc_run c))
              (if 0 <? wait then observe wait (jc_wait c) else jc_wait c) in
  mkMetrics (inFlight m) (<[key := c']> (series m)).

(** [Empty] *)
Definition Empty (m : Metrics) : bool :=
  bool_decide (series m = ∅) && bool_decide (inFlight m = ∅).

(** ** Exposition *)

Inductive line : Type :=
| LProcessed (job queue result : string) (n : Z)
| LBucket (metric job queue : string) (le : option duration) (n : Z)
| LSum (metric job queue : string) (nanos : Z)
| LCount (metric job queue : string) (n : Z)
| LInFlight (queue : string) (n : Z)
| LQueued (queue state : string) (n : Z)
| LOldestReady (queue : string) (age : duration).

(** The order of the rows: job, then queue, then result. *)
Definition series_less (a b : string * string * string) : bool :=
  if negb (String.eqb a.1.1 b.1.1) then String.ltb a.1.1 b.1.1
  else if negb (String.eqb a.1.2 b.1.2) then String.ltb a.1.2 b.1.2
  else String.ltb a.2 b.2.

Definition row_le (a b : (string * string * string) * jobCounter) : Prop :=
  series_less b.1 a.1 = false.

#[export] Instance row_le_dec a b : Decision (row_le a b).
Proof. unfold row_le. apply _. Defined.

Definition rows (m : Metrics) : list ((string * string * string) * jobCounter) :=
  merge_sort row_le (map_to_list (series m)).

(** [agg]: the durations of a job and queue over every outcome. *)
Record agg : Type := mkAgg { a_run : histogram; a_wait : histogram }.

Definition addHistogram (a h : histogram) : histogram :=
  mkHistogram (zip_with Z.add (buckets a) (buckets h)) (h_count a + h_count h)
    (h_nanos a + h_nanos h).

(** One row added to the totals and to the order they first appear in. *)
Definition addRow (acc : gmap (string * string) agg * list (string * string))
    (row : (string * string * string) * jobCounter)
    : gmap (string * string) agg * list (string * string) :=
  let k := row.1.1 in
  let '(totals, order) := acc in
  let '(a, order) := match totals !! k with
                     | Some a => (a, order)
                     | None => (mkAgg emptyHistogram emptyHistogram, order ++ [k])
                     end in
  (<[k := mkAgg (addHistogram (a_run a) (jc_run row.2)) (addHistogram (a_wait a) (jc_wait row.2))]>
     totals, order).

Definition totals (l : list ((string * string * string) * jobCounter))
    : gmap (string * string) agg * list (string * string) := fold_left addRow l (∅, []).

(** The running sums a histogram's buckets are written as. *)
Fixpoint cumulative (acc : Z) (counts : list Z) : list Z :=
  match counts with
  | [] => []
  | n :: counts => (acc + n) :: cumulative (acc + n) counts
  end.

Definition histLines (metric : string) (k : string * string) (h : histogram) : list line :=
  zip_with (fun bound n => LBucket metric k.1 k.2 (Some bound) n) latencyBuckets
    (cumulative 0 (buckets h)) ++
  [LBucket metric k.1 k.2 None (h_count h); LSum metric k.1 k.2 (h_nanos h);
   LCount metric k.1 k.2 (h_count h)].

(** [writeHist] *)
Definition writeHist (metric : string) (pick : agg -> histogram)
    (t : gmap (string * string) agg * list (string * string)) : list line :=
  t.2 ≫= fun k => match t.1 !! k with Some a => histLines metric k (pick a) | None => [] end.

Definition string_le (a b : string) : Prop := String.leb a b = true.

#[export] Instance string_le_dec a b : Decision (string_le a b).
Proof. unfold string_le. apply _. Defined.

(** [sort.Strings] of a map's keys. *)
Definition sortedKeys {A} (m : gmap string A) : list string :=
  merge_sort string_le (map fst (map_to_list m)).

Definition statsLines (queue : string) (st : QueueStats) : list line :=
  [LQueued queue "ready" (Ready st); LQueued queue "scheduled" (Scheduled st);
   LQueued queue "reserved" (Reserved st); LQueued queue "failed" (SFailed st)].

Definition oldestAge (now : time) (st : QueueStats) : duration :=
  if negb (IsZero (OldestReady st)) && After now (OldestReady st) then now - OldestReady st else 0.

(** [WritePrometheus], as the list of its samples. *)
Definition WritePrometheus (stats : gmap string QueueStats) (now : time) (m : Metrics) : list line :=
  let rs := rows m in
  map (fun r => LProcessed r.1.1.1 r.1.1.2 r.1.2 (jc_count r.2)) rs ++
  writeHist "gombit_jobs_run_seconds" a_run (totals rs) ++
  writeHist "gombit_jobs_wait_seconds" a_wait (totals rs) ++
  map (fun q => LInFlight q (match inFlight m !! q with Some n => n | None => 0 end))
    (sortedKeys (inFlight m)) ++
  (sortedKeys stats ≫= fun q => match stats !! q with Some st => statsLines q st | None => [] end) ++
  (sortedKeys stats ≫= fun q =>
     match stats !! q with Some st => [LOldestReady q (oldestAge now st)] | None => [] end).

(** ** The invariant *)

Fixpoint sum (l : list Z) : Z := match l with [] => 0 | n :: l => n + sum l end.

(** Buckets count observations, so none is negative, and together they hold no
    more than were made. *)
Definition histogram_wf (h : histogram) : Prop :=
  length (buckets h) = length latencyBuckets /\ Forall (fun n => 0 <= n) (buckets h) /\
  sum (buckets h) <= h_count h.

Lemma fill_length bounds d counts : length (fill bounds d counts) = length counts.
Proof.
  revert counts. induction bounds as [|b bounds IH]; intros [|n counts]; simpl; try done.
  case_match; simpl; [done|]. by rewrite IH.
Qed.

Lemma fill_nonneg bounds d counts :
  Forall (fun n => 0 <= n) counts -> Forall (fun n => 0 <= n) (fill bounds d counts).
Proof.
  revert counts. induction bounds as [|b bounds IH]; intros [|n counts] H; simpl; try done.
  inversion H; subst. case_match; constructor; auto; lia.
Qed.

Lemma fill_sum bounds d counts : sum counts <= sum (fill bounds d counts) <= sum counts + 1.
Proof.
  revert counts. induction bounds as [|b bounds IH]; intros [|n counts]; simpl; try lia.
  case_match; simpl; [lia|]. specialize (IH counts). lia.
Qed.

Lemma observe_wf d h : histogram_wf h -> histogram_wf (observe d h).
Proof.
  intros (Hl & Hn & Hs). unfold histogram_wf, observe; cbn [buckets h_count].
  rewrite fill_length. split; [done|]. split; [by apply fill_nonneg|].
  pose proof (fill_sum latencyBuckets d (buckets h)). lia.
Qed.

Lemma emptyHistogram_wf : histogram_wf emptyHistogram.
Proof. split; [done|]. split; [repeat constructor|]; done. Qed.

Lemma addHistogram_wf a h : histogram_wf a -> histogram_wf h -> histogram_wf (addHistogram a h).
Proof.
  intros (Hl & Hn & Hs) (Hl' & Hn' & Hs'). unfold histogram_wf, addHistogram; cbn [buckets h_count].
  assert (length (buckets a) = length (buckets h)) as E by congruence.
  split; [rewrite length_zip_with; lia|]. clear Hl Hl'. revert E Hn Hn' Hs Hs'.
  generalize (h_count a) (h_count h). generalize (buckets a) (buckets h).
  induction l as [|x l IH]; intros [|y l'] c c' E Hn Hn' Hs Hs'; simpl in *; try done.
  - split; [constructor | lia].
  - inversion Hn; inversion Hn'; subst.
    destruct (IH l' (c - x) (c' - y)) as [H1' H2']; auto with lia.
Qed.

#[export] Hint Resolve observe_wf emptyHistogram_wf addHistogram_wf : gombit.

Definition metrics_wf (m : Metrics) : Prop :=
  forall k c, series m !! k = Some c ->
    histogram_wf (jc_run c) /\ histogram_wf (jc_wait c) /\ h_count (jc_run c) = jc_count c.

Lemma NewMetrics_wf : metrics_wf NewMetrics.
Proof. intros k c. simpl. by rewrite lookup_empty. Qed.

Lemma addInFlight_wf queue n m : metrics_wf m -> metrics_wf (addInFlight queue n m).
Proof. done. Qed.

Lemma recordOutcome_wf job queue result run wait m :
  metrics_wf m -> metrics_wf (recordOutcome job queue result run wait m).
Proof.
  intros Hm k c. unfold recordOutcome; simpl series.
  intros [[<- <-]|[_ Hc]]%lookup_insert_Some; [|by eapply Hm].
  set (c0 := match series m !! (job, queue, result) with Some c => c | None => emptyCounter end).
  assert (histogram_wf (jc_run c0) /\ histogram_wf (jc_wait c0) /\ h_count (jc_run c0) = jc_count c0)
    as (H1 & H2 & H3).
  { unfold c0. destruct (series m !! _) eqn:E; simpl; [by eapply Hm | auto with gombit]. }
  clearbody c0. cbn [jc_run jc_wait jc_count]. split; [by apply observe_wf|].
  split; [destruct (0 <? wait); auto with gombit|]. simpl. by rewrite H3.
Qed.

#[export] Hint Resolve NewMetrics_wf addInFlight_wf recordOutcome_wf : gombit.

(** ** The exposition is well formed *)

Lemma cumulative_bounds counts : forall acc,
  Forall (fun n => 0 <= n) counts ->
  Forall (fun n => acc <= n <= acc + sum counts) (cumulative acc counts).
Proof.
  induction counts as [|n counts IH]; intros acc H; simpl; [constructor|].
  inversion H; subst. assert (0 <= sum counts).
  { clear -H3. induction H3; simpl; lia. }
  constructor; [lia|]. eapply Forall_impl; [by apply IH|]. simpl. lia.
Qed.

Lemma cumulative_sorted counts : forall acc,
  Forall (fun n => 0 <= n) counts -> StronglySorted Z.le (cumulative acc counts).
Proof.
  induction counts as [|n counts IH]; intros acc H; simpl; [constructor|].
  inversion H; subst. constructor; [by apply IH|].
  eapply Forall_impl; [by apply cumulative_bounds|]. simpl. lia.
Qed.

Lemma totals_wf l :
  (forall r, r ∈ l -> histogram_wf (jc_run r.2) /\ histogram_wf (jc_wait r.2)) ->
  forall k a, (totals l).1 !! k = Some a -> histogram_wf (a_run a) /\ histogram_wf (a_wait a).
Proof.
  unfold totals.
  assert (forall l acc,
    (forall r, r ∈ l -> histogram_wf (jc_run r.2) /\ histogram_wf (jc_wait r.2)) ->
    (forall k a, acc.1 !! k = Some a -> histogram_wf (a_run a) /\ histogram_wf (a_wait a)) ->
    forall k a, (fold_left addRow l acc).1 !! k = Some a ->
      histogram_wf (a_run a) /\ histogram_wf (a_wait a)) as H.
  { clear l. induction l as [|r l IH]; intros acc Hl Hacc k a; simpl; [apply Hacc|].
    apply IH; [intros r' Hr'; apply Hl, elem_of_cons; by right|]. clear k a IH. intros k a.
    destruct (Hl r) as [Hr Hw]; [apply elem_of_cons; by left|].
    destruct acc as [t o]. unfold addRow. destruct (t !! r.1.1) as [a0|] eqn:E; simpl;
      intros [[<- <-]|[_ Ha]]%lookup_insert_Some; try (by eapply Hacc); simpl.
    - apply Hacc in E as [? ?]. auto with gombit.
    - auto with gombit. }
  intros Hl. apply (H l (∅, [])); [done|]. intros k a. simpl. by rewrite lookup_empty.
Qed.

Lemma cumulative_length counts : forall acc, length (cumulative acc counts) = length counts.
Proof. induction counts as [|n counts IH]; intros acc; simpl; [done|]. by rewrite IH. Qed.

(** The metrics a program can have. *)
Inductive observed : Metrics -> Prop :=
| observed_new : observed NewMetrics
| observed_started queue m : observed m -> observed (started queue m)
| observed_finished queue m : observed m -> observed (finished queue m)
| observed_record job queue result run wait m :
    observed m -> observed (recordOutcome job queue result run wait m).

Lemma wf_of_observed m : observed m -> metrics_wf m.
Proof. induction 1; unfold started, finished; auto with gombit. Qed.

(** The buckets of a histogram the samples hold, in their order. *)
Definition bucketOf (metric : string) (k : string * string) (l : line) : option (duration * Z) :=
  match l with
  | LBucket m job queue (Some le) n =>
      if bool_decide (m = metric) && bool_decide ((job, queue) = k) then Some (le, n) else None
  | _ => None
  end.

Lemma omap_nil_all {A B} (f : A -> option B) l : (forall x, x ∈ l -> f x = None) -> omap f l = [].
Proof.
  induction l as [|x l IH]; intros H; simpl; [done|].
  rewrite (H x) by constructor. apply IH. intros y Hy. apply H. by constructor.
Qed.

Lemma histLines_buckets metric k metric' k' h :
  omap (bucketOf metric k) (histLines metric' k' h) =
  if bool_decide (metric' = metric) && bool_decide (k' = k)
  then zip latencyBuckets (cumulative 0 (buckets h)) else [].
Proof.
  unfold histLines. rewrite omap_app. simpl omap at 2. rewrite app_nil_r.
  generalize (cumulative 0 (buckets h)). generalize latencyBuckets. destruct k' as [j q].
  induction l as [|b l IH]; intros [|n ns]; simpl; try (by destruct (_ && _)).
  rewrite IH. by destruct (_ && _).
Qed.

(** The keys of the totals, each once in the order they are written. *)
Definition totals_ok (t : gmap (string * string) agg * list (string * string)) : Prop :=
  NoDup t.2 /\ forall k, k ∈ t.2 <-> is_Some (t.1 !! k).

Lemma addRow_ok t r : totals_ok t -> totals_ok (addRow t r).
Proof.
  destruct t as [m o]. intros [Hnd Hk]. simpl in *. unfold addRow.
  destruct (m !! r.1.1) as [a|] eqn:E; split; simpl; try done.
  - intros k. rewrite lookup_insert_is_Some', Hk. split; [by right|]. intros [<-|]; [by eexists | done].
  - apply NoDup_app. split; [done|]. split; [|apply NoDup_singleton].
    intros k Hin ->%list_elem_of_singleton. apply Hk in Hin as [? Hin]. congruence.
  - intros k. rewrite elem_of_app, list_elem_of_singleton, lookup_insert_is_Some', Hk. naive_solver.
Qed.

Lemma totals_totals_ok l : totals_ok (totals l).
Proof.
  unfold totals. assert (totals_ok (∅, [])) as H.
  { split; [constructor|]. intros k. simpl. rewrite lookup_empty. split; [|by intros []].
    intros Hk. by apply not_elem_of_nil in Hk. }
  revert H. generalize (∅ : gmap (string * string) agg, [] : list (string * string)).
  induction l as [|r l IH]; intros acc Hacc; [done|]. simpl. apply IH. by apply addRow_ok.
Qed.

Lemma writeHist_buckets metric k metric' pick t :
  totals_ok t ->
  omap (bucketOf metric k) (writeHist metric' pick t) =
  if bool_decide (metric' = metric)
  then match t.1 !! k with
       | Some a => zip latencyBuckets (cumulative 0 (buckets (pick a)))
       | None => []
       end
  else [].
Proof.
  destruct t as [m o]. intros [Hnd Hk]. unfold writeHist. simpl in *.
  assert (omap (bucketOf metric k)
      (o ≫= fun k' => match m !! k' with Some a => histLines metric' k' (pick a) | None => [] end) =
    if bool_decide (metric' = metric) && bool_decide (k ∈ o)
    then match m !! k with
         | Some a => zip latencyBuckets (cumulative 0 (buckets (pick a)))
         | None => []
         end
    else []) as ->.
  { clear Hk. induction o as [|k' o IH].
    - simpl. by destruct (bool_decide (metric' = metric)).
    - rewrite bind_cons. apply NoDup_cons in Hnd as [Hni Hnd]. rewrite omap_app, (IH Hnd).
      assert (omap (bucketOf metric k)
          match m !! k' with Some a => histLines metric' k' (pick a) | None => [] end =
        if bool_decide (metric' = metric) && bool_decide (k' = k)
        then match m !! k' with
             | Some a => zip latencyBuckets (cumulative 0 (buckets (pick a)))
             | None => []
             end
        else []) as ->.
      { destruct (m !! k'); [apply histLines_buckets|].
        by destruct (bool_decide (metric' = metric) && bool_decide (k' = k)). }
      destruct (bool_decide (metric' = metric)); simpl; [|done].
      destruct (decide (k' = k)) as [->|Hne].
      + rewrite (bool_decide_eq_true_2 (k = k)), (bool_decide_eq_false_2 (k ∈ o)),
          (bool_decide_eq_true_2 (k ∈ k :: o)) by (done || constructor). by rewrite app_nil_r.
      + rewrite (bool_decide_eq_false_2 (k' = k)) by done. simpl.
        rewrite (bool_decide_ext (k ∈ k' :: o) (k ∈ o)); [done|].
        rewrite elem_of_cons. naive_solver. }
  destruct (bool_decide (metric' = metric)); simpl; [|done]. case_bool_decide as Hin; [done|].
  destruct (m !! k) eqn:E; [|done]. exfalso. apply Hin, Hk. by eexists.
Qed.

Definition run_metric : string := "gombit_jobs_run_seconds".
Definition wait_metric : string := "gombit_jobs_wait_seconds".

Lemma WritePrometheus_buckets stats now m metric k :
  omap (bucketOf metric k) (WritePrometheus stats now m) =
  omap (bucketOf metric k) (writeHist run_metric a_run (totals (rows m))) ++
  omap (bucketOf metric k) (writeHist wait_metric a_wait (totals (rows m))).
Proof.
  unfold WritePrometheus. rewrite !omap_app.
  rewrite (omap_nil_all _ (map _ (rows m))) by (by intros ? (? & -> & _)%list_elem_of_fmap).
  rewrite (omap_nil_all _ (map _ (sortedKeys (inFlight m)))) by (by intros ? (? & -> & _)%list_elem_of_fmap).
  assert (forall f : string -> list line, (forall q l, l ∈ f q -> bucketOf metric k l = None) ->
    omap (bucketOf metric k) (sortedKeys stats ≫= f) = []) as Hnil.
  { intros f Hf. apply omap_nil_all. intros x (q & Hx & _)%list_elem_of_bind. by eapply Hf. }
  rewrite !Hnil; [by rewrite !app_nil_r | |].
  - intros q l. destruct (stats !! q); [|by intros ?%not_elem_of_nil]. by intros ->%list_elem_of_singleton.
  - intros q l. destruct (stats !! q); [|by intros ?%not_elem_of_nil].
    unfold statsLines. rewrite !elem_of_cons. intros [->|[->|[->|[->|Hn]]]]; try done.
    by apply not_elem_of_nil in Hn.
Qed.

Lemma histLines_in_exposition stats now m metric pick k a l :
  (metric = run_metric /\ pick = a_run \/ metric = wait_metric /\ pick = a_wait) ->
  (totals (rows m)).1 !! k = Some a -> l ∈ histLines metric k (pick a) ->
  l ∈ WritePrometheus stats now m.
Proof.
  intros Hmp Ha Hl. assert (l ∈ writeHist metric pick (totals (rows m))) as Hw.
  { apply list_elem_of_bind. exists k. rewrite Ha. split; [done|].
    apply (proj2 (totals_totals_ok (rows m))). by eexists. }
  unfold WritePrometheus. rewrite !elem_of_app. destruct Hmp as [[-> ->]|[-> ->]]; auto.
Qed.

(** Every histogram WritePrometheus exposes is one Prometheus accepts: for a metric, job and
    queue there are no buckets, or one for each bound in order, whose cumulative counts
    never decrease and never exceed the count written beside them and in the bucket without
    bound. *)
Theorem exposition_histograms_wellformed stats now (m : Metrics) metric k :
  observed m -> metric = run_metric \/ metric = wait_metric ->
  let lines := WritePrometheus stats now m in
  let bs := omap (bucketOf metric k) lines in
  bs = [] \/
  bs.*1 = latencyBuckets /\ StronglySorted Z.le bs.*2 /\
  exists n, LBucket metric k.1 k.2 None n ∈ lines /\ LCount metric k.1 k.2 n ∈ lines /\
    Forall (fun c => 0 <= c <= n) bs.*2.
Proof.
  intros Hm%wf_of_observed Hmetric lines bs.
  assert (exists pick, (metric = run_metric /\ pick = a_run \/ metric = wait_metric /\ pick = a_wait) /\
    bs = match (totals (rows m)).1 !! k with
         | Some a => zip latencyBuckets (cumulative 0 (buckets (pick a)))
         | None => []
         end) as (pick & Hpick & Hbs).
  { unfold bs, lines. rewrite WritePrometheus_buckets, !writeHist_buckets by apply totals_totals_ok.
    destruct Hmetric as [->| ->]; [exists a_run | exists a_wait]; (split; [by auto|]); simpl; by rewrite ?app_nil_r. }
  clearbody bs. subst bs. destruct ((totals (rows m)).1 !! k) as [a|] eqn:Ha; [right|by left].
  assert (histogram_wf (pick a)) as (Hl & Hn & Hs).
  { destruct (totals_wf (rows m)) with (k := k) (a := a) as [? ?]; [|done|naive_solver].
    intros [k' c] Hr. unfold rows in Hr. rewrite merge_sort_Permutation in Hr.
    apply elem_of_map_to_list in Hr. apply Hm in Hr. naive_solver. }
  rewrite fst_zip, snd_zip by (rewrite cumulative_length; lia).
  split; [done|]. split; [by apply cumulative_sorted|]. exists (h_count (pick a)).
  split; [|split].
  - eapply histLines_in_exposition; [done..|]. unfold histLines. apply elem_of_app. right. constructor.
  - eapply histLines_in_exposition; [done..|]. unfold histLines. apply elem_of_app. right. do 2 constructor. constructor.
  - eapply Forall_impl; [by apply cumulative_bounds|]. simpl. lia.
Qed.

Definition sample_metrics : Metrics :=
  recordOutcome "mail" "default" ResultRetried (2 * Second) 0
    (recordOutcome "mail" "default" ResultSucceeded (7 * Second) Millisecond NewMetrics).

Lemma exposition_histograms_wellformed_witness :
  let bs := omap (bucketOf run_metric ("mail", "default")) (WritePrometheus ∅ 0 sample_metrics) in
  bs <> [] /\ bs.*1 = latencyBuckets /\ StronglySorted Z.le bs.*2.
Proof.
  destruct (exposition_histograms_wellformed ∅ 0 sample_metrics run_metric ("mail", "default")
    ltac:(repeat constructor) ltac:(by left)) as [H|(H1 & H2 & _)].
  - exfalso. vm_compute in H. discriminate H.
  - split; [vm_compute; discriminate | exact (conj H1 H2)].
Defined.
