(* ===== verification/JobsQueueIface.v ===== *)
(** * jobs/queue.go: the driver contract

    [Queue] has the operations of the Go interface a worker and a dispatcher
    call.  [QueueLaws] is the contract of its documentation as an abstract
    state: every job is waiting, leased, buried or gone, and each operation
    moves the one job it is about.  [MemoryQueue] refines it; the worker is
    verified against it. *)

From stdpp Require Import base tactics numbers list strings gmap fin_maps.
From Stdlib Require Import ZArith Lia.
From S2P Require Import Prelude JobsTypes JobsMemory JobsMemoryInv JobsMemoryQueue.

Local Open Scope string_scope.
Local Open Scope list_scope.
Local Open Scope Z_scope.

(** [type Queue interface]: the operations dispatchers and workers use, the
    clock and the fresh receipt passed in. *)
Class Queue (S : Type) : Type := {
  qPush : (nat -> time) -> string -> Envelope -> time -> S -> S * option error;
  qPushUnique : (nat -> time) -> string -> Envelope -> time -> UniqueKey -> S -> S * option error;
  qReserve : time -> string -> list string -> duration -> S -> S * result error Delivery;
  qAck : Delivery -> S -> S * option error;
  qRelease : time -> Delivery -> time -> S -> S * option error;
  qPostpone : time -> Delivery -> time -> S -> S * option error;
  qExtend : time -> Delivery -> duration -> S -> S * option error;
  qBury : time -> Delivery -> Failure -> S -> S * option error
}.

(** ** The abstract state of a job *)

Inductive status : Type :=
| Gone
| Waiting (attempts : Z) (at_ : time)
| Leased (attempts : Z) (receipt : string) (deadline : time)
| Buried (attempts : Z) (f : Failure).

(** How a delivery is settled. *)
Inductive settlement : Type :=
| SAck
| SRelease (at_ : time)
| SPostpone (at_ : time)
| SBury (f : Failure).

Definition settle {S} `{Queue S} (now : time) (d : Delivery) (x : settlement) : S -> S * option error :=
  match x with
  | SAck => qAck d
  | SRelease at_ => qRelease now d at_
  | SPostpone at_ => qPostpone now d at_
  | SBury f => qBury now d f
  end.

(** What settling a delivery on its [attempts]-th attempt makes of the job. *)
Definition settledTo (now : time) (attempts : Z) (x : settlement) : status :=
  match x with
  | SAck => Gone
  | SRelease at_ => Waiting attempts (clampAt at_ now)
  | SPostpone at_ => Waiting (if 0 <? attempts then attempts - 1 else attempts) (clampAt at_ now)
  | SBury f => Buried attempts (if IsZero (FAt f) then setAt now f else f)
  end.

(** A job Reserve may deliver at [now]: due, or on an expired lease. *)
Definition deliverable (now : time) (attempts : Z) (expired : bool) (st : status) : Prop :=
  if expired then exists r t, st = Leased attempts r t /\ t <= now
  else exists at_, st = Waiting attempts at_ /\ at_ <= now.

(** Only the job under [k] changed, to [st]. *)
Definition moved {S} (status_of : S -> string * string -> status) (k : string * string)
    (st : status) (s s' : S) : Prop :=
  status_of s' k = st /\ forall k', k' <> k -> status_of s' k' = status_of s k'.

Class QueueLaws (S : Type) `{Queue S} : Type := {
  valid : S -> Prop;
  status_of : S -> string * string -> status;
  law_push clk queue env at_ s s' :
    valid s -> qPush clk queue env at_ s = (s', None) ->
    valid s' /\ status_of s (queue, ID env) = Gone /\
    moved status_of (queue, ID env) (Waiting 0 (clampAt at_ (clk 2%nat))) s s';
  law_reserve now uuid queues lease s s' d :
    valid s -> uuid <> "" -> qReserve now uuid queues lease s = (s', Ok d) ->
    valid s' /\ DReceipt d = uuid /\
    exists a, deliverable now a (DLeaseExpired d) (status_of s (DKey d)) /\
      Attempt (DEnvelope d) = wrap_int64 (a + 1) /\
      moved status_of (DKey d) (Leased (Attempt (DEnvelope d)) uuid (now + lease)) s s';
  law_settle now d x a t s :
    valid s -> DReceipt d <> "" -> status_of s (DKey d) = Leased a (DReceipt d) t ->
    exists s', settle now d x s = (s', None) /\ valid s' /\
      moved status_of (DKey d) (settledTo now a x) s s';
  law_settle_lost now d x s :
    valid s -> (forall a t, status_of s (DKey d) <> Leased a (DReceipt d) t) ->
    exists e, settle now d x s = (s, Some e) /\ (e = Sentinel ErrClosed \/ Is e ErrLeaseLost = true);
  law_extend now d lease a t s :
    valid s -> 0 < lease -> DReceipt d <> "" -> status_of s (DKey d) = Leased a (DReceipt d) t ->
    exists s', qExtend now d lease s = (s', None) /\ valid s' /\
      moved status_of (DKey d) (Leased a (DReceipt d) (now + lease)) s s';
  law_extend_lost now d lease s :
    valid s -> 0 < lease -> (forall a t, status_of s (DKey d) <> Leased a (DReceipt d) t) ->
    exists e, qExtend now d lease s = (s, Some e) /\
      (e = Sentinel ErrClosed \/ Is e ErrLeaseLost = true)
}.

(** ** MemoryQueue implements the contract *)

#[export] Instance MemoryQueue_Queue : Queue MemoryQueue := {
  qPush := Push;
  qPushUnique := PushUnique;
  qReserve := Reserve;
  qAck := Ack;
  qRelease := Release;
  qPostpone := Postpone;
  qExtend := Extend;
  qBury := Bury
}.

Definition job_status (j : option memoryJob) : status :=
  match j with
  | None => Gone
  | Some j =>
      match j_failure j with
      | Some f => Buried (j_attempts j) f
      | None => if j_reserved j then Leased (j_attempts j) (j_receipt j) (j_leaseDeadline j)
                else Waiting (j_attempts j) (j_availableAt j)
      end
  end.

Definition memory_status (q : MemoryQueue) (k : string * string) : status :=
  job_status (q_jobs q !! k).

(** Jobs are stored under their own key, and a failed one is not leased; a
    closed queue is empty. *)
Definition memory_job_valid (k : string * string) (j : memoryJob) : Prop :=
  k = (j_queue j, ID (j_env j)) /\ (j_failure j <> None -> j_reserved j = false).

Definition memory_valid (q : MemoryQueue) : Prop :=
  map_Forall memory_job_valid (q_jobs q) /\ (q_closed q = true -> q_jobs q = ∅).

Lemma wf_memory_valid n q : wf n q -> memory_valid q.
Proof.
  intros Hwf. split; [|apply Hwf]. intros k j Hk.
  destruct (wf_jobs _ _ Hwf _ _ Hk). split; [done|]. intros Hf.
  destruct (j_failure j) as [f|]; [by destruct (jo_failed f)|done].
Qed.

Lemma memory_moved_put k j q q0 :
  q_jobs q0 = q_jobs q -> moved memory_status k (job_status (Some j)) q (put_job k j q0).
Proof.
  intros Hq. unfold moved, memory_status, put_job; simpl. rewrite Hq, lookup_insert_eq.
  split; [done|]. intros k' Hne. by rewrite lookup_insert_ne.
Qed.

Lemma memory_valid_put k j q q0 :
  memory_valid q -> q_jobs q0 = q_jobs q -> q_closed q0 = false -> memory_job_valid k j ->
  memory_valid (put_job k j q0).
Proof.
  intros [Hv _] Hq Hc Hj. split; simpl; [|by rewrite Hc].
  rewrite Hq. by apply map_Forall_insert_2.
Qed.

(** The jobs of a lease-holding delivery. *)
Lemma memory_leased d a t q :
  memory_valid q -> DReceipt d <> "" -> memory_status q (DKey d) = Leased a (DReceipt d) t ->
  exists j, leased d q = Ok j /\ q_closed q = false /\ q_jobs q !! DKey d = Some j /\
    j_attempts j = a /\ j_failure j = None /\ j_reserved j = true /\
    DKey d = (j_queue j, ID (j_env j)).
Proof.
  intros [Hv Hclosed] Hr. unfold memory_status, job_status.
  destruct (q_jobs q !! DKey d) as [j|] eqn:E; [|done].
  destruct (j_failure j) eqn:Ef; [done|]. destruct (j_reserved j) eqn:Er; [|done].
  intros [= Ha Hrec Ht]. destruct (q_closed q) eqn:Ec.
  { rewrite Hclosed in E by done. by rewrite lookup_empty in E. }
  exists j. unfold leased. rewrite Ec, E, Er, Hrec, String.eqb_refl.
  apply String.eqb_neq in Hr. rewrite Hr. simpl. repeat split; auto.
  by destruct (Hv _ _ E).
Qed.

Lemma memory_law_push clk queue env at_ q q' :
  memory_valid q -> Push clk queue env at_ q = (q', None) ->
  memory_valid q' /\ memory_status q (queue, ID env) = Gone /\
  moved memory_status (queue, ID env) (Waiting 0 (clampAt at_ (clk 2%nat))) q q'.
Proof.
  intros Hv. unfold Push, push. repeat case_match; intros; simplify_eq.
  split; [apply (memory_valid_put _ _ q); try done|]. split.
  - unfold memory_status. by match goal with H : q_jobs _ !! _ = None |- _ => rewrite H end.
  - by apply memory_moved_put.
Qed.

Lemma memory_law_reserve now uuid queues lease q q' d :
  memory_valid q -> uuid <> "" -> Reserve now uuid queues lease q = (q', Ok d) ->
  memory_valid q' /\ DReceipt d = uuid /\
  exists a, deliverable now a (DLeaseExpired d) (memory_status q (DKey d)) /\
    Attempt (DEnvelope d) = wrap_int64 (a + 1) /\
    moved memory_status (DKey d) (Leased (Attempt (DEnvelope d)) uuid (now + lease)) q q'.
Proof.
  intros Hv Hu (k & j & Hk & Hav & _ & _ & _ & Hc & _ & -> & -> & _)%Reserve_Ok.
  destruct (proj1 Hv _ _ Hk) as [Hkey Hf]. unfold DKey; simpl. rewrite <- Hkey.
  assert (j_failure j = None) as Hfn by (unfold available in Hav; by destruct (j_failure j)).
  split; [|split; [done|]].
  { apply (memory_valid_put _ _ q); [done..|]. split; simpl; [done|]. by rewrite Hfn. }
  exists (j_attempts j). split; [|split; [done|]].
  - unfold memory_status. rewrite Hk. simpl. rewrite Hfn. unfold available in Hav. rewrite Hfn in Hav.
    destruct (j_reserved j); simpl; breflect; eauto.
  - pose proof (memory_moved_put k (lease_job uuid (Add now lease) j) q q eq_refl) as Hm.
    simpl in Hm. by rewrite Hfn in Hm.
Qed.

Lemma memory_law_settle now d x a t q :
  memory_valid q -> DReceipt d <> "" -> memory_status q (DKey d) = Leased a (DReceipt d) t ->
  exists q', settle now d x q = (q', None) /\ memory_valid q' /\
    moved memory_status (DKey d) (settledTo now a x) q q'.
Proof.
  intros Hv Hr Hs. destruct (memory_leased d a t q Hv Hr Hs) as (j & Hl & Hc & Hk & Ha & Hf & Hres & Hkey).
  destruct x as [|at_|at_|f]; simpl; unfold Ack, Release, Postpone, release, Bury; rewrite Hl.
  - destruct (releaseUnique_job j (q_uniques q)) as (h & Hj & _).
    destruct (releaseUnique j (q_uniques q)) as [b m]. simpl in Hj. subst b. simpl.
    eexists. split; [reflexivity|]. rewrite <- Hkey. split; [split; simpl; [|by rewrite Hc]|].
    + apply map_Forall_delete, Hv.
    + unfold moved, memory_status; simpl. rewrite lookup_delete_eq. split; [done|].
      intros k' Hne. by rewrite lookup_delete_ne.
  - eexists. split; [reflexivity|]. split.
    + apply (memory_valid_put _ _ q); [done..|]. split; simpl; [done|]. by rewrite Hf.
    + pose proof (memory_moved_put (DKey d)
        (released_job (j_attempts j) (clampAt at_ now) (wrap_uint64 (q_seq q + 1)) j) q
        (set_seq (wrap_uint64 (q_seq q + 1)) q) eq_refl) as Hm.
      simpl in Hm. by rewrite Hf, Ha in Hm; rewrite Ha.
  - eexists. split; [reflexivity|]. split.
    + apply (memory_valid_put _ _ q); [done..|]. split; simpl; [done|]. by rewrite Hf.
    + pose proof (memory_moved_put (DKey d)
        (released_job (if 0 <? j_attempts j then j_attempts j - 1 else j_attempts j)
           (clampAt at_ now) (wrap_uint64 (q_seq q + 1)) j) q
        (set_seq (wrap_uint64 (q_seq q + 1)) q) eq_refl) as Hm.
      simpl in Hm. by rewrite Hf, Ha in Hm; rewrite Ha.
  - set (f1 := if IsZero (FAt f) then setAt now f else f).
    destruct (releaseUnique_job (buried_job f1 j) (q_uniques q)) as (h & Hj & _).
    destruct (releaseUnique (buried_job f1 j) (q_uniques q)) as [b m]. simpl in Hj. subst b.
    eexists. split; [reflexivity|]. split.
    + by apply (memory_valid_put _ _ q).
    + rewrite <- Ha. exact (memory_moved_put (DKey d) _ q (set_uniques m q) eq_refl).
Qed.

Lemma memory_not_leased d q :
  memory_valid q -> (forall a t, memory_status q (DKey d) <> Leased a (DReceipt d) t) ->
  exists e, leased d q = Err e /\ (e = Sentinel ErrClosed \/ Is e ErrLeaseLost = true).
Proof.
  intros Hv Hl. destruct (leased d q) as [j|e] eqn:E; [|by eauto using leased_Err]. exfalso.
  apply leased_Ok in E as (_ & Hk & Hr & Hrec & _).
  destruct (proj1 Hv _ _ Hk) as [_ Hf]. apply (Hl (j_attempts j) (j_leaseDeadline j)).
  unfold memory_status. rewrite Hk. simpl.
  destruct (j_failure j); [by rewrite Hf in Hr|]. by rewrite Hr, Hrec.
Qed.

Lemma memory_law_settle_lost now d x q :
  memory_valid q -> (forall a t, memory_status q (DKey d) <> Leased a (DReceipt d) t) ->
  exists e, settle now d x q = (q, Some e) /\ (e = Sentinel ErrClosed \/ Is e ErrLeaseLost = true).
Proof.
  intros Hv Hl. destruct (memory_not_leased d q Hv Hl) as (e & He & Hk). exists e. split; [|done].
  destruct x; simpl; unfold Ack, Release, Postpone, release, Bury; by rewrite He.
Qed.

Lemma memory_law_extend_lost now d lease q :
  memory_valid q -> 0 < lease -> (forall a t, memory_status q (DKey d) <> Leased a (DReceipt d) t) ->
  exists e, Extend now d lease q = (q, Some e) /\ (e = Sentinel ErrClosed \/ Is e ErrLeaseLost = true).
Proof.
  intros Hv Hp Hl. destruct (memory_not_leased d q Hv Hl) as (e & He & Hk). exists e. split; [|done].
  unfold Extend. replace (lease <=? 0) with false by (symmetry; apply Z.leb_gt; lia). by rewrite He.
Qed.

Lemma memory_law_extend now d lease a t q :
  memory_valid q -> 0 < lease -> DReceipt d <> "" ->
  memory_status q (DKey d) = Leased a (DReceipt d) t ->
  exists q', Extend now d lease q = (q', None) /\ memory_valid q' /\
    moved memory_status (DKey d) (Leased a (DReceipt d) (now + lease)) q q'.
Proof.
  intros Hv Hlease Hr Hs.
  destruct (memory_leased d a t q Hv Hr Hs) as (j & Hl & Hc & Hk & Ha & Hf & Hres & Hkey).
  pose proof Hl as (_ & _ & _ & Hrec & _)%leased_Ok.
  unfold Extend. rewrite Hl. replace (lease <=? 0) with false by (symmetry; apply Z.leb_gt; lia).
  eexists. split; [reflexivity|]. split.
  - apply (memory_valid_put _ _ q); [done..|]. split; simpl; [done|]. by rewrite Hf.
  - match goal with |- moved _ _ _ _ (put_job _ ?j' _) =>
      pose proof (memory_moved_put (DKey d) j' q q eq_refl) as Hm end.
    revert Hm. simpl. by rewrite Hf, Hres, Ha, Hrec.
Qed.

#[export, refine] Instance MemoryQueue_QueueLaws : QueueLaws MemoryQueue := {
  valid := memory_valid;
  status_of := memory_status
}.
Proof.
  - exact memory_law_push.
  - exact memory_law_reserve.
  - exact memory_law_settle.
  - exact memory_law_settle_lost.
  - exact memory_law_extend.
  - exact memory_law_extend_lost.
Defined.

(** C19. The memory queue implements the worker's abstract queue: in every reachable state a
    delivery takes an available job to a lease of its receipt counting one attempt, and
    settling either moves exactly that job to the state the settlement names, when the
    receipt holds its lease, or changes nothing and reports a closed queue or a lost lease.
    *)
Theorem MemoryQueue_refines_contract n q :
  reachable n q -> n <= max_int64 ->
  (forall now uuid queues lease q' d, uuid <> "" -> Reserve now uuid queues lease q = (q', Ok d) ->
     exists a, deliverable now a (DLeaseExpired d) (status_of q (DKey d)) /\
       Attempt (DEnvelope d) = wrap_int64 (a + 1) /\ DReceipt d = uuid /\
       moved status_of (DKey d) (Leased (Attempt (DEnvelope d)) uuid (now + lease)) q q') /\
  (forall now d x, DReceipt d <> "" ->
     (exists a t, status_of q (DKey d) = Leased a (DReceipt d) t /\
        exists q', settle now d x q = (q', None) /\
          moved status_of (DKey d) (settledTo now a x) q q') \/
     (exists e, settle now d x q = (q, Some e) /\
        (e = Sentinel ErrClosed \/ Is e ErrLeaseLost = true))).
Proof.
  intros Hr Hn.
  assert (valid q) as Hv by exact (wf_memory_valid _ _ (wf_of_reachable _ _ Hr Hn)). split.
  - intros now uuid queues lease q' d Hu Hres.
    destruct (law_reserve _ _ _ _ _ _ _ Hv Hu Hres) as (_ & Hrec & a & Hd & Ha & Hm). eauto.
  - intros now d x Hne. destruct (status_of q (DKey d)) as [|a0 at0|a r t|a0 f0] eqn:Es.
    3: destruct (decide (r = DReceipt d)) as [->|Hrec].
    3: { left. destruct (law_settle now d x a t q Hv Hne Es) as (q' & Hs & _ & Hm). eauto 8. }
    all: right; apply law_settle_lost; [exact Hv|]; intros a' t' E; rewrite Es in E; congruence.
Qed.

Lemma MemoryQueue_refines_contract_witness :
  exists e, settle 300 sample_delivery SAck sample_queue = (sample_queue, Some e) /\
    Is e ErrLeaseLost = true.
Proof.
  destruct (proj2 (MemoryQueue_refines_contract 2 sample_queue
    (run_reachable sample_pushes ltac:(solve_op_ok)) ltac:(vm_compute; discriminate))
    300 sample_delivery SAck ltac:(discriminate)) as [(a & t & Hs & _)|(e & He & Hk)].
  - vm_compute in Hs. discriminate Hs.
  - exists e. split; [exact He|]. destruct Hk as [->|Hk]; [|exact Hk].
    apply (f_equal snd) in He. vm_compute in He. discriminate He.
Defined.
