(* ===== verification/JobsWorker.v ===== *)
(** * jobs/worker.go: the worker

    Constructing a worker, taking the next delivery ([reserve]), running it and
    settling its outcome ([process]), and the lease renewal beside it.  The
    queue is any [Queue]; the clock readings are arguments.  Logging is not
    modelled.

    Two facts about a run come from outside the handler's return and are
    arguments of [process]: whether the renewal saw the lease lost
    ([lost], computed by [renewals]), and whether the worker's shutdown canceled
    the run's context ([canceled]). *)

From stdpp Require Import base tactics numbers list strings gmap fin_maps.
From Stdlib Require Import ZArith Lia.
From S2P Require Import Prelude JobsTypes JobsPolicy JobsMemory JobsOnce JobsRegistry JobsMetrics JobsQueueIface.

Local Open Scope string_scope.
Local Open Scope list_scope.
Local Open Scope Z_scope.

(** ** Construction *)

Record WorkerOptions : Type := mkWorkerOptions {
  Queues : list string;
  Concurrency : Z;
  Lease : duration;
  PollInterval : duration;
  ShutdownTimeout : duration
}.

Definition DefaultLease : duration := 5 * Minute.
Definition DefaultPollInterval : duration := Second.
Definition DefaultShutdownTimeout : duration := 30 * Second.

Definition orDefault (v dflt : Z) : Z := if v =? 0 then dflt else v.

(** [NewWorker], given whether the registry and the queue are nil: the options
    the worker runs with. *)
Definition NewWorker (registry_nil queue_nil : bool) (opts : WorkerOptions)
    : result error WorkerOptions :=
  if registry_nil then Err (Text "jobs: worker: nil registry")
  else if queue_nil then Err (Sentinel ErrNoQueue)
  else match Queues opts with
  | [] => Err (Text "jobs: worker: no queues to consume")
  | _ :: _ =>
      match first_invalid (Queues opts) with
      | Some q => Err (Wrapf q (Sentinel ErrInvalidQueue))
      | None =>
          if (Concurrency opts <? 0) || (Lease opts <? 0) || (PollInterval opts <? 0) ||
             (ShutdownTimeout opts <? 0)
          then Err (Text "jobs: worker: concurrency and durations must not be negative")
          else Ok (mkWorkerOptions (Queues opts) (orDefault (Concurrency opts) 1)
                     (orDefault (Lease opts) DefaultLease)
                     (orDefault (PollInterval opts) DefaultPollInterval)
                     (orDefault (ShutdownTimeout opts) DefaultShutdownTimeout))
      end
  end.

(** ** Outcomes *)

(** [settled] *)
Definition settled (result : string) (err : option error) : string :=
  match err with
  | None => result
  | Some e => if Is e ErrLeaseLost then ResultAbandoned else ResultUnsettled
  end.

(** How long the delivery waited in the queue. *)
Definition waitedFor (now : time) (d : Delivery) : duration :=
  if negb (IsZero (DAvailableAt d)) && After now (DAvailableAt d) then now - DAvailableAt d else 0.

(** [policy.Backoff(attempt)].  A registry's policies always have a back-off
    ([resolve] fills it), so the nil call does not happen. *)
Definition backoff (policy : Options) (attempt : Z) : duration :=
  match callBackoff policy attempt with Some d => d | None => 0 end.

(** The failure [giveUp] records. *)
Definition giveUpFailure (now : time) (err : error) : Failure :=
  mkFailure (if IsPermanent (Some err) then ReasonPermanent else ReasonExhausted)
    (match Classify (Some err) with Some k => k | None => KindHandler end) err now.

Section Worker.
Context {C S : Type} `{Queue S}.
Context (registry : Registry C S) (opts : WorkerOptions).

(** [jobLabel] *)
Definition jobLabel (name : string) : string :=
  if Has name registry then name else unknownJobLabel.

(** [giveUp]; the clock is read for the failure (0) and by the queue (1). *)
Definition giveUp (clk : nat -> time) (d : Delivery) (err : error) (s : S) : S * option error :=
  qBury (clk 1%nat) d (giveUpFailure (clk 0%nat) err) s.

(** [retry] *)
Definition retry (clk : nat -> time) (d : Delivery) (delay : duration) (s : S) : S * option error :=
  qRelease (clk 1%nat) d (Add (clk 0%nat) delay) s.

(** [postpone] *)
Definition postpone (clk : nat -> time) (d : Delivery) (delay : duration) (s : S)
    : S * option error :=
  qPostpone (clk 1%nat) d (Add (clk 0%nat) delay) s.

(** [reserve]: a delivery that can run, or why there is none.  The clock is
    read by the queue (0), for the wait or the undecodable failure (1) and by
    [giveUp] or the burial (2, 3). *)
Definition exhaustErr : error :=
  Text "previous worker did not settle the job before its lease expired".

Definition reserve (clk : nat -> time) (uuid : string) (m : Metrics) (s : S)
    : Metrics * S * result error Delivery :=
  match qReserve (clk 0%nat) uuid (Queues opts) (Lease opts) s with
  | (s, Err e) => (m, s, Err e)
  | (s, Ok d) =>
      match DErr d with
      | None =>
          let policy := RegistryOptions (Name (DEnvelope d)) registry in
          if negb (DLeaseExpired d) then (m, s, Ok d)
          else if Attempt (DEnvelope d) <=? MaxAttempts policy then (m, s, Ok d)
          else
            let '(s, buryErr) := giveUp (fun i => clk (2 + i)%nat) d exhaustErr s in
            (recordOutcome (jobLabel (Name (DEnvelope d))) (DQueue d)
               (settled ResultFailed buryErr) 0 (waitedFor (clk 1%nat) d) m, s,
             Err (Sentinel match buryErr with Some _ => errNotSetAside | None => errSetAside end))
      | Some err =>
          let failure := mkFailure ReasonUndecodable KindDecode err (clk 1%nat) in
          let '(s, buryErr) := qBury (clk 2%nat) d failure s in
          (recordOutcome unknownJobLabel (DQueue d) (settled ResultUndecodable buryErr) 0 0 m, s,
           Err (Sentinel match buryErr with Some _ => errNotSetAside | None => errSetAside end))
      end
  end.

(** The end of [process], once the handler's run returned [err]: the outcome
    the queue commits and its label. *)
Definition settleRun (clk : nat -> time) (lost canceled : bool) (d : Delivery)
    (err : option error) (s : S) : S * string :=
  if lost then (s, ResultAbandoned)
  else match err with
  | None => let '(s, e) := qAck d s in (s, settled ResultSucceeded e)
  | Some err =>
      let policy := RegistryOptions (Name (DEnvelope d)) registry in
      let attempt := Attempt (DEnvelope d) in
      if canceled then
        let '(s, e) := retry clk d 0 s in (s, settled ResultInterrupted e)
      else if Is err ErrInProgress && negb (IsPermanent (Some err)) then
        let '(s, e) := postpone clk d (backoff policy attempt) s in (s, settled ResultPostponed e)
      else if IsPermanent (Some err) || (MaxAttempts policy <=? attempt) then
        let '(s, e) := giveUp clk d err s in (s, settled ResultFailed e)
      else
        let '(s, e) := retry clk d (backoff policy attempt) s in (s, settled ResultRetried e)
  end.

(** [process].  The clock is read before (0) and after (1) the run, then by the
    settlement.  The renewals of the lease, which run beside the handler, are not
    interleaved with it here: [lost] is what they report. *)
Definition process (clk : nat -> time) (lost canceled : bool) (ctx : C) (d : Delivery)
    (m : Metrics) (s : S) : Metrics * S * string :=
  let waited := waitedFor (clk 0%nat) d in
  let m := started (DQueue d) m in
  let '(s, err) := Run ctx (DEnvelope d) registry s in
  let ran := clk 1%nat - clk 0%nat in
  let '(s, result) := settleRun (fun i => clk (2 + i)%nat) lost canceled d err s in
  (recordOutcome (jobLabel (Name (DEnvelope d))) (DQueue d) result ran waited
     (finished (DQueue d) m), s, result).

(** ** Lease renewal *)

(** The interval of the renewal ticker. *)
Definition renewInterval : duration :=
  let interval := Z.quot (Lease opts) 3 in
  if interval <? Millisecond then Millisecond else interval.

(** [renewLease]'s loop over the ticks that fire before it is stopped, each
    with the instant the queue reads; other actions on the queue happen between
    ticks ([between]).  [true] is a lost lease. *)
Fixpoint renewals (d : Delivery) (ticks : list time) (between : nat -> S -> S) (s : S) : S * bool :=
  match ticks with
  | [] => (s, false)
  | now :: ticks =>
      match qExtend now d (Lease opts) s with
      | (s, None) => renewals d ticks (fun i => between (1 + i)%nat) (between 0%nat s)
      | (s, Some e) =>
          if Is e ErrLeaseLost then (s, true)
          else if Is e ErrClosed then (s, false)
          else renewals d ticks (fun i => between (1 + i)%nat) (between 0%nat s)
      end
  end.
End Worker.
