(* ===== verification/JobsWorkerFacts.v ===== *)
(** * What the worker guarantees

    Proved against the queue contract ([QueueLaws]): what each outcome of a run
    makes of the job, that attempts are bounded, that a worker without the lease
    changes nothing, and that renewal keeps the lease. *)

From stdpp Require Import base tactics numbers list strings gmap fin_maps.
From Stdlib Require Import ZArith Lia.
From S2P Require Import Prelude GoBytes JobsTypes JobsPolicy JobsMemory JobsMemoryInv JobsMemoryQueue JobsOnce JobsRegistry JobsMetrics JobsQueueIface JobsWorker.

Local Open Scope string_scope.
Local Open Scope list_scope.
Local Open Scope Z_scope.

(** What kind of outcome a failed run is. *)
Inductive event : Type :=
| EInterrupt   (* the shutdown canceled it *)
| EPostpone    (* it waits for another run of its effect *)
| EFail        (* it failed, and a retry may help *)
| EPermanent.  (* it failed for good *)

#[export] Instance event_eq_dec : EqDecision event.
Proof. solve_decision. Defined.

Definition eventOf (canceled : bool) (err : error) : event :=
  if canceled then EInterrupt
  else if IsPermanent (Some err) then EPermanent
  else if Is err ErrInProgress then EPostpone
  else EFail.

Section Facts.
Context {C S : Type} `{QueueLaws S}.
Context (registry : Registry C S) (opts : WorkerOptions).

Definition maxAttempts (name : string) : Z := MaxAttempts (RegistryOptions name registry).

(** How [process] settles a failed run. *)
Definition settlementOf (clk : nat -> time) (d : Delivery) (canceled : bool) (err : error)
    : settlement :=
  let policy := RegistryOptions (Name (DEnvelope d)) registry in
  let attempt := Attempt (DEnvelope d) in
  match eventOf canceled err with
  | EInterrupt => SRelease (Add (clk 0%nat) 0)
  | EPostpone => SPostpone (Add (clk 0%nat) (backoff policy attempt))
  | EPermanent => SBury (giveUpFailure (clk 0%nat) err)
  | EFail => if maxAttempts (Name (DEnvelope d)) <=? attempt
             then SBury (giveUpFailure (clk 0%nat) err)
             else SRelease (Add (clk 0%nat) (backoff policy attempt))
  end.

Definition labelOf (d : Delivery) (canceled : bool) (err : error) : string :=
  match eventOf canceled err with
  | EInterrupt => ResultInterrupted
  | EPostpone => ResultPostponed
  | EPermanent => ResultFailed
  | EFail => if maxAttempts (Name (DEnvelope d)) <=? Attempt (DEnvelope d)
             then ResultFailed else ResultRetried
  end.

(** The if-chain of [process] as one settlement. *)
Lemma settleRun_failed clk canceled d err (s : S) :
  settleRun registry clk false canceled d (Some err) s =
  let '(s, e) := settle (clk 1%nat) d (settlementOf clk d canceled err) s in
  (s, settled (labelOf d canceled err) e).
Proof using.
  unfold settleRun, settlementOf, labelOf, eventOf, maxAttempts, retry, postpone, giveUp.
  destruct canceled; [done|]. cbn [negb].
  destruct (IsPermanent (Some err)), (Is err ErrInProgress); simpl; try done.
  by destruct (_ <=? _).
Qed.

Lemma settleRun_Ok clk canceled d (s : S) :
  settleRun registry clk false canceled d None s =
  let '(s, e) := settle (clk 1%nat) d SAck s in (s, settled ResultSucceeded e).
Proof using. done. Qed.

(** A due time is never before the reading of the clock that stores it. *)
Lemma clampAt_max at_ now : 0 <= now -> clampAt at_ now = Z.max at_ now.
Proof using.
  intros Hn. unfold clampAt. destruct (IsZero at_) eqn:E1; breflect; cbn [orb]; [lia|].
  destruct (Before at_ now) eqn:E2; breflect; lia.
Qed.

(** What the queue keeps of a failure that was given up on. *)
Lemma given_up a e at_ now :
  exists f, settledTo now a (SBury (giveUpFailure at_ e)) = Buried a f /\ FError f = e /\
    (forall k, Classify (Some e) = Some k -> FKind f = k) /\
    FReason f = if IsPermanent (Some e) then ReasonPermanent else ReasonExhausted.
Proof using.
  cbn [settledTo]. eexists. split; [reflexivity|].
  destruct (IsZero _); unfold giveUpFailure; cbn; (split; [done|]; split; [by intros k ->|done]).
Qed.

(** ** Every outcome *)

(** C17. Settling a run the worker still holds the lease of: success removes the job; a run
    the shutdown interrupted waits again from now; a failure with attempts left waits for
    exactly the backoff of its policy and attempt; a run that lost a Once race waits as long
    without the attempt counted; and a permanent or last failure sets the job aside with its
    error, its kind and the reason. A due time that is already past is now. *)
Theorem run_outcome_settles clk canceled d err a t (s : S) :
  valid s -> DReceipt d <> "" -> status_of s (DKey d) = Leased a (DReceipt d) t -> 0 <= clk 1%nat ->
  let wait := backoff (RegistryOptions (Name (DEnvelope d)) registry) (Attempt (DEnvelope d)) in
  exists s' st result,
    settleRun registry clk false canceled d err s = (s', result) /\ valid s' /\
    moved status_of (DKey d) st s s' /\
    match err with
    | None => st = Gone /\ result = ResultSucceeded
    | Some e =>
        (st = Waiting a (Z.max (clk 0%nat) (clk 1%nat)) /\ canceled = true /\ result = ResultInterrupted) \/
        (st = Waiting a (Z.max (clk 0%nat + wait) (clk 1%nat)) /\
           canceled = false /\ IsPermanent err = false /\ Is e ErrInProgress = false /\
           Attempt (DEnvelope d) < maxAttempts (Name (DEnvelope d)) /\ result = ResultRetried) \/
        (st = Waiting (if 0 <? a then a - 1 else a) (Z.max (clk 0%nat + wait) (clk 1%nat)) /\
           canceled = false /\ IsPermanent err = false /\ Is e ErrInProgress = true /\
           result = ResultPostponed) \/
        (exists f, st = Buried a f /\ FError f = e /\ (forall k, Classify err = Some k -> FKind f = k) /\
           canceled = false /\ result = ResultFailed /\
           ((IsPermanent err = true /\ FReason f = ReasonPermanent) \/
            (IsPermanent err = false /\ Is e ErrInProgress = false /\
             maxAttempts (Name (DEnvelope d)) <= Attempt (DEnvelope d) /\
             FReason f = ReasonExhausted)))
    end.
Proof using.
  intros Hv Hr Hs Hclk wait. destruct err as [e|].
  - rewrite settleRun_failed.
    destruct (law_settle (clk 1%nat) d (settlementOf clk d canceled e) a t s Hv Hr Hs)
      as (s' & Hset & Hv' & Hm).
    rewrite Hset. do 3 eexists. split; [reflexivity|]. split; [done|]. split; [exact Hm|].
    clear Hset Hm. unfold settlementOf, labelOf, eventOf. fold wait. destruct canceled.
    { left. cbn [settledTo]. rewrite clampAt_max by done. unfold Add. by rewrite Z.add_0_r. }
    destruct (IsPermanent (Some e)) eqn:Ep; [do 3 right; destruct (given_up a e (clk 0%nat) (clk 1%nat)) as (f & -> & ? & ? & ?); rewrite Ep in *; by exists f; eauto 10|].
    destruct (Is e ErrInProgress) eqn:Ei.
    { right. right. left. cbn [settledTo]. by rewrite clampAt_max. }
    destruct (maxAttempts _ <=? _) eqn:Em; breflect.
    + do 3 right. destruct (given_up a e (clk 0%nat) (clk 1%nat)) as (f & -> & ? & ? & ?). rewrite Ep in *. exists f. eauto 10.
    + right. left. cbn [settledTo]. rewrite clampAt_max by done. by split_and!.
  - rewrite settleRun_Ok. destruct (law_settle (clk 1%nat) d SAck a t s Hv Hr Hs) as (s' & Hset & Hv' & Hm).
    rewrite Hset. do 3 eexists. split; [reflexivity|]. split; [done|]. split; [exact Hm|]. done.
Qed.

(** A worker that lost its lease does no harm: settling its run, however it ended, leaves
    the queue as it was and is reported as abandoned or unsettled. *)
Theorem lost_lease_changes_nothing clk lost canceled d err (s : S) :
  valid s -> (forall a t, status_of s (DKey d) <> Leased a (DReceipt d) t) ->
  exists result, settleRun registry clk lost canceled d err s = (s, result) /\
    (result = ResultAbandoned \/ result = ResultUnsettled).
Proof using.
  intros Hv Hs. destruct lost; [simpl; eauto|].
  assert (forall x label, exists result,
    (let '(s, e) := settle (clk 1%nat) d x s in (s, settled label e)) = (s, result) /\
    (result = ResultAbandoned \/ result = ResultUnsettled)) as Hx.
  { intros x label. destruct (law_settle_lost (clk 1%nat) d x s Hv Hs) as (e & -> & He).
    eexists. split; [reflexivity|]. simpl. destruct (Is e ErrLeaseLost); auto. }
  destruct err as [e|]; [rewrite settleRun_failed | rewrite settleRun_Ok]; apply Hx.
Qed.

(** ** Taking a delivery *)

Lemma reserve_valid clk uuid m m1 (s s1 : S) d :
  valid s -> uuid <> "" -> reserve registry opts clk uuid m s = (m1, s1, Ok d) ->
  valid s1 /\ qReserve (clk 0%nat) uuid (Queues opts) (Lease opts) s = (s1, Ok d).
Proof using.
  intros Hv Hu. unfold reserve. intros Hres.
  assert (qReserve (clk 0%nat) uuid (Queues opts) (Lease opts) s = (s1, Ok d)) as Hq.
  { repeat (case_match; simplify_eq/=; try done). }
  split; [|done]. by destruct (law_reserve _ _ _ _ _ _ _ Hv Hu Hq).
Qed.

(** A delivery [reserve] hands out is leased to it. *)
Lemma reserve_leases clk uuid m m1 (s s1 : S) d :
  valid s -> uuid <> "" -> reserve registry opts clk uuid m s = (m1, s1, Ok d) ->
  exists a, deliverable (clk 0%nat) a (DLeaseExpired d) (status_of s (DKey d)) /\
    Attempt (DEnvelope d) = wrap_int64 (a + 1) /\ DReceipt d = uuid /\
    status_of s1 (DKey d) = Leased (Attempt (DEnvelope d)) uuid (clk 0%nat + Lease opts).
Proof using.
  intros Hv Hu Hq%reserve_valid; [|done..]. destruct Hq as [_ Hq].
  destruct (law_reserve _ _ _ _ _ _ _ Hv Hu Hq) as (_ & Hrec & a & Hd & Ha & Hst & _). eauto.
Qed.

(** The worker runs only what it can: reserve hands out a job with a readable envelope,
    leased to it and within its attempts when an earlier lease ran out, and sets aside an
    undecodable job, or one whose leases expired too often, with the reason. *)
Theorem reserve_delivers_runnable clk uuid m (s : S) :
  valid s -> uuid <> "" ->
  exists m' s' res, reserve registry opts clk uuid m s = (m', s', res) /\
  ((exists e, qReserve (clk 0%nat) uuid (Queues opts) (Lease opts) s = (s', Err e) /\ res = Err e) \/
   exists s1 d a,
     qReserve (clk 0%nat) uuid (Queues opts) (Lease opts) s = (s1, Ok d) /\
     deliverable (clk 0%nat) a (DLeaseExpired d) (status_of s (DKey d)) /\
     Attempt (DEnvelope d) = wrap_int64 (a + 1) /\ valid s' /\
     ((res = Ok d /\ DErr d = None /\
       (DLeaseExpired d = true -> Attempt (DEnvelope d) <= maxAttempts (Name (DEnvelope d))) /\
       moved status_of (DKey d)
         (Leased (Attempt (DEnvelope d)) uuid (clk 0%nat + Lease opts)) s s') \/
      (res = Err (Sentinel errSetAside) /\ exists f,
       moved status_of (DKey d) (Buried (Attempt (DEnvelope d)) f) s s' /\
       ((FReason f = ReasonUndecodable /\ DErr d = Some (FError f)) \/
        (FReason f = ReasonExhausted /\ DLeaseExpired d = true /\
         maxAttempts (Name (DEnvelope d)) < Attempt (DEnvelope d)))))).
Proof using.
  intros Hv Hu. unfold reserve.
  destruct (qReserve _ _ _ _ s) as [s1 [d|e]] eqn:Eres.
  2: { do 3 eexists. split; [reflexivity|]. left. eauto. }
  destruct (law_reserve _ _ _ _ _ _ _ Hv Hu Eres) as (Hv1 & Hrec & a & Hd & Ha & Hst & Hoth).
  assert (forall t f, exists s2, qBury t d f s1 = (s2, None) /\ valid s2 /\
    moved status_of (DKey d) (Buried (Attempt (DEnvelope d)) (if IsZero (FAt f) then setAt t f else f)) s s2)
    as Hbury.
  { intros t f. rewrite <- Hrec in Hst, Hu.
    destruct (law_settle t d (SBury f) _ _ s1 Hv1 Hu Hst) as (s2 & Hb & Hv2 & Hk & Hk').
    exists s2. split; [done|]. split; [done|]. split; [done|]. intros k' Hne. by rewrite Hk', Hoth. }
  destruct (DErr d) as [err|] eqn:Eerr.
  - destruct (Hbury (clk 2%nat) (mkFailure ReasonUndecodable KindDecode err (clk 1%nat)))
      as (s2 & -> & Hv2 & Hm).
    do 3 eexists. split; [reflexivity|]. right. exists s1, d, a. do 4 (split; [done|]).
    right. split; [done|]. eexists. split; [exact Hm|]. left. by destruct (IsZero _).
  - destruct (DLeaseExpired d) eqn:Eexp; simpl.
    + destruct (Attempt (DEnvelope d) <=? _) eqn:Em; breflect.
      * do 3 eexists. split; [reflexivity|]. right. exists s1, d, a. rewrite Eexp, Eerr.
        do 4 (split; [done|]). left. do 2 (split; [done|]). split; [by intros | by split].
      * unfold giveUp.
        match goal with |- context [qBury ?t d ?f s1] =>
          destruct (Hbury t f) as (s2 & -> & Hv2 & Hm) end.
        do 3 eexists. split; [reflexivity|]. right. exists s1, d, a. rewrite Eexp.
        do 4 (split; [done|]). right. split; [done|]. eexists. split; [exact Hm|]. right.
        by destruct (IsZero _).
    + do 3 eexists. split; [reflexivity|]. right. exists s1, d, a. rewrite Eexp, Eerr.
        do 4 (split; [done|]). left. do 2 (split; [done|]). split; [by intros | by split].
Qed.

(** ** A job's life over many deliveries *)

Section Life.
Context (k : string * string) (name : string).

(** One delivery of the job under [k], from the reserve to the settlement,
    whose run fails; the run leaves the job's lease alone. *)
Inductive attempt_step : event -> S -> S -> Prop :=
| attempt_failed clk clk' uuid ctx canceled d m m1 m2 err label s s1 s2 s' :
    uuid <> "" -> reserve registry opts clk uuid m s = (m1, s1, Ok d) ->
    DKey d = k -> Name (DEnvelope d) = name ->
    Run ctx (DEnvelope d) registry s1 = (s2, Some err) ->
    valid s2 -> status_of s2 k = status_of s1 k ->
    process registry clk' false canceled ctx d m1 s1 = (m2, s', label) ->
    attempt_step (eventOf canceled err) s s'.

(** A history of the job: deliveries, latest first, with anything in between
    that leaves it alone. *)
Inductive history : list event -> S -> S -> Prop :=
| history_nil s : history [] s s
| history_other l s s1 s' :
    history l s s1 -> valid s' -> status_of s' k = status_of s1 k -> history l s s'
| history_attempt ev l s s1 s' :
    history l s s1 -> attempt_step ev s1 s' -> history (ev :: l) s s'.

(** The deliveries that count as attempts. *)
Fixpoint counted (l : list event) : Z :=
  match l with
  | [] => 0
  | EPostpone :: l => counted l
  | _ :: l => 1 + counted l
  end.

Lemma counted_bounds l : 0 <= counted l <= Z.of_nat (length l).
Proof using. induction l as [|[] l IH]; simpl counted; simpl length; lia. Qed.

(** One delivery of a waiting job. *)
Lemma attempt_step_spec ev s s' a at_ :
  valid s -> 0 <= a < max_int64 -> status_of s k = Waiting a at_ -> attempt_step ev s s' ->
  valid s' /\
  match ev with
  | EInterrupt => exists at_, status_of s' k = Waiting (a + 1) at_
  | EPostpone => exists at_, status_of s' k = Waiting a at_
  | EFail => if maxAttempts name <=? a + 1
             then exists f, status_of s' k = Buried (a + 1) f /\ FReason f = ReasonExhausted
             else exists at_, status_of s' k = Waiting (a + 1) at_
  | EPermanent => exists f, status_of s' k = Buried (a + 1) f /\ FReason f = ReasonPermanent
  end.
Proof using.
  intros Hv Ha Hst Hstep. destruct Hstep as [clk clk' uuid ctx canceled d m m1 m2 err label s s1 s2 s'
    Hu Hres Hk Hname Hrun Hv2 Hkeep Hproc].
  destruct (reserve_leases clk uuid m m1 s s1 d Hv Hu Hres) as (a' & Hd & Hatt & Hrec & Hst1).
  rewrite Hk, Hst in Hd. assert (a' = a) as ->.
  { unfold deliverable in Hd. destruct (DLeaseExpired d); naive_solver. }
  rewrite wrap_int64_id in Hatt by (unfold in_int64, min_int64; lia).
  rewrite Hk, Hatt, <- Hrec in Hst1. rewrite Hst1, <- Hk in Hkeep.
  unfold process in Hproc. rewrite Hrun, settleRun_failed in Hproc.
  match type of Hproc with context [settle ?t d ?x s2] =>
    destruct (law_settle t d x (a + 1) _ s2 Hv2 ltac:(congruence) Hkeep) as (s3 & Hs3 & Hv3 & Hk3 & _);
    rewrite Hs3 in Hproc; simplify_eq end.
  split; [done|]. revert Hk3. unfold settlementOf, eventOf. rewrite Hatt.
  replace (0 <? a + 1) with true in * by (symmetry; apply Z.ltb_lt; lia).
  destruct canceled; [simpl; by eauto|].
  destruct (IsPermanent (Some err)) eqn:Ep.
  { simpl. intros ->. eexists. split; [reflexivity|]. unfold giveUpFailure. rewrite Ep. by destruct (IsZero _). }
  destruct (Is err ErrInProgress); simpl.
  { replace (0 <? a + 1) with true by (symmetry; apply Z.ltb_lt; lia).
    replace (a + 1 - 1) with a by lia. eauto. }
  destruct (maxAttempts _ <=? a + 1); simpl; [|by eauto].
  intros ->. eexists. split; [reflexivity|]. unfold giveUpFailure. rewrite Ep. by destruct (IsZero _).
Qed.

(** Only a waiting job is delivered (here), so a buried one stays. *)
Lemma attempt_step_buried ev s s' a f :
  valid s -> status_of s k = Buried a f -> ~ attempt_step ev s s'.
Proof using.
  intros Hv Hst Hstep. destruct Hstep as [clk clk' uuid ctx canceled d m m1 m2 err label s s1 s2 s'
    Hu Hres Hk Hname Hrun Hv2 Hkeep Hproc].
  destruct (reserve_leases clk uuid m m1 s s1 d Hv Hu Hres) as (a' & Hd & _).
  rewrite Hk, Hst in Hd. unfold deliverable in Hd. destruct (DLeaseExpired d); naive_solver.
Qed.

(** Where a history of failed deliveries leaves a job that waited with no
    attempt counted. *)
Lemma history_status l s s' at_ :
  valid s -> status_of s k = Waiting 0 at_ -> Z.of_nat (length l) < max_int64 -> history l s s' ->
  valid s' /\
  ((exists at_, status_of s' k = Waiting (counted l) at_) /\ (EPermanent ∉ l) /\
     (forall l1 l2, l = l1 ++ EFail :: l2 -> counted (EFail :: l2) < maxAttempts name) \/
   exists f l', status_of s' k = Buried (counted l) f /\
     (l = EPermanent :: l' /\ FReason f = ReasonPermanent \/
      l = EFail :: l' /\ FReason f = ReasonExhausted /\ maxAttempts name <= counted l) /\
     (EPermanent ∉ l') /\
     (forall l1 l2, l' = l1 ++ EFail :: l2 -> counted (EFail :: l2) < maxAttempts name)).
Proof using.
  intros Hv Hst Hlen Hh. revert Hlen. induction Hh as [s|l s s1 s' Hh IH Hv' Heq|ev l s s1 s' Hh IH Hstep];
    intros Hlen.
  - split; [done|]. left. split; [by eauto|]. split; [apply not_elem_of_nil|].
    intros [|? l1] l2 E; discriminate E.
  - destruct (IH Hv Hst Hlen) as [_ Hc]. split; [done|]. rewrite Heq. exact Hc.
  - simpl length in Hlen. destruct (IH Hv Hst ltac:(lia)) as [Hv1 [([at1 Hw] & Hp & Hf)|Hb]].
    2: { destruct Hb as (f & l' & Hb & _). by apply (attempt_step_buried _ _ _ _ _ Hv1 Hb) in Hstep. }
    pose proof (counted_bounds l).
    destruct (attempt_step_spec ev s1 s' (counted l) at1 Hv1 ltac:(lia) Hw Hstep) as [Hv' Hev].
    split; [done|]. destruct ev.
    + left. simpl counted. rewrite Z.add_comm. split; [done|]. split; [set_solver|].
      intros [|? l1] l2 E; simplify_eq/=. by apply (Hf l1 l2).
    + left. simpl counted. split; [done|]. split; [set_solver|].
      intros [|? l1] l2 E; simplify_eq/=. by apply (Hf l1 l2).
    + destruct (maxAttempts name <=? counted l + 1) eqn:Em; breflect.
      * right. destruct Hev as (f & Hb & Hr). exists f, l. simpl counted. rewrite Z.add_comm.
        split; [done|]. split; [right; split; [done|split; [done|lia]]|]. done.
      * left. simpl counted. rewrite (Z.add_comm 1). split; [done|]. split; [set_solver|].
        intros [|? l1] l2 E; simplify_eq/=; [lia|]. by apply (Hf l1 l2).
    + right. destruct Hev as (f & Hb & Hr). exists f, l. simpl counted. rewrite Z.add_comm.
      split; [done|]. split; [by left|]. done.
Qed.
Lemma counted_fail n : counted (replicate n EFail) = Z.of_nat n.
Proof using. induction n as [|n IH]; [done|]. simpl replicate. simpl counted. lia. Qed.

(** C16. A job whose every run fails is delivered at most MaxAttempts times: after fewer
    failed deliveries it waits for the next with the attempts counted, and the delivery that
    reaches the maximum sets it aside as exhausted, whatever happens to other jobs in
    between and on any queue that keeps the contract. *)
Theorem failing_job_attempts n s s' at_ :
  valid s -> status_of s k = Waiting 0 at_ -> 1 <= maxAttempts name ->
  Z.of_nat n < max_int64 -> history (replicate n EFail) s s' ->
  Z.of_nat n <= maxAttempts name /\
  (Z.of_nat n < maxAttempts name -> exists at_, status_of s' k = Waiting (Z.of_nat n) at_) /\
  (Z.of_nat n = maxAttempts name ->
     exists f, status_of s' k = Buried (maxAttempts name) f /\ FReason f = ReasonExhausted).
Proof using.
  intros Hv Hst Hmax Hn Hh.
  destruct (history_status (replicate n EFail) _ _ _ Hv Hst ltac:(rewrite length_replicate; lia) Hh)
    as [_ [(Hw & _ & Hf)|(f & l' & Hb & Hl & _ & Hf)]]; rewrite counted_fail in *.
  - destruct n as [|n]; [repeat split; auto with lia|].
    specialize (Hf [] (replicate n EFail) eq_refl). simpl counted in Hf. rewrite counted_fail in Hf.
    repeat split; auto with lia.
  - destruct n as [|n]; [naive_solver|]. simpl replicate in Hl.
    destruct Hl as [[E _]|(E & Hr & Hm)]; simplify_eq.
    assert (Z.of_nat (Datatypes.S n) <= maxAttempts name) as Hle.
    { destruct n as [|n]; [lia|]. specialize (Hf [] (replicate n EFail) eq_refl).
      simpl counted in Hf. rewrite counted_fail in Hf. lia. }
    assert (Z.of_nat (Datatypes.S n) = maxAttempts name) as Heq by lia.
    split; [lia|]. split; [lia|]. intros _. rewrite <- Heq. eauto.
Qed.

(** Shutdowns and lost Once races never use a job up: a job only interrupted or postponed,
    however often, is still waiting, and a postponed delivery counts no attempt. *)
Theorem interruptions_never_bury l s s' at_ :
  valid s -> status_of s k = Waiting 0 at_ -> Z.of_nat (length l) < max_int64 ->
  Forall (fun ev => ev = EInterrupt \/ ev = EPostpone) l -> history l s s' ->
  exists at_, status_of s' k = Waiting (counted l) at_.
Proof using.
  intros Hv Hst Hn Hl Hh.
  destruct (history_status _ _ _ _ Hv Hst Hn Hh) as [_ [(Hw & _)|(f & l' & _ & Hb & _)]]; [done|].
  exfalso. destruct Hb as [[-> _]|(-> & _)]; inversion Hl; naive_solver.
Qed.

(** The delivery [reserve] hands out, processed to its end. *)
Definition cycle clk clk' uuid canceled ctx m (s : S) : Metrics * S * option Delivery :=
  match reserve registry opts clk uuid m s with
  | (m, s, Ok d) =>
      let '(m, s, _) := process registry clk' false canceled ctx d m s in (m, s, Some d)
  | (m, s, Err _) => (m, s, None)
  end.

Lemma cycle_attempt clk clk' uuid canceled ctx m s m' s' d err :
  valid s -> uuid <> "" -> cycle clk clk' uuid canceled ctx m s = (m', s', Some d) ->
  DKey d = k -> Name (DEnvelope d) = name ->
  (forall s, Run ctx (DEnvelope d) registry s = (s, Some err)) ->
  valid s' /\ attempt_step (eventOf canceled err) s s'.
Proof using.
  intros Hv Hu Hc Hk Hname Hrun. unfold cycle in Hc.
  destruct (reserve _ _ _ _ m s) as [[m1 s1] [d1|]] eqn:Eres; [|done].
  destruct (process _ _ _ _ _ _ m1 s1) as [[m2 s2] label] eqn:Ep. simplify_eq.
  destruct (reserve_valid clk uuid m m1 s s1 d Hv Hu Eres) as [Hv1 Hq].
  split; [|by eapply attempt_failed].
  unfold process in Ep. rewrite Hrun, settleRun_failed in Ep.
  destruct (reserve_leases _ _ _ _ _ _ _ Hv Hu Eres) as (a & _ & _ & Hrec & Hst).
  rewrite <- Hrec in Hst, Hu.
  match type of Ep with context [settle ?t d ?x s1] =>
    destruct (law_settle t d x _ _ s1 Hv1 Hu Hst) as (s3 & Hs3 & Hv3 & _);
    rewrite Hs3 in Ep; by simplify_eq end.
Qed.
End Life.
End Facts.

(** ** Witnesses *)

(** A handler that always fails, under a policy of two attempts. *)
Definition failing_registry : Registry unit MemoryQueue :=
  (Register (mkJobType "mail.Welcome" true "mail:welcome" false None None false)
     (fun p => Value (Ok p))
     (Some (fun _ (_ : string) s => (s, (Returned (Some (Text "smtp down")), None))))
     [WithOptions (mkOptions 2 0 (Some (Constant Second)))] (NewRegistry [])).1.

Definition worker_options : WorkerOptions := mkWorkerOptions ["default"] 1 Minute Second Minute.

Definition mail_env : Envelope := mkEnvelope "a" "mail:welcome" 1 "{}" ∅ 5 0.
Definition mail_queue : MemoryQueue := (Push (fun _ => 100) "default" mail_env 0 NewMemoryQueue).1.
Definition mail_key : string * string := ("default", "a").

Lemma mail_queue_valid : valid mail_queue.
Proof.
  apply (wf_memory_valid 1), (wf_run [OPush (fun _ => 100) "default" mail_env 0]);
    [solve_op_ok | vm_compute; discriminate].
Qed.

Lemma failing_run s d :
  Name (DEnvelope d) = "mail:welcome" -> ID (DEnvelope d) = "a" -> Version (DEnvelope d) = 1 ->
  Payload (DEnvelope d) = "{}" -> Metadata (DEnvelope d) = ∅ ->
  Run tt (DEnvelope d) failing_registry s =
    (s, Some (JobError KindHandler "mail:welcome" 1 (Some (Text "smtp down")))).
Proof.
  destruct d as [dq [id nm v p md eq at_] r le av er]; simpl. intros -> -> -> -> ->. reflexivity.
Qed.

Definition mail_cycle (now : time) (uuid : string) (canceled : bool) (s : MemoryQueue) :=
  cycle failing_registry worker_options (fun _ => now) (fun _ => now) uuid canceled tt NewMetrics s.

(** A worker cycle on a queue whose next delivery is the mail job. *)
Lemma mail_attempt now uuid canceled s d :
  valid s -> uuid <> "" -> (mail_cycle now uuid canceled s).2 = Some d ->
  DKey d = mail_key -> DEnvelope d = setAttempt (Attempt (DEnvelope d)) mail_env ->
  valid (mail_cycle now uuid canceled s).1.2 /\
  attempt_step failing_registry worker_options mail_key "mail:welcome"
    (if canceled then EInterrupt else EFail) s (mail_cycle now uuid canceled s).1.2.
Proof.
  intros Hv Hu Hd Hk He.
  assert (mail_cycle now uuid canceled s =
    ((mail_cycle now uuid canceled s).1.1, (mail_cycle now uuid canceled s).1.2, Some d)) as Hc.
  { rewrite <- Hd. by destruct (mail_cycle now uuid canceled s) as [[? ?] ?]. }
  pose proof (cycle_attempt failing_registry worker_options mail_key "mail:welcome" _ _ _ _ _ _ _ _ _ _
    (JobError KindHandler "mail:welcome" 1 (Some (Text "smtp down"))) Hv Hu Hc Hk) as H.
  destruct H as [Hv' Hs]; [by rewrite He | intros s'; apply failing_run; by rewrite He|].
  split; [done|]. by destruct canceled.
Qed.

Definition mail_queue1 : MemoryQueue := (mail_cycle 200 "r1" false mail_queue).1.2.
Definition mail_queue2 : MemoryQueue := (mail_cycle (2 * Second) "r2" false mail_queue1).1.2.

Lemma mail_attempt1 :
  valid mail_queue1 /\
  attempt_step failing_registry worker_options mail_key "mail:welcome" EFail mail_queue mail_queue1.
Proof.
  eapply (mail_attempt 200 "r1" false);
    [apply mail_queue_valid | discriminate | vm_compute; reflexivity | reflexivity | reflexivity].
Qed.

Lemma mail_attempt2 :
  attempt_step failing_registry worker_options mail_key "mail:welcome" EFail mail_queue1 mail_queue2.
Proof.
  eapply (mail_attempt (2 * Second) "r2" false);
    [apply mail_attempt1 | discriminate | vm_compute; reflexivity | reflexivity | reflexivity].
Qed.

Lemma failing_job_attempts_witness :
  exists f, status_of mail_queue2 mail_key = Buried 2 f /\ FReason f = ReasonExhausted.
Proof.
  apply (failing_job_attempts failing_registry worker_options mail_key "mail:welcome" 2
    mail_queue mail_queue2 100 mail_queue_valid);
    [vm_compute; reflexivity | vm_compute; discriminate | reflexivity | | vm_compute; reflexivity].
  eapply history_attempt; [|apply mail_attempt2].
  eapply history_attempt; [apply history_nil | apply mail_attempt1].
Defined.

Definition mail_interrupted : MemoryQueue := (mail_cycle 200 "r1" true mail_queue).1.2.

Lemma interruptions_never_bury_witness :
  exists at_, status_of mail_interrupted mail_key = Waiting 1 at_.
Proof.
  apply (interruptions_never_bury failing_registry worker_options mail_key "mail:welcome"
    [EInterrupt] mail_queue mail_interrupted 100 mail_queue_valid);
    [vm_compute; reflexivity | reflexivity | repeat constructor | ].
  eapply history_attempt; [apply history_nil|].
  eapply (mail_attempt 200 "r1" true);
    [apply mail_queue_valid | discriminate | vm_compute; reflexivity | reflexivity | reflexivity].
Defined.

Definition mail_reserved := reserve failing_registry worker_options (fun _ => 200) "r1" NewMetrics mail_queue.

Definition mail_delivery : Delivery :=
  mkDelivery "default" (setAttempt 1 mail_env) "r1" false 100 None.

Lemma mail_reserved_eq : mail_reserved = (NewMetrics, mail_reserved.1.2, Ok mail_delivery).
Proof. vm_compute. reflexivity. Qed.

Lemma mail_reserved_valid : valid mail_reserved.1.2.
Proof.
  apply (reserve_valid failing_registry worker_options (fun _ => 200) "r1" NewMetrics NewMetrics
    mail_queue _ mail_delivery mail_queue_valid); [discriminate | apply mail_reserved_eq].
Qed.

Lemma run_outcome_settles_witness :
  exists s' result,
    settleRun failing_registry (fun _ => 300) false false mail_delivery None mail_reserved.1.2
    = (s', result) /\ status_of s' mail_key = Gone.
Proof.
  destruct (run_outcome_settles failing_registry (fun _ => 300) false mail_delivery None 1
    (200 + Minute) mail_reserved.1.2 mail_reserved_valid ltac:(discriminate)
    ltac:(vm_compute; reflexivity) ltac:(lia)) as (s' & st & result & Hs & _ & [Hm _] & -> & _).
  exists s', result. split; [exact Hs | exact Hm].
Defined.

Lemma lost_lease_changes_nothing_witness :
  exists result,
    settleRun failing_registry (fun _ => 300) false false mail_delivery None mail_queue
    = (mail_queue, result).
Proof.
  destruct (lost_lease_changes_nothing failing_registry (fun _ => 300) false false mail_delivery None
    mail_queue mail_queue_valid ltac:(intros a t; vm_compute; discriminate)) as (result & Hs & _).
  exists result. exact Hs.
Defined.

Lemma reserve_delivers_runnable_witness :
  exists m' s' res,
    reserve failing_registry worker_options (fun _ => 200) "r1" NewMetrics mail_queue = (m', s', res).
Proof.
  destruct (reserve_delivers_runnable failing_registry worker_options (fun _ => 200) "r1" NewMetrics
    mail_queue mail_queue_valid ltac:(discriminate)) as (m' & s' & res & Hr & _).
  exists m', s', res. exact Hr.
Defined.
