(* ===== verification/JobsWorkerLoop.v ===== *)
(** * jobs/worker.go: lease renewal and the Run loop

    [Run] as a step relation: the loop's own control flow, the goroutines it
    starts (each one [process] call), the cancellation of its context and the
    two timeouts of [shutdown].  Its steps interleave in any order. *)

From stdpp Require Import base tactics numbers list strings gmap fin_maps.
From Stdlib Require Import ZArith Lia.
From S2P Require Import Prelude JobsTypes JobsPolicy JobsMemory JobsRegistry JobsMetrics JobsQueueIface JobsWorker JobsWorkerFacts.

Local Open Scope string_scope.
Local Open Scope list_scope.
Local Open Scope Z_scope.

(** ** Renewal *)

Section Renewal.
Context {S : Type} `{QueueLaws S}.
Context (opts : WorkerOptions) (Hlease : 0 < Lease opts).

(** What happens to the queue between two ticks leaves the delivery's job
    alone. *)
Definition leaves_alone (k : string * string) (between : nat -> S -> S) : Prop :=
  forall i s, valid s -> valid (between i s) /\ status_of (between i s) k = status_of s k.

(** The deadline after the ticks. *)
Definition renewedUntil (t : time) (ticks : list time) : time :=
  match last ticks with Some now => now + Lease opts | None => t end.

(** Renewing keeps the lease: through any number of renewals the job stays leased to the
    worker's receipt, until the lease length after the last of them, and the renewal loop
    reports no loss. *)
Theorem renewal_keeps_lease d ticks : forall between a t (s : S),
  leaves_alone (DKey d) between -> valid s -> DReceipt d <> "" ->
  status_of s (DKey d) = Leased a (DReceipt d) t ->
  exists s', renewals opts d ticks between s = (s', false) /\ valid s' /\
    status_of s' (DKey d) = Leased a (DReceipt d) (renewedUntil t ticks).
Proof using Hlease.
  induction ticks as [|now ticks IH]; intros between a t s Hb Hv Hr Hs; simpl; [by eauto|].
  destruct (law_extend now d (Lease opts) a t s Hv Hlease Hr Hs) as (s1 & -> & Hv1 & Hs1 & _).
  destruct (Hb 0%nat s1 Hv1) as [Hv2 Hs2]. rewrite Hs1 in Hs2.
  destruct (IH (fun i => between (1 + i)%nat) a (now + Lease opts) (between 0%nat s1))
    as (s' & Hren & Hv' & Hs'); [intros i s0; apply Hb | done | done | done|].
  exists s'. split; [done|]. split; [done|]. rewrite Hs'. f_equal.
  unfold renewedUntil. destruct ticks as [|x ticks]; [done|].
  rewrite !last_cons. by destruct (last ticks).
Qed.

(** A renewal of a lost lease is reported, unless the queue is closed. *)
Theorem renewal_detects_loss d now ticks between (s : S) :
  valid s -> (forall a t, status_of s (DKey d) <> Leased a (DReceipt d) t) ->
  renewals opts d (now :: ticks) between s = (s, true) \/
  qExtend now d (Lease opts) s = (s, Some (Sentinel ErrClosed)) /\
  renewals opts d (now :: ticks) between s = (s, false).
Proof using Hlease.
  intros Hv Hs. destruct (law_extend_lost now d (Lease opts) s Hv Hlease Hs) as (e & He & Hk).
  simpl. rewrite He. destruct Hk as [->|Hk]; [by right|]. rewrite Hk. by left.
Qed.
End Renewal.

(** ** The loop *)

Section Loop.
Context {C S : Type} `{Queue S}.
Context (registry : Registry C S) (opts : WorkerOptions).

(** Where the loop is.  A slot of the channel is held from [PSlot] to the next
    [PSelect]. *)
Inductive phase : Type :=
| PSelect                                   (* select on ctx.Done and a slot *)
| PSlot                                     (* a slot taken; checks ctx.Err *)
| PReserve                                  (* calls reserve *)
| PReserved (res : result error Delivery)   (* reserve returned *)
| PWait (wait : duration)                   (* sleeps before looking again *)
| PShutdown                                 (* shutdown waits for the goroutines *)
| PStopped (err : option error).            (* Run returned *)

(** [l_running] are the goroutines; [l_stop] is ctx.Err() != nil, [l_canceled]
    whether cancelJobs was called.  [l_reserved] and [l_handled] record, for the
    statements below, the deliveries reserve handed the loop and those it is
    done with. *)
Record loop : Type := mkLoop {
  l_phase : phase;
  l_running : list Delivery;
  l_failures : Z;
  l_stop : bool;
  l_canceled : bool;
  l_metrics : Metrics;
  l_queue : S;
  l_reserved : list Delivery;
  l_handled : list Delivery
}.

Definition set_phase (p : phase) (l : loop) : loop :=
  mkLoop p (l_running l) (l_failures l) (l_stop l) (l_canceled l) (l_metrics l) (l_queue l)
    (l_reserved l) (l_handled l).

(** The wait after a failed reserve, and the failures counted. *)
Definition reserveFailed (e : error) (failures : Z) : duration * Z :=
  if Is e ErrNoJob then (PollInterval opts, 0)
  else let failures := wrap_int64 (failures + 1) in
       (reserveBackoff (PollInterval opts) failures, failures).

Definition setAside (e : error) : bool := Is e errSetAside || Is e errNotSetAside.

(** The slots in use: a goroutine each, and the loop's own. *)
Definition slots (l : loop) : Z :=
  Z.of_nat (length (l_running l)) +
  match l_phase l with PSlot | PReserve | PReserved _ => 1 | _ => 0 end.

Inductive step : loop -> loop -> Prop :=
(* the context is canceled, at any time *)
| step_cancel l :
    step l (mkLoop (l_phase l) (l_running l) (l_failures l) true (l_canceled l) (l_metrics l)
              (l_queue l) (l_reserved l) (l_handled l))
(* select: ctx.Done, or a free slot *)
| step_select_stop l : l_phase l = PSelect -> l_stop l = true -> step l (set_phase PShutdown l)
| step_select_slot l :
    l_phase l = PSelect -> slots l < Concurrency opts -> step l (set_phase PSlot l)
(* ctx.Err after the slot *)
| step_slot_stop l : l_phase l = PSlot -> l_stop l = true -> step l (set_phase PShutdown l)
| step_slot_go l : l_phase l = PSlot -> l_stop l = false -> step l (set_phase PReserve l)
| step_reserve l clk uuid m s res :
    l_phase l = PReserve ->
    reserve registry opts clk uuid (l_metrics l) (l_queue l) = (m, s, res) ->
    step l (mkLoop (PReserved res) (l_running l) (l_failures l) (l_stop l) (l_canceled l) m s
              (match res with Ok d => d :: l_reserved l | Err _ => l_reserved l end) (l_handled l))
(* ctx.Err after the reserve: a delivery is handed back, not run *)
| step_reserved_stop l res now :
    l_phase l = PReserved res -> l_stop l = true ->
    step l (match res with
            | Ok d => mkLoop PShutdown (l_running l) (l_failures l) (l_stop l) (l_canceled l)
                        (l_metrics l) (qRelease now d now (l_queue l)).1 (l_reserved l)
                        (d :: l_handled l)
            | Err _ => set_phase PShutdown l
            end)
| step_set_aside l e :
    l_phase l = PReserved (Err e) -> l_stop l = false -> setAside e = true ->
    step l (set_phase PSelect l)
| step_reserve_failed l e :
    l_phase l = PReserved (Err e) -> l_stop l = false -> setAside e = false ->
    step l (mkLoop (PWait (reserveFailed e (l_failures l)).1) (l_running l)
              (reserveFailed e (l_failures l)).2 (l_stop l) (l_canceled l) (l_metrics l)
              (l_queue l) (l_reserved l) (l_handled l))
| step_waited l w : l_phase l = PWait w -> step l (set_phase PSelect l)
(* a goroutine starts *)
| step_start l d :
    l_phase l = PReserved (Ok d) -> l_stop l = false ->
    step l (mkLoop PSelect (d :: l_running l) 0 (l_stop l) (l_canceled l) (l_metrics l)
              (l_queue l) (l_reserved l) (l_handled l))
(* a goroutine ends; its run can only have been canceled after cancelJobs *)
| step_finish l clk lost canceled ctx d running1 running2 m s label :
    l_running l = running1 ++ d :: running2 ->
    (canceled = true -> l_canceled l = true \/ lost = true) ->
    process registry clk lost canceled ctx d (l_metrics l) (l_queue l) = (m, s, label) ->
    step l (mkLoop (l_phase l) (running1 ++ running2) (l_failures l) (l_stop l) (l_canceled l) m s
              (l_reserved l) (d :: l_handled l))
(* shutdown: every goroutine ended, the timeout, the grace *)
| step_stopped l :
    l_phase l = PShutdown -> l_running l = [] -> step l (set_phase (PStopped None) l)
| step_timeout l :
    l_phase l = PShutdown -> l_canceled l = false ->
    step l (mkLoop PShutdown (l_running l) (l_failures l) (l_stop l) true (l_metrics l) (l_queue l)
              (l_reserved l) (l_handled l))
| step_grace l :
    l_phase l = PShutdown -> l_canceled l = true ->
    step l (set_phase (PStopped (Some (Text "in-flight jobs ignored cancellation"))) l)
(* other processes use the queue *)
| step_other l s :
    step l (mkLoop (l_phase l) (l_running l) (l_failures l) (l_stop l) (l_canceled l) (l_metrics l)
              s (l_reserved l) (l_handled l)).

Definition loop_init (m : Metrics) (s : S) : loop := mkLoop PSelect [] 0 false false m s [] [].

Inductive steps : loop -> loop -> Prop :=
| steps_refl l : steps l l
| steps_snoc l l1 l2 : steps l l1 -> step l1 l2 -> steps l l2.

(** The delivery between reserve and its goroutine. *)
Definition pending (p : phase) : list Delivery :=
  match p with PReserved (Ok d) => [d] | _ => [] end.

Definition shutting_down (p : phase) : bool :=
  match p with PShutdown | PStopped _ => true | _ => false end.

Record loop_ok (l : loop) : Prop := mkLoopOk {
  lo_slots : slots l <= Concurrency opts;
  lo_reserved : l_reserved l ≡ₚ pending (l_phase l) ++ l_running l ++ l_handled l;
  lo_shutdown : shutting_down (l_phase l) = true -> l_stop l = true;
  lo_canceled : l_canceled l = true -> shutting_down (l_phase l) = true;
  lo_stopped : l_phase l = PStopped None -> l_running l = []
}.

Lemma loop_ok_init m s : 0 <= Concurrency opts -> loop_ok (loop_init m s).
Proof using. split; simpl; done. Qed.

Lemma loop_ok_step l l' : loop_ok l -> step l l' -> loop_ok l'.
Proof using.
  intros [Hs Hr Hd Hc Hp] Hstep.
  destruct Hstep; unfold slots, set_phase in *; simpl in *;
    repeat match goal with H : l_phase _ = _ |- _ => rewrite H in * end; simpl in *;
    try (split; unfold slots; simpl; auto; try done; try lia; try congruence; fail).
  - destruct res as [d|e]; split; unfold slots; simpl; auto; congruence.
  - destruct res as [d|e]; split; unfold slots; simpl; auto; try lia; try congruence.
    rewrite Hr. simpl. apply Permutation_middle.
  - match goal with E : l_running l = _ |- _ => rewrite E in * end.
    rewrite !length_app in *. simpl in *.
    split; unfold slots; simpl; rewrite ?length_app; auto; try lia.
    + rewrite Hr. apply Permutation_app_head. rewrite <- !app_assoc. simpl.
      by rewrite !Permutation_middle.
    + intros E. destruct running1; specialize (Hp E); discriminate Hp.
Qed.

Lemma loop_ok_steps l l' : loop_ok l -> steps l l' -> loop_ok l'.
Proof using. induction 2; eauto using loop_ok_step. Qed.

(** In shutdown the loop reserves nothing and starts nothing. *)
Lemma shutdown_step l l' :
  shutting_down (l_phase l) = true -> step l l' ->
  shutting_down (l_phase l') = true /\ l_reserved l' = l_reserved l /\
  forall d, d ∈ l_running l' -> d ∈ l_running l.
Proof using.
  intros Hsd Hstep. destruct Hstep; simpl in *;
    repeat match goal with H : l_phase _ = _ |- _ => rewrite H in * end; simpl in *; try done.
  split; [done|]. split; [done|].
  match goal with E : l_running l = _ |- _ => rewrite E end.
  intros d'. rewrite !elem_of_app, elem_of_cons. tauto.
Qed.
End Loop.

(** What [NewWorker] checks and fills in. *)
Lemma NewWorker_Ok rn qn o opts :
  NewWorker rn qn o = Ok opts ->
  Queues opts = Queues o /\ Queues opts <> [] /\ first_invalid (Queues opts) = None /\
  1 <= Concurrency opts /\ 0 < Lease opts /\ 0 < PollInterval opts /\ 0 < ShutdownTimeout opts.
Proof.
  unfold NewWorker. destruct rn; [done|]. destruct qn; [done|].
  destruct (Queues o) as [|q0 qs] eqn:Eq; [done|]. destruct (first_invalid _) eqn:Ei; [done|].
  destruct (_ || _) eqn:E; [done|]. intros [= <-]. breflect. simpl.
  repeat split; try done;
    unfold orDefault, DefaultLease, DefaultPollInterval, DefaultShutdownTimeout, Minute, Second;
    destruct (_ =? 0) eqn:?; breflect; lia.
Qed.

Section LoopClaims.
Context {C S : Type} `{Queue S} (registry : Registry C S).

(** In every state of a worker's loop at most Concurrency jobs run, every delivery reserved
    is exactly once pending, running or dealt with, jobs are canceled only after the worker
    was told to stop, and a worker that stopped in time has dealt with all of them. *)
Theorem worker_loop_invariant rn qn o opts m (s : S) l :
  NewWorker rn qn o = Ok opts -> steps registry opts (loop_init m s) l ->
  Z.of_nat (length (l_running l)) <= Concurrency opts /\
  l_reserved l ≡ₚ pending (l_phase l) ++ l_running l ++ l_handled l /\
  (l_canceled l = true -> l_stop l = true) /\
  (l_phase l = PStopped None -> l_reserved l ≡ₚ l_handled l).
Proof using.
  intros (_ & _ & _ & Hc & _)%NewWorker_Ok Hst.
  destruct (loop_ok_steps _ _ _ _ (loop_ok_init opts m s ltac:(lia)) Hst) as [Hs Hr Hd Hca Hp].
  split; [unfold slots in Hs; destruct (l_phase l); lia|]. split; [done|]. split; [by auto|].
  intros E. rewrite E in Hr. rewrite Hr, (Hp E). done.
Qed.

(** A worker that is shutting down stays so, reserves no further job and starts none:
    whatever runs was running already. *)
Theorem shutdown_starts_nothing opts l l' :
  steps registry opts l l' -> shutting_down (l_phase l) = true ->
  shutting_down (l_phase l') = true /\ l_reserved l' = l_reserved l /\
  forall d, d ∈ l_running l' -> d ∈ l_running l.
Proof using.
  induction 1 as [l|l l1 l2 _ IH Hstep]; [done|]. intros Hsd.
  destruct (IH Hsd) as (Hsd1 & Hr1 & Hrun1).
  destruct (shutdown_step _ _ _ _ Hsd1 Hstep) as (Hsd2 & Hr2 & Hrun2).
  split; [done|]. split; [congruence|]. auto.
Qed.
End LoopClaims.

(** ** Witnesses *)

Definition loop_options : WorkerOptions := mkWorkerOptions ["default"] 0 0 0 0.

Lemma worker_loop_invariant_witness :
  exists opts l, NewWorker false false loop_options = Ok opts /\
    steps failing_registry opts (loop_init NewMetrics mail_queue) l /\ l_phase l = PSlot /\
    Z.of_nat (length (l_running l)) <= Concurrency opts.
Proof.
  do 2 eexists. split; [reflexivity|].
  assert (steps failing_registry
    (mkWorkerOptions ["default"] 1 DefaultLease DefaultPollInterval DefaultShutdownTimeout)
    (loop_init NewMetrics mail_queue) (set_phase PSlot (loop_init NewMetrics mail_queue))) as Hst.
  { eapply steps_snoc; [apply steps_refl|]. by apply step_select_slot. }
  split; [exact Hst|]. split; [reflexivity|].
  exact (proj1 (worker_loop_invariant failing_registry false false loop_options _ NewMetrics
    mail_queue _ eq_refl Hst)).
Defined.

Lemma shutdown_starts_nothing_witness :
  shutting_down (l_phase (set_phase (PStopped None)
    (set_phase PShutdown (loop_init NewMetrics mail_queue)))) = true.
Proof.
  apply (shutdown_starts_nothing failing_registry worker_options
    (set_phase PShutdown (loop_init NewMetrics mail_queue))); [|reflexivity].
  eapply steps_snoc; [apply steps_refl|]. by apply step_stopped.
Defined.

Lemma renewal_keeps_lease_witness :
  exists s', renewals worker_options mail_delivery [1000; 2000] (fun _ s => s) mail_reserved.1.2
    = (s', false) /\ status_of s' mail_key = Leased 1 "r1" (2000 + Minute).
Proof.
  destruct (renewal_keeps_lease worker_options ltac:(reflexivity) mail_delivery [1000; 2000]
    (fun _ s => s) 1 (200 + Minute) mail_reserved.1.2 ltac:(intros i s Hs; by split)
    mail_reserved_valid ltac:(discriminate) ltac:(vm_compute; reflexivity)) as (s' & Hr & _ & Hs).
  exists s'. split; [exact Hr | exact Hs].
Defined.

Lemma renewal_detects_loss_witness :
  renewals worker_options mail_delivery [1000] (fun _ s => s) mail_queue = (mail_queue, true) \/
  qExtend 1000 mail_delivery (Lease worker_options) mail_queue
    = (mail_queue, Some (Sentinel ErrClosed)) /\
  renewals worker_options mail_delivery [1000] (fun _ s => s) mail_queue = (mail_queue, false).
Proof.
  apply (renewal_detects_loss worker_options ltac:(reflexivity) mail_delivery 1000 []
    (fun _ s => s) mail_queue mail_queue_valid).
  intros a t. vm_compute. discriminate.
Defined.
