(* ===== verification/JobsDispatcher.v ===== *)
(** * jobs/dispatcher.go: dispatching jobs

    [Dispatch] encodes a job and pushes it to a queue or, with no queue (the
    sync driver), runs it at once.  Open and OpenWithRedis, which choose a
    driver and connect to Redis, are not modelled. *)

From stdpp Require Import base tactics numbers list strings gmap fin_maps.
From Stdlib Require Import ZArith Lia.
From S2P Require Import Prelude GoBytes JobsTypes JobsPolicy JobsMemory JobsMemoryInv JobsMemoryQueue JobsOnce JobsRegistry JobsRegistryFacts JobsMetrics JobsQueueIface JobsWorker JobsWorkerFacts.

Local Open Scope string_scope.
Local Open Scope list_scope.
Local Open Scope Z_scope.

(** ** Options *)

Record dispatchConfig : Type := mkDispatchConfig {
  dc_queue : string;
  dc_delay : duration;
  dc_at : time;
  dc_unique : option UniqueKey
}.

(** OnQueue, Delay, At (dispatcher.go), Unique and UniqueFor (unique.go). *)
Inductive DispatchOption : Type :=
| OnQueue (name : string)
| Delay (d : duration)
| At (t : time)
| Unique (key : string) (ttl : duration)
| UniqueFor (key : string) (window : duration).

Definition applyDispatchOption (c : dispatchConfig) (o : DispatchOption) : dispatchConfig :=
  match o with
  | OnQueue name => mkDispatchConfig name (dc_delay c) (dc_at c) (dc_unique c)
  | Delay d => mkDispatchConfig (dc_queue c) d 0 (dc_unique c)
  | At t => mkDispatchConfig (dc_queue c) 0 t (dc_unique c)
  | Unique key ttl =>
      mkDispatchConfig (dc_queue c) (dc_delay c) (dc_at c) (Some (mkUniqueKey key ttl true))
  | UniqueFor key window =>
      mkDispatchConfig (dc_queue c) (dc_delay c) (dc_at c) (Some (mkUniqueKey key window false))
  end.

Definition dispatchOptions (defaultQueue : string) (opts : list DispatchOption) : dispatchConfig :=
  fold_left applyDispatchOption opts (mkDispatchConfig defaultQueue 0 0 None).

Section Dispatch.
Context {C S : Type} `{Queue S}.
Context (registry : Registry C S) (defaultQueue : string) (queued : bool).

(** [Dispatch].  [queued] is whether the dispatcher has a queue; the clock is
    read by Encode (0), for a delay (1), and by the push (2 on); [id] is the
    fresh job ID.  The zero Envelope of a failed dispatch is [None]. *)
Definition Dispatch (clk : nat -> time) (id : string) (ctx : C) (job : JobArg)
    (opts : list DispatchOption) (s : S) : S * (option Envelope * option error) :=
  let cfg := dispatchOptions defaultQueue opts in
  if negb (ValidName (dc_queue cfg)) then
    (s, (None, Some (Wrapf (dc_queue cfg) (Sentinel ErrInvalidQueue))))
  else if dc_delay cfg <? 0 then (s, (None, Some (Text "jobs: negative delay")))
  else match match dc_unique cfg with Some u => UniqueKey_validate u | None => None end with
  | Some e => (s, (None, Some e))
  | None =>
      match Encode (clk 0%nat) id ctx job registry with
      | Err e => (s, (None, Some e))
      | Ok env =>
          if negb queued then
            let env := setAttempt 1 env in
            let '(s, err) := Run ctx env registry s in (s, (Some env, err))
          else
            let at_ := if 0 <? dc_delay cfg then Add (clk 1%nat) (dc_delay cfg) else dc_at cfg in
            let clk' := fun i => clk (2 + i)%nat in
            let '(s, err) :=
              match dc_unique cfg with
              | Some u => qPushUnique clk' (dc_queue cfg) env at_ u s
              | None => qPush clk' (dc_queue cfg) env at_ s
              end in
            match err with
            | Some e => (s, (None, Some e))
            | None => (s, (Some env, None))
            end
      end
  end.

(** [DispatchAt] *)
Definition DispatchAt (clk : nat -> time) (id : string) (ctx : C) (job : JobArg) (when : time)
    (opts : list DispatchOption) (s : S) : S * (option Envelope * option error) :=
  Dispatch clk id ctx job (opts ++ [At when]) s.
End Dispatch.

(** ** What a dispatch does *)

Section Facts.
Context {C S : Type} `{QueueLaws S}.
Context (registry : Registry C S) (defaultQueue : string).

(** When a dispatched job becomes available. *)
Definition dueAt (clk : nat -> time) (cfg : dispatchConfig) : time :=
  clampAt (if 0 <? dc_delay cfg then clk 1%nat + dc_delay cfg else dc_at cfg) (clk 4%nat).

(** A successful Dispatch of a job that is not unique stored exactly the encoded envelope,
    under a new key of a valid queue, waiting with no attempt from the time its options say.
    *)
Theorem Dispatch_stores_waiting_job clk id ctx job opts (s s' : S) env :
  let cfg := dispatchOptions defaultQueue opts in
  valid s -> dc_unique cfg = None ->
  Dispatch registry defaultQueue true clk id ctx job opts s = (s', (Some env, None)) ->
  ValidName (dc_queue cfg) = true /\ ID env = id /\
  Encode (clk 0%nat) id ctx job registry = Ok env /\ valid s' /\
  status_of s (dc_queue cfg, id) = Gone /\
  moved status_of (dc_queue cfg, id) (Waiting 0 (dueAt clk cfg)) s s'.
Proof using.
  intros cfg Hv Hu. unfold Dispatch. fold cfg. rewrite Hu.
  destruct (ValidName (dc_queue cfg)); [|done]. simpl negb. cbv iota.
  destruct (dc_delay cfg <? 0); [done|].
  destruct (Encode _ _ _ _ _) as [env0|] eqn:Ee; [|done]. simpl negb. cbv iota zeta.
  destruct (qPush _ _ _ _ _) as [s1 [e|]] eqn:Ep; [done|]. intros [= <- <-].
  assert (ID env0 = id) as Hid.
  { unfold Encode in Ee. repeat (case_match; simplify_eq/=; try done). }
  destruct (law_push _ _ _ _ _ _ Hv Ep) as (Hv' & Hg & Hm). rewrite Hid in *.
  split; [done|]. split; [done|]. split; [done|]. split; [done|]. split; [done|]. exact Hm.
Qed.

Lemma dispatchOptions_snoc opts o :
  dispatchOptions defaultQueue (opts ++ [o]) =
  applyDispatchOption (dispatchOptions defaultQueue opts) o.
Proof using. unfold dispatchOptions. by rewrite fold_left_app. Qed.

(** [DispatchAt] decides when the job is due, whatever the other options say. *)
Theorem DispatchAt_overrides clk id ctx job when opts (s s' : S) env :
  let cfg := dispatchOptions defaultQueue opts in
  valid s -> dc_unique cfg = None ->
  DispatchAt registry defaultQueue true clk id ctx job when opts s = (s', (Some env, None)) ->
  status_of s' (dc_queue cfg, id) = Waiting 0 (clampAt when (clk 4%nat)).
Proof using.
  intros cfg Hv Hu. unfold DispatchAt, Dispatch. rewrite dispatchOptions_snoc. fold cfg.
  cbn [applyDispatchOption dc_queue dc_delay dc_at dc_unique]. rewrite Hu.
  destruct (ValidName (dc_queue cfg)); [|done]. simpl negb. cbv iota.
  destruct (Encode _ _ _ _ _) as [env0|] eqn:Ee; [|done]. simpl.
  destruct (qPush _ _ _ _ _) as [s1 [e|]] eqn:Ep; [done|]. intros [= <- <-].
  assert (ID env0 = id) as <-.
  { unfold Encode in Ee. repeat (case_match; simplify_eq/=; try done). }
  by destruct (law_push _ _ _ _ _ _ Hv Ep) as (_ & _ & Hm & _).
Qed.
End Facts.

(** ** From dispatch to the handler *)

(** A queue with an available job delivers one, and none that became ready later. *)
Lemma Reserve_progress n q now uuid queue lease k j :
  wf n q -> q_closed q = false -> ValidName queue = true -> 0 < lease ->
  q_jobs q !! k = Some j -> j_queue j = queue -> available now j = true ->
  exists k' j', q_jobs q !! k' = Some j' /\ j_queue j' = queue /\ j_failure j' = None /\ readyAt j' <= readyAt j /\
    Reserve now uuid [queue] lease q =
      (put_job k' (lease_job uuid (Add now lease) j') q,
       Ok (mkDelivery queue (setAttempt (wrap_int64 (j_attempts j' + 1)) (j_env j')) uuid (j_reserved j') (readyAt j') None)).
Proof.
  intros Hwf Hc Hq Hl Hk Hjq Hav. pose proof (Reserve_oldest_first n q now uuid [queue] lease Hwf) as Hfirst.
  destruct (Reserve now uuid [queue] lease q) as [q' [d|e]] eqn:E.
  - apply Reserve_Ok in E as (k' & j' & Hk' & Hav' & Hin & _ & _ & _ & _ & -> & -> & _).
    apply list_elem_of_singleton in Hin. destruct Hfirst as (_ & _ & j0 & _ & _ & Hk0 & _ & Hat & Hmin).
    cbn in Hat. exists k', j'. split_and!; [done|done| | |by rewrite Hin].
    + unfold available in Hav'. by destruct (j_failure j').
    + rewrite Hat. destruct (Hmin k j Hk) as [?|[? _]]; [cbn; congruence|done|lia|lia].
  - exfalso. destruct Hfirst as [-> Hno]. unfold Reserve in E.
    replace (lease <=? 0) with false in E by (symmetry; apply Z.leb_gt; lia).
    cbn [first_invalid] in E. rewrite Hq, Hc in E. cbn [negb] in E.
    destruct (reserve_scan _ _ _) as [[? [? ?]]|]; [done|]. injection E as <-.
    destruct (Hno eq_refl) as (_ & _ & Hdr). specialize (Hdr queue ltac:(by left) k j Hk Hjq). congruence.
Qed.

(** The jobs of a queue that can be delivered before one that is due at [due]. *)
Definition aheadOf (queue : string) (due : time) (k : string * string) (q : MemoryQueue) : gmap (string * string) memoryJob :=
  filter (fun kj => kj.1 <> k /\ j_queue kj.2 = queue /\ j_failure kj.2 = None /\ readyAt kj.2 <= due) (q_jobs q).

(** Reservations of one queue in a row: the instant, the receipt and the lease of each. *)
Fixpoint reserves (queue : string) (rs : list (time * string * duration)) (q : MemoryQueue) : MemoryQueue :=
  match rs with
  | [] => q
  | (now, uuid, lease) :: rs => reserves queue rs (Reserve now uuid [queue] lease q).1
  end.

(** Each reservation takes a job that is ahead, and puts it behind. *)
Lemma delivered_in_turn queue due k j rs n q :
  wf n q -> n + Z.of_nat (length rs) <= max_int64 -> q_closed q = false -> ValidName queue = true -> 0 < due ->
  q_jobs q !! k = Some j -> j_queue j = queue -> j_failure j = None -> readyAt j <= due ->
  Forall (fun x => due <= x.1.1 /\ x.1.2 <> "" /\ 0 < x.2) rs ->
  (size (aheadOf queue due k q) < length rs)%nat ->
  exists i now uuid lease q1, rs !! i = Some (now, uuid, lease) /\ q1 = reserves queue (take i rs) q /\
    q_jobs q1 !! k = Some j /\
    Reserve now uuid [queue] lease q1 =
      (put_job k (lease_job uuid (Add now lease) j) q1,
       Ok (mkDelivery queue (setAttempt (wrap_int64 (j_attempts j + 1)) (j_env j)) uuid (j_reserved j) (readyAt j) None)).
Proof.
  revert n q. induction rs as [|[[now uuid] lease] rs IH]; intros n q Hwf Hn Hc Hq Hdue Hk Hjq Hf Hr Hrs Hsize; [cbn in Hsize; lia|].
  apply Forall_cons in Hrs as [(Hnow & Hu & Hl) Hrs]. cbn in Hnow, Hu, Hl. cbn [length] in Hn, Hsize.
  assert (available now j = true) as Hav.
  { unfold available, readyAt in *. rewrite Hf. destruct (j_reserved j); apply negb_true_iff, Before_false; lia. }
  destruct (Reserve_progress n q now uuid queue lease k j Hwf Hc Hq Hl Hk Hjq Hav) as (k' & j' & Hk' & Hjq' & Hf' & Hr' & HR).
  destruct (decide (k' = k)) as [->|Hne].
  { rewrite Hk in Hk'. injection Hk' as <-. exists 0%nat, now, uuid, lease, q. done. }
  set (q' := put_job k' (lease_job uuid (Add now lease) j') q) in *.
  assert (aheadOf queue due k q' = delete k' (aheadOf queue due k q)) as Hah.
  { unfold aheadOf, q'. cbn. rewrite map_filter_insert_False; [by rewrite map_filter_delete|].
    intros (_ & _ & _ & Hx). unfold Add in Hx. cbn in Hx. lia. }
  assert (is_Some (aheadOf queue due k q !! k')) as Hin.
  { exists j'. unfold aheadOf. rewrite map_lookup_filter_Some. cbn. split_and!; [done..|lia]. }
  destruct (IH (n + 1) q') as (i & now' & uuid' & lease' & q1 & Hi & -> & Hk1 & HR1); try done.
  - pose proof (Reserve_wf n q ltac:(lia) Hwf now uuid [queue] lease ltac:(lia) Hu) as Hw. by rewrite HR in Hw.
  - lia.
  - unfold q'. cbn. by rewrite lookup_insert_ne.
  - assert (size (aheadOf queue due k q) <> 0%nat).
    { intros H0%map_size_empty_inv. rewrite H0, lookup_empty in Hin. by destruct Hin. }
    rewrite Hah, map_size_delete_Some by done. lia.
  - exists (S i), now', uuid', lease', (reserves queue (take i rs) q'). split; [done|].
    split; [cbn [take reserves]; by rewrite HR|]. done.
Qed.

(** C31. A job that is dispatched is run: on a registry that accepted its type and any well-
    formed open queue, with any options but a unique key, Dispatch succeeds, and among as
    many Reserves of its queue, from its due time on, as there are jobs that became ready
    before it and one more, one delivers the job, as its first attempt; Run then decodes its
    payload and calls the registered handler with the decoded job, the propagated context
    and the envelope's information under the registered policy. *)
Theorem dispatched_job_reaches_handler {C T} t unmarshal
    (handler : HandlerCtx C -> T -> MemoryQueue -> MemoryQueue * (outcome * option error))
    ropts (r r1 : Registry C MemoryQueue) defaultQueue opts clk id ctx payload v n (q : MemoryQueue) rs ctx1 ctx2 :
  let cfg := dispatchOptions defaultQueue opts in
  let queue := dc_queue cfg in
  let due := dueAt clk cfg in
  Register t unmarshal (Some handler) ropts r = (r1, None) ->
  unmarshal payload = Value (Ok v) -> emptyPayload payload = false ->
  extracted (propagators r1) ctx1 (injected ctx (propagators r1)) = Value ctx2 ->
  ValidName queue = true -> 0 <= dc_delay cfg -> dc_unique cfg = None -> id <> "" -> 0 < clk 4%nat ->
  wf n q -> n + 1 + Z.of_nat (length rs) <= max_int64 -> q_closed q = false -> q_jobs q !! (queue, id) = None ->
  Forall (fun x => due <= x.1.1 /\ x.1.2 <> "" /\ 0 < x.2) rs ->
  (size (aheadOf queue due (queue, id) q) < length rs)%nat ->
  exists q1 env reg,
    Dispatch r1 defaultQueue true clk id ctx (JobValue (t_goType t) (t_name t) (t_version t) (Ok payload)) opts q
      = (q1, (Some env, None)) /\
    ID env = id /\ byName r1 !! t_name t = Some reg /\
    exists i now uuid lease q2 d,
      rs !! i = Some (now, uuid, lease) /\
      Reserve now uuid [queue] lease (reserves queue (take i rs) q1) = (q2, Ok d) /\
      DEnvelope d = setAttempt 1 env /\ DLeaseExpired d = false /\
      forall s, Run ctx1 (DEnvelope d) r1 s =
        runCall reg (fun c => handler c v)
          (mkHandlerCtx ctx2
             (mkInfo id (t_name t) (jobVersion (t_version t)) (jobVersion (t_version t)) 1
                (MaxAttempts (r_options reg)) (clk 0%nat))
             (runTimeout reg)) s.
Proof.
  intros cfg queue due Hreg Hun Hp Hx Hq Hdelay Huniq Hid Hclk Hwf Hn Hc Hnew Hrs Hsize.
  destruct (Encode_Run (C:=C) (S:=MemoryQueue) t unmarshal handler ropts r r1 (clk 0%nat) id ctx
    payload v 1 ctx1 ctx2 Hreg Hun Hp Hid Hx) as (env & reg & He & Hei & Hat & Hby & Hrun).
  set (at_ := if 0 <? dc_delay cfg then Add (clk 1%nat) (dc_delay cfg) else dc_at cfg).
  set (clk' := fun i => clk (2 + i)%nat). set (seq := wrap_uint64 (q_seq q + 1)).
  set (j := newJob queue env due seq None).
  set (q1 := put_job (queue, id) j (set_uniques (q_uniques q) (set_seq seq q))).
  assert (Push clk' queue env at_ q = (q1, None)) as Hpush.
  { unfold Push, push. rewrite Hq, Hei, Hc. apply String.eqb_neq in Hid as ->. cbn [negb push_refused].
    by rewrite Hnew. }
  exists q1, env, reg. split.
  { unfold Dispatch. fold cfg. fold queue. rewrite Hq, Huniq, He.
    replace (dc_delay cfg <? 0) with false by (symmetry; apply Z.ltb_ge; lia). cbn [negb MemoryQueue_Queue qPush].
    fold at_ clk'. by rewrite Hpush. }
  split; [done|]. split; [done|].
  assert (wf (n + 1) q1) as Hwf1.
  { pose proof (push_wf n q ltac:(lia) Hwf clk' queue env at_ None Hclk ltac:(done)) as H. unfold Push in Hpush. by rewrite Hpush in H. }
  assert (0 < due) as Hdue by (by apply clampAt_positive).
  destruct (delivered_in_turn queue due (queue, id) j rs (n + 1) q1) as (i & now & uuid & lease & q' & Hi & -> & Hk & HR);
    [done|lia|done|done|done|by apply lookup_insert_eq|done|done|done|done| |].
  - assert (aheadOf queue due (queue, id) q1 = aheadOf queue due (queue, id) q) as ->; [|done].
    unfold aheadOf, q1. cbn. rewrite map_filter_insert_False by (by intros [? _]). f_equal. by apply delete_id.
  - exists i, now, uuid, lease. eexists _, _. split; [exact Hi|]. split; [exact HR|]. split; [|split; [done|]].
    + unfold j. cbn. by destruct env.
    + unfold j. cbn. intros s. specialize (Hrun s). by destruct env.
Qed.

Definition mail_job : JobArg := JobValue "mail.Welcome" "mail:welcome" None (Ok "{}").

Lemma empty_valid : valid NewMemoryQueue.
Proof. split; [apply map_Forall_empty | done]. Qed.

Lemma Dispatch_stores_waiting_job_witness :
  status_of (Dispatch failing_registry "default" true (fun _ => 100) "a" tt mail_job
    [Delay Second] NewMemoryQueue).1 ("default", "a") = Waiting 0 (100 + Second).
Proof.
  edestruct (Dispatch_stores_waiting_job failing_registry "default" (fun _ => 100) "a" tt mail_job
    [Delay Second] NewMemoryQueue) as (_ & _ & _ & _ & _ & Hm & _);
    [apply empty_valid | reflexivity | vm_compute; reflexivity | exact Hm].
Defined.

Lemma DispatchAt_overrides_witness :
  status_of (DispatchAt failing_registry "default" true (fun _ => 100) "a" tt mail_job 5000
    [Delay Second] NewMemoryQueue).1 ("default", "a") = Waiting 0 5000.
Proof.
  eapply (DispatchAt_overrides failing_registry "default" (fun _ => 100) "a" tt mail_job 5000
    [Delay Second] NewMemoryQueue);
    [apply empty_valid | reflexivity | vm_compute; reflexivity].
Defined.

Definition good_type : JobType := mkJobType "mail.Welcome" true "mail:welcome" false None None false.

Definition good_handler (c : HandlerCtx unit) (job : string) (q : MemoryQueue)
    : MemoryQueue * (outcome * option error) := (q, (Returned None, None)).

Definition good_registry : Registry unit MemoryQueue :=
  (Register good_type (fun p => Value (Ok p)) (Some good_handler) [] (NewRegistry [])).1.

Lemma good_registered :
  Register good_type (fun p => Value (Ok p)) (Some good_handler) [] (NewRegistry [])
  = (good_registry, None).
Proof. apply injective_projections; reflexivity. Qed.

(** Two jobs wait already; the third reservation delivers the one dispatched. *)
Definition busy_reserves : list (time * string * duration) := [(300, "r1", 50); (340, "r2", 50); (500, "r3", 50)].

Lemma dispatched_job_reaches_handler_witness :
  exists q1 env i now uuid lease q2 d,
    Dispatch good_registry "default" true (fun _ => 200) "c" tt
      (JobValue "mail.Welcome" "mail:welcome" None (Ok "{}")) [Delay 50] sample_queue
    = (q1, (Some env, None)) /\ busy_reserves !! i = Some (now, uuid, lease) /\
    Reserve now uuid ["default"] lease (reserves "default" (take i busy_reserves) q1) = (q2, Ok d) /\
    Run tt (DEnvelope d) good_registry q2 = (q2, None).
Proof.
  destruct (dispatched_job_reaches_handler good_type (fun p => Value (Ok p)) good_handler []
    (NewRegistry []) good_registry "default" [Delay 50] (fun _ => 200) "c" tt "{}" "{}" 2 sample_queue busy_reserves tt tt
    good_registered ltac:(reflexivity) ltac:(vm_compute; reflexivity) ltac:(reflexivity) ltac:(reflexivity)
    ltac:(cbn; lia) ltac:(reflexivity) ltac:(discriminate) ltac:(lia) sample_queue_wf ltac:(vm_compute; discriminate)
    ltac:(reflexivity) ltac:(vm_compute; reflexivity)
    ltac:(repeat constructor; cbn; first [discriminate | vm_compute; discriminate | lia]) ltac:(vm_compute; lia))
    as (q1 & env & reg & Hd & _ & Hreg & i & now & uuid & lease & q2 & d & Hi & Hr & _ & _ & Hrun).
  exists q1, env, i, now, uuid, lease, q2, d. split; [exact Hd|]. split; [exact Hi|]. split; [exact Hr|].
  rewrite Hrun. injection Hreg as <-. reflexivity.
Defined.
