(* ===== verification/Cache.v ===== *)
(** * cache/memory.go: the in-process cache

    [Memory] with Get, Set, Delete, Increment, IncrementTTL, DecrementExisting
    and the janitor's sweep.  Values are their JSON payloads; marshalling and
    unmarshalling of application types are arguments, and the JSON of an int64,
    which the counters parse, is modelled.  Where a method takes its lock more
    than once (Get, the sweep) each critical section is its own definition, so
    that other calls can come in between. *)

From stdpp Require Import base tactics numbers list strings gmap fin_maps.
From Stdlib Require Import ZArith Lia Ascii DecimalString DecimalZ.
From S2P Require Import Prelude GoBytes.

Local Open Scope string_scope.
Local Open Scope list_scope.
Local Open Scope Z_scope.

(** The errors of the package; [CtxErr] is the caller's canceled context. *)
Inductive cacheError : Type :=
| CtxErr
| NegativeTTL
| CounterTTL
| MarshalErr
| UnmarshalErr
| NotInteger (key : string)
| Overflow (key : string)
| NilStore.

(** ** JSON integers *)

(** [encode] of an int64. *)
Definition encodeInt (z : Z) : string := NilZero.string_of_int (Z.to_int z).

(** The digits of a JSON number have no leading zero. *)
Definition json_digits (s : string) : bool :=
  match s with
  | String c (String _ _) => negb (Ascii.eqb c "0"%char)
  | _ => true
  end.

(** What follows the minus sign, if there is one. *)
Definition unsigned_part (s : string) : string :=
  match s with
  | String c s' => if Ascii.eqb c "-"%char then s' else s
  | EmptyString => s
  end.

Definition json_space : list bytes := map (map byte_of) [[32]; [9]; [10]; [13]]%nat.

(** json.Unmarshal of a payload into a [*int64] variable: an error, nil (the
    JSON null), or the integer.  JSON that is no integer in range is an error,
    as is what is no JSON. *)
Definition decodeInt (payload : string) : result cacheError (option Z) :=
  let s := to_string (trim_right json_space (trim_left json_space (of_string payload))) in
  if String.eqb s "null" then Ok None
  else
    match NilZero.int_of_string s with
    | Some d =>
        let z := Z.of_int d in
        if json_digits (unsigned_part s) && (min_int64 <=? z) && (z <=? max_int64) then Ok (Some z)
        else Err UnmarshalErr
    | None => Err UnmarshalErr
    end.

(** ** State *)

Record memoryItem : Type := mkItem { payload : string; expiresAt : time }.

Definition Memory : Type := gmap string memoryItem.

(** [NewMemory]: the janitor is a client of [sweepExpired]. *)
Definition NewMemory : gmap string memoryItem := ∅.

(** [memoryItem.expired] *)
Definition expired (now : time) (i : memoryItem) : bool :=
  negb (IsZero (expiresAt i)) && negb (Before now (expiresAt i)).

(** [validateTTL] and [validateCounterTTL] *)
Definition validateTTL (ttl : duration) : option cacheError :=
  if ttl <? 0 then Some NegativeTTL else None.

Definition validateCounterTTL (ttl : duration) : option cacheError :=
  if ttl <=? 0 then Some CounterTTL else None.

(** ** Get *)

(** Delete [key] if it is there and expired: the second half of Get, and the
    body of the sweep. *)
Definition evict (now : time) (key : string) (m : gmap string memoryItem) : gmap string memoryItem :=
  match m !! key with
  | Some item => if expired now item then delete key m else m
  | None => m
  end.

(** [decode]: [unmarshal] is json.Unmarshal into the destination's type. *)
Definition decode {T} (unmarshal : string -> option T) (p : string) : result cacheError T :=
  match unmarshal p with Some v => Ok v | None => Err UnmarshalErr end.

(** [Get]: what is found, and the cache after.  [between] is what other calls
    do to the cache between the read and the eviction. *)
Definition Get {T} (unmarshal : string -> option T) (canceled : bool) (clk : nat -> time)
    (between : gmap string memoryItem -> gmap string memoryItem) (key : string)
    (m : gmap string memoryItem) : gmap string memoryItem * result cacheError (option T) :=
  if canceled then (m, Err CtxErr)
  else match m !! key with
  | None => (m, Ok None)
  | Some item =>
      if expired (clk 0%nat) item then (evict (clk 1%nat) key (between m), Ok None)
      else (m, match decode unmarshal (payload item) with Ok v => Ok (Some v) | Err e => Err e end)
  end.

(** [Set]; [marshaled] is json.Marshal of the value. *)
Definition Set_ (canceled : bool) (now : time) (key : string) (marshaled : option string)
    (ttl : duration) (m : gmap string memoryItem) : gmap string memoryItem * option cacheError :=
  if canceled then (m, Some CtxErr)
  else match validateTTL ttl with
  | Some e => (m, Some e)
  | None =>
      match marshaled with
      | None => (m, Some MarshalErr)
      | Some p => (<[key := mkItem p (if 0 <? ttl then Add now ttl else 0)]> m, None)
      end
  end.

(** [Delete] *)
Definition Delete (canceled : bool) (keys : list string) (m : gmap string memoryItem)
    : gmap string memoryItem * option cacheError :=
  if canceled then (m, Some CtxErr) else (fold_left (fun m key => delete key m) keys m, None).

(** ** Counters *)

(** The count [increment] starts from: 0 for a key that is absent or expired. *)
Definition current (now : time) (key : string) (m : gmap string memoryItem) : result cacheError Z :=
  match m !! key with
  | Some item =>
      if expired now item then Ok 0
      else match decodeInt (payload item) with
           | Ok (Some z) => Ok z
           | Ok None | Err _ => Err (NotInteger key)
           end
  | None => Ok 0
  end.

(** The expiry a written counter keeps. *)
Definition keptExpiry (now : time) (key : string) (ttl : duration) (m : gmap string memoryItem) : time :=
  let e := match m !! key with
           | Some item => if expired now item then 0 else expiresAt item
           | None => 0
           end in
  if IsZero e && (0 <? ttl) then Add now ttl else e.

(** The overflow test of [increment], at 64 bits. *)
Definition wouldOverflow (cur delta : Z) : bool :=
  ((0 <? delta) && (wrap_int64 (max_int64 - delta) <? cur)) ||
  ((delta <? 0) && (cur <? wrap_int64 (min_int64 - delta))).

(** [increment]; the clock is read twice. *)
Definition increment (canceled : bool) (clk : nat -> time) (key : string) (delta : Z)
    (ttl : duration) (m : gmap string memoryItem) : gmap string memoryItem * result cacheError Z :=
  if canceled then (m, Err CtxErr)
  else match current (clk 0%nat) key m with
  | Err e => (m, Err e)
  | Ok cur =>
      if wouldOverflow cur delta then (m, Err (Overflow key))
      else
        let v := wrap_int64 (cur + delta) in
        (<[key := mkItem (encodeInt v) (keptExpiry (clk 1%nat) key ttl m)]> m, Ok v)
  end.

(** [Increment] *)
Definition Increment (canceled : bool) (clk : nat -> time) (key : string) (delta : Z)
    (m : gmap string memoryItem) : gmap string memoryItem * result cacheError Z :=
  increment canceled clk key delta 0 m.

(** [IncrementTTL] *)
Definition IncrementTTL (canceled : bool) (clk : nat -> time) (key : string) (delta : Z)
    (ttl : duration) (m : gmap string memoryItem) : gmap string memoryItem * result cacheError Z :=
  match validateCounterTTL ttl with
  | Some e => (m, Err e)
  | None => increment canceled clk key delta ttl m
  end.

(** The overflow test of [DecrementExisting], at 64 bits. *)
Definition decrementOverflow (stored delta : Z) : bool :=
  ((delta <? 0) && (wrap_int64 (max_int64 + delta) <? stored)) ||
  ((0 <? delta) && (stored <? wrap_int64 (min_int64 + delta))).

(** [DecrementExisting]: the value, whether the key was found, the error. *)
Definition DecrementExisting (canceled : bool) (now : time) (key : string) (delta : Z)
    (m : gmap string memoryItem)
    : gmap string memoryItem * (Z * bool * option cacheError) :=
  if canceled then (m, (0, false, Some CtxErr))
  else match m !! key with
  | None => (m, (0, false, None))
  | Some item =>
      if expired now item then (m, (0, false, None))
      else match decodeInt (payload item) with
      | Ok (Some stored) =>
          if decrementOverflow stored delta then (m, (0, true, Some (Overflow key)))
          else
            let v := wrap_int64 (stored - delta) in
            (<[key := mkItem (encodeInt v) (expiresAt item)]> m, (v, true, None))
      | Ok None | Err _ => (m, (0, true, Some (NotInteger key)))
      end
  end.

(** ** The sweep *)

(** [sweepBatch] *)
Definition sweepBatch (now : time) (keys : list string) (m : gmap string memoryItem)
    : gmap string memoryItem := fold_left (fun m key => evict now key m) keys m.

(** The keys of the snapshot, cut into batches of [n] keys. *)
Fixpoint batches (fuel n : nat) (keys : list string) : list (list string) :=
  match fuel, keys with
  | _, [] => []
  | O, _ :: _ => []
  | S fuel, _ :: _ => take n keys :: batches fuel n (drop n keys)
  end.

Definition memorySweepBatchSize : nat := 1000.

(** [sweepExpired]: the snapshot, then the batches, with other calls in between
    ([between i] before the i-th batch); the number of batches.  With a
    positive batch size each batch takes a key, so the number of keys is fuel
    enough. *)
Fixpoint sweepBatches (now : time) (bs : list (list string))
    (between : nat -> gmap string memoryItem -> gmap string memoryItem)
    (m : gmap string memoryItem) : gmap string memoryItem :=
  match bs with
  | [] => m
  | b :: bs => sweepBatches now bs (fun i => between (S i)) (sweepBatch now b (between O m))
  end.

Definition sweepExpired (now : time) (size : nat)
    (between : nat -> gmap string memoryItem -> gmap string memoryItem)
    (m : gmap string memoryItem) : gmap string memoryItem * nat :=
  let keys := map fst (map_to_list m) in
  let bs := batches (length keys) size keys in
  (sweepBatches now bs between m, length bs).

(** ** JSON integers round trip *)

Definition digit_chars : list ascii :=
  ["0"; "1"; "2"; "3"; "4"; "5"; "6"; "7"; "8"; "9"; "-"]%char.

Lemma uint_chars d : Forall (fun c => c ∈ digit_chars) (of_string (NilEmpty.string_of_uint d)).
Proof. induction d; simpl; constructor; try done; unfold digit_chars; set_solver. Qed.

Lemma zero_uint_chars d : Forall (fun c => c ∈ digit_chars) (of_string (NilZero.string_of_uint d)).
Proof. destruct d; try apply uint_chars. simpl. constructor; [unfold digit_chars; set_solver | done]. Qed.

Lemma encodeInt_chars z : Forall (fun c => c ∈ digit_chars) (of_string (encodeInt z)).
Proof.
  unfold encodeInt. destruct (Z.to_int z) as [d|d]; simpl; [apply zero_uint_chars|].
  constructor; [unfold digit_chars; set_solver | apply zero_uint_chars].
Qed.

Lemma encodeInt_trim z :
  to_string (trim_right json_space (trim_left json_space (of_string (encodeInt z)))) = encodeInt z.
Proof.
  rewrite trim_both_id, to_of_string; [done | repeat constructor; discriminate|].
  assert (Forall (fun c => (c ∉ heads json_space) /\ c ∉ heads (map (@rev ascii) json_space))
    digit_chars) as H by (apply (bool_decide_unpack _); vm_compute; exact I).
  rewrite Forall_forall in H. eapply Forall_impl; [apply encodeInt_chars|]. exact H.
Qed.

(** A normal form has no leading zero. *)
Lemma unorm_digits d : Decimal.unorm d = d -> json_digits (NilZero.string_of_uint d) = true.
Proof.
  destruct d as [|d|d|d|d|d|d|d|d|d|d]; try done; try (by destruct d).
  intros H. assert (d = Decimal.Nil) as ->; [|done].
  unfold Decimal.unorm in H. simpl in H. destruct (Decimal.nzhead d) eqn:E; try discriminate H.
  - by injection H as <-.
  - exfalso. eapply DecimalFacts.nzhead_nonzero, E.
Qed.

Lemma to_int_norm z : Decimal.norm (Z.to_int z) = Z.to_int z.
Proof. rewrite <- DecimalZ.to_of. by rewrite DecimalZ.of_to. Qed.

Lemma encodeInt_digits z :
  json_digits (unsigned_part (encodeInt z)) = true.
Proof.
  unfold encodeInt. pose proof (to_int_norm z) as Hn. destruct (Z.to_int z) as [d|d]; simpl in *.
  - assert (Decimal.unorm d = d) as Hd by congruence. apply unorm_digits in Hd.
    destruct d; simpl in *; try done; by destruct d.
  - destruct (Decimal.nzhead d) eqn:E; [done|..]; injection Hn as Hn;
      apply unorm_digits; unfold Decimal.unorm; rewrite E; done.
Qed.

Lemma encodeInt_parse z : NilZero.int_of_string (encodeInt z) = Some (Z.to_int z).
Proof.
  unfold encodeInt.
  apply NilZero.isi; intros E; pose proof (to_int_norm z) as Hn; rewrite E in Hn; discriminate Hn.
Qed.

(** What [encode] writes for an int64, the counters read back. *)
Lemma decodeInt_encodeInt z : in_int64 z -> decodeInt (encodeInt z) = Ok (Some z).
Proof.
  intros [Hlo Hhi]. unfold decodeInt. rewrite encodeInt_trim, encodeInt_parse, DecimalZ.of_to.
  replace (String.eqb (encodeInt z) "null") with false.
  2: { symmetry. apply String.eqb_neq. intros E. pose proof (encodeInt_chars z) as H.
       rewrite E in H. inversion H as [|? ? Hc _]. revert Hc. apply (bool_decide_unpack _). vm_compute. exact I. }
  rewrite encodeInt_digits. apply Z.leb_le in Hlo, Hhi. by rewrite Hlo, Hhi.
Qed.
