(* ===== verification/CacheFacts.v ===== *)
(** * What the in-process cache guarantees

    The live view of a cache (its unexpired items), the equivalence of caches
    with the same live view from an instant on, that every operation respects
    it, and that evictions and sweeps cannot be observed; exact counters. *)

From stdpp Require Import base tactics numbers list strings gmap fin_maps.
From Stdlib Require Import ZArith Lia.
From S2P Require Import Prelude GoBytes Cache.

Local Open Scope string_scope.
Local Open Scope list_scope.
Local Open Scope Z_scope.

Abbreviation memory := (gmap string memoryItem).

(** ** The live view *)

Definition view (t : time) (m : memory) (k : string) : option memoryItem :=
  match m !! k with
  | Some i => if expired t i then None else Some i
  | None => None
  end.

(** Caches that no call from [t] on can tell apart. *)
Definition live_equiv (t : time) (m1 m2 : memory) : Prop :=
  forall k t', t <= t' -> view t' m1 k = view t' m2 k.

#[export] Instance live_equiv_equivalence t : Equivalence (live_equiv t).
Proof.
  split.
  - by intros m k t' _.
  - intros m1 m2 H k t' Ht. by rewrite H.
  - intros m1 m2 m3 H1 H2 k t' Ht. by rewrite H1, H2.
Qed.

Lemma live_equiv_mono t t' m1 m2 : t <= t' -> live_equiv t m1 m2 -> live_equiv t' m1 m2.
Proof. intros Ht H k t'' Ht'. apply H. lia. Qed.

Lemma expired_mono t t' i : t <= t' -> expired t i = true -> expired t' i = true.
Proof.
  unfold expired. intros Ht H. breflect. apply andb_true_iff. split; [by apply negb_true_iff|].
  apply negb_true_iff, Before_false. lia.
Qed.

Lemma view_insert_eq t m k i :
  view t (<[k := i]> m) k = if expired t i then None else Some i.
Proof. unfold view. by rewrite lookup_insert_eq. Qed.

Lemma view_insert_ne t m k k' i : k <> k' -> view t (<[k := i]> m) k' = view t m k'.
Proof. intros Hne. unfold view. by rewrite lookup_insert_ne. Qed.

Lemma view_delete_eq t m k : view t (delete k m) k = None.
Proof. unfold view. by rewrite lookup_delete_eq. Qed.

Lemma view_delete_ne t m k k' : k <> k' -> view t (delete k m) k' = view t m k'.
Proof. intros Hne. unfold view. by rewrite lookup_delete_ne. Qed.

#[export] Instance insert_live_proper t k i :
  Proper (live_equiv t ==> live_equiv t) (fun m : memory => <[k := i]> m).
Proof.
  intros m1 m2 H k' t' Ht. destruct (decide (k = k')) as [->|].
  - by rewrite !view_insert_eq.
  - rewrite !view_insert_ne by done. by apply H.
Qed.

#[export] Instance delete_live_proper t k :
  Proper (live_equiv t ==> live_equiv t) (fun m : memory => delete k m).
Proof.
  intros m1 m2 H k' t' Ht. destruct (decide (k = k')) as [->|].
  - by rewrite !view_delete_eq.
  - rewrite !view_delete_ne by done. by apply H.
Qed.

(** ** Evictions are invisible *)

Lemma evict_live now k t m : now <= t -> live_equiv t (evict now k m) m.
Proof.
  intros Ht k' t' Ht'. unfold evict. destruct (m !! k) as [i|] eqn:E; [|done].
  destruct (expired now i) eqn:Ex; [|done]. destruct (decide (k = k')) as [<-|].
  - rewrite view_delete_eq. unfold view. rewrite E.
    by rewrite (expired_mono now t' i) by (done || lia).
  - by rewrite view_delete_ne.
Qed.

(** ** Operations depend on the live view only *)

Lemma current_view now k m :
  current now k m =
  match view now m k with
  | Some i => match decodeInt (payload i) with
              | Ok (Some z) => Ok z
              | Ok None | Err _ => Err (NotInteger k)
              end
  | None => Ok 0
  end.
Proof. unfold current, view. destruct (m !! k); [|done]. by destruct (expired now _). Qed.

Lemma keptExpiry_view now k ttl m :
  keptExpiry now k ttl m =
  let e := match view now m k with Some i => expiresAt i | None => 0 end in
  if IsZero e && (0 <? ttl) then Add now ttl else e.
Proof. unfold keptExpiry, view. destruct (m !! k); [|done]. by destruct (expired now _). Qed.

(** The calls of the Cache and Counter interfaces, with their clock. *)
Inductive call : Type :=
| CGet (key : string)
| CSet (key : string) (marshaled : option string) (ttl : duration)
| CDelete (keys : list string)
| CIncrement (key : string) (delta : Z)
| CIncrementTTL (key : string) (delta : Z) (ttl : duration)
| CDecrementExisting (key : string) (delta : Z).

(** What a call returns. *)
Inductive reply : Type :=
| RGet (r : result cacheError (option string))
| RUnit (e : option cacheError)
| RCount (r : result cacheError Z)
| RDecrement (v : Z) (found : bool) (e : option cacheError).

(** Get reads into the payload itself: whatever a destination decodes to is a
    function of it. *)
Definition perform (canceled : bool) (clk : nat -> time) (c : call) (m : memory) : memory * reply :=
  match c with
  | CGet key => let '(m, r) := Get Some canceled clk (fun m => m) key m in (m, RGet r)
  | CSet key p ttl => let '(m, e) := Set_ canceled (clk 0%nat) key p ttl m in (m, RUnit e)
  | CDelete keys => let '(m, e) := Delete canceled keys m in (m, RUnit e)
  | CIncrement key delta => let '(m, r) := Increment canceled clk key delta m in (m, RCount r)
  | CIncrementTTL key delta ttl =>
      let '(m, r) := IncrementTTL canceled clk key delta ttl m in (m, RCount r)
  | CDecrementExisting key delta =>
      let '(m, (v, found, e)) := DecrementExisting canceled (clk 0%nat) key delta m in
      (m, RDecrement v found e)
  end.

Section Respects.
Context (t t2 : time) (clk : nat -> time) (Hclk : forall i, t <= clk i <= t2).

Lemma Get_live {T} (un : string -> option T) canceled key m :
  live_equiv t2 (Get un canceled clk (fun m => m) key m).1 m /\
  (canceled = false ->
   (Get un canceled clk (fun m => m) key m).2 =
     match view (clk 0%nat) m key with
     | Some i => match decode un (payload i) with Ok v => Ok (Some v) | Err e => Err e end
     | None => Ok None
     end).
Proof using Hclk.
  unfold Get, view. destruct canceled; [done|].
  destruct (m !! key) as [i|] eqn:E; [|done].
  destruct (expired (clk 0%nat) i); simpl; [|done]. split; [|done]. apply evict_live, Hclk.
Qed.

Lemma increment_respects canceled key delta ttl m1 m2 :
  live_equiv t m1 m2 ->
  (increment canceled clk key delta ttl m1).2 = (increment canceled clk key delta ttl m2).2 /\
  live_equiv t (increment canceled clk key delta ttl m1).1 (increment canceled clk key delta ttl m2).1.
Proof using Hclk.
  intros H. unfold increment. destruct canceled; [done|].
  rewrite !current_view, !keptExpiry_view, !(H key) by apply Hclk.
  destruct (view (clk 0%nat) m2 key) as [i|]; [destruct (decodeInt (payload i)) as [[z|]|e]; try done|];
    (destruct (wouldOverflow _ delta); [done|]; split; [done|]; by apply insert_live_proper).
Qed.

Lemma Delete_respects canceled keys m1 m2 :
  live_equiv t m1 m2 ->
  (Delete canceled keys m1).2 = (Delete canceled keys m2).2 /\
  live_equiv t (Delete canceled keys m1).1 (Delete canceled keys m2).1.
Proof using.
  intros H. unfold Delete. destruct canceled; [done|]. split; [done|]. simpl.
  revert m1 m2 H. induction keys as [|k keys IH]; intros m1 m2 H; simpl; [done|].
  apply IH. by apply delete_live_proper.
Qed.

Lemma DecrementExisting_respects canceled key delta m1 m2 :
  live_equiv t m1 m2 ->
  (DecrementExisting canceled (clk 0%nat) key delta m1).2 =
    (DecrementExisting canceled (clk 0%nat) key delta m2).2 /\
  live_equiv t (DecrementExisting canceled (clk 0%nat) key delta m1).1
    (DecrementExisting canceled (clk 0%nat) key delta m2).1.
Proof using Hclk.
  intros H. unfold DecrementExisting. destruct canceled; [done|].
  assert (forall m, match m !! key with
    | None => (m, (0, false, None))
    | Some item =>
        if expired (clk 0%nat) item then (m, (0, false, None))
        else match decodeInt (payload item) with
        | Ok (Some stored) =>
            if decrementOverflow stored delta then (m, (0, true, Some (Overflow key)))
            else (<[key := mkItem (encodeInt (wrap_int64 (stored - delta))) (expiresAt item)]> m,
                  (wrap_int64 (stored - delta), true, None))
        | Ok None | Err _ => (m, (0, true, Some (NotInteger key)))
        end
    end =
    match view (clk 0%nat) m key with
    | None => (m, (0, false, None))
    | Some item =>
        match decodeInt (payload item) with
        | Ok (Some stored) =>
            if decrementOverflow stored delta then (m, (0, true, Some (Overflow key)))
            else (<[key := mkItem (encodeInt (wrap_int64 (stored - delta))) (expiresAt item)]> m,
                  (wrap_int64 (stored - delta), true, None))
        | Ok None | Err _ => (m, (0, true, Some (NotInteger key)))
        end
    end) as Hv.
  { intros m. unfold view. destruct (m !! key); [|done]. by destruct (expired _ _). }
  cbv zeta. rewrite !Hv, (H key) by apply Hclk. destruct (view _ m2 key) as [i|]; [|done].
  destruct (decodeInt (payload i)) as [[z|]|e]; try done.
  destruct (decrementOverflow z delta); [done|]. simpl. split; [done|]. by apply insert_live_proper.
Qed.

(** What a call returns, and the live view it leaves, depend on the live view
    it finds. *)
Lemma perform_respects canceled c m1 m2 :
  live_equiv t m1 m2 ->
  (perform canceled clk c m1).2 = (perform canceled clk c m2).2 /\
  live_equiv t2 (perform canceled clk c m1).1 (perform canceled clk c m2).1.
Proof using Hclk.
  intros H. assert (live_equiv t2 m1 m2) as H2.
  { apply (live_equiv_mono t); [|done]. pose proof (Hclk 0%nat). lia. }
  assert (forall (A : Type) (f1 f2 : memory * A), f1.2 = f2.2 /\ live_equiv t f1.1 f2.1 ->
    f1.2 = f2.2 /\ live_equiv t2 f1.1 f2.1) as Hmono.
  { intros A f1 f2 [Ha Hb]. split; [done|]. apply (live_equiv_mono t); [|done].
    pose proof (Hclk 0%nat). lia. }
  destruct c as [key|key p ttl|keys|key delta|key delta ttl|key delta]; simpl.
  - destruct (Get_live Some canceled key m1) as [Hl1 Hr1], (Get_live Some canceled key m2) as [Hl2 Hr2].
    destruct (Get Some canceled clk _ key m1) as [m1' r1] eqn:E1.
    destruct (Get Some canceled clk _ key m2) as [m2' r2] eqn:E2. simpl in *.
    split; [|by rewrite Hl1, Hl2]. f_equal. destruct canceled.
    + unfold Get in *. congruence.
    + rewrite Hr1, Hr2, (H key) by (done || apply Hclk). done.
  - unfold Set_. destruct canceled; [done|]. destruct (validateTTL ttl); [done|].
    destruct p; [|done]. simpl. split; [done|]. by apply insert_live_proper.
  - pose proof (Hmono _ _ _ (Delete_respects canceled keys m1 m2 H)) as [Ha Hb].
    destruct (Delete canceled keys m1), (Delete canceled keys m2); simpl in *. by subst.
  - pose proof (Hmono _ _ _ (increment_respects canceled key delta 0 m1 m2 H)) as [Ha Hb].
    unfold Increment. destruct (increment _ _ _ _ _ m1), (increment _ _ _ _ _ m2); simpl in *. by subst.
  - unfold IncrementTTL. destruct (validateCounterTTL ttl); [done|].
    pose proof (Hmono _ _ _ (increment_respects canceled key delta ttl m1 m2 H)) as [Ha Hb].
    destruct (increment _ _ _ _ _ m1), (increment _ _ _ _ _ m2); simpl in *. by subst.
  - pose proof (Hmono _ _ _ (DecrementExisting_respects canceled key delta m1 m2 H)) as [Ha Hb].
    destruct (DecrementExisting _ _ _ _ m1) as [? [[? ?] ?]],
      (DecrementExisting _ _ _ _ m2) as [? [[? ?] ?]]; simpl in *. by simplify_eq.
Qed.
End Respects.

(** ** Interleavings *)

(** A step of the cache: a call, or the eviction of one key as the sweep or
    another caller's Get does it. *)
Inductive cache_step : Type :=
| Call (canceled : bool) (clk : nat -> time) (c : call)
| Evict (now : time) (key : string).

Fixpoint replies (l : list cache_step) (m : memory) : list reply :=
  match l with
  | [] => []
  | Call canceled clk c :: l =>
      let '(m, r) := perform canceled clk c m in r :: replies l m
  | Evict now key :: l => replies l (evict now key m)
  end.

Definition is_call (s : cache_step) : Prop :=
  match s with Call _ _ _ => True | Evict _ _ => False end.

#[export] Instance is_call_dec s : Decision (is_call s).
Proof. destruct s; simpl; apply _. Defined.

(** Time moves on: each step reads the clock from [t] on, and the next ones
    after it. *)
Inductive in_order : time -> list cache_step -> Prop :=
| in_order_nil t : in_order t []
| in_order_call t t2 canceled clk c l :
    (forall i, t <= clk i <= t2) -> in_order t2 l -> in_order t (Call canceled clk c :: l)
| in_order_evict t now key l :
    (* the sweep reads the clock once, before it starts *)
    in_order (Z.max t now) l -> in_order t (Evict now key :: l).

Lemma replies_respect t l : in_order t l -> forall m1 m2,
  live_equiv t m1 m2 -> replies l m1 = replies (filter is_call l) m2.
Proof.
  induction 1 as [t|t t2 canceled clk c l Hclk _ IH|t now key l _ IH]; intros m1 m2 Hm; [done|..].
  - rewrite filter_cons_True by done. simpl.
    destruct (perform_respects t t2 clk Hclk canceled c m1 m2 Hm) as [Hr Hm'].
    destruct (perform canceled clk c m1) as [m1' r1], (perform canceled clk c m2) as [m2' r2].
    simpl in *. subst. f_equal. by apply IH.
  - rewrite filter_cons_False by auto. simpl. apply IH.
    etransitivity; [apply evict_live; lia|]. apply (live_equiv_mono t); [lia | done].
Qed.

(** The background sweep cannot be observed: in any sequence of cache calls and sweeps in
    the order of their clocks, the replies to the calls are those of the sequence without
    the sweeps. *)
Theorem evictions_invisible t l m : in_order t l -> replies l m = replies (filter is_call l) m.
Proof. intros Ho. by eapply replies_respect. Qed.

Lemma evictions_invisible_witness :
  replies [Call false (fun _ => 100) (CIncrementTTL "k" 1 50); Evict 120 "k";
           Call false (fun _ => 140) (CIncrementTTL "k" 1 50); Evict 200 "k";
           Call false (fun _ => 210) (CIncrementTTL "k" 1 50)] ∅
  = [RCount (Ok 1); RCount (Ok 2); RCount (Ok 1)].
Proof.
  rewrite (evictions_invisible 0); [vm_compute; reflexivity|].
  apply (in_order_call _ 100); [intros; lia|]. apply in_order_evict.
  apply (in_order_call _ 150); [intros; lia|]. apply in_order_evict.
  apply (in_order_call _ 300); [intros; lia|]. apply in_order_nil.
Defined.

(** ** The sweep *)

(** The batches of a snapshot hold its keys, in order, and none is longer than
    the batch size. *)
Lemma batches_concat size keys : (0 < size)%nat -> forall fuel,
  (length keys <= fuel)%nat -> concat (batches fuel size keys) = keys.
Proof.
  intros Hs fuel. revert keys. induction fuel as [|fuel IH]; intros [|k keys] Hl; simpl in *; try done; try lia.
  rewrite IH by (rewrite length_drop; simpl; lia). apply take_drop.
Qed.

Lemma batches_bounded size fuel : forall keys b, b ∈ batches fuel size keys -> (length b <= size)%nat.
Proof.
  induction fuel as [|fuel IH]; intros [|k keys] b; simpl; try (intros H; by apply elem_of_nil in H).
  intros [->|Hb]%elem_of_cons; [|by eapply IH]. rewrite length_take. lia.
Qed.

Lemma sweepBatches_concat now bs m :
  sweepBatches now bs (fun _ m => m) m = sweepBatch now (concat bs) m.
Proof.
  revert m. induction bs as [|b bs IH]; intros m; simpl; [done|].
  rewrite IH. unfold sweepBatch. by rewrite fold_left_app.
Qed.

Lemma sweepBatch_lookup now ks : forall m k,
  sweepBatch now ks m !! k =
  match m !! k with
  | Some i => if expired now i && bool_decide (k ∈ ks) then None else Some i
  | None => None
  end.
Proof.
  induction ks as [|k0 ks IH]; intros m k; simpl.
  - destruct (m !! k); [|done]. by rewrite andb_false_r.
  - unfold sweepBatch in *. simpl. rewrite IH. unfold evict.
    destruct (decide (k0 = k)) as [<-|Hne].
    + destruct (m !! k0) as [i|] eqn:E; [|by rewrite E].
      rewrite (bool_decide_eq_true_2 (k0 ∈ k0 :: ks)) by set_solver. rewrite andb_true_r.
      destruct (expired now i) eqn:Ex; [by rewrite lookup_delete_eq|]. by rewrite E, Ex.
    + rewrite (bool_decide_ext (k ∈ k0 :: ks) (k ∈ ks)) by set_solver.
      destruct (m !! k0) as [i|] eqn:E; [|done].
      destruct (expired now i); [|done]. by rewrite lookup_delete_ne.
Qed.

(** A sweep removes every expired item and only those. *)
Theorem sweepExpired_removes_expired now size m :
  (0 < size)%nat ->
  (sweepExpired now size (fun _ m => m) m).1 = filter (fun ki => expired now ki.2 = false) m /\
  (forall b, b ∈ batches (length (map fst (map_to_list m))) size (map fst (map_to_list m)) ->
     (length b <= size)%nat).
Proof.
  intros Hs. split; [|by apply batches_bounded]. unfold sweepExpired. simpl.
  rewrite sweepBatches_concat, batches_concat by done. apply map_eq. intros k.
  rewrite sweepBatch_lookup, map_lookup_filter. destruct (m !! k) as [i|] eqn:E; [|done]. simpl.
  rewrite (bool_decide_eq_true_2 (k ∈ _)), andb_true_r.
  - by destruct (expired now i).
  - apply list_elem_of_fmap. exists (k, i). split; [done|]. by apply elem_of_map_to_list.
Qed.

Lemma sweepExpired_removes_expired_witness :
  (sweepExpired 200 2 (fun _ m => m)
     {["a" := mkItem "1" 100; "b" := mkItem "1" 0; "c" := mkItem "1" 300]}).1
  = {["b" := mkItem "1" 0; "c" := mkItem "1" 300]}.
Proof.
  rewrite (proj1 (sweepExpired_removes_expired 200 2 _ ltac:(lia))). vm_compute. reflexivity.
Defined.

(** ** Counters *)

Lemma wouldOverflow_spec cur delta :
  in_int64 cur -> in_int64 delta -> wouldOverflow cur delta = negb (bool_decide (in_int64 (cur + delta))).
Proof.
  unfold in_int64. intros Hc Hd. unfold wouldOverflow.
  assert (0 < delta -> wrap_int64 (max_int64 - delta) = max_int64 - delta) as Hw1.
  { intros. apply wrap_int64_id. unfold in_int64, min_int64, max_int64 in *. lia. }
  assert (delta < 0 -> wrap_int64 (min_int64 - delta) = min_int64 - delta) as Hw2.
  { intros. apply wrap_int64_id. unfold in_int64, min_int64, max_int64 in *. lia. }
  destruct (0 <? delta) eqn:E1, (delta <? 0) eqn:E2; breflect; try lia;
    rewrite ?Hw1, ?Hw2 by lia; simpl; rewrite ?orb_false_r;
    (case_bool_decide; simpl; [apply Z.ltb_ge || done | apply Z.ltb_lt || idtac]; lia).
Qed.

Lemma decrementOverflow_spec stored delta :
  in_int64 stored -> in_int64 delta ->
  decrementOverflow stored delta = negb (bool_decide (in_int64 (stored - delta))).
Proof.
  unfold in_int64. intros Hc Hd. unfold decrementOverflow.
  assert (delta < 0 -> wrap_int64 (max_int64 + delta) = max_int64 + delta) as Hw1.
  { intros. apply wrap_int64_id. unfold in_int64, min_int64, max_int64 in *. lia. }
  assert (0 < delta -> wrap_int64 (min_int64 + delta) = min_int64 + delta) as Hw2.
  { intros. apply wrap_int64_id. unfold in_int64, min_int64, max_int64 in *. lia. }
  destruct (0 <? delta) eqn:E1, (delta <? 0) eqn:E2; breflect; try lia;
    rewrite ?Hw1, ?Hw2 by lia; simpl; rewrite ?orb_false_r;
    (case_bool_decide; simpl; [apply Z.ltb_ge || done | apply Z.ltb_lt || idtac]; lia).
Qed.

Lemma decodeInt_range p z : decodeInt p = Ok (Some z) -> in_int64 z.
Proof. unfold decodeInt. intros H. split_cases. breflect. done. Qed.

Lemma current_range now key m cur : current now key m = Ok cur -> in_int64 cur.
Proof.
  unfold current. intros H. split_cases; eauto using decodeInt_range;
    unfold in_int64, min_int64, max_int64; lia.
Qed.

(** Increment computes on 64-bit integers without wrapping: it stores and returns the exact
    sum of the live value and delta, in a form that reads back as that integer and leaving
    other keys alone, or fails without a change because the value is not an integer or the
    sum does not fit. *)
Theorem increment_exact clk key delta ttl m :
  in_int64 delta ->
  match increment false clk key delta ttl m with
  | (m', Ok v) =>
      (exists cur, current (clk 0%nat) key m = Ok cur /\ v = cur + delta) /\
      (exists e, m' !! key = Some (mkItem (encodeInt v) e)) /\ decodeInt (encodeInt v) = Ok (Some v) /\
      forall k, k <> key -> m' !! k = m !! k
  | (m', Err e) =>
      m' = m /\ (e = NotInteger key /\ current (clk 0%nat) key m = Err e \/
                 e = Overflow key /\ exists cur, current (clk 0%nat) key m = Ok cur /\
                   ~ in_int64 (cur + delta))
  end.
Proof.
  intros Hd. unfold increment. destruct (current (clk 0%nat) key m) as [cur|e] eqn:E.
  - pose proof (current_range _ _ _ _ E) as Hc. rewrite wouldOverflow_spec by done.
    case_bool_decide as Hi; simpl; [|split; [done|]; right; eauto].
    rewrite wrap_int64_id by done. split; [eauto|]. rewrite lookup_insert_eq.
    split; [eauto|]. split; [by apply decodeInt_encodeInt|].
    intros k Hk. by rewrite lookup_insert_ne.
  - split; [done|]. left. split; [|done]. unfold current in E. split_cases; done.
Qed.

(** [DecrementExisting] is exact or changes nothing. *)
Theorem DecrementExisting_exact now key delta m :
  in_int64 delta ->
  match view now m key with
  | None => DecrementExisting false now key delta m = (m, (0, false, None))
  | Some i =>
      match decodeInt (payload i) with
      | Ok (Some z) =>
          DecrementExisting false now key delta m =
            if bool_decide (in_int64 (z - delta))
            then (<[key := mkItem (encodeInt (z - delta)) (expiresAt i)]> m, (z - delta, true, None))
            else (m, (0, true, Some (Overflow key)))
      | _ => DecrementExisting false now key delta m = (m, (0, true, Some (NotInteger key)))
      end
  end.
Proof.
  intros Hd. unfold DecrementExisting, view. destruct (m !! key) as [i|] eqn:E; [|done].
  destruct (expired now i); [done|]. destruct (decodeInt (payload i)) as [[z|]|e] eqn:Ez; try done.
  rewrite decrementOverflow_spec by eauto using decodeInt_range.
  case_bool_decide; simpl; [|done]. by rewrite wrap_int64_id.
Qed.

(** Hits of a limiter on one key, each with its clock, and what they count. *)
Fixpoint hits (key : string) (ttl : duration) (l : list (nat -> time)) (m : memory)
    : memory * list (result cacheError Z) :=
  match l with
  | [] => (m, [])
  | clk :: l =>
      let '(m, r) := IncrementTTL false clk key 1 ttl m in
      let '(m, rs) := hits key ttl l m in (m, r :: rs)
  end.

Lemma IncrementTTL_live clk key ttl m n e :
  0 < ttl -> 0 <= n < max_int64 -> 0 < e -> clk 0%nat < e -> clk 1%nat < e ->
  m !! key = Some (mkItem (encodeInt n) e) ->
  IncrementTTL false clk key 1 ttl m = (<[key := mkItem (encodeInt (n + 1)) e]> m, Ok (n + 1)).
Proof.
  intros Ht Hn He H0 H1 Hm. unfold IncrementTTL, validateCounterTTL.
  replace (ttl <=? 0) with false by (symmetry; apply Z.leb_gt; lia).
  assert (forall i, clk i < e -> expired (clk i) (mkItem (encodeInt n) e) = false) as Hx.
  { intros i Hi. unfold expired. simpl. apply andb_false_iff. right.
    apply negb_false_iff, Before_true. done. }
  unfold increment, current, keptExpiry. rewrite Hm, !Hx by done. simpl payload.
  assert (in_int64 n) by (unfold in_int64, min_int64; lia).
  rewrite decodeInt_encodeInt by done.
  rewrite wouldOverflow_spec by (done || unfold in_int64, min_int64, max_int64; lia).
  assert (in_int64 (n + 1)) by (unfold in_int64, min_int64, max_int64 in *; lia).
  rewrite bool_decide_eq_true_2 by done. simpl. rewrite wrap_int64_id by done.
  unfold IsZero. by replace (e =? 0) with false by (symmetry; apply Z.eqb_neq; lia).
Qed.

Lemma IncrementTTL_fresh clk key ttl m :
  0 < ttl -> view (clk 0%nat) m key = None -> clk 0%nat <= clk 1%nat ->
  IncrementTTL false clk key 1 ttl m =
    (<[key := mkItem (encodeInt 1) (clk 1%nat + ttl)]> m, Ok 1).
Proof.
  intros Ht Hv Hc. unfold IncrementTTL, validateCounterTTL.
  replace (ttl <=? 0) with false by (symmetry; apply Z.leb_gt; lia).
  assert (view (clk 1%nat) m key = None) as Hv1.
  { unfold view in *. destruct (m !! key); [|done]. destruct (expired (clk 0%nat) _) eqn:E; [|done].
    by rewrite (expired_mono _ _ _ Hc E). }
  unfold increment. rewrite current_view, keptExpiry_view, Hv, Hv1.
  simpl. by replace (0 <? ttl) with true by (symmetry; apply Z.ltb_lt; lia).
Qed.

Lemma hits_live key ttl l : forall m n e,
  0 < ttl -> 0 < e -> 0 <= n -> n + Z.of_nat (length l) <= max_int64 ->
  Forall (fun clk => clk 0%nat < e /\ clk 1%nat < e) l ->
  m !! key = Some (mkItem (encodeInt n) e) ->
  (hits key ttl l m).2 = map (fun i => Ok (n + Z.of_nat i)) (seq 1 (length l)) /\
  (hits key ttl l m).1 !! key = Some (mkItem (encodeInt (n + Z.of_nat (length l))) e).
Proof.
  induction l as [|clk l IH]; intros m n e Ht He Hn Hl Hc Hm; simpl; [by rewrite Z.add_0_r|].
  inversion Hc as [|? ? [H0 H1] Hc']; subst. simpl length in Hl.
  rewrite (IncrementTTL_live clk key ttl m n e) by (done || lia).
  destruct (IH (<[key := mkItem (encodeInt (n + 1)) e]> m) (n + 1) e) as [Hr Hk];
    [done | done | lia | lia | done | by rewrite lookup_insert_eq |].
  destruct (hits key ttl l _) as [m' rs]. simpl in *. subst rs. split.
  - f_equal. rewrite <- (seq_shift (length l) 1), map_map. apply map_ext. intros i. f_equal. lia.
  - rewrite Hk. do 2 f_equal. f_equal. lia.
Qed.

(** A fixed-window counter counts every hit: the calls of IncrementTTL within a window
    return 1, 2, 3 and so on, keep the deadline of the first, and the first call after the
    deadline starts again at 1. *)
Theorem window_counts_every_hit key ttl first l m :
  0 < ttl -> 0 < first 1%nat -> view (first 0%nat) m key = None -> first 0%nat <= first 1%nat ->
  let deadline := first 1%nat + ttl in
  Forall (fun clk => clk 0%nat < deadline /\ clk 1%nat < deadline) l ->
  Z.of_nat (length l) < max_int64 ->
  (hits key ttl (first :: l) m).2 = map (fun i => Ok (Z.of_nat i)) (seq 1 (S (length l))) /\
  (hits key ttl (first :: l) m).1 !! key =
    Some (mkItem (encodeInt (Z.of_nat (S (length l)))) deadline) /\
  forall clk, deadline <= clk 0%nat -> clk 0%nat <= clk 1%nat ->
    (IncrementTTL false clk key 1 ttl (hits key ttl (first :: l) m).1).2 = Ok 1.
Proof.
  intros Ht Hp Hv Hc deadline Hl Hn. cbn [hits]. rewrite (IncrementTTL_fresh first key ttl m) by done.
  fold deadline.
  destruct (hits_live key ttl l (<[key := mkItem (encodeInt 1) deadline]> m) 1 deadline)
    as [Hr Hk]; [done | lia | lia | lia | done | by rewrite lookup_insert_eq |].
  destruct (hits key ttl l _) as [m' rs]. cbn [fst snd] in *. subst rs. split; [|split].
  - simpl. f_equal. rewrite <- (seq_shift (length l) 1), map_map. apply map_ext. intros i. f_equal. lia.
  - rewrite Hk. do 2 f_equal. f_equal. lia.
  - intros clk Hd Hc'. rewrite (IncrementTTL_fresh clk key ttl m'); [done|done| |done].
    unfold view. rewrite Hk. unfold expired. simpl.
    replace (IsZero deadline) with false by (symmetry; apply Z.eqb_neq; lia).
    by replace (Before (clk 0%nat) deadline) with false by (symmetry; apply Before_false; lia).
Qed.

(** C40. The expiry read twice: increment reads the clock once for the value and once for
    the expiry it keeps, so when the item expires between the two readings the old count
    goes on in a new window, and with Increment it loses its expiry altogether. *)
Theorem increment_expiry_race clk key ttl m n e :
  0 < ttl -> 0 <= n < max_int64 -> m !! key = Some (mkItem (encodeInt n) e) ->
  0 < clk 0%nat -> clk 0%nat < e -> e <= clk 1%nat ->
  IncrementTTL false clk key 1 ttl m =
    (<[key := mkItem (encodeInt (n + 1)) (clk 1%nat + ttl)]> m, Ok (n + 1)) /\
  Increment false clk key 1 m = (<[key := mkItem (encodeInt (n + 1)) 0]> m, Ok (n + 1)).
Proof.
  intros Ht Hn Hm Hp H0 H1. unfold IncrementTTL, Increment, validateCounterTTL.
  replace (ttl <=? 0) with false by (symmetry; apply Z.leb_gt; lia).
  assert (expired (clk 0%nat) (mkItem (encodeInt n) e) = false) as Hx0.
  { unfold expired. simpl. apply andb_false_iff. right. by apply negb_false_iff, Before_true. }
  assert (expired (clk 1%nat) (mkItem (encodeInt n) e) = true) as Hx1.
  { unfold expired. simpl. apply andb_true_iff. split; apply negb_true_iff;
      [apply Z.eqb_neq; lia | by apply Before_false]. }
  assert (in_int64 n) by (unfold in_int64, min_int64; lia).
  assert (in_int64 (n + 1)) by (unfold in_int64, min_int64, max_int64 in *; lia).
  unfold increment, current, keptExpiry. rewrite Hm, Hx0, Hx1. simpl payload.
  rewrite decodeInt_encodeInt by done.
  rewrite wouldOverflow_spec by (done || unfold in_int64, min_int64, max_int64; lia).
  rewrite bool_decide_eq_true_2 by done. simpl. rewrite wrap_int64_id by done.
  by replace (0 <? ttl) with true by (symmetry; apply Z.ltb_lt; lia).
Qed.

Definition full_counter : memory := {["k" := mkItem (encodeInt max_int64) 0]}.

Lemma increment_exact_witness :
  (increment false (fun _ => 100) "k" 1 0 full_counter).1 = full_counter.
Proof.
  pose proof (increment_exact (fun _ => 100) "k" 1 0 full_counter
    ltac:(split; vm_compute; discriminate)) as H.
  assert ((increment false (fun _ => 100) "k" 1 0 full_counter).2 = Err (Overflow "k")) as E
    by (vm_compute; reflexivity).
  destruct (increment false (fun _ => 100) "k" 1 0 full_counter) as [m' r]. simpl in E. subst r.
  exact (proj1 H).
Defined.

Definition five_counter : memory := {["k" := mkItem (encodeInt 5) 300]}.

Lemma DecrementExisting_exact_witness :
  DecrementExisting false 100 "k" 2 five_counter =
    (<["k" := mkItem (encodeInt 3) 300]> five_counter, (3, true, None)).
Proof.
  pose proof (DecrementExisting_exact 100 "k" 2 five_counter
    ltac:(split; vm_compute; discriminate)) as H.
  replace (view 100 five_counter "k") with (Some (mkItem (encodeInt 5) 300)) in H by reflexivity.
  cbn [payload] in H. rewrite decodeInt_encodeInt in H by (split; vm_compute; discriminate).
  rewrite bool_decide_eq_true_2 in H by (split; vm_compute; discriminate). exact H.
Defined.

Lemma window_counts_every_hit_witness :
  (hits "ip" Minute [(fun _ => 100); (fun _ => 200); (fun _ => 300)] ∅).2 = [Ok 1; Ok 2; Ok 3].
Proof.
  apply (window_counts_every_hit "ip" Minute (fun _ => 100) [(fun _ => 200); (fun _ => 300)] ∅);
    [reflexivity | reflexivity | reflexivity | lia | repeat constructor; reflexivity | reflexivity].
Defined.

Lemma increment_expiry_race_witness :
  (IncrementTTL false (fun i => 99 + Z.of_nat i) "ip" 1 50 {["ip" := mkItem (encodeInt 5) 100]}).2
  = Ok 6.
Proof.
  rewrite (proj1 (increment_expiry_race (fun i => 99 + Z.of_nat i) "ip" 50
    {["ip" := mkItem (encodeInt 5) 100]} 5 100 ltac:(lia) ltac:(split; [lia | reflexivity])
    ltac:(reflexivity) ltac:(reflexivity) ltac:(reflexivity) ltac:(vm_compute; discriminate))).
  reflexivity.
Defined.
