(* ===== verification/CacheNamespace.v ===== *)
(** * cache/cache.go, cache/namespace.go, cache/noop.go

    The Cache and Counter interfaces as records of operations on a state,
    [Namespace] over any cache, the [Noop] driver, the package functions
    IncrementTTL and DecrementExisting with their fallbacks for a cache without
    counters, and [Memory] behind the interface. *)

From stdpp Require Import base tactics numbers list strings gmap fin_maps.
From Stdlib Require Import ZArith Lia Ascii.
From S2P Require Import Prelude GoBytes Cache CacheFacts.

Local Open Scope string_scope.
Local Open Scope list_scope.
Local Open Scope Z_scope.

(** [type Counter interface] *)
Record CounterOps (S : Type) : Type := mkCounterOps {
  cIncrementTTL : string -> Z -> duration -> S -> S * result cacheError Z;
  cDecrementExisting : string -> Z -> S -> S * (Z * bool * option cacheError)
}.
Arguments mkCounterOps {S}.
Arguments cIncrementTTL {S}.
Arguments cDecrementExisting {S}.

(** [type Cache interface], with the Counter a type assertion finds. *)
Record CacheOps (S : Type) : Type := mkCacheOps {
  cGet : string -> S -> S * result cacheError (option string);
  cSet : string -> option string -> duration -> S -> S * option cacheError;
  cDelete : list string -> S -> S * option cacheError;
  cIncrement : string -> Z -> S -> S * result cacheError Z;
  cCounter : option (CounterOps S)
}.
Arguments mkCacheOps {S}.
Arguments cGet {S}.
Arguments cSet {S}.
Arguments cDelete {S}.
Arguments cIncrement {S}.
Arguments cCounter {S}.

Section Interface.
Context {S : Type}.

(** [DecrementExisting] of cache.go; [-delta] is at 64 bits. *)
Definition decrementExisting (c : CacheOps S) (key : string) (delta : Z) (s : S)
    : S * (Z * bool * option cacheError) :=
  match cCounter c with
  | Some counter => cDecrementExisting counter key delta s
  | None =>
      match cIncrement c key (wrap_int64 (- delta)) s with
      | (s, Err e) => (s, (0, false, Some e))
      | (s, Ok value) =>
          if value =? wrap_int64 (- delta) then
            match cDelete c [key] s with
            | (s, Some e) => (s, (0, false, Some e))
            | (s, None) => (s, (0, false, None))
            end
          else (s, (value, true, None))
      end
  end.

(** [IncrementTTL] of cache.go; the counter is set again as its JSON. *)
Definition incrementTTL (c : CacheOps S) (key : string) (delta : Z) (ttl : duration) (s : S)
    : S * result cacheError Z :=
  match validateCounterTTL ttl with
  | Some e => (s, Err e)
  | None =>
      match cCounter c with
      | Some counter => cIncrementTTL counter key delta ttl s
      | None =>
          match cIncrement c key delta s with
          | (s, Err e) => (s, Err e)
          | (s, Ok value) =>
              if negb (value =? delta) then (s, Ok value)
              else match cSet c key (Some (encodeInt value)) ttl s with
                   | (s, Some e) => (s, Err e)
                   | (s, None) => (s, Ok value)
                   end
          end
      end
  end.

(** [namespaced.key] *)
Definition nsKey (namespace key : string) : string := namespace ++ ":" ++ key.

(** [strings.Trim(namespace, ":")] *)
Definition trimColons (s : string) : string :=
  to_string (trim_right [of_string ":"] (trim_left [of_string ":"] (of_string s))).

(** [Namespace] *)
Definition Namespace (namespace : string) (next : CacheOps S) : CacheOps S :=
  let namespace := trimColons namespace in
  if String.eqb namespace "" then next
  else mkCacheOps
    (fun key => cGet next (nsKey namespace key))
    (fun key => cSet next (nsKey namespace key))
    (fun keys => cDelete next (map (nsKey namespace) keys))
    (fun key => cIncrement next (nsKey namespace key))
    (Some (mkCounterOps
       (fun key => incrementTTL next (nsKey namespace key))
       (fun key => decrementExisting next (nsKey namespace key)))).

(** [Noop] *)
Definition Noop (canceled : bool) : CacheOps S :=
  mkCacheOps
    (fun _ s => (s, if canceled then Err CtxErr else Ok None))
    (fun _ _ ttl s => (s, if canceled then Some CtxErr else validateTTL ttl))
    (fun _ s => (s, if canceled then Some CtxErr else None))
    (fun _ _ s => (s, if canceled then Err CtxErr else Ok 0))
    (Some (mkCounterOps
       (fun _ _ ttl s =>
          (s, match validateCounterTTL ttl with
              | Some e => Err e
              | None => if canceled then Err CtxErr else Ok 0
              end))
       (fun _ _ s => (s, (0, false, if canceled then Some CtxErr else None))))).

(** [Store]: a nil store, or one without an implementation, is [None]. *)
Definition storeGet (impl : option (CacheOps S)) (key : string) (s : S)
    : S * result cacheError (option string) :=
  match impl with Some c => cGet c key s | None => (s, Err NilStore) end.

Definition storeSet (impl : option (CacheOps S)) (key : string) (p : option string) (ttl : duration)
    (s : S) : S * option cacheError :=
  match impl with Some c => cSet c key p ttl s | None => (s, Some NilStore) end.

Definition storeDelete (impl : option (CacheOps S)) (keys : list string) (s : S)
    : S * option cacheError :=
  match impl with Some c => cDelete c keys s | None => (s, Some NilStore) end.

Definition storeIncrement (impl : option (CacheOps S)) (key : string) (delta : Z) (s : S)
    : S * result cacheError Z :=
  match impl with Some c => cIncrement c key delta s | None => (s, Err NilStore) end.

Definition storeIncrementTTL (impl : option (CacheOps S)) (key : string) (delta : Z)
    (ttl : duration) (s : S) : S * result cacheError Z :=
  match impl with Some c => incrementTTL c key delta ttl s | None => (s, Err NilStore) end.

Definition storeDecrementExisting (impl : option (CacheOps S)) (key : string) (delta : Z) (s : S)
    : S * (Z * bool * option cacheError) :=
  match impl with
  | Some c => decrementExisting c key delta s
  | None => (s, (0, false, Some NilStore))
  end.
End Interface.

(** ** Memory behind the interface *)

(** [Memory]'s methods, for callers with the given context and clock. *)
Definition memoryOps (canceled : bool) (clk : nat -> time) : CacheOps memory :=
  mkCacheOps
    (fun key m => Get Some canceled clk (fun m => m) key m)
    (fun key p ttl m => Set_ canceled (clk 0%nat) key p ttl m)
    (fun keys m => Delete canceled keys m)
    (fun key delta m => Increment canceled clk key delta m)
    (Some (mkCounterOps
       (fun key delta ttl m => IncrementTTL canceled clk key delta ttl m)
       (fun key delta m => DecrementExisting canceled (clk 0%nat) key delta m))).

(** A cache that is only a Cache: what the fallbacks are for. *)
Definition withoutCounter {S} (c : CacheOps S) : CacheOps S :=
  mkCacheOps (cGet c) (cSet c) (cDelete c) (cIncrement c) None.

(** ** Namespaces are apart *)

Definition colon_free (s : string) : Prop := ":"%char ∉ of_string s.

Lemma of_string_app s t : of_string (s ++ t)%string = of_string s ++ of_string t.
Proof. induction s as [|c s IH]; simpl; [done|]. by rewrite <- IH. Qed.

Lemma nsKey_cut n k : colon_free n -> CutByte (of_string (nsKey n k)) ":" = Some (of_string n, of_string k).
Proof. intros Hn. unfold nsKey. rewrite !of_string_app. by apply CutByte_app. Qed.

Lemma of_string_inj s t : of_string s = of_string t -> s = t.
Proof. intros H. rewrite <- (to_of_string s), <- (to_of_string t). by rewrite H. Qed.

Lemma nsKey_inj n n' k k' :
  colon_free n -> colon_free n' -> nsKey n k = nsKey n' k' -> n = n' /\ k = k'.
Proof.
  intros Hn Hn' E. pose proof (nsKey_cut n k Hn) as H. rewrite E, nsKey_cut in H by done.
  injection H as H1 H2. split; symmetry; by apply of_string_inj.
Qed.

Lemma trimColons_id n : colon_free n -> trimColons n = n.
Proof.
  intros Hn. unfold trimColons. rewrite trim_both_id; [apply to_of_string | by constructor|].
  apply Forall_forall. intros c Hc. unfold heads. simpl. 
  assert (c <> ":"%char) by (intros ->; done). set_solver.
Qed.

(** The keys a call can change. *)
Definition touches (c : CacheOps memory) (ks : string -> Prop) : Prop :=
  forall m k, ~ ks k ->
    (forall key, ks key -> (cGet c key m).1 !! k = m !! k) /\
    (forall key p ttl, ks key -> (cSet c key p ttl m).1 !! k = m !! k) /\
    (forall keys, Forall ks keys -> (cDelete c keys m).1 !! k = m !! k) /\
    (forall key delta, ks key -> (cIncrement c key delta m).1 !! k = m !! k) /\
    (forall key delta ttl, ks key -> (incrementTTL c key delta ttl m).1 !! k = m !! k) /\
    (forall key delta, ks key -> (decrementExisting c key delta m).1 !! k = m !! k).

Lemma evict_other now key k m : key <> k -> evict now key m !! k = m !! k.
Proof. intros Hne. unfold evict. repeat case_match; try done. by rewrite lookup_delete_ne. Qed.

Lemma Delete_other keys : forall k (m : memory),
  Forall (fun key => key <> k) keys -> (Delete false keys m).1 !! k = m !! k.
Proof.
  simpl. induction keys as [|key keys IH]; intros k m H; simpl; [done|].
  inversion H; subst. rewrite IH by done. by rewrite lookup_delete_ne.
Qed.

Lemma increment_other canceled clk key delta ttl k m :
  key <> k -> (increment canceled clk key delta ttl m).1 !! k = m !! k.
Proof.
  intros Hne. unfold increment. repeat case_match; simpl; try done. by rewrite lookup_insert_ne.
Qed.

Lemma memoryOps_touches canceled clk ks : touches (memoryOps canceled clk) ks.
Proof.
  intros m k Hk. assert (forall key, ks key -> key <> k) as Hne by congruence.
  unfold incrementTTL, decrementExisting. simpl. repeat split.
  - intros key Hkey. unfold Get. repeat case_match; simpl; try done. by apply evict_other, Hne.
  - intros key p ttl Hkey. unfold Set_. repeat case_match; simpl; try done;
      (rewrite lookup_insert_ne; auto).
  - intros keys Hkeys. destruct canceled; [done|]. apply Delete_other.
    eapply Forall_impl; [exact Hkeys|]. exact Hne.
  - intros key delta Hkey. by apply increment_other, Hne.
  - intros key delta ttl Hkey. destruct (validateCounterTTL ttl) eqn:E; [done|].
    unfold IncrementTTL. rewrite E. by apply increment_other, Hne.
  - intros key delta Hkey. unfold DecrementExisting. repeat case_match; simpl; try done;
      (rewrite lookup_insert_ne; auto).
Qed.

(** A namespaced cache touches only its own keys: no operation through it changes an entry
    outside the namespace, and two namespaces with different names free of colons share no
    key. *)
Theorem namespaces_isolated canceled clk n :
  n <> "" -> colon_free n ->
  let c := Namespace n (memoryOps canceled clk) in
  forall m k, (forall key, k <> nsKey n key) ->
    (forall key, (cGet c key m).1 !! k = m !! k) /\
    (forall key p ttl, (cSet c key p ttl m).1 !! k = m !! k) /\
    (forall keys, (cDelete c keys m).1 !! k = m !! k) /\
    (forall key delta, (cIncrement c key delta m).1 !! k = m !! k) /\
    (forall key delta ttl, (incrementTTL c key delta ttl m).1 !! k = m !! k) /\
    (forall key delta, (decrementExisting c key delta m).1 !! k = m !! k) /\
    (forall n' k', colon_free n' -> n' <> n -> forall key, nsKey n' k' <> nsKey n key).
Proof.
  intros Hne Hc c m k Hk.
  destruct (memoryOps_touches canceled clk (fun key => exists key', key = nsKey n key') m k)
    as (H1 & H2 & H3 & H4 & H5 & H6); [naive_solver|].
  assert (c = mkCacheOps
    (fun key => cGet (memoryOps canceled clk) (nsKey n key))
    (fun key => cSet (memoryOps canceled clk) (nsKey n key))
    (fun keys => cDelete (memoryOps canceled clk) (map (nsKey n) keys))
    (fun key => cIncrement (memoryOps canceled clk) (nsKey n key))
    (Some (mkCounterOps
       (fun key => incrementTTL (memoryOps canceled clk) (nsKey n key))
       (fun key => decrementExisting (memoryOps canceled clk) (nsKey n key))))) as Hcn.
  { unfold c, Namespace. rewrite trimColons_id by done. by apply String.eqb_neq in Hne as ->. }
  rewrite Hcn. repeat split; intros; cbn [cGet cSet cDelete cIncrement].
  - apply H1. eauto.
  - apply H2. eauto.
  - apply H3. apply Forall_map. apply Forall_true. eauto.
  - apply H4. eauto.
  - unfold incrementTTL at 1. cbn [cCounter cIncrementTTL].
    destruct (validateCounterTTL ttl); [done|]. apply H5. eauto.
  - unfold decrementExisting at 1. cbn [cCounter cDecrementExisting]. apply H6. eauto.
  - intros E. by apply nsKey_inj in E as [-> _].
Qed.

Lemma namespaces_isolated_witness :
  (cSet (Namespace "app" (memoryOps false (fun _ => 100))) "k" (Some "1") 0
     {["web:k" := mkItem "2" 0]}).1 !! "web:k" = Some (mkItem "2" 0).
Proof.
  assert (colon_free "app") as Hc by (apply (bool_decide_unpack _); vm_compute; exact I).
  assert (colon_free "web") as Hw by (apply (bool_decide_unpack _); vm_compute; exact I).
  destruct (namespaces_isolated false (fun _ => 100) "app" ltac:(discriminate) Hc
    {["web:k" := mkItem "2" 0]} "web:k") as (_ & H & _).
  { intros key E. by apply (nsKey_inj "web" "app" "k" key) in E as [? _]. }
  rewrite (H "k" (Some "1") 0). reflexivity.
Defined.

(** ** The fallbacks *)

(** The fallback of the counters agrees with the native operation. *)
Theorem fallback_decrement_agrees now key delta m :
  in_int64 delta -> delta <> min_int64 ->
  match view now m key with
  | None =>
      (decrementExisting (withoutCounter (memoryOps false (fun _ => now))) key delta m).2
        = (0, false, None) /\
      (decrementExisting (withoutCounter (memoryOps false (fun _ => now))) key delta m).1 !! key = None
  | Some i =>
      forall z, decodeInt (payload i) = Ok (Some z) -> z <> 0 -> in_int64 (z - delta) ->
      decrementExisting (withoutCounter (memoryOps false (fun _ => now))) key delta m =
      decrementExisting (memoryOps false (fun _ => now)) key delta m
  end.
Proof.
  intros Hd Hm. unfold decrementExisting. cbn [cCounter withoutCounter memoryOps cIncrement cDelete].
  assert (in_int64 (- delta)) as Hn by (unfold in_int64, min_int64, max_int64 in *; lia).
  rewrite (wrap_int64_id (- delta)) by done.
  unfold Increment, increment. rewrite current_view, keptExpiry_view.
  destruct (view now m key) as [i|] eqn:Hv.
  - intros z Hz Hnz Hi. rewrite Hz. pose proof (decodeInt_range _ _ Hz) as Hzr.
    rewrite wouldOverflow_spec, bool_decide_eq_true_2 by done. simpl negb. cbv iota zeta.
    rewrite wrap_int64_id by done. replace (z + - delta) with (z - delta) by lia.
    replace (z - delta =? - delta) with false by (symmetry; apply Z.eqb_neq; lia).
    cbn [cDecrementExisting]. unfold DecrementExisting. unfold view in Hv.
    destruct (m !! key) as [i'|]; [|done]. destruct (expired now i'); [done|]. simplify_eq.
    rewrite Hz, decrementOverflow_spec, bool_decide_eq_true_2 by done. simpl negb. cbv iota zeta.
    rewrite wrap_int64_id by done. rewrite andb_false_r. done.
  - rewrite wouldOverflow_spec, bool_decide_eq_true_2
      by (done || unfold in_int64, min_int64, max_int64; lia).
    simpl negb. cbv iota zeta. rewrite wrap_int64_id by done. rewrite Z.add_0_l, Z.eqb_refl.
    simpl. by rewrite lookup_delete_eq.
Qed.

Lemma fallback_decrement_agrees_witness :
  (decrementExisting (withoutCounter (memoryOps false (fun _ => 100))) "k" 1 ∅).2 = (0, false, None).
Proof.
  exact (proj1 (fallback_decrement_agrees 100 "k" 1 ∅ ltac:(split; vm_compute; discriminate)
    ltac:(discriminate))).
Defined.
