(* ===== verification/Redis.v ===== *)
(** * The Redis commands the job queue's scripts call

    Redis is not part of the repository: its commands are the class [RedisOps], and
    [RedisLaws] says what its documentation promises of them, over three views of the
    database: the strings with their expiry, the hashes, and the sorted sets.  A command on a
    key of another type is an error in Redis; the laws say nothing about it.  Scores are the
    millisecond timestamps of the scripts, well inside the integers a double holds.  The
    instance at the end keeps the three views in maps. *)

From stdpp Require Import base tactics numbers list sorting strings gmap fin_maps.
From Stdlib Require Import ZArith Lia.
From S2P Require Import Prelude Cache.

Local Open Scope string_scope.
Local Open Scope list_scope.
Local Open Scope Z_scope.

(** An end of a score interval. *)
Inductive bound : Type := Inf | Incl (z : Z) | Excl (z : Z).

Definition above (lo : bound) (s : Z) : bool :=
  match lo with Inf => true | Incl z => z <=? s | Excl z => z <? s end.

Definition below (hi : bound) (s : Z) : bool :=
  match hi with Inf => true | Incl z => s <=? z | Excl z => s <? z end.

Class RedisOps (D : Type) : Type := {
  GET : time -> string -> D -> option string;
  SETPX : time -> string -> string -> Z -> D -> D;
  DEL : string -> D -> D;
  EXISTS : time -> string -> D -> bool;
  INCR : string -> D -> D * Z;
  HSET : string -> list (string * string) -> D -> D;
  HGET : string -> string -> D -> option string;
  HDEL : string -> string -> D -> D;
  HINCRBY : string -> string -> Z -> D -> D * Z;
  ZADD : string -> Z -> string -> D -> D;
  ZREM : string -> string -> D -> D;
  ZSCORE : string -> string -> D -> option Z;
  ZRANGEBYSCORE : string -> bound -> bound -> nat -> D -> list (string * Z);  (* LIMIT 0 n *)
  ZREVRANGE : string -> nat -> nat -> D -> list (string * Z);                 (* start, how many *)
  ZREVRANK : string -> string -> D -> option nat;
  ZCOUNT : string -> bound -> bound -> D -> Z;
  ZCARD : string -> D -> Z
}.

(** Sorted sets are ordered by score, then by member. *)
Definition zle (x y : string * Z) : Prop :=
  x.2 < y.2 \/ (x.2 = y.2 /\ String.leb x.1 y.1 = true).

#[export] Instance zle_dec x y : Decision (zle x y).
Proof. unfold zle. apply _. Defined.

#[export] Instance zle_trans : Transitive zle.
Proof.
  intros x y z [H1|[H1 H1']] [H2|[H2 H2']]; unfold zle; [lia | lia | lia|].
  right. split; [lia | by eapply string_leb_trans].
Qed.

#[export] Instance zle_total : Total zle.
Proof.
  intros x y. unfold zle. destruct (Z.lt_trichotomy x.2 y.2) as [H|[H|H]]; [by left; left | | by right; left].
  destruct (String.leb x.1 y.1) eqn:E; [by left; right|]. right. right. split; [done|].
  destruct (String.leb_total x.1 y.1) as [H'|H']; [congruence | done].
Qed.

Definition zsorted (z : gmap string Z) : list (string * Z) := merge_sort zle (map_to_list z).

(** The least entry with a score in the interval: [ZRANGEBYSCORE ... LIMIT 0 1]. *)
Definition zwithin (lo hi : bound) (z : gmap string Z) : list (string * Z) :=
  List.filter (fun e => above lo e.2 && below hi e.2) (zsorted z).

(** The value of a string that has not expired. *)
Definition unexpired (now : time) (s : option (string * option time)) : option string :=
  match s with
  | Some (v, Some e) => if now <? e then Some v else None
  | Some (v, None) => Some v
  | None => None
  end.

(** A field that holds an integer; a missing one counts as zero. *)
Definition intField (f : option string) (n : Z) : Prop := f = Some (encodeInt n) \/ (f = None /\ n = 0).

Definition setFields (l : list (string * string)) (h : gmap string string) : gmap string string :=
  fold_left (fun h fv => <[fv.1 := fv.2]> h) l h.

(** ** The database as seen *)

Class RedisView (D : Type) : Type := {
  strings : D -> string -> option (string * option time);
  hashes : D -> string -> gmap string string;
  zsets : D -> string -> gmap string Z
}.

Section Views.
Context {D : Type} `{RedisView D}.

(** A key that holds nothing of another type. *)
Definition isString (d : D) (k : string) : Prop := hashes d k = ∅ /\ zsets d k = ∅.
Definition isHash (d : D) (k : string) : Prop := strings d k = None /\ zsets d k = ∅.
Definition isZSet (d : D) (k : string) : Prop := strings d k = None /\ hashes d k = ∅.

(** A write of one key, and of nothing else. *)
Definition wroteString (d d' : D) (k : string) (v : option (string * option time)) : Prop :=
  (forall k', strings d' k' = if decide (k' = k) then v else strings d k') /\
  (forall k', hashes d' k' = hashes d k') /\ (forall k', zsets d' k' = zsets d k').

Definition wroteHash (d d' : D) (k : string) (h : gmap string string) : Prop :=
  (forall k', strings d' k' = strings d k') /\
  (forall k', hashes d' k' = if decide (k' = k) then h else hashes d k') /\
  (forall k', zsets d' k' = zsets d k').

Definition wroteZSet (d d' : D) (k : string) (z : gmap string Z) : Prop :=
  (forall k', strings d' k' = strings d k') /\ (forall k', hashes d' k' = hashes d k') /\
  (forall k', zsets d' k' = if decide (k' = k) then z else zsets d k').
End Views.

(** ** What Redis promises *)

Class RedisLaws (D : Type) `{RedisOps D, RedisView D} : Prop := {
  law_GET now k d : isString d k -> GET now k d = unexpired now (strings d k);
  law_EXISTS now k d : isHash d k -> EXISTS now k d = bool_decide (hashes d k <> ∅);
  law_HGET k f d : isHash d k -> HGET k f d = hashes d k !! f;
  law_ZSCORE k m d : isZSet d k -> ZSCORE k m d = zsets d k !! m;
  law_ZRANGEBYSCORE k lo hi n d : isZSet d k -> ZRANGEBYSCORE k lo hi n d = take n (zwithin lo hi (zsets d k));
  law_ZREVRANGE k start n d : isZSet d k -> ZREVRANGE k start n d = take n (drop start (rev (zsorted (zsets d k))));
  law_ZREVRANK k m d : isZSet d k ->
    ZREVRANK k m d = fst <$> list_find (fun e => e.1 = m) (rev (zsorted (zsets d k)));
  law_ZCOUNT k lo hi d : isZSet d k -> ZCOUNT k lo hi d = Z.of_nat (length (zwithin lo hi (zsets d k)));
  law_ZCARD k d : isZSet d k -> ZCARD k d = Z.of_nat (size (zsets d k));
  law_SETPX now k v ms d : isString d k -> 0 < ms ->
    wroteString d (SETPX now k v ms d) k (Some (v, Some (now + ms * Millisecond)));
  law_DEL k d :
    (forall k', strings (DEL k d) k' = if decide (k' = k) then None else strings d k') /\
    (forall k', hashes (DEL k d) k' = if decide (k' = k) then ∅ else hashes d k') /\
    (forall k', zsets (DEL k d) k' = if decide (k' = k) then ∅ else zsets d k');
  law_INCR k d n e : isString d k ->
    (strings d k = Some (encodeInt n, e) \/ (strings d k = None /\ n = 0 /\ e = None)) -> in_int64 n -> in_int64 (n + 1) ->
    (INCR k d).2 = n + 1 /\ wroteString d (INCR k d).1 k (Some (encodeInt (n + 1), e));
  law_HSET k l d : isHash d k -> wroteHash d (HSET k l d) k (setFields l (hashes d k));
  law_HDEL k f d : isHash d k -> wroteHash d (HDEL k f d) k (delete f (hashes d k));
  law_HINCRBY k f delta n d : isHash d k -> intField (hashes d k !! f) n -> in_int64 n -> in_int64 (n + delta) ->
    (HINCRBY k f delta d).2 = n + delta /\
    wroteHash d (HINCRBY k f delta d).1 k (<[f := encodeInt (n + delta)]> (hashes d k));
  law_ZADD k s m d : isZSet d k -> wroteZSet d (ZADD k s m d) k (<[m := s]> (zsets d k));
  law_ZREM k m d : isZSet d k -> wroteZSet d (ZREM k m d) k (delete m (zsets d k))
}.

(** ** Three maps *)

Record tables : Type := mkTables {
  tstrings : gmap string (string * option time);
  thashes : gmap string (gmap string string);
  tzsets : gmap string (gmap string Z)
}.

Definition emptyTables : tables := mkTables ∅ ∅ ∅.

Definition at_key {A} `{Empty A} (m : gmap string A) (k : string) : A := default ∅ (m !! k).

(** An integer, as INCR and HINCRBY read it. *)
Definition readInt (f : option string) : Z :=
  match f with Some p => match decodeInt p with Ok (Some n) => n | _ => 0 end | None => 0 end.

#[export] Instance tables_RedisView : RedisView tables := {
  strings d k := tstrings d !! k;
  hashes d k := at_key (thashes d) k;
  zsets d k := at_key (tzsets d) k
}.

#[export] Instance tables_RedisOps : RedisOps tables := {
  GET now k d := unexpired now (tstrings d !! k);
  SETPX now k v ms d := mkTables (<[k := (v, Some (now + ms * Millisecond))]> (tstrings d)) (thashes d) (tzsets d);
  DEL k d := mkTables (delete k (tstrings d)) (delete k (thashes d)) (delete k (tzsets d));
  EXISTS now k d := bool_decide (at_key (thashes d) k <> ∅);
  INCR k d :=
    let n := readInt (fst <$> tstrings d !! k) + 1 in
    (mkTables (<[k := (encodeInt n, (tstrings d !! k) ≫= snd)]> (tstrings d)) (thashes d) (tzsets d), n);
  HSET k l d := mkTables (tstrings d) (<[k := setFields l (at_key (thashes d) k)]> (thashes d)) (tzsets d);
  HGET k f d := at_key (thashes d) k !! f;
  HDEL k f d := mkTables (tstrings d) (<[k := delete f (at_key (thashes d) k)]> (thashes d)) (tzsets d);
  HINCRBY k f delta d :=
    let n := readInt (at_key (thashes d) k !! f) + delta in
    (mkTables (tstrings d) (<[k := <[f := encodeInt n]> (at_key (thashes d) k)]> (thashes d)) (tzsets d), n);
  ZADD k s m d := mkTables (tstrings d) (thashes d) (<[k := <[m := s]> (at_key (tzsets d) k)]> (tzsets d));
  ZREM k m d := mkTables (tstrings d) (thashes d) (<[k := delete m (at_key (tzsets d) k)]> (tzsets d));
  ZSCORE k m d := at_key (tzsets d) k !! m;
  ZRANGEBYSCORE k lo hi n d := take n (zwithin lo hi (at_key (tzsets d) k));
  ZREVRANGE k start n d := take n (drop start (rev (zsorted (at_key (tzsets d) k))));
  ZREVRANK k m d := fst <$> list_find (fun e => e.1 = m) (rev (zsorted (at_key (tzsets d) k)));
  ZCOUNT k lo hi d := Z.of_nat (length (zwithin lo hi (at_key (tzsets d) k)));
  ZCARD k d := Z.of_nat (size (at_key (tzsets d) k))
}.

Lemma at_key_insert {A} `{Empty A} (m : gmap string A) k v k' :
  at_key (<[k := v]> m) k' = if decide (k' = k) then v else at_key m k'.
Proof.
  unfold at_key. destruct (decide (k' = k)) as [->|Hne]; [by rewrite lookup_insert_eq | by rewrite lookup_insert_ne].
Qed.

Lemma at_key_delete {A} `{Empty A} (m : gmap string A) k k' :
  at_key (delete k m) k' = if decide (k' = k) then ∅ else at_key m k'.
Proof.
  unfold at_key. destruct (decide (k' = k)) as [->|Hne]; [by rewrite lookup_delete_eq | by rewrite lookup_delete_ne].
Qed.

Lemma lookup_decide {A} (m : gmap string A) k v k' :
  <[k := v]> m !! k' = if decide (k' = k) then Some v else m !! k'.
Proof. destruct (decide (k' = k)) as [->|]; [by rewrite lookup_insert_eq | by rewrite lookup_insert_ne]. Qed.

Lemma delete_decide {A} (m : gmap string A) k k' :
  delete k m !! k' = if decide (k' = k) then None else m !! k'.
Proof. destruct (decide (k' = k)) as [->|]; [by rewrite lookup_delete_eq | by rewrite lookup_delete_ne]. Qed.

Lemma readInt_encode n : in_int64 n -> readInt (Some (encodeInt n)) = n.
Proof. intros Hn. cbn. by rewrite decodeInt_encodeInt. Qed.

#[export] Instance tables_RedisLaws : RedisLaws tables.
Proof.
  split; try done.
  - intros. repeat split; intros; cbn; by rewrite ?lookup_decide.
  - intros. repeat split; intros; cbn; by rewrite ?delete_decide, ?at_key_delete.
  - intros k d n e _ Hs Hn _. cbn.
    assert (readInt (fst <$> tstrings d !! k) = n /\ ((tstrings d !! k) ≫= snd) = e) as [-> ->].
    { cbn in Hs. destruct Hs as [->|(-> & -> & ->)]; [|done]. split; [by apply readInt_encode | done]. }
    split; [done|]. repeat split; intros; cbn; by rewrite ?lookup_decide.
  - intros. repeat split; intros; cbn; by rewrite ?at_key_insert.
  - intros. repeat split; intros; cbn; by rewrite ?at_key_insert.
  - intros k f delta n d _ Hf Hn _. cbn.
    assert (readInt (at_key (thashes d) k !! f) = n) as ->.
    { cbn in Hf. destruct Hf as [->|[-> ->]]; [by apply readInt_encode | done]. }
    split; [done|]. repeat split; intros; cbn; by rewrite ?at_key_insert.
  - intros. repeat split; intros; cbn; by rewrite ?at_key_insert.
  - intros. repeat split; intros; cbn; by rewrite ?at_key_insert.
Qed.

(** ** The first entries of a sorted set *)

Lemma zsorted_elem z m s : (m, s) ∈ zsorted z <-> z !! m = Some s.
Proof. unfold zsorted. rewrite merge_sort_Permutation. apply elem_of_map_to_list. Qed.

Lemma zwithin_elem lo hi z m s :
  (m, s) ∈ zwithin lo hi z <-> z !! m = Some s /\ above lo s = true /\ below hi s = true.
Proof.
  unfold zwithin. rewrite list_elem_of_In, filter_In, <- list_elem_of_In, zsorted_elem. cbn [snd].
  rewrite andb_true_iff. tauto.
Qed.

(** [LIMIT 0 1] finds the least entry of the interval, or that there is none. *)
Lemma zfirst_spec lo hi z :
  match take 1 (zwithin lo hi z) with
  | [] => forall m s, z !! m = Some s -> above lo s && below hi s = false
  | (m, s) :: l => l = [] /\ z !! m = Some s /\ above lo s = true /\ below hi s = true /\
      forall m' s', z !! m' = Some s' -> above lo s' = true -> below hi s' = true -> zle (m, s) (m', s')
  end.
Proof.
  assert (StronglySorted zle (zwithin lo hi z)) as Hsorted.
  { unfold zwithin. assert (StronglySorted zle (zsorted z)) as Hs by apply (StronglySorted_merge_sort zle).
    induction Hs as [|e l Hs IH Hf]; cbn; [constructor|]. destruct (_ && _); [|done]. constructor; [done|].
    apply Forall_forall. intros e' He'. rewrite list_elem_of_In in He'. apply filter_In in He' as [He' _].
    rewrite Forall_forall in Hf. by apply Hf, list_elem_of_In. }
  pose proof (zwithin_elem lo hi z) as Hel. destruct (zwithin lo hi z) as [|[m s] l]; cbn [take].
  - intros m s Hz. apply not_true_iff_false. intros [H1 H2]%andb_true_iff.
    assert ((m, s) ∈ []) as Hin by (apply Hel; auto). by apply not_elem_of_nil in Hin.
  - split; [done|]. destruct (proj1 (Hel m s) ltac:(apply list_elem_of_here)) as (Hz & Ha & Hb). do 3 (split; [done|]).
    intros m' s' Hz' Ha' Hb'. assert ((m', s') ∈ (m, s) :: l) as Hin by (apply Hel; auto).
    inversion Hsorted as [|? ? _ Hf]; subst. apply elem_of_cons in Hin as [Heq|Hin].
    + rewrite Heq. unfold zle. right. split; [done|]. destruct (String.leb_total m m); done.
    + rewrite Forall_forall in Hf. by apply Hf.
Qed.
