(* ===== verification/JobsRedis.v ===== *)
(** * jobs/redis.go: the durable queue

    [RedisQueue] with every method of the [Queue] and [OnceStore] interfaces.  Each method
    runs one Lua script, which Redis executes alone; the scripts are functions over the
    commands of [RedisOps], and a Lua error leaves what the script had done.  The clock of the
    queue ([now]), Redis's own ([srv], which times claims), the fresh receipt and the fate of
    the call ([link]) are arguments, as are the JSON codecs of envelopes and failures. *)

From stdpp Require Import base tactics numbers list strings gmap fin_maps.
From Stdlib Require Import ZArith Lia Ascii.
From S2P Require Import Prelude GoBytes JobsTypes JobsMemory Cache Redis.

Local Open Scope string_scope.
Local Open Scope list_scope.
Local Open Scope Z_scope.

(** [Time.UnixMilli] and [time.UnixMilli] *)
Definition epoch : time := 62135596800 * Second.
Definition UnixMilli (t : time) : Z := (t - epoch) / Millisecond.
Definition ofMilli (ms : Z) : time := epoch + ms * Millisecond.

(** [Duration.Milliseconds] *)
Definition Milliseconds (d : duration) : Z := Z.quot d Millisecond.

(** ** Keys *)

Record redisKeys : Type := mkKeys {
  k_pending : string;
  k_reserved : string;
  k_failed : string;
  k_seq : string;
  k_jobPrefix : string;
  k_unique : string
}.

(** [keys] *)
Definition base (namespace queue : string) : string := "{" ++ namespace ++ ":jobs:" ++ queue ++ "}".

Definition keys (namespace queue : string) : redisKeys :=
  let base := base namespace queue in
  mkKeys (base ++ ":pending")%string (base ++ ":reserved")%string (base ++ ":failed")%string
    (base ++ ":seq")%string (base ++ ":job:")%string (base ++ ":unique:")%string.

(** [onceKey] *)
Definition onceKey (namespace key : string) : string := namespace ++ ":jobs:once:" ++ key.

(** [string.format('%016d', n) .. ':' .. id], and [string.sub(member, 18)]. *)
Definition pad16 (n : Z) : string :=
  let s := of_string (encodeInt n) in to_string (replicate (16 - length s) "0"%char ++ s).

Definition memberOf (n : Z) (id : string) : string := pad16 n ++ ":" ++ id.

Definition sub18 (member : string) : string := to_string (drop 17 (of_string member)).

(** ** Scripts *)

(** A Lua error; what the script did before it stays done. *)
Inductive luaError : Type := LuaError.

(** What [reserveScript] returns: id, envelope, attempts, available since, whether the lease
    had expired. *)
Record reserved : Type := mkReservedReply {
  rr_id : string;
  rr_env : option string;
  rr_attempts : Z;
  rr_since : Z;
  rr_expired : bool
}.

Section Scripts.
Context {D : Type} `{RedisOps D}.

Definition jobFields (env member : string) : list (string * string) :=
  [("env", env); ("attempts", encodeInt 0); ("receipt", ""); ("member", member)].

(** [pushScript]: 0 when the ID is on the queue already. *)
Definition pushScript (srv : time) (job pending seq env : string) (at_ : Z) (id : string) (d : D) : D * Z :=
  if EXISTS srv job d then (d, 0)
  else
    let '(d, n) := INCR seq d in
    let member := memberOf n id in
    let d := HSET job (jobFields env member) d in
    (ZADD pending at_ member d, 1).

(** [pushUniqueScript]: the code and the holder.  Redis refuses SET PX with a time that is not
    positive. *)
Definition pushUniqueScript (srv : time) (job pending seq unique env : string) (at_ : Z) (id : string)
    (ttl : Z) (untilDone : string) (d : D) : D * result luaError (Z * string) :=
  match GET srv unique d with
  | Some holder => (d, Ok (0, holder))
  | None =>
      if EXISTS srv job d then (d, Ok (-1, ""))
      else if ttl <=? 0 then (d, Err LuaError)
      else
        let d := SETPX srv unique id ttl d in
        let '(d, n) := INCR seq d in
        let member := memberOf n id in
        let d := HSET job (jobFields env member) d in
        let d := if String.eqb untilDone "1"
                 then HSET job [("unique", unique); ("unique_ttl", encodeInt ttl)] d else d in
        (ZADD pending at_ member d, Ok (1, ""))
  end.

(** [releaseUniqueLua] *)
Definition releaseUniqueLua (srv : time) (job id : string) (d : D) : D :=
  match HGET job "unique" d with
  | Some unique =>
      if negb (String.eqb unique "") && bool_decide (GET srv unique d = Some id) then DEL unique d else d
  | None => d
  end.

(** The earlier of the first pending job and the first expired lease: the member, whether it
    comes from the reserved set, since when. *)
Definition earliest (p r : list (string * Z)) : option (string * bool * Z) :=
  match p, r with
  | (pm, ps) :: _, (rm, rs) :: _ =>
      if (rs <? ps) || ((rs =? ps) && String.ltb rm pm) then Some (rm, true, rs) else Some (pm, false, ps)
  | (pm, ps) :: _, [] => Some (pm, false, ps)
  | [], (rm, rs) :: _ => Some (rm, true, rs)
  | [], [] => None
  end.

(** [reserveScript]: each turn of its loop takes a member out of a set, so the sizes of the
    sets are fuel enough; [None] is running out of it. *)
Fixpoint reserveLoop (fuel : nat) (srv : time) (pending reserved_ : string) (now deadline : Z)
    (receipt prefix : string) (d : D) : D * option (option reserved) :=
  match fuel with
  | O => (d, None)
  | S fuel =>
      match earliest (ZRANGEBYSCORE pending Inf (Incl now) 1 d) (ZRANGEBYSCORE reserved_ Inf (Incl now) 1 d) with
      | None => (d, Some None)
      | Some (member, expired, since) =>
          let d := ZREM (if expired then reserved_ else pending) member d in
          let id := sub18 member in
          let job := (prefix ++ id)%string in
          if EXISTS srv job d then
            let '(d, attempts) := HINCRBY job "attempts" 1 d in
            let d := HSET job [("receipt", receipt)] d in
            let d := ZADD reserved_ deadline member d in
            (d, Some (Some (mkReservedReply id (HGET job "env" d) attempts since expired)))
          else reserveLoop fuel srv pending reserved_ now deadline receipt prefix d
      end
  end.

Definition reserveScript (srv : time) (pending reserved_ : string) (now deadline : Z) (receipt prefix : string)
    (d : D) : D * option (option reserved) :=
  reserveLoop (Z.to_nat (ZCARD pending d + ZCARD reserved_ d + 1)) srv pending reserved_ now deadline receipt prefix d.

(** The guard of the scripts that settle a lease: the receipt is the job's. *)
Definition holds (job receipt : string) (d : D) : bool := bool_decide (HGET job "receipt" d = Some receipt).

(** [ackScript] *)
Definition ackScript (srv : time) (job pending reserved_ receipt : string) (d : D) : D * result luaError Z :=
  if negb (holds job receipt d) then (d, Ok 0)
  else match HGET job "member" d with
  | None => (d, Err LuaError)
  | Some member =>
      let d := releaseUniqueLua srv job (sub18 member) d in
      let d := ZREM reserved_ member d in
      let d := ZREM pending member d in
      (DEL job d, Ok 1)
  end.

(** [tonumber(redis.call('HGET', KEYS[1], 'attempts') or '0') > 0] *)
Definition attemptsPositive (job : string) (d : D) : bool :=
  match HGET job "attempts" d with
  | Some p => match decodeInt p with Ok (Some n) => 0 <? n | _ => false end
  | None => false
  end.

(** [releaseScript] *)
Definition releaseScript (job pending reserved_ seq receipt : string) (at_ : Z) (id uncount : string) (d : D) :
    D * result luaError Z :=
  if negb (holds job receipt d) then (d, Ok 0)
  else
    let d := if String.eqb uncount "1" && attemptsPositive job d then (HINCRBY job "attempts" (-1) d).1 else d in
    match HGET job "member" d with
    | None => (d, Err LuaError)
    | Some old =>
        let d := ZREM reserved_ old d in
        let '(d, n) := INCR seq d in
        let member := memberOf n id in
        let d := HSET job [("receipt", ""); ("member", member)] d in
        (ZADD pending at_ member d, Ok 1)
    end.

(** [extendScript] *)
Definition extendScript (job reserved_ receipt : string) (deadline : Z) (d : D) : D * result luaError Z :=
  if negb (holds job receipt d) then (d, Ok 0)
  else match HGET job "member" d with
  | None => (d, Err LuaError)
  | Some member => (ZADD reserved_ deadline member d, Ok 1)
  end.

(** [buryScript] *)
Definition buryScript (srv : time) (job reserved_ failed receipt id : string) (failedAt : Z) (failure : string)
    (d : D) : D * result luaError Z :=
  if negb (holds job receipt d) then (d, Ok 0)
  else
    let d := releaseUniqueLua srv job id d in
    match HGET job "member" d with
    | None => (d, Err LuaError)
    | Some member =>
        let d := ZREM reserved_ member d in
        let d := HSET job [("receipt", ""); ("failure", failure)] d in
        (ZADD failed failedAt id d, Ok 1)
    end.

(** The time of the claim the job is to hold again, as SET PX takes it. *)
Definition claimTTL (job : string) (d : D) : option Z :=
  match HGET job "unique_ttl" d with
  | Some p => match decodeInt p with Ok (Some ttl) => if ttl <=? 0 then None else Some ttl | _ => None end
  | None => None
  end.

(** The end of [retryFailedScript]: the job waits again, with no attempt counted. *)
Definition requeue (job failed pending seq id : string) (now : Z) (d : D) : D :=
  let d := ZREM failed id d in
  let '(d, n) := INCR seq d in
  let member := memberOf n id in
  let d := HSET job [("attempts", encodeInt 0); ("receipt", ""); ("member", member)] d in
  let d := HDEL job "failure" d in
  ZADD pending now member d.

(** [retryFailedScript] *)
Definition retryFailedScript (srv : time) (job failed pending seq id : string) (now : Z) (d : D) :
    D * result luaError (Z * string) :=
  match ZSCORE failed id d with
  | None => (d, Ok (0, ""))
  | Some _ =>
      if bool_decide (HGET job "env" d = None) then (ZREM failed id d, Ok (0, ""))
      else
        match HGET job "unique" d with
        | Some unique =>
            if String.eqb unique "" then (requeue job failed pending seq id now d, Ok (1, ""))
            else
              match GET srv unique d with
              | Some holder =>
                  if negb (String.eqb holder id) then (d, Ok (2, holder))
                  else match claimTTL job d with
                       | Some ttl => (requeue job failed pending seq id now (SETPX srv unique id ttl d), Ok (1, ""))
                       | None => (d, Err LuaError)
                       end
              | None =>
                  match claimTTL job d with
                  | Some ttl => (requeue job failed pending seq id now (SETPX srv unique id ttl d), Ok (1, ""))
                  | None => (d, Err LuaError)
                  end
              end
        | None => (requeue job failed pending seq id now d, Ok (1, ""))
        end
  end.

(** [forgetFailedScript] *)
Definition forgetFailedScript (job failed id : string) (d : D) : D * Z :=
  match ZSCORE failed id d with
  | None => (d, 0)
  | Some _ => (DEL job (ZREM failed id d), 1)
  end.

(** [purgeFailedScript]; [None] for [before] is '+inf'. *)
Definition purgeFailedScript (failed : string) (before : option Z) (batch : nat) (prefix : string) (d : D) : D * Z :=
  let ids := map fst (ZRANGEBYSCORE failed Inf (match before with Some ms => Excl ms | None => Inf end) batch d) in
  (fold_left (fun d id => DEL (prefix ++ id)%string (ZREM failed id d)) ids d, Z.of_nat (length ids)).

(** [onceBeginScript], [onceFinishScript], [onceAbandonScript] *)
Definition onceBeginScript (srv : time) (key token : string) (lock : Z) (d : D) : D * result luaError Z :=
  match GET srv key d with
  | Some v => (d, Ok (if String.eqb v "done" then 1 else 2))
  | None => if lock <=? 0 then (d, Err LuaError) else (SETPX srv key token lock d, Ok 0)
  end.

Definition onceFinishScript (srv : time) (key token : string) (keep : Z) (d : D) : D * result luaError Z :=
  if negb (bool_decide (GET srv key d = Some token)) then (d, Ok 0)
  else if keep <=? 0 then (d, Err LuaError) else (SETPX srv key "done" keep d, Ok 1).

Definition onceAbandonScript (srv : time) (key token : string) (d : D) : D * Z :=
  (if bool_decide (GET srv key d = Some token) then DEL key d else d, 1).

(** [statsScript]: ready, scheduled, reserved, failed, the oldest ready time or -1. *)
Definition statsScript (pending reserved_ failed : string) (now : Z) (d : D) : Z * Z * Z * Z * Z :=
  let ready := ZCOUNT pending Inf (Incl now) d in
  let expired := ZCOUNT reserved_ Inf (Incl now) d in
  let oldest := match ZRANGEBYSCORE pending Inf (Incl now) 1 d with (_, s) :: _ => s | [] => -1 end in
  let oldest := match ZRANGEBYSCORE reserved_ Inf (Incl now) 1 d with
                | (_, s) :: _ => if (oldest <? 0) || (s <? oldest) then s else oldest
                | [] => oldest
                end in
  (ready + expired, ZCOUNT pending (Excl now) Inf d, ZCARD reserved_ d - expired, ZCARD failed d, oldest).
End Scripts.

(** ** Listing the failed jobs *)

(** [failedCursor]: the score and ID of the last member looked at; [None] is the top. *)
Definition failedCursor : Type := option (Z * string).

(** The rows of the scan, while fewer than [want] were found: the jobs (id, envelope,
    attempts, failure), the database without the members whose record is gone, the cursor,
    and whether rows were left. *)
Fixpoint scanRows {D} `{RedisOps D} (failed prefix : string) (want found : nat) (rows : list (string * Z))
    (cursor : failedCursor) (d : D) :
    D * failedCursor * list (string * string * string * string) * bool :=
  match rows with
  | [] => (d, cursor, [], false)
  | (id, score) :: rows =>
      let job := (prefix ++ id)%string in
      let cursor := Some (score, id) in
      match HGET job "env" d, HGET job "failure" d with
      | Some env, Some failure =>
          let attempts := default "0" (HGET job "attempts" d) in
          if decide (S found = want) then (d, cursor, [(id, env, attempts, failure)], bool_decide (rows <> []))
          else
            let '(d, cursor, jobs, more) := scanRows failed prefix want (S found) rows cursor d in
            (d, cursor, (id, env, attempts, failure) :: jobs, more)
      | _, _ => scanRows failed prefix want found rows cursor (ZREM failed id d)
      end
  end.

(** [failedScanScript]: whether the set ran out, the cursor, the jobs. *)
Definition failedScanScript {D} `{RedisOps D} (failed prefix : string) (want look : nat) (cursor : failedCursor)
    (d : D) : D * (bool * failedCursor * list (string * string * string * string)) :=
  let start :=
    match cursor with
    | None => 0%nat
    | Some (score, id) =>
        if bool_decide (ZSCORE failed id d = Some score)
        then S (default 0%nat (ZREVRANK failed id d))
        else Z.to_nat (ZCOUNT failed (Excl score) Inf d)
    end in
  let rows := ZREVRANGE failed start look d in
  let '(d, cursor, jobs, more) := scanRows failed prefix want 0 rows cursor d in
  (d, (negb (length rows =? look)%nat && negb more, cursor, jobs)).

(** ** The queue *)

Record RedisQueue (D : Type) : Type := mkRedisQueue { rdb : D; rclosed : bool }.
Arguments mkRedisQueue {D} rdb rclosed.
Arguments rdb {D} r.
Arguments rclosed {D} r.

(** What becomes of a call: it runs and answers, it does not reach Redis, or it runs and the
    answer is lost.  The client does not retry (RedisClientOptions). *)
Inductive link : Type := Answered | Unsent | AnswerLost.

Definition transport : error := Text "redis: connection failed".
Definition scriptFailed : error := Text "redis: script error".

Section Queue.
Context {D : Type} `{RedisOps D}.
Variable namespace : string.
(** encoding/json on the two records, the map of the envelope included. *)
Variable marshalEnvelope : Envelope -> option string.
Variable unmarshalEnvelope : string -> option Envelope.
Variable marshalFailure : Failure -> option string.
Variable unmarshalFailure : string -> option Failure.

(** [UnmarshalEnvelope] *)
Definition UnmarshalEnvelope (data : string) : result error Envelope :=
  match unmarshalEnvelope data with
  | None => Err (JobError KindDecode "" 0 (Some (Text "envelope")))
  | Some e => match Envelope_validate e with Some err => Err err | None => Ok e end
  end.

(** [Script.Run]: the reply, or an error. *)
Definition eval {A} (l : link) (script : D -> D * A) (q : RedisQueue D) : RedisQueue D * result error A :=
  match l with
  | Unsent => (q, Err transport)
  | Answered => let '(d, a) := script (rdb q) in (mkRedisQueue d (rclosed q), Ok a)
  | AnswerLost => (mkRedisQueue (script (rdb q)).1 (rclosed q), Err transport)
  end.

Definition jobKey (queue id : string) : string := k_jobPrefix (keys namespace queue) ++ id.

(** [Push] *)
Definition rPush (l : link) (srv now : time) (queue : string) (env : Envelope) (at_ : time) (q : RedisQueue D) :
    RedisQueue D * option error :=
  if rclosed q then (q, Some (Sentinel ErrClosed))
  else if negb (ValidName queue) then (q, Some (Wrapf queue (Sentinel ErrInvalidQueue)))
  else if String.eqb (ID env) "" then (q, Some (Wrapf (Name env) (Text "envelope has no ID")))
  else match marshalEnvelope (setAttempt 0 env) with
  | None => (q, Some (Wrapf (Name env) (Text "marshal envelope")))
  | Some data =>
      let k := keys namespace queue in
      match eval l (pushScript srv (jobKey queue (ID env)) (k_pending k) (k_seq k) data
                      (UnixMilli (clampAt at_ now)) (ID env)) q with
      | (q, Err e) => (q, Some (Wrapf (Name env) e))
      | (q, Ok added) =>
          if added =? 0 then (q, Some (Wrapf (ID env) (Sentinel ErrDuplicateJob))) else (q, None)
      end
  end.

(** [PushUnique] *)
Definition rPushUnique (l : link) (srv now : time) (queue : string) (env : Envelope) (at_ : time)
    (unique : UniqueKey) (q : RedisQueue D) : RedisQueue D * option error :=
  if rclosed q then (q, Some (Sentinel ErrClosed))
  else if negb (ValidName queue) then (q, Some (Wrapf queue (Sentinel ErrInvalidQueue)))
  else if String.eqb (ID env) "" then (q, Some (Wrapf (Name env) (Text "envelope has no ID")))
  else match UniqueKey_validate unique with
  | Some e => (q, Some e)
  | None =>
      match marshalEnvelope (setAttempt 0 env) with
      | None => (q, Some (Wrapf (Name env) (Text "marshal envelope")))
      | Some data =>
          let k := keys namespace queue in
          match eval l (pushUniqueScript srv (jobKey queue (ID env)) (k_pending k) (k_seq k)
                          (k_unique k ++ Key unique)%string data (UnixMilli (clampAt at_ now)) (ID env)
                          (Milliseconds (TTL unique)) (if UntilDone unique then "1" else "0")) q with
          | (q, Err e) => (q, Some (Wrapf (Name env) e))
          | (q, Ok (Err _)) => (q, Some (Wrapf (Name env) scriptFailed))
          | (q, Ok (Ok (code, holder))) =>
              if code =? 1 then (q, None)
              else if code =? 0 then (q, Some (DuplicateError queue (Key unique) holder))
              else (q, Some (Wrapf (ID env) (Sentinel ErrDuplicateJob)))
          end
      end
  end.

(** The delivery [Reserve] makes of a reply. *)
Definition deliver (queue receipt : string) (r : reserved) : Delivery :=
  match UnmarshalEnvelope (default "" (rr_env r)) with
  | Err e =>
      mkDelivery queue (mkEnvelope (rr_id r) "" 0 "" ∅ 0 (rr_attempts r)) receipt (rr_expired r)
        (ofMilli (rr_since r)) (Some e)
  | Ok env =>
      mkDelivery queue (setAttempt (rr_attempts r) env) receipt (rr_expired r) (ofMilli (rr_since r)) None
  end.

(** The loop of [Reserve] over the queues; the i-th turn reads the clock and takes a fresh
    receipt.  [None] from the script is out of the model's fuel, which never happens. *)
Fixpoint reserveFrom (l : link) (srv : time) (clk : nat -> time) (uuid : nat -> string) (queues : list string)
    (lease : duration) (q : RedisQueue D) : RedisQueue D * result error Delivery :=
  match queues with
  | [] => (q, Err (Sentinel ErrNoJob))
  | queue :: queues =>
      let now := clk 0%nat in
      let receipt := uuid 0%nat in
      let k := keys namespace queue in
      match eval l (reserveScript srv (k_pending k) (k_reserved k) (UnixMilli now) (UnixMilli (Add now lease))
                      receipt (k_jobPrefix k)) q with
      | (q, Err e) => (q, Err (Wrapf queue e))
      | (q, Ok (Some (Some r))) => (q, Ok (deliver queue receipt r))
      | (q, Ok _) => reserveFrom l srv (fun i => clk (S i)) (fun i => uuid (S i)) queues lease q
      end
  end.

(** [Reserve] *)
Definition rReserve (l : link) (srv : time) (clk : nat -> time) (uuid : nat -> string) (queues : list string)
    (lease : duration) (q : RedisQueue D) : RedisQueue D * result error Delivery :=
  if rclosed q then (q, Err (Sentinel ErrClosed))
  else if lease <=? 0 then (q, Err (Text "reserve: lease must be positive"))
  else match first_invalid queues with
  | Some queue => (q, Err (Wrapf queue (Sentinel ErrInvalidQueue)))
  | None => reserveFrom l srv clk uuid queues lease q
  end.

(** The checks and the reply of a settling call: 0 is a lost lease. *)
Definition settleCall (l : link) (d : Delivery) (script : redisKeys -> D -> D * result luaError Z)
    (q : RedisQueue D) : RedisQueue D * option error :=
  let id := ID (DEnvelope d) in
  if String.eqb (DReceipt d) "" || negb (ValidName (DQueue d)) then (q, Some (Wrapf id (Sentinel ErrLeaseLost)))
  else match eval l (script (keys namespace (DQueue d))) q with
  | (q, Err e) => (q, Some (Wrapf id e))
  | (q, Ok (Err _)) => (q, Some (Wrapf id scriptFailed))
  | (q, Ok (Ok ok)) => if ok =? 0 then (q, Some (Wrapf id (Sentinel ErrLeaseLost))) else (q, None)
  end.

(** [Ack] *)
Definition rAck (l : link) (srv : time) (d : Delivery) (q : RedisQueue D) : RedisQueue D * option error :=
  if rclosed q then (q, Some (Sentinel ErrClosed))
  else settleCall l d (fun k => ackScript srv (k_jobPrefix k ++ ID (DEnvelope d))%string (k_pending k)
                                  (k_reserved k) (DReceipt d)) q.

(** [release]; a Go bool is sent as 1 or 0. *)
Definition rrelease (l : link) (now : time) (d : Delivery) (at_ : time) (uncount : bool) (q : RedisQueue D) :
    RedisQueue D * option error :=
  if rclosed q then (q, Some (Sentinel ErrClosed))
  else settleCall l d (fun k => releaseScript (k_jobPrefix k ++ ID (DEnvelope d))%string (k_pending k)
                                  (k_reserved k) (k_seq k) (DReceipt d) (UnixMilli (clampAt at_ now))
                                  (ID (DEnvelope d)) (if uncount then "1" else "0")) q.

(** [Release] and [Postpone] *)
Definition rRelease (l : link) (now : time) (d : Delivery) (at_ : time) (q : RedisQueue D) :=
  rrelease l now d at_ false q.
Definition rPostpone (l : link) (now : time) (d : Delivery) (at_ : time) (q : RedisQueue D) :=
  rrelease l now d at_ true q.

(** [Extend] *)
Definition rExtend (l : link) (now : time) (d : Delivery) (lease : duration) (q : RedisQueue D) :
    RedisQueue D * option error :=
  if rclosed q then (q, Some (Sentinel ErrClosed))
  else if lease <=? 0 then (q, Some (Text "extend: lease must be positive"))
  else settleCall l d (fun k => extendScript (k_jobPrefix k ++ ID (DEnvelope d))%string (k_reserved k)
                                  (DReceipt d) (UnixMilli (Add now lease))) q.

(** [Bury] *)
Definition rBury (l : link) (srv now : time) (d : Delivery) (f : Failure) (q : RedisQueue D) :
    RedisQueue D * option error :=
  let id := ID (DEnvelope d) in
  if rclosed q then (q, Some (Sentinel ErrClosed))
  else if String.eqb (DReceipt d) "" || negb (ValidName (DQueue d)) then (q, Some (Wrapf id (Sentinel ErrLeaseLost)))
  else
    let f := if IsZero (FAt f) then setAt now f else f in
    match marshalFailure f with
    | None => (q, Some (Wrapf id (Text "bury: marshal failure")))
    | Some data =>
        settleCall l d (fun k => buryScript srv (k_jobPrefix k ++ id)%string (k_reserved k) (k_failed k)
                                   (DReceipt d) id (UnixMilli (FAt f)) data) q
    end.

(** ** Failed jobs *)

(** [decodeFailedJob] of a hash's env, attempts and failure. *)
Definition decodeFailedJob (queue id : string) (env attempts failure : option string) : result error FailedJob :=
  let raw := default "" env in
  let failure := default "" failure in
  if String.eqb raw "" || String.eqb failure "" then Err (Wrapf id (Sentinel ErrNotFailed))
  else
    let n := match attempts with
             | Some p => match decodeInt p with Ok (Some n) => n | _ => 0 end
             | None => 0
             end in
    match unmarshalFailure failure with
    | None => Err (Wrapf id (Text "failure record"))
    | Some f =>
        match UnmarshalEnvelope raw with
        | Err _ => Ok (mkFailedJob queue (mkEnvelope id "" 0 "" ∅ 0 n) raw n f)
        | Ok env => Ok (mkFailedJob queue (setAttempt n env) "" n f)
        end
    end.

(** [FailedJob] *)
Definition rFailedJob (queue id : string) (q : RedisQueue D) : result error FailedJob :=
  if rclosed q then Err (Sentinel ErrClosed)
  else if negb (ValidName queue) then Err (Wrapf queue (Sentinel ErrInvalidQueue))
  else match ZSCORE (k_failed (keys namespace queue)) id (rdb q) with
  | None => Err (Wrapf id (Sentinel ErrNotFailed))
  | Some _ =>
      let job := jobKey queue id in
      decodeFailedJob queue id (HGET job "env" (rdb q)) (HGET job "attempts" (rdb q)) (HGET job "failure" (rdb q))
  end.

Definition failedPageSize : nat := 500.

Fixpoint decodeRows (queue : string) (rows : list (string * string * string * string)) : result error (list FailedJob) :=
  match rows with
  | [] => Ok []
  | (id, env, attempts, failure) :: rows =>
      match decodeFailedJob queue id (Some env) (Some attempts) (Some failure) with
      | Err e => Err e
      | Ok job => match decodeRows queue rows with Ok jobs => Ok (job :: jobs) | Err e => Err e end
      end
  end.

(** [failedPage] *)
Definition failedPage (l : link) (queue : string) (cursor : failedCursor) (want : nat) (q : RedisQueue D) :
    RedisQueue D * result error (list FailedJob * failedCursor * bool) :=
  let k := keys namespace queue in
  match eval l (failedScanScript (k_failed k) (k_jobPrefix k) want failedPageSize cursor) q with
  | (q, Err e) => (q, Err (Wrapf queue e))
  | (q, Ok (done, next, rows)) =>
      match decodeRows queue rows with
      | Err e => (q, Err e)
      | Ok jobs => (q, Ok (jobs, next, done))
      end
  end.

(** The jobs of a page not seen on an earlier one. *)
Fixpoint unseen (seen : list string) (jobs : list FailedJob) : list string * list FailedJob :=
  match jobs with
  | [] => (seen, [])
  | j :: jobs =>
      let id := ID (FJEnvelope j) in
      if bool_decide (id ∈ seen) then unseen seen jobs
      else let '(seen, jobs) := unseen (id :: seen) jobs in (seen, j :: jobs)
  end.

(** [Failed]: page after page, with other clients at work in between; a page each for [fuel].
    The result carries what was read when an error ends it. *)
Fixpoint failedFrom (fuel : nat) (l : nat -> link) (between : nat -> RedisQueue D -> RedisQueue D) (queue : string)
    (limit : Z) (cursor : failedCursor) (seen : list string) (out : list FailedJob) (q : RedisQueue D) :
    RedisQueue D * option (list FailedJob * option error) :=
  match fuel with
  | O => (q, None)
  | S fuel =>
      let want := if (0 <? limit) && (limit - Z.of_nat (length out) <? Z.of_nat failedPageSize)
                  then Z.to_nat (limit - Z.of_nat (length out)) else failedPageSize in
      match failedPage (l 0%nat) queue cursor want q with
      | (q, Err e) => (q, Some (out, Some e))
      | (q, Ok (page, next, done)) =>
          let '(seen, page) := unseen seen page in
          let out := out ++ page in
          if (done : bool) || ((0 <? limit) && (limit <=? Z.of_nat (length out))) then (q, Some (out, None))
          else failedFrom fuel (fun i => l (S i)) (fun i => between (S i)) queue limit next seen out (between 0%nat q)
      end
  end.

Definition rFailed (fuel : nat) (l : nat -> link) (between : nat -> RedisQueue D -> RedisQueue D) (queue : string)
    (limit : Z) (q : RedisQueue D) : RedisQueue D * option (list FailedJob * option error) :=
  if rclosed q then (q, Some ([], Some (Sentinel ErrClosed)))
  else if negb (ValidName queue) then (q, Some ([], Some (Wrapf queue (Sentinel ErrInvalidQueue))))
  else failedFrom fuel l between queue limit None [] [] q.

(** [RetryFailed]; on code 2 the key is read back, an error reading it ignored. *)
Definition rRetryFailed (l : link) (srv now : time) (queue id : string) (q : RedisQueue D) :
    RedisQueue D * option error :=
  if rclosed q then (q, Some (Sentinel ErrClosed))
  else if negb (ValidName queue) then (q, Some (Wrapf queue (Sentinel ErrInvalidQueue)))
  else
    let k := keys namespace queue in
    match eval l (retryFailedScript srv (jobKey queue id) (k_failed k) (k_pending k) (k_seq k) id (UnixMilli now)) q with
    | (q, Err e) => (q, Some (Wrapf id e))
    | (q, Ok (Err _)) => (q, Some (Wrapf id scriptFailed))
    | (q, Ok (Ok (code, holder))) =>
        if code =? 1 then (q, None)
        else if code =? 2 then
          let unique := default "" (HGET (jobKey queue id) "unique" (rdb q)) in
          (q, Some (DuplicateError queue (to_string (TrimPrefix (of_string unique) (of_string (k_unique k)))) holder))
        else (q, Some (Wrapf id (Sentinel ErrNotFailed)))
    end.

(** [ForgetFailed] *)
Definition rForgetFailed (l : link) (queue id : string) (q : RedisQueue D) : RedisQueue D * option error :=
  if rclosed q then (q, Some (Sentinel ErrClosed))
  else if negb (ValidName queue) then (q, Some (Wrapf queue (Sentinel ErrInvalidQueue)))
  else match eval l (forgetFailedScript (jobKey queue id) (k_failed (keys namespace queue)) id) q with
  | (q, Err e) => (q, Some (Wrapf id e))
  | (q, Ok ok) => if ok =? 0 then (q, Some (Wrapf id (Sentinel ErrNotFailed))) else (q, None)
  end.

Definition purgeBatch : nat := 500.

(** The loop of [PurgeFailed], a batch each for [fuel], other clients in between. *)
Fixpoint purgeFrom (fuel : nat) (l : nat -> link) (between : nat -> RedisQueue D -> RedisQueue D) (queue : string)
    (before : option Z) (total : Z) (q : RedisQueue D) : RedisQueue D * option (Z * option error) :=
  match fuel with
  | O => (q, None)
  | S fuel =>
      let k := keys namespace queue in
      match eval (l 0%nat) (purgeFailedScript (k_failed k) before purgeBatch (k_jobPrefix k)) q with
      | (q, Err e) => (q, Some (total, Some (Wrapf queue e)))
      | (q, Ok n) =>
          if n <? Z.of_nat purgeBatch then (q, Some (total + n, None))
          else purgeFrom fuel (fun i => l (S i)) (fun i => between (S i)) queue before (total + n) (between 0%nat q)
      end
  end.

(** [PurgeFailed] *)
Definition rPurgeFailed (fuel : nat) (l : nat -> link) (between : nat -> RedisQueue D -> RedisQueue D)
    (queue : string) (before : time) (q : RedisQueue D) : RedisQueue D * option (Z * option error) :=
  if rclosed q then (q, Some (0, Some (Sentinel ErrClosed)))
  else if negb (ValidName queue) then (q, Some (0, Some (Wrapf queue (Sentinel ErrInvalidQueue))))
  else purgeFrom fuel l between queue (if IsZero before then None else Some (UnixMilli before)) 0 q.

(** ** Once, statistics, closing *)

(** [BeginOnce] *)
Definition rBeginOnce (l : link) (srv : time) (key token : string) (lock : duration) (q : RedisQueue D) :
    RedisQueue D * result error OnceState :=
  if rclosed q then (q, Err (Sentinel ErrClosed))
  else match eval l (onceBeginScript srv (onceKey namespace key) token (Milliseconds lock)) q with
  | (q, Err e) => (q, Err e)
  | (q, Ok (Err _)) => (q, Err scriptFailed)
  | (q, Ok (Ok n)) => (q, Ok (if n =? 1 then OnceDone else if n =? 2 then OnceBusy else OnceAcquired))
  end.

(** [FinishOnce] *)
Definition rFinishOnce (l : link) (srv : time) (key token : string) (keep : duration) (q : RedisQueue D) :
    RedisQueue D * option error :=
  if rclosed q then (q, Some (Sentinel ErrClosed))
  else match eval l (onceFinishScript srv (onceKey namespace key) token (Milliseconds keep)) q with
  | (q, Err e) => (q, Some e)
  | (q, Ok (Err _)) => (q, Some scriptFailed)
  | (q, Ok (Ok n)) => if n =? 0 then (q, Some (Wrapf key (Sentinel ErrLeaseLost))) else (q, None)
  end.

(** [AbandonOnce] *)
Definition rAbandonOnce (l : link) (srv : time) (key token : string) (q : RedisQueue D) :
    RedisQueue D * option error :=
  if rclosed q then (q, Some (Sentinel ErrClosed))
  else match eval l (onceAbandonScript srv (onceKey namespace key) token) q with
  | (q, Err e) => (q, Some e)
  | (q, Ok _) => (q, None)
  end.

(** [Stats] *)
Definition rStats (now : time) (queue : string) (q : RedisQueue D) : result error QueueStats :=
  if rclosed q then Err (Sentinel ErrClosed)
  else if negb (ValidName queue) then Err (Wrapf queue (Sentinel ErrInvalidQueue))
  else
    let k := keys namespace queue in
    let '(ready, scheduled, reserved_, failed, oldest) :=
      statsScript (k_pending k) (k_reserved k) (k_failed k) (UnixMilli now) (rdb q) in
    Ok (mkQueueStats ready scheduled reserved_ failed (if 0 <=? oldest then ofMilli oldest else 0)).

(** [Close]; closing an owned client is outside the model. *)
Definition rClose (q : RedisQueue D) : RedisQueue D := mkRedisQueue (rdb q) true.
End Queue.
