(* ===== verification/JobsRedisInv.v ===== *)
(** * The keys of the durable queue are apart

    A key of a queue is read back as the queue and what follows its braces, so no two queues
    share a key and no key holds two types; members of the sorted sets are read back as the
    job's ID.

    The second part says what the database means. *)

From stdpp Require Import base tactics numbers list strings gmap fin_maps.
From Stdlib Require Import ZArith Lia Ascii DecimalString DecimalZ.
From S2P Require Import Prelude GoBytes JobsTypes Cache CacheNamespace Redis JobsRedis JobsMemory.

Local Open Scope string_scope.
Local Open Scope list_scope.
Local Open Scope Z_scope.

(** ** Members *)

Lemma string_of_uint_length d :
  length (of_string (NilEmpty.string_of_uint d)) = Decimal.nb_digits d.
Proof. unfold of_string. induction d; cbn; congruence. Qed.

(** [acc] followed by the digits of [u]. *)
Lemma of_uint_acc_lower u : forall acc,
  Zpos acc * 10 ^ Z.of_nat (Decimal.nb_digits u) <= Zpos (Pos.of_uint_acc u acc).
Proof.
  assert (forall acc x n, 0 <= n -> Zpos acc * 10 <= Zpos x -> Zpos acc * 10 ^ Z.succ n <= Zpos x * 10 ^ n) as H.
  { intros acc x n Hn Hx. rewrite Z.pow_succ_r by lia. assert (0 < 10 ^ n) by (apply Z.pow_pos_nonneg; lia). nia. }
  induction u as [|u IH|u IH|u IH|u IH|u IH|u IH|u IH|u IH|u IH|u IH]; intros acc;
    cbn [Pos.of_uint_acc Decimal.nb_digits]; [cbn; lia|..];
    (rewrite Nat2Z.inj_succ; eapply Z.le_trans; [|apply IH]; apply H; lia).
Qed.

Lemma of_uint_lower u : Decimal.nzhead u = u -> u <> Decimal.Nil ->
  10 ^ (Z.of_nat (Decimal.nb_digits u) - 1) <= Z.of_uint u.
Proof.
  intros Hz Hn. destruct u as [|u|u|u|u|u|u|u|u|u|u]; [done| |..];
    try (cbn [Decimal.nb_digits Z.of_uint N.of_uint Pos.of_uint Z.of_N];
         replace (Z.of_nat (S (Decimal.nb_digits u)) - 1) with (Z.of_nat (Decimal.nb_digits u)) by lia;
         eapply Z.le_trans; [|apply of_uint_acc_lower];
         assert (0 < 10 ^ Z.of_nat (Decimal.nb_digits u)) by (apply Z.pow_pos_nonneg; lia); lia).
  exfalso. by apply (DecimalFacts.nzhead_nonzero (Decimal.D0 u) u).
Qed.

Lemma encodeInt_length n : 0 <= n < 10 ^ 16 -> (length (of_string (encodeInt n)) <= 16)%nat.
Proof.
  intros Hn. unfold encodeInt. pose proof (to_int_norm n) as Hnorm. pose proof (DecimalZ.of_to n) as Hof.
  destruct n as [|p|p]; [simpl; lia | | lia]. cbn [Z.to_int NilZero.string_of_int] in *.
  set (u := Pos.to_uint p) in *. cbn [Decimal.norm] in Hnorm. assert (Decimal.unorm u = u) as Hu by congruence.
  cbn [Z.of_int] in Hof. assert (u <> Decimal.Nil) as Hnil by (intros E; rewrite E in Hof; done).
  replace (NilZero.string_of_uint u) with (NilEmpty.string_of_uint u) by (by destruct u).
  rewrite string_of_uint_length. unfold Decimal.unorm in Hu. destruct (Decimal.nzhead u) eqn:Ez.
  { rewrite <- Hu in Hof. done. }
  all: assert (10 ^ (Z.of_nat (Decimal.nb_digits u) - 1) < 10 ^ 16)
    by (eapply Z.le_lt_trans; [apply of_uint_lower; congruence|]; lia);
    assert (Z.of_nat (Decimal.nb_digits u) - 1 < 16) by (apply (Z.pow_lt_mono_r_iff 10); lia); lia.
Qed.

Lemma pad16_length n : 0 <= n < 10 ^ 16 -> length (of_string (pad16 n)) = 16%nat.
Proof.
  intros Hn. unfold pad16, to_string, of_string. rewrite String.list_ascii_of_string_of_list_ascii.
  pose proof (encodeInt_length n Hn). unfold of_string in *. rewrite length_app, length_replicate. lia.
Qed.

(** The ID is read back from the member. *)
Lemma sub18_memberOf n id : 0 <= n < 10 ^ 16 -> sub18 (memberOf n id) = id.
Proof.
  intros Hn. unfold sub18, memberOf. rewrite !of_string_app. rewrite app_assoc, drop_app_length'.
  - apply to_of_string.
  - rewrite length_app, pad16_length by done. done.
Qed.

Lemma memberOf_inj n id n' id' : 0 <= n < 10 ^ 16 -> 0 <= n' < 10 ^ 16 ->
  memberOf n id = memberOf n' id' -> id = id'.
Proof. intros Hn Hn' E. rewrite <- (sub18_memberOf n id Hn), <- (sub18_memberOf n' id' Hn'). by rewrite E. Qed.

(** ** The order of members *)

(** The digits as a number, most significant first. *)
Definition digitsVal (acc : Z) (l : list ascii) : Z :=
  fold_left (fun a c => 10 * a + (Z.of_N (N_of_ascii c) - 48)) l acc.

Lemma digitsVal_pos u : forall p,
  digitsVal (Zpos p) (of_string (NilEmpty.string_of_uint u)) = Zpos (Pos.of_uint_acc u p).
Proof.
  unfold digitsVal, of_string. induction u; intros p; cbn [NilEmpty.string_of_uint String.list_ascii_of_string fold_left Pos.of_uint_acc]; [done|..];
  (rewrite <- IHu; f_equal; cbn; lia).
Qed.

Lemma digitsVal_uint u : digitsVal 0 (of_string (NilEmpty.string_of_uint u)) = Z.of_uint u.
Proof.
  induction u; [done | exact IHu |..];
    (unfold Z.of_uint; cbn [Pos.of_uint Z.of_N]; rewrite <- digitsVal_pos; done).
Qed.

Definition isDigit (c : ascii) : Prop := 48 <= Z.of_N (N_of_ascii c) <= 57.

Lemma digitsVal_split l : forall acc, digitsVal acc l = acc * 10 ^ Z.of_nat (length l) + digitsVal 0 l.
Proof.
  unfold digitsVal. induction l as [|c l IH]; intros acc; cbn [fold_left length]; [cbn; lia|].
  rewrite IH, (IH (10 * 0 + _)), Nat2Z.inj_succ, Z.pow_succ_r by lia. lia.
Qed.

Lemma digitsVal_bound l : Forall isDigit l -> 0 <= digitsVal 0 l < 10 ^ Z.of_nat (length l).
Proof.
  induction 1 as [|c l Hc Hl IH]; [cbn; lia|]. unfold isDigit in Hc. unfold digitsVal. cbn [fold_left length].
  fold (digitsVal (10 * 0 + (Z.of_N (N_of_ascii c) - 48)) l). rewrite digitsVal_split, Nat2Z.inj_succ, Z.pow_succ_r by lia. nia.
Qed.

Lemma digits_order l l' : Forall isDigit l -> Forall isDigit l' -> length l = length l' -> forall r r',
  String.leb (to_string (l ++ r)) (to_string (l' ++ r')) = true -> digitsVal 0 l <= digitsVal 0 l'.
Proof.
  intros Hl. revert l'. induction Hl as [|c l Hc Hl IH]; intros [|c' l'] Hl' Hlen r r' Hleb; [done..|].
  inversion Hl' as [|? ? Hc' Hl'']; subst. injection Hlen as Hlen.
  unfold digitsVal. cbn [fold_left].
  change (digitsVal (10 * 0 + (Z.of_N (N_of_ascii c) - 48)) l <= digitsVal (10 * 0 + (Z.of_N (N_of_ascii c') - 48)) l').
  rewrite (digitsVal_split l), (digitsVal_split l'), Hlen.
  pose proof (digitsVal_bound l Hl) as B. pose proof (digitsVal_bound l' Hl'') as B'. rewrite Hlen in B.
  unfold String.leb, to_string in Hleb. cbn in Hleb. unfold Ascii.compare in Hleb.
  destruct (N.compare_spec (N_of_ascii c) (N_of_ascii c')) as [E|E|E]; [|unfold isDigit in *; nia | done].
  rewrite E. specialize (IH l' Hl'' Hlen r r' Hleb). lia.
Qed.

Lemma pad16_digits n : 0 <= n -> Forall isDigit (of_string (pad16 n)) /\ digitsVal 0 (of_string (pad16 n)) = n.
Proof.
  intros Hn. unfold pad16, to_string. unfold of_string at 1 3. rewrite !String.list_ascii_of_string_of_list_ascii.
  assert (exists u, encodeInt n = NilEmpty.string_of_uint u /\ Z.of_uint u = n) as (u & -> & Hu).
  { unfold encodeInt. destruct n as [|p|p]; [by exists (Decimal.D0 Decimal.Nil) | | lia].
    exists (Pos.to_uint p). pose proof (DecimalZ.of_to (Zpos p)) as Hof. split; [|exact Hof].
    cbn [Z.to_int NilZero.string_of_int] in *. by destruct (Pos.to_uint p). }
  set (k := (16 - _)%nat). clearbody k. split.
  - apply Forall_app. split; [apply Forall_replicate; by split|].
    unfold of_string. clear. induction u; cbn; constructor; try (by split); done.
  - rewrite <- Hu, <- digitsVal_uint. unfold digitsVal. rewrite fold_left_app.
    assert (fold_left (λ (a : Z) (c : ascii), 10 * a + (Z.of_N (N_of_ascii c) - 48)) (replicate k "0"%char) 0 = 0) as ->; [|done].
    clear. induction k; [done|]. exact IHk.
Qed.

(** Members of one score order as their sequence numbers. *)
Lemma memberOf_order n id n' id' : 0 <= n < 10 ^ 16 -> 0 <= n' < 10 ^ 16 ->
  String.leb (memberOf n id) (memberOf n' id') = true -> n <= n'.
Proof.
  intros Hn Hn' Hleb. destruct (pad16_digits n) as [Hd Hv]; [lia|]. destruct (pad16_digits n') as [Hd' Hv']; [lia|].
  rewrite <- Hv, <- Hv'. eapply (digits_order _ _ Hd Hd'); [by rewrite !pad16_length|].
  rewrite <- (to_of_string (memberOf n id)), <- (to_of_string (memberOf n' id')) in Hleb.
  unfold memberOf in Hleb. rewrite !(of_string_app (pad16 _)) in Hleb. exact Hleb.
Qed.

(** ** Queues *)

Create Rewrite HintDb redis_keys.
Create Rewrite HintDb redis_kinds.

Section Keys.
Context (ns : string).

(** The queue of a key, and what follows its braces. *)
Definition parseKey (k : string) : option (bytes * bytes) :=
  match strip_prefix (of_string ("{" ++ ns ++ ":jobs:")) (of_string k) with
  | Some r => CutByte r "}"
  | None => None
  end.

Lemma valid_name_from_chars first s : valid_name_from first s = true -> "}"%char ∉ of_string s.
Proof.
  revert first. induction s as [|c s IH]; intros first; cbn; [intros _; apply not_elem_of_nil|].
  intros [Hc Hs]%andb_true_iff. apply not_elem_of_cons. split; [|by eapply IH].
  intros <-. by destruct first.
Qed.

Lemma ValidName_brace q : ValidName q = true -> "}"%char ∉ of_string q.
Proof. unfold ValidName, ValidJobName. destruct (_ || _); [done|]. apply valid_name_from_chars. Qed.

Lemma parseKey_base q rest : ValidName q = true ->
  parseKey (base ns q ++ rest) = Some (of_string q, of_string rest).
Proof.
  intros Hq. unfold parseKey, base. rewrite !of_string_app, <- !app_assoc.
  assert (forall l, strip_prefix (of_string "{" ++ of_string ns ++ of_string ":jobs:")
    (of_string "{" ++ of_string ns ++ of_string ":jobs:" ++ l) = Some l) as Hp.
  { intros l. apply strip_prefix_Some. by rewrite <- !app_assoc. }
  rewrite Hp. change (of_string "}") with ["}"%char]. cbn [app]. apply CutByte_app. by apply ValidName_brace.
Qed.

Inductive kind : Type := KString | KHash | KZSet.

(** The type a key of the queue's holds. *)
Definition kindOf (k : string) : kind :=
  match parseKey k with
  | None => KString
  | Some (_, rest) =>
      if bool_decide (rest ∈ map of_string [":pending"; ":reserved"; ":failed"]) then KZSet
      else if HasPrefix rest (of_string ":job:") then KHash else KString
  end.

Lemma parse_pending q : ValidName q = true -> parseKey (k_pending (keys ns q)) = Some (of_string q, of_string ":pending").
Proof. intros. by apply parseKey_base. Qed.
Lemma parse_reserved q : ValidName q = true -> parseKey (k_reserved (keys ns q)) = Some (of_string q, of_string ":reserved").
Proof. intros. by apply parseKey_base. Qed.
Lemma parse_failed q : ValidName q = true -> parseKey (k_failed (keys ns q)) = Some (of_string q, of_string ":failed").
Proof. intros. by apply parseKey_base. Qed.
Lemma parse_seq q : ValidName q = true -> parseKey (k_seq (keys ns q)) = Some (of_string q, of_string ":seq").
Proof. intros. by apply parseKey_base. Qed.

Lemma string_app_assoc (a b c : string) : ((a ++ b) ++ c = a ++ (b ++ c))%string.
Proof.
  induction a as [|x a IH]; [done|].
  change (String x ((a ++ b) ++ c)%string = String x (a ++ (b ++ c))%string). by rewrite IH.
Qed.

Lemma parse_job q id : ValidName q = true -> parseKey (jobKey ns q id) = Some (of_string q, of_string (":job:" ++ id)).
Proof. intros. unfold jobKey, keys. cbn [k_jobPrefix]. rewrite string_app_assoc. by apply parseKey_base. Qed.
Lemma parse_unique q key : ValidName q = true ->
  parseKey (k_unique (keys ns q) ++ key) = Some (of_string q, of_string (":unique:" ++ key)).
Proof. intros. unfold keys. cbn [k_unique]. rewrite string_app_assoc. by apply parseKey_base. Qed.

(** A claim of Once is no key of a queue. *)
Lemma shifted_ne {A} (a b : A) (n x y : list A) : a <> b -> n ++ a :: x <> b :: n ++ a :: y.
Proof.
  intros Hab. induction n as [|c n IH]; cbn; [congruence|]. intros [= -> E]. by apply IH.
Qed.

Lemma parse_once key : parseKey (onceKey ns key) = None.
Proof.
  unfold parseKey. destruct (strip_prefix _ _) as [r|] eqn:E; [|done]. exfalso.
  apply strip_prefix_Some in E. unfold onceKey in E. rewrite !of_string_app, <- !app_assoc in E.
  by apply (shifted_ne ":"%char "{"%char) in E.
Qed.

Lemma kind_pending q : ValidName q = true -> kindOf (k_pending (keys ns q)) = KZSet.
Proof. intros. unfold kindOf. by rewrite parse_pending. Qed.
Lemma kind_reserved q : ValidName q = true -> kindOf (k_reserved (keys ns q)) = KZSet.
Proof. intros. unfold kindOf. by rewrite parse_reserved. Qed.
Lemma kind_failed q : ValidName q = true -> kindOf (k_failed (keys ns q)) = KZSet.
Proof. intros. unfold kindOf. by rewrite parse_failed. Qed.
Lemma kind_seq q : ValidName q = true -> kindOf (k_seq (keys ns q)) = KString.
Proof. intros. unfold kindOf. by rewrite parse_seq. Qed.
Lemma kind_job q id : ValidName q = true -> kindOf (jobKey ns q id) = KHash.
Proof. intros. unfold kindOf. by rewrite parse_job. Qed.
Lemma kind_unique q key : ValidName q = true -> kindOf (k_unique (keys ns q) ++ key) = KString.
Proof. intros. unfold kindOf. by rewrite parse_unique. Qed.
Lemma kind_once key : kindOf (onceKey ns key) = KString.
Proof. unfold kindOf. by rewrite parse_once. Qed.

(** Keys of different queues, or of different jobs, differ. *)
Lemma jobKey_inj q id q' id' : ValidName q = true -> ValidName q' = true ->
  jobKey ns q id = jobKey ns q' id' -> q = q' /\ id = id'.
Proof.
  intros Hq Hq' E. apply (f_equal parseKey) in E. rewrite !parse_job in E by done.
  injection E as E1 E2. rewrite !of_string_app in E2. apply app_inv_head in E2.
  split; by apply of_string_inj.
Qed.
End Keys.

#[export] Hint Rewrite parse_pending parse_reserved parse_failed parse_seq parse_job parse_unique
  using done : redis_keys.
#[export] Hint Rewrite kind_pending kind_reserved kind_failed kind_seq kind_job kind_unique kind_once
  using done : redis_kinds.

(** Two keys that parse differently are different. *)
Ltac keys_ne :=
  let E := fresh "E" in
  intros E;
  match type of E with
  | context [keys ?ns _] => apply (f_equal (parseKey ns)) in E
  | context [jobKey ?ns _ _] => apply (f_equal (parseKey ns)) in E
  end;
  autorewrite with redis_keys in E; injection E as ?E;
  repeat match goal with H : of_string _ = of_string _ |- _ => apply of_string_inj in H end;
  try done; congruence.

(** * The durable queue: what the database means

    [abstracts d jobs n]: the database [d] holds exactly the jobs of the map [jobs], each in
    the sorted set of its state under the member of its sequence number, after at most [n]
    operations.  [abstracts_step] is the one frame lemma: a script that rewrites one job's
    hash, moves its member and maybe counts up the sequence keeps the relation. *)

Local Open Scope string_scope.
Local Open Scope list_scope.
Local Open Scope Z_scope.

Section Inv.
Context {D : Type} `{RL : RedisLaws D} (ns : string).
Context (unmarshalEnvelope : string -> option Envelope) (marshalFailure : Failure -> option string).

(** ** Types of keys *)

Definition well_kinded (d : D) (k : string) : Prop :=
  match kindOf ns k with KString => isString d k | KHash => isHash d k | KZSet => isZSet d k end.

Definition typed (d : D) : Prop := forall k, well_kinded d k.

Lemma typed_string d k : typed d -> kindOf ns k = KString -> isString d k.
Proof. intros Ht E. specialize (Ht k). unfold well_kinded in Ht. by rewrite E in Ht. Qed.
Lemma typed_hash d k : typed d -> kindOf ns k = KHash -> isHash d k.
Proof. intros Ht E. specialize (Ht k). unfold well_kinded in Ht. by rewrite E in Ht. Qed.
Lemma typed_zset d k : typed d -> kindOf ns k = KZSet -> isZSet d k.
Proof. intros Ht E. specialize (Ht k). unfold well_kinded in Ht. by rewrite E in Ht. Qed.

Lemma typed_wroteString d d' k v : typed d -> kindOf ns k = KString -> wroteString d d' k v -> typed d'.
Proof.
  intros Ht Hk (Hs & Hh & Hz) k'. specialize (Ht k'). unfold well_kinded, isString, isHash, isZSet in *.
  rewrite Hs, Hh, Hz. destruct (decide (k' = k)) as [->|]; [by rewrite Hk in * | done].
Qed.

Lemma typed_wroteHash d d' k h : typed d -> kindOf ns k = KHash -> wroteHash d d' k h -> typed d'.
Proof.
  intros Ht Hk (Hs & Hh & Hz) k'. specialize (Ht k'). unfold well_kinded, isString, isHash, isZSet in *.
  rewrite Hs, Hh, Hz. destruct (decide (k' = k)) as [->|]; [by rewrite Hk in * | done].
Qed.

Lemma typed_wroteZSet d d' k z : typed d -> kindOf ns k = KZSet -> wroteZSet d d' k z -> typed d'.
Proof.
  intros Ht Hk (Hs & Hh & Hz) k'. specialize (Ht k'). unfold well_kinded, isString, isHash, isZSet in *.
  rewrite Hs, Hh, Hz. destruct (decide (k' = k)) as [->|]; [by rewrite Hk in * | done].
Qed.

Lemma typed_DEL d k : typed d -> typed (DEL k d).
Proof.
  intros Ht k'. specialize (Ht k'). pose proof (law_DEL k d) as (Hs & Hh & Hz).
  unfold well_kinded, isString, isHash, isZSet in *. rewrite Hs, Hh, Hz.
  destruct (decide (k' = k)); [|done]. by destruct (kindOf ns k').
Qed.

(** What each writing command does to a typed database. *)
Lemma do_HSET d k l : typed d -> kindOf ns k = KHash ->
  typed (HSET k l d) /\ wroteHash d (HSET k l d) k (setFields l (hashes d k)).
Proof.
  intros Ht Hk. pose proof (law_HSET k l d (typed_hash _ _ Ht Hk)) as Hw. split; [|done]. by eapply typed_wroteHash.
Qed.

Lemma do_HDEL d k f : typed d -> kindOf ns k = KHash ->
  typed (HDEL k f d) /\ wroteHash d (HDEL k f d) k (delete f (hashes d k)).
Proof.
  intros Ht Hk. pose proof (law_HDEL k f d (typed_hash _ _ Ht Hk)) as Hw. split; [|done]. by eapply typed_wroteHash.
Qed.

Lemma do_ZADD d k s m : typed d -> kindOf ns k = KZSet ->
  typed (ZADD k s m d) /\ wroteZSet d (ZADD k s m d) k (<[m := s]> (zsets d k)).
Proof.
  intros Ht Hk. pose proof (law_ZADD k s m d (typed_zset _ _ Ht Hk)) as Hw. split; [|done]. by eapply typed_wroteZSet.
Qed.

Lemma do_ZREM d k m : typed d -> kindOf ns k = KZSet ->
  typed (ZREM k m d) /\ wroteZSet d (ZREM k m d) k (delete m (zsets d k)).
Proof.
  intros Ht Hk. pose proof (law_ZREM k m d (typed_zset _ _ Ht Hk)) as Hw. split; [|done]. by eapply typed_wroteZSet.
Qed.

Lemma do_HINCRBY d k f delta n : typed d -> kindOf ns k = KHash ->
  hashes d k !! f = Some (encodeInt n) -> in_int64 n -> in_int64 (n + delta) ->
  exists d', HINCRBY k f delta d = (d', n + delta) /\ typed d' /\
    wroteHash d d' k (<[f := encodeInt (n + delta)]> (hashes d k)).
Proof.
  intros Ht Hk Hf Hn Hn'.
  destruct (law_HINCRBY k f delta n d (typed_hash _ _ Ht Hk) (or_introl Hf) Hn Hn') as [Hv Hw].
  destruct (HINCRBY k f delta d) as [d' v]. cbn in *. subst v. exists d'. split; [done|]. split; [|done].
  by eapply typed_wroteHash.
Qed.

(** The sequence counter of a queue at [n]. *)
Definition seqAt (d : D) (k : string) (n : Z) : Prop :=
  strings d k = Some (encodeInt n, None) \/ (strings d k = None /\ n = 0).

Lemma do_INCR d k n : typed d -> kindOf ns k = KString -> seqAt d k n -> in_int64 n -> in_int64 (n + 1) ->
  exists d', INCR k d = (d', n + 1) /\ typed d' /\ wroteString d d' k (Some (encodeInt (n + 1), None)).
Proof.
  intros Ht Hk Hs Hn Hn'.
  destruct (law_INCR k d n None (typed_string _ _ Ht Hk)) as [Hv Hw]; [destruct Hs as [->|[-> ->]]; auto | done | done|].
  destruct (INCR k d) as [d' v]. cbn in *. subst v. exists d'. split; [done|]. split; [|done].
  by eapply typed_wroteString.
Qed.

(** ** Jobs *)

Inductive astate : Type :=
| AWaiting (at_ : Z)                          (* the score in the pending set *)
| ALeased (receipt : string) (deadline : Z)
| ABuried (f : Failure) (data : string) (at_ : Z).

Record ajob : Type := mkAJob {
  a_no : Z;
  a_env : string;
  a_attempts : Z;
  a_state : astate;
  a_unique : option (string * Z)              (* the claim's key, of the queue, and its TTL in ms *)
}.

Definition receiptOf (s : astate) : string := match s with ALeased r _ => r | _ => "" end.
Definition failureOf (s : astate) : option string := match s with ABuried _ data _ => Some data | _ => None end.

(** The hash of a job. *)
Record hash_ok (q id : string) (j : ajob) (h : gmap string string) : Prop := {
  ho_env : h !! "env" = Some (a_env j);
  ho_attempts : h !! "attempts" = Some (encodeInt (a_attempts j));
  ho_receipt : h !! "receipt" = Some (receiptOf (a_state j));
  ho_member : h !! "member" = Some (memberOf (a_no j) id);
  ho_failure : h !! "failure" = failureOf (a_state j);
  ho_unique : h !! "unique" = match a_unique j with Some (key, _) => Some (k_unique (keys ns q) ++ key)%string | None => None end;
  ho_ttl : h !! "unique_ttl" = match a_unique j with Some (_, ttl) => Some (encodeInt ttl) | None => None end
}.

(** A job within the bounds of [n] operations. *)
Record job_fine (id : string) (n : Z) (j : ajob) : Prop := {
  jf_no : 0 <= a_no j <= n;
  jf_attempts : 0 <= a_attempts j <= n;
  jf_env : forall e, unmarshalEnvelope (a_env j) = Some e -> ID e = id;
  jf_receipt : forall r t, a_state j = ALeased r t -> r <> "";
  jf_failure : forall f data t, a_state j = ABuried f data t -> marshalFailure f = Some data;
  jf_ttl : forall key ttl, a_unique j = Some (key, ttl) -> 0 < ttl <= max_int64
}.

(** The most operations the relation counts: sequence numbers keep sixteen digits, and Lua's
    doubles are exact. *)
Definition maxOps : Z := 2 ^ 53.

Lemma maxOps_small n : n < maxOps -> n < 10 ^ 16.
Proof. intros Hn. apply Z.lt_le_trans with maxOps; [done | vm_compute; discriminate]. Qed.

Definition pendingScore (j : ajob) : option Z := match a_state j with AWaiting t => Some t | _ => None end.
Definition reservedScore (j : ajob) : option Z := match a_state j with ALeased _ t => Some t | _ => None end.
Definition failedScore (j : ajob) : option Z := match a_state j with ABuried _ _ t => Some t | _ => None end.

(** A sorted set holds the members of the jobs that [score] puts in it, under [name]. *)
Definition zset_ok (jobs : gmap (string * string) ajob) (q : string) (score : ajob -> option Z)
    (name : string -> ajob -> string) (z : gmap string Z) : Prop :=
  forall m s, z !! m = Some s <-> exists id j, jobs !! (q, id) = Some j /\ score j = Some s /\ m = name id j.

Definition memberName (id : string) (j : ajob) : string := memberOf (a_no j) id.
Definition idName (id : string) (j : ajob) : string := id.

Record abstracts (d : D) (jobs : gmap (string * string) ajob) (n : Z) : Prop := {
  ab_typed : typed d;
  ab_ops : 0 <= n < maxOps;
  ab_valid : forall q id j, jobs !! (q, id) = Some j -> ValidName q = true /\ job_fine id n j;
  ab_hash : forall q id, ValidName q = true ->
    match jobs !! (q, id) with
    | Some j => hash_ok q id j (hashes d (jobKey ns q id))
    | None => hashes d (jobKey ns q id) = ∅
    end;
  ab_pending : forall q, ValidName q = true ->
    zset_ok jobs q pendingScore memberName (zsets d (k_pending (keys ns q)));
  ab_reserved : forall q, ValidName q = true ->
    zset_ok jobs q reservedScore memberName (zsets d (k_reserved (keys ns q)));
  ab_failed : forall q, ValidName q = true ->
    zset_ok jobs q failedScore idName (zsets d (k_failed (keys ns q)));
  ab_seq : forall q, ValidName q = true -> exists i, seqAt d (k_seq (keys ns q)) i /\ 0 <= i <= n /\
    forall id j, jobs !! (q, id) = Some j -> a_no j <= i
}.

(** ** The frame lemma *)

Definition put (k : string * string) (jo : option ajob) (jobs : gmap (string * string) ajob) :
    gmap (string * string) ajob := partial_alter (fun _ => jo) k jobs.

Lemma lookup_put k jo jobs k' : put k jo jobs !! k' = if decide (k' = k) then jo else jobs !! k'.
Proof.
  unfold put. destruct (decide (k' = k)) as [->|]; [by rewrite lookup_partial_alter_eq | by rewrite lookup_partial_alter_ne].
Qed.

(** What a sorted set should hold at [m] when the job [id] goes from [jo] to [jo']. *)
Definition rescored (id : string) (jo jo' : option ajob) (score : ajob -> option Z) (name : string -> ajob -> string)
    (z : gmap string Z) (m : string) : option Z :=
  let rest := match jo with Some j => if decide (m = name id j) then None else z !! m | None => z !! m end in
  match jo' with Some j' => if decide (m = name id j') then score j' else rest | None => rest end.

Lemma zset_ok_put jobs q id jo' score name z z' :
  zset_ok jobs q score name z ->
  (forall id1 id2 j1 j2, (jobs !! (q, id1) = Some j1 \/ (id1 = id /\ jo' = Some j1)) ->
     (jobs !! (q, id2) = Some j2 \/ (id2 = id /\ jo' = Some j2)) -> name id1 j1 = name id2 j2 -> id1 = id2) ->
  (forall m, z' !! m = rescored id (jobs !! (q, id)) jo' score name z m) ->
  zset_ok (put (q, id) jo' jobs) q score name z'.
Proof.
  intros Hz Hinj Hz' m s. rewrite Hz'. unfold rescored. split.
  - assert ((match jobs !! (q, id) with Some j => if decide (m = name id j) then None else z !! m | None => z !! m end) = Some s ->
      exists id0 j, put (q, id) jo' jobs !! (q, id0) = Some j /\ score j = Some s /\ m = name id0 j) as Hrest.
    { intros Hm. assert (z !! m = Some s) as Hm'.
      { destruct (jobs !! (q, id)); [|done]. by destruct (decide _). }
      apply Hz in Hm' as (id0 & j0 & Hj0 & Hs0 & ->). destruct (decide (id0 = id)) as [->|Hne].
      - rewrite Hj0 in Hm. by rewrite decide_True in Hm.
      - exists id0, j0. rewrite lookup_put, decide_False by congruence. done. }
    destruct jo' as [j'|] eqn:Ej'; [|exact Hrest]. destruct (decide (m = name id j')) as [->|Hne]; [|exact Hrest].
    intros Hs. exists id, j'. by rewrite lookup_put, decide_True.
  - intros (id0 & j0 & Hj0 & Hs0 & ->). rewrite lookup_put in Hj0. destruct (decide ((q, id0) = (q, id))) as [Heq|Hne].
    + injection Heq as ->. rewrite Hj0. by rewrite decide_True.
    + assert (id0 <> id) as Hne' by congruence.
      assert (z !! name id0 j0 = Some s) as Hm by (apply Hz; eauto).
      assert (match jobs !! (q, id) with Some j => if decide (name id0 j0 = name id j) then None else z !! name id0 j0
        | None => z !! name id0 j0 end = Some s) as Hrest.
      { destruct (jobs !! (q, id)) as [j|] eqn:Ej; [|done]. rewrite decide_False; [done|].
        intros E. apply Hne'. eapply Hinj; eauto. }
      destruct jo' as [j'|]; [|done]. rewrite decide_False; [done|]. intros E. apply Hne'. eapply Hinj; eauto.
Qed.

Lemma zset_ok_other jobs q k jo score name z : k.1 <> q -> zset_ok jobs q score name z ->
  zset_ok (put k jo jobs) q score name z.
Proof.
  intros Hk Hz m s. pose proof (Hz m s) as Hms. rewrite Hms. split; intros (id & j & Hj & Hs & Hm); exists id, j; (split; [|done]).
  - rewrite lookup_put, decide_False; [done|]. by intros <-.
  - rewrite lookup_put, decide_False in Hj; [done|]. by intros <-.
Qed.

(** A job the set does not hold is not under its name. *)
Lemma zset_ok_absent jobs q score name z id j : zset_ok jobs q score name z -> jobs !! (q, id) = Some j -> score j = None ->
  (forall id2 j2, jobs !! (q, id2) = Some j2 -> name id2 j2 = name id j -> id2 = id) -> z !! name id j = None.
Proof.
  intros Hz Hj Hs Hinj. destruct (z !! name id j) as [s|] eqn:E; [|done]. exfalso.
  apply Hz in E as (id2 & j2 & Hj2 & Hs2 & Hm). assert (id2 = id) as -> by eauto. congruence.
Qed.

Lemma job_fine_mono id n n' j : n <= n' -> job_fine id n j -> job_fine id n' j.
Proof. intros Hn []. split; try done; lia. Qed.

(** The state of one job and of nothing else. *)
Record rewrote (q id : string) (jo jo' : option ajob) (i : Z) (d d' : D) : Prop := {
  rw_typed : typed d';
  rw_hash : match jo' with Some j => hash_ok q id j (hashes d' (jobKey ns q id)) | None => hashes d' (jobKey ns q id) = ∅ end;
  rw_hashes : forall q' id', ValidName q' = true -> (q', id') <> (q, id) ->
    hashes d' (jobKey ns q' id') = hashes d (jobKey ns q' id');
  rw_pending : forall m, zsets d' (k_pending (keys ns q)) !! m =
    rescored id jo jo' pendingScore memberName (zsets d (k_pending (keys ns q))) m;
  rw_reserved : forall m, zsets d' (k_reserved (keys ns q)) !! m =
    rescored id jo jo' reservedScore memberName (zsets d (k_reserved (keys ns q))) m;
  rw_failed : forall m, zsets d' (k_failed (keys ns q)) !! m =
    rescored id jo jo' failedScore idName (zsets d (k_failed (keys ns q))) m;
  rw_zsets : forall q', ValidName q' = true -> q' <> q ->
    zsets d' (k_pending (keys ns q')) = zsets d (k_pending (keys ns q')) /\
    zsets d' (k_reserved (keys ns q')) = zsets d (k_reserved (keys ns q')) /\
    zsets d' (k_failed (keys ns q')) = zsets d (k_failed (keys ns q'));
  rw_seq : seqAt d' (k_seq (keys ns q)) i;
  rw_seqs : forall q', ValidName q' = true -> q' <> q -> strings d' (k_seq (keys ns q')) = strings d (k_seq (keys ns q'))
}.

Lemma abstracts_member d jobs n q id1 id2 j1 j2 : abstracts d jobs n ->
  jobs !! (q, id1) = Some j1 -> jobs !! (q, id2) = Some j2 -> memberName id1 j1 = memberName id2 j2 -> id1 = id2.
Proof.
  intros Ha H1 H2. pose proof (ab_ops _ _ _ Ha). destruct (ab_valid _ _ _ Ha _ _ _ H1) as [_ [Hb1 _ _ _ _ _]].
  destruct (ab_valid _ _ _ Ha _ _ _ H2) as [_ [Hb2 _ _ _ _ _]].
  pose proof (maxOps_small n ltac:(lia)). apply memberOf_inj; lia.
Qed.

Lemma abstracts_step d d' jobs n n' q id jo' i i0 :
  abstracts d jobs n -> ValidName q = true -> rewrote q id (jobs !! (q, id)) jo' i d d' ->
  n <= n' < maxOps -> seqAt d (k_seq (keys ns q)) i0 -> i0 <= i <= n' -> 0 <= i ->
  (forall id2 j2, jobs !! (q, id2) = Some j2 -> a_no j2 <= i0) ->
  (forall j', jo' = Some j' -> job_fine id n' j' /\ a_no j' <= i) ->
  abstracts d' (put (q, id) jo' jobs) n'.
Proof.
  intros Ha Hq Hrw Hn Hi0 Hi Hipos Hle Hj'. pose proof (ab_ops _ _ _ Ha) as Hops.
  pose proof (maxOps_small n' ltac:(lia)) as Hsmall.
  assert (forall id1 j1, jobs !! (q, id1) = Some j1 \/ (id1 = id /\ jo' = Some j1) -> 0 <= a_no j1 < 10 ^ 16) as Hno.
  { intros id1 j1 [H1|[-> H1]].
    - destruct (ab_valid _ _ _ Ha _ _ _ H1) as [_ [Hb _ _ _ _ _]]. lia.
    - destruct (Hj' _ H1) as [[Hb _ _ _ _ _] _]. lia. }
  assert (forall id1 id2 j1 j2, (jobs !! (q, id1) = Some j1 \/ (id1 = id /\ jo' = Some j1)) ->
     (jobs !! (q, id2) = Some j2 \/ (id2 = id /\ jo' = Some j2)) -> memberName id1 j1 = memberName id2 j2 -> id1 = id2) as Hinj.
  { intros id1 id2 j1 j2 H1 H2. apply memberOf_inj; eauto. }
  split.
  - apply Hrw.
  - lia.
  - intros q' id' j Hlk. rewrite lookup_put in Hlk. destruct (decide ((q', id') = (q, id))) as [E|Hne].
    + injection E as -> ->. split; [done|]. by apply Hj'.
    + destruct (ab_valid _ _ _ Ha _ _ _ Hlk). split; [done|]. eapply job_fine_mono; [|done]. lia.
  - intros q' id' Hq'. rewrite lookup_put. destruct (decide ((q', id') = (q, id))) as [E|Hne].
    + injection E as -> ->. apply (rw_hash _ _ _ _ _ _ _ Hrw).
    + rewrite (rw_hashes _ _ _ _ _ _ _ Hrw) by done. by apply (ab_hash _ _ _ Ha).
  - intros q' Hq'. destruct (decide (q' = q)) as [->|Hne].
    + eapply zset_ok_put; [by apply (ab_pending _ _ _ Ha) | exact Hinj | apply (rw_pending _ _ _ _ _ _ _ Hrw)].
    + destruct (rw_zsets _ _ _ _ _ _ _ Hrw q' Hq' Hne) as (-> & _ & _).
      apply zset_ok_other; [done | by apply (ab_pending _ _ _ Ha)].
  - intros q' Hq'. destruct (decide (q' = q)) as [->|Hne].
    + eapply zset_ok_put; [by apply (ab_reserved _ _ _ Ha) | exact Hinj | apply (rw_reserved _ _ _ _ _ _ _ Hrw)].
    + destruct (rw_zsets _ _ _ _ _ _ _ Hrw q' Hq' Hne) as (_ & -> & _).
      apply zset_ok_other; [done | by apply (ab_reserved _ _ _ Ha)].
  - intros q' Hq'. destruct (decide (q' = q)) as [->|Hne].
    + eapply zset_ok_put; [by apply (ab_failed _ _ _ Ha) | done | apply (rw_failed _ _ _ _ _ _ _ Hrw)].
    + destruct (rw_zsets _ _ _ _ _ _ _ Hrw q' Hq' Hne) as (_ & _ & ->).
      apply zset_ok_other; [done | by apply (ab_failed _ _ _ Ha)].
  - intros q' Hq'. destruct (decide (q' = q)) as [->|Hne].
    + exists i. split; [apply Hrw|]. split; [lia|]. intros id' j Hlk. rewrite lookup_put in Hlk.
      destruct (decide ((q, id') = (q, id))); [by apply Hj'|]. specialize (Hle _ _ Hlk). lia.
    + destruct (ab_seq _ _ _ Ha q' Hq') as (x & Hx & Hxn & Hxl). exists x. split; [|split; [lia|]].
      * unfold seqAt in *. by rewrite (rw_seqs _ _ _ _ _ _ _ Hrw).
      * intros id' j Hlk. rewrite lookup_put, decide_False in Hlk by congruence. eauto.
Qed.
End Inv.
