(* ===== verification/JobsRedisScripts.v ===== *)
(** * The scripts of the durable queue, on the jobs they mean

    Each script moves the one job it is about in the map of jobs, or leaves the database as
    it was; and the loop of the reserve script ends. *)

From stdpp Require Import base tactics numbers list sorting strings gmap fin_maps.
From Stdlib Require Import ZArith Lia Ascii.
From S2P Require Import Prelude GoBytes JobsTypes JobsMemory Cache CacheNamespace Redis JobsRedis JobsRedisInv.

Local Open Scope string_scope.
Local Open Scope list_scope.
Local Open Scope Z_scope.

(** Decide the equalities of keys in the goal. *)
Ltac dkeys :=
  repeat match goal with
  | |- context [decide (?a = ?a)] => rewrite (decide_True (P := a = a)) by done
  | |- context [decide (?a = ?b)] => rewrite (decide_False (P := a = b)) by (first [done | keys_ne])
  end.

(** The views of a database after the commands before it. *)
Ltac chase :=
  repeat (match goal with
  | H : forall k' : string, strings ?d k' = _ |- context [strings ?d _] => rewrite H
  | H : forall k' : string, hashes ?d k' = _ |- context [hashes ?d _] => rewrite H
  | H : forall k' : string, zsets ?d k' = _ |- context [zsets ?d _] => rewrite H
  end; dkeys).

Section Scripts.
Context {D : Type} `{RL : RedisLaws D} (ns : string).
Context (unmarshalEnvelope : string -> option Envelope) (marshalFailure : Failure -> option string).

Local Abbreviation abstracts := (abstracts ns unmarshalEnvelope marshalFailure).

Lemma small_int64 x : -1 <= x <= maxOps -> in_int64 x.
Proof. unfold maxOps, in_int64, min_int64, max_int64. lia. Qed.

(** ** Reading *)

Lemma job_lookup d jobs n q id j : abstracts d jobs n -> jobs !! (q, id) = Some j ->
  ValidName q = true /\ typed ns d /\ hash_ok ns q id j (hashes d (jobKey ns q id)) /\
  job_fine unmarshalEnvelope marshalFailure id n j.
Proof.
  intros Ha Hj. destruct (ab_valid _ _ _ _ _ _ Ha _ _ _ Hj) as [Hq Hf]. split; [done|].
  split; [apply Ha|]. split; [|done]. pose proof (ab_hash _ _ _ _ _ _ Ha q id Hq) as Hh. by rewrite Hj in Hh.
Qed.

Lemma EXISTS_job d jobs n srv q id : abstracts d jobs n -> ValidName q = true ->
  EXISTS srv (jobKey ns q id) d = bool_decide (jobs !! (q, id) <> None).
Proof.
  intros Ha Hq. rewrite law_EXISTS by (apply (typed_hash ns); [apply Ha | by apply kind_job]).
  apply bool_decide_ext. pose proof (ab_hash _ _ _ _ _ _ Ha q id Hq) as Hh.
  destruct (jobs !! (q, id)) as [j|]; [|rewrite Hh; naive_solver].
  split; [done|]. intros _ E. pose proof (ho_env _ _ _ _ _ Hh) as He. rewrite E in He. by rewrite lookup_empty in He.
Qed.

Lemma HGET_job d jobs n q id f : abstracts d jobs n -> ValidName q = true ->
  HGET (jobKey ns q id) f d = hashes d (jobKey ns q id) !! f.
Proof. intros Ha Hq. apply law_HGET, (typed_hash ns); [apply Ha | by apply kind_job]. Qed.

(** Whether a receipt holds the job's lease. *)
Lemma holds_job d jobs n q id receipt : abstracts d jobs n -> ValidName q = true -> receipt <> "" ->
  JobsRedis.holds (jobKey ns q id) receipt d =
  match jobs !! (q, id) with
  | Some j => match a_state j with ALeased r _ => String.eqb r receipt | _ => false end
  | None => false
  end.
Proof.
  intros Ha Hq Hr. unfold JobsRedis.holds. erewrite HGET_job by done.
  pose proof (ab_hash _ _ _ _ _ _ Ha q id Hq) as Hh. destruct (jobs !! (q, id)) as [j|].
  - rewrite (ho_receipt _ _ _ _ _ Hh). destruct (a_state j) as [t|r t|f data t]; cbn [receiptOf].
    + by apply bool_decide_eq_false_2; intros [= <-].
    + destruct (String.eqb_spec r receipt) as [->|Hne]; [by apply bool_decide_eq_true_2|].
      apply bool_decide_eq_false_2. congruence.
    + by apply bool_decide_eq_false_2; intros [= <-].
  - rewrite Hh, lookup_empty. by apply bool_decide_eq_false_2.
Qed.

(** ** The sorted sets of a rewritten job *)

Lemma member_absent d jobs n q score z id x : abstracts d jobs n ->
  zset_ok jobs q score memberName z -> 0 <= x < 10 ^ 16 ->
  (forall j, jobs !! (q, id) = Some j -> score j = None \/ memberOf x id <> memberName id j) ->
  z !! memberOf x id = None.
Proof.
  intros Ha Hz Hx Hj. destruct (z !! memberOf x id) as [s|] eqn:E; [|done]. exfalso.
  apply Hz in E as (id2 & j2 & Hj2 & Hs2 & Hm).
  destruct (ab_valid _ _ _ _ _ _ Ha _ _ _ Hj2) as [_ [Hb _ _ _ _ _]].
  pose proof (ab_ops _ _ _ _ _ _ Ha). pose proof (maxOps_small n ltac:(lia)).
  assert (id = id2) as <- by (eapply memberOf_inj; [| |exact Hm]; lia).
  destruct (Hj _ Hj2); congruence.
Qed.

(** The job was not in the set and does not enter it. *)
Lemma rescored_keep d jobs n q id jo' score z : abstracts d jobs n ->
  zset_ok jobs q score memberName z ->
  (forall j, jobs !! (q, id) = Some j -> score j = None) ->
  (forall j', jo' = Some j' -> score j' = None /\ 0 <= a_no j' < 10 ^ 16) ->
  forall m, z !! m = rescored id (jobs !! (q, id)) jo' score memberName z m.
Proof.
  intros Ha Hz Hold Hnew m. pose proof (ab_ops _ _ _ _ _ _ Ha). pose proof (maxOps_small n ltac:(lia)).
  assert (z !! m = match jobs !! (q, id) with Some j => if decide (m = memberName id j) then None else z !! m | None => z !! m end) as Hrest.
  { destruct (jobs !! (q, id)) as [j|] eqn:Ej; [|done]. destruct (decide (m = memberName id j)) as [->|]; [|done].
    destruct (ab_valid _ _ _ _ _ _ Ha _ _ _ Ej) as [_ [Hb _ _ _ _ _]].
    eapply member_absent; [done | done | lia|]. intros j0 Hj0. left. apply Hold. congruence. }
  unfold rescored. destruct jo' as [j'|]; [|done]. destruct (Hnew j' eq_refl) as [-> Hb'].
  destruct (decide (m = memberName id j')) as [->|]; [|done].
  eapply member_absent; [done | done | lia|]. intros j0 Hj0. left. by apply Hold.
Qed.

(** The job leaves the set, or was not there to begin with. *)
Lemma rescored_leave d jobs n q id j jo' score z : abstracts d jobs n ->
  zset_ok jobs q score memberName z -> jobs !! (q, id) = Some j ->
  (forall j', jo' = Some j' -> score j' = None /\ 0 <= a_no j' < 10 ^ 16) ->
  forall m, delete (memberName id j) z !! m = rescored id (jobs !! (q, id)) jo' score memberName z m.
Proof.
  intros Ha Hz Hj Hnew m. unfold rescored. rewrite Hj, delete_decide. destruct jo' as [j'|]; [|done].
  destruct (Hnew j' eq_refl) as [-> Hb'].
  destruct (decide (m = memberName id j)) as [->|Hne]; [by destruct (decide _)|].
  destruct (decide (m = memberName id j')) as [->|]; [|done].
  eapply member_absent; [done | done | lia|]. intros j0 Hj0. right. unfold memberName in *. congruence.
Qed.

(** The job enters the set under its name, from outside or under the same name. *)
Lemma rescored_enter d jobs n q id j' s score z : abstracts d jobs n ->
  zset_ok jobs q score memberName z -> score j' = Some s ->
  (forall j, jobs !! (q, id) = Some j -> score j = None \/ memberName id j = memberName id j') ->
  forall m, <[memberName id j' := s]> z !! m = rescored id (jobs !! (q, id)) (Some j') score memberName z m.
Proof.
  intros Ha Hz Hs Hold m. unfold rescored. rewrite lookup_decide, Hs.
  destruct (decide (m = memberName id j')) as [->|Hne]; [done|].
  destruct (jobs !! (q, id)) as [j|] eqn:Ej; [|done]. destruct (decide (m = memberName id j)) as [->|]; [|done].
  destruct (Hold j eq_refl) as [Hn|E]; [|congruence].
  destruct (ab_valid _ _ _ _ _ _ Ha _ _ _ Ej) as [_ [Hb _ _ _ _ _]].
  pose proof (ab_ops _ _ _ _ _ _ Ha). pose proof (maxOps_small n ltac:(lia)).
  eapply member_absent; [done | done | lia|]. intros j0 Hj0. left. congruence.
Qed.

(** The failed set, whose members are the IDs. *)
Lemma rescored_failed d jobs n q id jo' z (z' : gmap string Z) : abstracts d jobs n ->
  zset_ok jobs q failedScore idName z ->
  (forall m, z' !! m = if decide (m = id) then (jo' ≫= failedScore) else z !! m) ->
  forall m, z' !! m = rescored id (jobs !! (q, id)) jo' failedScore idName z m.
Proof.
  intros Ha Hz Hz' m. rewrite Hz'. unfold rescored, idName.
  destruct (jobs !! (q, id)) as [j|] eqn:Ej, jo' as [j'|]; cbn; destruct (decide (m = id)) as [->|]; try done.
  destruct (z !! id) eqn:E; [|done]. apply Hz in E as (id2 & j2 & Hj2 & _ & ->). unfold idName in Ej. congruence.
Qed.

(** Outside the failed set before and after: it is as it was. *)
Lemma rescored_unfailed d jobs n q id jo' z : abstracts d jobs n ->
  zset_ok jobs q failedScore idName z -> (forall j, jobs !! (q, id) = Some j -> failedScore j = None) ->
  (forall j', jo' = Some j' -> failedScore j' = None) ->
  forall m, z !! m = rescored id (jobs !! (q, id)) jo' failedScore idName z m.
Proof.
  intros Ha Hz Hold Hnew. eapply rescored_failed; [done | done|]. intros m. destruct (decide (m = id)) as [->|]; [|done].
  assert (jo' ≫= failedScore = None) as -> by (destruct jo'; [by apply Hnew | done]).
  destruct (z !! id) eqn:E; [|done]. apply Hz in E as (id2 & j2 & Hj2 & Hs & ->). rewrite (Hold _ Hj2) in Hs. done.
Qed.

(** ** The scripts *)

(** Fields of a hash after HSET, HINCRBY and HDEL. *)
Ltac fields :=
  unfold setFields; cbn [fold_left fst snd];
  repeat first [rewrite lookup_insert_eq | rewrite lookup_insert_ne by done
               | rewrite lookup_delete_eq | rewrite lookup_delete_ne by done].

(** The key of another job is another key. *)
Lemma jobKey_ne q id q' id' : ValidName q = true -> ValidName q' = true -> (q', id') <> (q, id) ->
  jobKey ns q' id' <> jobKey ns q id.
Proof. intros Hq Hq' Hne E. apply jobKey_inj in E as [-> ->]; done. Qed.

(** [pushScript] *)
Lemma pushScript_dup d jobs n srv q id j pending seq env at_ : abstracts d jobs n -> jobs !! (q, id) = Some j ->
  pushScript srv (jobKey ns q id) pending seq env at_ id d = (d, 0).
Proof.
  intros Ha Hj. unfold pushScript. destruct (job_lookup _ _ _ _ _ _ Ha Hj) as [Hq _].
  by rewrite (EXISTS_job _ _ _ _ _ _ Ha Hq), bool_decide_eq_true_2 by congruence.
Qed.

(** Queueing a new job, with the claim it holds until done. *)
Definition queueNew (q id env : string) (at_ : Z) (u : option (string * Z)) (d : D) : D :=
  let '(d, n) := INCR (k_seq (keys ns q)) d in
  let member := memberOf n id in
  let d := HSET (jobKey ns q id) (jobFields env member) d in
  let d := match u with
           | Some (key, ttl) => HSET (jobKey ns q id) [("unique", (k_unique (keys ns q) ++ key)%string); ("unique_ttl", encodeInt ttl)] d
           | None => d
           end in
  ZADD (k_pending (keys ns q)) at_ member d.

Lemma queueNew_abstracts d jobs n q id env at_ u : abstracts d jobs n -> ValidName q = true -> n + 1 < maxOps ->
  jobs !! (q, id) = None -> (forall e, unmarshalEnvelope env = Some e -> ID e = id) ->
  (forall key ttl, u = Some (key, ttl) -> 0 < ttl <= max_int64) ->
  exists i, abstracts (queueNew q id env at_ u d) (put (q, id) (Some (mkAJob i env 0 (AWaiting at_) u)) jobs) (n + 1).
Proof.
  intros Ha Hq Hn Hj Henv Hu. unfold queueNew.
  destruct (ab_seq _ _ _ _ _ _ Ha q Hq) as (i & Hi & Hib & Hle). pose proof (ab_ops _ _ _ _ _ _ Ha) as Hops.
  pose proof (ab_typed _ _ _ _ _ _ Ha) as Ht. pose proof (maxOps_small (n + 1) ltac:(lia)) as Hsmall.
  destruct (do_INCR ns d (k_seq (keys ns q)) i) as (d1 & -> & Ht1 & Hs1 & Hh1 & Hz1);
    [done | by apply kind_seq | done | apply small_int64; lia | apply small_int64; lia|].
  exists (i + 1). set (j' := mkAJob (i + 1) env 0 (AWaiting at_) u).
  change (memberOf (i + 1) id) with (memberName id j'). set (l := jobFields env (memberName id j')).
  destruct (do_HSET ns d1 (jobKey ns q id) l Ht1 ltac:(by apply kind_job)) as (Ht2 & Hs2 & Hh2 & Hz2).
  set (d2 := HSET _ l _) in *. cbv zeta.
  pose proof (ab_hash _ _ _ _ _ _ Ha q id Hq) as Hh. rewrite Hj in Hh.
  set (d3 := match u with Some _ => _ | None => d2 end).
  assert (typed ns d3 /\ (forall k', strings d3 k' = strings d2 k') /\ (forall k', zsets d3 k' = zsets d2 k') /\
    (forall k', k' <> jobKey ns q id -> hashes d3 k' = hashes d2 k') /\
    hash_ok ns q id j' (hashes d3 (jobKey ns q id))) as (Ht3 & Hs3 & Hz3 & Hh3 & Hok3).
  { subst d3. destruct u as [[key ttl]|].
    - destruct (do_HSET ns d2 (jobKey ns q id) [("unique", (k_unique (keys ns q) ++ key)%string); ("unique_ttl", encodeInt ttl)]
        Ht2 ltac:(by apply kind_job)) as (Htt & Hss & Hhh & Hzz).
      split; [done|]. split; [done|]. split; [done|]. split; [intros k' Hk'; by chase|].
      chase. rewrite Hh. subst l. unfold jobFields. by split; fields.
    - repeat (split; [done|]). chase. rewrite Hh. subst l. unfold jobFields. by split; fields. }
  destruct (do_ZADD ns d3 (k_pending (keys ns q)) at_ (memberName id j') Ht3 ltac:(by apply kind_pending)) as (Ht4 & Hs4 & Hh4 & Hz4).
  set (d4 := ZADD _ _ _ d3) in *.
  eapply (abstracts_step ns unmarshalEnvelope marshalFailure d d4 jobs n (n + 1) q id _ (i + 1) i);
    [done | done | | lia | done | lia | lia | done|].
  - split; [done | ..].
    + by chase.
    + intros q' id' Hq' Hne. pose proof (jobKey_ne q id q' id' Hq Hq' Hne). chase. rewrite Hh3 by done. by chase.
    + intros m'. chase. eapply (rescored_enter d _ n); [done | by apply (ab_pending _ _ _ _ _ _ Ha) | done|].
      intros j E. congruence.
    + intros m'. chase. eapply rescored_keep; [done | by apply (ab_reserved _ _ _ _ _ _ Ha) | |].
      * intros j E. congruence.
      * intros j0 [= <-]. cbn. split; [done | lia].
    + intros m'. chase. eapply rescored_unfailed; [done | by apply (ab_failed _ _ _ _ _ _ Ha) | |].
      * intros j E. congruence.
      * by intros j0 [= <-].
    + intros q' Hq' Hne. by chase.
    + left. by chase.
    + intros q' Hq' Hne. by chase.
  - intros j0 [= <-]. split; [|cbn; lia]. split; cbn; try done; lia.
Qed.

Lemma pushScript_new d jobs n srv q id env at_ : abstracts d jobs n -> ValidName q = true -> n + 1 < maxOps ->
  jobs !! (q, id) = None -> (forall e, unmarshalEnvelope env = Some e -> ID e = id) ->
  exists d' i, pushScript srv (jobKey ns q id) (k_pending (keys ns q)) (k_seq (keys ns q)) env at_ id d = (d', 1) /\
    abstracts d' (put (q, id) (Some (mkAJob i env 0 (AWaiting at_) None)) jobs) (n + 1).
Proof.
  intros Ha Hq Hn Hj Henv. unfold pushScript.
  rewrite (EXISTS_job _ _ _ _ _ _ Ha Hq), bool_decide_eq_false_2 by (intros E; by apply E).
  destruct (queueNew_abstracts d jobs n q id env at_ None Ha Hq Hn Hj Henv ltac:(done)) as [i Hi].
  exists (queueNew q id env at_ None d), i. split; [|done]. unfold queueNew. by destruct (INCR _ d).
Qed.

(** Dropping a claim touches neither jobs nor counters. *)
Definition aside (d d' : D) : Prop :=
  typed ns d' /\ (forall k', hashes d' k' = hashes d k') /\ (forall k', zsets d' k' = zsets d k') /\
  forall q, ValidName q = true -> strings d' (k_seq (keys ns q)) = strings d (k_seq (keys ns q)).

Lemma aside_refl d : typed ns d -> aside d d.
Proof. done. Qed.

Lemma aside_DEL d k : typed ns d -> kindOf ns k = KString ->
  (forall q, ValidName q = true -> k <> k_seq (keys ns q)) -> aside d (DEL k d).
Proof.
  intros Ht Hk Hseq. pose proof (law_DEL k d) as (Hs & Hh & Hz). destruct (typed_string ns d k Ht Hk) as [Eh Ez].
  split; [by apply typed_DEL|]. split; [|split].
  - intros k'. rewrite Hh. destruct (decide (k' = k)) as [->|]; [by rewrite Eh | done].
  - intros k'. rewrite Hz. destruct (decide (k' = k)) as [->|]; [by rewrite Ez | done].
  - intros q Hq. rewrite Hs, decide_False; [done|]. intros E. by apply (Hseq q).
Qed.

Lemma aside_SETPX d now k v ms : typed ns d -> kindOf ns k = KString -> 0 < ms ->
  (forall q, ValidName q = true -> k <> k_seq (keys ns q)) -> aside d (SETPX now k v ms d).
Proof.
  intros Ht Hk Hms Hseq. pose proof (law_SETPX now k v ms d (typed_string ns d k Ht Hk) Hms) as Hw.
  pose proof Hw as (Hs & Hh & Hz). split; [by eapply typed_wroteString|]. split; [done|]. split; [done|].
  intros q Hq. rewrite Hs, decide_False; [done|]. intros E. by apply (Hseq q).
Qed.

Lemma releaseUniqueLua_aside d jobs n srv q id j id' : abstracts d jobs n -> jobs !! (q, id) = Some j ->
  aside d (releaseUniqueLua srv (jobKey ns q id) id' d).
Proof.
  intros Ha Hj. destruct (job_lookup _ _ _ _ _ _ Ha Hj) as (Hq & Ht & Hh & Hf). unfold releaseUniqueLua.
  erewrite HGET_job by done. rewrite (ho_unique _ _ _ _ _ Hh). destruct (a_unique j) as [[key ttl]|]; [|done].
  destruct (_ && _); [|done]. apply aside_DEL; [done | by apply kind_unique|]. intros q' Hq'. keys_ne.
Qed.

(** The job of a lease: how the settling scripts begin. *)
Lemma leased_reads d jobs n q id j r t : abstracts d jobs n -> jobs !! (q, id) = Some j -> a_state j = ALeased r t ->
  JobsRedis.holds (jobKey ns q id) r d = true /\
  HGET (jobKey ns q id) "member" d = Some (memberName id j) /\
  sub18 (memberName id j) = id.
Proof.
  intros Ha Hj Hs. destruct (job_lookup _ _ _ _ _ _ Ha Hj) as (Hq & Ht & Hh & Hf).
  pose proof (ab_ops _ _ _ _ _ _ Ha). pose proof (maxOps_small n ltac:(lia)). split; [|split].
  - erewrite holds_job by (done || by eapply jf_receipt). rewrite Hj, Hs. apply String.eqb_refl.
  - erewrite HGET_job by done. apply (ho_member _ _ _ _ _ Hh).
  - apply sub18_memberOf. destruct Hf as [Hb _ _ _ _ _]. lia.
Qed.

(** [ackScript] *)
Lemma ackScript_leased d jobs n srv q id j r t : abstracts d jobs n -> jobs !! (q, id) = Some j ->
  a_state j = ALeased r t -> n + 1 < maxOps ->
  exists d', ackScript srv (jobKey ns q id) (k_pending (keys ns q)) (k_reserved (keys ns q)) r d = (d', Ok 1) /\
    abstracts d' (put (q, id) None jobs) (n + 1).
Proof.
  intros Ha Hj Hs Hn. destruct (leased_reads _ _ _ _ _ _ _ _ Ha Hj Hs) as (Hho & Hm & Hsub).
  destruct (job_lookup _ _ _ _ _ _ Ha Hj) as (Hq & Ht & Hh & Hf). unfold ackScript. rewrite Hho, Hm, Hsub. cbn [negb].
  destruct (ab_seq _ _ _ _ _ _ Ha q Hq) as (i & Hi & Hib & Hle).
  destruct (releaseUniqueLua_aside d jobs n srv q id j id Ha Hj) as (Ht1 & Hh1 & Hz1 & Hs1).
  set (d1 := releaseUniqueLua _ _ _ _) in *.
  destruct (do_ZREM ns d1 (k_reserved (keys ns q)) (memberName id j) Ht1 ltac:(by apply kind_reserved)) as (Ht2 & Hs2 & Hh2 & Hz2).
  set (d2 := ZREM _ _ d1) in *.
  destruct (do_ZREM ns d2 (k_pending (keys ns q)) (memberName id j) Ht2 ltac:(by apply kind_pending)) as (Ht3 & Hs3 & Hh3 & Hz3).
  set (d3 := ZREM _ _ d2) in *.
  pose proof (typed_DEL ns d3 (jobKey ns q id) Ht3) as Ht4. pose proof (law_DEL (jobKey ns q id) d3) as (Hs4 & Hh4 & Hz4).
  set (d4 := DEL _ d3) in *. exists d4. split; [done|].
  eapply (abstracts_step ns unmarshalEnvelope marshalFailure d d4 jobs n (n + 1) q id _ i i);
    [done | done | | pose proof (ab_ops _ _ _ _ _ _ Ha); lia | done | lia | lia | done | done].
  split; [done | ..].
  - by chase.
  - intros q' id' Hq' Hne. pose proof (jobKey_ne q id q' id' Hq Hq' Hne). by chase.
  - intros m'. chase. eapply (rescored_leave d _ n); [done | by apply (ab_pending _ _ _ _ _ _ Ha) | done | done].
  - intros m'. chase. eapply (rescored_leave d _ n); [done | by apply (ab_reserved _ _ _ _ _ _ Ha) | done | done].
  - intros m'. chase. eapply (rescored_unfailed d _ n); [done | by apply (ab_failed _ _ _ _ _ _ Ha) | | done].
    intros j0 Hj0. assert (j0 = j) as -> by congruence. unfold failedScore. by rewrite Hs.
  - intros q' Hq' Hne. by chase.
  - unfold seqAt. chase. by rewrite Hs1.
  - intros q' Hq' Hne. chase. by rewrite Hs1.
Qed.

(** [extendScript] *)
Lemma extendScript_leased d jobs n q id j r t deadline : abstracts d jobs n -> jobs !! (q, id) = Some j ->
  a_state j = ALeased r t -> n + 1 < maxOps ->
  exists d', extendScript (jobKey ns q id) (k_reserved (keys ns q)) r deadline d = (d', Ok 1) /\
    abstracts d' (put (q, id) (Some (mkAJob (a_no j) (a_env j) (a_attempts j) (ALeased r deadline) (a_unique j))) jobs) (n + 1).
Proof.
  intros Ha Hj Hs Hn. destruct (leased_reads _ _ _ _ _ _ _ _ Ha Hj Hs) as (Hho & Hm & Hsub).
  destruct (job_lookup _ _ _ _ _ _ Ha Hj) as (Hq & Ht & Hh & Hf). unfold extendScript. rewrite Hho, Hm. cbn [negb].
  destruct (ab_seq _ _ _ _ _ _ Ha q Hq) as (i & Hi & Hib & Hle). pose proof (ab_ops _ _ _ _ _ _ Ha) as Hops.
  pose proof (maxOps_small n ltac:(lia)) as Hsmall. destruct Hf as [Hb Hat Henv Hrec Hfail Httl].
  destruct (do_ZADD ns d (k_reserved (keys ns q)) deadline (memberName id j) Ht ltac:(by apply kind_reserved)) as (Ht1 & Hs1 & Hh1 & Hz1).
  set (d1 := ZADD _ _ _ d) in *. exists d1. split; [done|]. set (j' := mkAJob _ _ _ _ _).
  eapply (abstracts_step ns unmarshalEnvelope marshalFailure d d1 jobs n (n + 1) q id _ i i);
    [done | done | | lia | done | lia | lia | done |].
  - rewrite Hj. split; [done | ..].
    + chase. destruct Hh. rewrite Hs in *. by split.
    + intros q' id' Hq' Hne. by chase.
    + intros m'. chase. rewrite <- Hj. eapply (rescored_keep d _ n); [done | by apply (ab_pending _ _ _ _ _ _ Ha) | |].
      * intros j0 Hj0. assert (j0 = j) as -> by congruence. unfold pendingScore. by rewrite Hs.
      * intros j0 [= <-]. cbn. split; [done | lia].
    + intros m'. chase. rewrite <- Hj. eapply (rescored_enter d _ n _ _ j'); [done | by apply (ab_reserved _ _ _ _ _ _ Ha) | done|].
      intros j0 Hj0. right. by assert (j0 = j) as -> by congruence.
    + intros m'. chase. rewrite <- Hj. eapply (rescored_unfailed d _ n); [done | by apply (ab_failed _ _ _ _ _ _ Ha) | |].
      * intros j0 Hj0. assert (j0 = j) as -> by congruence. unfold failedScore. by rewrite Hs.
      * by intros j0 [= <-].
    + intros q' Hq' Hne. by chase.
    + unfold seqAt. by chase.
    + intros q' Hq' Hne. by chase.
  - intros j0 [= <-]. split; [|by apply (Hle _ _ Hj)]. split; cbn; try done; [lia | lia|].
    intros r0 t0 [= <- <-]. by eapply Hrec.
Qed.

(** [buryScript] *)
Lemma buryScript_leased d jobs n srv q id j r t f data at_ : abstracts d jobs n -> jobs !! (q, id) = Some j ->
  a_state j = ALeased r t -> n + 1 < maxOps -> marshalFailure f = Some data ->
  exists d', buryScript srv (jobKey ns q id) (k_reserved (keys ns q)) (k_failed (keys ns q)) r id at_ data d = (d', Ok 1) /\
    abstracts d' (put (q, id) (Some (mkAJob (a_no j) (a_env j) (a_attempts j) (ABuried f data at_) (a_unique j))) jobs) (n + 1).
Proof.
  intros Ha Hj Hs Hn Hdata. destruct (leased_reads _ _ _ _ _ _ _ _ Ha Hj Hs) as (Hho & Hm & Hsub).
  destruct (job_lookup _ _ _ _ _ _ Ha Hj) as (Hq & Ht & Hh & Hf). unfold buryScript. rewrite Hho. cbn [negb].
  destruct (ab_seq _ _ _ _ _ _ Ha q Hq) as (i & Hi & Hib & Hle). pose proof (ab_ops _ _ _ _ _ _ Ha) as Hops.
  pose proof (maxOps_small n ltac:(lia)) as Hsmall. destruct Hf as [Hb Hat Henv Hrec Hfail Httl].
  destruct (releaseUniqueLua_aside d jobs n srv q id j id Ha Hj) as (Ht1 & Hh1 & Hz1 & Hs1).
  set (d1 := releaseUniqueLua _ _ _ _) in *.
  assert (HGET (jobKey ns q id) "member" d1 = Some (memberName id j)) as ->.
  { rewrite law_HGET, Hh1 by (apply (typed_hash ns); [done | by apply kind_job]). apply (ho_member _ _ _ _ _ Hh). }
  destruct (do_ZREM ns d1 (k_reserved (keys ns q)) (memberName id j) Ht1 ltac:(by apply kind_reserved)) as (Ht2 & Hs2 & Hh2 & Hz2).
  set (d2 := ZREM _ _ d1) in *.
  destruct (do_HSET ns d2 (jobKey ns q id) [("receipt", ""); ("failure", data)] Ht2 ltac:(by apply kind_job)) as (Ht3 & Hs3 & Hh3 & Hz3).
  set (d3 := HSET _ _ d2) in *.
  destruct (do_ZADD ns d3 (k_failed (keys ns q)) at_ id Ht3 ltac:(by apply kind_failed)) as (Ht4 & Hs4 & Hh4 & Hz4).
  set (d4 := ZADD _ _ _ d3) in *. exists d4. split; [done|]. set (j' := mkAJob _ _ _ _ _).
  eapply (abstracts_step ns unmarshalEnvelope marshalFailure d d4 jobs n (n + 1) q id _ i i);
    [done | done | | lia | done | lia | lia | done |].
  - split; [done | ..].
    + chase. destruct Hh. rewrite Hs in *. by split; fields.
    + intros q' id' Hq' Hne. pose proof (jobKey_ne q id q' id' Hq Hq' Hne). by chase.
    + intros m'. chase. eapply (rescored_keep d _ n); [done | by apply (ab_pending _ _ _ _ _ _ Ha) | |].
      * intros j0 Hj0. assert (j0 = j) as -> by congruence. unfold pendingScore. by rewrite Hs.
      * intros j0 [= <-]. cbn. split; [done | lia].
    + intros m'. chase. eapply (rescored_leave d _ n); [done | by apply (ab_reserved _ _ _ _ _ _ Ha) | done |].
      intros j0 [= <-]. cbn. split; [done | lia].
    + intros m'. chase. eapply (rescored_failed d _ n); [done | by apply (ab_failed _ _ _ _ _ _ Ha) | ].
      intros m''. by rewrite lookup_decide.
    + intros q' Hq' Hne. by chase.
    + unfold seqAt. chase. by rewrite Hs1.
    + intros q' Hq' Hne. chase. by rewrite Hs1.
  - intros j0 [= <-]. split; [|by apply (Hle _ _ Hj)]. split; cbn; try done; [lia | lia|].
    by intros f0 data0 t0 [= <- <- <-].
Qed.

(** [releaseScript] *)
Lemma releaseScript_leased d jobs n q id j r t at_ (uncount : bool) : abstracts d jobs n -> jobs !! (q, id) = Some j ->
  a_state j = ALeased r t -> n + 1 < maxOps ->
  exists d' i, releaseScript (jobKey ns q id) (k_pending (keys ns q)) (k_reserved (keys ns q)) (k_seq (keys ns q)) r at_ id
      (if uncount then "1" else "0") d = (d', Ok 1) /\
    abstracts d' (put (q, id) (Some (mkAJob i (a_env j)
      (if uncount && (0 <? a_attempts j) then a_attempts j - 1 else a_attempts j) (AWaiting at_) (a_unique j))) jobs) (n + 1).
Proof.
  intros Ha Hj Hs Hn. destruct (leased_reads _ _ _ _ _ _ _ _ Ha Hj Hs) as (Hho & Hm & Hsub).
  destruct (job_lookup _ _ _ _ _ _ Ha Hj) as (Hq & Ht & Hh & Hf). unfold releaseScript. rewrite Hho. cbn [negb].
  destruct (ab_seq _ _ _ _ _ _ Ha q Hq) as (i & Hi & Hib & Hle). pose proof (ab_ops _ _ _ _ _ _ Ha) as Hops.
  pose proof (maxOps_small (n + 1) ltac:(lia)) as Hsmall. destruct Hf as [Hb Hat Henv Hrec Hfail Httl].
  assert (attemptsPositive (jobKey ns q id) d = (0 <? a_attempts j)) as ->.
  { unfold attemptsPositive. erewrite HGET_job by done.
    rewrite (ho_attempts _ _ _ _ _ Hh), decodeInt_encodeInt by (apply small_int64; lia). done. }
  replace (String.eqb (if uncount then "1" else "0") "1") with uncount by (by destruct uncount).
  set (a' := if uncount && (0 <? a_attempts j) then a_attempts j - 1 else a_attempts j). cbv zeta.
  set (d1 := if uncount && (0 <? a_attempts j) then (HINCRBY (jobKey ns q id) "attempts" (-1) d).1 else d).
  assert (typed ns d1 /\ (forall k', strings d1 k' = strings d k') /\ (forall k', zsets d1 k' = zsets d k') /\
    (forall k', k' <> jobKey ns q id -> hashes d1 k' = hashes d k') /\
    hash_ok ns q id (mkAJob (a_no j) (a_env j) a' (a_state j) (a_unique j)) (hashes d1 (jobKey ns q id)))
    as (Ht1 & Hs1 & Hz1 & Hh1 & Hok1).
  { subst d1 a'. destruct (uncount && (0 <? a_attempts j)) eqn:Eu; [|repeat (split; [done|]); by destruct Hh].
    destruct (do_HINCRBY ns d (jobKey ns q id) "attempts" (-1) (a_attempts j)) as (dd & -> & Htt & Hss & Hhh & Hzz);
      [done | by apply kind_job | apply (ho_attempts _ _ _ _ _ Hh) | apply small_int64; lia | |].
    { apply andb_true_iff in Eu as [_ Eu]. breflect. apply small_int64. lia. }
    cbn [fst]. split; [done|]. split; [done|]. split; [done|]. split.
    - intros k' Hk'. by chase.
    - chase. destruct Hh. split; fields; try done. }
  assert (HGET (jobKey ns q id) "member" d1 = Some (memberName id j)) as ->.
  { rewrite law_HGET by (apply (typed_hash ns); [done | by apply kind_job]). apply (ho_member _ _ _ _ _ Hok1). }
  destruct (do_ZREM ns d1 (k_reserved (keys ns q)) (memberName id j) Ht1 ltac:(by apply kind_reserved)) as (Ht2 & Hs2 & Hh2 & Hz2).
  set (d2 := ZREM _ _ d1) in *.
  destruct (do_INCR ns d2 (k_seq (keys ns q)) i) as (d3 & -> & Ht3 & Hs3 & Hh3 & Hz3);
    [done | by apply kind_seq | unfold seqAt; by chase | apply small_int64; lia | apply small_int64; lia|].
  set (j' := mkAJob (i + 1) (a_env j) a' (AWaiting at_) (a_unique j)).
  destruct (do_HSET ns d3 (jobKey ns q id) [("receipt", ""); ("member", memberName id j')] Ht3 ltac:(by apply kind_job)) as (Ht4 & Hs4 & Hh4 & Hz4).
  set (d4 := HSET _ [("receipt", ""); ("member", memberName id j')] d3) in *.
  destruct (do_ZADD ns d4 (k_pending (keys ns q)) at_ (memberName id j') Ht4 ltac:(by apply kind_pending)) as (Ht5 & Hs5 & Hh5 & Hz5).
  set (d5 := ZADD _ _ (memberName id j') d4) in *. exists d5, (i + 1). split; [done|]. fold j'.
  eapply (abstracts_step ns unmarshalEnvelope marshalFailure d d5 jobs n (n + 1) q id _ (i + 1) i);
    [done | done | | lia | done | lia | lia | done |].
  - split; [done | ..].
    + chase. destruct Hok1. rewrite Hs in *. by split; fields.
    + intros q' id' Hq' Hne. pose proof (jobKey_ne q id q' id' Hq Hq' Hne). chase. by rewrite Hh1.
    + intros m'. chase. eapply (rescored_enter d _ n _ _ j'); [done | by apply (ab_pending _ _ _ _ _ _ Ha) | done |].
      intros j0 Hj0. left. assert (j0 = j) as -> by congruence. unfold pendingScore. by rewrite Hs.
    + intros m'. chase. eapply (rescored_leave d _ n); [done | by apply (ab_reserved _ _ _ _ _ _ Ha) | done |].
      intros j0 [= <-]. cbn. split; [done | lia].
    + intros m'. chase. eapply (rescored_unfailed d _ n); [done | by apply (ab_failed _ _ _ _ _ _ Ha) | |].
      * intros j0 Hj0. assert (j0 = j) as -> by congruence. unfold failedScore. by rewrite Hs.
      * by intros j0 [= <-].
    + intros q' Hq' Hne. by chase.
    + left. by chase.
    + intros q' Hq' Hne. by chase.
  - intros j0 [= <-]. split; [|cbn; lia]. split; cbn; try done; [lia|].
    subst a'. destruct (uncount && (0 <? a_attempts j)) eqn:Eu; [|lia]. apply andb_true_iff in Eu as [_ Eu]. breflect. lia.
Qed.

(** ** [reserveScript] *)

(** The earliest entry of the two sets that is due. *)
Lemma earliest_spec now (zp zr : gmap string Z) :
  match earliest (take 1 (zwithin Inf (Incl now) zp)) (take 1 (zwithin Inf (Incl now) zr)) with
  | None => forall m s, zp !! m = Some s \/ zr !! m = Some s -> now < s
  | Some (m, expired, s) =>
      (if expired : bool then zr !! m = Some s else zp !! m = Some s) /\ s <= now /\
      forall m' s', zp !! m' = Some s' \/ zr !! m' = Some s' -> s' <= now -> zle (m, s) (m', s')
  end.
Proof.
  pose proof (zfirst_spec Inf (Incl now) zp) as Hp. pose proof (zfirst_spec Inf (Incl now) zr) as Hr.
  cbn [above below andb] in *.
  destruct (take 1 (zwithin Inf (Incl now) zp)) as [|[pm ps] lp], (take 1 (zwithin Inf (Incl now) zr)) as [|[rm rs] lr]; cbn [earliest].
  - intros m s [E|E]; [apply Hp in E | apply Hr in E]; breflect; lia.
  - destruct Hr as (_ & Hz & _ & Hs & Hmin). breflect. split; [done|]. split; [done|].
    intros m' s' [E|E] Hs'; [apply Hp in E; breflect; lia|]. apply Hmin; [done | done | by apply Z.leb_le].
  - destruct Hp as (_ & Hz & _ & Hs & Hmin). breflect. split; [done|]. split; [done|].
    intros m' s' [E|E] Hs'; [|apply Hr in E; breflect; lia]. apply Hmin; [done | done | by apply Z.leb_le].
  - destruct Hp as (_ & Hzp & _ & Hsp & Hminp), Hr as (_ & Hzr & _ & Hsr & Hminr). breflect.
    destruct ((rs <? ps) || ((rs =? ps) && String.ltb rm pm)) eqn:E.
    + assert (zle (rm, rs) (pm, ps)) as Hle.
      { unfold zle. cbn. apply orb_true_iff in E as [E|E]; breflect; [by left|]. right. split; [done|].
        rewrite string_ltb_leb in H2. destruct (String.leb_total rm pm) as [|E']; [done|]. by rewrite E' in H2. }
      split; [done|]. split; [done|]. intros m' s' [Hm|Hm] Hs'.
      * etransitivity; [exact Hle|]. apply Hminp; [done | done | by apply Z.leb_le].
      * apply Hminr; [done | done | by apply Z.leb_le].
    + assert (zle (pm, ps) (rm, rs)) as Hle.
      { unfold zle. cbn. apply orb_false_iff in E as [E1 E2]. breflect. apply andb_false_iff in E2 as [E2|E2]; breflect; [left; lia|].
        destruct (decide (ps = rs)); [|left; lia]. right. split; [done|]. rewrite string_ltb_leb in E2. by apply negb_false_iff in E2. }
      split; [done|]. split; [done|]. intros m' s' [Hm|Hm] Hs'.
      * apply Hminp; [done | done | by apply Z.leb_le].
      * etransitivity; [exact Hle|]. apply Hminr; [done | done | by apply Z.leb_le].
Qed.

Lemma ZRANGE_typed d k now : typed ns d -> kindOf ns k = KZSet ->
  ZRANGEBYSCORE k Inf (Incl now) 1 d = take 1 (zwithin Inf (Incl now) (zsets d k)).
Proof. intros Ht Hk. apply law_ZRANGEBYSCORE. by apply (typed_zset ns). Qed.

Lemma size_delete_lt (z : gmap string Z) m s : z !! m = Some s -> (size (delete m z) < size z)%nat.
Proof.
  intros E. rewrite map_size_delete_Some by eauto. assert (size z <> 0%nat); [|lia].
  intros E0. apply map_size_empty_inv in E0. by rewrite E0, lookup_empty in E.
Qed.

(** Each turn of the loop takes a member out of a set: with the sizes of the sets for fuel,
    it ends, whatever the database holds. *)
Lemma reserveLoop_ends srv q now deadline receipt : ValidName q = true -> forall fuel d, typed ns d ->
  (size (zsets d (k_pending (keys ns q))) + size (zsets d (k_reserved (keys ns q))) < fuel)%nat ->
  (reserveLoop fuel srv (k_pending (keys ns q)) (k_reserved (keys ns q)) now deadline receipt
     (k_jobPrefix (keys ns q)) d).2 <> None.
Proof.
  intros Hq fuel. induction fuel as [|fuel IH]; intros d Ht Hf; [lia|]. cbn [reserveLoop].
  rewrite !ZRANGE_typed by (done || by apply kind_pending || by apply kind_reserved).
  pose proof (earliest_spec now (zsets d (k_pending (keys ns q))) (zsets d (k_reserved (keys ns q)))) as Hsp.
  destruct (earliest _ _) as [[[m expired] s]|]; [|done]. destruct Hsp as (Hz & _ & _).
  set (k := if expired then _ else _). assert (kindOf ns k = KZSet) as Hk by (subst k; destruct expired; [by apply kind_reserved | by apply kind_pending]).
  destruct (do_ZREM ns d k m Ht Hk) as (Ht1 & Hs1 & Hh1 & Hz1). set (d1 := ZREM k m d) in *.
  destruct (EXISTS _ _ _); [by destruct (HINCRBY _ _ _ _)|]. apply IH; [done|].
  subst k. destruct expired; chase; apply size_delete_lt in Hz; lia.
Qed.

(** Since when a job is ready to be delivered, or will be. *)
Definition readySince (j : ajob) : option Z :=
  match a_state j with AWaiting t | ALeased _ t => Some t | ABuried _ _ _ => None end.

Definition isLeased (j : ajob) : bool := match a_state j with ALeased _ _ => true | _ => false end.

(** The job leased anew. *)
Definition leasedAs (receipt : string) (deadline : Z) (j : ajob) : ajob :=
  mkAJob (a_no j) (a_env j) (a_attempts j + 1) (ALeased receipt deadline) (a_unique j).

(** An entry of the set a job is in. *)
Lemma member_job d jobs n q m s (expired : bool) : abstracts d jobs n -> ValidName q = true ->
  zsets d (if expired then k_reserved (keys ns q) else k_pending (keys ns q)) !! m = Some s ->
  exists id j, jobs !! (q, id) = Some j /\ m = memberName id j /\ readySince j = Some s /\ isLeased j = expired.
Proof.
  intros Ha Hq Hz. destruct expired; [apply (ab_reserved _ _ _ _ _ _ Ha q Hq) in Hz | apply (ab_pending _ _ _ _ _ _ Ha q Hq) in Hz];
    destruct Hz as (id & j & Hj & Hs & ->); exists id, j; unfold reservedScore, pendingScore, readySince, isLeased in *;
    by destruct (a_state j).
Qed.

(** The script leases the job that has been ready longest, and says when there is none. *)
Lemma reserveScript_spec d jobs n srv q now deadline receipt : abstracts d jobs n -> ValidName q = true ->
  n + 1 < maxOps -> receipt <> "" ->
  exists d' reply, reserveScript srv (k_pending (keys ns q)) (k_reserved (keys ns q)) now deadline receipt
      (k_jobPrefix (keys ns q)) d = (d', Some reply) /\
  match reply with
  | None => d' = d /\ forall id j s, jobs !! (q, id) = Some j -> readySince j = Some s -> now < s
  | Some r =>
      exists j s, jobs !! (q, rr_id r) = Some j /\ readySince j = Some s /\ s <= now /\
        r = mkReservedReply (rr_id r) (Some (a_env j)) (a_attempts j + 1) s (isLeased j) /\
        abstracts d' (put (q, rr_id r) (Some (leasedAs receipt deadline j)) jobs) (n + 1) /\
        forall id2 j2 s2, jobs !! (q, id2) = Some j2 -> readySince j2 = Some s2 -> s2 <= now ->
          zle (memberName (rr_id r) j, s) (memberName id2 j2, s2)
  end.
Proof.
  intros Ha Hq Hn Hrec. pose proof (ab_typed _ _ _ _ _ _ Ha) as Ht. unfold reserveScript.
  assert (exists fuel, Z.to_nat (ZCARD (k_pending (keys ns q)) d + ZCARD (k_reserved (keys ns q)) d + 1) = S fuel) as [fuel ->].
  { rewrite !law_ZCARD by (apply (typed_zset ns); [done | by apply kind_pending || by apply kind_reserved]).
    eexists. rewrite Z.add_1_r, Z2Nat.inj_succ by lia. done. }
  cbn [reserveLoop]. rewrite !ZRANGE_typed by (done || by apply kind_pending || by apply kind_reserved).
  pose proof (earliest_spec now (zsets d (k_pending (keys ns q))) (zsets d (k_reserved (keys ns q)))) as Hsp.
  assert (forall id2 j2 s2, jobs !! (q, id2) = Some j2 -> readySince j2 = Some s2 ->
    zsets d (k_pending (keys ns q)) !! memberName id2 j2 = Some s2 \/
    zsets d (k_reserved (keys ns q)) !! memberName id2 j2 = Some s2) as Hin.
  { intros id2 j2 s2 Hj2 Hs2. unfold readySince in Hs2. destruct (a_state j2) as [t|r t|f data t] eqn:E; [| |done].
    - left. apply (ab_pending _ _ _ _ _ _ Ha q Hq). exists id2, j2. unfold pendingScore. by rewrite E.
    - right. apply (ab_reserved _ _ _ _ _ _ Ha q Hq). exists id2, j2. unfold reservedScore. by rewrite E. }
  destruct (earliest _ _) as [[[m expired] s]|].
  2: { exists d, None. split; [done|]. split; [done|]. intros id j s Hj Hs. eapply Hsp. by eapply Hin. }
  destruct Hsp as (Hz & Hs & Hmin).
  destruct (member_job d jobs n q m s expired Ha Hq) as (id & j & Hj & -> & Hready & Hexp); [by destruct expired|].
  destruct (job_lookup _ _ _ _ _ _ Ha Hj) as (_ & _ & Hh & Hf). pose proof (ab_ops _ _ _ _ _ _ Ha) as Hops.
  pose proof (maxOps_small n ltac:(lia)) as Hsmall. destruct Hf as [Hb Hat Henv Hrc Hfail Httl].
  assert (sub18 (memberName id j) = id) as -> by (apply sub18_memberOf; lia). change (k_jobPrefix (keys ns q) ++ id)%string with (jobKey ns q id).
  set (k := if expired then _ else _). assert (kindOf ns k = KZSet) as Hk by (subst k; destruct expired; [by apply kind_reserved | by apply kind_pending]).
  destruct (do_ZREM ns d k (memberName id j) Ht Hk) as (Ht1 & Hs1 & Hh1 & Hz1). set (d1 := ZREM k _ d) in *.
  rewrite law_EXISTS by (apply (typed_hash ns); [done | by apply kind_job]).
  rewrite bool_decide_eq_true_2.
  2: { rewrite Hh1. intros E. pose proof (ho_env _ _ _ _ _ Hh) as He. rewrite E in He. by rewrite lookup_empty in He. }
  destruct (do_HINCRBY ns d1 (jobKey ns q id) "attempts" 1 (a_attempts j)) as (d2 & -> & Ht2 & Hs2 & Hh2 & Hz2);
    [done | by apply kind_job | chase; apply (ho_attempts _ _ _ _ _ Hh) | apply small_int64; lia | apply small_int64; lia|].
  destruct (do_HSET ns d2 (jobKey ns q id) [("receipt", receipt)] Ht2 ltac:(by apply kind_job)) as (Ht3 & Hs3 & Hh3 & Hz3).
  set (d3 := HSET _ _ d2) in *.
  destruct (do_ZADD ns d3 (k_reserved (keys ns q)) deadline (memberName id j) Ht3 ltac:(by apply kind_reserved)) as (Ht4 & Hs4 & Hh4 & Hz4).
  set (d4 := ZADD _ _ _ d3) in *.
  assert (HGET (jobKey ns q id) "env" d4 = Some (a_env j)) as ->.
  { rewrite law_HGET by (apply (typed_hash ns); [done | by apply kind_job]). chase. fields. apply (ho_env _ _ _ _ _ Hh). }
  exists d4. eexists. split; [reflexivity|]. exists j, s. cbn [rr_id]. rewrite Hexp. repeat (split; [done|]). split; [|by eauto].
  destruct (ab_seq _ _ _ _ _ _ Ha q Hq) as (i & Hi & Hib & Hle).
  eapply (abstracts_step ns unmarshalEnvelope marshalFailure d d4 jobs n (n + 1) q id _ i i);
    [done | done | | lia | done | lia | lia | done |].
  - split; [done | ..].
    + chase. destruct Hh. split; fields; cbn; try done. unfold failureOf in *. unfold readySince in Hready. by destruct (a_state j).
    + intros q' id' Hq' Hne. pose proof (jobKey_ne q id q' id' Hq Hq' Hne). by chase.
    + intros m'. subst k. destruct expired; chase.
      * eapply (rescored_keep d _ n); [done | by apply (ab_pending _ _ _ _ _ _ Ha) | |].
        -- intros j0 Hj0. assert (j0 = j) as -> by congruence. unfold pendingScore, isLeased in *. by destruct (a_state j).
        -- intros j0 [= <-]. cbn. split; [done | lia].
      * eapply (rescored_leave d _ n); [done | by apply (ab_pending _ _ _ _ _ _ Ha) | done |].
        intros j0 [= <-]. cbn. split; [done | lia].
    + intros m'. assert (zsets d4 (k_reserved (keys ns q)) !! m' = <[memberName id j := deadline]> (zsets d (k_reserved (keys ns q))) !! m') as ->.
      { subst k. destruct expired; chase; [by rewrite insert_delete_eq | done]. }
      eapply (rescored_enter d _ n _ _ (leasedAs receipt deadline j)); [done | by apply (ab_reserved _ _ _ _ _ _ Ha) | done |].
      intros j0 Hj0. right. by assert (j0 = j) as -> by congruence.
    + intros m'. subst k. destruct expired; chase; (eapply (rescored_unfailed d _ n); [done | by apply (ab_failed _ _ _ _ _ _ Ha) | |];
        [intros j0 Hj0; assert (j0 = j) as -> by congruence; unfold failedScore, readySince in *; by destruct (a_state j) | by intros j0 [= <-]]).
    + intros q' Hq' Hne. subst k. destruct expired; by chase.
    + unfold seqAt. by chase.
    + intros q' Hq' Hne. by chase.
  - intros j0 [= <-]. split; [|by apply (Hle _ _ Hj)]. split; cbn; try done; [lia | lia|].
    by intros r0 t0 [= <- <-].
Qed.

(** ** Claims *)

Lemma abstracts_aside d d' jobs n : abstracts d jobs n -> aside d d' -> abstracts d' jobs n.
Proof.
  intros Ha (Ht & Hh & Hz & Hs). destruct Ha as [_ Hops Hval Hhash Hpend Hres Hfail Hseq]. split; try done.
  - intros q id Hq. rewrite Hh. by apply Hhash.
  - intros q Hq. rewrite Hz. by apply Hpend.
  - intros q Hq. rewrite Hz. by apply Hres.
  - intros q Hq. rewrite Hz. by apply Hfail.
  - intros q Hq. destruct (Hseq q Hq) as (i & Hi & Hr). exists i. split; [|done]. unfold seqAt. by rewrite Hs.
Qed.

(** [pushUniqueScript]: refused with nothing written, or the claim and the job. *)
Lemma pushUniqueScript_spec d jobs n srv q id env at_ ttl (untilDone : bool) key : abstracts d jobs n -> ValidName q = true ->
  n + 1 < maxOps -> ttl <= max_int64 -> (forall e, unmarshalEnvelope env = Some e -> ID e = id) ->
  let u := (k_unique (keys ns q) ++ key)%string in
  exists d' reply, pushUniqueScript srv (jobKey ns q id) (k_pending (keys ns q)) (k_seq (keys ns q)) u env at_ id ttl
      (if untilDone then "1" else "0") d = (d', reply) /\
    match GET srv u d, jobs !! (q, id) with
    | Some holder, _ => d' = d /\ reply = Ok (0, holder)
    | None, Some _ => d' = d /\ reply = Ok (-1, "")
    | None, None =>
        if ttl <=? 0 then d' = d /\ reply = Err LuaError
        else reply = Ok (1, "") /\ exists i,
          abstracts d' (put (q, id) (Some (mkAJob i env 0 (AWaiting at_) (if untilDone then Some (key, ttl) else None))) jobs) (n + 1)
    end.
Proof.
  intros Ha Hq Hn Httl Henv u. unfold pushUniqueScript. destruct (GET srv u d) as [holder|]; [by eexists _, _|].
  rewrite (EXISTS_job _ _ _ _ _ _ Ha Hq). destruct (jobs !! (q, id)) eqn:Hj.
  { rewrite bool_decide_eq_true_2 by done. by eexists _, _. }
  rewrite bool_decide_eq_false_2 by (intros E; by apply E). destruct (ttl <=? 0) eqn:El; [by eexists _, _|]. breflect.
  assert (abstracts (SETPX srv u id ttl d) jobs n) as Ha'.
  { apply (abstracts_aside d); [done|]. apply aside_SETPX; [apply Ha | by apply kind_unique | done|].
    intros q' Hq'. subst u. keys_ne. }
  destruct (queueNew_abstracts _ jobs n q id env at_ (if untilDone then Some (key, ttl) else None) Ha' Hq Hn Hj Henv) as [i Hi].
  { intros key0 ttl0. destruct untilDone; [|done]. by intros [= <- <-]. }
  exists (queueNew q id env at_ (if untilDone then Some (key, ttl) else None) (SETPX srv u id ttl d)), (Ok (1, "")).
  split; [|by eauto]. unfold queueNew. destruct (INCR _ _) as [d1 m]. by destruct untilDone.
Qed.

(** ** Failed jobs *)

(** Forgetting a failed job. *)
Lemma forget_abstracts d jobs n q id j : abstracts d jobs n -> jobs !! (q, id) = Some j -> failedScore j <> None ->
  abstracts (DEL (jobKey ns q id) (ZREM (k_failed (keys ns q)) id d)) (put (q, id) None jobs) n.
Proof.
  intros Ha Hj Hs. destruct (job_lookup _ _ _ _ _ _ Ha Hj) as (Hq & Ht & Hh & Hf).
  destruct (ab_seq _ _ _ _ _ _ Ha q Hq) as (i & Hi & Hib & Hle). pose proof (ab_ops _ _ _ _ _ _ Ha) as Hops.
  destruct (do_ZREM ns d (k_failed (keys ns q)) id Ht ltac:(by apply kind_failed)) as (Ht1 & Hs1 & Hh1 & Hz1).
  set (d1 := ZREM _ _ d) in *. pose proof (typed_DEL ns d1 (jobKey ns q id) Ht1) as Ht2.
  pose proof (law_DEL (jobKey ns q id) d1) as (Hs2 & Hh2 & Hz2). set (d2 := DEL _ d1) in *.
  eapply (abstracts_step ns unmarshalEnvelope marshalFailure d d2 jobs n n q id _ i i);
    [done | done | | lia | done | lia | lia | done | done].
  assert (pendingScore j = None /\ reservedScore j = None) as [Hp Hr]
    by (unfold failedScore, pendingScore, reservedScore in *; by destruct (a_state j)).
  split; [done | ..].
  - by chase.
  - intros q' id' Hq' Hne. pose proof (jobKey_ne q id q' id' Hq Hq' Hne). by chase.
  - intros m'. chase. eapply (rescored_keep d _ n); [done | by apply (ab_pending _ _ _ _ _ _ Ha) | | done].
    intros j0 Hj0. by assert (j0 = j) as -> by congruence.
  - intros m'. chase. eapply (rescored_keep d _ n); [done | by apply (ab_reserved _ _ _ _ _ _ Ha) | | done].
    intros j0 Hj0. by assert (j0 = j) as -> by congruence.
  - intros m'. chase. eapply (rescored_failed d _ n); [done | by apply (ab_failed _ _ _ _ _ _ Ha) |].
    intros m''. by rewrite delete_decide.
  - intros q' Hq' Hne. by chase.
  - unfold seqAt. by chase.
  - intros q' Hq' Hne. by chase.
Qed.

Lemma ZSCORE_failed d jobs n q id : abstracts d jobs n -> ValidName q = true ->
  ZSCORE (k_failed (keys ns q)) id d = (jobs !! (q, id)) ≫= failedScore.
Proof.
  intros Ha Hq. rewrite law_ZSCORE by (apply (typed_zset ns); [apply Ha | by apply kind_failed]).
  pose proof (ab_failed _ _ _ _ _ _ Ha q Hq) as Hz. apply option_eq. intros s. pose proof (Hz id s) as Hs. rewrite Hs. split.
  - intros (id2 & j & Hj & Hs2 & Hid). unfold idName in Hid. subst id2. by rewrite Hj.
  - intros Hb. destruct (jobs !! (q, id)) as [j|] eqn:Hj; [|done]. by exists id, j.
Qed.

Lemma requeue_abstracts d jobs n q id j now : abstracts d jobs n -> jobs !! (q, id) = Some j -> failedScore j <> None ->
  n + 1 < maxOps ->
  exists i, abstracts (requeue (jobKey ns q id) (k_failed (keys ns q)) (k_pending (keys ns q)) (k_seq (keys ns q)) id now d)
    (put (q, id) (Some (mkAJob i (a_env j) 0 (AWaiting now) (a_unique j))) jobs) (n + 1).
Proof.
  intros Ha Hj Hs Hn. destruct (job_lookup _ _ _ _ _ _ Ha Hj) as (Hq & Ht & Hh & Hf). unfold requeue.
  destruct (ab_seq _ _ _ _ _ _ Ha q Hq) as (i & Hi & Hib & Hle). pose proof (ab_ops _ _ _ _ _ _ Ha) as Hops.
  pose proof (maxOps_small (n + 1) ltac:(lia)) as Hsmall. destruct Hf as [Hb Hat Henv Hrec Hfail Httl].
  destruct (do_ZREM ns d (k_failed (keys ns q)) id Ht ltac:(by apply kind_failed)) as (Ht1 & Hs1 & Hh1 & Hz1).
  set (d1 := ZREM _ _ d) in *.
  destruct (do_INCR ns d1 (k_seq (keys ns q)) i) as (d2 & -> & Ht2 & Hs2 & Hh2 & Hz2);
    [done | by apply kind_seq | unfold seqAt; by chase | apply small_int64; lia | apply small_int64; lia|].
  exists (i + 1). set (j' := mkAJob (i + 1) (a_env j) 0 (AWaiting now) (a_unique j)).
  change (memberOf (i + 1) id) with (memberName id j').
  destruct (do_HSET ns d2 (jobKey ns q id) [("attempts", encodeInt 0); ("receipt", ""); ("member", memberName id j')]
    Ht2 ltac:(by apply kind_job)) as (Ht3 & Hs3 & Hh3 & Hz3). set (d3 := HSET _ _ d2) in *.
  destruct (do_HDEL ns d3 (jobKey ns q id) "failure" Ht3 ltac:(by apply kind_job)) as (Ht4 & Hs4 & Hh4 & Hz4).
  set (d4 := HDEL _ _ d3) in *.
  destruct (do_ZADD ns d4 (k_pending (keys ns q)) now (memberName id j') Ht4 ltac:(by apply kind_pending)) as (Ht5 & Hs5 & Hh5 & Hz5).
  set (d5 := ZADD _ _ _ d4) in *.
  assert (pendingScore j = None /\ reservedScore j = None) as [Hp Hr]
    by (unfold failedScore, pendingScore, reservedScore in *; by destruct (a_state j)).
  eapply (abstracts_step ns unmarshalEnvelope marshalFailure d d5 jobs n (n + 1) q id _ (i + 1) i);
    [done | done | | lia | done | lia | lia | done |].
  - split; [done | ..].
    + chase. destruct Hh. by split; fields.
    + intros q' id' Hq' Hne. pose proof (jobKey_ne q id q' id' Hq Hq' Hne). by chase.
    + intros m'. chase. eapply (rescored_enter d _ n _ _ j'); [done | by apply (ab_pending _ _ _ _ _ _ Ha) | done |].
      intros j0 Hj0. left. by assert (j0 = j) as -> by congruence.
    + intros m'. chase. eapply (rescored_keep d _ n); [done | by apply (ab_reserved _ _ _ _ _ _ Ha) | |].
      * intros j0 Hj0. by assert (j0 = j) as -> by congruence.
      * intros j0 [= <-]. cbn. split; [done | lia].
    + intros m'. chase. eapply (rescored_failed d _ n); [done | by apply (ab_failed _ _ _ _ _ _ Ha) |].
      intros m''. by rewrite delete_decide.
    + intros q' Hq' Hne. by chase.
    + left. by chase.
    + intros q' Hq' Hne. by chase.
  - intros j0 [= <-]. split; [|cbn; lia]. split; cbn; try done; lia.
Qed.

(** [retryFailedScript]: the job waits again, or nothing is written. *)
Lemma retryFailedScript_spec d jobs n srv q id now : abstracts d jobs n -> ValidName q = true -> n + 1 < maxOps ->
  exists d' reply, retryFailedScript srv (jobKey ns q id) (k_failed (keys ns q)) (k_pending (keys ns q)) (k_seq (keys ns q))
      id now d = (d', reply) /\
    ((d' = d /\ reply <> Ok (1, "")) \/
     (reply = Ok (1, "") /\ exists j i, jobs !! (q, id) = Some j /\ failedScore j <> None /\
        abstracts d' (put (q, id) (Some (mkAJob i (a_env j) 0 (AWaiting now) (a_unique j))) jobs) (n + 1))).
Proof.
  intros Ha Hq Hn. unfold retryFailedScript. rewrite (ZSCORE_failed _ _ _ _ _ Ha Hq).
  destruct (jobs !! (q, id)) as [j|] eqn:Hj; cbn; [|eexists _, _; split; [done|]; by left].
  destruct (failedScore j) as [s|] eqn:Hs; [|eexists _, _; split; [done|]; by left].
  destruct (job_lookup _ _ _ _ _ _ Ha Hj) as (_ & Ht & Hh & Hf).
  rewrite !(HGET_job _ _ _ _ _ _ Ha Hq), (ho_env _ _ _ _ _ Hh), bool_decide_eq_false_2 by done.
  assert (forall d0, abstracts d0 jobs n -> exists d' reply,
    (requeue (jobKey ns q id) (k_failed (keys ns q)) (k_pending (keys ns q)) (k_seq (keys ns q)) id now d0, @Ok luaError _ (1, "")) = (d', reply) /\
    ((d' = d /\ reply <> Ok (1, "")) \/
     (reply = Ok (1, "") /\ exists j0 i, Some j = Some j0 /\ failedScore j0 <> None /\
        abstracts d' (put (q, id) (Some (mkAJob i (a_env j0) 0 (AWaiting now) (a_unique j0))) jobs) (n + 1)))) as Hre.
  { intros d0 Ha0. destruct (requeue_abstracts d0 jobs n q id j now Ha0 Hj ltac:(congruence) Hn) as [i Hi].
    eexists _, _. split; [done|]. right. split; [done|]. exists j, i. repeat (split; [done || congruence|]). done. }
  rewrite (ho_unique _ _ _ _ _ Hh). destruct (a_unique j) as [[key ttl]|] eqn:Hu; [|by apply Hre].
  destruct (String.eqb _ "") eqn:Ee; [by apply Hre|].
  assert (claimTTL (jobKey ns q id) d = Some ttl) as ->.
  { unfold claimTTL. rewrite (HGET_job _ _ _ _ _ _ Ha Hq), (ho_ttl _ _ _ _ _ Hh), Hu.
    destruct (jf_ttl _ _ _ _ _ Hf _ _ Hu) as [Hpos Hmax].
    rewrite decodeInt_encodeInt by (unfold in_int64, min_int64, max_int64 in *; lia).
    by rewrite (proj2 (Z.leb_gt ttl 0)) by lia. }
  assert (abstracts (SETPX srv (k_unique (keys ns q) ++ key) id ttl d) jobs n) as Ha'.
  { apply (abstracts_aside d); [done|]. apply aside_SETPX; [done | by apply kind_unique | by apply (jf_ttl _ _ _ _ _ Hf key)|].
    intros q' Hq'. keys_ne. }
  destruct (GET srv _ d) as [holder|]; [|by apply Hre]. destruct (negb _); [|by apply Hre].
  eexists _, _. split; [done|]. by left.
Qed.

(** [purgeFailedScript] forgets failed jobs of the queue, and nothing else. *)
Lemma purge_fold q ids : ValidName q = true -> forall d jobs n, abstracts d jobs n -> NoDup ids ->
  Forall (fun id => exists j, jobs !! (q, id) = Some j /\ failedScore j <> None) ids ->
  abstracts (fold_left (fun d id => DEL (k_jobPrefix (keys ns q) ++ id)%string (ZREM (k_failed (keys ns q)) id d)) ids d)
    (fold_left (fun jobs id => put (q, id) None jobs) ids jobs) n.
Proof.
  intros Hq. induction ids as [|id ids IH]; intros d jobs n Ha Hnd Hf; [done|]. cbn [fold_left].
  inversion Hf as [|? ? (j & Hj & Hs) Hf']; subst. apply NoDup_cons in Hnd as [Hnotin Hnd].
  apply IH; [by apply (forget_abstracts d jobs n q id j) | done|].
  rewrite Forall_forall in Hf' |- *. intros id' Hid'. destruct (Hf' id' Hid') as (j' & Hj' & Hs').
  exists j'. split; [|done]. rewrite lookup_put, decide_False; [done|]. intros [= ->]. done.
Qed.

Lemma zwithin_NoDup lo hi z : NoDup (map fst (zwithin lo hi z)).
Proof.
  unfold zwithin, zsorted. assert (NoDup (map fst (merge_sort zle (map_to_list z)))) as Hn.
  { rewrite (merge_sort_Permutation zle). apply NoDup_fst_map_to_list. }
  induction (merge_sort zle (map_to_list z)) as [|e l IH]; cbn in *; [constructor|].
  apply NoDup_cons in Hn as [Hnotin Hn]. destruct (_ && _); [|by apply IH]. cbn. constructor; [|by apply IH].
  intros Hin. apply Hnotin. apply list_elem_of_In, in_map_iff in Hin as (e' & <- & He'). apply filter_In in He' as [He' _].
  apply list_elem_of_In. by apply in_map.
Qed.

Lemma purgeFailedScript_spec d jobs n q before batch : abstracts d jobs n -> ValidName q = true ->
  exists d' ids, purgeFailedScript (k_failed (keys ns q)) before batch (k_jobPrefix (keys ns q)) d = (d', Z.of_nat (length ids)) /\
    abstracts d' (fold_left (fun jobs id => put (q, id) None jobs) ids jobs) n /\
    Forall (fun id => exists j, jobs !! (q, id) = Some j /\ failedScore j <> None) ids.
Proof.
  intros Ha Hq. unfold purgeFailedScript.
  rewrite law_ZRANGEBYSCORE by (apply (typed_zset ns); [apply Ha | by apply kind_failed]).
  set (hi := match before with Some ms => _ | None => _ end). set (l := zwithin Inf hi _).
  assert (Forall (fun id => exists j, jobs !! (q, id) = Some j /\ failedScore j <> None) (map fst (take batch l))) as Hf.
  { apply Forall_map, Forall_take, Forall_forall. intros [id s] Hin. apply zwithin_elem in Hin as (Hz & _ & _).
    apply (ab_failed _ _ _ _ _ _ Ha q Hq) in Hz as (id2 & j & Hj & Hs & Hid). unfold idName in Hid. subst id2. cbn. exists j. split; congruence. }
  eexists _, (map fst (take batch l)). split; [done|]. split; [|done]. apply purge_fold; [done | done | | done].
  pose proof (zwithin_NoDup Inf hi (zsets d (k_failed (keys ns q)))) as Hnd. fold l in Hnd.
  rewrite <- (take_drop batch l), map_app in Hnd. by apply NoDup_app in Hnd as [Hnd _].
Qed.

(** [failedScanScript] on a sound database reads, and drops nothing. *)
Lemma scanRows_unchanged d jobs n q want : abstracts d jobs n -> ValidName q = true -> forall rows found cursor,
  Forall (fun e => exists j, jobs !! (q, e.1) = Some j /\ failedScore j <> None) rows ->
  (scanRows (k_failed (keys ns q)) (k_jobPrefix (keys ns q)) want found rows cursor d).1.1.1 = d.
Proof.
  intros Ha Hq. induction rows as [|[id s] rows IH]; intros found cursor Hf; [done|]. cbn [scanRows].
  inversion Hf as [|? ? (j & Hj & Hs) Hf']; subst. cbn [fst] in Hj. change (k_jobPrefix (keys ns q) ++ id)%string with (jobKey ns q id).
  destruct (job_lookup _ _ _ _ _ _ Ha Hj) as (_ & Ht & Hh & _).
  rewrite !(HGET_job _ _ _ _ _ _ Ha Hq), (ho_env _ _ _ _ _ Hh), (ho_failure _ _ _ _ _ Hh).
  unfold failedScore in Hs. destruct (a_state j) as [t|r t|f data t]; [done | done|]. cbn [failureOf].
  destruct (decide _); [done|]. specialize (IH (S found) (Some (s, id)) Hf').
  destruct (scanRows _ _ _ _ _ _ _) as [[[d' c'] jobs'] more]. exact IH.
Qed.

Lemma failedScanScript_unchanged d jobs n q want look cursor : abstracts d jobs n -> ValidName q = true ->
  (failedScanScript (k_failed (keys ns q)) (k_jobPrefix (keys ns q)) want look cursor d).1 = d.
Proof.
  intros Ha Hq. unfold failedScanScript. set (start := match cursor with Some _ => _ | None => _ end).
  assert (Forall (fun e => exists j, jobs !! (q, e.1) = Some j /\ failedScore j <> None)
    (ZREVRANGE (k_failed (keys ns q)) start look d)) as Hf.
  { rewrite law_ZREVRANGE by (apply (typed_zset ns); [apply Ha | by apply kind_failed]).
    apply Forall_take, Forall_drop, Forall_forall. intros [id s] Hin.
    apply list_elem_of_In in Hin. rewrite <- in_rev in Hin. apply list_elem_of_In, zsorted_elem in Hin.
    apply (ab_failed _ _ _ _ _ _ Ha q Hq) in Hin as (id2 & j & Hj & Hs & Hid). unfold idName in Hid. subst id2.
    cbn. exists j. split; congruence. }
  pose proof (scanRows_unchanged d jobs n q want Ha Hq _ 0%nat cursor Hf) as Hd.
  destruct (scanRows _ _ _ _ _ _ _) as [[[d' c'] jobs'] more]. exact Hd.
Qed.
End Scripts.
