(* ===== verification/JobsRedisFacts.v ===== *)
(** * What the durable queue guarantees

    Every operation on the Redis queue, whatever becomes of the call, is a step of the
    abstract queue of jobs ([astep]); so a lease is exclusive while it lasts, settling a
    delivery moves exactly its job, and the reserve script ends.  The codecs of encoding/json
    are trusted to read back what they wrote ([Codec]). *)

From stdpp Require Import base tactics numbers list strings gmap fin_maps.
From Stdlib Require Import ZArith Lia Ascii.
From S2P Require Import Prelude GoBytes JobsTypes JobsMemory JobsQueueIface Cache Redis JobsRedis JobsRedisInv JobsRedisScripts.

Local Open Scope string_scope.
Local Open Scope list_scope.
Local Open Scope Z_scope.

(** What was encoded is read back. *)
Class Codec (marshalEnvelope : Envelope -> option string) (unmarshalEnvelope : string -> option Envelope)
    (marshalFailure : Failure -> option string) (unmarshalFailure : string -> option Failure) : Prop := {
  envelope_round e s : marshalEnvelope e = Some s -> unmarshalEnvelope s = Some e;
  failure_round f s : marshalFailure f = Some s -> unmarshalFailure s = Some f
}.

(** A time as the queue keeps it: in whole milliseconds. *)
Definition stamp (t : time) : time := ofMilli (UnixMilli t).

Lemma stamp_bounds t : t - Millisecond < stamp t <= t.
Proof.
  unfold stamp, ofMilli, UnixMilli. pose proof (Z.div_mod (t - epoch) Millisecond ltac:(done)).
  pose proof (Z.mod_pos_bound (t - epoch) Millisecond ltac:(done)). lia.
Qed.

Lemma ofMilli_le a b : a <= b -> ofMilli a <= ofMilli b.
Proof. unfold ofMilli, Millisecond. lia. Qed.

Section Facts.
Context {D : Type} `{RL : RedisLaws D} (ns : string).
Context (mE : Envelope -> option string) (uE : string -> option Envelope).
Context (mF : Failure -> option string) (uF : string -> option Failure) `{HC : !Codec mE uE mF uF}.

Local Abbreviation abstracts := (abstracts ns uE mF).
Local Abbreviation queue_t := (RedisQueue D).

(** ** Operations *)

Inductive rop : Type :=
| ROPush (l : link) (srv now : time) (queue : string) (env : Envelope) (at_ : time)
| ROPushUnique (l : link) (srv now : time) (queue : string) (env : Envelope) (at_ : time) (u : UniqueKey)
| ROReserve (l : link) (srv : time) (clk : nat -> time) (uuid : nat -> string) (queues : list string) (lease : duration)
| ROAck (l : link) (srv : time) (d : Delivery)
| RORelease (l : link) (now : time) (d : Delivery) (at_ : time) (uncount : bool)
| ROExtend (l : link) (now : time) (d : Delivery) (lease : duration)
| ROBury (l : link) (srv now : time) (d : Delivery) (f : Failure)
| RORetryFailed (l : link) (srv now : time) (queue id : string)
| ROForgetFailed (l : link) (queue id : string)
| ROPurgeBatch (l : link) (queue : string) (before : time)
| ROFailedPage (l : link) (queue : string) (cursor : failedCursor) (want : nat)
| ROBeginOnce (l : link) (srv : time) (key token : string) (lock : duration)
| ROFinishOnce (l : link) (srv : time) (key token : string) (keep : duration)
| ROAbandonOnce (l : link) (srv : time) (key token : string)
| ROClose.

Definition rapply (o : rop) (q : queue_t) : queue_t :=
  match o with
  | ROPush l srv now queue env at_ => (rPush ns mE l srv now queue env at_ q).1
  | ROPushUnique l srv now queue env at_ u => (rPushUnique ns mE l srv now queue env at_ u q).1
  | ROReserve l srv clk uuid queues lease => (rReserve ns uE l srv clk uuid queues lease q).1
  | ROAck l srv d => (rAck ns l srv d q).1
  | RORelease l now d at_ uncount => (rrelease ns l now d at_ uncount q).1
  | ROExtend l now d lease => (rExtend ns l now d lease q).1
  | ROBury l srv now d f => (rBury ns mF l srv now d f q).1
  | RORetryFailed l srv now queue id => (rRetryFailed ns l srv now queue id q).1
  | ROForgetFailed l queue id => (rForgetFailed ns l queue id q).1
  | ROPurgeBatch l queue before => (rPurgeFailed ns 1 (fun _ => l) (fun _ q => q) queue before q).1
  | ROFailedPage l queue cursor want =>
      if rclosed q || negb (ValidName queue) then q else (failedPage ns uE uF l queue cursor want q).1
  | ROBeginOnce l srv key token lock => (rBeginOnce ns l srv key token lock q).1
  | ROFinishOnce l srv key token keep => (rFinishOnce ns l srv key token keep q).1
  | ROAbandonOnce l srv key token => (rAbandonOnce ns l srv key token q).1
  | ROClose => rClose q
  end.

(** What the callers promise: receipts are not empty, a claim's time fits. *)
Definition rop_ok (o : rop) : Prop :=
  match o with
  | ROReserve _ _ _ uuid _ _ => forall i, uuid i <> ""
  | ROPushUnique _ _ _ _ _ _ u => in_int64 (TTL u)
  | _ => True
  end.

(** ** The abstract queue *)

Local Abbreviation jobs_t := (gmap (string * string) ajob).

(** Whether the delivery holds the lease of the job under its key. *)
Definition leasedBy (d : Delivery) (jobs : gmap (string * string) ajob) (j : ajob) : Prop :=
  jobs !! DKey d = Some j /\ exists t, a_state j = ALeased (DReceipt d) t.

(** What an operation may do to the jobs: nothing, or the one thing it is for. *)
Inductive astep : rop -> gmap (string * string) ajob -> gmap (string * string) ajob -> Prop :=
| a_nothing o jobs : astep o jobs jobs
| a_push l srv now queue env at_ jobs i s :
    mE (setAttempt 0 env) = Some s -> jobs !! (queue, ID env) = None ->
    astep (ROPush l srv now queue env at_) jobs
      (put (queue, ID env) (Some (mkAJob i s 0 (AWaiting (UnixMilli (clampAt at_ now))) None)) jobs)
| a_push_unique l srv now queue env at_ u jobs i s c :
    mE (setAttempt 0 env) = Some s -> jobs !! (queue, ID env) = None ->
    astep (ROPushUnique l srv now queue env at_ u) jobs
      (put (queue, ID env) (Some (mkAJob i s 0 (AWaiting (UnixMilli (clampAt at_ now))) c)) jobs)
| a_reserve l srv clk uuid queues lease jobs i queue id j t :
    nth_error queues i = Some queue -> jobs !! (queue, id) = Some j -> readySince j = Some t ->
    t <= UnixMilli (clk i) ->
    astep (ROReserve l srv clk uuid queues lease) jobs
      (put (queue, id) (Some (leasedAs (uuid i) (UnixMilli (clk i + lease)) j)) jobs)
| a_ack l srv d j jobs : leasedBy d jobs j -> astep (ROAck l srv d) jobs (put (DKey d) None jobs)
| a_release l now d at_ uncount j i jobs : leasedBy d jobs j ->
    astep (RORelease l now d at_ uncount) jobs
      (put (DKey d) (Some (mkAJob i (a_env j)
         (if uncount && (0 <? a_attempts j) then a_attempts j - 1 else a_attempts j)
         (AWaiting (UnixMilli (clampAt at_ now))) (a_unique j))) jobs)
| a_extend l now d lease j jobs : leasedBy d jobs j ->
    astep (ROExtend l now d lease) jobs
      (put (DKey d) (Some (mkAJob (a_no j) (a_env j) (a_attempts j)
         (ALeased (DReceipt d) (UnixMilli (now + lease))) (a_unique j))) jobs)
| a_bury l srv now d f f' s j jobs : leasedBy d jobs j -> f' = (if IsZero (FAt f) then setAt now f else f) ->
    mF f' = Some s ->
    astep (ROBury l srv now d f) jobs
      (put (DKey d) (Some (mkAJob (a_no j) (a_env j) (a_attempts j)
         (ABuried f' s (UnixMilli (FAt f'))) (a_unique j))) jobs)
| a_retry l srv now queue id j i jobs : jobs !! (queue, id) = Some j -> failedScore j <> None ->
    astep (RORetryFailed l srv now queue id) jobs
      (put (queue, id) (Some (mkAJob i (a_env j) 0 (AWaiting (UnixMilli now)) (a_unique j))) jobs)
| a_forget l queue id j jobs : jobs !! (queue, id) = Some j -> failedScore j <> None ->
    astep (ROForgetFailed l queue id) jobs (put (queue, id) None jobs)
| a_purge l queue before ids jobs :
    Forall (fun id => exists j, jobs !! (queue, id) = Some j /\ failedScore j <> None) ids ->
    astep (ROPurgeBatch l queue before) jobs (fold_left (fun jobs id => put (queue, id) None jobs) ids jobs).

Lemma abstracts_mono d jobs n n' : abstracts d jobs n -> n <= n' < maxOps -> abstracts d jobs n'.
Proof.
  intros [Ht Hops Hval Hh Hp Hr Hf Hs] Hn. split; try done; [lia| |].
  - intros q id j Hj. destruct (Hval _ _ _ Hj). split; [done|]. eapply job_fine_mono; [|done]. lia.
  - intros q Hq. destruct (Hs q Hq) as (i & ? & ? & ?). exists i. split; [done|]. split; [lia | done].
Qed.

(** ** The simulation, operation by operation *)

(** What a call leaves behind: nothing happened, or the script ran. *)
Lemma eval_cases {A} l (script : D -> D * A) (q : queue_t) :
  rclosed (eval l script q).1 = rclosed q /\
  (rdb (eval l script q).1 = rdb q \/ rdb (eval l script q).1 = (script (rdb q)).1).
Proof.
  destruct l; cbn; [|by split; [|left] | by split; [|right]].
  destruct (script (rdb q)). cbn. split; [done|]. by right.
Qed.

Lemma unmarshal_id e s : mE (setAttempt 0 e) = Some s -> forall e', uE s = Some e' -> ID e' = ID e.
Proof. intros Hm e' Hu. apply envelope_round in Hm. assert (e' = setAttempt 0 e) as -> by congruence. done. Qed.

Local Abbreviation simulated o q jobs n :=
  (exists jobs', astep o jobs jobs' /\ abstracts (rdb (rapply o q)) jobs' (n + 1)).

Lemma sim_nothing o (q : queue_t) jobs n : abstracts (rdb q) jobs n -> n + 1 < maxOps ->
  rdb (rapply o q) = rdb q -> simulated o q jobs n.
Proof.
  intros Ha Hn E. exists jobs. split; [constructor|]. rewrite E.
  pose proof (ab_ops _ _ _ _ _ _ Ha). apply (abstracts_mono _ _ n); [done | lia].
Qed.

(** A call whose state is what its script leaves. *)
Lemma sim_eval {A} o l (script : D -> D * A) (q : queue_t) jobs n : abstracts (rdb q) jobs n -> n + 1 < maxOps ->
  rapply o q = (eval l script q).1 ->
  (exists jobs', astep o jobs jobs' /\ abstracts (script (rdb q)).1 jobs' (n + 1)) -> simulated o q jobs n.
Proof.
  intros Ha Hn E Hs. destruct (eval_cases l script q) as [_ [Hdb|Hdb]].
  - apply sim_nothing; [done | done|]. by rewrite E.
  - destruct Hs as (jobs' & Hst & Ha'). exists jobs'. split; [done|]. by rewrite E, Hdb.
Qed.

(** Nothing happened in the script. *)
Lemma run_nothing {A} o (script : D -> D * A) (d : D) jobs n : abstracts d jobs n -> n + 1 < maxOps ->
  (script d).1 = d -> exists jobs', astep o jobs jobs' /\ abstracts (script d).1 jobs' (n + 1).
Proof.
  intros Ha Hn E. exists jobs. split; [constructor|]. rewrite E. pose proof (ab_ops _ _ _ _ _ _ Ha).
  apply (abstracts_mono _ _ n); [done | lia].
Qed.

(** The state a method leaves, from its checks and its script. *)
Ltac method_cases :=
  repeat match goal with
  | |- context [if ?b then (_, Some _) else _] => destruct b eqn:?; [by left|]
  | |- context [match ?x with Some e => (_, Some e) | None => _ end] => destruct x eqn:?; [by left|]
  | |- context [match mE ?x with Some _ => _ | None => _ end] => destruct (mE x) eqn:?; [|by left]
  | |- context [match mF ?x with Some _ => _ | None => _ end] => destruct (mF x) eqn:?; [|by left]
  end; breflect.

Lemma sim_push l srv now queue env at_ (q : queue_t) jobs n : abstracts (rdb q) jobs n -> n + 1 < maxOps ->
  simulated (ROPush l srv now queue env at_) q jobs n.
Proof.
  intros Ha Hn.
  assert (rapply (ROPush l srv now queue env at_) q = q \/ (ValidName queue = true /\ exists s, mE (setAttempt 0 env) = Some s /\
    rapply (ROPush l srv now queue env at_) q = (eval l (pushScript srv (jobKey ns queue (ID env)) (k_pending (keys ns queue))
      (k_seq (keys ns queue)) s (UnixMilli (clampAt at_ now)) (ID env)) q).1)) as [E|(Hq & s & Hs & E)].
  { cbn [rapply]. unfold rPush. method_cases. right. split; [done|]. eexists. split; [done|].
    destruct (eval _ _ _) as [q' [a|e]]; [by destruct (a =? 0) | done]. }
  { apply sim_nothing; [done | done | by rewrite E]. }
  eapply sim_eval; [done | done | exact E|]. destruct (jobs !! (queue, ID env)) as [j|] eqn:Hj.
  - apply run_nothing; [done | done|]. by rewrite (pushScript_dup ns uE mF _ jobs n srv queue (ID env) j).
  - destruct (pushScript_new ns uE mF (rdb q) jobs n srv queue (ID env) s (UnixMilli (clampAt at_ now)))
      as (d' & i & -> & Ha'); [done | done | done | done | by apply unmarshal_id|].
    eexists. split; [by apply a_push with (i := i) | exact Ha'].
Qed.

Lemma Milliseconds_int64 d : in_int64 d -> Milliseconds d <= max_int64.
Proof.
  unfold Milliseconds, in_int64. intros Hd. pose proof (Z.quot_le_upper_bound d Millisecond max_int64 ltac:(done)).
  unfold Millisecond, max_int64, min_int64 in *. lia.
Qed.

Lemma sim_push_unique l srv now queue env at_ u (q : queue_t) jobs n : abstracts (rdb q) jobs n -> n + 1 < maxOps ->
  in_int64 (TTL u) -> simulated (ROPushUnique l srv now queue env at_ u) q jobs n.
Proof.
  intros Ha Hn Httl.
  assert (rapply (ROPushUnique l srv now queue env at_ u) q = q \/ (ValidName queue = true /\ exists s, mE (setAttempt 0 env) = Some s /\
    rapply (ROPushUnique l srv now queue env at_ u) q = (eval l (pushUniqueScript srv (jobKey ns queue (ID env)) (k_pending (keys ns queue))
      (k_seq (keys ns queue)) (k_unique (keys ns queue) ++ Key u)%string s (UnixMilli (clampAt at_ now)) (ID env)
      (Milliseconds (TTL u)) (if UntilDone u then "1" else "0")) q).1)) as [E|(Hq & s & Hs & E)].
  { cbn [rapply]. unfold rPushUnique. method_cases. right. split; [done|]. eexists. split; [done|].
    destruct (eval _ _ _) as [q' [[[c h]|e]|e]]; [|done|done]. destruct (c =? 1); [done|]. by destruct (c =? 0). }
  { apply sim_nothing; [done | done | by rewrite E]. }
  eapply sim_eval; [done | done | exact E|].
  destruct (pushUniqueScript_spec ns uE mF (rdb q) jobs n srv queue (ID env) s (UnixMilli (clampAt at_ now))
    (Milliseconds (TTL u)) (UntilDone u) (Key u)) as (d' & reply & Hrun & Hres);
    [done | done | done | by apply Milliseconds_int64 | by apply unmarshal_id|].
  destruct (GET srv _ _) as [holder|]; [destruct Hres as [-> ->]; apply run_nothing; [done | done | by rewrite Hrun]|].
  destruct (jobs !! (queue, ID env)) eqn:Hj; [destruct Hres as [-> ->]; apply run_nothing; [done | done | by rewrite Hrun]|].
  destruct (_ <=? 0); [destruct Hres as [-> ->]; apply run_nothing; [done | done | by rewrite Hrun]|].
  destruct Hres as (-> & i & Ha'). rewrite Hrun. eexists. split; [by eapply a_push_unique | exact Ha'].
Qed.

(** ** Settling *)

(** The state a settling call leaves. *)
Lemma settleCall_state l d (script : redisKeys -> D -> D * result luaError Z) (q : queue_t) :
  (settleCall ns l d script q).1 = q \/
  (DReceipt d <> "" /\ ValidName (DQueue d) = true /\
   (settleCall ns l d script q).1 = (eval l (script (keys ns (DQueue d))) q).1).
Proof.
  unfold settleCall. destruct (String.eqb (DReceipt d) "" || negb (ValidName (DQueue d))) eqn:E; [by left|]. breflect.
  right. split; [done|]. split; [done|]. destruct (eval _ _ _) as [q' [[a|e]|e]]; [by destruct (a =? 0) | done | done].
Qed.

(** Whether the delivery holds its lease. *)
Lemma leasedBy_dec d jobs n (db : D) : abstracts db jobs n -> ValidName (DQueue d) = true -> DReceipt d <> "" ->
  (exists j, leasedBy d jobs j) \/ JobsRedis.holds (jobKey ns (DQueue d) (ID (DEnvelope d))) (DReceipt d) db = false.
Proof.
  intros Ha Hq Hr. rewrite (holds_job ns uE mF db jobs n) by done. fold (DKey d). unfold leasedBy.
  destruct (jobs !! DKey d) as [j|]; [|by right]. destruct (a_state j) as [t|r t|f data t] eqn:E; [by right | | by right].
  destruct (String.eqb_spec r (DReceipt d)) as [->|]; [left | by right]. exists j. split; [done|]. by exists t.
Qed.

(** A settling call: the holder's script runs, anybody else's does nothing. *)
Lemma sim_settle o l d (sc : redisKeys -> D -> D * result luaError Z) (q : queue_t) jobs n :
  abstracts (rdb q) jobs n -> n + 1 < maxOps ->
  (rapply o q = q \/ rapply o q = (settleCall ns l d sc q).1) ->
  (forall j t, jobs !! DKey d = Some j -> a_state j = ALeased (DReceipt d) t ->
     exists jobs', astep o jobs jobs' /\ abstracts (sc (keys ns (DQueue d)) (rdb q)).1 jobs' (n + 1)) ->
  (JobsRedis.holds (jobKey ns (DQueue d) (ID (DEnvelope d))) (DReceipt d) (rdb q) = false ->
     (sc (keys ns (DQueue d)) (rdb q)).1 = rdb q) ->
  simulated o q jobs n.
Proof.
  intros Ha Hn Hcase Hheld Hlost.
  assert (rapply o q = q -> simulated o q jobs n) as Hno by (intros E; apply sim_nothing; [done | done | by rewrite E]).
  destruct Hcase as [E|E]; [by apply Hno|].
  destruct (settleCall_state l d sc q) as [E'|(Hr & Hq & E')]; rewrite E' in E; [by apply Hno|].
  eapply sim_eval; [done | done | exact E|].
  destruct (leasedBy_dec d jobs n (rdb q) Ha Hq Hr) as [(j & Hj & t & Hs)|Hl]; [by eapply Hheld|].
  apply run_nothing; [done | done | by apply Hlost].
Qed.

Lemma sim_ack l srv d (q : queue_t) jobs n : abstracts (rdb q) jobs n -> n + 1 < maxOps ->
  simulated (ROAck l srv d) q jobs n.
Proof.
  intros Ha Hn. eapply (sim_settle _ l d); [done | done | | |].
  - cbn [rapply]. unfold rAck. destruct (rclosed q); [by left | by right].
  - intros j t Hj Hs. cbv beta.
    destruct (ackScript_leased ns uE mF (rdb q) jobs n srv _ _ j (DReceipt d) t Ha Hj Hs Hn) as (d' & Hrun & Ha').
    exists (put (DKey d) None jobs). split; [apply (a_ack l srv d j); split; eauto|]. unfold jobKey in Hrun. by rewrite Hrun.
  - intros Hl. cbv beta. unfold ackScript, jobKey in *. by rewrite Hl.
Qed.

Lemma sim_release l now d at_ uncount (q : queue_t) jobs n : abstracts (rdb q) jobs n -> n + 1 < maxOps ->
  simulated (RORelease l now d at_ uncount) q jobs n.
Proof.
  intros Ha Hn. eapply (sim_settle _ l d); [done | done | | |].
  - cbn [rapply]. unfold rrelease. destruct (rclosed q); [by left | by right].
  - intros j t Hj Hs. cbv beta.
    destruct (releaseScript_leased ns uE mF (rdb q) jobs n _ _ j (DReceipt d) t (UnixMilli (clampAt at_ now)) uncount Ha Hj Hs Hn)
      as (d' & i & Hrun & Ha').
    eexists. split; [apply (a_release l now d at_ uncount j i); split; eauto|]. unfold jobKey in Hrun. by rewrite Hrun.
  - intros Hl. cbv beta. unfold releaseScript, jobKey in *. by rewrite Hl.
Qed.

Lemma sim_extend l now d lease (q : queue_t) jobs n : abstracts (rdb q) jobs n -> n + 1 < maxOps ->
  simulated (ROExtend l now d lease) q jobs n.
Proof.
  intros Ha Hn. eapply (sim_settle _ l d); [done | done | | |].
  - cbn [rapply]. unfold rExtend. destruct (rclosed q); [by left|]. destruct (lease <=? 0); [by left | by right].
  - intros j t Hj Hs. cbv beta.
    destruct (extendScript_leased ns uE mF (rdb q) jobs n _ _ j (DReceipt d) t (UnixMilli (Add now lease)) Ha Hj Hs Hn) as (d' & Hrun & Ha').
    eexists. split; [apply (a_extend l now d lease j); split; eauto|]. unfold jobKey in Hrun. by rewrite Hrun.
  - intros Hl. cbv beta. unfold extendScript, jobKey in *. by rewrite Hl.
Qed.

Lemma sim_bury l srv now d f (q : queue_t) jobs n : abstracts (rdb q) jobs n -> n + 1 < maxOps ->
  simulated (ROBury l srv now d f) q jobs n.
Proof.
  intros Ha Hn. set (f' := if IsZero (FAt f) then setAt now f else f).
  destruct (mF f') as [s|] eqn:Hs'.
  2: { apply sim_nothing; [done | done|]. cbn [rapply]. unfold rBury. fold f'. rewrite Hs'.
       destruct (rclosed q); [done|]. by destruct (_ || _). }
  eapply (sim_settle _ l d (fun k => buryScript srv (k_jobPrefix k ++ ID (DEnvelope d))%string (k_reserved k) (k_failed k)
    (DReceipt d) (ID (DEnvelope d)) (UnixMilli (FAt f')) s)); [done | done | | |].
  - cbn [rapply]. unfold rBury. fold f'. rewrite Hs'. destruct (rclosed q); [by left|]. destruct (_ || _); [by left | by right].
  - intros j t Hj Hs. cbv beta.
    destruct (buryScript_leased ns uE mF (rdb q) jobs n srv _ _ j (DReceipt d) t f' s (UnixMilli (FAt f')) Ha Hj Hs Hn Hs') as (d' & Hrun & Ha').
    eexists. split; [eapply (a_bury l srv now d f f' s j); [split; eauto | done | done]|]. unfold jobKey in Hrun. by rewrite Hrun.
  - intros Hl. cbv beta. unfold buryScript, jobKey in *. by rewrite Hl.
Qed.

(** ** The other operations *)

Lemma first_invalid_valid queues : first_invalid queues = None -> Forall (fun queue => ValidName queue = true) queues.
Proof.
  induction queues as [|queue queues IH]; cbn; [constructor|]. destruct (negb (ValidName queue)) eqn:E; [done|].
  breflect. intros Hr. constructor; auto.
Qed.

(** Reserving walks the queues until one has a job due. *)
Lemma reserveFrom_sim l srv clk uuid queues lease (q : queue_t) jobs n : abstracts (rdb q) jobs n -> n + 1 < maxOps ->
  (forall i, uuid i <> "") -> Forall (fun queue => ValidName queue = true) queues ->
  rdb (reserveFrom ns uE l srv clk uuid queues lease q).1 = rdb q \/
  exists i queue id j t, nth_error queues i = Some queue /\ jobs !! (queue, id) = Some j /\ readySince j = Some t /\
    t <= UnixMilli (clk i) /\
    abstracts (rdb (reserveFrom ns uE l srv clk uuid queues lease q).1)
      (put (queue, id) (Some (leasedAs (uuid i) (UnixMilli (clk i + lease)) j)) jobs) (n + 1).
Proof.
  intros Ha Hn. revert clk uuid q Ha. induction queues as [|queue queues IH]; intros clk uuid q Ha Hu Hv; [by left|].
  cbn [reserveFrom]. inversion Hv as [|? ? Hq Hv']; subst.
  destruct (reserveScript_spec ns uE mF (rdb q) jobs n srv queue (UnixMilli (clk 0%nat)) (UnixMilli (Add (clk 0%nat) lease)) (uuid 0%nat))
    as (d' & reply & Hrun & Hres); [done | done | done | done|].
  assert (reply <> None -> exists i queue0 id j t, nth_error (queue :: queues) i = Some queue0 /\ jobs !! (queue0, id) = Some j /\
    readySince j = Some t /\ t <= UnixMilli (clk i) /\
    abstracts d' (put (queue0, id) (Some (leasedAs (uuid i) (UnixMilli (clk i + lease)) j)) jobs) (n + 1)) as Hgot.
  { intros Hr. destruct reply as [r|]; [|done]. destruct Hres as (j & t & Hj & Ht & Hle & _ & Ha' & _).
    by exists 0%nat, queue, (rr_id r), j, t. }
  destruct l; cbn [eval].
  - rewrite Hrun. destruct reply as [r|]; [right; by apply Hgot|]. destruct Hres as [-> _].
    destruct (IH (fun i => clk (S i)) (fun i => uuid (S i)) (mkRedisQueue (rdb q) (rclosed q)) Ha (fun i => Hu (S i)) Hv')
      as [E|(i & queue0 & id & j & t & Hi & Hrest)]; [by left|]. right. by exists (S i), queue0, id, j, t.
  - by left.
  - rewrite Hrun. cbn [rdb fst]. destruct reply as [r|]; [right; by apply Hgot|]. destruct Hres as [-> _]. by left.
Qed.

Lemma sim_reserve l srv clk uuid queues lease (q : queue_t) jobs n : abstracts (rdb q) jobs n -> n + 1 < maxOps ->
  (forall i, uuid i <> "") -> simulated (ROReserve l srv clk uuid queues lease) q jobs n.
Proof.
  intros Ha Hn Hu. assert (rdb (rapply (ROReserve l srv clk uuid queues lease) q) = rdb q ->
    simulated (ROReserve l srv clk uuid queues lease) q jobs n) as Hno by (intros E; by apply sim_nothing).
  cbn [rapply] in *. unfold rReserve in *. destruct (rclosed q); [by apply Hno|]. destruct (lease <=? 0); [by apply Hno|].
  destruct (first_invalid queues) eqn:Ef; [by apply Hno|].
  destruct (reserveFrom_sim l srv clk uuid queues lease q jobs n Ha Hn Hu (first_invalid_valid _ Ef))
    as [E|(i & queue & id & j & t & Hi & Hj & Ht & Hle & Ha')]; [by apply Hno|].
  eexists. split; [by eapply a_reserve | exact Ha'].
Qed.

(** A call whose guard lets it through is what its script leaves. *)
Lemma sim_guarded {A} o l (script : D -> D * A) (q : queue_t) jobs n : abstracts (rdb q) jobs n -> n + 1 < maxOps ->
  (rdb (rapply o q) = rdb q \/ rapply o q = (eval l script q).1) ->
  (exists jobs', astep o jobs jobs' /\ abstracts (script (rdb q)).1 jobs' (n + 1)) -> simulated o q jobs n.
Proof. intros Ha Hn [E|E] Hs; [by apply sim_nothing | by eapply sim_eval]. Qed.

Lemma sim_retry l srv now queue id (q : queue_t) jobs n : abstracts (rdb q) jobs n -> n + 1 < maxOps ->
  simulated (RORetryFailed l srv now queue id) q jobs n.
Proof.
  intros Ha Hn. destruct (ValidName queue) eqn:Hq.
  2: { apply sim_nothing; [done | done|]. cbn [rapply]. unfold rRetryFailed. rewrite Hq. by destruct (rclosed q). }
  apply (sim_guarded _ l (retryFailedScript srv (jobKey ns queue id) (k_failed (keys ns queue)) (k_pending (keys ns queue))
    (k_seq (keys ns queue)) id (UnixMilli now))); [done | done | |].
  - cbn [rapply]. unfold rRetryFailed. rewrite Hq. destruct (rclosed q); [by left|]. right. cbn [negb].
    destruct (eval _ _ _) as [q' [[[c h]|e]|e]]; [|done|done]. destruct (c =? 1); [done|]. by destruct (c =? 2).
  - destruct (retryFailedScript_spec ns uE mF (rdb q) jobs n srv queue id (UnixMilli now) Ha Hq Hn)
      as (d' & reply & Hrun & [[-> _]|(_ & j & i & Hj & Hs & Ha')]); [by apply run_nothing; rewrite ?Hrun|].
    rewrite Hrun. eexists. split; [by apply (a_retry l srv now queue id j i) | exact Ha'].
Qed.

Lemma sim_forget l queue id (q : queue_t) jobs n : abstracts (rdb q) jobs n -> n + 1 < maxOps ->
  simulated (ROForgetFailed l queue id) q jobs n.
Proof.
  intros Ha Hn. pose proof (ab_ops _ _ _ _ _ _ Ha) as Hops. destruct (ValidName queue) eqn:Hq.
  2: { apply sim_nothing; [done | done|]. cbn [rapply]. unfold rForgetFailed. rewrite Hq. by destruct (rclosed q). }
  apply (sim_guarded _ l (forgetFailedScript (jobKey ns queue id) (k_failed (keys ns queue)) id)); [done | done | |].
  - cbn [rapply]. unfold rForgetFailed. rewrite Hq. destruct (rclosed q); [by left|]. right. cbn [negb].
    destruct (eval _ _ _) as [q' [a|e]]; [by destruct (a =? 0) | done].
  - unfold forgetFailedScript. rewrite (ZSCORE_failed ns uE mF _ jobs n) by done.
    destruct (jobs !! (queue, id)) as [j|] eqn:Hj; cbn [mbind option_bind fst];
      [|exists jobs; split; [constructor | by apply (abstracts_mono _ _ n); [|lia]]].
    destruct (failedScore j) as [s|] eqn:Hs; [|exists jobs; split; [constructor | by apply (abstracts_mono _ _ n); [|lia]]].
    exists (put (queue, id) None jobs). split; [apply (a_forget l queue id j); [done | congruence]|].
    apply (abstracts_mono _ _ n); [|lia]. apply (forget_abstracts ns uE mF _ jobs n queue id j); [done | done | congruence].
Qed.

Lemma sim_purge l queue before (q : queue_t) jobs n : abstracts (rdb q) jobs n -> n + 1 < maxOps ->
  simulated (ROPurgeBatch l queue before) q jobs n.
Proof.
  intros Ha Hn. pose proof (ab_ops _ _ _ _ _ _ Ha) as Hops. destruct (ValidName queue) eqn:Hq.
  2: { apply sim_nothing; [done | done|]. cbn [rapply]. unfold rPurgeFailed. rewrite Hq. by destruct (rclosed q). }
  set (b := if IsZero before then None else Some (UnixMilli before)).
  apply (sim_guarded _ l (purgeFailedScript (k_failed (keys ns queue)) b purgeBatch (k_jobPrefix (keys ns queue)))); [done | done | |].
  - cbn [rapply]. unfold rPurgeFailed. rewrite Hq. destruct (rclosed q); [by left|]. right. cbn [negb purgeFrom]. fold b.
    destruct (eval _ _ _) as [q' [a|e]]; [by destruct (a <? _) | done].
  - destruct (purgeFailedScript_spec ns uE mF (rdb q) jobs n queue b purgeBatch Ha Hq) as (d' & ids & -> & Ha' & Hf).
    eexists. split; [by apply a_purge|]. cbn [fst]. apply (abstracts_mono _ _ n); [done | lia].
Qed.

Lemma sim_failed_page l queue cursor want (q : queue_t) jobs n : abstracts (rdb q) jobs n -> n + 1 < maxOps ->
  simulated (ROFailedPage l queue cursor want) q jobs n.
Proof.
  intros Ha Hn. destruct (rclosed q || negb (ValidName queue)) eqn:E.
  { apply sim_nothing; [done | done|]. cbn [rapply]. by rewrite E. }
  assert (ValidName queue = true) as Hq by (apply orb_false_iff in E as [_ E]; by apply negb_false_iff).
  apply (sim_guarded _ l (failedScanScript (k_failed (keys ns queue)) (k_jobPrefix (keys ns queue)) want failedPageSize cursor));
    [done | done | |].
  - right. cbn [rapply]. rewrite E. unfold failedPage.
    destruct (eval _ _ _) as [q' [[[a next] rows]|e]]; [by destruct (decodeRows _ _ _ _) | done].
  - apply run_nothing; [done | done | by apply (failedScanScript_unchanged ns uE mF _ jobs n)].
Qed.

(** ** Once *)

Lemma once_not_seq key queue : ValidName queue = true -> onceKey ns key <> k_seq (keys ns queue).
Proof. intros Hq E. pose proof (parse_once ns key) as Hp. rewrite E, parse_seq in Hp; done. Qed.

(** A call that writes nothing but a once key. *)
Lemma sim_aside {A} o l (script : D -> D * A) (q : queue_t) jobs n : abstracts (rdb q) jobs n -> n + 1 < maxOps ->
  (rdb (rapply o q) = rdb q \/ rapply o q = (eval l script q).1) ->
  aside ns (rdb q) (script (rdb q)).1 -> simulated o q jobs n.
Proof.
  intros Ha Hn Hc Hs. pose proof (ab_ops _ _ _ _ _ _ Ha) as Hops. eapply sim_guarded; [done | done | exact Hc|].
  exists jobs. split; [constructor|]. apply (abstracts_mono _ _ n); [by apply (abstracts_aside ns uE mF (rdb q)) | lia].
Qed.

Lemma sim_begin_once l srv key token lock (q : queue_t) jobs n : abstracts (rdb q) jobs n -> n + 1 < maxOps ->
  simulated (ROBeginOnce l srv key token lock) q jobs n.
Proof.
  intros Ha Hn. apply (sim_aside _ l (onceBeginScript srv (onceKey ns key) token (Milliseconds lock))); [done | done | |].
  - cbn [rapply]. unfold rBeginOnce. destruct (rclosed q); [by left|]. right. by destruct (eval _ _ _) as [q' [[a|e]|e]].
  - unfold onceBeginScript. destruct (GET _ _ _); [by apply aside_refl, Ha|]. destruct (_ <=? 0) eqn:E; [by apply aside_refl, Ha|].
    apply aside_SETPX; [apply Ha | apply kind_once | lia|]. intros queue Hq. by apply once_not_seq.
Qed.

Lemma sim_finish_once l srv key token keep (q : queue_t) jobs n : abstracts (rdb q) jobs n -> n + 1 < maxOps ->
  simulated (ROFinishOnce l srv key token keep) q jobs n.
Proof.
  intros Ha Hn. apply (sim_aside _ l (onceFinishScript srv (onceKey ns key) token (Milliseconds keep))); [done | done | |].
  - cbn [rapply]. unfold rFinishOnce. destruct (rclosed q); [by left|]. right.
    destruct (eval _ _ _) as [q' [[a|e]|e]]; [by destruct (a =? 0) | done | done].
  - unfold onceFinishScript. destruct (negb _); [by apply aside_refl, Ha|]. destruct (_ <=? 0) eqn:E; [by apply aside_refl, Ha|].
    apply aside_SETPX; [apply Ha | apply kind_once | lia|]. intros queue Hq. by apply once_not_seq.
Qed.

Lemma sim_abandon_once l srv key token (q : queue_t) jobs n : abstracts (rdb q) jobs n -> n + 1 < maxOps ->
  simulated (ROAbandonOnce l srv key token) q jobs n.
Proof.
  intros Ha Hn. apply (sim_aside _ l (onceAbandonScript srv (onceKey ns key) token)); [done | done | |].
  - cbn [rapply]. unfold rAbandonOnce. destruct (rclosed q); [by left|]. right. by destruct (eval _ _ _) as [q' [a|e]].
  - unfold onceAbandonScript. case_bool_decide; [|by apply aside_refl, Ha].
    apply aside_DEL; [apply Ha | apply kind_once|]. intros queue Hq. by apply once_not_seq.
Qed.

(** ** The refinement *)

Lemma sim_step o (q : queue_t) jobs n : abstracts (rdb q) jobs n -> n + 1 < maxOps -> rop_ok o -> simulated o q jobs n.
Proof.
  intros Ha Hn Hok. destruct o; eauto using sim_push, sim_push_unique, sim_reserve, sim_ack, sim_release, sim_extend,
    sim_bury, sim_retry, sim_forget, sim_purge, sim_failed_page, sim_begin_once, sim_finish_once, sim_abandon_once.
  by apply sim_nothing.
Qed.
End Facts.
