(* ===== verification/JobsRedisClaims.v ===== *)
(** * The durable queue: its theorems

    From an empty database every sequence of calls, whatever becomes of each, is a run of the
    abstract queue.  On it: what Reserve delivers and in which order, what settling does, that
    a lease excludes everybody else, and that the reserve script ends. *)

From stdpp Require Import base tactics numbers list strings gmap fin_maps.
From Stdlib Require Import ZArith Lia Ascii.
From S2P Require Import Prelude GoBytes JobsTypes JobsMemory JobsQueueIface Cache Redis JobsRedis JobsRedisInv JobsRedisScripts JobsRedisFacts.

Local Open Scope string_scope.
Local Open Scope list_scope.
Local Open Scope Z_scope.

Section Claims.
Context {D : Type} `{RL : RedisLaws D} (ns : string).
Context (mE : Envelope -> option string) (uE : string -> option Envelope).
Context (mF : Failure -> option string) (uF : string -> option Failure) `{HC : !Codec mE uE mF uF}.

Local Abbreviation abstracts := (abstracts ns uE mF).
Local Abbreviation queue_t := (RedisQueue D).
Local Abbreviation rapply := (rapply ns mE uE mF uF).
Local Abbreviation astep := (astep mE mF).

(** ** Runs *)

Definition rrun (ops : list rop) (q : queue_t) : queue_t := fold_left (fun q o => rapply o q) ops q.

Inductive asteps : list rop -> gmap (string * string) ajob -> gmap (string * string) ajob -> Prop :=
| asteps_nil jobs : asteps [] jobs jobs
| asteps_cons o ops jobs jobs' jobs'' : astep o jobs jobs' -> asteps ops jobs' jobs'' -> asteps (o :: ops) jobs jobs''.

(** A database in which nothing was ever written. *)
Definition blank (d : D) : Prop := forall k, strings d k = None /\ hashes d k = ∅ /\ zsets d k = ∅.

Lemma blank_abstracts d : blank d -> abstracts d ∅ 0.
Proof.
  intros Hb. assert (forall score name queue, zset_ok ∅ queue score name ∅) as Hz.
  { intros score name queue m s. rewrite lookup_empty. split; [done|]. intros (id & j & Hj & _). by rewrite lookup_empty in Hj. }
  split.
  - intros k. destruct (Hb k) as (E1 & E2 & E3). unfold well_kinded, isString, isHash, isZSet. by destruct (kindOf ns k).
  - split; [done|]. vm_compute. done.
  - intros queue id j Hj. by rewrite lookup_empty in Hj.
  - intros queue id _. rewrite lookup_empty. apply Hb.
  - intros queue _. destruct (Hb (k_pending (keys ns queue))) as (_ & _ & ->). apply Hz.
  - intros queue _. destruct (Hb (k_reserved (keys ns queue))) as (_ & _ & ->). apply Hz.
  - intros queue _. destruct (Hb (k_failed (keys ns queue))) as (_ & _ & ->). apply Hz.
  - intros queue _. exists 0. split; [right; split; [apply Hb | done]|]. split; [lia|]. intros id j Hj. by rewrite lookup_empty in Hj.
Qed.

Lemma sim_run ops : forall (q : queue_t) jobs n, abstracts (rdb q) jobs n -> n + Z.of_nat (length ops) < maxOps ->
  Forall rop_ok ops ->
  exists jobs', asteps ops jobs jobs' /\ abstracts (rdb (rrun ops q)) jobs' (n + Z.of_nat (length ops)).
Proof.
  induction ops as [|o ops IH]; intros q jobs n Ha Hn Hok; cbn [length] in *.
  - exists jobs. split; [constructor|]. by rewrite Z.add_0_r.
  - inversion Hok as [|? ? Ho Hok']; subst.
    destruct (sim_step ns mE uE mF uF o q jobs n Ha ltac:(lia) Ho) as (jobs1 & Hst & Ha1).
    destruct (IH (rapply o q) jobs1 (n + 1) Ha1 ltac:(lia) Hok') as (jobs2 & Hsts & Ha2).
    exists jobs2. split; [by econstructor|]. by replace (n + Z.of_nat (S (length ops))) with (n + 1 + Z.of_nat (length ops)) by lia.
Qed.

(** C4. The Redis queue implements the abstract queue: from a blank database, every sequence
    of calls, each answered, lost before it reached the server or lost after the script ran,
    is a run of the abstract queue whose jobs the database represents. *)
Theorem redis_refines ops (q : queue_t) : blank (rdb q) -> Z.of_nat (length ops) < maxOps -> Forall rop_ok ops ->
  exists jobs, asteps ops ∅ jobs /\ abstracts (rdb (rrun ops q)) jobs (Z.of_nat (length ops)).
Proof. intros Hb Hn Hok. by apply (sim_run ops q ∅ 0 (blank_abstracts _ Hb)). Qed.

(** C38. The loop of the reserve script ends: on every database whose keys have their types,
    also one with entries whose job is gone, the script returns a reply within as many turns
    as the two sets have members and one. *)
Theorem reserveScript_returns srv queue now deadline receipt (d : D) : typed ns d -> ValidName queue = true ->
  exists d' reply, reserveScript srv (k_pending (keys ns queue)) (k_reserved (keys ns queue)) now deadline receipt
    (k_jobPrefix (keys ns queue)) d = (d', Some reply).
Proof.
  intros Ht Hq. unfold reserveScript.
  pose proof (reserveLoop_ends ns srv queue now deadline receipt Hq
    (Z.to_nat (ZCARD (k_pending (keys ns queue)) d + ZCARD (k_reserved (keys ns queue)) d + 1)) d Ht) as He.
  rewrite !law_ZCARD in * by (apply (typed_zset ns); [done | by apply kind_pending || by apply kind_reserved]).
  destruct (reserveLoop _ _ _ _ _ _ _ _ d) as [d' [reply|]]; [by eexists _, _|]. exfalso. apply He; [lia | done].
Qed.

(** ** Reserving *)

(** Nothing in the queue is due at [now], nor on a lease that ran out. *)
Definition idle (jobs : gmap (string * string) ajob) (queue : string) (now : time) : Prop :=
  forall id j t, jobs !! (queue, id) = Some j -> readySince j = Some t -> UnixMilli now < t.

(** The delivery of the job [j], ready since [t], that was ready longest at [now]; jobs ready
    in the same millisecond go in the order they were queued. *)
Record delivered (jobs : gmap (string * string) ajob) (now : time) (queue receipt : string) (d : Delivery)
    (j : ajob) (t : Z) : Prop := {
  dl_queue : DQueue d = queue;
  dl_job : jobs !! DKey d = Some j;
  dl_ready : readySince j = Some t;
  dl_due : t <= UnixMilli now;
  dl_receipt : DReceipt d = receipt;
  dl_attempt : Attempt (DEnvelope d) = a_attempts j + 1;
  dl_expired : DLeaseExpired d = isLeased j;
  dl_since : DAvailableAt d = ofMilli t;
  dl_envelope : match UnmarshalEnvelope uE (a_env j) with
    | Ok env => DEnvelope d = setAttempt (a_attempts j + 1) env /\ DErr d = None
    | Err e => DErr d = Some e
    end;
  dl_first : forall id2 j2 t2, jobs !! (queue, id2) = Some j2 -> readySince j2 = Some t2 -> t2 <= UnixMilli now ->
    t < t2 \/ (t = t2 /\ a_no j <= a_no j2)
}.

Lemma zle_numbers d jobs n queue id j t id2 j2 t2 : abstracts d jobs n ->
  jobs !! (queue, id) = Some j -> jobs !! (queue, id2) = Some j2 ->
  zle (memberName id j, t) (memberName id2 j2, t2) -> t < t2 \/ (t = t2 /\ a_no j <= a_no j2).
Proof.
  intros Ha Hj Hj2 [Hlt|[Heq Hleb]]; cbn in *; [by left|]. right. split; [done|].
  pose proof (ab_ops _ _ _ _ _ _ Ha). pose proof (maxOps_small n ltac:(lia)).
  destruct (ab_valid _ _ _ _ _ _ Ha _ _ _ Hj) as [_ [Hb _ _ _ _ _]].
  destruct (ab_valid _ _ _ _ _ _ Ha _ _ _ Hj2) as [_ [Hb2 _ _ _ _ _]].
  eapply memberOf_order; [| | exact Hleb]; lia.
Qed.

Lemma deliver_delivered d jobs n now queue receipt id j t : abstracts d jobs n ->
  jobs !! (queue, id) = Some j -> readySince j = Some t -> t <= UnixMilli now ->
  (forall id2 j2 t2, jobs !! (queue, id2) = Some j2 -> readySince j2 = Some t2 -> t2 <= UnixMilli now ->
     zle (memberName id j, t) (memberName id2 j2, t2)) ->
  let dl := deliver uE queue receipt (mkReservedReply id (Some (a_env j)) (a_attempts j + 1) t (isLeased j)) in
  DKey dl = (queue, id) /\ delivered jobs now queue receipt dl j t.
Proof.
  intros Ha Hj Ht Hle Hfirst dl. destruct (ab_valid _ _ _ _ _ _ Ha _ _ _ Hj) as [_ Hf].
  assert (DKey dl = (queue, id)) as Hk.
  { subst dl. unfold deliver, UnmarshalEnvelope. cbn [default rr_env Datatypes.id].
    destruct (uE (a_env j)) as [e|] eqn:Eu; [|done]. destruct (Envelope_validate e); [done|].
    unfold DKey. cbn. by rewrite (jf_env _ _ _ _ _ Hf _ Eu). }
  split; [done|]. split; try done; try (by rewrite Hk);
    try (subst dl; unfold deliver; cbn [rr_env rr_id rr_attempts rr_expired rr_since default Datatypes.id]; by destruct (UnmarshalEnvelope uE (a_env j))).
  intros id2 j2 t2 Hj2 Ht2 Hle2. eapply zle_numbers; eauto.
Qed.

Lemma reserveFrom_exact srv queues lease jobs n : n + 1 < maxOps -> Forall (fun queue => ValidName queue = true) queues ->
  forall clk uuid (q : queue_t), abstracts (rdb q) jobs n -> (forall i, uuid i <> "") ->
  match reserveFrom ns uE Answered srv clk uuid queues lease q with
  | (q', Ok d) => exists i queue j t, nth_error queues i = Some queue /\ delivered jobs (clk i) queue (uuid i) d j t /\
      (forall i' queue', (i' < i)%nat -> nth_error queues i' = Some queue' -> idle jobs queue' (clk i')) /\
      abstracts (rdb q') (put (DKey d) (Some (leasedAs (uuid i) (UnixMilli (clk i + lease)) j)) jobs) (n + 1)
  | (q', Err e) => e = Sentinel ErrNoJob /\ rdb q' = rdb q /\
      forall i queue, nth_error queues i = Some queue -> idle jobs queue (clk i)
  end.
Proof.
  intros Hn Hv. induction Hv as [|queue queues Hq Hv IH]; intros clk uuid q Ha Hu; cbn [reserveFrom].
  { split; [done|]. split; [done|]. by intros []. }
  destruct (reserveScript_spec ns uE mF (rdb q) jobs n srv queue (UnixMilli (clk 0%nat)) (UnixMilli (Add (clk 0%nat) lease)) (uuid 0%nat))
    as (d' & reply & Hrun & Hres); [done | done | done | done|].
  cbn [eval]. rewrite Hrun. destruct reply as [r|].
  - destruct Hres as (j & t & Hj & Ht & Hle & -> & Ha' & Hfirst). cbn [rr_id] in *.
    destruct (deliver_delivered (rdb q) jobs n (clk 0%nat) queue (uuid 0%nat) (rr_id r) j t Ha Hj Ht Hle Hfirst) as [Hk Hd].
    exists 0%nat, queue, j, t. split; [done|]. split; [done|]. split; [intros i' ? Hi'; lia|]. by rewrite Hk.
  - destruct Hres as [-> Hidle].
    specialize (IH (fun i => clk (S i)) (fun i => uuid (S i)) (mkRedisQueue (rdb q) (rclosed q)) Ha (fun i => Hu (S i))).
    destruct (reserveFrom _ _ _ _ _ _ _ _ _) as [q' [d|e]].
    + destruct IH as (i & queue0 & j & t & Hi & Hd & Hbefore & Ha'). exists (S i), queue0, j, t.
      split; [done|]. split; [done|]. split; [|done]. intros [|i'] queue' Hi' Hq'; [|by apply (Hbefore i'); [lia|]].
      injection Hq' as <-. intros id j0 t0. apply Hidle.
    + destruct IH as (-> & Hdb & Hrest). split; [done|]. split; [done|].
      intros [|i'] queue' Hq'; [|by apply Hrest]. injection Hq' as <-. intros id j0 t0. apply Hidle.
Qed.

(** Reserve on Redis delivers the job that has been ready longest, in the order of pushing
    within a millisecond, from the first queue that has one, under a lease of the new
    receipt with one attempt counted, and fails with ErrNoJob only when every queue is idle.
    *)
Theorem rReserve_delivers_first srv clk uuid queues lease (q : queue_t) jobs n : abstracts (rdb q) jobs n -> n + 1 < maxOps ->
  (forall i, uuid i <> "") -> rclosed q = false -> 0 < lease -> first_invalid queues = None ->
  match rReserve ns uE Answered srv clk uuid queues lease q with
  | (q', Ok d) => exists i queue j t, nth_error queues i = Some queue /\ delivered jobs (clk i) queue (uuid i) d j t /\
      (forall i' queue', (i' < i)%nat -> nth_error queues i' = Some queue' -> idle jobs queue' (clk i')) /\
      abstracts (rdb q') (put (DKey d) (Some (leasedAs (uuid i) (UnixMilli (clk i + lease)) j)) jobs) (n + 1)
  | (q', Err e) => e = Sentinel ErrNoJob /\ rdb q' = rdb q /\
      forall i queue, nth_error queues i = Some queue -> idle jobs queue (clk i)
  end.
Proof.
  intros Ha Hn Hu Hc Hl Hv. unfold rReserve. rewrite Hc, Hv. destruct (lease <=? 0) eqn:E; [lia|].
  apply reserveFrom_exact; [done | by apply first_invalid_valid | done | done].
Qed.

(** ** Settling *)

Definition rsettle (srv now : time) (d : Delivery) (x : settlement) : queue_t -> queue_t * option error :=
  match x with
  | SAck => rAck ns Answered srv d
  | SRelease at_ => rRelease ns Answered now d at_
  | SPostpone at_ => rPostpone ns Answered now d at_
  | SBury f => rBury ns mF Answered srv now d f
  end.

(** What the abstract job is to the contract of the queues: times in whole milliseconds. *)
Definition statusOf (jo : option ajob) : status :=
  match jo with
  | None => Gone
  | Some j =>
      match a_state j with
      | AWaiting t => Waiting (a_attempts j) (ofMilli t)
      | ALeased r t => Leased (a_attempts j) r (ofMilli t)
      | ABuried f _ _ => Buried (a_attempts j) f
      end
  end.

Definition stamped (st : status) : status :=
  match st with Waiting a t => Waiting a (stamp t) | Leased a r t => Leased a r (stamp t) | st => st end.

Lemma settleCall_answered d (script : redisKeys -> D -> D * result luaError Z) (q : queue_t) d' :
  rclosed q = false -> DReceipt d <> "" -> ValidName (DQueue d) = true ->
  script (keys ns (DQueue d)) (rdb q) = (d', Ok 1) ->
  settleCall ns Answered d script q = (mkRedisQueue d' false, None).
Proof.
  intros Hc Hr Hq Hs. unfold settleCall. apply String.eqb_neq in Hr. rewrite Hr, Hq. cbn [orb negb eval]. by rewrite Hs, Hc.
Qed.

Lemma settleCall_lost d (script : redisKeys -> D -> D * result luaError Z) (q : queue_t) :
  (DReceipt d <> "" -> ValidName (DQueue d) = true -> script (keys ns (DQueue d)) (rdb q) = (rdb q, Ok 0)) ->
  settleCall ns Answered d script q = (q, Some (Wrapf (ID (DEnvelope d)) (Sentinel ErrLeaseLost))).
Proof.
  intros Hs. unfold settleCall. destruct (_ || _) eqn:E; [done|]. breflect. cbn [eval]. rewrite Hs by done. by destruct q.
Qed.

(** The failure can be written; encoding/json refuses years past 9999. *)
Definition marshals (now : time) (x : settlement) : Prop :=
  match x with SBury f => mF (if IsZero (FAt f) then setAt now f else f) <> None | _ => True end.

(** Settling on Redis by the holder of the lease succeeds and moves exactly that job as the
    settlement says, to the millisecond: gone, waiting with its attempt kept or given back,
    or failed. *)
Theorem rsettle_moves srv now d x (q : queue_t) jobs n j t : abstracts (rdb q) jobs n -> n + 1 < maxOps ->
  rclosed q = false -> jobs !! DKey d = Some j -> a_state j = ALeased (DReceipt d) t ->
  marshals now x ->
  exists q' jo, rsettle srv now d x q = (q', None) /\
    statusOf jo = stamped (settledTo now (a_attempts j) x) /\
    abstracts (rdb q') (put (DKey d) jo jobs) (n + 1).
Proof.
  intros Ha Hn Hc Hj Hs Hm. destruct (ab_valid _ _ _ _ _ _ Ha _ _ _ Hj) as [Hq Hf].
  pose proof (jf_receipt _ _ _ _ _ Hf _ _ Hs) as Hr.
  assert (forall at_ uncount, exists q' i, rrelease ns Answered now d at_ uncount q = (q', None) /\
    abstracts (rdb q') (put (DKey d) (Some (mkAJob i (a_env j)
      (if uncount && (0 <? a_attempts j) then a_attempts j - 1 else a_attempts j)
      (AWaiting (UnixMilli (clampAt at_ now))) (a_unique j))) jobs) (n + 1)) as Hrel.
  { intros at_ uncount.
    destruct (releaseScript_leased ns uE mF (rdb q) jobs n _ _ j (DReceipt d) t (UnixMilli (clampAt at_ now)) uncount Ha Hj Hs Hn)
      as (d' & i & Hrun & Ha'). exists (mkRedisQueue d' false), i. split; [|exact Ha']. unfold rrelease. rewrite Hc. by apply settleCall_answered. }
  destruct x as [|at_|at_|f]; cbn [rsettle settledTo].
  - destruct (ackScript_leased ns uE mF (rdb q) jobs n srv _ _ j (DReceipt d) t Ha Hj Hs Hn) as (d' & Hrun & Ha').
    exists (mkRedisQueue d' false), None. split; [|split; [done | exact Ha']]. unfold rAck. rewrite Hc. by apply settleCall_answered.
  - destruct (Hrel at_ false) as (q' & i & Hrun & Ha'). eexists q', (Some _). split; [done|]. split; [|exact Ha']; done.
  - destruct (Hrel at_ true) as (q' & i & Hrun & Ha'). eexists q', (Some _). split; [done|]. split; [|exact Ha']; done.
  - set (f' := if IsZero (FAt f) then setAt now f else f). cbn [marshals] in Hm. fold f' in Hm.
    destruct (mF f') as [s|] eqn:Hs'; [|done].
    destruct (buryScript_leased ns uE mF (rdb q) jobs n srv _ _ j (DReceipt d) t f' s (UnixMilli (FAt f')) Ha Hj Hs Hn Hs') as (d' & Hrun & Ha').
    eexists (mkRedisQueue d' false), (Some _). split; [|split; [|exact Ha']; done]. unfold rBury. rewrite Hc, Hq. fold f'. rewrite Hs'.
    apply String.eqb_neq in Hr as Hr'. rewrite Hr'. cbn [orb negb]. by apply settleCall_answered.
Qed.

(** Settling on Redis without the lease fails with ErrLeaseLost and changes nothing. *)
Theorem rsettle_lost srv now d x (q : queue_t) jobs n : abstracts (rdb q) jobs n ->
  rclosed q = false -> (forall j t, jobs !! DKey d = Some j -> a_state j <> ALeased (DReceipt d) t) ->
  marshals now x ->
  rsettle srv now d x q = (q, Some (Wrapf (ID (DEnvelope d)) (Sentinel ErrLeaseLost))).
Proof.
  intros Ha Hc Hlost Hm.
  assert (DReceipt d <> "" -> ValidName (DQueue d) = true ->
    JobsRedis.holds (jobKey ns (DQueue d) (ID (DEnvelope d))) (DReceipt d) (rdb q) = false) as Hh.
  { intros Hr Hq. destruct (leasedBy_dec ns uE mF d jobs n (rdb q) Ha Hq Hr) as [(j & Hj & t & Hs)|Hl]; [|done].
    by destruct (Hlost j t Hj). }
  unfold jobKey in Hh. destruct x as [|at_|at_|f]; cbn [rsettle].
  - unfold rAck. rewrite Hc. apply settleCall_lost. intros Hr Hq. unfold ackScript. by rewrite Hh.
  - unfold rRelease, rrelease. rewrite Hc. apply settleCall_lost. intros Hr Hq. unfold releaseScript. by rewrite Hh.
  - unfold rPostpone, rrelease. rewrite Hc. apply settleCall_lost. intros Hr Hq. unfold releaseScript. by rewrite Hh.
  - unfold rBury. rewrite Hc. destruct (_ || _) eqn:E; [done|]. cbn [marshals] in Hm. destruct (mF _) as [s|]; [|done].
    apply settleCall_lost. intros Hr Hq. unfold buryScript. by rewrite Hh.
Qed.

(** ** Leases *)

(** The delivery a call hands out. *)
Definition rdelivery (o : rop) (q : queue_t) : option Delivery :=
  match o with
  | ROReserve l srv clk uuid queues lease =>
      match (rReserve ns uE l srv clk uuid queues lease q).2 with Ok d => Some d | Err _ => None end
  | _ => None
  end.

Fixpoint deliveries (ops : list rop) (q : queue_t) : list Delivery :=
  match ops with
  | [] => []
  | o :: ops => option_list (rdelivery o q) ++ deliveries ops (rapply o q)
  end.

(** A call that comes before the deadline [t] and does not use the receipt [r] of the job [k]. *)
Definition spares (k : string * string) (r : string) (t : Z) (o : rop) : Prop :=
  match o with
  | ROReserve _ _ clk _ _ _ => forall i, UnixMilli (clk i) < t
  | ROAck _ _ d | RORelease _ _ d _ _ | ROExtend _ _ d _ | ROBury _ _ _ d _ => DKey d <> k \/ DReceipt d <> r
  | _ => True
  end.

Lemma put_other k jo jobs k' : k' <> k -> put k jo jobs !! k' = jobs !! k'.
Proof. intros Hne. by rewrite lookup_put, decide_False. Qed.

Lemma purged_other queue ids k : k ∉ ((queue,.) <$> ids) -> forall jobs,
  fold_left (fun jobs id => put (queue, id) None jobs) ids jobs !! k = jobs !! k.
Proof.
  induction ids as [|id ids IH]; intros Hk jobs; [done|]. cbn [fold_left]. rewrite fmap_cons in Hk.
  apply not_elem_of_cons in Hk as [Hne Hk]. rewrite IH by done. by apply put_other.
Qed.

Lemma astep_spares o jobs jobs' k j r t : astep o jobs jobs' -> spares k r t o -> jobs !! k = Some j ->
  a_state j = ALeased r t -> jobs' !! k = Some j.
Proof.
  intros Hst Hsp Hj Hs.
  assert (forall d j0, leasedBy d jobs j0 -> DKey d <> k \/ DReceipt d <> r -> k <> DKey d) as Hd.
  { intros d j0 [Hj0 [t0 Hs0]] Hor ->. rewrite Hj in Hj0. destruct Hor as [|Hr]; [done|]. simplify_eq. congruence. }
  assert (forall j0, failedScore j0 <> None -> j0 <> j) as Hfs by (intros j0 Hf0 ->; unfold failedScore in Hf0; by rewrite Hs in Hf0).
  destruct Hst as [| | | ? ? ? ? ? ? ? ? ? ? ? ? ? Hj0 Ht0 Hle| | | | | | |]; cbn [spares] in Hsp; [done|..];
    try (rewrite put_other; [done|]; eauto; intros ->; congruence).
  - rewrite put_other; [done|]. intros ->. assert (j0 = j) as -> by congruence. unfold readySince in Ht0.
    rewrite Hs in Ht0. injection Ht0 as ->. specialize (Hsp i). lia.
  - rewrite put_other; [done|]. intros ->. apply (Hfs j0); [done | congruence].
  - rewrite put_other; [done|]. intros ->. apply (Hfs j0); [done | congruence].
  - rewrite purged_other; [done|]. intros (id & -> & Hid)%list_elem_of_fmap.
    match goal with Hp : Forall _ ids |- _ => rewrite Forall_forall in Hp; destruct (Hp id Hid) as (j0 & Hj0 & Hf0) end.
    apply (Hfs j0); [done | congruence].
Qed.

(** A delivery comes of a call that was answered. *)
Lemma rdelivery_delivered o (q : queue_t) jobs n d : abstracts (rdb q) jobs n -> n + 1 < maxOps -> rop_ok o ->
  rdelivery o q = Some d ->
  exists l srv clk uuid queues lease i queue j t, o = ROReserve l srv clk uuid queues lease /\
    delivered jobs (clk i) queue (uuid i) d j t.
Proof.
  intros Ha Hn Hok Hd. destruct o as [| |l srv clk uuid queues lease| | | | | | | | | | | |]; try done. cbn [rdelivery] in Hd.
  unfold rReserve in Hd. destruct (rclosed q); [done|]. destruct (lease <=? 0); [done|].
  destruct (first_invalid queues) eqn:Ef; [done|]. apply first_invalid_valid in Ef. destruct l.
  - pose proof (reserveFrom_exact srv queues lease jobs n Hn Ef clk uuid q Ha Hok) as Hex.
    destruct (reserveFrom _ _ _ _ _ _ _ _ _) as [q' [d'|e]]; [|done]. injection Hd as ->.
    destruct Hex as (i & queue & j & t & _ & Hdel & _). by exists Answered, srv, clk, uuid, queues, lease, i, queue, j, t.
  - by destruct queues.
  - by destruct queues.
Qed.

(** C21. A lease on Redis excludes other deliveries: while it lasts, calls that do not use
    it, whatever becomes of each, leave the job leased as it is, and none of them delivers
    it. *)
Theorem redis_lease_exclusive ops : forall (q : queue_t) jobs n k j r t, abstracts (rdb q) jobs n ->
  jobs !! k = Some j -> a_state j = ALeased r t -> n + Z.of_nat (length ops) < maxOps ->
  Forall rop_ok ops -> Forall (spares k r t) ops ->
  (exists jobs', abstracts (rdb (rrun ops q)) jobs' (n + Z.of_nat (length ops)) /\ jobs' !! k = Some j) /\
  Forall (fun d => DKey d <> k) (deliveries ops q).
Proof.
  induction ops as [|o ops IH]; intros q jobs n k j r t Ha Hj Hs Hn Hok Hsp; cbn [length] in *.
  { split; [|constructor]. exists jobs. by rewrite Z.add_0_r. }
  inversion Hok as [|? ? Ho Hok']; inversion Hsp as [|? ? Hso Hsp']; subst.
  destruct (sim_step ns mE uE mF uF o q jobs n Ha ltac:(lia) Ho) as (jobs1 & Hst & Ha1).
  pose proof (astep_spares _ _ _ _ _ _ _ Hst Hso Hj Hs) as Hj1.
  destruct (IH (rapply o q) jobs1 (n + 1) k j r t Ha1 Hj1 Hs ltac:(lia) Hok' Hsp') as [Hrun Hdel].
  replace (n + Z.of_nat (S (length ops))) with (n + 1 + Z.of_nat (length ops)) by lia.
  split; [exact Hrun|]. cbn [deliveries]. apply Forall_app. split; [|exact Hdel].
  destruct (rdelivery o q) as [d|] eqn:Ed; cbn; [|constructor]. constructor; [|constructor]. intros Hk.
  destruct (rdelivery_delivered o q jobs n d Ha ltac:(lia) Ho Ed) as (l & srv & clk & uuid & queues & lease & i & queue & j0 & t0 & -> & Hdl).
  destruct Hdl as [_ Hj0 Ht0 Hle _ _ _ _ _ _]. rewrite Hk in Hj0. assert (j0 = j) as -> by congruence.
  unfold readySince in Ht0. rewrite Hs in Ht0. injection Ht0 as ->. specialize (Hso i). lia.
Qed.

(** What the hash of a leased job says of it. *)
Lemma leased_in_db (d : D) jobs n queue id r : abstracts d jobs n -> ValidName queue = true ->
  hashes d (jobKey ns queue id) !! "receipt" = Some r -> r <> "" ->
  exists j t, jobs !! (queue, id) = Some j /\ a_state j = ALeased r t /\
    zsets d (k_reserved (keys ns queue)) !! memberName id j = Some t.
Proof.
  intros Ha Hq Hrec Hr. pose proof (ab_hash _ _ _ _ _ _ Ha queue id Hq) as Hh.
  destruct (jobs !! (queue, id)) as [j|] eqn:Hj; [|by rewrite Hh, lookup_empty in Hrec].
  rewrite (ho_receipt _ _ _ _ _ Hh) in Hrec. destruct (a_state j) as [t|r' t|f data t] eqn:Es; cbn in Hrec; simplify_eq.
  exists j, t. split; [done|]. split; [done|]. apply (ab_reserved _ _ _ _ _ _ Ha queue Hq). exists id, j.
  unfold reservedScore. by rewrite Es.
Qed.
End Claims.

(** ** A worked example *)

Module Sample.
Definition env : Envelope := mkEnvelope "a" "mail" 1 "{}" ∅ 5 0.
Definition marshalEnvelope (e : Envelope) : option string :=
  match e with
  | mkEnvelope id name v p m at_ n =>
      if String.eqb id "a" && String.eqb name "mail" && (v =? 1) && String.eqb p "{}" && bool_decide (m = ∅) && (at_ =? 5) && (n =? 0)
      then Some "env" else None
  end.
Definition unmarshalEnvelope (s : string) : option Envelope := if String.eqb s "env" then Some env else None.
Definition boom : Failure := mkFailure ReasonExhausted KindHandler (Text "boom") (epoch + 3 * Minute).
Definition marshalFailure (f : Failure) : option string :=
  match f with
  | mkFailure ReasonExhausted KindHandler (Text t) at_ => if String.eqb t "boom" && (at_ =? epoch + 3 * Minute) then Some "boom" else None
  | _ => None
  end.
Definition unmarshalFailure (s : string) : option Failure := if String.eqb s "boom" then Some boom else None.

#[export] Instance codec : Codec marshalEnvelope unmarshalEnvelope marshalFailure unmarshalFailure.
Proof.
  split.
  - intros [id name v p m at_ n] s. unfold marshalEnvelope. destruct (_ && _) eqn:E; [|done]. intros [= <-].
    rewrite !andb_true_iff, bool_decide_eq_true in E. destruct E as ((((((E1 & E2) & E3) & E4) & ->) & E6) & E7).
    apply String.eqb_eq in E1, E2, E4. breflect. by subst.
  - intros [r k e at_] s. cbn. repeat case_match; try done. intros [= <-]. breflect. by subst.
Qed.
End Sample.

Section Example.
Import Sample.

Local Abbreviation run := (rrun "app" marshalEnvelope unmarshalEnvelope marshalFailure unmarshalFailure).

Definition q0 : RedisQueue tables := mkRedisQueue emptyTables false.
Definition opPush : rop := ROPush Answered epoch (epoch + Second) "mail" env 0.
Definition opReserve : rop :=
  ROReserve Answered epoch (fun _ => epoch + Minute) (fun _ => "r1") ["other"; "mail"] Minute.
Definition held : Delivery := mkDelivery "mail" (setAttempt 1 env) "r1" false (epoch + Second) None.

Lemma q0_blank : blank (rdb q0).
Proof. done. Qed.

Lemma redis_refines_witness : exists jobs,
  asteps marshalEnvelope marshalFailure [opPush; opReserve; ROAck AnswerLost epoch held] ∅ jobs /\
  abstracts "app" unmarshalEnvelope marshalFailure (rdb (run [opPush; opReserve; ROAck AnswerLost epoch held] q0)) jobs 3.
Proof.
  apply (redis_refines "app" marshalEnvelope unmarshalEnvelope marshalFailure unmarshalFailure
    [opPush; opReserve; ROAck AnswerLost epoch held] q0 q0_blank); [done|].
  repeat constructor. intros i. done.
Defined.

(** A member whose job is gone is dropped on the way. *)
Lemma reserveScript_returns_witness :
  let k := keys "app" "mail" in
  let d := ZADD (k_pending k) 0 (memberOf 1 "gone") (ZADD (k_reserved k) 5 (memberOf 2 "lost") emptyTables) in
  exists d' reply, reserveScript epoch (k_pending k) (k_reserved k) 10 20 "r1" (k_jobPrefix k) d = (d', Some reply).
Proof.
  intros k d. apply (reserveScript_returns "app"); [|done].
  apply (do_ZADD "app"); [|done]. apply (do_ZADD "app"); [|done]. apply (blank_abstracts "app" unmarshalEnvelope marshalFailure _ q0_blank).
Defined.

Lemma pushed_abstracts : exists jobs, abstracts "app" unmarshalEnvelope marshalFailure (rdb (run [opPush] q0)) jobs 1.
Proof.
  destruct (sim_run "app" marshalEnvelope unmarshalEnvelope marshalFailure unmarshalFailure [opPush] q0 ∅ 0) as (jobs & _ & Ha);
    [by apply blank_abstracts | done | by repeat constructor | by exists jobs].
Qed.

Lemma leased_abstracts : exists jobs j,
  abstracts "app" unmarshalEnvelope marshalFailure (rdb (run [opPush; opReserve] q0)) jobs 2 /\
  jobs !! ("mail", "a") = Some j /\ a_state j = ALeased "r1" (2 * 60 * 1000).
Proof.
  destruct (sim_run "app" marshalEnvelope unmarshalEnvelope marshalFailure unmarshalFailure [opPush; opReserve] q0 ∅ 0) as (jobs & _ & Ha);
    [by apply blank_abstracts | done | by repeat constructor; intros i|].
  destruct (leased_in_db "app" unmarshalEnvelope marshalFailure _ jobs _ "mail" "a" "r1" Ha) as (j & t & Hj & Hs & Hz);
    [done | by vm_compute | done|].
  assert (zsets (rdb (run [opPush; opReserve] q0)) (k_reserved (keys "app" "mail")) = {[memberOf 1 "a" := 2 * 60 * 1000]}) as Ez
    by (vm_compute; reflexivity).
  rewrite Ez in Hz. apply lookup_singleton_Some in Hz as [_ <-].
  exists jobs, j. split; [exact Ha|]. split; [exact Hj | exact Hs].
Qed.

Lemma rReserve_delivers_first_witness :
  (rReserve "app" unmarshalEnvelope Answered epoch (fun _ => epoch + Minute) (fun _ => "r1") ["other"; "mail"] Minute (run [opPush] q0)).2 =
    Ok held /\
  exists jobs i queue j t, nth_error ["other"; "mail"] i = Some queue /\
    delivered unmarshalEnvelope jobs (epoch + Minute) queue "r1" held j t.
Proof.
  assert ((rReserve "app" unmarshalEnvelope Answered epoch (fun _ => epoch + Minute) (fun _ => "r1") ["other"; "mail"] Minute (run [opPush] q0)).2 =
    Ok held) as E by (vm_compute; reflexivity). split; [exact E|].
  destruct pushed_abstracts as (jobs & Ha). exists jobs.
  pose proof (rReserve_delivers_first "app" unmarshalEnvelope marshalFailure epoch (fun _ => epoch + Minute) (fun _ => "r1")
    ["other"; "mail"] Minute (run [opPush] q0) jobs 1 Ha ltac:(done) ltac:(done) ltac:(done) ltac:(done) ltac:(done)) as Hr.
  destruct (rReserve _ _ _ _ _ _ _ _ _) as [q' r]. cbn [snd] in E. subst r.
  destruct Hr as (i & queue & j & t & Hi & Hd & _). by exists i, queue, j, t.
Defined.

Lemma rsettle_moves_witness : exists jobs q' jo,
  rsettle "app" marshalFailure epoch (epoch + 2 * Minute) held (SBury boom) (run [opPush; opReserve] q0) = (q', None) /\
  statusOf jo = Buried 1 boom /\ abstracts "app" unmarshalEnvelope marshalFailure (rdb q') (put ("mail", "a") jo jobs) 3.
Proof.
  destruct leased_abstracts as (jobs & j & Ha & Hj & Hs). exists jobs.
  destruct (rsettle_moves "app" unmarshalEnvelope marshalFailure epoch (epoch + 2 * Minute) held (SBury boom)
    (run [opPush; opReserve] q0) jobs 2 j (2 * 60 * 1000) Ha ltac:(done) ltac:(done) Hj Hs ltac:(done)) as (q' & jo & Hrun & Hst & Ha').
  exists q', jo. split; [exact Hrun|]. split; [|exact Ha'].
  pose proof (ab_hash _ _ _ _ _ _ Ha "mail" "a" eq_refl) as Hh. rewrite Hj in Hh. pose proof (ho_attempts _ _ _ _ _ Hh) as Hat.
  assert (hashes (rdb (run [opPush; opReserve] q0)) (jobKey "app" "mail" "a") !! "attempts" = Some (encodeInt 1)) as E by (vm_compute; reflexivity).
  destruct (ab_valid _ _ _ _ _ _ Ha _ _ _ Hj) as [_ [_ Hb _ _ _ _]].
  rewrite E in Hat. injection Hat as Hat. apply (f_equal decodeInt) in Hat.
  rewrite (decodeInt_encodeInt (a_attempts j)) in Hat by (unfold in_int64, min_int64, max_int64; lia).
  rewrite (decodeInt_encodeInt 1) in Hat by (unfold in_int64, min_int64, max_int64; lia).
  injection Hat as Hat. rewrite Hst, <- Hat. reflexivity.
Defined.

Lemma rsettle_lost_witness :
  rsettle "app" marshalFailure epoch (epoch + 2 * Minute) held SAck (run [opPush] q0) =
    (run [opPush] q0, Some (Wrapf "a" (Sentinel ErrLeaseLost))).
Proof.
  destruct pushed_abstracts as (jobs & Ha).
  apply (rsettle_lost "app" unmarshalEnvelope marshalFailure epoch (epoch + 2 * Minute) held SAck (run [opPush] q0) jobs 1);
    [exact Ha | done | | done].
  intros j t Hj Hs. pose proof (ab_hash _ _ _ _ _ _ Ha "mail" "a" eq_refl) as Hh. change (DKey held) with ("mail", "a") in Hj.
  rewrite Hj in Hh. pose proof (ho_receipt _ _ _ _ _ Hh) as Hr. rewrite Hs in Hr.
  assert (hashes (rdb (run [opPush] q0)) (jobKey "app" "mail" "a") !! "receipt" = Some "") as E by (vm_compute; reflexivity).
  rewrite E in Hr. cbn in Hr. discriminate Hr.
Defined.

(** Somebody else reserves, extends with an old receipt, and purges: the lease stands. *)
Definition others : list rop :=
  [ROReserve Answered epoch (fun _ => epoch + Minute + Second) (fun _ => "r2") ["mail"] Minute;
   ROExtend Answered epoch (mkDelivery "mail" (setAttempt 1 env) "r0" false 0 None) Minute;
   ROPurgeBatch Answered "mail" 0].

Lemma redis_lease_exclusive_witness : exists (jobs : gmap (string * string) ajob) j jobs', jobs !! ("mail", "a") = Some j /\
  abstracts "app" unmarshalEnvelope marshalFailure (rdb (run others (run [opPush; opReserve] q0))) jobs' 5 /\
  jobs' !! ("mail", "a") = Some j /\
  Forall (fun d => DKey d <> ("mail", "a"))
    (deliveries "app" marshalEnvelope unmarshalEnvelope marshalFailure unmarshalFailure others (run [opPush; opReserve] q0)).
Proof.
  destruct leased_abstracts as (jobs & j & Ha & Hj & Hs).
  destruct (redis_lease_exclusive "app" marshalEnvelope unmarshalEnvelope marshalFailure unmarshalFailure others
    (run [opPush; opReserve] q0) jobs 2 ("mail", "a") j "r1" (2 * 60 * 1000) Ha Hj Hs) as [(jobs' & Ha' & Hj') Hd].
  - done.
  - repeat constructor. intros i. done.
  - constructor; [intros i; done|]. constructor; [by right|]. by constructor.
  - exists jobs, j, jobs'. split; [exact Hj|]. split; [exact Ha'|]. split; [exact Hj' | exact Hd].
Defined.
End Example.
