(* ===== verification/Float64.v ===== *)
(** * Go's float64

    A float64 operation is the exact operation on rationals followed by a rounding.  The
    rounding is an argument [rnd]; [Rounding] says what IEEE 754 (round to nearest, which the
    Go specification requires) promises of it that the code relies on: it is monotone, and
    exact on the numbers of at most 53 significant bits.  Infinities and NaN are outside the
    model: every value computed here is far below the largest float64. *)

From stdpp Require Import base tactics.
From Stdlib Require Import ZArith Lia QArith Qround Lqa.

Local Open Scope Q_scope.

Class Rounding (rnd : Q -> Q) : Prop := {
  rnd_proper x y : x == y -> rnd x == rnd y;
  rnd_mono x y : x <= y -> rnd x <= rnd y;
  rnd_exact (m : Z) (k : positive) : (Z.abs m <= 2 ^ 53)%Z -> (Zpos k <= 1022)%Z ->
    rnd (m # (2 ^ k)) == m # (2 ^ k)
}.

(** The conversion [float64(n)] of an integer and [int(x)] of a float. *)
Definition float64 (rnd : Q -> Q) (n : Z) : Q := rnd (inject_Z n).

Definition trunc (x : Q) : Z := if Qle_bool 0 x then Qfloor x else Qceiling x.

Section Laws.
Context (rnd : Q -> Q) `{Rounding rnd}.

Lemma rnd_int n : (Z.abs n <= 2 ^ 52)%Z -> rnd (inject_Z n) == inject_Z n.
Proof.
  intros Hn. rewrite (rnd_proper (inject_Z n) ((2 * n) # (2 ^ 1))).
  - rewrite (rnd_exact (2 * n) 1) by lia. unfold Qeq, inject_Z, Qnum, Qden.
    change (Zpos (2 ^ 1)) with 2%Z. lia.
  - unfold Qeq, inject_Z, Qnum, Qden. change (Zpos (2 ^ 1)) with 2%Z. lia.
Qed.

Lemma rnd_le_int x n : (Z.abs n <= 2 ^ 52)%Z -> x <= inject_Z n -> rnd x <= inject_Z n.
Proof. intros Hn Hx. rewrite <- (rnd_int n Hn). by apply rnd_mono. Qed.

Lemma rnd_ge_int x n : (Z.abs n <= 2 ^ 52)%Z -> inject_Z n <= x -> inject_Z n <= rnd x.
Proof. intros Hn Hx. rewrite <- (rnd_int n Hn). by apply rnd_mono. Qed.

Lemma rnd_nonneg x : 0 <= x -> 0 <= rnd x.
Proof. intros Hx. by apply (rnd_ge_int x 0). Qed.
End Laws.

(** The identity rounds exactly: the laws can hold. *)
#[export] Instance id_Rounding : Rounding (fun x => x).
Proof. split; [done | done | reflexivity]. Qed.

(** A positive truncation is a lower bound. *)
Lemma trunc_ge x n : (0 < n)%Z -> (n <= trunc x)%Z -> inject_Z n <= x.
Proof.
  unfold trunc. intros Hn. destruct (Qle_bool 0 x) eqn:E.
  - intros Hx. apply Qle_trans with (inject_Z (Qfloor x)); [by rewrite <- Zle_Qle | apply Qfloor_le].
  - intros Hx. assert (x <= 0) as Hneg.
    { apply Qlt_le_weak, Qnot_le_lt. rewrite <- Qle_bool_iff. congruence. }
    apply Qceiling_resp_le in Hneg. change (Qceiling 0) with 0%Z in Hneg. lia.
Qed.
