(* ===== verification/Throttle.v ===== *)
(** * auth/throttle.go: limits on the credential endpoints

    An attempt is a program: a sequence of clock readings, cache calls and log lines, between
    which other attempts run.  [prog] keeps that sequence, one constructor per call, so that
    the code below reads like the source and every interleaving can be stepped through
    ([advance] performs one call).  The cache is any [CacheOps]; the digest of a subject, the
    parsing of addresses and the lowering of emails are arguments, and so is the rounding of
    float64 (no product is fused with a sum, as on amd64). *)

From stdpp Require Import base tactics numbers list strings gmap fin_maps.
From Stdlib Require Import ZArith Lia Ascii QArith.
From S2P Require Import Prelude GoBytes Float64 Cache CacheNamespace.

Local Open Scope string_scope.
Local Open Scope list_scope.
Local Open Scope Z_scope.

(** ** Programs *)

Inductive prog (A : Type) : Type :=
| Ret (a : A)
| Now (k : time -> prog A)
| DoGet (key : string) (k : result cacheError (option string) -> prog A)
| DoSet (key : string) (p : option string) (ttl : duration) (k : option cacheError -> prog A)
| DoDelete (keys : list string) (k : option cacheError -> prog A)
| DoIncrementTTL (key : string) (delta : Z) (ttl : duration) (k : result cacheError Z -> prog A)
| DoDecrementExisting (key : string) (delta : Z) (k : Z * bool * option cacheError -> prog A)
| Warn (e : cacheError) (k : prog A)
| LogRefusal (rule : string) (k : prog A).
Arguments Ret {A} a.
Arguments Now {A} k.
Arguments DoGet {A} key k.
Arguments DoSet {A} key p ttl k.
Arguments DoDelete {A} keys k.
Arguments DoIncrementTTL {A} key delta ttl k.
Arguments DoDecrementExisting {A} key delta k.
Arguments Warn {A} e k.
Arguments LogRefusal {A} rule k.

Fixpoint pbind {A B} (p : prog A) (f : A -> prog B) : prog B :=
  match p with
  | Ret a => f a
  | Now k => Now (fun r => pbind (k r) f)
  | DoGet key k => DoGet key (fun r => pbind (k r) f)
  | DoSet key p ttl k => DoSet key p ttl (fun r => pbind (k r) f)
  | DoDelete keys k => DoDelete keys (fun r => pbind (k r) f)
  | DoIncrementTTL key delta ttl k => DoIncrementTTL key delta ttl (fun r => pbind (k r) f)
  | DoDecrementExisting key delta k => DoDecrementExisting key delta (fun r => pbind (k r) f)
  | Warn e k => Warn e (pbind k f)
  | LogRefusal rule k => LogRefusal rule (pbind k f)
  end.

Notation "'do' x <- p ; q" := (pbind p (fun x => q))
  (at level 10, x name, p at level 100, q at level 200) : gombit_scope.
Local Open Scope gombit_scope.

(** ** Rules *)

Record ThrottleLimit : Type := mkLimit { Limit : Z; Window : duration }.

Definition on (l : ThrottleLimit) : bool := (0 <? Limit l) && (0 <? Window l).

Record ThrottlePolicy : Type := mkPolicy {
  LoginPerAccountAddress : ThrottleLimit;
  LoginPerAddress : ThrottleLimit;
  LoginPerAccount : ThrottleLimit;
  KnownClientTTL : duration;
  RegisterPerAddress : ThrottleLimit;
  PasswordResetPerAddress : ThrottleLimit;
  TokenPerAddress : ThrottleLimit;
  CurrentPasswordPerUser : ThrottleLimit;
  VerificationPerUser : ThrottleLimit
}.

Definition DefaultThrottlePolicy : ThrottlePolicy := mkPolicy
  (mkLimit 5 (15 * Minute)) (mkLimit 100 (15 * Minute)) (mkLimit 100 Hour) (30 * 24 * Hour)
  (mkLimit 20 Hour) (mkLimit 20 (15 * Minute)) (mkLimit 30 (15 * Minute))
  (mkLimit 5 (15 * Minute)) (mkLimit 10 Hour).

Record ThrottleError : Type := mkThrottleError { Rule : string; RetryAfter : duration }.

Record throttleRule : Type := mkRule { name : string; limit : ThrottleLimit; subject : string }.

Record reservedKey : Type := mkReserved { rule : string; key : string; ttl : duration }.

(** ** The sliding window *)

(** [Duration.Round] *)
Definition Round (d m : duration) : duration :=
  if m <=? 0 then d
  else
    let r := Z.rem d m in
    if d <? 0 then
      if - r + - r <? m then d + - r
      else if wrap_int64 (d - m + - r) <? d then wrap_int64 (d - m + - r) else min_int64
    else if r + r <? m then d - r
    else if d <? wrap_int64 (d + m - r) then wrap_int64 (d + m - r) else max_int64.

(** The zero time to the Unix epoch, in seconds; [time.UnixNano]. *)
Definition unixEpoch : Z := 62135596800.
Definition Unix (t : time) : Z := t / Second - unixEpoch.
Definition UnixNano (t : time) : Z := wrap_int64 (t - unixEpoch * Second).

Section Throttle.
Variable rnd : Q -> Q.
(** Half of SHA-256, in hexadecimal. *)
Variable digest : string -> string.

Local Abbreviation float64 := (float64 rnd).

(** [throttleWait] *)
Definition throttleWait (previous current limit elapsed : Q) (window : duration) : duration :=
  let at_ := if Qle_bool (rnd (current + 1)) limit
             then rnd (1 - rnd (rnd (rnd (limit - current) - 1) / previous))
             else rnd (2 - rnd (rnd (limit - 1) / current)) in
  let wait := trunc (rnd (rnd (at_ - elapsed) * float64 window)) in
  Z.max (Round wait Second) Second.

Record slidingWindow : Type := mkWindow { wlimit : ThrottleLimit; current : Z; previous : Z; elapsed : Q }.

(** [slidingWindow.wait] *)
Definition wait (w : slidingWindow) (count : Z) : duration :=
  let previous := float64 (Z.max (previous w) 0) in
  let limit := float64 (Limit (wlimit w)) in
  if Qle_bool (rnd (rnd (previous * rnd (1 - elapsed w)) + float64 count)) limit then 0
  else throttleWait previous (float64 (wrap_int64 (count - 1))) limit (elapsed w) (Window (wlimit w)).

(** [throttleKeyBase]; the byte 0 parts the name from the subject. *)
Definition nul : string := String (ascii_of_nat 0) EmptyString.

Definition throttleKeyBase (r : throttleRule) : string :=
  "auth:throttle:" ++ name r ++ ":" ++ digest (name r ++ nul ++ subject r) ++ ":".

(** [buckets] at an instant: the current key, the previous one, what of the window passed. *)
Definition buckets (r : throttleRule) (now : time) : string * string * Q :=
  let window := Window (limit r) in
  let index := Z.quot (UnixNano now) window in
  let base := throttleKeyBase r in
  ((base ++ encodeInt index)%string, (base ++ encodeInt (wrap_int64 (index - 1)))%string,
   rnd (float64 (wrap_int64 (UnixNano now - wrap_int64 (index * window))) / float64 window)).

(** ** Counting *)

(** What [Get] into an int64 leaves in it: zero when nothing is found, or a JSON null. *)
Definition counterOf (r : result cacheError (option string)) : result cacheError Z :=
  match r with
  | Err e => Err e
  | Ok None => Ok 0
  | Ok (Some p) => match decodeInt p with Ok (Some z) => Ok z | Ok None => Ok 0 | Err e => Err e end
  end.

(** [read] *)
Definition read (r : throttleRule) : prog (result cacheError slidingWindow) :=
  Now (fun now =>
    let '(currentKey, previousKey, elapsed) := buckets r now in
    DoGet currentKey (fun c =>
      match counterOf c with
      | Err e => Ret (Err e)
      | Ok current =>
          DoGet previousKey (fun p =>
            match counterOf p with
            | Err e => Ret (Err e)
            | Ok previous => Ret (Ok (mkWindow (limit r) current previous elapsed))
            end)
      end)).

(** [refundKey] *)
Definition refundKey (k : reservedKey) : prog unit :=
  DoDecrementExisting (key k) 1 (fun '(_, _, err) =>
    match err with Some e => Warn e (Ret tt) | None => Ret tt end).

(** [take]: the place and the wait. *)
Definition take (r : throttleRule) (previous : Z) : prog (result cacheError (reservedKey * duration)) :=
  Now (fun now =>
    let '(currentKey, _, elapsed) := buckets r now in
    let place := mkReserved (name r) currentKey (wrap_int64 (2 * Window (limit r))) in
    DoIncrementTTL currentKey 1 (ttl place) (fun c =>
      match c with
      | Err e => Ret (Err e)
      | Ok count =>
          let count := Z.max count 1 in
          let w := wait (mkWindow (limit r) 0 previous elapsed) count in
          if 0 <? w then do _ <- refundKey place; Ret (Ok (place, w))
          else Ret (Ok (place, 0))
      end)).

(** [refuse] *)
Definition refuse (r : throttleRule) (wait : duration) : prog ThrottleError :=
  LogRefusal (name r) (Ret (mkThrottleError (name r) wait)).

(** The loop of [refundExcept]; [refund] is [refundExcept ""]. *)
Fixpoint refundExcept (except : string) (keys : list reservedKey) : prog unit :=
  match keys with
  | [] => Ret tt
  | k :: keys =>
      if String.eqb (rule k) except then refundExcept except keys
      else do _ <- refundKey k; refundExcept except keys
  end.

Definition refund (keys : list reservedKey) : prog unit := refundExcept "" keys.

(** The first loop of [reserve]: the previous counts, or the refusal. *)
Fixpoint readAll (active : list throttleRule) : prog (result ThrottleError (list Z)) :=
  match active with
  | [] => Ret (Ok [])
  | r :: active =>
      do window <- read r;
      match window with
      | Err e =>
          Warn e (do rest <- readAll active;
                  Ret (match rest with Ok l => Ok (0 :: l) | Err e => Err e end))
      | Ok w =>
          let d := wait w (wrap_int64 (current w + 1)) in
          if 0 <? d then do e <- refuse r d; Ret (Err e)
          else do rest <- readAll active;
               Ret (match rest with Ok l => Ok (previous w :: l) | Err e => Err e end)
      end
  end.

(** The second loop: the places taken so far are [keys]. *)
Fixpoint takeAll (active : list (throttleRule * Z)) (keys : list reservedKey) :
    prog (result ThrottleError (list reservedKey)) :=
  match active with
  | [] => Ret (Ok keys)
  | (r, previous) :: active =>
      do taken <- take r previous;
      match taken with
      | Err e => Warn e (takeAll active keys)
      | Ok (place, d) =>
          if 0 <? d then do _ <- refund keys; do e <- refuse r d; Ret (Err e)
          else takeAll active (keys ++ [place])
      end
  end.

Definition active (r : throttleRule) : bool := on (limit r) && negb (String.eqb (subject r) "").

(** [reserve]; a reservation is its keys. *)
Definition reserve (disabled : bool) (rules : list throttleRule) :
    prog (result ThrottleError (list reservedKey)) :=
  if disabled then Ret (Ok [])
  else
    let rules := List.filter active rules in
    do previous <- readAll rules;
    match previous with
    | Err e => Ret (Err e)
    | Ok previous => takeAll (zip rules previous) []
    end.

(** [clear] *)
Definition clear (disabled : bool) (r : throttleRule) : prog unit :=
  if disabled || negb (active r) then Ret tt
  else Now (fun now =>
    let '(current, previous, _) := buckets r now in
    DoDelete [current; previous] (fun err =>
      match err with Some e => Warn e (Ret tt) | None => Ret tt end)).

(** ** Known clients *)

Definition knownKey (pair : throttleRule) : string :=
  throttleKeyBase (mkRule "KnownClient" (mkLimit 0 0) (subject pair)) ++ "known".

(** What [Get] into a bool leaves in it. *)
Definition decodeBool (p : string) : result cacheError bool :=
  let s := to_string (trim_right json_space (trim_left json_space (of_string p))) in
  if String.eqb s "true" then Ok true
  else if String.eqb s "false" || String.eqb s "null" then Ok false
  else Err UnmarshalErr.

Definition knowable (disabled : bool) (policy : ThrottlePolicy) (pair : throttleRule) : bool :=
  negb (disabled || (KnownClientTTL policy <=? 0) || String.eqb (subject pair) "").

(** [known] *)
Definition known (disabled : bool) (policy : ThrottlePolicy) (pair : throttleRule) : prog bool :=
  if negb (knowable disabled policy pair) then Ret false
  else DoGet (knownKey pair) (fun r =>
    match r with
    | Err e => Warn e (Ret false)
    | Ok None => Ret false
    | Ok (Some p) => match decodeBool p with Ok mark => Ret mark | Err e => Warn e (Ret false) end
    end).

(** [markKnown] *)
Definition markKnown (disabled : bool) (policy : ThrottlePolicy) (pair : throttleRule) : prog unit :=
  if negb (knowable disabled policy pair) then Ret tt
  else DoSet (knownKey pair) (Some "true") (KnownClientTTL policy) (fun err =>
    match err with Some e => Warn e (Ret tt) | None => Ret tt end).

(** ** The rules of the endpoints *)

Section Rules.
Variable policy : ThrottlePolicy.
Variable disabled : bool.

(** net/netip: parsing, and what [addressSubject] asks of an address without its IPv4 mapping. *)
Variable Addr : Type.
Variable ParseAddr : string -> option Addr.
Variable Unmap : Addr -> Addr.
Variable Is4 : Addr -> bool.
Variable AddrString : Addr -> string.
Variable Prefix64 : Addr -> option string.      (* addr.WithZone("").Prefix(64), printed *)

Variable ToLower : string -> string.

(** [addressSubject] *)
Definition addressSubject (ip : string) : string :=
  match ParseAddr ip with
  | None => ip
  | Some addr =>
      let addr := Unmap addr in
      if Is4 addr then AddrString addr
      else match Prefix64 addr with Some prefix => prefix | None => ip end
  end.

(** [requestAddress]; a call outside a request has no request info. *)
Definition requestAddress (ip : option string) : string :=
  match ip with Some ip => addressSubject ip | None => "" end.

(** [userSubject] of a uint *)
Definition userSubject (id : Z) : string := "user:" ++ encodeInt id.

(** [normalizeEmail] *)
Definition normalizeEmail (email : string) : string :=
  ToLower (to_string (TrimSpace (of_string email))).

(** [accountLoginRule] *)
Definition accountLoginRule (email : string) : throttleRule :=
  mkRule "LoginPerAccount" (LoginPerAccount policy)
    (if String.eqb email nul then email else normalizeEmail email).

(** The pair of [loginRules]. *)
Definition pairRule (ip : option string) (email : string) : throttleRule :=
  let address := requestAddress ip in
  mkRule "LoginPerAccountAddress" (LoginPerAccountAddress policy)
    (if String.eqb address "" then "" else (address ++ nul ++ email)%string).

(** [loginRules] *)
Definition loginRules (ip : option string) (email : string) : prog (throttleRule * list throttleRule) :=
  let email := if String.eqb email "" then nul else email in
  let pair := pairRule ip email in
  let all := [mkRule "LoginPerAddress" (LoginPerAddress policy) (requestAddress ip); pair] in
  do k <- known disabled policy pair;
  Ret (pair, if k : bool then all else all ++ [accountLoginRule email]).

(** [tokenRule], [currentPasswordRule] and the rules written in place: Register,
    requestPasswordResetInBackground, SendEmailVerification. *)
Definition tokenRule (ip : option string) : throttleRule :=
  mkRule "TokenPerAddress" (TokenPerAddress policy) (requestAddress ip).

Definition currentPasswordRule (userID : Z) : throttleRule :=
  mkRule "CurrentPasswordPerUser" (CurrentPasswordPerUser policy) (userSubject userID).

Definition registerRule (ip : option string) : throttleRule :=
  mkRule "RegisterPerAddress" (RegisterPerAddress policy) (requestAddress ip).

Definition passwordResetRule (ip : option string) : throttleRule :=
  mkRule "PasswordResetPerAddress" (PasswordResetPerAddress policy) (requestAddress ip).

Definition verificationRule (userID : Z) : throttleRule :=
  mkRule "VerificationPerUser" (VerificationPerUser policy) (userSubject userID).

(** [throttleTokenUse]: what [use] does is outside the cache; its result is the argument. *)
Definition throttleTokenUse {T E} (invalidToken : E -> bool) (ip : option string) (use : result E T) :
    prog (result ThrottleError (result E T)) :=
  do res <- reserve disabled [tokenRule ip];
  match res with
  | Err e => Ret (Err e)
  | Ok keys =>
      match use with
      | Err err => if invalidToken err then Ret (Ok use) else do _ <- refund keys; Ret (Ok use)
      | Ok _ => do _ <- refund keys; Ret (Ok use)
      end
  end.

(** [Authenticate]: the lookup's and the password comparison's outcomes are its arguments. *)
Record account : Type := mkAccount { ID : Z; passwordMatches : bool; isDisabled : bool }.

Inductive loginError (D : Type) : Type :=
| Throttled (e : ThrottleError)
| DatabaseError (e : D)
| InvalidCredentials
| AccountDisabled.
Arguments Throttled {D} e.
Arguments DatabaseError {D} e.
Arguments InvalidCredentials {D}.
Arguments AccountDisabled {D}.

Definition Authenticate {D} (ip : option string) (email : string) (found : result D account) :
    prog (result (loginError D) account) :=
  let email := normalizeEmail email in
  do rules <- loginRules ip email;
  let '(pairR, rules) := rules in
  do res <- reserve disabled rules;
  match res with
  | Err e => Ret (Err (Throttled e))
  | Ok keys =>
      match found with
      | Err e => do _ <- refund keys; Ret (Err (DatabaseError e))
      | Ok user =>
          if ID user =? 0 then Ret (Err InvalidCredentials)
          else if negb (passwordMatches user) then Ret (Err InvalidCredentials)
          else if isDisabled user then Ret (Err AccountDisabled)
          else
            do _ <- refundExcept (name pairR) keys;
            do _ <- clear disabled pairR;
            do _ <- markKnown disabled policy pairR;
            Ret (Ok user)
      end
  end.

(** The throttle of [ResetPassword]: the account's rule is emptied by a success. *)
Definition ResetPassword {E} (invalidToken : E -> bool) (ip : option string) (use : result E string) :
    prog (result ThrottleError (result E string)) :=
  do r <- throttleTokenUse invalidToken ip use;
  match r with
  | Ok (Ok email) => do _ <- clear disabled (accountLoginRule email); Ret r
  | _ => Ret r
  end.
End Rules.
End Throttle.

Arguments Throttled {D} e.
Arguments DatabaseError {D} e.
Arguments InvalidCredentials {D}.
Arguments AccountDisabled {D}.

(** [throttleRetryAfterSeconds]: Seconds is a float64, Ceil and int as the code has them. *)
Definition throttleRetryAfterSeconds (rnd : Q -> Q) (e : ThrottleError) : Z :=
  let sec := Z.quot (RetryAfter e) Second in
  let nsec := Z.rem (RetryAfter e) Second in
  let seconds := rnd (float64 rnd sec + rnd (float64 rnd nsec / inject_Z Second))%Q in
  Z.max (Qround.Qceiling seconds) 1.

(** ** Running programs *)

(** What the throttler logs, at most once a minute: per rule the last refusal, and the Unix
    second of the last warning. *)
Record logState : Type := mkLog { refusing : gmap string time; warned : Z }.

(** [logRefusal]: whether it logs. *)
Definition logRefusal (now : time) (rule : string) (l : logState) : logState * bool :=
  let log := match refusing l !! rule with
             | None => true
             | Some last => Minute <=? now - last
             end in
  (if log then mkLog (<[rule := now]> (refusing l)) (warned l) else l, log).

(** [warn]; the load and the swap of [warned] are one step (a lost swap logs nothing). *)
Definition warn (now : time) (l : logState) : logState * bool :=
  let now := Unix now in
  if now - warned l <? 60 then (l, false) else (mkLog (refusing l) now, true).

(** The surroundings of one call: whether its context is done, and the clock. *)
Record env : Type := mkEnv { canceled : bool; clock : nat -> time }.

Section Run.
Context {S : Type} (ops : env -> CacheOps S).

Record world : Type := mkWorld { store : S; log : logState }.

(** Perform the program's next call. *)
Definition advance {A} (e : env) (p : prog A) (w : world) : world * prog A :=
  let now := clock e 0%nat in
  let c := ops e in
  match p with
  | Ret a => (w, Ret a)
  | Now k => (w, k now)
  | DoGet key k => let '(s, r) := cGet c key (store w) in (mkWorld s (log w), k r)
  | DoSet key p ttl k => let '(s, r) := cSet c key p ttl (store w) in (mkWorld s (log w), k r)
  | DoDelete keys k => let '(s, r) := cDelete c keys (store w) in (mkWorld s (log w), k r)
  | DoIncrementTTL key delta ttl k =>
      let '(s, r) := incrementTTL c key delta ttl (store w) in (mkWorld s (log w), k r)
  | DoDecrementExisting key delta k =>
      let '(s, r) := decrementExisting c key delta (store w) in (mkWorld s (log w), k r)
  | Warn err k => (mkWorld (store w) (warn now (log w)).1, k)
  | LogRefusal rule k => (mkWorld (store w) (logRefusal now rule (log w)).1, k)
  end.

(** A program alone, in unchanging surroundings. *)
Fixpoint run {A} (e : env) (p : prog A) (w : world) : world * A :=
  let now := clock e 0%nat in
  let c := ops e in
  match p with
  | Ret a => (w, a)
  | Now k => run e (k now) w
  | DoGet key k => let '(s, r) := cGet c key (store w) in run e (k r) (mkWorld s (log w))
  | DoSet key p ttl k => let '(s, r) := cSet c key p ttl (store w) in run e (k r) (mkWorld s (log w))
  | DoDelete keys k => let '(s, r) := cDelete c keys (store w) in run e (k r) (mkWorld s (log w))
  | DoIncrementTTL key delta ttl k =>
      let '(s, r) := incrementTTL c key delta ttl (store w) in run e (k r) (mkWorld s (log w))
  | DoDecrementExisting key delta k =>
      let '(s, r) := decrementExisting c key delta (store w) in run e (k r) (mkWorld s (log w))
  | Warn err k => run e k (mkWorld (store w) (warn now (log w)).1)
  | LogRefusal rule k => run e k (mkWorld (store w) (logRefusal now rule (log w)).1)
  end.
End Run.
Arguments mkWorld {S} store log.
Arguments store {S} w.
Arguments log {S} w.

(** ** Which cache counts *)

(** The throttler's caches: the store it was given, if any, its own memory cache once made,
    and what the probe of the store found. *)
Record backend (S : Type) : Type := mkBackend {
  given : option S;
  own : option (gmap string memoryItem);
  ownClosed : bool;
  probed : bool;
  keepsNothing : bool;
  probing : bool;
  nextProbe : Z
}.
Arguments mkBackend {S}.
Arguments given {S}.
Arguments own {S}.
Arguments ownClosed {S}.
Arguments probed {S}.
Arguments keepsNothing {S}.
Arguments probing {S}.
Arguments nextProbe {S}.

Definition throttleProbeRetry : duration := Minute.

Section Probe.
Context {S : Type}.

(** [startProbe]: whether it started one. *)
Definition startProbe (now : time) (b : backend S) : backend S * bool :=
  if bool_decide (given b = None) || probed b || (UnixNano now <? nextProbe b) || probing b then (b, false)
  else (mkBackend (given b) (own b) (ownClosed b) (probed b) (keepsNothing b) true (nextProbe b), true).

(** [storeKeepsNothing] *)
Definition storeKeepsNothing (now : time) (b : backend S) : backend S * bool :=
  if probed b then (b, keepsNothing b) else ((startProbe now b).1, false).

Inductive chosen : Type := GivenStore | OwnMemory.

(** [cache] *)
Definition cache (now : time) (b : backend S) : backend S * chosen :=
  let '(b, use) :=
    if bool_decide (given b = None) then (b, false)
    else let '(b, nothing) := storeKeepsNothing now b in (b, negb nothing) in
  if use : bool then (b, GivenStore)
  else (mkBackend (given b) (Some (default NewMemory (own b))) (ownClosed b) (probed b)
          (keepsNothing b) (probing b) (nextProbe b), OwnMemory).

Inductive probeResult : Type :=
| Unreachable (e : cacheError)
| Decided (keepsNothing : bool).

(** [probe], its calls to the store; [nonce] is twelve random bytes in hexadecimal. *)
Definition probe (nonce : string) : prog probeResult :=
  let key := ("auth:throttle:probe:" ++ nonce)%string in
  DoIncrementTTL key 1 Minute (fun c =>
    match c with
    | Err e => Ret (Unreachable e)
    | Ok count =>
        DoGet key (fun g =>
          match counterOf g with
          | Err e => Ret (Unreachable e)
          | Ok stored =>
              let found := match g with Ok (Some _) => true | _ => false end in
              DoDelete [key] (fun _ =>
                Ret (Decided (negb (count =? 1) || negb found || negb (stored =? 1))))
          end)
    end).

(** The end of [probe]: what it leaves in the throttler. *)
Definition finishProbe (now : time) (r : probeResult) (b : backend S) (l : logState) :
    backend S * logState :=
  match r with
  | Unreachable e =>
      (mkBackend (given b) (own b) (ownClosed b) (probed b) (keepsNothing b) false
         (UnixNano (Add now throttleProbeRetry)), (warn now l).1)
  | Decided nothing =>
      (mkBackend (given b) (own b) (ownClosed b) true (keepsNothing b || nothing) false (nextProbe b), l)
  end.

(** [close]; the own cache's Close stops its janitor. *)
Definition close (b : backend S) : backend S :=
  mkBackend (given b) (own b) true (probed b) (keepsNothing b) (probing b) (nextProbe b).
End Probe.
