(* ===== verification/ThrottleFacts.v ===== *)
(** * What the throttles guarantee

    A bucket's limit holds under every interleaving of attempts and refunds, over any cache
    that counts ([Counting], which the in-process cache implements); an attempt refused on
    reading writes nothing; a cache that fails locks nobody out; the probe finds a cache
    that keeps nothing. *)

From stdpp Require Import base tactics numbers list strings gmap fin_maps.
From Stdlib Require Import ZArith Lia Ascii QArith Lqa.
From S2P Require Import Prelude GoBytes Float64 Cache CacheFacts CacheNamespace Throttle.

Local Open Scope string_scope.
Local Open Scope list_scope.
Local Open Scope Z_scope.
Local Open Scope gombit_scope.

(** ** The estimate *)

Section Estimate.
Context (rnd : Q -> Q) `{HR : !Rounding rnd}.

Lemma throttleWait_positive previous current limit elapsed window :
  0 < throttleWait rnd previous current limit elapsed window.
Proof. unfold throttleWait, Second. lia. Qed.

(** An attempt that need not wait is within the limit, whatever the rounding: the previous
    bucket only ever adds to the estimate. *)
Lemma wait_limit w count : 0 <= Limit (wlimit w) < 2 ^ 52 -> (elapsed w <= 1)%Q ->
  wait rnd w count <= 0 -> count <= Limit (wlimit w).
Proof.
  intros HL He. unfold wait. set (l := Limit (wlimit w)) in *.
  destruct (Qle_bool _ _) eqn:E; [|intros Hw; pose proof (throttleWait_positive (float64 rnd (Z.max (previous w) 0))
    (float64 rnd (wrap_int64 (count - 1))) (float64 rnd l) (elapsed w) (Window (wlimit w))); lia].
  intros _. apply Qle_bool_iff in E. apply Z.nlt_ge. intros Hlt.
  assert (float64 rnd l == inject_Z l)%Q as Hl by (apply rnd_int; [done | lia]).
  assert (inject_Z (l + 1) <= float64 rnd count)%Q as Hc.
  { apply rnd_ge_int; [done | lia|]. rewrite <- Zle_Qle. lia. }
  assert (0 <= rnd (float64 rnd (Z.max (previous w) 0) * rnd (1 - elapsed w)))%Q as Hp.
  { apply rnd_nonneg; [done|]. apply Qmult_le_0_compat.
    - apply rnd_nonneg; [done|]. change 0%Q with (inject_Z 0). rewrite <- Zle_Qle. lia.
    - apply rnd_nonneg; [done|]. lra. }
  set (x := rnd (_ * _)) in *.
  assert (inject_Z (l + 1) <= rnd (x + float64 rnd count))%Q as Hs.
  { apply rnd_ge_int; [done | lia|]. lra. }
  assert (inject_Z (l + 1) <= inject_Z l)%Q as Hbad by lra.
  rewrite <- Zle_Qle in Hbad. lia.
Qed.

(** What of the window has passed is at most the window. *)
Lemma buckets_elapsed digest r now : 0 < Window (limit r) <= max_int64 ->
  ((buckets rnd digest r now).2 <= 1)%Q.
Proof.
  intros Hw. unfold buckets. cbn [snd]. set (w := Window (limit r)) in *. set (n := UnixNano now).
  assert (in_int64 n) as Hn by apply wrap_int64_range.
  pose proof (Z.quot_rem n w ltac:(lia)) as Hqr. pose proof (Z.rem_bound_abs n w ltac:(lia)) as Hrb.
  assert (in_int64 (Z.quot n w * w)) as Hi.
  { destruct (Z.le_ge_cases 0 n) as [Hs|Hs].
    - pose proof (Z.rem_nonneg n w ltac:(lia) Hs). unfold in_int64, min_int64, max_int64 in *.
      pose proof (Z.quot_pos n w Hs ltac:(lia)). nia.
    - pose proof (Z.rem_nonpos n w ltac:(lia) Hs). unfold in_int64, min_int64, max_int64 in *.
      assert (w * Z.quot n w <= 0) by (pose proof (Z.quot_opp_l n w ltac:(lia)); pose proof (Z.quot_pos (- n) w ltac:(lia) ltac:(lia)); nia).
      nia. }
  rewrite (wrap_int64_id _ Hi). replace (n - Z.quot n w * w) with (Z.rem n w) by lia.
  rewrite wrap_int64_id by (unfold in_int64, min_int64, max_int64 in *; lia).
  apply (rnd_le_int rnd _ 1); [done|]. change (inject_Z 1) with 1%Q.
  assert (1 <= float64 rnd w)%Q as H1.
  { apply (rnd_ge_int rnd _ 1); [done|]. rewrite <- Zle_Qle. lia. }
  apply Qle_shift_div_r; [lra|]. rewrite Qmult_1_l. unfold float64. apply rnd_mono. rewrite <- Zle_Qle. lia.
Qed.
End Estimate.

(** ** A cache that counts *)

(** Calls made between [t0] and [T]. *)
Definition env_ok (t0 T : time) (e : env) : Prop :=
  0 <= t0 /\ t0 <= clock e 0%nat /\ clock e 0%nat <= clock e 1%nat /\ clock e 1%nat < T.

(** [tally s k n]: the counter [k] is at [n] and stays until it is changed, up to [T].  A
    counter is exact whenever no error is returned, unchanged when one is; a decrement whose
    answer was lost may have happened or not. *)
Class Counting {S} (ops : env -> CacheOps S) (t0 T : time) : Type := {
  tally : S -> string -> Z -> Prop;
  housekeep : S -> S -> Prop;
  tally_increment e s k n ttl : env_ok t0 T e -> T <= t0 + ttl -> tally s k n -> 0 <= n ->
    match incrementTTL (ops e) k 1 ttl s with
    | (s', Ok v) => v = n + 1 /\ tally s' k (n + 1)
    | (s', Err _) => tally s' k n
    end;
  tally_decrement e s k n : env_ok t0 T e -> tally s k n -> 1 <= n ->
    let s' := (decrementExisting (ops e) k 1 s).1 in tally s' k n \/ tally s' k (n - 1);
  tally_get e s k k' n : env_ok t0 T e -> tally s k n -> tally (cGet (ops e) k' s).1 k n;
  tally_other_increment e s k k' n ttl : env_ok t0 T e -> k <> k' -> tally s k n ->
    tally (incrementTTL (ops e) k' 1 ttl s).1 k n;
  tally_other_decrement e s k k' n : env_ok t0 T e -> k <> k' -> tally s k n ->
    tally (decrementExisting (ops e) k' 1 s).1 k n;
  tally_housekeep s s' k n : housekeep s s' -> tally s k n -> tally s' k n
}.

(** The in-process cache counts; its janitor and Get's second half keep house. *)
Definition memOps (e : env) : CacheOps memory := memoryOps (canceled e) (clock e).

Definition memTally (t0 T : time) (m : memory) (k : string) (n : Z) : Prop :=
  in_int64 n /\
  ((n = 0 /\ view t0 m k = None) \/
   exists x, m !! k = Some (mkItem (encodeInt n) x) /\ T <= x /\ 0 < x).

Lemma view_later t t' m k : t <= t' -> view t m k = None -> view t' m k = None.
Proof.
  unfold view. intros Ht. destruct (m !! k); [|done]. destruct (expired t _) eqn:E; [|done].
  by rewrite (expired_mono _ _ _ Ht E).
Qed.

Lemma memTally_lookup t0 T m m' k n : m' !! k = m !! k -> memTally t0 T m k n -> memTally t0 T m' k n.
Proof. intros E. unfold memTally, view. by rewrite E. Qed.

Lemma memTally_evict t0 T now key m k n : now < T -> memTally t0 T m k n -> memTally t0 T (evict now key m) k n.
Proof.
  intros Ht [Hi H]. destruct (decide (key = k)) as [->|Hne].
  - split; [done|]. unfold evict. destruct H as [[-> Hv]|(x & Hx & HT & H0)].
    + left. split; [done|]. destruct (m !! k) eqn:E; [|done].
      destruct (expired now _); [apply view_delete_eq | done].
    + right. exists x. rewrite Hx. unfold expired. cbn [expiresAt].
      rewrite (proj2 (Before_true now x)) by lia. by rewrite andb_false_r.
  - apply (memTally_lookup t0 T m); [by apply evict_other | done].
Qed.

Lemma memTally_increment t0 T e m k n ttl :
  env_ok t0 T e -> T <= t0 + ttl -> memTally t0 T m k n -> 0 <= n ->
  match incrementTTL (memOps e) k 1 ttl m with
  | (m', Ok v) => v = n + 1 /\ memTally t0 T m' k (n + 1)
  | (m', Err _) => memTally t0 T m' k n
  end.
Proof.
  intros (H0' & H0 & H01 & H1) Httl Htl Hn. pose proof Htl as [Hi Hc].
  unfold incrementTTL, memOps, memoryOps. cbn [cCounter cIncrementTTL].
  destruct (validateCounterTTL ttl) eqn:Ev; [done|]. unfold IncrementTTL. rewrite Ev.
  unfold increment. destruct (canceled e); [done|].
  assert (Cache.current (clock e 0%nat) k m = Ok n) as Hcur.
  { rewrite current_view. destruct Hc as [[-> Hv]|(x & Hx & HTx & H0x)]; [by rewrite (view_later t0)|].
    unfold view, expired. rewrite Hx. cbn [expiresAt]. rewrite (proj2 (Before_true _ x)), andb_false_r by lia.
    cbn [payload]. by rewrite decodeInt_encodeInt. }
  rewrite Hcur, wouldOverflow_spec by (done || (unfold in_int64, min_int64, max_int64; lia)).
  case_bool_decide as Hr; cbn [negb]; [|done]. rewrite wrap_int64_id by done. split; [done|]. split; [done|].
  right. rewrite lookup_insert_eq. eexists. split; [done|]. rewrite keptExpiry_view.
  destruct Hc as [[-> Hv]|(x & Hx & HTx & H0x)].
  - rewrite (view_later t0) by (done || lia). cbn. unfold validateCounterTTL in Ev.
    destruct (ttl <=? 0) eqn:El; [done|]. breflect. rewrite (proj2 (Z.ltb_lt 0 ttl)) by lia. unfold Add. lia.
  - unfold view, expired. rewrite Hx. cbn [expiresAt]. rewrite (proj2 (Before_true _ x)), andb_false_r by lia.
    cbn [expiresAt]. unfold IsZero. rewrite (proj2 (Z.eqb_neq x 0)) by lia. cbn. lia.
Qed.

Lemma memTally_decrement t0 T e m k n : env_ok t0 T e -> memTally t0 T m k n -> 1 <= n ->
  let m' := (decrementExisting (memOps e) k 1 m).1 in memTally t0 T m' k n \/ memTally t0 T m' k (n - 1).
Proof.
  intros (H0' & H0 & H01 & H1) Htl Hn. pose proof Htl as [Hi Hc].
  unfold decrementExisting, memOps, memoryOps. cbn [cCounter cDecrementExisting].
  unfold DecrementExisting. destruct (canceled e); [by left|].
  destruct Hc as [[-> _]|(x & Hx & HTx & H0x)]; [lia|]. rewrite Hx.
  unfold expired. cbn [expiresAt payload]. rewrite (proj2 (Before_true _ x)), andb_false_r by lia.
  rewrite decodeInt_encodeInt by done. destruct (decrementOverflow n 1); [by left|]. right.
  assert (in_int64 (n - 1)) by (unfold in_int64, min_int64, max_int64 in *; lia).
  rewrite wrap_int64_id by done. split; [done|]. right. exists x. cbn [fst]. by rewrite lookup_insert_eq.
Qed.

#[export] Instance memory_Counting t0 T : Counting memOps t0 T.
Proof.
  assert (forall e m k k', k <> k' -> (forall ttl, (incrementTTL (memOps e) k' 1 ttl m).1 !! k = m !! k) /\
    (decrementExisting (memOps e) k' 1 m).1 !! k = m !! k) as Hother.
  { intros e m k k' Hne.
    destruct (memoryOps_touches (canceled e) (clock e) (fun key => key = k') m k Hne) as (_ & _ & _ & _ & Hi & Hd).
    split; [intros ttl; by apply Hi | by apply Hd]. }
  refine {| tally := memTally t0 T; housekeep m m' := exists now key, now < T /\ m' = evict now key m |}.
  - intros. by apply memTally_increment.
  - intros. by apply memTally_decrement.
  - intros e m k k' n (H0' & H0 & H01 & H1) H. cbn. unfold Get. repeat case_match; try done.
    cbn [fst]. by apply memTally_evict.
  - intros e m k k' n ttl _ Hne. apply memTally_lookup. by apply Hother.
  - intros e m k k' n _ Hne. apply memTally_lookup. by apply Hother.
  - intros m m' k n (now & key & Ht & ->). by apply memTally_evict.
Defined.

(** ** Bookkeeping of one bucket

    [wp Q a o p]: a program that holds [a] places of bucket [k] it was given and [o] it took
    over the limit gives each back at most once, holds no more than it was given, and ends
    with [Q]. *)

Section Bucket.
Context (k : string) (L : Z) (span : duration).

Fixpoint wp {A} (Q : nat -> nat -> A -> Prop) (a o : nat) (p : prog A) : Prop :=
  match p with
  | Ret x => Q a o x
  | Now f => forall r, wp Q a o (f r)
  | DoGet _ f => forall r, wp Q a o (f r)
  | DoSet _ _ _ _ | DoDelete _ _ => False
  | DoIncrementTTL key d ttl f =>
      d = 1 /\
      if decide (key = k)
      then span <= ttl /\ (forall e, wp Q a o (f (Err e))) /\
           forall n, (n <= L /\ wp Q (S a) o (f (Ok n))) \/ wp Q a (S o) (f (Ok n))
      else forall r, wp Q a o (f r)
  | DoDecrementExisting key d f =>
      d = 1 /\
      if decide (key = k)
      then (exists a', a = S a' /\ forall r, wp Q a' o (f r)) \/ (exists o', o = S o' /\ forall r, wp Q a o' (f r))
      else forall r, wp Q a o (f r)
  | Warn _ q | LogRefusal _ q => wp Q a o q
  end.

Lemma wp_mono {A} (Q Q' : nat -> nat -> A -> Prop) p : (forall a o x, Q a o x -> Q' a o x) ->
  forall a o, wp Q a o p -> wp Q' a o p.
Proof.
  intros HQ. induction p as [x|f IH|key f IH|key p ttl f IH|keys f IH|key d ttl f IH|key d f IH|e q IH|e q IH];
    intros a o; cbn [wp]; try naive_solver.
  - intros [-> H]. split; [done|]. destruct (decide _); [|naive_solver].
    destruct H as (Hs & He & Hn). split; [done|]. split; [naive_solver|]. intros n. destruct (Hn n); naive_solver.
  - intros [-> H]. split; [done|]. destruct (decide _); naive_solver.
Qed.

Lemma wp_bind {A B} (Q : nat -> nat -> B -> Prop) (p : prog A) (f : A -> prog B) : forall a o,
  wp (fun a o x => wp Q a o (f x)) a o p -> wp Q a o (pbind p f).
Proof.
  induction p as [x|g IH|key g IH|key p ttl g IH|keys g IH|key d ttl g IH|key d g IH|e q IH|e q IH];
    intros a o; cbn [wp pbind]; try naive_solver.
  - intros [-> H]. split; [done|]. destruct (decide _); [|naive_solver].
    destruct H as (Hs & He & Hn). split; [done|]. split; [naive_solver|]. intros n. destruct (Hn n); naive_solver.
  - intros [-> H]. split; [done|]. destruct (decide _); naive_solver.
Qed.

(** The places of [k] among the keys of a reservation. *)
Definition places (keys : list reservedKey) : nat := length (List.filter (fun r => String.eqb (key r) k) keys).

Lemma places_cons r keys : places (r :: keys) = ((if decide (key r = k) then 1 else 0) + places keys)%nat.
Proof.
  unfold places. cbn [List.filter]. destruct (decide (key r = k)) as [->|Hne]; [by rewrite String.eqb_refl|].
  by apply String.eqb_neq in Hne as ->.
Qed.

Lemma places_app l l' : places (l ++ l') = (places l + places l')%nat.
Proof. unfold places. by rewrite List.filter_app, length_app. Qed.

Lemma wp_refundKey (Q : nat -> nat -> unit -> Prop) a o r :
  (key r = k -> exists a', a = S a' /\ Q a' o tt) -> (key r <> k -> Q a o tt) -> wp Q a o (refundKey r).
Proof.
  intros H1 H2. unfold refundKey. cbn [wp]. split; [done|]. destruct (decide (key r = k)) as [E|E].
  - left. destruct (H1 E) as (a' & -> & HQ). exists a'. split; [done|]. intros [[v b] [e|]]; exact HQ.
  - intros [[v b] [e|]]; by apply H2.
Qed.

Lemma wp_refundExcept (Q : nat -> nat -> unit -> Prop) except keys : forall a o,
  (places keys <= a)%nat -> (forall a', Q a' o tt) -> wp Q a o (refundExcept except keys).
Proof.
  induction keys as [|r keys IH]; intros a o Ha HQ; [by apply HQ|]. rewrite places_cons in Ha. cbn [refundExcept].
  destruct (String.eqb (rule r) except); [apply IH; [lia | done]|].
  apply wp_bind, wp_refundKey; intros E.
  - rewrite decide_True in Ha by done. destruct a as [|a]; [lia|]. exists a. split; [done|]. apply IH; [lia | done].
  - rewrite decide_False in Ha by done. by apply IH.
Qed.

(** ** Attempts *)

Section Attempt.
Context (rnd : Q -> Q) `{HR : !Rounding rnd} (digest : string -> string).

Lemma wp_read (Q : nat -> nat -> result cacheError slidingWindow -> Prop) a o r :
  (forall x, Q a o x) -> wp Q a o (read rnd digest r).
Proof.
  intros HQ. unfold read. cbn [wp]. intros now. destruct (buckets rnd digest r now) as [[ck pk] el]. cbn [wp].
  intros c. destruct (counterOf c); cbn [wp]; [|done]. intros p. destruct (counterOf p); cbn [wp]; done.
Qed.

Lemma wp_readAll (Q : nat -> nat -> result ThrottleError (list Z) -> Prop) rules : forall a o,
  (forall x, Q a o x) -> wp Q a o (readAll rnd digest rules).
Proof.
  revert Q. induction rules as [|r rules IH]; intros Q a o HQ; [by apply HQ|]. cbn [readAll].
  apply wp_bind, wp_read. intros [w|e].
  - destruct (0 <? _); [cbn [wp pbind refuse]; apply HQ|]. apply wp_bind, IH. intros [l|e]; apply HQ.
  - cbn [wp]. apply wp_bind, IH. intros [l|e']; apply HQ.
Qed.

(** The rules of the attempts: those counting in bucket [k] have its limit and window. *)
Definition rule_ok (r : throttleRule) : Prop :=
  0 < Window (limit r) <= max_int64 /\
  forall now, (buckets rnd digest r now).1.1 = k ->
    0 <= Limit (limit r) < 2 ^ 52 /\ Limit (limit r) = L /\ span <= wrap_int64 (2 * Window (limit r)).

Lemma wp_take (Q : nat -> nat -> result cacheError (reservedKey * duration) -> Prop) a o r previous :
  rule_ok r -> (forall e, Q a o (Err e)) ->
  (forall place d, 0 < d -> Q a o (Ok (place, d))) ->
  (forall place, Q (a + places [place])%nat o (Ok (place, 0))) ->
  wp Q a o (take rnd digest r previous).
Proof.
  intros [Hw Hr] HE Hover Hok. unfold take. cbn [wp]. intros now. specialize (Hr now).
  pose proof (buckets_elapsed rnd digest r now Hw) as Hel.
  destruct (buckets rnd digest r now) as [[ck pk] el]. cbn [fst snd] in Hr, Hel. cbn [wp ttl].
  set (place := mkReserved _ _ _). split; [done|]. destruct (decide (ck = k)) as [E|E].
  - destruct (Hr E) as (HL & HLk & Hspan). split; [done|]. split; [done|]. intros n.
    destruct (0 <? wait _ _ _) eqn:Ew.
    + right. apply wp_bind. unfold refundKey. cbn [wp]. split; [done|]. rewrite decide_True by done. right.
      exists o. split; [done|]. breflect. intros [[v b] [e|]]; by apply Hover.
    + left. breflect. apply wait_limit in Ew; [|done|done|done]. cbn [wlimit] in Ew. split; [lia|].
      specialize (Hok place). rewrite places_cons in Hok. cbn [key place] in Hok. rewrite decide_True in Hok by done.
      replace (a + (1 + places []))%nat with (S a) in Hok by (unfold places; simpl; lia). exact Hok.
  - assert (Q a o (Ok (place, 0))) as Hok'.
    { specialize (Hok place). rewrite places_cons in Hok. cbn [key place] in Hok. rewrite decide_False in Hok by done.
      replace (a + (0 + places []))%nat with a in Hok by (unfold places; simpl; lia). exact Hok. }
    intros [n|e]; cbn [wp]; [|done]. destruct (0 <? wait _ _ _) eqn:Ew; [|exact Hok']. breflect.
    apply wp_bind. unfold refundKey. cbn [wp]. split; [done|]. rewrite decide_False by done.
    intros [[v b] [e|]]; by apply Hover.
Qed.

(** What an attempt ends with: a granted one holds the places of its keys. *)
Definition settled (a o : nat) (x : result ThrottleError (list reservedKey)) : Prop :=
  match x with Ok keys => (places keys <= a)%nat | Err _ => True end.

Lemma wp_takeAll rules : forall keys a, Forall (fun r => rule_ok r.1) rules -> (places keys <= a)%nat ->
  wp settled a 0 (takeAll rnd digest rules keys).
Proof.
  induction rules as [|[r previous] rules IH]; intros keys a Hr Ha; [exact Ha|]. cbn [takeAll].
  inversion Hr as [|? ? Hr1 Hr2]; subst. apply wp_bind, wp_take; [done| | |].
  - intros e. cbn [wp]. by apply IH.
  - intros place d Hd. rewrite (proj2 (Z.ltb_lt 0 d) Hd). apply wp_bind, wp_refundExcept; [done|]. by intros a'.
  - intros place. cbn [Z.ltb Z.compare]. apply IH; [done|]. rewrite places_app. lia.
Qed.

Lemma wp_reserve disabled rules : Forall rule_ok (List.filter active rules) ->
  wp settled 0 0 (reserve rnd digest disabled rules).
Proof.
  intros Hr. unfold reserve. destruct disabled; [exact (le_n 0)|]. apply wp_bind, wp_readAll. intros [l|e]; [|exact I].
  apply wp_takeAll; [|exact (le_n 0)]. revert l.
  induction Hr as [|r rs Hr Hrs IH]; intros [|x l]; cbn; constructor; auto.
Qed.
End Attempt.
End Bucket.

(** ** Any number of attempts, in any order *)

Section Pool.
Context {St : Type} (ops : env -> CacheOps St) (t0 T : time) `{HC : !Counting ops t0 T}.
Context (rnd : Q -> Q) `{HR : !Rounding rnd} (digest : string -> string).
Context (policy : string -> ThrottleLimit).

Local Abbreviation attempt := (prog (result ThrottleError (list reservedKey))).
Local Abbreviation config := (world (S := St) * list attempt)%type.

(** The rules of the attempts are the policy's. *)
Definition policy_rule (r : throttleRule) : Prop := limit r = policy (name r) /\ colon_free (name r).

(** The attempts of all requests, and the cache they share.  An attempt makes one call at a
    time; one that was granted may give its places back, all or all but one rule's. *)
Inductive pool_step : config -> config -> Prop :=
| StepAttempt w ts disabled rules : Forall policy_rule rules ->
    pool_step (w, ts) (w, reserve rnd digest disabled rules :: ts)
| StepCall e w w' ts1 p p' ts2 : env_ok t0 T e -> advance ops e p w = (w', p') ->
    pool_step (w, ts1 ++ p :: ts2) (w', ts1 ++ p' :: ts2)
| StepRefund except w ts1 keys ts2 :
    pool_step (w, ts1 ++ Ret (Ok keys) :: ts2)
      (w, ts1 ++ (do _ <- refundExcept except keys; Ret (Ok [])) :: ts2)
| StepHousekeep w s ts : housekeep (store w) s -> pool_step (w, ts) (mkWorld s (log w), ts).

(** The places of bucket [k] that granted attempts hold. *)
Definition held (k : string) (p : attempt) : nat :=
  match p with Ret (Ok keys) => places k keys | _ => 0 end.

Definition granted (k : string) (ts : list attempt) : nat := sum_list (map (held k) ts).

Section Invariant.
Context (k : string) (L : Z).
Context (HK : forall r, policy_rule r -> active r = true -> rule_ok k L (T - t0) rnd digest r).

(** The counter covers every place, held or about to be given back; the held ones are within
    the limit. *)
Definition covered (c : config) : Prop :=
  exists ghosts n, Forall2 (fun g p => wp k L (T - t0) (settled k) g.1 g.2 p) ghosts c.2 /\
    tally (store c.1) k n /\
    Z.of_nat (sum_list (map fst ghosts)) + Z.of_nat (sum_list (map snd ghosts)) <= n /\
    Z.of_nat (sum_list (map fst ghosts)) <= L.

Lemma sum_list_mid {A} (f : A -> nat) l1 x l2 :
  sum_list (map f (l1 ++ x :: l2)) = (f x + sum_list (map f l1) + sum_list (map f l2))%nat.
Proof. rewrite map_app, sum_list_with_app. simpl. lia. Qed.

(** One call of one attempt. *)
Lemma advance_covered e p p' w w' a o n rest held_rest : env_ok t0 T e -> advance ops e p w = (w', p') ->
  wp k L (T - t0) (settled k) a o p -> tally (store w) k n ->
  Z.of_nat a + Z.of_nat o + rest <= n -> Z.of_nat a + held_rest <= L -> 0 <= held_rest <= rest ->
  exists a' o' n', wp k L (T - t0) (settled k) a' o' p' /\ tally (store w') k n' /\
    Z.of_nat a' + Z.of_nat o' + rest <= n' /\ Z.of_nat a' + held_rest <= L.
Proof.
  intros He Hadv Hwp Ht Hn Hl Hrest.
  destruct p as [x|f|key f|key p ttl f|keys f|key d ttl f|key d f|err q|r q]; cbn [advance] in Hadv; cbn [wp] in Hwp; try done.
  - injection Hadv as <- <-. by exists a, o, n.
  - injection Hadv as <- <-. exists a, o, n. naive_solver.
  - pose proof (tally_get e (store w) k key n He Ht) as Ht'. destruct (cGet _ _ _) as [s r]. injection Hadv as <- <-.
    exists a, o, n. naive_solver.
  - destruct Hwp as [-> Hwp]. destruct (decide (key = k)) as [->|Hne].
    + destruct Hwp as (Hs & Herr & Hok).
      pose proof (tally_increment e (store w) k n ttl He ltac:(lia) Ht ltac:(lia)) as Hi.
      destruct (incrementTTL _ _ _ _ _) as [s [v|err]]; injection Hadv as <- <-; cbn [store].
      * destruct Hi as [-> Ht']. destruct (Hok (n + 1)) as [[Hle Hw]|Hw].
        -- exists (S a), o, (n + 1). split; [done|]. split; [done|]. lia.
        -- exists a, (S o), (n + 1). split; [done|]. split; [done|]. lia.
      * exists a, o, n. naive_solver.
    + pose proof (tally_other_increment e (store w) k key n ttl He ltac:(done) Ht) as Ht'.
      destruct (incrementTTL _ _ _ _ _) as [s r]. injection Hadv as <- <-. exists a, o, n. naive_solver.
  - destruct Hwp as [-> Hwp]. destruct (decide (key = k)) as [->|Hne].
    + assert (1 <= n) as H1 by (destruct Hwp as [(a' & -> & _)|(o' & -> & _)]; lia).
      pose proof (tally_decrement e (store w) k n He Ht H1) as Hd. cbn zeta in Hd.
      destruct (decrementExisting _ _ _ _) as [s r]. injection Hadv as <- <-. cbn [store fst] in *.
      assert (exists n', tally s k n' /\ n - 1 <= n') as (n' & Ht' & Hn').
      { destruct Hd as [Hd|Hd]; eexists; (split; [exact Hd | lia]). }
      destruct Hwp as [(a' & -> & Hw)|(o' & -> & Hw)].
      * exists a', o, n'. split; [done|]. split; [done|]. lia.
      * exists a, o', n'. split; [done|]. split; [done|]. lia.
    + pose proof (tally_other_decrement e (store w) k key n He ltac:(done) Ht) as Ht'.
      destruct (decrementExisting _ _ _ _) as [s r]. injection Hadv as <- <-. exists a, o, n. naive_solver.
  - injection Hadv as <- <-. exists a, o, n. naive_solver.
  - injection Hadv as <- <-. exists a, o, n. naive_solver.
Qed.

Lemma pool_step_covered c c' : pool_step c c' -> covered c -> covered c'.
Proof.
  intros Hstep (ghosts & n & Hg & Ht & Hn & Hl). destruct Hstep as
    [w ts disabled rules Hrules|e w w' ts1 p p' ts2 He Hadv|except w ts1 keys ts2|w s ts Hk]; cbn [fst snd] in *.
  - exists ((0%nat, 0%nat) :: ghosts), n. split; [|done]. constructor; [|done]. apply wp_reserve; [done|].
    apply List.Forall_forall. intros r [Hr Ha]%filter_In.
    apply HK; [|done]. rewrite List.Forall_forall in Hrules. auto.
  - apply Forall2_app_inv_r in Hg as (g1 & g2 & Hg1 & Hg2 & ->).
    apply Forall2_cons_inv_r in Hg2 as (g & g2' & Hg & Hg2 & ->). rewrite !sum_list_mid in *.
    destruct (advance_covered e p p' w w' g.1 g.2 n
      (Z.of_nat (sum_list (map fst g1) + sum_list (map fst g2') + sum_list (map snd g1) + sum_list (map snd g2')))
      (Z.of_nat (sum_list (map fst g1) + sum_list (map fst g2')))) as (a' & o' & n' & Hw & Ht' & Hn' & Hl');
      try done; try lia.
    exists (g1 ++ (a', o') :: g2'), n'. cbn [fst snd]. split; [|split; [done|]].
    + apply Forall2_app; [done|]. by constructor.
    + rewrite !sum_list_mid. cbn [fst snd]. lia.
  - apply Forall2_app_inv_r in Hg as (g1 & g2 & Hg1 & Hg2 & ->).
    apply Forall2_cons_inv_r in Hg2 as (g & g2' & Hg & Hg2 & ->).
    exists (g1 ++ g :: g2'), n. split; [|done]. apply Forall2_app; [done|]. constructor; [|done].
    apply wp_bind, wp_refundExcept; [exact Hg|]. intros a'. cbn. apply Nat.le_0_l.
  - exists ghosts, n. split; [done|]. split; [|done]. by apply (tally_housekeep (store w)).
Qed.

Lemma covered_granted c : covered c -> Z.of_nat (granted k c.2) <= L.
Proof.
  intros (ghosts & n & Hg & _ & _ & Hl). unfold granted.
  assert (sum_list (map (held k) c.2) <= sum_list (map fst ghosts))%nat; [|lia].
  clear Hl. induction Hg as [|g p gs ps Hp _ IH]; [done|]. cbn [map sum_list sum_list_with].
  assert (held k p <= g.1)%nat; [|simpl in *; lia]. destruct p as [[keys|]| | | | | | | |]; simpl in *; try lia.
Qed.
End Invariant.

(** The name of the rule is read off the key of its buckets. *)
Lemma bucket_name r r' i j : colon_free (name r) -> colon_free (name r') ->
  (throttleKeyBase digest r ++ i)%string = (throttleKeyBase digest r' ++ j)%string -> name r = name r'.
Proof.
  intros Hr Hr' E. apply (f_equal of_string) in E. unfold throttleKeyBase in E.
  rewrite !of_string_app, <- !app_assoc in E. apply app_inv_head in E.
  change (of_string ":") with [":"%char] in E. cbn [app] in E.
  assert (forall x d, colon_free x -> CutByte (of_string x ++ ":"%char :: d) ":" = Some (of_string x, d)) as Hcut
    by (intros; by apply CutByte_app).
  pose proof (Hcut _ (of_string (digest (name r ++ nul ++ subject r)) ++ ":"%char :: of_string i) Hr) as H1.
  rewrite E, Hcut in H1 by done. injection H1 as H1 _. symmetry. by apply of_string_inj.
Qed.

(** C33. The throttle's limit holds under any interleaving: however the cache calls of
    concurrent attempts are interleaved, of the attempts not given back at most the limit
    hold a place in a bucket. *)
Theorem throttle_limit_holds r index w c :
  policy_rule r -> active r = true ->
  (forall n, Window (policy n) <= max_int64) -> Limit (limit r) < 2 ^ 52 ->
  2 * Window (limit r) <= max_int64 -> T <= t0 + 2 * Window (limit r) ->
  let k := (throttleKeyBase digest r ++ encodeInt index)%string in
  tally (store w) k 0 -> rtc pool_step (w, []) c ->
  Z.of_nat (granted k c.2) <= Limit (limit r).
Proof.
  intros [Hlim Hname] Hact Hwin HL H2 HT k Ht Hsteps. unfold active, on in Hact. breflect.
  apply covered_granted. assert (covered k (Limit (limit r)) (w, [])) as Hinv.
  { exists [], 0. split; [constructor|]. split; [done|]. simpl. lia. }
  revert Hinv. induction Hsteps as [|x y z Hstep _ IH]; [done|]. intros Hinv. apply IH.
  eapply pool_step_covered; [|exact Hstep | exact Hinv]. clear -Hlim Hname Hwin HL H2 HT H H1.
  intros r' [Hlim' Hname'] Hact'. unfold active, on in Hact'. breflect. split.
  - rewrite Hlim' in *. split; [lia | apply Hwin].
  - intros now E. cbn [buckets fst] in E. apply bucket_name in E; [|done|done].
    rewrite Hlim', E, <- Hlim. rewrite wrap_int64_id by (unfold in_int64, min_int64, max_int64 in *; lia). lia.
Qed.
End Pool.

(** ** An attempt alone *)

Section Alone.
Context (rnd : Q -> Q) (digest : string -> string) (now : time).

Local Abbreviation alone := (mkEnv false (fun _ => now)).
Local Abbreviation ckey r := (buckets rnd digest r now).1.1.
Local Abbreviation pkey r := (buckets rnd digest r now).1.2.
Local Abbreviation passed r := (buckets rnd digest r now).2.

(** The count a reader finds. *)
Definition counterAt (m : memory) (key : string) : result cacheError Z :=
  counterOf (match view now m key with Some i => Ok (Some (payload i)) | None => Ok None end).

Lemma counterAt_current m key n : Cache.current now key m = Ok n -> counterAt m key = Ok n.
Proof.
  rewrite current_view. unfold counterAt. destruct (view now m key) as [i|]; [|done]. cbn [counterOf].
  by destruct (decodeInt (payload i)) as [[z|]|].
Qed.

Lemma counterAt_live m m' key : live_equiv now m m' -> counterAt m key = counterAt m' key.
Proof. intros H. unfold counterAt. by rewrite (H key now) by lia. Qed.

(** The wait of the rule, from the counts alone. *)
Definition waits (m : memory) (r : throttleRule) : duration :=
  match counterAt m (ckey r), counterAt m (pkey r) with
  | Ok c, Ok p => wait rnd (mkWindow (limit r) c p (passed r)) (wrap_int64 (c + 1))
  | _, _ => 0
  end.

(** The first rule that refuses. *)
Fixpoint refusal (m : memory) (rules : list throttleRule) : option ThrottleError :=
  match rules with
  | [] => None
  | r :: rules => if 0 <? waits m r then Some (mkThrottleError (name r) (waits m r)) else refusal m rules
  end.

Lemma waits_live m m' r : live_equiv now m m' -> waits m r = waits m' r.
Proof. intros H. unfold waits. by rewrite !(counterAt_live m m' _ H). Qed.

Lemma refusal_live m m' rules : live_equiv now m m' -> refusal m rules = refusal m' rules.
Proof. intros H. induction rules as [|r rules IH]; [done|]. cbn [refusal]. by rewrite (waits_live m m' r H), IH. Qed.

Lemma run_bind {S A B} (ops : env -> CacheOps S) e (p : prog A) (f : A -> prog B) : forall w,
  run ops e (pbind p f) w = let '(w', x) := run ops e p w in run ops e (f x) w'.
Proof.
  induction p as [x|g IH|key g IH|key p ttl g IH|keys g IH|key d ttl g IH|key d g IH|err q IH|r q IH]; intros w;
    cbn [pbind run]; try apply IH; try done.
  - destruct (cGet _ _ _). apply IH.
  - destruct (cSet _ _ _ _ _). apply IH.
  - destruct (cDelete _ _ _). apply IH.
  - destruct (incrementTTL _ _ _ _ _). apply IH.
  - destruct (decrementExisting _ _ _ _). apply IH.
Qed.

(** Reading finds the live count and writes nothing. *)
Lemma Get_alone key m : exists m' r, cGet (memOps alone) key m = (m', r) /\
  counterOf r = counterAt m key /\ live_equiv now m' m.
Proof.
  cbn. unfold Get, counterAt, view. cbn [clock canceled]. destruct (m !! key) as [i|]; [|by eexists _, _].
  destruct (expired now i).
  - eexists _, _. split; [done|]. split; [done|]. by apply evict_live.
  - by eexists _, _.
Qed.

Lemma run_read r w : exists m', live_equiv now m' (store w) /\
  run memOps alone (read rnd digest r) w =
    (mkWorld m' (log w),
     match counterAt (store w) (ckey r), counterAt (store w) (pkey r) with
     | Err e, _ => Err e
     | _, Err e => Err e
     | Ok c, Ok p => Ok (mkWindow (limit r) c p (passed r))
     end).
Proof.
  unfold read. cbn [run clock]. destruct (buckets rnd digest r now) as [[ck pk] el]. cbn [run fst snd].
  destruct (Get_alone ck (store w)) as (m1 & r1 & -> & -> & H1).
  destruct (counterAt (store w) ck) as [c|e]; [|by exists m1]. cbn [run].
  destruct (Get_alone pk m1) as (m2 & r2 & E2 & Hr2 & H2). cbn [store log]. rewrite E2, Hr2.
  rewrite (counterAt_live m1 (store w) pk H1). exists m2. split; [by rewrite H2|]. by destruct (counterAt (store w) pk).
Qed.

(** What the second step is given: the previous counts, zero where one could not be read. *)
Definition previousAt (m : memory) (r : throttleRule) : Z :=
  match counterAt m (ckey r), counterAt m (pkey r) with Ok _, Ok p => p | _, _ => 0 end.

Lemma run_readAll rules : forall w, exists w', live_equiv now (store w') (store w) /\
  run memOps alone (readAll rnd digest rules) w =
    (w', match refusal (store w) rules with
         | Some e => Err e
         | None => Ok (map (previousAt (store w)) rules)
         end).
Proof.
  induction rules as [|r rules IH]; intros w; [by exists w|]. cbn [readAll refusal map].
  rewrite run_bind. destruct (run_read r w) as (m1 & H1 & ->). unfold waits, previousAt.
  assert (forall l0 x, exists w', live_equiv now (store w') (store w) /\
    run memOps alone (do rest <- readAll rnd digest rules;
      Ret (match rest with Ok l => Ok (x :: l) | Err e => Err e end)) (mkWorld m1 l0) =
    (w', match refusal (store w) rules with Some e => Err e | None => Ok (x :: map (previousAt (store w)) rules) end))
    as Hrest.
  { intros l0 x. rewrite run_bind. destruct (IH (mkWorld m1 l0)) as (w' & Hw' & ->). cbn [store] in *.
    exists w'. split; [by rewrite Hw'|]. rewrite (refusal_live _ _ rules H1).
    rewrite (map_ext (previousAt m1) (previousAt (store w)))
      by (intros r'; unfold previousAt; by rewrite !(counterAt_live _ _ _ H1)).
    by destruct (refusal (store w) rules). }
  destruct (counterAt (store w) (ckey r)) as [c|e], (counterAt (store w) (pkey r)) as [p|e'];
    try (cbn [run]; apply Hrest). cbn [current previous].
  destruct (0 <? wait _ _ _); [|apply Hrest]. cbn [refuse pbind run]. eexists. split; [|done]. exact H1.
Qed.

(** The place an attempt takes in a rule. *)
Definition placeOf (r : throttleRule) : reservedKey :=
  mkReserved (name r) (ckey r) (wrap_int64 (2 * Window (limit r))).

(** A rule whose buckets can be read and counted in. *)
Definition countable (m : memory) (r : throttleRule) : Prop :=
  0 < Window (limit r) /\ 2 * Window (limit r) <= max_int64 /\
  (exists n, Cache.current now (ckey r) m = Ok n /\ 0 <= n < max_int64) /\
  exists p, counterAt m (pkey r) = Ok p.

(** Counting one attempt. *)
Lemma run_take r w n prev : 0 < Window (limit r) -> 2 * Window (limit r) <= max_int64 ->
  Cache.current now (ckey r) (store w) = Ok n -> 0 <= n < max_int64 ->
  wait rnd (mkWindow (limit r) n prev (passed r)) (n + 1) <= 0 ->
  exists x, run memOps alone (take rnd digest r prev) w =
      (mkWorld (<[ckey r := mkItem (encodeInt (n + 1)) x]> (store w)) (log w), Ok (placeOf r, 0)) /\
    Cache.current now (ckey r) (<[ckey r := mkItem (encodeInt (n + 1)) x]> (store w)) = Ok (n + 1).
Proof.
  intros HW H2 Hcur Hn Hfit. unfold take, placeOf. cbn [run clock].
  destruct (buckets rnd digest r now) as [[ck pk] el]. cbn [fst snd ttl run] in *.
  assert (in_int64 (n + 1)) as Hi by (unfold in_int64, min_int64, max_int64 in *; lia).
  unfold incrementTTL, memOps, memoryOps. cbn [cCounter cIncrementTTL clock canceled].
  unfold IncrementTTL, validateCounterTTL. rewrite wrap_int64_id by (unfold in_int64, min_int64, max_int64 in *; lia).
  rewrite (proj2 (Z.leb_gt (2 * Window (limit r)) 0)) by lia. unfold increment. rewrite Hcur.
  rewrite wouldOverflow_spec, bool_decide_eq_true_2 by (done || (unfold in_int64, min_int64, max_int64 in *; lia)).
  cbn [negb]. rewrite (wrap_int64_id (n + 1)) by done. set (x := keptExpiry _ _ _ _). exists x. cbn [run].
  rewrite Z.max_l by lia. split.
  - assert (wait rnd (mkWindow (limit r) 0 prev el) (n + 1) <= 0) as Hw by exact Hfit.
    by rewrite (proj2 (Z.ltb_ge 0 _) Hw).
  - rewrite current_view, view_insert_eq.
    assert (expired now (mkItem (encodeInt (n + 1)) x) = false) as ->; [|cbn [payload]; by rewrite decodeInt_encodeInt].
    subst x. rewrite keptExpiry_view. unfold expired. cbn [expiresAt]. apply andb_false_iff.
    unfold view, expired. destruct (store w !! ck) as [i|]; cbn zeta.
    2: { right. rewrite (proj2 (Z.ltb_lt 0 _)) by lia. cbn. unfold Add. apply negb_false_iff, Before_true. lia. }
    destruct (IsZero (expiresAt i)) eqn:Ez; cbn [negb andb].
    { rewrite Ez. right. rewrite (proj2 (Z.ltb_lt 0 _)) by lia. cbn. unfold Add. apply negb_false_iff, Before_true. lia. }
    destruct (Before now (expiresAt i)) eqn:Eb; cbn [negb]; rewrite ?Ez; cbn [andb].
    + right. by rewrite Eb.
    + right. rewrite (proj2 (Z.ltb_lt 0 _)) by lia. cbn. unfold Add. apply negb_false_iff, Before_true. lia.
Qed.

(** A rule with room for one more, given its previous bucket's count. *)
Definition roomFor (m : memory) (rp : throttleRule * Z) : Prop :=
  let '(r, prev) := rp in
  0 < Window (limit r) /\ 2 * Window (limit r) <= max_int64 /\
  exists n, Cache.current now (ckey r) m = Ok n /\ 0 <= n < max_int64 /\
    wait rnd (mkWindow (limit r) n prev (passed r)) (n + 1) <= 0.

Lemma roomFor_other m m' rp : m' !! ckey rp.1 = m !! ckey rp.1 -> roomFor m rp -> roomFor m' rp.
Proof. destruct rp as [r prev]. unfold roomFor, Cache.current. cbn [fst]. by intros ->. Qed.

(** Counting in every rule. *)
Lemma run_takeAll rps : forall w keys, NoDup (map (fun rp => ckey rp.1) rps) -> Forall (roomFor (store w)) rps ->
  exists w', run memOps alone (takeAll rnd digest rps keys) w = (w', Ok (keys ++ map (fun rp => placeOf rp.1) rps)) /\
    (forall rp, rp ∈ rps -> exists n, Cache.current now (ckey rp.1) (store w) = Ok n /\
       Cache.current now (ckey rp.1) (store w') = Ok (n + 1)) /\
    forall key, (key ∉ map (fun rp => ckey rp.1) rps) -> store w' !! key = store w !! key.
Proof.
  induction rps as [|[r prev] rps IH]; intros w keys Hnd Hroom.
  { exists w. cbn. rewrite app_nil_r. split; [done|]. split; [set_solver | done]. }
  cbn [map fst] in Hnd. apply NoDup_cons in Hnd as [Hnotin Hnd]. inversion Hroom as [|? ? Hr Hroom']; subst.
  destruct Hr as (HW & H2 & n & Hcur & Hn & Hfit). cbn [takeAll].
  destruct (run_take r w n prev HW H2 Hcur Hn Hfit) as (x & Hrun & Hcur'). rewrite run_bind, Hrun. cbn [Z.ltb Z.compare].
  set (w1 := mkWorld (<[ckey r := _]> (store w)) (log w)).
  assert (forall key, key <> ckey r -> store w1 !! key = store w !! key) as Hother
    by (intros key Hk; cbn [store w1]; by rewrite lookup_insert_ne).
  assert (forall rp, rp ∈ rps -> ckey rp.1 <> ckey r) as Hne.
  { intros rp Hrp E. apply Hnotin. rewrite <- E.
    apply list_elem_of_In, (in_map (fun rp => ckey rp.1)), list_elem_of_In, Hrp. }
  destruct (IH w1 (keys ++ [placeOf r]) Hnd) as (w' & Hw' & Hin & Hout).
  { apply Forall_forall. intros rp Hrp. eapply roomFor_other; [|by eapply Forall_forall in Hroom'].
    by apply Hother, Hne. }
  exists w'. rewrite Hw', <- app_assoc. split; [done|]. split.
  - intros rp [->|Hrp]%elem_of_cons; cbn [fst].
    + exists n. split; [done|]. cbn [store w1] in Hout. unfold Cache.current in *. by rewrite (Hout _ Hnotin).
    + destruct (Hin rp Hrp) as (n' & Hn' & Hn''). exists n'. split; [|done].
      unfold Cache.current in *. by rewrite <- (Hother (ckey rp.1)) by auto.
  - intros key [Hk Hk']%not_elem_of_cons. by rewrite Hout, Hother.
Qed.

(** A reservation alone takes one place in every rule that is on and has a subject, and
    touches no other key; where a rule is full it is refused with the wait of that rule and
    leaves every count as it was. *)
Theorem reserve_alone rules w :
  let act := List.filter active rules in
  NoDup (map (fun r => ckey r) act) -> Forall (countable (store w)) act ->
  exists w' res, run memOps alone (reserve rnd digest false rules) w = (w', res) /\
  match refusal (store w) act with
  | Some e => res = Err e /\ live_equiv now (store w') (store w)
  | None =>
      res = Ok (map placeOf act) /\
      (forall r, r ∈ act -> exists n, Cache.current now (ckey r) (store w) = Ok n /\
         Cache.current now (ckey r) (store w') = Ok (n + 1)) /\
      forall key t, (key ∉ map (fun r => ckey r) act) -> now <= t -> view t (store w') key = view t (store w) key
  end.
Proof.
  intros act Hnd Hct. unfold reserve. fold act. rewrite run_bind.
  destruct (run_readAll act w) as (w1 & H1 & ->). destruct (refusal (store w) act) as [e|] eqn:Href.
  { by exists w1, (Err e). }
  assert (zip act (map (previousAt (store w)) act) = map (fun r => (r, previousAt (store w) r)) act) as ->
    by (clear; induction act; [done|]; cbn; by f_equal).
  set (rps := map _ act).
  assert (map (fun rp => ckey rp.1) rps = map (fun r => ckey r) act) as Hck by (subst rps; by rewrite map_map).
  assert (map (fun rp : throttleRule * Z => placeOf rp.1) rps = map placeOf act) as Hpl by (subst rps; by rewrite map_map).
  assert (forall key, Cache.current now key (store w1) = Cache.current now key (store w)) as Hcur.
  { intros key. rewrite !current_view. by rewrite (H1 key now) by lia. }
  destruct (run_takeAll rps w1 []) as (w' & Hw' & Hin & Hout); [by rewrite Hck| |].
  - subst rps. apply Forall_map. clear Hck Hpl. revert Href Hct. clear -Hcur. induction act as [|r rs IH]; [constructor|].
    cbn [refusal]. destruct (0 <? waits (store w) r) eqn:Ew; [done|]. intros Href Hct.
    inversion Hct as [|? ? (HW & H2 & (n & Hn & Hb) & (p & Hp)) Hct']; subst. constructor; [|by apply IH].
    split; [done|]. split; [done|]. exists n. rewrite Hcur. split; [done|]. split; [done|]. breflect.
    unfold waits in Ew. unfold previousAt. rewrite (counterAt_current _ _ _ Hn), Hp in *.
    by rewrite wrap_int64_id in Ew by (unfold in_int64, min_int64, max_int64 in *; lia).
  - exists w', (Ok (map placeOf act)). rewrite Hw', Hpl. split; [done|]. split; [done|]. split.
    + intros r Hr. destruct (Hin (r, previousAt (store w) r)) as (n & Hn & Hn').
      { subst rps. apply list_elem_of_In, (in_map (fun r => (r, previousAt (store w) r))), list_elem_of_In, Hr. }
      cbn [fst] in *. rewrite Hcur in Hn. eauto.
    + intros key t Hk Ht. rewrite <- Hck in Hk. unfold view. rewrite (Hout key Hk). by apply (H1 key t).
Qed.
End Alone.

(** ** A cache that fails, a cache that keeps nothing *)

(** A cache that answers every call with an error locks nobody out: the reservation is
    granted without a place. *)
Theorem reserve_fails_open {S} (ops : env -> CacheOps S) rnd digest e disabled rules :
  (forall key s, exists err, (cGet (ops e) key s).2 = Err err) ->
  (forall key delta ttl s, exists err, (incrementTTL (ops e) key delta ttl s).2 = Err err) ->
  forall w, exists w', run ops e (reserve rnd digest disabled rules) w = (w', Ok []).
Proof.
  intros Hget Hinc. unfold reserve. destruct disabled; [by eexists|]. generalize (List.filter active rules). intros act.
  assert (forall w, exists w', run ops e (readAll rnd digest act) w = (w', Ok (map (fun _ => 0) act))) as Hread.
  { induction act as [|r act IH]; intros w; [by eexists|]. cbn [readAll]. rewrite run_bind. unfold read. cbn [run].
    destruct (buckets rnd digest r _) as [[ck pk] el]. cbn [run]. destruct (Hget ck (store w)) as [err Herr].
    destruct (cGet (ops e) ck (store w)) as [s g]. cbn in Herr. subst g. cbn [counterOf run].
    rewrite run_bind. destruct (IH (mkWorld s (warn (clock e 0%nat) (log w)).1)) as [w' Hw']. cbn [store log].
    rewrite Hw'. by eexists. }
  intros w. rewrite run_bind. destruct (Hread w) as [w1 ->]. clear Hread.
  generalize (zip act (map (fun _ => 0) act)). intros rps. revert w1.
  induction rps as [|[r prev] rps IH]; intros w1; [by eexists|]. cbn [takeAll]. rewrite run_bind. unfold take. cbn [run].
  destruct (buckets rnd digest r _) as [[ck pk] el]. cbn [run ttl]. set (t := wrap_int64 _).
  destruct (Hinc ck 1 t (store w1)) as [err Herr]. destruct (incrementTTL (ops e) ck 1 t (store w1)) as [s c].
  cbn in Herr. subst c. cbn [run]. apply IH.
Qed.

(** The probe tells a cache that counts from one that does not: it reports a no-op cache as
    unable to enforce limits, and a counting one as able, leaving no key behind. *)
Theorem probe_decides nonce e now m l :
  (run (fun e => Noop (S := memory) (canceled e)) e (probe nonce) (mkWorld m l)).2 =
    (if canceled e then Unreachable CtxErr else Decided true) /\
  (let key := ("auth:throttle:probe:" ++ nonce)%string in
   view now m key = None ->
   exists m', run memOps (mkEnv false (fun _ => now)) (probe nonce) (mkWorld m l) = (mkWorld m' l, Decided false) /\
     live_equiv now m' m).
Proof.
  split.
  { cbn [run probe]. destruct e as [c clk]. cbn. by destruct c. }
  intros key Hv. unfold probe. fold key. set (m1 := <[key := mkItem (encodeInt 1) (now + Minute)]> m).
  set (e1 := mkEnv false (fun _ => now)).
  assert (incrementTTL (memOps e1) key 1 Minute m = (m1, Ok 1)) as Hinc by exact (IncrementTTL_fresh (fun _ => now) key Minute m eq_refl Hv (Z.le_refl now)).
  assert (expired now (mkItem (encodeInt 1) (now + Minute)) = false) as Hx.
  { unfold expired. cbn [expiresAt]. apply andb_false_iff. right. apply negb_false_iff, Before_true. unfold Minute, Second. lia. }
  assert (cGet (memOps e1) key m1 = (m1, Ok (Some (encodeInt 1)))) as Hget.
  { cbn. unfold Get. cbn [canceled clock e1]. subst m1. by rewrite lookup_insert_eq, Hx. }
  cbn [run store log]. rewrite Hinc. cbn [run store log]. rewrite Hget. cbn [counterOf].
  rewrite decodeInt_encodeInt by (split; vm_compute; discriminate). cbn [run store log].
  change (cDelete (memOps e1) [key] m1) with (delete key m1, @None cacheError). cbn iota beta.
  eexists. split; [reflexivity|]. intros k' t Ht. destruct (decide (k' = key)) as [->|Hne].
  - rewrite view_delete_eq. symmetry. by apply (view_later now).
  - rewrite view_delete_ne by done. subst m1. by rewrite view_insert_ne.
Qed.

(** The warning and the refusal of a rule are logged at most once a minute. *)
Lemma logRefusal_once now rule l l' : logRefusal now rule l = (l', true) ->
  forall now', now <= now' < now + Minute -> (logRefusal now' rule l').2 = false.
Proof.
  unfold logRefusal. intros E now' Hnow. injection E as <- Elog. rewrite Elog. cbn [refusing].
  rewrite lookup_insert_eq. cbn [snd]. apply Z.leb_gt. lia.
Qed.

(** ** Witnesses *)

Definition demo_digest (s : string) : string := "00".
Definition demo_rule : throttleRule := mkRule "LoginPerAddress" (mkLimit 2 Minute) "10.0.0.1".
Definition demo_now : time := (unixEpoch + 1700000000) * Second.
Definition demo_env : env := mkEnv false (fun _ => demo_now).
Definition demo_world : world := mkWorld (∅ : memory) (mkLog ∅ 0).
Definition exact : Q -> Q := fun x => x.

(** An attempt's calls, one after the other. *)
Fixpoint drive {S A} (ops : env -> CacheOps S) (n : nat) (p : prog A) (w : world) : world * prog A :=
  match n with
  | O => (w, p)
  | Datatypes.S n => let '(w, p) := advance ops demo_env p w in drive ops n p w
  end.

Lemma drive_steps policy t0 T n : env_ok t0 T demo_env -> forall p w w' p',
  drive memOps n p w = (w', p') -> rtc (pool_step memOps t0 T exact demo_digest policy) (w, [p]) (w', [p']).
Proof.
  intros He. induction n as [|n IH]; intros p w w' p'; cbn [drive]; [intros [= -> ->]; constructor|].
  destruct (advance memOps demo_env p w) as [w1 p1] eqn:E. intros H. eapply rtc_l; [|by apply IH].
  by apply (StepCall memOps t0 T exact demo_digest policy demo_env w w1 [] p p1 []).
Qed.

Definition demo_key : string := (throttleKeyBase demo_digest demo_rule ++ encodeInt 28333333)%string.

Definition demo_final := drive memOps 6 (reserve exact demo_digest false [demo_rule]) demo_world.

Lemma throttle_limit_holds_witness :
  granted demo_key [demo_final.2] = 1%nat /\ Z.of_nat (granted demo_key [demo_final.2]) <= 2.
Proof.
  split; [vm_compute; reflexivity|].
  assert (policy_rule (fun _ => mkLimit 2 Minute) demo_rule) as Hr.
  { split; [reflexivity|]. apply (bool_decide_unpack _). vm_compute. exact I. }
  apply (throttle_limit_holds memOps demo_now (demo_now + 2 * Minute) exact demo_digest (fun _ => mkLimit 2 Minute)
    demo_rule 28333333 demo_world (demo_final.1, [demo_final.2])).
  - exact Hr.
  - reflexivity.
  - intros n. vm_compute. discriminate.
  - reflexivity.
  - vm_compute. discriminate.
  - reflexivity.
  - split; [split; vm_compute; discriminate|]. left. split; [reflexivity|]. reflexivity.
  - eapply rtc_l; [exact (StepAttempt memOps _ _ exact demo_digest _ demo_world [] false [demo_rule] (List.Forall_cons _ _ _ Hr (List.Forall_nil _)))|].
    apply (drive_steps _ _ _ 6); [|unfold demo_final; by destruct (drive _ _ _ _)].
    repeat split; vm_compute; discriminate || reflexivity.
Defined.

Lemma reserve_alone_witness :
  exists w' res, run memOps demo_env (reserve exact demo_digest false [demo_rule]) demo_world = (w', res) /\
    res = Ok [placeOf exact demo_digest demo_now demo_rule].
Proof.
  destruct (reserve_alone exact demo_digest demo_now [demo_rule] demo_world) as (w' & res & Hrun & H).
  - apply NoDup_singleton.
  - constructor; [|constructor]. split; [reflexivity|]. split; [vm_compute; discriminate|]. split.
    + exists 0. split; [vm_compute; reflexivity|]. split; [lia | reflexivity].
    + exists 0. vm_compute. reflexivity.
  - exists w', res. split; [exact Hrun|]. replace (refusal _ _ _ _ _) with (@None ThrottleError) in H by (vm_compute; reflexivity).
    exact (proj1 H).
Defined.

(** A cache whose every call fails. *)
Definition brokenOps (e : env) : CacheOps unit :=
  mkCacheOps (fun _ s => (s, Err UnmarshalErr)) (fun _ _ _ s => (s, Some UnmarshalErr)) (fun _ s => (s, Some UnmarshalErr))
    (fun _ _ s => (s, Err UnmarshalErr))
    (Some (mkCounterOps (fun _ _ _ s => (s, Err UnmarshalErr)) (fun _ _ s => (s, (0, false, Some UnmarshalErr))))).

Lemma reserve_fails_open_witness :
  exists w', run brokenOps demo_env (reserve exact demo_digest false [demo_rule]) (mkWorld tt (mkLog ∅ 0)) = (w', Ok []).
Proof.
  apply (reserve_fails_open brokenOps).
  - intros key s. by exists UnmarshalErr.
  - intros key delta ttl s. unfold incrementTTL. destruct (validateCounterTTL ttl) as [err|]; [by exists err | by exists UnmarshalErr].
Defined.

Lemma probe_decides_witness :
  exists m', run memOps demo_env (probe "ab") demo_world = (mkWorld m' (mkLog ∅ 0), Decided false) /\
    live_equiv demo_now m' ∅.
Proof.
  apply (proj2 (probe_decides "ab" demo_env demo_now ∅ (mkLog ∅ 0))). reflexivity.
Defined.
