(* ===== verification/Decimal.v ===== *)
(** * types/decimal.go, database/decimal.go: exact decimals

    A shopspring decimal is a coefficient and a power of ten.  The library's parser and its
    comparison are arguments; measuring a value, measuring a spelling without parsing it,
    the size rule, and the check that a column stores a value exactly are the code. *)

From stdpp Require Import base tactics numbers list strings.
From Stdlib Require Import ZArith Lia Ascii QArith.
From S2P Require Import Prelude GoBytes Float64.

Local Open Scope string_scope.
Local Open Scope list_scope.
Local Open Scope Z_scope.

(** [decimal.Decimal]: Coefficient * 10 ^ Exponent. *)
Record decimal : Type := mkDecimal { Coefficient : Z; Exponent : Z }.

Definition MaxDecimalDigits : Z := 1000.
Definition maxDecimalSpelling : Z := 3 * MaxDecimalDigits + 32.

Record DecimalShape : Type := mkShape { Whole : Z; Frac : Z; Significant : Z }.

Definition zeroShape : DecimalShape := mkShape 0 0 0.

(** [Digits] *)
Definition Digits (s : DecimalShape) : Z := Z.max (Whole s) 1 + Frac s.

(** ** Measuring a value *)

(** The loops on a uint64: at most twenty digits. *)
Fixpoint stripZeros (fuel : nat) (v exponent : Z) : Z * Z :=
  match fuel with
  | O => (v, exponent)
  | S fuel => if v mod 10 =? 0 then stripZeros fuel (v / 10) (exponent + 1) else (v, exponent)
  end.

Fixpoint countDigits (fuel : nat) (n v : Z) : Z :=
  match fuel with
  | O => n
  | S fuel => if 10 <=? v then countDigits fuel (n + 1) (v / 10) else n
  end.

(** [big.Int.String]: the digits, the most significant first. *)
Fixpoint digitsOf (fuel : nat) (c : Z) (acc : list Z) : list Z :=
  match fuel with
  | O => acc
  | S fuel => if c <? 10 then c :: acc else digitsOf fuel (c / 10) (c mod 10 :: acc)
  end.

(** [big.Int.BitLen] *)
Definition BitLen (c : Z) : Z := if c =? 0 then 0 else Z.log2 c + 1.

Definition bigString (c : Z) : list Z := digitsOf (Z.to_nat (BitLen c)) c [].

(** [for n > 1 && digits[n-1] == '0' { n-- }], over the digits from the last. *)
Fixpoint dropTrailing (rdigits : list Z) : list Z :=
  match rdigits with
  | d :: ((_ :: _) as rest) => if d =? 0 then dropTrailing rest else rdigits
  | _ => rdigits
  end.

(** The digits [n] without trailing zeros and the exponent make the shape; [None] is
    errDecimalTooLarge. *)
Definition shapeFrom (n exponent : Z) : option DecimalShape :=
  let shape := mkShape (if 0 <? n + exponent then n + exponent else 0)
                 (if exponent <? 0 then - exponent else 0)
                 (if exponent <? 0 then n else n + exponent) in
  if MaxDecimalDigits <? Digits shape then None else Some shape.

Definition log10_2 : Q := 30102999566398119521 # 100000000000000000000.

Section Float.
Variable rnd : Q -> Q.

(** [int(float64(c.BitLen())*0.30102999566398119521) + 1] *)
Definition digitEstimate (c : Z) : Z := trunc (rnd (float64 rnd (BitLen c) * rnd log10_2)) + 1.

(** [DecimalShapeOf] *)
Definition DecimalShapeOf (d : decimal) : option DecimalShape :=
  let exponent := Exponent d in
  if (MaxDecimalDigits <? exponent) || (exponent <? - MaxDecimalDigits) then None
  else if Coefficient d =? 0 then Some zeroShape
  else
    let c := Z.abs (Coefficient d) in
    if c <=? max_uint64 then
      let '(v, exponent) := stripZeros 20 c exponent in
      shapeFrom (countDigits 20 1 v) exponent
    else if 3 * MaxDecimalDigits + 1 <? digitEstimate c then None
    else
      let digits := bigString c in
      let n := Z.of_nat (length (dropTrailing (rev digits))) in
      shapeFrom n (exponent + (Z.of_nat (length digits) - n)).

(** [CheckDecimalSize]: whether the value is within the size rule. *)
Definition CheckDecimalSize (d : decimal) : bool :=
  match DecimalShapeOf d with Some _ => true | None => false end.

(** [CheckDecimalSpelling] *)
Definition CheckDecimalSpelling (s : bytes) : bool := Z.of_nat (length s) <=? maxDecimalSpelling.

(** ** Measuring a spelling *)

Definition is_digit (c : ascii) : bool := within 48 57 c.
Definition digit (c : ascii) : Z := code c - 48.

(** [for i < len(s) && '0' <= s[i] && s[i] <= '9' { i++ }] *)
Fixpoint spanDigits (s : bytes) : bytes * bytes :=
  match s with
  | c :: rest => if is_digit c then let '(a, b) := spanDigits rest in (c :: a, b) else ([], s)
  | [] => ([], [])
  end.

(** An optional sign: whether it is '-', and what follows. *)
Definition takeSign (s : bytes) : bool * bytes :=
  match s with
  | c :: rest => if Ascii.eqb c "+" then (false, rest) else if Ascii.eqb c "-" then (true, rest) else (false, s)
  | [] => (false, [])
  end.

Definition numberOf (digits : bytes) : Z := fold_left (fun n c => n * 10 + digit c) digits 0.

(** The exponent part, the whole of what is left: [None] when it is not one. *)
Definition takeExponent (s : bytes) : option Z :=
  match s with
  | [] => Some 0
  | c :: rest =>
      if Ascii.eqb c "e" || Ascii.eqb c "E" then
        let '(negative, rest) := takeSign rest in
        let '(ds, rest) := spanDigits rest in
        if (9 <? Z.of_nat (length ds)) || bool_decide (ds = []) then None
        else if bool_decide (rest = []) then Some (if negative then - numberOf ds else numberOf ds)
        else None
      else None
  end.

(** The sign, the digits before and after the point and the exponent of a plain spelling. *)
Definition splitSpelling (s : bytes) : option (bool * bytes * bytes * Z) :=
  let '(negative, s) := takeSign s in
  let '(ints, s) := spanDigits s in
  let '(frac, s) :=
    match s with
    | c :: rest => if Ascii.eqb c "." then spanDigits rest else ([], s)
    | [] => ([], [])
    end in
  if bool_decide (ints = []) && bool_decide (frac = []) then None
  else match takeExponent s with
  | Some e => Some (negative, ints, frac, e)
  | None => None
  end.

(** The first and the last non-zero digit, by index. *)
Fixpoint firstLast (k first last : Z) (digits : bytes) : Z * Z :=
  match digits with
  | [] => (first, last)
  | c :: digits =>
      if Ascii.eqb c "0" then firstLast (k + 1) first last digits
      else firstLast (k + 1) (if first <? 0 then k else first) k digits
  end.

Inductive spelled : Type :=
| NotPlain
| Plain (shape : option DecimalShape).

(** [spellingShape] *)
Definition spellingShape (s : bytes) : spelled :=
  match splitSpelling s with
  | None => NotPlain
  | Some (_, ints, frac, exp) =>
      let exponent := exp - Z.of_nat (length frac) in
      if (MaxDecimalDigits <? exponent) || (exponent <? - MaxDecimalDigits) then Plain None
      else
        let digits := ints ++ frac in
        let '(first, last) := firstLast 0 (-1) (-1) digits in
        if first <? 0 then Plain (Some zeroShape)
        else Plain (shapeFrom (last - first + 1) (exponent + (Z.of_nat (length digits) - 1 - last)))
  end.

(** [IsPlainDecimalSpelling] *)
Definition IsPlainDecimalSpelling (s : bytes) : bool :=
  match spellingShape s with Plain _ => true | NotPlain => false end.

(** [checkSpelledDecimal]: whether the value parsed from the spelling is within the rule. *)
Definition checkSpelledDecimal (s : bytes) (parsed : decimal) : bool :=
  match spellingShape s with
  | Plain (Some _) => true
  | Plain None => false
  | NotPlain => CheckDecimalSize parsed
  end.

(** ** Parsing *)

Inductive decimal_error : Type :=
| DecimalTooLarge
| NotFinite
| ParseError                     (* shopspring's own *)
| BelowMin | AboveMax | BadMin | BadMax.

Section Parsing.
(** [decimal.NewFromString], which UnmarshalText calls; UnmarshalJSON unquotes first. *)
Variable NewFromString : bytes -> option decimal.

(** [NewDecimalFromString] *)
Definition NewDecimalFromString (s : bytes) : result decimal_error decimal :=
  if negb (CheckDecimalSpelling s) then Err DecimalTooLarge
  else match NewFromString s with
  | None => Err ParseError
  | Some d => if checkSpelledDecimal s d then Ok d else Err DecimalTooLarge
  end.

(** [Decimal.UnmarshalText]; the receiver is unchanged on an error. *)
Definition UnmarshalText (b : bytes) (d : decimal) : decimal * option decimal_error :=
  match NewDecimalFromString b with
  | Ok inner => (inner, None)
  | Err e => (d, Some e)
  end.

Definition quote : ascii := byte_of 34.

(** The text between the quotes of a JSON string, or the bytes as they are. *)
Definition unquoted (b : bytes) : bytes :=
  match b, last b with
  | c :: ((_ :: _) as rest), Some l =>
      if Ascii.eqb c quote && Ascii.eqb l quote then removelast rest else b
  | _, _ => b
  end.

(** [Decimal.UnmarshalJSON]; [innerJSON] is shopspring's UnmarshalJSON. *)
Definition UnmarshalJSON (innerJSON : bytes -> option decimal) (b : bytes) (d : decimal) :
    decimal * option decimal_error :=
  if bool_decide (b = of_string "null") then (d, None)
  else if maxDecimalSpelling <? Z.of_nat (length b) then (d, Some DecimalTooLarge)
  else match innerJSON b with
  | None => (d, Some ParseError)
  | Some inner =>
      if checkSpelledDecimal (unquoted b) inner then (inner, None) else (d, Some DecimalTooLarge)
  end.

(** A value a database driver returns. *)
Inductive driverValue : Type :=
| DriverFloat (finite : bool)
| DriverText (s : bytes)
| DriverOther.

(** [Decimal.Scan]; [innerScan] is shopspring's Scan. *)
Definition Scan (innerScan : driverValue -> option decimal) (v : driverValue) (d : decimal) :
    decimal * option decimal_error :=
  match v with
  | DriverFloat false => (d, Some NotFinite)
  | DriverText s =>
      if maxDecimalSpelling <? Z.of_nat (length s) then (d, Some DecimalTooLarge)
      else match innerScan v with
      | None => (d, Some ParseError)
      | Some inner => if checkSpelledDecimal s inner then (inner, None) else (d, Some DecimalTooLarge)
      end
  | _ =>
      match innerScan v with
      | None => (d, Some ParseError)
      | Some inner => if CheckDecimalSize inner then (inner, None) else (d, Some DecimalTooLarge)
      end
  end.

(** [DecimalWithin]; [less a b] is shopspring's a.LessThan(b), b.GreaterThan(a). *)
Definition DecimalWithin (less : decimal -> decimal -> bool) (d : decimal) (min max : bytes) :
    option decimal_error :=
  match (if bool_decide (min = []) then None
         else match NewFromString min with
         | None => Some BadMin
         | Some bound => if less d bound then Some BelowMin else None
         end) with
  | Some e => Some e
  | None =>
      if bool_decide (max = []) then None
      else match NewFromString max with
      | None => Some BadMax
      | Some bound => if less bound d then Some AboveMax else None
      end
  end.

(** ** database/decimal.go: what a column stores exactly *)

Definition asciiSpace : list bytes := map (map byte_of) [[32]; [9]; [10]; [11]; [12]; [13]]%nat.

(** [parseDecimal]; [None] is notDecimal. *)
Definition parseDecimal (s : bytes) : option decimal :=
  if negb (CheckDecimalSpelling s) then None
  else
    let trimmed := trim_right asciiSpace (trim_left asciiSpace s) in
    if negb (IsPlainDecimalSpelling trimmed) then None else NewFromString trimmed.
End Parsing.

Definition SQLiteDecimalDigits : Z := 15.
Definition sqliteDecimalMaxExponent : Z := 307.

Inductive storage_problem : Type :=
| TooManyDigits | TooManyWhole | TooManyFrac | TooManyForSQLite | OutsideSQLiteRange | NegativeUnsigned.

(** The decimal exponent of the leading digit. *)
Definition magnitudeOf (shape : DecimalShape) : Z :=
  if Whole shape =? 0 then Significant shape - Frac shape - 1 else Whole shape - 1.

(** [DecimalStorageProblem] *)
Definition DecimalStorageProblem (d : decimal) (precision scale : Z) (sqlite : bool) : option storage_problem :=
  match DecimalShapeOf d with
  | None => Some TooManyDigits
  | Some shape =>
      if Significant shape =? 0 then None
      else if (0 <? precision) && (precision - scale <? Whole shape) then Some TooManyWhole
      else if (0 <? precision) && (scale <? Frac shape) then Some TooManyFrac
      else if sqlite then
        if SQLiteDecimalDigits <? Significant shape then Some TooManyForSQLite
        else if (sqliteDecimalMaxExponent <? magnitudeOf shape) ||
                (magnitudeOf shape <? - sqliteDecimalMaxExponent) then Some OutsideSQLiteRange
        else None
      else None
  end.

(** [columnProblem] of a column that is not text *)
Definition columnProblem (d : decimal) (precision scale : Z) (unsigned sqlite : bool) : option storage_problem :=
  if unsigned && (Coefficient d <? 0) then Some NegativeUnsigned
  else DecimalStorageProblem d precision scale sqlite.
End Float.
