(* ===== verification/DecimalFacts.v ===== *)
(** * Decimals: measuring a spelling and measuring its value agree

    [normal] says how many digits a positive integer has once its trailing zeros are taken
    off.  Both measures of the code compute it, whichever way they take, so they agree; and
    from it follows what a decimal(p,s) column stores exactly. *)

From stdpp Require Import base tactics numbers list strings sets.
From Stdlib Require Import ZArith Lia Ascii QArith Lqa.
From S2P Require Import Prelude GoBytes Float64 Decimal.

Local Open Scope list_scope.
Local Open Scope Z_scope.

(** [c] is [n] digits, the last not zero, followed by [z] zeros. *)
Definition normal (c n z : Z) : Prop :=
  0 <= z /\ 1 <= n /\ exists m, c = m * 10 ^ z /\ m mod 10 <> 0 /\ 10 ^ (n - 1) <= m < 10 ^ n.

Lemma pow10_pos z : 0 <= z -> 0 < 10 ^ z.
Proof. intros. apply Z.pow_pos_nonneg; lia. Qed.

Lemma pow10_lt_inv a b : 0 <= b -> 10 ^ a < 10 ^ b -> a < b.
Proof. intros Hb H. apply (Z.pow_lt_mono_r_iff 10 a b); lia. Qed.

Lemma normal_pos c n z : normal c n z -> 0 < c.
Proof.
  intros (Hz & Hn & m & -> & _ & Hb). pose proof (pow10_pos z Hz).
  pose proof (pow10_pos (n - 1) ltac:(lia)). nia.
Qed.

Lemma normal_abs c (negative : bool) n z : normal c n z -> normal (Z.abs (if negative then - c else c)) n z.
Proof. intros H. pose proof (normal_pos _ _ _ H). by replace (Z.abs _) with c by (destruct negative; lia). Qed.

Lemma normal_unique c n z n' z' : normal c n z -> normal c n' z' -> n = n' /\ z = z'.
Proof.
  assert (forall n z n' z', normal c n z -> normal c n' z' -> z <= z' -> n = n' /\ z = z') as H.
  { clear. intros n z n' z' (Hz & Hn & m & -> & Hm & Hb) (Hz' & Hn' & m' & Hc & Hm' & Hb') Hle.
    replace z' with ((z' - z) + z) in Hc by lia. rewrite Z.pow_add_r, Z.mul_assoc in Hc by lia.
    apply Z.mul_cancel_r in Hc; [|pose proof (pow10_pos z Hz); lia].
    destruct (Z.eq_dec z z') as [->|Hne].
    - rewrite Z.sub_diag, Z.mul_1_r in Hc. subst m'. split; [|done].
      pose proof (pow10_lt_inv (n - 1) n' ltac:(lia) ltac:(lia)).
      pose proof (pow10_lt_inv (n' - 1) n ltac:(lia) ltac:(lia)). lia.
    - exfalso. apply Hm. rewrite Hc. replace (z' - z) with (z' - z - 1 + 1) by lia.
      rewrite Z.pow_add_r, Z.mul_assoc by lia. apply Z.mod_mul. lia. }
  intros H1 H2. destruct (Z.le_ge_cases z z'); [by apply H|].
  destruct (H n' z' n z H2 H1); [lia | done].
Qed.

(** ** The loops on a uint64 *)

Lemma stripZeros_spec fuel : forall v e, 0 < v < 10 ^ Z.of_nat fuel ->
  exists m z, stripZeros fuel v e = (m, e + z) /\ v = m * 10 ^ z /\ 0 <= z /\ m mod 10 <> 0 /\ 0 < m.
Proof.
  induction fuel as [|fuel IH]; intros v e Hv; [simpl in Hv; lia|]. cbn [stripZeros].
  destruct (v mod 10 =? 0) eqn:E; breflect.
  - assert (v = 10 * (v / 10)) as Hq by (apply Z.div_exact; lia).
    rewrite Nat2Z.inj_succ, Z.pow_succ_r in Hv by lia.
    destruct (IH (v / 10) (e + 1)) as (m & z & -> & Hm & Hz & Hmod & Hpos); [lia|].
    exists m, (z + 1). split; [f_equal; lia|]. split; [|split; [lia | done]].
    rewrite Hq, Hm, Z.pow_add_r by lia. lia.
  - exists v, 0. rewrite Z.add_0_r, Z.mul_1_r. repeat split; try done; lia.
Qed.

Lemma countDigits_spec fuel : forall n v, 0 < v < 10 ^ (Z.of_nat fuel + 1) ->
  exists k, 0 <= k /\ countDigits fuel n v = n + k /\ 10 ^ k <= v < 10 ^ (k + 1).
Proof.
  induction fuel as [|fuel IH]; intros n v Hv; cbn [countDigits].
  - exists 0. rewrite Z.add_0_r. change (10 ^ (Z.of_nat 0 + 1)) with 10 in Hv.
    change (10 ^ 0) with 1. change (10 ^ (0 + 1)) with 10. lia.
  - destruct (10 <=? v) eqn:E; breflect.
    + assert (0 < v / 10 < 10 ^ (Z.of_nat fuel + 1)) as Hv'.
      { split; [apply Z.div_str_pos; lia|]. apply Z.div_lt_upper_bound; [lia|].
        rewrite <- Z.pow_succ_r by lia. replace (Z.succ _) with (Z.of_nat (S fuel) + 1) by lia. lia. }
      destruct (IH (n + 1) (v / 10) Hv') as (k & Hk & -> & Hlo & Hhi). exists (k + 1).
      split; [lia|]. split; [lia|]. rewrite !(Z.pow_add_r 10 _ 1), Z.pow_1_r in * by lia.
      pose proof (Z.div_mod v 10 ltac:(lia)). pose proof (Z.mod_pos_bound v 10 ltac:(lia)). lia.
    + exists 0. rewrite Z.add_0_r. change (10 ^ 0) with 1. change (10 ^ (0 + 1)) with 10. lia.
Qed.

(** ** Lists of digits *)

Definition valD (l : list Z) : Z := fold_left (fun n d => n * 10 + d) l 0.

Lemma valD_acc l : forall a, fold_left (fun n d => n * 10 + d) l a = a * 10 ^ Z.of_nat (length l) + valD l.
Proof.
  unfold valD. induction l as [|d l IH]; intros a; cbn [fold_left length]; [lia|].
  rewrite IH, (IH (0 * 10 + d)), Nat2Z.inj_succ, Z.pow_succ_r by lia. lia.
Qed.

Lemma valD_app a b : valD (a ++ b) = valD a * 10 ^ Z.of_nat (length b) + valD b.
Proof. unfold valD at 1. rewrite fold_left_app. apply valD_acc. Qed.

Lemma valD_cons d l : valD (d :: l) = d * 10 ^ Z.of_nat (length l) + valD l.
Proof. change (d :: l) with ([d] ++ l). rewrite valD_app. unfold valD at 1. simpl. lia. Qed.

Lemma valD_zeros k : valD (replicate k 0) = 0.
Proof. induction k as [|k IH]; [done|]. cbn [replicate]. rewrite valD_cons. lia. Qed.

Lemma valD_bound l : Forall (fun d => 0 <= d < 10) l -> 0 <= valD l < 10 ^ Z.of_nat (length l).
Proof.
  induction 1 as [|d l Hd _ IH]; [done|]. rewrite valD_cons. cbn [length].
  rewrite Nat2Z.inj_succ, Z.pow_succ_r by lia. nia.
Qed.

(** Zeros, then digits that neither start nor end with zero, then zeros. *)
Lemma normal_digits a mid b :
  Forall (fun d => 0 <= d < 10) mid -> (exists d, head mid = Some d /\ d <> 0) ->
  (exists d, last mid = Some d /\ d <> 0) ->
  normal (valD (replicate a 0 ++ mid ++ replicate b 0)) (Z.of_nat (length mid)) (Z.of_nat b).
Proof.
  intros Hall (h & Hh & Hh0) (t & Ht & Ht0).
  rewrite valD_app, valD_zeros, valD_app, valD_zeros, length_replicate, Z.add_0_r, Z.mul_0_l, Z.add_0_l.
  assert (1 <= Z.of_nat (length mid)) by (destruct mid; [done | simpl; lia]).
  split; [lia|]. split; [done|]. exists (valD mid). split; [done|]. split.
  - apply last_Some in Ht as [l ->]. rewrite valD_app. change (10 ^ Z.of_nat (length [t])) with 10.
    unfold valD at 2. simpl. apply Forall_app in Hall as [_ Hall]. inversion Hall; subst.
    rewrite Z.add_comm, Z.mod_add, Z.mod_small by lia. done.
  - split; [|apply valD_bound; done]. destruct mid as [|h' mid]; [done|]. simpl in Hh. injection Hh as ->.
    inversion Hall; subst. rewrite valD_cons. cbn [length].
    replace (Z.of_nat (S (length mid)) - 1) with (Z.of_nat (length mid)) by lia.
    pose proof (valD_bound mid ltac:(done)). pose proof (pow10_pos (Z.of_nat (length mid)) ltac:(lia)). nia.
Qed.

(** ** [big.Int.String] *)

Lemma digitsOf_spec fuel : forall c acc, 0 < c < 2 ^ Z.of_nat fuel ->
  exists l, digitsOf fuel c acc = l ++ acc /\ valD l = c /\ Forall (fun d => 0 <= d < 10) l /\
    exists d, head l = Some d /\ d <> 0.
Proof.
  induction fuel as [|fuel IH]; intros c acc Hc; [simpl in Hc; lia|]. cbn [digitsOf].
  destruct (c <? 10) eqn:E; breflect.
  - exists [c]. split; [done|]. split; [unfold valD; simpl; lia|].
    split; [repeat constructor; lia|]. exists c. split; [done | lia].
  - rewrite Nat2Z.inj_succ, Z.pow_succ_r in Hc by lia.
    assert (0 < c / 10 < 2 ^ Z.of_nat fuel) as Hq.
    { split; [apply Z.div_str_pos; lia | apply Z.div_lt_upper_bound; lia]. }
    destruct (IH (c / 10) (c mod 10 :: acc) Hq) as (l & -> & Hv & Hall & d & Hd & Hd0).
    pose proof (Z.mod_pos_bound c 10 ltac:(lia)).
    exists (l ++ [c mod 10]). split; [by rewrite <- app_assoc|]. split; [|split].
    + rewrite valD_app. change (10 ^ Z.of_nat (length [c mod 10])) with 10. rewrite Hv.
      unfold valD. simpl. pose proof (Z.div_mod c 10 ltac:(lia)). lia.
    + apply Forall_app. split; [done|]. repeat constructor; lia.
    + exists d. split; [|done]. by destruct l.
Qed.

Lemma bigString_spec c : 0 < c ->
  valD (bigString c) = c /\ Forall (fun d => 0 <= d < 10) (bigString c) /\
  exists d, head (bigString c) = Some d /\ d <> 0.
Proof.
  intros Hc. unfold bigString, BitLen. rewrite (proj2 (Z.eqb_neq c 0)) by lia.
  pose proof (Z.log2_nonneg c). pose proof (Z.log2_spec c Hc) as [_ Hhi].
  destruct (digitsOf_spec (Z.to_nat (Z.log2 c + 1)) c []) as (l & -> & H1 & H2 & H3).
  - rewrite Z2Nat.id by lia. split; [done|]. by replace (Z.log2 c + 1) with (Z.succ (Z.log2 c)) by lia.
  - by rewrite app_nil_r.
Qed.

(** Dropping the trailing zeros, over the digits from the last. *)
Lemma dropTrailing_spec r : r <> [] ->
  exists k, r = replicate k 0 ++ dropTrailing r /\ dropTrailing r <> [] /\
    (forall d, head (dropTrailing r) = Some d -> d = 0 -> length (dropTrailing r) = 1%nat).
Proof.
  induction r as [|d r IH]; intros Hr; [done|]. destruct r as [|d' r].
  - exists 0%nat. split; [done|]. split; [done|]. by intros d0 _ _.
  - change (dropTrailing (d :: d' :: r)) with (if d =? 0 then dropTrailing (d' :: r) else d :: d' :: r).
    destruct (d =? 0) eqn:E; breflect.
    + subst d. destruct (IH ltac:(done)) as (k & Hk & Hne & Hh). exists (S k).
      split; [|done]. cbn [replicate app]. congruence.
    + exists 0%nat. split; [done|]. split; [done|]. simpl. intros d0 [= <-] ->. done.
Qed.

Lemma bigString_normal c : 0 < c ->
  let l := bigString c in let r := dropTrailing (rev l) in
  normal c (Z.of_nat (length r)) (Z.of_nat (length l) - Z.of_nat (length r)).
Proof.
  intros Hc l r. destruct (bigString_spec c Hc) as (Hv & Hall & h & Hh & Hh0). fold l in Hv, Hall, Hh.
  assert (l <> []) as Hne by (intros E; by rewrite E in Hh).
  destruct (dropTrailing_spec (rev l)) as (k & Hk & Hrne & Hrh).
  { intros E. apply Hne. apply (f_equal (@rev Z)) in E. by rewrite rev_involutive in E. }
  fold r in Hk, Hrne, Hrh.
  assert (l = rev r ++ replicate k 0) as Hl.
  { rewrite <- (rev_involutive l), Hk, rev_app_distr. f_equal. clear. induction k; [done|].
    cbn [replicate rev]. rewrite IHk. clear. induction k; [done|]. cbn [replicate app]. by rewrite IHk. }
  assert (rev r <> []) as Hrr.
  { intros E. apply Hrne. apply (f_equal (@rev Z)) in E. by rewrite rev_involutive in E. }
  pose proof (normal_digits 0 (rev r) k) as Hn. cbn [replicate app] in Hn.
  rewrite <- Hl, Hv, length_rev in Hn. replace (Z.of_nat (length l) - Z.of_nat (length r)) with (Z.of_nat k).
  2: { rewrite Hl, length_app, length_rev, length_replicate. lia. }
  rewrite Hl in Hall, Hh. apply Forall_app in Hall as [Hall _]. apply Hn; [done| |].
  - exists h. split; [|done]. by destruct (rev r).
  - destruct r as [|d r']; [done|]. exists d. split; [cbn [rev]; by rewrite last_snoc|].
    intros ->. specialize (Hrh 0 eq_refl eq_refl). destruct r'; [|done]. simpl in Hh. congruence.
Qed.

(** ** [firstLast] *)

Lemma firstLast_zeros digits : forall k f l, Forall (fun c => c = "0"%char) digits ->
  firstLast k f l digits = (f, l).
Proof. induction digits as [|c digits IH]; intros k f l H; [done|]. inversion H; subst. simpl. by apply IH. Qed.

Lemma firstLast_spec digits : forall k f l, 0 <= k ->
  Forall (fun c => c = "0"%char) digits \/
  exists a mid b, digits = replicate a "0"%char ++ mid ++ replicate b "0"%char /\
    (exists c, head mid = Some c /\ c <> "0"%char) /\ (exists c, last mid = Some c /\ c <> "0"%char) /\
    firstLast k f l digits =
      (if f <? 0 then k + Z.of_nat a else f, k + Z.of_nat a + Z.of_nat (length mid) - 1).
Proof.
  induction digits as [|c digits IH]; intros k f l Hk; [by left|]. cbn [firstLast].
  destruct (Ascii.eqb_spec c "0") as [->|Hc].
  - destruct (IH (k + 1) f l ltac:(lia)) as [Hz|(a & mid & b & -> & Hh & Hl & ->)]; [left; by constructor|].
    right. exists (S a), mid, b. split; [done|]. split; [done|]. split; [done|]. f_equal; [destruct (f <? 0); lia | lia].
  - right. set (f' := if f <? 0 then k else f). assert (0 <= f') by (subst f'; destruct (f <? 0) eqn:E; breflect; lia).
    destruct (IH (k + 1) f' k ltac:(lia)) as [Hz|(a & mid & b & Hd & Hh & (cl & Hl & Hl0) & ->)].
    + rewrite firstLast_zeros by done. exists 0%nat, [c], (length digits). split; [|split; [|split]].
      * cbn [replicate app]. f_equal. symmetry. apply replicate_as_Forall_2; [done|]. by eapply Forall_impl; [exact Hz|].
      * by exists c.
      * by exists c.
      * f_equal; [subst f'; destruct (f <? 0); lia | simpl; lia].
    + exists 0%nat, (c :: replicate a "0"%char ++ mid), b. split; [|split; [|split]].
      * cbn [replicate app]. by rewrite Hd, <- app_assoc.
      * by exists c.
      * exists cl. split; [|done]. change (last ((c :: replicate a "0"%char) ++ mid) = Some cl).
        rewrite last_app. by rewrite Hl.
      * rewrite (proj2 (Z.ltb_ge f' 0)) by done. f_equal; [subst f'; destruct (f <? 0); lia|].
        cbn [length]. rewrite length_app, length_replicate. lia.
Qed.

Lemma digit_zero c : is_digit c = true -> digit c = 0 -> c = "0"%char.
Proof.
  unfold digit, code. intros _ H. rewrite <- (ascii_nat_embedding c).
  replace (nat_of_ascii c) with 48%nat by lia. done.
Qed.

Lemma digit_bound c : is_digit c = true -> 0 <= digit c < 10.
Proof. unfold is_digit, within, digit. intros H. breflect. lia. Qed.

Lemma numberOf_valD l : numberOf l = valD (map digit l).
Proof.
  unfold numberOf, valD. generalize 0. induction l as [|c l IH]; intros a; [done|]. simpl. apply IH.
Qed.

Lemma spanDigits_digits s : Forall (fun c => is_digit c = true) (spanDigits s).1.
Proof.
  induction s as [|c s IH]; simpl; [constructor|]. destruct (is_digit c) eqn:E; [|constructor].
  destruct (spanDigits s). simpl in *. by constructor.
Qed.

(** ** The measure of a value *)

Section Measure.
Context (rnd : Q -> Q) `{HR : !Rounding rnd}.

(** A coefficient the float estimate rejects has more than two thousand digits, whatever the
    rounding. *)
Lemma estimate_big c : 0 < c -> 3 * MaxDecimalDigits + 1 < digitEstimate rnd c -> 10 ^ 2001 <= c.
Proof.
  intros Hc Hest. unfold MaxDecimalDigits, digitEstimate in Hest.
  assert (9600 < BitLen c) as Hlen.
  { apply Z.nle_gt. intros Hle.
    assert (0 <= BitLen c) by (unfold BitLen; destruct (c =? 0); [lia|]; pose proof (Z.log2_nonneg c); lia).
    assert (inject_Z 3001 <= rnd (float64 rnd (BitLen c) * rnd log10_2))%Q as Hq by (apply trunc_ge; lia).
    assert (rnd (float64 rnd (BitLen c) * rnd log10_2) <= inject_Z 3000)%Q as Hub.
    { apply (rnd_le_int rnd); [done|].
      assert (rnd log10_2 <= 5 # 16)%Q as Hlog.
      { rewrite <- (rnd_exact 5 4) by (vm_compute; congruence). apply rnd_mono. vm_compute. congruence. }
      assert (0 <= rnd log10_2)%Q by (apply rnd_nonneg; [done|]; vm_compute; congruence).
      assert (float64 rnd (BitLen c) <= inject_Z 9600)%Q by (apply (rnd_le_int rnd); [done|]; by rewrite <- Zle_Qle).
      apply Qle_trans with (inject_Z 9600 * rnd log10_2)%Q; [by apply Qmult_le_compat_r|].
      apply Qle_trans with (inject_Z 9600 * (5 # 16))%Q; [|vm_compute; congruence].
      apply Qmult_le_l; [vm_compute; congruence | done]. }
    pose proof (Qle_trans _ _ _ Hq Hub) as Hbad. vm_compute in Hbad. congruence. }
  unfold BitLen in Hlen. rewrite (proj2 (Z.eqb_neq c 0)) in Hlen by lia.
  apply Z.le_trans with (2 ^ 9600); [vm_compute; congruence|].
  apply Z.le_trans with (2 ^ Z.log2 c); [apply Z.pow_le_mono_r; lia | apply Z.log2_spec; lia].
Qed.

(** Enough digits make the shape too large. *)
Lemma shapeFrom_large c n z e : normal c n z -> 10 ^ 2001 <= c -> - MaxDecimalDigits <= e ->
  shapeFrom n (e + z) = None.
Proof.
  intros (Hz & Hn & m & -> & _ & Hb) Hc He. unfold MaxDecimalDigits in He.
  assert (2001 < n + z) as Hd.
  { apply pow10_lt_inv; [lia|]. rewrite Z.pow_add_r by lia. pose proof (pow10_pos z Hz).
    apply Z.le_lt_trans with (m * 10 ^ z); [done|]. apply Z.mul_lt_mono_pos_r; lia. }
  unfold shapeFrom, Digits. cbn [Whole Frac]. rewrite (proj2 (Z.ltb_lt 0 (n + (e + z)))) by lia.
  rewrite (proj2 (Z.ltb_lt _ _)); [done|]. unfold MaxDecimalDigits. destruct (e + z <? 0) eqn:E; breflect; lia.
Qed.

(** Whichever way it takes, [DecimalShapeOf] measures the normal form. *)
Lemma DecimalShapeOf_normal d n z :
  Z.abs (Exponent d) <= MaxDecimalDigits -> normal (Z.abs (Coefficient d)) n z ->
  DecimalShapeOf rnd d = shapeFrom n (Exponent d + z).
Proof.
  intros He Hn. unfold DecimalShapeOf.
  rewrite (proj2 (Z.ltb_ge _ _)), (proj2 (Z.ltb_ge _ _)) by lia. cbn [orb].
  pose proof (normal_pos _ _ _ Hn) as Hpos.
  rewrite (proj2 (Z.eqb_neq _ _)) by lia. set (c := Z.abs (Coefficient d)) in *.
  destruct (c <=? max_uint64) eqn:Eu; breflect.
  - destruct (stripZeros_spec 20 c (Exponent d)) as (m & z' & -> & Hm & Hz' & Hmod & Hmpos).
    { split; [done|]. apply Z.le_lt_trans with max_uint64; [done | vm_compute; reflexivity]. }
    destruct (countDigits_spec 20 1 m) as (k & Hk & -> & Hb).
    { split; [done|]. apply Z.le_lt_trans with c; [pose proof (pow10_pos z' Hz'); nia|].
      apply Z.le_lt_trans with max_uint64; [done | vm_compute; reflexivity]. }
    assert (normal c (1 + k) z') as Hn'.
    { split; [done|]. split; [lia|]. exists m. split; [done|]. split; [done|].
      replace (1 + k - 1) with k by lia. by rewrite (Z.add_comm 1 k). }
    by destruct (normal_unique c n z _ _ Hn Hn') as [-> ->].
  - destruct (3 * MaxDecimalDigits + 1 <? digitEstimate rnd c) eqn:Ee; breflect.
    + symmetry. eapply (shapeFrom_large c); [done | | lia]. by apply estimate_big.
    + by destruct (normal_unique c n z _ _ Hn (bigString_normal c Hpos)) as [-> ->].
Qed.

Lemma DecimalShapeOf_range d sh : DecimalShapeOf rnd d = Some sh -> Z.abs (Exponent d) <= MaxDecimalDigits.
Proof. unfold DecimalShapeOf. destruct (_ || _) eqn:E; [done|]. intros _. breflect. lia. Qed.

Lemma DecimalShapeOf_zero d : Z.abs (Exponent d) <= MaxDecimalDigits -> Coefficient d = 0 ->
  DecimalShapeOf rnd d = Some zeroShape.
Proof.
  intros He Hc. unfold DecimalShapeOf. rewrite (proj2 (Z.ltb_ge _ _)), (proj2 (Z.ltb_ge _ _)) by lia.
  by rewrite Hc.
Qed.

(** ** The measure of a spelling *)

(** What the parser reads of a plain spelling: the digits without the point, and the exponent
    less the digits after it. *)
Class PlainParser (parse : bytes -> option decimal) : Prop :=
  plain_parse s negative ints frac e :
    splitSpelling s = Some (negative, ints, frac, e) -> CheckDecimalSpelling s = true ->
    parse s = Some (mkDecimal (if negative : bool then - numberOf (ints ++ frac) else numberOf (ints ++ frac))
                      (e - Z.of_nat (length frac))).

Lemma splitSpelling_digits s negative ints frac e : splitSpelling s = Some (negative, ints, frac, e) ->
  Forall (fun c => is_digit c = true) (ints ++ frac).
Proof.
  unfold splitSpelling. destruct (takeSign s) as [neg s1].
  pose proof (spanDigits_digits s1) as H1. destruct (spanDigits s1) as [ints' s2]. simpl in H1.
  set (fr := match s2 with c :: rest => if Ascii.eqb c "." then spanDigits rest else ([], s2) | [] => ([], []) end).
  assert (Forall (fun c => is_digit c = true) fr.1) as H2.
  { subst fr. destruct s2 as [|c rest]; [constructor|]. destruct (Ascii.eqb c "."); [apply spanDigits_digits | constructor]. }
  destruct fr as [frac' s3]. simpl in H2. destruct (_ && _); [done|]. destruct (takeExponent s3); [|done].
  intros [= _ <- <- _]. by apply Forall_app.
Qed.

Lemma map_digit_zeros a : map digit (replicate a "0"%char) = replicate a 0.
Proof. induction a as [|a IH]; [done|]. cbn [replicate map]. by rewrite IH. Qed.

(** The digits are all zeros, or the first and last non-zero digit delimit the normal form. *)
Lemma firstLast_normal digits : Forall (fun c => is_digit c = true) digits ->
  (numberOf digits = 0 /\ firstLast 0 (-1) (-1) digits = (-1, -1)) \/
  exists first last, firstLast 0 (-1) (-1) digits = (first, last) /\ 0 <= first /\
    normal (numberOf digits) (last - first + 1) (Z.of_nat (length digits) - 1 - last).
Proof.
  intros Hd. rewrite numberOf_valD.
  destruct (firstLast_spec digits 0 (-1) (-1) ltac:(lia)) as [Hz|(a & mid & b & -> & (h & Hh & Hh0) & (t & Ht & Ht0) & ->)].
  - left. split; [|by apply firstLast_zeros].
    rewrite <- (replicate_as_Forall_2 "0"%char (length digits) digits); [|done|].
    + rewrite map_digit_zeros. apply valD_zeros.
    + by eapply Forall_impl; [exact Hz|].
  - right. cbn [Z.ltb Z.compare]. eexists _, _. split; [reflexivity|]. split; [lia|].
    rewrite !map_app, !map_digit_zeros.
    apply Forall_app in Hd as [_ [Hd _]%Forall_app].
    pose proof (normal_digits a (map digit mid) b) as Hn. rewrite length_map in Hn.
    replace (0 + Z.of_nat a + Z.of_nat (length mid) - 1 - (0 + Z.of_nat a) + 1) with (Z.of_nat (length mid)) by lia.
    rewrite !length_app, !length_replicate.
    replace (Z.of_nat (a + (length mid + b)) - 1 - (0 + Z.of_nat a + Z.of_nat (length mid) - 1)) with (Z.of_nat b) by lia.
    assert (forall c, c ∈ mid -> c <> "0"%char -> digit c <> 0) as Hnz.
    { intros c Hc Hc0 E. apply Hc0, digit_zero; [|done]. by eapply Forall_forall in Hd. }
    apply Hn.
    + apply Forall_map. eapply Forall_impl; [exact Hd|]. apply digit_bound.
    + exists (digit h). split; [|apply Hnz; [|done]]; destruct mid; simplify_eq/=; [done | set_solver].
    + exists (digit t). split; [change (last (digit <$> mid) = Some (digit t)); by rewrite fmap_last, Ht|]. apply Hnz; [|done].
      apply last_Some in Ht as [l ->]. set_solver.
Qed.

(** The shape of a decimal read from its spelling without building the number is the shape
    of the parsed number, for every plain spelling of an accepted length. *)
Theorem spelling_agrees parse `{!PlainParser parse} s shape :
  CheckDecimalSpelling s = true -> spellingShape s = Plain shape ->
  exists d, parse s = Some d /\ DecimalShapeOf rnd d = shape.
Proof.
  intros Hlen. unfold spellingShape.
  destruct (splitSpelling s) as [[[[negative ints] frac] e]|] eqn:Hs; [|done].
  rewrite (plain_parse _ _ _ _ _ Hs Hlen). set (d := mkDecimal _ _). intros Hsh. exists d. split; [done|].
  destruct (_ || _) eqn:Hr in Hsh; [unfold DecimalShapeOf; subst d; cbn [Exponent]; rewrite Hr; congruence|].
  assert (Z.abs (Exponent d) <= MaxDecimalDigits) as He by (cbn [Exponent d]; breflect; lia).
  destruct (firstLast_normal _ (splitSpelling_digits _ _ _ _ _ Hs)) as [[H0 Hfl]|(first & last & Hfl & Hf & Hn)];
    rewrite Hfl in Hsh.
  - rewrite DecimalShapeOf_zero; [cbn in Hsh; congruence | done |]. cbn [Coefficient d]. rewrite H0. by destruct negative.
  - rewrite (proj2 (Z.ltb_ge first 0)) in Hsh by done.
    rewrite (DecimalShapeOf_normal d _ _ He (normal_abs _ negative _ _ Hn)).
    cbn [Exponent d]. congruence.
Qed.

(** ** What a column stores exactly *)

(** The value, at [s] digits after the point, is the integer [k]. *)
Definition scaled (d : decimal) (s k : Z) : Prop :=
  Coefficient d * 10 ^ Z.max 0 (Exponent d + s) = k * 10 ^ Z.max 0 (- (Exponent d + s)).

(** A value is a multiple of 10^-s below 10^(p-s) exactly when its normal form says so. *)
Lemma scaled_normal d n z p s : normal (Z.abs (Coefficient d)) n z -> 0 <= s <= p ->
  (exists k, scaled d s k /\ Z.abs k < 10 ^ p) <-> 0 <= Exponent d + z + s /\ n + (Exponent d + z) <= p - s.
Proof.
  intros (Hz & Hn & m & Hc & Hm & Hb) Hs. unfold scaled. set (x := Exponent d + s).
  replace (Exponent d + z + s) with (x + z) by lia.
  assert (forall k, 0 <= x + z ->
    Coefficient d * 10 ^ Z.max 0 x = k * 10 ^ Z.max 0 (- x) -> Z.abs k = m * 10 ^ (x + z)) as Hval.
  { intros k Hx Hk. apply (f_equal Z.abs) in Hk. rewrite !Z.abs_mul, Hc, !(Z.abs_eq (10 ^ _)) in Hk by (apply Z.pow_nonneg; lia).
    apply (Z.mul_cancel_r _ _ (10 ^ Z.max 0 (- x))); [pose proof (pow10_pos (Z.max 0 (- x)) ltac:(lia)); lia|].
    rewrite <- Hk, <- !Z.mul_assoc, <- !Z.pow_add_r by lia. do 2 f_equal. lia. }
  split.
  - intros (k & Hk & Hlt). destruct (Z.le_gt_cases 0 (x + z)) as [Hx|Hx].
    + split; [done|]. specialize (Hval k Hx Hk). rewrite Hval in Hlt.
      assert (n - 1 + (x + z) < p); [|lia]. apply pow10_lt_inv; [lia|]. rewrite Z.pow_add_r by lia.
      pose proof (pow10_pos (x + z) Hx). nia.
    + exfalso. apply Hm. apply (f_equal Z.abs) in Hk.
      rewrite !Z.abs_mul, Hc, !(Z.abs_eq (10 ^ _)) in Hk by (apply Z.pow_nonneg; lia).
      replace (Z.max 0 x) with 0 in Hk by lia. rewrite Z.mul_1_r in Hk.
      replace (Z.max 0 (- x)) with ((- x - z - 1) + 1 + z) in Hk by lia.
      rewrite !Z.pow_add_r, !Z.mul_assoc in Hk by lia.
      apply Z.mul_cancel_r in Hk; [|pose proof (pow10_pos z Hz); lia]. rewrite Hk. apply Z.mod_mul. lia.
  - intros [Hx Hp]. exists (Z.sgn (Coefficient d) * (m * 10 ^ (x + z))). split.
    + assert (Coefficient d = Z.sgn (Coefficient d) * (m * 10 ^ z)) as E by (rewrite <- Hc; lia).
      rewrite E at 1. rewrite <- !Z.mul_assoc, <- !Z.pow_add_r by lia. do 3 f_equal. lia.
    + rewrite !Z.abs_mul, !(Z.abs_eq (10 ^ _)) by (apply Z.pow_nonneg; lia).
      pose proof (pow10_pos (x + z) Hx). pose proof (pow10_pos (n - 1) ltac:(lia)).
      apply Z.le_lt_trans with (m * 10 ^ (x + z)); [rewrite (Z.abs_eq m) by lia; nia|].
      apply Z.lt_le_trans with (10 ^ n * 10 ^ (x + z)); [nia|].
      rewrite <- Z.pow_add_r by lia. apply Z.pow_le_mono_r; lia.
Qed.

(** A decimal is accepted for a column of precision p and scale s exactly when its size is
    allowed and, scaled by 10^s, it is an integer of at most p digits: the column stores it
    as it is. *)
Theorem DecimalStorageProblem_exact d precision scale : 0 < precision -> 0 <= scale <= precision ->
  DecimalStorageProblem rnd d precision scale false = None <->
  CheckDecimalSize rnd d = true /\ exists k, scaled d scale k /\ Z.abs k < 10 ^ precision.
Proof.
  intros Hp Hs. unfold DecimalStorageProblem, CheckDecimalSize.
  destruct (DecimalShapeOf rnd d) as [shape|] eqn:Hsh; [|by split; [|intros []]].
  pose proof (DecimalShapeOf_range _ _ Hsh) as He. rewrite (proj2 (Z.ltb_lt 0 precision)) by done.
  destruct (Z.eq_dec (Coefficient d) 0) as [H0|H0].
  - rewrite (DecimalShapeOf_zero d He H0) in Hsh. injection Hsh as <-. cbn.
    split; [|done]. intros _. split; [done|]. exists 0. unfold scaled. rewrite H0.
    split; [lia | apply pow10_pos; lia].
  - pose proof (bigString_normal (Z.abs (Coefficient d)) ltac:(lia)) as Hn. simpl in Hn.
    rewrite (scaled_normal d _ _ precision scale Hn Hs).
    rewrite (DecimalShapeOf_normal d _ _ He Hn) in Hsh. clear He. destruct Hn as (Hz & Hn & _).
    set (n := Z.of_nat _) in *. set (e := Exponent d + _) in *. clearbody n e.
    unfold shapeFrom in Hsh. destruct (_ <? _) in Hsh; [done|]. injection Hsh as <-. cbn [Significant Whole Frac].
    destruct (0 <? n + e) eqn:E1, (e <? 0) eqn:E2; breflect;
      repeat match goal with |- context [?a =? ?b] => destruct (a =? b) eqn:?
                        | |- context [?a <? ?b] => destruct (a <? b) eqn:? end; breflect; cbn [andb];
      split; intros; destruct_and?; try done; try lia; split; try done; lia.
Qed.
End Measure.

(** ** Witnesses: exact rounding, and a parser that reads plain spellings *)

Definition readPlain (s : bytes) : option decimal :=
  match splitSpelling s with
  | Some (negative, ints, frac, e) =>
      Some (mkDecimal (if negative : bool then - numberOf (ints ++ frac) else numberOf (ints ++ frac))
              (e - Z.of_nat (length frac)))
  | None => None
  end.

#[export] Instance readPlain_PlainParser : PlainParser readPlain.
Proof. intros s negative ints frac e Hs _. unfold readPlain. by rewrite Hs. Qed.

Definition spelling_example : bytes := of_string "-0012.3400e2".

Lemma spelling_agrees_witness :
  exists d, readPlain spelling_example = Some d /\ DecimalShapeOf (fun x => x) d = Some (mkShape 4 0 4).
Proof. apply (spelling_agrees (fun x => x) readPlain spelling_example); reflexivity. Defined.

Lemma DecimalStorageProblem_exact_witness :
  CheckDecimalSize (fun x => x) (mkDecimal (-123400) (-3)) = true /\
  exists k, scaled (mkDecimal (-123400) (-3)) 2 k /\ Z.abs k < 10 ^ 5.
Proof. apply (DecimalStorageProblem_exact (fun x => x)); [lia | lia | reflexivity]. Defined.
