(* ===== verification/DotEnv.v ===== *)
(** * config/dotenv.go: the .env grammar and its precedence

    The bytes of a file to the variables it assigns, the environment the loader
    leaves, and the lookup LoadFromDir reads configuration through.  The file
    read itself is the argument [read] of [dotEnvFileValues]. *)

From stdpp Require Import base tactics numbers list strings gmap fin_maps sets.
From Stdlib Require Import ZArith Lia Ascii.
From S2P Require Import Prelude GoBytes.

Local Open Scope string_scope.
Local Open Scope list_scope.

Definition hash : ascii := "#"%char.
Definition equals : ascii := "="%char.
Definition newline : ascii := byte_of 10.
Definition dquote : ascii := byte_of 34.
Definition squote : ascii := byte_of 39.

Definition is_blank (c : ascii) : bool := Ascii.eqb c " " || Ascii.eqb c (byte_of 9).
Definition is_quote (c : ascii) : bool := Ascii.eqb c dquote || Ascii.eqb c squote.

(** [utf8BOM] *)
Definition utf8BOM : bytes := map byte_of [239; 187; 191]%nat.

(** ** Lines *)

(** Where the search for a comment starts: past the quoted region, if the value
    starts with one. *)
Definition comment_from (v : bytes) : nat :=
  let lead := (length v - length (TrimLeftBlank v))%nat in
  match drop lead v with
  | c :: rest =>
      if is_quote c then
        match IndexByte rest c with
        | Some e => (lead + e + 2)%nat
        | None => O
        end
      else O
  | [] => O
  end.

(** The index of the first [#] at or after [from] with a blank before it; [i]
    is the index of the head of the list, [prev] the byte before it. *)
Fixpoint comment_index (from i : nat) (prev : option ascii) (v : bytes) : option nat :=
  match v with
  | [] => None
  | c :: v =>
      if Nat.leb from i && Ascii.eqb c hash &&
         match prev with Some p => is_blank p | None => false end
      then Some i
      else comment_index from (S i) (Some c) v
  end.

(** [stripDotEnvComment] *)
Definition stripDotEnvComment (v : bytes) : bytes :=
  match comment_index (comment_from v) O None v with
  | Some i => TrimRightBlank (take i v)
  | None => v
  end.

(** [splitDotEnvLine] *)
Definition splitDotEnvLine (line : bytes) : option (bytes * bytes) :=
  let line := TrimSpace line in
  match line with
  | [] => None
  | c :: _ =>
      if Ascii.eqb c hash then None
      else match CutByte line equals with
      | None => None
      | Some (k, v) =>
          let k := TrimSpace k in
          match k with
          | [] => None
          | _ :: _ => Some (k, TrimSpace (stripDotEnvComment v))
          end
      end
  end.

(** [unquoteDotEnv] *)
Definition unquoteDotEnv (v : bytes) : bytes :=
  match v with
  | c :: rest =>
      match last rest with
      | Some d => if is_quote c && Ascii.eqb c d then take (length rest - 1) rest else v
      | None => v
      end
  | [] => v
  end.

(** [parseDotEnvLine] *)
Definition parseDotEnvLine (line : string) : option (string * string) :=
  match splitDotEnvLine (of_string line) with
  | Some (k, v) => Some (to_string k, to_string (unquoteDotEnv v))
  | None => None
  end.

(** [DotEnvKey] *)
Definition DotEnvKey (line : bytes) : option string :=
  match splitDotEnvLine line with Some (k, _) => Some (to_string k) | None => None end.

(** ** Files *)

(** [scanDotEnv]: the assignments it calls [fn] with, in order. *)
Definition scanDotEnv (data : bytes) : list (bytes * bytes) :=
  omap splitDotEnvLine (SplitByte (TrimPrefix data utf8BOM) newline).

(** [DotEnvKeys] *)
Definition DotEnvKeys (data : bytes) : list string := map (fun kv => to_string kv.1) (scanDotEnv data).

Definition addValue (values : gmap string string) (kv : bytes * bytes) : gmap string string :=
  match values !! to_string kv.1 with
  | Some _ => values
  | None => <[to_string kv.1 := to_string (unquoteDotEnv kv.2)]> values
  end.

(** [dotEnvValues] of a file's content. *)
Definition dotEnvValues (data : bytes) : gmap string string :=
  fold_left addValue (scanDotEnv data) ∅.

(** What reading the file gave. *)
Inductive fileRead : Type := NotExist | Unreadable | Content (data : bytes).

(** [dotEnvValues] *)
Definition dotEnvFileValues (read : fileRead) : result unit (gmap string string) :=
  match read with
  | NotExist => Ok ∅
  | Unreadable => Err tt
  | Content data => Ok (dotEnvValues data)
  end.

(** ** The environment *)

(** [os.Setenv] refuses a key that is empty or has [=] or a NUL, and a value
    with a NUL; the loader ignores the refusal. *)
Definition has_byte (c : ascii) (s : string) : bool := bool_decide (c ∈ of_string s).

Definition Setenv (key value : string) (env : gmap string string) : gmap string string :=
  if String.eqb key "" || has_byte equals key || has_byte (byte_of 0) key || has_byte (byte_of 0) value
  then env else <[key := value]> env.

(** [loadDotEnv]: the environment it leaves; the map is ranged over in the
    order of [map_to_list]. *)
Definition applyValue (env : gmap string string) (kv : string * string) : gmap string string :=
  match env !! kv.1 with Some _ => env | None => Setenv kv.1 kv.2 env end.

Definition loadDotEnv (read : fileRead) (env : gmap string string)
    : result unit (gmap string string) :=
  match dotEnvFileValues read with
  | Err e => Err e
  | Ok values => Ok (fold_left applyValue (map_to_list values) env)
  end.

(** The [lookup] of [LoadFromDir]. *)
Definition dirLookup (env fileEnv : gmap string string) (key : string) : option string :=
  match env !! key with Some v => Some v | None => fileEnv !! key end.

(** ** First occurrence wins *)

Fixpoint first_value (k : string) (l : list (bytes * bytes)) : option string :=
  match l with
  | [] => None
  | kv :: l => if String.eqb (to_string kv.1) k then Some (to_string (unquoteDotEnv kv.2))
               else first_value k l
  end.

Lemma addValue_fold l : forall m k,
  fold_left addValue l m !! k = match m !! k with Some v => Some v | None => first_value k l end.
Proof.
  induction l as [|kv l IH]; intros m k; simpl; [by destruct (m !! k)|].
  rewrite IH. unfold addValue. destruct (String.eqb_spec (to_string kv.1) k) as [<-|Hne].
  - destruct (m !! to_string kv.1) eqn:E; [by rewrite E|]. by rewrite lookup_insert_eq.
  - destruct (m !! to_string kv.1); [done|]. by rewrite lookup_insert_ne.
Qed.

Lemma dotEnvValues_lookup data k : dotEnvValues data !! k = first_value k (scanDotEnv data).
Proof. unfold dotEnvValues. by rewrite addValue_fold, lookup_empty. Qed.

Lemma first_value_keys k l : is_Some (first_value k l) <-> k ∈ map (fun kv : bytes * bytes => to_string kv.1) l.
Proof.
  induction l as [|kv l IH]; simpl; [split; [by intros [] | by intros H%elem_of_nil]|].
  rewrite elem_of_cons. destruct (String.eqb_spec (to_string kv.1) k) as [<-|Hne]; [naive_solver|].
  rewrite IH. naive_solver.
Qed.

(** [DotEnvKeys] lists the keys that have a value. *)
Theorem DotEnvKeys_agree data k : k ∈ DotEnvKeys data <-> is_Some (dotEnvValues data !! k).
Proof. by rewrite dotEnvValues_lookup, first_value_keys. Qed.

(** ** Precedence *)

Lemma applyValue_fold l : forall env k, NoDup (map fst l) ->
  fold_left applyValue l env !! k =
  match env !! k with
  | Some v => Some v
  | None => match (list_to_map l : gmap string string) !! k with
            | Some v => Setenv k v ∅ !! k
            | None => None
            end
  end.
Proof.
  induction l as [|[k0 v0] l IH]; intros env k Hnd; simpl; [by destruct (env !! k)|].
  inversion Hnd as [|? ? Hn Hnd']; subst. rewrite IH by done. unfold applyValue. simpl.
  destruct (decide (k0 = k)) as [->|Hne].
  - rewrite lookup_insert_eq. destruct (env !! k) eqn:E; [by rewrite E|].
    assert ((list_to_map l : gmap string string) !! k = None) as -> by by apply not_elem_of_list_to_map_1.
    unfold Setenv. destruct (_ || _); [by rewrite E|]. by rewrite !lookup_insert_eq.
  - rewrite lookup_insert_ne by done. destruct (env !! k0); [done|].
    unfold Setenv at 1. destruct (_ || _); [done|]. by rewrite lookup_insert_ne.
Qed.

(** The two ways of using a .env file agree: loading it into the environment keeps every
    variable already set and gives every other key the value the lookup without loading
    gives. *)
Theorem loadDotEnv_agrees_with_dirLookup data env env' k :
  loadDotEnv (Content data) env = Ok env' ->
  (forall v, env !! k = Some v -> env' !! k = Some v /\ dirLookup env (dotEnvValues data) k = Some v) /\
  (env !! k = None -> k <> "" -> has_byte equals k = false -> has_byte (byte_of 0) k = false ->
   (forall v, dotEnvValues data !! k = Some v -> has_byte (byte_of 0) v = false) ->
   env' !! k = dirLookup env (dotEnvValues data) k).
Proof.
  simpl. intros [= <-]. rewrite applyValue_fold by apply NoDup_fst_map_to_list.
  rewrite list_to_map_to_list. unfold dirLookup. split.
  - by intros v ->.
  - intros -> Hk He Hz Hv. destruct (dotEnvValues data !! k) as [v|]; [|done].
    unfold Setenv. apply String.eqb_neq in Hk as ->. rewrite He, Hz, (Hv v) by done. simpl.
    by rewrite lookup_insert_eq.
Qed.

(** ** Round trip *)

(** The bytes of an ordinary variable name. *)
Definition key_char (c : ascii) : bool :=
  let n := nat_of_ascii c in
  (Nat.leb 97 n && Nat.leb n 122) || (Nat.leb 65 n && Nat.leb n 90) ||
  (Nat.leb 48 n && Nat.leb n 57) || Ascii.eqb c "_".

Definition key_ok (k : bytes) : Prop := k <> [] /\ Forall (fun c => key_char c = true) k.

Definition all_bytes : list ascii := map ascii_of_nat (seq 0 256).

Lemma all_bytes_complete c : c ∈ all_bytes.
Proof.
  unfold all_bytes. apply list_elem_of_fmap. exists (nat_of_ascii c).
  split; [by rewrite ascii_nat_embedding|]. apply elem_of_seq. pose proof (nat_ascii_bounded c). lia.
Qed.

(** A decidable fact of every byte is checked on the 256 of them. *)
Lemma every_byte (P : ascii -> Prop) `{forall c, Decision (P c)} :
  bool_decide (Forall P all_bytes) = true -> forall c, P c.
Proof.
  intros Hall%bool_decide_eq_true_1 c. rewrite Forall_forall in Hall. apply Hall, all_bytes_complete.
Qed.

Lemma key_char_facts c :
  key_char c = true ->
  (c ∉ heads space_runes) /\ (c ∉ heads (map (@rev ascii) space_runes)) /\
  c <> equals /\ c <> hash /\ c <> newline /\ is_quote c = false /\ is_blank c = false /\
  c <> byte_of 239.
Proof.
  revert c. apply (every_byte (fun c => key_char c = true ->
    (c ∉ heads space_runes) /\ (c ∉ heads (map (@rev ascii) space_runes)) /\
    c <> equals /\ c <> hash /\ c <> newline /\ is_quote c = false /\ is_blank c = false /\
    c <> byte_of 239)).
  vm_compute. reflexivity.
Qed.

Lemma quote_facts c :
  is_quote c = true ->
  (c ∉ heads space_runes) /\ (c ∉ heads (map (@rev ascii) space_runes)) /\
  (c ∉ heads blank_cutset) /\ c <> newline.
Proof.
  revert c. apply (every_byte (fun c => is_quote c = true ->
    (c ∉ heads space_runes) /\ (c ∉ heads (map (@rev ascii) space_runes)) /\
    (c ∉ heads blank_cutset) /\ c <> newline)).
  vm_compute. reflexivity.
Qed.

(** Bytes that no space rune starts, in front, and none ends, behind. *)
Lemma TrimSpace_id c b d :
  c ∉ heads space_runes -> d ∉ heads (map (@rev ascii) space_runes) ->
  TrimSpace (c :: b ++ [d]) = c :: b ++ [d].
Proof.
  intros Hc Hd. unfold TrimSpace. rewrite trim_left_id.
  - rewrite app_comm_cons. apply trim_right_last; [apply space_runes_nonempty | done].
  - apply strip_any_head; [apply space_runes_nonempty | done].
Qed.

Lemma TrimSpace_key k : key_ok k -> TrimSpace k = k.
Proof.
  intros [_ Hk]. apply trim_both_id; [apply space_runes_nonempty|].
  eapply Forall_impl; [exact Hk|]. intros c Hc. apply key_char_facts in Hc. tauto.
Qed.

Lemma key_no c k :
  (forall d, key_char d = true -> d <> c) -> key_ok k -> c ∉ k.
Proof.
  intros Hc [_ Hk] Hin. rewrite Forall_forall in Hk. by apply (Hc c); [apply Hk|].
Qed.

Lemma comment_index_past from v : forall i prev,
  (i + length v <= from)%nat -> comment_index from i prev v = None.
Proof.
  induction v as [|c v IH]; intros i prev Hl; simpl; [done|]. simpl in Hl.
  replace (Nat.leb from i) with false by (symmetry; apply Nat.leb_gt; lia). simpl. apply IH. lia.
Qed.

Lemma comment_from_quoted q v : is_quote q = true -> q ∉ v ->
  comment_from (q :: v ++ [q]) = (length v + 2)%nat.
Proof.
  intros Hq Hv. unfold comment_from.
  assert (TrimLeftBlank (q :: v ++ [q]) = q :: v ++ [q]) as ->.
  { apply trim_left_id, strip_any_head; [apply blank_cutset_nonempty | by apply quote_facts]. }
  rewrite Nat.sub_diag. simpl. rewrite Hq. by rewrite IndexByte_app.
Qed.

(** A quoted line is split at its [=], quotes and all. *)
Lemma splitDotEnvLine_quoted k q v :
  key_ok k -> is_quote q = true -> q ∉ v ->
  splitDotEnvLine (k ++ equals :: q :: v ++ [q]) = Some (k, q :: v ++ [q]).
Proof.
  intros Hk Hq Hv. pose proof (quote_facts q Hq) as (Hq1 & Hq2 & _).
  assert (stripDotEnvComment (q :: v ++ [q]) = q :: v ++ [q]) as Hs.
  { unfold stripDotEnvComment. rewrite comment_from_quoted by done.
    rewrite comment_index_past; [done|]. simpl. rewrite length_app. simpl. lia. }
  destruct k as [|c k]; [by destruct Hk|].
  assert (key_char c = true) as Hc by (destruct Hk as [_ Hk]; by inversion Hk).
  pose proof (key_char_facts c Hc) as (Hc1 & _ & _ & Hc2 & _).
  unfold splitDotEnvLine.
  replace ((c :: k) ++ equals :: q :: v ++ [q]) with (c :: (k ++ equals :: q :: v) ++ [q])
    by (simpl; by rewrite <- app_assoc).
  rewrite TrimSpace_id by done.
  apply Ascii.eqb_neq in Hc2 as ->.
  replace (c :: (k ++ equals :: q :: v) ++ [q]) with ((c :: k) ++ equals :: q :: v ++ [q])
    by (simpl; by rewrite <- app_assoc).
  rewrite CutByte_app.
  2: { apply key_no; [|done]. intros d Hd. apply key_char_facts in Hd. tauto. }
  rewrite TrimSpace_key by done. rewrite Hs, TrimSpace_id by done. done.
Qed.

Lemma unquote_quoted q v : is_quote q = true -> unquoteDotEnv (q :: v ++ [q]) = v.
Proof.
  intros Hq. simpl. rewrite last_snoc, Hq, Ascii.eqb_refl. simpl.
  rewrite length_app. simpl. rewrite Nat.add_sub. by rewrite take_app_length.
Qed.

(** A generated file: one quoted assignment per line. *)
Definition write_line (q : ascii) (kv : bytes * bytes) : bytes :=
  kv.1 ++ equals :: q :: kv.2 ++ [q].

Definition write_file (q : ascii) (kvs : list (bytes * bytes)) : bytes :=
  concat (map (fun kv => write_line q kv ++ [newline]) kvs).

Definition assignment_ok (q : ascii) (kv : bytes * bytes) : Prop :=
  key_ok kv.1 /\ (q ∉ kv.2) /\ newline ∉ kv.2.

Lemma scan_lines q kvs :
  is_quote q = true -> Forall (assignment_ok q) kvs ->
  omap splitDotEnvLine (SplitByte (write_file q kvs) newline) =
  map (fun kv => (kv.1, q :: kv.2 ++ [q])) kvs.
Proof.
  intros Hq. induction kvs as [|kv kvs IH]; intros H; simpl; [done|].
  inversion H as [|? ? (Hk & Hv & Hn) H']; subst. unfold write_file. simpl.
  rewrite <- app_assoc. simpl. rewrite SplitByte_app.
  - simpl. unfold write_line at 1. rewrite splitDotEnvLine_quoted by done. f_equal. by apply IH.
  - unfold write_line. pose proof (quote_facts q Hq) as (_ & _ & _ & Hqn).
    assert (newline ∉ kv.1) as Hkn.
    { apply key_no; [|done]. intros d Hd. apply key_char_facts in Hd. tauto. }
    rewrite not_elem_of_app, !not_elem_of_cons, not_elem_of_app, not_elem_of_cons.
    repeat split; try done; try congruence. apply not_elem_of_nil.
Qed.

Lemma write_file_no_BOM q kvs :
  Forall (assignment_ok q) kvs -> TrimPrefix (write_file q kvs) utf8BOM = write_file q kvs.
Proof.
  intros H. destruct kvs as [|[k v] kvs]; [reflexivity|].
  inversion H as [|? ? ([Hne Hk] & _) _]; subst. cbn [fst] in *.
  destruct k as [|c k]; [done|]. inversion Hk as [|? ? Hc _]; subst.
  apply key_char_facts in Hc as (_ & _ & _ & _ & _ & _ & _ & Hc).
  assert (exists rest, write_file q ((c :: k, v) :: kvs) = c :: rest) as [rest ->]
    by (eexists; reflexivity).
  unfold TrimPrefix. assert (strip_prefix utf8BOM (c :: rest) = None) as ->; [|done].
  apply strip_prefix_None. intros r E. injection E as E _. by apply Hc.
Qed.

Fixpoint assoc_first (k : string) (kvs : list (bytes * bytes)) : option string :=
  match kvs with
  | [] => None
  | kv :: kvs => if String.eqb (to_string kv.1) k then Some (to_string kv.2) else assoc_first k kvs
  end.

(** A .env file reads back as written: of quoted assignments, with or without a byte order
    mark, every key has the value of its first assignment. *)
Theorem dotenv_roundtrip q kvs k :
  is_quote q = true -> Forall (assignment_ok q) kvs ->
  dotEnvValues (write_file q kvs) !! k = assoc_first k kvs /\
  dotEnvValues (utf8BOM ++ write_file q kvs) !! k = assoc_first k kvs.
Proof.
  intros Hq Hkvs. rewrite !dotEnvValues_lookup. unfold scanDotEnv.
  assert (TrimPrefix (utf8BOM ++ write_file q kvs) utf8BOM = write_file q kvs) as ->.
  { unfold TrimPrefix. by rewrite (proj2 (strip_prefix_Some utf8BOM _ (write_file q kvs))). }
  rewrite write_file_no_BOM, scan_lines by done.
  assert (first_value k (map (fun kv => (kv.1, q :: kv.2 ++ [q])) kvs) = assoc_first k kvs) as ->;
    [|done].
  clear Hkvs. induction kvs as [|kv kvs IH]; cbn [map first_value assoc_first fst snd]; [done|].
  by rewrite unquote_quoted, IH.
Qed.

(** ** Comments *)

(** A plain value: no blank, no hash, no quote. *)
Lemma comment_index_plain v n : forall i prev,
  Forall (fun c => key_char c = true) v ->
  comment_index 0 i prev (v ++ " "%char :: hash :: n) = Some (i + length v + 1)%nat.
Proof.
  induction v as [|c v IH]; intros i prev H; simpl.
  - f_equal. lia.
  - inversion H; subst. apply key_char_facts in H2 as (_ & _ & _ & Hh & _).
    apply Ascii.eqb_neq in Hh as ->. simpl. rewrite IH by done. f_equal. lia.
Qed.

Lemma TrimRightBlank_one v : key_ok v -> TrimRightBlank (v ++ [" "%char]) = v.
Proof.
  intros [Hne Hv]. destruct v as [|x v _] using rev_ind; [done|].
  apply Forall_app in Hv as [_ Hx]. inversion Hx as [|? ? Hc _]; subst.
  apply key_char_facts in Hc as (_ & _ & _ & _ & _ & _ & Hb & _).
  unfold TrimRightBlank, trim_right, trim_left. rewrite !rev_app_distr. cbn [rev app length trim_fuel].
  assert (strip_any (map (@rev ascii) blank_cutset) (" "%char :: x :: rev v) = Some (x :: rev v)) as ->
    by reflexivity.
  assert (strip_any (map (@rev ascii) blank_cutset) (x :: rev v) = None) as ->;
    [|cbn [rev]; by rewrite rev_involutive].
  apply strip_any_head; [repeat constructor; discriminate|].
  unfold is_blank in Hb. apply orb_false_iff in Hb as [Hb1 Hb2]. apply Ascii.eqb_neq in Hb1, Hb2.
  unfold heads, blank_cutset. simpl. set_solver.
Qed.

(** A comment after a quoted value is dropped. *)
Theorem dotenv_comment_dropped k v n d :
  key_ok k -> key_ok v -> key_char d = true ->
  splitDotEnvLine (k ++ equals :: v ++ " "%char :: hash :: n ++ [d]) = Some (k, v).
Proof.
  intros Hk Hv Hd. destruct k as [|c k]; [by destruct Hk|].
  assert (key_char c = true) as Hc by (destruct Hk as [_ Hk]; by inversion Hk).
  pose proof (key_char_facts c Hc) as (Hc1 & _ & _ & Hc2 & _).
  pose proof (key_char_facts d Hd) as (_ & Hd1 & _).
  unfold splitDotEnvLine.
  replace ((c :: k) ++ equals :: v ++ " "%char :: hash :: n ++ [d])
    with (c :: (k ++ equals :: v ++ " "%char :: hash :: n) ++ [d])
    by (simpl; rewrite <- !app_assoc; simpl; by rewrite <- app_assoc).
  rewrite TrimSpace_id by done. apply Ascii.eqb_neq in Hc2 as ->.
  replace (c :: (k ++ equals :: v ++ " "%char :: hash :: n) ++ [d])
    with ((c :: k) ++ equals :: v ++ " "%char :: hash :: n ++ [d])
    by (simpl; rewrite <- !app_assoc; simpl; by rewrite <- app_assoc).
  rewrite CutByte_app.
  2: { apply key_no; [|done]. intros x Hx. apply key_char_facts in Hx. tauto. }
  rewrite TrimSpace_key by done. do 2 f_equal.
  assert (comment_from (v ++ " "%char :: hash :: n ++ [d]) = O) as Hf.
  { destruct v as [|x v]; [by destruct Hv|].
    assert (key_char x = true) as Hx by (destruct Hv as [_ Hv]; by inversion Hv).
    pose proof (key_char_facts x Hx) as (_ & _ & _ & _ & _ & Hxq & Hxb & _).
    unfold comment_from. assert (x ∉ heads blank_cutset) as Hb.
    { unfold is_blank in Hxb. breflect. apply Ascii.eqb_neq in H, H0.
      unfold heads, blank_cutset. simpl. set_solver. }
    unfold TrimLeftBlank. rewrite trim_left_id
      by (apply strip_any_head; [apply blank_cutset_nonempty | done]).
    rewrite Nat.sub_diag. simpl. by rewrite Hxq. }
  unfold stripDotEnvComment. rewrite Hf, comment_index_plain by apply Hv. simpl.
  replace (length v + 1)%nat with (length (v ++ [" "%char])) by (rewrite length_app; done).
  replace (v ++ " "%char :: hash :: n ++ [d]) with ((v ++ [" "%char]) ++ hash :: n ++ [d])
    by (by rewrite <- app_assoc).
  rewrite take_app_length. 
  assert (TrimRightBlank (v ++ [" "%char]) = v) as ->; [|by apply TrimSpace_key].
  by apply TrimRightBlank_one.
Qed.

Lemma dotenv_roundtrip_witness :
  dotEnvValues (utf8BOM ++ write_file dquote
    [(of_string "GOMBIT_JWT_SECRET", of_string "a # b='c'"); (of_string "PORT", of_string "8080")])
  !! "GOMBIT_JWT_SECRET" = Some "a # b='c'".
Proof.
  apply (dotenv_roundtrip dquote
    [(of_string "GOMBIT_JWT_SECRET", of_string "a # b='c'"); (of_string "PORT", of_string "8080")]
    "GOMBIT_JWT_SECRET" ltac:(reflexivity)).
  repeat (constructor; [split; [split; [discriminate | repeat constructor]|];
    split; apply (bool_decide_unpack _); vm_compute; exact I|]). constructor.
Defined.

Lemma dotenv_comment_dropped_witness :
  splitDotEnvLine (of_string "PASS=abc # note") = Some (of_string "PASS", of_string "abc").
Proof.
  apply (dotenv_comment_dropped (of_string "PASS") (of_string "abc") (of_string " not") "e"%char);
    [split; [discriminate | repeat constructor] | split; [discriminate | repeat constructor]
    | reflexivity].
Defined.

Lemma loadDotEnv_agrees_with_dirLookup_witness :
  exists env', loadDotEnv (Content (of_string "PORT=1")) {["PORT" := "2"]} = Ok env' /\
    env' !! "PORT" = Some "2".
Proof.
  eexists. split; [reflexivity|].
  exact (proj1 (proj1 (loadDotEnv_agrees_with_dirLookup (of_string "PORT=1") {["PORT" := "2"]} _
    "PORT" eq_refl) "2" eq_refl)).
Defined.
