(* ===== verification/StorageKey.v ===== *)
(** * internal/storagekey and storage/key.go: object keys

    The rules of an object key and of a store's key prefix.  Go ranges over the
    runes of a string: [utf8] decodes bytes as the language does, an invalid
    byte giving [None]. *)

From stdpp Require Import base tactics numbers list strings.
From Stdlib Require Import ZArith Lia Ascii.
From S2P Require Import Prelude GoBytes.

Local Open Scope string_scope.
Local Open Scope list_scope.
Local Open Scope Z_scope.

(** ** UTF-8 *)

Definition dec2 (b0 b1 : ascii) : option Z :=
  if within 194 223 b0 && within 128 191 b1
  then Some ((code b0 - 192) * 64 + (code b1 - 128)) else None.

Definition dec3 (b0 b1 b2 : ascii) : option Z :=
  if ((within 224 224 b0 && within 160 191 b1) || (within 225 236 b0 && within 128 191 b1) ||
      (within 237 237 b0 && within 128 159 b1) || (within 238 239 b0 && within 128 191 b1)) &&
     within 128 191 b2
  then Some ((code b0 - 224) * 4096 + (code b1 - 128) * 64 + (code b2 - 128)) else None.

Definition dec4 (b0 b1 b2 b3 : ascii) : option Z :=
  if ((within 240 240 b0 && within 144 191 b1) || (within 241 243 b0 && within 128 191 b1) ||
      (within 244 244 b0 && within 128 143 b1)) && within 128 191 b2 && within 128 191 b3
  then Some ((code b0 - 240) * 262144 + (code b1 - 128) * 4096 + (code b2 - 128) * 64 +
             (code b3 - 128)) else None.

(** The runes of a byte slice; an invalid byte is [None] and one byte long. *)
Fixpoint utf8 (b : bytes) : list (option Z) :=
  match b with
  | [] => []
  | b0 :: t0 =>
      if code b0 <? 128 then Some (code b0) :: utf8 t0
      else match t0 with
      | [] => None :: utf8 t0
      | b1 :: t1 =>
          match dec2 b0 b1 with
          | Some r => Some r :: utf8 t1
          | None =>
              match t1 with
              | [] => None :: utf8 t0
              | b2 :: t2 =>
                  match dec3 b0 b1 b2 with
                  | Some r => Some r :: utf8 t2
                  | None =>
                      match t2 with
                      | [] => None :: utf8 t0
                      | b3 :: t3 =>
                          match dec4 b0 b1 b2 b3 with
                          | Some r => Some r :: utf8 t3
                          | None => None :: utf8 t0
                          end
                      end
                  end
              end
          end
      end
  end.

(** [utf8.ValidString] *)
Definition ValidString (b : bytes) : bool :=
  forallb (fun r => match r with Some _ => true | None => false end) (utf8 b).

(** The runes [for _, r := range s] gives; an invalid byte is U+FFFD. *)
Definition runes (b : bytes) : list Z :=
  map (fun r => match r with Some r => r | None => 65533 end) (utf8 b).

(** [UnsafeRune]: unicode.IsControl, the categories Zl and Zp, and the property
    Bidi_Control. *)
Definition UnsafeRune (r : Z) : bool :=
  ((0 <=? r) && (r <=? 31)) || ((127 <=? r) && (r <=? 159)) ||
  (r =? 8232) || (r =? 8233) ||
  (r =? 1564) || ((8206 <=? r) && (r <=? 8207)) || ((8234 <=? r) && (r <=? 8238)) ||
  ((8294 <=? r) && (r <=? 8297)).

(** ** Problems *)

Definition MaxKeyBytes : Z := 1024.
Definition MaxSegmentBytes : Z := 255.

Inductive problem : Type :=
| PEmpty | PTooLong | PNotUTF8 | PLeadingSlash | PTrailingSlash | PBackslash | PControl (r : Z)
| PEmptySegment | PDotSegment | PSegmentEnd | PSegmentTooLong
(* PrefixProblem *)
| PNoSlash | PNoRoom.

Definition slash : ascii := "/"%char.

(** The loop over the runes. *)
Fixpoint runeProblem (rs : list Z) : option problem :=
  match rs with
  | [] => None
  | r :: rs =>
      if r =? 92 then Some PBackslash
      else if UnsafeRune r then Some (PControl r)
      else runeProblem rs
  end.

(** One segment. *)
Definition segmentProblem (seg : bytes) : option problem :=
  match last seg with
  | None => Some PEmptySegment
  | Some l =>
      if bool_decide (seg = of_string ".") || bool_decide (seg = of_string "..") then Some PDotSegment
      else if Ascii.eqb l "." || Ascii.eqb l " " then Some PSegmentEnd
      else if MaxSegmentBytes <? Z.of_nat (length seg) then Some PSegmentTooLong
      else None
  end.

(** The loop over the segments. *)
Fixpoint segmentsProblem (segs : list bytes) : option problem :=
  match segs with
  | [] => None
  | seg :: segs =>
      match segmentProblem seg with
      | Some p => Some p
      | None => segmentsProblem segs
      end
  end.

(** [Problem] *)
Definition Problem (key : bytes) : option problem :=
  if bool_decide (key = []) then Some PEmpty
  else if MaxKeyBytes <? Z.of_nat (length key) then Some PTooLong
  else if negb (ValidString key) then Some PNotUTF8
  else if HasPrefix key [slash] then Some PLeadingSlash
  else if HasSuffix key [slash] then Some PTrailingSlash
  else match runeProblem (runes key) with
  | Some p => Some p
  | None => segmentsProblem (SplitByte key slash)
  end.

(** [PrefixProblem] *)
Definition PrefixProblem (prefix : bytes) : option problem :=
  if bool_decide (prefix = []) then None
  else if negb (HasSuffix prefix [slash]) then Some PNoSlash
  else match Problem (TrimSuffix prefix [slash]) with
  | Some p => Some p
  | None => if MaxKeyBytes <=? Z.of_nat (length prefix) then Some PNoRoom else None
  end.

(** ** What a valid key is *)

Definition segment_ok (seg : bytes) : Prop :=
  seg <> [] /\ seg <> of_string "." /\ seg <> of_string ".." /\
  (forall l, last seg = Some l -> l <> "."%char /\ l <> " "%char) /\
  Z.of_nat (length seg) <= MaxSegmentBytes.

(** The documented rules (storage.ValidateKey). *)
Definition key_ok (key : bytes) : Prop :=
  1 <= Z.of_nat (length key) <= MaxKeyBytes /\ ValidString key = true /\
  Forall (fun r => r <> 92 /\ UnsafeRune r = false) (runes key) /\
  Forall segment_ok (SplitByte key slash).

Lemma runeProblem_None rs :
  runeProblem rs = None <-> Forall (fun r => r <> 92 /\ UnsafeRune r = false) rs.
Proof.
  induction rs as [|r rs IH]; simpl; [split; [constructor | done]|].
  rewrite Forall_cons, <- IH. destruct (r =? 92) eqn:E; breflect; [naive_solver|].
  destruct (UnsafeRune r); naive_solver.
Qed.

Lemma segmentProblem_None seg : segmentProblem seg = None <-> segment_ok seg.
Proof.
  unfold segmentProblem, segment_ok. destruct (last seg) as [l|] eqn:E.
  - assert (seg <> []) by (intros ->; done).
    destruct (decide (seg = of_string ".")); [rewrite bool_decide_eq_true_2 by done; naive_solver|].
    destruct (decide (seg = of_string "..")).
    { rewrite (bool_decide_eq_true_2 (seg = of_string "..")) by done. rewrite orb_true_r. naive_solver. }
    rewrite !bool_decide_eq_false_2 by done. simpl.
    destruct (Ascii.eqb_spec l "."); [naive_solver|]. destruct (Ascii.eqb_spec l " "); [naive_solver|].
    simpl. destruct (MaxSegmentBytes <? _) eqn:El; breflect.
    + split; [done|]. lia.
    + split; [|done]. intros _. repeat split; try done; naive_solver.
  - apply last_None in E as ->. naive_solver.
Qed.

Lemma segmentsProblem_None segs : segmentsProblem segs = None <-> Forall segment_ok segs.
Proof.
  induction segs as [|seg segs IH]; simpl; [split; [constructor | done]|].
  rewrite Forall_cons, <- IH, <- segmentProblem_None. destruct (segmentProblem seg); naive_solver.
Qed.

Lemma valid_cons r rs :
  forallb (fun r : option Z => match r with Some _ => true | None => false end) (r :: rs) = true <->
  (exists z, r = Some z) /\ forallb (fun r : option Z => match r with Some _ => true | None => false end) rs = true.
Proof. simpl. destruct r; simpl; naive_solver. Qed.

(** Decoding a valid slice does not look past its end. *)
Lemma utf8_app n : forall a b, (length a <= n)%nat -> ValidString a = true ->
  utf8 (a ++ b) = utf8 a ++ utf8 b.
Proof.
  unfold ValidString. induction n as [|n IH]; intros [|b0 t0] b Hn Hv; try done; [simpl in Hn; lia|].
  cbn [utf8 app] in *. simpl in Hn.
  destruct (code b0 <? 128); [apply valid_cons in Hv as [_ Hv]; rewrite (IH t0) by (done || lia); done|].
  destruct t0 as [|b1 t1]; [discriminate Hv|]. cbn [app].
  destruct (dec2 b0 b1); [apply valid_cons in Hv as [_ Hv]; rewrite (IH t1) by (done || (simpl in Hn; lia)); done|].
  destruct t1 as [|b2 t2]; [discriminate Hv|]. cbn [app].
  destruct (dec3 b0 b1 b2); [apply valid_cons in Hv as [_ Hv]; rewrite (IH t2) by (done || (simpl in Hn; lia)); done|].
  destruct t2 as [|b3 t3]; [discriminate Hv|]. cbn [app].
  destruct (dec4 b0 b1 b2 b3); [|discriminate Hv].
  apply valid_cons in Hv as [_ Hv]. rewrite (IH t3) by (done || (simpl in Hn; lia)). done.
Qed.

Lemma ValidString_slash a b :
  ValidString a = true -> ValidString b = true ->
  ValidString (a ++ slash :: b) = true /\ runes (a ++ slash :: b) = runes a ++ 47 :: runes b.
Proof.
  intros Ha Hb. unfold ValidString, runes. rewrite (utf8_app (length a)) by done.
  change (utf8 (slash :: b)) with (Some 47 :: utf8 b). rewrite forallb_app, map_app. simpl.
  split; [|done]. apply andb_true_iff. split; [exact Ha | exact Hb].
Qed.

Lemma key_ok_ends key :
  Forall segment_ok (SplitByte key slash) ->
  HasPrefix key [slash] = false /\ HasSuffix key [slash] = false.
Proof.
  intros H. assert ([] ∉ SplitByte key slash) as Hn.
  { intros Hin. rewrite Forall_forall in H. by destruct (H _ Hin). }
  split; apply not_true_is_false; intros [r ->]%HasPrefix_true || intros [r ->]%HasSuffix_true;
    apply Hn.
  - simpl. constructor.
  - rewrite SplitByte_app_sep. apply elem_of_app. right. simpl. constructor.
Qed.

(** The checks decide the documented rules. *)
Lemma Problem_iff key : Problem key = None <-> key_ok key.
Proof.
  unfold Problem, key_ok. case_bool_decide as He.
  { subst. split; [done|]. intros [H _]. simpl in H. lia. }
  assert (1 <= Z.of_nat (length key)) by (destruct key; [done | simpl; lia]).
  destruct (MaxKeyBytes <? _) eqn:El; breflect; [split; [done | lia]|].
  destruct (ValidString key); simpl; [|naive_solver].
  destruct (HasPrefix key [slash]) eqn:Ep.
  { split; [done|]. intros (_ & _ & _ & Hs). apply key_ok_ends in Hs. naive_solver congruence. }
  destruct (HasSuffix key [slash]) eqn:Es.
  { split; [done|]. intros (_ & _ & _ & Hs). apply key_ok_ends in Hs. naive_solver congruence. }
  rewrite <- runeProblem_None, <- segmentsProblem_None.
  destruct (runeProblem (runes key)); naive_solver.
Qed.

(** A prefix with no problem is empty, or a valid key and a slash. *)
Lemma PrefixProblem_None prefix :
  PrefixProblem prefix = None <->
  prefix = [] \/ exists p, prefix = p ++ [slash] /\ key_ok p /\ Z.of_nat (length prefix) < MaxKeyBytes.
Proof.
  unfold PrefixProblem. case_bool_decide as He; [naive_solver|].
  destruct (HasSuffix prefix [slash]) eqn:Es; simpl.
  - apply HasSuffix_true in Es as [p ->]. rewrite TrimSuffix_app.
    destruct (Problem p) eqn:Ep.
    + split; [done|]. intros [?|(p' & E & Hk & _)]; [done|].
      apply app_inj_tail in E as [<- _]. apply Problem_iff in Hk. congruence.
    + apply Problem_iff in Ep. destruct (MaxKeyBytes <=? _) eqn:El; breflect.
      * split; [done|]. intros [?|(p' & E & _ & Hl)]; [done|]. lia.
      * split; [|done]. intros _. right. eauto.
  - split; [done|]. intros [?|(p & -> & _)]; [done|].
    exfalso. assert (HasSuffix (p ++ [slash]) [slash] = true); [|congruence].
    apply HasSuffix_true. eauto.
Qed.

(** A valid key under a valid prefix is a valid key, within the length limit. *)
Theorem prefixed_key_valid prefix key :
  PrefixProblem prefix = None -> Problem key = None ->
  Z.of_nat (length (prefix ++ key)) <= MaxKeyBytes -> Problem (prefix ++ key) = None.
Proof.
  rewrite PrefixProblem_None, !Problem_iff. intros [->|(p & -> & Hp & _)] Hk Hl; [done|].
  destruct Hp as (_ & Hpv & Hpr & Hps), Hk as (Hkl & Hkv & Hkr & Hks).
  rewrite <- app_assoc in *. cbn [app] in *.
  destruct (ValidString_slash p key Hpv Hkv) as [Hv Hr]. unfold key_ok.
  split; [split; [|done]; rewrite length_app; simpl; lia|]. split; [done|]. split.
  - rewrite Hr. apply Forall_app. split; [done|]. constructor; [by vm_compute | done].
  - rewrite SplitByte_app_sep. apply Forall_app. done.
Qed.

Lemma prefixed_key_valid_witness :
  Problem (of_string "myapp/" ++ of_string "invoices/2024/a.pdf") = None.
Proof.
  apply (prefixed_key_valid (of_string "myapp/") (of_string "invoices/2024/a.pdf"));
    vm_compute; first [reflexivity | discriminate].
Defined.

(** The bytes of a multi-byte rune are all from 128 up... *)
Ltac high_bytes H :=
  unfold dec2, dec3, dec4, within in H;
  match type of H with
  | (if ?b then _ else _) = _ => let E := fresh "E" in
      destruct b eqn:E; [|discriminate H];
      repeat rewrite ?andb_true_iff, ?orb_true_iff, ?Z.leb_le in E; lia
  end.

Lemma dec2_high b0 b1 r : dec2 b0 b1 = Some r -> 128 <= code b1.
Proof. intros H. high_bytes H. Qed.

Lemma dec3_high b0 b1 b2 r : dec3 b0 b1 b2 = Some r -> 128 <= code b1 /\ 128 <= code b2.
Proof. intros H. high_bytes H. Qed.

Lemma dec4_high b0 b1 b2 b3 r :
  dec4 b0 b1 b2 b3 = Some r -> 128 <= code b1 /\ 128 <= code b2 /\ 128 <= code b3.
Proof. intros H. high_bytes H. Qed.

(** ... so an ASCII byte of a valid string is one of its runes. *)
Lemma ascii_is_rune n : forall s c, (length s <= n)%nat -> ValidString s = true ->
  code c < 128 -> c ∈ s -> Some (code c) ∈ utf8 s.
Proof.
  unfold ValidString. induction n as [|n IH]; intros [|b0 t0] c Hn Hv Hc Hin;
    try (by inversion Hin); [simpl in Hn; lia|].
  cbn [utf8] in *. simpl in Hn.
  destruct (code b0 <? 128) eqn:E0.
  { apply valid_cons in Hv as [_ Hv]. apply elem_of_cons in Hin as [->|Hin]; [constructor|].
    constructor. apply IH; [lia | done..]. }
  apply Z.ltb_ge in E0. apply elem_of_cons in Hin as [->|Hin]; [lia|].
  destruct t0 as [|b1 t1]; [by inversion Hin|]. simpl in Hn.
  destruct (dec2 b0 b1) eqn:E2.
  { apply dec2_high in E2. apply elem_of_cons in Hin as [->|Hin]; [lia|].
    apply valid_cons in Hv as [_ Hv]. constructor. apply IH; [lia | done..]. }
  destruct t1 as [|b2 t2]; [discriminate Hv|]. simpl in Hn.
  destruct (dec3 b0 b1 b2) eqn:E3.
  { apply dec3_high in E3 as [? ?]. do 2 (apply elem_of_cons in Hin as [->|Hin]; [lia|]).
    apply valid_cons in Hv as [_ Hv]. constructor. apply IH; [lia | done..]. }
  destruct t2 as [|b3 t3]; [discriminate Hv|]. simpl in Hn.
  destruct (dec4 b0 b1 b2 b3) eqn:E4; [|discriminate Hv].
  apply dec4_high in E4 as (? & ? & ?). do 3 (apply elem_of_cons in Hin as [->|Hin]; [lia|]).
  apply valid_cons in Hv as [_ Hv]. constructor. apply IH; [lia | done..].
Qed.

(** A valid key has no control byte, no newline in particular. *)
Lemma key_no_control key c : Problem key = None -> 0 <= code c <= 31 -> (c ∉ key).
Proof.
  rewrite Problem_iff. intros (_ & Hv & Hr & _) Hc Hin.
  assert (code c ∈ runes key) as Hin'.
  { unfold runes. apply list_elem_of_fmap. exists (Some (code c)). split; [done|].
    apply (ascii_is_rune (length key)); [done | done | lia | done]. }
  rewrite Forall_forall in Hr. destruct (Hr _ Hin') as [_ Hu].
  unfold UnsafeRune in Hu. rewrite !orb_false_iff, andb_false_iff, !Z.leb_gt in Hu. lia.
Qed.
