(* ===== verification/StorageOptions.v ===== *)
(** * storage/errors.go: how a storage failure is classified

    An error is a sentinel, a sentinel with a reason ([fmt.Errorf("%w: ...")]), or the
    envelope naming the call that failed.  [Is] is [errors.Is].

    The second part has the options of storage/key.go, storage/url.go and storage/storage.go. *)

From stdpp Require Import base tactics numbers list strings gmap sets.
From Stdlib Require Import ZArith Lia Ascii.
From S2P Require Import Prelude GoBytes StorageKey.

Local Open Scope Z_scope.

Inductive sentinel : Type :=
| ErrNotFound | ErrInvalidKey | ErrInvalidOptions | ErrSizeMismatch | ErrUnsupported | ErrNotPublic
| ErrUnavailable | ErrUnknownOutcome | ErrExists
(* io and context *)
| EOF | ErrNoProgress | Canceled | DeadlineExceeded
(* a source's own error *)
| ErrSource (n : nat).

#[export] Instance sentinel_eq_dec : EqDecision sentinel.
Proof. solve_decision. Defined.

(** What the message of a wrapped sentinel reports. *)
Inductive reason : Type :=
| KeyReason (p : problem)
| NegativeSize (size : Z)
| ShortBody (got size : Z)
| LongBody (size : Z)
| ContentTypeTooLong | ContentTypeControl (r : Z) | ContentTypeMalformed | ContentTypeNoSubtype
| MetadataEmptyName | MetadataBadName (name : bytes) | MetadataNotUTF8 (name : bytes)
| MetadataSpaces (name : bytes) | MetadataControl (name : bytes) (r : Z)
| MetadataEncodedWord (name : bytes) | MetadataTooLarge (total : Z)
| NoLifetime | FractionOfSecond | PublicLifetime | LifetimeTooLong
| CannotList | CannotOwn | MalformedToken.

Inductive op : Type := op_put | op_open | op_stat | op_delete | op_list | op_publish | op_fence
  | op_url | op_upload_url.

#[export] Instance op_eq_dec : EqDecision op.
Proof. solve_decision. Defined.

(** [error], with the type [Error] as the constructor [OpError]. *)
Inductive serror : Type :=
| Sentinel (s : sentinel)
| Because (s : sentinel) (why : reason)
| OpError (o : op) (key : bytes) (err : serror).

(** [errors.Is], through [Unwrap]. *)
Fixpoint Is (e : serror) (s : sentinel) : bool :=
  match e with
  | Sentinel t | Because t _ => bool_decide (t = s)
  | OpError _ _ err => Is err s
  end.

(** [errors.As(err, &se)]: the first [Error] of the chain. *)
Definition AsError (e : serror) : option (op * bytes) :=
  match e with
  | OpError o key _ => Some (o, key)
  | _ => None
  end.

(** [Wrap] of an error that is not nil *)
Definition Wrap (o : op) (key : bytes) (err : serror) : serror :=
  if bool_decide (AsError err = Some (o, key)) then err else OpError o key err.

(** The categories of contract [MapError] answers with. *)
Inductive category : Type := not_found | validation | conflict | dependency_unavailable | internal.

(** [MapError] of an error that is not nil *)
Definition MapError (err : serror) : category :=
  if Is err ErrNotFound then not_found
  else if Is err ErrInvalidOptions then validation
  else if Is err ErrSizeMismatch then validation
  else if Is err ErrExists then conflict
  else if Is err ErrUnknownOutcome then dependency_unavailable
  else if Is err ErrUnavailable then dependency_unavailable
  else if Is err DeadlineExceeded || Is err Canceled then dependency_unavailable
  else internal.

(** Wrapping keeps the classification, and is idempotent. *)
Lemma Is_Wrap o key err s : Is (Wrap o key err) s = Is err s.
Proof. unfold Wrap. by case_bool_decide. Qed.

Lemma Wrap_idem o key err : Wrap o key (Wrap o key err) = Wrap o key err.
Proof.
  unfold Wrap at 2 3. case_bool_decide as H; unfold Wrap; by rewrite bool_decide_eq_true_2.
Qed.

Lemma MapError_Wrap o key err : MapError (Wrap o key err) = MapError err.
Proof. unfold MapError. by rewrite !Is_Wrap. Qed.

(** * storage/key.go, storage/url.go, storage/storage.go: options and URLs

    The options of a Put and of a URL, their validation, visibility, and the escaping of a
    key into a URL path.  The parser of media types (mime.ParseMediaType, of which only the
    media type is used) and the length of an RFC 2047 encoding (mime.BEncoding) are
    arguments.  A nil map and an empty one hold the same entries: both are [∅]. *)

Local Open Scope string_scope.
Local Open Scope list_scope.
Local Open Scope Z_scope.

Record PutOptions : Type := mkPutOptions {
  ContentType : bytes;
  Size : option Z;
  Metadata : gmap bytes bytes;
  IfAbsent : bool }.

Record URLOptions : Type := mkURLOptions { Signed : bool; Expires : duration }.

Definition DefaultContentType : bytes := of_string "application/octet-stream".
Definition MaxContentTypeBytes : Z := 256.
Definition MaxMetadataBytes : Z := 2048.
Definition metadataHeaderPrefix : bytes := of_string "x-amz-meta-".
Definition MaxURLExpiry : duration := 7 * 24 * Hour.

(** [PublicURL], [SignedURL] *)
Definition PublicURL : URLOptions := mkURLOptions false 0.
Definition SignedURL (ttl : duration) : URLOptions := mkURLOptions true ttl.

(** [SizeFromContentLength] *)
Definition SizeFromContentLength (n : Z) : option Z := if n <? 0 then None else Some n.

(** [ValidateKey], [ValidatePrefix] and [ValidatePublicPrefix] *)
Definition ValidateKey (key : bytes) : option serror :=
  match Problem key with
  | Some p => Some (Because ErrInvalidKey (KeyReason p))
  | None => None
  end.

Definition ValidatePrefix (prefix : bytes) : option serror :=
  match PrefixProblem prefix with
  | Some p => Some (Because ErrInvalidKey (KeyReason p))
  | None => None
  end.

Definition ValidatePublicPrefix (prefix : bytes) : option serror :=
  match PrefixProblem prefix with
  | Some p => Some (Because ErrInvalidOptions (KeyReason p))
  | None => None
  end.

(** [ValidateURLOptions] *)
Definition ValidateURLOptions (opts : URLOptions) : option serror :=
  if Signed opts && (Expires opts <=? 0) then Some (Because ErrInvalidOptions NoLifetime)
  else if Signed opts && negb (Z.rem (Expires opts) Second =? 0)
       then Some (Because ErrInvalidOptions FractionOfSecond)
  else if negb (Signed opts) && negb (Expires opts =? 0)
       then Some (Because ErrInvalidOptions PublicLifetime)
  else if MaxURLExpiry <? Expires opts then Some (Because ErrInvalidOptions LifetimeTooLong)
  else None.

(** [IsPublic] *)
Definition IsPublic (publicPrefix key : bytes) : bool :=
  negb (bool_decide (publicPrefix = [])) && HasPrefix key publicPrefix.

(** [strings.Contains] *)
Fixpoint Contains (b p : bytes) : bool :=
  HasPrefix b p || match b with [] => false | _ :: b => Contains b p end.

(** The first rune [for _, r := range s] finds unsafe. *)
Definition unsafe_rune (b : bytes) : option Z := List.find UnsafeRune (runes b).

(** The bytes of a metadata name. *)
Definition nameByte (c : ascii) : bool :=
  within 97 122 c || within 48 57 c || (code c =? 45).

Definition one_space : list bytes := [of_string " "].

Section Validation.
Variable parseMediaType : bytes -> option bytes.
Variable encodedLen : bytes -> Z.

(** [MetadataValueWireLen] *)
Definition MetadataValueWireLen (value : bytes) : Z :=
  if forallb (within 32 126) value then Z.of_nat (length value) else encodedLen value.

(** One turn of the loop of [ValidateMetadata]. *)
Definition entryProblem (name value : bytes) : option reason :=
  if bool_decide (name = []) then Some MetadataEmptyName
  else if negb (forallb nameByte name) then Some (MetadataBadName name)
  else if negb (ValidString value) then Some (MetadataNotUTF8 name)
  else if negb (bool_decide (trim_left one_space value = value)) ||
          negb (bool_decide (trim_right one_space value = value)) then Some (MetadataSpaces name)
  else match unsafe_rune value with
  | Some r => Some (MetadataControl name r)
  | None => if Contains value (of_string "=?") then Some (MetadataEncodedWord name) else None
  end.

Definition entryBytes (e : bytes * bytes) : Z :=
  Z.of_nat (length metadataHeaderPrefix) + Z.of_nat (length e.1) + MetadataValueWireLen e.2.

Fixpoint metadataLoop (md : list (bytes * bytes)) (total : Z) : result reason Z :=
  match md with
  | [] => Ok total
  | (name, value) :: md =>
      match entryProblem name value with
      | Some r => Err r
      | None => metadataLoop md (total + entryBytes (name, value))
      end
  end.

(** [ValidateMetadata]; the entries come in some order, as a Go map's do. *)
Definition ValidateMetadata (md : gmap bytes bytes) : option serror :=
  match metadataLoop (map_to_list md) 0 with
  | Err r => Some (Because ErrInvalidOptions r)
  | Ok total =>
      if MaxMetadataBytes <? total then Some (Because ErrInvalidOptions (MetadataTooLarge total)) else None
  end.

(** Whether the media type is a type and a subtype. *)
Definition hasSubtype (mediaType : bytes) : bool :=
  match CutByte mediaType slash with
  | Some (typ, sub) =>
      negb (bool_decide (typ = [])) && negb (bool_decide (sub = [])) && negb (Contains sub [slash])
  | None => false
  end.

Definition contentTypeProblem (ct : bytes) : option reason :=
  if MaxContentTypeBytes <? Z.of_nat (length ct) then Some ContentTypeTooLong
  else match unsafe_rune ct with
  | Some r => Some (ContentTypeControl r)
  | None =>
      if bool_decide (ct = []) then None
      else match parseMediaType ct with
      | None => Some ContentTypeMalformed
      | Some mediaType => if hasSubtype mediaType then None else Some ContentTypeNoSubtype
      end
  end.

(** [ValidatePutOptions] *)
Definition ValidatePutOptions (opts : PutOptions) : option serror :=
  match contentTypeProblem (ContentType opts) with
  | Some r => Some (Because ErrInvalidOptions r)
  | None =>
      match Size opts with
      | Some n => if n <? 0 then Some (Because ErrInvalidOptions (NegativeSize n))
                  else ValidateMetadata (Metadata opts)
      | None => ValidateMetadata (Metadata opts)
      end
  end.

(** ** What valid options are *)

Definition wire_bytes (md : gmap bytes bytes) : Z := foldr Z.add 0 (entryBytes <$> map_to_list md).

Definition metadata_ok (md : gmap bytes bytes) : Prop :=
  map_Forall (fun name value => entryProblem name value = None) md /\
  wire_bytes md <= MaxMetadataBytes.

Lemma metadataLoop_Ok md total u :
  metadataLoop md total = Ok u <->
  Forall (fun e => entryProblem e.1 e.2 = None) md /\ u = total + foldr Z.add 0 (entryBytes <$> md).
Proof.
  revert total. induction md as [|[name value] md IH]; intros total; cbn [metadataLoop].
  - simpl. split; [intros [= ->]; split; [constructor | lia] | intros [_ ->]; f_equal; lia].
  - rewrite Forall_cons. cbn [fst snd fmap list_fmap foldr]. destruct (entryProblem name value).
    + split; [done | naive_solver].
    + rewrite IH. rewrite Z.add_assoc. naive_solver.
Qed.

(** The outcome does not depend on the order of the map. *)
Lemma ValidateMetadata_None md : ValidateMetadata md = None <-> metadata_ok md.
Proof.
  unfold ValidateMetadata, metadata_ok, wire_bytes. rewrite map_Forall_to_list.
  destruct (metadataLoop (map_to_list md) 0) as [total|r] eqn:E.
  - apply metadataLoop_Ok in E as [Hall ->]. rewrite Z.add_0_l.
    assert (Forall (uncurry (fun name value => entryProblem name value = None)) (map_to_list md)).
    { eapply Forall_impl; [exact Hall|]. by intros []. }
    destruct (MaxMetadataBytes <? _) eqn:Et; breflect; [split; [done | lia] | done].
  - split; [done|]. intros [Hall _]. exfalso.
    assert (metadataLoop (map_to_list md) 0 = Ok (0 + foldr Z.add 0 (entryBytes <$> map_to_list md)));
      [|congruence].
    apply metadataLoop_Ok. split; [|done]. eapply Forall_impl; [exact Hall|]. by intros [].
Qed.

Lemma ValidatePutOptions_None opts :
  ValidatePutOptions opts = None <->
  contentTypeProblem (ContentType opts) = None /\ (forall n, Size opts = Some n -> 0 <= n) /\
  metadata_ok (Metadata opts).
Proof.
  unfold ValidatePutOptions. rewrite <- ValidateMetadata_None.
  destruct (contentTypeProblem _); [naive_solver|]. destruct (Size opts) as [n|]; [|naive_solver].
  destruct (n <? 0) eqn:E; breflect; [|naive_solver].
  split; [done|]. intros (_ & H & _). specialize (H n eq_refl). lia.
Qed.
End Validation.

(** ** URLs *)

Definition unreserved (c : ascii) : bool :=
  within 97 122 c || within 65 90 c || within 48 57 c ||
  Ascii.eqb c "-" || Ascii.eqb c "." || Ascii.eqb c "_" || Ascii.eqb c "~" || Ascii.eqb c "/".

(** [hex[n]] *)
Definition hexdigit (n : Z) : ascii :=
  byte_of (Z.to_nat (if n <? 10 then 48 + n else 55 + n)).

Definition escapeByte (c : ascii) : bytes :=
  if unreserved c then [c]
  else ["%"%char; hexdigit (Z.shiftr (code c) 4); hexdigit (Z.land (code c) 15)].

(** [EscapeKey] *)
Fixpoint EscapeKey (key : bytes) : bytes :=
  match key with
  | [] => []
  | c :: key => escapeByte c ++ EscapeKey key
  end.

(** What a server does: percent-decoding of a path (RFC 3986). *)
Definition unhex (c : ascii) : Z := if code c <? 58 then code c - 48 else code c - 55.

Fixpoint percent_decode (p : bytes) : bytes :=
  match p with
  | "%"%char :: h :: l :: p => byte_of (Z.to_nat (16 * unhex h + unhex l)) :: percent_decode p
  | c :: p => c :: percent_decode p
  | [] => []
  end.

Lemma percent_decode_escape c rest :
  percent_decode (escapeByte c ++ rest) = c :: percent_decode rest.
Proof. destruct c as [[] [] [] [] [] [] [] []]; reflexivity. Qed.

Lemma escapeByte_safe c : forallb (fun d => unreserved d || Ascii.eqb d "%") (escapeByte c) = true.
Proof. destruct c as [[] [] [] [] [] [] [] []]; reflexivity. Qed.

(** A server that decodes the path has the key back, and the path holds only unreserved
    characters, '/' and '%'. *)
Theorem EscapeKey_roundtrip key :
  percent_decode (EscapeKey key) = key /\
  forallb (fun d => unreserved d || Ascii.eqb d "%") (EscapeKey key) = true.
Proof.
  induction key as [|c key [IH1 IH2]]; [done|]. cbn [EscapeKey].
  rewrite percent_decode_escape, IH1, forallb_app, escapeByte_safe, IH2. done.
Qed.

(** A signed URL lives between a second and seven days, whole seconds; a public one has no
    lifetime. *)
Lemma ValidateURLOptions_None opts :
  ValidateURLOptions opts = None <->
  if Signed opts then 1 * Second <= Expires opts <= MaxURLExpiry /\ (Second | Expires opts)
  else Expires opts = 0.
Proof.
  unfold ValidateURLOptions, MaxURLExpiry, Hour, Minute, Second. destruct opts as [[] e]; cbn [Signed Expires andb negb].
  - destruct (e <=? 0) eqn:E0; breflect; [split; [done | lia]|].
    destruct (Z.rem e 1000000000 =? 0) eqn:E1; breflect; cbn [negb].
    + apply Z.rem_divide in E1; [|lia].
      destruct (_ <? e) eqn:E2; breflect; [split; [done | lia]|].
      split; [|done]. intros _. split; [|done]. destruct E1 as [z ->]. lia.
    + split; [done|]. intros [_ Hd]. apply Z.rem_divide in Hd; [done | lia].
  - destruct (e =? 0) eqn:E0; breflect; cbn [negb]; [subst; split; [done|] | split; [done|lia]].
    intros _. by vm_compute.
Qed.
