(* ===== verification/StorageStream.v ===== *)
(** * storage/stream.go: readers that enforce a size and stop with a context

    An [io.Reader] is a state with a [Read] of at most [n] bytes.  Contexts are consulted
    at moments the program does not choose: the [k]-th call of [ctx.Err] answers [ctx k],
    and [Read] threads [k].  [ReaderLaws] says what a well-behaved reader still has to
    give and how it ends, so that each wrapper is proved to be such a reader and
    [ReadFrom] is proved once, against the interface. *)

From stdpp Require Import base tactics numbers list strings.
From Stdlib Require Import ZArith Lia Ascii.
From S2P Require Import Prelude GoBytes StorageKey StorageOptions.

Local Open Scope list_scope.
Local Open Scope Z_scope.

(** ** Readers *)

(** Bytes, the error when there is one, the reader's next state and the number of context
    consultations so far. *)
Definition read_result (R : Type) : Type := bytes * option serror * R * nat.

Class Reader (R : Type) := Read : nat -> R -> nat -> read_result R.

(** [bytes.Reader], which a strings.Reader is too. *)
Record bytesReader : Type := NewReader { unread : bytes }.

#[export] Instance bytesReader_Reader : Reader bytesReader := fun n r k =>
  match unread r with
  | [] => ([], Some (Sentinel EOF), r, k)
  | s => (take n s, None, NewReader (drop n s), k)
  end.

(** ** ExpectSize *)

Record exactReader (R : Type) : Type := mkExact {
  e_r : R;
  e_left : Z;
  e_size : Z;
  e_done : option serror }.
Arguments mkExact {_} _ _ _ _.
Arguments e_r {_} _.
Arguments e_left {_} _.
Arguments e_size {_} _.
Arguments e_done {_} _.

(** [ExpectSize] *)
Definition ExpectSize {R} (r : R) (sz : Z) : exactReader R := mkExact r sz sz None.

(** [probe]: one byte further, at most [tries] times. *)
Fixpoint probe_loop {R} `{Reader R} (tries : nat) (sz : Z) (r : R) (k : nat) : serror * R * nat :=
  match tries with
  | O => (Sentinel ErrNoProgress, r, k)
  | S tries =>
      let '(b, err, r', k') := Read 1 r k in
      match b, err with
      | _ :: _, _ => (Because ErrSizeMismatch (LongBody sz), r', k')
      | [], Some e => (if Is e EOF then Sentinel EOF else e, r', k')
      | [], None => probe_loop tries sz r' k'
      end
  end.

Definition probe {R} `{Reader R} (sz : Z) (r : R) (k : nat) : serror * R * nat :=
  probe_loop 100 sz r k.

(** The tail of [Read]: the declared bytes have been read. *)
Definition finish {R} `{Reader R} (b : bytes) (r : R) (l sz : Z) (k : nat) :
    read_result (exactReader R) :=
  let '(d, r', k') := probe sz r k in
  (b, Some d, mkExact r' l sz (Some d), k').

(** [exactReader.Read] *)
#[export] Instance exactReader_Reader {R} `{Reader R} : Reader (exactReader R) := fun n e k =>
  match e_done e with
  | Some d => ([], Some d, e, k)
  | None =>
      if e_size e <? 0 then
        let d := Because ErrInvalidOptions (NegativeSize (e_size e)) in
        ([], Some d, mkExact (e_r e) (e_left e) (e_size e) (Some d), k)
      else if 0 <? e_left e then
        let n := if e_left e <? Z.of_nat n then Z.to_nat (e_left e) else n in
        let '(b, err, r', k') := Read n (e_r e) k in
        let l := e_left e - Z.of_nat (length b) in
        let eof := match err with Some x => Is x EOF | None => false end in
        if (0 <? l) && eof then
          let d := Because ErrSizeMismatch (ShortBody (e_size e - l) (e_size e)) in
          (b, Some d, mkExact r' l (e_size e) (Some d), k')
        else if (0 <? l) || (match err with Some _ => negb eof | None => false end) then
          (b, err, mkExact r' l (e_size e) None, k')
        else if eof then
          (b, Some (Sentinel EOF), mkExact r' l (e_size e) (Some (Sentinel EOF)), k')
        else finish b r' l (e_size e) k'
      else finish [] (e_r e) (e_left e) (e_size e) k
  end.

(** ** Contexts *)

(** What [ctx.Err] answers, by the number of the call. *)
Inductive ctxerr : Type := CtxCanceled | CtxDeadline.
Definition context : Type := nat -> option ctxerr.

Definition ctx_error (c : ctxerr) : serror :=
  Sentinel (match c with CtxCanceled => Canceled | CtxDeadline => DeadlineExceeded end).

Record ctxReader (R : Type) : Type := ContextReader { ctx : context; inner : R }.
Arguments ContextReader {_} _ _.
Arguments ctx {_} _.
Arguments inner {_} _.

(** [ctxReader.Read], which [ctxReadCloser.Read] repeats. *)
#[export] Instance ctxReader_Reader {R} `{Reader R} : Reader (ctxReader R) := fun n c k =>
  match ctx c k with
  | Some e => ([], Some (ctx_error e), c, S k)
  | None =>
      let '(b, err, r', k') := Read n (inner c) (S k) in
      match ctx c k' with
      | Some e => ([], Some (ctx_error e), ContextReader (ctx c) r', S k')
      | None => (b, err, ContextReader (ctx c) r', S k')
      end
  end.

(** [PutReader]: the size is enforced when one is declared.  Two shapes of reader, so a
    sum with a [Read] of its own. *)
Definition PutReader {R} (c : context) (r : R) (declared : option Z) :
    ctxReader (R + exactReader R) :=
  ContextReader c (match declared with
                   | Some sz => inr (ExpectSize r sz)
                   | None => inl r
                   end).

#[export] Instance sum_Reader {A B} `{Reader A, Reader B} : Reader (A + B) := fun n r k =>
  match r with
  | inl a => let '(b, err, a', k') := Read n a k in (b, err, inl a', k')
  | inr a => let '(b, err, a', k') := Read n a k in (b, err, inr a', k')
  end.

(** ** Reading to the end *)

(** [bytes.Buffer.ReadFrom], which [io.Copy] into a buffer calls: the free space of the
    buffer at the [i]-th read is [room i], at least bytes.MinRead.  The error is compared
    with io.EOF itself, not with errors.Is.  [None] when the fuel runs out. *)
Fixpoint ReadFrom {R} `{Reader R} (fuel : nat) (room : nat -> nat) (i : nat) (buf : bytes)
    (r : R) (k : nat) : option (bytes * option serror * nat) :=
  match fuel with
  | O => None
  | S fuel =>
      let '(b, err, r', k') := Read (room i) r k in
      match err with
      | Some (Sentinel EOF) => Some (buf ++ b, None, k')
      | Some e => Some (buf ++ b, Some e, k')
      | None => ReadFrom fuel room (S i) (buf ++ b) r' k'
      end
  end.

Definition MinRead : nat := 512%nat.

(** ** The contract of a reader *)

(** What [r] has still to give, the error it then ends with, and the errors that can cut
    it short.  A read of a non-empty buffer that reports no error makes progress. *)
Class ReaderLaws (R : Type) `{Reader R} := {
  rvalid : R -> Prop;
  pending : R -> bytes;
  final : R -> serror;
  cut : R -> serror -> Prop;
  read_more n r k b r' k' :
    rvalid r -> (0 < n)%nat -> Read n r k = (b, None, r', k') ->
    b <> [] /\ (length b <= n)%nat /\ pending r = b ++ pending r' /\ final r' = final r /\
    rvalid r' /\ (forall e, cut r' e -> cut r e);
  read_end n r k b e r' k' :
    rvalid r -> (0 < n)%nat -> Read n r k = (b, Some e, r', k') ->
    (length b <= n)%nat /\
    (pending r = b /\ e = final r \/ (exists rest, pending r = b ++ rest) /\ cut r e);
  cut_not_EOF r e : rvalid r -> cut r e -> Is e EOF = false }.

(** ** The readers keep it *)

#[export] Instance bytesReader_laws : ReaderLaws bytesReader.
Proof.
  refine {| rvalid _ := True; pending := unread; final _ := Sentinel EOF; cut _ _ := False |}.
  - intros n [s] k b r' k' _ Hn. unfold Read, bytesReader_Reader. simpl. destruct s as [|c s]; [done|].
    intros [= <- <- <-]. destruct n as [|n]; [lia|]. simpl. repeat split; try done.
    + rewrite length_take. lia.
    + f_equal. by rewrite take_drop.
  - intros n [s] k b e r' k' _ Hn. unfold Read, bytesReader_Reader. simpl. destruct s as [|c s]; [|done].
    intros [= <- <- <- <-]. simpl. split; [lia|]. by left.
  - done.
Defined.

Section WithLaws.
Context {R : Type} `{RL : ReaderLaws R}.
Implicit Types (r : R) (e : exactReader R).

Definition stop (x : serror) : serror := if Is x EOF then Sentinel EOF else x.

(** [probe] needs one read: the source has another byte, has ended, or was cut. *)
Lemma probe_spec sz r k d r' k' :
  rvalid r -> probe sz r k = (d, r', k') ->
  pending r <> [] /\ d = Because ErrSizeMismatch (LongBody sz) \/
  pending r = [] /\ d = stop (final r) \/ cut r d.
Proof.
  intros Hv. unfold probe. cbn [probe_loop]. destruct (Read 1 r k) as [[[b err] r1] k1] eqn:E.
  destruct err as [x|].
  - destruct (read_end 1 r k b x r1 k1 Hv ltac:(lia) E) as [_ Hx].
    destruct b as [|c b]; intros [= <- <- <-].
    + destruct Hx as [[Hp ->]|[_ Hc]]; [right; left; done|]. right; right.
      by rewrite (cut_not_EOF r x Hv Hc).
    + left. split; [|done]. destruct Hx as [[-> _]|[[rest ->] _]]; done.
  - destruct (read_more 1 r k b r1 k1 Hv ltac:(lia) E) as (Hb & _ & Hp & _).
    destruct b as [|c b]; [done|]. intros [= <- <- <-]. left. split; [by rewrite Hp | done].
Qed.

Definition e_pending e : bytes :=
  match e_done e with
  | Some _ => []
  | None => if e_size e <? 0 then [] else take (Z.to_nat (e_left e)) (pending (e_r e))
  end.

Definition e_final e : serror :=
  match e_done e with
  | Some d => d
  | None =>
      let m := Z.of_nat (length (pending (e_r e))) in
      if e_size e <? 0 then Because ErrInvalidOptions (NegativeSize (e_size e))
      else if e_left e <? m then Because ErrSizeMismatch (LongBody (e_size e))
      else if e_left e =? m then stop (final (e_r e))
      else if Is (final (e_r e)) EOF
           then Because ErrSizeMismatch (ShortBody (e_size e - (e_left e - m)) (e_size e))
           else final (e_r e)
  end.

Definition e_valid e : Prop := rvalid (e_r e) /\ (e_done e = None -> 0 <= e_size e -> 0 <= e_left e).

(** How many bytes the read below is asked for. *)
Lemma clamp_bound (l : Z) (n : nat) :
  0 < l -> (0 < n)%nat ->
  let m := if l <? Z.of_nat n then Z.to_nat l else n in
  (0 < m)%nat /\ (m <= n)%nat /\ Z.of_nat m <= l.
Proof. simpl. intros. destruct (l <? _) eqn:E; breflect; lia. Qed.

Lemma finish_spec b r l sz k b' d e' k' :
  rvalid r -> finish b r l sz k = (b', d, e', k') ->
  b' = b /\ exists x, d = Some x /\
    (pending r <> [] /\ x = Because ErrSizeMismatch (LongBody sz) \/
     pending r = [] /\ x = stop (final r) \/ cut r x).
Proof.
  intros Hv. unfold finish. destruct (probe sz r k) as [[x r1] k1] eqn:E. intros [= <- <- <- <-].
  split; [done|]. exists x. split; [done|]. by eapply probe_spec.
Qed.

(** The part of the source [Read] still counts, once the size has been checked. *)
Lemma take_split (l : Z) (b p : bytes) :
  Z.of_nat (length b) <= l ->
  take (Z.to_nat l) (b ++ p) = b ++ take (Z.to_nat (l - Z.of_nat (length b))) p.
Proof.
  intros Hle. rewrite take_app. rewrite (take_ge b) by lia. do 2 f_equal. lia.
Qed.

Lemma exact_more n e k b e' k' :
  e_valid e -> (0 < n)%nat -> Read n e k = (b, None, e', k') ->
  b <> [] /\ (length b <= n)%nat /\ e_pending e = b ++ e_pending e' /\ e_final e' = e_final e /\
  e_valid e' /\ (forall x, e_done e' = None /\ cut (e_r e') x -> e_done e = None /\ cut (e_r e) x).
Proof.
  intros [Hv Hl] Hn. destruct e as [r l sz [d|]]; simpl in *; [done|].
  unfold Read, exactReader_Reader. cbn [e_r e_left e_size e_done].
  destruct (sz <? 0) eqn:Es; [done|]. breflect.
  destruct (0 <? l) eqn:El; breflect; cycle 1.
  { intros Hf. apply finish_spec in Hf as (_ & x & ? & _); [done | done]. }
  destruct (clamp_bound l n El Hn) as (Hm0 & Hmn & Hml). set (m := if l <? Z.of_nat n then _ else n) in *.
  destruct (Read m r k) as [[[b1 [x|]] r1] k1] eqn:Er.
  { destruct (Is x EOF) eqn:Ex; simpl; destruct (0 <? l - _) eqn:E0; simpl; done. }
  destruct (read_more m r k b1 r1 k1 Hv Hm0 Er) as (Hb & Hlen & Hp & Hf & Hv1 & Hc).
  destruct (0 <? l - _) eqn:E0; simpl; breflect; cycle 1.
  { intros Hfin. by apply finish_spec in Hfin as (_ & x & ? & _). }
  intros [= <- <- <-]. split; [done|]. split; [lia|].
  unfold e_pending, e_final, e_valid. cbn [e_r e_left e_size e_done].
  rewrite (proj2 (Z.ltb_ge sz 0)) by lia.
  split; [rewrite Hp; apply take_split; lia|]. rewrite Hp, Hf, length_app, Nat2Z.inj_add.
  split; [|split; [split; [done | lia] | naive_solver]].
  replace (l - Z.of_nat (length b1) <? Z.of_nat (length (pending r1)))
    with (l <? Z.of_nat (length b1) + Z.of_nat (length (pending r1)))
    by (apply eq_true_iff_eq; rewrite !Z.ltb_lt; lia).
  replace (l - Z.of_nat (length b1) =? Z.of_nat (length (pending r1)))
    with (l =? Z.of_nat (length b1) + Z.of_nat (length (pending r1)))
    by (apply eq_true_iff_eq; rewrite !Z.eqb_eq; lia).
  by rewrite Z.sub_add_distr.
Qed.

(** The end of a source of at most [l] bytes, at the end of the bytes read. *)
Lemma exact_final r l sz :
  0 <= sz -> Z.of_nat (length (pending r)) <= l ->
  e_pending (mkExact r l sz None) = pending r /\
  e_final (mkExact r l sz None) =
    if l =? Z.of_nat (length (pending r)) then stop (final r)
    else if Is (final r) EOF
         then Because ErrSizeMismatch (ShortBody (sz - (l - Z.of_nat (length (pending r)))) sz)
         else final r.
Proof.
  intros Hs Hl. unfold e_pending, e_final. simpl. rewrite (proj2 (Z.ltb_ge sz 0)) by lia.
  rewrite (proj2 (Z.ltb_ge l _)) by lia. split; [|done]. apply take_ge. lia.
Qed.

(** The read that reaches the size. *)
Lemma exact_probe r l sz b r1 :
  0 <= sz -> l = Z.of_nat (length b) -> pending r = b ++ pending r1 -> final r1 = final r ->
  (forall x, cut r1 x -> cut r x) ->
  forall x, (pending r1 <> [] /\ x = Because ErrSizeMismatch (LongBody sz) \/
             pending r1 = [] /\ x = stop (final r1) \/ cut r1 x) ->
  let e := mkExact r l sz None in
  e_pending e = b /\ x = e_final e \/ (exists rest, e_pending e = b ++ rest) /\ cut r x.
Proof.
  intros Hs -> Hp Hf Hc x Hx e. unfold e, e_pending, e_final. simpl.
  rewrite (proj2 (Z.ltb_ge sz 0)) by lia. rewrite Hp, take_app, Nat2Z.id, Nat.sub_diag, take_0, app_nil_r.
  rewrite (take_ge b) by lia. rewrite length_app, Nat2Z.inj_add.
  destruct Hx as [[Hne ->]|[[Hnil ->]|Hx]].
  - left. split; [done|]. destruct (pending r1); [done|]. rewrite (proj2 (Z.ltb_lt _ _)); [done | simpl; lia].
  - left. split; [done|]. rewrite Hnil, Hf. simpl. rewrite Z.add_0_r, Z.ltb_irrefl, Z.eqb_refl. done.
  - right. split; [exists []; by rewrite app_nil_r | by apply Hc].
Qed.

Lemma exact_end n e k b x e' k' :
  e_valid e -> (0 < n)%nat -> Read n e k = (b, Some x, e', k') ->
  (length b <= n)%nat /\
  (e_pending e = b /\ x = e_final e \/
   (exists rest, e_pending e = b ++ rest) /\ e_done e = None /\ cut (e_r e) x).
Proof.
  intros [Hv Hl] Hn. destruct e as [r l sz [d|]]; simpl in *.
  { intros [= <- <- <- <-]. split; [simpl; lia|]. by left. }
  unfold Read, exactReader_Reader. cbn [e_r e_left e_size e_done].
  destruct (sz <? 0) eqn:Es.
  { intros [= <- <- <- <-]. split; [simpl; lia|]. left. unfold e_pending, e_final. simpl. by rewrite Es. }
  breflect. specialize (Hl eq_refl Es). destruct (0 <? l) eqn:El; breflect; cycle 1.
  { intros Hf. apply finish_spec in Hf as (-> & y & [= <-] & Hy); [|done]. split; [simpl; lia|].
    assert (l = 0) as -> by lia.
    destruct (exact_probe r 0 sz [] r Es eq_refl eq_refl eq_refl (fun _ H => H) x Hy); [by left | naive_solver]. }
  destruct (clamp_bound l n El Hn) as (Hm0 & Hmn & Hml). set (m := if l <? Z.of_nat n then _ else n) in *.
  destruct (Read m r k) as [[[b1 [y|]] r1] k1] eqn:Er; cycle 1.
  { destruct (read_more m r k b1 r1 k1 Hv Hm0 Er) as (Hb & Hlen & Hp & Hf & Hv1 & Hc).
    destruct (0 <? l - _) eqn:E0; simpl; [done|]. breflect. intros Hfin.
    apply finish_spec in Hfin as (-> & z & [= <-] & Hz); [|done]. split; [lia|].
    destruct (exact_probe r l sz b1 r1 Es ltac:(lia) Hp Hf Hc x Hz); [by left | naive_solver]. }
  destruct (read_end m r k b1 y r1 k1 Hv Hm0 Er) as [Hlen Hy].
  intros Heq. assert (b = b1 /\ (if Is y EOF
    then x = if 0 <? l - Z.of_nat (length b1)
             then Because ErrSizeMismatch (ShortBody (sz - (l - Z.of_nat (length b1))) sz) else Sentinel EOF
    else x = y)) as [-> Hx].
  { destruct (Is y EOF), (0 <? l - Z.of_nat (length b1)); simpl in Heq; by injection Heq. }
  split; [lia|]. destruct Hy as [[Hp Hyf]|[[rest Hp] Hc]].
  - left. subst y. destruct (exact_final r l sz Es) as [-> ->]; [rewrite Hp; lia|]. split; [done|].
    rewrite Hp in *. unfold stop. destruct (l =? _) eqn:E1; breflect.
    + replace (l - _) with 0 in Hx by lia. simpl in Hx. by destruct (Is (final r) EOF).
    + rewrite (proj2 (Z.ltb_lt 0 (l - _))) in Hx by lia. by destruct (Is (final r) EOF).
  - right. rewrite (cut_not_EOF r y Hv Hc) in Hx. subst x. split; [|done].
    exists (take (Z.to_nat (l - Z.of_nat (length b1))) rest). unfold e_pending. simpl.
    rewrite (proj2 (Z.ltb_ge sz 0)), Hp by lia. apply take_split. lia.
Qed.

#[export] Instance exactReader_laws : ReaderLaws (exactReader R).
Proof.
  refine {| rvalid := e_valid; pending := e_pending; final := e_final;
            cut e x := e_done e = None /\ cut (e_r e) x;
            read_more := exact_more; read_end := exact_end |}.
  intros e x [Hv _] [_ Hc]. by eapply cut_not_EOF.
Defined.

#[export] Instance ctxReader_laws : ReaderLaws (ctxReader R).
Proof.
  refine {| rvalid c := rvalid (inner c); pending c := pending (inner c); final c := final (inner c);
            cut c x := cut (inner c) x \/ exists i d, ctx c i = Some d /\ x = ctx_error d |}.
  - intros n [c r] k b r' k' Hv Hn. unfold Read, ctxReader_Reader. simpl. destruct (c k) eqn:E0; [done|].
    destruct (Read n r (S k)) as [[[b1 err] r1] k1] eqn:E. destruct (c k1) eqn:E1; [done|].
    intros [= <- -> <- <-]. simpl in *.
    destruct (read_more n r (S k) b1 r1 k1 Hv Hn E) as (? & ? & ? & ? & ? & ?). naive_solver.
  - intros n [c r] k b x r' k' Hv Hn. unfold Read, ctxReader_Reader. simpl. destruct (c k) eqn:E0.
    { intros [= <- <- <- <-]. split; [simpl; lia|]. right. split; [by eexists | eauto]. }
    destruct (Read n r (S k)) as [[[b1 err] r1] k1] eqn:E. destruct (c k1) eqn:E1.
    { intros [= <- <- <- <-]. split; [simpl; lia|]. right. split; [by eexists | eauto]. }
    intros [= <- -> <- <-]. simpl in *.
    destruct (read_end n r (S k) b1 x r1 k1 Hv Hn E) as [? [?|[? ?]]]; naive_solver.
  - intros c x Hv [Hc|(i & d & _ & ->)]; [by eapply cut_not_EOF | by destruct d].
Defined.
End WithLaws.

#[export] Instance sum_laws {A B} `{ReaderLaws A, ReaderLaws B} : ReaderLaws (A + B).
Proof.
  refine {| rvalid r := match r with inl a => rvalid a | inr a => rvalid a end;
            pending r := match r with inl a => pending a | inr a => pending a end;
            final r := match r with inl a => final a | inr a => final a end;
            cut r x := match r with inl a => cut a x | inr a => cut a x end |}.
  - intros n [a|a] k b r' k' Hv Hn; unfold Read, sum_Reader;
      destruct (Read n a k) as [[[b1 err] a1] k1] eqn:E; intros [= <- -> <- <-];
      exact (read_more _ _ _ _ _ _ Hv Hn E).
  - intros n [a|a] k b x r' k' Hv Hn; unfold Read, sum_Reader;
      destruct (Read n a k) as [[[b1 err] a1] k1] eqn:E; intros [= <- -> <- <-];
      exact (read_end _ _ _ _ _ _ _ Hv Hn E).
  - intros [a|a] x; apply cut_not_EOF.
Defined.

(** ** Reading a reader to its end *)

(** Enough fuel: one read per byte and one more.  A success gives every byte of the source
    and only for a source that ended with io.EOF. *)
Lemma ReadFrom_spec {R} `{ReaderLaws R} room fuel : forall i buf (r : R) k,
  (forall j, (0 < room j)%nat) -> rvalid r -> (length (pending r) < fuel)%nat ->
  exists data err k', ReadFrom fuel room i buf r k = Some (data, err, k') /\
    (err = None /\ data = buf ++ pending r /\ final r = Sentinel EOF \/
     exists e, err = Some e /\ e <> Sentinel EOF /\ (e = final r \/ cut r e)).
Proof.
  induction fuel as [|fuel IH]; intros i buf r k Hroom Hv Hf; [lia|]. cbn [ReadFrom].
  destruct (Read (room i) r k) as [[[b err] r1] k1] eqn:E. destruct err as [e|].
  - destruct (read_end (room i) r k b e r1 k1 Hv (Hroom i) E) as [_ He].
    assert (e = Sentinel EOF -> pending r = b /\ final r = Sentinel EOF) as Heof.
    { intros ->. destruct He as [[? ?]|[_ He]]; [done|].
      pose proof (cut_not_EOF r _ Hv He) as Hn. discriminate Hn. }
    assert (e = final r \/ cut r e) as He' by naive_solver.
    destruct e as [[]| |]; do 3 eexists; (split; [reflexivity|]); try (right; eexists; done).
    left. destruct (Heof eq_refl) as [-> ->]. done.
  - destruct (read_more (room i) r k b r1 k1 Hv (Hroom i) E) as (Hb & _ & Hp & Hfin & Hv1 & Hc).
    rewrite Hp, length_app in Hf. assert (0 < length b)%nat by (destruct b; [done | simpl; lia]).
    destruct (IH (S i) (buf ++ b) r1 k1 Hroom Hv1 ltac:(lia)) as (data & err & k2 & HR & Hcase).
    exists data, err, k2. split; [done|]. rewrite Hp, app_assoc, <- Hfin. naive_solver.
Qed.

(** A declared size is enforced exactly: reading ExpectSize of any well-behaved source to
    its end gives the source's bytes when there are exactly that many, and fails with
    ErrSizeMismatch when there are fewer or more, for every split of the reads. *)
Theorem ExpectSize_exact {R} `{ReaderLaws R} (r : R) (sz : Z) room fuel k :
  rvalid r -> final r = Sentinel EOF -> (forall e, ~ cut r e) -> 0 <= sz ->
  (forall j, (0 < room j)%nat) -> (length (pending r) < fuel)%nat ->
  exists data err k', ReadFrom fuel room 0 [] (ExpectSize r sz) k = Some (data, err, k') /\
    if Z.of_nat (length (pending r)) =? sz then err = None /\ data = pending r
    else exists e, err = Some e /\ Is e ErrSizeMismatch = true.
Proof.
  intros Hv Hfin Hcut Hsz Hroom Hf.
  assert (e_pending (ExpectSize r sz) = take (Z.to_nat sz) (pending r)) as Hp.
  { unfold e_pending. simpl. by rewrite (proj2 (Z.ltb_ge sz 0)). }
  destruct (ReadFrom_spec room fuel 0 [] (ExpectSize r sz) k Hroom) as (data & err & k' & HR & Hcase).
  { split; [done|]. simpl. lia. }
  { change (pending (ExpectSize r sz)) with (e_pending (ExpectSize r sz)). rewrite Hp, length_take. lia. }
  exists data, err, k'. split; [done|].
  change (pending (ExpectSize r sz)) with (e_pending (ExpectSize r sz)) in Hcase.
  change (final (ExpectSize r sz)) with (e_final (ExpectSize r sz)) in Hcase.
  assert (e_final (ExpectSize r sz) = if Z.of_nat (length (pending r)) =? sz then Sentinel EOF
    else if sz <? Z.of_nat (length (pending r)) then Because ErrSizeMismatch (LongBody sz)
    else Because ErrSizeMismatch (ShortBody (sz - (sz - Z.of_nat (length (pending r)))) sz)) as He.
  { unfold e_final, ExpectSize, stop. cbn [e_r e_left e_size e_done]. rewrite (proj2 (Z.ltb_ge sz 0)), Hfin by lia.
    rewrite (Z.eqb_sym sz). simpl. destruct (_ =? sz) eqn:E1; breflect; [|done].
    rewrite (proj2 (Z.ltb_ge sz _)); [done | lia]. }
  rewrite Hp, He in Hcase. destruct (_ =? sz) eqn:E1; breflect.
  - destruct Hcase as [(-> & -> & _)|(e & -> & Hne & [?|[_ ?%Hcut]])]; [|done|done].
    split; [done|]. simpl. apply take_ge. lia.
  - destruct Hcase as [(_ & _ & Hx)|(e & -> & _ & [->|[_ ?%Hcut]])]; [by destruct (sz <? _)| |done].
    eexists. split; [done|]. by destruct (sz <? _).
Qed.

Lemma ExpectSize_exact_witness :
  exists data err k',
    ReadFrom 10 (fun _ => MinRead) 0 [] (ExpectSize (NewReader (of_string "invoice")) 5) 0 =
      Some (data, err, k') /\ exists e, err = Some e /\ Is e ErrSizeMismatch = true.
Proof.
  exact (ExpectSize_exact (NewReader (of_string "invoice")) 5 (fun _ => MinRead) 10 0
    I eq_refl (fun _ H => H) ltac:(lia) ltac:(unfold MinRead; intros; lia)
    ltac:(change (length (of_string "invoice") < 10)%nat; simpl; lia)).
Defined.
