(* ===== verification/StorageMemory.v ===== *)
(** * storage/memory: the in-process store, and storage/lifecycle.go's publication over it

    The objects are a map.  A [Put] reads its source and validates before it takes the
    lock, and looks at the map only under it ([commit]), so the store argument is the map
    when the lock is taken.  The digest of the bytes (crypto/sha256), the media type parser
    and the length of an encoded word are arguments; the URLs of presign are not modelled.
    [None] of a [Put] is a source that gave no end within the fuel. *)

From stdpp Require Import base tactics numbers list strings gmap sets sorting.
From Stdlib Require Import ZArith Lia Ascii.
From S2P Require Import Prelude GoBytes StorageKey StorageOptions StorageStream.

Local Open Scope string_scope.
Local Open Scope list_scope.
Local Open Scope Z_scope.

Record ObjectInfo : Type := mkObjectInfo {
  oKey : bytes;
  oSize : Z;
  oContentType : bytes;
  oETag : bytes;
  oModTime : time;
  oMetadata : gmap bytes bytes }.

Record object : Type := mkObject { odata : bytes; oinfo : ObjectInfo }.

(** The map [objects] of [Store]. *)
Abbreviation Store := (gmap bytes object) (only parsing).

(** [strings.Compare], as the order it sorts by. *)
Fixpoint bytes_le (a b : bytes) : bool :=
  match a, b with
  | [], _ => true
  | _ :: _, [] => false
  | x :: a, y :: b => (code x <? code y) || ((code x =? code y) && bytes_le a b)
  end.

Definition info_le (a b : ObjectInfo) : Prop := bytes_le (oKey a) (oKey b) = true.
#[export] Instance info_le_dec : RelDecision info_le.
Proof. intros a b. unfold info_le. apply _. Defined.

Section Driver.
Variable parseMediaType : bytes -> option bytes.
Variable encodedLen : bytes -> Z.
Variable sum256hex : bytes -> bytes.
Variable c : context.

(** [Store.Put] up to the lock: the object to store. *)
Definition prepare {R} `{Reader R} (fuel : nat) (room : nat -> nat) (key : bytes) (r : R)
    (opts : PutOptions) (now : time) (k : nat) : option (result serror object * nat) :=
  match ValidateKey key with
  | Some e => Some (Err (Wrap op_put key e), k)
  | None =>
      match ValidatePutOptions parseMediaType encodedLen opts with
      | Some e => Some (Err (Wrap op_put key e), k)
      | None =>
          match c k with
          | Some e => Some (Err (Wrap op_put key (ctx_error e)), S k)
          | None =>
              match ReadFrom fuel room 0 [] (PutReader c r (Size opts)) (S k) with
              | None => None
              | Some (_, Some e, k) => Some (Err (Wrap op_put key e), k)
              | Some (data, None, k) =>
                  match c k with
                  | Some e => Some (Err (Wrap op_put key (ctx_error e)), S k)
                  | None =>
                      Some (Ok (mkObject data (mkObjectInfo key (Z.of_nat (length data))
                              (if bool_decide (ContentType opts = []) then DefaultContentType
                               else ContentType opts)
                              (sum256hex data) now (Metadata opts))), S k)
                  end
              end
          end
      end
  end.

(** [Store.Put] under the lock. *)
Definition commit (key : bytes) (ifAbsent : bool) (o : object) (s : Store) :
    result serror ObjectInfo * Store :=
  if bool_decide (is_Some (s !! key)) && ifAbsent
  then (Err (Wrap op_put key (Sentinel ErrExists)), s)
  else (Ok (oinfo o), <[key := o]> s).

(** [Store.Put] *)
Definition Put {R} `{Reader R} (fuel : nat) (room : nat -> nat) (key : bytes) (r : R)
    (opts : PutOptions) (now : time) (s : Store) (k : nat) :
    option (result serror ObjectInfo * Store * nat) :=
  match prepare fuel room key r opts now k with
  | None => None
  | Some (Err e, k) => Some (Err e, s, k)
  | Some (Ok o, k) => Some (commit key (IfAbsent opts) o s, k)
  end.

(** [Store.get] *)
Definition get (o : op) (key : bytes) (s : Store) (k : nat) : result serror object * nat :=
  match ValidateKey key with
  | Some e => (Err (Wrap o key e), k)
  | None =>
      match c k with
      | Some e => (Err (Wrap o key (ctx_error e)), S k)
      | None =>
          match s !! key with
          | Some ob => (Ok ob, S k)
          | None => (Err (Wrap o key (Sentinel ErrNotFound)), S k)
          end
      end
  end.

(** [Store.Open]: a reader of the bytes, bound to the context. *)
Definition Open (key : bytes) (s : Store) (k : nat) :
    result serror (ctxReader bytesReader * ObjectInfo) * nat :=
  match get op_open key s k with
  | (Ok ob, k) => (Ok (ContextReader c (NewReader (odata ob)), oinfo ob), k)
  | (Err e, k) => (Err e, k)
  end.

(** [Store.Stat] *)
Definition Stat (key : bytes) (s : Store) (k : nat) : result serror ObjectInfo * nat :=
  match get op_stat key s k with
  | (Ok ob, k) => (Ok (oinfo ob), k)
  | (Err e, k) => (Err e, k)
  end.

(** [Store.Delete] *)
Definition Delete (key : bytes) (s : Store) (k : nat) : option serror * Store * nat :=
  match ValidateKey key with
  | Some e => (Some (Wrap op_delete key e), s, k)
  | None =>
      match c k with
      | Some e => (Some (Wrap op_delete key (ctx_error e)), s, S k)
      | None => (None, delete key s, S k)
      end
  end.

(** [Exists] *)
Definition Exists (key : bytes) (s : Store) (k : nat) : result serror bool * nat :=
  match Stat key s k with
  | (Ok _, k) => (Ok true, k)
  | (Err e, k) => (if Is e ErrNotFound then Ok false else Err e, k)
  end.

(** The snapshot [Store.List] takes, sorted. *)
Definition snapshot (prefix : bytes) (s : Store) : list ObjectInfo :=
  merge_sort info_le
    (oinfo ∘ snd <$> filter (fun ko => HasPrefix ko.1 prefix = true) (map_to_list s)).

(** The loop of [Store.List]: [fn] may use the store, which is part of the world [W]. *)
Fixpoint visit {W} (prefix : bytes) (fn : ObjectInfo -> W -> option serror * W)
    (infos : list ObjectInfo) (w : W) (k : nat) : option serror * W * nat :=
  match infos with
  | [] => (None, w, k)
  | info :: infos =>
      match c k with
      | Some e => (Some (Wrap op_list prefix (ctx_error e)), w, S k)
      | None =>
          match fn info w with
          | (Some e, w) => (Some e, w, S k)
          | (None, w) => visit prefix fn infos w (S k)
          end
      end
  end.

(** [Store.List] *)
Definition ListObjects {W} (prefix : bytes) (fn : ObjectInfo -> W -> option serror * W)
    (s : Store) (w : W) (k : nat) : option serror * W * nat :=
  match c k with
  | Some e => (Some (Wrap op_list prefix (ctx_error e)), w, S k)
  | None => visit prefix fn (snapshot prefix s) w (S k)
  end.

(** ** Publication *)

(** What a store's type declares. *)
Inductive kind : Type := KPublisher | KBoundedWriter | KOther.

(** [CheckOwnable] *)
Definition CheckOwnable (kd : kind) : option serror :=
  match kd with
  | KPublisher | KBoundedWriter => None
  | KOther => Some (Because ErrUnsupported CannotOwn)
  end.

Definition newline : ascii := byte_of 10.
Definition fallbackToken : bytes := of_string "copy" ++ [newline].

(** [PreparePublish]; [p] is the store's own method when it is a Publisher. *)
Definition PreparePublish (kd : kind) (p : bytes -> bytes -> result serror bytes) (src dst : bytes) :
    result serror bytes :=
  match kd with
  | KPublisher => p src dst
  | _ =>
      match CheckOwnable kd with
      | Some e => Err (Wrap op_publish dst e)
      | None =>
          match ValidateKey src with
          | Some e => Err (Wrap op_publish src e)
          | None =>
              match ValidateKey dst with
              | Some e => Err (Wrap op_publish dst e)
              | None => Ok (fallbackToken ++ src ++ newline :: dst)
              end
          end
      end
  end.

(** [Publish] of the memory store, which is a BoundedWriter and no Publisher. *)
Definition Publish (fuel : nat) (room : nat -> nat) (token : bytes) (now : time) (s : Store)
    (k : nat) : option (result serror ObjectInfo * Store * nat) :=
  match CutByte (TrimPrefix token fallbackToken) newline with
  | Some (src, dst) =>
      if negb (HasPrefix token fallbackToken)
      then Some (Err (Wrap op_publish [] (Because ErrInvalidOptions MalformedToken)), s, k)
      else match Open src s k with
      | (Err e, k) => Some (Err e, s, k)
      | (Ok (body, info), k) =>
          Put fuel room dst body
            (mkPutOptions (oContentType info) (Some (oSize info)) (oMetadata info) true) now s k
      end
  | None => Some (Err (Wrap op_publish [] (Because ErrInvalidOptions MalformedToken)), s, k)
  end.

(** [Fence]; [p] is the store's own method when it is a Publisher. *)
Definition Fence (kd : kind) (p : bytes -> option serror) (token : bytes) : option serror :=
  match kd with
  | KPublisher => p token
  | _ =>
      match CheckOwnable kd with
      | Some e => Some (Wrap op_fence [] e)
      | None => None
      end
  end.
End Driver.
