(* ===== verification/StorageMemoryFacts.v ===== *)
(** * storage/memory: what the store promises

    A Put is all or nothing, what was put is read back, every stored object can be
    published again, and a listing is complete and ordered. *)

From stdpp Require Import base tactics numbers list strings gmap sets sorting relations.
From Stdlib Require Import ZArith Lia Ascii.
From S2P Require Import Prelude GoBytes StorageKey StorageOptions StorageStream StorageMemory.

Local Open Scope string_scope.
Local Open Scope list_scope.
Local Open Scope Z_scope.

(** ** What reading the source of a Put gives *)

(** Why a copy fails: the context ended, the source failed, or its length is not the
    declared one. *)
Definition copy_failure {R} `{ReaderLaws R} (c : context) (r : R) (declared : option Z) (e : serror) : Prop :=
  (exists i d, c i = Some d /\ e = ctx_error d) \/ cut r e \/
  (e = final r /\ e <> Sentinel EOF) \/
  (exists n, declared = Some n /\ n <> Z.of_nat (length (pending r)) /\ Is e ErrSizeMismatch = true).

Lemma exact_success {R} `{ReaderLaws R} (r : R) n :
  0 <= n -> e_final (ExpectSize r n) = Sentinel EOF ->
  Z.of_nat (length (pending r)) = n /\ Is (final r) EOF = true.
Proof.
  intros Hn. unfold e_final, ExpectSize, stop. cbn [e_done e_size e_left e_r].
  rewrite (proj2 (Z.ltb_ge n 0)) by done. destruct (n <? _) eqn:E1; [done|].
  destruct (n =? _) eqn:E2; breflect.
  - destruct (Is (final r) EOF) eqn:E; [done|]. intros Hf. rewrite Hf in E. done.
  - destruct (Is (final r) EOF) eqn:E; [done|]. intros Hf. rewrite Hf in E. done.
Qed.

Lemma exact_failure {R} `{ReaderLaws R} (r : R) n :
  0 <= n -> e_final (ExpectSize r n) <> Sentinel EOF ->
  e_final (ExpectSize r n) = final r /\ final r <> Sentinel EOF \/
  n <> Z.of_nat (length (pending r)) /\ Is (e_final (ExpectSize r n)) ErrSizeMismatch = true.
Proof.
  intros Hn. unfold e_final, ExpectSize, stop. cbn [e_done e_size e_left e_r].
  rewrite (proj2 (Z.ltb_ge n 0)) by done. destruct (n <? _) eqn:E1; breflect.
  { intros _. right. split; [lia | done]. }
  destruct (n =? _) eqn:E2; breflect; destruct (Is (final r) EOF) eqn:E; try (intros; by left); try done.
  intros _. right. done.
Qed.

Lemma PutReader_copy {R} `{ReaderLaws R} c (r : R) declared room fuel k :
  rvalid r -> (forall j, (0 < room j)%nat) -> (length (pending r) < fuel)%nat ->
  (forall n, declared = Some n -> 0 <= n) ->
  exists data err k', ReadFrom fuel room 0 [] (PutReader c r declared) k = Some (data, err, k') /\
    (err = None /\ data = pending r /\ Is (final r) EOF = true /\
     (forall n, declared = Some n -> Z.of_nat (length (pending r)) = n) \/
     exists e, err = Some e /\ copy_failure c r declared e).
Proof.
  intros Hv Hroom Hf Hsz.
  destruct (ReadFrom_spec room fuel 0 [] (PutReader c r declared) k Hroom) as (data & err & k' & HR & Hcase).
  { destruct declared as [n|]; simpl; [|done]. split; [done|]. simpl. auto. }
  { destruct declared as [n|]; simpl; [|lia]. unfold e_pending. simpl.
    rewrite (proj2 (Z.ltb_ge n 0)) by auto. rewrite length_take. lia. }
  exists data, err, k'. split; [done|]. unfold copy_failure. destruct declared as [n|]; simpl in Hcase.
  - specialize (Hsz n eq_refl). destruct Hcase as [(-> & -> & Hfin)|(e & -> & Hne & [->|[[_ Hc]|Hc]])].
    + left. destruct (exact_success r n Hsz Hfin) as [Hlen Hi]. split; [done|]. split; [|naive_solver].
      unfold e_pending. simpl. rewrite (proj2 (Z.ltb_ge n 0)) by done. apply take_ge. lia.
    + right. eexists. split; [done|]. destruct (exact_failure r n Hsz Hne) as [[He Hx]|[Hl Hi]].
      * right; right; left. by rewrite He.
      * right; right; right. eauto.
    + right. eauto.
    + right. eauto.
  - destruct Hcase as [(-> & -> & Hfin)|(e & -> & Hne & [->|[Hc|Hc]])].
    + left. rewrite Hfin. done.
    + right. eexists. split; [done|]. by right; right; left.
    + right. eauto.
    + right. eauto.
Qed.

Section Facts.
Variable parseMediaType : bytes -> option bytes.
Variable encodedLen : bytes -> Z.
Variable sum256hex : bytes -> bytes.
Variable c : context.

Abbreviation Put := (Put parseMediaType encodedLen sum256hex c).
Abbreviation Publish := (Publish parseMediaType encodedLen sum256hex c).

(** ** Put *)

(** The information stored with the bytes. *)
Definition stored_info (key data : bytes) (opts : PutOptions) (now : time) : ObjectInfo :=
  mkObjectInfo key (Z.of_nat (length data))
    (if bool_decide (ContentType opts = []) then DefaultContentType else ContentType opts)
    (sum256hex data) now (Metadata opts).

(** What a successful Put requires. *)
Definition put_allowed {R} `{ReaderLaws R} (key : bytes) (r : R) (opts : PutOptions) (s : Store) : Prop :=
  Problem key = None /\ ValidatePutOptions parseMediaType encodedLen opts = None /\
  Is (final r) EOF = true /\ (forall n, Size opts = Some n -> Z.of_nat (length (pending r)) = n) /\
  (IfAbsent opts = true -> s !! key = None).

Lemma ValidateKey_None key : ValidateKey key = None <-> Problem key = None.
Proof. unfold ValidateKey. by destruct (Problem key). Qed.

Lemma declared_nonneg opts n :
  ValidatePutOptions parseMediaType encodedLen opts = None -> Size opts = Some n -> 0 <= n.
Proof. rewrite ValidatePutOptions_None. intros (_ & H & _). apply H. Qed.

(** [prepare] gives the whole source or an error. *)
Lemma prepare_spec {R} `{ReaderLaws R} fuel room key (r : R) opts now k :
  rvalid r -> (forall j, (0 < room j)%nat) -> (length (pending r) < fuel)%nat ->
  exists res k', prepare parseMediaType encodedLen sum256hex c fuel room key r opts now k = Some (res, k') /\
    match res with
    | Err e => ValidateKey key <> None \/ ValidatePutOptions parseMediaType encodedLen opts <> None \/
        exists e', e = Wrap op_put key e' /\ copy_failure c r (Size opts) e'
    | Ok o => Problem key = None /\ ValidatePutOptions parseMediaType encodedLen opts = None /\
        Is (final r) EOF = true /\ (forall n, Size opts = Some n -> Z.of_nat (length (pending r)) = n) /\
        o = mkObject (pending r) (stored_info key (pending r) opts now)
    end.
Proof.
  intros Hv Hroom Hf. unfold prepare.
  destruct (ValidateKey key) eqn:Ek; [do 2 eexists; split; [done|]; by left|].
  destruct (ValidatePutOptions _ _ opts) eqn:Eo; [do 2 eexists; split; [done|]; right; by left|].
  destruct (c k) as [d|] eqn:Ec.
  { do 2 eexists; split; [done|]. right; right. eexists. split; [done|]. left. eauto. }
  destruct (PutReader_copy c r (Size opts) room fuel (S k) Hv Hroom Hf) as (data & err & k' & -> & Hcase).
  { intros n. by apply declared_nonneg. }
  destruct Hcase as [(-> & -> & Hi & Hl)|(e & -> & He)]; cycle 1.
  { do 2 eexists; split; [done|]. right; right. eauto. }
  destruct (c k') as [d|] eqn:Ec'.
  { do 2 eexists; split; [done|]. right; right. eexists. split; [done|]. left. eauto. }
  do 2 eexists; split; [done|]. apply ValidateKey_None in Ek. done.
Qed.

(** Every Put: what happens on success and on failure. *)
Lemma Put_spec {R} `{ReaderLaws R} fuel room key (r : R) opts now s k :
  rvalid r -> (forall j, (0 < room j)%nat) -> (length (pending r) < fuel)%nat ->
  exists res s' k', Put fuel room key r opts now s k = Some (res, s', k') /\
    match res with
    | Err e => s' = s /\
        (put_allowed key r opts s -> exists e', e = Wrap op_put key e' /\ copy_failure c r (Size opts) e')
    | Ok info => put_allowed key r opts s /\ info = stored_info key (pending r) opts now /\
        s' = <[key := mkObject (pending r) info]> s
    end.
Proof.
  intros Hv Hroom Hf. unfold StorageMemory.Put, put_allowed.
  destruct (prepare_spec fuel room key r opts now k Hv Hroom Hf) as (res & k' & -> & Hres).
  destruct res as [o|e]; cycle 1.
  { exists (Err e), s, k'. split; [done|]. split; [done|]. intros (Hk & Ho & _).
    rewrite ValidateKey_None in Hres. naive_solver. }
  destruct Hres as (Hk & Ho & Hi & Hl & ->). unfold commit.
  case_bool_decide as Ht; [destruct (IfAbsent opts) eqn:Ei|]; simpl.
  - do 3 eexists. split; [done|]. split; [done|]. intros (_ & _ & _ & _ & Habs).
    destruct Ht as [? Ht]. rewrite (Habs eq_refl) in Ht. done.
  - do 3 eexists. split; [done|]. done.
  - do 3 eexists. split; [done|]. split; [|done]. repeat split; try done.
    intros _. by apply eq_None_not_Some.
Qed.

(** C34. A Put is all or nothing: for every well-behaved source, however its reads are cut,
    whenever the context ends and whatever the options, Put returns; on an error the store
    is unchanged, and on success the key and options are valid, the source ended cleanly,
    its length is the declared one, IfAbsent found nothing, and the key holds exactly the
    source's bytes with their information. *)
Theorem Put_all_or_nothing {R} `{ReaderLaws R} fuel room key (r : R) opts now s k :
  rvalid r -> (forall j, (MinRead <= room j)%nat) -> (length (pending r) < fuel)%nat ->
  exists res s' k', Put fuel room key r opts now s k = Some (res, s', k') /\
    match res with
    | Err _ => s' = s
    | Ok info => put_allowed key r opts s /\ info = stored_info key (pending r) opts now /\
        s' = <[key := mkObject (pending r) info]> s
    end.
Proof.
  intros Hv Hroom Hf. destruct (Put_spec fuel room key r opts now s k Hv) as (res & s' & k' & HP & Hres).
  - intros j. pose proof (Hroom j). unfold MinRead in *. lia.
  - done.
  - exists res, s', k'. split; [done|]. destruct res; [done|]. by destruct Hres.
Qed.

(** ** Invariant of the stored objects *)

(** The options a copy of the object is stored with. *)
Definition copy_options (o : object) : PutOptions :=
  mkPutOptions (oContentType (oinfo o)) (Some (oSize (oinfo o))) (oMetadata (oinfo o)) true.

Definition object_wf (key : bytes) (o : object) : Prop :=
  Problem key = None /\ oKey (oinfo o) = key /\ oSize (oinfo o) = Z.of_nat (length (odata o)) /\
  oETag (oinfo o) = sum256hex (odata o) /\ oContentType (oinfo o) <> [] /\
  ValidatePutOptions parseMediaType encodedLen (copy_options o) = None.

Definition store_wf (s : Store) : Prop := map_Forall object_wf s.

(** What other operations do to the store. *)
Inductive store_step : Store -> Store -> Prop :=
| step_put R `(RL : ReaderLaws R) fuel room key (r : R) opts now s k res s' k' :
    rvalid r -> (forall j, (0 < room j)%nat) -> (length (pending r) < fuel)%nat ->
    Put fuel room key r opts now s k = Some (res, s', k') -> store_step s s'
| step_delete key s k e s' k' : Delete c key s k = (e, s', k') -> store_step s s'
| step_publish fuel room token now s k res s' k' :
    (forall j, (0 < room j)%nat) ->
    (forall key o, s !! key = Some o -> (length (odata o) < fuel)%nat) ->
    Publish fuel room token now s k = Some (res, s', k') -> store_step s s'.

(** mime.ParseMediaType reads the default type as it is. *)
Hypothesis default_media_type : parseMediaType DefaultContentType = Some DefaultContentType.

Lemma default_content_type_ok : contentTypeProblem parseMediaType DefaultContentType = None.
Proof.
  unfold contentTypeProblem. rewrite default_media_type. vm_compute. reflexivity.
Qed.

Lemma stored_object_wf key data opts now :
  Problem key = None -> ValidatePutOptions parseMediaType encodedLen opts = None ->
  object_wf key (mkObject data (stored_info key data opts now)).
Proof.
  intros Hk. rewrite ValidatePutOptions_None. intros (Hc & _ & Hm). unfold object_wf. simpl.
  do 4 (split; [done|]). split; [by case_bool_decide|].
  apply ValidatePutOptions_None. simpl. split; [|split; [|done]].
  - case_bool_decide; [apply default_content_type_ok | done].
  - intros n [= <-]. lia.
Qed.

Lemma Put_wf {R} `{ReaderLaws R} fuel room key (r : R) opts now s k res s' k' :
  rvalid r -> (forall j, (0 < room j)%nat) -> (length (pending r) < fuel)%nat ->
  Put fuel room key r opts now s k = Some (res, s', k') -> store_wf s -> store_wf s'.
Proof.
  intros Hv Hroom Hf HP Hwf.
  destruct (Put_spec fuel room key r opts now s k Hv Hroom Hf) as (res' & s1 & k1 & HP' & Hres).
  rewrite HP in HP'. injection HP' as <- <- <-. destruct res as [info|e]; [|by destruct Hres as [-> _]].
  destruct Hres as ((Hk & Ho & _) & -> & ->). apply map_Forall_insert_2; [|done].
  by apply stored_object_wf.
Qed.

Lemma Publish_inv fuel room token now s k res s' k' :
  Publish fuel room token now s k = Some (res, s', k') ->
  s' = s \/ exists src dst o k1, s !! src = Some o /\
    Put fuel room dst (ContextReader c (NewReader (odata o))) (copy_options o) now s k1 = Some (res, s', k').
Proof.
  unfold StorageMemory.Publish. destruct (CutByte _ _) as [[src dst]|]; [|intros [= <- <- <-]; by left].
  destruct (negb _); [intros [= <- <- <-]; by left|]. unfold Open, get.
  destruct (ValidateKey src); [intros [= <- <- <-]; by left|].
  destruct (c k); [intros [= <- <- <-]; by left|].
  destruct (s !! src) as [o|] eqn:E; [|intros [= <- <- <-]; by left].
  intros HP. right. eauto 6.
Qed.

Lemma store_step_wf s s' : store_step s s' -> store_wf s -> store_wf s'.
Proof.
  intros Hs Hwf. destruct Hs as [R H RL fuel room key r opts now s k res s' k' Hv Hr Hf HP
    | key s k e s' k' HD | fuel room token now s k res s' k' Hr Hf HP].
  - by eapply Put_wf.
  - unfold Delete in HD. destruct (ValidateKey key); [by injection HD as <- <- <-|].
    destruct (c k); injection HD as <- <- <-; [done|]. by apply map_Forall_delete.
  - apply Publish_inv in HP as [->|(src & dst & o & k1 & Ho & HP)]; [done|].
    eapply (Put_wf (R := ctxReader bytesReader)); [| | | exact HP | done]; [done | done | by eapply Hf].
Qed.

Lemma reachable_store_wf s : rtc store_step ∅ s -> store_wf s.
Proof.
  intros H. apply (rtc_ind_r store_wf ∅ (map_Forall_empty _)
    (fun y z _ Hs Hwf => store_step_wf y z Hs Hwf) s H).
Qed.

(** ** Reading back and publishing *)

Definition live : Prop := forall i, c i = None.

(** The reader of [Open]: nothing cuts it while the context lives. *)
Definition body_of (o : object) : ctxReader bytesReader := ContextReader c (NewReader (odata o)).

Lemma body_valid o : rvalid (body_of o).
Proof. exact I. Qed.

Lemma live_no_cut o e : live -> ~ cut (body_of o) e.
Proof. intros Hl [[]|(i & d & Hd & _)]. by rewrite Hl in Hd. Qed.

(** A copy of a sound source within a live context cannot fail. *)
Lemma no_failure {R} `{ReaderLaws R} (r : R) declared e :
  live -> (forall e, ~ cut r e) -> final r = Sentinel EOF ->
  (forall n, declared = Some n -> Z.of_nat (length (pending r)) = n) -> ~ copy_failure c r declared e.
Proof.
  intros Hl Hcut Hfin Hsz [Hx|[Hx|[Hx|Hx]]].
  - destruct Hx as (i & d & Hd & _). by rewrite Hl in Hd.
  - by eapply Hcut.
  - destruct Hx as [-> Hx]. done.
  - destruct Hx as (n & Hd & Hn & _). by rewrite (Hsz n Hd) in Hn.
Qed.

Lemma Put_succeeds {R} `{ReaderLaws R} fuel room key (r : R) opts now s k :
  live -> rvalid r -> (forall e, ~ cut r e) -> final r = Sentinel EOF ->
  (forall j, (0 < room j)%nat) -> (length (pending r) < fuel)%nat -> put_allowed key r opts s ->
  exists k', Put fuel room key r opts now s k =
    Some (Ok (stored_info key (pending r) opts now),
          <[key := mkObject (pending r) (stored_info key (pending r) opts now)]> s, k').
Proof.
  intros Hl Hv Hcut Hfin Hroom Hf Ha.
  destruct (Put_spec fuel room key r opts now s k Hv Hroom Hf) as (res & s' & k' & -> & Hres).
  destruct res as [info|e]; [destruct Hres as (_ & -> & ->); by eexists|].
  destruct Hres as [_ Hres]. destruct (Hres Ha) as (e' & _ & He'). exfalso.
  revert He'. apply no_failure; try done. apply Ha.
Qed.

(** Reading an opened object to its end. *)
Lemma Open_reads key s o k fuel room :
  live -> Problem key = None -> s !! key = Some o ->
  (forall j, (0 < room j)%nat) -> (length (odata o) < fuel)%nat ->
  exists body k1 k2, Open c key s k = (Ok (body, oinfo o), k1) /\
    ReadFrom fuel room 0 [] body k1 = Some (odata o, None, k2).
Proof.
  intros Hl Hk Ho Hroom Hf. unfold Open, get. rewrite (proj2 (ValidateKey_None key) Hk), Hl, Ho.
  destruct (ReadFrom_spec room fuel 0 [] (body_of o) (S k) Hroom (body_valid o) Hf)
    as (data & err & k' & HR & [(-> & -> & _)|(e & _ & Hne & [->|Hc])]); [|done|].
  - do 3 eexists. split; [done|]. exact HR.
  - exfalso. by eapply live_no_cut.
Qed.

(** What is put is read back: after an allowed Put of some bytes within a live context, Open
    of the key gives a stream of exactly those bytes with the metadata, size and content
    type given, and every other key is as it was. *)
Theorem Put_Open_roundtrip fuel room key data opts now s k :
  live -> (forall j, (MinRead <= room j)%nat) -> (length data < fuel)%nat ->
  put_allowed key (NewReader data) opts s ->
  exists info s' k1, Put fuel room key (NewReader data) opts now s k = Some (Ok info, s', k1) /\
    oMetadata info = Metadata opts /\ oSize info = Z.of_nat (length data) /\
    (ContentType opts <> [] -> oContentType info = ContentType opts) /\
    (exists body k2 k3, Open c key s' k1 = (Ok (body, info), k2) /\
       ReadFrom fuel room 0 [] body k2 = Some (data, None, k3)) /\
    forall key', key' <> key -> s' !! key' = s !! key'.
Proof.
  intros Hl Hroom Hf Ha.
  assert (forall j, (0 < room j)%nat) as Hroom' by (intros j; pose proof (Hroom j); unfold MinRead in *; lia).
  destruct (Put_succeeds fuel room key (NewReader data) opts now s k) as [k1 HP]; try done.
  { intros e []. }
  do 3 eexists. split; [exact HP|]. simpl. split; [done|]. split; [done|]. split.
  { intros Hne. by rewrite bool_decide_eq_false_2. }
  split.
  - apply (Open_reads key _ (mkObject data (stored_info key data opts now)) k1 fuel room Hl);
      [apply Ha | exact (lookup_insert_eq s key _) | done | done].
  - intros key' Hne. by apply (lookup_insert_ne s).
Qed.

(** The token of an in-process copy names its keys. *)
Lemma token_keys src dst :
  Problem src = None -> CutByte (TrimPrefix (fallbackToken ++ src ++ newline :: dst) fallbackToken) newline =
    Some (src, dst) /\ HasPrefix (fallbackToken ++ src ++ newline :: dst) fallbackToken = true.
Proof.
  intros Hs. split; [|apply HasPrefix_true; by eexists]. unfold TrimPrefix.
  rewrite (proj2 (strip_prefix_Some fallbackToken _ (src ++ newline :: dst)) eq_refl).
  apply CutByte_app. apply key_no_control; [done|]. by vm_compute.
Qed.

(** Publishing a prepared copy: the token made from two valid keys, whatever they contain,
    is read back as those keys, and Publish stores at a free destination the same bytes with
    the content type, metadata and ETag of the source, while for a destination already taken
    it changes nothing and fails with ErrExists. *)
Theorem publish_copies_once p src dst token fuel room now s k o :
  rtc store_step ∅ s -> live ->
  PreparePublish KBoundedWriter p src dst = Ok token -> s !! src = Some o ->
  (forall j, (MinRead <= room j)%nat) -> (length (odata o) < fuel)%nat ->
  exists res s' k', Publish fuel room token now s k = Some (res, s', k') /\
    match s !! dst with
    | Some _ => s' = s /\ exists e, res = Err e /\ Is e ErrExists = true
    | None => exists info, res = Ok info /\ s' = <[dst := mkObject (odata o) info]> s /\
        oContentType info = oContentType (oinfo o) /\ oMetadata info = oMetadata (oinfo o) /\
        oETag info = oETag (oinfo o)
    end.
Proof.
  intros Hs%reachable_store_wf Hl Htok Ho Hroom Hf.
  assert (forall j, (0 < room j)%nat) as Hroom' by (intros j; pose proof (Hroom j); unfold MinRead in *; lia).
  unfold PreparePublish, CheckOwnable in Htok.
  destruct (ValidateKey src) eqn:Es; [done|]. destruct (ValidateKey dst) eqn:Ed; [done|].
  assert (token = fallbackToken ++ src ++ newline :: dst) as -> by congruence. pose proof Es as Hsrc. apply ValidateKey_None in Es. apply ValidateKey_None in Ed.
  destruct (token_keys src dst Es) as [Hcut Hpre].
  destruct (Hs src o Ho) as (_ & _ & Hsz & Htag & Hct & Hopt).
  set (body := body_of o).
  assert (Publish fuel room (fallbackToken ++ src ++ newline :: dst) now s k =
          Put fuel room dst body (copy_options o) now s (S k)) as ->.
  { unfold StorageMemory.Publish. rewrite Hcut, Hpre. cbn [negb]. unfold Open, get. by rewrite Hsrc, Hl, Ho. }
  destruct (Put_spec fuel room dst body (copy_options o) now s (S k) (body_valid o) Hroom' Hf) as (res & s' & k' & HP & Hres).
  destruct (s !! dst) as [o'|] eqn:Edst.
  - exists res, s', k'. split; [done|]. unfold StorageMemory.Put in HP.
    destruct (prepare_spec fuel room dst body (copy_options o) now (S k) (body_valid o) Hroom' Hf) as (r1 & k1 & Hprep & Hr1).
    rewrite Hprep in HP. destruct r1 as [o1|e].
    + unfold commit in HP. rewrite Edst in HP. injection HP as <- <- <-. split; [done|].
      eexists. split; [done|]. apply Is_Wrap.
    + exfalso. rewrite ValidateKey_None in Hr1. destruct Hr1 as [?|[?|(e' & _ & He')]]; [done|done|].
      revert He'. apply no_failure; [done | intros; by apply live_no_cut | done|].
      simpl. intros n [= <-]. done.
  - destruct (Put_succeeds fuel room dst body (copy_options o) now s (S k)) as [k1 HP1]; try done.
    { intros e. by apply live_no_cut. }
    { repeat split; try done. simpl. intros n [= <-]. done. }
    do 3 eexists. split; [exact HP1|]. eexists. split; [done|]. split; [done|]. simpl. rewrite Htag.
    split; [|done]. by rewrite bool_decide_eq_false_2.
Qed.

(** ** Listing *)

Definition bytes_lt (a b : bytes) : Prop := bytes_le a b = true /\ a <> b.

Definition key_lt (a b : ObjectInfo) : Prop := bytes_lt (oKey a) (oKey b).

Lemma bytes_le_total a : forall b, bytes_le a b = true \/ bytes_le b a = true.
Proof.
  induction a as [|x a IH]; intros [|y b]; simpl; [by left..|by right|].
  rewrite !orb_true_iff, !andb_true_iff, !Z.ltb_lt, !Z.eqb_eq.
  destruct (Z.lt_total (code x) (code y)) as [?|[?|?]], (IH b); auto.
Qed.

Lemma bytes_le_trans a : forall b d, bytes_le a b = true -> bytes_le b d = true -> bytes_le a d = true.
Proof.
  induction a as [|x a IH]; intros [|y b] [|z d]; simpl; try done.
  rewrite !orb_true_iff, !andb_true_iff, !Z.ltb_lt, !Z.eqb_eq.
  intros [?|[? ?]] [?|[? ?]]; [left; lia..|]. right. split; [lia|]. by eapply IH.
Qed.

#[local] Instance info_le_total : Total info_le.
Proof. intros a b. apply bytes_le_total. Qed.

#[local] Instance info_le_trans : Transitive info_le.
Proof. intros a b d. apply bytes_le_trans. Qed.

(** Visiting with a function that only records sees the whole snapshot. *)
Lemma visit_records prefix infos acc k :
  live -> exists k', visit c prefix (fun i l => (None, l ++ [i])) infos acc k = (None, acc ++ infos, k').
Proof.
  intros Hl. revert acc k. induction infos as [|i infos IH]; intros acc k; simpl.
  - rewrite app_nil_r. by eexists.
  - rewrite Hl. destruct (IH (acc ++ [i]) (S k)) as [k' ->]. rewrite <- app_assoc. by eexists.
Qed.

Lemma snapshot_elem prefix s info :
  store_wf s ->
  info ∈ snapshot prefix s <->
  exists o, s !! oKey info = Some o /\ oinfo o = info /\ HasPrefix (oKey info) prefix = true.
Proof.
  intros Hwf. unfold snapshot. rewrite merge_sort_Permutation, list_elem_of_fmap. split.
  - intros ([key o] & -> & Hin). apply list_elem_of_filter in Hin as [Hp Hin].
    apply elem_of_map_to_list in Hin. destruct (Hwf key o Hin) as (_ & Hkey & _). simpl in *.
    exists o. by rewrite Hkey.
  - intros (o & Ho & <- & Hp). exists (oKey (oinfo o), o). split; [done|].
    apply list_elem_of_filter. split; [done|]. by apply elem_of_map_to_list.
Qed.

Lemma snapshot_keys_NoDup prefix s : store_wf s -> NoDup (oKey <$> snapshot prefix s).
Proof.
  intros Hwf. unfold snapshot. rewrite merge_sort_Permutation, <- list_fmap_compose.
  rewrite (list_fmap_ext _ fst).
  - eapply sublist_NoDup; [apply (NoDup_fst_map_to_list s) | apply fmap_sublist, sublist_filter].
  - intros i [key o] Hi. apply list_elem_of_lookup_2 in Hi. apply list_elem_of_filter in Hi as [_ Hin].
    apply elem_of_map_to_list in Hin. by destruct (Hwf key o Hin) as (_ & Hkey & _).
Qed.

Lemma sorted_strict infos :
  StronglySorted info_le infos -> NoDup (oKey <$> infos) -> StronglySorted key_lt infos.
Proof.
  induction 1 as [|i infos Hs IH Hall]; intros Hnd; [constructor|].
  apply NoDup_cons in Hnd as [Hni Hnd]. constructor; [by apply IH|].
  rewrite Forall_forall in Hall |- *. intros j Hj. split; [by apply Hall|].
  intros Heq. apply Hni. rewrite Heq. by apply list_elem_of_fmap_2.
Qed.

(** A listing is complete and ordered: List visits exactly the stored objects whose key
    starts with the prefix, each once, in strictly increasing byte order of their keys,
    whatever the order of the map. *)
Theorem List_enumerates prefix s k :
  rtc store_step ∅ s -> live ->
  exists infos k',
    ListObjects c prefix (fun i seen => (None, seen ++ [i])) s [] k = (None, infos, k') /\
    StronglySorted key_lt infos /\
    forall info, info ∈ infos <->
      exists o, s !! oKey info = Some o /\ oinfo o = info /\ HasPrefix (oKey info) prefix = true.
Proof.
  intros Hs%reachable_store_wf Hl. unfold ListObjects. rewrite Hl.
  destruct (visit_records prefix (snapshot prefix s) [] (S k) Hl) as [k' ->].
  do 2 eexists. split; [done|]. split; [|intros info; by apply snapshot_elem].
  apply sorted_strict; [apply StronglySorted_merge_sort; apply _ | by apply snapshot_keys_NoDup].
Qed.
End Facts.

(** ** A concrete store *)

Definition mime0 : bytes -> option bytes := Some.
Definition wire0 : bytes -> Z := fun v => Z.of_nat (length v).
Definition digest0 : bytes -> bytes := fun d => of_string "sha256-" ++ d.
Definition alive : context := fun _ => None.
Definition room0 : nat -> nat := fun _ => MinRead.
Definition report_key : bytes := of_string "reports/a.pdf".
Definition report : bytes := of_string "%PDF-1.7".
Definition report_options : PutOptions :=
  mkPutOptions (of_string "application/pdf") (Some 8)
    {[ of_string "filename" := of_string "a.pdf" ]} true.
Definition report_object : object :=
  mkObject report (stored_info digest0 report_key report report_options 7).

Lemma room0_ok j : (MinRead <= room0 j)%nat.
Proof. apply Nat.le_refl. Qed.

Lemma report_allowed s :
  s !! report_key = None ->
  put_allowed mime0 wire0 report_key (NewReader report) report_options s.
Proof.
  intros Hs. split; [by vm_compute|]. split; [by vm_compute|]. split; [by vm_compute|].
  split; [|done]. by intros n [= <-].
Qed.

Lemma report_reachable :
  rtc (store_step mime0 wire0 digest0 alive) ∅ {[ report_key := report_object ]}.
Proof.
  apply rtc_once. eapply (step_put _ _ _ _ _ bytesReader_laws 20 room0 report_key (NewReader report)
    report_options 7 _ 0); [done | intros j; pose proof (room0_ok j); unfold MinRead in *; lia | by vm_compute; lia|].
  vm_compute. reflexivity.
Qed.

Lemma Put_all_or_nothing_witness :
  exists res s' k',
    StorageMemory.Put mime0 wire0 digest0 (fun k => if Nat.eqb k 2 then Some CtxCanceled else None)
      20 room0 report_key (NewReader report) report_options 7 ∅ 0 = Some (res, s', k') /\
    match res with
    | Err _ => s' = ∅
    | Ok info => put_allowed mime0 wire0 report_key (NewReader report) report_options ∅ /\
        info = stored_info digest0 report_key (pending (NewReader report)) report_options 7 /\
        s' = <[report_key := mkObject (pending (NewReader report)) info]> ∅
    end.
Proof.
  apply (Put_all_or_nothing mime0 wire0 digest0 _ 20 room0 report_key (NewReader report) report_options 7 ∅ 0);
    [exact I | exact room0_ok | apply Nat.ltb_lt; vm_compute; reflexivity].
Defined.

Lemma Put_Open_roundtrip_witness :
  exists info s' k1,
    StorageMemory.Put mime0 wire0 digest0 alive 20 room0 report_key (NewReader report) report_options 7 ∅ 0 =
      Some (Ok info, s', k1) /\ oMetadata info = Metadata report_options /\
    exists body k2 k3, Open alive report_key s' k1 = (Ok (body, info), k2) /\
      ReadFrom 20 room0 0 [] body k2 = Some (report, None, k3).
Proof.
  destruct (Put_Open_roundtrip mime0 wire0 digest0 alive 20 room0 report_key report report_options 7 ∅ 0
    (fun _ => eq_refl) room0_ok ltac:(apply Nat.ltb_lt; vm_compute; reflexivity) (report_allowed ∅ (lookup_empty report_key)))
    as (info & s' & k1 & HP & Hm & _ & _ & HO & _).
  exists info, s', k1. split; [exact HP|]. split; [exact Hm | exact HO].
Defined.

Lemma publish_copies_once_witness :
  exists res s' k',
    StorageMemory.Publish mime0 wire0 digest0 alive 20 room0
      (fallbackToken ++ report_key ++ newline :: of_string "public/a.pdf") 9 {[ report_key := report_object ]} 0 =
      Some (res, s', k') /\
    exists info, res = Ok info /\
      s' = <[of_string "public/a.pdf" := mkObject report info]> {[ report_key := report_object ]}.
Proof.
  destruct (publish_copies_once mime0 wire0 digest0 alive eq_refl (fun _ _ => Err (Sentinel ErrUnsupported))
    report_key (of_string "public/a.pdf") _ 20 room0 9 {[ report_key := report_object ]} 0 report_object
    report_reachable (fun _ => eq_refl) eq_refl ltac:(vm_compute; reflexivity) room0_ok
    ltac:(apply Nat.ltb_lt; vm_compute; reflexivity)) as (res & s' & k' & HP & Hres).
  exists res, s', k'. split; [exact HP|].
  replace ({[ report_key := report_object ]} !! of_string "public/a.pdf") with (@None object) in Hres
    by (vm_compute; reflexivity).
  destruct Hres as (info & Hi & Hs & _). exists info. split; [exact Hi | exact Hs].
Defined.

Lemma List_enumerates_witness :
  exists infos k',
    ListObjects alive (of_string "reports/") (fun i seen => (None, seen ++ [i])) {[ report_key := report_object ]} [] 0 =
      (None, infos, k') /\ oinfo report_object ∈ infos.
Proof.
  destruct (List_enumerates mime0 wire0 digest0 alive eq_refl (of_string "reports/") {[ report_key := report_object ]} 0
    report_reachable (fun _ => eq_refl)) as (infos & k' & HL & _ & Hin).
  exists infos, k'. split; [exact HL|]. apply Hin. exists report_object.
  split; [vm_compute; reflexivity|]. split; [reflexivity | vm_compute; reflexivity].
Defined.
