(* ===== verification/StorageClaims.v ===== *)
(** * storage/claims: which object a record owns

    The protocol runs in many processes at once, over one table of a database and one
    object store.  An operation is a program ([prog]): a sequence of calls, each one
    statement, one transaction or one request to the store, between which other programs
    run.  [perform] says what a call does to the [world] and answers; every call may also be
    refused, or do its work and lose its answer.  The column updated_at, which nothing
    reads, is left out, and the database compares keys by their bytes.

    The store is any ownable one: a BoundedWriter, whose writes end with their calls and
    their deadlines, or a Publisher, whose requests may take effect long after the call
    ([flight]).  The fields of [world] after the first five are bookkeeping that no call
    reads: the rows that were deleted, who generated a key, who promoted a claim, and for
    which key a token was recorded. *)

From stdpp Require Import base tactics numbers list strings gmap sets sorting.
From Stdlib Require Import ZArith Lia Ascii.
From S2P Require Import Prelude GoBytes StorageKey StorageOptions StorageStream StorageMemory.

Local Open Scope string_scope.
Local Open Scope list_scope.
Local Open Scope Z_scope.

(** ** The table *)

Inductive state : Type := Pending_ | Promoting | Held | Deleting.

#[export] Instance state_eq_dec : EqDecision state.
Proof. solve_decision. Defined.

Record Claim : Type := mkClaim {
  Key : bytes;
  State : state;
  CreatedAt : time;
  LeaseUntil : time;
  Staged : bool;
  Scope : bytes;
  Publication : bytes
}.

Definition setState (s : state) (c : Claim) : Claim :=
  mkClaim (Key c) s (CreatedAt c) (LeaseUntil c) (Staged c) (Scope c) (Publication c).

Definition setPublication (token : bytes) (c : Claim) : Claim :=
  mkClaim (Key c) (State c) (CreatedAt c) (LeaseUntil c) (Staged c) (Scope c) token.

Definition setLease (until : time) (c : Claim) : Claim :=
  mkClaim (Key c) (State c) (CreatedAt c) until (Staged c) (Scope c) (Publication c).

Abbreviation table := (gmap bytes Claim).

Definition LeaseMargin : duration := 5 * Minute.
Definition MaxKeyLen : Z := 512.
Definition MaxScopeLen : Z := 255.
Definition MaxPublicationToken : Z := 60000.

Definition len (b : bytes) : Z := Z.of_nat (length b).

(** The sentinels a [KeyError] wraps. *)
Inductive refusal : Type := ErrNotPending | ErrNotHeld | ErrNotPromoting.

#[export] Instance refusal_eq_dec : EqDecision refusal.
Proof. solve_decision. Defined.

(** The errors of storage/claims and storage/upload. *)
Inductive cerror : Type :=
| EDatabase
| EContext (c : ctxerr)
| ErrClaimed (key : bytes)
| KeyError (key : bytes) (err : refusal)
| ErrKeyTooLong
| EScopeTooLong
| ETokenTooLong
| EStore (e : serror)
| EApplication (e : string)
| EJoin (e1 e2 : cerror)                                    (* errors.Join *)
| EPolicy
| ERandom
| ErrTooLarge
| ErrType
| ErrNoFile
| ErrMalformed
| ErrExpired
| CleanupError (key : bytes) (err : cerror).

(** The keys under which direct uploads are staged (storage/upload). *)
Definition StagingPrefix : bytes := of_string "_staging/".
Definition StagingKey (key : bytes) : bytes := StagingPrefix ++ key.
Arguments StagingKey key : simpl never.

(** The order of the database and of listings. *)
Definition key_le (a b : bytes) : Prop := bytes_le a b = true.
#[export] Instance key_le_dec : RelDecision key_le.
Proof. intros a b. unfold key_le. apply _. Defined.

(** A request that a remote store may still carry out. *)
Inductive write : Type :=
| WPut (key : bytes) (o : object)
| WCopy (token : bytes)
| WDelete (key : bytes).

(** What becomes of a call. *)
Inductive fault : Type := Answered | Refused | Lost.

#[export] Instance fault_eq_dec : EqDecision fault.
Proof. solve_decision. Defined.

(** What the surroundings decide in a call: its fate, the clock of the process that makes
    it, the error reported, and what the store and the random source make up. *)
Record env : Type := mkEnv {
  fate : fault;
  reading : time;
  reported : serror;
  ctxDone : option ctxerr;
  readError : option serror;
  madeETag : bytes;
  madeToken : bytes;
  madeID : option bytes
}.

Section Records.
(** The application's records. *)
Variable R : Type.

Record world : Type := mkWorld {
  clock : time;
  rows : table;
  records : R;
  objects : gmap bytes object;
  flight : list write;
  copies : gmap bytes (bytes * object);
  fenced : gset bytes;
  buried : table;
  generated : gmap bytes nat;
  promoter : gmap bytes nat;
  recorded : gmap bytes bytes
}.

Definition setRows (t : table) (w : world) : world :=
  mkWorld (clock w) t (records w) (objects w) (flight w) (copies w) (fenced w) (buried w) (generated w) (promoter w) (recorded w).

Definition setObjects (o : gmap bytes object) (w : world) : world :=
  mkWorld (clock w) (rows w) (records w) o (flight w) (copies w) (fenced w) (buried w) (generated w) (promoter w) (recorded w).

Definition addFlight (x : write) (w : world) : world :=
  mkWorld (clock w) (rows w) (records w) (objects w) (x :: flight w) (copies w) (fenced w) (buried w) (generated w) (promoter w) (recorded w).

Definition addCopy (token dst : bytes) (o : object) (w : world) : world :=
  mkWorld (clock w) (rows w) (records w) (objects w) (flight w) (<[token := (dst, o)]> (copies w)) (fenced w) (buried w) (generated w) (promoter w) (recorded w).

Definition addFence (token : bytes) (w : world) : world :=
  mkWorld (clock w) (rows w) (records w) (objects w) (flight w) (copies w) ({[token]} ∪ fenced w) (buried w) (generated w) (promoter w) (recorded w).

Definition addGenerated (key : bytes) (pid : nat) (w : world) : world :=
  mkWorld (clock w) (rows w) (records w) (objects w) (flight w) (copies w) (fenced w) (buried w) (<[key := pid]> (generated w)) (promoter w) (recorded w).

Definition setTables (t : table) (r : R) (w : world) : world :=
  mkWorld (clock w) t r (objects w) (flight w) (copies w) (fenced w) (buried w) (generated w) (promoter w) (recorded w).

(** A transaction over the table and the records: what it leaves, or its error. *)
Definition tx (A : Type) : Type := table * R -> result cerror (table * R * A).

(** ** Calls *)

Inductive call : Type :=
| Now                                                       (* time.Now *)
| CtxErr                                                    (* ctx.Err *)
| LogWarn (e : cerror)
| Exec (key : bytes) (where_ : Claim -> bool) (set : Claim -> Claim)
| Create (c : Claim)                                        (* ON CONFLICT DO NOTHING *)
| Find (key : bytes) (where_ : Claim -> bool)
| DeleteRow (key : bytes) (where_ : Claim -> bool)
| Select (where_ : Claim -> bool) (after : bytes) (limit : nat)
| Transaction (body : tx (list bytes))
| SOpen (key : bytes)
| SVerify (key : bytes)
| SPut (key data contentType : bytes) (md : gmap bytes bytes) (deadline : option time)
| SDelete (key : bytes)
| SPrepare (src dst : bytes)
| SPublish (token : bytes) (deadline : time)
| SFence (token : bytes)
| SList (prefix : bytes)
| SUploadURL (key : bytes)
| RandomKey (prefix : bytes).                               (* newKey *)

(** The answer to a call; a database that fails answers [None]. *)
Definition ans (c : call) : Type :=
  match c with
  | Now => time
  | CtxErr => option ctxerr
  | LogWarn _ => unit
  | Exec _ _ _ | Create _ => option Z
  | Find _ _ => option (option Claim)
  | DeleteRow _ _ => option unit
  | Select _ _ _ => option (list bytes)
  | Transaction _ => result cerror (list bytes)
  | SOpen _ => result serror (object * option serror)
  | SVerify _ | SDelete _ | SFence _ | SUploadURL _ => option serror
  | SPut _ _ _ _ _ | SPublish _ _ => result serror ObjectInfo
  | SPrepare _ _ => result (serror * bytes) bytes
  | SList _ => list ObjectInfo * option serror
  | RandomKey _ => option bytes
  end.

Inductive prog (A : Type) : Type :=
| Ret (a : A)
| Vis (c : call) (k : ans c -> prog A).
Arguments Ret {A} a.
Arguments Vis {A} c k.

Fixpoint pbind {A B} (p : prog A) (f : A -> prog B) : prog B :=
  match p with
  | Ret a => f a
  | Vis c k => Vis c (fun r => pbind (k r) f)
  end.

Definition ask (c : call) : prog (ans c) := Vis c Ret.

End Records.
Arguments Ret {R A} a.
Arguments Vis {R A} c k.
Arguments pbind {R A B} p f.
Arguments ask {R} c.
Arguments Now {R}.
Arguments CtxErr {R}.
Arguments LogWarn {R} e.
Arguments Exec {R} key where_ set.
Arguments Create {R} c.
Arguments Find {R} key where_.
Arguments DeleteRow {R} key where_.
Arguments Select {R} where_ after limit.
Arguments Transaction {R} body.
Arguments SOpen {R} key.
Arguments SVerify {R} key.
Arguments SPut {R} key data contentType md deadline.
Arguments SDelete {R} key.
Arguments SPrepare {R} src dst.
Arguments SPublish {R} token deadline.
Arguments SFence {R} token.
Arguments SList {R} prefix.
Arguments SUploadURL {R} key.
Arguments RandomKey {R} prefix.
Arguments ans {R} c.
Arguments clock {R} w.
Arguments rows {R} w.
Arguments records {R} w.
Arguments objects {R} w.
Arguments flight {R} w.
Arguments copies {R} w.
Arguments fenced {R} w.
Arguments buried {R} w.
Arguments generated {R} w.
Arguments promoter {R} w.
Arguments recorded {R} w.
Arguments setRows {R} t w.
Arguments setObjects {R} o w.
Arguments addFlight {R} x w.
Arguments addCopy {R} token dst o w.
Arguments addFence {R} token w.
Arguments addGenerated {R} key pid w.
Arguments setTables {R} t r w.

Notation "'ask!' x <- p ; q" := (pbind p (fun x => q))
  (at level 10, x name, p at level 100, q at level 200) : gombit_scope.
Local Open Scope gombit_scope.

(** ** What a call does *)

Section Perform.
Context {R : Type}.
(** What the store's type declares, and how far the clocks of the application and of the
    store are apart from the true time. *)
Variable kd : kind.
Variable drift : duration.

(** A request under a deadline starts in time by the clock that checks it. *)
Definition inTime (deadline : option time) (w : world R) : bool :=
  match deadline with None => true | Some t => clock w <? t + drift end.

(** A statement that was answered, refused, or carried out without its answer. *)
Definition statement {A} (e : env) (w : world R) (f : world R -> world R * A) : world R * option A :=
  match fate e with
  | Answered => let '(w, a) := f w in (w, Some a)
  | Refused => (w, None)
  | Lost => ((f w).1, None)
  end.

(** UPDATE of the row of one key, with the rows affected. *)
Definition execRow (pid : nat) (key : bytes) (where_ : Claim -> bool) (set : Claim -> Claim) (w : world R) : world R * Z :=
  match rows w !! key with
  | None => (w, 0)
  | Some c =>
      if where_ c then
        let c' := set c in
        (mkWorld R (clock w) (<[key := c']> (rows w)) (records w) (objects w) (flight w) (copies w) (fenced w) (buried w) (generated w)
           (if bool_decide (State c' = Promoting /\ State c <> Promoting) then <[key := pid]> (promoter w) else promoter w)
           (if bool_decide (Publication c' <> Publication c /\ Publication c' <> []) then <[Publication c' := key]> (recorded w) else recorded w), 1)
      else (w, 0)
  end.

Definition createRow (c : Claim) (w : world R) : world R * Z :=
  match rows w !! Key c with
  | Some _ => (w, 0)
  | None => (setRows (<[Key c := c]> (rows w)) w, 1)
  end.

Definition deleteRow (key : bytes) (where_ : Claim -> bool) (w : world R) : world R * unit :=
  match rows w !! key with
  | None => (w, tt)
  | Some c =>
      if where_ c then
        (mkWorld R (clock w) (delete key (rows w)) (records w) (objects w) (flight w) (copies w) (fenced w)
           (<[key := c]> (buried w)) (generated w) (promoter w) (recorded w), tt)
      else (w, tt)
  end.

Definition selectKeys (where_ : Claim -> bool) (after : bytes) (limit : nat) (w : world R) : list bytes :=
  take limit (merge_sort key_le
    (fst <$> filter (fun kc => where_ kc.2 && negb (bytes_le kc.1 after) = true) (map_to_list (rows w)))).

(** A Put that the store carries out: the object under its key. *)
Definition putObject (e : env) (key data contentType : bytes) (md : gmap bytes bytes) (w : world R) : object :=
  mkObject data (mkObjectInfo key (len data) contentType (madeETag e) (clock w) md).

Definition relabel (key : bytes) (o : object) : object :=
  mkObject (odata o) (mkObjectInfo key (oSize (oinfo o)) (oContentType (oinfo o)) (oETag (oinfo o)) (oModTime (oinfo o)) (oMetadata (oinfo o))).

(** [Publish] of an in-process copy: Open, then Put with IfAbsent. *)
Definition publishBounded (e : env) (token : bytes) (deadline : time) (w : world R) : world R * result serror ObjectInfo :=
  match CutByte (TrimPrefix token fallbackToken) newline with
  | None => (w, Err (Wrap op_publish [] (Because ErrInvalidOptions MalformedToken)))
  | Some (src, dst) =>
      if negb (HasPrefix token fallbackToken) then (w, Err (Wrap op_publish [] (Because ErrInvalidOptions MalformedToken)))
      else if negb (bool_decide (fate e = Answered)) then (w, Err (reported e))
      else match objects w !! src with
      | None => (w, Err (Wrap op_open src (Sentinel ErrNotFound)))
      | Some o =>
          if negb (inTime (Some deadline) w) then (w, Err (Wrap op_put dst (Sentinel DeadlineExceeded)))
          else match objects w !! dst with
          | Some _ => (w, Err (Wrap op_put dst (Sentinel ErrExists)))
          | None => (setObjects (<[dst := relabel dst o]> (objects w)) w, Ok (oinfo (relabel dst o)))
          end
      end
  end.

(** [Publish] of a copy a Publisher prepared. *)
Definition publishCopy (e : env) (token : bytes) (w : world R) : world R * result serror ObjectInfo :=
  match copies w !! token with
  | None => (w, Err (reported e))
  | Some (dst, o) =>
      match fate e with
      | Answered =>
          if bool_decide (token ∈ fenced w) then (w, Err (reported e))
          else (setObjects (<[dst := o]> (objects w)) w, Ok (oinfo o))
      | Refused => (w, Err (reported e))
      | Lost => (addFlight (WCopy token) w, Err (reported e))
      end
  end.

Definition perform (e : env) (pid : nat) (c : call R) (w : world R) : world R * ans c :=
  match c return world R * ans c with
  | Now => (w, reading e)
  | CtxErr => (w, ctxDone e)
  | LogWarn _ => (w, tt)
  | Exec key where_ set => statement e w (execRow pid key where_ set)
  | Create c => statement e w (createRow c)
  | Find key where_ =>
      statement e w (fun w => (w, match rows w !! key with
                                  | Some c => if where_ c then Some c else None
                                  | None => None
                                  end))
  | DeleteRow key where_ => statement e w (deleteRow key where_)
  | Select where_ after limit => statement e w (fun w => (w, selectKeys where_ after limit w))
  | Transaction body =>
      match fate e with
      | Refused => (w, Err EDatabase)
      | f =>
          match body (rows w, records w) with
          | Err x => (w, Err x)
          | Ok (t, r, a) =>
              (setTables t r w, match f with Lost => Err EDatabase | _ => Ok a end)
          end
      end
  | SOpen key =>
      match fate e, objects w !! key with
      | Answered, Some o => (w, Ok (o, readError e))
      | Answered, None => (w, Err (Wrap op_open key (Sentinel ErrNotFound)))
      | _, _ => (w, Err (reported e))
      end
  | SVerify _ | SUploadURL _ => (w, match fate e with Answered => None | _ => Some (reported e) end)
  | SPut key data ct md deadline =>
      match fate e, kd with
      | Answered, _ =>
          if inTime deadline w
          then (setObjects (<[key := putObject e key data ct md w]> (objects w)) w, Ok (oinfo (putObject e key data ct md w)))
          else (w, Err (Wrap op_put key (Sentinel DeadlineExceeded)))
      | Lost, KBoundedWriter => (w, Err (reported e))
      | Lost, _ => (addFlight (WPut key (putObject e key data ct md w)) w, Err (reported e))
      | Refused, _ => (w, Err (reported e))
      end
  | SDelete key =>
      match fate e with
      | Answered => (setObjects (delete key (objects w)) w, None)
      | Refused => (w, Some (reported e))
      | Lost => (addFlight (WDelete key) w, Some (reported e))
      end
  | SPrepare src dst =>
      match kd with
      | KPublisher =>
          match fate e, objects w !! src with
          | Refused, _ => (w, Err (reported e, []))
          | _, None => (w, Err (Wrap op_publish src (Sentinel ErrNotFound), []))
          | Answered, Some o => (addCopy (madeToken e) dst (relabel dst o) w, Ok (madeToken e))
          | Lost, Some o => (addCopy (madeToken e) dst (relabel dst o) w, Err (reported e, madeToken e))
          end
      | _ =>
          (w, match PreparePublish kd (fun _ _ => Err (reported e)) src dst with
              | Ok token => Ok token
              | Err x => Err (x, [])
              end)
      end
  | SPublish token deadline =>
      match kd with
      | KPublisher => publishCopy e token w
      | _ => publishBounded e token deadline w
      end
  | SFence token =>
      match kd with
      | KPublisher =>
          match fate e with
          | Answered => (addFence token w, None)
          | Refused => (w, Some (reported e))
          | Lost => (addFence token w, Some (reported e))
          end
      | _ => (w, Fence kd (fun _ => None) token)
      end
  | SList prefix =>
      (w, match fate e with
          | Answered => (snapshot prefix (objects w), None)
          | Refused => ([], Some (reported e))
          | Lost => (snapshot prefix (objects w), Some (reported e))
          end)
  | RandomKey prefix =>
      match madeID e with
      | Some id => (addGenerated (prefix ++ id) pid w, Some (prefix ++ id))
      | None => (w, None)
      end
  end.

(** A request a remote store carries out after its call ended. *)
Definition land (x : write) (w : world R) : world R :=
  match x with
  | WPut key o => setObjects (<[key := o]> (objects w)) w
  | WDelete key => setObjects (delete key (objects w)) w
  | WCopy token =>
      match copies w !! token with
      | Some (dst, o) => if bool_decide (token ∈ fenced w) then w else setObjects (<[dst := o]> (objects w)) w
      | None => w
      end
  end.
End Perform.

(** ** The operations of claims.go *)

Section Claims.
Context {R : Type}.
Variable kd : kind.

Local Abbreviation prog := (prog R).
Local Abbreviation tx := (tx R).

(** [CheckOwnable], as an error of this package. *)
Definition checkOwnable : option cerror := EStore <$> CheckOwnable kd.

(** [insert] *)
Definition insert (key scope : bytes) (until : time) (staged : bool) : prog (option cerror) :=
  match checkOwnable with
  | Some e => Ret (Some e)
  | None =>
      if MaxKeyLen <? len key then Ret (Some ErrKeyTooLong)
      else if MaxScopeLen <? len scope then Ret (Some EScopeTooLong)
      else
        ask! now <- ask Now;
        ask! res <- ask (Create (mkClaim key Pending_ now until staged scope []));
        match res with
        | None => Ret (Some EDatabase)
        | Some n => if n =? 0 then Ret (Some (ErrClaimed key)) else Ret None
        end
  end.

Definition Pending (key scope : bytes) (until : time) : prog (option cerror) := insert key scope until false.
Definition Stage (key scope : bytes) (until : time) : prog (option cerror) := insert key scope until true.

(** The conditions and assignments of the statements. *)
Definition promotable (scope : bytes) (c : Claim) : bool :=
  bool_decide (State c = Pending_) && Staged c && bool_decide (Scope c = scope).

Definition promoted (until : time) (c : Claim) : Claim :=
  setState Promoting (setLease (if LeaseUntil c <? until then until else LeaseUntil c) c).

Definition inState (s : state) (c : Claim) : bool := bool_decide (State c = s).

(** [Promote] *)
Definition Promote (key scope : bytes) (until : time) : prog (result cerror bool) :=
  ask! res <- ask (Exec key (promotable scope) (promoted until));
  match res with
  | None => Ret (Err EDatabase)
  | Some n => Ret (Ok (n =? 1))
  end.

(** [Lookup]: the scope of a live claim. *)
Definition Lookup (key : bytes) : prog (result cerror (option bytes)) :=
  ask! found <- ask (Find key (fun c => inState Pending_ c || inState Promoting c || inState Held c));
  match found with
  | None => Ret (Err EDatabase)
  | Some found => Ret (Ok (Scope <$> found))
  end.

(** [Publishing] *)
Definition Publishing (key token : bytes) : prog (option cerror) :=
  if MaxPublicationToken <? len token then Ret (Some ETokenTooLong)
  else
    ask! res <- ask (Exec key (inState Promoting) (setPublication token));
    match res with
    | None => Ret (Some EDatabase)
    | Some n => if n =? 1 then Ret None else Ret (Some (KeyError key ErrNotPromoting))
    end.

(** [Unpromote] *)
Definition Unpromote (key : bytes) : prog (option cerror) :=
  ask! res <- ask (Exec key (inState Promoting) (fun c => setState Pending_ (setPublication [] c)));
  match res with
  | None => Ret (Some EDatabase)
  | Some _ => Ret None
  end.

(** The condition of [transition]. *)
Definition movable (from : list state) (unstaged : bool) (c : Claim) : bool :=
  bool_decide (State c ∈ from) && negb (unstaged && (bool_decide (State c = Pending_) && Staged c)).

(** [transition] on the database itself *)
Definition transition (key : bytes) (from : list state) (to : state) (notFrom : refusal) (unstaged : bool) : prog (option cerror) :=
  ask! res <- ask (Exec key (movable from unstaged) (setState to));
  match res with
  | None => Ret (Some EDatabase)
  | Some n => if n =? 1 then Ret None else Ret (Some (KeyError key notFrom))
  end.

(** [transition] in a transaction *)
Definition transitionTx (key : bytes) (from : list state) (to : state) (notFrom : refusal) (unstaged : bool) : tx unit :=
  fun '(t, r) =>
    match t !! key with
    | Some c => if movable from unstaged c then Ok (<[key := setState to c]> t, r, tt) else Err (KeyError key notFrom)
    | None => Err (KeyError key notFrom)
    end.

(** [Hold], [Release] *)
Definition Hold (key : bytes) : tx unit := transitionTx key [Pending_; Promoting] Held ErrNotPending true.
Definition Release (key : bytes) : tx unit := transitionTx key [Held] Deleting ErrNotHeld false.

(** [release]: whether the key has a claim. *)
Definition release (key : bytes) : tx bool := fun '(t, r) =>
  match Release key (t, r) with
  | Ok (s, _) => Ok (s, true)
  | Err e =>
      match e with
      | KeyError _ ErrNotHeld => if bool_decide (is_Some (t !! key)) then Err e else Ok (t, r, false)
      | _ => Err e
      end
  end.

Fixpoint holdAll (keys : list bytes) : tx unit := fun s =>
  match keys with
  | [] => Ok (s, tt)
  | key :: keys => match Hold key s with Ok (s, _) => holdAll keys s | Err e => Err e end
  end.

(** The keys whose claims were released. *)
Fixpoint releaseAll (keys : list bytes) : tx (list bytes) := fun s =>
  match keys with
  | [] => Ok (s, [])
  | key :: keys =>
      match release key s with
      | Err e => Err e
      | Ok (s, claimed) =>
          match releaseAll keys s with
          | Err e => Err e
          | Ok (s, released) => Ok (s, if claimed then key :: released else released)
          end
      end
  end.

(** [pick] of [changed]; [seen] starts with the empty key. *)
Fixpoint pick (keys other seen : list bytes) : list bytes :=
  match keys with
  | [] => []
  | k :: keys =>
      if negb (bool_decide (k ∈ seen)) && negb (bool_decide (k ∈ other))
      then k :: pick keys other (k :: seen)
      else pick keys other (k :: seen)
  end.

(** [changed] *)
Definition changed (hold release : list bytes) : list bytes * list bytes :=
  (pick hold release [[]], pick release hold [[]]).

(** The end of [Finish]: the tombstone is kept until the lease ended, then the row goes. *)
Definition forget (key : bytes) (ended : bool) : prog (result cerror bool) :=
  if negb ended then Ret (Ok false)
  else
    ask! res <- ask (DeleteRow key (inState Deleting));
    match res with
    | None => Ret (Err EDatabase)
    | Some _ => Ret (Ok true)
    end.

(** [Finish] once the copy is fenced: the objects go, then the row. *)
Definition remove (key : bytes) (staged ended : bool) : prog (result cerror bool) :=
  ask! err <- ask (SDelete key);
  match err with
  | Some e => Ret (Err (EStore e))
  | None =>
      if staged then
        ask! err <- ask (SDelete (StagingKey key));
        match err with
        | Some e => Ret (Err (EStore e))
        | None => forget key ended
        end
      else forget key ended
  end.

(** [Finish]: whether the claim is gone. *)
Definition Finish (key : bytes) : prog (result cerror bool) :=
  ask! found <- ask (Find key (inState Deleting));
  match found with
  | None => Ret (Err EDatabase)
  | Some None => Ret (Ok true)
  | Some (Some claim) =>
      ask! now <- ask Now;
      let ended := negb (Before now (Add (LeaseUntil claim) LeaseMargin)) in
      if bool_decide (Publication claim = []) then remove key (Staged claim) ended
      else
        ask! err <- ask (SFence (Publication claim));
        match err with
        | Some e => Ret (Err (EStore e))
        | None => remove key (Staged claim) ended
        end
  end.

(** [Abandon]: whether it did, and its error. *)
Definition Abandon (key : bytes) : prog (bool * option cerror) :=
  ask! err <- transition key [Pending_; Promoting] Deleting ErrNotPending false;
  match err with
  | Some (KeyError _ ErrNotPending) => Ret (false, None)
  | Some e => Ret (false, Some e)
  | None =>
      ask! res <- Finish key;
      match res with
      | Err e => Ret (true, Some e)
      | Ok _ => Ret (true, None)
      end
  end.

(** The loops of [Update] after its transaction. *)
Fixpoint abandonAll (keys : list bytes) (err : cerror) : prog cerror :=
  match keys with
  | [] => Ret err
  | key :: keys =>
      ask! res <- Abandon key;
      abandonAll keys (match res.2 with Some aerr => EJoin err aerr | None => err end)
  end.

Fixpoint finishAll (keys : list bytes) : prog unit :=
  match keys with
  | [] => Ret tt
  | key :: keys =>
      ask! res <- Finish key;
      match res with
      | Err e => ask! _ <- ask (LogWarn e); finishAll keys
      | Ok _ => finishAll keys
      end
  end.

(** The transaction of [Update]; [fn] writes the record. *)
Definition updateTx (hold release : list bytes) (fn : R -> result cerror R) : tx (list bytes) := fun s =>
  match holdAll hold s with
  | Err e => Err e
  | Ok (t, r, _) =>
      match fn r with
      | Err e => Err e
      | Ok r => releaseAll release (t, r)
      end
  end.

(** [Update] *)
Definition Update (hold release : list bytes) (fn : R -> result cerror R) : prog (option cerror) :=
  let '(hold, release) := changed hold release in
  ask! res <- ask (Transaction (updateTx hold release fn));
  match res with
  | Err err => ask! err <- abandonAll hold err; Ret (Some err)
  | Ok released => ask! _ <- finishAll released; Ret None
  end.

Definition CreateWith (keys : list bytes) (fn : R -> result cerror R) : prog (option cerror) := Update keys [] fn.
Definition DeleteWith (keys : list bytes) (fn : R -> result cerror R) : prog (option cerror) := Update [] keys fn.

(** [eachKey] of an [fn] with its own state; [None] is running out of fuel. *)
Fixpoint eachKeyOf {S} (fn : bytes -> S -> prog S) (keys : list bytes) (s : S) : prog S :=
  match keys with
  | [] => Ret s
  | key :: keys => ask! s <- fn key s; eachKeyOf fn keys s
  end.

Fixpoint eachKey {S} (fuel batch : nat) (where_ : Claim -> bool) (fn : bytes -> S -> prog S) (after : bytes) (s : S) :
    prog (option (S * option cerror)) :=
  match fuel with
  | O => Ret None
  | Datatypes.S fuel =>
      ask! err <- ask CtxErr;
      match err with
      | Some e => Ret (Some (s, Some (EContext e)))
      | None =>
          ask! res <- ask (Select where_ after batch);
          match res with
          | None => Ret (Some (s, Some EDatabase))
          | Some keys =>
              ask! s <- eachKeyOf fn keys s;
              if (length keys <? batch)%nat then Ret (Some (s, None))
              else eachKey fuel batch where_ fn (List.last keys []) s
          end
      end
  end.

Record SweepResult : Type := mkSweep { Abandoned : Z; Finished : Z; Waiting : Z; Failed : Z }.

Definition sweepBatch : nat := 500.

(** What [Sweep] does with a stale key, and with a deleting one. *)
Definition sweepStale (key : bytes) (s : SweepResult * list cerror) : prog (SweepResult * list cerror) :=
  let '(res, errs) := s in
  ask! out <- Abandon key;
  match out with
  | (_, Some err) => Ret (mkSweep (Abandoned res) (Finished res) (Waiting res) (Failed res + 1), errs ++ [err])
  | (true, None) => Ret (mkSweep (Abandoned res + 1) (Finished res) (Waiting res) (Failed res), errs)
  | (false, None) => Ret s
  end.

Definition sweepDeleting (key : bytes) (s : SweepResult * list cerror) : prog (SweepResult * list cerror) :=
  let '(res, errs) := s in
  ask! out <- Finish key;
  match out with
  | Err err => Ret (mkSweep (Abandoned res) (Finished res) (Waiting res) (Failed res + 1), errs ++ [err])
  | Ok true => Ret (mkSweep (Abandoned res) (Finished res + 1) (Waiting res) (Failed res), errs)
  | Ok false => Ret (mkSweep (Abandoned res) (Finished res) (Waiting res + 1) (Failed res), errs)
  end.

Definition stale (cutoff now : time) (c : Claim) : bool :=
  (inState Pending_ c && (CreatedAt c <? cutoff)) || (inState Promoting c && (LeaseUntil c <? now)).

(** [Sweep] *)
Definition Sweep (fuel : nat) (grace : duration) : prog (option (SweepResult * list cerror)) :=
  ask! t <- ask Now;
  let cutoff := Add t (- grace) in
  ask! now <- ask Now;
  ask! out <- eachKey fuel sweepBatch (stale cutoff now) sweepStale [] (mkSweep 0 0 0 0, []);
  match out with
  | None => Ret None
  | Some ((res, errs), Some err) => Ret (Some (res, errs ++ [err]))
  | Some (s, None) =>
      ask! out <- eachKey fuel sweepBatch (inState Deleting) sweepDeleting [] s;
      match out with
      | None => Ret None
      | Some ((res, errs), Some err) => Ret (Some (res, errs ++ [err]))
      | Some (s, None) => Ret (Some s)
      end
  end.

(** The callback of [SweepStaging] on the objects listed. *)
Fixpoint sweepStaged (infos : list ObjectInfo) (s : Z * list cerror) : prog (Z * list cerror) :=
  match infos with
  | [] => Ret s
  | o :: infos =>
      let '(deleted, errs) := s in
      ask! found <- ask (Find (TrimPrefix (oKey o) StagingPrefix) (fun _ => true));
      match found with
      | None => sweepStaged infos (deleted, errs ++ [EDatabase])
      | Some found =>
          if match found with None => true | Some claim => inState Held claim end then
            ask! err <- ask (SDelete (oKey o));
            match err with
            | Some e => sweepStaged infos (deleted, errs ++ [EStore e])
            | None => sweepStaged infos (deleted + 1, errs)
            end
          else sweepStaged infos s
      end
  end.

(** [SweepStaging] *)
Definition SweepStaging : prog (Z * list cerror) :=
  ask! res <- ask (SList StagingPrefix);
  let '(infos, err) := res in
  ask! s <- sweepStaged infos (0, []);
  match err with
  | None => Ret s
  | Some e => Ret (s.1, s.2 ++ [EStore e])
  end.
End Claims.
