(* ===== verification/StorageUpload.v ===== *)
(** * storage/upload: receiving files

    The policy, the direct uploads of direct.go (Authorize, Confirm and the promotion of a
    staged file), and the part of [save] that claims a key, stores the file and promotes it,
    as programs over the calls of [StorageClaims].  [http.DetectContentType],
    [mime.ParseMediaType] (the media type, and whether it had parameters) and the length of
    an encoded word are arguments.  The contexts are those of the calls: a deadline is an
    argument of the requests under it. *)

From stdpp Require Import base tactics numbers list strings gmap sets.
From Stdlib Require Import ZArith Lia Ascii.
From S2P Require Import Prelude GoBytes StorageKey StorageOptions StorageStream StorageMemory StorageClaims.

Local Open Scope string_scope.
Local Open Scope list_scope.
Local Open Scope Z_scope.
Local Open Scope gombit_scope.

(** ** The policy *)

Record Policy : Type := mkPolicy {
  MaxBytes : Z;
  Types : list bytes;
  Prefix : bytes;
  Detect : option (bytes -> bytes);
  PMetadata : gmap bytes bytes;
  GrantExpiry : duration;
  UploadTimeout : duration;
  Claims : bool;
  PScope : bytes
}.

Definition MaxFormBytes : Z := 65536.
Definition idHexLen : nat := 32.
Definition SniffBytes : nat := 512.
Definition DefaultGrantExpiry : duration := 15 * Minute.
Definition DefaultUploadTimeout : duration := Hour.
Definition SignedUploadTimeout : duration := Hour.
Definition FilenameMetadata : bytes := of_string "filename".

Definition uploadTimeout (p : Policy) : duration :=
  if UploadTimeout p =? 0 then DefaultUploadTimeout else UploadTimeout p.

Definition star : ascii := "*"%char.

Section Upload.
Variable parseMedia : bytes -> option (bytes * bool).
Variable detectContentType : bytes -> bytes.
Variable encodedLen : bytes -> Z.
(** Whether the store checks what it kept of an upload (storage.UploadVerifier). *)
Variable verifies : bool.
Variable kd : kind.

Definition parseMediaType (b : bytes) : option bytes := fst <$> parseMedia b.

(** [validType] *)
Definition validType (t : bytes) : bool :=
  match parseMedia t with
  | None => false
  | Some (mediaType, params) =>
      if params || negb (bool_decide (mediaType = t)) then false
      else match CutByte t slash with
      | None => false
      | Some (typ, sub) =>
          if bool_decide (typ = []) || bool_decide (sub = []) || bool_decide (slash ∈ sub) then false
          else if bool_decide (typ = [star]) then bool_decide (sub = [star])
          else if bool_decide (star ∈ typ) then false
          else if bool_decide (star ∈ sub) then bool_decide (sub = [star])
          else true
      end
  end.

(** [accepts] *)
Definition accepts (p : Policy) (mediaType : bytes) : bool :=
  let typ := match CutByte mediaType slash with Some (typ, _) => typ | None => mediaType end in
  existsb (fun t => bool_decide (t = [star; slash; star]) || bool_decide (t = mediaType) || bool_decide (t = typ ++ [slash; star]))
    (Types p).

(** [validate]: the policy is usable. *)
Definition validate (p : Policy) : bool :=
  if MaxBytes p <=? 0 then false
  else if max_int64 - MaxFormBytes <? MaxBytes p then false
  else if bool_decide (Types p = []) then false
  else if bool_decide (is_Some (ValidatePrefix (Prefix p))) then false
  else if HasPrefix (Prefix p) StagingPrefix then false
  else if bool_decide (is_Some (ValidateKey (Prefix p ++ repeat "0"%char idHexLen))) then false
  else if negb (forallb validType (Types p)) then false
  else if 255 <? len (PScope p) then false
  else if UploadTimeout p <? 0 then false
  else if (GrantExpiry p <? 0) || (MaxURLExpiry <? GrantExpiry p) || negb (Z.rem (GrantExpiry p) Second =? 0) then false
  else if bool_decide (is_Some (PMetadata p !! FilenameMetadata)) then false
  else negb (bool_decide (is_Some (ValidateMetadata encodedLen (PMetadata p)))).

(** ** Direct uploads *)

Section Programs.
Context {R : Type}.
Local Abbreviation prog := (prog R).

(** [discard], and [unclaim] without a store *)
Definition discard (p : Policy) (key : bytes) : prog (option cerror) :=
  if Claims p then ask! res <- Abandon key; Ret res.2
  else ask! err <- ask (SDelete key); Ret (EStore <$> err).

Definition unclaim (p : Policy) (key : bytes) : prog unit :=
  if Claims p then ask! _ <- discard p key; Ret tt else Ret tt.

(** [fence] *)
Definition fence (token : bytes) : prog bool :=
  ask! err <- ask (SFence token);
  Ret (match err with None => true | Some _ => false end).

(** [unpromote] *)
Definition unpromote (key : bytes) (err : cerror) : prog cerror :=
  ask! uerr <- Unpromote key;
  Ret (match uerr with Some u => EJoin err u | None => err end).

(** [promote] *)
Definition promote (key : bytes) (deadline : time) : prog (result cerror ObjectInfo) :=
  let staged := StagingKey key in
  ask! res <- ask (SPrepare staged key);
  match res with
  | Err (e, token) =>
      if bool_decide (token = []) then ask! err <- unpromote key (EStore e); Ret (Err err)
      else
        ask! perr <- Publishing key token;
        match perr with
        | Some perr => ask! _ <- fence token; Ret (Err (EJoin (EStore e) perr))
        | None => Ret (Err (EStore e))
        end
  | Ok token =>
      ask! perr <- Publishing key token;
      match perr with
      | Some err => ask! _ <- fence token; Ret (Err err)
      | None =>
          ask! res <- ask (SPublish token deadline);
          match res with
          | Err e =>
              if Is e ErrUnknownOutcome || Is e ErrExists then Ret (Err (EStore e))
              else
                ask! ok <- fence token;
                if ok then ask! err <- unpromote key (EStore e); Ret (Err err)
                else Ret (Err (EStore e))
          | Ok info => ask! _ <- ask (SDelete staged); Ret (Ok info)
          end
      end
  end.

(** [reject] of [check] *)
Definition reject (objKey : bytes) (discard : option (prog (option cerror))) (err : cerror) : prog (result cerror ObjectInfo) :=
  match discard with
  | None => Ret (Err err)
  | Some discard =>
      ask! derr <- discard;
      Ret (Err (match derr with Some d => EJoin err (CleanupError objKey d) | None => err end))
  end.

(** [check] after the size and the store's own check: the media types. *)
Definition checkTypes (p : Policy) (o : object) : bool :=
  let detect := match Detect p with Some d => d | None => detectContentType end in
  match parseMediaType (detect (take SniffBytes (odata o))) with
  | None => false
  | Some detectedType =>
      accepts p detectedType && bool_decide (parseMediaType (oContentType (oinfo o)) = Some detectedType)
  end.

(** [check] *)
Definition check (objKey : bytes) (p : Policy) (discard : option (prog (option cerror))) : prog (result cerror ObjectInfo) :=
  ask! res <- ask (SOpen objKey);
  match res with
  | Err e => Ret (Err (if Is e ErrNotFound then ErrNoFile else EStore e))
  | Ok (o, Some rerr) => Ret (Err (EStore rerr))
  | Ok (o, None) =>
      if MaxBytes p <? oSize (oinfo o) then reject objKey discard ErrTooLarge
      else
        let types : prog (result cerror ObjectInfo) :=
          if checkTypes p o then Ret (Ok (oinfo o)) else reject objKey discard ErrType in
        if verifies then
          ask! err <- ask (SVerify objKey);
          match err with
          | Some e => if Is e ErrInvalidOptions then reject objKey discard ErrMalformed else Ret (Err (EStore e))
          | None => types
          end
        else types
  end.

(** [Confirm] *)
Definition Confirm (key : bytes) (p : Policy) : prog (result cerror ObjectInfo) :=
  if negb (validate p) then Ret (Err EPolicy)
  else if negb (HasPrefix key (Prefix p)) || bool_decide (is_Some (ValidateKey key)) then Ret (Err ErrMalformed)
  else if negb (Claims p) then check key p (Some (discard p key))
  else
    ask! now <- ask Now;
    let deadline := Add now (uploadTimeout p) in
    ask! promoted <- Promote key (PScope p) deadline;
    match promoted with
    | Err e => Ret (Err e)
    | Ok false =>
        ask! live <- Lookup key;
        match live with
        | Err e => Ret (Err e)
        | Ok None => Ret (Err ErrExpired)
        | Ok (Some scope) =>
            if bool_decide (scope = PScope p) then check key p None else Ret (Err ErrMalformed)
        end
    | Ok true =>
        let staged := StagingKey key in
        ask! checked <- check staged p (Some (ask! err <- ask (SDelete staged); Ret (EStore <$> err)));
        match checked with
        | Err e => ask! err <- unpromote key e; Ret (Err err)
        | Ok _ => promote key deadline
        end
    end.

(** [Authorize]: the key granted. *)
Definition Authorize (p : Policy) (size : Z) (contentType : bytes) : prog (result cerror bytes) :=
  if negb (validate p) then Ret (Err EPolicy)
  else if size <? 0 then Ret (Err ErrMalformed)
  else if MaxBytes p <? size then Ret (Err ErrTooLarge)
  else match parseMediaType contentType with
  | None => Ret (Err ErrType)
  | Some mediaType =>
      if bool_decide (is_Some (ValidatePutOptions parseMediaType encodedLen (mkPutOptions contentType None ∅ false)))
      then Ret (Err ErrType)
      else if negb (accepts p mediaType) then Ret (Err ErrType)
      else
        ask! made <- ask (RandomKey (Prefix p));
        match made with
        | None => Ret (Err ERandom)
        | Some key =>
            let ttl := if GrantExpiry p =? 0 then DefaultGrantExpiry else GrantExpiry p in
            let grant (target : bytes) : prog (result cerror bytes) :=
              ask! err <- ask (SUploadURL target);
              match err with
              | Some e => ask! _ <- unclaim p key; Ret (Err (EStore e))
              | None => Ret (Ok key)
              end in
            if Claims p then
              match CheckOwnable kd with
              | Some e => Ret (Err (EStore e))
              | None =>
                  ask! now <- ask Now;
                  ask! err <- Stage kd key (PScope p) (Add now (ttl + SignedUploadTimeout));
                  match err with
                  | Some e => Ret (Err e)
                  | None => grant (StagingKey key)
                  end
              end
            else grant key
        end
  end.

(** ** Saving *)

(** [settled]: the transient failure a failed Put turns out to be. *)
Definition settled (key : bytes) (e : serror) : serror :=
  Wrap op_put key (Sentinel (if Is e Canceled then Canceled else if Is e DeadlineExceeded then DeadlineExceeded else ErrUnavailable)).

(** [save] once the file's type is accepted: its bytes, as far as the source gave them
    ([data]), its type and its metadata. *)
Definition saveFile (p : Policy) (data contentType : bytes) (md : gmap bytes bytes) : prog (result cerror ObjectInfo) :=
  ask! made <- ask (RandomKey (Prefix p));
  match made with
  | None => Ret (Err ERandom)
  | Some key =>
      let store (target : bytes) (deadline : option time) (staged : bool) : prog (result cerror ObjectInfo) :=
        ask! res <- ask (SPut target data contentType md deadline);
        match res with
        | Err e =>
            if Is e ErrUnknownOutcome then
              ask! derr <- discard p key;
              match derr with
              | Some d => Ret (Err (EJoin (EStore e) (CleanupError key d)))
              | None => Ret (Err (EStore (settled key e)))
              end
            else ask! _ <- unclaim p key; Ret (Err (EStore e))
        | Ok info =>
            match staged, deadline with
            | true, Some deadline =>
                ask! promoted <- Promote key (PScope p) deadline;
                match promoted with
                | Ok true => promote key deadline
                | Ok false => ask! _ <- unclaim p key; Ret (Err (EStore (Sentinel ErrUnavailable)))
                | Err e => ask! _ <- unclaim p key; Ret (Err e)
                end
            | _, _ => Ret (Ok info)
            end
        end in
      if Claims p then
        ask! now <- ask Now;
        let deadline := Add now (uploadTimeout p) in
        match CheckOwnable kd with
        | Some e => Ret (Err (EStore e))
        | None =>
            match kd with
            | KPublisher =>
                ask! err <- Stage kd key (PScope p) deadline;
                match err with
                | Some e => Ret (Err e)
                | None => store (StagingKey key) (Some deadline) true
                end
            | _ =>
                ask! err <- Pending kd key (PScope p) deadline;
                match err with
                | Some e => Ret (Err e)
                | None => store key (Some deadline) false
                end
            end
        end
      else store key None false
  end.
End Programs.
End Upload.
