(* ===== verification/StorageClaimsInv.v ===== *)
(** * What the programs of storage/claims and storage/upload keep true

    Rely and guarantee: [inv] holds of every world, [later] is what a process may rely on
    between its calls whatever the others do, [guar] what each of its own calls does to the
    others, and [wp] that a program keeps both from a world on.  A claim only moves forward
    ([evolves]); a process that promoted a claim is alone in recording its copy and taking
    it back ([own]); objects disappear only for deleting claims ([spared]). *)

From stdpp Require Import base tactics numbers list strings gmap sets sorting.
From Stdlib Require Import ZArith Lia Ascii.
From S2P Require Import Prelude GoBytes StorageKey StorageOptions StorageStream StorageMemory StorageClaims.

Local Open Scope string_scope.
Local Open Scope list_scope.
Local Open Scope Z_scope.
Local Open Scope gombit_scope.

Section Inv.
Context {R : Type}.
Variable kd : kind.
Variable drift : duration.
Variable refers : R -> bytes -> Prop.

Implicit Types (w : world R) (k t : bytes) (c : Claim) (x y : Claim * bool).

(** The claim of a key, with whether its row was deleted. *)
Definition ledger w k : option (Claim * bool) :=
  match rows w !! k with
  | Some c => Some (c, false)
  | None => (fun c => (c, true)) <$> buried w !! k
  end.

Definition staging k : Prop := HasPrefix k StagingPrefix = true.

Definition deletingAt w k : Prop := exists x, ledger w k = Some x /\ State x.1 = Deleting.

(** A deleting claim that nothing can publish under any more: its lease is over for every
    clock, and its copy, if it has one, is fenced. *)
Definition settledPublication w c : Prop := Publication c = [] \/ Publication c ∈ fenced w \/ kd <> KPublisher.

Definition sealed w k : Prop :=
  exists x, ledger w k = Some x /\ State x.1 = Deleting /\ LeaseUntil x.1 + drift <= clock w /\ settledPublication w x.1.

Record evolves x y : Prop := {
  e_lease : LeaseUntil x.1 <= LeaseUntil y.1;
  e_deleting : State x.1 = Deleting -> y.1 = x.1;
  e_gone : x.2 = true -> y = x;
  e_held : State x.1 = Held -> (State y.1 = Held \/ State y.1 = Deleting) /\ Publication y.1 = Publication x.1
}.

Record later0 w w' : Prop := {
  l_clock : clock w <= clock w';
  l_ledger : forall k x, ledger w k = Some x -> exists y, ledger w' k = Some y /\ evolves x y;
  l_generated : forall k p, generated w !! k = Some p -> generated w' !! k = Some p;
  l_fenced : fenced w ⊆ fenced w';
  l_copies : forall t d, copies w !! t = Some d -> copies w' !! t = Some d;
  l_recorded : kd = KPublisher -> forall t k, recorded w !! t = Some k -> recorded w' !! t = Some k;
  l_sealed : forall k, sealed w k -> objects w !! k = None -> objects w' !! k = None
}.

Record own (pid : nat) w w' : Prop := {
  o_promoter : forall k x, ledger w k = Some x -> State x.1 <> Pending_ -> promoter w !! k = Some pid ->
    promoter w' !! k = Some pid /\
    exists y, ledger w' k = Some y /\ State y.1 <> Pending_ /\ Publication y.1 = Publication x.1;
  o_fresh : forall k, generated w !! k = Some pid -> ledger w k = None -> ledger w' k = None
}.

Definition spared w w' : Prop :=
  forall k, is_Some (objects w !! k) -> objects w' !! k = None -> staging k \/ deletingAt w k.

Definition later (pid : nat) w w' : Prop := later0 w w' /\ own pid w w'.

Definition guar (pid : nat) w w' : Prop :=
  later0 w w' /\ (forall pid', pid' <> pid -> own pid' w w') /\ spared w w'.

Record inv w : Prop := {
  v_row : forall k c, rows w !! k = Some c -> Key c = k /\ is_Some (generated w !! k) /\ (State c = Pending_ -> Publication c = []);
  v_buried : forall k c, buried w !! k = Some c -> rows w !! k = None /\ State c = Deleting /\ is_Some (generated w !! k) /\
    objects w !! k = None /\ LeaseUntil c + drift <= clock w /\ settledPublication w c;
  v_generated : forall k, is_Some (generated w !! k) -> ~ staging k;
  v_recorded : kd = KPublisher -> forall t k, recorded w !! t = Some k -> t <> [] /\ (exists o, copies w !! t = Some (k, o)) /\
    (t ∈ fenced w \/ exists c, rows w !! k = Some c /\ Publication c = t);
  v_flight : forall f, f ∈ flight w ->
    match f with
    | WPut k o => staging k /\ oKey (oinfo o) = k
    | WCopy t => kd = KPublisher /\ is_Some (recorded w !! t)
    | WDelete k => staging k \/ deletingAt w k
    end;
  v_refers : forall k, refers (records w) k -> is_Some (generated w !! k) -> exists c, rows w !! k = Some c /\ State c = Held;
  v_object : forall k o, objects w !! k = Some o -> oKey (oinfo o) = k;
  v_copy : forall t k o, copies w !! t = Some (k, o) -> oKey (oinfo o) = k
}.

(** What a call may be answered: clocks within the drift, keys and tokens never made
    before. *)
Definition env_ok (e : env) (c : call R) w : Prop :=
  match c with
  | Now => clock w - drift <= reading e <= clock w + drift
  | SPrepare _ _ => madeToken e <> [] /\ copies w !! madeToken e = None
  | RandomKey prefix => forall id, madeID e = Some id ->
      length id = 32%nat /\ ("_"%char ∉ id) /\ ("/"%char ∉ id) /\
      generated w !! (prefix ++ id) = None /\ ~ refers (records w) (prefix ++ id)
  | _ => True
  end.

Fixpoint wp {A} (pid : nat) (p : prog R A) w (Q : A -> world R -> Prop) : Prop :=
  match p with
  | Ret a => forall w1, later pid w w1 -> inv w1 -> Q a w1
  | Vis c k => forall w1, later pid w w1 -> inv w1 -> forall e, env_ok e c w1 ->
      inv (perform kd drift e pid c w1).1 /\ guar pid w1 (perform kd drift e pid c w1).1 /\
      wp pid (k (perform kd drift e pid c w1).2) (perform kd drift e pid c w1).1 Q
  end.

(** ** Orders *)

Lemma evolves_refl x : evolves x x.
Proof. split; auto; lia. Qed.

Lemma evolves_trans x y z : evolves x y -> evolves y z -> evolves x z.
Proof.
  intros [Hl1 Hd1 Hg1 Hh1] [Hl2 Hd2 Hg2 Hh2]. split.
  - lia.
  - intros Hx. rewrite Hd2, Hd1; auto. by rewrite Hd1.
  - intros Hx. rewrite Hg2; [by apply Hg1|]. by rewrite Hg1.
  - intros Hx. destruct (Hh1 Hx) as [[Hy|Hy] HP].
    + rewrite <- HP. by apply Hh2.
    + rewrite (Hd2 Hy). split; [by right | done].
Qed.

Lemma later0_refl w : later0 w w.
Proof. split; auto; [lia|]. intros k x Hx. exists x. split; [done | apply evolves_refl]. Qed.

Lemma sealed_mono w w' k : clock w <= clock w' -> fenced w ⊆ fenced w' ->
  (forall x, ledger w k = Some x -> exists y, ledger w' k = Some y /\ evolves x y) -> sealed w k -> sealed w' k.
Proof.
  intros Hc Hf Hl (x & Hx & Hd & Ht & Hp). destruct (Hl _ Hx) as (y & Hy & [_ Hyx _ _]). specialize (Hyx Hd).
  exists y. rewrite Hyx. split; [done|]. split; [done|]. split; [lia|]. destruct Hp as [|[|]]; [by left | right; left; set_solver | by right; right].
Qed.

Lemma sealed_later w w' k : later0 w w' -> sealed w k -> sealed w' k.
Proof. intros []. apply sealed_mono; auto. Qed.

Lemma later0_trans w1 w2 w3 : later0 w1 w2 -> later0 w2 w3 -> later0 w1 w3.
Proof.
  intros H1 H2. pose proof (fun k => sealed_later w1 w2 k H1) as Hs. revert H1 H2.
  intros [Hc1 Hl1 Hg1 Hf1 Hp1 Hr1 Hs1] [Hc2 Hl2 Hg2 Hf2 Hp2 Hr2 Hs2]. split; auto; [lia | | set_solver].
  intros k x Hx. destruct (Hl1 _ _ Hx) as (y & Hy & Hxy). destruct (Hl2 _ _ Hy) as (z & Hz & Hyz).
  exists z. split; [done | by eapply evolves_trans].
Qed.

Lemma own_refl pid w : own pid w w.
Proof. split; [|done]. intros k x Hx Hs Hp. split; [done|]. by exists x. Qed.

Lemma rely_refl pid w : later pid w w.
Proof. split; [apply later0_refl | apply own_refl]. Qed.

Lemma rely_trans pid w1 w2 w3 : later pid w1 w2 -> later pid w2 w3 -> later pid w1 w3.
Proof.
  intros [Hl1 [Hp1 Hf1]] [Hl2 [Hp2 Hf2]]. split; [by eapply later0_trans|]. split.
  - intros k x Hx Hs Hp. destruct (Hp1 _ _ Hx Hs Hp) as (Hp' & y & Hy & Hys & Hpub).
    destruct (Hp2 _ _ Hy Hys Hp') as (Hp'' & z & Hz & Hzs & Hpub'). split; [done|]. exists z. split; [done|]. split; [done | congruence].
  - intros k Hk Hn. apply Hf2; [by apply (l_generated _ _ Hl1)|]. by apply Hf1.
Qed.

Lemma guar_later pid pid' w w' : pid' <> pid -> guar pid w w' -> later pid' w w'.
Proof. intros Hne (Hl & Ho & _). split; [done | by apply Ho]. Qed.

Lemma guar_refl pid w : guar pid w w.
Proof. split; [apply later0_refl|]. split; [intros; apply own_refl|]. intros k [o Ho] Hn. congruence. Qed.

(** ** Programs *)

Lemma prog_wp_mono {A} pid (p : prog R A) w Q1 Q2 : wp pid p w Q1 -> (forall a w', Q1 a w' -> Q2 a w') -> wp pid p w Q2.
Proof.
  revert w. induction p as [a|c k IH]; intros w Hp HQ; cbn in *.
  - intros w1 Hl Hi. by apply HQ, Hp.
  - intros w1 Hl Hi e He. destruct (Hp w1 Hl Hi e He) as (Hi2 & Hg & Hk). split; [done|]. split; [done|]. by apply IH.
Qed.

Lemma wp_later {A} pid (p : prog R A) w w' Q : later pid w w' -> wp pid p w Q -> wp pid p w' Q.
Proof.
  intros Hl. destruct p as [a|c k]; cbn; intros Hp w1 Hl1; apply Hp; by eapply rely_trans.
Qed.

Lemma prog_wp_bind {A B} pid (p : prog R A) (f : A -> prog R B) w Q :
  wp pid p w (fun a w' => wp pid (f a) w' Q) -> wp pid (pbind p f) w Q.
Proof.
  revert w. induction p as [a|c k IH]; intros w Hp; cbn in *.
  - destruct (f a) as [b|c k]; cbn in *; intros w1 Hl Hi; apply (Hp w1 Hl Hi); auto using rely_refl.
  - intros w1 Hl Hi e He. destruct (Hp w1 Hl Hi e He) as (Hi2 & Hg & Hk). split; [done|]. split; [done|]. by apply IH.
Qed.

Lemma prog_wp_ret {A} pid (a : A) w (Q : A -> world R -> Prop) : (forall w1, later pid w w1 -> inv w1 -> Q a w1) -> wp pid (Ret a) w Q.
Proof. done. Qed.

(** A call that changes nothing. *)
Lemma wp_reads pid (c : call R) w (Q : ans c -> world R -> Prop) :
  (forall w1 e, later pid w w1 -> inv w1 -> env_ok e c w1 -> (perform kd drift e pid c w1).1 = w1 /\
     forall w2, later pid w1 w2 -> inv w2 -> Q (perform kd drift e pid c w1).2 w2) ->
  wp pid (ask c) w Q.
Proof.
  intros H w1 Hl Hi e He. destruct (H w1 e Hl Hi He) as [E HQ]. rewrite E.
  split; [done|]. split; [apply guar_refl|]. cbn. intros w2 Hl2 Hi2. by apply HQ.
Qed.

Lemma wp_step pid (c : call R) w (Q : ans c -> world R -> Prop) :
  (forall w1 e, later pid w w1 -> inv w1 -> env_ok e c w1 ->
     inv (perform kd drift e pid c w1).1 /\ guar pid w1 (perform kd drift e pid c w1).1 /\
     forall w2, later pid (perform kd drift e pid c w1).1 w2 -> inv w2 -> Q (perform kd drift e pid c w1).2 w2) ->
  wp pid (ask c) w Q.
Proof. intros H w1 Hl Hi e He. destruct (H w1 e Hl Hi He) as (H1 & H2 & H3). split; [done|]. split; [done|]. cbn. exact H3. Qed.

(** ** Changes to the store *)

(** The tables and the bookkeeping of [w'] are those of [w]. *)
Record same_tables w w' : Prop := {
  s_clock : clock w' = clock w;
  s_rows : rows w' = rows w;
  s_records : records w' = records w;
  s_buried : buried w' = buried w;
  s_generated : generated w' = generated w;
  s_promoter : promoter w' = promoter w;
  s_recorded : recorded w' = recorded w;
  s_fenced : fenced w ⊆ fenced w';
  s_copies : forall t d, copies w !! t = Some d -> copies w' !! t = Some d
}.

Lemma same_ledger w w' k : same_tables w w' -> ledger w' k = ledger w k.
Proof. intros Hs. unfold ledger. by rewrite (s_rows _ _ Hs), (s_buried _ _ Hs). Qed.

Lemma same_deleting w w' k : same_tables w w' -> deletingAt w k -> deletingAt w' k.
Proof. intros Hs (x & Hx & Hd). exists x. by rewrite (same_ledger _ _ _ Hs). Qed.

Lemma same_guar pid w w' : same_tables w w' -> spared w w' ->
  (forall k, sealed w k -> objects w !! k = None -> objects w' !! k = None) -> guar pid w w'.
Proof.
  intros Hs Hsp Hse. pose proof (fun k => same_ledger w w' k Hs) as Hl. destruct Hs. split; [|split; [|done]].
  - split; try (done || lia || congruence).
    intros k x Hx. exists x. rewrite Hl. split; [done | apply evolves_refl].
  - intros pid' _. split.
    + intros k x Hx Hst Hp. rewrite Hl, s_promoter0. split; [done|]. by exists x.
    + intros k _ Hn. by rewrite Hl.
Qed.

Lemma buried_sealed w k c : inv w -> buried w !! k = Some c -> sealed w k.
Proof.
  intros Hi Hc. destruct (v_buried _ Hi _ _ Hc) as (H1 & H2 & H3 & H4 & H5 & H6). exists (c, true).
  unfold ledger. by rewrite H1, Hc.
Qed.

Lemma sealed_not_staging w k : inv w -> sealed w k -> ~ staging k.
Proof.
  intros Hi (x & Hx & _). apply (v_generated _ Hi). unfold ledger in Hx. destruct (rows w !! k) as [c|] eqn:E; [by apply (v_row _ Hi _ _ E)|].
  destruct (buried w !! k) as [c|] eqn:E'; [|done]. by apply (v_buried _ Hi _ _ E').
Qed.

(** The objects changed as the invariant allows, and so did the requests in flight. *)
Lemma same_inv w w' : same_tables w w' -> inv w ->
  (forall k, sealed w k -> objects w !! k = None -> objects w' !! k = None) ->
  (forall f, f ∈ flight w' -> f ∈ flight w \/
     match f with
     | WPut k o => staging k /\ oKey (oinfo o) = k
     | WCopy t => kd = KPublisher /\ is_Some (recorded w !! t)
     | WDelete k => staging k \/ deletingAt w k
     end) ->
  (forall k o, objects w' !! k = Some o -> objects w !! k = Some o \/ oKey (oinfo o) = k) ->
  (forall t k o, copies w' !! t = Some (k, o) -> copies w !! t = Some (k, o) \/ oKey (oinfo o) = k) -> inv w'.
Proof.
  intros Hs Hi Hb Hf Ho Hcp. pose proof (fun k => same_deleting w w' k Hs) as Hd. destruct Hs. split.
  - intros k c. rewrite s_rows0, s_generated0. apply (v_row _ Hi).
  - intros k c Hc. rewrite s_buried0 in Hc. 
    pose proof (buried_sealed _ _ _ Hi Hc) as Hse. destruct (v_buried _ Hi _ _ Hc) as (H1 & H2 & H3 & H4 & H5 & H6).
    rewrite s_rows0, s_generated0, s_clock0. do 3 (split; [done|]). split; [by apply Hb|]. split; [done|].
    destruct H6 as [|[|]]; [by left | right; left; set_solver | by right; right].
  - intros k. rewrite s_generated0. apply (v_generated _ Hi).
  - intros Hk t k. rewrite s_recorded0, s_rows0. intros Hr. destruct (v_recorded _ Hi Hk _ _ Hr) as (H1 & (o & H2) & H3).
    split; [done|]. split; [exists o; auto|]. destruct H3; [left; set_solver | by right].
  - intros f Hin. assert (match f with WPut k o => staging k /\ oKey (oinfo o) = k | WCopy t => kd = KPublisher /\ is_Some (recorded w !! t)
                          | WDelete k => staging k \/ deletingAt w k end) as H.
    { destruct (Hf f Hin) as [H|H]; [by apply (v_flight _ Hi)|done]. }
    destruct f; [done | by rewrite s_recorded0 | destruct H; auto].
  - intros k. rewrite s_records0, s_rows0, s_generated0. apply (v_refers _ Hi).
  - intros k o H. destruct (Ho _ _ H); [by apply (v_object _ Hi) | done].
  - intros t k o H. destruct (Hcp _ _ _ H) as [H'|H']; [by apply (v_copy _ Hi _ _ _ H') | done].
Qed.

Lemma objects_same w o : same_tables w (setObjects o w).
Proof. by split. Qed.

(** An object put at a key that is not sealed. *)
Lemma put_ok pid w k o : inv w -> oKey (oinfo o) = k -> ~ sealed w k ->
  inv (setObjects (<[k := o]> (objects w)) w) /\ guar pid w (setObjects (<[k := o]> (objects w)) w).
Proof.
  intros Hi Ek Hk. assert (forall k', sealed w k' -> objects w !! k' = None -> <[k := o]> (objects w) !! k' = None) as Hs.
  { intros k' Hs Hn. rewrite lookup_insert_ne; [done|]. by intros <-. }
  split.
  { apply (same_inv w); auto using objects_same. cbn. intros k' o' [[<- <-]|[_ H]]%lookup_insert_Some; auto. }
  apply same_guar; [apply objects_same | | done]. intros k' [o' Ho]. cbn. intros Hn. apply lookup_insert_None in Hn as [Hn _]. congruence.
Qed.

Lemma delete_ok pid w k : inv w -> staging k \/ deletingAt w k ->
  inv (setObjects (delete k (objects w)) w) /\ guar pid w (setObjects (delete k (objects w)) w).
Proof.
  intros Hi Hk. assert (forall k', sealed w k' -> objects w !! k' = None -> delete k (objects w) !! k' = None) as Hs.
  { intros k' _ Hn. apply lookup_delete_None. auto. }
  split.
  { apply (same_inv w); auto using objects_same. cbn. intros k' o' [_ H]%lookup_delete_Some. auto. }
  apply same_guar; [apply objects_same | | done]. intros k' [o Ho]. cbn. intros Hn.
  apply lookup_delete_None in Hn as [<-|Hn]; [done | congruence].
Qed.

Lemma flight_ok pid w f : inv w ->
  match f with
  | WPut k o => staging k /\ oKey (oinfo o) = k
  | WCopy t => kd = KPublisher /\ is_Some (recorded w !! t)
  | WDelete k => staging k \/ deletingAt w k
  end -> inv (addFlight f w) /\ guar pid w (addFlight f w).
Proof.
  intros Hi Hf. split.
  - apply (same_inv w); [by split | exact Hi | done | | auto | auto].
    cbn. intros f' Hin. apply elem_of_cons in Hin as [->|Hin]; [by right | by left].
  - apply same_guar; [by split | | done]. intros k [o Ho] Hn. cbn in Hn. congruence.
Qed.

Lemma fence_ok pid w t : inv w -> inv (addFence t w) /\ guar pid w (addFence t w).
Proof.
  intros Hi. assert (same_tables w (addFence t w)) as Hs by (split; cbn; set_solver). split.
  - apply (same_inv w); auto.
  - apply same_guar; [done | | done]. intros k [o Ho] Hn. cbn in Hn. congruence.
Qed.

Lemma copy_ok pid w t dst o : inv w -> copies w !! t = None -> oKey (oinfo o) = dst -> inv (addCopy t dst o w) /\ guar pid w (addCopy t dst o w).
Proof.
  intros Hi Ht Hk. assert (same_tables w (addCopy t dst o w)) as Hs.
  { split; try done. cbn. intros t' d Hd. rewrite lookup_insert_ne; [done|]. intros <-. congruence. }
  split.
  - apply (same_inv w); auto. cbn. intros t' k' o' [[<- [= <- <-]]|[_ H]]%lookup_insert_Some; auto.
  - apply same_guar; [done | | done]. intros k [o' Ho] Hn. cbn in Hn. congruence.
Qed.

(** A copy that lands: its claim is not sealed, or the copy was fenced. *)
Lemma landed_ok pid w t dst o : inv w -> kd = KPublisher -> is_Some (recorded w !! t) -> copies w !! t = Some (dst, o) -> (t ∉ fenced w) ->
  inv (setObjects (<[dst := o]> (objects w)) w) /\ guar pid w (setObjects (<[dst := o]> (objects w)) w).
Proof.
  intros Hi Hk [k Hr] Hc Hf. apply put_ok; [done | by apply (v_copy _ Hi _ _ _ Hc)|]. intros (x & Hx & _ & _ & Hp).
  destruct (v_recorded _ Hi Hk _ _ Hr) as (Hne & (o' & Hc') & [H|(c & Hrow & Hpub)]); [done|].
  assert (k = dst) as -> by congruence. unfold ledger in Hx. rewrite Hrow in Hx. injection Hx as <-. cbn in Hp.
  destruct Hp as [|[|]]; [congruence | congruence | done].
Qed.

(** A write under a deadline within the lease is not late. *)
Lemma in_time_unsealed w k x deadline : ledger w k = Some x -> deadline <= LeaseUntil x.1 ->
  inTime drift (Some deadline) w = true -> ~ sealed w k.
Proof. intros Hx Hd Ht (y & Hy & _ & Hc & _). apply Z.ltb_lt in Ht. assert (x = y) as -> by congruence. lia. Qed.

(** ** Changes to the table *)

(** What an UPDATE by [pid] may make of a row. *)
Record row_step (pid : nat) w k c c' : Prop := {
  r_key : Key c' = Key c;
  r_from : State c = Pending_ \/ State c = Promoting;
  r_lease : LeaseUntil c <= LeaseUntil c';
  r_pending : State c' = Pending_ -> Publication c' = [];
  r_mine : State c = Pending_ \/ promoter w !! k = Some pid \/ (State c' <> Pending_ /\ Publication c' = Publication c);
  r_old : Publication c = Publication c' \/ Publication c = [] \/ Publication c ∈ fenced w \/ kd <> KPublisher;
  r_new : kd = KPublisher -> Publication c' <> Publication c -> Publication c' <> [] ->
    exists o, copies w !! Publication c' = Some (k, o)
}.

Lemma ledger_row w k c : rows w !! k = Some c -> ledger w k = Some (c, false).
Proof. unfold ledger. by intros ->. Qed.

(** The world after the UPDATE of a row that [where_] selected. *)
Definition updated (pid : nat) k c c' w : world R :=
  mkWorld R (clock w) (<[k := c']> (rows w)) (records w) (objects w) (flight w) (copies w) (fenced w) (buried w) (generated w)
    (if bool_decide (State c' = Promoting /\ State c <> Promoting) then <[k := pid]> (promoter w) else promoter w)
    (if bool_decide (Publication c' <> Publication c /\ Publication c' <> []) then <[Publication c' := k]> (recorded w) else recorded w).

Lemma updated_ledger pid k c c' w k' : ledger (updated pid k c c' w) k' = if bool_decide (k' = k) then Some (c', false) else ledger w k'.
Proof.
  unfold ledger. cbn. case_bool_decide as H; [subst; by rewrite lookup_insert_eq | by rewrite lookup_insert_ne].
Qed.

Lemma row_evolves pid w k c c' : row_step pid w k c c' -> evolves (c, false) (c', false).
Proof. intros []. split; cbn; try done; intros Hs; rewrite Hs in *; naive_solver. Qed.

Lemma updated_recorded pid k c c' w t k' : inv w -> kd = KPublisher -> row_step pid w k c c' -> recorded w !! t = Some k' ->
  recorded (updated pid k c c' w) !! t = Some k'.
Proof.
  intros Hi Hk Hs Hr. cbn. case_bool_decide as Hp; [|done]. destruct (decide (t = Publication c')) as [->|Hne].
  - rewrite lookup_insert_eq. destruct (v_recorded _ Hi Hk _ _ Hr) as (_ & (o & Ho) & _).
    destruct (r_new _ _ _ _ _ Hs Hk (proj1 Hp) (proj2 Hp)) as (o' & Ho'). congruence.
  - by rewrite lookup_insert_ne.
Qed.

Lemma updated_guar pid k c c' w : inv w -> rows w !! k = Some c -> row_step pid w k c c' -> guar pid w (updated pid k c c' w).
Proof.
  intros Hi Hc Hs. pose proof (ledger_row _ _ _ Hc) as Hlc. split; [|split].
  - split; try done.
    + intros k' x Hx. rewrite updated_ledger. case_bool_decide as H; [subst|].
      * rewrite Hlc in Hx. injection Hx as <-. eexists. split; [done | by eapply row_evolves].
      * exists x. split; [done | apply evolves_refl].
    + intros Hk t k' Hr. by apply updated_recorded.
  - intros pid' Hne. split.
    + intros k' x Hx Hst Hp. rewrite updated_ledger. case_bool_decide as H.
      * subst k'. rewrite Hlc in Hx. injection Hx as <-. cbn in *.
        destruct (r_mine _ _ _ _ _ Hs) as [H|[H|[H1 H2]]]; [done | congruence|]. split.
        -- case_bool_decide as HP; [|done]. destruct HP as [_ HP]. destruct (r_from _ _ _ _ _ Hs); congruence.
        -- eexists. split; [done|]. done.
      * split; [|by exists x]. cbn. case_bool_decide; [by rewrite lookup_insert_ne|done].
    + intros k' _ Hn. rewrite updated_ledger. case_bool_decide; [subst; congruence | done].
  - intros k' [o Ho] Hn. cbn in Hn. congruence.
Qed.

Lemma updated_deleting pid k c c' w k' : row_step pid w k c c' -> rows w !! k = Some c -> deletingAt w k' -> deletingAt (updated pid k c c' w) k'.
Proof.
  intros Hs Hc (x & Hx & Hd). exists x. rewrite updated_ledger. case_bool_decide as H; [|done]. subst.
  rewrite (ledger_row _ _ _ Hc) in Hx. injection Hx as <-. cbn in Hd. destruct (r_from _ _ _ _ _ Hs); congruence.
Qed.

Lemma updated_inv pid k c c' w : inv w -> rows w !! k = Some c -> row_step pid w k c c' -> inv (updated pid k c c' w).
Proof.
  intros Hi Hc Hs. pose proof (fun k' => updated_deleting pid k c c' w k' Hs Hc) as Hd.
  destruct (v_row _ Hi _ _ Hc) as (EK & Hg & _). split.
  - intros k' c1. cbn. intros [[<- <-]|[Hne H1]]%lookup_insert_Some; [|by apply (v_row _ Hi)].
    rewrite (r_key _ _ _ _ _ Hs). split; [done|]. split; [done | apply (r_pending _ _ _ _ _ Hs)].
  - intros k' c1 H1. cbn in *. destruct (v_buried _ Hi _ _ H1) as (Hn & Hrest). split; [|done].
    apply lookup_insert_None. split; [done|]. intros <-. congruence.
  - apply (v_generated _ Hi).
  - intros Hk t k' Hr. destruct (recorded w !! t) as [k1|] eqn:Hr1.
    + rewrite (updated_recorded _ _ _ _ _ _ _ Hi Hk Hs Hr1) in Hr. injection Hr as ->.
      destruct (v_recorded _ Hi Hk _ _ Hr1) as (H1 & H2 & H3). split; [done|]. split; [done|].
      destruct H3 as [H3|(c1 & H3 & H4)]; [by left|]. cbn. destruct (decide (k' = k)) as [->|Hne].
      * assert (c1 = c) as -> by congruence. destruct (r_old _ _ _ _ _ Hs) as [H|[H|[H|H]]]; [|congruence | left; congruence | done].
        right. exists c'. rewrite lookup_insert_eq. split; [done | congruence].
      * right. exists c1. by rewrite lookup_insert_ne.
    + cbn in Hr. case_bool_decide as Hp; [|congruence]. apply lookup_insert_Some in Hr as [[<- <-]|[_ Hr]]; [|congruence].
      destruct Hp as [Hp1 Hp2]. split; [done|]. split; [by apply (r_new _ _ _ _ _ Hs)|]. right. exists c'. cbn. by rewrite lookup_insert_eq.
  - intros f Hf. pose proof (v_flight _ Hi f Hf) as H. destruct f as [k1 o|t|k1]; [done | | destruct H; auto].
    destruct H as [Hk [k1 Hr]]. split; [done|]. exists k1. by apply updated_recorded.
  - intros k' Hr Hg'. cbn in *. destruct (v_refers _ Hi _ Hr Hg') as (c1 & H1 & H2). exists c1.
    rewrite lookup_insert_ne; [done|]. intros <-. destruct (r_from _ _ _ _ _ Hs); congruence.
  - apply (v_object _ Hi).
  - apply (v_copy _ Hi).
Qed.

Lemma execRow_ok pid k where_ set w : inv w ->
  (forall c, rows w !! k = Some c -> where_ c = true -> row_step pid w k c (set c)) ->
  inv (execRow pid k where_ set w).1 /\ guar pid w (execRow pid k where_ set w).1.
Proof.
  intros Hi H. unfold execRow. destruct (rows w !! k) as [c|] eqn:Hc; [|by split; [|apply guar_refl]].
  destruct (where_ c) eqn:Hw; [|by split; [|apply guar_refl]].
  split; [by apply (updated_inv pid k c (set c)); auto | by apply (updated_guar pid k c (set c)); auto].
Qed.

Lemma createRow_ok pid c w : inv w -> State c = Pending_ -> Publication c = [] ->
  generated w !! Key c = Some pid -> (rows w !! Key c = None -> buried w !! Key c = None) ->
  inv (createRow c w).1 /\ guar pid w (createRow c w).1.
Proof.
  intros Hi Hst Hpub Hg Hb. unfold createRow. destruct (rows w !! Key c) as [c0|] eqn:Hc; [by split; [|apply guar_refl]|].
  specialize (Hb eq_refl). cbn. set (k := Key c) in *.
  assert (ledger w k = None) as Hn by (unfold ledger; by rewrite Hc, Hb).
  assert (forall k', ledger (setRows (<[k := c]> (rows w)) w) k' = if bool_decide (k' = k) then Some (c, false) else ledger w k') as Hl.
  { intros k'. unfold ledger. cbn. case_bool_decide; [subst; by rewrite lookup_insert_eq | by rewrite lookup_insert_ne]. }
  split.
  - split; cbn.
    + intros k' c1 [[<- <-]|[Hne H1]]%lookup_insert_Some; [|by apply (v_row _ Hi)]. split; [done|]. split; [by exists pid | done].
    + intros k' c1 H1. destruct (v_buried _ Hi _ _ H1) as (Hn1 & Hrest). split; [|done].
      apply lookup_insert_None. split; [done|]. intros <-. congruence.
    + apply (v_generated _ Hi).
    + intros Hk t k' Hr. destruct (v_recorded _ Hi Hk _ _ Hr) as (H1 & H2 & H3). split; [done|]. split; [done|].
      destruct H3 as [H3|(c1 & H3 & H4)]; [by left|]. right. exists c1. rewrite lookup_insert_ne; [done|]. intros ->. congruence.
    + intros f Hf. pose proof (v_flight _ Hi f Hf) as H. destruct f as [k1 o|t|k1]; [done | done |].
      destruct H as [H|(x & Hx & Hd)]; [by left|]. right. exists x. rewrite Hl. case_bool_decide; [subst; congruence | done].
    + intros k' Hr Hg'. destruct (v_refers _ Hi _ Hr Hg') as (c1 & H1 & H2). exists c1.
      rewrite lookup_insert_ne; [done|]. intros <-. congruence.
    + apply (v_object _ Hi).
    + apply (v_copy _ Hi).
  - split; [|split].
    + split; try done. intros k' x Hx. exists x. rewrite Hl. case_bool_decide; [subst; congruence|]. split; [done | apply evolves_refl].
    + intros pid' Hne. split; intros k'; rewrite Hl.
      * intros x Hx Hs Hp. case_bool_decide; [subst; congruence|]. split; [done|]. by exists x.
      * intros Hg' Hn'. case_bool_decide; [subst; congruence | done].
    + intros k' [o Ho] Hn'. cbn in Hn'. congruence.
Qed.

(** Forgetting a claim whose object is gone and whose writers are all over. *)
Lemma deleteRow_ok pid k w : inv w ->
  (forall c, rows w !! k = Some c -> State c = Deleting -> objects w !! k = None /\ LeaseUntil c + drift <= clock w /\
     settledPublication w c) ->
  inv (deleteRow k (inState Deleting) w).1 /\ guar pid w (deleteRow k (inState Deleting) w).1.
Proof.
  intros Hi H. unfold deleteRow. destruct (rows w !! k) as [c|] eqn:Hc; [|by split; [|apply guar_refl]].
  unfold inState. case_bool_decide as Hd; [|by split; [|apply guar_refl]]. destruct (H c eq_refl Hd) as (Ho & Ht & Hp).
  destruct (v_row _ Hi _ _ Hc) as (EK & Hg & _). cbn. set (w' := mkWorld _ _ _ _ _ _ _ _ _ _ _ _).
  assert (forall k', ledger w' k' = if bool_decide (k' = k) then Some (c, true) else ledger w k') as Hl.
  { intros k'. unfold ledger. cbn. case_bool_decide; [subst; by rewrite lookup_delete_eq, lookup_insert_eq |].
    by rewrite lookup_delete_ne, lookup_insert_ne. }
  pose proof (ledger_row _ _ _ Hc) as Hlc. split.
  - split; cbn.
    + intros k' c1 [Hne H1]%lookup_delete_Some. by apply (v_row _ Hi).
    + intros k' c1 [[<- <-]|[Hne H1]]%lookup_insert_Some.
      * by rewrite lookup_delete_eq.
      * destruct (v_buried _ Hi _ _ H1) as (Hn1 & Hrest). split; [|done]. by rewrite lookup_delete_ne.
    + apply (v_generated _ Hi).
    + intros Hk t k' Hr. destruct (v_recorded _ Hi Hk _ _ Hr) as (H1 & H2 & H3). split; [done|]. split; [done|].
      destruct H3 as [H3|(c1 & H3 & H4)]; [by left|]. destruct (decide (k' = k)) as [->|Hne].
      * left. assert (c1 = c) as -> by congruence. destruct Hp as [Hp|[Hp|Hp]]; [congruence | congruence | done].
      * right. exists c1. by rewrite lookup_delete_ne.
    + intros f Hf. pose proof (v_flight _ Hi f Hf) as Hfl. destruct f as [k1 o|t|k1]; [done | done |].
      destruct Hfl as [Hfl|(x & Hx & Hxd)]; [by left|]. right. unfold deletingAt. rewrite Hl.
      case_bool_decide; [subst; by eexists | by exists x].
    + intros k' Hr Hg'. destruct (v_refers _ Hi _ Hr Hg') as (c1 & H1 & H2). exists c1.
      rewrite lookup_delete_ne; [done|]. intros <-. congruence.
    + apply (v_object _ Hi).
    + apply (v_copy _ Hi).
  - split; [|split].
    + split; try done. intros k' x Hx. rewrite Hl. case_bool_decide; [subst|].
      * rewrite Hlc in Hx. injection Hx as <-. eexists. split; [done|]. split; cbn; try done; congruence.
      * exists x. split; [done | apply evolves_refl].
    + intros pid' Hne. split; intros k'; rewrite Hl.
      * intros x Hx Hs Hpr. split; [done|]. case_bool_decide; [subst|by exists x].
        rewrite Hlc in Hx. injection Hx as <-. by eexists.
      * intros Hg' Hn'. case_bool_decide; [subst; congruence | done].
    + intros k' [o Ho'] Hn'. cbn in Hn'. congruence.
Qed.

(** What a transaction may do to the states: nothing, hold, or delete. *)
Definition moves (s0 s : state) : Prop := s = s0 \/ (s = Held /\ s0 <> Deleting) \/ s = Deleting.

Definition table_step (t t' : table) : Prop :=
  forall k, match t !! k with
            | None => t' !! k = None
            | Some c => exists s, t' !! k = Some (setState s c) /\ moves (State c) s
            end.

Lemma tables_ok (pid : nat) (t : table) r w : inv w -> table_step (rows w) t ->
  (forall k, refers r k -> is_Some (generated w !! k) -> exists c, t !! k = Some c /\ State c = Held) ->
  inv (setTables t r w) /\ guar pid w (setTables t r w).
Proof.
  intros Hi Ht Hr.
  assert (forall k c, rows w !! k = Some c -> exists s, t !! k = Some (setState s c) /\ moves (State c) s) as Hsome.
  { intros k c Hc. specialize (Ht k). by rewrite Hc in Ht. }
  assert (forall k, rows w !! k = None -> t !! k = None) as Hnone.
  { intros k Hc. specialize (Ht k). by rewrite Hc in Ht. }
  assert (forall k c, t !! k = Some c -> exists c0, rows w !! k = Some c0 /\ c = setState (State c) c0 /\ moves (State c0) (State c)) as Hback.
  { intros k c Hc. destruct (rows w !! k) as [c0|] eqn:E; [|apply Hnone in E; congruence].
    destruct (Hsome _ _ E) as (s & H1 & H2). rewrite Hc in H1. injection H1 as ->. by exists c0. }
  assert (forall k x, ledger w k = Some x -> exists y, ledger (setTables t r w) k = Some y /\ moves (State x.1) (State y.1) /\
    y.1 = setState (State y.1) x.1 /\ y.2 = x.2) as Hl.
  { intros k x. unfold ledger. cbn. destruct (rows w !! k) as [c|] eqn:E.
    - intros [= <-]. destruct (Hsome _ _ E) as (s & -> & Hm). by eexists.
    - rewrite (Hnone _ E). destruct (buried w !! k) as [c|] eqn:E'; [|done]. intros [= <-]. eexists. split; [done|]. cbn.
      split; [by left|]. split; [by destruct c | done]. }
  split.
  - split; cbn.
    + intros k c Hc. destruct (Hback _ _ Hc) as (c0 & H0 & E & Hm). destruct (v_row _ Hi _ _ H0) as (H1 & H2 & H3). rewrite E. cbn.
      split; [done|]. split; [done|]. intros Hp. apply H3. unfold moves in Hm. rewrite Hp in Hm. naive_solver.
    + intros k c Hc. destruct (v_buried _ Hi _ _ Hc) as (H1 & H2). split; [by apply Hnone | done].
    + apply (v_generated _ Hi).
    + intros Hk tk k Hrec. destruct (v_recorded _ Hi Hk _ _ Hrec) as (H1 & H2 & H3). split; [done|]. split; [done|].
      destruct H3 as [H3|(c & H3 & H4)]; [by left|]. right. destruct (Hsome _ _ H3) as (s & Hs & _). by eexists.
    + intros f Hf. pose proof (v_flight _ Hi f Hf) as H. destruct f as [k1 o|tk|k1]; [done | done |].
      destruct H as [H|(x & Hx & Hd)]; [by left|]. right. destruct (Hl _ _ Hx) as (y & Hy & Hm & _). exists y. split; [done|].
      unfold moves in Hm. rewrite Hd in Hm. naive_solver.
    + done.
    + apply (v_object _ Hi).
    + apply (v_copy _ Hi).
  - split; [|split].
    + split; try done. intros k x Hx. destruct (Hl _ _ Hx) as (y & Hy & Hm & E1 & E2). exists y. split; [done|].
      split.
      * rewrite E1. cbn. lia.
      * intros Hd. assert (State y.1 = Deleting) as Hy1 by (unfold moves in Hm; rewrite Hd in Hm; naive_solver).
        rewrite E1, Hy1, <- Hd. by destruct x.1.
      * intros Hg. unfold ledger in Hx, Hy. cbn in Hy. destruct (rows w !! k) eqn:E; [by injection Hx as <-|].
        rewrite (Hnone _ E) in Hy. congruence.
      * intros Hh. split; [unfold moves in Hm; rewrite Hh in Hm; naive_solver|]. rewrite E1. done.
    + intros pid' _. split.
      * intros k x Hx Hs Hp. split; [done|]. destruct (Hl _ _ Hx) as (y & Hy & Hm & E1 & E2). exists y. split; [done|].
        split; [unfold moves in Hm; destruct Hm as [->|[[-> _]| ->]]; done|]. by rewrite E1.
      * intros k _ Hn. unfold ledger in *. cbn. destruct (rows w !! k) eqn:E; [done|]. by rewrite (Hnone _ E).
    + intros k [o Ho] Hn. cbn in Hn. congruence.
Qed.

Lemma generated_ok pid k w : inv w -> generated w !! k = None -> ~ staging k -> ~ refers (records w) k ->
  inv (addGenerated k pid w) /\ guar pid w (addGenerated k pid w).
Proof.
  intros Hi Hn Hs Hr. assert (forall k', is_Some (generated w !! k') -> is_Some (<[k := pid]> (generated w) !! k')) as Hg.
  { intros k' [p Hp]. destruct (decide (k' = k)) as [->|]; [congruence|]. rewrite lookup_insert_ne by done. by exists p. }
  split.
  - split; cbn.
    + intros k' c Hc. destruct (v_row _ Hi _ _ Hc) as (H1 & H2 & H3). auto.
    + intros k' c Hc. destruct (v_buried _ Hi _ _ Hc) as (H1 & H2 & H3 & H4). auto.
    + intros k' [p Hp]. apply lookup_insert_Some in Hp as [[<- _]|[_ Hp]]; [done|]. apply (v_generated _ Hi). by exists p.
    + apply (v_recorded _ Hi).
    + apply (v_flight _ Hi).
    + intros k' Hr' [p Hp]. apply lookup_insert_Some in Hp as [[<- _]|[_ Hp]]; [done|]. apply (v_refers _ Hi); [done | by exists p].
    + apply (v_object _ Hi).
    + apply (v_copy _ Hi).
  - split; [|split].
    + split; try done.
      * intros k' x Hx. exists x. split; [done | apply evolves_refl].
      * intros k' p Hp. cbn. rewrite lookup_insert_ne; [done|]. congruence.
    + intros pid' _. split; [|done]. intros k' x Hx Hst Hp. split; [done|]. by exists x.
    + intros k' [o Ho] Hn'. cbn in Hn'. congruence.
Qed.

(** A generated key without a claim. *)
Lemma ungenerated_ledger w k : inv w -> generated w !! k = None -> ledger w k = None.
Proof.
  intros Hi Hn. unfold ledger. destruct (rows w !! k) as [c|] eqn:E; [destruct (v_row _ Hi _ _ E) as (_ & [p Hp] & _); congruence|].
  destruct (buried w !! k) as [c|] eqn:E'; [|done]. destruct (v_buried _ Hi _ _ E') as (_ & _ & [p Hp] & _). congruence.
Qed.
End Inv.
