(* ===== verification/StorageClaimsOps.v ===== *)
(** * Every operation of storage/claims and storage/upload keeps the protocol

    For each operation, from any world the invariant holds of: [wp] of its program, with
    what the caller knows once it has returned. *)

From stdpp Require Import base tactics numbers list strings gmap sets sorting.
From Stdlib Require Import ZArith Lia Ascii.
From S2P Require Import Prelude GoBytes StorageKey StorageOptions StorageStream StorageMemory StorageMemoryFacts.
From S2P Require Import StorageClaims StorageUpload StorageClaimsInv.

Local Open Scope string_scope.
Local Open Scope list_scope.
Local Open Scope Z_scope.
Local Open Scope gombit_scope.

Section Ops.
Context {R : Type}.
Variable kd : kind.
Variable drift : duration.
Variable refers : R -> bytes -> Prop.
Hypothesis Hkd : kd = KPublisher \/ kd = KBoundedWriter.
Hypothesis Hdrift : 2 * drift <= LeaseMargin.

Implicit Types (w : world R) (k t : bytes) (c : Claim) (pid : nat).

Local Abbreviation wp := (wp kd drift refers).
Local Abbreviation inv := (inv kd drift refers).
Local Abbreviation later := (later kd drift).
Local Abbreviation guar := (guar kd drift).
Local Abbreviation perform := (perform kd drift).

(** A program that keeps the protocol, whatever it returns. *)
Definition safe {A} pid (p : prog R A) w : Prop := wp pid p w (fun _ _ => True).

Lemma safe_bind {A B} pid (p : prog R A) (f : A -> prog R B) w : safe pid p w -> (forall a w', safe pid (f a) w') -> safe pid (pbind p f) w.
Proof. intros Hp Hf. apply prog_wp_bind. eapply prog_wp_mono; [exact Hp|]. intros a w' _. apply Hf. Qed.

Lemma safe_ret {A} pid (a : A) w : safe pid (Ret a) w.
Proof. done. Qed.

Lemma wp_safe {A} pid (p : prog R A) w Q : wp pid p w Q -> safe pid p w.
Proof. intros Hp. eapply prog_wp_mono; [exact Hp|done]. Qed.

(** ** Statements *)

Lemma statement_ok {A} pid e w (f : world R -> world R * A) (Q : option A -> world R -> Prop) : inv w ->
  inv (f w).1 -> guar pid w (f w).1 -> (forall w2, later pid (f w).1 w2 -> inv w2 -> Q (Some (f w).2) w2) ->
  (forall w1, inv w1 -> Q None w1) ->
  inv (statement e w f).1 /\ guar pid w (statement e w f).1 /\
  forall w2, later pid (statement e w f).1 w2 -> inv w2 -> Q (statement e w f).2 w2.
Proof.
  intros Hi H1 H2 H3 Hn. unfold statement. destruct (fate e); [destruct (f w) as [w' b]; auto | |].
  - split; [done|]. split; [apply guar_refl | auto].
  - cbn. auto.
Qed.

Lemma wp_Exec pid k where_ set w (Q : option Z -> world R -> Prop) :
  (forall w1, later pid w w1 -> inv w1 ->
     (forall c, rows w1 !! k = Some c -> where_ c = true -> row_step kd pid w1 k c (set c)) /\
     forall w2, later pid (execRow pid k where_ set w1).1 w2 -> inv w2 -> Q (Some (execRow pid k where_ set w1).2) w2) ->
  (forall w1, inv w1 -> Q None w1) ->
  wp pid (ask (Exec k where_ set)) w Q.
Proof.
  intros Hf Hn. apply wp_step. intros w1 e Hl Hi _. destruct (Hf w1 Hl Hi) as [Hs HQ].
  destruct (execRow_ok kd drift refers pid k where_ set w1 Hi Hs). by apply statement_ok.
Qed.

Lemma wp_Find pid k where_ w (Q : option (option Claim) -> world R -> Prop) :
  (forall w1, inv w1 -> Q None w1) ->
  (forall w1, inv w1 -> Q (Some None) w1) ->
  (forall w1 w2 c, inv w1 -> rows w1 !! k = Some c -> where_ c = true -> later pid w1 w2 -> inv w2 -> Q (Some (Some c)) w2) ->
  wp pid (ask (Find k where_)) w Q.
Proof.
  intros H1 H2 H3. apply wp_step. intros w1 e Hl Hi _. apply statement_ok; [done | done | apply guar_refl | | done].
  cbn. intros w2 Hl2 Hi2. destruct (rows w1 !! k) as [c|] eqn:Hc; [|by apply H2].
  destruct (where_ c) eqn:Hw; [by apply (H3 w1) | by apply H2].
Qed.

(** Calls without effect on what the protocol keeps. *)
Lemma safe_Find pid k where_ w : safe pid (ask (Find k where_)) w.
Proof. by apply wp_Find. Qed.

Lemma safe_quiet pid (c : call R) w : (forall e w1, (perform e pid c w1).1 = w1) -> safe pid (ask c) w.
Proof. intros H. apply wp_reads. intros w1 e _ _ _. split; auto. Qed.

Lemma safe_Select pid where_ after n w : safe pid (ask (Select where_ after n)) w.
Proof. apply safe_quiet. intros e w1. cbn. unfold statement. by destruct (fate e). Qed.

Lemma safe_SList pid prefix w : safe pid (ask (SList prefix)) w.
Proof. by apply safe_quiet. Qed.

Lemma safe_SVerify pid k w : safe pid (ask (SVerify k)) w.
Proof. by apply safe_quiet. Qed.

Lemma safe_SUploadURL pid k w : safe pid (ask (SUploadURL k)) w.
Proof. by apply safe_quiet. Qed.

Lemma safe_SOpen pid k w : safe pid (ask (SOpen k)) w.
Proof. apply safe_quiet. intros e w1. cbn. by destruct (fate e), (objects w1 !! k). Qed.

Lemma safe_fence pid t w : safe pid (ask (SFence t)) w.
Proof.
  apply wp_step. intros w1 e _ Hi _. cbn. destruct kd; try (split; [done|]; split; [apply guar_refl | done]).
  destruct (fence_ok KPublisher drift refers pid w1 t Hi).
  destruct (fate e); cbn; (split; [done|]; split; [done || apply guar_refl | done]).
Qed.

Lemma wp_SDelete pid k w (Q : option serror -> world R -> Prop) :
  (forall w1, later pid w w1 -> inv w1 -> staging k \/ deletingAt w1 k) ->
  (forall w1, inv w1 -> forall e, Q (Some e) w1) ->
  (forall w1 w2, later pid w w1 -> inv w1 -> later pid (setObjects (delete k (objects w1)) w1) w2 -> inv w2 -> Q None w2) ->
  wp pid (ask (SDelete k)) w Q.
Proof.
  intros Hk He Hn. apply wp_step. intros w1 e Hl Hi _. specialize (Hk w1 Hl Hi). cbn.
  destruct (delete_ok kd drift refers pid w1 k Hi Hk). destruct (flight_ok kd drift refers pid w1 (WDelete k) Hi Hk).
  destruct (fate e); cbn; (split; [done|]; split; [done || apply guar_refl|]); intros w2 Hl2 Hi2; eauto.
Qed.

Lemma safe_SDelete_staging pid k w : staging k -> safe pid (ask (SDelete k)) w.
Proof. intros Hk. apply wp_SDelete; auto. Qed.

Lemma staging_StagingKey k : staging (StagingKey k).
Proof. unfold staging, StagingKey. apply HasPrefix_true. by exists k. Qed.

(** ** Deleting *)

(** A deleting claim stays what it is, with its row or without. *)
Definition dying w k c : Prop := exists g, ledger w k = Some (c, g) /\ State c = Deleting.

Lemma dying_later w w' k c : later0 kd drift w w' -> dying w k c -> dying w' k c.
Proof.
  intros Hl (g & Hx & Hd). destruct (l_ledger _ _ _ _ Hl _ _ Hx) as ([c' g'] & Hy & He). pose proof (e_deleting _ _ He Hd) as E.
  cbn in E. subst c'. by exists g'.
Qed.

Lemma dying_deleting w k c : dying w k c -> deletingAt w k.
Proof. intros (g & Hx & Hd). by exists (c, g). Qed.

Lemma settled_later w w' c : later0 kd drift w w' -> settledPublication kd w c -> settledPublication kd w' c.
Proof. intros Hl [|[|]]; [by left | right; left; by apply (l_fenced _ _ _ _ Hl) | by right; right]. Qed.

Lemma wp_SFence pid t w (Q : option serror -> world R -> Prop) :
  (forall w1, inv w1 -> forall e, Q (Some e) w1) ->
  (forall w1 w2 w3, later pid w w1 -> same_tables w1 w2 -> later0 kd drift w1 w2 -> later pid w2 w3 -> inv w3 ->
     t ∈ fenced w3 \/ kd <> KPublisher -> Q None w3) ->
  wp pid (ask (SFence t)) w Q.
Proof.
  intros He Hn. apply wp_step. intros w1 e Hl Hi _. cbn. destruct Hkd as [E|E].
  - rewrite E in *. destruct (fence_ok KPublisher drift refers pid w1 t Hi) as [H1 H2]. destruct (fate e); cbn.
    + split; [done|]. split; [done|]. intros w2 Hl2 Hi2. apply (Hn w1 (addFence t w1)); [done | by split; cbn; set_solver | apply H2 | done | done|].
      left. apply (l_fenced _ _ _ _ (proj1 Hl2)). cbn. set_solver.
    + split; [done|]. split; [apply guar_refl | auto].
    + split; [done|]. split; [done | auto].
  - rewrite E in *. cbn. split; [done|]. split; [apply guar_refl|]. intros w2 Hl2 Hi2.
    apply (Hn w1 w1); [done | by split | apply later0_refl | done | done | by right].
Qed.

Lemma safe_forget pid k c ended w : dying w k c ->
  (ended = true -> LeaseUntil c + drift <= clock w /\ settledPublication kd w c /\ objects w !! k = None) ->
  safe pid (forget k ended) w.
Proof.
  intros Hd He. unfold forget. destruct ended; [|done]. destruct (He eq_refl) as (Ht & Hp & Ho). cbn [negb]. apply safe_bind.
  - apply wp_step. intros w1 e Hl Hi _.
    pose proof (dying_later _ _ _ _ (proj1 Hl) Hd) as (g & Hg & Hs). destruct Hd as (g0 & Hg0 & _).
    assert (sealed kd drift w k) as Hse by by exists (c, g0).
    destruct (deleteRow_ok kd drift refers pid k w1 Hi) as [H1 H2].
    { intros c1 Hc1 _. rewrite (ledger_row _ _ _ Hc1) in Hg. injection Hg as -> _.
      split; [by apply (l_sealed _ _ _ _ (proj1 Hl))|]. split; [pose proof (l_clock _ _ _ _ (proj1 Hl)); lia|].
      by apply (settled_later _ _ _ (proj1 Hl)). }
    by apply (statement_ok pid e w1 (deleteRow k (inState Deleting)) (fun _ _ => True)).
  - intros [[]|] w'; done.
Qed.

Lemma safe_remove pid k c staged ended w : dying w k c -> settledPublication kd w c ->
  (ended = true -> LeaseUntil c + drift <= clock w) -> safe pid (remove k staged ended) w.
Proof.
  intros Hd Hp Ht. unfold remove. apply prog_wp_bind. apply wp_SDelete.
  - intros w1 Hl Hi. right. eapply dying_deleting, dying_later; [apply Hl | exact Hd].
  - intros w1 Hi e. apply safe_ret.
  - intros w1 w2 Hl Hi Hl2 Hi2.
    pose proof (dying_later _ _ _ _ (proj1 Hl) Hd) as Hd1. destruct (delete_ok kd drift refers pid w1 k Hi (or_intror (dying_deleting _ _ _ Hd1))) as [_ Hg].
    assert (later0 kd drift w1 w2) as Hl12 by (eapply later0_trans; [apply Hg | apply Hl2]).
    assert (later0 kd drift w w2) as Hl02 by (eapply later0_trans; [apply Hl | done]).
    assert (ended = true -> LeaseUntil c + drift <= clock w2 /\ settledPublication kd w2 c /\ objects w2 !! k = None) as Hend.
    { intros He. specialize (Ht He). split; [pose proof (l_clock _ _ _ _ Hl02); lia|]. split; [by apply (settled_later _ _ _ Hl02)|].
      destruct Hd1 as (g & Hg1 & Hs). apply (l_sealed _ _ _ _ (proj1 Hl2)).
      - exists (c, g). split; [done|]. split; [done|]. cbn. split; [pose proof (l_clock _ _ _ _ (proj1 Hl)); lia|].
        apply (settled_later _ _ _ (proj1 Hl)) in Hp. done.
      - cbn. apply lookup_delete_eq. }
    pose proof (dying_later _ _ _ _ Hl02 Hd) as Hd2.
    destruct staged; [|by eapply safe_forget].
    apply prog_wp_bind. apply wp_SDelete.
    + intros. left. apply staging_StagingKey.
    + intros; apply safe_ret.
    + intros w3 w4 Hl3 Hi3 Hl4 Hi4.
      destruct (delete_ok kd drift refers pid w3 (StagingKey k) Hi3 (or_introl (staging_StagingKey k))) as [_ Hg3].
      assert (later0 kd drift w2 w4) as Hl24 by (eapply later0_trans; [apply Hl3 | eapply later0_trans; [apply Hg3 | apply Hl4]]).
      eapply safe_forget; [by eapply dying_later|]. intros He. destruct (Hend He) as (H1 & H2 & H3).
      split; [pose proof (l_clock _ _ _ _ Hl24); lia|]. split; [by apply (settled_later _ _ _ Hl24)|].
      apply (l_sealed _ _ _ _ Hl24); [|done]. destruct Hd2 as (g & Hg2 & Hs). by exists (c, g).
Qed.

Lemma safe_Finish pid k w : safe pid (Finish k) w.
Proof.
  unfold Finish. apply prog_wp_bind. apply wp_Find; [done | done|].
  intros w1 w2 c Hi Hc Hw Hl Hi2. unfold inState in Hw. apply bool_decide_eq_true in Hw.
  assert (dying w2 k c) as Hd. { eapply dying_later; [apply Hl|]. exists false. by rewrite (ledger_row _ _ _ Hc). }
  clear w w1 Hi Hc Hl. cbn beta iota. apply prog_wp_bind. apply wp_reads.
  intros w3 e Hl3 Hi3 He. cbn in He. split; [done|]. intros w4 Hl4 Hi4. cbn [perform snd].
  assert (later0 kd drift w2 w4) as Hl24 by (eapply later0_trans; [apply Hl3 | apply Hl4]).
  pose proof (dying_later _ _ _ _ Hl24 Hd) as Hd4.
  set (ended := negb (Before (reading e) (Add (LeaseUntil c) LeaseMargin))).
  assert (ended = true -> LeaseUntil c + drift <= clock w4) as Hend.
  { intros H. unfold ended in H. apply negb_true_iff, Before_false in H. unfold Add in H.
    pose proof (l_clock _ _ _ _ (proj1 Hl4)). lia. }
  clearbody ended. case_bool_decide as Hp.
  - eapply safe_remove; [done | by left | done].
  - apply prog_wp_bind. apply wp_SFence.
    + intros; apply safe_ret.
    + intros w5 w5' w6 Hl5 _ Hl5' Hl6 Hi6 Hf.
      assert (later0 kd drift w4 w6) as Hl46 by (eapply later0_trans; [apply Hl5 | eapply later0_trans; [done | apply Hl6]]).
      eapply safe_remove; [by eapply dying_later | by right|]. intros H. pose proof (l_clock _ _ _ _ Hl46). specialize (Hend H). lia.
Qed.

Lemma row_step_state pid w k c s : State c = Pending_ \/ State c = Promoting -> s <> Pending_ -> row_step kd pid w k c (setState s c).
Proof. intros Hf Hs. split; cbn; auto; try lia; try congruence. Qed.

Lemma safe_Abandon pid k w : safe pid (Abandon k) w.
Proof.
  unfold Abandon, transition. apply safe_bind.
  - apply safe_bind; [|intros [n|] w'; [by destruct (n =? 1) | done]].
    apply wp_Exec; [|done]. intros w1 _ Hi. split; [|done]. intros c Hc Hw. apply row_step_state; [|done].
    unfold movable in Hw. cbn in Hw. rewrite andb_true_r in Hw. apply bool_decide_eq_true in Hw. set_solver.
  - intros [e|] w'.
    + destruct e as [| | |k' []| | | | | | | | | | | | | |]; apply safe_ret.
    + apply safe_bind; [apply safe_Finish|]. by intros [] w2.
Qed.

Lemma safe_abandonAll pid keys w err : safe pid (abandonAll keys err) w.
Proof.
  revert w err. induction keys as [|k keys IH]; intros w err; [done|]. cbn [abandonAll]. apply safe_bind; [apply safe_Abandon|]. intros a w'. apply IH.
Qed.

Lemma safe_quiet_Log pid e w : safe pid (ask (LogWarn e)) w.
Proof. by apply safe_quiet. Qed.

Lemma safe_finishAll pid keys w : safe pid (finishAll keys) w.
Proof.
  revert w. induction keys as [|k keys IH]; intros w; [done|]. cbn [finishAll]. apply safe_bind; [apply safe_Finish|]. intros [b|e] w'; [apply IH|].
  apply safe_bind; [apply safe_quiet_Log|]. auto.
Qed.

(** ** The transaction of [Update] *)

Lemma moves_trans s1 s2 s3 : moves s1 s2 -> moves s2 s3 -> moves s1 s3.
Proof. unfold moves. destruct s1, s2, s3; naive_solver. Qed.

Lemma setState_id c : setState (State c) c = c.
Proof. by destruct c. Qed.

Lemma table_step_refl (t : table) : table_step t t.
Proof. intros k. destruct (t !! k) as [c|]; [|done]. exists (State c). rewrite setState_id. split; [done | by left]. Qed.

Lemma table_step_trans (t1 t2 t3 : table) : table_step t1 t2 -> table_step t2 t3 -> table_step t1 t3.
Proof.
  intros H1 H2 k. specialize (H1 k). specialize (H2 k). destruct (t1 !! k) as [c|]; [|by rewrite H1 in H2].
  destruct H1 as (s & E & Hm). rewrite E in H2. destruct H2 as (s' & E' & Hm'). exists s'. split; [by rewrite E'|].
  by eapply moves_trans.
Qed.

Lemma table_step_insert (t : table) k c s : t !! k = Some c -> moves (State c) s -> table_step t (<[k := setState s c]> t).
Proof.
  intros Hc Hm k'. destruct (decide (k' = k)) as [->|Hne].
  - rewrite Hc, lookup_insert_eq. by exists s.
  - rewrite lookup_insert_ne by done. apply (table_step_refl t k').
Qed.

Lemma movable_from from unstaged c : movable from unstaged c = true -> State c ∈ from.
Proof. unfold movable. intros [H _]%andb_true_iff. by apply bool_decide_eq_true in H. Qed.

Lemma from_open s : s ∈ [Pending_; Promoting] -> s <> Held /\ s <> Deleting.
Proof. intros H. assert (s = Pending_ \/ s = Promoting) as [->| ->] by set_solver; done. Qed.

Lemma Hold_step k (t : table) (r : R) (t' : table) r' a : Hold k (t, r) = Ok (t', r', a) ->
  r' = r /\ table_step t t' /\ (exists c, t' !! k = Some c /\ State c = Held) /\ forall k', k' <> k -> t' !! k' = t !! k'.
Proof.
  unfold Hold, transitionTx. destruct (t !! k) as [c|] eqn:Hc; [|done]. destruct (movable _ _ c) eqn:Hm; [|done]. intros [= <- <- _].
  apply movable_from in Hm. split; [done|]. split; [|split].
  - apply table_step_insert; [done|]. right. left. split; [done | by apply from_open].
  - rewrite lookup_insert_eq. by eexists.
  - intros k' Hne. by rewrite lookup_insert_ne.
Qed.

Lemma holdAll_step keys : forall (t : table) (r : R) (t' : table) r' a, holdAll keys (t, r) = Ok (t', r', a) ->
  r' = r /\ table_step t t' /\ (forall k, k ∈ keys -> exists c, t' !! k = Some c /\ State c = Held) /\
  forall k c, t !! k = Some c -> State c = Held -> t' !! k = Some c.
Proof.
  induction keys as [|k keys IH]; intros t r t' r' a H; cbn [holdAll] in H.
  - injection H as <- <- _. split; [done|]. split; [apply table_step_refl|]. split; [|done]. by intros k ?%not_elem_of_nil.
  - destruct (Hold k (t, r)) as [[[t1 r1] b]|] eqn:Hh; [|done].
    assert (forall c, t !! k = Some c -> State c <> Held) as Hnot.
    { intros c Hc. unfold Hold, transitionTx in Hh. rewrite Hc in Hh. destruct (movable _ _ c) eqn:Hm; [|done].
      apply movable_from in Hm. by apply from_open. }
    destruct (Hold_step _ _ _ _ _ _ Hh) as (-> & Hs1 & Hk & Hrest).
    destruct (IH _ _ _ _ _ H) as (-> & Hs2 & Hks & Hkeep). split; [done|]. split; [by eapply table_step_trans|]. split.
    + intros k' [->|Hin]%elem_of_cons; [|by apply Hks]. destruct Hk as (c & Hc & Hh'). exists c. split; [|done]. by apply Hkeep.
    + intros k' c Hc Hst. apply Hkeep; [|done]. rewrite Hrest; [done|]. intros ->. by eapply Hnot.
Qed.

Lemma release_step k (t : table) (r : R) (t' : table) r' b : release k (t, r) = Ok (t', r', b) ->
  r' = r /\ table_step t t' /\ forall k', k' <> k -> t' !! k' = t !! k'.
Proof.
  unfold release, Release, transitionTx. destruct (t !! k) as [c|] eqn:Hc.
  - destruct (movable _ _ c) eqn:Hm.
    + intros [= <- <- <-]. split; [done|]. split; [apply table_step_insert; [done | by right; right]|].
      intros k' Hne. by rewrite lookup_insert_ne.
    + rewrite bool_decide_eq_true_2 by by eexists. done.
  - rewrite bool_decide_eq_false_2 by (rewrite <- eq_None_not_Some; done). intros [= <- <- <-].
    split; [done|]. split; [apply table_step_refl | done].
Qed.

Lemma releaseAll_step keys : forall (t : table) (r : R) (t' : table) r' a, releaseAll keys (t, r) = Ok (t', r', a) ->
  r' = r /\ table_step t t' /\ forall k, (k ∉ keys) -> t' !! k = t !! k.
Proof.
  induction keys as [|k keys IH]; intros t r t' r' a H; cbn [releaseAll] in H.
  - injection H as <- <- _. split; [done|]. split; [apply table_step_refl | done].
  - destruct (release k (t, r)) as [[[t1 r1] b]|] eqn:Hr; [|done]. destruct (release_step _ _ _ _ _ _ Hr) as (-> & Hs & Hrest).
    destruct (releaseAll keys (t1, r)) as [[[t2 r2] l]|] eqn:Hrs; [|done]. injection H as <- <- _.
    destruct (IH _ _ _ _ _ Hrs) as (-> & Hs2 & Hrest2). split; [done|]. split; [by eapply table_step_trans|].
    intros k' Hn. apply not_elem_of_cons in Hn as [Hne Hn]. rewrite Hrest2 by done. by apply Hrest.
Qed.

Lemma pick_elem k keys other seen : k ∈ pick keys other seen -> k ∈ keys /\ (k ∉ other) /\ (k ∉ seen).
Proof.
  revert seen. induction keys as [|k0 keys IH]; intros seen; cbn; [by intros ?%not_elem_of_nil|].
  destruct (negb _ && negb _) eqn:E.
  - intros [->|Hin]%elem_of_cons.
    + apply andb_true_iff in E as [E1 E2]. apply negb_true_iff, bool_decide_eq_false in E1. apply negb_true_iff, bool_decide_eq_false in E2.
      split; [apply list_elem_of_here | done].
    + apply IH in Hin as (H1 & H2 & H3). apply not_elem_of_cons in H3 as [_ H3]. split; [by apply list_elem_of_further | done].
  - intros Hin. apply IH in Hin as (H1 & H2 & H3). apply not_elem_of_cons in H3 as [_ H3]. split; [by apply list_elem_of_further | done].
Qed.

(** The record written refers to what it did, less what is released, and to what is held. *)
Definition disciplined (hold release : list bytes) (fn : R -> result cerror R) : Prop :=
  forall r r', fn r = Ok r' -> forall k, refers r' k ->
    k ∈ (changed hold release).1 \/ (refers r k /\ (k ∉ (changed hold release).2)).

Lemma updateTx_ok pid (hold release : list bytes) (fn : R -> result cerror R) w (t : table) (r : R) a : inv w -> disciplined hold release fn ->
  updateTx (changed hold release).1 (changed hold release).2 fn (rows w, records w) = Ok (t, r, a) ->
  inv (setTables t r w) /\ guar pid w (setTables t r w).
Proof.
  intros Hi Hfn. unfold updateTx. destruct (holdAll _ _) as [[[t1 r1] b]|] eqn:Hh; [|done].
  destruct (holdAll_step _ _ _ _ _ _ Hh) as (-> & Hs1 & Hheld & Hkeep). destruct (fn (records w)) as [r2|] eqn:Hf; [|done]. intros Hr.
  destruct (releaseAll_step _ _ _ _ _ _ Hr) as (-> & Hs2 & Hrest). apply tables_ok; [done | by eapply table_step_trans|].
  intros k Hk Hg. destruct (Hfn _ _ Hf k Hk) as [Hin|[Hold' Hn]].
  - rewrite Hrest; [by apply Hheld|]. intros Hin2. cbn in Hin, Hin2. apply pick_elem in Hin as (H1 & H2 & _). apply pick_elem in Hin2 as (H3 & _). done.
  - rewrite Hrest by done. destruct (v_refers _ _ _ _ Hi _ Hold' Hg) as (c & Hc & Hst). exists c. split; [|done]. by apply Hkeep.
Qed.

Lemma safe_Update pid hold release fn w : disciplined hold release fn -> safe pid (Update hold release fn) w.
Proof.
  intros Hfn. unfold Update. rewrite (surjective_pairing (changed hold release)). apply safe_bind.
  - apply wp_step. intros w1 e _ Hi _. cbn.
    assert (forall f, inv (match updateTx (changed hold release).1 (changed hold release).2 fn (rows w1, records w1) with
        | Err x => (w1, Err x) | Ok (t, r, a) => (setTables t r w1, match f with Lost => Err EDatabase | _ => Ok a end) end : world R * result cerror (list bytes)).1 /\
      guar pid w1 (match updateTx (changed hold release).1 (changed hold release).2 fn (rows w1, records w1) with
        | Err x => (w1, Err x) | Ok (t, r, a) => (setTables t r w1, match f with Lost => Err EDatabase | _ => Ok a end) end : world R * result cerror (list bytes)).1) as H.
    { intros f. destruct (updateTx _ _ _ _) as [[[t r] a]|x] eqn:E; [by eapply updateTx_ok | by split; [|apply guar_refl]]. }
    destruct (fate e); [destruct (H Answered) | by split; [|split; [apply guar_refl|]] | destruct (H Lost)]; auto.
  - intros [released|err] w'; (apply safe_bind; [apply safe_abandonAll || apply safe_finishAll|]); done.
Qed.

(** ** Sweeps *)

Lemma safe_eachKeyOf {S} pid (fn : bytes -> S -> prog R S) keys s w : (forall k s w, safe pid (fn k s) w) -> safe pid (eachKeyOf fn keys s) w.
Proof.
  intros Hfn. revert s w. induction keys as [|k keys IH]; intros s w; [done|]. cbn [eachKeyOf]. apply safe_bind; [apply Hfn|]. intros a w'. apply IH.
Qed.

Lemma safe_eachKey {S} pid fuel batch where_ (fn : bytes -> S -> prog R S) after s w : (forall k s w, safe pid (fn k s) w) ->
  safe pid (eachKey fuel batch where_ fn after s) w.
Proof.
  intros Hfn. revert after s w. induction fuel as [|fuel IH]; intros after s w; [done|]. cbn [eachKey]. apply safe_bind; [by apply safe_quiet|].
  intros [e|] w1; [done|]. apply safe_bind; [apply safe_Select|]. intros [keys|] w2; [|done].
  apply safe_bind; [by apply safe_eachKeyOf|]. intros s' w3. destruct (_ <? _)%nat; [done | apply IH].
Qed.

Lemma safe_sweepStale pid k s w : safe pid (sweepStale k s) w.
Proof. destruct s as [res errs]. apply safe_bind; [apply safe_Abandon|]. intros [[] [e|]] w'; apply safe_ret. Qed.

Lemma safe_sweepDeleting pid k s w : safe pid (sweepDeleting k s) w.
Proof. destruct s as [res errs]. apply safe_bind; [apply safe_Finish|]. intros [[]|e] w'; apply safe_ret. Qed.

Lemma safe_Now pid w : safe pid (ask Now) w.
Proof. by apply safe_quiet. Qed.

Lemma safe_Sweep pid fuel grace w : safe pid (Sweep fuel grace) w.
Proof.
  apply safe_bind; [apply safe_Now|]. intros t w1. apply safe_bind; [apply safe_Now|]. intros now w2.
  apply safe_bind; [apply safe_eachKey; intros; apply safe_sweepStale|].
  intros [[[res errs] [e|]]|] w3; [apply safe_ret | | apply safe_ret].
  apply safe_bind; [apply safe_eachKey; intros; apply safe_sweepDeleting|].
  intros [[[res' errs'] [e|]]|] w4; apply safe_ret.
Qed.

(** What a listing of the staging prefix names is staged. *)
Lemma listed_staging w o : inv w -> o ∈ snapshot StagingPrefix (objects w) -> staging (oKey o).
Proof.
  intros Hi. unfold snapshot. rewrite (merge_sort_Permutation info_le), list_elem_of_fmap. intros ([k ob] & -> & Hin).
  apply list_elem_of_filter in Hin as [Hp Hin]. apply elem_of_map_to_list in Hin. cbn. by rewrite (v_object _ _ _ _ Hi _ _ Hin).
Qed.

Lemma safe_sweepStaged pid infos s w : (forall o, o ∈ infos -> staging (oKey o)) -> safe pid (sweepStaged infos s) w.
Proof.
  revert s w. induction infos as [|o infos IH]; intros [deleted errs] w Hs; [done|]. cbn [sweepStaged].
  assert (forall s w, safe pid (sweepStaged infos s) w) as IH'.
  { intros s' w'. apply IH. intros o' Ho. apply Hs. by apply list_elem_of_further. }
  apply safe_bind; [apply safe_Find|]. intros [found|] w1; [|apply IH'].
  destruct (match found with None => true | Some _ => _ end); [|apply IH'].
  apply safe_bind; [apply safe_SDelete_staging, Hs, list_elem_of_here|]. intros [e|] w2; apply IH'.
Qed.

Lemma safe_SweepStaging pid w : safe pid SweepStaging w.
Proof.
  apply prog_wp_bind. apply wp_reads. intros w1 e _ Hi _. split; [done|]. intros w2 _ _.
  assert (forall o, o ∈ (perform e pid (SList StagingPrefix) w1).2.1 -> staging (oKey o)) as Hs.
  { cbn. intros o. destruct (fate e); cbn; [by apply listed_staging | by intros ?%not_elem_of_nil | by apply listed_staging]. }
  destruct (perform e pid (SList StagingPrefix) w1).2 as [infos err]. apply safe_bind; [by apply safe_sweepStaged|].
  intros s w3. destruct err; apply safe_ret.
Qed.

Lemma safe_Lookup pid k w : safe pid (Lookup k) w.
Proof. apply safe_bind; [apply safe_Find|]. intros [] w'; apply safe_ret. Qed.

(** ** Claiming *)

(** A process that promoted the claim of [k], with the copy it recorded. *)
Definition owned pid k pub until w : Prop :=
  promoter w !! k = Some pid /\
  exists x, ledger w k = Some x /\ State x.1 <> Pending_ /\ Publication x.1 = pub /\ until <= LeaseUntil x.1.

Lemma owned_later pid k pub until w w' : later pid w w' -> owned pid k pub until w -> owned pid k pub until w'.
Proof.
  intros [Hl Ho] (Hp & x & Hx & Hs & Hpub & Hu). destruct (o_promoter _ _ _ Ho _ _ Hx Hs Hp) as (Hp' & y & Hy & Hys & Hyp).
  destruct (l_ledger _ _ _ _ Hl _ _ Hx) as (y' & Hy' & He). assert (y' = y) as -> by congruence. split; [done|].
  exists y. split; [done|]. split; [done|]. split; [congruence|]. pose proof (e_lease _ _ He). lia.
Qed.

(** A lease of [k] until at least [until]. *)
Definition leased k until w : Prop := exists x, ledger w k = Some x /\ until <= LeaseUntil x.1.

Lemma leased_later k until w w' : later0 kd drift w w' -> leased k until w -> leased k until w'.
Proof.
  intros Hl (x & Hx & Hu). destruct (l_ledger _ _ _ _ Hl _ _ Hx) as (y & Hy & He). exists y. split; [done|]. pose proof (e_lease _ _ He). lia.
Qed.

Lemma leased_unsealed k until w : leased k until w -> inTime drift (Some until) w = true -> ~ sealed kd drift w k.
Proof. intros (x & Hx & Hu) Ht. by eapply in_time_unsealed. Qed.

Lemma owned_leased pid k pub until w : owned pid k pub until w -> leased k until w.
Proof. intros (_ & x & Hx & _ & _ & Hu). by exists x. Qed.

(** A key this process generated and has not claimed. *)
Definition unclaimed pid k w : Prop := generated w !! k = Some pid /\ ledger w k = None.

Lemma unclaimed_later pid k w w' : later pid w w' -> unclaimed pid k w -> unclaimed pid k w'.
Proof. intros [Hl Ho] [Hg Hn]. split; [by apply (l_generated _ _ _ _ Hl) | by apply (o_fresh _ _ _ Ho)]. Qed.

Lemma wp_insert pid k scope until staged w : unclaimed pid k w ->
  wp pid (insert kd k scope until staged) w (fun r w' => r = None -> leased k until w').
Proof.
  intros Hu. unfold insert. destruct (checkOwnable kd); [done|]. destruct (_ <? _); [done|]. destruct (_ <? _); [done|].
  apply prog_wp_bind. eapply prog_wp_mono; [|].
  { apply (wp_reads kd drift refers pid Now w (fun _ w' => unclaimed pid k w')). intros w1 e Hl Hi _. split; [done|].
    intros w2 Hl2 Hi2. eapply unclaimed_later; [|exact Hu]. by eapply rely_trans. }
  intros now w1 Hu1. apply prog_wp_bind. set (c := mkClaim k Pending_ now until staged scope []).
  apply wp_step. intros w2 e Hl Hi _. pose proof (unclaimed_later _ _ _ _ Hl Hu1) as [Hg Hn].
  assert (rows w2 !! k = None /\ buried w2 !! k = None) as [Hr Hb].
  { unfold ledger in Hn. destruct (rows w2 !! k); [done|]. by destruct (buried w2 !! k). }
  destruct (createRow_ok kd drift refers pid c w2 Hi) as [H1 H2]; [done | done | done | done|].
  apply (statement_ok pid e w2 (createRow c) (fun r w' => wp pid (match r with None => Ret (Some EDatabase) | Some n => if n =? 0 then Ret (Some (ErrClaimed k)) else Ret None end) w' (fun r w' => r = None -> leased k until w')));
    [done | done | done | | done].
  intros w3 Hl3 Hi3. unfold createRow in *. cbn [Key] in *. change (Key c) with k in *. rewrite Hr in *. cbn [fst snd Z.eqb] in *. intros w4 Hl4 Hi4 _.
  assert (leased k until (setRows (<[k := c]> (rows w2)) w2)) as Hlease.
  { exists (c, false). split; [apply ledger_row; cbn; apply lookup_insert_eq | cbn; lia]. }
  eapply leased_later; [apply Hl4|]. eapply leased_later; [apply Hl3 | done].
Qed.

Lemma execRow_hit pid k where_ set w c : rows w !! k = Some c -> where_ c = true ->
  execRow pid k where_ set w = (updated pid k c (set c) w, 1).
Proof. intros Hc Hw. unfold execRow. by rewrite Hc, Hw. Qed.

Lemma execRow_miss pid k where_ set w : (forall c, rows w !! k = Some c -> where_ c = false) -> execRow pid k where_ set w = (w, 0).
Proof. intros H. unfold execRow. destruct (rows w !! k) as [c|]; [|done]. by rewrite (H c eq_refl). Qed.

(** What an UPDATE found: the row it changed, or none. *)
Lemma execRow_cases pid k where_ set w :
  (exists c, rows w !! k = Some c /\ where_ c = true /\ execRow pid k where_ set w = (updated pid k c (set c) w, 1)) \/
  execRow pid k where_ set w = (w, 0).
Proof.
  destruct (rows w !! k) as [c|] eqn:Hc.
  - destruct (where_ c) eqn:Hw; [left; exists c; auto using execRow_hit|]. right. apply execRow_miss. congruence.
  - right. apply execRow_miss. congruence.
Qed.

Lemma wp_Promote pid k scope until w : wp pid (Promote k scope until) w (fun r w' => r = Ok true -> owned pid k [] until w').
Proof.
  unfold Promote. apply prog_wp_bind. apply wp_Exec; [|done]. intros w1 Hl Hi. split.
  - intros c Hc Hw. unfold promotable in Hw. apply andb_true_iff in Hw as [[Hs _]%andb_true_iff _]. apply bool_decide_eq_true in Hs.
    split; cbn; auto; try congruence. destruct (_ <? _) eqn:E; [apply Z.ltb_lt in E; lia | lia].
  - intros w2 Hl2 Hi2. destruct (execRow_cases pid k (promotable scope) (promoted until) w1) as [(c & Hc & Hw & E)|E]; rewrite E in *; cbn in *; [|done].
    intros w3 Hl3 Hi3 _. eapply owned_later; [exact Hl3|]. eapply owned_later; [exact Hl2|].
    unfold promotable in Hw. apply andb_true_iff in Hw as [[Hs _]%andb_true_iff _]. apply bool_decide_eq_true in Hs. split.
    + cbn. rewrite bool_decide_eq_true_2 by (split; congruence). apply lookup_insert_eq.
    + eexists. split; [rewrite updated_ledger, bool_decide_eq_true_2; done|]. cbn. split; [done|].
      split; [by apply (v_row _ _ _ _ Hi _ _ Hc)|]. destruct (_ <? _) eqn:E'; [lia | apply Z.ltb_ge in E'; lia].
Qed.

(** The row of a claim this process promoted. *)
Lemma owned_row pid k pub until w c : owned pid k pub until w -> rows w !! k = Some c -> Publication c = pub /\ promoter w !! k = Some pid /\ until <= LeaseUntil c.
Proof. intros (Hp & x & Hx & _ & Hpub & Hu) Hc. rewrite (ledger_row _ _ _ Hc) in Hx. by injection Hx as <-. Qed.

Lemma wp_Publishing pid k token until w : owned pid k [] until w -> token <> [] ->
  (kd = KPublisher -> exists o, copies w !! token = Some (k, o)) ->
  wp pid (Publishing k token) w (fun r w' => r = None -> owned pid k token until w' /\ (kd = KPublisher -> recorded w' !! token = Some k)).
Proof.
  intros Ho Ht Hcp. unfold Publishing. destruct (_ <? _); [done|]. apply prog_wp_bind. apply wp_Exec; [|done].
  intros w1 Hl Hi. pose proof (owned_later _ _ _ _ _ _ Hl Ho) as Ho1. split.
  - intros c Hc Hw. unfold inState in Hw. apply bool_decide_eq_true in Hw. destruct (owned_row _ _ _ _ _ _ Ho1 Hc) as (Hp & Hpr & _).
    split; cbn; auto; try lia; try congruence. intros Hk _ _. destruct (Hcp Hk) as (o & Hc'). exists o. by apply (l_copies _ _ _ _ (proj1 Hl)).
  - intros w2 Hl2 Hi2. destruct (execRow_cases pid k (inState Promoting) (setPublication token) w1) as [(c & Hc & Hw & E)|E]; rewrite E in *; cbn [fst snd] in *; [|done].
    intros w3 Hl3 Hi3 _. destruct (owned_row _ _ _ _ _ _ Ho1 Hc) as (Hp & Hpr & Hlease). unfold inState in Hw. apply bool_decide_eq_true in Hw. split.
    + eapply owned_later; [exact Hl3|]. eapply owned_later; [exact Hl2|]. split.
      * cbn. rewrite bool_decide_eq_false_2 by (intros []; congruence). done.
      * eexists. split; [rewrite updated_ledger, bool_decide_eq_true_2; done|]. cbn. rewrite Hw. done.
    + intros Hk. apply (l_recorded _ _ _ _ (proj1 Hl3) Hk), (l_recorded _ _ _ _ (proj1 Hl2) Hk). cbn.
      rewrite bool_decide_eq_true_2 by (split; congruence). apply lookup_insert_eq.
Qed.

Lemma safe_Unpromote pid k pub until w : owned pid k pub until w -> pub = [] \/ pub ∈ fenced w \/ kd <> KPublisher -> safe pid (Unpromote k) w.
Proof.
  intros Ho Hp. unfold Unpromote. apply safe_bind; [|by intros [] w'; apply safe_ret].
  apply wp_Exec; [|done]. intros w1 Hl Hi. split; [|done]. pose proof (owned_later _ _ _ _ _ _ Hl Ho) as Ho1.
  intros c Hc Hw. unfold inState in Hw. apply bool_decide_eq_true in Hw. destruct (owned_row _ _ _ _ _ _ Ho1 Hc) as (E & Hpr & _).
  split; cbn; auto; try lia; try congruence. rewrite E. right. destruct Hp as [|[|]]; auto. right. left. by apply (l_fenced _ _ _ _ (proj1 Hl)).
Qed.

(** ** The store's writes *)

(** A copy of the staged object of [k] that was prepared. *)
Definition prepared k token w : Prop :=
  token <> [] /\
  (kd = KPublisher -> exists o, copies w !! token = Some (k, o)) /\
  (kd = KBoundedWriter -> Problem (StagingKey k) = None /\ token = fallbackToken ++ StagingKey k ++ newline :: k).

Lemma prepared_later k token w w' : later0 kd drift w w' -> prepared k token w -> prepared k token w'.
Proof. intros Hl (H1 & H2 & H3). split; [done|]. split; [|done]. intros Hk. destruct (H2 Hk) as (o & Ho). exists o. by apply (l_copies _ _ _ _ Hl). Qed.

Lemma ValidateKey_Problem key : ValidateKey key = None -> Problem key = None.
Proof. unfold ValidateKey. by destruct (Problem key). Qed.

Lemma wp_SPrepare pid k pub until w (Q : result (serror * bytes) bytes -> world R -> Prop) : owned pid k pub until w ->
  (forall w1 e token, inv w1 -> owned pid k pub until w1 -> token = [] \/ prepared k token w1 -> Q (Err (e, token)) w1) ->
  (forall w1 token, inv w1 -> owned pid k pub until w1 -> prepared k token w1 -> Q (Ok token) w1) ->
  wp pid (ask (SPrepare (StagingKey k) k)) w Q.
Proof.
  intros Ho He HQ. apply wp_step. intros w1 e Hl Hi [Ht1 Ht2].
  assert (forall w2, later pid w1 w2 -> owned pid k pub until w2) as Ho2.
  { intros w2 Hl2. eapply owned_later; [|exact Ho]. by eapply rely_trans. }
  destruct Hkd as [E|E].
  - assert (forall o w2, later pid (addCopy (madeToken e) k (relabel k o) w1) w2 -> inv w2 ->
      owned pid k pub until w2 /\ prepared k (madeToken e) w2) as Hcopy.
    { intros o w2 Hl2 Hi2. split.
      - eapply owned_later; [exact Hl2|]. destruct (Ho2 w1 (rely_refl _ _ _ _)) as (Hp & x & Hx). split; [done|]. exists x. done.
      - split; [done|]. rewrite E. split; [|done]. intros _. eexists. apply (l_copies _ _ _ _ (proj1 Hl2)). cbn. apply lookup_insert_eq. }
    rewrite E in *. cbn [StorageClaims.perform].
    destruct (fate e), (objects w1 !! StagingKey k) as [o|] eqn:Hobj; cbn [fst snd];
      try (split; [done|]; split; [apply guar_refl|]; intros w2 Hl2 Hi2; apply He; auto; by left).
    + destruct (copy_ok KPublisher drift refers pid w1 (madeToken e) k (relabel k o) Hi Ht2 eq_refl) as [H1 H2].
      split; [done|]. split; [done|]. intros w2 Hl2 Hi2. destruct (Hcopy o w2 Hl2 Hi2). by apply HQ.
    + destruct (copy_ok KPublisher drift refers pid w1 (madeToken e) k (relabel k o) Hi Ht2 eq_refl) as [H1 H2].
      split; [done|]. split; [done|]. intros w2 Hl2 Hi2. destruct (Hcopy o w2 Hl2 Hi2). apply He; auto.
  - rewrite E in *. cbn [StorageClaims.perform PreparePublish CheckOwnable fst snd]. split; [done|]. split; [apply guar_refl|]. intros w2 Hl2 Hi2.
    destruct (ValidateKey (StagingKey k)) eqn:V1; [by apply He; auto|]. destruct (ValidateKey k) eqn:V2; [by apply He; auto|].
    apply HQ; auto. split; [done|]. rewrite E. split; [done|]. intros _. split; [by apply ValidateKey_Problem | done].
Qed.

Lemma owned_same pid k pub until w w' : same_tables w w' -> owned pid k pub until w -> owned pid k pub until w'.
Proof. intros Hs (Hp & x & Hx). split; [by rewrite (s_promoter _ _ Hs)|]. exists x. by rewrite (same_ledger _ _ _ Hs). Qed.

Lemma wp_SPublish pid k token until w (Q : result serror ObjectInfo -> world R -> Prop) :
  owned pid k token until w -> prepared k token w -> (kd = KPublisher -> recorded w !! token = Some k) ->
  (forall r w1, inv w1 -> owned pid k token until w1 -> Q r w1) -> wp pid (ask (SPublish token until)) w Q.
Proof.
  intros Ho Hp Hr HQ. apply wp_step. intros w1 e Hl Hi _.
  pose proof (owned_later _ _ _ _ _ _ Hl Ho) as Ho1. destruct (prepared_later _ _ _ _ (proj1 Hl) Hp) as (Ht & Hc & Hb).
  assert (forall w' r, inv w' /\ guar pid w1 w' -> same_tables w1 w' ->
    inv w' /\ guar pid w1 w' /\ forall w2, later pid w' w2 -> inv w2 -> Q r w2) as Hend.
  { intros w' r [H1 H2] Hs. split; [done|]. split; [done|]. intros w2 Hl2 Hi2. apply HQ; [done|]. eapply owned_later; [exact Hl2|]. by eapply owned_same. }
  assert (forall r, inv w1 /\ guar pid w1 w1 /\ forall w2, later pid w1 w2 -> inv w2 -> Q r w2) as Hsame.
  { intros r. apply Hend; [|by split]. split; [done | apply guar_refl]. }
  destruct Hkd as [E|E].
  - assert (is_Some (recorded w1 !! token)) as Hrec. { exists k. apply (l_recorded _ _ _ _ (proj1 Hl)); auto. }
    destruct (Hc E) as (o & Ho'). rewrite E in *. cbn [StorageClaims.perform]. unfold publishCopy. rewrite Ho'.
    destruct (fate e); cbn [fst snd].
    + case_bool_decide as Hf; cbn [fst snd]; [done|]. apply Hend; [by eapply landed_ok | apply objects_same].
    + done.
    + apply Hend; [by apply flight_ok|by split].
  - destruct (Hb E) as [Hk Etoken]. rewrite E in *. cbn [StorageClaims.perform]. unfold publishBounded. rewrite Etoken.
    destruct (token_keys (StagingKey k) k Hk) as [-> ->]. cbn [negb].
    destruct (negb (bool_decide _)); [done|]. destruct (objects w1 !! StagingKey k) as [o|]; [|done].
    destruct (inTime drift (Some until) w1) eqn:Ht1; cbn [negb]; [|done]. destruct (objects w1 !! k); [done|].
    apply Hend; [apply put_ok; [done | done|] | apply objects_same].
    pose proof (leased_unsealed k until w1 (owned_leased _ _ _ _ _ Ho1) Ht1) as H. by rewrite E in H.
Qed.

Lemma safe_SPut pid k data ct md deadline w :
  (forall w1, later pid w w1 -> inv w1 -> inTime drift deadline w1 = true -> ~ sealed kd drift w1 k) ->
  (kd = KPublisher -> staging k) -> safe pid (ask (SPut k data ct md deadline)) w.
Proof.
  intros Hs Hp. apply wp_step. intros w1 e Hl Hi _. cbn [StorageClaims.perform].
  assert (inv w1 /\ guar pid w1 w1 /\ (forall w2, later pid w1 w2 -> inv w2 -> True)) as Hsame.
  { split; [done|]. split; [apply guar_refl | done]. }
  destruct (fate e).
  - destruct (inTime drift deadline w1) eqn:Ht; [|done].
    destruct (put_ok kd drift refers pid w1 k (putObject e k data ct md w1) Hi eq_refl (Hs w1 Hl Hi Ht)). auto.
  - done.
  - destruct Hkd as [E|E]; rewrite E in *; [|done].
    destruct (flight_ok KPublisher drift refers pid w1 (WPut k (putObject e k data ct md w1)) Hi); [by split; [apply Hp|]|]. auto.
Qed.

Lemma generated_not_staging (prefix id : bytes) : HasPrefix prefix StagingPrefix = false -> length id = 32%nat -> ("/"%char ∉ id) -> ~ staging (prefix ++ id).
Proof.
  intros Hp Hlen Hid Hs. apply HasPrefix_true in Hs as [r Hr]. destruct (decide (length StagingPrefix <= length prefix)%nat) as [Hle|Hgt].
  - apply not_true_iff_false in Hp. apply Hp, HasPrefix_true. exists (drop (length StagingPrefix) prefix).
    assert (take (length StagingPrefix) (prefix ++ id) = take (length StagingPrefix) (StagingPrefix ++ r)) as E by by rewrite Hr.
    rewrite take_app_le, take_app_length in E by done. rewrite <- E at 1. by rewrite take_drop.
  - apply Hid. assert ((prefix ++ id) !! 8%nat = Some "/"%char) as H by (rewrite Hr; done).
    change (length StagingPrefix) with 9%nat in Hgt. rewrite lookup_app_r in H by lia. by eapply list_elem_of_lookup_2.
Qed.

Lemma wp_RandomKey pid prefix w (Q : option bytes -> world R -> Prop) : HasPrefix prefix StagingPrefix = false ->
  (forall w1, inv w1 -> Q None w1) -> (forall w1 k, inv w1 -> unclaimed pid k w1 -> Q (Some k) w1) ->
  wp pid (ask (RandomKey prefix)) w Q.
Proof.
  intros Hp Hn HQ. apply wp_step. intros w1 e Hl Hi He. cbn [StorageClaims.perform].
  destruct (madeID e) as [id|] eqn:Hid; cbn [fst snd]; [|by split; [|split; [apply guar_refl | auto]]].
  destruct (He id Hid) as (Hlen & _ & Hsl & Hg & Hr).
  destruct (generated_ok kd drift refers pid (prefix ++ id) w1 Hi Hg (generated_not_staging _ _ Hp Hlen Hsl) Hr) as [H1 H2].
  split; [done|]. split; [done|]. intros w2 Hl2 Hi2. apply HQ; [done|]. eapply unclaimed_later; [exact Hl2|]. split.
  - cbn. apply lookup_insert_eq.
  - change (ledger w1 (prefix ++ id) = None). by eapply ungenerated_ledger.
Qed.

(** ** The operations of storage/upload *)

Lemma safe_unpromote pid k pub until err w : owned pid k pub until w -> pub = [] \/ pub ∈ fenced w \/ kd <> KPublisher -> safe pid (unpromote k err) w.
Proof. intros Ho Hp. unfold unpromote. apply safe_bind; [by eapply safe_Unpromote|]. intros a w'. apply safe_ret. Qed.

Lemma safe_fence_ret {A} pid t (f : bool -> prog R A) w : (forall b w, safe pid (f b) w) -> safe pid (pbind (fence t) f) w.
Proof. intros Hf. apply safe_bind; [apply safe_bind; [apply safe_fence | intros; apply safe_ret]|]. auto. Qed.

(** What only moves forward is still so after a program. *)
Lemma prog_wp_keep {A} pid (p : prog R A) w (P : world R -> Prop) (Q : A -> world R -> Prop) :
  (forall w1 w2, later0 kd drift w1 w2 -> P w1 -> P w2) -> P w -> wp pid p w Q -> wp pid p w (fun a w' => P w' /\ Q a w').
Proof.
  intros HP. revert w. induction p as [a|c k IH]; intros w Hw Hp; cbn in *.
  - intros w1 Hl Hi. split; [by eapply HP; [apply Hl|] | by apply Hp].
  - intros w1 Hl Hi e He. destruct (Hp w1 Hl Hi e He) as (H1 & H2 & H3). split; [done|]. split; [done|]. apply IH; [|done].
    eapply HP; [apply H2|]. eapply HP; [apply Hl | done].
Qed.

Lemma safe_promote pid k deadline w : owned pid k [] deadline w -> safe pid (promote k deadline) w.
Proof.
  intros Ho. unfold promote. apply prog_wp_bind. eapply wp_SPrepare; [exact Ho | |]; clear w Ho.
  - intros w e token Hi Ho Ht. case_bool_decide as E.
    + apply safe_bind; [by eapply safe_unpromote; [|left]|]. intros; apply safe_ret.
    + destruct Ht as [Ht|(H1 & H2 & _)]; [done|]. apply safe_bind; [by eapply wp_safe, wp_Publishing|].
      intros [perr|] w'; [|apply safe_ret]. apply safe_fence_ret. intros; apply safe_ret.
  - intros w token Hi Ho Hp. apply prog_wp_bind. eapply prog_wp_mono.
    { apply (prog_wp_keep pid (Publishing k token) w (prepared k token)); [|exact Hp|].
      - intros w1 w2 Hl. by apply prepared_later.
      - apply (wp_Publishing pid k token deadline); [exact Ho | apply Hp | apply Hp]. }
    intros r w1 [Hp1 Hr]. destruct r as [err|]; [apply safe_fence_ret; intros; apply safe_ret|].
    destruct (Hr eq_refl) as [Ho1 Hrec]. apply prog_wp_bind. eapply wp_SPublish; [exact Ho1 | exact Hp1 | exact Hrec|].
    intros res w2 Hi2 Ho2. destruct res as [info|e].
    + apply safe_bind; [apply safe_SDelete_staging, staging_StagingKey|]. intros; apply safe_ret.
    + destruct (_ || _); [apply safe_ret|]. apply prog_wp_bind. unfold fence. apply prog_wp_bind. apply wp_SFence.
      * intros w3 _ e'. intros w4 _ _. apply safe_ret.
      * intros w3 w3' w4 Hl3 Hs3 _ Hl4 Hi4 Hf w5 Hl5 Hi5.
        assert (owned pid k token deadline w5) as Ho5.
        { eapply owned_later; [exact Hl5|]. eapply owned_later; [exact Hl4|]. eapply owned_same; [exact Hs3|]. by eapply owned_later. }
        apply safe_bind; [|intros; apply safe_ret]. eapply safe_unpromote; [exact Ho5|]. right.
        destruct Hf as [Hf|Hf]; [left; by apply (l_fenced _ _ _ _ (proj1 Hl5)) | by right].
Qed.

Section Uploads.
Variable parseMedia : bytes -> option (bytes * bool).
Variable detectContentType : bytes -> bytes.
Variable encodedLen : bytes -> Z.
Variable verifies : bool.

Lemma safe_discard pid p k w : Claims p = true -> safe pid (discard p k) w.
Proof. intros Hc. unfold discard. rewrite Hc. apply safe_bind; [apply safe_Abandon|]. intros; apply safe_ret. Qed.

Lemma safe_unclaim pid p k w : safe pid (unclaim p k) w.
Proof.
  unfold unclaim. destruct (Claims p) eqn:Hc; [|apply safe_ret]. apply safe_bind; [by apply safe_discard|]. intros; apply safe_ret.
Qed.

Lemma safe_unclaim_ret {A} pid p k (a : A) w : safe pid (ask! _ <- unclaim p k; Ret a) w.
Proof. apply safe_bind; [apply safe_unclaim|]. intros; apply safe_ret. Qed.

Lemma safe_reject pid k (d : option (prog R (option cerror))) err w : (forall q, d = Some q -> forall w, safe pid q w) -> safe pid (reject k d err) w.
Proof. intros Hd. unfold reject. destruct d as [q|]; [|apply safe_ret]. apply safe_bind; [by apply Hd|]. intros; apply safe_ret. Qed.

(** Checking an object changes nothing but what [discard] does: the claim stays owned. *)
Lemma wp_check pid key p (d : option (prog R (option cerror))) w (P : world R -> Prop) :
  (forall w1 w2, later pid w1 w2 -> P w1 -> P w2) -> (forall w1 w2, same_tables w1 w2 -> P w1 -> P w2) ->
  d = None \/ (exists k, staging k /\ d = Some (ask! err <- ask (SDelete k); Ret (EStore <$> err))) -> P w ->
  wp pid (check parseMedia detectContentType verifies key p d) w (fun _ w' => P w').
Proof.
  intros Hl Hs Hd HP. unfold check.
  assert (forall err w, P w -> wp pid (reject key d err) w (fun _ w' => P w')) as Hreject.
  { intros err w1 HP1. unfold reject. destruct Hd as [->|(k & Hk & ->)]; [intros w2 Hl2 Hi2; by eapply Hl|].
    apply prog_wp_bind. apply prog_wp_bind. apply wp_step. intros w2 e Hl2 Hi2 _. cbn [StorageClaims.perform].
    destruct (delete_ok kd drift refers pid w2 k Hi2 (or_introl Hk)). destruct (flight_ok kd drift refers pid w2 (WDelete k) Hi2 (or_introl Hk)).
    assert (P w2) as HP2 by by eapply Hl.
    destruct (fate e); cbn [fst snd]; (split; [done|]; split; [done || apply guar_refl|]);
      intros w3 Hl3 Hi3 w4 Hl4 Hi4 w5 Hl5 Hi5; (eapply Hl; [exact Hl5|]; eapply Hl; [exact Hl4|]; eapply Hl; [exact Hl3|]);
      [apply (Hs w2); [apply objects_same | done] | done | apply (Hs w2); [by split | done]]. }
  assert (forall (r : result cerror ObjectInfo) w, P w -> wp pid (Ret r) w (fun _ w' => P w')) as Hret.
  { intros r w1 HP1 w2 Hl2 Hi2. by eapply Hl. }
  apply prog_wp_bind. apply wp_reads. intros w1 e Hl1 Hi1 _. split; [cbn; by destruct (fate e), (objects w1 !! key)|].
  intros w2 Hl2 Hi2. assert (P w2) as HP2 by (eapply Hl; [exact Hl2|]; by eapply Hl).
  destruct (StorageClaims.perform kd drift e pid (SOpen key) w1).2 as [[o [rerr|]]|x]; [by apply Hret | | by apply Hret].
  destruct (_ <? _); [by apply Hreject|].
  assert (forall w, P w -> wp pid (if checkTypes parseMedia detectContentType p o then Ret (Ok (oinfo o)) else reject key d ErrType) w (fun _ w' => P w')) as Htypes.
  { intros w3 HP3. destruct (checkTypes _ _ p o); [by apply Hret | by apply Hreject]. }
  destruct verifies; [|by apply Htypes]. apply prog_wp_bind. apply wp_reads. intros w3 e3 Hl3 Hi3 _. split; [done|]. intros w4 Hl4 Hi4.
  assert (P w4) as HP4 by (eapply Hl; [exact Hl4|]; by eapply Hl).
  destruct (StorageClaims.perform kd drift e3 pid (SVerify key) w3).2 as [x|]; [|by apply Htypes].
  destruct (Is x ErrInvalidOptions); [by apply Hreject | by apply Hret].
Qed.

Lemma safe_check_only pid key p w : safe pid (check parseMedia detectContentType verifies key p None) w.
Proof. apply (wp_check pid key p None w (fun _ => True)); auto. Qed.

Lemma safe_Confirm pid key p w : Claims p = true -> safe pid (Confirm parseMedia detectContentType encodedLen verifies key p) w.
Proof.
  intros Hc. unfold Confirm. destruct (negb (validate _ _ p)); [apply safe_ret|]. destruct (_ || _); [apply safe_ret|]. rewrite Hc. cbn [negb].
  apply safe_bind; [apply safe_Now|]. intros now w1. set (deadline := Add now (uploadTimeout p)).
  apply prog_wp_bind. eapply prog_wp_mono; [apply wp_Promote|]. intros r w2 Hr. destruct r as [[]|e]; [| |apply safe_ret].
  - specialize (Hr eq_refl). apply prog_wp_bind. eapply prog_wp_mono.
    { apply (wp_check pid (StagingKey key) p _ w2 (owned pid key [] deadline)); [| | |exact Hr].
      - intros w3 w4. apply owned_later.
      - intros w3 w4. apply owned_same.
      - right. exists (StagingKey key). split; [apply staging_StagingKey | done]. }
    intros [info|e] w3 Ho; [by apply safe_promote|]. apply safe_bind; [by eapply safe_unpromote; [|left]|]. intros; apply safe_ret.
  - apply safe_bind; [apply safe_Lookup|]. intros [[scope|]|e] w3; [|apply safe_ret|apply safe_ret].
    case_bool_decide; [apply safe_check_only | apply safe_ret].
Qed.

Lemma validate_prefix p : validate parseMedia encodedLen p = true -> HasPrefix (Prefix p) StagingPrefix = false.
Proof. unfold validate. destruct (HasPrefix (Prefix p) StagingPrefix); [|done]. by repeat case_match. Qed.

Lemma safe_Authorize pid p size ct w : Claims p = true -> safe pid (Authorize parseMedia encodedLen kd p size ct) w.
Proof.
  intros Hc. unfold Authorize. destruct (validate parseMedia encodedLen p) eqn:Hv; [|apply safe_ret]. cbn [negb]. apply validate_prefix in Hv.
  destruct (_ <? _); [apply safe_ret|]. destruct (_ <? _); [apply safe_ret|].
  destruct (parseMediaType parseMedia ct) as [mt|]; [|apply safe_ret]. case_bool_decide; [apply safe_ret|].
  destruct (negb (accepts p mt)); [apply safe_ret|]. apply prog_wp_bind. apply wp_RandomKey; [done | intros; apply safe_ret|].
  intros w1 key Hi1 Hu. rewrite Hc. destruct (CheckOwnable kd); [apply safe_ret|].
  apply prog_wp_bind. apply wp_reads. intros w2 e Hl2 Hi2 _. split; [done|]. intros w3 Hl3 Hi3.
  apply safe_bind.
  - eapply wp_safe, wp_insert. eapply unclaimed_later; [exact Hl3|]. by eapply unclaimed_later.
  - intros [e'|] w4; [apply safe_ret|]. apply safe_bind; [apply safe_SUploadURL|]. intros [e'|] w5; [apply safe_unclaim_ret | apply safe_ret].
Qed.

Lemma safe_saveFile pid p data ct md w : Claims p = true -> HasPrefix (Prefix p) StagingPrefix = false -> safe pid (saveFile kd p data ct md) w.
Proof.
  intros Hc Hp. unfold saveFile. apply prog_wp_bind. apply wp_RandomKey; [done | intros; apply safe_ret|].
  intros w1 key Hi1 Hu. rewrite Hc.
  assert (forall w info, safe pid (ask! derr <- discard p key;
            match derr with Some d => Ret (Err (EJoin (EStore info) (CleanupError key d))) | None => Ret (Err (EStore (settled key info))) end :
            prog R (result cerror ObjectInfo)) w) as Hdis.
  { intros w2 info. apply safe_bind; [by apply safe_discard|]. intros [d|] w3; apply safe_ret. }
  apply prog_wp_bind. apply wp_reads. intros w2 e Hl2 Hi2 _. split; [done|]. intros w3 Hl3 Hi3. cbn [StorageClaims.perform snd].
  set (deadline := Add (reading e) (uploadTimeout p)).
  assert (unclaimed pid key w3) as Hu3 by (eapply unclaimed_later; [exact Hl3|]; by eapply unclaimed_later).
  destruct Hkd as [E|E].
  - rewrite E. cbn [CheckOwnable]. rewrite <- E. apply prog_wp_bind. eapply prog_wp_mono; [by apply wp_insert|].
    intros [err|] w4 Hl4; [apply safe_ret|]. apply safe_bind.
    + apply safe_SPut; [|intros; apply staging_StagingKey]. intros w5 _ Hi5 _ Hse. eapply sealed_not_staging; [done | exact Hse | apply staging_StagingKey].
    + intros [info|e'] w5.
      * apply prog_wp_bind. eapply prog_wp_mono; [apply wp_Promote|]. intros r w6 Hr.
        destruct r as [[]|e6]; [by apply safe_promote, Hr | apply safe_unclaim_ret | apply safe_unclaim_ret].
      * destruct (Is e' ErrUnknownOutcome); [apply Hdis | apply safe_unclaim_ret].
  - rewrite E. cbn [CheckOwnable]. rewrite <- E. apply prog_wp_bind. eapply prog_wp_mono; [by apply wp_insert|].
    intros [err|] w4 Hl4; [apply safe_ret|]. specialize (Hl4 eq_refl). apply safe_bind.
    + apply safe_SPut; [|congruence]. intros w5 Hl5 Hi5 Ht. eapply leased_unsealed; [|exact Ht]. eapply leased_later; [apply Hl5 | exact Hl4].
    + intros [info|e'] w5; [apply safe_ret|]. destruct (Is e' ErrUnknownOutcome); [apply Hdis | apply safe_unclaim_ret].
Qed.
End Uploads.
End Ops.
