(* ===== verification/StorageClaimsRuns.v ===== *)
(** * Ownership of stored files, over every interleaving

    Processes start at any time, each with one operation of storage/claims or
    storage/upload, make their calls one at a time in any order, and may stop between two
    calls for ever.  Meanwhile time passes, clients write staged objects, and a remote store
    carries out what was sent to it.

    The second part has the protocol's operations alone, and concrete runs. *)

From stdpp Require Import base tactics numbers list strings gmap sets sorting relations.
From Stdlib Require Import ZArith Lia Ascii.
From S2P Require Import Prelude GoBytes StorageKey StorageOptions StorageStream StorageMemory StorageMemoryFacts StorageClaims StorageUpload StorageClaimsInv StorageClaimsOps.

Local Open Scope string_scope.
Local Open Scope list_scope.
Local Open Scope Z_scope.
Local Open Scope gombit_scope.

Section Pool.
Context {R : Type}.
Variable kd : kind.
Variable drift : duration.
Variable refers : R -> bytes -> Prop.
Variable parseMedia : bytes -> option (bytes * bool).
Variable detectContentType : bytes -> bytes.
Variable encodedLen : bytes -> Z.
Variable verifies : bool.

(** A program whose result nobody waits for. *)
Definition process {A} (p : prog R A) : prog R unit := ask! _ <- p; Ret tt.

(** The operations an application calls, under a policy with Claims. *)
Inductive operation : prog R unit -> Prop :=
| op_save p data ct md : Claims p = true -> validate parseMedia encodedLen p = true -> operation (process (saveFile kd p data ct md))
| op_authorize p size ct : Claims p = true -> operation (process (Authorize parseMedia encodedLen kd p size ct))
| op_confirm p key : Claims p = true -> operation (process (Confirm parseMedia detectContentType encodedLen verifies key p))
| op_update hold release fn : disciplined refers hold release fn -> operation (process (Update hold release fn))
| op_abandon key : operation (process (Abandon key))
| op_finish key : operation (process (Finish key))
| op_sweep fuel grace : operation (process (Sweep fuel grace))
| op_sweep_staging : operation (process SweepStaging)
| op_lookup key : operation (process (Lookup key)).

Abbreviation config := (world R * gmap nat (prog R unit))%type.

Definition atTime (t : time) (w : world R) : world R :=
  mkWorld R t (rows w) (records w) (objects w) (flight w) (copies w) (fenced w) (buried w) (generated w) (promoter w) (recorded w).

Inductive step : config -> config -> Prop :=
| step_start pid p w ps : ps !! pid = None -> operation p -> step (w, ps) (w, <[pid := p]> ps)
| step_call pid c k w ps e : ps !! pid = Some (Vis c k) -> env_ok drift refers e c w ->
    step (w, ps) ((perform kd drift e pid c w).1, <[pid := k (perform kd drift e pid c w).2]> ps)
| step_stop pid w ps : step (w, ps) (w, delete pid ps)
| step_land f w ps : f ∈ flight w -> step (w, ps) (land f w, ps)
| step_client key o w ps : staging key -> oKey (oinfo o) = key ->
    step (w, ps) (setObjects (<[key := o]> (objects w)) w, ps)
| step_tick t w ps : clock w <= t -> step (w, ps) (atTime t w, ps).

(** Before the protocol: objects under their keys and records, and no claim. *)
Definition start (t : time) (objs : gmap bytes object) (r : R) : world R :=
  mkWorld R t ∅ r objs [] ∅ ∅ ∅ ∅ ∅ ∅.

Definition named (objs : gmap bytes object) : Prop := forall k o, objs !! k = Some o -> oKey (oinfo o) = k.

Definition reachable (x : config) : Prop :=
  exists t objs r, named objs /\ rtc step (start t objs r, ∅) x.

(** ** The invariant of the pool *)

Local Abbreviation inv := (inv kd drift refers).
Local Abbreviation later := (later kd drift).
Local Abbreviation safe := (safe kd drift refers).

Definition pool_ok (x : config) : Prop := inv x.1 /\ forall pid p, x.2 !! pid = Some p -> safe pid p x.1.

Section Steps.
Hypothesis Hkd : kd = KPublisher \/ kd = KBoundedWriter.
Hypothesis Hdrift : 2 * drift <= LeaseMargin.

Lemma start_inv t objs r : named objs -> inv (start t objs r).
Proof.
  intros Hn. split; cbn.
  - intros k c. by rewrite lookup_empty.
  - intros k c. by rewrite lookup_empty.
  - intros k. rewrite lookup_empty. by intros [].
  - intros _ tk k. by rewrite lookup_empty.
  - by intros f ?%not_elem_of_nil.
  - intros k _. rewrite lookup_empty. by intros [].
  - exact Hn.
  - intros tk k o. by rewrite lookup_empty.
Qed.

Lemma operation_safe pid p w : operation p -> safe pid p w.
Proof.
  intros Hop. assert (forall A (q : prog R A), safe pid q w -> safe pid (process q) w) as Hpr.
  { intros A q Hq. apply safe_bind; [done|]. intros; apply safe_ret. }
  destruct Hop; apply Hpr.
  - apply safe_saveFile; [done | done|done | by eapply validate_prefix].
  - by apply safe_Authorize.
  - by apply safe_Confirm.
  - by apply safe_Update.
  - by apply safe_Abandon.
  - by apply safe_Finish.
  - by apply safe_Sweep.
  - apply safe_SweepStaging.
  - apply safe_Lookup.
Qed.

Lemma tick_ok t w : inv w -> clock w <= t -> inv (atTime t w) /\ forall pid, guar kd drift pid w (atTime t w).
Proof.
  intros Hi Ht. split.
  - destruct Hi. split; try done. intros k c Hc. destruct (v_buried _ _ Hc) as (H1 & H2 & H3 & H4 & H5 & H6).
    do 4 (split; [done|]). split; [cbn; lia | done].
  - intros pid. split; [|split].
    + split; try done. intros k x Hx. exists x. split; [done | apply evolves_refl].
    + intros pid' _. split; [|done]. intros k x Hx Hs Hp. split; [done|]. by exists x.
    + intros k [o Ho] Hn. cbn in Hn. congruence.
Qed.

(** What a step does to every process but the one that made it. *)
Lemma land_ok f w : inv w -> f ∈ flight w -> inv (land f w) /\ forall pid, guar kd drift pid w (land f w).
Proof.
  intros Hi Hf. pose proof (v_flight _ _ _ _ Hi f Hf) as Hv. destruct f as [k o|tk|k]; cbn.
  - destruct Hv as [Hs Hk]. assert (~ sealed kd drift w k) as Hse by (intros H; by eapply sealed_not_staging).
    pose proof (fun pid => put_ok kd drift refers pid w k o Hi Hk Hse) as H. split; [apply (H 0%nat) | intros pid; apply (H pid)].
  - destruct Hv as [Hp Hr]. destruct (copies w !! tk) as [[dst o]|] eqn:Hc; [|by split; [|intros; apply guar_refl]].
    case_bool_decide as Hfe; [by split; [|intros; apply guar_refl]|]. 
    pose proof (fun pid => landed_ok kd drift refers pid w tk dst o Hi Hp Hr Hc Hfe) as H. split; [apply (H 0%nat) | intros pid; apply (H pid)].
  - pose proof (fun pid => delete_ok kd drift refers pid w k Hi Hv) as H. split; [apply (H 0%nat) | intros pid; apply (H pid)].
Qed.

Lemma step_ok' x y : pool_ok x -> step x y -> pool_ok y /\ later0 kd drift x.1 y.1 /\ spared x.1 y.1.
Proof.
  intros [Hi Hs] Hst. assert (forall w w' (ps : gmap nat (prog R unit)), inv w -> (forall pid p, ps !! pid = Some p -> safe pid p w) -> inv w' -> (forall pid, guar kd drift pid w w') ->
    pool_ok (w', ps) /\ later0 kd drift w w' /\ spared w w') as Hothers.
  { intros w w' ps Hi0 Hs0 Hi' Hg. split; [|split; apply (Hg 0%nat)]. split; [done|]. intros pid p Hp. cbn in *.
    apply (wp_later _ _ _ pid p w); [|by apply Hs0]. apply (guar_later _ _ (S pid)); [lia | apply Hg]. }
  inversion Hst as [pid p w ps Hn Hop|pid c k w ps e Hp He|pid w ps|f w ps Hf|key o w ps Hk Ho|t w ps Ht]; subst; cbn in *.
  - split; [split; [done|]|split; [apply later0_refl | intros k [o Ho] H'; congruence]].
    cbn. intros pid' p' [[<- <-]|[_ Hp]]%lookup_insert_Some; [by apply operation_safe | by apply Hs].
  - destruct (Hs pid _ Hp w (rely_refl _ _ _ _) Hi e He) as (Hi' & Hg & Hk).
    split; [|split; apply Hg]. split; [done|]. cbn. intros pid' p' [[<- <-]|[Hne Hp']]%lookup_insert_Some; [done|].
    apply (wp_later _ _ _ pid' p' w); [|by apply Hs]. by apply (guar_later _ _ pid).
  - split; [split; [done|]|split; [apply later0_refl | intros k [o Ho] H'; congruence]].
    cbn. intros pid' p' [_ Hp]%lookup_delete_Some. by apply Hs.
  - destruct (land_ok f w Hi Hf). by apply (Hothers w).
  - assert (~ sealed kd drift w (oKey (oinfo o))) as Hse by (intros H; by eapply sealed_not_staging).
    pose proof (fun pid => put_ok kd drift refers pid w _ o Hi eq_refl Hse) as H.
    apply (Hothers w); [done | done | apply (H 0%nat) | intros pid; apply (H pid)].
  - destruct (tick_ok t w Hi Ht). by apply (Hothers w).
Qed.

Lemma steps_ok x y : pool_ok x -> rtc step x y -> pool_ok y /\ later0 kd drift x.1 y.1.
Proof.
  intros Hx Hs. induction Hs as [x|x y z Hxy _ IH]; [split; [done | apply later0_refl]|].
  destruct (step_ok' x y Hx Hxy) as (Hy & Hl & _). destruct (IH Hy) as [Hz Hl']. split; [done | by eapply later0_trans].
Qed.

Lemma reachable_ok x : reachable x -> pool_ok x.
Proof.
  intros (t & objs & r & Hn & Hs). eapply steps_ok; [|exact Hs]. split; [by apply start_inv|]. cbn. intros pid p. by rewrite lookup_empty.
Qed.

Lemma held_not_deleting w k : inv w -> refers (records w) k -> ~ deletingAt w k.
Proof.
  intros Hi Hr (x & Hx & Hd). assert (is_Some (generated w !! k)) as Hg.
  { destruct (generated w !! k) as [p|] eqn:E; [by exists p|]. rewrite (ungenerated_ledger kd drift refers w k Hi E) in Hx. done. }
  destruct (v_refers _ _ _ _ Hi k Hr Hg) as (c & Hc & Hh). rewrite (ledger_row _ _ _ Hc) in Hx. injection Hx as <-. cbn in Hd. congruence.
Qed.

(** C2. A file a record refers to is never deleted: over every interleaving of uploads,
    confirmations, record changes, cleanups and sweeps, with calls refused or their answers
    lost, processes that stop half-way and requests a remote store carries out late, no step
    removes the object of a key that a record refers to. *)
Theorem referred_file_kept x y k : reachable x -> step x y ->
  refers (records x.1) k -> ~ staging k -> is_Some (objects x.1 !! k) -> is_Some (objects y.1 !! k).
Proof.
  intros Hx Hs Hr Hk Ho. pose proof (reachable_ok _ Hx) as Hok. destruct (step_ok' _ _ Hok Hs) as (_ & _ & Hsp).
  destruct (objects y.1 !! k) eqn:E; [by eexists|]. destruct (Hsp k Ho E) as [H|H]; [done|].
  by destruct (held_not_deleting x.1 k (proj1 Hok) Hr).
Qed.

(** A claim that is being deleted stays so: no record ever takes its key, and once its row
    is gone no object is at the key, nor appears there again, whatever uploads and copies
    were under way, since the tombstone outlives the lease on every clock and the copy was
    fenced. *)
Theorem deleting_is_final x y k c : reachable x -> rtc step x y -> rows x.1 !! k = Some c -> State c = Deleting ->
  ~ refers (records y.1) k /\
  (rows y.1 !! k = Some c \/
   rows y.1 !! k = None /\ objects y.1 !! k = None /\ forall z, rtc step y z -> rows z.1 !! k = None /\ objects z.1 !! k = None).
Proof.
  intros Hx Hs Hc Hd. pose proof (reachable_ok _ Hx) as Hok. destruct (steps_ok _ _ Hok Hs) as [Hy Hl].
  assert (dying y.1 k c) as Hdy. { eapply dying_later; [exact Hl|]. exists false. by rewrite (ledger_row _ _ _ Hc). }
  split; [intros Hr; eapply held_not_deleting; [apply Hy | exact Hr | by eapply dying_deleting]|].
  destruct (rows y.1 !! k) as [c'|] eqn:E.
  - left. destruct Hdy as (g & Hg & _). rewrite (ledger_row _ _ _ E) in Hg. congruence.
  - right. assert (forall z, pool_ok z -> later0 kd drift y.1 z.1 -> rows z.1 !! k = None /\ objects z.1 !! k = None) as Hgone.
    { intros z Hz Hyz. destruct Hdy as (g & Hg & _). assert (g = true) as ->. { unfold ledger in Hg. rewrite E in Hg. by destruct (buried y.1 !! k); inversion Hg. }
      destruct (l_ledger _ _ _ _ Hyz _ _ Hg) as (v & Hv & He). pose proof (e_gone _ _ He eq_refl). subst v.
      unfold ledger in Hv. destruct (rows z.1 !! k) eqn:Ez; [done|]. split; [done|]. destruct (buried z.1 !! k) as [c'|] eqn:Eb; [|done].
      by apply (v_buried _ _ _ _ (proj1 Hz) _ _ Eb). }
    destruct (Hgone y Hy (later0_refl _ _ _)) as [_ Ho]. split; [done|]. split; [done|]. intros z Hz.
    destruct (steps_ok _ _ Hy Hz) as [Hzok Hyz]. by apply Hgone.
Qed.
End Steps.
End Pool.

(** * The protocol's operations alone, and concrete runs

    What an operation does when every call is answered and no other process comes in
    between: a sweep reaches every claim it selects, a record's released file is deleted with
    its claim.  Then runs of the pool, as witnesses of the theorems on interleavings. *)

Local Open Scope string_scope.
Local Open Scope list_scope.
Local Open Scope Z_scope.
Local Open Scope gombit_scope.

(** ** The order of keys *)

#[local] Instance key_le_trans : Transitive key_le.
Proof. intros a b d. apply bytes_le_trans. Qed.

#[local] Instance key_le_total : Total key_le.
Proof. intros a b. apply bytes_le_total. Qed.

Lemma code_inj a b : code a = code b -> a = b.
Proof. unfold code. intros H. apply Nat2Z.inj in H. by rewrite <- (ascii_nat_embedding a), H, ascii_nat_embedding. Qed.

Lemma bytes_le_antisymm a : forall b, bytes_le a b = true -> bytes_le b a = true -> a = b.
Proof.
  induction a as [|x a IH]; intros [|y b]; simpl; try done.
  rewrite !orb_true_iff, !andb_true_iff, !Z.ltb_lt, !Z.eqb_eq. intros [?|[E ?]] [?|[? ?]]; try lia.
  f_equal; [by apply code_inj | by apply IH].
Qed.

#[local] Instance key_le_antisymm : AntiSymm (=) key_le.
Proof. intros a b. apply bytes_le_antisymm. Qed.

Section Alone.
Context {R : Type}.
Variable kd : kind.
Variable drift : duration.
Variable e : env.
Variable pid : nat.

Implicit Types (w : world R).

(** A program run to its end with the same answers of the surroundings. *)
Fixpoint exec {A} (p : prog R A) w : world R * A :=
  match p with
  | Ret a => (w, a)
  | Vis c k => let r := perform kd drift e pid c w in exec (k r.2) r.1
  end.

Lemma exec_bind {A B} (p : prog R A) (f : A -> prog R B) w : exec (pbind p f) w = exec (f (exec p w).2) (exec p w).1.
Proof. revert w. induction p as [a|c k IH]; intros w; cbn; [done | apply IH]. Qed.

Lemma exec_ask (c : call R) w : exec (ask c) w = ((perform kd drift e pid c w).1, (perform kd drift e pid c w).2).
Proof. done. Qed.

(** ** A sweep reaches every claim *)

(** The keys of the claims selected, after [after]. *)
Definition selected (where_ : Claim -> bool) (after : bytes) w : list bytes :=
  merge_sort key_le (fst <$> filter (fun kc => where_ kc.2 && negb (bytes_le kc.1 after) = true) (map_to_list (rows w))).

Lemma selected_elem where_ after w k : k ∈ selected where_ after w <-> (exists c, rows w !! k = Some c /\ where_ c = true) /\ bytes_le k after = false.
Proof.
  unfold selected. rewrite (merge_sort_Permutation key_le), list_elem_of_fmap. split.
  - intros ([k' c] & -> & Hin). apply list_elem_of_filter in Hin as [Hp Hin]. apply elem_of_map_to_list in Hin. cbn in *.
    apply andb_true_iff in Hp as [H1 H2]. split; [by exists c | by apply negb_true_iff].
  - intros ((c & Hc & Hw) & Ha). exists (k, c). split; [done|]. apply list_elem_of_filter. split; [cbn; by rewrite Hw, Ha|].
    by apply elem_of_map_to_list.
Qed.

Lemma selected_sorted where_ after w : StronglySorted key_le (selected where_ after w).
Proof. apply (StronglySorted_merge_sort key_le). Qed.

Lemma selected_NoDup where_ after w : NoDup (selected where_ after w).
Proof.
  unfold selected. rewrite (merge_sort_Permutation key_le).
  eapply sublist_NoDup; [apply (NoDup_fst_map_to_list (rows w)) | apply fmap_sublist, sublist_filter].
Qed.

Lemma selected_length where_ after w : (length (selected where_ after w) <= size (rows w))%nat.
Proof.
  unfold selected. rewrite (merge_sort_Permutation key_le), length_fmap. etrans; [apply length_filter|]. by rewrite length_map_to_list.
Qed.

(** What comes after a full batch is what is selected after its last key. *)
Lemma selected_next where_ after w l r : selected where_ after w = l ++ r -> l <> [] -> selected where_ (List.last l []) w = r.
Proof.
  intros E Hl. destruct (exists_last Hl) as (l0 & x & ->). rewrite List.last_last.
  pose proof (selected_sorted where_ after w) as Hs. pose proof (selected_NoDup where_ after w) as Hn. rewrite E in Hs, Hn.
  apply (StronglySorted_unique key_le); [apply selected_sorted | by eapply StronglySorted_app_1_r|].
  apply NoDup_Permutation; [apply selected_NoDup | by eapply NoDup_app|]. intros k.
  assert (forall k, k ∈ (l0 ++ [x]) ++ r <-> (exists c, rows w !! k = Some c /\ where_ c = true) /\ bytes_le k after = false) as Hin.
  { intros k'. rewrite <- E. apply selected_elem. }
  assert (x ∈ (l0 ++ [x]) ++ r) as Hx by set_solver.
  rewrite selected_elem. split.
  - intros (Hc & Hk). assert (bytes_le k after = false) as Ha.
    { apply Hin in Hx as [_ Hx]. apply not_true_iff_false. intros H. apply not_true_iff_false in Hk. apply Hk.
      eapply bytes_le_trans; [exact H|]. destruct (bytes_le_total after x); [done | congruence]. }
    assert (k ∈ (l0 ++ [x]) ++ r) as Hk' by by apply Hin. apply elem_of_app in Hk' as [Hk'|]; [|done].
    assert (key_le k x) as Hkx; [|unfold key_le in Hkx; congruence].
    apply elem_of_app in Hk' as [Hk'|Hk']; [|apply list_elem_of_singleton in Hk'; subst; destruct (bytes_le_total x x); done].
    rewrite <- app_assoc in Hs. eapply StronglySorted_app_1_elem_of; [exact Hs | done | set_solver].
  - intros Hk. split; [by apply Hin; set_solver|]. apply not_true_iff_false. intros Hle.
    assert (key_le x k) as Hxk by (eapply StronglySorted_app_1_elem_of; [exact Hs | set_solver | done]).
    assert (x = k) as -> by by apply bytes_le_antisymm. apply NoDup_app in Hn as (_ & Hd & _). apply (Hd k); [set_solver | done].
Qed.

(** The callback that notes the keys it is given. *)
Definition note (k : bytes) (seen : list bytes) : prog R (list bytes) := Ret (seen ++ [k]).

Lemma exec_eachKeyOf keys seen w : exec (eachKeyOf note keys seen) w = (w, seen ++ keys).
Proof.
  revert seen. induction keys as [|k keys IH]; intros seen; cbn; [by rewrite app_nil_r|]. rewrite IH. by rewrite <- app_assoc.
Qed.

(** The batches of a sweep end and miss nothing: eachKey calls its function once with every
    key the condition selects, in order, and returns, for every positive batch size. *)
Theorem eachKey_visits_all where_ batch w : fate e = Answered -> ctxDone e = None -> (0 < batch)%nat ->
  forall fuel after seen, (length (selected where_ after w) < fuel)%nat ->
  exec (eachKey fuel batch where_ note after seen) w = (w, Some (seen ++ selected where_ after w, None)).
Proof.
  intros He Hc Hb. induction fuel as [|fuel IH]; intros after seen Hf; [lia|]. cbn [eachKey]. rewrite !exec_bind, exec_ask.
  cbn [perform fst snd]. rewrite Hc. cbn [fst snd]. rewrite exec_bind, exec_ask. cbn [perform]. unfold statement. rewrite He. cbn [fst snd].
  change (selectKeys where_ after batch w) with (take batch (selected where_ after w)).
  rewrite exec_bind, exec_eachKeyOf. cbn [fst snd]. destruct (length (take batch (selected where_ after w)) <? batch)%nat eqn:Hl.
  - apply Nat.ltb_lt in Hl. rewrite length_take in Hl. rewrite take_ge by lia. done.
  - apply Nat.ltb_ge in Hl. rewrite length_take in Hl. pose proof (take_drop batch (selected where_ after w)) as Etd.
    assert (take batch (selected where_ after w) <> []) as Hne. { intros E. apply (f_equal length) in E. rewrite length_take in E. cbn in E. lia. }
    rewrite IH; rewrite (selected_next where_ after w _ _ (eq_sym Etd) Hne).
    + by rewrite <- app_assoc, Etd.
    + rewrite length_drop. lia.
Qed.

(** ** One record and one file *)

(** What is left of a deleting claim once [Finish] is done at [reading e]. *)
Definition remains (c : Claim) : option Claim :=
  if Before (reading e) (Add (LeaseUntil c) LeaseMargin) then Some c else None.

Lemma exec_Finish k c w : fate e = Answered -> kd = KPublisher \/ kd = KBoundedWriter -> rows w !! k = Some c -> State c = Deleting ->
  exists b, (exec (Finish k) w).2 = Ok b /\ records (exec (Finish k) w).1 = records w /\
    objects (exec (Finish k) w).1 !! k = None /\ rows (exec (Finish k) w).1 !! k = remains c /\
    (forall k', k' <> k -> rows (exec (Finish k) w).1 !! k' = rows w !! k') /\
    (forall k', k' <> k -> k' <> StagingKey k -> objects (exec (Finish k) w).1 !! k' = objects w !! k').
Proof.
  intros He Hkd Hc Hd. set (ended := negb (Before (reading e) (Add (LeaseUntil c) LeaseMargin))).
  assert (exists w1, exec (Finish k) w = exec (remove k (Staged c) ended) w1 /\ rows w1 = rows w /\ records w1 = records w /\ objects w1 = objects w) as (w1 & -> & Er & <- & <-).
  { unfold Finish. rewrite exec_bind, exec_ask. cbn [perform]. unfold statement. rewrite He. cbn [fst snd]. rewrite Hc.
    unfold inState. rewrite bool_decide_eq_true_2 by done. rewrite exec_bind, exec_ask. cbn [perform fst snd]. fold ended.
    case_bool_decide as Hp; [by exists w|]. rewrite exec_bind, exec_ask. cbn [perform].
    destruct Hkd as [E|E]; rewrite E; cbn [CheckOwnable Fence fst snd]; [rewrite He; cbn [fst snd]|]; by eexists. }
  assert (forall w, rows w !! k = Some c -> exists b, (exec (remove k (Staged c) ended) w).2 = Ok b /\ records (exec (remove k (Staged c) ended) w).1 = records w /\
    objects (exec (remove k (Staged c) ended) w).1 !! k = None /\ rows (exec (remove k (Staged c) ended) w).1 !! k = remains c /\
    (forall k', k' <> k -> rows (exec (remove k (Staged c) ended) w).1 !! k' = rows w !! k') /\
    (forall k', k' <> k -> k' <> StagingKey k -> objects (exec (remove k (Staged c) ended) w).1 !! k' = objects w !! k')) as Hremove.
  { clear w1 w Hc Er. intros w Hc.
    assert (forall w, rows w !! k = Some c -> objects w !! k = None -> exists b, (exec (forget k ended) w).2 = Ok b /\ records (exec (forget k ended) w).1 = records w /\
      objects (exec (forget k ended) w).1 = objects w /\ rows (exec (forget k ended) w).1 !! k = remains c /\
      (forall k', k' <> k -> rows (exec (forget k ended) w).1 !! k' = rows w !! k')) as Hforget.
    { clear w Hc. intros w Hc Ho. unfold forget, remains, ended. destruct (Before _ _); cbn [negb]; [by exists false|].
      rewrite exec_bind, exec_ask. cbn [perform]. unfold statement. rewrite He. unfold deleteRow. rewrite Hc. unfold inState.
      rewrite bool_decide_eq_true_2 by done. cbn [fst snd exec]. exists true. split; [done|]. split; [done|]. split; [done|]. cbn [rows].
      split; [apply lookup_delete_eq|]. intros k' Hne. by rewrite lookup_delete_ne. }
    unfold remove. rewrite exec_bind, exec_ask. cbn [perform]. rewrite He. cbn [fst snd]. destruct (Staged c).
    - rewrite exec_bind, exec_ask. cbn [perform]. rewrite He. cbn [fst snd]. set (w1 := setObjects (delete k (objects w)) w).
      assert (delete (StagingKey k) (objects w1) !! k = None) as Hgone by (apply lookup_delete_None; right; apply lookup_delete_eq).
      destruct (Hforget (setObjects (delete (StagingKey k) (objects w1)) w1) Hc Hgone) as (b & H1 & H2 & H3 & H4 & H5).
      exists b. rewrite H3. do 5 (split; [done|]). intros k' N1 N2. cbn. by rewrite !lookup_delete_ne.
    - destruct (Hforget (setObjects (delete k (objects w)) w)) as (b & H1 & H2 & H3 & H4 & H5); [done | cbn; apply lookup_delete_eq|].
      exists b. rewrite H3. split; [done|]. split; [done|]. split; [apply lookup_delete_eq|]. split; [done|]. split; [done|].
      intros k' N1 N2. cbn. by rewrite lookup_delete_ne. }
  rewrite <- Er in *. by apply Hremove.
Qed.

(** Deleting a record with its file, undisturbed: the record is written, the object is gone,
    the claim is removed when its lease is over and kept as a tombstone otherwise, and no
    other claim or object changes. *)
Theorem DeleteWith_deletes k c fn r' w : fate e = Answered -> kd = KPublisher \/ kd = KBoundedWriter -> k <> [] ->
  rows w !! k = Some c -> State c = Held -> fn (records w) = Ok r' ->
  let w' := (exec (DeleteWith [k] fn) w).1 in
  (exec (DeleteWith [k] fn) w).2 = None /\ records w' = r' /\ objects w' !! k = None /\ rows w' !! k = remains (setState Deleting c) /\
  (forall k', k' <> k -> rows w' !! k' = rows w !! k') /\ (forall k', k' <> k -> k' <> StagingKey k -> objects w' !! k' = objects w !! k').
Proof.
  intros He Hkd Hk Hc Hh Hf. unfold DeleteWith, Update.
  assert (changed [] [k] = ([], [k])) as ->.
  { unfold changed. cbn. rewrite bool_decide_eq_false_2; [done|]. intros H. apply list_elem_of_singleton in H. congruence. }
  rewrite exec_bind, exec_ask.
  assert (updateTx [] [k] fn (rows w, records w) = Ok (<[k := setState Deleting c]> (rows w), r', [k])) as Htx.
  { unfold updateTx. cbn [holdAll]. rewrite Hf. cbn [releaseAll]. unfold release, Release, transitionTx. rewrite Hc. unfold movable.
    rewrite bool_decide_eq_true_2 by (rewrite Hh; apply list_elem_of_here). done. }
  cbn [perform]. rewrite He, Htx. cbn [fst snd]. rewrite exec_bind. cbn [finishAll]. rewrite exec_bind.
  destruct (exec_Finish k (setState Deleting c) (setTables (<[k := setState Deleting c]> (rows w)) r' w) He Hkd) as (b & H1 & H2 & H3 & H4 & H5 & H6);
    [cbn; apply lookup_insert_eq | done|].
  rewrite H1. cbn [exec fst snd]. split; [done|]. split; [by rewrite H2|]. split; [done|]. split; [done|]. split; [|done].
  intros k' Hne. rewrite H5 by done. cbn. by rewrite lookup_insert_ne.
Qed.

(** A record that could not be written keeps no file: when the writing function fails,
    CreateWith returns its error, leaves the records as they were, and deletes the uploaded
    object, whose claim moves to deleting. *)
Theorem failed_CreateWith_cleans k c fn err w : fate e = Answered -> kd = KPublisher \/ kd = KBoundedWriter -> k <> [] ->
  rows w !! k = Some c -> State c = Pending_ -> Staged c = false -> fn (records w) = Err err ->
  let w' := (exec (CreateWith [k] fn) w).1 in
  (exec (CreateWith [k] fn) w).2 = Some err /\ records w' = records w /\ objects w' !! k = None /\ rows w' !! k = remains (setState Deleting c) /\
  (forall k', k' <> k -> rows w' !! k' = rows w !! k') /\ (forall k', k' <> k -> k' <> StagingKey k -> objects w' !! k' = objects w !! k').
Proof.
  intros He Hkd Hk Hc Hp Hst Hf. unfold CreateWith, Update.
  assert (changed [k] [] = ([k], [])) as ->.
  { unfold changed. cbn. rewrite bool_decide_eq_false_2; [done|]. intros H. apply list_elem_of_singleton in H. congruence. }
  rewrite exec_bind, exec_ask.
  assert (updateTx [k] [] fn (rows w, records w) = Err err) as Htx.
  { unfold updateTx. cbn [holdAll]. unfold Hold, transitionTx. rewrite Hc. unfold movable.
    rewrite bool_decide_eq_true_2 by (rewrite Hp; apply list_elem_of_here). rewrite Hst, andb_false_r. cbn. by rewrite Hf. }
  cbn [perform]. rewrite He, Htx. cbn [fst snd]. rewrite exec_bind. cbn [abandonAll]. rewrite exec_bind. unfold Abandon. rewrite exec_bind.
  unfold transition. rewrite exec_bind, exec_ask. cbn [perform]. unfold statement. rewrite He.
  rewrite (execRow_hit pid k _ _ _ c Hc) by (unfold movable; rewrite bool_decide_eq_true_2; [done | rewrite Hp; apply list_elem_of_here]).
  cbn [fst snd exec Z.eqb Pos.eqb]. rewrite exec_bind.
  destruct (exec_Finish k (setState Deleting c) (updated pid k c (setState Deleting c) w) He Hkd) as (b & H1 & H2 & H3 & H4 & H5 & H6);
    [cbn; apply lookup_insert_eq | done|].
  rewrite H1. cbn [exec fst snd]. split; [done|]. split; [by rewrite H2|]. split; [done|]. split; [done|]. split; [|done].
  intros k' Hne. rewrite H5 by done. cbn. by rewrite lookup_insert_ne.
Qed.
End Alone.

(** ** Runs of the pool *)

Section Drive.
Context {R : Type}.
Variable kd : kind.
Variable drift : duration.
Variable refers : R -> bytes -> Prop.
Variable parseMedia : bytes -> option (bytes * bool).
Variable detectContentType : bytes -> bytes.
Variable encodedLen : bytes -> Z.
Variable verifies : bool.

Local Abbreviation step := (step kd drift refers parseMedia detectContentType encodedLen verifies).

(** One process makes its next calls, one for each of [es]. *)
Fixpoint drive (es : list env) (pid : nat) (p : prog R unit) (w : world R) : world R * prog R unit :=
  match es, p with
  | e :: es, Vis c k => let r := perform kd drift e pid c w in drive es pid (k r.2) r.1
  | _, _ => (w, p)
  end.

Fixpoint driven (es : list env) (pid : nat) (p : prog R unit) (w : world R) : Prop :=
  match es, p with
  | e :: es, Vis c k => env_ok drift refers e c w /\ let r := perform kd drift e pid c w in driven es pid (k r.2) r.1
  | _, _ => True
  end.

Lemma pool_drive_steps es pid : forall p w (ps : gmap nat (prog R unit)), ps !! pid = Some p -> driven es pid p w ->
  rtc step (w, ps) ((drive es pid p w).1, <[pid := (drive es pid p w).2]> ps).
Proof.
  induction es as [|e es IH]; intros p w ps Hp Hd; [cbn; by rewrite insert_id|].
  destruct p as [[]|c k]; [cbn; by rewrite insert_id|]. destruct Hd as [He Hd].
  eapply rtc_l; [by apply (step_call kd drift refers parseMedia detectContentType encodedLen verifies pid c k w ps e)|].
  cbn [drive]. set (r := perform kd drift e pid c w) in *.
  pose proof (IH (k r.2) r.1 (<[pid := k r.2]> ps) (lookup_insert_eq _ _ _) Hd) as H. by rewrite insert_insert_eq in H.
Qed.

Lemma drive_one e pid p w (ps : gmap nat (prog R unit)) : ps !! pid = Some p -> driven [e] pid p w -> p <> Ret tt ->
  step (w, ps) ((drive [e] pid p w).1, <[pid := (drive [e] pid p w).2]> ps).
Proof.
  intros Hp Hd Hr. destruct p as [[]|c k]; [done|].
  assert (drive [e] pid (Vis c k) w = ((perform kd drift e pid c w).1, k (perform kd drift e pid c w).2)) as ->.
  { cbn. by destruct (k _). }
  by apply step_call; [|apply Hd].
Qed.

Lemma start_drive es pid p w (ps : gmap nat (prog R unit)) : ps !! pid = None ->
  operation kd refers parseMedia detectContentType encodedLen verifies p -> driven es pid p w ->
  rtc step (w, ps) ((drive es pid p w).1, <[pid := (drive es pid p w).2]> ps).
Proof.
  intros Hn Hop Hd. eapply rtc_l; [by apply step_start|].
  pose proof (pool_drive_steps es pid p w (<[pid := p]> ps) (lookup_insert_eq _ _ _) Hd) as H. by rewrite insert_insert_eq in H.
Qed.
End Drive.

(** A file saved, held by a record, and let go again, over an in-process store. *)
Module Sample.

Definition refersTo (r : list bytes) (k : bytes) : Prop := k ∈ r.
Definition media (b : bytes) : option (bytes * bool) := Some (b, false).
Definition png : bytes := of_string "image/png".
Definition policy : Policy := mkPolicy 1000 [png] (of_string "avatars/") None ∅ 0 0 true (of_string "user.avatar").
Definition id0 : bytes := of_string "0123456789abcdef0123456789abcdef".
Definition key0 : bytes := of_string "avatars/" ++ id0.
Definition now0 : time := 1000 * Hour.
Definition calm : env := mkEnv Answered now0 (Sentinel ErrUnavailable) None None [] [] (Some id0).
Definition write (r : list bytes) : result cerror (list bytes) := Ok (key0 :: r).
Definition w0 : world (list bytes) := start now0 ∅ [].

Local Abbreviation drive := (drive KBoundedWriter Minute).
Local Abbreviation driven := (driven KBoundedWriter Minute refersTo).
Local Abbreviation operation := (operation KBoundedWriter refersTo media id len false).
Local Abbreviation reachable := (reachable KBoundedWriter Minute refersTo media id len false).
Local Abbreviation step := (step KBoundedWriter Minute refersTo media id len false).

Definition save : prog (list bytes) unit := process (saveFile KBoundedWriter policy png png ∅).
Definition w1 : world (list bytes) := (drive [calm; calm; calm; calm; calm] 1 save w0).1.
Definition hold : prog (list bytes) unit := process (Update [key0] [] write).
Definition w2 : world (list bytes) := (drive [calm] 2 hold w1).1.
Definition sweeps : prog (list bytes) unit := process (Abandon key0).
Definition ps1 : gmap nat (prog (list bytes) unit) := {[1%nat := (drive [calm; calm; calm; calm; calm] 1 save w0).2]}.
Definition ps2 : gmap nat (prog (list bytes) unit) := <[2%nat := (drive [calm] 2 hold w1).2]> ps1.

Lemma save_driven : driven [calm; calm; calm; calm; calm] 1 save w0.
Proof.
  split.
  { intros id E. injection E as <-. split; [done|]. split; [by apply (bool_decide_eq_false_1 (_ ∈ id0))|].
    split; [by apply (bool_decide_eq_false_1 (_ ∈ id0))|]. split; [done|]. apply not_elem_of_nil. }
  split; [vm_compute; done|]. split; [vm_compute; done|]. split; [done|]. split; [done|]. vm_compute. done.
Qed.

Lemma w1_reachable : reachable (w1, ps1).
Proof.
  exists now0, ∅, []. split; [intros k o; by rewrite lookup_empty|].
  apply (start_drive _ _ _ _ _ _ _ [calm; calm; calm; calm; calm] 1 save w0 ∅); [done | | apply save_driven].
  by apply op_save.
Qed.

Lemma reachable_more x y : reachable x -> rtc step x y -> reachable y.
Proof. intros (t & objs & r & Hn & Hs) Hy. exists t, objs, r. split; [done | by etrans]. Qed.

Lemma write_disciplined : disciplined refersTo [key0] [] write.
Proof.
  intros r r' [= <-] k Hk. unfold refersTo in *. apply elem_of_cons in Hk as [->|Hk].
  - left. vm_compute. apply list_elem_of_here.
  - right. split; [done|]. vm_compute. apply not_elem_of_nil.
Qed.

Lemma w2_reachable : reachable (w2, ps2).
Proof.
  apply (reachable_more (w1, ps1)); [apply w1_reachable|].
  apply (start_drive _ _ _ _ _ _ _ [calm] 2 hold w1 ps1); [done | apply op_update, write_disciplined | done].
Qed.

(** An hour later. *)
Definition late : env := mkEnv Answered (now0 + 2 * Hour) (Sentinel ErrUnavailable) None None [] [] None.

Definition kept : prog (list bytes) unit := (drive [calm] 3 sweeps w2).2.
Definition given : prog (list bytes) unit := (drive [calm] 3 sweeps w1).2.
Definition w3 : world (list bytes) := (drive [calm] 3 sweeps w1).1.
Definition w4 : world (list bytes) := (drive [late; late; late; late] 3 given (atTime (now0 + 2 * Hour) w3)).1.
Definition ps3 : gmap nat (prog (list bytes) unit) := <[3%nat := given]> ps1.
End Sample.

Import Sample.

(** A sweep that comes too late leaves the record's file alone. *)
Lemma referred_file_kept_witness :
  rows w2 !! key0 = Some (setState Held (mkClaim key0 Pending_ now0 (now0 + Hour) false (of_string "user.avatar") [])) /\
  is_Some (objects (drive KBoundedWriter Minute [calm] 3 sweeps w2).1 !! key0).
Proof.
  split; [vm_compute; reflexivity|].
  apply (referred_file_kept KBoundedWriter Minute refersTo media id len false (or_intror eq_refl) ltac:(vm_compute; discriminate)
    (w2, <[3%nat := sweeps]> ps2) ((drive KBoundedWriter Minute [calm] 3 sweeps w2).1, <[3%nat := kept]> (<[3%nat := sweeps]> ps2)) key0).
  - apply (reachable_more (w2, ps2)); [apply w2_reachable|]. apply rtc_once, step_start; [done | apply op_abandon].
  - apply (drive_one KBoundedWriter Minute refersTo media id len false calm 3 sweeps w2); [apply lookup_insert_eq | done | done].
  - vm_compute. apply list_elem_of_here.
  - by vm_compute.
  - vm_compute. by eexists.
Defined.

(** An abandoned upload whose lease is over is gone for good. *)
Lemma deleting_is_final_witness :
  State <$> (rows w3 !! key0) = Some Deleting /\ rows w4 !! key0 = None /\ ~ refersTo (records w4) key0 /\
  (forall z, rtc (step KBoundedWriter Minute refersTo media id len false) (w4, <[3%nat := (drive KBoundedWriter Minute [late; late; late; late] 3 given (atTime (now0 + 2 * Hour) w3)).2]> ps3) z ->
     objects z.1 !! key0 = None).
Proof.
  split; [vm_compute; reflexivity|]. split; [vm_compute; reflexivity|].
  assert (rows w3 !! key0 = Some (setState Deleting (mkClaim key0 Pending_ now0 (now0 + Hour) false (of_string "user.avatar") []))) as Hc by (vm_compute; reflexivity).
  destruct (deleting_is_final KBoundedWriter Minute refersTo media id len false (or_intror eq_refl) ltac:(vm_compute; discriminate)
    (w3, ps3) (w4, <[3%nat := (drive KBoundedWriter Minute [late; late; late; late] 3 given (atTime (now0 + 2 * Hour) w3)).2]> ps3)
    key0 (setState Deleting (mkClaim key0 Pending_ now0 (now0 + Hour) false (of_string "user.avatar") []))) as [H1 H2]; [| | exact Hc | reflexivity |].
  - apply (reachable_more (w1, ps1)); [apply w1_reachable|].
    apply (start_drive _ _ _ _ _ _ _ [calm] 3 sweeps w1 ps1); [done | apply op_abandon | done].
  - eapply rtc_l; [apply (step_tick _ _ _ _ _ _ _ (now0 + 2 * Hour)); vm_compute; discriminate|].
    apply (pool_drive_steps _ _ _ _ _ _ _ [late; late; late; late] 3 given); [apply lookup_insert_eq|].
    split; [done|]. split; [by vm_compute|]. by vm_compute.
  - split; [exact H1|]. destruct H2 as [H2|(_ & _ & H2)]; [vm_compute in H2; discriminate|]. intros z Hz. by apply H2.
Defined.

Definition erase (r : list bytes) : result cerror (list bytes) := Ok [].
Definition refuse (r : list bytes) : result cerror (list bytes) := Err (EApplication "refused").

Lemma DeleteWith_deletes_witness :
  (exec KBoundedWriter Minute late 4 (DeleteWith [key0] erase) w2).2 = None /\
  objects (exec KBoundedWriter Minute late 4 (DeleteWith [key0] erase) w2).1 !! key0 = None /\
  rows (exec KBoundedWriter Minute late 4 (DeleteWith [key0] erase) w2).1 !! key0 = None.
Proof.
  destruct (DeleteWith_deletes KBoundedWriter Minute late 4 key0
    (setState Held (mkClaim key0 Pending_ now0 (now0 + Hour) false (of_string "user.avatar") [])) erase [] w2) as (H1 & _ & H3 & H4 & _);
    [reflexivity | by right | done | vm_compute; reflexivity | reflexivity | reflexivity|].
  split; [exact H1|]. split; [exact H3|]. rewrite H4. vm_compute. reflexivity.
Defined.

Lemma failed_CreateWith_cleans_witness :
  (exec KBoundedWriter Minute calm 4 (CreateWith [key0] refuse) w1).2 = Some (EApplication "refused") /\
  objects (exec KBoundedWriter Minute calm 4 (CreateWith [key0] refuse) w1).1 !! key0 = None /\
  State <$> (rows (exec KBoundedWriter Minute calm 4 (CreateWith [key0] refuse) w1).1 !! key0) = Some Deleting.
Proof.
  destruct (failed_CreateWith_cleans KBoundedWriter Minute calm 4 key0
    (mkClaim key0 Pending_ now0 (now0 + Hour) false (of_string "user.avatar") []) refuse (EApplication "refused") w1) as (H1 & _ & H3 & H4 & _);
    [reflexivity | by right | done | vm_compute; reflexivity | reflexivity | reflexivity | reflexivity|].
  split; [exact H1|]. split; [exact H3|]. rewrite H4. vm_compute. reflexivity.
Defined.

Lemma eachKey_visits_all_witness :
  exec KBoundedWriter Minute calm 4 (eachKey 2 1 (inState Pending_) note [] []) w1 = (w1, Some ([key0], None)).
Proof.
  rewrite (eachKey_visits_all KBoundedWriter Minute calm 4 (inState Pending_) 1 w1); [|reflexivity|reflexivity|lia|vm_compute; lia].
  f_equal.
Defined.
