(* ===== verification/AuthModels.v ===== *)
(** * auth/models.go: accounts, refresh tokens and one-time tokens

    The tables of the auth package are maps from primary keys, with the counters new keys come
    from; a transaction is a function of the tables that fails without changing them ([tx],
    [transact]).  GORM's own columns (UpdatedAt) and the permission tables are left out.

    A transaction that takes the user's row lock ([lockUserTx]) runs from there to its commit
    as one step: every other writer of the user's rows takes the same lock first, except a
    logout, whose single UPDATE is ordered by the row's own lock.  What a transaction reads
    before the lock is an argument of that step, and may be stale. *)

From stdpp Require Import base tactics numbers list strings gmap fin_maps.
From Stdlib Require Import ZArith Lia Ascii.
From S2P Require Import Prelude GoBytes StorageKey.

Local Open Scope string_scope.
Local Open Scope list_scope.
Local Open Scope Z_scope.

(** ** Errors *)

Inductive policyReason : Type := errPasswordRequired | errPasswordTooLong | errPasswordTooShort.

Inductive autherr : Type :=
| errInvalidRefreshToken
| errRotationRaced                    (* wraps errInvalidRefreshToken *)
| errRefreshReuse
| errInvalidAccessToken
| errInvalidCredentials
| errUserNotFound
| errAccountDisabled
| errEmailTaken
| errInvalidEmail
| errSessionNotFound
| errSessionEnded
| errLoginPasswordChanged
| errLoginAccountGone
| errInvalidOneTimeToken
| errTokenNotPending
| resendTooSoon (retryAfter : duration)
| errNoMailer
| errMailNotSent
| errAlreadyVerified
| errWrongCurrentPassword
| errPasswordChanged
| errEmailUnchanged
| errEmailChangedMeanwhile
| errSuperuserOnly
| errCannotDisableSelf
| PasswordPolicyError (field : string) (reason : policyReason)
| errPassword (reason : policyReason)
| errServer (what : string).          (* the database, the hasher, the signer: a 500 *)

(** [errors.Is(err, errInvalidRefreshToken)] *)
Definition isInvalidRefresh (e : autherr) : bool :=
  match e with errInvalidRefreshToken | errRotationRaced => true | _ => false end.

(** ** Rows *)

Record User : Type := mkUser {
  ID : Z;
  Email : string;
  PasswordHash : string;
  IsSuperuser : bool;
  DisabledAt : option time;
  EmailVerifiedAt : option time;
  VerifiedEmail : string
}.

Record RefreshToken : Type := mkRefreshToken {
  RID : Z;
  UserID : Z;
  TokenHash : string;
  ExpiresAt : time;
  RevokedAt : option time;
  ReplacedBy : option Z;
  CreatedAt : time
}.

Inductive TokenPurpose : Type := PurposeVerifyEmail | PurposeResetPassword | PurposeChangeEmail.

#[export] Instance TokenPurpose_eq_dec : EqDecision TokenPurpose.
Proof. solve_decision. Defined.

Record OneTimeToken : Type := mkOneTimeToken {
  OID : Z;
  OUserID : Z;
  Purpose : TokenPurpose;
  OTokenHash : string;
  OEmail : string;
  FromEmail : string;
  OExpiresAt : time;
  SentAt : option time;
  UsedAt : option time;
  OCreatedAt : time
}.

(** [User.Disabled] *)
Definition Disabled (u : User) : bool := match DisabledAt u with Some _ => true | None => false end.

(** [User.EmailVerified]; [normalizeEmail] of the email. *)
Definition EmailVerified (normalizeEmail : string -> string) (u : User) : bool :=
  match EmailVerifiedAt u with
  | Some _ => negb (String.eqb (VerifiedEmail u) "") &&
              String.eqb (normalizeEmail (VerifiedEmail u)) (normalizeEmail (Email u))
  | None => false
  end.

Definition setPasswordHash (h : string) (u : User) : User :=
  mkUser (ID u) (Email u) h (IsSuperuser u) (DisabledAt u) (EmailVerifiedAt u) (VerifiedEmail u).
Definition setDisabledAt (t : option time) (u : User) : User :=
  mkUser (ID u) (Email u) (PasswordHash u) (IsSuperuser u) t (EmailVerifiedAt u) (VerifiedEmail u).
Definition setVerified (t : time) (email : string) (u : User) : User :=
  mkUser (ID u) (Email u) (PasswordHash u) (IsSuperuser u) (DisabledAt u) (Some t) email.
Definition setEmail (email : string) (u : User) : User :=
  mkUser (ID u) email (PasswordHash u) (IsSuperuser u) (DisabledAt u) (EmailVerifiedAt u) (VerifiedEmail u).

Definition setRevoked (t : time) (r : RefreshToken) : RefreshToken :=
  mkRefreshToken (RID r) (UserID r) (TokenHash r) (ExpiresAt r) (Some t) (ReplacedBy r) (CreatedAt r).
Definition setReplacedBy (id : Z) (r : RefreshToken) : RefreshToken :=
  mkRefreshToken (RID r) (UserID r) (TokenHash r) (ExpiresAt r) (RevokedAt r) (Some id) (CreatedAt r).

Definition setSent (t : time) (o : OneTimeToken) : OneTimeToken :=
  mkOneTimeToken (OID o) (OUserID o) (Purpose o) (OTokenHash o) (OEmail o) (FromEmail o) (OExpiresAt o)
    (Some t) (UsedAt o) (OCreatedAt o).
Definition setUsed (t : time) (o : OneTimeToken) : OneTimeToken :=
  mkOneTimeToken (OID o) (OUserID o) (Purpose o) (OTokenHash o) (OEmail o) (FromEmail o) (OExpiresAt o)
    (SentAt o) (Some t) (OCreatedAt o).

Definition isNone {A} (o : option A) : bool := match o with None => true | Some _ => false end.

(** ** Tables *)

Record db : Type := mkDB {
  users : gmap Z User;
  tokens : gmap Z RefreshToken;
  links : gmap Z OneTimeToken;
  nextUser : Z;
  nextToken : Z;
  nextLink : Z
}.

Definition setUsers (m : gmap Z User) (d : db) : db := mkDB m (tokens d) (links d) (nextUser d) (nextToken d) (nextLink d).
Definition setTokens (m : gmap Z RefreshToken) (d : db) : db :=
  mkDB (users d) m (links d) (nextUser d) (nextToken d) (nextLink d).
Definition setLinks (m : gmap Z OneTimeToken) (d : db) : db :=
  mkDB (users d) (tokens d) m (nextUser d) (nextToken d) (nextLink d).

(** [First] of the rows that satisfy a condition. *)
Definition firstRow {A} (p : A -> bool) (m : gmap Z A) : option A :=
  snd ∘ snd <$> list_find (fun r => p r.2 = true) (map_to_list m).

(** [UPDATE ... WHERE p]: the rows, and how many were changed. *)
Definition updateRows {A} (p : A -> bool) (f : A -> A) (m : gmap Z A) : gmap Z A :=
  (fun a => if p a then f a else a) <$> m.
Definition affected {A} (p : A -> bool) (m : gmap Z A) : Z := Z.of_nat (size (filter (fun r => p r.2 = true) m)).

(** ** Transactions *)

Definition tx (A : Type) : Type := db -> result autherr (db * A).

Definition ret {A} (a : A) : tx A := fun d => Ok (d, a).
Definition fail {A} (e : autherr) : tx A := fun _ => Err e.
Definition tx_bind {A B} (m : tx A) (f : A -> tx B) : tx B :=
  fun d => match m d with Ok (d, a) => f a d | Err e => Err e end.
Definition get {A} (f : db -> A) : tx A := fun d => Ok (d, f d).
Definition update (f : db -> db) : tx unit := fun d => Ok (f d, tt).

Notation "'let^' x ':=' m 'in' k" := (tx_bind m (fun x => k))
  (at level 10, x name, m at level 100, k at level 200) : gombit_scope.
Local Open Scope gombit_scope.

(** What becomes of a transaction that has nothing to refuse: it commits; a statement or the
    commit fails and it is rolled back; or it commits and the answer is lost. *)
Inductive outcome : Type := Committed | RolledBack | CommitLost.

Definition transact {A} (o : outcome) (m : tx A) (d : db) : db * result autherr A :=
  match o with
  | RolledBack => (d, Err (errServer "database"))
  | _ =>
      match m d with
      | Err e => (d, Err e)
      | Ok (d', a) => (d', match o with Committed => Ok a | _ => Err (errServer "database") end)
      end
  end.

(** [lockUserTx] *)
Definition lockUserTx (userID : Z) : tx (option User) := get (fun d => users d !! userID).

(** [revokeAllTx] *)
Definition revokeAllTx (userID : Z) (now : time) : tx unit :=
  update (fun d => setTokens (updateRows (fun r => (UserID r =? userID) && isNone (RevokedAt r)) (setRevoked now) (tokens d)) d).

(** [voidTokensTx]; no purposes stands for all of them. *)
Definition voidTokensTx (userID except : Z) (now : time) (purposes : list TokenPurpose) : tx unit :=
  update (fun d => setLinks (updateRows (fun o => (OUserID o =? userID) && isNone (UsedAt o) && negb (OID o =? except) &&
    match purposes with [] => true | _ => bool_decide (Purpose o ∈ purposes) end) (setUsed now) (links d)) d).

(** [voidPasswordBoundTokensTx] *)
Definition voidPasswordBoundTokensTx (userID except : Z) (now : time) : tx unit :=
  voidTokensTx userID except now [PurposeResetPassword; PurposeChangeEmail].

(** [tx.Model(&User{}).Where("id = ?", id).Updates(...)] *)
Definition updateUser (id : Z) (f : User -> User) : tx unit :=
  update (fun d => setUsers (alter f id (users d)) d).

(** The unique index on the email, under the database's collation: whether a row but [id] has
    the email. *)
Definition emailTaken (collate : string -> string) (id : Z) (email : string) (d : db) : bool :=
  existsb (fun r => negb (r.1 =? id) && String.eqb (collate (Email r.2)) (collate email)) (map_to_list (users d)).

(** [findUserByEmail] *)
Definition findUserByEmail (collate normalizeEmail : string -> string) (email : string) (d : db) : option User :=
  match firstRow (fun u => String.eqb (collate (Email u)) (collate email)) (users d) with
  | Some u => if String.eqb (normalizeEmail (Email u)) email then Some u else None
  | None => None
  end.

(** ** auth/hasher.go: the password policy *)

Definition maxPasswordBytes : Z := 72.
Definition minPasswordLength : Z := 8.

(** [checkPasswordLength] *)
Definition checkPasswordLength (password : bytes) : option policyReason :=
  match password with
  | [] => Some errPasswordRequired
  | _ => if maxPasswordBytes <? Z.of_nat (length password) then Some errPasswordTooLong else None
  end.

(** [checkNewPassword] *)
Definition checkNewPassword (password : bytes) (field : string) : option autherr :=
  let err := match checkPasswordLength password with
             | None => if Z.of_nat (length (runes password)) <? minPasswordLength then Some errPasswordTooShort else None
             | err => err
             end in
  match err with Some reason => Some (PasswordPolicyError field reason) | None => None end.

(** [bcryptHasher.Hash]; [generate] is bcrypt with its salt, [None] its failure. *)
Definition Hash (generate : bytes -> option string) (password : bytes) : result autherr string :=
  match checkPasswordLength password with
  | Some reason => Err (errPassword reason)
  | None => match generate password with Some h => Ok h | None => Err (errServer "hash") end
  end.

(** ** The audit trail *)

Inductive auditAction : Type :=
| AuditLoginSucceeded | AuditLoginFailed (reason : string) | AuditLogout
| AuditRefreshReuse | AuditRefreshReuseWithinGrace (successor : string)
| AuditSessionRevoked (scope : string) | AuditUserDisabled | AuditUserEnabled
| AuditRegistered | AuditSuperuserCreated
| AuditPasswordReset (sessionsRevoked : bool) | AuditPasswordChanged (otherSessionsRevoked : bool)
| AuditPasswordChangeFailed | AuditPasswordResetRequested
| AuditEmailVerified | AuditEmailChanged | AuditEmailChangeRequested | AuditEmailChangeFailed.

(** An event and the user it is about. *)
Definition audit : Type := auditAction * option Z.
