(* ===== verification/AuthSessions.v ===== *)
(** * auth/service.go, auth/sessions.go: sign-ins and refresh token rotation

    A session is a chain of refresh token rows, each replaced by the next.  The token hash, the
    signing and parsing of access tokens, the opaque session ids and the random tokens are
    arguments; clocks are passed in, one reading per argument. *)

From stdpp Require Import base tactics numbers list sorting strings gmap fin_maps.
From Stdlib Require Import ZArith Lia Ascii QArith.
From S2P Require Import Prelude GoBytes Float64 StorageKey AuthModels.

Local Open Scope string_scope.
Local Open Scope list_scope.
Local Open Scope Z_scope.
Local Open Scope gombit_scope.

Record AuthConfig : Type := mkAuthConfig {
  AccessTokenTTL : duration;
  RefreshTokenTTL : duration;
  RefreshReuseGrace : duration;
  PasswordResetKeepSessions : bool;
  EmailVerificationTTL : duration;
  PasswordResetTTL : duration
}.

(** [TokenPair]; TokenType is always Bearer. *)
Record TokenPair : Type := mkTokenPair { AccessToken : string; RefreshTokenRaw : string; ExpiresIn : Z }.

(** [accessClaims]: the subject, the refresh token row. *)
Record accessClaims : Type := mkClaims { Subject : string; RefreshID : Z }.

Section Sessions.
Variable cfg : AuthConfig.
Variable rnd : Q -> Q.
Variable hashRefreshToken : string -> string.
Variable signAccessToken : User -> Z -> duration -> time -> option string.
Variable sessionID : Z -> string.

(** ** Starting a session *)

(** [int(d.Seconds())] *)
Definition wholeSeconds (d : duration) : Z :=
  trunc (rnd (float64 rnd (Z.quot d Second) + rnd (float64 rnd (Z.rem d Second) / inject_Z Second))%Q).

Definition byHash (hash : string) (d : db) : option RefreshToken :=
  firstRow (fun r => String.eqb (TokenHash r) hash) (tokens d).

(** [tx.Create(&row)]; the hash is unique. *)
Definition createToken (userID : Z) (hash : string) (expires now : time) : tx RefreshToken := fun d =>
  match byHash hash d with
  | Some _ => Err (errServer "unique violation")
  | None =>
      let row := mkRefreshToken (nextToken d) userID hash expires None None now in
      Ok (mkDB (users d) (<[nextToken d := row]> (tokens d)) (links d) (nextUser d) (nextToken d + 1) (nextLink d), row)
  end.

(** [issueTokens]; [fresh] is the random token, [None] when the source of randomness fails. *)
Definition issueTokens (user : User) (now : time) (fresh : option string) : tx TokenPair :=
  match fresh with
  | None => fail (errServer "random")
  | Some raw =>
      let^ row := createToken (ID user) (hashRefreshToken raw) (Add now (RefreshTokenTTL cfg)) now in
      match signAccessToken user (RID row) (AccessTokenTTL cfg) now with
      | None => fail (errServer "sign")
      | Some access => ret (mkTokenPair access raw (wholeSeconds (AccessTokenTTL cfg)))
      end
  end.

(** The transaction of [startSession]: [user] is the snapshot the password was checked on. *)
Definition startSessionTx (user : User) (now : time) (fresh : option string) : tx (User * TokenPair) :=
  let^ found := lockUserTx (ID user) in
  match found with
  | None => fail errLoginAccountGone
  | Some locked =>
      if Disabled locked then fail errAccountDisabled
      else if negb (String.eqb (PasswordHash locked) (PasswordHash user)) then fail errLoginPasswordChanged
      else
        let^ tp := issueTokens locked now fresh in
        ret (locked, tp)
  end.

(** [startSession] *)
Definition startSession (o : outcome) (user : User) (now : time) (fresh : option string) (d : db) :
    db * list audit * result autherr (User * TokenPair) :=
  let '(d, r) := transact o (startSessionTx user now fresh) d in
  match r with
  | Err errLoginPasswordChanged =>
      (d, [(AuditLoginFailed "password_changed", Some (ID user))], Err errInvalidCredentials)
  | Err errLoginAccountGone =>
      (d, [(AuditLoginFailed "account_deleted", Some (ID user))], Err errInvalidCredentials)
  | Err errAccountDisabled =>
      (d, [(AuditLoginFailed "account_disabled", Some (ID user))], Err errAccountDisabled)
  | Err e => (d, [], Err e)
  | Ok (locked, tp) => (d, [(AuditLoginSucceeded, Some (ID locked))], Ok (locked, tp))
  end.

(** ** Rotating *)

(** [lockRefreshRowTx] *)
Definition lockRefreshRowTx (id : Z) : tx RefreshToken := fun d =>
  match tokens d !! id with Some row => Ok (d, row) | None => Err (errServer "record not found") end.

(** [hasSuccessorTx] *)
Definition hasSuccessorTx (id : Z) : tx bool :=
  let^ current := lockRefreshRowTx id in
  ret (negb (isNone (ReplacedBy current))).

(** [UPDATE ... SET revoked_at WHERE id = ? AND revoked_at IS NULL]: the rows affected. *)
Definition revokeRow (id : Z) (now : time) : tx Z := fun d =>
  let p r := (RID r =? id) && isNone (RevokedAt r) in
  Ok (setTokens (updateRows p (setRevoked now) (tokens d)) d, affected p (tokens d)).

(** What a rotation that was not refused did. *)
Inductive rotation : Type :=
| Rotated (tp : TokenPair) (user : User)
| Reused (userID : Z)
| Grace (userID : Z) (session successor : string) (e : autherr).

(** [if rotated { return errRotationRaced }; return errInvalidRefreshToken] *)
Definition lostTo (rotated : bool) : tx rotation :=
  fail (if rotated then errRotationRaced else errInvalidRefreshToken).

(** The end of the rotation: the compare-and-swap, the successor and the link to it. *)
Definition rotateRow (row : RefreshToken) (user : User) (now : time) (fresh : option string) : tx rotation :=
  let^ affected := revokeRow (RID row) now in
  if negb (affected =? 1) then
    let^ rotated := hasSuccessorTx (RID row) in lostTo rotated
  else
    let^ issued := issueTokens user now fresh in
    let^ found := get (byHash (hashRefreshToken (RefreshTokenRaw issued))) in
    match found with
    | None => fail (errServer "record not found")
    | Some replacement =>
        let^ _ := update (fun d => setTokens (alter (setReplacedBy (RID replacement)) (RID row) (tokens d)) d) in
        ret (Rotated issued user)
    end.

(** The reuse cascade. *)
Definition cascade (row : RefreshToken) (now : time) : tx rotation :=
  let^ _ := revokeAllTx (UserID row) now in
  ret (Reused (UserID row)).

(** A rotated token presented again before it expired. *)
Definition presentedAgain (row : RefreshToken) (revokedAt : time) (successorID : Z) (now : time) : tx rotation :=
  if (0 <? RefreshReuseGrace cfg) && After revokedAt (Add now (- RefreshReuseGrace cfg)) then
    let^ successor := lockRefreshRowTx successorID in
    if negb (isNone (ReplacedBy successor)) then cascade row now
    else if isNone (RevokedAt successor) && After (ExpiresAt successor) now
    then ret (Grace (UserID row) (sessionID (RID successor)) "live" errRotationRaced)
    else ret (Grace (UserID row) (sessionID (RID successor)) "ended" errInvalidRefreshToken)
  else cascade row now.

(** The transaction of [rotateRefreshOnce], from the user's lock on; [row] is the token as
    the unlocked read before it found it.  [Grace] carries the error the closure returns. *)
Definition rotateTx (found : option RefreshToken) (now : time) (fresh : option string) : tx rotation :=
  match found with
  | None => fail errInvalidRefreshToken
  | Some row =>
      let^ locked := lockUserTx (UserID row) in
      match locked with
      | None => fail errUserNotFound
      | Some user =>
          if Disabled user then fail errInvalidRefreshToken
          else if negb (After (ExpiresAt row) now) then
            let^ rotated := (if isNone (RevokedAt row) then hasSuccessorTx (RID row)
                             else ret (negb (isNone (ReplacedBy row)))) in
            lostTo rotated
          else match RevokedAt row with
          | Some revokedAt =>
              match ReplacedBy row with
              | None => fail errInvalidRefreshToken
              | Some successorID => presentedAgain row revokedAt successorID now
              end
          | None => rotateRow row user now fresh
          end
      end
  end.

(** [rotateRefreshOnce] after its unlocked read. *)
Definition rotateRefreshOnce (o : outcome) (found : option RefreshToken) (now : time) (fresh : option string) (d : db) :
    db * list audit * result autherr (TokenPair * User) :=
  (* the closure returns the error of [Grace]: there is no commit whose answer could be lost *)
  let o := match o, rotateTx found now fresh d with CommitLost, Ok (_, Grace _ _ _ _) => Committed | _, _ => o end in
  let '(d, r) := transact o (rotateTx found now fresh) d in
  match r with
  | Err e => (d, [], Err e)
  | Ok (Grace userID session successor e) =>
      (d, [(AuditRefreshReuseWithinGrace successor, Some userID)], Err e)
  | Ok (Reused userID) => (d, [(AuditRefreshReuse, Some userID)], Err errRefreshReuse)
  | Ok (Rotated tp user) => (d, [], Ok (tp, user))
  end.

(** The checks of [rotateRefresh] and its unlocked read: the hash, or the refusal. *)
Definition refreshHash (raw : string) : option string :=
  let raw := to_string (TrimSpace (of_string raw)) in
  if String.eqb raw "" then None else Some (hashRefreshToken raw).

(** ** Joining rotations

    [rotateCalls]: a caller that finds a rotation of its token under way waits for it; the
    others start one.  The map holds who waits. *)

Definition rotateCalls : Type := gmap string (list Z).

Definition joinRotation (hash : string) (caller : Z) (calls : rotateCalls) : rotateCalls * bool :=
  match calls !! hash with
  | Some waiting => (<[hash := waiting ++ [caller]]> calls, false)
  | None => (<[hash := [caller]]> calls, true)
  end.

(** The rotation ended: everybody who waits gets its result. *)
Definition endRotation (hash : string) (calls : rotateCalls) : rotateCalls * list Z :=
  (delete hash calls, default [] (calls !! hash)).

(** ** Logout *)

(** The read of [RevokeRefresh]. *)
Definition logoutRow (raw : string) (d : db) : result autherr (option RefreshToken) :=
  match refreshHash raw with
  | None => Err errInvalidRefreshToken
  | Some hash => Ok (firstRow (fun r => String.eqb (TokenHash r) hash && isNone (RevokedAt r)) (tokens d))
  end.

(** Its update: the row as it was read, the instant read before it. *)
Definition RevokeRefresh (found : option RefreshToken) (now : time) (d : db) : db * list audit :=
  match found with
  | None => (d, [])
  | Some row =>
      match revokeRow (RID row) now d with
      | Ok (d, affected) => (d, if affected =? 1 then [(AuditLogout, Some (UserID row))] else [])
      | Err _ => (d, [])
      end
  end.

(** ** Access tokens *)

Section Access.
(** [parseAccessToken]: the claims of a valid token at an instant. *)
Variable parseAccessToken : string -> time -> option accessClaims.
(** [userIDFromSubject] *)
Variable userIDFromSubject : string -> option Z.

(** [parseAccess]: the user is read from [d1], the row from [d2], the clock twice. *)
Definition parseAccess (token : string) (now now2 : time) (d1 d2 : db) : result autherr (User * Z) :=
  match parseAccessToken token now with
  | None => Err errInvalidAccessToken
  | Some claims =>
      match userIDFromSubject (Subject claims) with
      | None => Err errInvalidAccessToken
      | Some id =>
          match users d1 !! id with
          | None => Err errInvalidAccessToken
          | Some user =>
              if Disabled user then Err errInvalidAccessToken
              else match tokens d2 !! RefreshID claims with
              | None => Err errInvalidAccessToken
              | Some row =>
                  if negb (UserID row =? ID user) || negb (isNone (RevokedAt row)) || negb (After (ExpiresAt row) now2)
                  then Err errInvalidAccessToken
                  else Ok (user, RID row)
              end
          end
      end
  end.
End Access.

(** ** auth/sessions.go *)

Definition expiryPrefilterSlack : duration := 48 * Hour.

(** The order of the list: the most recently refreshed first, then the higher id. *)
Definition refreshedBefore (a b : RefreshToken) : Prop :=
  CreatedAt b < CreatedAt a \/ (CreatedAt a = CreatedAt b /\ RID b <= RID a).

#[local] Instance refreshedBefore_dec a b : Decision (refreshedBefore a b).
Proof. unfold refreshedBefore. apply _. Defined.

(** [activeSessionRows]; [sqlAfter] is the database's comparison of stored times, which on
    SQLite is off by up to the difference of two UTC offsets. *)
Definition activeSessionRows (sqlAfter : time -> time -> bool) (userID : Z) (now : time) (d : db) : list RefreshToken :=
  let candidates := filter (fun r => ((UserID r =? userID) && isNone (RevokedAt r) &&
    sqlAfter (ExpiresAt r) (Add now (- expiryPrefilterSlack))) = true) (map_to_list (tokens d)).*2 in
  merge_sort refreshedBefore (filter (fun r => After (ExpiresAt r) now = true) candidates).

Definition maxChainHops : nat := 1000.

(** [sessionChain]: the ids followed and the last row read. *)
Fixpoint chainFrom (hops : nat) (userID next : Z) (seen : list Z) (ids : list Z) (last : option RefreshToken) (d : db) :
    list Z * option RefreshToken :=
  match hops with
  | O => (ids, last)
  | S hops =>
      match tokens d !! next with
      | Some row =>
          if negb (UserID row =? userID) then (ids, last)
          else match ReplacedBy row with
          | None => (ids, Some row)
          | Some r =>
              if bool_decide (r ∈ seen) then (ids, Some row)
              else chainFrom hops userID r (r :: seen) (ids ++ [r]) (Some row) d
          end
      | None => (ids, last)
      end
  end.

Definition sessionChain (userID fromID : Z) (d : db) : list Z * option RefreshToken :=
  chainFrom maxChainHops userID fromID [fromID] [fromID] None d.

(** [sessionRow]: zero for none. *)
Definition sessionRow (userID rid : Z) (rows : list RefreshToken) (d : db) : Z :=
  if bool_decide (rid ∈ (RID <$> rows)) then rid
  else default 0 (find (fun id => bool_decide (id ∈ (RID <$> rows))) (sessionChain userID rid d).1).

(** [AuthSession] *)
Record AuthSession : Type := mkAuthSession {
  SID : string;
  LastRefreshedAt : time;
  SExpiresAt : time;
  Current : bool
}.

(** [ListSessions]; the rows are read from [d1], the request's chain from [d2]. *)
Definition ListSessions (sqlAfter : time -> time -> bool) (userID : Z) (requester : option Z) (now : time) (d1 d2 : db) :
    list AuthSession :=
  let rows := activeSessionRows sqlAfter userID now d1 in
  let current := match requester with Some rid => sessionRow userID rid rows d2 | None => 0 end in
  map (fun row => mkAuthSession (sessionID (RID row)) (CreatedAt row) (ExpiresAt row) (RID row =? current)) rows.

(** [requesterChain] *)
Definition requesterChain (userID rid : Z) (now : time) : tx (list Z) := fun d =>
  match sessionChain userID rid d with
  | (ids, Some head) =>
      if negb (isNone (RevokedAt head)) || negb (After (ExpiresAt head) now) then Err errSessionEnded else Ok (d, ids)
  | (_, None) => Err errSessionEnded
  end.

(** [revokeSessionsButTx] *)
Definition revokeSessionsButTx (userID : Z) (keep : list Z) (now : time) : tx unit :=
  update (fun d => setTokens (updateRows
    (fun r => (UserID r =? userID) && isNone (RevokedAt r) && negb (bool_decide (RID r ∈ keep))) (setRevoked now) (tokens d)) d).

(** [revokeOtherSessionsTx] *)
Definition revokeOtherSessionsTx (userID keepID : Z) (now : time) : tx unit :=
  let^ keepIDs := requesterChain userID keepID now in
  revokeSessionsButTx userID keepIDs now.

(** The revocations: the user's lock, or no sessions to revoke ([lockSessionsError]). *)
Definition lockSessions {A} (userID : Z) (k : tx A) : tx A :=
  let^ locked := lockUserTx userID in
  match locked with None => fail errSessionNotFound | Some _ => k end.

(** [revokeSessionAs] *)
Definition revokeSessionAsTx (sqlAfter : time -> time -> bool) (userID requester : Z) (id : string) (now now2 : time) : tx bool :=
  lockSessions userID (
    let^ rows := get (activeSessionRows sqlAfter userID now) in
    let^ own := (if requester =? 0 then ret 0 else get (sessionRow userID requester rows)) in
    if negb (requester =? 0) && (own =? 0) then fail errSessionEnded
    else match find (fun row => String.eqb (sessionID (RID row)) id) rows with
    | None => fail errSessionNotFound
    | Some row =>
        let^ affected := revokeRow (RID row) now2 in
        if affected =? 0 then fail errSessionNotFound else ret (RID row =? own)
    end).

Definition revokeSessionAs (sqlAfter : time -> time -> bool) (o : outcome) (userID requester : Z) (id : string)
    (now now2 : time) (d : db) : db * list audit * result autherr bool :=
  let '(d, r) := transact o (revokeSessionAsTx sqlAfter userID requester id now now2) d in
  (d, match r with Ok _ => [(AuditSessionRevoked "one", Some userID)] | Err _ => [] end, r).

(** [revokeAllSessionsAs] *)
Definition revokeAllSessionsAsTx (userID requester : Z) (now : time) : tx unit :=
  lockSessions userID (
    let^ _ := (if requester =? 0 then ret [] else requesterChain userID requester now) in
    revokeAllTx userID now).

Definition revokeAllSessionsAs (o : outcome) (userID requester : Z) (now : time) (d : db) :
    db * list audit * result autherr unit :=
  let '(d, r) := transact o (revokeAllSessionsAsTx userID requester now) d in
  (d, match r with Ok _ => [(AuditSessionRevoked "all", Some userID)] | Err _ => [] end, r).

(** [revokeOtherSessions] *)
Definition revokeOtherSessions (o : outcome) (userID keepID : Z) (now : time) (d : db) :
    db * list audit * result autherr unit :=
  let '(d, r) := transact o (lockSessions userID (revokeOtherSessionsTx userID keepID now)) d in
  (d, match r with Ok _ => [(AuditSessionRevoked "others", Some userID)] | Err _ => [] end, r).

(** ** auth/account_state.go *)

(** The transaction of [setUserState]: the user, and whether anything changed. *)
Definition setUserStateTx (userID : Z) (disable : bool) (check : User -> option autherr) (now : time) : tx (User * bool) :=
  let^ found := lockUserTx userID in
  match found with
  | None => fail errUserNotFound
  | Some locked =>
      match check locked with
      | Some e => fail e
      | None =>
          if Bool.eqb (Disabled locked) disable then ret (locked, false)
          else if negb disable then
            let^ _ := updateUser userID (setDisabledAt None) in
            ret (setDisabledAt None locked, true)
          else
            let^ _ := updateUser userID (setDisabledAt (Some now)) in
            let^ _ := revokeAllTx userID now in
            let^ _ := voidTokensTx userID 0 now [] in
            ret (setDisabledAt (Some now) locked, true)
      end
  end.

Definition setUserState (o : outcome) (userID : Z) (disable : bool) (check : User -> option autherr) (now : time) (d : db) :
    db * list audit * result autherr User :=
  let '(d, r) := transact o (setUserStateTx userID disable check now) d in
  match r with
  | Err e => (d, [], Err e)
  | Ok (user, changed) =>
      (d, if changed then [(if disable then AuditUserDisabled else AuditUserEnabled, Some (ID user))] else [], Ok user)
  end.

(** The rules of [changeUserState] on the target, for the signed-in [actor]. *)
Definition mayChangeState (actor : User) (disable : bool) (locked : User) : option autherr :=
  if IsSuperuser locked && negb (IsSuperuser actor) then Some errSuperuserOnly
  else if disable && (ID locked =? ID actor) then Some errCannotDisableSelf
  else None.
End Sessions.
