(* ===== verification/AuthOneTime.v ===== *)
(** * auth/onetime.go, password.go, password_change.go, verification.go, email_change.go: mailed links

    A one-time token is written pending, mailed, then activated, which supersedes the user's
    earlier tokens of its purpose; its first use consumes it.  The random token, the password
    hash and the mailer's answers are arguments. *)

From stdpp Require Import base tactics numbers list sorting strings gmap fin_maps.
From Stdlib Require Import ZArith Lia Ascii QArith.
From S2P Require Import Prelude GoBytes Float64 StorageKey AuthModels AuthSessions.

Local Open Scope string_scope.
Local Open Scope list_scope.
Local Open Scope Z_scope.
Local Open Scope gombit_scope.

Definition resendInterval : duration := Minute.

Section OneTime.
Variable cfg : AuthConfig.
Variable hashOpaqueToken : string -> string.
Variables collate normalizeEmail : string -> string.

(** ** Issuing *)

(** The latest row of a query [ORDER BY ... LIMIT 1], by a key. *)
Definition latest (key : OneTimeToken -> Z * Z) (l : list OneTimeToken) : option OneTimeToken :=
  fold_left (fun best o =>
    match best with
    | None => Some o
    | Some b => if (key b).1 <? (key o).1 then Some o
                else if ((key b).1 =? (key o).1) && ((key b).2 <? (key o).2) then Some o else best
    end) l None.

Definition rowsOf (userID : Z) (purpose : TokenPurpose) (sent : bool) (d : db) : list OneTimeToken :=
  filter (fun o => ((OUserID o =? userID) && bool_decide (Purpose o = purpose) &&
    Bool.eqb (negb (isNone (SentAt o))) sent) = true) (map_to_list (links d)).*2.

(** [oneTimeWait] *)
Definition oneTimeWait (userID : Z) (purpose : TokenPurpose) (now : time) (d : db) : duration :=
  let sent := latest (fun o => (default 0 (SentAt o), OID o)) (rowsOf userID purpose true d) in
  let pending := latest (fun o => (OID o, 0)) (rowsOf userID purpose false d) in
  let wait := match sent ≫= SentAt with Some t => resendInterval - (now - t) | None => 0 end in
  let wait := match pending with Some p => Z.max wait (resendInterval - (now - OCreatedAt p)) | None => wait end in
  Z.max wait 0.

Definition linkByHash (hash : string) (d : db) : option OneTimeToken :=
  firstRow (fun o => String.eqb (OTokenHash o) hash) (links d).

(** [oneTimeFlow] without its message. *)
Record oneTimeFlow : Type := mkFlow {
  f_purpose : TokenPurpose;
  f_ttl : duration;
  f_check : User -> db -> option autherr;
  f_to : string
}.

(** [issueOneTimeToken] of the user [userID]. *)
Definition issueOneTimeTx (userID : Z) (f : oneTimeFlow) (now : time) (fresh : option string) : tx (string * OneTimeToken) :=
  let^ found := lockUserTx userID in
  match found with
  | None => fail errUserNotFound
  | Some locked =>
      if Disabled locked then fail errAccountDisabled
      else
        let^ refused := get (f_check f locked) in
        match refused with
        | Some e => fail e
        | None =>
            let^ wait := get (oneTimeWait (ID locked) (f_purpose f) now) in
            if 0 <? wait then fail (resendTooSoon wait)
            else match fresh with
            | None => fail (errServer "random")
            | Some raw => fun d =>
                let to := if String.eqb (f_to f) "" then Email locked else f_to f in
                let token := mkOneTimeToken (nextLink d) (ID locked) (f_purpose f) (hashOpaqueToken raw) to (Email locked)
                               (Add now (f_ttl f)) None None now in
                match linkByHash (hashOpaqueToken raw) d with
                | Some _ => Err (errServer "unique violation")
                | None =>
                    Ok (mkDB (users d) (tokens d) (<[nextLink d := token]> (links d)) (nextUser d) (nextToken d) (nextLink d + 1),
                        (raw, token))
                end
            end
        end
  end.

(** [supersedeTokensTx] *)
Definition supersedeTokensTx (userID : Z) (purpose : TokenPurpose) (keep : Z) (now : time) : tx unit :=
  update (fun d => setLinks (updateRows (fun o => (OUserID o =? userID) && bool_decide (Purpose o = purpose) &&
    negb (isNone (SentAt o)) && isNone (UsedAt o) && negb (OID o =? keep)) (setUsed now) (links d)) d).

(** [activateToken] *)
Definition activateTokenTx (token : OneTimeToken) (now : time) : tx unit :=
  let^ found := lockUserTx (OUserID token) in
  match found with
  | None => fail (errServer "record not found")
  | Some _ => fun d =>
      let p o := (OID o =? OID token) && isNone (SentAt o) && isNone (UsedAt o) in
      if negb (affected p (links d) =? 1) then Err errTokenNotPending
      else supersedeTokensTx (OUserID token) (Purpose token) (OID token) now
             (setLinks (updateRows p (setSent now) (links d)) d)
  end.

(** [withdrawToken] *)
Definition withdrawToken (o : outcome) (token : OneTimeToken) (d : db) : db :=
  match o with
  | RolledBack => d
  | _ => setLinks (filter (fun r => negb ((OID r.2 =? OID token) && isNone (SentAt r.2)) = true) (links d)) d
  end.

(** What the Mailer answers. *)
Inductive mailed : Type := Delivered | NoMailer | NotSent.

(** [sendOneTimeToken] after the issue, from the mailer's answer on: a delivered token is
    activated ([o]), and withdrawn when that fails or the message was not sent ([ow]). *)
Definition afterMail (m : mailed) (o : outcome) (ow : outcome) (token : OneTimeToken) (now : time) (d : db) :
    db * result autherr unit :=
  match m with
  | NoMailer => (withdrawToken ow token d, Err errNoMailer)
  | NotSent => (withdrawToken ow token d, Err errMailNotSent)
  | Delivered =>
      match transact o (activateTokenTx token now) d with
      | (d, Ok _) => (d, Ok tt)
      | (d, Err e) => (withdrawToken ow token d, Err e)
      end
  end.

(** ** Using *)

(** The read of [consumeOneTimeToken]. *)
Definition findLink (raw : string) (purpose : TokenPurpose) (d : db) : option OneTimeToken :=
  firstRow (fun o => String.eqb (OTokenHash o) (hashOpaqueToken raw) && bool_decide (Purpose o = purpose)) (links d).

(** [consumeOneTimeToken] from the user's lock on; [found] is what the read before it gave. *)
Definition consumeOneTimeToken (found : option OneTimeToken) (now : time) : tx (OneTimeToken * User) :=
  match found with
  | None => fail errInvalidOneTimeToken
  | Some token =>
      let^ user := lockUserTx (OUserID token) in
      match user with
      | None => fail errInvalidOneTimeToken
      | Some locked =>
          if Disabled locked then fail errInvalidOneTimeToken
          else if isNone (SentAt token) || negb (isNone (UsedAt token)) || negb (Before now (OExpiresAt token))
          then fail errInvalidOneTimeToken
          else
            let p o := (OID o =? OID token) && negb (isNone (SentAt o)) && isNone (UsedAt o) in
            let^ affected := get (fun d => affected p (links d)) in
            let^ _ := update (fun d => setLinks (updateRows p (setUsed now) (links d)) d) in
            if negb (affected =? 1) then fail errInvalidOneTimeToken
            else
              let from := if String.eqb (FromEmail token) "" then OEmail token else FromEmail token in
              if negb (String.eqb (Email locked) from) then fail errInvalidOneTimeToken
              else ret (token, locked)
      end
  end.

(** [resetTokenMayWork]: the token is read from [d1], its user from [d2]. *)
Definition resetTokenMayWork (raw : string) (now : time) (d1 d2 : db) : bool :=
  match findLink raw PurposeResetPassword d1 with
  | None => false
  | Some token =>
      if isNone (SentAt token) || negb (isNone (UsedAt token)) || negb (Before now (OExpiresAt token)) then false
      else match users d2 !! OUserID token with
      | Some user => String.eqb (Email user) (OEmail token)
      | None => false
      end
  end.

(** The transaction of [consumeReset]; [hash] is the new password's. *)
Definition consumeResetTx (found : option OneTimeToken) (hash : string) (now : time) : tx User :=
  let^ used := consumeOneTimeToken found now in
  let '(token, locked) := used in
  let^ _ := updateUser (ID locked) (setPasswordHash hash) in
  let^ _ := voidPasswordBoundTokensTx (ID locked) (OID token) now in
  let^ _ := (if PasswordResetKeepSessions cfg then ret tt else revokeAllTx (ID locked) now) in
  ret (setPasswordHash hash locked).

(** The checks of [consumeReset] before its transaction: the hash to write, or the refusal. *)
Definition resetChecks (generate : bytes -> option string) (raw : string) (password : bytes) (now : time) (d1 d2 : db) :
    result autherr string :=
  let raw := to_string (TrimSpace (of_string raw)) in
  if String.eqb raw "" then Err errInvalidOneTimeToken
  else if negb (resetTokenMayWork raw now d1 d2) then Err errInvalidOneTimeToken
  else match checkNewPassword password "password" with
  | Some e => Err e
  | None => Hash generate password
  end.

Definition consumeReset (o : outcome) (found : option OneTimeToken) (hash : string) (now : time) (d : db) :
    db * list audit * result autherr User :=
  let '(d, r) := transact o (consumeResetTx found hash now) d in
  match r with
  | Err e => (d, [], Err e)
  | Ok user => (d, [(AuditPasswordReset (negb (PasswordResetKeepSessions cfg)), Some (ID user))], Ok user)
  end.

(** The transaction of [ChangePassword]: [user] is the snapshot the current password was
    checked on, [requester] the request's session or zero. *)
Definition changePasswordTx (user : User) (requester : Z) (keepOthers : bool) (hash : string) (now : time) : tx unit :=
  let^ found := lockUserTx (ID user) in
  match found with
  | None => fail errUserNotFound
  | Some locked =>
      if Disabled locked then fail errAccountDisabled
      else if negb (String.eqb (PasswordHash locked) (PasswordHash user)) then fail errPasswordChanged
      else
        let^ keep := (if requester =? 0 then ret [] else requesterChain (ID user) requester now) in
        let^ _ := updateUser (ID user) (setPasswordHash hash) in
        let^ _ := voidPasswordBoundTokensTx (ID user) 0 now in
        if keepOthers then ret tt
        else match keep with
        | [] => revokeAllTx (ID user) now
        | _ => revokeSessionsButTx (ID user) keep now
        end
  end.

Definition ChangePassword (o : outcome) (user : User) (requester : Z) (keepOthers : bool) (hash : string) (now : time) (d : db) :
    db * list audit * result autherr bool :=
  let '(d, r) := transact o (changePasswordTx user requester keepOthers hash now) d in
  match r with
  | Err e => (d, [], Err e)
  | Ok _ => (d, [(AuditPasswordChanged (negb keepOthers), Some (ID user))], Ok (negb keepOthers))
  end.

(** [consumeVerification] from its lock on. *)
Definition consumeVerificationTx (found : option OneTimeToken) (now : time) : tx User :=
  let^ used := consumeOneTimeToken found now in
  let '(token, locked) := used in
  if EmailVerified normalizeEmail locked then ret locked
  else
    let^ _ := updateUser (ID locked) (setVerified now (OEmail token)) in
    ret (setVerified now (OEmail token) locked).

Definition consumeVerification (o : outcome) (found : option OneTimeToken) (now : time) (d : db) :
    db * list audit * result autherr User :=
  let '(d, r) := transact o (consumeVerificationTx found now) d in
  (d, match r with Ok user => [(AuditEmailVerified, Some (ID user))] | Err _ => [] end, r).

(** [consumeEmailChange] from its lock on: the new user and the old address. *)
Definition consumeEmailChangeTx (found : option OneTimeToken) (now : time) : tx (User * string) :=
  let^ used := consumeOneTimeToken found now in
  let '(token, locked) := used in
  let^ taken := get (emailTaken collate (ID locked) (OEmail token)) in
  if taken then fail errEmailTaken
  else
    let change u := setVerified now (OEmail token) (setEmail (OEmail token) u) in
    let^ _ := updateUser (ID locked) change in
    let^ _ := voidTokensTx (ID locked) (OID token) now [] in
    ret (change locked, Email locked).

Definition consumeEmailChange (o : outcome) (found : option OneTimeToken) (now : time) (d : db) :
    db * list audit * result autherr (User * string) :=
  let '(d, r) := transact o (consumeEmailChangeTx found now) d in
  (d, match r with Ok (user, _) => [(AuditEmailChanged, Some (ID user))] | Err _ => [] end, r).

(** ** The flows *)

Definition DefaultEmailVerificationTTL : duration := 24 * Hour.
Definition DefaultPasswordResetTTL : duration := Hour.

(** [verificationTTL], [passwordResetTTL] *)
Definition verificationTTL : duration :=
  if 0 <? EmailVerificationTTL cfg then EmailVerificationTTL cfg else DefaultEmailVerificationTTL.
Definition passwordResetTTL : duration :=
  if 0 <? PasswordResetTTL cfg then PasswordResetTTL cfg else DefaultPasswordResetTTL.

(** [SendEmailVerification] *)
Definition verificationFlow : oneTimeFlow :=
  mkFlow PurposeVerifyEmail verificationTTL
    (fun u _ => if EmailVerified normalizeEmail u then Some errAlreadyVerified else None) "".

(** [RequestPasswordReset] *)
Definition resetFlow : oneTimeFlow := mkFlow PurposeResetPassword passwordResetTTL (fun _ _ => None) "".

(** [RequestEmailChange]: [user] is the snapshot the current password was checked on. *)
Definition emailChangeFlow (user : User) (newEmail : string) : oneTimeFlow :=
  mkFlow PurposeChangeEmail verificationTTL
    (fun locked d =>
       if negb (String.eqb (PasswordHash locked) (PasswordHash user)) then Some errPasswordChanged
       else if negb (String.eqb (Email locked) (Email user)) then Some errEmailChangedMeanwhile
       else if emailTaken collate 0 newEmail d then Some errEmailTaken
       else None) newEmail.

(** ** Registering *)

(** [createUser] after its checks and its hash: the unique email decides. *)
Definition createUserTx (email hash : string) (superuser : bool) (now : time) : tx User := fun d =>
  if emailTaken collate 0 email d then Err errEmailTaken
  else
    let user := mkUser (nextUser d) email hash superuser None (if superuser then Some now else None)
                  (if superuser then email else "") in
    Ok (mkDB (<[nextUser d := user]> (users d)) (tokens d) (links d) (nextUser d + 1) (nextToken d) (nextLink d), user).

(** [CheckNewAccount]; [validEmail] is net/mail's and the length. *)
Definition CheckNewAccount (validEmail : string -> bool) (email : string) (password : bytes) : option autherr :=
  if negb (validEmail (normalizeEmail email)) then Some errInvalidEmail
  else checkNewPassword password "password".

(** The checks of [createUser]: the normalized email and the hash. *)
Definition createChecks (validEmail : string -> bool) (generate : bytes -> option string) (email : string) (password : bytes) :
    result autherr (string * string) :=
  let email := normalizeEmail email in
  if String.eqb email "" then Err errInvalidCredentials
  else match CheckNewAccount validEmail email password with
  | Some e => Err e
  | None => match Hash generate password with Ok h => Ok (email, h) | Err e => Err e end
  end.
End OneTime.
