(* ===== verification/AuthWorld.v ===== *)
(** * Requests that interleave

    A request of the auth service reads rows without a lock, then runs its transaction; between
    the two any other request may run, of this process or another on the same database.  [step]
    performs one half of a request: the reads are kept under the request's number until its
    transaction runs. *)

From stdpp Require Import base tactics numbers list sorting strings gmap fin_maps.
From Stdlib Require Import ZArith Lia Ascii QArith.
From S2P Require Import Prelude GoBytes Float64 StorageKey AuthModels AuthSessions AuthOneTime.

Local Open Scope string_scope.
Local Open Scope list_scope.
Local Open Scope Z_scope.
Local Open Scope gombit_scope.

(** What a request has read. *)
Inductive call : Type :=
| CRotate (found : option RefreshToken)
| CLogin (user : User)
| CLogout (found : option RefreshToken)
| CUse (found : option OneTimeToken)
| CMail (token : OneTimeToken).

Record world : Type := mkWorld { wdb : db; calls : gmap Z call }.

(** The environment of the service: its configuration and the code it calls. *)
Record env : Type := mkEnv {
  e_cfg : AuthConfig;
  e_rnd : Q -> Q;
  e_hash : string -> string;
  e_sign : User -> Z -> duration -> time -> option string;
  e_sessionID : Z -> string;
  e_sqlAfter : time -> time -> bool;
  e_collate : string -> string;
  e_normalize : string -> string
}.

Inductive event : Type :=
(* the reads *)
| EReadToken (i : Z) (raw : string)
| EReadLogout (i : Z) (raw : string)
| EReadUser (i : Z) (userID : Z)
| EReadLink (i : Z) (raw : string) (purpose : TokenPurpose)
(* the transactions *)
| ERotate (i : Z) (o : outcome) (now : time) (fresh : option string)
| EStart (i : Z) (o : outcome) (now : time) (fresh : option string)
| ELogout (i : Z) (now : time)
| EReset (i : Z) (o : outcome) (hash : string) (now : time)
| EVerify (i : Z) (o : outcome) (now : time)
| EEmailChange (i : Z) (o : outcome) (now : time)
| EChangePassword (i : Z) (o : outcome) (requester : Z) (keepOthers : bool) (hash : string) (now : time)
| EIssue (i : Z) (o : outcome) (userID : Z) (f : oneTimeFlow) (now : time) (fresh : option string)
| EMail (i : Z) (m : mailed) (o ow : outcome) (now : time)
| ERevokeOne (o : outcome) (userID requester : Z) (id : string) (now now2 : time)
| ERevokeAll (o : outcome) (userID requester : Z) (now : time)
| ERevokeOthers (o : outcome) (userID keepID : Z) (now : time)
| ESetState (o : outcome) (userID : Z) (disable : bool) (check : User -> option autherr) (now : time)
| ERegister (o : outcome) (email hash : string) (superuser : bool) (now : time)
(* an application's own writes *)
| EDeleteUser (userID : Z)
| ESetEmail (userID : Z) (email : string).

(** What a transaction answers. *)
Inductive reply : Type :=
| RNone
| RRotated (row : Z) (r : result autherr (TokenPair * User))
| RStarted (snapshot : User) (r : result autherr (User * TokenPair))
| RUsed (link : Z) (r : option autherr)
| RDone (r : option autherr).

Definition failed {A} (r : result autherr A) : option autherr := match r with Ok _ => None | Err e => Some e end.
Definition linkID (found : option OneTimeToken) : Z := match found with Some o => OID o | None => 0 end.

Section World.
Variable E : env.
Local Abbreviation cfg := (e_cfg E).

Definition hold (i : Z) (c : call) (w : world) : world := mkWorld (wdb w) (<[i := c]> (calls w)).
Definition write (d : db) (w : world) : world := mkWorld d (calls w).

(** The transaction of request [i] ends it. *)
Definition finish (i : Z) (d : db) (w : world) : world := mkWorld d (delete i (calls w)).

Definition step (ev : event) (w : world) : world * reply :=
  let d := wdb w in
  match ev with
  | EReadToken i raw =>
      match refreshHash (e_hash E) raw with
      | Some hash => (hold i (CRotate (byHash hash d)) w, RNone)
      | None => (w, RDone (Some errInvalidRefreshToken))
      end
  | EReadLogout i raw =>
      match logoutRow (e_hash E) raw d with
      | Ok found => (hold i (CLogout found) w, RNone)
      | Err e => (w, RDone (Some e))
      end
  | EReadUser i userID => match users d !! userID with Some u => (hold i (CLogin u) w, RNone) | None => (w, RNone) end
  | EReadLink i raw purpose => (hold i (CUse (findLink (e_hash E) raw purpose d)) w, RNone)
  | ERotate i o now fresh =>
      match calls w !! i with
      | Some (CRotate found) =>
          let '(d, _, r) := rotateRefreshOnce cfg (e_rnd E) (e_hash E) (e_sign E) (e_sessionID E) o found now fresh d in
          (finish i d w, RRotated (match found with Some row => RID row | None => 0 end) r)
      | _ => (w, RNone)
      end
  | EStart i o now fresh =>
      match calls w !! i with
      | Some (CLogin user) =>
          let '(d, _, r) := startSession cfg (e_rnd E) (e_hash E) (e_sign E) o user now fresh d in
          (finish i d w, RStarted user r)
      | _ => (w, RNone)
      end
  | ELogout i now =>
      match calls w !! i with
      | Some (CLogout found) => (finish i (RevokeRefresh found now d).1 w, RDone None)
      | _ => (w, RNone)
      end
  | EReset i o hash now =>
      match calls w !! i with
      | Some (CUse found) => let '(d, _, r) := consumeReset cfg o found hash now d in (finish i d w, RUsed (linkID found) (failed r))
      | _ => (w, RNone)
      end
  | EVerify i o now =>
      match calls w !! i with
      | Some (CUse found) =>
          let '(d, _, r) := consumeVerification (e_normalize E) o found now d in (finish i d w, RUsed (linkID found) (failed r))
      | _ => (w, RNone)
      end
  | EEmailChange i o now =>
      match calls w !! i with
      | Some (CUse found) =>
          let '(d, _, r) := consumeEmailChange (e_collate E) o found now d in (finish i d w, RUsed (linkID found) (failed r))
      | _ => (w, RNone)
      end
  | EChangePassword i o requester keepOthers hash now =>
      match calls w !! i with
      | Some (CLogin user) =>
          let '(d, _, r) := ChangePassword o user requester keepOthers hash now d in (finish i d w, RDone (failed r))
      | _ => (w, RNone)
      end
  | EIssue i o userID f now fresh =>
      match transact o (issueOneTimeTx (e_hash E) userID f now fresh) d with
      | (d, Ok (_, token)) => (hold i (CMail token) (write d w), RDone None)
      | (d, Err e) => (write d w, RDone (Some e))
      end
  | EMail i m o ow now =>
      match calls w !! i with
      | Some (CMail token) => let '(d, r) := afterMail m o ow token now d in (finish i d w, RDone (failed r))
      | _ => (w, RNone)
      end
  | ERevokeOne o userID requester id now now2 =>
      let '(d, _, r) := revokeSessionAs (e_sessionID E) (e_sqlAfter E) o userID requester id now now2 d in
      (write d w, RDone (failed r))
  | ERevokeAll o userID requester now =>
      let '(d, _, r) := revokeAllSessionsAs o userID requester now d in (write d w, RDone (failed r))
  | ERevokeOthers o userID keepID now =>
      let '(d, _, r) := revokeOtherSessions o userID keepID now d in (write d w, RDone (failed r))
  | ESetState o userID disable check now =>
      let '(d, _, r) := setUserState o userID disable check now d in (write d w, RDone (failed r))
  | ERegister o email hash superuser now =>
      let '(d, r) := transact o (createUserTx (e_collate E) email hash superuser now) d in (write d w, RDone (failed r))
  | EDeleteUser userID => (write (setUsers (delete userID (users d)) d) w, RDone None)
  | ESetEmail userID email => (write (setUsers (alter (setEmail email) userID (users d)) d) w, RDone None)
  end.

Fixpoint run (evs : list event) (w : world) : world * list reply :=
  match evs with
  | [] => (w, [])
  | ev :: evs =>
      let '(w, r) := step ev w in
      let '(w, rs) := run evs w in
      (w, r :: rs)
  end.
End World.

Definition emptyDB : db := mkDB ∅ ∅ ∅ 1 1 1.
Definition startWorld : world := mkWorld emptyDB ∅.
