(* ===== verification/AuthInv.v ===== *)
(** * What the tables of the auth service keep

    [inv]: rows are stored under their ids, hashes are unique, a replaced token is revoked and
    its successor is a later row of the same user, no two tokens share a successor, a user has
    one working link of each purpose, and a disabled user has no session and no link.
    [later]: what no request undoes.  Both are proved for the statements the transactions are
    made of, and composed with [wp]. *)

From stdpp Require Import base tactics numbers list sorting strings gmap fin_maps.
From Stdlib Require Import ZArith Lia Ascii QArith.
From S2P Require Import Prelude GoBytes StorageKey AuthModels AuthSessions AuthOneTime.

Local Open Scope string_scope.
Local Open Scope list_scope.
Local Open Scope Z_scope.
Local Open Scope gombit_scope.

Create HintDb auth.

(** ** Rows *)

Lemma firstRow_Some {A} (p : A -> bool) (m : gmap Z A) a :
  firstRow p m = Some a -> p a = true /\ exists id, m !! id = Some a.
Proof.
  unfold firstRow. destruct (list_find _ _) as [[i [id x]]|] eqn:E; cbn; [|done]. intros [= <-].
  apply list_find_Some in E as (Hi & Hp & _). split; [done|]. exists id.
  apply elem_of_map_to_list. by eapply list_elem_of_lookup_2.
Qed.

Lemma firstRow_None {A} (p : A -> bool) (m : gmap Z A) :
  firstRow p m = None -> forall id a, m !! id = Some a -> p a = false.
Proof.
  unfold firstRow. destruct (list_find _ _) as [x|] eqn:E; cbn; [done|]. intros _ id a Ha.
  apply list_find_None in E. rewrite Forall_forall in E. apply not_true_is_false.
  apply (E (id, a)). by apply elem_of_map_to_list.
Qed.

Lemma lookup_updateRows {A} (p : A -> bool) f (m : gmap Z A) id :
  updateRows p f m !! id = (fun a => if p a then f a else a) <$> m !! id.
Proof. unfold updateRows. by rewrite lookup_fmap. Qed.

(** An update of one row. *)
Lemma affected_row {A} (p : A -> bool) (m : gmap Z A) id :
  (forall i a, m !! i = Some a -> p a = true -> i = id) ->
  affected p m = if (match m !! id with Some a => p a | None => false end) then 1 else 0.
Proof.
  intros Hu. unfold affected. destruct (m !! id) as [a|] eqn:Ha; [destruct (p a) eqn:Hp|].
  - assert (filter (fun r => p r.2 = true) m = {[id := a]}) as ->; [|by rewrite map_size_singleton].
    apply map_eq. intros i. destruct (decide (i = id)) as [->|Hne].
    + rewrite lookup_singleton_eq. by apply map_lookup_filter_Some.
    + rewrite lookup_singleton_ne by done. apply map_lookup_filter_None. right. intros b Hb Hpb. cbn in Hpb. by apply Hne, (Hu i b).
  - assert (filter (fun r => p r.2 = true) m = ∅) as ->; [|done]. apply map_empty. intros i.
    apply map_lookup_filter_None. right. intros b Hb Hpb. cbn in Hpb. assert (i = id) as -> by eauto. congruence.
  - assert (filter (fun r => p r.2 = true) m = ∅) as ->; [|done]. apply map_empty. intros i.
    apply map_lookup_filter_None. right. intros b Hb Hpb. cbn in Hpb. assert (i = id) as -> by eauto. congruence.
Qed.

(** ** The invariant *)

Definition working (o : OneTimeToken) : bool := negb (isNone (SentAt o)) && isNone (UsedAt o).

Record inv0 (d : db) : Prop := {
  i_next : 0 < nextUser d /\ 0 < nextToken d /\ 0 < nextLink d;
  i_user : forall id u, users d !! id = Some u -> ID u = id /\ 0 < id < nextUser d;
  i_token : forall id r, tokens d !! id = Some r -> RID r = id /\ 0 < id < nextToken d;
  i_hash : forall id1 id2 r1 r2, tokens d !! id1 = Some r1 -> tokens d !! id2 = Some r2 -> TokenHash r1 = TokenHash r2 -> id1 = id2;
  i_replaced : forall id r s, tokens d !! id = Some r -> ReplacedBy r = Some s ->
    RevokedAt r <> None /\ id < s /\ exists r', tokens d !! s = Some r' /\ UserID r' = UserID r;
  i_chain : forall id1 id2 r1 r2 s, tokens d !! id1 = Some r1 -> tokens d !! id2 = Some r2 ->
    ReplacedBy r1 = Some s -> ReplacedBy r2 = Some s -> id1 = id2;
  i_link : forall id o, links d !! id = Some o -> OID o = id /\ 0 < id < nextLink d;
  i_linkhash : forall id1 id2 o1 o2, links d !! id1 = Some o1 -> links d !! id2 = Some o2 ->
    OTokenHash o1 = OTokenHash o2 -> id1 = id2;
  i_one : forall id1 id2 o1 o2, links d !! id1 = Some o1 -> links d !! id2 = Some o2 ->
    OUserID o1 = OUserID o2 -> Purpose o1 = Purpose o2 -> working o1 = true -> working o2 = true -> id1 = id2
}.

(** A disabled account has nothing that works. *)
Definition inert (userID : Z) (d : db) : Prop :=
  (forall id r, tokens d !! id = Some r -> UserID r = userID -> RevokedAt r <> None) /\
  (forall id o, links d !! id = Some o -> OUserID o = userID -> UsedAt o <> None).

Definition off (d : db) : Prop := forall id u, users d !! id = Some u -> Disabled u = true -> inert id d.

Definition inv (d : db) : Prop := inv0 d /\ off d.

(** ** What is never undone *)

Record grown (r r' : RefreshToken) : Prop := {
  g_id : RID r' = RID r;
  g_user : UserID r' = UserID r;
  g_hash : TokenHash r' = TokenHash r;
  g_expires : ExpiresAt r' = ExpiresAt r;
  g_created : CreatedAt r' = CreatedAt r;
  g_revoked : RevokedAt r <> None -> RevokedAt r' = RevokedAt r;
  g_replaced : ReplacedBy r <> None -> ReplacedBy r' = ReplacedBy r
}.

Record aged (o o' : OneTimeToken) : Prop := {
  ag_id : OID o' = OID o;
  ag_user : OUserID o' = OUserID o;
  ag_purpose : Purpose o' = Purpose o;
  ag_hash : OTokenHash o' = OTokenHash o;
  ag_email : OEmail o' = OEmail o;
  ag_from : FromEmail o' = FromEmail o;
  ag_expires : OExpiresAt o' = OExpiresAt o;
  ag_sent : SentAt o <> None -> SentAt o' = SentAt o;
  ag_used : UsedAt o <> None -> UsedAt o' = UsedAt o
}.

Record later (d d' : db) : Prop := {
  l_nextUser : nextUser d <= nextUser d';
  l_nextToken : nextToken d <= nextToken d';
  l_nextLink : nextLink d <= nextLink d';
  l_token : forall id r, tokens d !! id = Some r -> exists r', tokens d' !! id = Some r' /\ grown r r';
  l_new : forall id r, tokens d' !! id = Some r -> tokens d !! id = None -> nextToken d <= id;
  l_link : forall id o, links d !! id = Some o ->
    (exists o', links d' !! id = Some o' /\ aged o o') \/ (links d' !! id = None /\ SentAt o = None);
  l_newlink : forall id o, links d' !! id = Some o -> links d !! id = None -> nextLink d <= id
}.

Lemma grown_refl r : grown r r.
Proof. by split. Qed.
Lemma aged_refl o : aged o o.
Proof. by split. Qed.
#[export] Hint Resolve grown_refl aged_refl : auth.

Lemma grown_trans r1 r2 r3 : grown r1 r2 -> grown r2 r3 -> grown r1 r3.
Proof.
  intros [] []. split; try congruence.
  - intros Hr. rewrite g_revoked1; [by apply g_revoked0|]. by rewrite g_revoked0.
  - intros Hr. rewrite g_replaced1; [by apply g_replaced0|]. by rewrite g_replaced0.
Qed.

Lemma aged_trans o1 o2 o3 : aged o1 o2 -> aged o2 o3 -> aged o1 o3.
Proof.
  intros [] []. split; try congruence.
  - intros Hr. rewrite ag_sent1; [by apply ag_sent0|]. by rewrite ag_sent0.
  - intros Hr. rewrite ag_used1; [by apply ag_used0|]. by rewrite ag_used0.
Qed.

#[export] Instance later_refl : Reflexive later.
Proof.
  intros d. split; try lia; try congruence; intros id x Hx; [by exists x; eauto with auth|].
  left. by exists x; eauto with auth.
Qed.

(** Ids below the counters are never given out again, so an absent row stays absent; this is
    what [later_trans] needs of the database in between. *)
Lemma later_trans d1 d2 d3 : inv0 d1 -> later d1 d2 -> later d2 d3 -> later d1 d3.
Proof.
  intros Hi [a1 a2 a3 a4 a5 a6 a7] [b1 b2 b3 b4 b5 b6 b7]. split; try lia.
  - intros id r Hr. destruct (a4 id r Hr) as (r2 & Hr2 & Hg). destruct (b4 id r2 Hr2) as (r3 & Hr3 & Hg').
    exists r3. split; [done|]. by eapply grown_trans.
  - intros id r Hr Hn. destruct (tokens d2 !! id) as [r2|] eqn:E; [by eapply a5|]. specialize (b5 _ _ Hr E). lia.
  - intros id o Ho. destruct (a6 id o Ho) as [(o2 & Ho2 & Hg)|[Hn Hs]].
    + destruct (b6 id o2 Ho2) as [(o3 & Ho3 & Hg')|[Hn Hs]].
      * left. exists o3. split; [done|]. by eapply aged_trans.
      * right. split; [done|]. destruct (SentAt o) as [t|] eqn:Es; [|done].
        pose proof (ag_sent _ _ Hg ltac:(congruence)). congruence.
    + right. split; [|done]. destruct (links d3 !! id) as [o3|] eqn:E; [|done]. exfalso.
      destruct (i_link _ Hi _ _ Ho). specialize (b7 _ _ E Hn). lia.
  - intros id o Ho Hn. destruct (links d2 !! id) as [o2|] eqn:E; [by eapply a7|]. specialize (b7 _ _ Ho E). lia.
Qed.

(** ** Transactions *)

Definition wp {A} (m : tx A) (d : db) (Q : db -> A -> Prop) : Prop :=
  match m d with Ok (d', a) => Q d' a | Err _ => True end.

Lemma tx_wp_bind {A B} (m : tx A) (f : A -> tx B) d Q :
  wp m d (fun d' a => wp (f a) d' Q) -> wp (tx_bind m f) d Q.
Proof. unfold wp, tx_bind. by destruct (m d) as [[d' a]|e]. Qed.

Lemma wp_ret {A} (a : A) d (Q : db -> A -> Prop) : Q d a -> wp (ret a) d Q.
Proof. done. Qed.
Lemma wp_fail {A} e d (Q : db -> A -> Prop) : wp (fail e) d Q.
Proof. done. Qed.
Lemma wp_get {A} (f : db -> A) d Q : Q d (f d) -> wp (get f) d Q.
Proof. done. Qed.
Lemma tx_wp_mono {A} (m : tx A) d (Q Q' : db -> A -> Prop) : wp m d Q -> (forall d' a, Q d' a -> Q' d' a) -> wp m d Q'.
Proof. unfold wp. destruct (m d) as [[d' a]|e]; auto. Qed.

Lemma wp_transact {A} o (m : tx A) d (Q : db -> A -> Prop) : wp m d Q ->
  (transact o m d).1 = d \/ exists a, m d = Ok ((transact o m d).1, a) /\ Q (transact o m d).1 a.
Proof.
  unfold wp, transact. intros Hw. destruct o; [|by left|]; (destruct (m d) as [[d' a]|e]; [right | by left]); by exists a.
Qed.

Lemma transact_Ok {A} o (m : tx A) d d' a : transact o m d = (d', Ok a) -> o = Committed /\ m d = Ok (d', a).
Proof. unfold transact. destruct o; [|done|]; destruct (m d) as [[d0 a0]|e]; intros [= <- <-]. done. Qed.

(** ** Statements *)

(** Revoking rows that were not revoked. *)
Definition revokeWhere (p : RefreshToken -> bool) (now : time) (d : db) : db :=
  setTokens (updateRows p (setRevoked now) (tokens d)) d.

Lemma lookup_revokeWhere p now d id : tokens (revokeWhere p now d) !! id =
  (fun r => if p r then setRevoked now r else r) <$> tokens d !! id.
Proof. apply lookup_updateRows. Qed.

Lemma revokeWhere_row p now d id r : tokens (revokeWhere p now d) !! id = Some r ->
  exists r0, tokens d !! id = Some r0 /\ r = (if p r0 then setRevoked now r0 else r0).
Proof. rewrite lookup_revokeWhere. destruct (tokens d !! id) as [r0|]; cbn; [|done]. intros [= <-]. by exists r0. Qed.

Section Revoke.
Context (p : RefreshToken -> bool) (now : time) (Hp : forall r, p r = true -> RevokedAt r = None).

Lemma revoked_grown r : grown r (if p r then setRevoked now r else r).
Proof. destruct (p r) eqn:E; [|by auto with auth]. apply Hp in E. by split. Qed.

Lemma revoked_revoked r : RevokedAt r <> None -> RevokedAt (if p r then setRevoked now r else r) <> None.
Proof. by destruct (p r). Qed.

Lemma revokeWhere_later d : later d (revokeWhere p now d).
Proof.
  split; try done.
  - intros id r Hr. rewrite lookup_revokeWhere, Hr. eexists. split; [done | apply revoked_grown].
  - intros id r Hr Hn. rewrite lookup_revokeWhere, Hn in Hr. done.
  - intros id o Ho. left. by exists o; auto with auth.
  - intros id o Ho Hn. cbn in Ho. congruence.
Qed.

Lemma revokeWhere_inv0 d : inv0 d -> inv0 (revokeWhere p now d).
Proof.
  intros [h1 h2 h3 h4 h5 h6 h7 h8 h9].
  assert (forall r0, UserID (if p r0 then setRevoked now r0 else r0) = UserID r0) as Hu by (intros r0; by destruct (p r0)).
  assert (forall r0, ReplacedBy (if p r0 then setRevoked now r0 else r0) = ReplacedBy r0) as Hrb by (intros r0; by destruct (p r0)).
  split; try done.
  - intros id r (r0 & Hr & ->)%revokeWhere_row. specialize (h3 _ _ Hr). by destruct (p r0).
  - intros id1 id2 r1 r2 (r3 & H1 & ->)%revokeWhere_row (r4 & H2 & ->)%revokeWhere_row He. eapply h4; [done | done|].
    by destruct (p r3), (p r4).
  - intros id r s (r0 & Hr & ->)%revokeWhere_row Hs. rewrite Hrb in Hs. destruct (h5 _ _ _ Hr Hs) as (Hrv & Hlt & r' & Hr' & Hus).
    split; [by apply revoked_revoked|]. split; [done|]. eexists. rewrite lookup_revokeWhere, Hr'. split; [done|]. by rewrite !Hu.
  - intros id1 id2 r1 r2 s (r3 & H1 & ->)%revokeWhere_row (r4 & H2 & ->)%revokeWhere_row. rewrite !Hrb. by apply h6.
Qed.

Lemma revokeWhere_inert userID d : inert userID d -> inert userID (revokeWhere p now d).
Proof.
  intros [Ht Hl]. split; [|done]. intros id r (r0 & Hr & ->)%revokeWhere_row Hu. apply revoked_revoked.
  eapply Ht; [done|]. by destruct (p r0).
Qed.

Lemma revokeWhere_off d : off d -> off (revokeWhere p now d).
Proof. intros Ho id u Hu Hd. by apply revokeWhere_inert, (Ho id u). Qed.
End Revoke.

(** Using links up. *)
Definition useWhere (p : OneTimeToken -> bool) (now : time) (d : db) : db :=
  setLinks (updateRows p (setUsed now) (links d)) d.

Lemma lookup_useWhere p now d id : links (useWhere p now d) !! id =
  (fun o => if p o then setUsed now o else o) <$> links d !! id.
Proof. apply lookup_updateRows. Qed.

Lemma useWhere_row p now d id o : links (useWhere p now d) !! id = Some o ->
  exists o0, links d !! id = Some o0 /\ o = (if p o0 then setUsed now o0 else o0).
Proof. rewrite lookup_useWhere. destruct (links d !! id) as [o0|]; cbn; [|done]. intros [= <-]. by exists o0. Qed.

Section Use.
Context (p : OneTimeToken -> bool) (now : time) (Hp : forall o, p o = true -> UsedAt o = None).

Lemma used_aged o : aged o (if p o then setUsed now o else o).
Proof. destruct (p o) eqn:E; [|by auto with auth]. apply Hp in E. by split. Qed.

Lemma useWhere_later d : later d (useWhere p now d).
Proof.
  split; try done.
  - intros id r Hr. by exists r; auto with auth.
  - intros id r Hr Hn. cbn in Hr. congruence.
  - intros id o Ho. left. rewrite lookup_useWhere, Ho. eexists. split; [done | apply used_aged].
  - intros id o Ho Hn. rewrite lookup_useWhere, Hn in Ho. done.
Qed.

Lemma used_working o : working (if p o then setUsed now o else o) = true -> working o = true /\ p o = false.
Proof. destruct (p o); [|done]. unfold working. cbn. by rewrite andb_false_r. Qed.

Lemma useWhere_inv0 d : inv0 d -> inv0 (useWhere p now d).
Proof.
  intros [h1 h2 h3 h4 h5 h6 h7 h8 h9]. split; try done.
  - intros id o (o0 & Ho & ->)%useWhere_row. specialize (h7 _ _ Ho). by destruct (p o0).
  - intros id1 id2 o1 o2 (o3 & H1 & ->)%useWhere_row (o4 & H2 & ->)%useWhere_row He. eapply h8; [done | done|].
    by destruct (p o3), (p o4).
  - intros id1 id2 o1 o2 (o3 & H1 & ->)%useWhere_row (o4 & H2 & ->)%useWhere_row Hu Hpu [Hw1 _]%used_working [Hw2 _]%used_working.
    eapply h9; [done | done | | | done | done]; by destruct (p o3), (p o4).
Qed.

Lemma useWhere_inert userID d : inert userID d -> inert userID (useWhere p now d).
Proof.
  intros [Ht Hl]. split; [done|]. intros id o (o0 & Ho & ->)%useWhere_row Hu.
  assert (UsedAt o0 <> None) by (eapply Hl; [done|]; by destruct (p o0)). by destruct (p o0).
Qed.

Lemma useWhere_off d : off d -> off (useWhere p now d).
Proof. intros Ho id u Hu Hd. by apply useWhere_inert, (Ho id u). Qed.
End Use.

(** Writing users: the tokens and links are as they were. *)
Lemma setUsers_later m d : later d (setUsers m d).
Proof. destruct (later_refl d). by split. Qed.

Lemma setUsers_inv0 m d : inv0 d -> (forall id u, m !! id = Some u -> ID u = id /\ 0 < id < nextUser d) -> inv0 (setUsers m d).
Proof. intros [] Hm. by split. Qed.

Lemma alter_users_inv0 f userID d : inv0 d -> (forall u, ID (f u) = ID u) -> inv0 (setUsers (alter f userID (users d)) d).
Proof.
  intros Hi Hf. apply setUsers_inv0; [done|]. intros id u Hu. rewrite lookup_alter in Hu.
  destruct (decide (userID = id)) as [->|]; [|by apply Hi].
  destruct (users d !! id) as [u0|] eqn:E; cbn in Hu; [|done]. injection Hu as <-. rewrite Hf. by apply Hi.
Qed.

Lemma alter_users_off f userID d : off d -> (forall u, Disabled (f u) = Disabled u) -> off (setUsers (alter f userID (users d)) d).
Proof.
  intros Ho Hf id u Hu Hd. cbn in Hu. rewrite lookup_alter in Hu. destruct (decide (userID = id)) as [->|]; [|by apply (Ho id u)].
  destruct (users d !! id) as [u0|] eqn:E; cbn in Hu; [|done]. injection Hu as <-. rewrite Hf in Hd. by apply (Ho id u0).
Qed.

(** A new session. *)
Definition addToken (userID : Z) (hash : string) (expires now : time) (d : db) : db :=
  mkDB (users d) (<[nextToken d := mkRefreshToken (nextToken d) userID hash expires None None now]> (tokens d)) (links d)
    (nextUser d) (nextToken d + 1) (nextLink d).

Lemma nextToken_free d : inv0 d -> tokens d !! nextToken d = None.
Proof. intros Hi. destruct (tokens d !! nextToken d) eqn:E; [|done]. apply (i_token _ Hi) in E. lia. Qed.
Lemma nextLink_free d : inv0 d -> links d !! nextLink d = None.
Proof. intros Hi. destruct (links d !! nextLink d) eqn:E; [|done]. apply (i_link _ Hi) in E. lia. Qed.

Lemma addToken_later userID hash expires now d : inv0 d -> later d (addToken userID hash expires now d).
Proof.
  intros Hi. split; cbn; try lia.
  - intros id r Hr. exists r. split; [|auto with auth]. rewrite lookup_insert_ne; [done|]. intros <-. by rewrite nextToken_free in Hr.
  - intros id r Hr Hn. destruct (decide (nextToken d = id)) as [->|]; [lia|]. rewrite lookup_insert_ne in Hr by done. congruence.
  - intros id o Ho. left. by exists o; auto with auth.
  - congruence.
Qed.

Lemma addToken_row userID hash expires now d id r : inv0 d -> tokens (addToken userID hash expires now d) !! id = Some r ->
  (id = nextToken d /\ r = mkRefreshToken (nextToken d) userID hash expires None None now) \/ (tokens d !! id = Some r /\ id < nextToken d).
Proof.
  intros Hi. cbn. destruct (decide (nextToken d = id)) as [<-|]; [rewrite lookup_insert_eq | rewrite lookup_insert_ne by done].
  - intros [= <-]. by left.
  - intros Hr. right. split; [done|]. apply (i_token _ Hi) in Hr. lia.
Qed.

Lemma addToken_inv0 userID hash expires now d : inv0 d -> byHash hash d = None -> inv0 (addToken userID hash expires now d).
Proof.
  intros Hi Hfree. pose proof Hi as [h1 h2 h3 h4 h5 h6 h7 h8 h9].
  assert (forall id r, tokens d !! id = Some r -> TokenHash r <> hash) as Hh.
  { intros id r Hr E. pose proof (firstRow_None _ _ Hfree id r Hr) as Hf. cbn in Hf. rewrite E, String.eqb_refl in Hf. done. }
  split; try done.
  - cbn. lia.
  - intros id r [[-> ->]|[Hr Hlt]]%addToken_row; [cbn; lia | | done]. specialize (h3 _ _ Hr). cbn. lia.
  - intros id1 id2 r1 r2 [[-> ->]|[H1 _]]%addToken_row [[-> ->]|[H2 _]]%addToken_row; cbn; try done; intros He.
    + by destruct (Hh _ _ H2).
    + by destruct (Hh _ _ H1).
    + by eapply h4.
  - intros id r s [[-> ->]|[Hr Hlt]]%addToken_row Hs; [done| |done]. destruct (h5 _ _ _ Hr Hs) as (Hrv & Hls & r' & Hr' & Hu).
    split; [done|]. split; [done|]. exists r'. split; [|done]. cbn. rewrite lookup_insert_ne; [done|].
    intros <-. by rewrite nextToken_free in Hr'.
  - intros id1 id2 r1 r2 s [[-> ->]|[H1 _]]%addToken_row [[-> ->]|[H2 _]]%addToken_row; try done. by apply h6.
Qed.

Lemma addToken_off userID hash expires now d : inv0 d -> off d ->
  (forall u, users d !! userID = Some u -> Disabled u = false) -> off (addToken userID hash expires now d).
Proof.
  intros Hi Ho Hu id u Hid Hd. destruct (Ho id u Hid Hd) as [Ht Hl]. split; [|done].
  intros id' r [[-> ->]|[Hr _]]%addToken_row Hus; [|by eapply Ht|done]. cbn in Hus. subst userID.
  cbn in Hid. rewrite (Hu _ Hid) in Hd. done.
Qed.

(** The link to a successor. *)
Definition linkTo (id s : Z) (d : db) : db := setTokens (alter (setReplacedBy s) id (tokens d)) d.

Lemma linkTo_row id s d i r : tokens (linkTo id s d) !! i = Some r ->
  exists r0, tokens d !! i = Some r0 /\ r = (if decide (i = id) then setReplacedBy s r0 else r0).
Proof.
  cbn. rewrite lookup_alter. destruct (decide (id = i)) as [->|]; cbn.
  - destruct (tokens d !! i) as [r0|]; cbn; [|done]. intros [= <-]. exists r0. by rewrite decide_True.
  - intros Hr. exists r. by rewrite decide_False.
Qed.

Lemma linkTo_inv id s d r r' : inv d -> tokens d !! id = Some r -> RevokedAt r <> None -> ReplacedBy r = None ->
  id < s -> tokens d !! s = Some r' -> UserID r' = UserID r ->
  (forall i r0, tokens d !! i = Some r0 -> ReplacedBy r0 <> Some s) -> inv (linkTo id s d) /\ later d (linkTo id s d).
Proof.
  intros [Hi Ho] Hr Hrv Hrb Hlt Hs Hu Hnew. pose proof Hi as [h1 h2 h3 h4 h5 h6 h7 h8 h9].
  assert (forall i r0, UserID (if decide (i = id) then setReplacedBy s r0 else r0) = UserID r0) as HU by (intros i r0; by case_decide).
  assert (forall i r0, RevokedAt (if decide (i = id) then setReplacedBy s r0 else r0) = RevokedAt r0) as HR by (intros i r0; by case_decide).
  assert (forall i r0, tokens d !! i = Some r0 -> exists r1, tokens (linkTo id s d) !! i = Some r1 /\ UserID r1 = UserID r0 /\ grown r0 r1) as Hlk.
  { intros i r0 H0. cbn. rewrite lookup_alter. destruct (decide (id = i)) as [->|]; cbn.
    - rewrite H0. cbn. eexists. split; [done|]. split; [done|]. assert (r0 = r) as -> by congruence. by split.
    - exists r0. split; [done|]. split; [done | auto with auth]. }
  split; [split; [split; try done|]|].
  - intros i r1 (r0 & H0 & ->)%linkTo_row. specialize (h3 _ _ H0). by case_decide.
  - intros i1 i2 r1 r2 (r3 & H1 & ->)%linkTo_row (r4 & H2 & ->)%linkTo_row He. eapply h4; [done | done|]. by do 2 case_decide.
  - intros i r1 s1 (r0 & H0 & ->)%linkTo_row Hs1. rewrite HR. case_decide as Hd.
    + subst i. cbn in Hs1. injection Hs1 as <-. assert (r0 = r) as -> by congruence. split; [done|]. split; [done|].
      destruct (Hlk _ _ Hs) as (r2 & Hr2 & Hur2 & _). exists r2. split; [done|]. cbn. congruence.
    + destruct (h5 _ _ _ H0 Hs1) as (Hv & Hl & r2 & Hr2 & Hur). split; [done|]. split; [done|].
      destruct (Hlk _ _ Hr2) as (r3 & Hr3 & Hur3 & _). exists r3. split; [done | congruence].
  - intros i1 i2 r1 r2 s1 (r3 & H1 & ->)%linkTo_row (r4 & H2 & ->)%linkTo_row.
    case_decide as Hd1; case_decide as Hd2; cbn; intros E1 E2; subst; try done.
    + injection E1 as <-. by destruct (Hnew _ _ H2).
    + injection E2 as <-. by destruct (Hnew _ _ H1).
    + by eapply h6.
  - intros uid u Hu0 Hd. destruct (Ho uid u Hu0 Hd) as [Ht Hl]. split; [|done].
    intros i r1 (r0 & H0 & ->)%linkTo_row Hus. rewrite HR. eapply Ht; [done|]. by rewrite HU in Hus.
  - split; try done.
    + intros i r0 H0. destruct (Hlk _ _ H0) as (r1 & H1 & _ & Hg). by exists r1.
    + intros i r1 (r0 & H0 & _)%linkTo_row Hn. congruence.
    + intros i o Hio. left. by exists o; auto with auth.
    + intros i o Hio Hn. cbn in Hio. congruence.
Qed.

(** A new pending link. *)
Lemma addLink_inv o d : inv d -> OID o = nextLink d -> SentAt o = None -> linkByHash (OTokenHash o) d = None ->
  (forall u, users d !! OUserID o = Some u -> Disabled u = false) ->
  let d' := mkDB (users d) (tokens d) (<[nextLink d := o]> (links d)) (nextUser d) (nextToken d) (nextLink d + 1) in
  inv d' /\ later d d'.
Proof.
  intros [Hi Ho] Hid Hs Hfree Hu d'. pose proof Hi as [h1 h2 h3 h4 h5 h6 h7 h8 h9].
  assert (forall i x, links d' !! i = Some x -> (i = nextLink d /\ x = o) \/ links d !! i = Some x) as Hrow.
  { intros i x. cbn. destruct (decide (nextLink d = i)) as [<-|]; [rewrite lookup_insert_eq | rewrite lookup_insert_ne by done; by right].
    intros [= <-]. by left. }
  assert (working o = false) as Hw by (unfold working; by rewrite Hs).
  assert (forall i x, links d !! i = Some x -> OTokenHash x <> OTokenHash o) as Hh.
  { intros i x Hx E. pose proof (firstRow_None _ _ Hfree i x Hx) as Hf. cbn in Hf. rewrite E, String.eqb_refl in Hf. done. }
  split; [split; [split; try done|]|].
  - cbn. lia.
  - intros i x [[-> ->]|Hx]%Hrow; [cbn; lia|]. specialize (h7 _ _ Hx). cbn. lia.
  - intros i1 i2 o1 o2 [[-> ->]|H1]%Hrow [[-> ->]|H2]%Hrow He; try done; [by destruct (Hh _ _ H2) | by destruct (Hh _ _ H1) | by eapply h8].
  - intros i1 i2 o1 o2 [[-> ->]|H1]%Hrow [[-> ->]|H2]%Hrow; try congruence. by apply h9.
  - intros uid u Huid Hd. destruct (Ho uid u Huid Hd) as [Ht Hl]. split; [done|].
    intros i x [[-> ->]|Hx]%Hrow Hus; [|by eapply Hl]. subst uid. cbn in Huid. rewrite (Hu _ Huid) in Hd. done.
  - split; cbn; try lia; try congruence.
    + intros i r Hr. by exists r; auto with auth.
    + intros i x Hx. left. exists x. split; [|auto with auth]. rewrite lookup_insert_ne; [done|]. intros <-. by rewrite nextLink_free in Hx.
    + intros i x Hx Hn. destruct (decide (nextLink d = i)) as [->|]; [lia|]. rewrite lookup_insert_ne in Hx by done. congruence.
Qed.

(** Withdrawing pending links. *)
Lemma dropLinks_inv (p : OneTimeToken -> bool) d : inv d -> (forall o, p o = true -> SentAt o = None) ->
  let d' := setLinks (filter (fun r => negb (p r.2) = true) (links d)) d in inv d' /\ later d d'.
Proof.
  intros [Hi Ho] Hp d'. pose proof Hi as [h1 h2 h3 h4 h5 h6 h7 h8 h9].
  assert (forall i x, links d' !! i = Some x -> links d !! i = Some x) as Hrow.
  { intros i x Hx. cbn in Hx. by apply map_lookup_filter_Some in Hx as [Hx _]. }
  split; [split; [split; try done|]|]; eauto.
  - intros uid u Huid Hd. destruct (Ho uid u Huid Hd) as [Ht Hl]. split; [done|]. eauto.
  - split; cbn; try lia; try congruence.
    + intros i r Hr. by exists r; auto with auth.
    + intros i x Hx. destruct (p x) eqn:E; [right | left].
      * split; [|by apply Hp]. apply map_lookup_filter_None. right. intros y Hy. cbn. assert (y = x) as -> by congruence. by rewrite E.
      * exists x. split; [|auto with auth]. apply map_lookup_filter_Some. split; [done|]. cbn. by rewrite E.
    + intros i x Hx. apply Hrow in Hx. congruence.
Qed.

(** Activating a pending link supersedes the others. *)
Lemma activate_inv token now d o : inv d -> links d !! OID token = Some o -> SentAt o = None -> UsedAt o = None ->
  OUserID o = OUserID token -> Purpose o = Purpose token ->
  let p x := (OID x =? OID token) && isNone (SentAt x) && isNone (UsedAt x) in
  let d1 := setLinks (updateRows p (setSent now) (links d)) d in
  let d2 := useWhere (fun x => (OUserID x =? OUserID token) && bool_decide (Purpose x = Purpose token) &&
    negb (isNone (SentAt x)) && isNone (UsedAt x) && negb (OID x =? OID token)) now d1 in
  inv d2 /\ later d d2.
Proof.
  intros [Hi Ho] Hlk Hsent Hused Hus Hpu p d1 d2. pose proof Hi as [h1 h2 h3 h4 h5 h6 h7 h8 h9].
  set (s x := (OUserID x =? OUserID token) && _ && _ && _ && _) in d2.
  set (f x := let y := if p x then setSent now x else x in if s y then setUsed now y else y).
  assert (forall i, links d2 !! i = f <$> links d !! i) as Hl.
  { intros i. subst d2. rewrite lookup_useWhere. cbn. rewrite lookup_updateRows. by destruct (links d !! i). }
  assert (forall i y, links d2 !! i = Some y -> exists x, links d !! i = Some x /\ y = f x) as Hrow.
  { intros i y. rewrite Hl. destruct (links d !! i) as [x|]; cbn; [|done]. intros [= <-]. by exists x. }
  assert (forall x, OID (f x) = OID x /\ OUserID (f x) = OUserID x /\ Purpose (f x) = Purpose x /\ OTokenHash (f x) = OTokenHash x) as Hf.
  { intros x. unfold f. cbv zeta. destruct (p x); [by destruct (s (setSent now x)) | by destruct (s x)]. }
  assert (forall x, aged x (f x)) as Hag.
  { intros x. unfold f. cbv zeta. apply (aged_trans _ (if p x then setSent now x else x)).
    - destruct (p x) eqn:E; [|auto with auth]. unfold p in E. split; try done. intros Hn. by destruct (SentAt x); [rewrite andb_false_r in E|].
    - apply used_aged. intros y Hy. unfold s in Hy. destruct (UsedAt y); [|done]. cbn in Hy. by rewrite andb_false_r in Hy. }
  assert (forall i x, links d !! i = Some x -> working (f x) = true -> OUserID x = OUserID token -> Purpose x = Purpose token -> i = OID token) as Hone.
  { intros i x Hx Hw Hu Hp'. destruct (h7 _ _ Hx) as [HO _]. destruct (decide (i = OID token)) as [|Hne]; [done|]. exfalso.
    assert (p x = false) as Epx by (unfold p; rewrite HO, (proj2 (Z.eqb_neq _ _) Hne); done).
    unfold f in Hw. rewrite Epx in Hw. cbv zeta in Hw. destruct (s x) eqn:Es; [by unfold working in Hw; cbn in Hw; rewrite andb_false_r in Hw|].
    unfold s in Es. unfold working in Hw. apply andb_true_iff in Hw as [Hw1 Hw2].
    rewrite Hu, Z.eqb_refl, Hp', bool_decide_eq_true_2, Hw1, Hw2, HO, (proj2 (Z.eqb_neq _ _) Hne) in Es by done. done. }
  split; [split; [split; try done|]|].
  - intros i y (x & Hx & ->)%Hrow. destruct (Hf x) as (-> & _). by apply h7.
  - intros i1 i2 o1 o2 (x1 & H1 & ->)%Hrow (x2 & H2 & ->)%Hrow. destruct (Hf x1) as (_ & _ & _ & ->), (Hf x2) as (_ & _ & _ & ->). by apply h8.
  - intros i1 i2 o1 o2 (x1 & H1 & ->)%Hrow (x2 & H2 & ->)%Hrow.
    destruct (Hf x1) as (_ & Hu1 & Hp1 & _), (Hf x2) as (_ & Hu2 & Hp2 & _). rewrite Hu1, Hu2, Hp1, Hp2. intros EU EP W1 W2.
    destruct (decide (OUserID x1 = OUserID token /\ Purpose x1 = Purpose token)) as [[E1 E2]|Hno].
    + rewrite (Hone i1 x1), (Hone i2 x2); congruence.
    + assert (forall i x, links d !! i = Some x -> OUserID x = OUserID x1 -> Purpose x = Purpose x1 -> working (f x) = true -> working x = true) as Hold.
      { intros i x Hx E1 E2 W. assert (p x = false) as Epx.
        { unfold p. destruct (OID x =? OID token) eqn:E; [|done]. exfalso. apply Hno. apply Z.eqb_eq in E.
          destruct (h7 _ _ Hx) as [HO _]. assert (x = o) as -> by congruence. split; congruence. }
        unfold f in W. rewrite Epx in W. cbv zeta in W. destruct (s x); [|done]. unfold working in W. cbn in W. by rewrite andb_false_r in W. }
      eapply h9; [done | done | done | done | by eapply Hold | by eapply Hold].
  - intros uid u Huid Hd. destruct (Ho uid u Huid Hd) as [Ht Hlu]. split; [done|].
    intros i y (x & Hx & ->)%Hrow. destruct (Hf x) as (_ & -> & _). intros Hxu. pose proof (Hlu _ _ Hx Hxu) as Hnn.
    by rewrite (ag_used _ _ (Hag x) Hnn).
  - split; cbn; try lia; try congruence.
    + intros i r Hr. by exists r; auto with auth.
    + intros i x Hx. left. exists (f x). split; [|done]. change (links d2 !! i = Some (f x)). by rewrite Hl, Hx.
    + intros i y Hy Hn. change (links d2 !! i = Some y) in Hy. apply Hrow in Hy as (x & Hx & _). congruence.
Qed.
