(* ===== verification/AuthFacts.v ===== *)
(** * Every transaction keeps the invariant

    For each transaction of the auth service: the tables stay sound, nothing is undone, and
    what it says it did it did.  [world_ok] adds that what the pending requests have read is an
    earlier state of the rows, and [step_ok] lifts all of it to interleaved requests. *)

From stdpp Require Import base tactics numbers list sorting strings gmap fin_maps.
From Stdlib Require Import ZArith Lia Ascii QArith.
From S2P Require Import Prelude GoBytes Float64 StorageKey AuthModels AuthSessions AuthOneTime AuthWorld AuthInv.

Local Open Scope string_scope.
Local Open Scope list_scope.
Local Open Scope Z_scope.
Local Open Scope gombit_scope.

Definition ok (d0 d : db) : Prop := inv d /\ later d0 d.

Lemma ok_refl d : inv d -> ok d d.
Proof. by split. Qed.

Lemma ok_trans d0 d d' : inv d0 -> ok d0 d -> (inv d -> inv d' /\ later d d') -> ok d0 d'.
Proof.
  intros [Hi0 _] [Hi Hl] H. destruct (H Hi) as [Hi' Hl']. split; [done|]. by eapply later_trans.
Qed.

Lemma isNone_true {A} (o : option A) : isNone o = true <-> o = None.
Proof. by destruct o. Qed.

(** ** Statements, as steps *)

Lemma revokeWhere_ok p now d : (forall r, p r = true -> RevokedAt r = None) -> inv d ->
  inv (revokeWhere p now d) /\ later d (revokeWhere p now d).
Proof.
  intros Hp [Hi Ho]. split; [split; [by apply revokeWhere_inv0 | by apply revokeWhere_off] | by apply revokeWhere_later].
Qed.

Lemma useWhere_ok p now d : (forall o, p o = true -> UsedAt o = None) -> inv d ->
  inv (useWhere p now d) /\ later d (useWhere p now d).
Proof.
  intros Hp [Hi Ho]. split; [split; [by apply useWhere_inv0 | by apply useWhere_off] | by apply useWhere_later].
Qed.

Lemma alter_users_ok f userID d : (forall u, ID (f u) = ID u /\ Disabled (f u) = Disabled u) -> inv d ->
  inv (setUsers (alter f userID (users d)) d) /\ later d (setUsers (alter f userID (users d)) d).
Proof.
  intros Hf [Hi Ho]. split; [split|apply setUsers_later].
  - apply alter_users_inv0; [done|]. intros u. apply Hf.
  - apply alter_users_off; [done|]. intros u. apply Hf.
Qed.

Ltac unrevoked := intros r; rewrite ?andb_true_iff, ?isNone_true; tauto.
Ltac unused := intros o; rewrite ?andb_true_iff, ?isNone_true; tauto.

(** The step of one UPDATE of the tokens or links, inside a proof about [ok]. *)
Ltac by_revoke := eapply ok_trans; [eassumption | eassumption | apply revokeWhere_ok; unrevoked].
Ltac by_use := eapply ok_trans; [eassumption | eassumption | apply useWhere_ok; unused].

Section Facts.
Variable E : env.
Local Abbreviation cfg := (e_cfg E).

(** ** Sessions *)

Lemma createToken_wp userID hash expires now d0 d : inv d0 -> ok d0 d ->
  (forall u, users d !! userID = Some u -> Disabled u = false) ->
  wp (createToken userID hash expires now) d (fun d' row =>
    ok d0 d' /\ d' = addToken userID hash expires now d /\ byHash hash d = None /\ RID row = nextToken d).
Proof.
  intros Hi0 Hok Hu. unfold wp, createToken. destruct (byHash hash d) eqn:Eh; [done|].
  split; [|done]. eapply ok_trans; [done | done|]. intros [Hi Ho].
  split; [split; [by apply addToken_inv0 | by apply addToken_off] | by apply addToken_later].
Qed.

Lemma issueTokens_wp user now fresh d0 d : inv d0 -> ok d0 d ->
  (forall u, users d !! ID user = Some u -> Disabled u = false) ->
  wp (issueTokens cfg (e_rnd E) (e_hash E) (e_sign E) user now fresh) d (fun d' tp =>
    ok d0 d' /\ exists hash, d' = addToken (ID user) hash (Add now (RefreshTokenTTL cfg)) now d /\
      hash = e_hash E (RefreshTokenRaw tp) /\ byHash hash d = None).
Proof.
  intros Hi0 Hok Hu. unfold issueTokens. destruct fresh as [raw|]; [|done]. apply tx_wp_bind.
  eapply tx_wp_mono; [by apply createToken_wp|]. intros d' row (Hok' & -> & Hf & _). destruct (e_sign E _ _ _ _); [|done].
  split; [done|]. by eexists.
Qed.

Lemma startSessionTx_wp user now fresh d : inv d ->
  wp (startSessionTx cfg (e_rnd E) (e_hash E) (e_sign E) user now fresh) d (fun d' r =>
    ok d d' /\ users d' = users d /\ users d !! ID user = Some r.1 /\ PasswordHash r.1 = PasswordHash user /\ Disabled r.1 = false).
Proof.
  intros Hi. unfold startSessionTx. apply tx_wp_bind, wp_get. destruct (users d !! ID user) as [locked|] eqn:Hl; [|done].
  destruct (Disabled locked) eqn:Hd; [done|]. destruct (negb _) eqn:Hh; [done|]. breflect. apply tx_wp_bind.
  assert (ID locked = ID user) as EID by (by apply (i_user _ (proj1 Hi))).
  eapply tx_wp_mono; [apply (issueTokens_wp locked now fresh d d Hi (ok_refl d Hi))|].
  - intros u Hu. rewrite EID in Hu. congruence.
  - intros d' tp (Hok & hash & -> & _). apply wp_ret. done.
Qed.

Lemma revokeRow_wp id now d0 d : inv d0 -> ok d0 d ->
  wp (revokeRow id now) d (fun d' n => ok d0 d' /\ d' = revokeWhere (fun r => (RID r =? id) && isNone (RevokedAt r)) now d /\
    (n = 1 -> exists r, tokens d !! id = Some r /\ RevokedAt r = None)).
Proof.
  intros Hi0 Hok. unfold wp, revokeRow. split; [by_revoke|]. split; [done|].
  destruct Hok as [[Hi _] _]. rewrite (affected_row _ _ id).
  - destruct (tokens d !! id) as [r|]; [|done]. destruct (_ && _) eqn:Ep; [|done]. intros _. exists r. split; [done|].
    apply andb_true_iff in Ep as [_ Ep]. by apply isNone_true.
  - intros i r Hr [Hid _]%andb_true_iff. apply Z.eqb_eq in Hid. destruct (i_token _ Hi _ _ Hr). congruence.
Qed.

(** A row as it was read, and as it is. *)
Definition read_earlier (found : option RefreshToken) (d : db) : Prop :=
  match found with Some row => exists cur, tokens d !! RID row = Some cur /\ grown row cur | None => True end.

(** What a rotation did to the tables. *)
Definition rotation_done (found : option RefreshToken) (now : time) (d d' : db) (a : rotation) : Prop :=
  match a with
  | Rotated tp user => exists row cur cur' new, found = Some row /\ RevokedAt row = None /\ now < ExpiresAt row /\
      users d !! UserID row = Some user /\ Disabled user = false /\
      tokens d !! RID row = Some cur /\ RevokedAt cur = None /\
      tokens d' !! RID row = Some cur' /\ RevokedAt cur' = Some now /\ ReplacedBy cur' = Some (nextToken d) /\
      tokens d' !! nextToken d = Some new /\ UserID new = UserID row /\ RevokedAt new = None /\
      TokenHash new = e_hash E (RefreshTokenRaw tp) /\ ExpiresAt new = now + RefreshTokenTTL cfg
  | Reused userID => d' = revokeWhere (fun r => (UserID r =? userID) && isNone (RevokedAt r)) now d
  | Grace _ _ _ _ => d' = d
  end.

Lemma byHash_addToken userID hash expires now d : inv0 d -> byHash hash d = None ->
  byHash hash (addToken userID hash expires now d) = Some (mkRefreshToken (nextToken d) userID hash expires None None now).
Proof.
  intros Hi Hf. destruct (byHash hash (addToken userID hash expires now d)) as [r|] eqn:Eb.
  - apply firstRow_Some in Eb as [Hp [id Hr]]. apply addToken_row in Hr as [[_ ->]|[Hr _]]; [done| |done].
    rewrite (firstRow_None _ _ Hf id r Hr) in Hp. done.
  - pose proof (firstRow_None _ _ Eb (nextToken d) (mkRefreshToken (nextToken d) userID hash expires None None now)) as Hn.
    cbn in Hn. rewrite lookup_insert_eq, String.eqb_refl in Hn. specialize (Hn eq_refl). done.
Qed.

Lemma rotateRow_wp row user now fresh d : inv d -> read_earlier (Some row) d -> RevokedAt row = None -> now < ExpiresAt row ->
  users d !! UserID row = Some user -> Disabled user = false ->
  wp (rotateRow cfg (e_rnd E) (e_hash E) (e_sign E) row user now fresh) d (fun d' a => ok d d' /\ rotation_done (Some row) now d d' a).
Proof.
  intros Hi (cur & Hcur & Hg) Hrv Hex Hu Hd. unfold rotateRow. apply tx_wp_bind.
  eapply tx_wp_mono; [by apply revokeRow_wp; [|apply ok_refl]|]. cbv beta. intros d1 n (Hok1 & Ed1 & Hn).
  destruct (negb (n =? 1)) eqn:En.
  { apply tx_wp_bind. unfold wp at 1, hasSuccessorTx, tx_bind, lockRefreshRowTx. by destruct (tokens d1 !! RID row). }
  breflect. destruct (Hn En) as (cur0 & Hcur0 & Hcrv). assert (cur0 = cur) as -> by congruence. apply tx_wp_bind.
  assert (ID user = UserID row) as EID by (by apply (i_user _ (proj1 Hi))).
  eapply tx_wp_mono; [apply (issueTokens_wp user now fresh d d1 Hi Hok1)|].
  { intros u Hu'. rewrite EID, Ed1 in Hu'. cbn in Hu'. congruence. }
  cbv beta. intros d2 tp (Hok2 & hash & Ed2 & Ehash & Hfree). apply tx_wp_bind, wp_get.
  pose proof (proj1 Hok1) as [Hi1 Ho1]. rewrite <- Ehash, Ed2, byHash_addToken by done. apply tx_wp_bind. rewrite <- Ed2.
  assert (nextToken d1 = nextToken d) as Ent by (by rewrite Ed1). cbn [RID].
  set (cur1 := setRevoked now cur).
  assert (tokens d1 !! RID row = Some cur1) as Hcur1.
  { rewrite Ed1, lookup_revokeWhere, Hcur. cbn. by rewrite (g_id _ _ Hg), Z.eqb_refl, Hcrv. }
  destruct (i_token _ Hi1 _ _ Hcur1) as [_ Hlt].
  assert (tokens d2 !! RID row = Some cur1) as Hcur2.
  { rewrite Ed2. cbn. rewrite lookup_insert_ne by lia. done. }
  assert (tokens d2 !! nextToken d1 = Some (mkRefreshToken (nextToken d1) (ID user) hash (Add now (RefreshTokenTTL cfg)) None None now)) as Hnew.
  { rewrite Ed2. cbn. by rewrite lookup_insert_eq. }
  assert (ReplacedBy cur1 = None) as Hrb.
  { cbn. destruct (ReplacedBy cur) as [s|] eqn:Es; [|done]. destruct (i_replaced _ (proj1 Hi) _ _ _ Hcur Es) as (Hc & _). congruence. }
  destruct (linkTo_inv (RID row) (nextToken d1) d2 cur1
    (mkRefreshToken (nextToken d1) (ID user) hash (Add now (RefreshTokenTTL cfg)) None None now)) as [Hi3 Hl3];
    [apply Hok2 | done | done | done | lia | done | cbn; by rewrite (g_user _ _ Hg) | |].
  { intros i r0 Hr0 E0. rewrite Ed2 in Hr0. apply addToken_row in Hr0 as [[_ ->]|[Hr0 _]]; [done| |done].
    destruct (i_replaced _ Hi1 _ _ _ Hr0 E0) as (_ & _ & r' & Hr' & _). apply (i_token _ Hi1) in Hr'. lia. }
  unfold wp at 1. cbn [update]. apply wp_ret. split; [by eapply ok_trans|].
  exists row, cur. eexists _, _. split; [done|]. split; [done|]. split; [done|]. split; [done|]. split; [done|]. split; [done|]. split; [done|].
  fold (linkTo (RID row) (nextToken d1) d2). split.
  { cbn. rewrite lookup_alter_eq, Hcur2. done. }
  split; [done|]. split; [cbn; by rewrite Ent|]. split.
  { cbn. rewrite lookup_alter_ne by lia. rewrite <- Ent, Hnew. done. }
  split; [cbn; congruence|]. done.
Qed.

Lemma rotateTx_wp found now fresh d : inv d -> read_earlier found d ->
  wp (rotateTx cfg (e_rnd E) (e_hash E) (e_sign E) (e_sessionID E) found now fresh) d
    (fun d' a => ok d d' /\ rotation_done found now d d' a).
Proof.
  intros Hi Hre. unfold rotateTx. destruct found as [row|]; [|done]. apply tx_wp_bind, wp_get.
  destruct (users d !! UserID row) as [user|] eqn:Hu; [|done]. destruct (Disabled user) eqn:Hd; [done|].
  destruct (negb (After (ExpiresAt row) now)) eqn:Hex.
  { apply tx_wp_bind. destruct (isNone (RevokedAt row)); [|done].
    unfold wp at 1, hasSuccessorTx, tx_bind, lockRefreshRowTx. by destruct (tokens d !! RID row). }
  assert (now < ExpiresAt row) as Hlt by (apply negb_false_iff, After_true in Hex; done).
  destruct (RevokedAt row) as [revokedAt|] eqn:Hrv; [|by apply rotateRow_wp].
  destruct (ReplacedBy row) as [s|]; [|done].
  assert (wp (cascade row now) d (fun d' a => ok d d' /\ rotation_done (Some row) now d d' a)) as Hcas.
  { apply tx_wp_bind. unfold wp at 1. cbn [update revokeAllTx]. apply wp_ret. split; [|done].
    eapply ok_trans; [done | by apply ok_refl | apply revokeWhere_ok; unrevoked]. }
  unfold presentedAgain. destruct (_ && _); [|done]. apply tx_wp_bind. unfold wp at 1, lockRefreshRowTx.
  destruct (tokens d !! s) as [succ|]; [|done]. destruct (isNone (ReplacedBy succ)); [|done]. cbn [negb].
  destruct (_ && _); (split; [by apply ok_refl | done]).
Qed.

(** ** Revocations *)

Definition ofUser (userID : Z) (r : RefreshToken) : bool := (UserID r =? userID) && isNone (RevokedAt r).

Lemma revokeAll_revokes userID now d id r : tokens (revokeWhere (ofUser userID) now d) !! id = Some r ->
  UserID r = userID -> RevokedAt r <> None.
Proof.
  intros (r0 & Hr & ->)%revokeWhere_row. unfold ofUser. destruct (_ && _) eqn:Ep; [done|]. intros Hu.
  rewrite Hu, Z.eqb_refl in Ep. by destruct (RevokedAt r0).
Qed.

Lemma RevokeRefresh_ok found now d : inv d -> ok d (RevokeRefresh found now d).1.
Proof.
  intros Hi. unfold RevokeRefresh. destruct found as [row|]; [|by apply ok_refl].
  pose proof (revokeRow_wp (RID row) now d d Hi (ok_refl d Hi)) as Hw. unfold wp in Hw.
  destruct (revokeRow (RID row) now d) as [[d' n]|e]; [|by apply ok_refl]. by destruct Hw as (Hok & _).
Qed.

Lemma lockSessions_wp {A} userID (k : tx A) d Q :
  (forall u, users d !! userID = Some u -> wp k d Q) -> wp (lockSessions userID k) d Q.
Proof.
  intros Hk. unfold lockSessions. apply tx_wp_bind, wp_get. destruct (users d !! userID) as [u|] eqn:Hu; [by apply (Hk u) | done].
Qed.

Lemma requesterChain_wp userID rid now d Q :
  (forall ids head, sessionChain userID rid d = (ids, Some head) -> RevokedAt head = None -> now < ExpiresAt head -> Q d ids) ->
  wp (requesterChain userID rid now) d Q.
Proof.
  intros HQ. unfold wp, requesterChain. destruct (sessionChain userID rid d) as [ids [head|]] eqn:Ec; [|done].
  destruct (negb (isNone (RevokedAt head)) || negb (After (ExpiresAt head) now)) eqn:Eo; [done|].
  apply orb_false_iff in Eo as [E1 E2]. apply negb_false_iff in E1, E2. apply isNone_true in E1. apply After_true in E2. by eapply HQ.
Qed.

Lemma revokeSessionAsTx_wp userID requester id now now2 d : inv d ->
  wp (revokeSessionAsTx (e_sessionID E) (e_sqlAfter E) userID requester id now now2) d (fun d' _ => ok d d').
Proof.
  intros Hi. apply lockSessions_wp. intros u Hu. apply tx_wp_bind, wp_get. apply tx_wp_bind.
  assert (forall rows own, wp (if negb (requester =? 0) && (own =? 0) then fail errSessionEnded
    else match find (fun row => String.eqb (e_sessionID E (RID row)) id) rows with
    | None => fail errSessionNotFound
    | Some row => let^ affected := revokeRow (RID row) now2 in
        if affected =? 0 then fail errSessionNotFound else ret (RID row =? own)
    end) d (fun d' _ => ok d d')) as Hk.
  { intros rows own. destruct (_ && _); [done|]. destruct (find _ rows) as [row|]; [|done]. apply tx_wp_bind.
    eapply tx_wp_mono; [apply (revokeRow_wp (RID row) now2 d d Hi (ok_refl d Hi))|]. intros d' n (Hok & _). by destruct (n =? 0). }
  destruct (requester =? 0) eqn:Er; [apply wp_ret | apply wp_get]; apply Hk.
Qed.

Lemma revokeAllSessionsAsTx_wp userID requester now d : inv d ->
  wp (revokeAllSessionsAsTx userID requester now) d (fun d' _ => ok d d' /\ d' = revokeWhere (ofUser userID) now d).
Proof.
  intros Hi. apply lockSessions_wp. intros u Hu. apply tx_wp_bind.
  assert (wp (revokeAllTx userID now) d (fun d' _ => ok d d' /\ d' = revokeWhere (ofUser userID) now d)) as Hk.
  { split; [|done]. eapply ok_trans; [done | by apply ok_refl | apply revokeWhere_ok; unrevoked]. }
  destruct (requester =? 0); [by apply wp_ret | by apply requesterChain_wp].
Qed.

Definition butKeep (userID : Z) (keep : list Z) (r : RefreshToken) : bool :=
  (UserID r =? userID) && isNone (RevokedAt r) && negb (bool_decide (RID r ∈ keep)).

Lemma revokeBut_ok userID keep now d0 d : inv d0 -> ok d0 d -> ok d0 (revokeWhere (butKeep userID keep) now d).
Proof. intros Hi0 Hok. unfold butKeep. by_revoke. Qed.

Lemma revokeOtherSessionsTx_wp userID keepID now d : inv d ->
  wp (lockSessions userID (revokeOtherSessionsTx userID keepID now)) d (fun d' _ => ok d d' /\
    exists ids head, sessionChain userID keepID d = (ids, Some head) /\ RevokedAt head = None /\ now < ExpiresAt head /\
      d' = revokeWhere (butKeep userID ids) now d).
Proof.
  intros Hi. apply lockSessions_wp. intros u Hu. apply tx_wp_bind, requesterChain_wp. intros ids head Hc Hr He.
  unfold wp, revokeSessionsButTx, update. split; [|by exists ids, head]. apply (revokeBut_ok userID ids now d d Hi). by apply ok_refl.
Qed.

(** ** Account state *)

Lemma setUserStateTx_wp userID disable check now d : inv d ->
  wp (setUserStateTx userID disable check now) d (fun d' r => ok d d' /\
    (r.2 = true -> disable = true -> inert userID d') /\ users d !! userID <> None).
Proof.
  intros Hi. unfold setUserStateTx. apply tx_wp_bind, wp_get. destruct (users d !! userID) as [locked|] eqn:Hu; [|done].
  destruct (check locked); [done|]. destruct (Bool.eqb _ _); [by split; [apply ok_refl|]|].
  assert (inv0 (setUsers (alter (setDisabledAt (Some now)) userID (users d)) d)) as Hi1 by (by apply alter_users_inv0; [apply Hi|]).
  destruct (negb disable) eqn:Hdis.
  { apply tx_wp_bind. unfold wp, update, updateUser, ret. apply negb_true_iff in Hdis. split; [|split; [congruence | done]].
    split; [|apply setUsers_later]. split; [by apply alter_users_inv0; [apply Hi|]|].
    intros id u Hid Hd. cbn in Hid. rewrite lookup_alter in Hid. destruct (decide (userID = id)) as [->|]; [|by apply (proj2 Hi id u)].
    rewrite Hu in Hid. cbn in Hid. injection Hid as <-. done. }
  apply negb_false_iff in Hdis. do 3 apply tx_wp_bind. unfold wp. cbn [update updateUser revokeAllTx voidTokensTx ret].
  set (d1 := setUsers _ d) in *. fold (ofUser userID). change (setTokens (updateRows (ofUser userID) (setRevoked now) (tokens d1)) d1)
    with (revokeWhere (ofUser userID) now d1). set (d2 := revokeWhere _ now d1).
  set (p o := (OUserID o =? userID) && isNone (UsedAt o) && negb (OID o =? 0) && true).
  change (setLinks (updateRows p (setUsed now) (links d2)) d2) with (useWhere p now d2). set (d3 := useWhere p now d2).
  assert (forall r, ofUser userID r = true -> RevokedAt r = None) as Hp1 by (unfold ofUser; unrevoked).
  assert (forall o, p o = true -> UsedAt o = None) as Hp2 by (unfold p; unused).
  assert (inert userID d3) as Hin.
  { split.
    - intros id r Hr Hru. by apply (revokeAll_revokes userID now d1 id).
    - intros id o (o0 & Ho & ->)%useWhere_row Hou. destruct (p o0) eqn:Ep; [done|]. unfold p in Ep.
      destruct (i_link _ (proj1 Hi) id o0 Ho) as [HO Hlt]. destruct (UsedAt o0) as [t|] eqn:Eu; [done|]. exfalso.
      rewrite Hou, Z.eqb_refl in Ep. cbn in Ep. rewrite (proj2 (Z.eqb_neq _ _)) in Ep by lia. done. }
  assert (inv0 d3) as Hi3 by (apply useWhere_inv0, revokeWhere_inv0; done).
  split; [|done]. split; [split; [done|]|].
  - intros id u Hid Hd. destruct (decide (id = userID)) as [->|Hne]; [done|].
    apply useWhere_inert, revokeWhere_inert. cbn in Hid. rewrite lookup_alter_ne in Hid by done. by apply (proj2 Hi id u).
  - eapply (later_trans d d1 d3); [apply Hi | apply setUsers_later|].
    eapply (later_trans d1 d2 d3); [done | by apply revokeWhere_later | by apply useWhere_later].
Qed.

(** ** Mailed links *)

Lemma issueOneTimeTx_wp userID f now fresh d : inv d ->
  wp (issueOneTimeTx (e_hash E) userID f now fresh) d (fun d' r => ok d d' /\
    links d' !! OID r.2 = Some r.2 /\ OID r.2 < nextLink d').
Proof.
  intros Hi. unfold issueOneTimeTx. apply tx_wp_bind, wp_get. destruct (users d !! userID) as [locked|] eqn:Hu; [|done].
  destruct (Disabled locked) eqn:Hd; [done|]. apply tx_wp_bind, wp_get. destruct (f_check f locked d); [done|].
  apply tx_wp_bind, wp_get. destruct (0 <? _); [done|]. destruct fresh as [raw|]; [|done]. unfold wp.
  destruct (linkByHash (e_hash E raw) d) eqn:Eh; [done|].
  assert (ID locked = userID) as EID by (by apply (i_user _ (proj1 Hi))).
  set (token := mkOneTimeToken _ _ _ _ _ _ _ _ _ _).
  destruct (addLink_inv token d Hi eq_refl eq_refl Eh) as [Hi' Hl'].
  { intros u Hu'. cbn in Hu'. rewrite EID in Hu'. congruence. }
  split; [done|]. cbn. rewrite lookup_insert_eq. split; [done | lia].
Qed.

(** The pending token of a message: its row, if it is still there, is the user's and of the
    purpose it was issued for. *)
Definition read_pending (token : OneTimeToken) (d : db) : Prop :=
  OID token < nextLink d /\
  forall o, links d !! OID token = Some o -> OUserID o = OUserID token /\ Purpose o = Purpose token.

Lemma links_row_affected p id d : inv0 d -> (forall o, p o = true -> OID o = id) ->
  affected p (links d) = 1 -> exists o, links d !! id = Some o /\ p o = true.
Proof.
  intros Hi Hp. rewrite (affected_row _ _ id).
  - destruct (links d !! id) as [o|]; [|done]. destruct (p o) eqn:Ep; [|done]. intros _. by exists o.
  - intros i o Ho Hpo. destruct (i_link _ Hi _ _ Ho) as [<- _]. by apply Hp.
Qed.

Lemma activateTokenTx_wp token now d : inv d -> read_pending token d ->
  wp (activateTokenTx token now) d (fun d' _ => ok d d').
Proof.
  intros Hi [_ Hrow]. unfold activateTokenTx. apply tx_wp_bind, wp_get. destruct (users d !! OUserID token) as [u|]; [|done].
  unfold wp. cbv zeta. destruct (negb _) eqn:En; [done|]. breflect.
  apply (links_row_affected _ (OID token)) in En as (o & Ho & Hp); [|apply Hi|].
  2: { intros o [[Hid _]%andb_true_iff _]%andb_true_iff. by apply Z.eqb_eq. }
  apply andb_true_iff in Hp as [[_ Hs]%andb_true_iff Hu]. apply isNone_true in Hs, Hu. destruct (Hrow o Ho) as [EU EP].
  by apply (activate_inv token now d o).
Qed.

Lemma withdrawToken_ok o token d : inv d -> ok d (withdrawToken o token d).
Proof.
  intros Hi. assert (ok d (setLinks (filter (fun r => negb ((OID r.2 =? OID token) && isNone (SentAt r.2)) = true) (links d)) d)) as H.
  { apply (dropLinks_inv (fun x => (OID x =? OID token) && isNone (SentAt x)) d Hi). intros x. rewrite andb_true_iff, isNone_true. tauto. }
  unfold withdrawToken. destruct o; [done | by apply ok_refl | done].
Qed.

Lemma afterMail_ok m o ow token now d : inv d -> read_pending token d -> ok d (afterMail m o ow token now d).1.
Proof.
  intros Hi Hrp. unfold afterMail. destruct m; [|by apply withdrawToken_ok|by apply withdrawToken_ok].
  pose proof (wp_transact o (activateTokenTx token now) d _ (activateTokenTx_wp token now d Hi Hrp)) as Hw.
  assert (ok d (transact o (activateTokenTx token now) d).1) as Hok.
  { destruct Hw as [->|(a & _ & Hok)]; [by apply ok_refl | done]. }
  destruct (transact o (activateTokenTx token now) d) as [d' [a|e]]; [done|]. cbn in Hok |- *.
  eapply ok_trans; [done | done|]. intros Hi'. by apply withdrawToken_ok.
Qed.

(** The rows a use consumes. *)
Definition usable (token o : OneTimeToken) : bool := (OID o =? OID token) && negb (isNone (SentAt o)) && isNone (UsedAt o).

Lemma consume_wp found now d : inv d ->
  wp (consumeOneTimeToken found now) d (fun d' r => ok d d' /\ found = Some r.1 /\
    users d !! OUserID r.1 = Some r.2 /\ Disabled r.2 = false /\ now < OExpiresAt r.1 /\
    Email r.2 = (if String.eqb (FromEmail r.1) "" then OEmail r.1 else FromEmail r.1) /\
    d' = useWhere (usable r.1) now d /\
    exists cur, links d !! OID r.1 = Some cur /\ working cur = true).
Proof.
  intros Hi. unfold consumeOneTimeToken. destruct found as [token|]; [|done]. apply tx_wp_bind, wp_get.
  destruct (users d !! OUserID token) as [locked|] eqn:Hu; [|done]. destruct (Disabled locked) eqn:Hd; [done|].
  destruct (isNone (SentAt token) || negb (isNone (UsedAt token)) || negb (Before now (OExpiresAt token))) eqn:Ec; [done|].
  apply orb_false_iff in Ec as [_ Ec]. apply negb_false_iff, Before_true in Ec. cbv zeta.
  fold (usable token). apply tx_wp_bind, wp_get, tx_wp_bind. unfold wp at 1. cbn [update].
  change (setLinks (updateRows (usable token) (setUsed now) (links d)) d) with (useWhere (usable token) now d).
  destruct (negb (affected _ _ =? 1)) eqn:En; [done|]. apply negb_false_iff, Z.eqb_eq in En.
  destruct (negb (String.eqb (Email locked) _)) eqn:Ee; [done|]. apply negb_false_iff, String.eqb_eq in Ee. apply wp_ret. cbn [fst snd].
  assert (forall o, usable token o = true -> UsedAt o = None) as Hp by (unfold usable; unused).
  split; [eapply ok_trans; [done | by apply ok_refl | by apply useWhere_ok]|].
  do 6 (split; [done|]). apply (links_row_affected _ (OID token)) in En as (o & Ho & Hpo); [|apply Hi|].
  - exists o. split; [done|]. unfold usable in Hpo. unfold working. apply andb_true_iff in Hpo as [[_ H1]%andb_true_iff H2]. by rewrite H1, H2.
  - intros o. unfold usable. rewrite !andb_true_iff. intros [[Hid _] _]. by apply Z.eqb_eq.
Qed.

(** A link that was used stays used. *)
Definition usedUp (id : Z) (d : db) : Prop := exists o, links d !! id = Some o /\ working o = false /\ SentAt o <> None.

Lemma used_up token now d cur : inv0 d -> links d !! OID token = Some cur -> working cur = true -> usedUp (OID token) (useWhere (usable token) now d).
Proof.
  intros Hi Hc Hw. unfold working in Hw. apply andb_true_iff in Hw as [Hs Hu]. destruct (i_link _ Hi _ _ Hc) as [HO _].
  exists (setUsed now cur). rewrite lookup_useWhere, Hc. cbn. unfold usable. rewrite HO, Z.eqb_refl, Hs, Hu.
  split; [done|]. split; [unfold working; cbn; by rewrite andb_false_r|]. cbn. by destruct (SentAt cur).
Qed.

Lemma usedUp_later id d d' : later d d' -> usedUp id d -> usedUp id d'.
Proof.
  intros Hl (o & Ho & Hw & Hs). destruct (l_link _ _ Hl _ _ Ho) as [(o' & Ho' & Hag)|[_ Hn]]; [|done].
  exists o'. split; [done|]. pose proof (ag_sent _ _ Hag Hs) as Es. split; [|by rewrite Es].
  unfold working in *. rewrite Es. destruct (SentAt o); [|done]. cbn in *. destruct (UsedAt o) eqn:Eu; [|done].
  pose proof (ag_used _ _ Hag ltac:(congruence)) as E1. by rewrite E1, Eu.
Qed.

Lemma ok_join d d1 d' : inv d -> ok d d1 -> ok d1 d' -> ok d d'.
Proof. intros Hi Ho [Hi' Hl']. eapply ok_trans; [done | done|]. done. Qed.

(** The links a password change outdates. *)
Lemma voidPasswordBound_ok userID except now d0 d : inv d0 -> ok d0 d ->
  wp (voidPasswordBoundTokensTx userID except now) d (fun d' _ => ok d0 d' /\ users d' = users d /\ tokens d' = tokens d).
Proof.
  intros Hi0 Hok. unfold voidPasswordBoundTokensTx, voidTokensTx, wp, update. split; [|done].
  eapply ok_trans; [done | done | apply useWhere_ok; unused].
Qed.

(** A password that was set: who has it, and what else of the user's still works. *)
Lemma setHash_ok hash userID d0 d : inv d0 -> ok d0 d ->
  ok d0 (setUsers (alter (setPasswordHash hash) userID (users d)) d).
Proof. intros Hi0 Hok. eapply ok_trans; [done | done | by apply alter_users_ok]. Qed.

Lemma consumeResetTx_wp found hash now d : inv d ->
  wp (consumeResetTx cfg found hash now) d (fun d' user => ok d d' /\ exists token locked, found = Some token /\
    users d !! OUserID token = Some locked /\ user = setPasswordHash hash locked /\
    users d' = alter (setPasswordHash hash) (OUserID token) (users d) /\
    (exists cur, links d !! OID token = Some cur /\ working cur = true) /\ usedUp (OID token) d' /\
    (PasswordResetKeepSessions cfg = false -> forall id r, tokens d' !! id = Some r -> UserID r = OUserID token -> RevokedAt r <> None)).
Proof.
  intros Hi. unfold consumeResetTx. apply tx_wp_bind. eapply tx_wp_mono; [by apply consume_wp|]. cbv beta.
  intros d1 [token locked] (Hok & -> & Hu & Hd & _ & _ & Ed1 & cur & Hcur & Hwk). cbn [fst snd] in *.
  assert (ID locked = OUserID token) as EID by (by apply (i_user _ (proj1 Hi))). rewrite EID. pose proof (proj1 Hok) as Hi1.
  assert (usedUp (OID token) d1) as Hused by (rewrite Ed1; eapply used_up; [apply Hi | done | done]).
  apply tx_wp_bind. unfold wp at 1, updateUser. cbn [update]. set (d2 := setUsers _ d1).
  assert (ok d1 d2) as Hok2 by (apply setHash_ok; [done | by apply ok_refl]). apply tx_wp_bind. eapply tx_wp_mono; [by apply (voidPasswordBound_ok _ _ _ d1)|].
  cbv beta. intros d3 _ (Hok3 & HU & HT). apply tx_wp_bind.
  assert (users d3 = alter (setPasswordHash hash) (OUserID token) (users d)) as HU3.
  { rewrite HU. subst d2. cbn. by rewrite Ed1. }
  destruct (PasswordResetKeepSessions cfg) eqn:Ek.
  - unfold wp, ret. split; [by eapply ok_join|]. exists token, locked. repeat (split; [done|]). split; [by exists cur|].
    split; [|done]. eapply usedUp_later; [apply Hok3 | done].
  - unfold wp, ret, revokeAllTx, update. fold (ofUser (OUserID token)).
    change (setTokens (updateRows (ofUser (OUserID token)) (setRevoked now) (tokens d3)) d3) with (revokeWhere (ofUser (OUserID token)) now d3).
    assert (ok d1 (revokeWhere (ofUser (OUserID token)) now d3)) as Hok4
      by (eapply ok_trans; [done | done | apply revokeWhere_ok; unfold ofUser; unrevoked]).
    split; [by eapply ok_join|]. exists token, locked. repeat (split; [done|]). split; [by exists cur|].
    split; [eapply usedUp_later; [apply Hok4 | done]|]. intros _. apply revokeAll_revokes.
Qed.

Lemma changePasswordTx_wp user requester keepOthers hash now d : inv d ->
  wp (changePasswordTx user requester keepOthers hash now) d (fun d' _ => ok d d' /\ exists locked,
    users d !! ID user = Some locked /\ PasswordHash locked = PasswordHash user /\ Disabled locked = false /\
    users d' = alter (setPasswordHash hash) (ID user) (users d) /\
    (keepOthers = false -> exists keep, (requester = 0 \/ keep = (sessionChain (ID user) requester d).1) /\
       (requester = 0 -> keep = []) /\
       forall id r, tokens d' !! id = Some r -> UserID r = ID user -> RevokedAt r = None -> id ∈ keep)).
Proof.
  intros Hi. unfold changePasswordTx. apply tx_wp_bind, wp_get. destruct (users d !! ID user) as [locked|] eqn:Hu; [|done].
  destruct (Disabled locked) eqn:Hd; [done|]. destruct (negb _) eqn:Eh; [done|]. apply negb_false_iff, String.eqb_eq in Eh.
  assert (forall keep, (requester = 0 \/ keep = (sessionChain (ID user) requester d).1) -> (requester = 0 -> keep = []) ->
    wp (let^ _ := updateUser (ID user) (setPasswordHash hash) in
        let^ _ := voidPasswordBoundTokensTx (ID user) 0 now in
        if keepOthers then ret tt
        else match keep with [] => revokeAllTx (ID user) now | _ => revokeSessionsButTx (ID user) keep now end) d
      (fun d' _ => ok d d' /\ exists locked, Some locked = Some locked /\ Some locked = users d !! ID user /\
        PasswordHash locked = PasswordHash user /\ Disabled locked = false /\
        users d' = alter (setPasswordHash hash) (ID user) (users d) /\
        (keepOthers = false -> forall id r, tokens d' !! id = Some r -> UserID r = ID user -> RevokedAt r = None -> id ∈ keep))) as Hk.
  { intros keep Hkeep Hkeep0. apply tx_wp_bind. unfold wp at 1, updateUser. cbn [update]. set (d2 := setUsers _ d).
    assert (ok d d2) as Hok2 by (apply setHash_ok; [done | by apply ok_refl]). apply tx_wp_bind.
    eapply tx_wp_mono; [by apply voidPasswordBound_ok|]. cbv beta. intros d3 _ (Hok3 & HU & HT).
    destruct keepOthers.
    { apply wp_ret. split; [done|]. exists locked. repeat (split; [done|]). done. }
    assert (forall d' p, d' = revokeWhere p now d3 -> (forall r, p r = true -> RevokedAt r = None) ->
      (forall r, UserID r = ID user -> RevokedAt r = None -> (RID r ∉ keep) -> p r = true) -> ok d d' /\
      forall id r, tokens d' !! id = Some r -> UserID r = ID user -> RevokedAt r = None -> id ∈ keep) as Hend.
    { intros d' p -> Hp Hp'. split; [eapply ok_trans; [done | done | by apply revokeWhere_ok]|].
      intros id r (r0 & Hr & ->)%revokeWhere_row. destruct (p r0) eqn:Ep; [done|]. intros Hur Hrr.
      destruct (i_token _ (proj1 (proj1 Hok3)) _ _ Hr) as [<- _].
      destruct (decide (RID r0 ∈ keep)) as [|Hn]; [done|]. rewrite Hp' in Ep; done. }
    destruct keep as [|k keep].
    - unfold wp, revokeAllTx, update. destruct (Hend _ (ofUser (ID user)) eq_refl) as [Ho Hr]; [unfold ofUser; unrevoked | |].
      + intros r Hur Hrr _. unfold ofUser. by rewrite Hur, Z.eqb_refl, Hrr.
      + split; [exact Ho|]. exists locked. by repeat (split; [done|]).
    - unfold wp, revokeSessionsButTx, update. destruct (Hend _ (butKeep (ID user) (k :: keep)) eq_refl) as [Ho Hr]; [unfold butKeep; unrevoked | |].
      + intros r Hur Hrr Hn. unfold butKeep. rewrite Hur, Z.eqb_refl, Hrr, bool_decide_eq_false_2 by done. done.
      + split; [exact Ho|]. exists locked. by repeat (split; [done|]). }
  apply tx_wp_bind. destruct (requester =? 0) eqn:Er.
  - apply Z.eqb_eq in Er. apply wp_ret. eapply tx_wp_mono; [apply (Hk []); by auto|]. cbv beta.
    intros d' _ (Ho & l & _ & Hl & Hp & Hdl & HU & Hr). split; [done|]. exists l. repeat (split; [congruence|]). intros Hko. exists [].
    split; [by left|]. split; [done|]. by apply Hr.
  - apply Z.eqb_neq in Er. apply requesterChain_wp. intros ids head Hc _ _.
    eapply tx_wp_mono; [apply (Hk ids); [right; by rewrite Hc | done]|]. cbv beta.
    intros d' _ (Ho & l & _ & Hl & Hp & Hdl & HU & Hr). split; [done|]. exists l. repeat (split; [congruence|]). intros Hko. exists ids.
    split; [right; by rewrite Hc|]. split; [done | by apply Hr].
Qed.

Lemma consumeVerificationTx_wp found now d : inv d ->
  wp (consumeVerificationTx (e_normalize E) found now) d (fun d' _ => ok d d' /\
    exists token cur, found = Some token /\ links d !! OID token = Some cur /\ working cur = true /\ usedUp (OID token) d').
Proof.
  intros Hi. unfold consumeVerificationTx. apply tx_wp_bind. eapply tx_wp_mono; [by apply consume_wp|]. cbv beta.
  intros d1 [token locked] (Hok & -> & Hu & Hd & _ & _ & Ed1 & cur & Hc & Hw). cbn [fst snd] in *.
  pose proof (proj1 Hok) as Hi1. assert (usedUp (OID token) d1) as Hused by (rewrite Ed1; eapply used_up; [apply Hi | done | done]).
  destruct (EmailVerified _ locked); [apply wp_ret; split; [done|]; by exists token, cur|].
  apply tx_wp_bind. unfold wp, updateUser, update, ret.
  match goal with |- ok d ?d2 /\ _ => assert (ok d1 d2) as Hok2 by (by apply alter_users_ok) end.
  split; [by eapply ok_join|]. exists token, cur. repeat (split; [done|]). eapply usedUp_later; [apply Hok2 | done].
Qed.

Lemma consumeEmailChangeTx_wp found now d : inv d ->
  wp (consumeEmailChangeTx (e_collate E) found now) d (fun d' _ => ok d d' /\
    exists token cur, found = Some token /\ links d !! OID token = Some cur /\ working cur = true /\ usedUp (OID token) d').
Proof.
  intros Hi. unfold consumeEmailChangeTx. apply tx_wp_bind. eapply tx_wp_mono; [by apply consume_wp|]. cbv beta.
  intros d1 [token locked] (Hok & -> & Hu & Hd & _ & _ & Ed1 & cur & Hc & Hw). cbn [fst snd] in *.
  pose proof (proj1 Hok) as Hi1. assert (usedUp (OID token) d1) as Hused by (rewrite Ed1; eapply used_up; [apply Hi | done | done]).
  apply tx_wp_bind, wp_get. destruct (emailTaken _ _ _ _); [done|]. do 2 apply tx_wp_bind.
  unfold wp, updateUser, voidTokensTx, update, ret.
  match goal with |- ok d ?d2 /\ _ => assert (ok d1 d2) as Hok2 end.
  { eapply (ok_trans d1 (setUsers _ d1)); [done | | apply useWhere_ok; unused]. by apply alter_users_ok. }
  split; [by eapply ok_join|]. exists token, cur. repeat (split; [done|]). eapply usedUp_later; [apply Hok2 | done].
Qed.

Lemma createUserTx_wp email hash superuser now d : inv d ->
  wp (createUserTx (e_collate E) email hash superuser now) d (fun d' _ => ok d d').
Proof.
  intros [Hi Ho]. unfold wp, createUserTx. destruct (emailTaken _ _ _ _); [done|].
  pose proof Hi as [h1 h2 h3 h4 h5 h6 h7 h8 h9].
  assert (users d !! nextUser d = None) as Hfree by (destruct (users d !! nextUser d) eqn:E0; [|done]; apply h2 in E0; lia).
  split; [split; [split; try done|]|].
  - cbn. lia.
  - intros id u Hu. cbn in Hu. destruct (decide (nextUser d = id)) as [<-|]; [rewrite lookup_insert_eq in Hu | rewrite lookup_insert_ne in Hu by done].
    + injection Hu as <-. cbn. lia.
    + specialize (h2 _ _ Hu). cbn. lia.
  - intros id u Hu Hd. cbn in Hu. destruct (decide (nextUser d = id)) as [<-|]; [rewrite lookup_insert_eq in Hu | rewrite lookup_insert_ne in Hu by done].
    + injection Hu as <-. done.
    + by apply (Ho id u).
  - destruct (later_refl d). split; cbn; try done. lia.
Qed.

(** ** Interleaved requests *)

Definition call_ok (c : call) (d : db) : Prop :=
  match c with
  | CRotate found => read_earlier found d
  | CMail token => read_pending token d
  | _ => True
  end.

Definition world_ok (w : world) : Prop := inv (wdb w) /\ forall i c, calls w !! i = Some c -> call_ok c (wdb w).

Lemma call_ok_later c d d' : inv0 d -> later d d' -> call_ok c d -> call_ok c d'.
Proof.
  intros Hi Hl. destruct c as [[row|]| | | |token]; cbn; try done.
  - intros (cur & Hc & Hg). destruct (l_token _ _ Hl _ _ Hc) as (cur' & Hc' & Hg'). exists cur'. split; [done|]. by eapply grown_trans.
  - intros [Hlt Hrow]. pose proof (l_nextLink _ _ Hl). split; [lia|]. intros o Ho.
    destruct (links d !! OID token) as [o0|] eqn:E0.
    + destruct (l_link _ _ Hl _ _ E0) as [(o' & Ho' & Hag)|[Hn _]]; [|congruence]. assert (o' = o) as -> by congruence.
      rewrite (ag_user _ _ Hag), (ag_purpose _ _ Hag). by apply Hrow.
    + pose proof (l_newlink _ _ Hl _ _ Ho E0). lia.
Qed.

Lemma transact_ok {A} o (m : tx A) d Q : inv d -> wp m d (fun d' a => ok d d' /\ Q d' a) -> ok d (transact o m d).1.
Proof. intros Hi Hw. destruct (wp_transact o m d _ Hw) as [->|(a & _ & Hok & _)]; [by apply ok_refl | done]. Qed.

Lemma transact_ok' {A} o (m : tx A) d : inv d -> wp m d (fun d' _ => ok d d') -> ok d (transact o m d).1.
Proof. intros Hi Hw. destruct (wp_transact o m d _ Hw) as [->|(a & _ & Hok)]; [by apply ok_refl | done]. Qed.

(** The tables a request's transaction leaves. *)
Lemma rotateRefreshOnce_ok o found now fresh d : inv d -> read_earlier found d ->
  ok d (rotateRefreshOnce cfg (e_rnd E) (e_hash E) (e_sign E) (e_sessionID E) o found now fresh d).1.1.
Proof.
  intros Hi Hre. unfold rotateRefreshOnce. set (o' := match o with Committed => _ | RolledBack => _ | CommitLost => _ end).
  pose proof (transact_ok o' _ d _ Hi (rotateTx_wp found now fresh d Hi Hre)) as Hok.
  destruct (transact o' _ d) as [d' [[]|e]]; exact Hok.
Qed.

Lemma startSession_ok o user now fresh d : inv d -> ok d (startSession cfg (e_rnd E) (e_hash E) (e_sign E) o user now fresh d).1.1.
Proof.
  intros Hi. unfold startSession. pose proof (transact_ok o _ d _ Hi (startSessionTx_wp user now fresh d Hi)) as Hok.
  destruct (transact o _ d) as [d' [[locked tp]|[]]]; exact Hok.
Qed.

Lemma hold_ok i c w : world_ok w -> call_ok c (wdb w) -> world_ok (hold i c w).
Proof.
  intros [Hi Hc] Hok. split; [done|]. intros i' c'. cbn. destruct (decide (i = i')) as [<-|]; [rewrite lookup_insert_eq | rewrite lookup_insert_ne by done].
  - by intros [= <-].
  - apply Hc.
Qed.

Lemma write_ok d w : world_ok w -> ok (wdb w) d -> world_ok (write d w) /\ later (wdb w) d.
Proof.
  intros [Hi Hc] [Hi' Hl]. split; [|done]. split; [done|]. intros i c Hic. by apply (call_ok_later c (wdb w)); [apply Hi | | apply (Hc i)].
Qed.

Lemma finish_ok i d w : world_ok w -> ok (wdb w) d -> world_ok (finish i d w) /\ later (wdb w) d.
Proof.
  intros Hw Hok. destruct (write_ok d w Hw Hok) as [[Hi Hc] Hl]. split; [|done]. split; [done|].
  intros i' c Hic. cbn in Hic. apply lookup_delete_Some in Hic as [_ Hic]. by apply (Hc i').
Qed.

Lemma byHash_read hash d : inv0 d -> read_earlier (byHash hash d) d.
Proof.
  intros Hi. destruct (byHash hash d) as [r|] eqn:Eb; [|done]. apply firstRow_Some in Eb as [_ [id Hr]].
  destruct (i_token _ Hi _ _ Hr) as [<- _]. exists r. split; [done | auto with auth].
Qed.

Lemma step_ok ev w : world_ok w -> world_ok (step E ev w).1 /\ later (wdb w) (wdb (step E ev w).1).
Proof.
  intros Hw. pose proof (proj1 Hw) as Hi.
  assert (world_ok w /\ later (wdb w) (wdb w)) as Hnop by done.
  destruct ev; cbn [step].
  - destruct (refreshHash _ _); [|done]. split; [apply hold_ok; [done | by apply byHash_read, Hi] | done].
  - destruct (logoutRow _ _ _); [|done]. split; [by apply hold_ok | done].
  - destruct (users _ !! _); [|done]. split; [by apply hold_ok | done].
  - split; [by apply hold_ok | done].
  - destruct (calls w !! i) as [[found| | | |]|] eqn:Ec; try done.
    pose proof (rotateRefreshOnce_ok o found now fresh (wdb w) Hi (proj2 Hw _ _ Ec)) as Hok.
    destruct (rotateRefreshOnce _ _ _ _ _ _ _ _ _ _) as [[d' au] r]. by apply finish_ok.
  - destruct (calls w !! i) as [[ |user| | |]|] eqn:Ec; try done.
    pose proof (startSession_ok o user now fresh (wdb w) Hi) as Hok.
    destruct (startSession _ _ _ _ _ _ _ _ _) as [[d' au] r]. by apply finish_ok.
  - destruct (calls w !! i) as [[ | |found| |]|] eqn:Ec; try done. apply finish_ok; [done | by apply RevokeRefresh_ok].
  - destruct (calls w !! i) as [[ | | |found|]|] eqn:Ec; try done. unfold consumeReset.
    pose proof (transact_ok o _ (wdb w) _ Hi (consumeResetTx_wp found hash now (wdb w) Hi)) as Hok.
    destruct (transact o _ (wdb w)) as [d' [a|e]]; by apply finish_ok.
  - destruct (calls w !! i) as [[ | | |found|]|] eqn:Ec; try done. unfold consumeVerification.
    pose proof (transact_ok o _ (wdb w) _ Hi (consumeVerificationTx_wp found now (wdb w) Hi)) as Hok.
    destruct (transact o _ (wdb w)) as [d' [a|e]]; by apply finish_ok.
  - destruct (calls w !! i) as [[ | | |found|]|] eqn:Ec; try done. unfold consumeEmailChange.
    pose proof (transact_ok o _ (wdb w) _ Hi (consumeEmailChangeTx_wp found now (wdb w) Hi)) as Hok.
    destruct (transact o _ (wdb w)) as [d' [a|e]]; by apply finish_ok.
  - destruct (calls w !! i) as [[ |user| | |]|] eqn:Ec; try done. unfold ChangePassword.
    pose proof (transact_ok o _ (wdb w) _ Hi (changePasswordTx_wp user requester keepOthers hash now (wdb w) Hi)) as Hok.
    destruct (transact o _ (wdb w)) as [d' [a|e]]; by apply finish_ok.
  - pose proof (issueOneTimeTx_wp userID f now fresh (wdb w) Hi) as Hwp.
    pose proof (transact_ok o _ (wdb w) _ Hi Hwp) as Hok.
    destruct (transact o _ (wdb w)) as [d' [[raw token]|e]] eqn:Et; cbn in Hok.
    + destruct (write_ok d' w Hw Hok) as [Hw' Hl]. split; [|done]. apply hold_ok; [done|]. cbn.
      apply transact_Ok in Et as [_ Et]. unfold wp in Hwp. rewrite Et in Hwp. destruct Hwp as (_ & Hlk & Hlt). cbn in Hlk, Hlt.
      split; [done|]. intros o0 Ho0. by assert (o0 = token) as -> by congruence.
    + by apply write_ok.
  - destruct (calls w !! i) as [[ | | | |token]|] eqn:Ec; try done.
    pose proof (afterMail_ok m o ow token now (wdb w) Hi (proj2 Hw _ _ Ec)) as Hok.
    destruct (afterMail _ _ _ _ _ _) as [d' r]. by apply finish_ok.
  - unfold revokeSessionAs. pose proof (transact_ok' o _ (wdb w) Hi (revokeSessionAsTx_wp userID requester id now now2 (wdb w) Hi)) as Hok.
    destruct (transact o _ (wdb w)) as [d' r]. by apply write_ok.
  - unfold revokeAllSessionsAs. pose proof (transact_ok o _ (wdb w) _ Hi (revokeAllSessionsAsTx_wp userID requester now (wdb w) Hi)) as Hok.
    destruct (transact o _ (wdb w)) as [d' r]. by apply write_ok.
  - unfold revokeOtherSessions. pose proof (transact_ok o _ (wdb w) _ Hi (revokeOtherSessionsTx_wp userID keepID now (wdb w) Hi)) as Hok.
    destruct (transact o _ (wdb w)) as [d' r]. by apply write_ok.
  - unfold setUserState. pose proof (transact_ok o _ (wdb w) _ Hi (setUserStateTx_wp userID disable check now (wdb w) Hi)) as Hok.
    destruct (transact o _ (wdb w)) as [d' [[u c]|e]]; by apply write_ok.
  - pose proof (transact_ok' o _ (wdb w) Hi (createUserTx_wp email hash superuser now (wdb w) Hi)) as Hok.
    destruct (transact o _ (wdb w)) as [d' r]. by apply write_ok.
  - apply write_ok; [done|]. split; [|apply setUsers_later]. destruct Hi as [Hi Ho]. split.
    + apply setUsers_inv0; [done|]. intros id u Hu. apply lookup_delete_Some in Hu as [_ Hu]. by apply Hi.
    + intros id u Hu Hd. cbn in Hu. apply lookup_delete_Some in Hu as [_ Hu]. by apply (Ho id u).
  - apply write_ok; [done|]. by apply alter_users_ok.
Qed.

Lemma run_ok evs : forall w, world_ok w -> world_ok (run E evs w).1 /\ later (wdb w) (wdb (run E evs w).1).
Proof.
  induction evs as [|ev evs IH]; intros w Hw; [by split|]. cbn [run].
  destruct (step_ok ev w Hw) as [Hw1 Hl1]. destruct (step E ev w) as [w1 r]. cbn in *.
  destruct (IH w1 Hw1) as [Hw2 Hl2]. destruct (run E evs w1) as [w2 rs]. cbn in *. split; [done|].
  eapply later_trans; [apply Hw | done | done].
Qed.

Lemma emptyDB_inv : inv emptyDB.
Proof. split; [split|]; cbn; try lia; intros *; by rewrite ?lookup_empty. Qed.

Lemma startWorld_ok : world_ok startWorld.
Proof. split; [apply emptyDB_inv|]. intros i c Hc. cbn in Hc. by rewrite lookup_empty in Hc. Qed.
End Facts.
