(* ===== verification/AuthClaims.v ===== *)
(** * The auth service: its theorems

    For any interleaving of requests, of any number of processes on one database: the chains of
    refresh tokens stay sound, a refresh token rotates at most once and a mailed link is used at
    most once, a password that was reset never starts a session again, and what a disabled
    account had is gone for good.  For single requests: what a rotation does, which session a
    sign-out of the others keeps, and which sessions are listed. *)

From stdpp Require Import base tactics numbers list sorting strings gmap fin_maps.
From Stdlib Require Import ZArith Lia Ascii QArith.
From S2P Require Import Prelude GoBytes Float64 StorageKey AuthModels AuthSessions AuthOneTime AuthWorld AuthInv AuthFacts.

Local Open Scope string_scope.
Local Open Scope list_scope.
Local Open Scope Z_scope.
Local Open Scope gombit_scope.

Section Claims.
Variable E : env.
Local Abbreviation cfg := (e_cfg E).

(** ** The tables *)

(** C9. Whatever calls of the authentication service interleave, and however each
    transaction ends, the tables stay sound: rows are under their own numbers, token and
    link digests are unique, a token that was replaced is revoked and its successor is a
    later token of the same user, and a disabled account has no live token and no working
    link. *)
Theorem auth_tables_sound evs : inv (wdb (run E evs startWorld).1).
Proof. apply (run_ok E evs startWorld startWorld_ok). Qed.

(** ** A refresh token rotates once *)

Definition revokedIn (id : Z) (w : world) : Prop := exists r, tokens (wdb w) !! id = Some r /\ RevokedAt r <> None.

Lemma revokedIn_later id w w' : later (wdb w) (wdb w') -> revokedIn id w -> revokedIn id w'.
Proof.
  intros Hl (r & Hr & Hv). destruct (l_token _ _ Hl _ _ Hr) as (r' & Hr' & Hg). exists r'. split; [done|].
  by rewrite (g_revoked _ _ Hg Hv).
Qed.

(** The token a reply gave a successor of. *)
Definition rotatedRow (r : reply) : option Z := match r with RRotated row (Ok _) => Some row | _ => None end.

Lemma rotateRefreshOnce_Ok o found now fresh d d' au tp user : inv d -> read_earlier found d ->
  rotateRefreshOnce cfg (e_rnd E) (e_hash E) (e_sign E) (e_sessionID E) o found now fresh d = (d', au, Ok (tp, user)) ->
  rotation_done E found now d d' (Rotated tp user).
Proof.
  intros Hi Hre. unfold rotateRefreshOnce. set (o' := match o with Committed => _ | RolledBack => _ | CommitLost => _ end).
  pose proof (rotateTx_wp E found now fresh d Hi Hre) as Hw. unfold wp in Hw.
  destruct (transact o' _ d) as [d1 [a|e]] eqn:Et; [|done]. apply transact_Ok in Et as [_ Et]. rewrite Et in Hw.
  destruct a as [tp' user'| |]; try done. intros [= <- <- <- <-]. apply Hw.
Qed.

Lemma step_rotated ev w w' r x : world_ok w -> step E ev w = (w', r) -> rotatedRow r = Some x ->
  ~ revokedIn x w /\ revokedIn x w'.
Proof.
  intros Hw Hs Hx. destruct r as [|row [[tp user]|e]| | |]; cbn in Hx; try done. injection Hx as ->.
  destruct ev; cbn [step] in Hs; try (repeat (case_match; try done); simplify_eq; done).
  destruct (calls w !! i) as [[found| | | |]|] eqn:Ec; try done.
  destruct (rotateRefreshOnce _ _ _ _ _ _ _ _ _ _) as [[d1 au] r] eqn:Er. injection Hs as <- Hrow ->.
  apply rotateRefreshOnce_Ok in Er as (row & cur & cur' & new & -> & _ & _ & _ & _ & Hcur & Hn & Hcur' & Hv & _);
    [|apply Hw | by apply (proj2 Hw _ _ Ec)]. subst x.
  split.
  - intros (r & Hr & Hrv). congruence.
  - exists cur'. split; [done | congruence].
Qed.

Lemma rotations_fresh evs : forall w, world_ok w ->
  NoDup (omap rotatedRow (run E evs w).2) /\ Forall (fun x => ~ revokedIn x w) (omap rotatedRow (run E evs w).2).
Proof.
  induction evs as [|ev evs IH]; intros w Hw; [by split; constructor|]. cbn [run].
  destruct (step_ok E ev w Hw) as [Hw1 Hl1]. destruct (step E ev w) as [w1 r] eqn:Es. cbn in Hw1, Hl1.
  destruct (IH w1 Hw1) as [Hn Hf]. destruct (run E evs w1) as [w2 rs]. cbn [snd] in *.
  assert (Forall (fun x => ~ revokedIn x w) (omap rotatedRow rs)) as Hf'.
  { eapply Forall_impl; [exact Hf|]. intros x Hx Hr. apply Hx. by eapply revokedIn_later. }
  cbn. destruct (rotatedRow r) as [x|] eqn:Er; [|done]. destruct (step_rotated ev w w1 r x Hw Es Er) as [Hno Hyes].
  split; [|by constructor]. constructor; [|done]. intros Hin. rewrite Forall_forall in Hf. by apply (Hf x).
Qed.

(** C3. A refresh token rotates at most once: in any interleaving of calls, with commits
    whose answer is lost and transactions that roll back, no row of the token table is given
    a successor by two calls. *)
Theorem refresh_token_rotates_once evs : NoDup (omap rotatedRow (run E evs startWorld).2).
Proof. apply (rotations_fresh evs startWorld startWorld_ok). Qed.

(** ** A mailed link is used once *)

Definition usedLink (r : reply) : option Z := match r with RUsed link None => Some link | _ => None end.

Lemma consumed_once found d d' : (exists token cur, found = Some token /\ links d !! OID token = Some cur /\ working cur = true /\ usedUp (OID token) d') ->
  ~ usedUp (linkID found) d /\ usedUp (linkID found) d'.
Proof.
  intros (token & cur & -> & Hc & Hw & Hu). cbn. split; [|done]. intros (o & Ho & Hno & _). congruence.
Qed.

Lemma step_used ev w w' r x : world_ok w -> step E ev w = (w', r) -> usedLink r = Some x ->
  ~ usedUp x (wdb w) /\ usedUp x (wdb w').
Proof.
  intros Hw Hs Hx. pose proof (proj1 Hw) as Hi. destruct r as [| | |link [e|]|]; cbn in Hx; try done. injection Hx as ->.
  assert (forall {A B} o (m : tx A) i found (f : A -> B) Q, wp m (wdb w) (fun d' a => ok (wdb w) d' /\ Q d' a) ->
    (forall d' a, Q d' a -> exists token cur, found = Some token /\ links (wdb w) !! OID token = Some cur /\ working cur = true /\ usedUp (OID token) d') ->
    forall d' a, transact o m (wdb w) = (d', Ok a) -> linkID found = x -> ~ usedUp x (wdb w) /\ usedUp x (wdb (finish i d' w))) as Hgo.
  { intros A B o m i found f Q Hwp HQ d' a Ht <-. apply transact_Ok in Ht as [_ Ht]. unfold wp in Hwp. rewrite Ht in Hwp.
    apply consumed_once, HQ with a, Hwp. }
  destruct ev; cbn [step] in Hs; try (repeat (case_match; try done); simplify_eq; done).
  - unfold consumeReset in Hs. destruct (calls w !! i) as [[ | | |found|]|]; try done.
    destruct (transact o _ (wdb w)) as [d' [a|e]] eqn:Et; simplify_eq.
    eapply (Hgo User unit); [exact (fun _ => tt) | exact (consumeResetTx_wp E found hash now (wdb w) Hi) | | exact Et | done].
    intros d0 a0 (token & locked & -> & _ & _ & _ & (cur & Hc & Hwk) & Hu & _). by exists token, cur.
  - unfold consumeVerification in Hs. destruct (calls w !! i) as [[ | | |found|]|]; try done.
    destruct (transact o _ (wdb w)) as [d' [a|e]] eqn:Et; simplify_eq.
    eapply (Hgo User unit); [exact (fun _ => tt) | exact (consumeVerificationTx_wp E found now (wdb w) Hi) | | exact Et | done]. done.
  - unfold consumeEmailChange in Hs. destruct (calls w !! i) as [[ | | |found|]|]; try done.
    destruct (transact o _ (wdb w)) as [d' [a|e]] eqn:Et; simplify_eq.
    eapply (Hgo (User * string)%type unit); [exact (fun _ => tt) | exact (consumeEmailChangeTx_wp E found now (wdb w) Hi) | | exact Et | done]. done.
Qed.

Lemma uses_fresh evs : forall w, world_ok w ->
  NoDup (omap usedLink (run E evs w).2) /\ Forall (fun x => ~ usedUp x (wdb w)) (omap usedLink (run E evs w).2).
Proof.
  induction evs as [|ev evs IH]; intros w Hw; [by split; constructor|]. cbn [run].
  destruct (step_ok E ev w Hw) as [Hw1 Hl1]. destruct (step E ev w) as [w1 r] eqn:Es. cbn in Hw1, Hl1.
  destruct (IH w1 Hw1) as [Hn Hf]. destruct (run E evs w1) as [w2 rs]. cbn [snd] in *.
  assert (Forall (fun x => ~ usedUp x (wdb w)) (omap usedLink rs)) as Hf'.
  { eapply Forall_impl; [exact Hf|]. intros x Hx Hr. apply Hx. by eapply usedUp_later. }
  cbn. destruct (usedLink r) as [x|] eqn:Er; [|done]. destruct (step_used ev w w1 r x Hw Es Er) as [Hno Hyes].
  split; [|by constructor]. constructor; [|done]. intros Hin. rewrite Forall_forall in Hf. by apply (Hf x).
Qed.

(** C32. A mailed link works once: in any interleaving of calls that look links up and use
    them, no password-reset, verification, activation or email-change link is used
    successfully by two calls. *)
Theorem mailed_link_used_once evs : NoDup (omap usedLink (run E evs startWorld).2).
Proof. apply (uses_fresh evs startWorld startWorld_ok). Qed.

(** ** A disabled account *)

(** Disabling an account is final for what it had: after SetUserState disabled it, through
    every later interleaving of calls, also those that had already read their rows, each of
    its refresh tokens stays revoked and none of its links works. *)
Theorem disabled_stays_revoked o userID check now d d' au u evs calls' : inv d ->
  setUserState o userID true check now d = (d', au, Ok u) ->
  (forall i c, calls' !! i = Some c -> call_ok c d') ->
  let d'' := wdb (run E evs (mkWorld d' calls')).1 in
  (forall id r, tokens d' !! id = Some r -> UserID r = userID -> exists r'', tokens d'' !! id = Some r'' /\ RevokedAt r'' <> None) /\
  (forall id l, links d' !! id = Some l -> OUserID l = userID -> forall l'', links d'' !! id = Some l'' -> UsedAt l'' <> None).
Proof.
  intros Hi Hset Hcalls d''. pose proof (setUserStateTx_wp userID true check now d Hi) as Hw. unfold wp in Hw.
  unfold setUserState in Hset. destruct (transact o _ d) as [d1 [[u1 changed]|e]] eqn:Et; [|done].
  injection Hset as -> Hau ->. apply transact_Ok in Et as [_ Et]. rewrite Et in Hw. destruct Hw as ([Hi' Hl] & Hin & Hsome).
  assert (inert userID d') as [Ht Hlk].
  { destruct changed; [by apply Hin|]. unfold setUserStateTx, tx_bind, lockUserTx, get in Et.
    destruct (users d !! userID) as [locked|] eqn:Hu; [|done]. destruct (check locked); [done|].
    destruct (Disabled locked) eqn:Hdis; [|done]. cbn in Et. injection Et as <- _. by apply (proj2 Hi userID locked). }
  destruct (run_ok E evs (mkWorld d' calls')) as [_ Hlater]; [by split|]. fold d'' in Hlater. cbn in Hlater. split.
  - intros id r Hr Hu. destruct (l_token _ _ Hlater _ _ Hr) as (r'' & Hr'' & Hg). exists r''. split; [done|].
    rewrite (g_revoked _ _ Hg); by eapply Ht.
  - intros id l Hll Hu l'' Hl''. destruct (l_link _ _ Hlater _ _ Hll) as [(l1 & Hl1 & Hag)|[Hn _]]; [|congruence].
    assert (l1 = l'') as -> by congruence. rewrite (ag_used _ _ Hag); by eapply Hlk.
Qed.

(** ** A rotation *)

Local Abbreviation rotate := (rotateRefreshOnce cfg (e_rnd E) (e_hash E) (e_sign E) (e_sessionID E)).

Lemma byHash_row hash d row : inv d -> byHash hash d = Some row -> tokens d !! RID row = Some row.
Proof. intros [Hi _] [_ [id Hr]]%firstRow_Some. by destruct (i_token _ Hi _ _ Hr) as [-> _]. Qed.

(** Presenting a live refresh token of an enabled account revokes it, links it to the one
    new token stored for the same user with the configured lifetime, and changes nothing
    else in the tables. *)
Theorem live_token_rotates hash row user now raw access d : inv d -> byHash hash d = Some row ->
  users d !! UserID row = Some user -> Disabled user = false -> RevokedAt row = None -> now < ExpiresAt row ->
  byHash (e_hash E raw) d = None -> e_sign E user (nextToken d) (AccessTokenTTL cfg) now = Some access ->
  rotate Committed (Some row) now (Some raw) d =
    (mkDB (users d)
       (<[RID row := setReplacedBy (nextToken d) (setRevoked now row)]>
          (<[nextToken d := mkRefreshToken (nextToken d) (UserID row) (e_hash E raw) (now + RefreshTokenTTL cfg) None None now]>
             (tokens d)))
       (links d) (nextUser d) (nextToken d + 1) (nextLink d),
     [], Ok (mkTokenPair access raw (wholeSeconds (e_rnd E) (AccessTokenTTL cfg)), user)).
Proof.
  intros Hi Hb Hu Hd Hr Hx Hf Hs. pose proof (byHash_row _ _ _ Hi Hb) as Hrow. destruct (i_token _ (proj1 Hi) _ _ Hrow) as [_ Hlt].
  destruct (i_user _ (proj1 Hi) _ _ Hu) as [EID _].
  set (p := fun r => (RID r =? RID row) && isNone (RevokedAt r)).
  assert (updateRows p (setRevoked now) (tokens d) = <[RID row := setRevoked now row]> (tokens d)) as Eupd.
  { apply map_eq. intros i. rewrite lookup_updateRows. destruct (decide (RID row = i)) as [<-|Hne].
    - rewrite Hrow, lookup_insert_eq. cbn. unfold p. by rewrite Z.eqb_refl, Hr.
    - rewrite lookup_insert_ne by done. destruct (tokens d !! i) as [r|] eqn:E0; [|done]. cbn. unfold p.
      destruct (i_token _ (proj1 Hi) _ _ E0) as [-> _]. by rewrite (proj2 (Z.eqb_neq i (RID row))) by done. }
  assert (affected p (tokens d) = 1) as Eaff.
  { rewrite (affected_row _ _ (RID row)); [rewrite Hrow; unfold p; by rewrite Z.eqb_refl, Hr|].
    intros i r Hir [Hid _]%andb_true_iff. apply Z.eqb_eq in Hid. destruct (i_token _ (proj1 Hi) _ _ Hir). congruence. }
  set (d1 := setTokens (<[RID row := setRevoked now row]> (tokens d)) d).
  assert (d1 = revokeWhere p now d) as Ed1 by (unfold revokeWhere, d1; by rewrite Eupd).
  assert (inv0 d1) as Hi1.
  { rewrite Ed1. apply revokeWhere_inv0, Hi. }
  assert (byHash (e_hash E raw) d1 = None) as Hf1.
  { destruct (byHash (e_hash E raw) d1) as [r|] eqn:Eb; [|done]. apply firstRow_Some in Eb as [Hp [i Hri]]. exfalso.
    rewrite Ed1 in Hri. apply revokeWhere_row in Hri as (r0 & Hr0 & ->). pose proof (firstRow_None _ _ Hf i r0 Hr0) as Hn.
    cbn in Hn. destruct (p r0); cbn in Hp; congruence. }
  unfold rotateRefreshOnce, transact.
  assert (rotateTx cfg (e_rnd E) (e_hash E) (e_sign E) (e_sessionID E) (Some row) now (Some raw) d =
    Ok (linkTo (RID row) (nextToken d) (addToken (UserID row) (e_hash E raw) (now + RefreshTokenTTL cfg) now d1),
        Rotated (mkTokenPair access raw (wholeSeconds (e_rnd E) (AccessTokenTTL cfg))) user)) as ->.
  { unfold rotateTx, tx_bind, lockUserTx, get. rewrite Hu, Hd, Hr. unfold After. rewrite (proj2 (Z.ltb_lt _ _) Hx). cbn [negb].
    unfold rotateRow, revokeRow, tx_bind. fold p. rewrite Eupd, Eaff. fold d1. cbn [negb Z.eqb Pos.eqb].
    unfold issueTokens, createToken, tx_bind. rewrite Hf1. cbn [RID]. change (nextToken d1) with (nextToken d). rewrite Hs. cbn [ret RefreshTokenRaw].
    unfold get. rewrite EID.
    change (mkDB (users d1) _ (links d1) (nextUser d1) (nextToken d + 1) (nextLink d1))
      with (addToken (UserID row) (e_hash E raw) (Add now (RefreshTokenTTL cfg)) now d1).
    rewrite byHash_addToken by done. done. }
  f_equal. unfold linkTo, addToken, d1, setTokens. cbn. do 2 f_equal. f_equal. apply map_eq. intros i. rewrite lookup_alter.
  destruct (decide (RID row = i)) as [<-|Hne].
  - rewrite lookup_insert_eq, lookup_insert_ne by lia. by rewrite lookup_insert_eq.
  - rewrite (lookup_insert_ne _ (RID row) i) by done. destruct (decide (nextToken d = i)) as [<-|]; [by rewrite !lookup_insert_eq|].
    by rewrite !lookup_insert_ne by done.
Qed.

(** Presenting a refresh token that was already rotated gives no session: within the grace,
    while its successor has not been rotated, it is told apart from theft and changes
    nothing; otherwise every live token of the user is revoked and reuse is reported. *)
Theorem rotated_token_again hash row user t s now fresh d : inv d -> byHash hash d = Some row ->
  users d !! UserID row = Some user -> Disabled user = false -> now < ExpiresAt row ->
  RevokedAt row = Some t -> ReplacedBy row = Some s ->
  exists succ, tokens d !! s = Some succ /\ UserID succ = UserID row /\
    rotate Committed (Some row) now fresh d =
      if (0 <? RefreshReuseGrace cfg) && (now - RefreshReuseGrace cfg <? t) && isNone (ReplacedBy succ) then
        if isNone (RevokedAt succ) && (now <? ExpiresAt succ)
        then (d, [(AuditRefreshReuseWithinGrace "live", Some (UserID row))], Err errRotationRaced)
        else (d, [(AuditRefreshReuseWithinGrace "ended", Some (UserID row))], Err errInvalidRefreshToken)
      else (revokeWhere (ofUser (UserID row)) now d, [(AuditRefreshReuse, Some (UserID row))], Err errRefreshReuse).
Proof.
  intros Hi Hb Hu Hd Hx Hr Hs. pose proof (byHash_row _ _ _ Hi Hb) as Hrow.
  destruct (i_replaced _ (proj1 Hi) _ _ _ Hrow Hs) as (_ & _ & succ & Hsucc & Hus). exists succ. split; [done|]. split; [done|].
  assert (rotateTx cfg (e_rnd E) (e_hash E) (e_sign E) (e_sessionID E) (Some row) now fresh d =
    if (0 <? RefreshReuseGrace cfg) && (now - RefreshReuseGrace cfg <? t) && isNone (ReplacedBy succ) then
      if isNone (RevokedAt succ) && (now <? ExpiresAt succ)
      then Ok (d, Grace (UserID row) (e_sessionID E (RID succ)) "live" errRotationRaced)
      else Ok (d, Grace (UserID row) (e_sessionID E (RID succ)) "ended" errInvalidRefreshToken)
    else Ok (revokeWhere (ofUser (UserID row)) now d, Reused (UserID row))) as Et.
  { unfold rotateTx, tx_bind, lockUserTx, get. rewrite Hu, Hd, Hr, Hs. unfold After at 1. rewrite (proj2 (Z.ltb_lt _ _) Hx). cbn [negb].
    unfold presentedAgain, lockRefreshRowTx, tx_bind, cascade, revokeAllTx, update, After, Add.
    replace (now + - RefreshReuseGrace cfg) with (now - RefreshReuseGrace cfg) by lia.
    destruct (0 <? RefreshReuseGrace cfg); [|done]. destruct (_ <? t); [|done]. cbn [andb]. rewrite Hsucc.
    destruct (isNone (ReplacedBy succ)); [|done]. cbn [negb]. by destruct (_ && _). }
  unfold rotateRefreshOnce, transact. rewrite Et.
  destruct ((0 <? RefreshReuseGrace cfg) && _ && _); [|done]. by destruct (isNone (RevokedAt succ) && _).
Qed.

(** ** Signing the others out *)

(** [b] is further along the chain of [a], or is [a]. *)
Inductive descends (d : db) : Z -> Z -> Prop :=
| descends_refl a : descends d a a
| descends_step a b c r : descends d a b -> tokens d !! b = Some r -> ReplacedBy r = Some c -> descends d a c.

Definition ended (d : db) (id : Z) : Prop := exists r, tokens d !! id = Some r /\ RevokedAt r <> None.

Lemma chainFrom_head userID from d : inv0 d -> forall hops next seen ids last ids' head,
  descends d from next -> next ∈ ids -> (forall x, x ∈ ids -> x = next \/ ended d x) ->
  (forall r, last = Some r -> RevokedAt r <> None) ->
  chainFrom hops userID next seen ids last d = (ids', Some head) -> RevokedAt head = None ->
  tokens d !! RID head = Some head /\ UserID head = userID /\ descends d from (RID head) /\ RID head ∈ ids' /\
  forall x, x ∈ ids' -> x = RID head \/ ended d x.
Proof.
  intros Hi. induction hops as [|hops IH]; intros next seen ids last ids' head Hde Hin Hids Hlast Hc Hh; cbn [chainFrom] in Hc.
  { injection Hc as <- ->. by destruct (Hlast head). }
  destruct (tokens d !! next) as [row|] eqn:Hrow; [|injection Hc as <- ->; by destruct (Hlast head)].
  destruct (UserID row =? userID) eqn:Hu; cbn [negb] in Hc; [|injection Hc as <- ->; by destruct (Hlast head)].
  apply Z.eqb_eq in Hu. destruct (i_token _ Hi _ _ Hrow) as [Hid _].
  destruct (ReplacedBy row) as [s|] eqn:Hs.
  - destruct (i_replaced _ Hi _ _ _ Hrow Hs) as (Hrv & _). case_bool_decide; [injection Hc as <- <-; done|].
    eapply IH; [ | | | | exact Hc | done].
    + by eapply descends_step.
    + apply elem_of_app. right. by apply list_elem_of_here.
    + intros x [Hx|Hx]%elem_of_app; [|apply list_elem_of_singleton in Hx; by left]. right. destruct (Hids x Hx) as [->|]; [by exists row | done].
    + intros r [= <-]. done.
  - injection Hc as <- <-. subst next. split; [done|]. split; [done|]. split; [done|]. done.
Qed.

(** Signing out the other sessions keeps exactly the caller's: following the rotations from
    the access token's session, the live end of that chain is left as it was, every other
    live token of the user is revoked, and other users' tokens are untouched. *)
Theorem sign_out_others_keeps_own o userID keepID now d d' au : inv d ->
  revokeOtherSessions o userID keepID now d = (d', au, Ok tt) ->
  exists head, descends d keepID (RID head) /\ UserID head = userID /\ RevokedAt head = None /\ now < ExpiresAt head /\
    tokens d' !! RID head = Some head /\
    (forall id r, tokens d' !! id = Some r -> UserID r = userID -> RevokedAt r = None -> id = RID head) /\
    (forall id r, tokens d !! id = Some r -> UserID r <> userID -> tokens d' !! id = Some r).
Proof.
  intros Hi Hr. pose proof (revokeOtherSessionsTx_wp userID keepID now d Hi) as Hw. unfold wp in Hw.
  unfold revokeOtherSessions in Hr. destruct (transact o _ d) as [d1 r] eqn:Et. injection Hr as -> _ ->.
  apply transact_Ok in Et as [_ Et]. rewrite Et in Hw. destruct Hw as (_ & ids & head & Hc & Hrv & Hx & ->).
  destruct (chainFrom_head userID keepID d (proj1 Hi) maxChainHops keepID [keepID] [keepID] None ids head) as (Hlk & Hu & Hde & Hin & Hall);
    [constructor | by apply list_elem_of_here | | done | done | done |].
  { intros x Hx'. apply list_elem_of_singleton in Hx'. by left. }
  exists head. do 4 (split; [done|]). split; [|split].
  - rewrite lookup_revokeWhere, Hlk. cbn. unfold butKeep. by rewrite bool_decide_eq_true_2, andb_false_r by done.
  - intros id r (r0 & Hr0 & ->)%revokeWhere_row. destruct (butKeep userID ids r0) eqn:Eb; [done|]. intros Hur Hnr.
    destruct (i_token _ (proj1 Hi) _ _ Hr0) as [EID _].
    assert (id ∈ ids) as Hids.
    { unfold butKeep in Eb. rewrite Hur, Z.eqb_refl, Hnr, EID in Eb. cbn in Eb. apply negb_false_iff, bool_decide_eq_true in Eb. done. }
    destruct (Hall id Hids) as [|(r1 & Hr1 & Hr1v)]; [done|]. congruence.
  - intros id r Hr Hur. rewrite lookup_revokeWhere, Hr. cbn. unfold butKeep. by rewrite (proj2 (Z.eqb_neq _ _) Hur).
Qed.

(** ** The list of sessions *)

#[local] Instance refreshedBefore_total : Total refreshedBefore.
Proof. intros a b. unfold refreshedBefore. lia. Qed.
#[local] Instance refreshedBefore_trans : Transitive refreshedBefore.
Proof. intros a b c. unfold refreshedBefore. lia. Qed.

(** The two filters of the session list agree with the definition of a live session: with
    any database whose time comparison is right for times more than 26 hours apart (the code
    allows 48), the rows listed are exactly the user's tokens neither revoked nor expired,
    most recently refreshed first. *)
Theorem activeSessionRows_exact sqlAfter userID now d :
  (forall a b, b + 26 * Hour < a -> sqlAfter a b = true) ->
  StronglySorted refreshedBefore (activeSessionRows sqlAfter userID now d) /\
  forall r, r ∈ activeSessionRows sqlAfter userID now d <->
    (exists id, tokens d !! id = Some r) /\ UserID r = userID /\ RevokedAt r = None /\ now < ExpiresAt r.
Proof.
  intros Hsql. unfold activeSessionRows. split; [apply (StronglySorted_merge_sort refreshedBefore)|]. intros r.
  rewrite (merge_sort_Permutation refreshedBefore), !list_elem_of_filter, list_elem_of_fmap, After_true, !andb_true_iff, Z.eqb_eq, isNone_true.
  split.
  - intros (Hx & ((Hu & Hr) & _) & [id r0] & -> & Hin). apply elem_of_map_to_list in Hin. by split; [exists id|].
  - intros ([id Hr] & Hu & Hn & Hx). split; [done|]. split.
    + split; [done|]. apply Hsql. unfold Add, expiryPrefilterSlack, Hour, Minute, Second. lia.
    + exists (id, r). split; [done|]. by apply elem_of_map_to_list.
Qed.

(** ** A password that was replaced *)

Section Old.
Context (uid : Z) (old : string).

(** The account [uid] was created, and [old] is not its password's hash. *)
Definition replaced (d : db) : Prop :=
  uid < nextUser d /\ forall u, users d !! uid = Some u -> PasswordHash u <> old.

Definition keeps {A} (m : tx A) : Prop := forall d, replaced d -> wp m d (fun d' _ => replaced d').

Lemma keeps_bind {A B} (m : tx A) (f : A -> tx B) : keeps m -> (forall a, keeps (f a)) -> keeps (tx_bind m f).
Proof. intros Hm Hf d Hd. apply tx_wp_bind. eapply tx_wp_mono; [by apply Hm|]. intros d' a Hd'. by apply Hf. Qed.
Lemma keeps_ret {A} (a : A) : keeps (ret a).
Proof. by intros d Hd. Qed.
Lemma keeps_fail {A} e : @keeps A (fail e).
Proof. by intros d Hd. Qed.
Lemma keeps_get {A} (f : db -> A) : keeps (get f).
Proof. by intros d Hd. Qed.
Lemma keeps_tokens (f : db -> gmap Z RefreshToken) : keeps (update (fun d => setTokens (f d) d)).
Proof. by intros d Hd. Qed.
Lemma keeps_links (f : db -> gmap Z OneTimeToken) : keeps (update (fun d => setLinks (f d) d)).
Proof. by intros d Hd. Qed.
Lemma keeps_user id f : (forall u, PasswordHash u <> old -> PasswordHash (f u) <> old) -> keeps (updateUser id f).
Proof.
  intros Hf d [Hlt Hd]. split; [done|]. intros u Hu. cbn in Hu. rewrite lookup_alter in Hu. destruct (decide (id = uid)) as [->|]; [|by apply Hd].
  destruct (users d !! uid) as [u0|] eqn:E0; cbn in Hu; [|done]. injection Hu as <-. by apply Hf, Hd.
Qed.
Lemma keeps_createToken a b c e : keeps (createToken a b c e).
Proof. intros d Hd. unfold wp, createToken. by destruct (byHash _ _). Qed.
Lemma keeps_lockRow id : keeps (lockRefreshRowTx id).
Proof. intros d Hd. unfold wp, lockRefreshRowTx. by destruct (tokens d !! id). Qed.
Lemma keeps_revokeRow id now : keeps (revokeRow id now).
Proof. by intros d Hd. Qed.
Lemma keeps_chain id r now : keeps (requesterChain id r now).
Proof. intros d Hd. unfold wp, requesterChain. destruct (sessionChain _ _ _) as [ids [h|]]; [|done]. by destruct (_ || _). Qed.

Ltac keeping := repeat lazymatch goal with
  | |- keeps (tx_bind _ _) => apply keeps_bind; [|intros ?]
  | |- keeps (ret _) => apply keeps_ret
  | |- keeps (fail _) => apply keeps_fail
  | |- keeps (get _) => apply keeps_get
  | |- keeps (updateUser _ _) => apply keeps_user; done
  | |- keeps (update (fun d => setTokens _ d)) => apply keeps_tokens
  | |- keeps (update (fun d => setLinks _ d)) => apply keeps_links
  | |- keeps (createToken _ _ _ _) => apply keeps_createToken
  | |- keeps (lockRefreshRowTx _) => apply keeps_lockRow
  | |- keeps (revokeRow _ _) => apply keeps_revokeRow
  | |- keeps (requesterChain _ _ _) => apply keeps_chain
  | |- keeps (if ?b then _ else _) => destruct b
  | |- keeps (match ?x with _ => _ end) => destruct x
  end.

Lemma keeps_transact {A} o (m : tx A) d : keeps m -> replaced d -> replaced (transact o m d).1.
Proof. intros Hm Hd. destruct (wp_transact o m d _ (Hm d Hd)) as [->|(a & _ & H)]; done. Qed.

Lemma keeps_rotate found now fresh : keeps (rotateTx cfg (e_rnd E) (e_hash E) (e_sign E) (e_sessionID E) found now fresh).
Proof. unfold rotateTx, presentedAgain, cascade, rotateRow, hasSuccessorTx, lostTo, issueTokens, lockUserTx, revokeAllTx. keeping. Qed.
Lemma keeps_start user now fresh : keeps (startSessionTx cfg (e_rnd E) (e_hash E) (e_sign E) user now fresh).
Proof. unfold startSessionTx, issueTokens, lockUserTx. keeping. Qed.
Lemma keeps_consume found now : keeps (consumeOneTimeToken found now).
Proof. unfold consumeOneTimeToken, lockUserTx. keeping. Qed.
Lemma keeps_reset found hash now : hash <> old -> keeps (consumeResetTx cfg found hash now).
Proof.
  intros Hh. unfold consumeResetTx, voidPasswordBoundTokensTx, voidTokensTx, revokeAllTx.
  apply keeps_bind; [apply keeps_consume|]. intros [token locked]. keeping.
Qed.
Lemma keeps_change user requester keepOthers hash now : hash <> old -> keeps (changePasswordTx user requester keepOthers hash now).
Proof.
  intros Hh. unfold changePasswordTx, voidPasswordBoundTokensTx, voidTokensTx, revokeAllTx, revokeSessionsButTx, lockUserTx. keeping.
Qed.
Lemma keeps_verify found now : keeps (consumeVerificationTx (e_normalize E) found now).
Proof. unfold consumeVerificationTx. apply keeps_bind; [apply keeps_consume|]. intros [token locked]. keeping. Qed.
Lemma keeps_emailChange found now : keeps (consumeEmailChangeTx (e_collate E) found now).
Proof. unfold consumeEmailChangeTx, voidTokensTx. apply keeps_bind; [apply keeps_consume|]. intros [token locked]. keeping. Qed.
Lemma keeps_issue userID f now fresh : keeps (issueOneTimeTx (e_hash E) userID f now fresh).
Proof.
  unfold issueOneTimeTx, lockUserTx. keeping. intros d Hd. unfold wp. by destruct (linkByHash _ _).
Qed.
Lemma keeps_activate token now : keeps (activateTokenTx token now).
Proof. unfold activateTokenTx, lockUserTx. keeping. intros d Hd. unfold wp. cbv zeta. by destruct (negb _). Qed.
Lemma keeps_revokeOne userID requester id now now2 : keeps (revokeSessionAsTx (e_sessionID E) (e_sqlAfter E) userID requester id now now2).
Proof. unfold revokeSessionAsTx, lockSessions, lockUserTx. keeping. Qed.
Lemma keeps_revokeAll userID requester now : keeps (revokeAllSessionsAsTx userID requester now).
Proof. unfold revokeAllSessionsAsTx, lockSessions, lockUserTx, revokeAllTx. keeping. Qed.
Lemma keeps_revokeOthers userID keepID now : keeps (lockSessions userID (revokeOtherSessionsTx userID keepID now)).
Proof. unfold revokeOtherSessionsTx, lockSessions, lockUserTx, revokeSessionsButTx. keeping. Qed.
Lemma keeps_setState userID disable check now : keeps (setUserStateTx userID disable check now).
Proof. unfold setUserStateTx, lockUserTx, revokeAllTx, voidTokensTx. keeping. Qed.
Lemma keeps_register email hash superuser now : keeps (createUserTx (e_collate E) email hash superuser now).
Proof.
  intros d [Hlt Hd]. unfold wp, createUserTx. destruct (emailTaken _ _ _ _); [done|]. split; [cbn; lia|].
  intros u Hu. cbn in Hu. rewrite lookup_insert_ne in Hu by lia. by apply Hd.
Qed.
Lemma replaced_withdraw o token d : replaced d -> replaced (withdrawToken o token d).
Proof. by destruct o. Qed.

(** No later request writes the hash [old] again: bcrypt salts every hash. *)
Definition never (ev : event) : Prop :=
  match ev with EReset _ _ hash _ | EChangePassword _ _ _ _ hash _ => hash <> old | _ => True end.

Lemma step_replaced ev w : never ev -> replaced (wdb w) -> replaced (wdb (step E ev w).1).
Proof.
  intros Hev Hw. destruct ev; cbn [step never] in *;
    try (repeat case_match; done).
  - destruct (calls w !! i) as [[]|]; try done. unfold rotateRefreshOnce. set (o' := match o with Committed => _ | RolledBack => _ | CommitLost => _ end).
    pose proof (keeps_transact o' _ _ (keeps_rotate found now fresh) Hw) as H. destruct (transact o' _ (wdb w)) as [d' [[]|e]]; exact H.
  - destruct (calls w !! i) as [[]|]; try done. unfold startSession.
    pose proof (keeps_transact o _ _ (keeps_start user now fresh) Hw) as H. destruct (transact o _ (wdb w)) as [d' [[l tp]|[]]]; exact H.
  - destruct (calls w !! i) as [[]|]; try done. unfold RevokeRefresh. by destruct found.
  - destruct (calls w !! i) as [[]|]; try done. unfold consumeReset.
    pose proof (keeps_transact o _ _ (keeps_reset found hash now Hev) Hw) as H. destruct (transact o _ (wdb w)) as [d' [u|e]]; exact H.
  - destruct (calls w !! i) as [[]|]; try done. unfold consumeVerification.
    pose proof (keeps_transact o _ _ (keeps_verify found now) Hw) as H. destruct (transact o _ (wdb w)) as [d' [u|e]]; exact H.
  - destruct (calls w !! i) as [[]|]; try done. unfold consumeEmailChange.
    pose proof (keeps_transact o _ _ (keeps_emailChange found now) Hw) as H. destruct (transact o _ (wdb w)) as [d' [[u l]|e]]; exact H.
  - destruct (calls w !! i) as [[]|]; try done. unfold ChangePassword.
    pose proof (keeps_transact o _ _ (keeps_change user requester keepOthers hash now Hev) Hw) as H. destruct (transact o _ (wdb w)) as [d' [u|e]]; exact H.
  - pose proof (keeps_transact o _ _ (keeps_issue userID f now fresh) Hw) as H. destruct (transact o _ (wdb w)) as [d' [[raw t]|e]]; exact H.
  - destruct (calls w !! i) as [[]|]; try done. unfold afterMail. destruct m; [|by apply replaced_withdraw | by apply replaced_withdraw].
    pose proof (keeps_transact o _ _ (keeps_activate token now) Hw) as H. destruct (transact o _ (wdb w)) as [d' [u|e]]; [exact H|].
    by apply replaced_withdraw.
  - unfold revokeSessionAs. pose proof (keeps_transact o _ _ (keeps_revokeOne userID requester id now now2) Hw) as H.
    destruct (transact o _ (wdb w)) as [d' r]; exact H.
  - unfold revokeAllSessionsAs. pose proof (keeps_transact o _ _ (keeps_revokeAll userID requester now) Hw) as H.
    destruct (transact o _ (wdb w)) as [d' r]; exact H.
  - unfold revokeOtherSessions. pose proof (keeps_transact o _ _ (keeps_revokeOthers userID keepID now) Hw) as H.
    destruct (transact o _ (wdb w)) as [d' r]; exact H.
  - unfold setUserState. pose proof (keeps_transact o _ _ (keeps_setState userID disable check now) Hw) as H.
    destruct (transact o _ (wdb w)) as [d' [[u c]|e]]; exact H.
  - pose proof (keeps_transact o _ _ (keeps_register email hash superuser now) Hw) as H. destruct (transact o _ (wdb w)) as [d' r]; exact H.
  - destruct Hw as [Hlt Hd]. split; [done|]. intros u Hu. cbn in Hu. apply lookup_delete_Some in Hu as [_ Hu]. by apply Hd.
  - by apply (keeps_user userID (setEmail email)).
Qed.

(** A login on a snapshot of the account with the old password. *)
Definition startedWithOld (r : reply) : Prop :=
  match r with RStarted snapshot (Ok _) => ID snapshot = uid /\ PasswordHash snapshot = old | _ => False end.

Lemma step_not_old ev w : world_ok w -> replaced (wdb w) -> ~ startedWithOld (step E ev w).2.
Proof.
  intros Hw [_ Hd] Hold. destruct ev; cbn [step] in Hold; try (repeat case_match; done).
  destruct (calls w !! i) as [[ |user| | |]|]; try done. unfold startSession in Hold.
  pose proof (startSessionTx_wp E user now fresh (wdb w) (proj1 Hw)) as Hwp. unfold wp in Hwp.
  destruct (transact o _ (wdb w)) as [d' [[l tp]|[]]] eqn:Et; try done. apply transact_Ok in Et as [_ Et]. rewrite Et in Hwp.
  destruct Hwp as (_ & _ & Hu & Hh & _). cbn in Hu, Hh, Hold. destruct Hold as [<- Ho]. apply (Hd l Hu). congruence.
Qed.

Lemma run_not_old evs : forall w, world_ok w -> replaced (wdb w) -> Forall never evs ->
  Forall (fun r => ~ startedWithOld r) (run E evs w).2.
Proof.
  induction evs as [|ev evs IH]; intros w Hw Hr Hn; [constructor|]. inversion Hn as [|? ? Hev Hn']; subst. cbn [run].
  pose proof (step_not_old ev w Hw Hr) as Hno. pose proof (step_replaced ev w Hev Hr) as Hr1.
  destruct (step_ok E ev w Hw) as [Hw1 _]. destruct (step E ev w) as [w1 r]. cbn in *.
  specialize (IH w1 Hw1 Hr1 Hn'). destruct (run E evs w1) as [w2 rs]. cbn in *. by constructor.
Qed.
End Old.

(** After a password reset the old password opens no session: of logins that had already
    checked it, or check it later, none starts a session for the user, and every live token
    of the user was issued after the reset. *)
Theorem old_password_never_signs_in i o token hash now old w w' evs : world_ok w ->
  calls w !! i = Some (CUse (Some token)) -> PasswordResetKeepSessions cfg = false ->
  step E (EReset i o hash now) w = (w', RUsed (OID token) None) -> hash <> old -> Forall (never old) evs ->
  Forall (fun r => ~ startedWithOld (OUserID token) old r) (run E evs w').2 /\
  forall id r, tokens (wdb (run E evs w').1) !! id = Some r -> UserID r = OUserID token -> RevokedAt r = None ->
    nextToken (wdb w') <= id.
Proof.
  intros Hw Hc Hk Hs Hh Hn. pose proof (step_ok E (EReset i o hash now) w Hw) as [Hw' Hl]. rewrite Hs in Hw', Hl. cbn in Hw', Hl.
  cbn [step] in Hs. rewrite Hc in Hs. unfold consumeReset in Hs.
  pose proof (consumeResetTx_wp E (Some token) hash now (wdb w) (proj1 Hw)) as Hwp. unfold wp in Hwp.
  destruct (transact o _ (wdb w)) as [d' [u|e]] eqn:Et; [|done]. apply transact_Ok in Et as [_ Et]. rewrite Et in Hwp.
  destruct Hwp as (_ & token' & locked & [= <-] & Hu & _ & HU & _ & _ & Hrev). injection Hs as <-. cbn in *.
  assert (replaced (OUserID token) old d') as Hrep.
  { split; [|rewrite HU].
    - destruct (i_user _ (proj1 (proj1 Hw)) _ _ Hu) as [_ Hlt]. pose proof (l_nextUser _ _ Hl). cbn in *. lia.
    - intros u0 Hu0. rewrite lookup_alter_eq, Hu in Hu0. cbn in Hu0. injection Hu0 as <-. exact Hh. }
  split; [by apply run_not_old|]. intros id r Hr Hus Hnr.
  destruct (run_ok E evs (finish i d' w) Hw') as [_ Hl']. destruct (tokens d' !! id) as [r0|] eqn:E0.
  - destruct (l_token _ _ Hl' id r0 E0) as (r1 & Hr1 & Hg). assert (r1 = r) as -> by congruence. exfalso.
    pose proof (Hrev Hk id r0 E0 ltac:(rewrite <- (g_user _ _ Hg); done)) as Hv. pose proof (g_revoked _ _ Hg Hv). congruence.
  - by apply (l_new _ _ Hl' id r).
Qed.
End Claims.

(** ** A worked example *)

Module Sample.
Definition E0 : env := mkEnv (mkAuthConfig (15 * Minute) (720 * Hour) (10 * Second) false 0 0) (fun x => x)
  (fun s => ("h:" ++ s)%string) (fun _ _ _ _ => Some "jwt") (fun _ => "sid") (fun a b => b <? a) (fun s => s) (fun s => s).

(** An account signs in twice; the first session is refreshed; a reset link is mailed. *)
Definition evs : list event :=
  [ERegister Committed "ada@example.com" "old" false 100;
   EReadUser 1 1; EReadUser 2 1;
   EStart 1 Committed 200 (Some "r1"); EStart 2 Committed 300 (Some "r2");
   EReadToken 3 "r1"; ERotate 3 Committed 400 (Some "r3");
   EIssue 4 Committed 1 (resetFlow (e_cfg E0)) 500 (Some "link"); EMail 4 Delivered Committed Committed 600].

Definition w0 : world := (run E0 evs startWorld).1.
Definition d0 : db := wdb w0.

Lemma w0_ok : world_ok w0.
Proof. apply run_ok, startWorld_ok. Qed.

Definition ada : User := mkUser 1 "ada@example.com" "old" false None None "".
Definition row1 : RefreshToken := mkRefreshToken 1 1 "h:r1" (200 + 720 * Hour) (Some 400) (Some 3) 200.
Definition row2 : RefreshToken := mkRefreshToken 2 1 "h:r2" (300 + 720 * Hour) None None 300.
Definition row3 : RefreshToken := mkRefreshToken 3 1 "h:r3" (400 + 720 * Hour) None None 400.
Definition link : OneTimeToken :=
  mkOneTimeToken 1 1 PurposeResetPassword "h:link" "ada@example.com" "ada@example.com" (500 + Hour) (Some 600) None 500.
End Sample.

Section Example.
Import Sample.

Lemma live_token_rotates_witness :
  (rotateRefreshOnce (e_cfg E0) (e_rnd E0) (e_hash E0) (e_sign E0) (e_sessionID E0) Committed (Some row2) 700 (Some "r4") d0).2 =
    Ok (mkTokenPair "jwt" "r4" (wholeSeconds (e_rnd E0) (15 * Minute)), ada).
Proof.
  rewrite (live_token_rotates E0 "h:r2" row2 ada 700 "r4" "jwt" d0);
    [reflexivity | apply w0_ok | vm_compute; reflexivity | vm_compute; reflexivity | reflexivity | reflexivity | reflexivity
    | vm_compute; reflexivity | reflexivity].
Defined.

(** Hours later, the rotated token ends every session. *)
Lemma rotated_token_again_witness :
  (rotateRefreshOnce (e_cfg E0) (e_rnd E0) (e_hash E0) (e_sign E0) (e_sessionID E0) Committed (Some row1) (400 + Hour) None d0).2 =
    Err errRefreshReuse.
Proof.
  destruct (rotated_token_again E0 "h:r1" row1 ada 400 3 (400 + Hour) None d0) as (succ & _ & _ & ->);
    [apply w0_ok | vm_compute; reflexivity | vm_compute; reflexivity | reflexivity | reflexivity | reflexivity | reflexivity | reflexivity].
Defined.

(** The request came with the first token, which was refreshed meanwhile. *)
Lemma sign_out_others_keeps_own_witness : exists d' au head,
  revokeOtherSessions Committed 1 1 700 d0 = (d', au, Ok tt) /\ descends d0 1 (RID head) /\ RevokedAt head = None.
Proof.
  set (x := revokeOtherSessions Committed 1 1 700 d0).
  assert (x.2 = Ok tt) as Hx by (vm_compute; reflexivity). destruct x as [[d' au] r] eqn:Ex. cbn in Hx. subst r.
  destruct (sign_out_others_keeps_own Committed 1 1 700 d0 d' au) as (head & Hd & _ & Hr & _); [apply w0_ok | exact Ex|].
  exists d', au, head. split; [reflexivity|]. split; [exact Hd | exact Hr].
Defined.

Lemma activeSessionRows_exact_witness : row2 ∈ activeSessionRows (fun a b => b <? a) 1 700 d0.
Proof.
  apply (activeSessionRows_exact (fun a b => b <? a) 1 700 d0).
  - intros a b Hab. apply Z.ltb_lt. unfold Hour, Minute, Second in Hab. lia.
  - split; [exists 2; vm_compute; reflexivity|]. split; [reflexivity|]. split; reflexivity.
Defined.

(** Enabled again, the account's old sessions stay ended. *)
Lemma disabled_stays_revoked_witness : exists d' au u r'',
  setUserState Committed 1 true (fun _ => None) 700 d0 = (d', au, Ok u) /\
  tokens (wdb (run E0 [ESetState Committed 1 false (fun _ => None) 800] (mkWorld d' ∅)).1) !! 2 = Some r'' /\ RevokedAt r'' <> None.
Proof.
  set (x := setUserState Committed 1 true (fun _ => None) 700 d0).
  assert (x.2 = Ok (setDisabledAt (Some 700) ada)) as Hx by (vm_compute; reflexivity).
  assert (tokens x.1.1 !! 2 = Some (setRevoked 700 row2)) as Hr by (vm_compute; reflexivity).
  destruct x as [[d' au] r] eqn:Ex. cbn in Hx, Hr. subst r.
  destruct (disabled_stays_revoked E0 Committed 1 (fun _ => None) 700 d0 d' au (setDisabledAt (Some 700) ada)
    [ESetState Committed 1 false (fun _ => None) 800] ∅) as [Ht _]; [apply w0_ok | exact Ex | intros i c Hc; by rewrite lookup_empty in Hc|].
  destruct (Ht 2 _ Hr eq_refl) as (r'' & Hr'' & Hv). exists d', au, (setDisabledAt (Some 700) ada), r''.
  split; [reflexivity|]. split; [exact Hr'' | exact Hv].
Defined.

(** A login that checked the old password before the reset comes back after it. *)
Lemma old_password_never_signs_in_witness :
  Forall (fun r => ~ startedWithOld 1 "old" r)
    (run E0 [EStart 5 Committed 900 (Some "r5")] (step E0 (EReset 6 Committed "new" 800)
       (run E0 [EReadUser 5 1; EReadLink 6 "link" PurposeResetPassword] w0).1).1).2.
Proof.
  set (w1 := (run E0 [EReadUser 5 1; EReadLink 6 "link" PurposeResetPassword] w0).1).
  assert (world_ok w1) as Hw1 by (apply run_ok, w0_ok).
  assert ((step E0 (EReset 6 Committed "new" 800) w1).2 = RUsed 1 None) as Hr by (vm_compute; reflexivity).
  destruct (step E0 (EReset 6 Committed "new" 800) w1) as [w2 r] eqn:Es. cbn [fst snd] in *. subst r.
  apply (old_password_never_signs_in E0 6 Committed link "new" 800 "old" w1 w2 [EStart 5 Committed 900 (Some "r5")]);
    [exact Hw1 | vm_compute; reflexivity | reflexivity | exact Es | discriminate | by repeat constructor].
Defined.
End Example.
