(* ===== verification/GoText.v ===== *)
(** * The parts of Go's strings, strconv and fmt packages the migration code uses

    Strings are lists of bytes, as in [GoBytes].  [ToLower], [ToUpper] and
    [EqualFold] fold the ASCII letters and the few other runes whose case
    mapping is an ASCII letter (the dotted capital I, the dotless i, the long s
    and the kelvin sign), which is what a comparison with an ASCII word can see;
    other runes are left as they are. *)

From stdpp Require Import base tactics numbers list strings gmap sets.
From Stdlib Require Import ZArith Lia Ascii.
From S2P Require Import Prelude GoBytes DotEnv.

Local Open Scope string_scope.
Local Open Scope list_scope.

(** A string literal of the source, as its bytes. *)
Declare Scope gotext_scope.
Notation "& s" := (of_string s%string) (at level 1, s at level 0, format "& s") : gotext_scope.
Local Open Scope gotext_scope.

Definition beqb (a b : bytes) : bool := bool_decide (a = b).

Lemma beqb_true a b : beqb a b = true <-> a = b.
Proof. apply bool_decide_eq_true. Qed.

Lemma beqb_refl a : beqb a a = true.
Proof. by apply beqb_true. Qed.

(** ** Case *)

Definition lower_byte (c : ascii) : ascii :=
  let n := nat_of_ascii c in
  if Nat.leb 65 n && Nat.leb n 90 then ascii_of_nat (n + 32) else c.

Definition upper_byte (c : ascii) : ascii :=
  let n := nat_of_ascii c in
  if Nat.leb 97 n && Nat.leb n 122 then ascii_of_nat (n - 32) else c.

Definition dottedI : bytes := map byte_of [196; 176]%nat.
Definition dotlessi : bytes := map byte_of [196; 177]%nat.
Definition longs : bytes := map byte_of [197; 191]%nat.
Definition kelvin : bytes := map byte_of [226; 132; 170]%nat.

(** Applies [f] to every byte, and replaces the listed runes first. *)
Fixpoint map_runes (n : nat) (special : list (bytes * ascii)) (f : ascii -> ascii) (b : bytes) : bytes :=
  match n, b with
  | S n, x :: r =>
      match list_find (fun p : bytes * ascii => HasPrefix b p.1 = true) special with
      | Some (_, (seq, c)) => c :: map_runes n special f (drop (length seq) b)
      | None => f x :: map_runes n special f r
      end
  | _, _ => b
  end.

(** [strings.ToLower] *)
Definition ToLower (b : bytes) : bytes :=
  map_runes (length b) [(dottedI, "i"%char); (kelvin, "k"%char)] lower_byte b.

(** [strings.ToUpper] *)
Definition ToUpper (b : bytes) : bytes :=
  map_runes (length b) [(dotlessi, "I"%char); (longs, "S"%char)] upper_byte b.

(** [strings.EqualFold] *)
Definition fold_case (b : bytes) : bytes :=
  map_runes (length b) [(kelvin, "k"%char); (longs, "s"%char)] lower_byte b.

Definition EqualFold (a b : bytes) : bool := beqb (fold_case a) (fold_case b).

(** ** Searching, cutting and joining *)

(** [strings.Index]: [None] for -1. *)
Fixpoint Index (b p : bytes) : option nat :=
  if HasPrefix b p then Some O
  else match b with
       | [] => None
       | _ :: b => match Index b p with Some i => Some (S i) | None => None end
       end.

Definition Contains (b p : bytes) : bool := match Index b p with Some _ => true | None => false end.

(** [strings.LastIndex] of a one-byte separator. *)
Fixpoint LastIndexByte (b : bytes) (c : ascii) : option nat :=
  match b with
  | [] => None
  | x :: b =>
      match LastIndexByte b c with
      | Some i => Some (S i)
      | None => if Ascii.eqb x c then Some O else None
      end
  end.

(** [strings.Join] *)
Fixpoint Join (l : list bytes) (sep : bytes) : bytes :=
  match l with
  | [] => []
  | [x] => x
  | x :: l => x ++ sep ++ Join l sep
  end.

(** [strings.Trim] with a cut set of ASCII bytes. *)
Definition Trim (b : bytes) (cutset : list ascii) : bytes :=
  let seqs := map (fun c => [c]) cutset in trim_right seqs (trim_left seqs b).

(** [strings.CutPrefix] *)
Definition CutPrefix (b p : bytes) : option bytes := strip_prefix p b.

(** [strings.ReplaceAll] of a nonempty [old]. *)
Fixpoint ReplaceAll_fuel (n : nat) (b old new : bytes) : bytes :=
  match n, b with
  | S n, x :: r =>
      match strip_prefix old b with
      | Some rest => new ++ ReplaceAll_fuel n rest old new
      | None => x :: ReplaceAll_fuel n r old new
      end
  | _, _ => b
  end.

Definition ReplaceAll (b old new : bytes) : bytes := ReplaceAll_fuel (length b) b old new.

(** [strings.Fields]: the runs between the spaces of [unicode.IsSpace]. *)
Fixpoint Fields_fuel (n : nat) (word b : bytes) : list bytes :=
  let flush := match word with [] => [] | _ => [rev word] end in
  match n, b with
  | S n, x :: r =>
      match strip_any space_runes b with
      | Some rest => flush ++ Fields_fuel n [] rest
      | None => Fields_fuel n (x :: word) r
      end
  | _, _ => flush
  end.

Definition Fields (b : bytes) : list bytes := Fields_fuel (length b) [] b.

(** ** Numbers *)

(** The decimal digits of a natural number, least significant first. *)
Fixpoint digits_fuel (n : nat) (z : Z) : bytes :=
  match n with
  | O => []
  | S n =>
      let d := ascii_of_nat (48 + Z.to_nat (z mod 10)) in
      if (z / 10 =? 0)%Z then [d] else d :: digits_fuel n (z / 10)
  end.

(** [strconv.Itoa].  A 64-bit number has at most twenty digits; 64 leaves room. *)
Definition itoa (z : Z) : bytes :=
  if (z <? 0)%Z then "-"%char :: rev (digits_fuel 64 (- z)) else rev (digits_fuel 64 z).

(** ** Formatting *)

(** [fmt.Sprintf] for formats whose verbs are [%s], [%d], [%q] and [%%], each
    argument already rendered. *)
Fixpoint sprintf_bytes (f : bytes) (args : list bytes) : bytes :=
  match f with
  | [] => []
  | c :: f =>
      if Ascii.eqb c "%" then
        match f with
        | v :: f =>
            if Ascii.eqb v "%" then v :: sprintf_bytes f args
            else match args with
                 | a :: args => a ++ sprintf_bytes f args
                 | [] => &"%!s(MISSING)" ++ sprintf_bytes f []
                 end
        | [] => &"%!(NOVERB)"
        end
      else c :: sprintf_bytes f args
  end.

Definition Sprintf (f : string) (args : list bytes) : bytes := sprintf_bytes (of_string f) args.

Definition newline_b : bytes := [newline].
Definition dquote_b : bytes := [dquote].

(** [strconv.Quote] of text with no byte to escape, as [%q] prints an identifier. *)
Definition quoted (b : bytes) : bytes := dquote_b ++ b ++ dquote_b.

Example sprintf_works : Sprintf "Drops column %s.%s, %d%%." [&"t"; &"c"; itoa 12] = &"Drops column t.c, 12%.".
Proof. reflexivity. Qed.

Example itoa_works : itoa (-9223372036854775808) = &"-9223372036854775808".
Proof. reflexivity. Qed.

Example fields_works : Fields (&"  DELETE   FROM t ") = [&"DELETE"; &"FROM"; &"t"].
Proof. reflexivity. Qed.
