(* ===== verification/Regex.v ===== *)
(** * Go's regexp package, for the expressions the migration code compiles

    A backtracking matcher with the leftmost-first semantics Go documents:
    alternatives in order, greedy loops longest first, lazy loops shortest first.
    It works on bytes.  The expressions are ASCII; an [i] flag adds the two
    other runes that fold to an ASCII letter (the long s and the kelvin sign), as
    their UTF-8 bytes.  [.], [\S] and negated classes accept any other byte, so
    they cover a multi-byte rune a byte at a time.

    A cursor is the byte before the current position, for [\b], and the rest of
    the text.  The matcher is structural in the expression; a loop runs at most
    once per remaining byte, since every round has to consume one. *)

From stdpp Require Import base tactics numbers list strings gmap sets.
From Stdlib Require Import ZArith Lia Ascii.
From S2P Require Import Prelude GoBytes DotEnv GoText.

Local Open Scope string_scope.
Local Open Scope list_scope.
Local Open Scope gotext_scope.

Inductive re :=
| Eps
| Cls (p : ascii -> bool)
| Cat (a b : re)
| Alt (a b : re)
| Star (greedy : bool) (a : re)
| Cap (n : nat) (a : re)
| Bot                                   (* ^ *)
| Eot                                   (* $ *)
| Wordb.                                (* \b *)

Definition cursor : Type := option ascii * bytes.
Definition caps : Type := list (nat * bytes).
Definition outcome : Type := option (caps * cursor).

Definition orElse (a b : outcome) : outcome := match a with Some _ => a | None => b end.

(** [[0-9A-Za-z_]], the word bytes of [\b]. *)
Definition is_word (c : ascii) : bool := key_char c.

Definition word_at (c : option ascii) : bool := match c with Some x => is_word x | None => false end.

(** A loop over [body], with a bound on its rounds. *)
Section loop.
Context (body : (cursor -> caps -> outcome) -> cursor -> caps -> outcome) (greedy : bool)
        (k : cursor -> caps -> outcome).

Fixpoint loop (n : nat) (c : cursor) (cs : caps) : outcome :=
  match n with
  | O => k c cs
  | S n =>
      let again := body (fun c' cs => if Nat.ltb (length c'.2) (length c.2) then loop n c' cs else None) c cs in
      if greedy then orElse again (k c cs) else orElse (k c cs) again
  end.
End loop.

Fixpoint exec (r : re) (k : cursor -> caps -> outcome) (c : cursor) (cs : caps) {struct r} : outcome :=
  match r with
  | Eps => k c cs
  | Cls p =>
      match c.2 with
      | x :: rest => if p x then k (Some x, rest) cs else None
      | [] => None
      end
  | Cat a b => exec a (fun c cs => exec b k c cs) c cs
  | Alt a b => orElse (exec a k c cs) (exec b k c cs)
  | Star greedy a => loop (exec a) greedy k (length c.2) c cs
  | Cap n a =>
      exec a (fun c' cs => k c' ((n, take (length c.2 - length c'.2) c.2) :: cs)) c cs
  | Bot => match c.1 with None => k c cs | Some _ => None end
  | Eot => match c.2 with [] => k c cs | _ => None end
  | Wordb => if xorb (word_at c.1) (word_at (head c.2)) then k c cs else None
  end.

(** ** Finding a match *)

(** The leftmost match from the cursor on: the text is tried at each position. *)
Fixpoint search_from (r : re) (n : nat) (c : cursor) : outcome :=
  match exec (Cap 0 r) (fun c cs => Some (cs, c)) c [] with
  | Some m => Some m
  | None =>
      match n, c.2 with
      | S n, x :: rest => search_from r n (Some x, rest)
      | _, _ => None
      end
  end.

Definition search (r : re) (c : cursor) : outcome := search_from r (length c.2) c.

Definition start (b : bytes) : cursor := (None, b).

(** The text of a group, empty when it took no part in the match. *)
Definition group (n : nat) (cs : caps) : bytes :=
  match list_find (fun p : nat * bytes => p.1 = n) cs with Some (_, p) => p.2 | None => [] end.

(** [MatchString] and [FindStringSubmatch]. *)
Definition MatchString (r : re) (b : bytes) : bool :=
  match search r (start b) with Some _ => true | None => false end.

Definition FindStringSubmatch (r : re) (b : bytes) : option caps :=
  match search r (start b) with Some (cs, _) => Some cs | None => None end.

(** [FindAllStringSubmatch] of an expression that matches no empty text: each
    search goes on where the last match ended. *)
Fixpoint find_all (r : re) (n : nat) (c : cursor) : list caps :=
  match n with
  | O => []
  | S n => match search r c with
           | Some (cs, c') => cs :: find_all r n c'
           | None => []
           end
  end.

Definition FindAllStringSubmatch (r : re) (b : bytes) : list caps := find_all r (length b) (start b).

(** ** The syntax the expressions use *)

Definition byte_in (l : bytes) (c : ascii) : bool := bool_decide (c ∈ l).
Definition byte_not_in (l : bytes) (c : ascii) : bool := negb (byte_in l c).
Definition any : re := Cls (fun _ => true).
Definition digit (c : ascii) : bool := let n := nat_of_ascii c in Nat.leb 48 n && Nat.leb n 57.
Definition letter (c : ascii) : bool :=
  let n := nat_of_ascii c in (Nat.leb 97 n && Nat.leb n 122) || (Nat.leb 65 n && Nat.leb n 90).

(** [\s] is [[\t\n\f\r ]], and [\S] is its complement. *)
Definition is_ws (c : ascii) : bool := byte_in (map byte_of [9; 10; 12; 13; 32]%nat) c.
Definition ws : re := Cls is_ws.
Definition nonws : re := Cls (fun c => negb (is_ws c)).

Definition plus (r : re) : re := Cat r (Star true r).
Definition star (r : re) : re := Star true r.
Definition opt (r : re) : re := Alt r Eps.
Fixpoint cat (l : list re) : re := match l with [] => Eps | [r] => r | r :: l => Cat r (cat l) end.
Fixpoint alt (l : list re) : re := match l with [] => Cls (fun _ => false) | [r] => r | r :: l => Alt r (alt l) end.

(** A byte sequence as it is. *)
Fixpoint lit (b : bytes) : re := match b with [] => Eps | c :: b => Cat (Cls (Ascii.eqb c)) (lit b) end.

(** A letter under the [i] flag: both cases, and the other runes that fold to it. *)
Definition ci_char (c : ascii) : re :=
  let same := Cls (fun x => Ascii.eqb (lower_byte x) (lower_byte c)) in
  if Ascii.eqb (lower_byte c) "s" then Alt same (lit longs)
  else if Ascii.eqb (lower_byte c) "k" then Alt same (lit kelvin)
  else same.

Fixpoint ci (b : bytes) : re := match b with [] => Eps | c :: b => Cat (ci_char c) (ci b) end.

(** [[A-Za-z0-9_]] under the [i] flag. *)
Definition ci_word : re := Alt (Cls is_word) (Alt (lit longs) (lit kelvin)).

(** ** Facts

    Equations for the matcher on texts whose shape is known, enough to follow an
    expression through a statement with unknown names in it. *)

(** A continuation that refuses every cursor whose next byte satisfies [p]. *)
Definition refuses (k : cursor -> caps -> outcome) (p : ascii -> bool) : Prop :=
  forall prev x r cs, p x = true -> k (prev, x :: r) cs = None.

(** The next byte, if there is one, is not in [p]. *)
Definition head_not (p : ascii -> bool) (b : bytes) : Prop := match b with x :: _ => p x = false | [] => True end.

Lemma orElse_None_r a : orElse a None = a.
Proof. by destruct a. Qed.

Lemma exec_Cat a b k c cs : exec (Cat a b) k c cs = exec a (fun c cs => exec b k c cs) c cs.
Proof. done. Qed.

Lemma exec_opt r k c cs : exec (opt r) k c cs = orElse (exec r k c cs) (k c cs).
Proof. done. Qed.

(** The byte before the cursor once [w] is read. *)
Fixpoint after (prev : option ascii) (w : bytes) : option ascii :=
  match w with [] => prev | x :: w => after (Some x) w end.

(** *** Loops over one byte at a time *)

Section class.
(** A body that reads one byte of [p], at least where the next byte is [plain]. *)
Context (body : (cursor -> caps -> outcome) -> cursor -> caps -> outcome) (p plain : ascii -> bool).
Hypothesis body_nil : forall k prev cs, body k (prev, []) cs = None.
Hypothesis body_cons : forall k prev x r cs, plain x = true ->
  body k (prev, x :: r) cs = if p x then k (Some x, r) cs else None.

Lemma loop_stops g k n prev rest cs :
  head_not p rest -> head_not (fun x => negb (plain x)) rest ->
  loop body g k n (prev, rest) cs = k (prev, rest) cs.
Proof.
  intros Hp Hpl. destruct n as [|n]; [done|]. cbn [loop]. destruct rest as [|x r]; simpl in Hp, Hpl.
  - rewrite body_nil. destruct g; [done|apply orElse_None_r].
  - rewrite body_cons, Hp by (by apply negb_false_iff in Hpl). destruct g; [done|apply orElse_None_r].
Qed.

(** A greedy loop takes a whole run, when what follows refuses to start inside it. *)
Lemma loop_run k w : forall n prev rest cs,
  Forall (fun x => p x = true /\ plain x = true) w -> (length w + length rest <= n)%nat ->
  head_not p rest -> head_not (fun x => negb (plain x)) rest -> refuses k p ->
  loop body true k n (prev, w ++ rest) cs = k (after prev w, rest) cs.
Proof.
  induction w as [|x w IH]; intros n prev rest cs Hw Hn Hp Hpl Hk.
  - by apply loop_stops.
  - destruct n as [|n]; [simpl in Hn; lia|]. inversion Hw as [|? ? [Hx Hxp] Hw']; subst.
    cbn [loop app snd]. rewrite body_cons, Hx by done. cbn [snd].
    destruct (Nat.ltb_spec (length (w ++ rest)) (length (x :: w ++ rest))) as [_|Hl];
      [|simpl in Hl; lia].
    rewrite IH by (auto; simpl in Hn; lia). rewrite (Hk prev x) by done. apply orElse_None_r.
Qed.
End class.

Definition all_plain (c : ascii) : bool := true.

Lemma Cls_nil p k prev cs : exec (Cls p) k (prev, []) cs = None.
Proof. done. Qed.

Lemma Cls_cons p k prev x r cs :
  all_plain x = true -> exec (Cls p) k (prev, x :: r) cs = if p x then k (Some x, r) cs else None.
Proof. done. Qed.

Lemma head_all_plain b : head_not (fun x => negb (all_plain x)) b.
Proof. by destruct b. Qed.

#[export] Hint Resolve head_all_plain : core.

(** One or more of a class. *)
Lemma plus_run p k x w prev rest cs :
  p x = true -> Forall (fun x => p x = true) w -> head_not p rest -> refuses k p ->
  exec (plus (Cls p)) k (prev, (x :: w) ++ rest) cs = k (after prev (x :: w), rest) cs.
Proof.
  intros Hx Hw Hrest Hk. unfold plus. cbn [exec snd app after]. rewrite Hx.
  apply (loop_run _ p all_plain); auto using Cls_nil, Cls_cons.
  - eapply Forall_impl; [exact Hw|done].
  - by rewrite length_app.
Qed.

(** One blank, then something else: [\s+] takes the blank and nothing else is left to try. *)
Lemma ws_one k prev x rest cs :
  is_ws x = true -> head_not is_ws rest -> exec (plus ws) k (prev, x :: rest) cs = k (Some x, rest) cs.
Proof.
  intros Hx Hrest. unfold plus, ws. cbn [exec snd]. rewrite Hx.
  apply (loop_stops _ is_ws all_plain); auto using Cls_nil, Cls_cons.
Qed.

Lemma ws_none k prev rest cs :
  head_not is_ws rest -> exec (star ws) k (prev, rest) cs = k (prev, rest) cs.
Proof.
  intros Hrest. unfold star, ws. cbn [exec snd].
  apply (loop_stops _ is_ws all_plain); auto using Cls_nil, Cls_cons.
Qed.

Lemma ws_plus_none k prev rest cs : head_not is_ws rest -> exec (plus ws) k (prev, rest) cs = None.
Proof. unfold plus, ws. cbn [exec snd]. destruct rest as [|x r]; [done|]. simpl. by intros ->. Qed.

(** A loop over any byte, before the end of the text, takes the rest of it. *)
Lemma any_run k w : forall n prev cs, (length w <= n)%nat -> (forall prev x r cs, k (prev, x :: r) cs = None) ->
  loop (exec any) true k n (prev, w) cs = k (after prev w, []) cs.
Proof.
  intros n prev cs Hn Hk. rewrite <-(app_nil_r w) at 1.
  apply (loop_run _ (fun _ => true) all_plain); auto using Cls_nil, Cls_cons; simpl; try done.
  - by apply Forall_forall.
  - lia.
  - intros ? ? ? ? _. apply Hk.
Qed.

(** *** Words *)

(** The bytes no other rune of a word starts with. *)
Definition unfolded (x : ascii) : bool := negb (Ascii.eqb (byte_of 197) x || Ascii.eqb (byte_of 226) x).

Lemma word_unfolded x : is_word x = true -> unfolded x = true.
Proof.
  revert x. apply (every_byte (fun x => is_word x = true -> unfolded x = true)). vm_compute. reflexivity.
Qed.

Lemma lit_other k h t prev x r cs : Ascii.eqb h x = false -> exec (lit (h :: t)) k (prev, x :: r) cs = None.
Proof. intros Hx. simpl. by rewrite Hx. Qed.

(** A letter of the expression, on a text that starts with such a byte. *)
Lemma ci_char_cons k c prev x rest cs :
  unfolded x = true ->
  exec (ci_char c) k (prev, x :: rest) cs =
  if Ascii.eqb (lower_byte x) (lower_byte c) then k (Some x, rest) cs else None.
Proof.
  unfold unfolded. intros Hu%negb_true_iff%orb_false_iff. destruct Hu as [H1 H2]. unfold ci_char.
  destruct (Ascii.eqb (lower_byte c) "s"); [|destruct (Ascii.eqb (lower_byte c) "k")];
    cbn [exec snd orElse]; [| |done].
  all: unfold longs, kelvin; cbn [map]; rewrite lit_other by done.
  all: apply orElse_None_r.
Qed.

(** A word of the expression reads itself. *)
Lemma ci_self k w : forall prev rest cs,
  Forall (fun x => is_word x = true) w ->
  exec (ci w) k (prev, w ++ rest) cs = k (after prev w, rest) cs.
Proof.
  induction w as [|x w IH]; intros prev rest cs Hw; [done|]. inversion Hw as [|? ? Hx Hw']; subst.
  cbn [ci exec app]. rewrite ci_char_cons by (by apply word_unfolded). rewrite Ascii.eqb_refl. by apply IH.
Qed.

(** It refuses a text whose first byte is another. *)
Lemma ci_other k c w prev x rest cs :
  unfolded x = true -> Ascii.eqb (lower_byte x) (lower_byte c) = false ->
  exec (ci (c :: w)) k (prev, x :: rest) cs = None.
Proof. intros Hu Hx. cbn [ci exec]. by rewrite ci_char_cons, Hx. Qed.

Lemma ci_nil_text k c w prev cs : exec (ci (c :: w)) k (prev, []) cs = None.
Proof.
  cbn [ci exec]. unfold ci_char.
  by destruct (Ascii.eqb (lower_byte c) "s"); [|destruct (Ascii.eqb (lower_byte c) "k")].
Qed.

Lemma ci_word_nil k prev cs : exec ci_word k (prev, []) cs = None.
Proof. done. Qed.

Lemma ci_word_cons k prev x r cs :
  unfolded x = true -> exec ci_word k (prev, x :: r) cs = if is_word x then k (Some x, r) cs else None.
Proof.
  unfold unfolded. intros Hu%negb_true_iff%orb_false_iff. destruct Hu as [H1 H2]. unfold ci_word, longs, kelvin.
  cbn [map]. cbn [exec snd]. rewrite !lit_other by done. apply orElse_None_r.
Qed.

(** One or more word bytes under the [i] flag. *)
Lemma ci_word_run k x w prev rest cs :
  is_word x = true -> Forall (fun x => is_word x = true) w -> head_not is_word rest ->
  head_not (fun x => negb (unfolded x)) rest -> refuses k is_word ->
  exec (plus ci_word) k (prev, (x :: w) ++ rest) cs = k (after prev (x :: w), rest) cs.
Proof.
  intros Hx Hw Hrest Hu Hk. unfold plus. rewrite exec_Cat. cbn [app].
  rewrite ci_word_cons, Hx by (by apply word_unfolded). cbn [exec snd after].
  apply (loop_run _ is_word unfolded); auto using ci_word_nil, ci_word_cons.
  - eapply Forall_impl; [exact Hw|]. intros y Hy. split; [done|by apply word_unfolded].
  - by rewrite length_app.
Qed.

(** *** Anchored expressions *)

Lemma search_Bot r n prev b : search_from (Cat Bot r) n (Some prev, b) = None.
Proof.
  revert prev b. induction n as [|n IH]; intros prev b; [done|]. cbn [search_from exec fst snd].
  destruct b as [|x b]; [done|]. apply IH.
Qed.

(** An expression that starts with [^] is tried at the start only. *)
Lemma search_anchored r b :
  search (Cat Bot r) (start b) = exec r (fun c cs => Some ((0, take (length b - length c.2) b) :: cs, c)) (None, b) [].
Proof.
  unfold search, start. destruct (length (None : option ascii, b).2) as [|n] eqn:E.
  - cbn [search_from exec fst snd]. destruct b; [|done].
    by destruct (exec r _ _ _).
  - cbn [search_from exec fst snd]. destruct b as [|x b]; [done|].
    rewrite search_Bot. by destruct (exec r _ _ _).
Qed.
