(* ===== verification/SqlClassify.v ===== *)
(** * manifest/classify.go: migration statements, classified by their leading words

    [splitStatements] drops comments and splits at semicolons; [Classify] reads
    each statement with the package's expressions.  The expressions are written
    in the syntax of [Regex], each next to the text it compiles. *)

From stdpp Require Import base tactics numbers list strings gmap sets.
From Stdlib Require Import ZArith Lia Ascii.
From S2P Require Import Prelude GoBytes DotEnv GoText Regex.

Local Open Scope string_scope.
Local Open Scope list_scope.
Local Open Scope gotext_scope.

(** ** Statements *)

Definition semicolon : ascii := ";"%char.

(** A line up to its first [--]. *)
Definition stripLineComment (line : bytes) : bytes :=
  match Index line (&"--") with Some i => take i line | None => line end.

Definition stripComments (sql : bytes) : bytes :=
  concat (map (fun line => stripLineComment line ++ newline_b) (SplitByte sql newline)).

Definition nonempty (b : bytes) : bool := match b with [] => false | _ => true end.

Definition splitStatements (sql : bytes) : list bytes :=
  filter (fun s => nonempty s = true) (map TrimSpace (SplitByte (stripComments sql) semicolon)).

Definition Statements (sql : bytes) : list bytes := splitStatements sql.

(** ** Operations *)

Inductive OpKind :=
| OpCreateTable | OpAddColumn | OpCreateIndex | OpDropColumn | OpDropTable | OpDropIndex
| OpRenameTable | OpRenameColumn | OpAlterColumn | OpOther.

Inductive Safety := SafetyNonDestructive | SafetyDataLoss.

#[export] Instance OpKind_eq_dec : EqDecision OpKind.
Proof. solve_decision. Defined.

#[export] Instance Safety_eq_dec : EqDecision Safety.
Proof. solve_decision. Defined.

Record Operation := mkOp { Kind : OpKind; Resource : bytes; OpColumn : bytes; OpSafety : Safety }.

(** ** The expressions *)

Definition sp : re := plus ws.                                   (* \s+ *)
Definition w (s : string) : re := ci (of_string s).              (* a word, case-insensitive *)
Definition tok (n : nat) : re := Cap n (plus nonws).             (* (\S+) *)
Definition lead (l : list re) : re := cat (Bot :: star ws :: l). (* ^\s* *)
Definition ifNotExists : re := opt (cat [w "IF"; sp; w "NOT"; sp; w "EXISTS"; sp]).
Definition ifExists : re := opt (cat [w "IF"; sp; w "EXISTS"; sp]).

(* ^\s*CREATE\s+TABLE\s+(?:IF\s+NOT\s+EXISTS\s+)?(\S+) *)
Definition reCreateTable : re := lead [w "CREATE"; sp; w "TABLE"; sp; ifNotExists; tok 1].
(* ^\s*CREATE\s+(?:UNIQUE\s+)?INDEX\s+(?:IF\s+NOT\s+EXISTS\s+)?(\S+) *)
Definition reCreateIndex : re :=
  lead [w "CREATE"; sp; opt (cat [w "UNIQUE"; sp]); w "INDEX"; sp; ifNotExists; tok 1].
(* ^\s*CREATE\s+(?:OR\s+REPLACE\s+)?(?:MATERIALIZED\s+)?(VIEW|SEQUENCE|...|OPERATOR)\b *)
Definition reCreateSafe : re :=
  lead [w "CREATE"; sp; opt (cat [w "OR"; sp; w "REPLACE"; sp]); opt (cat [w "MATERIALIZED"; sp]);
        Cap 1 (alt (map w ["VIEW"; "SEQUENCE"; "FUNCTION"; "PROCEDURE"; "TRIGGER"; "EXTENSION";
                           "SCHEMA"; "TYPE"; "DOMAIN"; "ROLE"; "AGGREGATE"; "OPERATOR"])); Wordb].
(* ^\s*(INSERT\s|SET\s|COMMENT\s+ON\b|GRANT\s|REVOKE\s|PRAGMA\s|BEGIN\b|...|REINDEX\b) *)
Definition reSafeStmt : re :=
  lead [Cap 1 (alt [cat [w "INSERT"; ws]; cat [w "SET"; ws]; cat [w "COMMENT"; sp; w "ON"; Wordb];
                    cat [w "GRANT"; ws]; cat [w "REVOKE"; ws]; cat [w "PRAGMA"; ws];
                    cat [w "BEGIN"; Wordb]; cat [w "COMMIT"; Wordb]; cat [w "SAVEPOINT"; ws];
                    cat [w "RELEASE"; ws]; cat [w "ANALYZE"; Wordb]; cat [w "VACUUM"; Wordb];
                    cat [w "REINDEX"; Wordb]])].
(* ^\s*DROP\s+TABLE\s+(?:IF\s+EXISTS\s+)?(\S+) *)
Definition reDropTable : re := lead [w "DROP"; sp; w "TABLE"; sp; ifExists; tok 1].
(* ^\s*DROP\s+INDEX\s+(?:IF\s+EXISTS\s+)?(\S+) *)
Definition reDropIndex : re := lead [w "DROP"; sp; w "INDEX"; sp; ifExists; tok 1].
(* ^\s*DROP\b *)
Definition reDropAny : re := lead [w "DROP"; Wordb].
(* ^\s*ALTER\s+TABLE\s+(\S+)\s+(body)$, the body any text *)
Definition reAlterTable : re := lead [w "ALTER"; sp; w "TABLE"; sp; tok 1; sp; Cap 2 (star any); Eot].
(* ^\s*(UPDATE\s|DELETE\b|TRUNCATE\b|MERGE\s|REPLACE\s) *)
Definition reDataChange : re :=
  lead [Cap 1 (alt [cat [w "UPDATE"; ws]; cat [w "DELETE"; Wordb]; cat [w "TRUNCATE"; Wordb];
                    cat [w "MERGE"; ws]; cat [w "REPLACE"; ws]])].
(* \bDROP\s+COLUMN\s+(\S+) *)
Definition reDropColumn : re := cat [Wordb; w "DROP"; sp; w "COLUMN"; sp; tok 1].
(* \bDROP\s+(\S+) *)
Definition reDropBare : re := cat [Wordb; w "DROP"; sp; tok 1].
(* \bADD\s+(?:COLUMN\s+)?(\S+) *)
Definition reAddColumn : re := cat [Wordb; w "ADD"; sp; opt (cat [w "COLUMN"; sp]); tok 1].
(* \bADD\s+(CONSTRAINT|INDEX|KEY|PRIMARY\s+KEY|FOREIGN\s+KEY|UNIQUE)\b *)
Definition reAddKeyword : re :=
  cat [Wordb; w "ADD"; sp;
       Cap 1 (alt [w "CONSTRAINT"; w "INDEX"; w "KEY"; cat [w "PRIMARY"; sp; w "KEY"];
                   cat [w "FOREIGN"; sp; w "KEY"]; w "UNIQUE"]); Wordb].
(* \bRENAME\s+COLUMN\s+(\S+) *)
Definition reRenameColumnAny : re := cat [Wordb; w "RENAME"; sp; w "COLUMN"; sp; tok 1].
(* \bRENAME\s+(?:TO\s+)?(\S+) *)
Definition reRenameTo : re := cat [Wordb; w "RENAME"; sp; opt (cat [w "TO"; sp]); tok 1].
(* \b(?:ALTER\s+COLUMN|MODIFY(?:\s+COLUMN)?|CHANGE(?:\s+COLUMN)?)\s+(\S+) *)
Definition reAlterColumn : re :=
  cat [Wordb; alt [cat [w "ALTER"; sp; w "COLUMN"]; cat [w "MODIFY"; opt (cat [sp; w "COLUMN"])];
                   cat [w "CHANGE"; opt (cat [sp; w "COLUMN"])]]; sp; tok 1].

(** ** Identifiers *)

(** [strings.TrimSuffix(tok, "(")], a qualifier dropped, quotes trimmed. *)
Definition clean (tok : bytes) : bytes :=
  let tok := TrimSuffix (TrimSpace tok) (&"(") in
  let tok := match LastIndexByte tok "." with
             | Some j => if Nat.ltb (j + 1) (length tok) then drop (j + 1) tok else tok
             | None => tok
             end in
  Trim tok [dquote; "`"%char; "["%char; "]"%char].

(** The cleaned first group, empty when the expression does not match. *)
Definition ident (r : re) (s : bytes) : bytes :=
  match FindStringSubmatch r s with Some m => clean (group 1 m) | None => [] end.

Definition dropKeywords : list bytes :=
  map of_string ["CONSTRAINT"; "INDEX"; "KEY"; "PRIMARY"; "FOREIGN"; "UNIQUE"; "CHECK"].

(** ** Classification *)

(** The first DROP of the body that names a column. *)
Fixpoint firstDropped (ms : list caps) : option bytes :=
  match ms with
  | [] => None
  | m :: ms =>
      if bool_decide (ToUpper (clean (group 1 m)) ∈ dropKeywords) then firstDropped ms
      else Some (clean (group 1 m))
  end.

Definition droppedColumn (body : bytes) : option bytes :=
  match FindStringSubmatch reDropColumn body with
  | Some m => Some (clean (group 1 m))
  | None => firstDropped (FindAllStringSubmatch reDropBare body)
  end.

(** [stmt] matches [reAlterTable]; [m] are its groups. *)
Definition classifyAlter (m : caps) : Operation :=
  let table := clean (group 1 m) in
  let body := group 2 m in
  match droppedColumn body with
  | Some col => mkOp OpDropColumn table col SafetyDataLoss
  | None =>
      if MatchString reAlterColumn body then mkOp OpAlterColumn table (ident reAlterColumn body) SafetyDataLoss
      else if MatchString reRenameColumnAny body then
        mkOp OpRenameColumn table (ident reRenameColumnAny body) SafetyNonDestructive
      else if MatchString reAddKeyword body then mkOp OpOther table [] SafetyNonDestructive
      else if MatchString reAddColumn body then mkOp OpAddColumn table (ident reAddColumn body) SafetyNonDestructive
      else if Contains (ToUpper body) (&"RENAME") then
        mkOp OpRenameTable table (ident reRenameTo body) SafetyNonDestructive
      else mkOp OpOther table [] SafetyNonDestructive
  end.

Definition classifyStatement (stmt : bytes) : Operation :=
  if MatchString reCreateTable stmt then mkOp OpCreateTable (ident reCreateTable stmt) [] SafetyNonDestructive
  else if MatchString reCreateIndex stmt then mkOp OpCreateIndex (ident reCreateIndex stmt) [] SafetyNonDestructive
  else if MatchString reCreateSafe stmt then mkOp OpOther [] [] SafetyNonDestructive
  else if MatchString reDropTable stmt then mkOp OpDropTable (ident reDropTable stmt) [] SafetyDataLoss
  else if MatchString reDropIndex stmt then mkOp OpDropIndex (ident reDropIndex stmt) [] SafetyNonDestructive
  else if MatchString reDropAny stmt then mkOp OpOther [] [] SafetyDataLoss
  else match FindStringSubmatch reAlterTable stmt with
  | Some m => classifyAlter m
  | None =>
      if MatchString reDataChange stmt then mkOp OpOther [] [] SafetyDataLoss
      else if MatchString reSafeStmt stmt then mkOp OpOther [] [] SafetyNonDestructive
      else mkOp OpOther [] [] SafetyDataLoss
  end.

Definition Classify (sql : bytes) : list Operation := map classifyStatement (splitStatements sql).

(** ** The package's own test cases *)

Definition kinds (sql : string) : list (OpKind * bytes * bytes * Safety) :=
  map (fun o => (Kind o, Resource o, OpColumn o, OpSafety o)) (Classify (of_string sql)).

Example classify_drop_column :
  kinds "ALTER TABLE users ADD a int, DROP b" = [(OpDropColumn, &"users", &"b", SafetyDataLoss)].
Proof. vm_compute. reflexivity. Qed.

Example classify_quoted :
  kinds "CREATE TABLE `users` (`id` int); DROP TABLE IF EXISTS public.posts; -- ADD
UPDATE t SET a = 1" =
  [(OpCreateTable, &"users", [], SafetyNonDestructive); (OpDropTable, &"posts", [], SafetyDataLoss);
   (OpOther, [], [], SafetyDataLoss)].
Proof. vm_compute. reflexivity. Qed.

Example classify_rename :
  kinds "ALTER TABLE t RENAME COLUMN a TO b; ALTER TABLE t DROP CONSTRAINT c; ALTER TABLE t MODIFY c text" =
  [(OpRenameColumn, &"t", &"a", SafetyNonDestructive); (OpOther, &"t", [], SafetyNonDestructive);
   (OpAlterColumn, &"t", &"c", SafetyDataLoss)].
Proof. vm_compute. reflexivity. Qed.
