(* ===== verification/AtlasSchema.v ===== *)
(** * The schema objects package schemaplan reads

    The Atlas library inspects a database into a graph of schemas, tables,
    columns, keys and foreign keys, and diffs two such graphs.  The library is
    not part of the repository; what is here is the shape of its values, with the
    fields the code reads.  Tables, columns and schemas are pointers in the
    graph, shared by the keys that mention them, and the code renames them in
    place, so they live in a store and a pointer is an address in it. *)

From stdpp Require Import base tactics numbers list strings gmap sets.
From Stdlib Require Import ZArith Lia Ascii.
From S2P Require Import Prelude GoBytes GoText.

Local Open Scope string_scope.
Local Open Scope list_scope.
Local Open Scope gotext_scope.
Local Open Scope Z_scope.

Inductive DatabaseDriver :=
| DatabaseDriverSQLite
| DatabaseDriverPostgres
| DatabaseDriverMySQL
| OtherDriver (name : bytes).

#[export] Instance DatabaseDriver_eq_dec : EqDecision DatabaseDriver.
Proof. solve_decision. Defined.

Definition driver_is (a b : DatabaseDriver) : bool := bool_decide (a = b).

(** ** Column types *)

Inductive SchemaType :=
| StringType (T : bytes) (Size : Z)
| BinaryType (T : bytes) (Size : option Z)
| IntegerType (T : bytes) (Unsigned : bool)
| FloatType (T : bytes) (Precision : Z)
| TimeType (T : bytes) (Precision : option Z)
| DecimalType (T : bytes) (Precision Scale : Z)
| BoolType (T : bytes)
| EnumType (T : bytes) (Values : list bytes)
| UUIDType (T : bytes)
| SerialType (T : bytes)                              (* postgres *)
| OtherType (goType : bytes) (T : option bytes).      (* any other, its Go type and its T field *)

(** Go's name of the type, as [reflect.TypeOf] compares it and [%T] prints it. *)
Definition goType (t : SchemaType) : bytes :=
  match t with
  | StringType _ _ => &"*schema.StringType"
  | BinaryType _ _ => &"*schema.BinaryType"
  | IntegerType _ _ => &"*schema.IntegerType"
  | FloatType _ _ => &"*schema.FloatType"
  | TimeType _ _ => &"*schema.TimeType"
  | DecimalType _ _ _ => &"*schema.DecimalType"
  | BoolType _ => &"*schema.BoolType"
  | EnumType _ _ => &"*schema.EnumType"
  | UUIDType _ => &"*schema.UUIDType"
  | SerialType _ => &"*postgres.SerialType"
  | OtherType g _ => g
  end.

(** The [T] field, for the types that have one. *)
Definition typeT (t : SchemaType) : option bytes :=
  match t with
  | StringType T _ | BinaryType T _ | IntegerType T _ | FloatType T _ | TimeType T _
  | DecimalType T _ _ | BoolType T | EnumType T _ | UUIDType T | SerialType T => Some T
  | OtherType _ T => T
  end.

Record ColumnType := mkColumnType { Type_ : SchemaType; Raw : bytes; Null : bool }.

(** ** Expressions and attributes *)

Inductive Expr :=
| Literal (V : bytes)
| RawExpr (X : bytes)
| OtherExpr (goType payload : bytes).

Inductive Attr :=
| Charset (V : bytes)
| Collation (V : bytes)
| Comment (Text : bytes)
| GeneratedExpr (Expr Type_ : bytes)
| SubPart (Len : Z)                                   (* mysql: an index prefix *)
| SQLiteAutoIncrement (Seq : Z)
| MySQLAutoIncrement (V : Z)
| PostgresIdentity (Generation : bytes)
| OtherAttr (goType payload : bytes).

#[export] Instance Expr_eq_dec : EqDecision Expr.
Proof. solve_decision. Defined.

#[export] Instance Attr_eq_dec : EqDecision Attr.
Proof. solve_decision. Defined.

(** ** Objects *)

Abbreviation ptr := positive (only parsing).

Record Column := mkColumn {
  cName : bytes;
  cType : option ColumnType;
  cDefault : option Expr;
  cAttrs : list Attr;
  cIndexes : list bytes;        (* the names of its indexes *)
  cForeignKeys : list bytes;    (* the symbols of its foreign keys *)
}.

Record IndexPart := mkPart { pC : option ptr; pX : option Expr; pDesc : bool; pAttrs : list Attr }.

Record SchemaIndex := mkIndex { iName : bytes; iUnique : bool; iParts : list IndexPart; iAttrs : list Attr }.

Record ForeignKey := mkFK {
  fSymbol : bytes;
  fTable : ptr;
  fColumns : list ptr;
  fRefTable : option ptr;
  fRefColumns : list ptr;
  fOnDelete : bytes;
  fOnUpdate : bytes;
}.

Record Check_ := mkCheck { kName : bytes; kExpr : bytes; kAttrs : list Attr }.

Record Table := mkTable {
  tName : bytes;
  tSchema : option ptr;
  tColumns : list ptr;
  tIndexes : list SchemaIndex;
  tPrimaryKey : option SchemaIndex;
  tForeignKeys : list ForeignKey;
  tAttrs : list Attr;
}.

Record Schema := mkSchema {
  sName : bytes;
  sTables : list ptr;
  sAttrs : list Attr;
  sViews : list bytes;
  sObjects : list bytes;
}.

Record Store := mkStore {
  columns : gmap ptr Column;
  tables : gmap ptr Table;
  schemas : gmap ptr Schema;
}.

Definition Realm : Type := list ptr.

(** ** Changes *)

Inductive ChangeKind :=
| ChangeAttr | ChangeCharset | ChangeCollate | ChangeComment | ChangeNull | ChangeType
| ChangeDefault | ChangeGenerated | ChangeUnique | ChangeParts | ChangeColumn | ChangeRefColumn
| ChangeRefTable | ChangeUpdateAction | ChangeDeleteAction.

#[export] Instance ChangeKind_eq_dec : EqDecision ChangeKind.
Proof. solve_decision. Defined.

(** A change mask, as the kinds it holds. *)
Definition ChangeMask : Type := list ChangeKind.

Definition Is (m : ChangeMask) (k : ChangeKind) : bool := bool_decide (k ∈ m).

(** [m &^ known != NoChange] *)
Definition beyond (m known : ChangeMask) : bool := existsb (fun k => negb (bool_decide (k ∈ known))) m.

Inductive Change :=
| AddTable (T : ptr)
| DropTable (T : ptr)
| ModifyTable (T : ptr) (Changes : list Change)
| AddColumn (C : ptr)
| DropColumn (C : ptr)
| ModifyColumn (From To : ptr) (mask : ChangeMask)
| AddIndex (I : SchemaIndex)
| DropIndex (I : SchemaIndex)
| ModifyIndex (From To : SchemaIndex) (mask : ChangeMask)
| AddForeignKey (F : ForeignKey)
| DropForeignKey (F : ForeignKey)
| ModifyForeignKey (From To : ForeignKey) (mask : ChangeMask)
| AddCheck (C : Check_)
| DropCheck (C : Check_)
| ModifyCheck (From To : Check_) (mask : ChangeMask)
| AddPrimaryKey (P : SchemaIndex)
| DropPrimaryKey (P : SchemaIndex)
| ModifyPrimaryKey (From To : SchemaIndex) (mask : ChangeMask)
| AddAttr (A : Attr)
| DropAttr (A : Attr)
| ModifyAttr (From To : Attr)
| RenameColumn (From To : ptr)
| RenameIndex (From To : SchemaIndex)
| OtherChange (goName : bytes).

(** [strings.TrimPrefix(fmt.Sprintf("%T", c), "*schema.")] *)
Definition changeName (c : Change) : bytes :=
  match c with
  | AddTable _ => &"AddTable"
  | DropTable _ => &"DropTable"
  | ModifyTable _ _ => &"ModifyTable"
  | AddColumn _ => &"AddColumn"
  | DropColumn _ => &"DropColumn"
  | ModifyColumn _ _ _ => &"ModifyColumn"
  | AddIndex _ => &"AddIndex"
  | DropIndex _ => &"DropIndex"
  | ModifyIndex _ _ _ => &"ModifyIndex"
  | AddForeignKey _ => &"AddForeignKey"
  | DropForeignKey _ => &"DropForeignKey"
  | ModifyForeignKey _ _ _ => &"ModifyForeignKey"
  | AddCheck _ => &"AddCheck"
  | DropCheck _ => &"DropCheck"
  | ModifyCheck _ _ _ => &"ModifyCheck"
  | AddPrimaryKey _ => &"AddPrimaryKey"
  | DropPrimaryKey _ => &"DropPrimaryKey"
  | ModifyPrimaryKey _ _ _ => &"ModifyPrimaryKey"
  | AddAttr _ => &"AddAttr"
  | DropAttr _ => &"DropAttr"
  | ModifyAttr _ _ => &"ModifyAttr"
  | RenameColumn _ _ => &"RenameColumn"
  | RenameIndex _ _ => &"RenameIndex"
  | OtherChange g => g
  end.

(** ** Reading the store

    A pointer of the graph is always in the store; the zero value stands for one
    that is not. *)

Definition zeroColumn : Column := mkColumn [] None None [] [] [].
Definition zeroTable : Table := mkTable [] None [] [] None [] [].
Definition zeroSchema : Schema := mkSchema [] [] [] [] [].

Definition col (h : Store) (c : ptr) : Column := default zeroColumn (columns h !! c).
Definition tab (h : Store) (t : ptr) : Table := default zeroTable (tables h !! t).
Definition sch (h : Store) (s : ptr) : Schema := default zeroSchema (schemas h !! s).

(** [Table.Column]: the first column of that name. *)
Definition findColumn (h : Store) (t : Table) (name : bytes) : option ptr :=
  match list_find (fun c => cName (col h c) = name) (tColumns t) with Some (_, c) => Some c | None => None end.

(** [Schema.Table]: the first table of that name. *)
Definition findTableIn (h : Store) (s : Schema) (name : bytes) : option ptr :=
  match list_find (fun t => tName (tab h t) = name) (sTables s) with Some (_, t) => Some t | None => None end.

(** [Realm.Schema]: the first schema of that name. *)
Definition findSchema (h : Store) (r : Realm) (name : bytes) : option ptr :=
  match list_find (fun s => sName (sch h s) = name) r with Some (_, s) => Some s | None => None end.
