(* ===== verification/SchemaClassify.v ===== *)
(** * migrations/schemaplan/classify.go: ranking schema changes by what they do to rows

    Every function of the file is here: the key-length bounds of MySQL, the
    collation and uniqueness checks, the direction of a type change, the pairing
    of constraints dropped and re-added under a new name, and the classification
    of the changes of a table and of a diff. *)

From stdpp Require Import base tactics numbers list strings gmap sets.
From Stdlib Require Import ZArith Lia Ascii.
From S2P Require Import Prelude GoBytes DotEnv GoText AtlasSchema.

Local Open Scope string_scope.
Local Open Scope list_scope.
Local Open Scope gotext_scope.
Local Open Scope Z_scope.

Inductive Severity := SeveritySafe | SeverityReview | SeverityUnsafe | SeverityDestructive.

#[export] Instance Severity_eq_dec : EqDecision Severity.
Proof. solve_decision. Defined.

(** ** Step codes *)

Definition StepAddTable := &"add_table".
Definition StepDropTable := &"drop_table".
Definition StepAddColumn := &"add_column".
Definition StepDropColumn := &"drop_column".
Definition StepAddNotNull := &"add_not_null".
Definition StepSetNotNull := &"set_not_null".
Definition StepDropNotNull := &"drop_not_null".
Definition StepNarrowType := &"narrow_type".
Definition StepChangeType := &"change_type".
Definition StepWidenType := &"widen_type".
Definition StepChangeDefault := &"change_default".
Definition StepAddIndex := &"add_index".
Definition StepDropIndex := &"drop_index".
Definition StepAddUnique := &"add_unique".
Definition StepAddForeignKey := &"add_foreign_key".
Definition StepDropForeignKey := &"drop_foreign_key".
Definition StepChangeForeignKey := &"change_foreign_key".
Definition StepAddCheck := &"add_check".
Definition StepDropCheck := &"drop_check".
Definition StepChangePrimaryKey := &"change_primary_key".
Definition StepTableRebuild := &"table_rebuild".
Definition StepChangeCharset := &"change_charset".
Definition StepChangeCollation := &"change_collation".
Definition StepChangeComment := &"change_comment".
Definition StepChangeGenerated := &"change_generated".
Definition StepRenameIndex := &"rename_index".
Definition StepRenameForeignKey := &"rename_foreign_key".
Definition StepRenameCheck := &"rename_check".
Definition StepOther := &"other".

(** [from] is the old name of a table a rename step renames. *)
Record PlanStep := mkStep {
  ID : bytes;
  Code : bytes;
  Sev : Severity;
  STable : bytes;
  SName : bytes;
  Detail : bytes;
  Hint_ : bytes;
  Acknowledged : bool;
  createdInPlan : list bytes;
  renameTo : bytes;
  from : bytes;
}.

(** The severities an acknowledgement is for. *)
Definition risky (s : Severity) : bool :=
  match s with SeverityDestructive | SeverityUnsafe => true | _ => false end.

Definition NeedsAcknowledgement (s : PlanStep) : bool := risky (Sev s) && negb (Acknowledged s).

Definition stepID (code table name : bytes) : bytes :=
  let id := code ++ &":" ++ table in
  match name with [] => id | _ => id ++ &"." ++ name end.

Definition newStep (code : bytes) (sev : Severity) (table name detail : bytes) : PlanStep :=
  mkStep (stepID code table name) code sev table name detail [] false [] [] [].

Definition withHint (s : PlanStep) (hint : bytes) : PlanStep :=
  mkStep (ID s) (Code s) (Sev s) (STable s) (SName s) (Detail s) hint (Acknowledged s)
         (createdInPlan s) (renameTo s) (from s).

(** ** Small readings of a column *)

Definition orUnset (v : bytes) : bytes := match v with [] => &"(default)" | _ => v end.

(** The last charset, and the last collation, of the attributes. *)
Definition columnCharset (c : Column) : bytes :=
  fold_left (fun cs a => match a with Charset v => v | _ => cs end) (cAttrs c) [].

Definition columnCollation (c : Column) : bytes :=
  fold_left (fun co a => match a with Collation v => v | _ => co end) (cAttrs c) [].

Definition nullDefault (d : option Expr) : bool :=
  match d with
  | None => true
  | Some (Literal v) => EqualFold (TrimSpace v) (&"NULL")
  | Some (RawExpr x) => EqualFold (TrimSpace x) (&"NULL")
  | Some (OtherExpr _ _) => false
  end.

(** The code reads [c.Type.Type] only for a column with a type. *)
Definition autoIncrement (c : Column) : bool :=
  match cType c with Some ct => match Type_ ct with SerialType _ => true | _ => false end | None => false end ||
  existsb (fun a => match a with
                    | SQLiteAutoIncrement _ | MySQLAutoIncrement _ | PostgresIdentity _ => true
                    | _ => false
                    end) (cAttrs c).

Definition typeString (c : Column) : bytes :=
  match cType c with
  | None => &"?"
  | Some ct =>
      if beqb (Raw ct) [] then
        match Type_ ct with
        | StringType T n => if n >? 0 then Sprintf "%s(%d)" [T; itoa n] else T
        | DecimalType T p s => if p >? 0 then Sprintf "%s(%d,%d)" [T; itoa p; itoa s] else T
        | IntegerType T u => if u then T ++ &" unsigned" else T
        | t => default (goType t) (typeT t)
        end
      else Raw ct
  end.

(** ** Key lengths *)

Definition innodbKeyLimit : Z := 3072.
Definition maxBytesPerChar : Z := 4.
Definition keyLimitHint : bytes := &"Shorten the columns, or index a prefix of them.".

(** [None] is [ok = false]: no bound is known. *)
Definition columnKeyBytes (c : Column) : option Z :=
  match cType c with
  | None => None
  | Some ct =>
      match Type_ ct with
      | StringType _ n => if n >? 0 then Some (n * maxBytesPerChar) else None
      | BinaryType _ (Some n) => if n >? 0 then Some n else None
      | IntegerType _ _ | FloatType _ _ | TimeType _ _ => Some 8
      | DecimalType _ p _ => if p >? 0 then Some (p / 2 + 1) else Some 33
      | BoolType _ => Some 1
      | EnumType _ _ => Some 2
      | UUIDType _ => Some 16
      | _ => None
      end
  end.

(** The first positive prefix length of an index part. *)
Fixpoint prefixLen (attrs : list Attr) : option Z :=
  match attrs with
  | [] => None
  | SubPart n :: attrs => if n >? 0 then Some n else prefixLen attrs
  | _ :: attrs => prefixLen attrs
  end.

Section store.
Context (h : Store).

Definition partBytes (p : IndexPart) : option Z :=
  match prefixLen (pAttrs p) with
  | Some n => Some (n * maxBytesPerChar)
  | None => match pC p with Some c => columnKeyBytes (col h c) | None => None end
  end.

Fixpoint keyBytes (n : Z) (parts : list IndexPart) : option Z :=
  match parts with
  | [] => Some n
  | p :: parts =>
      match pC p with
      | None => None
      | Some _ => match partBytes p with Some b => keyBytes (n + b) parts | None => None end
      end
  end.

Definition keyTooLong (parts : list IndexPart) : bool :=
  match keyBytes 0 parts with Some n => n >? innodbKeyLimit | None => true end.

Definition columnParts (cols : list ptr) : list IndexPart :=
  map (fun c => mkPart (Some c) None false []) cols.

Definition tableKeys (t : Table) : list (list IndexPart) :=
  match tPrimaryKey t with Some k => [iParts k] | None => [] end ++
  map iParts (tIndexes t) ++ map (fun fk => columnParts (fColumns fk)) (tForeignKeys t).

Definition tableKeyTooLong (t : Table) : bool := existsb keyTooLong (tableKeys t).

Definition partOn (column : bytes) (p : IndexPart) : bool :=
  match pC p with Some c => beqb (cName (col h c)) column | None => false end.

Definition indexOverKeyLimit (t : Table) (column : bytes) : bool :=
  existsb (fun k => existsb (fun p => partOn column p && keyTooLong k) k) (tableKeys t).

Definition uniquelyIndexed (t : Table) (column : bytes) : bool :=
  match tPrimaryKey t with Some k => existsb (partOn column) (iParts k) | None => false end ||
  existsb (fun idx => iUnique idx && existsb (partOn column) (iParts idx)) (tIndexes t).

(** ** Collations across a foreign key *)

Fixpoint findCollation (attrs : list Attr) : bytes :=
  match attrs with
  | [] => []
  | Collation v :: _ => v
  | _ :: attrs => findCollation attrs
  end.

Definition effectiveCollation (c : Column) (t : option Table) : bytes :=
  match columnCollation c with
  | [] =>
      match t with
      | None => []
      | Some t =>
          match findCollation (tAttrs t) with
          | [] => match tSchema t with Some s => findCollation (sAttrs (sch h s)) | None => [] end
          | v => v
          end
      end
  | v => v
  end.

(** [firstSome f l]: the first result of [f]. *)
Fixpoint firstSome {A B} (f : A -> option B) (l : list A) : option B :=
  match l with
  | [] => None
  | x :: l => match f x with Some y => Some y | None => firstSome f l end
  end.

Definition sideName (t : Table) (c : Column) (collation : bytes) : bytes :=
  Sprintf "%s.%s (%s)" [tName t; cName c; orUnset collation].

(** The other side of the [i]th column pair, when its collation differs. *)
Definition otherSide (want : bytes) (t : Table) (c : ptr) : option bytes :=
  let got := effectiveCollation (col h c) (Some t) in
  if EqualFold got want then None else Some (sideName t (col h c) got).

(** [zip], which stops at the shorter list as the length check of the loops does. *)
Definition fkCollationMismatch (t : Table) (c : Column) : option bytes :=
  let want := effectiveCollation c (Some t) in
  let declared :=
    firstSome (fun fk =>
      match fRefTable fk with
      | None => None
      | Some rt =>
          firstSome (fun '(a, b) => if beqb (cName (col h a)) (cName c) then otherSide want (tab h rt) b else None)
                    (zip (fColumns fk) (fRefColumns fk))
      end) (tForeignKeys t) in
  match declared with
  | Some side => Some side
  | None =>
      match tSchema t with
      | None => None
      | Some s =>
          firstSome (fun child =>
            firstSome (fun fk =>
              match fRefTable fk with
              | None => None
              | Some rt =>
                  if beqb (tName (tab h rt)) (tName t) then
                    firstSome (fun '(a, b) => if beqb (cName (col h b)) (cName c) then otherSide want (tab h child) a else None)
                              (zip (fColumns fk) (fRefColumns fk))
                  else None
              end) (tForeignKeys (tab h child))) (sTables (sch h s))
      end
  end.

End store.

(** ** The direction of a type change *)

Inductive typeDir := typeUnknown | typeWiden | typeNarrow.

#[export] Instance typeDir_eq_dec : EqDecision typeDir.
Proof. solve_decision. Defined.

Definition widenIf (ok : bool) : typeDir := if ok then typeWiden else typeNarrow.

(** One of the words, of a switch over a lower-cased name. *)
Definition oneOf (name : bytes) (words : list string) : bool := existsb (fun x => beqb name (of_string x)) words.

Definition intBytes (driver : DatabaseDriver) (t : bytes) : Z :=
  let name := ToLower t in
  if oneOf name ["tinyint"] then 1
  else if oneOf name ["smallint"; "int2"] then 2
  else if oneOf name ["mediumint"] then 3
  else if oneOf name ["int"; "int4"] then 4
  else if oneOf name ["integer"] then if driver_is driver DatabaseDriverSQLite then 8 else 4
  else if oneOf name ["bigint"; "int8"] then 8
  else 0.

Definition intDigits (driver : DatabaseDriver) (t : bytes) : Z :=
  match intBytes driver t with 1 => 3 | 2 => 5 | 3 => 8 | 4 => 10 | _ => 20 end.

Definition textRank (t : bytes) : Z :=
  let name := ToLower t in
  if oneOf name ["tinytext"] then 1
  else if oneOf name ["text"; "clob"] then 2
  else if oneOf name ["mediumtext"] then 3
  else if oneOf name ["longtext"] then 4
  else 0.

Definition floatBytes (driver : DatabaseDriver) (T : bytes) (precision : Z) : Z :=
  let name := ToLower T in
  match driver with
  | DatabaseDriverMySQL =>
      if oneOf name ["float"] then if precision >=? 24 then 8 else 4
      else if oneOf name ["double"; "double precision"; "real"] then 8
      else 0
  | DatabaseDriverSQLite => 8
  | _ =>
      if oneOf name ["real"; "float4"] then 4
      else if oneOf name ["double precision"; "float8"] then 8
      else if oneOf name ["float"] then if (precision >? 0) && (precision <=? 24) then 4 else 8
      else 0
  end.

Definition precision (p : option Z) : Z := default 0 p.

(** What a string type holds: characters, bytes, or no limit. *)
Record stringCap := mkCap { chars : Z; capBytes : Z; unbounded : bool }.

Definition stringCapacity (driver : DatabaseDriver) (T : bytes) (Size : Z) : stringCap :=
  let name := ToLower T in
  let sized := if Size >? 0 then mkCap Size 0 false else mkCap 0 0 true in
  if driver_is driver DatabaseDriverMySQL then
    if oneOf name ["tinytext"] then mkCap 0 255 false
    else if oneOf name ["text"] then mkCap 0 65535 false
    else if oneOf name ["mediumtext"] then mkCap 0 16777215 false
    else if oneOf name ["longtext"] then mkCap 0 4294967295 false
    else sized
  else sized.

Definition stringFits (from to : stringCap) : bool :=
  if unbounded to then true
  else if unbounded from then false
  else if (chars from >? 0) && (chars to >? 0) then chars to >=? chars from
  else if (capBytes from >? 0) && (capBytes to >? 0) then capBytes to >=? capBytes from
  else if chars from >? 0 then chars from * maxBytesPerChar <=? capBytes to
  else chars to >=? capBytes from.

(** The last test of [typeDirection]: any of these types renders as unbounded text. *)
Definition rendersAsText (from to : SchemaType) : typeDir :=
  match to with
  | StringType T Size =>
      if (Size =? 0) && (textRank T >=? textRank (&"text")) then
        match from with
        | BoolType _ | TimeType _ _ | FloatType _ _ | UUIDType _ => typeWiden
        | _ => typeUnknown
        end
      else typeUnknown
  | _ => typeUnknown
  end.

Definition typeDirection (driver : DatabaseDriver) (from to : SchemaType) : typeDir :=
  match from, to with
  | IntegerType fT fU, IntegerType tT tU =>
      if negb (Bool.eqb fU tU) then typeUnknown
      else
        let fr := intBytes driver fT in
        let tr := intBytes driver tT in
        if (fr =? 0) || (tr =? 0) then typeUnknown else widenIf (tr >=? fr)
  | IntegerType fT _, DecimalType _ p s =>
      if p =? 0 then typeWiden else widenIf (p - s >=? intDigits driver fT)
  | IntegerType _ _, StringType _ n => widenIf ((n =? 0) || (n >=? 20))
  | StringType fT fn, StringType tT tn =>
      widenIf (stringFits (stringCapacity driver fT fn) (stringCapacity driver tT tn))
  | DecimalType _ fp fs, DecimalType _ tp ts =>
      if tp =? 0 then typeWiden
      else if fp =? 0 then typeNarrow
      else widenIf ((tp - ts >=? fp - fs) && (ts >=? fs))
  | DecimalType _ _ _, StringType _ n => if n =? 0 then typeWiden else rendersAsText from to
  | FloatType fT fp, FloatType tT tp =>
      let fr := floatBytes driver fT fp in
      let tr := floatBytes driver tT tp in
      if (fr =? 0) || (tr =? 0) then typeUnknown else widenIf (tr >=? fr)
  | TimeType fT fp, TimeType tT tp =>
      if EqualFold fT tT then widenIf (precision tp >=? precision fp) else rendersAsText from to
  | _, _ => rendersAsText from to
  end.

(** ** Constraints renamed *)

Definition fkAction (a : bytes) : bytes := match a with [] => &"NO ACTION" | _ => a end.

Section changes.
Context (h : Store).

Definition indexColumns (i : SchemaIndex) : list bytes :=
  omap (fun p => match pC p with
                 | Some c => Some (cName (col h c))
                 | None => match pX p with Some _ => Some (&"<expr>") | None => None end
                 end) (iParts i).

Definition columnNames (cs : list ptr) : list bytes := map (fun c => cName (col h c)) cs.

Definition fkColumns (f : ForeignKey) : list bytes := columnNames (fColumns f).

Definition fkRef (f : ForeignKey) : bytes :=
  let table := match fRefTable f with Some t => tName (tab h t) | None => &"?" end in
  Sprintf "%s(%s)" [table; Join (columnNames (fRefColumns f)) (&", ")].

Definition fkSignature (f : ForeignKey) : bytes :=
  Sprintf "fk|%s|%s|%s|%s" [Join (fkColumns f) (&","); fkRef f; fkAction (fOnDelete f); fkAction (fOnUpdate f)].

(** Equal as values; the attributes of two lists in the same order. *)
Definition attrsEqual (a b : list Attr) : bool := bool_decide (a = b).

Definition samePart (pa pb : IndexPart) : bool :=
  Bool.eqb (pDesc pa) (pDesc pb) && bool_decide (pX pa = pX pb) && attrsEqual (pAttrs pa) (pAttrs pb) &&
  match pC pa, pC pb with
  | None, None => true
  | Some a, Some b => beqb (cName (col h a)) (cName (col h b))
  | _, _ => false
  end.

Fixpoint sameParts (a b : list IndexPart) : bool :=
  match a, b with
  | [], [] => true
  | x :: a, y :: b => samePart x y && sameParts a b
  | _, _ => false
  end.

Definition sameIndex (a b : SchemaIndex) : bool :=
  Bool.eqb (iUnique a) (iUnique b) && attrsEqual (iAttrs a) (iAttrs b) && sameParts (iParts a) (iParts b).

Definition sameDefinition (drop add : Change) : bool :=
  match drop, add with
  | DropIndex d, AddIndex a => sameIndex d a
  | DropForeignKey d, AddForeignKey a => beqb (fkSignature d) (fkSignature a)
  | DropCheck d, AddCheck a => beqb (kExpr d) (kExpr a) && attrsEqual (kAttrs d) (kAttrs a)
  | _, _ => false
  end.

Definition constraintName (c : Change) : bytes :=
  match c with
  | DropIndex i => iName i
  | DropForeignKey f => fSymbol f
  | DropCheck k => kName k
  | _ => []
  end.

Definition is_drop (c : Change) : bool :=
  match c with DropIndex _ | DropForeignKey _ | DropCheck _ => true | _ => false end.

(** A change of the list is its position in it; [away] are the positions of the
    drops already paired. *)
Definition indexed (changes : list Change) : list (nat * Change) := zip (seq 0 (length changes)) changes.

Definition firstTwin (away : list nat) (drops : list (nat * Change)) (c : Change) : option (nat * Change) :=
  firstSome (fun d => if negb (bool_decide (d.1 ∈ away)) && sameDefinition d.2 c then Some d else None) drops.

Definition pairStep (drops : list (nat * Change)) (st : list (nat * bytes) * list nat) (ic : nat * Change)
  : list (nat * bytes) * list nat :=
  match firstTwin st.2 drops ic.2 with
  | Some d => ((ic.1, constraintName d.2) :: st.1, d.1 :: st.2)
  | None => st
  end.

(** [renamedFrom] and [renamedAway], by position. *)
Definition pairRenames (changes : list Change) : list (nat * bytes) * list nat :=
  let drops := filter (fun d : nat * Change => is_drop d.2 = true) (indexed changes) in
  fold_left (pairStep drops) (indexed changes) ([], []).

Definition renamedName (renamedFrom : list (nat * bytes)) (i : nat) : option bytes :=
  firstSome (fun p : nat * bytes => if Nat.eqb p.1 i then Some p.2 else None) renamedFrom.

(** ** Single changes *)

Definition unclassified (table name what : bytes) : PlanStep :=
  let where_ := match name with [] => table | _ => table ++ &"." ++ name end in
  withHint (newStep StepOther SeverityUnsafe table name
              (Sprintf "Gombit cannot classify this change to %s (%s), so it is treated as unsafe." [where_; what]))
           (&"Read the SQL makemigrations would write for it before acknowledging it.").

Definition renameStep (table from : bytes) (c : Change) : PlanStep :=
  match c with
  | AddIndex i =>
      newStep StepRenameIndex SeveritySafe table (iName i)
        (Sprintf "Renames index %s to %s on %s(%s). The definition is unchanged, so the existing rows already satisfy it."
           [from; iName i; table; Join (indexColumns i) (&", ")])
  | AddForeignKey f =>
      newStep StepRenameForeignKey SeveritySafe table (fSymbol f)
        (Sprintf "Renames foreign key %s to %s. The definition is unchanged, so the existing rows already satisfy it."
           [from; fSymbol f])
  | AddCheck k =>
      newStep StepRenameCheck SeveritySafe table (kName k)
        (Sprintf "Renames check %s to %s. The expression is unchanged, so the existing rows already satisfy it."
           [from; kName k])
  | _ => unclassified table [] (changeName c)
  end.

Definition tableOption (a : Attr) : bool :=
  match a with Charset _ | Collation _ | Comment _ => true | _ => false end.

Definition tableOptionOnly (c : Change) : bool :=
  match c with
  | AddAttr a | DropAttr a => tableOption a
  | ModifyAttr a b => tableOption a && tableOption b
  | _ => false
  end.

Definition describeFKChange (F T : ForeignKey) (mask : ChangeMask) : bytes :=
  let parts :=
    (if Is mask ChangeDeleteAction
     then [Sprintf "ON DELETE %s -> %s" [fkAction (fOnDelete F); fkAction (fOnDelete T)]] else []) ++
    (if Is mask ChangeUpdateAction
     then [Sprintf "ON UPDATE %s -> %s" [fkAction (fOnUpdate F); fkAction (fOnUpdate T)]] else []) ++
    (if Is mask ChangeRefTable || Is mask ChangeRefColumn || Is mask ChangeColumn
     then [Sprintf "now %s(%s) references %s" [tName (tab h (fTable T)); Join (fkColumns T) (&", "); fkRef T]]
     else []) in
  match parts with [] => &"its definition changes" | _ => Join parts (&"; ") end.

Definition renameCandidates (dropped : Column) (added : list ptr) : list bytes :=
  omap (fun a => match cType dropped, cType (col h a) with
                 | Some d, Some t => if beqb (goType (Type_ d)) (goType (Type_ t)) then Some (cName (col h a)) else None
                 | _, _ => None
                 end) added.

Definition bookkeeping : list bytes := map of_string ["id"; "created_at"; "updated_at"; "deleted_at"].

(** Whether [t] holds every column of [cols] with the same type. *)
Definition holdsAll (cols : list ptr) (t : Table) : bool :=
  forallb (fun c => match findColumn h t (cName (col h c)) with
                    | Some tc => beqb (typeString (col h tc)) (typeString (col h c))
                    | None => false
                    end) cols.

Fixpoint oneMatch (cols : list ptr) (match_ : bytes) (added : list ptr) : bytes :=
  match added with
  | [] => match_
  | t :: added =>
      if holdsAll cols (tab h t) then
        match match_ with [] => oneMatch cols (tName (tab h t)) added | _ => [] end
      else oneMatch cols match_ added
  end.

Definition tableRenameCandidate (dropped : Table) (added : list ptr) : bytes :=
  let cols := filter (fun c => cName (col h c) ∉ bookkeeping) (tColumns dropped) in
  match cols with [] => [] | _ => oneMatch cols [] added end.

Definition renameTableHint (s : PlanStep) (models : bytes) : bytes :=
  match renameTo s with
  | [] =>
      match createdInPlan s with
      | [] => []
      | created =>
          Sprintf "The same plan creates %s. If one of them replaces %s, keep the rows with a table rename, then --rename any column that changed name:
  gombit db makemigrations <name> --rename-table %s:<new_table>%s
If %s is really going away, acknowledge the drop with --allow drop_table:%s."
            [Join created (&", "); STable s; STable s; models; STable s; STable s]
      end
  | to =>
      Sprintf "Table %s is created in the same plan with the same columns. If it replaces %s, keep the rows with a rename instead:
  gombit db makemigrations <name> --rename-table %s:%s%s" [to; STable s; STable s; to; models]
  end.

(** Whether SQLite applies an added column without rebuilding the table. *)
Definition addedInPlace (c : Column) : bool :=
  match cIndexes c, cForeignKeys c with
  | [], [] =>
      match cDefault c with
      | Some (Literal v) => negb (oneOf v ["CURRENT_TIME"; "CURRENT_DATE"; "CURRENT_TIMESTAMP"])
      | Some (RawExpr _) => false
      | _ => true
      end &&
      negb (default false (firstSome (fun a => match a with
                                               | GeneratedExpr _ ty => Some (EqualFold ty (&"STORED"))
                                               | _ => None
                                               end) (cAttrs c)))
  | _, _ => false
  end.

Definition alterable (changes : list Change) : bool :=
  forallb (fun c => match c with
                    | RenameColumn _ _ | RenameIndex _ _ | DropIndex _ | AddIndex _ => true
                    | AddColumn c => addedInPlace (col h c)
                    | _ => false
                    end) changes.

Definition classifyAddColumn (driver : DatabaseDriver) (table : bytes) (c : Column) (inPlace : bool) : PlanStep :=
  let strict := match cType c with Some ct => negb (Null ct) | None => false end in
  let noDefault := match cDefault c with None => true | Some _ => false end in
  if strict && noDefault && negb (autoIncrement c) then
    let detail :=
      if driver_is driver DatabaseDriverSQLite && inPlace
      then Sprintf "Adds NOT NULL column %s.%s with no default. SQLite rejects that even on an empty table." [table; cName c]
      else Sprintf "Adds NOT NULL column %s.%s with no default. The migration fails when %s already has rows."
             [table; cName c; table] in
    withHint (newStep StepAddNotNull SeverityUnsafe table (cName c) detail)
      (&"Give the column a database default (a gorm:" ++ dquote_b ++ &"default:..." ++ dquote_b ++
       &" tag on the model field; Gombit's default= field modifier is applied by the API, not the database, so it does not change this), or add it as nullable, backfill it, and make it required in a later migration.")
  else newStep StepAddColumn SeveritySafe table (cName c) (Sprintf "Adds column %s.%s." [table; cName c]).

(** ** A modified column *)

Definition limitText : bytes := itoa innodbKeyLimit.

Definition typeSteps (driver : DatabaseDriver) (t : Table) (F T : Column) : list PlanStep :=
  let table := tName t in
  let name := cName T in
  let dir := match cType F, cType T with
             | Some f, Some u => typeDirection driver (Type_ f) (Type_ u)
             | _, _ => typeUnknown
             end in
  let what := [table; name; typeString F; typeString T] in
  if driver_is driver DatabaseDriverSQLite && negb (bool_decide (dir = typeWiden)) then
    [newStep StepChangeType SeverityReview table name
       (Sprintf "Changes %s.%s from %s to %s. SQLite keeps stored values as they are, so existing rows may not match the new type." what)]
  else match dir with
  | typeWiden =>
      if driver_is driver DatabaseDriverMySQL && indexOverKeyLimit h t name then
        [withHint (newStep StepWidenType SeverityUnsafe table name
           (Sprintf "Widens %s.%s from %s to %s, but an index on it can exceed InnoDB's %d-byte key limit (or indexes TEXT without a prefix), which fails the migration." (what ++ [limitText])))
           (&"Index a prefix of the column, or keep the narrower type.")]
      else
        [newStep StepWidenType SeverityReview table name (Sprintf "Widens %s.%s from %s to %s. Existing values fit." what)]
  | typeNarrow =>
      [withHint (newStep StepNarrowType SeverityDestructive table name
         (Sprintf "Narrows %s.%s from %s to %s. Values that do not fit are truncated or make the migration fail." what))
         (&"Check the longest or largest stored value first, or keep the wider type.")]
  | typeUnknown =>
      [newStep StepChangeType SeverityUnsafe table name
         (Sprintf "Changes %s.%s from %s to %s. Values that do not convert make the migration fail or lose data." what)]
  end.

Definition nullSteps (t : Table) (T : Column) : list PlanStep :=
  let table := tName t in
  let name := cName T in
  if match cType T with Some ct => Null ct | None => false end then
    [newStep StepDropNotNull SeveritySafe table name (Sprintf "Makes %s.%s nullable." [table; name])]
  else
    [withHint (newStep StepSetNotNull SeverityUnsafe table name
       (Sprintf "Makes %s.%s NOT NULL. The migration fails if any row holds NULL there." [table; name]))
       (Sprintf "Backfill the NULLs first (UPDATE %s SET %s = ... WHERE %s IS NULL) in an earlier migration." [table; name; name])].

Definition charsetSteps (t : Table) (F T : Column) : list PlanStep :=
  let table := tName t in
  let name := cName T in
  let from := columnCharset F in
  let to := columnCharset T in
  if EqualFold to (&"utf8mb4") then
    if indexOverKeyLimit h t name then
      [withHint (newStep StepChangeCharset SeverityUnsafe table name
         (Sprintf "Converts %s.%s from charset %s to %s. An index on the column can exceed InnoDB's %d-byte key limit at 4 bytes per character, which fails the migration."
            [table; name; orUnset from; to; limitText]))
         (&"Shorten the column or index a prefix of it before converting.")]
    else
      [newStep StepChangeCharset SeverityReview table name
         (Sprintf "Converts %s.%s from charset %s to %s. Every stored character has an equivalent, and the indexes on the column fit the key limit."
            [table; name; orUnset from; to])]
  else
    [withHint (newStep StepChangeCharset SeverityUnsafe table name
       (Sprintf "Converts %s.%s from charset %s to %s. A stored character with no equivalent in %s fails the migration in strict mode or is replaced."
          [table; name; orUnset from; orUnset to; orUnset to]))
       (&"Check the stored values for characters outside the new charset first.")].

Definition collateSteps (t : Table) (F T : Column) : list PlanStep :=
  let table := tName t in
  let name := cName T in
  let from := columnCollation F in
  let to := columnCollation T in
  match fkCollationMismatch h t T with
  | Some other =>
      [withHint (newStep StepChangeCollation SeverityUnsafe table name
         (Sprintf "Changes the collation of %s.%s from %s to %s, but it is in a foreign key with %s, which keeps a different collation. Both sides of a foreign key must share a collation, so the migration fails."
            [table; name; orUnset from; orUnset to; other]))
         (&"Change the collation on both sides of the foreign key in the same migration.")]
  | None =>
      if uniquelyIndexed h t name then
        [withHint (newStep StepChangeCollation SeverityUnsafe table name
           (Sprintf "Changes the collation of %s.%s from %s to %s. The column is in a unique key, which is rebuilt and fails if two stored values compare equal under the new collation."
              [table; name; orUnset from; orUnset to]))
           (&"Check for values that differ only in case or accents before this migration applies.")]
      else
        [newStep StepChangeCollation SeverityReview table name
           (Sprintf "Changes the collation of %s.%s from %s to %s. Sorting and comparisons change."
              [table; name; orUnset from; orUnset to])]
  end.

Definition knownMask : ChangeMask :=
  [ChangeType; ChangeNull; ChangeDefault; ChangeCharset; ChangeCollate; ChangeComment; ChangeGenerated].

Definition when {A} (b : bool) (l : list A) : list A := if b then l else [].

Definition classifyModifyColumn (driver : DatabaseDriver) (t : Table) (From To : ptr) (mask : ChangeMask) : list PlanStep :=
  let F := col h From in
  let T := col h To in
  let table := tName t in
  let name := cName T in
  when (Is mask ChangeType) (typeSteps driver t F T) ++
  when (Is mask ChangeNull) (nullSteps t T) ++
  when (Is mask ChangeDefault)
    [newStep StepChangeDefault SeveritySafe table name
       (Sprintf "Changes the default of %s.%s. Existing rows keep their values." [table; name])] ++
  when (Is mask ChangeCharset) (charsetSteps t F T) ++
  when (Is mask ChangeCollate) (collateSteps t F T) ++
  when (Is mask ChangeComment)
    [newStep StepChangeComment SeveritySafe table name (Sprintf "Changes the comment of %s.%s." [table; name])] ++
  when (Is mask ChangeGenerated)
    [withHint (newStep StepChangeGenerated SeverityUnsafe table name
       (Sprintf "Changes the generated expression of %s.%s. Stored values are recomputed, which fails if the new expression errors on an existing row." [table; name]))
       (&"Evaluate the new expression against the stored rows first.")] ++
  when (beyond mask knownMask) [unclassified table name (&"column attribute change")].

(** ** A changed table *)

(** The columns the change adds that leave every existing row NULL. *)
Definition nullFilled (changes : list Change) : list bytes :=
  omap (fun c => match c with
                 | AddColumn c =>
                     let C := col h c in
                     if match cType C with Some ct => Null ct | None => false end && nullDefault (cDefault C)
                     then Some (cName C) else None
                 | _ => None
                 end) changes.

Definition onlyNullFilled (filled cols : list bytes) : bool :=
  match cols with [] => false | _ => forallb (fun c => bool_decide (c ∈ filled)) cols end.

Definition addedColumns (changes : list Change) : list ptr :=
  omap (fun c => match c with AddColumn c => Some c | _ => None end) changes.

Definition dropColumnStep (table : bytes) (added : list ptr) (c : Column) : PlanStep :=
  let step := newStep StepDropColumn SeverityDestructive table (cName c)
                (Sprintf "Drops column %s.%s and the data in it." [table; cName c]) in
  match renameCandidates c added with
  | [] => step
  | cand :: _ =>
      withHint step (Sprintf "%s.%s is added in the same plan. If it replaces %s, keep the data with a rename instead:
  gombit db makemigrations <name> --rename %s.%s:%s" [table; cand; cName c; table; cName c; cand])
  end.

Definition addIndexStep (driver : DatabaseDriver) (table : bytes) (filled : list bytes) (i : SchemaIndex) : PlanStep :=
  let cols := Join (indexColumns i) (&", ") in
  let what := [iName i; table; cols] in
  if driver_is driver DatabaseDriverMySQL && keyTooLong h (iParts i) then
    withHint (newStep (if iUnique i then StepAddUnique else StepAddIndex) SeverityUnsafe table (iName i)
      (Sprintf "Adds index %s on %s(%s), but its key can exceed InnoDB's %d-byte limit (or indexes TEXT/BLOB without a prefix), which fails even on an empty table." (what ++ [limitText])))
      keyLimitHint
  else if iUnique i && onlyNullFilled filled (indexColumns i) then
    newStep StepAddUnique SeveritySafe table (iName i)
      (Sprintf "Adds unique index %s on %s(%s). The columns are new, nullable, and have no default, so every existing row holds NULL and nothing collides." what)
  else if iUnique i then
    withHint (newStep StepAddUnique SeverityUnsafe table (iName i)
      (Sprintf "Adds unique index %s on %s(%s). It fails if existing rows hold duplicate values, including a default written into every existing row." what))
      (&"Remove or merge the duplicates before this migration applies.")
  else newStep StepAddIndex SeveritySafe table (iName i) (Sprintf "Adds index %s on %s(%s)." what).

Definition modifyIndexStep (driver : DatabaseDriver) (table : bytes) (filled : list bytes) (i : SchemaIndex)
    (mask : ChangeMask) : PlanStep :=
  let cols := Join (indexColumns i) (&", ") in
  let what := [iName i; table; cols] in
  let recreated := beyond mask [ChangeComment] in
  if recreated && driver_is driver DatabaseDriverMySQL && keyTooLong h (iParts i) then
    withHint (newStep (if iUnique i then StepAddUnique else StepAddIndex) SeverityUnsafe table (iName i)
      (Sprintf "Re-creates index %s on %s(%s), but its key can exceed InnoDB's %d-byte limit (or indexes TEXT/BLOB without a prefix), which fails the migration." (what ++ [limitText])))
      keyLimitHint
  else if iUnique i && recreated && onlyNullFilled filled (indexColumns i) then
    newStep StepAddUnique SeveritySafe table (iName i)
      (Sprintf "Re-creates unique index %s on %s(%s). The columns are new, nullable, and have no default, so every existing row holds NULL and nothing collides." what)
  else if iUnique i && recreated then
    withHint (newStep StepAddUnique SeverityUnsafe table (iName i)
      (Sprintf "Re-creates unique index %s on %s(%s). It fails if existing rows hold duplicate values under the new key." what))
      (&"Remove or merge the duplicates before this migration applies.")
  else newStep StepAddIndex SeveritySafe table (iName i) (Sprintf "Changes index %s on %s(%s)." what).

Definition fixRowsHint : bytes := &"Fix or null out rows that reference missing rows before this migration applies.".
Definition fixCheckHint : bytes := &"Fix the rows that violate the check before this migration applies.".

Definition addForeignKeyStep (driver : DatabaseDriver) (table : bytes) (filled : list bytes) (f : ForeignKey) : PlanStep :=
  let cols := fkColumns f in
  let what := [fSymbol f; table; Join cols (&", "); fkRef f] in
  if driver_is driver DatabaseDriverMySQL && keyTooLong h (columnParts (fColumns f)) then
    withHint (newStep StepAddForeignKey SeverityUnsafe table (fSymbol f)
      (Sprintf "Adds foreign key %s: %s(%s) references %s, but the index MySQL builds for it can exceed InnoDB's %d-byte key limit, which fails the migration." (what ++ [limitText])))
      keyLimitHint
  else if onlyNullFilled filled cols then
    newStep StepAddForeignKey SeveritySafe table (fSymbol f)
      (Sprintf "Adds foreign key %s: %s(%s) references %s. The columns are new, nullable, and have no default, so every existing row holds NULL and passes." what)
  else
    withHint (newStep StepAddForeignKey SeverityUnsafe table (fSymbol f)
      (Sprintf "Adds foreign key %s: %s(%s) references %s. Existing rows that point at a missing row, including a default written into every existing row, make it fail on PostgreSQL and MySQL and stay as violations on SQLite." what))
      fixRowsHint.

Definition modifyForeignKeyStep (driver : DatabaseDriver) (table : bytes) (filled : list bytes) (F T : ForeignKey)
    (mask : ChangeMask) : PlanStep :=
  let what := [fSymbol T; describeFKChange F T mask] in
  if Is mask ChangeColumn || Is mask ChangeRefColumn || Is mask ChangeRefTable then
    if driver_is driver DatabaseDriverMySQL && keyTooLong h (columnParts (fColumns T)) then
      withHint (newStep StepAddForeignKey SeverityUnsafe table (fSymbol T)
        (Sprintf "Re-creates foreign key %s: %s, but the index MySQL builds for it can exceed InnoDB's %d-byte key limit, which fails the migration." (what ++ [limitText])))
        keyLimitHint
    else if onlyNullFilled filled (fkColumns T) then
      newStep StepAddForeignKey SeveritySafe table (fSymbol T)
        (Sprintf "Re-creates foreign key %s: %s. The columns are new, nullable, and have no default, so every existing row holds NULL and passes." what)
    else
      withHint (newStep StepAddForeignKey SeverityUnsafe table (fSymbol T)
        (Sprintf "Re-creates foreign key %s: %s. Existing rows that point at a missing row make it fail on PostgreSQL and MySQL and stay as violations on SQLite." what))
        fixRowsHint
  else newStep StepChangeForeignKey SeverityReview table (fSymbol T) (Sprintf "Changes foreign key %s: %s." what).

(** One change that no rename accounts for. *)
Definition classifyChange (driver : DatabaseDriver) (t : Table) (all : list Change) (c : Change) : list PlanStep :=
  let table := tName t in
  let filled := nullFilled all in
  match c with
  | AddColumn c => [classifyAddColumn driver table (col h c) (alterable all)]
  | DropColumn c => [dropColumnStep table (addedColumns all) (col h c)]
  | ModifyColumn F T mask => classifyModifyColumn driver t F T mask
  | AddIndex i => [addIndexStep driver table filled i]
  | DropIndex i => [newStep StepDropIndex SeveritySafe table (iName i) (Sprintf "Drops index %s." [iName i])]
  | ModifyIndex _ i mask => [modifyIndexStep driver table filled i mask]
  | AddForeignKey f => [addForeignKeyStep driver table filled f]
  | DropForeignKey f =>
      [newStep StepDropForeignKey SeverityReview table (fSymbol f)
         (Sprintf "Drops foreign key %s. The database stops enforcing that %s(%s) references %s."
            [fSymbol f; table; Join (fkColumns f) (&", "); fkRef f])]
  | ModifyForeignKey F T mask => [modifyForeignKeyStep driver table filled F T mask]
  | AddCheck k =>
      [withHint (newStep StepAddCheck SeverityUnsafe table (kName k)
         (Sprintf "Adds check %s (%s). It fails if existing rows violate it." [kName k; kExpr k])) fixCheckHint]
  | ModifyCheck _ k _ =>
      [withHint (newStep StepAddCheck SeverityUnsafe table (kName k)
         (Sprintf "Changes check %s to (%s). It fails if existing rows violate it." [kName k; kExpr k])) fixCheckHint]
  | DropCheck k => [newStep StepDropCheck SeveritySafe table (kName k) (Sprintf "Drops check %s." [kName k])]
  | AddPrimaryKey _ | ModifyPrimaryKey _ _ _ =>
      [newStep StepChangePrimaryKey SeverityUnsafe table []
         (Sprintf "Changes the primary key of %s. It fails if existing rows hold duplicate or NULL key values." [table])]
  | DropPrimaryKey _ =>
      [newStep StepChangePrimaryKey SeverityReview table []
         (Sprintf "Drops the primary key of %s. The database stops enforcing unique row keys." [table])]
  | AddAttr _ | DropAttr _ | ModifyAttr _ _ =>
      if tableOptionOnly c then
        [newStep StepOther SeveritySafe table []
           (Sprintf "Changes a table option of %s (charset, collation, or comment) for columns added later. Stored values are not converted." [table])]
      else [unclassified table [] (changeName c)]
  | _ => [unclassified table [] (changeName c)]
  end.

Definition classifyTable (driver : DatabaseDriver) (t : ptr) (changes : list Change) : list PlanStep :=
  let table := tName (tab h t) in
  let '(renamedFrom, renamedAway) := pairRenames changes in
  concat (map (fun '(i, c) =>
    if bool_decide (i ∈ renamedAway) then []
    else match renamedName renamedFrom i with
         | Some from => [renameStep table from c]
         | None => classifyChange driver (tab h t) changes c
         end) (indexed changes)) ++
  when (driver_is driver DatabaseDriverSQLite && negb (alterable changes))
    [newStep StepTableRebuild SeverityReview table []
       (Sprintf "SQLite rebuilds %s: it copies the rows into new_%s, drops %s, and renames the copy." [table; table; table])].

(** ** A diff *)

Definition changeTable (c : Change) : bytes :=
  match c with
  | AddTable t | DropTable t | ModifyTable t _ => tName (tab h t)
  | _ => []
  end.

Definition dropTableStep (t : ptr) (added : list ptr) : PlanStep :=
  let T := tab h t in
  let step := newStep StepDropTable SeverityDestructive (tName T) []
                (Sprintf "Drops table %s and every row in it." [tName T]) in
  let step := mkStep (ID step) (Code step) (Sev step) (STable step) (SName step) (Detail step) (Hint_ step)
                (Acknowledged step) (map (fun t => tName (tab h t)) added) (tableRenameCandidate T added) (from step) in
  withHint step (renameTableHint step []).

Definition addTableStep (driver : DatabaseDriver) (T : Table) : PlanStep :=
  if driver_is driver DatabaseDriverMySQL && tableKeyTooLong h T then
    withHint (newStep StepAddTable SeverityUnsafe (tName T) []
      (Sprintf "Creates table %s, but one of its keys can exceed InnoDB's %d-byte key limit (or indexes TEXT/BLOB without a prefix), which fails CREATE TABLE."
         [tName T; limitText])) keyLimitHint
  else newStep StepAddTable SeveritySafe (tName T) [] (Sprintf "Creates table %s." [tName T]).

Definition addedTables (changes : list Change) : list ptr :=
  omap (fun c => match c with AddTable t => Some t | _ => None end) changes.

Definition classifyChanges (driver : DatabaseDriver) (changes : list Change) : list PlanStep :=
  let added := addedTables changes in
  concat (map (fun c =>
    match c with
    | AddTable t => [addTableStep driver (tab h t)]
    | DropTable t => [dropTableStep t added]
    | ModifyTable t cs => classifyTable driver t cs
    | _ => [unclassified (changeTable c) [] (changeName c)]
    end) changes).

End changes.
