(* ===== verification/SchemaTypeFacts.v ===== *)
(** * The direction of a type change, against the values a column can hold

    [holds d t v] says that a column of type [t] can store the value [v], from
    the databases' documentation: integer ranges by width, decimals by digits
    and scale, text by characters or by bytes.  [typeDirection] is measured
    against it: a widening keeps every value, and within the integer, decimal and
    text types a narrowing loses one. *)

From stdpp Require Import base tactics numbers list strings gmap sets.
From Stdlib Require Import ZArith QArith Lia Ascii.
From S2P Require Import Prelude GoBytes DotEnv GoText AtlasSchema SchemaClassify.

Local Open Scope string_scope.
Local Open Scope list_scope.
Local Open Scope gotext_scope.
Local Open Scope Z_scope.

(** ** Values *)

(** A text is the encoded length of each of its characters.  A number with a
    text form carries it. *)
Abbreviation text := (list Z) (only parsing).

Inductive value :=
| VInt (z : Z)
| VDec (n k : Z) (t : text)             (* n / 10^k *)
| VText (t : text)
| VFloat (m e : Z) (t : text)           (* m * 2^e *)
| VTime (kind : bytes) (digits : Z) (t : text)   (* digits of a second in use *)
| VScalar (t : text).                   (* a boolean or a uuid *)

Definition encoded (t : text) : Z := foldr Z.add 0 t.

Definition is_text (t : text) : Prop := Forall (fun b => 1 <= b <= 4) t.

(** The text a value converts to. *)
Definition textOf (v : value) : text :=
  match v with
  | VInt z => repeat 1 (length (itoa z))
  | VDec _ _ t | VText t | VFloat _ _ t | VTime _ _ t | VScalar t => t
  end.

(** ** Documented ranges *)

Definition widthTable (d : DatabaseDriver) : list (string * Z) :=
  [("tinyint", 1); ("smallint", 2); ("int2", 2); ("mediumint", 3); ("int", 4); ("int4", 4);
   ("integer", if driver_is d DatabaseDriverSQLite then 8 else 4); ("bigint", 8); ("int8", 8)].

Definition byName {A} (name : bytes) (l : list (string * A)) : option A :=
  match list_find (fun p : string * A => of_string p.1 = ToLower name) l with Some (_, p) => Some p.2 | None => None end.

Definition intRange (bytes_ : Z) (unsigned : bool) (z : Z) : Prop :=
  if unsigned then 0 <= z < 2 ^ (8 * bytes_) else - 2 ^ (8 * bytes_ - 1) <= z < 2 ^ (8 * bytes_ - 1).

(** The byte caps of MySQL's text types. *)
Definition textCaps : list (string * Z) :=
  [("tinytext", 255); ("text", 65535); ("mediumtext", 16777215); ("longtext", 4294967295)].

Definition textHolds (d : DatabaseDriver) (T : bytes) (Size : Z) (t : text) : Prop :=
  match if driver_is d DatabaseDriverMySQL then byName T textCaps else None with
  | Some cap => encoded t <= cap
  | None => 0 < Size -> Z.of_nat (length t) <= Size
  end.

Definition decHolds (p s n k : Z) : Prop :=
  p = 0 \/ exists m, m * 10 ^ k = n * 10 ^ s /\ Z.abs m < 10 ^ p.

(** The digits and the scale of a decimal column: MySQL's DECIMAL is DECIMAL(10, 0), the
    others' has no bound. *)
Definition decDigits (d : DatabaseDriver) (p s : Z) : Z * Z :=
  if driver_is d DatabaseDriverMySQL && (p =? 0) then (10, 0) else (p, s).

(** IEEE 754: the digits of the significand and the least and greatest exponent of the last
    of them. *)
Record format := mkFormat { significand : Z; leastExp : Z; greatestExp : Z }.
Definition binary32 : format := mkFormat 24 (-149) 104.
Definition binary64 : format := mkFormat 53 (-1074) 971.

(** [m * 2^e] is a number of the format. *)
Definition representable (f : format) (m e : Z) : Prop :=
  exists m' e', (inject_Z m' * Qpower 2 e' == inject_Z m * Qpower 2 e)%Q /\
    Z.abs m' < 2 ^ significand f /\ leastExp f <= e' <= greatestExp f.

(** The floating-point types: of MySQL, FLOAT(p) is single up to 23 digits and double from
    25 on; of PostgreSQL, float(p) is single from 1 to 24 and double otherwise; SQLite has
    one format. *)
Definition floatFormat (d : DatabaseDriver) (T : bytes) (p : Z) : format :=
  let single (b : bool) := if b then binary32 else binary64 in
  match d with
  | DatabaseDriverMySQL => default binary64 (byName T [("float", single (p <? 24))])
  | DatabaseDriverSQLite => binary64
  | _ => default binary64 (byName T [("real", binary32); ("float4", binary32); ("float", single ((1 <=? p) && (p <=? 24)))])
  end.

(** The digits of a second a time column keeps, of MySQL 0 and of PostgreSQL 6 when it says
    nothing; SQLite keeps what it is given. *)
Definition keepsDigits (d : DatabaseDriver) (p : option Z) (digits : Z) : Prop :=
  match d with
  | DatabaseDriverMySQL => digits <= default 0 p
  | DatabaseDriverSQLite => True
  | _ => digits <= default 6 p
  end.

(** No number, time, boolean or uuid renders in more than 255 bytes, except a
    decimal of PostgreSQL, which has no such bound. *)
Definition short (t : text) : Prop := is_text t /\ encoded t <= 255.

Definition holds (d : DatabaseDriver) (ty : SchemaType) (v : value) : Prop :=
  match ty, v with
  | IntegerType T u, VInt z => intRange (default 8 (byName T (widthTable d))) u z
  | DecimalType _ p s, VDec n k t =>
      0 <= k /\ decHolds (decDigits d p s).1 (decDigits d p s).2 n k /\ is_text t /\
      (driver_is d DatabaseDriverMySQL = true -> short t)
  | StringType T n, VText t => is_text t /\ textHolds d T n t
  | FloatType T p, VFloat m e t => representable (floatFormat d T p) m e /\ short t
  | TimeType T p, VTime kind digits t => EqualFold kind T = true /\ keepsDigits d p digits /\ short t
  | BoolType _, VScalar t => short t
  | UUIDType _, VScalar t => short t
  | _, _ => False
  end.

(** The value once the column has its new type. *)
Definition convert (to : SchemaType) (v : value) : value :=
  match to, v with
  | StringType _ _, _ => VText (textOf v)
  | DecimalType _ _ _, VInt z => VDec z 0 (textOf v)
  | _, _ => v
  end.

(** A type the databases accept, with what they fill in: MySQL shows the digits of every
    decimal, and PostgreSQL those of every time.  MySQL's FLOAT(24) is left out, for which its
    manual gives both widths. *)
Definition typeOk (d : DatabaseDriver) (t : SchemaType) : Prop :=
  match t with
  | DecimalType _ p s => 0 <= s /\ (p = 0 \/ s <= p) /\ (driver_is d DatabaseDriverMySQL = true -> p <> 0)
  | StringType _ n => 0 <= n
  | FloatType _ p => driver_is d DatabaseDriverMySQL = true -> p <> 24
  | TimeType _ p => match d with DatabaseDriverMySQL | DatabaseDriverSQLite => True | _ => is_Some p end
  | _ => True
  end.

(** ** Numbers *)

Lemma digits_length n : forall z k, 0 <= z < 10 ^ k -> 1 <= k -> (length (digits_fuel n z) <= Z.to_nat k)%nat.
Proof.
  induction n as [|n IH]; intros z k Hz Hk; cbn [digits_fuel]; [cbn [length]; lia|].
  destruct (Z.eqb_spec (z / 10) 0) as [|Hne]; cbn [length]; [lia|].
  assert (k <> 1) by (intros ->; change (10 ^ 1) with 10 in Hz; apply Hne, Z.div_small, Hz).
  assert (0 <= z / 10 < 10 ^ (k - 1)).
  { split; [apply Z.div_pos; lia|]. apply Z.div_lt_upper_bound; [lia|].
    replace (10 * 10 ^ (k - 1)) with (10 ^ k); [lia|]. rewrite <-Z.pow_succ_r by lia. f_equal. lia. }
  specialize (IH (z / 10) (k - 1) ltac:(lia) ltac:(lia)). lia.
Qed.

(** A 64-bit number, signed or not, takes at most twenty characters. *)
Lemma itoa_length z : - 2 ^ 63 <= z < 2 ^ 64 -> (length (itoa z) <= 20)%nat.
Proof.
  intros Hz. unfold itoa. destruct (Z.ltb_spec z 0); cbn [length]; rewrite length_rev.
  - pose proof (digits_length 64 (- z) 19). lia.
  - pose proof (digits_length 64 z 20). lia.
Qed.

Lemma encoded_repeat n : encoded (repeat 1 n) = Z.of_nat n.
Proof. induction n as [|n IH]; [done|]. unfold encoded in *. cbn [repeat foldr]. lia. Qed.

Lemma is_text_repeat b n : 1 <= b <= 4 -> is_text (repeat b n).
Proof. intros Hb. induction n; constructor; auto. Qed.

Lemma encoded_bounds t : is_text t -> Z.of_nat (length t) <= encoded t <= 4 * Z.of_nat (length t).
Proof.
  unfold encoded. induction 1 as [|b t Hb Ht IH]; cbn [foldr length]; [lia|]. lia.
Qed.

(** ** The code's tables are the documented ones *)

Lemma oneOf_one name x : oneOf name [x] = beqb name (of_string x).
Proof. unfold oneOf. simpl. by rewrite orb_false_r. Qed.

Lemma intBytes_table d T :
  intBytes d T = default 0 (byName T (widthTable d)).
Proof.
  unfold intBytes, byName, widthTable, oneOf. cbn [existsb list_find fst snd].
  unfold beqb. set (x := ToLower T). clearbody x.
  repeat first
    [ reflexivity
    | match goal with
      | |- context [decide (of_string ?s = x)] => destruct (decide (of_string s = x)) as [<-|?]
      | |- context [bool_decide (x = of_string ?s)] => rewrite (bool_decide_eq_false_2 (x = of_string s)) by congruence
      end; cbn [orb default fst snd] ].
Qed.

(** What a capacity lets in. *)
Definition capHolds (c : stringCap) (t : text) : Prop :=
  unbounded c = true \/ (chars c > 0 /\ Z.of_nat (length t) <= chars c) \/ (chars c = 0 /\ encoded t <= capBytes c).

Definition capOk (c : stringCap) : Prop :=
  unbounded c = true \/ (unbounded c = false /\ chars c > 0 /\ capBytes c = 0) \/
  (unbounded c = false /\ chars c = 0 /\ capBytes c > 0).

Lemma stringCapacity_table d T n :
  stringCapacity d T n =
  match if driver_is d DatabaseDriverMySQL then byName T textCaps else None with
  | Some cap => mkCap 0 cap false
  | None => if n >? 0 then mkCap n 0 false else mkCap 0 0 true
  end.
Proof.
  unfold stringCapacity, byName, textCaps, oneOf, beqb. set (x := ToLower T). clearbody x.
  destruct (driver_is d DatabaseDriverMySQL); [|done]. cbn [existsb list_find fst snd].
  repeat first
    [ reflexivity
    | match goal with
      | |- context [decide (of_string ?s = x)] => destruct (decide (of_string s = x)) as [<-|?]
      | |- context [bool_decide (x = of_string ?s)] => rewrite (bool_decide_eq_false_2 (x = of_string s)) by congruence
      end; cbn [orb default fst snd] ].
Qed.

Lemma byName_textCaps T cap : byName T textCaps = Some cap -> 255 <= cap.
Proof.
  unfold byName, textCaps. cbn [list_find fst snd].
  repeat case_decide; cbn; intros [= <-]; lia.
Qed.

Lemma stringCapacity_ok d T n : capOk (stringCapacity d T n).
Proof.
  rewrite stringCapacity_table. destruct (if driver_is d _ then _ else None) as [cap|] eqn:E.
  - right; right. simpl. destruct (driver_is d _); [|done]. apply byName_textCaps in E. lia.
  - destruct (Z.gtb_spec n 0); [right; left|left]; simpl; auto with lia.
Qed.

Lemma textHolds_cap d T n t : 0 <= n -> textHolds d T n t <-> capHolds (stringCapacity d T n) t.
Proof.
  intros Hn. unfold textHolds, capHolds. rewrite stringCapacity_table.
  destruct (if driver_is d _ then _ else None) as [cap|]; simpl.
  - split; [auto|]. intros [?|[[? _]|[_ ?]]]; [done|lia|done].
  - destruct (Z.gtb_spec n 0); simpl; split; intros H'; try (intros ?); intuition lia.
Qed.

(** [stringFits] is exact: it holds when every text of one fits the other. *)
Lemma stringFits_sound c c' t :
  capOk c -> capOk c' -> is_text t -> stringFits c c' = true -> capHolds c t -> capHolds c' t.
Proof.
  intros Hc Hc' Ht Hf Hh. pose proof (encoded_bounds t Ht) as Hb. unfold stringFits in Hf.
  destruct c as [ch b u], c' as [ch' b' u']. unfold capOk, capHolds in *. simpl in *.
  destruct u'; [auto|]. destruct u; [done|].
  destruct Hc as [?|[(_ & Hc & Hb0)|(_ & Hc & Hb0)]]; [done| |];
    destruct Hc' as [?|[(_ & Hc' & Hb1)|(_ & Hc' & Hb1)]]; try done; subst; simpl in *.
  all: repeat match type of Hf with
       | context [Z.gtb ?a ?b] => destruct (Z.gtb_spec a b); try lia; simpl in Hf
       end.
  all: repeat match type of Hf with
       | (_ >=? _) = true => apply Z.geb_le in Hf
       | (_ <=? _) = true => apply Z.leb_le in Hf
       end.
  all: unfold maxBytesPerChar in *; destruct Hh as [?|[[? ?]|[? ?]]]; try done; lia.
Qed.

(** The longest text of a capacity: four bytes a character where characters
    count, and one byte where bytes do. *)
Definition longest (c : stringCap) (need : Z) : text :=
  if unbounded c then repeat 4 (Z.to_nat need)
  else if chars c >? 0 then repeat 4 (Z.to_nat (chars c))
  else repeat 1 (Z.to_nat (capBytes c)).

Lemma encoded_four n : encoded (repeat 4 n) = 4 * Z.of_nat n.
Proof. unfold encoded. induction n as [|n IH]; [done|]. cbn [repeat foldr]. lia. Qed.

Lemma stringFits_complete c c' :
  capOk c -> capOk c' -> stringFits c c' = false ->
  let t := longest c (chars c' + capBytes c' + 1) in is_text t /\ capHolds c t /\ ~ capHolds c' t.
Proof.
  intros Hc Hc' Hf. unfold stringFits in Hf. unfold longest.
  destruct c as [ch b u], c' as [ch' b' u']. unfold capOk, capHolds in *. simpl in *.
  destruct u'; [done|].
  destruct Hc' as [?|[(_ & Hc' & Hb1)|(_ & Hc' & Hb1)]]; try done; subst;
  (destruct Hc as [->|[(-> & Hc & Hb0)|(-> & Hc & Hb0)]]; subst; simpl in *);
  repeat match type of Hf with
    | context [Z.gtb ?a ?b] => destruct (Z.gtb_spec a b); try lia; simpl in Hf
    end;
  try match goal with |- context [Z.gtb ?a ?b] => destruct (Z.gtb_spec a b); try lia end;
  unfold maxBytesPerChar in *.
  all: split; [apply is_text_repeat; lia|].
  all: rewrite ?repeat_length, ?encoded_four, ?encoded_repeat, ?length_repeat.
  all: try (rewrite Z2Nat.id by lia).
  all: try (destruct (Z.geb_spec ch' ch)); try (destruct (Z.geb_spec b' b)); try (destruct (Z.leb_spec (ch * 4) b'));
       try (destruct (Z.geb_spec ch' b)); try done.
  all: split; [first [by left | by right; left; lia | by right; right; lia]|].
  all: intros [?|[[? ?]|[? ?]]]; try done; lia.
Qed.

(** ** Integers and decimals *)

Lemma intBytes_holds d T u z :
  holds d (IntegerType T u) (VInt z) -> intRange (if intBytes d T =? 0 then 8 else intBytes d T) u z.
Proof.
  simpl. rewrite intBytes_table. destruct (byName T (widthTable d)) as [n|] eqn:E; [|intros Hz; exact Hz].
  change (default 8 (Some n)) with n. change (default 0 (Some n)) with n. destruct (Z.eqb_spec n 0) as [->|]; [|done].
  exfalso. revert E. unfold byName, widthTable. cbn [list_find fst snd].
  repeat case_decide; cbn; try destruct (driver_is d DatabaseDriverSQLite); congruence.
Qed.

Lemma intBytes_values d T : intBytes d T = 0 \/ intBytes d T = 1 \/ intBytes d T = 2 \/ intBytes d T = 3 \/
  intBytes d T = 4 \/ intBytes d T = 8.
Proof. unfold intBytes. repeat case_match; tauto. Qed.

(** An integer has no more decimal digits than the code allows for, and at most 64 bits. *)
Lemma int_digits d T u z :
  holds d (IntegerType T u) (VInt z) -> Z.abs z < 10 ^ intDigits d T /\ - 2 ^ 63 <= z < 2 ^ 64.
Proof.
  intros Hz%intBytes_holds. unfold intDigits, intRange in *.
  destruct (intBytes_values d T) as [E|[E|[E|[E|[E|E]]]]]; rewrite E in *; simpl in *; destruct u; lia.
Qed.

Lemma intRange_mono a b u z : 1 <= a <= b -> intRange a u z -> intRange b u z.
Proof.
  intros Hab. unfold intRange. destruct u; intros Hz.
  - pose proof (Z.pow_le_mono_r 2 (8 * a) (8 * b)). lia.
  - pose proof (Z.pow_le_mono_r 2 (8 * a - 1) (8 * b - 1)). lia.
Qed.

Lemma decDigits_ok d T p s : typeOk d (DecimalType T p s) -> decDigits d p s = (p, s).
Proof.
  intros (_ & _ & Hp). unfold decDigits. destruct (driver_is d _); [|done]. destruct (Z.eqb_spec p 0); [by destruct Hp|done].
Qed.

Lemma dec_of_int p s z g : 0 <= s -> 0 <= g -> g <= p - s -> Z.abs z < 10 ^ g -> decHolds p s z 0.
Proof.
  intros Hs Hg Hp Hz. right. exists (z * 10 ^ s). split; [lia|].
  rewrite Z.abs_mul, (Z.abs_eq (10 ^ s)) by (apply Z.pow_nonneg; lia).
  apply Z.lt_le_trans with (10 ^ g * 10 ^ s).
  - apply Z.mul_lt_mono_pos_r; [apply Z.pow_pos_nonneg|]; lia.
  - rewrite <-Z.pow_add_r by lia. apply Z.pow_le_mono_r; lia.
Qed.

Lemma dec_mono p s p' s' n k :
  0 <= s -> p <> 0 -> p - s <= p' - s' -> s <= s' -> decHolds p s n k -> decHolds p' s' n k.
Proof.
  intros Hs Hp Hi Hss [?|(m & Hm & Hlt)]; [done|].
  assert (0 <= p) by (destruct (Z.leb_spec 0 p); [done|]; rewrite Z.pow_neg_r in Hlt by lia; lia).
  right. exists (m * 10 ^ (s' - s)). split.
  - rewrite <-Z.mul_assoc, (Z.mul_comm (10 ^ (s' - s))), Z.mul_assoc, Hm, <-Z.mul_assoc, <-Z.pow_add_r by lia.
    do 2 f_equal. lia.
  - rewrite Z.abs_mul, (Z.abs_eq (10 ^ (s' - s))) by (apply Z.pow_nonneg; lia).
    apply Z.lt_le_trans with (10 ^ p * 10 ^ (s' - s)).
    + apply Z.mul_lt_mono_pos_r; [apply Z.pow_pos_nonneg|]; lia.
    + rewrite <-Z.pow_add_r by lia. apply Z.pow_le_mono_r; lia.
Qed.

(** ** Text *)

Lemma short_textHolds d T t : short t -> textHolds d T 0 t.
Proof.
  intros [_ Ht]. unfold textHolds. destruct (if driver_is d _ then _ else None) as [cap|] eqn:E; [|lia].
  destruct (driver_is d _); [|done]. apply byName_textCaps in E. lia.
Qed.

Lemma int_short z : - 2 ^ 63 <= z < 2 ^ 64 -> short (textOf (VInt z)) /\ Z.of_nat (length (textOf (VInt z))) <= 20.
Proof.
  intros Hz%itoa_length. cbn [textOf]. unfold short. rewrite encoded_repeat, repeat_length.
  split; [split; [apply is_text_repeat|]|]; lia.
Qed.

Lemma rendersAsText_widen d from to v :
  rendersAsText from to = typeWiden -> holds d from v -> holds d to (convert to v).
Proof.
  unfold rendersAsText. destruct to as [T n| | | | | | | | | |]; try done.
  destruct (Z.eqb_spec n 0) as [->|]; [|done]. destruct (textRank T >=? textRank (&"text")); [|done].
  destruct from; try done; destruct v; try done; intros _ Hv; cbn [convert textOf holds] in *.
  all: assert (short t) as Hs by tauto.
  all: split; [apply Hs|by apply short_textHolds].
Qed.

Lemma EqualFold_trans a b c : EqualFold a b = true -> EqualFold b c = true -> EqualFold a c = true.
Proof. unfold EqualFold. rewrite !beqb_true. congruence. Qed.

(** ** The families *)

Lemma widenIf_true b : widenIf b = typeWiden -> b = true.
Proof. by destruct b. Qed.

Lemma widenIf_false b : widenIf b = typeNarrow -> b = false.
Proof. by destruct b. Qed.

Lemma int_widen d fT fu tT tu z :
  typeDirection d (IntegerType fT fu) (IntegerType tT tu) = typeWiden ->
  holds d (IntegerType fT fu) (VInt z) -> holds d (IntegerType tT tu) (VInt z).
Proof.
  simpl. rewrite !intBytes_table. destruct (Bool.eqb fu tu) eqn:Eu; [|done]. apply eqb_prop in Eu as ->.
  destruct (byName fT (widthTable d)) as [a|] eqn:Ea; [|done].
  destruct (byName tT (widthTable d)) as [b|] eqn:Eb; [|by rewrite orb_true_r].
  change (default 0 (Some a)) with a. change (default 0 (Some b)) with b.
  pose proof (intBytes_table d fT) as Ha. rewrite Ea in Ha. change (default 0 (Some a)) with a in Ha.
  pose proof (intBytes_values d fT).
  destruct (Z.eqb_spec a 0); [done|]. destruct (Z.eqb_spec b 0); [done|].
  intros Hw%widenIf_true%Z.geb_le Hz. apply (intRange_mono a b); [lia|done].
Qed.

Lemma int_to_decimal d fT fu tT p s z :
  typeOk d (DecimalType tT p s) -> typeDirection d (IntegerType fT fu) (DecimalType tT p s) = typeWiden ->
  holds d (IntegerType fT fu) (VInt z) -> holds d (DecimalType tT p s) (VDec z 0 (textOf (VInt z))).
Proof.
  intros Hok Hdir Hz%int_digits. destruct Hz as [Hz H64]. destruct (int_short z H64) as [Hsh _].
  split; [lia|]. split; [|split; [apply Hsh|done]]. rewrite (decDigits_ok _ _ _ _ Hok). destruct Hok as [Hs _]. cbn [fst snd].
  cbn [typeDirection] in Hdir. destruct (Z.eqb_spec p 0); [by left|]. apply widenIf_true, Z.geb_le in Hdir.
  apply (dec_of_int p s z (intDigits d fT)); try done. unfold intDigits. repeat case_match; lia.
Qed.

Lemma int_to_text d fT fu tT n z :
  0 <= n -> typeDirection d (IntegerType fT fu) (StringType tT n) = typeWiden ->
  holds d (IntegerType fT fu) (VInt z) -> holds d (StringType tT n) (VText (textOf (VInt z))).
Proof.
  intros Hn Hdir Hz%int_digits. destruct Hz as [_ H64]. destruct (int_short z H64) as [Hsh Hlen].
  split; [apply Hsh|]. cbn [typeDirection] in Hdir. apply widenIf_true, orb_true_iff in Hdir.
  pose proof (short_textHolds d tT _ Hsh) as H0. unfold textHolds in *.
  destruct (if driver_is d _ then _ else None); [done|]. intros Hpos.
  destruct Hdir as [Hdir%Z.eqb_eq|Hdir%Z.geb_le]; lia.
Qed.

Lemma text_widen d fT fn tT tn t :
  0 <= fn -> 0 <= tn -> typeDirection d (StringType fT fn) (StringType tT tn) = typeWiden ->
  holds d (StringType fT fn) (VText t) -> holds d (StringType tT tn) (VText t).
Proof.
  intros Hf Ht Hdir [Htx Hh]. split; [done|]. apply textHolds_cap in Hh; [|done]. apply textHolds_cap; [done|].
  apply widenIf_true in Hdir. eapply stringFits_sound; eauto using stringCapacity_ok.
Qed.

Lemma decimal_widen d fT fp fs tT tp ts n k t :
  typeOk d (DecimalType fT fp fs) -> typeOk d (DecimalType tT tp ts) ->
  typeDirection d (DecimalType fT fp fs) (DecimalType tT tp ts) = typeWiden ->
  holds d (DecimalType fT fp fs) (VDec n k t) -> holds d (DecimalType tT tp ts) (VDec n k t).
Proof.
  intros Hf Ht Hdir (Hk & Hd & Hrest). split; [done|]. split; [|done]. cbn [typeDirection] in Hdir.
  rewrite (decDigits_ok _ _ _ _ Hf) in Hd. rewrite (decDigits_ok _ _ _ _ Ht). destruct Hf as [Hs _]. cbn [fst snd] in *.
  destruct (Z.eqb_spec tp 0); [by left|]. destruct (Z.eqb_spec fp 0); [done|].
  apply widenIf_true, andb_true_iff in Hdir as [H1%Z.geb_le H2%Z.geb_le]. eapply (dec_mono fp fs); eauto.
Qed.

Lemma decimal_to_text d fT p s tT tn n k t :
  typeDirection d (DecimalType fT p s) (StringType tT tn) = typeWiden ->
  holds d (DecimalType fT p s) (VDec n k t) -> holds d (StringType tT tn) (VText t).
Proof.
  cbn [typeDirection rendersAsText]. intros Hdir (_ & _ & Ht & Hsh). split; [done|].
  destruct (Z.eqb_spec tn 0) as [->|]; [|by destruct (_ && _)].
  unfold textHolds. destruct (driver_is d DatabaseDriverMySQL) eqn:E; [|lia].
  pose proof (short_textHolds d tT t (Hsh eq_refl)) as H0. unfold textHolds in H0. by rewrite E in H0.
Qed.

(** ** Floats and times *)

(** The code's widths are those of the formats. *)
Lemma floatBytes_format d T p : typeOk d (FloatType T p) -> floatBytes d T p <> 0 ->
  floatFormat d T p = if floatBytes d T p =? 4 then binary32 else binary64.
Proof.
  cbn [typeOk]. unfold floatBytes, floatFormat, byName, oneOf, beqb. set (x := ToLower T). clearbody x. cbn [list_find existsb fst snd].
  intros Hp.
  destruct d; [done|..].
  all: repeat match goal with
    | |- context [decide (of_string ?s = ?y)] =>
        is_var y; destruct (decide (of_string s = y)) as [<-|?]; [|rewrite ?(bool_decide_eq_false_2 (y = of_string s)) by congruence]
    | |- context [bool_decide (?y = of_string ?s)] =>
        is_var y; destruct (decide (of_string s = y)) as [<-|?]; [|rewrite ?(bool_decide_eq_false_2 (y = of_string s)) by congruence]
    end; cbn; try done; intros _.
  - destruct (Z.gtb_spec p 0), (Z.leb_spec 1 p); try lia; cbn [andb]; try done. by destruct (p <=? 24).
  - specialize (Hp eq_refl). destruct (Z.geb_spec p 24), (Z.ltb_spec p 24); try lia; done.
  - destruct (Z.gtb_spec p 0), (Z.leb_spec 1 p); try lia; cbn [andb]; try done. by destruct (p <=? 24).
Qed.

Lemma single_is_double m e : representable binary32 m e -> representable binary64 m e.
Proof.
  intros (m' & e' & Hm & Hs & He). exists m', e'. cbn [leastExp greatestExp significand binary32 binary64] in *.
  split; [done|]. split; [|lia]. assert (2 ^ 24 < 2 ^ 53) by (apply Z.pow_lt_mono_r; lia). lia.
Qed.

Lemma float_widen d fT fp tT tp m e t :
  typeOk d (FloatType fT fp) -> typeOk d (FloatType tT tp) ->
  typeDirection d (FloatType fT fp) (FloatType tT tp) = typeWiden ->
  holds d (FloatType fT fp) (VFloat m e t) -> holds d (FloatType tT tp) (VFloat m e t).
Proof.
  intros Hf Ht Hdir [Hm Hs]. split; [|done]. cbn [typeDirection] in Hdir.
  destruct (Z.eqb_spec (floatBytes d fT fp) 0); [done|]. destruct (Z.eqb_spec (floatBytes d tT tp) 0); [done|].
  apply widenIf_true, Z.geb_le in Hdir. rewrite floatBytes_format in * by done.
  destruct (Z.eqb_spec (floatBytes d tT tp) 4); destruct (Z.eqb_spec (floatBytes d fT fp) 4); try done; [|by apply single_is_double].
  exfalso. assert (forall T p, floatBytes d T p = 0 \/ floatBytes d T p = 4 \/ floatBytes d T p = 8) as H8
    by (intros; unfold floatBytes; repeat case_match; tauto).
  destruct (H8 fT fp) as [?|[?|?]]; lia.
Qed.

Lemma time_widen d fT fp tT tp v :
  typeOk d (TimeType fT fp) -> typeOk d (TimeType tT tp) ->
  typeDirection d (TimeType fT fp) (TimeType tT tp) = typeWiden ->
  holds d (TimeType fT fp) v -> holds d (TimeType tT tp) v.
Proof.
  intros Hf Ht. cbn [typeDirection]. destruct (EqualFold fT tT) eqn:E; [|done]. intros Hdir%widenIf_true%Z.geb_le.
  destruct v as [| | | |kind dg t|]; try done. intros (Hk & Hd & Hs). split; [by eapply EqualFold_trans|].
  split; [|done]. unfold keepsDigits, precision in *. cbn [typeOk] in *. destruct d; try done.
  - destruct Hf as [a ->], Ht as [b ->]. cbn in *. lia.
  - lia.
  - destruct Hf as [a ->], Ht as [b ->]. cbn in *. lia.
Qed.

Lemma widen_keeps d from to v :
  typeOk d from -> typeOk d to -> typeDirection d from to = typeWiden -> holds d from v ->
  holds d to (convert to v).
Proof.
  intros Hf Ht Hdir Hv.
  destruct from, to; try exact (rendersAsText_widen d _ _ v Hdir Hv);
    destruct v; try done; cbn [convert textOf typeOk] in *.
  - by apply (text_widen d _ _ _ _ _ Hf Ht Hdir).
  - by apply (int_to_text d _ _ _ _ _ Ht Hdir).
  - by apply (int_widen d _ _ _ _ _ Hdir).
  - by apply (int_to_decimal d _ _ _ _ _ _ Ht Hdir).
  - by apply (float_widen d _ _ _ _ _ _ _ Hf Ht Hdir).
  - by apply (time_widen d _ _ _ _ _ Hf Ht Hdir).
  - by eapply decimal_to_text.
  - by apply (decimal_widen d _ _ _ _ _ _ _ _ _ Hf Ht Hdir).
Qed.

(** ** Narrowing *)

(** Both of one of the types whose ranges the code compares exactly. *)
Definition sameFamily (a b : SchemaType) : bool :=
  match a, b with
  | IntegerType _ _, IntegerType _ _ | StringType _ _, StringType _ _ | DecimalType _ _ _, DecimalType _ _ _ => true
  | _, _ => false
  end.

Lemma int_narrow d fT fu tT tu :
  typeDirection d (IntegerType fT fu) (IntegerType tT tu) = typeNarrow ->
  exists z, holds d (IntegerType fT fu) (VInt z) /\ ~ holds d (IntegerType tT tu) (VInt z).
Proof.
  simpl. rewrite !intBytes_table. destruct (Bool.eqb fu tu) eqn:Eu; [|done]. apply eqb_prop in Eu as ->.
  pose proof (intBytes_table d fT) as Ha. pose proof (intBytes_table d tT) as Hb.
  destruct (byName fT (widthTable d)) as [a|]; [|done].
  destruct (byName tT (widthTable d)) as [b|]; [|by rewrite orb_true_r].
  change (default 0 (Some a)) with a in *. change (default 0 (Some b)) with b in *.
  change (default 8 (Some a)) with a. change (default 8 (Some b)) with b.
  pose proof (intBytes_values d fT). pose proof (intBytes_values d tT).
  destruct (Z.eqb_spec a 0); [done|]. destruct (Z.eqb_spec b 0); [done|]. cbn [orb].
  intros Hw%widenIf_false. rewrite Z.geb_leb in Hw. apply Z.leb_gt in Hw.
  exists (if tu then 2 ^ (8 * b) else 2 ^ (8 * b - 1)). unfold intRange. destruct tu.
  - pose proof (Z.pow_lt_mono_r 2 (8 * b) (8 * a)). pose proof (Z.pow_nonneg 2 (8 * b)). lia.
  - pose proof (Z.pow_lt_mono_r 2 (8 * b - 1) (8 * a - 1)). pose proof (Z.pow_nonneg 2 (8 * b - 1)). lia.
Qed.

Lemma text_narrow d fT fn tT tn :
  0 <= fn -> 0 <= tn -> typeDirection d (StringType fT fn) (StringType tT tn) = typeNarrow ->
  exists t, holds d (StringType fT fn) (VText t) /\ ~ holds d (StringType tT tn) (VText t).
Proof.
  intros Hf Ht Hdir. apply widenIf_false in Hdir.
  destruct (stringFits_complete _ _ (stringCapacity_ok d fT fn) (stringCapacity_ok d tT tn) Hdir) as (H1 & H2 & H3).
  eexists. split; [split; [exact H1|]; apply textHolds_cap; eauto|].
  intros [_ Hh]. apply textHolds_cap in Hh; eauto.
Qed.

(** The number with the most digits a decimal type holds, as its unscaled value. *)
Lemma dec_largest p s : 0 <= p -> decHolds p s (10 ^ p - 1) s.
Proof.
  intros Hp. right. exists (10 ^ p - 1). split; [done|].
  pose proof (Z.pow_pos_nonneg 10 p). lia.
Qed.

Lemma dec_too_big p' s' p s :
  0 <= s -> 0 <= s' -> 0 < p - s -> p' <> 0 -> p' - s' < p - s -> ~ decHolds p' s' (10 ^ p - 1) s.
Proof.
  intros Hs Hs' Hp Hp' Hlt [?|(m & Hm & Hb)]; [done|].
  assert (0 <= p') by (destruct (Z.leb_spec 0 p'); [done|]; rewrite Z.pow_neg_r in Hb by lia; lia).
  assert (m * 10 ^ s < 10 ^ (p' + s)).
  { rewrite Z.pow_add_r by lia. apply Z.mul_lt_mono_pos_r; [apply Z.pow_pos_nonneg|]; lia. }
  assert (10 ^ (p' + s) * 10 <= 10 ^ (p + s')).
  { rewrite Z.mul_comm, <-Z.pow_succ_r by lia. apply Z.pow_le_mono_r; lia. }
  assert (1 <= 10 ^ s') by (apply (Z.pow_le_mono_r 10 0 s'); lia).
  rewrite (Z.pow_add_r 10 p s') in * by lia.
  assert (10 <= 10 ^ p) by (apply (Z.pow_le_mono_r 10 1 p); lia).
  assert (10 * 10 ^ s' <= 10 ^ p * 10 ^ s') by (apply Z.mul_le_mono_nonneg_r; lia).
  rewrite Z.mul_sub_distr_r in Hm. lia.
Qed.

Lemma dec_too_fine p' s' s : 0 <= s' < s -> p' <> 0 -> ~ decHolds p' s' 1 s.
Proof.
  intros Hs Hp [?|(m & Hm & _)]; [done|].
  assert (10 ^ s' < 10 ^ s) by (apply Z.pow_lt_mono_r; lia).
  assert (0 < 10 ^ s') by (apply Z.pow_pos_nonneg; lia).
  destruct (Z.leb_spec m 0); nia.
Qed.

Lemma decimal_narrow d fT fp fs tT tp ts :
  typeOk d (DecimalType fT fp fs) -> typeOk d (DecimalType tT tp ts) ->
  typeDirection d (DecimalType fT fp fs) (DecimalType tT tp ts) = typeNarrow ->
  exists v, holds d (DecimalType fT fp fs) v /\ ~ holds d (DecimalType tT tp ts) v.
Proof.
  intros Hf Ht Hdir. cbn [typeDirection] in Hdir.
  pose proof (decDigits_ok _ _ _ _ Hf) as Ef. pose proof (decDigits_ok _ _ _ _ Ht) as Et.
  destruct Hf as (Hfs & Hfp & _), Ht as (Hts & Htp & _).
  assert (forall n k, 0 <= k -> decHolds fp fs n k -> ~ decHolds tp ts n k ->
    exists v, holds d (DecimalType fT fp fs) v /\ ~ holds d (DecimalType tT tp ts) v) as Hv.
  { intros n k Hk H1 H2. exists (VDec n k []). cbn [holds]. rewrite Ef, Et. cbn [fst snd]. unfold short, is_text, encoded. simpl.
    split; [|tauto]. repeat split; auto; lia. }
  destruct (Z.eqb_spec tp 0) as [|Htp0]; [done|]. destruct (Z.eqb_spec fp 0) as [->|Hfp0].
  - apply (Hv (10 ^ tp) 0); [lia|by left|]. intros [?|(m & Hm & Hb)]; [done|].
    assert (1 <= 10 ^ ts) by (apply (Z.pow_le_mono_r 10 0 ts); lia). nia.
  - apply widenIf_false, andb_false_iff in Hdir. rewrite !Z.geb_leb, !Z.leb_gt in Hdir.
    destruct Hdir as [Hi|Hs].
    + apply (Hv (10 ^ fp - 1) fs); [done|apply dec_largest; lia|apply dec_too_big; lia].
    + apply (Hv 1 fs); [done| |apply dec_too_fine; lia].
      right. exists 1. split; [lia|]. apply (Z.pow_gt_1 10 fp); lia.
Qed.

(** ** Theorems *)


(** A type change classified as narrowing within the integer, text or decimal types does
    lose something: there is a value the old type holds and the new one does not. *)
Theorem narrow_loses_a_value d from to :
  typeOk d from -> typeOk d to -> sameFamily from to = true -> typeDirection d from to = typeNarrow ->
  exists v, holds d from v /\ ~ holds d to (convert to v).
Proof.
  intros Hf Ht Hfam Hdir. destruct from, to; try done.
  - destruct (text_narrow d _ _ _ _ Hf Ht Hdir) as [t ?]. by exists (VText t).
  - destruct (int_narrow d _ _ _ _ Hdir) as [z ?]. by exists (VInt z).
  - destruct (decimal_narrow d _ _ _ _ _ _ Hf Ht Hdir) as (v & Hv & Hn). exists v. split; [done|]. by destruct v.
Qed.

(** ** Witnesses *)


Lemma narrow_loses_a_value_witness :
  exists v, holds DatabaseDriverPostgres (DecimalType (&"numeric") 10 2) v /\
    ~ holds DatabaseDriverPostgres (DecimalType (&"numeric") 10 4) (convert (DecimalType (&"numeric") 10 4) v).
Proof.
  apply (narrow_loses_a_value DatabaseDriverPostgres (DecimalType (&"numeric") 10 2) (DecimalType (&"numeric") 10 4)).
  - split; [lia|]. split; [lia|done].
  - split; [lia|]. split; [lia|done].
  - vm_compute. reflexivity.
  - vm_compute. reflexivity.
Defined.
