(* ===== verification/SchemaTableFacts.v ===== *)
(** * A table change with no risky step applies to a populated table

    The rows of a table, what a database does with them when a change is applied,
    and the theorem the severities promise: when none of a table's steps is unsafe
    or destructive, no change of it fails on the rows that are there, and none
    drops or truncates a stored value. *)

From stdpp Require Import base tactics numbers list strings gmap sets.
From Stdlib Require Import ZArith Lia Ascii.
From S2P Require Import Prelude GoBytes DotEnv GoText AtlasSchema SchemaClassify SchemaTypeFacts.

Local Open Scope string_scope.
Local Open Scope list_scope.
Local Open Scope gotext_scope.

(** ** Positions and renames *)

Lemma elem_of_indexed changes i c : (i, c) ∈ indexed changes <-> changes !! i = Some c.
Proof.
  unfold indexed. rewrite list_elem_of_lookup. split.
  - intros (k & Hk). apply lookup_zip_Some in Hk as [H1 H2]. apply lookup_seq in H1 as [-> _]. done.
  - intros Hi. exists i. apply lookup_zip_Some. split; [|done]. apply lookup_seq. split; [done|].
    by apply lookup_lt_Some in Hi.
Qed.

Lemma firstSome_Some {A B} (f : A -> option B) l y :
  firstSome f l = Some y -> exists x, x ∈ l /\ f x = Some y.
Proof.
  induction l as [|x l IH]; simpl; [done|]. destruct (f x) as [z|] eqn:E.
  - intros [= ->]. exists x. split; [left|done].
  - intros (x' & ? & ?)%IH. exists x'. split; [by right|done].
Qed.

Section store.
Context (h : Store).

Lemma is_drop_sameDefinition d c : sameDefinition h d c = true -> is_drop d = true.
Proof. by destruct d. Qed.

(** What the pairing knows: an away position is a drop, and a renamed one has a
    drop of the same definition. *)
Definition paired (changes : list Change) (st : list (nat * bytes) * list nat) : Prop :=
  (forall j, j ∈ st.2 -> exists d, changes !! j = Some d /\ is_drop d = true) /\
  (forall i n, (i, n) ∈ st.1 -> exists c d, changes !! i = Some c /\ d ∈ changes /\ sameDefinition h d c = true).

Lemma pairStep_paired changes st ic :
  ic ∈ indexed changes -> paired changes st ->
  paired changes (pairStep h (filter (fun d : nat * Change => is_drop d.2 = true) (indexed changes)) st ic).
Proof.
  intros Hic [Ha Hr]. unfold pairStep. destruct (firstTwin _ _ _ _) as [[j d]|] eqn:E; [|done].
  apply firstSome_Some in E as ([j' d'] & Hin & Hd). cbn [fst snd] in Hd.
  destruct (negb _ && sameDefinition h d' ic.2) eqn:Es; [|done]. injection Hd as -> ->.
  apply andb_true_iff in Es as [_ Es]. apply list_elem_of_filter in Hin as [Hdrop Hin].
  apply elem_of_indexed in Hin. destruct ic as [i c]. apply elem_of_indexed in Hic. split; simpl.
  - intros k [->|Hk]%elem_of_cons; [by exists d|by apply Ha].
  - intros k n [[= -> ->]|Hk]%elem_of_cons; [|by eapply Hr].
    exists c, d. repeat split; auto. by eapply list_elem_of_lookup_2.
Qed.

Lemma pairRenames_paired changes : paired changes (pairRenames h changes).
Proof.
  unfold pairRenames. set (drops := filter _ _).
  assert (forall l st, (forall ic, ic ∈ l -> ic ∈ indexed changes) -> paired changes st ->
    paired changes (fold_left (pairStep h drops) l st)) as Hfold.
  { induction l as [|ic l IH]; intros st Hl Hst; [done|]. simpl. apply IH.
    - intros. apply Hl. by right.
    - apply pairStep_paired; [apply Hl; left|done]. }
  apply Hfold; [done|]. split; [intros ? []%not_elem_of_nil|intros ? ? []%not_elem_of_nil].
Qed.

(** A change is a drop, re-adds what a drop of the list removes, or has its own
    classification in the steps. *)
Lemma classifyTable_covers d t changes i c :
  changes !! i = Some c ->
  is_drop c = true \/
  (exists dr, dr ∈ changes /\ sameDefinition h dr c = true) \/
  (forall s, s ∈ classifyChange h d (tab h t) changes c -> s ∈ classifyTable h d t changes).
Proof.
  intros Hi. pose proof (pairRenames_paired changes) as [Ha Hr]. unfold classifyTable.
  destruct (pairRenames h changes) as [rf ra]. cbn [fst snd] in *.
  destruct (decide (i ∈ ra)) as [Hin|Hin].
  { destruct (Ha i Hin) as (d' & ? & ?). left. by simplify_eq. }
  destruct (renamedName rf i) as [n|] eqn:En.
  { right; left. apply firstSome_Some in En as ([i' n'] & Hp & He). cbn [fst snd] in He.
    destruct (Nat.eqb_spec i' i) as [->|]; [|done]. injection He as ->.
    destruct (Hr i n Hp) as (c' & d' & ? & ? & ?). simplify_eq. eauto. }
  right; right. intros s Hs. apply elem_of_app. left. apply list_elem_of_In, in_concat.
  exists (classifyChange h d (tab h t) changes c). split; [|by apply list_elem_of_In].
  apply in_map_iff. exists (i, c). split; [|by apply list_elem_of_In, elem_of_indexed].
  by rewrite bool_decide_eq_false_2, En by done.
Qed.

End store.

(** ** Rows *)

(** A row gives each column a value or NULL. *)
Definition row : Type := bytes -> option value.

(** A column the database computes or counts. *)
Definition databaseFills (c : Column) : Prop :=
  (exists ct n, cType c = Some ct /\ Type_ ct = SerialType n) \/
  exists a, a ∈ cAttrs c /\
    match a with GeneratedExpr _ _ | SQLiteAutoIncrement _ | MySQLAutoIncrement _ | PostgresIdentity _ => True | _ => False end.

(** No default, or the word NULL. *)
Definition noDefault (c : Column) : Prop :=
  match cDefault c with
  | None => True
  | Some (Literal v) | Some (RawExpr v) => EqualFold (TrimSpace v) (&"NULL") = true
  | Some (OtherExpr _ _) => False
  end.

(** What the databases document about keys and rows. *)
Class Database (h : Store) := {
  (** What a new column holds in the rows that are there, [None] for NULL. *)
  fill : Column -> option value;
  (** The value of an index part in a row, [None] for NULL. *)
  partValue : row -> IndexPart -> option value;
  (** The row points at no row of the referenced table. *)
  dangles : ForeignKey -> row -> Prop;
  (** The row breaks the check expression. *)
  breaks : bytes -> row -> Prop;
  (** A column with no default, not filled by the database, starts as NULL. *)
  fill_null c : noDefault c -> ~ databaseFills c -> fill c = None;
  (** A counted column starts with a number. *)
  fill_counted c : autoIncrement c = true -> fill c <> None;
  (** A part over a NULL column is NULL. *)
  partValue_null r p c : pC p = Some c -> r (cName (col h c)) = None -> partValue r p = None;
  (** Parts of one definition read the same value. *)
  partValue_same r p q : samePart h p q = true -> partValue r p = partValue r q;
  (** A NULL column satisfies its foreign key. *)
  dangles_null f r c : c ∈ fkColumns h f -> r c = None -> ~ dangles f r;
  (** The columns and the reference are what a foreign key says. *)
  dangles_same f g r : fkColumns h f = fkColumns h g -> fkRef h f = fkRef h g -> dangles f r -> dangles g r;
}.

Section semantics.
Context (h : Store) `{!Database h} (d : DatabaseDriver).

(** PostgreSQL's NULLS NOT DISTINCT *)
Definition nullsEqual (i : SchemaIndex) : Prop :=
  OtherAttr (&"*postgres.IndexNullsDistinct") (&"false") ∈ iAttrs i.

(** Two rows with equal keys; a NULL in them counts only where NULLs are equal. *)
Definition collide (i : SchemaIndex) (r1 r2 : row) : Prop :=
  iParts i <> [] /\
  forall p, p ∈ iParts i -> partValue r1 p = partValue r2 p /\ (partValue r1 p <> None \/ nullsEqual i).

Definition duplicates (i : SchemaIndex) (rows : list row) : Prop :=
  exists a b r1 r2, a <> b /\ rows !! a = Some r1 /\ rows !! b = Some r2 /\ collide i r1 r2.

Definition reKeyed (mask : ChangeMask) : bool :=
  Is mask ChangeColumn || Is mask ChangeRefColumn || Is mask ChangeRefTable.

(** The change fails on the rows, or loses one of their values. *)
Inductive goesWrong (rows : list row) : Change -> Prop :=
| wrong_drop_column c : goesWrong rows (DropColumn c)
| wrong_add_not_null c ct :
    cType (col h c) = Some ct -> Null ct = false -> fill (col h c) = None -> rows <> [] -> goesWrong rows (AddColumn c)
| wrong_unique i : iUnique i = true -> duplicates i rows -> goesWrong rows (AddIndex i)
| wrong_unique_again F i mask :
    iUnique i = true -> beyond mask [ChangeComment] = true -> duplicates i rows -> goesWrong rows (ModifyIndex F i mask)
| wrong_reference f r : r ∈ rows -> dangles f r -> goesWrong rows (AddForeignKey f)
| wrong_reference_again F f mask r :
    reKeyed mask = true -> r ∈ rows -> dangles f r -> goesWrong rows (ModifyForeignKey F f mask)
| wrong_check k r : r ∈ rows -> breaks (kExpr k) r -> goesWrong rows (AddCheck k)
| wrong_check_again F k mask r : r ∈ rows -> breaks (kExpr k) r -> goesWrong rows (ModifyCheck F k mask)
| wrong_set_not_null F T mask ct r :
    Is mask ChangeNull = true -> cType (col h T) = Some ct -> Null ct = false ->
    r ∈ rows -> r (cName (col h T)) = None -> goesWrong rows (ModifyColumn F T mask)
| wrong_type F T mask f u r v :
    Is mask ChangeType = true -> d <> DatabaseDriverSQLite ->
    cType (col h F) = Some f -> cType (col h T) = Some u -> typeOk d (Type_ f) -> typeOk d (Type_ u) ->
    r ∈ rows -> r (cName (col h T)) = Some v -> holds d (Type_ f) v ->
    ~ holds d (Type_ u) (convert (Type_ u) v) -> goesWrong rows (ModifyColumn F T mask)
| wrong_primary_key P : goesWrong rows (AddPrimaryKey P)
| wrong_primary_key_again F P mask : goesWrong rows (ModifyPrimaryKey F P mask).

(** The rows satisfy the constraint a change drops. *)
Definition satisfies (rows : list row) (c : Change) : Prop :=
  match c with
  | DropIndex i => iUnique i = true -> ~ duplicates i rows
  | DropForeignKey f => forall r, r ∈ rows -> ~ dangles f r
  | DropCheck k => forall r, r ∈ rows -> ~ breaks (kExpr k) r
  | _ => True
  end.

(** ** Keys over new columns *)

(** The rows once the new columns are there. *)
Definition filledRows (changes : list Change) (rows : list row) : Prop :=
  forall c r, AddColumn c ∈ changes -> r ∈ rows -> r (cName (col h c)) = fill (col h c).

(** What the classifier takes for granted of the changes. *)
Record ordinary (changes : list Change) : Prop := mkOrdinary {
  ord_name c : AddColumn c ∈ changes -> cName (col h c) <> &"<expr>";
  ord_nullable c ct : AddColumn c ∈ changes -> cType (col h c) = Some ct -> Null ct = true -> ~ databaseFills (col h c);
  ord_default c ct : AddColumn c ∈ changes -> cType (col h c) = Some ct -> Null ct = false ->
    cDefault (col h c) <> None -> fill (col h c) <> None;
  ord_add i : AddIndex i ∈ changes -> ~ nullsEqual i;
  ord_modify F i mask : ModifyIndex F i mask ∈ changes -> ~ nullsEqual i
}.

(** A column the classifier counts as NULL is. *)
Lemma nullFilled_null changes rows r n :
  ordinary changes -> filledRows changes rows -> r ∈ rows -> n ∈ nullFilled h changes -> r n = None /\ n <> &"<expr>".
Proof.
  intros Hord Hfill Hr (c & Hc & Hn)%list_elem_of_omap. destruct c as [| | |c| | | | | | | | | | | | | | | | | | | |]; try done. cbv zeta in Hn.
  destruct (cType (col h c)) as [ct|] eqn:Et; [|done]. destruct (Null ct) eqn:Enull; [|done].
  destruct (nullDefault (cDefault (col h c))) eqn:Ed; [|done]. injection Hn as <-.
  split; [|by eapply ord_name]. rewrite (Hfill c r Hc Hr). apply fill_null; [|by eapply ord_nullable].
  unfold noDefault. by destruct (cDefault (col h c)) as [[]|].
Qed.

Lemma onlyNullFilled_all filled cols c : onlyNullFilled filled cols = true -> c ∈ cols -> c ∈ filled.
Proof.
  unfold onlyNullFilled. destruct cols as [|x cols]; [done|]. intros Hall Hc.
  rewrite forallb_forall in Hall. apply list_elem_of_In in Hc. by apply Hall, bool_decide_eq_true_1 in Hc.
Qed.

Lemma onlyNullFilled_nonempty filled cols : onlyNullFilled filled cols = true -> cols <> [].
Proof. by destruct cols. Qed.

Lemma nullFilled_unique changes rows i :
  ordinary changes -> filledRows changes rows -> ~ nullsEqual i ->
  onlyNullFilled (nullFilled h changes) (indexColumns h i) = true -> ~ duplicates i rows.
Proof.
  intros Hord Hfill Hne Honly (a & b & r1 & r2 & _ & Ha & _ & _ & Hc).
  pose proof (onlyNullFilled_nonempty _ _ Honly) as Hcols.
  destruct (indexColumns h i) as [|n l] eqn:Ei; [done|].
  assert (n ∈ indexColumns h i) as Hn by (rewrite Ei; left).
  apply list_elem_of_omap in Hn as (p & Hp & Hpn).
  destruct (nullFilled_null changes rows r1 n Hord Hfill) as [Hnull Hx];
    [by eapply list_elem_of_lookup_2|by apply (onlyNullFilled_all _ (n :: l)); [|left]|].
  destruct (pC p) as [c|] eqn:Ec.
  - injection Hpn as <-. destruct (Hc p Hp) as (_ & [Hv|Hv]); [|done]. by rewrite (partValue_null r1 p c) in Hv.
  - destruct (pX p); [|done]. by injection Hpn as <-.
Qed.

Lemma nullFilled_references changes rows f r :
  ordinary changes -> filledRows changes rows -> onlyNullFilled (nullFilled h changes) (fkColumns h f) = true ->
  r ∈ rows -> ~ dangles f r.
Proof.
  intros Hord Hfill Honly Hr. pose proof (onlyNullFilled_nonempty _ _ Honly) as Hne.
  destruct (fkColumns h f) as [|n l] eqn:Ef; [done|].
  apply (dangles_null f r n); [rewrite Ef; left|]. apply (nullFilled_null changes rows r n Hord Hfill Hr).
  apply (onlyNullFilled_all _ (n :: l)); [done|left].
Qed.

(** ** Constraints renamed *)

Lemma sameParts_collide a b r1 r2 :
  sameParts h a b = true -> (forall p, p ∈ b -> partValue r1 p = partValue r2 p /\ partValue r1 p <> None) ->
  forall p, p ∈ a -> partValue r1 p = partValue r2 p /\ partValue r1 p <> None.
Proof.
  revert b. induction a as [|x a IH]; intros [|y b] Hs Hb p Hp; try done; [by apply not_elem_of_nil in Hp|].
  simpl in Hs. apply andb_true_iff in Hs as [Hxy Hs].
  apply elem_of_cons in Hp as [->|Hp].
  - rewrite !(partValue_same _ x y Hxy). apply Hb. left.
  - eapply IH; [done| |done]. intros q Hq. apply Hb. by right.
Qed.

Lemma sameIndex_duplicates a b rows : ~ nullsEqual b -> sameIndex h a b = true -> duplicates b rows -> duplicates a rows.
Proof.
  unfold sameIndex. rewrite !andb_true_iff. intros Hb [[_ _] Hp] (x & y & r1 & r2 & Hxy & Hx & Hy & Hne & Hc).
  exists x, y, r1, r2. repeat (split; [done|]). split.
  - destruct (iParts a), (iParts b); done.
  - intros p Hin. destruct (sameParts_collide _ _ r1 r2 Hp) with (p := p) as [? ?]; [|done|auto].
    intros q Hq. destruct (Hc q Hq) as [? [?|?]]; [done|done].
Qed.

(** A foreign key whose names the signature keeps apart. *)
Definition plainKey (f : ForeignKey) : Prop :=
  fkColumns h f <> [] /\ (forall n, n ∈ fkColumns h f -> (","%char ∉ n) /\ ("|"%char ∉ n)) /\ ("|"%char ∉ fkRef h f).

Lemma cut_inj (c : ascii) (a b r s : bytes) : (c ∉ a) -> (c ∉ b) -> a ++ c :: r = b ++ c :: s -> a = b /\ r = s.
Proof.
  intros Ha Hb He. pose proof (CutByte_app a c r Ha) as H1. rewrite He, CutByte_app in H1 by done. by simplify_eq.
Qed.

Lemma Join_split (l : list bytes) : l <> [] -> (forall n : bytes, n ∈ l -> ","%char ∉ n) -> SplitByte (Join l (&",")) ","%char = l.
Proof.
  induction l as [|x l IH]; intros Hne Hl; [done|]. assert (","%char ∉ x) as Hx by (apply Hl; left).
  destruct l as [|y l].
  - cbn [Join]. clear -Hx. induction x as [|b x IH]; [done|]. apply not_elem_of_cons in Hx as [Hb Hx]. cbn [SplitByte].
    destruct (Ascii.eqb_spec b ","); [congruence|]. by rewrite IH.
  - change (Join (x :: y :: l) (&",")) with (x ++ ","%char :: Join (y :: l) (&",")).
    rewrite SplitByte_app by done. f_equal. apply IH; [done|]. intros n Hn. apply Hl. by right.
Qed.

Lemma Join_no (c : ascii) (l : list bytes) : (forall n : bytes, n ∈ l -> c ∉ n) -> c <> ","%char -> c ∉ Join l (&",").
Proof.
  intros Hl Hc. induction l as [|x l IH]; [apply not_elem_of_nil|]. assert (c ∉ x) as Hx by (apply Hl; left).
  destruct l as [|y l]; [done|]. change (Join (x :: y :: l) (&",")) with (x ++ ","%char :: Join (y :: l) (&",")).
  rewrite elem_of_app, elem_of_cons. intros [?|[?|Hin]]; [done|done|]. revert Hin. apply IH.
  intros n Hn. apply Hl. by right.
Qed.

Lemma fkSignature_inj f g :
  plainKey f -> plainKey g -> fkSignature h f = fkSignature h g -> fkColumns h f = fkColumns h g /\ fkRef h f = fkRef h g.
Proof.
  intros (Hf & Hfn & Hfr) (Hg & Hgn & Hgr) He.
  assert (forall k, fkSignature h k = &"fk|" ++ Join (fkColumns h k) (&",") ++ "|"%char :: fkRef h k ++ "|"%char ::
                                       fkAction (fOnDelete k) ++ "|"%char :: fkAction (fOnUpdate k) ++ []) as Hsig by done.
  rewrite !Hsig in He. apply app_inv_head in He.
  apply cut_inj in He as [Hj He]; [|apply Join_no; [intros n Hn; by apply Hfn|done]|apply Join_no; [intros n Hn; by apply Hgn|done]].
  apply cut_inj in He as [Hr _]; [|done|done]. split; [|done].
  rewrite <-(Join_split (fkColumns h f)), <-(Join_split (fkColumns h g)), Hj; auto.
  - intros n Hn. by apply Hgn.
  - intros n Hn. by apply Hfn.
Qed.

Definition plainKeys (changes : list Change) : Prop :=
  forall f, (AddForeignKey f ∈ changes \/ DropForeignKey f ∈ changes) -> plainKey f.

(** A constraint re-added as it was holds where the old one did. *)
Lemma renamed_holds changes rows dr c :
  plainKeys changes -> ordinary changes -> dr ∈ changes -> c ∈ changes -> sameDefinition h dr c = true -> satisfies rows dr ->
  ~ goesWrong rows c.
Proof.
  intros Hplain Hord Hdr Hc Hs Hsat Hw. destruct dr as [| | | | | | |i| | |f| | |k| | | | | | | | | |]; try done; simpl in *;
    inversion Hw; subst; simpl in Hs; try done.
  - apply Hsat.
    + unfold sameIndex in Hs. rewrite !andb_true_iff in Hs. destruct Hs as [[Hu _] _]. apply eqb_prop in Hu. congruence.
    + eapply sameIndex_duplicates; [by eapply ord_add|done|done].
  - apply beqb_true, fkSignature_inj in Hs as [H1 H2]; [|apply Hplain; by right|apply Hplain; by left].
    eapply Hsat; [done|]. eapply dangles_same; [symmetry; exact H1|symmetry; exact H2|done].
  - apply andb_true_iff in Hs as [Hs%beqb_true _]. eapply Hsat; [done|]. by rewrite Hs.
Qed.

(** ** Changes classified on their own *)

Definition quiet (steps : list PlanStep) : Prop := forall s, s ∈ steps -> risky (Sev s) = false.

Lemma quiet_one s : quiet [s] -> risky (Sev s) = false.
Proof. intros H. apply H. left. Qed.

Lemma quiet_app_l a b : quiet (a ++ b) -> quiet a.
Proof. intros H s Hs. apply H, elem_of_app. by left. Qed.

Lemma quiet_app_r a b : quiet (a ++ b) -> quiet b.
Proof. intros H s Hs. apply H, elem_of_app. by right. Qed.

Lemma quiet_when b (l : list PlanStep) : quiet (when b l) -> b = true -> quiet l.
Proof. by intros H ->. Qed.

Lemma quiet_add_column table c ct inPlace :
  risky (Sev (classifyAddColumn d table c inPlace)) = false -> cType c = Some ct -> Null ct = false ->
  cDefault c = None -> autoIncrement c = true.
Proof.
  unfold classifyAddColumn. intros Hq Ht Hn Hd. rewrite Ht, Hd, Hn in Hq. by destruct (autoIncrement c).
Qed.

Lemma quiet_add_index table filled i :
  risky (Sev (addIndexStep h d table filled i)) = false -> iUnique i = true ->
  onlyNullFilled filled (indexColumns h i) = true.
Proof.
  unfold addIndexStep. intros Hq Hu. rewrite Hu in Hq. destruct (_ && keyTooLong _ _); [done|].
  by destruct (onlyNullFilled filled _).
Qed.

Lemma quiet_modify_index table filled i mask :
  risky (Sev (modifyIndexStep h d table filled i mask)) = false -> iUnique i = true ->
  beyond mask [ChangeComment] = true -> onlyNullFilled filled (indexColumns h i) = true.
Proof.
  unfold modifyIndexStep. intros Hq Hu Hb. rewrite Hu, Hb in Hq. destruct (_ && keyTooLong _ _); [done|].
  by destruct (onlyNullFilled filled _).
Qed.

Lemma quiet_add_fk table filled f :
  risky (Sev (addForeignKeyStep h d table filled f)) = false -> onlyNullFilled filled (fkColumns h f) = true.
Proof.
  unfold addForeignKeyStep. intros Hq. destruct (_ && keyTooLong _ _); [done|]. by destruct (onlyNullFilled filled _).
Qed.

Lemma quiet_modify_fk table filled F f mask :
  risky (Sev (modifyForeignKeyStep h d table filled F f mask)) = false -> reKeyed mask = true ->
  onlyNullFilled filled (fkColumns h f) = true.
Proof.
  unfold modifyForeignKeyStep, reKeyed. intros Hq Hk. rewrite Hk in Hq. destruct (_ && keyTooLong _ _); [done|].
  by destruct (onlyNullFilled filled _).
Qed.

Lemma quiet_type t F T f u :
  quiet (typeSteps h d t F T) -> d <> DatabaseDriverSQLite -> cType F = Some f -> cType T = Some u ->
  typeDirection d (Type_ f) (Type_ u) = typeWiden.
Proof.
  intros Hq Hd Hf Hu. unfold typeSteps in Hq. rewrite Hf, Hu in Hq.
  unfold driver_is in Hq at 1. rewrite (bool_decide_eq_false_2 (d = _) Hd) in Hq. cbn [andb] in Hq.
  by destruct (typeDirection d (Type_ f) (Type_ u)); [apply quiet_one in Hq| |apply quiet_one in Hq].
Qed.

Lemma quiet_null t T ct : quiet (nullSteps t T) -> cType T = Some ct -> Null ct = true.
Proof.
  unfold nullSteps. intros Hq Ht. rewrite Ht in Hq. by destruct (Null ct); [|apply quiet_one in Hq].
Qed.

(** A change whose own steps are quiet does not go wrong. *)
Lemma quiet_change t changes rows c :
  ordinary changes -> filledRows changes rows -> c ∈ changes ->
  quiet (classifyChange h d t changes c) -> ~ goesWrong rows c.
Proof.
  intros Hord Hfill Hin Hq Hw. destruct Hw; simpl in Hq.
  - apply quiet_one in Hq. revert Hq. unfold dropColumnStep. by destruct (renameCandidates _ _ _).
  - destruct (cDefault (col h c)) as [x|] eqn:Ed; [by eapply ord_default; [done..|congruence|]|].
    apply quiet_one in Hq. eapply quiet_add_column in Hq; [|done..]. by apply fill_counted in Hq.
  - apply quiet_one, quiet_add_index in Hq; [|done]. apply (nullFilled_unique changes rows i) in Hq; try done. by eapply ord_add.
  - apply quiet_one, quiet_modify_index in Hq; [|done|done]. apply (nullFilled_unique changes rows i) in Hq; try done.
    by eapply ord_modify.
  - apply quiet_one, quiet_add_fk in Hq. by eapply nullFilled_references.
  - apply quiet_one, quiet_modify_fk in Hq; [|done]. by eapply nullFilled_references.
  - by apply quiet_one in Hq.
  - by apply quiet_one in Hq.
  - apply quiet_app_r, quiet_app_l in Hq.
    match goal with Hk : Is _ _ = true |- _ => pose proof (quiet_when _ _ Hq Hk) as Hs end.
    eapply quiet_null in Hs; [|done]. congruence.
  - apply quiet_app_l in Hq.
    match goal with Hk : Is _ _ = true |- _ => pose proof (quiet_when _ _ Hq Hk) as Hs end.
    eapply quiet_type in Hs; [|done..].
    match goal with Hn : ~ holds _ _ _ |- _ => apply Hn end. eapply (widen_keeps d (Type_ f)); eassumption.
  - by apply quiet_one in Hq.
  - by apply quiet_one in Hq.
Qed.


End semantics.

(** ** Witnesses *)

Module TableSample.

Local Open Scope positive_scope.

(** A counted column starts with one, a default other than NULL is some text. *)
Definition plainFill (c : Column) : option value :=
  if autoIncrement c then Some (VInt 1)
  else match cDefault c with
  | Some (Literal v) => if EqualFold (TrimSpace v) (&"NULL") then None else Some (VText [])
  | _ => None
  end.

(** A database whose referenced tables are empty, and whose checks want no zero. *)
#[global] Program Instance plainDatabase (h : Store) : Database h := {|
  fill := plainFill;
  partValue r p := match pC p with Some c => r (cName (col h c)) | None => None end;
  dangles f r := fkColumns h f <> [] /\ forall c, c ∈ fkColumns h f -> r c <> None;
  breaks e r := r e = Some (VInt 0)
|}.
Next Obligation.
  intros h c Hd Hf. unfold plainFill. destruct (autoIncrement c) eqn:Ea.
  { exfalso. apply Hf. unfold autoIncrement in Ea. apply orb_true_iff in Ea as [Ea|(a & Ha & Hm)%existsb_exists].
    - left. destruct (cType c) as [ct|]; [|done]. destruct (Type_ ct) eqn:Et; try done. by eexists ct, _.
    - right. exists a. split; [by apply list_elem_of_In|]. by destruct a. }
  unfold noDefault in Hd. destruct (cDefault c) as [[]|]; try done. by rewrite Hd.
Qed.
Next Obligation. intros h c Hc. unfold plainFill. by rewrite Hc. Qed.
Next Obligation. intros h r p c Hp Hr. simpl. by rewrite Hp. Qed.
Next Obligation.
  intros h r p q Hs. simpl. unfold samePart in Hs. rewrite !andb_true_iff in Hs. destruct Hs as [_ Hs].
  destruct (pC p), (pC q); try done. apply beqb_true in Hs. by rewrite Hs.
Qed.
Next Obligation. intros h f r c Hc Hr [_ Hall]. by apply (Hall c Hc). Qed.
Next Obligation. intros h f g r Hc _ [Hne Hall]. by rewrite <-Hc. Qed.

(** The table [users] gains a nullable column [email] with a unique index, its
    [name] widens, and its index on [name] takes a new name. *)
Definition text (n : Z) : ColumnType := mkColumnType (StringType (&"varchar") n) [] true.
Definition name_old : Column := mkColumn (&"name") (Some (text 50)) None [] [] [].
Definition name_new : Column := mkColumn (&"name") (Some (text 100)) None [] [] [].
Definition email : Column := mkColumn (&"email") (Some (text 255)) None [] [] [].
Definition users : Table := mkTable (&"users") None [1; 3] [] None [] [].
Definition store : Store := mkStore {[1 := name_new; 2 := name_old; 3 := email]} {[1 := users]} ∅.

Definition key (name : string) (attrs : list Attr) (c : positive) : SchemaIndex :=
  mkIndex (of_string name) true [mkPart (Some c) None false []] attrs.

Definition changes : list Change :=
  [AddColumn 3; AddIndex (key "idx_email" [] 3); ModifyColumn 2 1 [ChangeType];
   DropIndex (key "idx_old" [] 1); AddIndex (key "idx_new" [] 1)].

Lemma changes_add c : AddColumn c ∈ changes -> c = 3.
Proof. intros Hc. repeat (apply elem_of_cons in Hc as [Hc|Hc]; [by simplify_eq|]). by apply not_elem_of_nil in Hc. Qed.

Definition ada : row := fun c => if beqb c (&"name") then Some (VText [1; 1; 1]%Z) else None.
Definition bob : row := fun c => if beqb c (&"name") then Some (VText [1; 1]%Z) else None.

(** The same column under an index that counts NULLs as equal. *)
Definition nullsNotDistinct : list Attr := [OtherAttr (&"*postgres.IndexNullsDistinct") (&"false")].
Definition added (c : Column) : Store := mkStore {[1 := name_new; 2 := name_old; 3 := c]} {[1 := users]} ∅.
Definition strictChanges : list Change := [AddColumn 3; AddIndex (key "idx_email" nullsNotDistinct 3)].

End TableSample.


(** A unique index over a new nullable column is called safe even when it is
    declared NULLS NOT DISTINCT, where the NULLs every existing row holds are
    equal and two rows are enough for the index to be refused. *)
Theorem nulls_not_distinct_called_safe :
  map (fun s => (ID s, Sev s)) (classifyTable TableSample.store DatabaseDriverPostgres 1%positive TableSample.strictChanges)
    = [(&"add_column:users.email", SeveritySafe); (&"add_unique:users.idx_email", SeveritySafe)] /\
  goesWrong TableSample.store DatabaseDriverPostgres [TableSample.ada; TableSample.bob]
    (AddIndex (TableSample.key "idx_email" TableSample.nullsNotDistinct 3%positive)).
Proof.
  split; [vm_compute; reflexivity|]. apply wrong_unique; [done|]. exists 0%nat, 1%nat, TableSample.ada, TableSample.bob.
  split; [done|]. split; [done|]. split; [done|]. split; [done|]. intros p ->%list_elem_of_singleton.
  split; [reflexivity|]. right. left.
Qed.

(** A column that forbids NULL and has NULL as its default is called safe, and fails on
    every row; a nullable column that the database computes counts as NULL in the rows
    there are, so that a unique index over it is called safe. *)
Theorem defaults_called_safe :
  let strict := TableSample.added (mkColumn (&"email") (Some (mkColumnType (StringType (&"varchar") 255) [] false)) (Some (Literal (&"NULL"))) [] [] []) in
  let computed := TableSample.added (mkColumn (&"email") (Some (TableSample.text 255)) None [GeneratedExpr (&"lower(name)") (&"STORED")] [] []) in
  let steps h := map Sev (classifyTable h DatabaseDriverPostgres 1%positive [AddColumn 3%positive; AddIndex (TableSample.key "idx_email" [] 3%positive)]) in
  map Sev (classifyTable strict DatabaseDriverPostgres 1%positive [AddColumn 3%positive]) = [SeveritySafe] /\
  goesWrong strict DatabaseDriverPostgres [TableSample.ada] (AddColumn 3%positive) /\
  steps computed = [SeveritySafe; SeveritySafe].
Proof.
  split; [vm_compute; reflexivity|]. split; [|vm_compute; reflexivity].
  eapply wrong_add_not_null; [reflexivity|reflexivity|reflexivity|done].
Qed.
