(* ===== verification/SchemaSql.v ===== *)
(** * migrations/schemaplan/lint.go: what a migration's statements do to rows

    The renames a migration declares, the rebuild copies Atlas writes for SQLite,
    and the findings a schema diff cannot show.  The expressions of the file are
    written in the syntax of [Regex]; [tests] at the end evaluate them. *)

From stdpp Require Import base tactics numbers list strings gmap sets.
From Stdlib Require Import ZArith Lia Ascii.
From S2P Require Import Prelude GoBytes DotEnv GoText Regex SqlClassify AtlasSchema SchemaClassify.

Local Open Scope string_scope.
Local Open Scope list_scope.
Local Open Scope gotext_scope.

Definition StepRenameTable := &"rename_table".
Definition StepRenameColumn := &"rename_column".
Definition StepDataChange := &"data_change".
Definition StepAlterColumn := &"alter_column".
Definition StepUnclassifiedSQL := &"unclassified_sql".

(** ** The expressions *)

Definition backquote : ascii := "`"%char.
Definition is_idquote (c : ascii) : bool := Ascii.eqb c backquote || Ascii.eqb c dquote.
Definition idquote : re := opt (Cls is_idquote).

(** One name with its optional quotes, and a name with an optional qualifier, as group [n]. *)
Definition name1 : re := Cat idquote (Cat (plus ci_word) idquote).
Definition identRe (n : nat) : re := Cap n (Cat (opt (Cat name1 (Cls (Ascii.eqb ".")))) name1).

Definition chr (c : ascii) : re := Cls (Ascii.eqb c).
Definition trail : list re := [star ws; Eot].

Definition reRenameTableTo : re :=
  lead ([w "ALTER"; sp; w "TABLE"; sp; identRe 1; sp; w "RENAME"; sp; w "TO"; sp; identRe 2] ++ trail).
Definition reRenameTableCmd : re :=
  lead ([w "RENAME"; sp; w "TABLE"; sp; identRe 1; sp; w "TO"; sp; identRe 2] ++ trail).
Definition reRenameColumn : re :=
  lead ([w "ALTER"; sp; w "TABLE"; sp; identRe 1; sp; w "RENAME"; sp; w "COLUMN"; sp; identRe 2; sp; w "TO"; sp;
         identRe 3] ++ trail).

Definition reDataChangeTable : re :=
  lead [alt [cat [w "DELETE"; sp; w "FROM"]; w "UPDATE"; cat [w "TRUNCATE"; opt (cat [sp; w "TABLE"])];
             cat [w "MERGE"; sp; w "INTO"]; cat [w "REPLACE"; sp; w "INTO"]]; sp; identRe 1].

(** Group 2 is the column list and group 3 the selected items, read lazily. *)
Definition reRebuildCopy : re :=
  lead ([w "INSERT"; sp; w "INTO"; sp; identRe 1; star ws; chr "("; Cap 2 (star (Cls (byte_not_in [")"%char])));
         chr ")"; star ws; w "SELECT"; sp; Cap 3 (Star false any); sp; w "FROM"; sp; identRe 4] ++ trail).

Definition reTypeUsing : re := cat [Wordb; w "TYPE"; Wordb; star any; Wordb; w "USING"; Wordb].

Definition reInsertOrReplace : re :=
  lead [w "INSERT"; sp; w "OR"; sp; alt [w "REPLACE"; w "UPDATE"]; sp; w "INTO"; sp; identRe 1].
Definition reUpsertClause : re :=
  lead [w "INSERT"; sp; w "INTO"; sp; identRe 1; star any; Wordb;
        alt [cat [w "ON"; sp; w "CONFLICT"; Wordb; star any; Wordb; w "DO"; sp; w "UPDATE"];
             cat [w "ON"; sp; w "DUPLICATE"; sp; w "KEY"; sp; w "UPDATE"]]; Wordb].

Definition plainIdent : re := cat [Bot; idquote; plus (Cls is_word); idquote; Eot].

Definition reIfnullCopy : re :=
  cat [Bot; w "IFNULL"; chr "("; star ws; identRe 1; star ws; chr ","; star ws; Cap 2 (plus any); chr ")"; sp;
       w "AS"; sp; identRe 3; Eot].

Definition literalDefault : re :=
  cat [Bot; alt [cat [chr squote; star (Alt (Cls (byte_not_in [squote])) (Cat (chr squote) (chr squote))); chr squote];
                 cat [opt (chr "-"); plus (Cls digit); opt (Cat (chr ".") (plus (Cls digit)))];
                 w "NULL"; w "TRUE"; w "FALSE"]; Eot].

Definition reAlterTableBody : re :=
  lead [w "ALTER"; sp; w "TABLE"; sp; opt (cat [w "ONLY"; sp]); opt (cat [w "IF"; sp; w "EXISTS"; sp]);
        identRe 1; sp; Cap 2 (star any); Eot].

Definition reActionDrop : re :=
  cat [Bot; w "DROP"; sp; opt (cat [w "COLUMN"; sp]); opt (cat [w "IF"; sp; w "EXISTS"; sp]); identRe 1;
       opt (cat [sp; alt [w "CASCADE"; w "RESTRICT"]]); Eot].
Definition reActionAlter : re :=
  cat [Bot; alt [cat [w "ALTER"; sp; opt (cat [w "COLUMN"; sp])]; cat [w "MODIFY"; sp; opt (cat [w "COLUMN"; sp])];
                 cat [w "CHANGE"; sp; opt (cat [w "COLUMN"; sp])]];
       identRe 1; opt (cat [sp; Cap 2 (star any)]); Eot].
Definition reActionKeyword : re :=
  cat [Bot; w "DROP"; sp;
       alt [w "CONSTRAINT"; w "INDEX"; w "KEY"; cat [w "PRIMARY"; sp; w "KEY"]; cat [w "FOREIGN"; sp; w "KEY"];
            w "UNIQUE"; w "CHECK"]; Wordb].
Definition reActionAlterMeta : re := cat [Bot; w "ALTER"; sp; alt [w "CONSTRAINT"; w "INDEX"]; Wordb].
Definition reActionDropAny : re := cat [Bot; w "DROP"; Wordb].

(** ** Text *)

Definition unquote (id : bytes) : bytes :=
  let id := match LastIndexByte id "." with Some i => drop (i + 1) id | None => id end in
  Trim id [backquote; dquote].

Definition splitList (s : bytes) : list bytes :=
  filter (fun p => nonempty p = true) (map TrimSpace (SplitByte s ","%char)).

(** The state of the scan: the nesting depth, the open quote, and the item so
    far, last byte first. *)
Fixpoint split_actions (depth : Z) (quote : option ascii) (item body : bytes) : list bytes :=
  match body with
  | [] => match TrimSpace (rev item) with [] => [] | rest => [rest] end
  | r :: body =>
      match quote with
      | Some q => split_actions depth (if Ascii.eqb r q then None else quote) (r :: item) body
      | None =>
          if Ascii.eqb r squote || Ascii.eqb r dquote || Ascii.eqb r backquote
          then split_actions depth (Some r) (r :: item) body
          else if Ascii.eqb r "(" then split_actions (depth + 1) None (r :: item) body
          else if Ascii.eqb r ")" then split_actions (depth - 1) None (r :: item) body
          else if Ascii.eqb r "," && (depth =? 0)%Z then TrimSpace (rev item) :: split_actions depth None [] body
          else split_actions depth None (r :: item) body
      end
  end.

Definition splitActions (body : bytes) : list bytes := split_actions 0 None [] body.

Fixpoint balanced (depth : Z) (quoted : bool) (s : bytes) : bool :=
  match s with
  | [] => (depth =? 0)%Z && negb quoted
  | r :: s =>
      if Ascii.eqb r squote then balanced depth (negb quoted) s
      else if quoted then balanced depth quoted s
      else if Ascii.eqb r "(" then balanced (depth + 1) quoted s
      else if Ascii.eqb r ")" then (if (depth - 1 <? 0)%Z then false else balanced (depth - 1) quoted s)
      else balanced depth quoted s
  end.

Definition balancedParens (s : bytes) : bool := balanced 0 false s.

(** The inside of a text wrapped in parentheses. *)
Definition unwrap (s : bytes) : option bytes :=
  match s with
  | "("%char :: r =>
      match last r with
      | Some ")"%char => let inner := removelast r in if balancedParens inner then Some inner else None
      | _ => None
      end
  | _ => None
  end.

(** Each round drops two bytes, so the length of the text bounds the rounds. *)
Fixpoint strip_parens (n : nat) (s : bytes) : bytes :=
  match n with
  | O => s
  | S n => match unwrap s with Some inner => strip_parens n (TrimSpace inner) | None => s end
  end.

Definition stripOuterParens (s : bytes) : bytes := strip_parens (length s) (TrimSpace s).

Definition literalValue (s : bytes) : bytes :=
  let s := TrimSpace s in
  match s with
  | q :: ((_ :: _) as r) =>
      if (Ascii.eqb q squote || Ascii.eqb q dquote) && bool_decide (last r = Some q)
      then ReplaceAll (removelast r) [q; q] [q]
      else s
  | _ => s
  end.

Fixpoint strip_literals (inside : bool) (s : bytes) : bytes :=
  match s with
  | [] => []
  | c :: r =>
      if inside then
        if Ascii.eqb c squote then
          match r with
          | c' :: r' => if Ascii.eqb c' squote then strip_literals true r' else strip_literals false r
          | [] => strip_literals false r
          end
        else strip_literals true r
      else if Ascii.eqb c squote then strip_literals true r
      else c :: strip_literals false r
  end.

Definition stripLiterals (s : bytes) : bytes := strip_literals false s.

Definition firstWords (stmt : bytes) : bytes :=
  let stmt := Join (Fields stmt) (&" ") in
  if Nat.ltb 60 (length stmt) then take 57 stmt ++ &"..." else stmt.

(** ** Declared renames *)

Record DeclaredRename := mkRename { rTable : bytes; rColumn : bytes; rTo : bytes }.

Definition renameOf (stmt : bytes) : option DeclaredRename :=
  match FindStringSubmatch reRenameColumn stmt with
  | Some m => Some (mkRename (unquote (group 1 m)) (unquote (group 2 m)) (unquote (group 3 m)))
  | None =>
      match FindStringSubmatch reRenameTableTo stmt with
      | Some m => Some (mkRename (unquote (group 1 m)) [] (unquote (group 2 m)))
      | None =>
          match FindStringSubmatch reRenameTableCmd stmt with
          | Some m => Some (mkRename (unquote (group 1 m)) [] (unquote (group 2 m)))
          | None => None
          end
      end
  end.

Definition DeclaredRenames (sql : bytes) : list DeclaredRename := omap renameOf (Statements sql).

(** ** ALTER TABLE actions *)

Inductive alterAction :=
| actionOther
| actionDropColumn (column : bytes)
| actionAlterColumn (column : bytes) (rewrite : bool)
| actionUnknownDrop.

Definition classifyAction (action : bytes) : alterAction :=
  if MatchString reActionKeyword action then actionOther
  else match FindStringSubmatch reActionDrop action with
  | Some m => actionDropColumn (unquote (group 1 m))
  | None =>
      match FindStringSubmatch reActionAlter action with
      | Some m =>
          if MatchString reActionAlterMeta action
          then if MatchString reActionDropAny action then actionUnknownDrop else actionOther
          else actionAlterColumn (unquote (group 1 m)) (MatchString reTypeUsing (stripLiterals action))
      | None => if MatchString reActionDropAny action then actionUnknownDrop else actionOther
      end
  end.

Definition upsertTable (stmt : bytes) : option bytes :=
  firstSome (fun r => match FindStringSubmatch r stmt with Some m => Some (unquote (group 1 m)) | None => None end)
            [reInsertOrReplace; reUpsertClause].

(** ** Rebuild copies *)

Section store.
Context (h : Store).

Definition findTable (r : Realm) (name : bytes) : option ptr :=
  firstSome (fun s => findTableIn h (sch h s) name) r.

Definition hasGenerated (c : Column) : bool :=
  existsb (fun a => match a with GeneratedExpr _ _ => true | _ => false end) (cAttrs c).

Definition isIfnullCopy (item col_ : bytes) (after : option ptr) : bool :=
  match FindStringSubmatch reIfnullCopy (TrimSpace item), after with
  | Some m, Some t =>
      if beqb (unquote (group 1 m)) col_ && beqb (unquote (group 3 m)) col_ then
        let fill := TrimSpace (group 2 m) in
        match findColumn h (tab h t) col_ with
        | None => false
        | Some c =>
            let C := col h c in
            match cType C with
            | None => false
            | Some ct =>
                if Null ct then false
                else match cDefault C with
                     | Some (Literal v) => MatchString literalDefault fill && beqb (literalValue fill) (literalValue v)
                     | Some (RawExpr x) => beqb (stripOuterParens fill) (stripOuterParens x)
                     | _ => false
                     end
            end
        end
      else false
  | _, _ => false
  end.

Definition dotted (table name : bytes) : bytes := table ++ &"." ++ name.

(** Whether one selected item copies its column. *)
Definition copiesColumn (source : bytes) (after : option ptr) (changed : list bytes) (c item : bytes) : bool :=
  let name := unquote c in
  (MatchString plainIdent item && beqb (unquote item) name) ||
  (isIfnullCopy item name after && bool_decide (dotted source name ∈ changed)).

Definition rebuildCopySource (stmt : bytes) (desired : Realm) (added changed : list bytes) : option bytes :=
  match FindStringSubmatch reRebuildCopy stmt with
  | None => None
  | Some m =>
      let target := unquote (group 1 m) in
      let source := unquote (group 4 m) in
      let cols := splitList (group 2 m) in
      let sel := splitActions (group 3 m) in
      let after := findTable desired source in
      if beqb target (&"new_" ++ source) && negb (Nat.eqb (length cols) 0) && Nat.eqb (length cols) (length sel) &&
         forallb (fun '(c, item) => copiesColumn source after changed c item) (zip cols sel)
      then match after with
           | None => None
           | Some t =>
               let copied := map unquote cols in
               if forallb (fun c => let C := col h c in
                             hasGenerated C || bool_decide (cName C ∈ copied) ||
                             bool_decide (dotted source (cName C) ∈ added)) (tColumns (tab h t))
               then Some source else None
           end
      else None
  end.

(** ** Findings *)

(** What the steps of the diff say, keyed [table.column] or by table. *)
Definition stepKeys (codes : list bytes) (steps : list PlanStep) : list bytes :=
  omap (fun s => if bool_decide (Code s ∈ codes) then Some (dotted (STable s) (SName s)) else None) steps.

Definition nullOrDefaultKeys (steps : list PlanStep) : list bytes := stepKeys [StepChangeDefault; StepSetNotNull] steps.
Definition addedKeys (steps : list PlanStep) : list bytes := stepKeys [StepAddColumn; StepAddNotNull] steps.
Definition columnsInDiff (steps : list PlanStep) : list bytes :=
  omap (fun s => match SName s with [] => None | _ => Some (dotted (STable s) (SName s)) end) steps.
Definition tablesAccounted (steps : list PlanStep) : list bytes :=
  omap (fun s => if beqb (Code s) StepTableRebuild || NeedsAcknowledgement s then Some (STable s) else None) steps.

Record findState := mkFind {
  copies : gmap bytes nat;
  haveIDs : list bytes;
  droppedTables : list bytes;
  found : list PlanStep;       (* in the order they were added *)
}.

Definition addFinding (s : PlanStep) (st : findState) : findState :=
  if bool_decide (ID s ∈ haveIDs st) then st
  else mkFind (copies st) (ID s :: haveIDs st) (droppedTables st) (found st ++ [s]).

Definition setCopies (f : gmap bytes nat -> gmap bytes nat) (st : findState) : findState :=
  mkFind (f (copies st)) (haveIDs st) (droppedTables st) (found st).

Definition markDropped (table : bytes) (st : findState) : findState :=
  mkFind (copies st) (haveIDs st) (table :: droppedTables st) (found st).

Definition statementName (i : nat) : bytes := Sprintf "statement_%d" [itoa (Z.of_nat i + 1)].

Definition unclassifiedStep (i : nat) (stmt : bytes) : PlanStep :=
  newStep StepUnclassifiedSQL SeverityDestructive (statementName i) []
    (Sprintf "Gombit cannot classify statement %d (%s), so it is treated as destructive."
       [itoa (Z.of_nat i + 1); firstWords stmt]).

Definition upsertStep (i : nat) (table stmt : bytes) : PlanStep :=
  newStep StepDataChange SeverityDestructive table (statementName i)
    (Sprintf "Statement %d overwrites existing rows in %s (%s)." [itoa (Z.of_nat i + 1); table; firstWords stmt]).

Definition dataChangeStep (i : nat) (table stmt : bytes) : PlanStep :=
  newStep StepDataChange SeverityDestructive table (statementName i)
    (Sprintf "Statement %d deletes or rewrites rows in %s (%s)." [itoa (Z.of_nat i + 1); table; firstWords stmt]).

Definition sqlDropTableStep (table : bytes) : PlanStep :=
  newStep StepDropTable SeverityDestructive table []
    (Sprintf "The migration runs DROP TABLE %s and every row in it goes, even if a table of that name exists afterwards." [table]).

Section migration.
Context (steps : list PlanStep) (desired : Realm) (stmts : list bytes).

(** The DROP TABLE at [i] in the middle of a rebuild; it spends the copy. *)
Definition exemptDrop (i : nat) (table : bytes) (st : findState) : bool :=
  match copies st !! table, stmts !! S i with
  | Some c, Some next =>
      Nat.eqb (S c) i && bool_decide (table ∈ tablesAccounted steps) &&
      match FindStringSubmatch reRenameTableTo next with
      | Some m => beqb (unquote (group 1 m)) (&"new_" ++ table) && beqb (unquote (group 2 m)) table
      | None => false
      end
  | _, _ => false
  end.

Definition alterColumnFinding (table column stmt : bytes) (rewrite : bool) (st : findState) : findState :=
  if rewrite then
    addFinding (newStep StepAlterColumn SeverityDestructive table column
      (Sprintf "The migration rewrites every value of %s.%s through an expression (%s); the schema before and after cannot show what it keeps."
         [table; column; firstWords stmt])) st
  else if bool_decide (dotted table column ∈ columnsInDiff steps) then st
  else
    addFinding (newStep StepAlterColumn SeverityUnsafe table column
      (Sprintf "The migration alters column %s.%s in a way the schema before and after does not show." [table; column])) st.

Definition actionFinding (i : nat) (table stmt : bytes) (st : findState) (action : bytes) : findState :=
  match classifyAction action with
  | actionDropColumn column =>
      addFinding (newStep StepDropColumn SeverityDestructive table column
        (Sprintf "The migration drops column %s.%s and the data in it." [table; column])) st
  | actionAlterColumn column rewrite => alterColumnFinding table column stmt rewrite st
  | actionUnknownDrop => addFinding (unclassifiedStep i stmt) st
  | actionOther => st
  end.

Definition noteCopy (i : nat) (stmt : bytes) (st : findState) : findState :=
  match rebuildCopySource stmt desired (addedKeys steps) (nullOrDefaultKeys steps) with
  | Some src => setCopies <[src := i]> st
  | None => st
  end.

Definition statementFinding (st : findState) (istmt : nat * bytes) : findState :=
  let '(i, stmt) := istmt in
  let st := noteCopy i stmt st in
  match upsertTable stmt with
  | Some table => addFinding (upsertStep i table stmt) st
  | None =>
      match FindStringSubmatch reAlterTableBody stmt with
      | Some m => fold_left (actionFinding i (unquote (group 1 m)) stmt) (splitActions (group 2 m)) st
      | None =>
          let op := classifyStatement stmt in
          match OpSafety op with
          | SafetyNonDestructive => st
          | SafetyDataLoss =>
              match Kind op with
              | OpDropTable =>
                  if exemptDrop i (Resource op) st then setCopies (delete (Resource op)) st
                  else addFinding (sqlDropTableStep (Resource op)) (markDropped (Resource op) st)
              | _ =>
                  match FindStringSubmatch reDataChangeTable stmt with
                  | Some m => addFinding (dataChangeStep i (unquote (group 1 m)) stmt) st
                  | None => addFinding (unclassifiedStep i stmt) st
                  end
              end
          end
      end
  end.

Definition scanStatements : findState :=
  fold_left statementFinding (zip (seq 0 (length stmts)) stmts) (mkFind ∅ (map ID steps) [] []).

End migration.

Definition keptStep (dropped : list bytes) (s : PlanStep) : bool :=
  negb (beqb (Code s) StepRenameTable && (bool_decide (STable s ∈ dropped) || bool_decide (from s ∈ dropped))).

Definition withStatementFindings (steps : list PlanStep) (sql : bytes) (desired : Realm) : list PlanStep :=
  let st := scanStatements steps desired (Statements sql) in
  filter (fun s => keptStep (droppedTables st) s = true) steps ++ found st.

End store.

(** ** Evaluated *)

Example declared_renames :
  DeclaredRenames (&"-- Rename
ALTER TABLE `a` RENAME TO `b`;
alter table public.b rename column x to y;  RENAME TABLE c TO d") =
  [mkRename (&"a") [] (&"b"); mkRename (&"b") (&"x") (&"y"); mkRename (&"c") [] (&"d")].
Proof. vm_compute. reflexivity. Qed.

Example actions :
  map classifyAction (splitActions (&"ADD COLUMN a int, DROP b CASCADE, ALTER COLUMN c TYPE int USING c::int, DROP CONSTRAINT d, MODIFY e text, DROP PARTITION p0")) =
  [actionOther; actionDropColumn (&"b"); actionAlterColumn (&"c") true; actionOther; actionAlterColumn (&"e") false;
   actionUnknownDrop].
Proof. vm_compute. reflexivity. Qed.

Example upserts :
  map upsertTable [&"INSERT OR REPLACE INTO t VALUES (1)"; &"INSERT INTO t (a) VALUES (1) ON CONFLICT (a) DO UPDATE SET a = 2";
                   &"INSERT INTO t (a) VALUES (1)"] = [Some (&"t"); Some (&"t"); None].
Proof. vm_compute. reflexivity. Qed.
