(* ===== verification/SchemaPlan.v ===== *)
(** * migrations/schemaplan: plans, the gate, lint and drift

    [plan.go], [drift.go], the plan-building half of [lint.go], and the
    acknowledgement lines of [migrations/dir.go].  Atlas's HCL evaluation and its
    differs, and GORM's table naming, are parameters. *)

From stdpp Require Import base tactics numbers list strings gmap sets sorting.
From Stdlib Require Import ZArith Lia Ascii.
From S2P Require Import Prelude GoBytes DotEnv GoText Regex SqlClassify AtlasSchema SchemaClassify SchemaSql.

Local Open Scope string_scope.
Local Open Scope list_scope.
Local Open Scope gotext_scope.
Local Open Scope gombit_scope.

(** ** Acknowledgement lines in a migration (migrations/dir.go) *)

Definition allowDirective : bytes := &"-- gombit:allow ".

Definition allowOf (line : bytes) : option bytes :=
  match CutPrefix (TrimSpace line) allowDirective with
  | Some rest => match TrimSpace rest with [] => None | id => Some id end
  | None => None
  end.

Definition AllowDirectives (sql : bytes) : list bytes := omap allowOf (SplitByte sql newline).

(** The order of [sort.Strings]: byte by byte. *)
Fixpoint bytes_leb (a b : bytes) : bool :=
  match a, b with
  | [], _ => true
  | _ :: _, [] => false
  | x :: a, y :: b =>
      if Ascii.eqb x y then bytes_leb a b else Nat.ltb (nat_of_ascii x) (nat_of_ascii y)
  end.

Fixpoint insert_sorted (x : bytes) (l : list bytes) : list bytes :=
  match l with
  | [] => [x]
  | y :: l => if bytes_leb x y then x :: y :: l else y :: insert_sorted x l
  end.

Definition sortStrings (l : list bytes) : list bytes := foldr insert_sorted [] l.

(** One line for each id the file does not carry yet; [have] grows. *)
Fixpoint directiveLines (have ids : list bytes) : bytes :=
  match ids with
  | [] => []
  | id :: ids =>
      if bool_decide (id ∈ have) then directiveLines have ids
      else allowDirective ++ id ++ newline_b ++ directiveLines (id :: have) ids
  end.

Definition withAllowDirectives (sql : bytes) (ids : list bytes) : bytes :=
  directiveLines (AllowDirectives sql) (sortStrings ids) ++ sql.

(** ** Plans *)

Record Model := mkModel { ImportPath : bytes; TypeName : bytes }.

#[export] Instance Model_eq_dec : EqDecision Model.
Proof. solve_decision. Defined.

Record Inspection := mkInspection {
  inDriver : DatabaseDriver;
  inCurrent : bytes;
  inDesired : bytes;
  NewModels : list Model;
  inForgetModels : list Model;
}.

Record Plan := mkPlan { pDriver : DatabaseDriver; pSteps : list PlanStep; forgottenTables : list bytes }.

Definition acknowledge (s : PlanStep) : PlanStep :=
  mkStep (ID s) (Code s) (Sev s) (STable s) (SName s) (Detail s) (Hint_ s) true (createdInPlan s) (renameTo s) (from s).

(** Whether an entry, or --forget-model, covers the step. *)
Definition covered (ids forgotten : list bytes) (s : PlanStep) : bool :=
  bool_decide (ID s ∈ ids) || bool_decide (Code s ∈ ids) ||
  (beqb (Code s) StepDropTable && bool_decide (STable s ∈ forgotten) &&
   match createdInPlan s with [] => true | _ => false end).

(** The plan with the covered steps acknowledged, and the entries that matched none. *)
Definition Acknowledge (p : Plan) (allow : list bytes) : Plan * list bytes :=
  let ids := map TrimSpace allow in
  let used := omap (fun s => if bool_decide (ID s ∈ ids) then Some (ID s) else None) (pSteps p) ++
              omap (fun s => if bool_decide (Code s ∈ ids) then Some (Code s) else None) (pSteps p) in
  (mkPlan (pDriver p) (map (fun s => if covered ids (forgottenTables p) s then acknowledge s else s) (pSteps p))
          (forgottenTables p),
   filter (fun a => a ∉ used) ids).

Definition acknowledgedIDs (p : Plan) : list bytes :=
  omap (fun s => if Acknowledged s && risky (Sev s) then Some (ID s) else None) (pSteps p).

Definition Unacknowledged (p : Plan) : list PlanStep :=
  filter (fun s => NeedsAcknowledgement s = true) (pSteps p).

(** ** Printing *)

Definition modelFlags (inp : Inspection) : bytes :=
  concat (map (fun m => Sprintf " --model %s.%s" [ImportPath m; TypeName m]) (NewModels inp)) ++
  concat (map (fun m => Sprintf " --forget-model %s.%s" [ImportPath m; TypeName m]) (inForgetModels inp)).

Definition retryCommand (name : bytes) (inp : Inspection) (pending : list PlanStep) : bytes :=
  &"gombit db makemigrations " ++ name ++ modelFlags inp ++ concat (map (fun s => &" --allow " ++ ID s) pending).

(** [%-12s] *)
Definition pad12 (b : bytes) : bytes := b ++ repeat " "%char (12 - length b).

Definition severityName (s : Severity) : bytes :=
  match s with
  | SeveritySafe => &"safe"
  | SeverityReview => &"review"
  | SeverityUnsafe => &"unsafe"
  | SeverityDestructive => &"destructive"
  end.

Definition severityLabel (s : Severity) : bytes :=
  match s with SeveritySafe => &"safe" | _ => ToUpper (severityName s) end.

Definition driverName (d : DatabaseDriver) : bytes :=
  match d with
  | DatabaseDriverSQLite => &"sqlite"
  | DatabaseDriverPostgres => &"postgres"
  | DatabaseDriverMySQL => &"mysql"
  | OtherDriver n => n
  end.

Definition line2 (a b : bytes) : bytes := &"  " ++ pad12 a ++ &" " ++ b ++ newline_b.

Definition writeStep (allowed : bytes) (s : PlanStep) : bytes :=
  let ack := if Acknowledged s && risky (Sev s) then allowed else [] in
  line2 (severityLabel (Sev s)) (ID s ++ ack) ++
  line2 [] (Detail s) ++
  match Hint_ s with [] => [] | hint => concat (map (line2 []) (SplitByte hint newline)) end.

Definition count {A} (l : list A) : bytes := itoa (Z.of_nat (length l)).

Definition WritePlan (p : Plan) : bytes :=
  match pSteps p with
  | [] => &"No schema changes: the models match the migration directory." ++ newline_b
  | steps =>
      Sprintf "Schema plan (%s, %d change(s)):" [driverName (pDriver p); count steps] ++ newline_b ++ newline_b ++
      concat (map (writeStep (&"  (allowed)")) steps) ++
      match Unacknowledged p with
      | [] => []
      | pending =>
          newline_b ++
          Sprintf "%d destructive or unsafe change(s) need acknowledgement. Handle the data, then pass --allow for each:" [count pending] ++
          newline_b ++ concat (map (fun s => &"  --allow " ++ ID s ++ newline_b) pending)
      end
  end.

(** ** Building plans *)

Section atlas.
Context (EvalHCLBytes : DatabaseDriver -> bytes -> Store -> result bytes (Store * Realm)).
Context (RealmDiff : DatabaseDriver -> Store -> Realm -> Realm -> result bytes (list Change)).
Context (SchemaDiff : DatabaseDriver -> Store -> ptr -> ptr -> result bytes (list Change)).
Context (TableName : bytes -> bytes).

Definition wrapErr (prefix : string) {A} (r : result bytes A) : result bytes A :=
  match r with Ok a => Ok a | Err e => Err (Sprintf prefix [e]) end.

Definition supported (d : DatabaseDriver) : bool := match d with OtherDriver _ => false | _ => true end.

(** An empty text is an empty realm. *)
Definition evalHCL (d : DatabaseDriver) (data : bytes) (h : Store) : result bytes (Store * Realm) :=
  match TrimSpace data with
  | [] => Ok (h, [])
  | _ => if supported d then EvalHCLBytes d data h
         else Err (Sprintf "unsupported driver %q" [quoted (driverName d)])
  end.

(** The driver's differ; an unknown driver gets SQLite's. *)
Definition differ (d : DatabaseDriver) : DatabaseDriver := if supported d then d else DatabaseDriverSQLite.

(** *** Renames, in place *)

Definition setTable (t : ptr) (T : Table) (h : Store) : Store :=
  mkStore (columns h) (<[t := T]> (tables h)) (schemas h).
Definition setColumn (c : ptr) (C : Column) (h : Store) : Store :=
  mkStore (<[c := C]> (columns h)) (tables h) (schemas h).
Definition setSchema (s : ptr) (S_ : Schema) (h : Store) : Store :=
  mkStore (columns h) (tables h) (<[s := S_]> (schemas h)).

Definition renameTable (t : ptr) (to : bytes) (h : Store) : Store :=
  let T := tab h t in
  setTable t (mkTable to (tSchema T) (tColumns T) (tIndexes T) (tPrimaryKey T) (tForeignKeys T) (tAttrs T)) h.

Definition renameColumn (c : ptr) (to : bytes) (h : Store) : Store :=
  let C := col h c in
  setColumn c (mkColumn to (cType C) (cDefault C) (cAttrs C) (cIndexes C) (cForeignKeys C)) h.

Definition setFrom (s : PlanStep) (old : bytes) : PlanStep :=
  mkStep (ID s) (Code s) (Sev s) (STable s) (SName s) (Detail s) (Hint_ s) (Acknowledged s) (createdInPlan s)
         (renameTo s) old.

Definition renameTableStep (r : DeclaredRename) : PlanStep :=
  setFrom (newStep StepRenameTable SeveritySafe (rTo r) []
             (Sprintf "Renames table %s to %s. The rows stay." [rTable r; rTo r])) (rTable r).

Definition renameColumnStep (table : bytes) (r : DeclaredRename) : PlanStep :=
  newStep StepRenameColumn SeveritySafe table (rTo r)
    (Sprintf "Renames column %s.%s to %s. The data stays." [table; rColumn r; rTo r]).

(** One declared rename; one that names nothing is left to the diff. *)
Definition applyRename (current : Realm) (hs : Store * list PlanStep) (r : DeclaredRename) : Store * list PlanStep :=
  let '(h, steps) := hs in
  match findTable h current (rTable r) with
  | None => (h, steps)
  | Some t =>
      match rColumn r with
      | [] => (renameTable t (rTo r) h, steps ++ [renameTableStep r])
      | c => match findColumn h (tab h t) c with
             | Some c => (renameColumn c (rTo r) h, steps ++ [renameColumnStep (tName (tab h t)) r])
             | None => (h, steps)
             end
      end
  end.

Definition applyRenames (h : Store) (current : Realm) (rs : list DeclaredRename) : Store * list PlanStep :=
  fold_left (applyRename current) rs (h, []).

(** *** Aligned schemas *)

(** A new schema with the name and the attributes of another, at a fresh address. *)
Definition newSchema (h : Store) (s : Schema) : Store * ptr :=
  let p := fresh (dom (schemas h)) in (setSchema p (mkSchema (sName s) [] (sAttrs s) [] []) h, p).

Definition addMissing (hd : Store * Realm) (s : ptr) : Store * Realm :=
  let '(h, dst) := hd in
  match findSchema h dst (sName (sch h s)) with
  | Some _ => (h, dst)
  | None => let '(h, p) := newSchema h (sch h s) in (h, dst ++ [p])
  end.

Definition alignSchemas (h : Store) (a b : Realm) : Store * Realm * Realm :=
  let '(h, a) := fold_left addMissing b (h, a) in
  let '(h, b) := fold_left addMissing a (h, b) in
  (h, a, b).

(** *** Plans *)

Definition hintDrops (models : bytes) (steps : list PlanStep) : list PlanStep :=
  map (fun s => if beqb (Code s) StepDropTable then withHint s (renameTableHint s models) else s) steps.

Definition defaultTableNames (models : list Model) : list bytes := map (fun m => TableName (TypeName m)) models.

Definition emptyStore : Store := mkStore ∅ ∅ ∅.

Definition Build (inp : Inspection) : result bytes Plan :=
  let d := inDriver inp in
  let? hc := wrapErr "schemaplan: read the migration directory's schema: %s" (evalHCL d (inCurrent inp) emptyStore) in
  let? hd := wrapErr "schemaplan: read the models' schema: %s" (evalHCL d (inDesired inp) hc.1) in
  let '(h, current, desired) := alignSchemas hd.1 hc.2 hd.2 in
  let? changes := wrapErr "schemaplan: diff schemas: %s" (RealmDiff (differ d) h current desired) in
  Ok (mkPlan d (hintDrops (modelFlags inp) (classifyChanges h d changes)) (defaultTableNames (inForgetModels inp))).

(** The plan, with the store and the realm after the migration. *)
Definition buildWithRenames (inp : Inspection) (rs : list DeclaredRename) : result bytes (Plan * Store * Realm) :=
  let d := inDriver inp in
  let? hc := wrapErr "schemaplan: read the schema before the migration: %s" (evalHCL d (inCurrent inp) emptyStore) in
  let? hd := wrapErr "schemaplan: read the schema after the migration: %s" (evalHCL d (inDesired inp) hc.1) in
  let '(h, renameSteps) := applyRenames hd.1 hc.2 rs in
  let '(h, current, desired) := alignSchemas h hc.2 hd.2 in
  let? changes := wrapErr "schemaplan: diff schemas: %s" (RealmDiff (differ d) h current desired) in
  Ok (mkPlan d (hintDrops [] (renameSteps ++ classifyChanges h d changes)) [], h, desired).

Definition BuildWithRenames (inp : Inspection) (rs : list DeclaredRename) : result bytes Plan :=
  let? r := buildWithRenames inp rs in Ok r.1.1.

(** The classification lint and the gate share. *)
Definition classifyMigration (inp : Inspection) (sql : bytes) : result bytes Plan :=
  let? r := buildWithRenames inp (DeclaredRenames sql) in
  let '(plan, h, desired) := r in
  Ok (mkPlan (pDriver plan) (withStatementFindings h (pSteps plan) sql desired) (forgottenTables plan)).

Definition buildMigration (inp : Inspection) (sql : bytes) : result bytes Plan :=
  let? plan := classifyMigration inp sql in
  Ok (mkPlan (pDriver plan) (hintDrops (modelFlags inp) (pSteps plan)) (defaultTableNames (inForgetModels inp))).

(** ** The gate

    What it prints, and the acknowledged step IDs or the refusal. *)
Definition Gate (allow : list bytes) (name : bytes) (inp : Inspection) (sql : bytes) : bytes * result bytes (list bytes) :=
  match buildMigration inp sql with
  | Err e => ([], Err e)
  | Ok plan =>
      let '(plan, unmatched) := Acknowledge plan allow in
      let warnings := concat (map (fun a => Sprintf "warning: --allow %s matched no change in the plan" [a] ++ newline_b) unmatched) in
      match Unacknowledged plan with
      | [] => (warnings, Ok (acknowledgedIDs plan))
      | pending =>
          (warnings ++ WritePlan plan,
           Err (Sprintf "migrations: %d destructive or unsafe change(s) need acknowledgement, so no migration was written; review them with 'gombit db plan', handle the data, then write this migration with:
  %s" [count pending; retryCommand name inp pending]))
      end
  end.

(** ** Lint *)

Record MigrationFile := mkMigrationFile { Version : bytes; MName : bytes; UpPath : bytes; DownPath : bytes }.

Record MigrationLint := mkLint { lVersion : bytes; lName : bytes; lFile : bytes; lSteps : list PlanStep }.

Record LintReport := mkReport {
  Integrity : bytes;
  Misplaced : list bytes;
  Migrations : list MigrationLint;
}.

Definition reportUnacknowledged (r : LintReport) : list (bytes * PlanStep) :=
  concat (map (fun m => omap (fun s => if NeedsAcknowledgement s then Some (lFile m, s) else None) (lSteps m)) (Migrations r)).

Definition Failed (r : LintReport) : bool :=
  nonempty (Integrity r) || match Misplaced r with [] => false | _ => true end ||
  match reportUnacknowledged r with [] => false | _ => true end.

(** What a directory check came to: a checksum or replay error is reported. *)
Inductive Validation := DirOk | DirBroken (msg : bytes) | DirError (msg : bytes).

Section lint.
Context (driver : DatabaseDriver).
Context (InspectDirAt : bytes -> result bytes bytes) (ReadFile : bytes -> result bytes bytes) (Base : bytes -> bytes).

(** A schema inspected once per version. *)
Definition stateAt (states : gmap bytes bytes) (version : bytes) : result bytes (gmap bytes bytes * bytes) :=
  match states !! version with
  | Some hcl => Ok (states, hcl)
  | None => let? hcl := InspectDirAt version in Ok (<[version := hcl]> states, hcl)
  end.

Definition lintSteps (before after sql : bytes) : result bytes (list PlanStep) :=
  let? plan := classifyMigration (mkInspection driver before after [] []) sql in
  Ok (pSteps (Acknowledge plan (AllowDirectives sql)).1).

Definition lintOne (states : gmap bytes bytes) (prev : bytes) (f : MigrationFile)
  : result bytes (gmap bytes bytes * MigrationLint) :=
  let? b := stateAt states prev in
  let? a := stateAt b.1 (Version f) in
  let? sql := ReadFile (UpPath f) in
  let? steps := match lintSteps b.2 a.2 sql with
                | Ok steps => Ok steps
                | Err e => Err (Sprintf "schemaplan: %s: %s" [MName f; e])
                end in
  Ok (a.1, mkLint (Version f) (MName f) (Base (UpPath f)) steps).

Fixpoint lintFiles (states : gmap bytes bytes) (prev : bytes) (files : list MigrationFile)
  : list MigrationLint * result bytes unit :=
  match files with
  | [] => ([], Ok tt)
  | f :: files =>
      match lintOne states prev f with
      | Err e => ([], Err e)
      | Ok (states, l) => let '(ls, r) := lintFiles states (Version f) files in (l :: ls, r)
      end
  end.

(** [latest] newest migrations, or all of them when it is not positive. *)
Definition Lint (files : list MigrationFile) (skipped : list bytes) (validation : Validation) (latest : Z)
  : LintReport * result bytes unit :=
  match files with
  | [] => (mkReport [] skipped [], Ok tt)
  | _ =>
      match validation with
      | DirError msg => (mkReport [] skipped [], Err msg)
      | DirBroken msg => (mkReport msg skipped [], Ok tt)
      | DirOk =>
          let start := if (latest >? 0)%Z then Z.to_nat (Z.max (Z.of_nat (length files) - latest) 0) else O in
          let prev := match last (take start files) with Some f => Version f | None => [] end in
          let '(ls, r) := lintFiles ∅ prev (drop start files) in
          (mkReport [] skipped ls, r)
      end
  end.
End lint.

(** ** Drift of a live database *)

Definition StepExtraSchema := &"extra_schema".
Definition StepMissingSchema := &"missing_schema".
Definition atlasRevisionsSchema := &"atlas_schema_revisions".

(** The live schemas without the bookkeeping tables, and without Atlas's own
    schema once nothing else is in it. *)
Definition skipTables (ignore : list bytes) (h : Store) (s : ptr) : Store :=
  let S_ := sch h s in
  setSchema s (mkSchema (sName S_) (filter (fun t => tName (tab h t) ∉ ignore) (sTables S_)) (sAttrs S_) (sViews S_) (sObjects S_)) h.

Definition isEmptyRevisions (h : Store) (s : ptr) : bool :=
  let S_ := sch h s in
  beqb (sName S_) atlasRevisionsSchema &&
  match sTables S_, sViews S_, sObjects S_ with [], [], [] => true | _, _, _ => false end.

Definition keepLive (ignore : list bytes) (h : Store) (got : Realm) : Store * Realm :=
  let h := fold_left (skipTables ignore) got h in
  (h, filter (fun s => isEmptyRevisions h s = false) got).

(** On MySQL the one schema of each side is the same schema. *)
Definition oneSchema (d : DatabaseDriver) (h : Store) (want got : Realm) : Store :=
  match driver_is d DatabaseDriverMySQL, want, got with
  | true, [w_], [g] =>
      let S_ := sch h g in
      setSchema g (mkSchema (sName (sch h w_)) (sTables S_) (sAttrs (sch h w_)) (sViews S_) (sObjects S_)) h
  | _, _, _ => h
  end.

(** With no migration the live schemas are expected empty, not absent. *)
Definition expectEmpty (h : Store) (want got : Realm) : Store * Realm :=
  match want with
  | [] => fold_left (fun '(h, want) g => let '(h, p) := newSchema h (sch h g) in (h, want ++ [p])) got (h, [])
  | _ => (h, want)
  end.

Definition schemaNames (h : Store) (r : Realm) : list bytes := map (fun s => sName (sch h s)) r.

Definition suffixDetail (suffix : bytes) (s : PlanStep) : PlanStep :=
  mkStep (ID s) (Code s) (Sev s) (STable s) (SName s) (Detail s ++ suffix) (Hint_ s) (Acknowledged s)
         (createdInPlan s) (renameTo s) (from s).

(** One schema name: the two sides, one of them made empty when it is missing. *)
Definition driftSides (h : Store) (want got : Realm) (name : bytes) : Store * list PlanStep * option (ptr * ptr) :=
  match findSchema h want name, findSchema h got name with
  | Some a, Some b => (h, [], Some (a, b))
  | None, Some b =>
      let '(h, p) := newSchema h (mkSchema name [] (sAttrs (sch h b)) [] []) in
      (h, [newStep StepExtraSchema SeverityUnsafe name []
             (Sprintf "The database has schema %s, which the migrations do not create." [name])], Some (p, b))
  | Some a, None =>
      let '(h, p) := newSchema h (mkSchema name [] (sAttrs (sch h a)) [] []) in
      (h, [newStep StepMissingSchema SeverityUnsafe name []
             (Sprintf "The migrations create schema %s, which the database does not have." [name])], Some (a, p))
  | None, None => (h, [], None)
  end.

Fixpoint driftSchemas (d : DatabaseDriver) (several : bool) (h : Store) (want got : Realm) (names : list bytes)
  : result bytes (list PlanStep) :=
  match names with
  | [] => Ok []
  | name :: names =>
      let '(h, steps, sides) := driftSides h want got name in
      let? changes :=
        match sides with
        | Some (a, b) =>
            match SchemaDiff (differ d) h a b with
            | Ok cs => Ok cs
            | Err e => Err (Sprintf "schemaplan: diff schema %s: %s" [name; e])
            end
        | None => Ok []
        end in
      let suffix := if several then Sprintf " (schema %s)" [name] else [] in
      let? rest := driftSchemas d several h want got names in
      Ok (steps ++ map (suffixDetail suffix) (classifyChanges h d changes) ++ rest)
  end.

Definition DatabaseDrift (d : DatabaseDriver) (expected live : bytes) (ignore : list bytes) : result bytes (list PlanStep) :=
  let? hw := wrapErr "schemaplan: read the migrations' schema: %s" (evalHCL d expected emptyStore) in
  let? hg := wrapErr "schemaplan: read the database schema: %s" (evalHCL d live hw.1) in
  let '(h, got) := keepLive ignore hg.1 hg.2 in
  let h := oneSchema d h hw.2 got in
  let '(h, want) := expectEmpty h hw.2 got in
  let names := sortStrings (remove_dups (schemaNames h want ++ schemaNames h got)) in
  driftSchemas d (Nat.ltb 1 (length names)) h want got names.

End atlas.
