(* ===== verification/SchemaPlanFacts.v ===== *)
(** * The gate and lint are one gate

    [makemigrations] asks the gate about the SQL Atlas wrote and records the
    acknowledged step IDs in the file as comment lines; lint classifies the file
    later and reads them back.  The theorems here put the two together, through
    the comment stripping and the line reading in between. *)

From stdpp Require Import base tactics numbers list strings gmap sets sorting.
From Stdlib Require Import ZArith Lia Ascii.
From S2P Require Import Prelude GoBytes DotEnv GoText Regex SqlClassify AtlasSchema SchemaClassify SchemaSql SchemaPlan.

Local Open Scope string_scope.
Local Open Scope list_scope.
Local Open Scope gotext_scope.
Local Open Scope gombit_scope.

(** ** Statements do not see comment lines *)

Lemma TrimSpace_newline p : TrimSpace (newline :: p) = TrimSpace p.
Proof. unfold TrimSpace. f_equal. Qed.

(** A space rune ends with a newline only if it is one. *)
Lemma space_newline s : s ∈ space_runes -> last s = Some newline -> s = newline_b.
Proof.
  assert (Forall (fun s => last s = Some newline -> s = newline_b) space_runes) as H.
  { apply (bool_decide_eq_true_1 (Forall _ space_runes)). vm_compute. reflexivity. }
  rewrite Forall_forall in H. apply H.
Qed.

Lemma strip_prefix_app_r s p q r : strip_prefix s p = Some r -> strip_prefix s (p ++ q) = Some (r ++ q).
Proof. rewrite !strip_prefix_Some. intros ->. by rewrite app_assoc. Qed.

(** Whether a space rune starts a nonempty text does not depend on a newline behind it. *)
Lemma strip_prefix_newline s p :
  s ∈ space_runes -> p <> [] -> strip_prefix s p = None -> strip_prefix s (p ++ newline_b) = None.
Proof.
  intros Hs Hp Hnone. destruct (strip_prefix s (p ++ newline_b)) as [r|] eqn:E; [|done]. exfalso.
  apply strip_prefix_Some in E. destruct (list_eq_nil_dec r) as [->|Hr].
  - rewrite app_nil_r in E. assert (last s = Some newline) as Hl by (rewrite <-E; apply last_snoc).
    apply space_newline in Hl; [|done]. rewrite Hl in E. destruct p as [|x p]; [done|].
    apply (f_equal length) in E. rewrite length_app in E. simpl in E. lia.
  - destruct (exists_last Hr) as (r' & x & ->). rewrite app_assoc in E. apply app_inj_tail in E as [-> _].
    rewrite (proj2 (strip_prefix_Some s _ r')) in Hnone; done.
Qed.

Lemma strip_any_newline seqs p :
  (forall s, s ∈ seqs -> s ∈ space_runes) -> p <> [] ->
  strip_any seqs (p ++ newline_b) =
  match strip_any seqs p with Some r => Some (r ++ newline_b) | None => None end.
Proof.
  intros Hs Hp. induction seqs as [|s seqs IH]; [done|]. cbn [strip_any].
  destruct (strip_prefix s p) as [r|] eqn:E.
  - by rewrite (strip_prefix_app_r _ _ _ _ E).
  - rewrite strip_prefix_newline; [|apply Hs; left|done|done]. apply IH. intros. apply Hs. by right.
Qed.

Lemma trim_fuel_nil n seqs : trim_fuel n seqs [] = [].
Proof.
  induction n as [|n IH]; [done|]. simpl. destruct (strip_any seqs []) as [r|] eqn:E; [|done].
  assert (r = []) as ->; [|done].
  clear IH n. induction seqs as [|s seqs IH]; [done|]. simpl in E.
  destruct (strip_prefix s []) eqn:E1; [|by apply IH]. injection E as ->. by destruct s; simpl in E1; simplify_eq.
Qed.

Lemma trim_left_newline n : forall p, (length p <= n)%nat ->
  trim_fuel (S n) space_runes (p ++ newline_b) =
  match trim_fuel n space_runes p with [] => [] | q => q ++ newline_b end.
Proof.
  induction n as [|n IH]; intros p Hn.
  - destruct p; [|simpl in Hn; lia]. reflexivity.
  - destruct p as [|x p'] eqn:Ep; [rewrite trim_fuel_nil; reflexivity|]. rewrite <-Ep in *.
    assert (p <> []) as Hp by (by subst).
    cbn [trim_fuel]. rewrite strip_any_newline by done.
    destruct (strip_any space_runes p) as [r|] eqn:E.
    + apply IH. destruct (strip_any_Some _ _ _ E) as (s & Hs & ->).
      pose proof space_runes_nonempty as Hne. rewrite Forall_forall in Hne.
      specialize (Hne s Hs). rewrite length_app in Hn. destruct s; [done|simpl in Hn; lia].
    + by subst p.
Qed.

Lemma TrimSpace_snoc_newline p : TrimSpace (p ++ newline_b) = TrimSpace p.
Proof.
  unfold TrimSpace.
  assert (trim_left space_runes (p ++ newline_b) =
          match trim_left space_runes p with [] => [] | q => q ++ newline_b end) as ->.
  { unfold trim_left. rewrite length_app, Nat.add_comm. by apply trim_left_newline. }
  destruct (trim_left space_runes p) as [|y q]; [done|].
  unfold trim_right. rewrite rev_app_distr. reflexivity.
Qed.

(** What the statements come from: the pieces between semicolons, trimmed. *)
Definition pieces (sql : bytes) : list bytes := map TrimSpace (SplitByte (stripComments sql) semicolon).

Lemma SplitByte_cons_ne x b c : x <> c ->
  SplitByte (x :: b) c = match SplitByte b c with [] => [[x]] | l :: ls => (x :: l) :: ls end.
Proof. intros Hx. simpl. by destruct (Ascii.eqb_spec x c). Qed.

Lemma pieces_lead_newline x : map TrimSpace (SplitByte (newline :: x) semicolon) = map TrimSpace (SplitByte x semicolon).
Proof.
  rewrite SplitByte_cons_ne by done.
  pose proof (SplitByte_nonempty x semicolon). destruct (SplitByte x semicolon) as [|l ls]; [done|].
  cbn [map]. by rewrite TrimSpace_newline.
Qed.

(** Text with no separator goes to the last piece. *)
Lemma SplitByte_snoc c y x : c ∉ y ->
  exists init lst, SplitByte x c = init ++ [lst] /\ SplitByte (x ++ y) c = init ++ [lst ++ y].
Proof.
  intros Hy. assert (SplitByte y c = [y]) as Hsy.
  { clear x. induction y as [|b y IH]; [done|]. apply not_elem_of_cons in Hy as [Hb Hy].
    rewrite SplitByte_cons_ne by done. by rewrite IH. }
  induction x as [|b x (init & lst & H1 & H2)]; [by exists [], []|]. cbn [app].
  destruct (Ascii.eqb_spec b c) as [->|Hb].
  - exists ([] :: init), lst. cbn [SplitByte]. rewrite Ascii.eqb_refl, H1, H2. done.
  - rewrite !SplitByte_cons_ne, H1, H2 by done. destruct init as [|i init]; cbn [app].
    + by exists [], (b :: lst).
    + by exists ((b :: i) :: init), lst.
Qed.

Lemma pieces_trail_newline x :
  map TrimSpace (SplitByte (x ++ newline_b) semicolon) = map TrimSpace (SplitByte x semicolon).
Proof.
  destruct (SplitByte_snoc semicolon newline_b x) as (init & lst & -> & ->).
  - by intros ?%list_elem_of_singleton.
  - by rewrite !map_app; cbn [map]; rewrite TrimSpace_snoc_newline.
Qed.

(** A newline at the end of the file, and a comment line at its start, change no statement. *)
Lemma Statements_trail data : Statements (data ++ newline_b) = Statements data.
Proof.
  unfold Statements, splitStatements. f_equal.
  assert (stripComments (data ++ newline_b) = stripComments data ++ newline_b) as ->.
  { unfold stripComments, newline_b. rewrite SplitByte_app_sep, map_app, concat_app. reflexivity. }
  apply pieces_trail_newline.
Qed.

Lemma Statements_comment line sql :
  newline ∉ line -> Index line (&"--") = Some O -> Statements (line ++ newline_b ++ sql) = Statements sql.
Proof.
  intros Hn Hi. unfold Statements, splitStatements. f_equal.
  assert (stripComments (line ++ newline_b ++ sql) = newline :: stripComments sql) as ->.
  { unfold stripComments. cbn [newline_b app]. rewrite SplitByte_app by done. cbn [map concat].
    unfold stripLineComment at 1. by rewrite Hi. }
  apply pieces_lead_newline.
Qed.

(** ** Reading the lines back *)

(** A step ID as it can stand on a line: no newline, and no space at its ends. *)
Definition recordable (id : bytes) : Prop :=
  (newline ∉ id) /\ exists c b d,
    id = c :: b ++ [d] /\ (c ∉ heads space_runes) /\ (d ∉ heads (map (@rev ascii) space_runes)).

Lemma recordable_trim id : recordable id -> TrimSpace id = id.
Proof. intros (_ & c & b & d & -> & Hc & Hd). by apply TrimSpace_id. Qed.

Lemma directive_no_newline : newline ∉ allowDirective.
Proof. apply (bool_decide_eq_true_1 (newline ∉ allowDirective)). vm_compute. reflexivity. Qed.

Lemma recordable_line id : recordable id -> newline ∉ allowDirective ++ id.
Proof. intros [Hn _]. rewrite elem_of_app. pose proof directive_no_newline. tauto. Qed.

Lemma allowOf_directive id : recordable id -> allowOf (allowDirective ++ id) = Some id.
Proof.
  intros Hr. pose proof (recordable_trim id Hr) as Ht. destruct Hr as (_ & c & b & d & E & Hc & Hd).
  unfold allowOf. assert (TrimSpace (allowDirective ++ id) = allowDirective ++ id) as ->.
  { subst id. change allowDirective with ("-"%char :: &"- gombit:allow "). cbn [app].
    replace (&"- gombit:allow " ++ c :: b ++ [d]) with ((&"- gombit:allow " ++ c :: b) ++ [d])
      by (by rewrite <-app_assoc).
    apply TrimSpace_id; [|done]. apply (bool_decide_eq_true_1 (_ ∉ _)). vm_compute. reflexivity. }
  unfold CutPrefix. rewrite (proj2 (strip_prefix_Some allowDirective _ id)) by done.
  rewrite Ht. by subst id.
Qed.

Lemma AllowDirectives_line id sql :
  recordable id -> AllowDirectives (allowDirective ++ id ++ newline_b ++ sql) = id :: AllowDirectives sql.
Proof.
  intros Hr. unfold AllowDirectives. rewrite app_assoc. cbn [newline_b app].
  rewrite SplitByte_app by (by apply recordable_line). cbn [omap list_omap]. by rewrite allowOf_directive.
Qed.

Lemma directiveLines_read ids : forall have sql,
  Forall recordable ids ->
  (forall id, id ∈ ids -> id ∈ have \/ id ∈ AllowDirectives (directiveLines have ids ++ sql)) /\
  (forall id, id ∈ AllowDirectives sql -> id ∈ AllowDirectives (directiveLines have ids ++ sql)) /\
  Statements (directiveLines have ids ++ sql) = Statements sql.
Proof.
  induction ids as [|i ids IH]; intros have sql Hr.
  { repeat split; auto. intros ? []%not_elem_of_nil. }
  inversion Hr as [|? ? Hi Hr']; subst. cbn [directiveLines]. case_bool_decide as Hin.
  - destruct (IH have sql Hr') as (H1 & H2 & H3). repeat split; auto.
    intros id [->|?]%elem_of_cons; auto.
  - destruct (IH (i :: have) sql Hr') as (H1 & H2 & H3).
    rewrite <-!app_assoc, AllowDirectives_line by done. split; [|split].
    + intros id [->|Hid]%elem_of_cons; [right; left|].
      destruct (H1 id Hid) as [[->|?]%elem_of_cons|?]; [right; left|by left|right; by right].
    + intros id Hid. right. auto.
    + rewrite app_assoc, Statements_comment, H3; [done|by apply recordable_line|reflexivity].
Qed.

Lemma insert_sorted_elem x y l : x ∈ insert_sorted y l <-> x = y \/ x ∈ l.
Proof.
  induction l as [|z l IH]; simpl; [by rewrite list_elem_of_singleton; set_solver|].
  case_match; rewrite !elem_of_cons; [done|]. rewrite IH. tauto.
Qed.

Lemma sortStrings_elem x l : x ∈ sortStrings l <-> x ∈ l.
Proof. induction l as [|y l IH]; simpl; [done|]. by rewrite insert_sorted_elem, IH, elem_of_cons. Qed.

(** ** Acknowledgement *)

Lemma acknowledge_needs s : NeedsAcknowledgement (acknowledge s) = false.
Proof. unfold NeedsAcknowledgement. simpl. apply andb_false_r. Qed.

(** A plan with nothing left to acknowledge names every risky step. *)
Lemma acknowledged_all p allow s :
  Unacknowledged (Acknowledge p allow).1 = [] -> s ∈ pSteps p -> risky (Sev s) = true ->
  ID s ∈ acknowledgedIDs (Acknowledge p allow).1.
Proof.
  intros Hnone Hs Hr. unfold acknowledgedIDs. apply list_elem_of_omap.
  set (s' := if covered (map TrimSpace allow) (forgottenTables p) s then acknowledge s else s).
  assert (s' ∈ pSteps (Acknowledge p allow).1) as Hs'.
  { simpl. apply list_elem_of_fmap. by exists s. }
  exists s'. split; [done|].
  assert (NeedsAcknowledgement s' = false) as Hn.
  { destruct (NeedsAcknowledgement s') eqn:E; [|done]. exfalso.
    assert (s' ∈ Unacknowledged (Acknowledge p allow).1) as Hin by (by apply list_elem_of_filter).
    rewrite Hnone in Hin. by apply not_elem_of_nil in Hin. }
  unfold NeedsAcknowledgement in Hn. subst s'. destruct (covered _ _ s); simpl in *; rewrite Hr in *; [done|].
  apply negb_false_iff in Hn. by rewrite Hn.
Qed.

(** When every risky step is among the entries, nothing is left. *)
Lemma acknowledge_covers p allow :
  (forall s, s ∈ pSteps p -> risky (Sev s) = true -> ID s ∈ map TrimSpace allow) ->
  Forall (fun s => NeedsAcknowledgement s = false) (pSteps (Acknowledge p allow).1).
Proof.
  intros Hall. simpl. apply Forall_fmap, Forall_forall. intros s Hs. simpl.
  destruct (risky (Sev s)) eqn:Hr.
  - unfold covered. rewrite bool_decide_eq_true_2 by auto. apply acknowledge_needs.
  - destruct (covered _ _ s); [apply acknowledge_needs|]. unfold NeedsAcknowledgement. by rewrite Hr.
Qed.

Lemma hintDrops_elem models steps s :
  s ∈ steps -> exists s', s' ∈ hintDrops models steps /\ ID s' = ID s /\ Sev s' = Sev s.
Proof.
  intros Hs. eexists. split; [apply list_elem_of_fmap; by exists s|]. by destruct (beqb (Code s) StepDropTable).
Qed.

Section atlas.
Context (EvalHCLBytes : DatabaseDriver -> bytes -> Store -> result bytes (Store * Realm)).
Context (RealmDiff : DatabaseDriver -> Store -> Realm -> Realm -> result bytes (list Change)).
Context (TableName : bytes -> bytes).

Abbreviation classify := (classifyMigration EvalHCLBytes RealmDiff) (only parsing).

(** The classification sees the schemas and the statements, not the models or the comments. *)
Lemma classify_statements d cur des nm fm sql nm' fm' sql' :
  Statements sql = Statements sql' ->
  classify (mkInspection d cur des nm fm) sql = classify (mkInspection d cur des nm' fm') sql'.
Proof. intros H. unfold classifyMigration, DeclaredRenames, withStatementFindings. by rewrite H. Qed.

(** What a step says, apart from its advice and whether it is acknowledged. *)
Definition finding (s : PlanStep) : bytes * bytes * Severity * bytes * bytes * bytes :=
  (ID s, Code s, Sev s, STable s, SName s, Detail s).

Lemma hintDrops_findings models steps : map finding (hintDrops models steps) = map finding steps.
Proof.
  unfold hintDrops. rewrite map_map. apply map_ext. intros s. by destruct (beqb (Code s) StepDropTable).
Qed.

Lemma Acknowledge_findings p allow : map finding (pSteps (Acknowledge p allow).1) = map finding (pSteps p).
Proof. cbn. rewrite map_map. apply map_ext. intros s. by destruct (covered _ _ s). Qed.

(** The gate's answer is about the shared classification. *)
Lemma Gate_ok allow name inp sql out ids :
  Gate EvalHCLBytes RealmDiff TableName allow name inp sql = (out, Ok ids) ->
  exists plan gated, classify inp sql = Ok plan /\
    buildMigration EvalHCLBytes RealmDiff TableName inp sql = Ok gated /\
    map finding (pSteps gated) = map finding (pSteps plan) /\
    forall s, s ∈ pSteps plan -> risky (Sev s) = true -> ID s ∈ ids.
Proof.
  unfold Gate, buildMigration. destruct (classify inp sql) as [plan|e]; [|done]. cbn [result_bind].
  set (p := mkPlan _ _ _). intros Hg. exists plan, p. split; [done|]. split; [done|].
  split; [apply hintDrops_findings|]. intros s Hs Hr.
  destruct (hintDrops_elem (modelFlags inp) _ _ Hs) as (s' & Hs' & HID & HSev).
  destruct (Acknowledge p allow) as [p' unmatched] eqn:Ep.
  destruct (Unacknowledged p') as [|x l] eqn:Eu; [|done]. injection Hg as _ <-. rewrite <-HID.
  assert (p' = (Acknowledge p allow).1) as -> by (by rewrite Ep).
  apply acknowledged_all; [done|done|]. by rewrite HSev.
Qed.

(** C6. A migration the gate accepted passes lint: once its acknowledgements are written
    into the file as directives, linting the file between the same two schemas reports
    exactly the steps of the gate's plan, with the same identifiers, severities and details,
    and none of them is destructive or unsafe without an acknowledgement, for every answer
    of Atlas and every SQL text. The identifiers to be recorded are ones that fit on a line:
    no newline in them, no space at their ends. *)
Theorem gate_then_lint d cur des nm fm allow name data out ids :
  Gate EvalHCLBytes RealmDiff TableName allow name (mkInspection d cur des nm fm) (data ++ newline_b) = (out, Ok ids) ->
  Forall recordable ids ->
  exists plan steps,
    buildMigration EvalHCLBytes RealmDiff TableName (mkInspection d cur des nm fm) (data ++ newline_b) = Ok plan /\
    lintSteps EvalHCLBytes RealmDiff d cur des (withAllowDirectives data ids) = Ok steps /\
    map finding steps = map finding (pSteps plan) /\
    Forall (fun s => NeedsAcknowledgement s = false) steps.
Proof.
  intros (plan & gated & Hc & Hb & Hfind & Hids)%Gate_ok Hr. exists gated. unfold lintSteps, withAllowDirectives.
  assert (Forall recordable (sortStrings ids)) as Hr'.
  { rewrite Forall_forall in Hr. apply Forall_forall. intros id Hid. by apply Hr, sortStrings_elem. }
  destruct (directiveLines_read (sortStrings ids) (AllowDirectives data) data Hr') as (H1 & H2 & H3).
  rewrite (classify_statements d cur des [] [] _ nm fm (data ++ newline_b))
    by (by rewrite H3, Statements_trail).
  rewrite Hc. cbn [result_bind]. eexists. split; [exact Hb|]. split; [done|].
  split; [by rewrite Acknowledge_findings|]. apply acknowledge_covers. intros s Hs Hrisk.
  assert (ID s ∈ AllowDirectives (directiveLines (AllowDirectives data) (sortStrings ids) ++ data)) as Hin.
  { destruct (H1 (ID s) (proj2 (sortStrings_elem _ _) (Hids s Hs Hrisk))) as [?|?]; [by apply H2|done]. }
  apply list_elem_of_fmap. exists (ID s). split; [|done]. symmetry. apply recordable_trim.
  rewrite Forall_forall in Hr. auto.
Qed.

(** The gate refuses a migration, and records nothing, as soon as one of its destructive or
    unsafe steps is covered by no entry of the allow list and is not the drop of a table
    whose model is being forgotten. *)
Theorem gate_refuses allow name inp sql plan s :
  buildMigration EvalHCLBytes RealmDiff TableName inp sql = Ok plan ->
  s ∈ pSteps plan -> NeedsAcknowledgement s = true ->
  covered (map TrimSpace allow) (forgottenTables plan) s = false ->
  exists out msg, Gate EvalHCLBytes RealmDiff TableName allow name inp sql = (out, Err msg).
Proof.
  intros Hb Hs Hn Hc. unfold Gate. rewrite Hb.
  destruct (Acknowledge plan allow) as [p' unmatched] eqn:Ep.
  assert (s ∈ Unacknowledged p') as Hin.
  { assert (p' = (Acknowledge plan allow).1) as -> by (by rewrite Ep). apply list_elem_of_filter.
    split; [done|]. simpl. apply list_elem_of_fmap. exists s. by rewrite Hc. }
  destruct (Unacknowledged p') as [|x l]; [by apply not_elem_of_nil in Hin|]. eauto.
Qed.

End atlas.

(** ** Witnesses

    A library that inspects every text to one schema with a table [users], and
    whose differ reports that table dropped. *)
Module Sample.

Definition users : Table := mkTable (&"users") (Some 1%positive) [] [] None [] [].

Definition eval (d : DatabaseDriver) (data : bytes) (h : Store) : result bytes (Store * Realm) :=
  Ok (mkStore (columns h) (<[1%positive := users]> (tables h))
        (<[1%positive := mkSchema (&"main") [1%positive] [] [] []]> (schemas h)), [1%positive]).

Definition diff (d : DatabaseDriver) (h : Store) (a b : Realm) : result bytes (list Change) :=
  Ok [DropTable 1%positive].

Definition inp : Inspection := mkInspection DatabaseDriverSQLite (&"a") (&"b") [] [].
Definition sql : bytes := &"DROP TABLE `users`;".
Definition allow : list bytes := [&"drop_table:users"].

End Sample.

Lemma gate_then_lint_witness :
  exists plan steps,
    buildMigration Sample.eval Sample.diff (fun t => t) Sample.inp (Sample.sql ++ newline_b) = Ok plan /\
    lintSteps Sample.eval Sample.diff DatabaseDriverSQLite (&"a") (&"b")
      (withAllowDirectives Sample.sql [&"drop_table:users"]) = Ok steps /\
    map finding steps = map finding (pSteps plan) /\
    Forall (fun s => NeedsAcknowledgement s = false) steps.
Proof.
  apply (gate_then_lint Sample.eval Sample.diff (fun t => t) DatabaseDriverSQLite (&"a") (&"b") [] [] Sample.allow
           (&"drop_users") Sample.sql []).
  - vm_compute. reflexivity.
  - repeat constructor.
    + apply (bool_decide_eq_true_1 (newline ∉ _)). vm_compute. reflexivity.
    + exists "d"%char, (&"rop_table:user"), "s"%char. split; [reflexivity|].
      split; apply (bool_decide_eq_true_1 (_ ∉ _)); vm_compute; reflexivity.
Defined.

Lemma gate_refuses_witness :
  exists out msg,
    Gate Sample.eval Sample.diff (fun t => t) [&"drop_table:posts"] (&"x") Sample.inp Sample.sql = (out, Err msg).
Proof.
  destruct (buildMigration Sample.eval Sample.diff (fun t => t) Sample.inp Sample.sql) as [plan|e] eqn:E;
    [|vm_compute in E; discriminate].
  destruct (pSteps plan) as [|s l] eqn:Es; [revert E Es; vm_compute; intros [= <-]; discriminate|].
  apply (gate_refuses Sample.eval Sample.diff (fun t => t) [&"drop_table:posts"] (&"x") Sample.inp Sample.sql plan s E).
  - rewrite Es. left.
  - revert E Es. vm_compute. intros [= <-] [= <- _]. reflexivity.
  - revert E Es. vm_compute. intros [= <-] [= <- _]. reflexivity.
Defined.
