(* ===== verification/MigrationDir.v ===== *)
(** * migrations: the migration directory, its registry, and renames

    File names and listings ([revisions.go]), the model registry ([registry.go]),
    the options of a run ([makemigrations.go]) and renames ([rename.go]).  A
    directory is its files by name, with the [downs] subdirectory; every call to
    the operating system and to Atlas takes its outcome from the caller. *)

From stdpp Require Import base tactics numbers list strings gmap sets.
From Stdlib Require Import ZArith Lia Ascii.
From S2P Require Import Prelude GoBytes DotEnv GoText Regex SqlClassify AtlasSchema SchemaSql SchemaPlan.

Local Open Scope string_scope.
Local Open Scope list_scope.
Local Open Scope gotext_scope.
Local Open Scope gombit_scope.

(** ** Patterns *)

Definition idStart (c : ascii) : bool := letter c || Ascii.eqb c "_".
Definition alnum (c : ascii) : bool := letter c || digit c.
Definition nameByte (c : ascii) : bool := is_word c || Ascii.eqb c "-".

Definition goIdentifierPattern : re := cat [Bot; Cls idStart; star (Cls is_word); Eot].
Definition migrationNamePattern : re := cat [Bot; Cls alnum; star (Cls nameByte); Eot].

(** The version is group 1 and the name group 2. *)
Definition fileRe (ext : bytes) : re :=
  cat [Bot; Cap 1 (plus (Cls digit)); chr "_"; Cap 2 (Cat (Cls alnum) (star (Cls nameByte))); lit ext; Eot].
Definition migrationFilePattern : re := fileRe (&".sql").
Definition migrationDownFilePattern : re := fileRe (&".down.sql").

Inductive migError :=
| EmptySpec
| BadModelSpec (spec : bytes)
| BadImportPath (spec : bytes)
| BadTypeName (spec : bytes)
| BadRenameSpec (spec : bytes)
| RenameMovesTable (spec old new : bytes)
| BadTableRenameSpec (spec : bytes)
| BadIdentifier (what id : bytes)
| SameColumnName (table column : bytes)
| SameTableName (table : bytes)
| RenamedTwice (table : bytes)
| TwoRenamedTo (table : bytes)
| ChainedRename (old new : bytes)
| RenameUsesOldTable (table column : bytes)
| NameRequired
| BadName
| UnsupportedDriver (driver : DatabaseDriver)
| InvalidModel (m : Model)
| RenameWithModels
| NotTracked (m : Model)
| NoModels
| BadFilename (base : bytes)
| BadVersion (version : bytes)
| OSError (step : bytes)
| HashFailed.

(** ** File names *)

Definition ParseMigrationFilename (base : bytes) : result migError (bytes * bytes) :=
  match FindStringSubmatch migrationFilePattern base with
  | Some m => Ok (group 1 m, group 2 m)
  | None => Err (BadFilename base)
  end.

Definition ParseDownFilename (base : bytes) : result migError (bytes * bytes) :=
  match FindStringSubmatch migrationDownFilePattern base with
  | Some m => Ok (group 1 m, group 2 m)
  | None => Err (BadFilename base)
  end.

Definition downName (version name : bytes) : bytes := Sprintf "%s_%s.down.sql" [version; name].
Definition upName (version name : bytes) : bytes := Sprintf "%s_%s.sql" [version; name].

Definition DownFilename (up : bytes) : result migError bytes :=
  let? vn := ParseMigrationFilename up in Ok (downName vn.1 vn.2).

(** ** The directory *)

(** The files by base name, and the [downs] subdirectory when there is one. *)
Record Dir := mkDir { dFiles : gmap bytes bytes; dDowns : option (gmap bytes bytes) }.

Definition atlasSum : bytes := &"atlas.sum".
Definition registryFileName : bytes := &"models.json".

(** Byte order, as [<] on strings. *)
Definition bytes_ltb (a b : bytes) : bool := negb (bytes_leb b a).

Definition fileLess (a b : MigrationFile) : bool :=
  if beqb (Version a) (Version b) then bytes_ltb (MName a) (MName b) else bytes_ltb (Version a) (Version b).

Fixpoint insertFile (f : MigrationFile) (l : list MigrationFile) : list MigrationFile :=
  match l with
  | [] => [f]
  | g :: l => if fileLess g f then g :: insertFile f l else f :: g :: l
  end.

Definition sortFiles (l : list MigrationFile) : list MigrationFile := foldr insertFile [] l.

(** One directory entry: a migration, a skipped file, or neither. *)
Inductive entry := EntryMigration (f : MigrationFile) | EntrySkipped (name : bytes) | EntryIgnored.

Definition readEntry (downs : option (gmap bytes bytes)) (name : bytes) : entry :=
  if beqb name atlasSum then EntryIgnored
  else if HasSuffix name (&".down.sql") then EntrySkipped name
  else match ParseMigrationFilename name with
  | Err _ => if HasSuffix name (&".sql") then EntrySkipped name else EntryIgnored
  | Ok (version, migName) =>
      let down := downName version migName in
      let downPath := match downs with
                      | Some ds => match ds !! down with Some _ => &"downs/" ++ down | None => [] end
                      | None => []
                      end in
      EntryMigration (mkMigrationFile version migName name downPath)
  end.

(** The names of a directory in byte order, as [os.ReadDir] lists them. *)
Definition entryNames (d : Dir) : list bytes := sortStrings (map fst (map_to_list (dFiles d))).

Definition listMigrationFiles (dir : option Dir) : list MigrationFile * list bytes :=
  match dir with
  | None => ([], [])
  | Some d =>
      let entries := map (readEntry (dDowns d)) (entryNames d) in
      (sortFiles (omap (fun e => match e with EntryMigration f => Some f | _ => None end) entries),
       omap (fun e => match e with EntrySkipped n => Some n | _ => None end) entries)
  end.

Definition ListMigrationFiles (dir : option Dir) : list MigrationFile := (listMigrationFiles dir).1.

(** *** The next version *)

Fixpoint digitsValue (acc : Z) (b : bytes) : Z :=
  match b with [] => acc | c :: b => digitsValue (acc * 10 + (code c - 48)) b end.

(** [strconv.ParseInt(s, 10, 64)] of a run of digits. *)
Definition ParseInt64 (b : bytes) : option Z :=
  match b with
  | [] => None
  | _ => if forallb digit b && (digitsValue 0 b <=? max_int64)%Z then Some (digitsValue 0 b) else None
  end.

(** [%0*d] *)
Definition padZero (width : nat) (z : Z) : bytes :=
  if (z <? 0)%Z then
    let d := itoa (- z) in "-"%char :: repeat "0"%char (width - 1 - length d) ++ d
  else let d := itoa z in repeat "0"%char (width - length d) ++ d.

Definition latestVersion (files : list MigrationFile) : bytes :=
  fold_left (fun latest f => if bytes_ltb latest (Version f) then Version f else latest) files [].

(** [now] is the clock in the fourteen-digit layout. *)
Definition nextMigrationVersion (now : bytes) (dir : option Dir) : result migError bytes :=
  let latest := latestVersion (ListMigrationFiles dir) in
  if bytes_ltb latest now then Ok now
  else match ParseInt64 latest with
       | None => Err (BadVersion latest)
       | Some n => Ok (padZero (length latest) (wrap_int64 (n + 1)))
       end.

(** ** The registry *)

Definition modelLess (a b : Model) : bool :=
  if beqb (ImportPath a) (ImportPath b) then bytes_ltb (TypeName a) (TypeName b)
  else bytes_ltb (ImportPath a) (ImportPath b).

Fixpoint insertModel (m : Model) (l : list Model) : list Model :=
  match l with
  | [] => [m]
  | x :: l => if modelLess x m then x :: insertModel m l else m :: x :: l
  end.

Definition sortModels (l : list Model) : list Model := foldr insertModel [] l.

(** The models of a list not seen before, each once, and what is seen after. *)
Fixpoint unseen (seen : list Model) (l : list Model) : list Model * list Model :=
  match l with
  | [] => ([], seen)
  | m :: l =>
      if bool_decide (m ∈ seen) then unseen seen l
      else let '(out, seen) := unseen (m :: seen) l in (m :: out, seen)
  end.

Definition MergeModels (existing additional : list Model) : list Model :=
  let '(merged, seen) := unseen [] additional in
  let '(rest, _) := unseen seen existing in
  merged ++ sortModels rest.

Definition SubtractModels (models remove : list Model) : list Model :=
  match remove with [] => models | _ => filter (fun m => m ∉ remove) models end.

Definition ensureForgetModelsTracked (tracked forget : list Model) : result migError unit :=
  match list_find (fun m => m ∉ tracked) forget with
  | Some (_, m) => Err (NotTracked m)
  | None => Ok tt
  end.

(** ** Renames *)

Record Rename := mkColumnRename { rnTable : bytes; OldColumn : bytes; NewColumn : bytes }.
Record TableRename := mkTableRename { trOld : bytes; trNew : bytes }.

Definition isIdentifier (b : bytes) : bool := MatchString goIdentifierPattern b.

Definition check (b : bool) (e : migError) : result migError unit := if b then Ok tt else Err e.

Definition validateRename (r : Rename) : result migError unit :=
  let? _ := check (isIdentifier (rnTable r)) (BadIdentifier (&"table") (rnTable r)) in
  let? _ := check (isIdentifier (OldColumn r)) (BadIdentifier (&"old column") (OldColumn r)) in
  let? _ := check (isIdentifier (NewColumn r)) (BadIdentifier (&"new column") (NewColumn r)) in
  check (negb (beqb (OldColumn r) (NewColumn r))) (SameColumnName (rnTable r) (OldColumn r)).

Definition validateTableRename (r : TableRename) : result migError unit :=
  let? _ := check (isIdentifier (trOld r)) (BadIdentifier (&"table rename") (trOld r)) in
  let? _ := check (isIdentifier (trNew r)) (BadIdentifier (&"table rename") (trNew r)) in
  check (negb (beqb (trOld r) (trNew r))) (SameTableName (trOld r)).

(** [table.old=table.new] as [table.old:new]. *)
Definition normalizeRename (spec : bytes) : result migError bytes :=
  match CutByte spec "="%char with
  | None => Ok spec
  | Some (left_, right_) =>
      match CutByte (TrimSpace left_) "."%char, CutByte (TrimSpace right_) "."%char with
      | Some (oldTable, oldCol), Some (newTable, newCol) =>
          if beqb oldTable newTable then Ok (oldTable ++ &"." ++ oldCol ++ &":" ++ newCol)
          else Err (RenameMovesTable spec oldTable newTable)
      | _, _ => Err (BadRenameSpec spec)
      end
  end.

Definition ParseRename (spec : bytes) : result migError Rename :=
  let spec := TrimSpace spec in
  match spec with
  | [] => Err EmptySpec
  | _ =>
      let? spec := normalizeRename spec in
      match LastIndexByte spec ":" with
      | None => Err (BadRenameSpec spec)
      | Some colon =>
          if Nat.eqb colon 0 || Nat.eqb colon (length spec - 1) then Err (BadRenameSpec spec)
          else
            let left_ := take colon spec in
            let newCol := drop (colon + 1) spec in
            match IndexByte left_ "."%char with
            | None => Err (BadRenameSpec spec)
            | Some dot =>
                if Nat.eqb dot 0 || Nat.eqb dot (length left_ - 1) then Err (BadRenameSpec spec)
                else
                  let r := mkColumnRename (TrimSpace (take dot left_)) (TrimSpace (drop (dot + 1) left_)) (TrimSpace newCol) in
                  let? _ := validateRename r in Ok r
            end
      end
  end.

Definition ParseTableRename (spec : bytes) : result migError TableRename :=
  match CutByte (TrimSpace spec) ":"%char with
  | None => Err (BadTableRenameSpec spec)
  | Some (oldName, newName) =>
      let r := mkTableRename (TrimSpace oldName) (TrimSpace newName) in
      let? _ := validateTableRename r in Ok r
  end.

(** The table renames in order, with the old and new names so far. *)
Fixpoint validateTables (oldNames newNames : list bytes) (l : list TableRename) : result migError (list bytes * list bytes) :=
  match l with
  | [] => Ok (oldNames, newNames)
  | t :: l =>
      let? _ := validateTableRename t in
      let? _ := check (negb (bool_decide (trOld t ∈ oldNames))) (RenamedTwice (trOld t)) in
      let? _ := check (negb (bool_decide (trNew t ∈ newNames))) (TwoRenamedTo (trNew t)) in
      validateTables (trOld t :: oldNames) (trNew t :: newNames) l
  end.

Fixpoint validateColumns (oldNames newNames : list bytes) (l : list Rename) : result migError unit :=
  match l with
  | [] => Ok tt
  | c :: l =>
      let? _ := validateRename c in
      let? _ := check (negb (bool_decide (rnTable c ∈ oldNames) && negb (bool_decide (rnTable c ∈ newNames))))
                  (RenameUsesOldTable (rnTable c) (OldColumn c)) in
      validateColumns oldNames newNames l
  end.

Definition validateRenameSet (ts : list TableRename) (cs : list Rename) : result migError unit :=
  let? names := validateTables [] [] ts in
  match list_find (fun t => trNew t ∈ names.1) ts with
  | Some (_, t) => Err (ChainedRename (trOld t) (trNew t))
  | None => validateColumns names.1 names.2 cs
  end.

(** *** The SQL *)

Definition quoteRenameIdent (driver : DatabaseDriver) (id : bytes) : bytes :=
  let q := if driver_is driver DatabaseDriverPostgres then dquote else backquote in q :: id ++ [q].

Definition tableComment (t : TableRename) : bytes :=
  Sprintf "-- Rename table %q to %q" [quoted (trOld t); quoted (trNew t)].
Definition renameTableStmt (driver : DatabaseDriver) (old new : bytes) : bytes :=
  Sprintf "ALTER TABLE %s RENAME TO %s;" [quoteRenameIdent driver old; quoteRenameIdent driver new].

Definition columnComment (r : Rename) : bytes :=
  Sprintf "-- Rename column %q to %q on table %q" [quoted (OldColumn r); quoted (NewColumn r); quoted (rnTable r)].
Definition renameColumnStmt (driver : DatabaseDriver) (table old new : bytes) : bytes :=
  Sprintf "ALTER TABLE %s RENAME COLUMN %s TO %s;"
    [quoteRenameIdent driver table; quoteRenameIdent driver old; quoteRenameIdent driver new].

Definition tableRenameSQL (driver : DatabaseDriver) (t : TableRename) : bytes :=
  tableComment t ++ newline_b ++ renameTableStmt driver (trOld t) (trNew t) ++ newline_b.

Definition columnRenameSQL (driver : DatabaseDriver) (r : Rename) : bytes :=
  columnComment r ++ newline_b ++ renameColumnStmt driver (rnTable r) (OldColumn r) (NewColumn r) ++ newline_b.

(** The statements, a blank line between them. *)
Definition renameSQL (driver : DatabaseDriver) (ts : list TableRename) (rs : list Rename) : bytes :=
  Join (map (tableRenameSQL driver) ts ++ map (columnRenameSQL driver) rs) newline_b.

Definition renameDownSQL (driver : DatabaseDriver) (ts : list TableRename) (rs : list Rename) : bytes :=
  concat (map (fun r => renameColumnStmt driver (rnTable r) (NewColumn r) (OldColumn r) ++ newline_b) (rev rs)) ++
  concat (map (fun t => renameTableStmt driver (trNew t) (trOld t) ++ newline_b) (rev ts)).

(** ** Options *)

Definition blank_in (b : bytes) : bool := existsb (byte_in (map byte_of [32; 9; 13; 10]%nat)) b.

Definition ParseModel (spec : bytes) : result migError Model :=
  let spec := TrimSpace spec in
  match spec with
  | [] => Err EmptySpec
  | _ =>
      match LastIndexByte spec "." with
      | None => Err (BadModelSpec spec)
      | Some dot =>
          if Nat.eqb dot 0 || Nat.eqb dot (length spec - 1) then Err (BadModelSpec spec)
          else
            let m := mkModel (take dot spec) (drop (dot + 1) spec) in
            if negb (nonempty (TrimSpace (ImportPath m))) || blank_in (ImportPath m) then Err (BadImportPath spec)
            else if isIdentifier (TypeName m) then Ok m else Err (BadTypeName spec)
      end
  end.

Definition validateModel (m : Model) : result migError unit :=
  check (nonempty (TrimSpace (ImportPath m)) && isIdentifier (TypeName m)) (InvalidModel m).

Fixpoint validateModels (l : list Model) : result migError unit :=
  match l with [] => Ok tt | m :: l => let? _ := validateModel m in validateModels l end.

Record Options := mkOptions {
  oName : bytes;
  oDriver : DatabaseDriver;
  oModels : list Model;
  oForget : list Model;
  oRenames : list Rename;
  oTableRenames : list TableRename;
}.

Definition isRename (o : Options) : bool :=
  match oRenames o, oTableRenames o with [], [] => false | _, _ => true end.

Definition swapsModels (o : Options) : bool := match oModels o, oForget o with [], [] => false | _, _ => true end.

Definition validateOptions (o : Options) : result migError unit :=
  let? _ := check (nonempty (TrimSpace (oName o))) NameRequired in
  let? _ := check (MatchString migrationNamePattern (oName o)) BadName in
  let? _ := check (supported (oDriver o)) (UnsupportedDriver (oDriver o)) in
  let? _ := validateModels (oModels o) in
  let? _ := validateModels (oForget o) in
  if isRename o then
    let? _ := check (negb (match oTableRenames o with [] => true | _ => false end && swapsModels o)) RenameWithModels in
    validateRenameSet (oTableRenames o) (oRenames o)
  else Ok tt.

(** ** Writing a rename migration *)

(** What the operating system and Atlas answer.  A failed write may leave bytes
    behind; a hash, failed or not, may have rewritten atlas.sum.  The calls that put
    the directory back, whose results the code drops, succeed. *)
Record RunEnv := mkEnv {
  eNow : bytes;
  eMkdir : bool;
  eReadRegistry : bool;
  eReadSum : bool;
  eWriteSQL : bool;
  eLeftSQL : option bytes;
  eHash : bool;
  eSum : option bytes;
  eMkdirDowns : bool;
  eWriteDown : bool;
  eLeftDown : option bytes;
  eSaveRegistry : bool;
  eLeftRegistry : option bytes;
}.

Definition putFile (name content : bytes) (d : Dir) : Dir := mkDir (<[name := content]> (dFiles d)) (dDowns d).
Definition dropFile (name : bytes) (d : Dir) : Dir := mkDir (delete name (dFiles d)) (dDowns d).

(** [os.WriteFile] *)
Definition writeFile (ok : bool) (left_ : option bytes) (name content : bytes) (d : Dir) : Dir :=
  if ok then putFile name content d
  else match left_ with Some b => putFile name b d | None => d end.

(** [restoreFile] *)
Definition restoreFile (name : bytes) (prev : option bytes) (d : Dir) : Dir :=
  match prev with Some b => putFile name b d | None => dropFile name d end.

(** [os.Remove] of the directory: it works when the directory is empty. *)
Definition removeDir (d : Dir) : option Dir :=
  match dDowns d with
  | None => if bool_decide (dFiles d = ∅) then None else Some d
  | Some _ => Some d
  end.

Definition rollbackRename (sqlName : bytes) (prevSum : option bytes) (dirExisted : bool) (d : Dir) : option Dir :=
  let d := restoreFile atlasSum prevSum (dropFile sqlName d) in
  if dirExisted then Some d else removeDir d.

Definition dropDown (downFile : bytes) (downDirExisted : bool) (d : Dir) : Dir :=
  match dDowns d with
  | None => d
  | Some ds =>
      let ds := delete downFile ds in
      mkDir (dFiles d) (if negb downDirExisted && bool_decide (ds = ∅) then None else Some ds)
  end.

Section json.
Context (decode : bytes -> option (list Model)) (encode : list Model -> bytes).

Definition LoadRegistry (d : Dir) : result migError (list Model) :=
  match dFiles d !! registryFileName with
  | None => Ok []
  | Some data =>
      match decode data with
      | None => Err (OSError (&"parse model registry"))
      | Some ms => let? _ := validateModels ms in Ok ms
      end
  end.

Definition registryBytes (models : list Model) : bytes := encode (sortModels models) ++ newline_b.

(** The registry once the run's models are swapped. *)
Definition swapRegistry (o : Options) (d : Dir) : result migError (list Model) :=
  let? registered := LoadRegistry d in
  let known := MergeModels registered (oModels o) in
  let? _ := ensureForgetModelsTracked known (oForget o) in
  Ok (SubtractModels known (oForget o)).

(** From the hash on: a failure puts the directory back. *)
Definition finishRename (env : RunEnv) (o : Options) (registry : list Model) (dirExisted : bool)
    (sqlName downFile : bytes) (prevSum prevRegistry : option bytes) (d : Dir) : option Dir * result migError unit :=
  let d := match eSum env with Some b => putFile atlasSum b d | None => d end in
  if negb (eHash env) then (rollbackRename sqlName prevSum dirExisted d, Err HashFailed)
  else
    let downDirExisted := match dDowns d with Some _ => true | None => false end in
    let undo d := rollbackRename sqlName prevSum dirExisted
                    (restoreFile registryFileName prevRegistry (dropDown downFile downDirExisted d)) in
    if negb (eMkdirDowns env) then (undo d, Err (OSError (&"create downs dir")))
    else
      let ds := default ∅ (dDowns d) in
      let down := renameDownSQL (oDriver o) (oTableRenames o) (oRenames o) in
      let written b := mkDir (dFiles d) (Some (<[downFile := b]> ds)) in
      if negb (eWriteDown env) then
        (undo (match eLeftDown env with Some b => written b | None => mkDir (dFiles d) (Some ds) end),
         Err (OSError (&"write rename down migration")))
      else
        let d := written down in
        if swapsModels o then
          let d' := writeFile (eSaveRegistry env) (eLeftRegistry env) registryFileName (registryBytes registry) d in
          if eSaveRegistry env then (Some d', Ok tt) else (undo d', Err (OSError (&"write model registry")))
        else (Some d, Ok tt).

Definition makeRenameMigration (env : RunEnv) (o : Options) (dir : option Dir) : option Dir * result migError unit :=
  if negb (eMkdir env) then (dir, Err (OSError (&"create migration dir")))
  else
    let dirExisted := match dir with Some _ => true | None => false end in
    let d := default (mkDir ∅ None) dir in
    match if swapsModels o then swapRegistry o d else Ok [] with
    | Err e => (Some d, Err e)
    | Ok registry =>
        if negb (eReadRegistry env) then (Some d, Err (OSError (&"read model registry")))
        else match nextMigrationVersion (eNow env) (Some d) with
        | Err e => (Some d, Err e)
        | Ok version =>
            if negb (eReadSum env) then (Some d, Err (OSError (&"read atlas.sum")))
            else
              let sqlName := upName version (oName o) in
              let sql := renameSQL (oDriver o) (oTableRenames o) (oRenames o) in
              let d' := writeFile (eWriteSQL env) (eLeftSQL env) sqlName sql d in
              if negb (eWriteSQL env) then (Some d', Err (OSError (&"write rename migration")))
              else finishRename env o registry dirExisted sqlName (downName version (oName o))
                     (dFiles d !! atlasSum) (dFiles d !! registryFileName) d'
        end
    end.

(** ** Writing a diff migration *)

(** What [atlas migrate diff] leaves: the directory it wrote into, and whether it
    succeeded; then the second hash, after the acknowledgements are recorded. *)
Record DiffEnv := mkDiffEnv {
  dfAfter : Dir -> Dir;
  dfOk : bool;
  dfHash : bool;
  dfHashSum : option bytes;
  dfSave : bool;
  dfLeftRegistry : option bytes;
}.

(** The up migrations that were not there before. *)
Definition newMigrationFiles (before after : Dir) : list bytes :=
  let old := map UpPath (ListMigrationFiles (Some before)) in
  filter (fun p => p ∉ old) (map UpPath (ListMigrationFiles (Some after))).

(** The SQL the gate reads: every new file and a newline after each. *)
Definition writtenSQL (d : Dir) (written : list bytes) : bytes :=
  concat (map (fun f => default [] (dFiles d !! f) ++ newline_b) written).

Definition recordAll (ids : list bytes) (written : list bytes) (d : Dir) : Dir :=
  fold_left (fun d f => match dFiles d !! f with
                        | Some data => putFile f (withAllowDirectives data ids) d
                        | None => d
                        end) written d.

(** [writeAllowDirectives]: a failed hash puts the files and atlas.sum back. *)
Definition writeAllowDirectives (env : DiffEnv) (ids written : list bytes) (d : Dir) : Dir * result migError unit :=
  match ids, written with
  | [], _ | _, [] => (d, Ok tt)
  | _, _ =>
      let d' := recordAll ids written d in
      let d' := match dfHashSum env with Some b => putFile atlasSum b d' | None => d' end in
      if dfHash env then (d', Ok tt)
      else
        (restoreFile atlasSum (dFiles d !! atlasSum)
           (fold_left (fun d'' f => match dFiles d !! f with Some data => putFile f data d'' | None => d'' end) written d'),
         Err HashFailed)
  end.

(** The end of [MakeMigrations], from [atlas migrate diff] on.  [gate] answers for
    the SQL; [None] when the directory had no migration yet. *)
Definition makeDiffMigration (env : DiffEnv) (gate : option (bytes -> result migError (list bytes))) (allModels : list Model)
    (d : Dir) : Dir * result migError unit :=
  let d1 := dfAfter env d in
  if negb (dfOk env) then (d1, Err (OSError (&"atlas migrate diff")))
  else
    let written := newMigrationFiles d d1 in
    let verdict := match gate, written with
                   | Some g, _ :: _ => g (writtenSQL d1 written)
                   | _, _ => Ok []
                   end in
    match verdict with
    | Err e => (restoreFile atlasSum (dFiles d !! atlasSum) (fold_left (fun d f => dropFile f d) written d1), Err e)
    | Ok acknowledged =>
        match writeAllowDirectives env acknowledged written d1 with
        | (d2, Err e) => (d2, Err e)
        | (d2, Ok _) =>
            let d3 := writeFile (dfSave env) (dfLeftRegistry env) registryFileName (registryBytes allModels) d2 in
            (d3, check (dfSave env) (OSError (&"write model registry")))
        end
    end.

End json.
