(* ===== verification/RenameFacts.v ===== *)
(** * Rename migrations: what is written is what is read back

    [renameSQL] writes statements; [DeclaredRenames] reads a migration's
    statements back with regular expressions, and [withStatementFindings] looks
    in them for data loss.  For the renames a run accepts, the first returns
    exactly the renames that were asked for, and the second finds nothing. *)

From stdpp Require Import base tactics numbers list strings gmap sets.
From Stdlib Require Import ZArith Lia Ascii.
From S2P Require Import Prelude GoBytes DotEnv GoText Regex SqlClassify AtlasSchema SchemaClassify SchemaSql SchemaPlan SchemaPlanFacts MigrationDir.

Local Open Scope string_scope.
Local Open Scope list_scope.
Local Open Scope gotext_scope.
Local Open Scope gombit_scope.

(** ** Identifiers *)

(** A loop over a class before the end of the text succeeds on its bytes only. *)
Lemma loop_Eot p k : forall n w prev cs res,
  loop (exec (Cls p)) true (fun c cs => exec Eot k c cs) n (prev, w) cs = Some res -> Forall (fun x => p x = true) w.
Proof.
  induction n as [|n IH]; intros w prev cs res; [by destruct w|]. destruct w as [|x w]; [done|].
  cbn [loop exec snd]. destruct (p x) eqn:Hx; [|done].
  destruct (Nat.ltb _ _); [|done].
  destruct (loop _ _ _ n (Some x, w) cs) as [r|] eqn:E; [|done]. intros _. constructor; [done|].
  eapply IH. exact E.
Qed.

Lemma idStart_word x : idStart x = true -> is_word x = true.
Proof.
  revert x. apply (every_byte (fun x => idStart x = true -> is_word x = true)). vm_compute. reflexivity.
Qed.

(** A valid identifier is a nonempty run of word bytes. *)
Lemma isIdentifier_word b : isIdentifier b = true -> key_ok b.
Proof.
  unfold isIdentifier, MatchString, goIdentifierPattern. cbn [cat]. rewrite search_anchored.
  destruct (exec _ _ _ _) as [m|] eqn:E; [|done]. intros _. revert E.
  rewrite exec_Cat. destruct b as [|x b]; [done|]. cbn [exec snd]. destruct (idStart x) eqn:Hx; [|done].
  intros E%loop_Eot. split; [done|]. constructor; [by apply idStart_word|done].
Qed.

Lemma check_ok b e : check b e = Ok tt -> b = true.
Proof. by destruct b. Qed.

Lemma validateRename_ok r :
  validateRename r = Ok tt -> key_ok (rnTable r) /\ key_ok (OldColumn r) /\ key_ok (NewColumn r).
Proof.
  unfold validateRename.
  destruct (isIdentifier (rnTable r)) eqn:E1; [|done]. destruct (isIdentifier (OldColumn r)) eqn:E2; [|done].
  destruct (isIdentifier (NewColumn r)) eqn:E3; [|done]. auto using isIdentifier_word.
Qed.

Lemma validateTableRename_ok r : validateTableRename r = Ok tt -> key_ok (trOld r) /\ key_ok (trNew r).
Proof.
  unfold validateTableRename.
  destruct (isIdentifier (trOld r)) eqn:E1; [|done]. destruct (isIdentifier (trNew r)) eqn:E2; [|done].
  auto using isIdentifier_word.
Qed.

Definition namesOk (ts : list TableRename) (rs : list Rename) : Prop :=
  Forall (fun t => key_ok (trOld t) /\ key_ok (trNew t)) ts /\
  Forall (fun r => key_ok (rnTable r) /\ key_ok (OldColumn r) /\ key_ok (NewColumn r)) rs.

Lemma validateTables_names l : forall o n res,
  validateTables o n l = Ok res -> Forall (fun t => key_ok (trOld t) /\ key_ok (trNew t)) l.
Proof.
  induction l as [|t l IH]; intros o n res; [constructor|]. cbn [validateTables].
  destruct (validateTableRename t) as [[]|] eqn:E; [|done]. cbn [result_bind].
  destruct (check _ _) as [[]|]; [|done]. cbn [result_bind]. destruct (check _ _) as [[]|]; [|done]. cbn [result_bind].
  intros H%IH. constructor; [by apply validateTableRename_ok|done].
Qed.

Lemma validateColumns_names l o n :
  validateColumns o n l = Ok tt ->
  Forall (fun r => key_ok (rnTable r) /\ key_ok (OldColumn r) /\ key_ok (NewColumn r)) l.
Proof.
  induction l as [|r l IH]; [constructor|]. cbn [validateColumns].
  destruct (validateRename r) as [[]|] eqn:E; [|done]. cbn [result_bind].
  destruct (check _ _) as [[]|]; [|done]. cbn [result_bind]. intros H%IH.
  constructor; [by apply validateRename_ok|done].
Qed.

Lemma validateRenameSet_names ts rs : validateRenameSet ts rs = Ok tt -> namesOk ts rs.
Proof.
  unfold validateRenameSet. destruct (validateTables [] [] ts) as [[o n]|] eqn:E; [|done]. cbn [result_bind fst snd].
  destruct (list_find _ ts) as [[? t]|]; [done|]. intros H. split; [by eapply validateTables_names|by eapply validateColumns_names].
Qed.

(** ** A quoted name in an expression *)

Lemma idquote_facts q : is_idquote q = true ->
  is_word q = false /\ unfolded q = true /\ is_ws q = false /\ Ascii.eqb "." q = false.
Proof.
  revert q. apply (every_byte (fun q => is_idquote q = true ->
    is_word q = false /\ unfolded q = true /\ is_ws q = false /\ Ascii.eqb "." q = false)).
  vm_compute. reflexivity.
Qed.

Lemma word_facts x : is_word x = true ->
  is_idquote x = false /\ is_ws x = false /\ Ascii.eqb "." x = false.
Proof.
  revert x. apply (every_byte (fun x => is_word x = true ->
    is_idquote x = false /\ is_ws x = false /\ Ascii.eqb "." x = false)).
  vm_compute. reflexivity.
Qed.

Definition nameish (x : ascii) : bool := is_word x || is_idquote x.

Lemma idquote_cons k prev x r cs :
  exec idquote k (prev, x :: r) cs =
  orElse (if is_idquote x then k (Some x, r) cs else None) (k (prev, x :: r) cs).
Proof. done. Qed.

(** A name reads a quoted word whole, when what follows cannot start in the middle of it. *)
Lemma name1_quoted k q a prev rest cs :
  is_idquote q = true -> key_ok a -> refuses k nameish ->
  exec name1 k (prev, q :: a ++ q :: rest) cs = k (Some q, rest) cs.
Proof.
  intros Hq [Hne Ha] Hk. destruct (idquote_facts q Hq) as (Hw & Hu & _ & _).
  destruct a as [|x a]; [done|]. inversion Ha as [|? ? Hx Ha']; subst.
  unfold name1. rewrite exec_Cat, idquote_cons, Hq.
  rewrite (exec_Cat (plus ci_word)), ci_word_run; [|done|done|done|simpl; by rewrite Hu|].
  - rewrite idquote_cons, Hq, (Hk _ q) by (unfold nameish; by rewrite Hq, orb_true_r).
    rewrite (exec_Cat (plus ci_word)). unfold plus. rewrite exec_Cat, ci_word_cons, Hw by done. by rewrite !orElse_None_r.
  - intros pr y r cs' Hy. rewrite idquote_cons. destruct (word_facts y Hy) as (-> & _). simpl.
    apply Hk. unfold nameish. by rewrite Hy.
Qed.

Lemma nameish_dot y : nameish y = true -> Ascii.eqb "." y = false.
Proof.
  unfold nameish. intros [Hy|Hy]%orb_true_iff; [by destruct (word_facts y Hy) as (_ & _ & ?)|].
  by destruct (idquote_facts y Hy) as (_ & _ & _ & ?).
Qed.

Lemma nameish_ws y : nameish y = true -> is_ws y = false.
Proof.
  unfold nameish. intros [Hy|Hy]%orb_true_iff; [by destruct (word_facts y Hy) as (_ & ? & _)|].
  by destruct (idquote_facts y Hy) as (_ & _ & ? & _).
Qed.

Lemma dot_refuses k prev rest cs : head_not (Ascii.eqb ".") rest -> exec (Cls (Ascii.eqb ".")) k (prev, rest) cs = None.
Proof. intros H. destruct rest as [|x r]; [done|]. cbn [head_not] in H. cbn [exec snd]. by rewrite H. Qed.

Lemma take_quoted (q : ascii) (a rest : bytes) : take (length (q :: a ++ q :: rest) - length rest) (q :: a ++ q :: rest) = q :: a ++ [q].
Proof.
  replace (q :: a ++ q :: rest) with ((q :: a ++ [q]) ++ rest) by (by rewrite <-app_comm_cons, <-app_assoc).
  rewrite take_app_length'; [done|]. rewrite length_app. lia.
Qed.

(** A name with an optional qualifier, captured. *)
Lemma ident_quoted n k q a prev rest cs :
  is_idquote q = true -> key_ok a -> head_not (Ascii.eqb ".") rest -> refuses k nameish ->
  exec (identRe n) k (prev, q :: a ++ q :: rest) cs = k (Some q, rest) ((n, q :: a ++ [q]) :: cs).
Proof.
  intros Hq Ha Hdot Hk. set (c := (prev, q :: a ++ q :: rest)).
  change (exec (identRe n) k c cs) with
    (exec (Cat (opt (Cat name1 (Cls (Ascii.eqb ".")))) name1)
       (fun c' cs => k c' ((n, take (length c.2 - length c'.2) c.2) :: cs)) c cs).
  rewrite exec_Cat, exec_opt, exec_Cat. subst c. rewrite !name1_quoted; auto.
  - rewrite dot_refuses by done. cbn [orElse snd]. by rewrite take_quoted.
  - intros pr y r cs' Hy. by apply Hk.
  - intros pr y r cs' Hy. rewrite dot_refuses by (by apply nameish_dot). done.
Qed.

(** ** The statements of a rename *)

Definition blank : ascii := " "%char.

Definition stmtTable (q : ascii) (a b : bytes) : bytes :=
  &"ALTER" ++ blank :: &"TABLE" ++ blank :: q :: a ++ q :: blank :: &"RENAME" ++ blank :: &"TO" ++ blank :: q :: b ++ [q].

Definition stmtColumn (q : ascii) (t a b : bytes) : bytes :=
  &"ALTER" ++ blank :: &"TABLE" ++ blank :: q :: t ++ q :: blank :: &"RENAME" ++ blank :: &"COLUMN" ++ blank ::
  q :: a ++ q :: blank :: &"TO" ++ blank :: q :: b ++ [q].

(** Words of an expression are written in word bytes. *)
Ltac wordy := match goal with
  | |- Forall _ (of_string _) => apply (bool_decide_eq_true_1 (Forall _ _)); reflexivity
  end.

Ltac heady := cbn [head_not]; first [exact I | reflexivity | assumption].

(** A word refuses a text that starts with another byte. *)
Definition differs (v rest : bytes) : Prop :=
  match v, rest with
  | c :: _, x :: _ => unfolded x = true /\ Ascii.eqb (lower_byte x) (lower_byte c) = false
  | _ :: _, [] => True
  | [], _ => False
  end.

Lemma ci_differs k v prev rest cs : differs v rest -> exec (ci v) k (prev, rest) cs = None.
Proof.
  destruct v as [|c v], rest as [|x r]; simpl; try done; [intros _; apply ci_nil_text|].
  intros [Hu Hx]. by apply ci_other.
Qed.

(** Follows an expression one atom further. *)
Ltac rx1 := first
  [ rewrite exec_Cat
  | rewrite exec_opt
  | rewrite ws_none by heady
  | rewrite ci_self by wordy
  | rewrite ci_differs by (split; reflexivity)
  | rewrite ws_one by (first [reflexivity | heady])
  | rewrite ident_quoted; [|reflexivity|assumption|heady|
      intros ? ? ? ? ?; repeat rewrite exec_Cat; rewrite ?ws_none, ?ws_plus_none by (by apply nameish_ws); reflexivity]
  | progress cbn [orElse] ].

Ltac rx := repeat rx1.

(** Opens an anchored expression at the start of a statement. *)
Ltac anchored := unfold FindStringSubmatch, MatchString, lead, trail, w, sp; cbn [app cat alt map]; rewrite search_anchored.

Lemma Alt_None a b k c cs : exec a k c cs = None -> exec (Alt a b) k c cs = exec b k c cs.
Proof. intros H. cbn [exec]. by rewrite H. Qed.

Section statement.
Context (q : ascii) (a b t : bytes).
Hypothesis Hq : q = backquote \/ q = dquote.
Hypothesis Ha : key_ok a.
Hypothesis Hb : key_ok b.
Hypothesis Ht : key_ok t.

Lemma find_table_to : exists cs,
  FindStringSubmatch reRenameTableTo (stmtTable q a b) = Some cs /\ group 1 cs = q :: a ++ [q] /\ group 2 cs = q :: b ++ [q].
Proof.
  unfold reRenameTableTo, stmtTable. anchored. destruct Hq as [-> | ->]; rx; eexists; repeat split; reflexivity.
Qed.

Lemma find_table_not_column : FindStringSubmatch reRenameColumn (stmtTable q a b) = None.
Proof. unfold reRenameColumn, stmtTable. anchored. destruct Hq as [-> | ->]; rx; reflexivity. Qed.

Lemma find_column : exists cs,
  FindStringSubmatch reRenameColumn (stmtColumn q t a b) = Some cs /\
  group 1 cs = q :: t ++ [q] /\ group 2 cs = q :: a ++ [q] /\ group 3 cs = q :: b ++ [q].
Proof.
  unfold reRenameColumn, stmtColumn. anchored. destruct Hq as [-> | ->]; rx; eexists; repeat split; reflexivity.
Qed.

(** Neither statement is an insert. *)
Lemma alter_no_insert rest :
  upsertTable (&"ALTER" ++ rest) = None /\ FindStringSubmatch reRebuildCopy (&"ALTER" ++ rest) = None.
Proof.
  split.
  - unfold upsertTable. cbn [firstSome]. unfold reInsertOrReplace, reUpsertClause. anchored. rx.
    rewrite search_anchored. rx. reflexivity.
  - unfold reRebuildCopy. anchored. rx. reflexivity.
Qed.
(** What follows the table's name. *)
Definition bodyTable : bytes := &"RENAME" ++ blank :: &"TO" ++ blank :: q :: b ++ [q].
Definition bodyColumn : bytes :=
  &"RENAME" ++ blank :: &"COLUMN" ++ blank :: q :: a ++ q :: blank :: &"TO" ++ blank :: q :: b ++ [q].

(** The body of an ALTER TABLE is all of it. *)
Lemma find_body body :
  head_not is_ws body ->
  exists cs, FindStringSubmatch reAlterTableBody (&"ALTER" ++ blank :: &"TABLE" ++ blank :: q :: t ++ q :: blank :: body) = Some cs /\
    group 1 cs = q :: t ++ [q] /\ group 2 cs = body.
Proof.
  intros Hbody. unfold reAlterTableBody. anchored. destruct Hq as [-> | ->]; rx.
  all: match goal with |- context [exec (Cap 2 (star any)) ?k ?c ?l] =>
    change (exec (Cap 2 (star any)) k c l) with
      (loop (exec any) true (fun c' cs => k c' ((2, take (length c.2 - length c'.2) c.2) :: cs)) (length c.2) c l) end.
  all: cbn [snd]; rewrite any_run by (first [lia | reflexivity]); cbn [exec snd length]; rewrite !Nat.sub_0_r, !firstn_all.
  all: eexists; repeat split; reflexivity.
Qed.

(** A rename is neither a drop nor a change of a column. *)
Lemma rename_is_other rest : classifyAction (&"RENAME" ++ rest) = actionOther.
Proof.
  unfold classifyAction, reActionKeyword, reActionDrop, reActionAlter, reActionDropAny, reActionAlterMeta.
  anchored. rx. rewrite search_anchored. rx. rewrite search_anchored. rewrite exec_Cat.
  rewrite Alt_None by (rx; reflexivity). rewrite Alt_None by (rx; reflexivity). rx.
  rewrite search_anchored. rx. reflexivity.
Qed.

(** A quoted word passes through the splitting of actions. *)
Lemma split_quoted depth item v rest :
  key_ok v -> split_actions depth (Some q) item (v ++ q :: rest) = split_actions depth None (q :: rev v ++ item) rest.
Proof.
  intros [_ Hv]. revert item. induction v as [|x v IH]; intros item.
  - cbn [app split_actions]. by rewrite Ascii.eqb_refl.
  - inversion Hv as [|? ? Hx Hv']; subst. cbn [app split_actions rev].
    assert (Ascii.eqb x q = false) as ->.
    { apply Ascii.eqb_neq. intros ->. destruct (word_facts q Hx) as (Hi & _). destruct Hq as [-> | ->]; done. }
    rewrite IH by done. by rewrite <-app_assoc.
Qed.
Lemma trim_ends v : TrimSpace ("R"%char :: v ++ [q]) = "R"%char :: v ++ [q].
Proof.
  apply TrimSpace_id; destruct Hq as [-> | ->]; apply (bool_decide_eq_true_1 (_ ∉ _)); vm_compute; reflexivity.
Qed.

Lemma open_quote depth item v :
  split_actions depth None item (q :: v) = split_actions depth (Some q) (q :: item) v.
Proof. destruct Hq as [-> | ->]; reflexivity. Qed.

Lemma split_body_table : splitActions bodyTable = [bodyTable].
Proof.
  unfold splitActions, bodyTable. cbn [of_string app].
  change (&"RENAME" ++ blank :: &"TO" ++ blank :: q :: b ++ [q]) with
    ("R"%char :: (&"ENAME TO " ++ q :: b) ++ [q]).
  change ("R"%char :: (&"ENAME TO " ++ q :: b) ++ [q]) with (&"RENAME TO " ++ q :: b ++ [q]) at 1.
  transitivity (split_actions 0 None (rev (&"RENAME TO ")) (q :: b ++ [q])); [reflexivity|].
  rewrite open_quote, split_quoted by done. cbn [split_actions].
  replace (rev (q :: rev b ++ q :: rev (&"RENAME TO "))) with ("R"%char :: (&"ENAME TO " ++ q :: b) ++ [q]).
  - by rewrite trim_ends.
  - cbn [rev]. rewrite rev_app_distr, rev_involutive. cbn [rev]. rewrite rev_involutive, <-!app_assoc. reflexivity.
Qed.

Lemma split_body_column : splitActions bodyColumn = [bodyColumn].
Proof.
  unfold splitActions.
  transitivity (split_actions 0 None (rev (&"RENAME COLUMN ")) (q :: a ++ q :: &" TO " ++ q :: b ++ [q])); [reflexivity|].
  rewrite open_quote, split_quoted by done.
  transitivity (split_actions 0 None (rev (&" TO ") ++ q :: rev a ++ q :: rev (&"RENAME COLUMN ")) (q :: b ++ [q]));
    [reflexivity|].
  rewrite open_quote, split_quoted by done. cbn [split_actions].
  replace (rev (q :: rev b ++ q :: rev (&" TO ") ++ q :: rev a ++ q :: rev (&"RENAME COLUMN ")))
    with ("R"%char :: (&"ENAME COLUMN " ++ q :: a ++ q :: &" TO " ++ q :: b) ++ [q]).
  - rewrite trim_ends. unfold bodyColumn. simpl. by repeat (rewrite <-?app_assoc; simpl).
  - cbn [rev]. rewrite !rev_app_distr. cbn [rev]. rewrite !rev_app_distr. cbn [rev]. rewrite !rev_app_distr, !rev_involutive.
    simpl. by repeat (rewrite <-?app_assoc; simpl).
Qed.
End statement.

(** ** Reading a statement back *)

Lemma LastIndexByte_none c v : c ∉ v -> LastIndexByte v c = None.
Proof.
  induction v as [|x v IH]; intros Hv; [done|]. apply not_elem_of_cons in Hv as [Hx Hv]. cbn [LastIndexByte].
  rewrite IH by done. destruct (Ascii.eqb_spec x c); congruence.
Qed.

Lemma key_not c v : is_word c = false -> key_ok v -> c ∉ v.
Proof. intros Hc. apply key_no. intros d Hd ->. unfold is_word in Hc. congruence. Qed.

Lemma strip_quote_other x v : is_idquote x = false -> strip_any (map (fun c => [c]) [backquote; dquote]) (x :: v) = None.
Proof.
  unfold is_idquote. rewrite orb_false_iff. intros [H1 H2]. cbn [map strip_any strip_prefix].
  by rewrite Ascii.eqb_sym, H1, Ascii.eqb_sym, H2.
Qed.

Lemma unquote_quoted_name q v : q = backquote \/ q = dquote -> key_ok v -> unquote (q :: v ++ [q]) = v.
Proof.
  intros Hq Hv. unfold unquote. rewrite LastIndexByte_none.
  2: { rewrite not_elem_of_cons, not_elem_of_app, not_elem_of_cons.
       pose proof (key_not "."%char v eq_refl Hv). destruct Hq as [-> | ->]; repeat split; try done; apply not_elem_of_nil. }
  unfold Trim. set (seqs := map _ _). destruct Hv as [Hne Hv].
  assert (trim_left seqs (q :: v ++ [q]) = v ++ [q]) as ->.
  { unfold trim_left. cbn [length trim_fuel].
    assert (strip_any seqs (q :: v ++ [q]) = Some (v ++ [q])) as -> by (destruct Hq as [-> | ->]; reflexivity).
    destruct v as [|x v]; [done|]. inversion Hv; subst. apply trim_fuel_None, strip_quote_other. by apply word_facts. }
  unfold trim_right. rewrite rev_app_distr. cbn [rev app].
  assert (trim_left (map (@rev ascii) seqs) (q :: rev v) = rev v) as ->; [|apply rev_involutive].
  unfold trim_left. cbn [length trim_fuel].
  assert (strip_any (map (@rev ascii) seqs) (q :: rev v) = Some (rev v)) as -> by (destruct Hq as [-> | ->]; reflexivity).
  apply trim_fuel_None. destruct (rev v) as [|x r] eqn:E; [reflexivity|].
  apply (strip_quote_other x r). apply word_facts. rewrite Forall_forall in Hv. apply Hv.
  apply list_elem_of_In, in_rev. rewrite E. left. done.
Qed.

Section renames.
Context (q : ascii).
Hypothesis Hq : q = backquote \/ q = dquote.

Lemma renameOf_table a b : key_ok a -> key_ok b -> renameOf (stmtTable q a b) = Some (mkRename a [] b).
Proof.
  intros Ha Hb. unfold renameOf. rewrite find_table_not_column by done.
  destruct (find_table_to q a b Hq Ha Hb) as (cs & -> & -> & ->). by rewrite !unquote_quoted_name.
Qed.

Lemma renameOf_column t a b :
  key_ok t -> key_ok a -> key_ok b -> renameOf (stmtColumn q t a b) = Some (mkRename t a b).
Proof.
  intros Ht Ha Hb. unfold renameOf. destruct (find_column q a b t Hq Ha Hb Ht) as (cs & -> & -> & -> & ->).
  by rewrite !unquote_quoted_name.
Qed.

(** Neither statement adds a finding. *)
Lemma finding_alter h steps desired stmts st i t body :
  key_ok t -> head_not is_ws body -> splitActions body = [body] -> classifyAction body = actionOther ->
  statementFinding h steps desired stmts st (i, &"ALTER" ++ blank :: &"TABLE" ++ blank :: q :: t ++ q :: blank :: body) = st.
Proof.
  intros Ht Hhd Hsp Hcl. unfold statementFinding, noteCopy, rebuildCopySource.
  destruct (alter_no_insert (blank :: &"TABLE" ++ blank :: q :: t ++ q :: blank :: body)) as [-> ->].
  destruct (find_body q t Hq Ht body Hhd) as (cs & -> & _ & ->). rewrite Hsp. cbn [fold_left].
  unfold actionFinding. by rewrite Hcl.
Qed.

Lemma finding_table h steps desired stmts st i a b :
  key_ok a -> key_ok b -> statementFinding h steps desired stmts st (i, stmtTable q a b) = st.
Proof.
  intros Ha Hb. apply (finding_alter h steps desired stmts st i a (bodyTable q b)); try done.
  - by apply split_body_table.
  - apply rename_is_other.
Qed.

Lemma finding_column h steps desired stmts st i t a b :
  key_ok t -> key_ok a -> key_ok b -> statementFinding h steps desired stmts st (i, stmtColumn q t a b) = st.
Proof.
  intros Ht Ha Hb. apply (finding_alter h steps desired stmts st i t (bodyColumn q a b)); try done.
  - by apply split_body_column.
  - apply rename_is_other.
Qed.
End renames.

(** ** The statements of the file *)

Lemma Index_none c d v : c ∉ v -> Index v (c :: d) = None.
Proof.
  induction v as [|x v IH]; intros Hv; [done|]. apply not_elem_of_cons in Hv as [Hx Hv].
  cbn [Index]. assert (HasPrefix (x :: v) (c :: d) = false) as ->.
  { unfold HasPrefix. cbn [strip_prefix]. destruct (Ascii.eqb_spec c x); [congruence|done]. }
  by rewrite IH.
Qed.

(** A statement of one line with no dash and no semicolon in it, trimmed as it is. *)
Definition plainStmt (s : bytes) : Prop :=
  ("-"%char ∉ s) /\ (semicolon ∉ s) /\ (newline ∉ s) /\ TrimSpace s = s /\ s <> [].

(** A comment line, a statement, and the rest. *)
Lemma Statements_block comment stmt rest :
  (newline ∉ comment) -> Index comment (&"--") = Some O -> plainStmt stmt ->
  Statements (comment ++ newline_b ++ (stmt ++ [semicolon]) ++ newline_b ++ rest) = stmt :: Statements rest.
Proof.
  intros Hc Hi (Hd & Hs & Hn & Ht & Hne). rewrite Statements_comment by done.
  unfold Statements, splitStatements.
  assert (stripComments ((stmt ++ [semicolon]) ++ newline_b ++ rest) = stmt ++ semicolon :: newline :: stripComments rest) as ->.
  { unfold stripComments. cbn [newline_b app]. rewrite SplitByte_app.
    - cbn [map concat]. unfold stripLineComment at 1.
      change (&"--") with ("-"%char :: &"-"). rewrite Index_none by (rewrite not_elem_of_app; split; [done|]; by apply not_elem_of_cons; split; [|apply not_elem_of_nil]).
      by rewrite <-!app_assoc.
    - rewrite not_elem_of_app. split; [done|]. apply not_elem_of_cons. split; [done|apply not_elem_of_nil]. }
  rewrite SplitByte_app by done. cbn [map]. rewrite Ht, pieces_lead_newline.
  rewrite filter_cons_True; [done|]. by destruct stmt.
Qed.

Lemma Statements_lead_newline rest : Statements (newline_b ++ rest) = Statements rest.
Proof.
  unfold Statements, splitStatements. f_equal.
  change (stripComments (newline_b ++ rest)) with (newline :: stripComments rest). apply pieces_lead_newline.
Qed.

Definition blockSQL (cs : bytes * bytes) : bytes := cs.1 ++ newline_b ++ (cs.2 ++ [semicolon]) ++ newline_b.

(** Blocks with blank lines between them. *)
Lemma Statements_blocks (l : list (bytes * bytes)) :
  Forall (fun cs => (newline ∉ cs.1) /\ Index cs.1 (&"--") = Some O /\ plainStmt cs.2) l ->
  Statements (Join (map blockSQL l) newline_b) = map snd l.
Proof.
  induction l as [|[c s] l IH]; intros Hl; [done|]. inversion Hl as [|? ? (Hc & Hi & Hs) Hl']; subst. cbn [fst snd] in *.
  cbn [map fst snd]. rewrite <-(IH Hl'). destruct l as [|x l].
  - cbn [map Join]. rewrite <-(Statements_block c s []) by done. done.
  - cbn [map]. set (rest := map _ _). cbn [Join].
    match goal with |- context [_ :: Statements ?J] => generalize J end. intros J. unfold blockSQL. cbn [fst snd].
    rewrite <-(Statements_lead_newline J), <-(Statements_block c s (newline_b ++ J)) by done. f_equal. by rewrite <-!app_assoc.
Qed.

Definition quoteOf (driver : DatabaseDriver) : ascii := if driver_is driver DatabaseDriverPostgres then dquote else backquote.

Lemma quoteOf_cases driver : quoteOf driver = backquote \/ quoteOf driver = dquote.
Proof. unfold quoteOf. destruct (driver_is _ _); auto. Qed.

Definition blocks (driver : DatabaseDriver) (ts : list TableRename) (rs : list Rename) : list (bytes * bytes) :=
  map (fun t => (tableComment t, stmtTable (quoteOf driver) (trOld t) (trNew t))) ts ++
  map (fun r => (columnComment r, stmtColumn (quoteOf driver) (rnTable r) (OldColumn r) (NewColumn r))) rs.

Lemma sprintf_table (q : ascii) (a b : bytes) :
  Sprintf "ALTER TABLE %s RENAME TO %s;" [q :: a ++ [q]; q :: b ++ [q]] = stmtTable q a b ++ [semicolon].
Proof. unfold stmtTable. cbn. by repeat (rewrite <-?app_assoc; cbn). Qed.

Lemma sprintf_column (q : ascii) (t a b : bytes) :
  Sprintf "ALTER TABLE %s RENAME COLUMN %s TO %s;" [q :: t ++ [q]; q :: a ++ [q]; q :: b ++ [q]] =
  stmtColumn q t a b ++ [semicolon].
Proof. unfold stmtColumn. cbn. by repeat (rewrite <-?app_assoc; cbn). Qed.

Lemma quoteRenameIdent_eq driver id : quoteRenameIdent driver id = quoteOf driver :: id ++ [quoteOf driver].
Proof. done. Qed.

Lemma renameTableStmt_eq driver a b : renameTableStmt driver a b = stmtTable (quoteOf driver) a b ++ [semicolon].
Proof.
  unfold renameTableStmt. rewrite (quoteRenameIdent_eq driver a), (quoteRenameIdent_eq driver b).
  exact (sprintf_table (quoteOf driver) a b).
Qed.

Lemma renameColumnStmt_eq driver t a b :
  renameColumnStmt driver t a b = stmtColumn (quoteOf driver) t a b ++ [semicolon].
Proof.
  unfold renameColumnStmt.
  rewrite (quoteRenameIdent_eq driver t), (quoteRenameIdent_eq driver a), (quoteRenameIdent_eq driver b).
  exact (sprintf_column (quoteOf driver) t a b).
Qed.

Lemma blockSQL_pair c s : blockSQL (c, s) = c ++ newline_b ++ (s ++ [semicolon]) ++ newline_b.
Proof. done. Qed.

Lemma tableRenameSQL_block driver t :
  tableRenameSQL driver t = blockSQL (tableComment t, stmtTable (quoteOf driver) (trOld t) (trNew t)).
Proof. unfold tableRenameSQL. rewrite renameTableStmt_eq, blockSQL_pair. reflexivity. Qed.

Lemma columnRenameSQL_block driver r :
  columnRenameSQL driver r =
  blockSQL (columnComment r, stmtColumn (quoteOf driver) (rnTable r) (OldColumn r) (NewColumn r)).
Proof. unfold columnRenameSQL. rewrite renameColumnStmt_eq, blockSQL_pair. reflexivity. Qed.

Lemma renameSQL_blocks driver ts rs : renameSQL driver ts rs = Join (map blockSQL (blocks driver ts rs)) newline_b.
Proof.
  unfold renameSQL, blocks. f_equal. rewrite map_app, !map_map. f_equal; apply map_ext; intros x.
  - apply tableRenameSQL_block.
  - apply columnRenameSQL_block.
Qed.

(** ** The comments and the statements *)

Lemma sprintf_comment2 (a b : bytes) :
  Sprintf "-- Rename table %q to %q" [a; b] = &"-- Rename table " ++ a ++ &" to " ++ b ++ [].
Proof. reflexivity. Qed.

Lemma sprintf_comment3 (a b c : bytes) :
  Sprintf "-- Rename column %q to %q on table %q" [a; b; c] =
  &"-- Rename column " ++ a ++ &" to " ++ b ++ &" on table " ++ c ++ [].
Proof. reflexivity. Qed.

Lemma no_newline_quoted a : key_ok a -> newline ∉ quoted a.
Proof.
  intros Ha. unfold quoted, dquote_b. rewrite !not_elem_of_app.
  split; [|split; [by apply key_not|]]; apply (bool_decide_eq_true_1 (_ ∉ _)); vm_compute; reflexivity.
Qed.

Ltac no_byte := repeat first
  [ assumption
  | apply not_elem_of_nil
  | rewrite not_elem_of_app; split
  | rewrite not_elem_of_cons; split; [done|]
  | by apply no_newline_quoted
  | apply (bool_decide_eq_true_1 (_ ∉ _)); vm_compute; reflexivity ].

Lemma tableComment_ok t :
  key_ok (trOld t) -> key_ok (trNew t) -> (newline ∉ tableComment t) /\ Index (tableComment t) (&"--") = Some O.
Proof.
  intros H1 H2. unfold tableComment. rewrite sprintf_comment2. split; [no_byte|].
  generalize (quoted (trOld t) ++ &" to " ++ quoted (trNew t) ++ []). reflexivity.
Qed.

Lemma columnComment_ok r :
  key_ok (rnTable r) -> key_ok (OldColumn r) -> key_ok (NewColumn r) ->
  (newline ∉ columnComment r) /\ Index (columnComment r) (&"--") = Some O.
Proof.
  intros H1 H2 H3. unfold columnComment. rewrite sprintf_comment3. split; [no_byte|].
  generalize (quoted (OldColumn r) ++ &" to " ++ quoted (NewColumn r) ++ &" on table " ++ quoted (rnTable r) ++ []). reflexivity.
Qed.

Section plain.
Context (q : ascii).
Hypothesis Hq : q = backquote \/ q = dquote.

Lemma stmt_trim v : TrimSpace ("A"%char :: v ++ [q]) = "A"%char :: v ++ [q].
Proof.
  apply TrimSpace_id; destruct Hq as [-> | ->]; apply (bool_decide_eq_true_1 (_ ∉ _)); vm_compute; reflexivity.
Qed.

Lemma stmtTable_ends a b :
  stmtTable q a b =
  "A"%char :: (&"LTER" ++ blank :: &"TABLE" ++ blank :: q :: a ++ q :: blank :: &"RENAME" ++ blank :: &"TO" ++ blank :: q :: b) ++ [q].
Proof. unfold stmtTable. simpl. by repeat (rewrite <-?app_assoc; simpl). Qed.

Lemma stmtColumn_ends t a b :
  stmtColumn q t a b =
  "A"%char :: (&"LTER" ++ blank :: &"TABLE" ++ blank :: q :: t ++ q :: blank :: &"RENAME" ++ blank :: &"COLUMN" ++ blank ::
               q :: a ++ q :: blank :: &"TO" ++ blank :: q :: b) ++ [q].
Proof. unfold stmtColumn. simpl. by repeat (rewrite <-?app_assoc; simpl). Qed.

(** The bytes that split statements are in no word, no quote and no name. *)
Definition splitting (c : ascii) : Prop := c = "-"%char \/ c = semicolon \/ c = newline.

Ltac no_split := repeat first
  [ assumption
  | apply not_elem_of_nil
  | rewrite not_elem_of_app; split
  | rewrite not_elem_of_cons; split; [by vm_compute|]
  | apply (bool_decide_eq_true_1 (_ ∉ _)); vm_compute; reflexivity
  | apply key_not; [reflexivity|assumption] ].

Lemma no_split_table c a b : splitting c -> key_ok a -> key_ok b -> c ∉ stmtTable q a b.
Proof. intros Hc Ha Hb. unfold stmtTable. destruct Hq as [-> | ->], Hc as [-> | [-> | ->]]; no_split. Qed.

Lemma no_split_column c t a b : splitting c -> key_ok t -> key_ok a -> key_ok b -> c ∉ stmtColumn q t a b.
Proof. intros Hc Ht Ha Hb. unfold stmtColumn. destruct Hq as [-> | ->], Hc as [-> | [-> | ->]]; no_split. Qed.

Lemma plain_table a b : key_ok a -> key_ok b -> plainStmt (stmtTable q a b).
Proof.
  intros Ha Hb. repeat split; try (apply no_split_table; unfold splitting; auto); [|done].
  rewrite (stmtTable_ends a b). apply stmt_trim.
Qed.

Lemma plain_column t a b : key_ok t -> key_ok a -> key_ok b -> plainStmt (stmtColumn q t a b).
Proof.
  intros Ht Ha Hb. repeat split; try (apply no_split_column; unfold splitting; auto); [|done].
  rewrite (stmtColumn_ends t a b). apply stmt_trim.
Qed.
End plain.

(** The statements of a rename migration are the ones it was written from. *)
Lemma Statements_renameSQL driver ts rs :
  namesOk ts rs -> Statements (renameSQL driver ts rs) = map snd (blocks driver ts rs).
Proof.
  intros [Hts Hrs]. rewrite renameSQL_blocks. apply Statements_blocks. unfold blocks. rewrite Forall_app. split.
  - apply Forall_map. eapply Forall_impl; [exact Hts|]. intros t [H1 H2]. cbn [fst snd compose].
    destruct (tableComment_ok t H1 H2). split; [done|]. split; [done|]. apply plain_table; auto using quoteOf_cases.
  - apply Forall_map. eapply Forall_impl; [exact Hrs|]. intros r (H1 & H2 & H3). cbn [fst snd compose].
    destruct (columnComment_ok r H1 H2 H3). split; [done|]. split; [done|]. apply plain_column; auto using quoteOf_cases.
Qed.

Lemma omap_map_some {A B C} (g : A -> B) (f : B -> option C) (h : A -> C) l :
  Forall (fun x => f (g x) = Some (h x)) l -> omap f (map g l) = map h l.
Proof. induction 1 as [|x l Hx Hl IH]; [done|]. cbn [map omap list_omap]. rewrite Hx. by f_equal. Qed.

(** ** Theorems *)

Lemma declared_up driver ts rs :
  namesOk ts rs ->
  DeclaredRenames (renameSQL driver ts rs) =
  map (fun t => mkRename (trOld t) [] (trNew t)) ts ++ map (fun r => mkRename (rnTable r) (OldColumn r) (NewColumn r)) rs.
Proof.
  intros H. unfold DeclaredRenames. rewrite Statements_renameSQL by done.
  destruct H as [Hts Hrs]. unfold blocks. rewrite map_app, omap_app, !map_map. cbn [snd]. f_equal; apply omap_map_some.
  - eapply Forall_impl; [exact Hts|]. intros t [H1 H2]. apply renameOf_table; auto using quoteOf_cases.
  - eapply Forall_impl; [exact Hrs|]. intros r (H1 & H2 & H3). apply renameOf_column; auto using quoteOf_cases.
Qed.

(** Reading a rename migration back declares exactly the renames it was asked for, tables
    first and in order: the statements renameSQL writes, parsed again by DeclaredRenames,
    give every accepted rename its old and new name, for every driver's quoting. *)
Theorem rename_sql_declares driver ts rs :
  validateRenameSet ts rs = Ok tt ->
  DeclaredRenames (renameSQL driver ts rs) =
  map (fun t => mkRename (trOld t) [] (trNew t)) ts ++ map (fun r => mkRename (rnTable r) (OldColumn r) (NewColumn r)) rs.
Proof. intros H%validateRenameSet_names. by apply declared_up. Qed.

Lemma fold_left_same {A B} (f : A -> B -> A) l a : Forall (fun x => f a x = a) l -> fold_left f l a = a.
Proof. induction 1 as [|x l Hx Hl IH]; [done|]. cbn [fold_left]. by rewrite Hx. Qed.

(** A rename migration adds no finding to a plan: the scan of its statements for data loss
    leaves the steps of the diff as they are, whatever the schema and the steps. *)
Theorem rename_sql_no_findings h desired steps driver ts rs :
  validateRenameSet ts rs = Ok tt -> withStatementFindings h steps (renameSQL driver ts rs) desired = steps.
Proof.
  intros H%validateRenameSet_names. unfold withStatementFindings. rewrite Statements_renameSQL by done.
  set (stmts := map snd (blocks driver ts rs)).
  assert (forall st i stmt, stmt ∈ stmts -> statementFinding h steps desired stmts st (i, stmt) = st) as Hf.
  { intros st i stmt Hin. subst stmts. apply list_elem_of_fmap in Hin as ([c s] & -> & Hin). cbn [snd].
    destruct H as [Hts Hrs]. rewrite Forall_forall in Hts. rewrite Forall_forall in Hrs. unfold blocks in Hin.
    apply elem_of_app in Hin as [Hin|Hin]; apply list_elem_of_fmap in Hin as (x & [= -> ->] & Hx).
    - apply finding_table; auto using quoteOf_cases; by apply Hts.
    - apply finding_column; auto using quoteOf_cases; by apply Hrs. }
  unfold scanStatements. rewrite fold_left_same.
  - cbn [droppedTables found]. rewrite app_nil_r. clear. induction steps as [|s l IH]; [done|].
    rewrite filter_cons_True; [by rewrite IH|]. unfold keptStep. cbn. by rewrite andb_false_r.
  - apply Forall_forall. intros [i stmt] Hin. apply Hf. by apply elem_of_zip_r in Hin.
Qed.

(** ** The down migration *)

(** A statement on a line of its own. *)
Lemma Statements_line stmt rest :
  plainStmt stmt -> Statements ((stmt ++ [semicolon]) ++ newline_b ++ rest) = stmt :: Statements rest.
Proof.
  intros Hs. rewrite <-(Statements_block (&"--") stmt rest); [|apply (bool_decide_eq_true_1 (_ ∉ _)); vm_compute; reflexivity|reflexivity|done].
  rewrite (Statements_comment (&"--")); [done|apply (bool_decide_eq_true_1 (_ ∉ _)); vm_compute; reflexivity|reflexivity].
Qed.

Lemma Statements_lines stmts tail :
  Forall plainStmt stmts ->
  Statements (concat (map (fun s => (s ++ [semicolon]) ++ newline_b) stmts) ++ tail) = stmts ++ Statements tail.
Proof.
  induction 1 as [|s l Hs Hl IH]; [done|]. cbn [map concat app]. rewrite <-IH, <-Statements_line by done.
  f_equal. by rewrite <-!app_assoc.
Qed.

Definition downStmts (driver : DatabaseDriver) (ts : list TableRename) (rs : list Rename) : list bytes :=
  map (fun r => stmtColumn (quoteOf driver) (rnTable r) (NewColumn r) (OldColumn r)) (rev rs) ++
  map (fun t => stmtTable (quoteOf driver) (trNew t) (trOld t)) (rev ts).

Lemma renameDownSQL_lines driver ts rs :
  renameDownSQL driver ts rs =
  concat (map (fun s => (s ++ [semicolon]) ++ newline_b) (downStmts driver ts rs)) ++ [].
Proof.
  unfold renameDownSQL, downStmts. rewrite app_nil_r, map_app, concat_app, !map_map.
  f_equal; f_equal; apply map_ext; intros x.
  - by rewrite renameColumnStmt_eq.
  - by rewrite renameTableStmt_eq.
Qed.

Lemma namesOk_rev ts rs : namesOk ts rs -> namesOk (rev ts) (rev rs).
Proof. intros [H1 H2]. split; by apply Forall_rev. Qed.

Lemma declared_down driver ts rs :
  namesOk ts rs ->
  DeclaredRenames (renameDownSQL driver ts rs) =
  map (fun r => mkRename (rnTable r) (NewColumn r) (OldColumn r)) (rev rs) ++
  map (fun t => mkRename (trNew t) [] (trOld t)) (rev ts).
Proof.
  intros [Hts Hrs]%namesOk_rev. unfold DeclaredRenames. rewrite renameDownSQL_lines, Statements_lines.
  - change (Statements []) with (@nil bytes). rewrite app_nil_r. unfold downStmts. rewrite omap_app.
    f_equal; apply omap_map_some.
    + eapply Forall_impl; [exact Hrs|]. intros r (H1 & H2 & H3). apply renameOf_column; auto using quoteOf_cases.
    + eapply Forall_impl; [exact Hts|]. intros t [H1 H2]. apply renameOf_table; auto using quoteOf_cases.
  - unfold downStmts. apply Forall_app. split; apply Forall_map; (eapply Forall_impl; [eassumption|]); cbn.
    + intros r (H1 & H2 & H3). apply plain_column; auto using quoteOf_cases.
    + intros t [H1 H2]. apply plain_table; auto using quoteOf_cases.
Qed.

(** ** What the statements do *)

(** The tables of a database and the columns of each.  A native rename fails when
    its source is missing or its target is taken, and touches nothing else. *)
Definition renameColumnIn (old new : bytes) (cols : list bytes) : option (list bytes) :=
  if bool_decide (old ∈ cols) && negb (bool_decide (new ∈ cols))
  then Some (map (fun c => if bool_decide (c = old) then new else c) cols) else None.

Definition runRename (db : gmap bytes (list bytes)) (r : DeclaredRename) : option (gmap bytes (list bytes)) :=
  match db !! rTable r with
  | None => None
  | Some cols =>
      match rColumn r with
      | [] => match db !! rTo r with
              | Some _ => None
              | None => Some (<[rTo r := cols]> (delete (rTable r) db))
              end
      | old => cols' ← renameColumnIn old (rTo r) cols; Some (<[rTable r := cols']> db)
      end
  end.

Fixpoint runRenames (db : gmap bytes (list bytes)) (l : list DeclaredRename) : option (gmap bytes (list bytes)) :=
  match l with [] => Some db | r :: l => db' ← runRename db r; runRenames db' l end.

Lemma runRenames_app db l1 l2 : runRenames db (l1 ++ l2) = db' ← runRenames db l1; runRenames db' l2.
Proof. revert db. induction l1 as [|r l1 IH]; intros db; [done|]. cbn. destruct (runRename db r); cbn; [apply IH|done]. Qed.

(** The rename the other way round. *)
Definition inverse (r : DeclaredRename) : DeclaredRename :=
  match rColumn r with
  | [] => mkRename (rTo r) [] (rTable r)
  | old => mkRename (rTable r) (rTo r) old
  end.

Lemma renameColumnIn_back old new cols cols' :
  renameColumnIn old new cols = Some cols' -> renameColumnIn new old cols' = Some cols.
Proof.
  unfold renameColumnIn. do 2 case_bool_decide; try done. intros [= <-].
  assert (new <> old) as Hno by congruence.
  rewrite bool_decide_true, bool_decide_false; cbn.
  - f_equal. rewrite map_map. rewrite <-(map_id cols) at 2. apply map_ext_in. intros c Hc%list_elem_of_In.
    repeat case_bool_decide; congruence.
  - intros (c & Hc & Hin)%list_elem_of_fmap. case_bool_decide; congruence.
  - apply list_elem_of_fmap. exists old. by rewrite bool_decide_true.
Qed.

Lemma runRename_back db db' r :
  rTo r <> [] -> runRename db r = Some db' -> runRename db' (inverse r) = Some db.
Proof.
  intros Hto. unfold runRename, inverse. destruct (db !! rTable r) as [cols|] eqn:Ht; [|done].
  destruct (rColumn r) as [|c0 c] eqn:Ec.
  - destruct (db !! rTo r) eqn:Hn; [done|]. intros [= <-]. cbn [rTable rColumn rTo].
    assert (rTo r <> rTable r) by congruence.
    rewrite lookup_insert_eq, lookup_insert_ne, lookup_delete_eq by done. f_equal.
    rewrite delete_insert_id by (by rewrite lookup_delete_ne). by rewrite insert_delete_id.
  - destruct (renameColumnIn _ _ cols) as [cols'|] eqn:Er; [|done]. cbn. intros [= <-]. cbn [rTable rColumn rTo].
    rewrite lookup_insert_eq. destruct (rTo r) as [|n0 n] eqn:En; [done|]. rewrite (renameColumnIn_back _ _ _ _ Er). cbn.
    f_equal. by rewrite insert_insert_eq, insert_id.
Qed.

Lemma runRenames_back l : forall db db',
  Forall (fun r => rTo r <> []) l -> runRenames db l = Some db' -> runRenames db' (rev (map inverse l)) = Some db.
Proof.
  induction l as [|r l IH]; intros db db' Hl; [by intros [= ->]|]. inversion Hl; subst. cbn [runRenames map rev].
  destruct (runRename db r) as [db1|] eqn:E; [|done]. cbn. intros H%IH; [|done].
  rewrite runRenames_app, H. cbn. by rewrite (runRename_back db db1 r).
Qed.

(** Rolling back a rename migration undoes it: when the up statements run on a database,
    each failing if its source is missing or its target is taken, running the down
    statements on the result gives the tables and columns back, whatever else is in the
    database. *)
Theorem rename_down_undoes_up (driver : DatabaseDriver) (ts : list TableRename) (rs : list Rename) (db db' : gmap bytes (list bytes)) :
  validateRenameSet ts rs = Ok tt ->
  runRenames db (DeclaredRenames (renameSQL driver ts rs)) = Some db' ->
  runRenames db' (DeclaredRenames (renameDownSQL driver ts rs)) = Some db.
Proof.
  intros Hv. pose proof (validateRenameSet_names _ _ Hv) as H. rewrite declared_up, declared_down by done.
  intros Hrun%runRenames_back.
  - rewrite <-Hrun. f_equal. rewrite map_app, rev_app_distr, !map_map, <-!map_rev. f_equal.
    + apply map_ext_in. intros r Hr. unfold inverse. cbn. destruct H as [_ H]. apply in_rev, list_elem_of_In in Hr.
      rewrite Forall_forall in H. destruct (H r Hr) as (_ & [Hne _] & _). by destruct (OldColumn r).
  - destruct H as [Hts Hrs]. apply Forall_app. split; apply Forall_map; (eapply Forall_impl; [eassumption|]); cbn.
    + by intros t [_ [? _]].
    + by intros r (_ & _ & [? _]).
Qed.

(** ** On concrete renames *)

Module RenameSample.
Definition ts := [mkTableRename (&"users") (&"accounts"); mkTableRename (&"posts") (&"articles")].
Definition rs := [mkColumnRename (&"accounts") (&"mail") (&"email"); mkColumnRename (&"tags") (&"label") (&"name")].

Lemma accepted : validateRenameSet ts rs = Ok tt.
Proof. vm_compute. reflexivity. Qed.

Definition h : Store := mkStore ∅ ∅ ∅.
Definition steps : list PlanStep := [newStep StepRenameTable SeveritySafe (&"accounts") [] (&"renamed")].

Definition db : gmap bytes (list bytes) :=
  <[&"users" := [&"id"; &"mail"]]> (<[&"posts" := [&"id"]]> (<[&"tags" := [&"label"]]> ∅)).
Definition db' : gmap bytes (list bytes) :=
  <[&"accounts" := [&"id"; &"email"]]> (<[&"articles" := [&"id"]]> (<[&"tags" := [&"name"]]> ∅)).
End RenameSample.

Lemma rename_sql_declares_witness :
  DeclaredRenames (renameSQL DatabaseDriverPostgres RenameSample.ts RenameSample.rs) =
  [mkRename (&"users") [] (&"accounts"); mkRename (&"posts") [] (&"articles");
   mkRename (&"accounts") (&"mail") (&"email"); mkRename (&"tags") (&"label") (&"name")].
Proof. exact (rename_sql_declares DatabaseDriverPostgres RenameSample.ts RenameSample.rs RenameSample.accepted). Defined.

Lemma rename_sql_no_findings_witness :
  withStatementFindings RenameSample.h RenameSample.steps
    (renameSQL DatabaseDriverSQLite RenameSample.ts RenameSample.rs) [] = RenameSample.steps.
Proof.
  exact (rename_sql_no_findings RenameSample.h [] RenameSample.steps DatabaseDriverSQLite RenameSample.ts RenameSample.rs
           RenameSample.accepted).
Defined.

Lemma rename_down_undoes_up_witness :
  runRenames RenameSample.db' (DeclaredRenames (renameDownSQL DatabaseDriverMySQL RenameSample.ts RenameSample.rs)) = Some RenameSample.db.
Proof.
  apply (rename_down_undoes_up DatabaseDriverMySQL RenameSample.ts RenameSample.rs RenameSample.db RenameSample.db').
  - apply RenameSample.accepted.
  - vm_compute. reflexivity.
Defined.
