(* ===== verification/MigrationLedger.v ===== *)
(** * migrations: applying, rolling back and seeding

    The two ledgers of a database ([revisions.go]), the commands that move them
    ([migrate.go], [rollback.go], [seed.go], [reset.go], [dbstate.go]) and the
    splitter of the SQL they run.  The database is its two ledger tables beside
    whatever else it holds; running a statement, and every call to Atlas and the
    operating system, takes its outcome from the caller. *)

From stdpp Require Import base tactics numbers list strings gmap sets.
From Stdlib Require Import ZArith Lia Ascii.
From S2P Require Import Prelude GoBytes DotEnv GoText Regex SqlClassify AtlasSchema SchemaSql SchemaPlan MigrationDir.

Local Open Scope string_scope.
Local Open Scope list_scope.
Local Open Scope gotext_scope.
Local Open Scope gombit_scope.

(** ** Splitting SQL *)

(** What is left after one leading comment; [None] when the text starts with none. *)
Definition dropComment (remaining : bytes) : option bytes :=
  if HasPrefix remaining (&"--") then
    Some (match IndexByte remaining newline with Some i => TrimSpace (drop (i + 1) remaining) | None => [] end)
  else if HasPrefix remaining (&"/*") then
    Some (match Index remaining (&"*/") with Some i => TrimSpace (drop (i + 2) remaining) | None => [] end)
  else None.

(** Every round drops at least two bytes, so the length bounds the rounds. *)
Fixpoint comment_only (n : nat) (remaining : bytes) : bool :=
  match remaining, n with
  | [], _ => true
  | _, O => false
  | _, S n => match dropComment remaining with Some rest => comment_only n rest | None => false end
  end.

Definition isSQLCommentOnly (stmt : bytes) : bool := comment_only (length stmt) (TrimSpace stmt).

Inductive scan := Plain | LineComment | BlockComment | InSingle | InDouble.

(** A fragment, last byte first, kept unless it is blank or only comments. *)
Definition emit (current : bytes) (rest : list bytes) : list bytes :=
  let stmt := TrimSpace (rev current) in
  if nonempty stmt && negb (isSQLCommentOnly stmt) then stmt :: rest else rest.

(** The scan of a text; every byte it looks for is ASCII, so on UTF-8 text the
    runes and the bytes split alike. *)
Fixpoint split_sql (st : scan) (current sql : bytes) : list bytes :=
  match sql with
  | [] => emit current []
  | r :: rest =>
      match st with
      | LineComment => split_sql (if Ascii.eqb r newline then Plain else LineComment) (r :: current) rest
      | BlockComment =>
          match rest with
          | next :: rest' =>
              if Ascii.eqb r "*" && Ascii.eqb next "/" then split_sql Plain (next :: r :: current) rest'
              else split_sql BlockComment (r :: current) rest
          | [] => split_sql BlockComment (r :: current) rest
          end
      | InSingle =>
          if Ascii.eqb r squote then
            match rest with
            | next :: rest' =>
                if Ascii.eqb next squote then split_sql InSingle (next :: r :: current) rest'
                else split_sql Plain (r :: current) rest
            | [] => split_sql Plain (r :: current) rest
            end
          else split_sql InSingle (r :: current) rest
      | InDouble =>
          if Ascii.eqb r dquote then
            match rest with
            | next :: rest' =>
                if Ascii.eqb next dquote then split_sql InDouble (next :: r :: current) rest'
                else split_sql Plain (r :: current) rest
            | [] => split_sql Plain (r :: current) rest
            end
          else split_sql InDouble (r :: current) rest
      | Plain =>
          let one := if Ascii.eqb r squote then split_sql InSingle (r :: current) rest
                     else if Ascii.eqb r dquote then split_sql InDouble (r :: current) rest
                     else if Ascii.eqb r ";" then emit current (split_sql Plain [] rest)
                     else split_sql Plain (r :: current) rest in
          match rest with
          | next :: rest' =>
              if Ascii.eqb r "-" && Ascii.eqb next "-" then split_sql LineComment (next :: r :: current) rest'
              else if Ascii.eqb r "/" && Ascii.eqb next "*" then split_sql BlockComment (next :: r :: current) rest'
              else one
          | [] => one
          end
      end
  end.

Definition splitSQLStatements (sql : bytes) : list bytes := split_sql Plain [] sql.

Example splits :
  splitSQLStatements (&"-- first; not a statement
INSERT INTO a VALUES ('x;y', 'it''s');
/* ; */ ;
UPDATE b SET c = 1") =
  [&"-- first; not a statement
INSERT INTO a VALUES ('x;y', 'it''s')"; &"UPDATE b SET c = 1"].
Proof. vm_compute. reflexivity. Qed.

(** ** The ledgers *)

Record Revision := mkRevision { rvVersion : bytes; rvName : bytes; rvBatch : Z; rvAppliedAt : Z }.

Section database.
(** The rest of the database. *)
Context {S : Type}.

(** A table that does not exist is [None]. *)
Record Db := mkDb { dbRevisions : option (list Revision); dbAtlas : option (list bytes); dbRest : S }.

Definition setRevisions (l : list Revision) (db : Db) : Db := mkDb (Some l) (dbAtlas db) (dbRest db).

Definition ensureRevisionsTable (db : Db) : Db := setRevisions (default [] (dbRevisions db)) db.

Definition rows (db : Db) : list Revision := default [] (dbRevisions db).

(** [ORDER BY version], up and down, ties as they lie. *)
Fixpoint insertRevision (le : bytes -> bytes -> bool) (r : Revision) (l : list Revision) : list Revision :=
  match l with
  | [] => [r]
  | x :: l => if le (rvVersion r) (rvVersion x) then r :: x :: l else x :: insertRevision le r l
  end.

Definition orderBy (le : bytes -> bytes -> bool) (l : list Revision) : list Revision := foldr (insertRevision le) [] l.

Definition listRevisions (db : Db) : list Revision := orderBy bytes_leb (rows db).

Definition appliedVersionSet (l : list Revision) : gset bytes := list_to_set (map rvVersion l).

(** [SELECT MAX(batch)] *)
Definition maxBatch (l : list Revision) : option Z :=
  match l with [] => None | r :: l => Some (fold_left Z.max (map rvBatch l) (rvBatch r)) end.

Definition nextBatch (db : Db) : Z :=
  match maxBatch (rows db) with None => 1 | Some b => wrap_int64 (b + 1) end.

Inductive ledgerError :=
| ConfigRefused
| CallFailed (op : bytes)
| DuplicateVersion
| NoneRecorded (pending : nat)
| MissingDowns (names : list bytes)
| RollbackFailed (op : bytes) (down : bytes) (completed : list bytes)
| EmptySeed (file : bytes)
| SeedFailed (file : bytes) (statement : nat)
| ProductionReset.

(** The version is the primary key. *)
Definition insertBatch (batch : Z) (files : list MigrationFile) (appliedAt : Z) (db : Db) : result ledgerError Db :=
  let new := map (fun f => mkRevision (Version f) (MName f) batch appliedAt) files in
  let all := rows db ++ new in
  if bool_decide (NoDup (map rvVersion all)) then Ok (setRevisions all db) else Err DuplicateVersion.

(** The newest batch, its last version first. *)
Definition lastBatch (db : Db) : Z * list Revision :=
  match maxBatch (rows db) with
  | None => (0%Z, [])
  | Some b => (b, orderBy (fun a b => bytes_leb b a) (filter (fun r => rvBatch r = b) (rows db)))
  end.

Definition deleteRevisions (versions : list bytes) (db : Db) : Db :=
  match versions with
  | [] => db
  | _ => match dbRevisions db with
         | Some l => setRevisions (filter (fun r => rvVersion r ∉ versions) l) db
         | None => db
         end
  end.

Definition deleteAtlasRevisions (versions : list bytes) (db : Db) : Db :=
  match versions with
  | [] => db
  | _ => match dbAtlas db with
         | Some l => mkDb (dbRevisions db) (Some (filter (fun v => v ∉ versions) l)) (dbRest db)
         | None => db
         end
  end.

Definition listAtlasVersions (db : Db) : gset bytes := list_to_set (default [] (dbAtlas db)).

Definition pendingPresentInAtlas (pending : list MigrationFile) (atlas : gset bytes) : list MigrationFile :=
  filter (fun f => Version f ∈ atlas) pending.

Definition pendingFiles (files : list MigrationFile) (applied : gset bytes) : list MigrationFile :=
  filter (fun f => Version f ∉ applied) files.

(** ** Migrating *)

(** The answers of a run: whether the configuration is valid and has an Atlas URL,
    which calls succeed, what Atlas leaves behind whether it succeeds or not, and
    the clock. *)
Record MigrateEnv := mkMigrateEnv {
  meValid : bool;
  meOpen : bool;
  meEnsure : bool;
  meList : bool;
  meApply : Db -> Db;
  meApplyOk : bool;
  meListAtlas : bool;
  meNextBatch : bool;
  meInsert : bool;
  meNow : Z;
}.

Definition must (ok : bool) (op : bytes) : result ledgerError unit := if ok then Ok tt else Err (CallFailed op).

Inductive migrated := NoPending | Applied (count : nat) (batch : Z).

(** What follows a successful [atlas migrate apply]. *)
Definition recordApplied (env : MigrateEnv) (pending : list MigrationFile) (db : Db) : result ledgerError (Db * migrated) :=
  let? _ := must (meListAtlas env) (&"list atlas revisions") in
  let applied := pendingPresentInAtlas pending (listAtlasVersions db) in
  match applied with
  | [] => Err (NoneRecorded (length pending))
  | _ =>
      let? _ := must (meNextBatch env) (&"max batch") in
      let batch := nextBatch db in
      let? _ := must (meInsert env) (&"insert batch") in
      let? db := insertBatch batch applied (meNow env) db in
      Ok (db, Applied (length applied) batch)
  end.

(** The database when the run ends, and how it ended. *)
Definition Migrate (env : MigrateEnv) (dir : option Dir) (db : Db) : Db * result ledgerError migrated :=
  if negb (meValid env) then (db, Err ConfigRefused)
  else if negb (meOpen env) then (db, Err (CallFailed (&"open database")))
  else if negb (meEnsure env) then (db, Err (CallFailed (&"ensure framework_migrations")))
  else
    let db := ensureRevisionsTable db in
    if negb (meList env) then (db, Err (CallFailed (&"list revisions")))
    else
      match pendingFiles (ListMigrationFiles dir) (appliedVersionSet (listRevisions db)) with
      | [] => (db, Ok NoPending)
      | pending =>
          let db := meApply env db in
          if negb (meApplyOk env) then (db, Err (CallFailed (&"atlas migrate apply")))
          else match recordApplied env pending db with
               | Err e => (db, Err e)
               | Ok (db, out) => (db, Ok out)
               end
      end.

(** ** Running SQL *)

(** One statement: the database after it, and whether it succeeded. *)
Context (exec : Db -> bytes -> Db * bool).

(** Statements in order up to the first failure, whose index comes with it. *)
Fixpoint execAll (i : nat) (stmts : list bytes) (db : Db) : Db * option nat :=
  match stmts with
  | [] => (db, None)
  | stmt :: stmts =>
      match exec db stmt with
      | (db, true) => execAll (i + 1) stmts db
      | (db, false) => (db, Some i)
      end
  end.

(** ** Rolling back *)

Record RollbackEnv := mkRollbackEnv {
  reValid : bool;
  reOpen : bool;
  reEnsure : bool;
  reLast : bool;
  reBegin : bool;
  reRead : bytes -> bool;
  reDelete : bool;
  reDeleteAtlas : bool;
  reCommit : bool;
}.

(** The last file of a version, as the map built in order keeps it. *)
Definition byVersion (files : list MigrationFile) (version : bytes) : option MigrationFile :=
  last (filter (fun f => Version f = version) files).

Definition downOf (files : list MigrationFile) (r : Revision) : option MigrationFile :=
  match byVersion files (rvVersion r) with
  | Some f => if nonempty (DownPath f) then Some f else None
  | None => None
  end.

Definition missingDowns (files : list MigrationFile) (revs : list Revision) : list bytes :=
  omap (fun r => match downOf files r with
                 | Some _ => None
                 | None => Some (&"downs/" ++ downName (rvVersion r) (rvName r))
                 end) revs.

(** The text of a down file. *)
Definition readDown (dir : option Dir) (f : MigrationFile) : option bytes :=
  match dir with
  | Some d => match dDowns d with Some ds => ds !! downName (Version f) (MName f) | None => None end
  | None => None
  end.

(** The failed operation and the file it was on. *)
Definition failure : Type := bytes * bytes.

(** One down migration. *)
Definition runDown (env : RollbackEnv) (dir : option Dir) (f : MigrationFile) (db : Db) : Db * option failure :=
  match (if reRead env (DownPath f) then readDown dir f else None) with
  | None => (db, Some (&"read", DownPath f))
  | Some data =>
      let sqlText := TrimSpace data in
      match sqlText, splitSQLStatements sqlText with
      | [], _ | _, [] => (db, Some (&"execute", DownPath f))
      | _, stmts =>
          match execAll 0 stmts db with
          | (db, None) => (db, None)
          | (db, Some i) => (db, Some (Sprintf "execute statement %d of" [itoa (Z.of_nat i + 1)], DownPath f))
          end
      end
  end.

(** The down migrations in order, with the versions completed so far. *)
Fixpoint runDowns (env : RollbackEnv) (dir : option Dir) (completed : list bytes) (downs : list MigrationFile) (db : Db)
    : Db * list bytes * option failure :=
  match downs with
  | [] => (db, completed, None)
  | f :: downs =>
      match runDown env dir f db with
      | (db, None) => runDowns env dir (completed ++ [Version f]) downs db
      | (db, Some e) => (db, completed, Some e)
      end
  end.

(** The downs and the ledgers' rows: the database after them, or where they stopped. *)
Definition rollbackBody (env : RollbackEnv) (dir : option Dir) (downs : list MigrationFile) (db : Db)
    : Db * list bytes * option failure :=
  match runDowns env dir [] downs db with
  | (db, versions, Some e) => (db, versions, Some e)
  | (db, versions, None) =>
      if negb (reDelete env) then (db, versions, Some (&"delete revisions", []))
      else
        let db := deleteRevisions versions db in
        if negb (reDeleteAtlas env) then (db, versions, Some (&"delete atlas revisions", []))
        else (deleteAtlasRevisions versions db, versions, None)
  end.

Inductive rolledBack := NothingToRollBack | RolledBack (batch : Z) (count : nat).

(** A transaction that does not commit leaves the database as it was before it. *)
Definition Rollback (env : RollbackEnv) (driver : DatabaseDriver) (dir : option Dir) (db : Db)
    : Db * result ledgerError rolledBack :=
  if negb (reValid env) then (db, Err ConfigRefused)
  else if negb (reOpen env) then (db, Err (CallFailed (&"open database")))
  else if negb (reEnsure env) then (db, Err (CallFailed (&"ensure framework_migrations")))
  else
    let db := ensureRevisionsTable db in
    if negb (reLast env) then (db, Err (CallFailed (&"max batch")))
    else
      let '(batch, revisions) := lastBatch db in
      if (batch =? 0)%Z || Nat.eqb (length revisions) 0 then (db, Ok NothingToRollBack)
      else
        let files := ListMigrationFiles dir in
        match missingDowns files revisions with
        | _ :: _ as missing => (db, Err (MissingDowns missing))
        | [] =>
            let downs := omap (downOf files) revisions in
            let useTx := negb (driver_is driver DatabaseDriverMySQL) in
            if useTx && negb (reBegin env) then (db, Err (CallFailed (&"begin rollback transaction")))
            else match rollbackBody env dir downs db with
                 | (db', completed, Some (op, path)) =>
                     (if useTx then db else db', Err (RollbackFailed op path completed))
                 | (db', versions, None) =>
                     if useTx && negb (reCommit env) then (db, Err (CallFailed (&"commit rollback transaction")))
                     else (db', Ok (RolledBack batch (length versions)))
                 end
        end.

(** ** The state of a database *)

(** What [InspectDatabase] reads: the pending files, the newest applied version
    with a file, and the applied versions with none. *)
Definition ledgerState (files : list MigrationFile) (db : Db) : list MigrationFile * bytes * list bytes :=
  let revisions := match dbRevisions db with Some _ => listRevisions db | None => [] end in
  let applied := appliedVersionSet revisions in
  (pendingFiles files applied,
   default [] (last (filter (fun v => v ∈ applied) (map Version files))),
   filter (fun v => v ∉ map Version files) (map rvVersion revisions)).

(** ** Seeding *)

(** The entries of the seed directory in byte order, [None] for a subdirectory. *)
Definition listSeedFiles (entries : list (bytes * option bytes)) : list (bytes * bytes) * list bytes * list bytes :=
  (omap (fun e => match e.2 with
                  | Some data => if HasSuffix (ToLower e.1) (&".sql") then Some (e.1, data) else None
                  | None => None
                  end) entries,
   omap (fun e => match e.2 with
                  | Some _ => if HasSuffix (ToLower e.1) (&".sql") then None else Some e.1
                  | None => None
                  end) entries,
   omap (fun e => match e.2 with Some _ => None | None => Some e.1 end) entries).

Fixpoint seedAll (files : list (bytes * bytes)) (db : Db) : Db * result ledgerError unit :=
  match files with
  | [] => (db, Ok tt)
  | (name, data) :: files =>
      let sqlText := TrimSpace data in
      match sqlText, splitSQLStatements sqlText with
      | [], _ | _, [] => (db, Err (EmptySeed name))
      | _, stmts =>
          match execAll 0 stmts db with
          | (db, Some i) => (db, Err (SeedFailed name i))
          | (db, None) => seedAll files db
          end
      end
  end.

Definition Seed (valid openOk : bool) (entries : list (bytes * option bytes)) (db : Db)
    : Db * result ledgerError nat :=
  if negb valid then (db, Err ConfigRefused)
  else
    match (listSeedFiles entries).1.1 with
    | [] => (db, Ok O)
    | files =>
        if negb openOk then (db, Err (CallFailed (&"open database")))
        else match seedAll files db with
             | (db, Ok _) => (db, Ok (length files))
             | (db, Err e) => (db, Err e)
             end
    end.

(** ** Resetting *)

(** [dropSchema] is the driver's wipe and whether it succeeded. *)
Definition Reset (production force : bool) (env : MigrateEnv) (seedOpen : bool) (dropSchema : Db -> Db * bool)
    (dir : option Dir) (entries : list (bytes * option bytes)) (db : Db) : Db * result ledgerError nat :=
  if production && negb force then (db, Err ProductionReset)
  else if negb (meValid env) then (db, Err ConfigRefused)
  else match dropSchema db with
       | (db, false) => (db, Err (CallFailed (&"drop schema")))
       | (db, true) =>
           match Migrate env dir db with
           | (db, Err e) => (db, Err e)
           | (db, Ok _) => Seed (meValid env) seedOpen entries db
           end
       end.
End database.

Arguments Db S : clear implicits.
Arguments MigrateEnv S : clear implicits.
