(* ===== verification/MigrationLedgerFacts.v ===== *)
(** * The migration ledgers: what runs and rollbacks do to them

    A rollback right after a run gives the ledgers back; a rollback that fails
    leaves them alone; and through any sequence of runs, failed or not, no version
    is recorded twice and none is recorded that Atlas does not have. *)

From stdpp Require Import base tactics numbers list strings gmap sets.
From Stdlib Require Import ZArith Lia Ascii.
From S2P Require Import Prelude GoBytes DotEnv GoText Regex SqlClassify AtlasSchema SchemaSql SchemaPlan MigrationDir MigrationLedger.

Local Open Scope string_scope.
Local Open Scope list_scope.
Local Open Scope gotext_scope.
Local Open Scope gombit_scope.

(** ** Lists *)

Lemma filter_all {A} (P : A -> Prop) `{!forall x, Decision (P x)} l : Forall P l -> filter P l = l.
Proof. induction 1 as [|x l Hx Hl IH]; [done|]. by rewrite filter_cons_True, IH. Qed.

Lemma filter_none {A} (P : A -> Prop) `{!forall x, Decision (P x)} l : Forall (fun x => ~ P x) l -> filter P l = [].
Proof. induction 1 as [|x l Hx Hl IH]; [done|]. by rewrite filter_cons_False, IH. Qed.

Lemma insertRevision_perm le r l : insertRevision le r l ≡ₚ r :: l.
Proof.
  induction l as [|x l IH]; [done|]. cbn [insertRevision]. destruct (le _ _); [done|]. rewrite IH. apply Permutation_swap.
Qed.

Lemma orderBy_perm le l : orderBy le l ≡ₚ l.
Proof. induction l as [|r l IH]; [done|]. cbn [orderBy foldr]. rewrite insertRevision_perm. by constructor. Qed.

Lemma orderBy_elem le l r : r ∈ orderBy le l <-> r ∈ l.
Proof. by rewrite orderBy_perm. Qed.

(** ** The newest batch *)

Lemma fold_max l : forall a, (a <= fold_left Z.max l a)%Z /\ Forall (fun x => x <= fold_left Z.max l a)%Z l.
Proof.
  induction l as [|x l IH]; intros a; cbn [fold_left]; [split; [lia|constructor]|].
  destruct (IH (Z.max a x)) as [H1 H2]. split; [lia|]. constructor; [lia|done].
Qed.

Lemma fold_max_lt l b : forall a, (a < b)%Z -> Forall (fun x => x < b)%Z l -> (fold_left Z.max l a < b)%Z.
Proof. induction l as [|x l IH]; intros a Ha Hl; [done|]. inversion Hl; subst. apply IH; [lia|done]. Qed.

Lemma maxBatch_le l b : maxBatch l = Some b -> Forall (fun r => rvBatch r <= b)%Z l.
Proof.
  destruct l as [|r l]; [done|]. cbn [maxBatch]. intros [= <-].
  destruct (fold_max (map rvBatch l) (rvBatch r)) as [H1 H2]. constructor; [done|].
  exact (proj1 (Forall_map _ _ _) H2).
Qed.

Lemma maxBatch_lt l m b : maxBatch l = Some m -> Forall (fun r => rvBatch r < b)%Z l -> (m < b)%Z.
Proof.
  destruct l as [|r l]; [done|]. cbn [maxBatch]. intros [= <-] H. inversion H; subst.
  apply fold_max_lt; [done|]. by apply Forall_map.
Qed.

(** The newest batch of rows with a newer batch after them. *)
Lemma maxBatch_app l new b :
  new <> [] -> Forall (fun r => rvBatch r < b)%Z l -> Forall (fun r => rvBatch r = b) new -> maxBatch (l ++ new) = Some b.
Proof.
  intros Hne Hl Hn. destruct new as [|x new]; [done|].
  destruct (maxBatch (l ++ x :: new)) as [m|] eqn:E; [|by destruct l].
  f_equal. apply Z.le_antisymm.
  - enough (m < b + 1)%Z by lia. eapply maxBatch_lt; [exact E|]. apply Forall_app. split.
    + eapply Forall_impl; [exact Hl|]. cbn. lia.
    + eapply Forall_impl; [exact Hn|]. cbn. lia.
  - apply maxBatch_le, Forall_app in E as [_ E]. inversion E; subst. inversion Hn; subst. lia.
Qed.

Section facts.
Context {S : Type}.
Implicit Types db : Db S.

Definition inRange (l : list Revision) : Prop := Forall (fun r => 1 <= rvBatch r < max_int64)%Z l.

Lemma nextBatch_newer db : inRange (rows db) ->
  (1 <= nextBatch db <= max_int64)%Z /\ Forall (fun r => rvBatch r < nextBatch db)%Z (rows db).
Proof.
  unfold inRange, nextBatch. intros Hr. destruct (maxBatch (rows db)) as [m|] eqn:E.
  - assert (m < max_int64)%Z by (eapply maxBatch_lt; [exact E|]; eapply Forall_impl; [exact Hr|]; cbn; lia).
    pose proof (maxBatch_le _ _ E) as Hle.
    assert (1 <= m)%Z.
    { destruct (rows db) as [|r l]; [done|]. inversion Hr; subst. inversion Hle; subst. lia. }
    rewrite wrap_int64_id by (unfold in_int64, min_int64, max_int64 in *; lia).
    split; [lia|]. eapply Forall_impl; [exact Hle|]. cbn. lia.
  - split; [unfold max_int64; lia|]. destruct (rows db); [constructor|done].
Qed.

(** ** A run *)

Definition newRows (b now : Z) (files : list MigrationFile) : list Revision :=
  map (fun f => mkRevision (Version f) (MName f) b now) files.

Lemma rows_ensure db : rows (ensureRevisionsTable db) = rows db.
Proof. done. Qed.

(** What a run records, once Atlas has applied. *)
Definition recorded (env : MigrateEnv S) (pending : list MigrationFile) db0 db' n b : Prop :=
  exists applied, applied <> [] /\ n = length applied /\ b = nextBatch db0 /\
    db' = setRevisions (rows db0 ++ newRows b (meNow env) applied) db0 /\
    NoDup (map rvVersion (rows db0 ++ newRows b (meNow env) applied)) /\
    applied = pendingPresentInAtlas pending (listAtlasVersions db0).

Lemma recordApplied_ok (env : MigrateEnv S) pending db0 db' out :
  recordApplied env pending db0 = Ok (db', out) -> exists n b, out = Applied n b /\ recorded env pending db0 db' n b.
Proof.
  unfold recordApplied. destruct (meListAtlas env); [|done]. cbn [must result_bind].
  set (applied := pendingPresentInAtlas _ _). destruct applied as [|a l] eqn:Ea; [done|].
  destruct (meNextBatch env); [|done]. destruct (meInsert env); [|done]. cbn [must result_bind].
  unfold insertBatch. case_bool_decide as Hnd; [|done]. cbn [result_bind]. intros [= <- <-].
  eexists _, _. split; [reflexivity|]. exists applied. rewrite Ea. split; [done|]. split; [done|]. split; [done|].
  split; [done|]. split; [exact Hnd|done].
Qed.

Definition pendingOf (dir : option Dir) db : list MigrationFile :=
  pendingFiles (ListMigrationFiles dir) (appliedVersionSet (listRevisions (ensureRevisionsTable db))).

(** How a run ends: at once, after Atlas, or with a new batch. *)
Lemma Migrate_ends (env : MigrateEnv S) dir db :
  let '(db', res) := Migrate env dir db in
  let db0 := meApply env (ensureRevisionsTable db) in
  ((db' = db \/ db' = ensureRevisionsTable db \/ db' = db0) /\ (forall n b, res <> Ok (Applied n b))) \/
  exists n b, res = Ok (Applied n b) /\ recorded env (pendingOf dir db) db0 db' n b.
Proof.
  unfold Migrate, pendingOf. destruct (meValid env); [|by left; auto]. destruct (meOpen env); [|by left; auto].
  destruct (meEnsure env); [|by left; auto]. destruct (meList env); [|by left; auto]. cbn [negb]. cbv zeta.
  destruct (pendingFiles _ _) as [|p ps]; [by left; auto|]. destruct (meApplyOk env); [|by left; auto]. cbn [negb].
  destruct (recordApplied _ _ _) as [[db' out]|e] eqn:E; [|by left; auto].
  apply recordApplied_ok in E as (n & b & -> & E). right. by exists n, b.
Qed.

Lemma Migrate_applied (env : MigrateEnv S) dir db db' n b :
  Migrate env dir db = (db', Ok (Applied n b)) ->
  recorded env (pendingOf dir db) (meApply env (ensureRevisionsTable db)) db' n b.
Proof.
  intros E. pose proof (Migrate_ends env dir db) as H. rewrite E in H.
  destruct H as [[_ H]|(n' & b' & [= <- <-] & H)]; [by destruct (H n b)|done].
Qed.

(** What Atlas promises about an apply: [framework_migrations] is not its table,
    and its own rows only grow. *)
Definition applyKeeps (env : MigrateEnv S) : Prop :=
  forall db, dbRevisions (meApply env db) = dbRevisions db /\
    exists new, default [] (dbAtlas (meApply env db)) = default [] (dbAtlas db) ++ new.

(** ** A rollback *)

Context (exec : Db S -> bytes -> Db S * bool).

(** Down migrations that leave the ledgers alone. *)
Definition execKeeps : Prop :=
  forall db stmt, dbRevisions (exec db stmt).1 = dbRevisions db /\ dbAtlas (exec db stmt).1 = dbAtlas db.

Definition sameLedgers (db db' : Db S) : Prop := dbRevisions db' = dbRevisions db /\ dbAtlas db' = dbAtlas db.

Lemma sameLedgers_trans db1 db2 db3 : sameLedgers db1 db2 -> sameLedgers db2 db3 -> sameLedgers db1 db3.
Proof. unfold sameLedgers. intros [-> ->] [-> ->]. done. Qed.

Lemma execAll_keeps stmts : execKeeps -> forall i db, sameLedgers db (execAll exec i stmts db).1.
Proof.
  intros He. induction stmts as [|s l IH]; intros i db; [done|]. cbn [execAll].
  pose proof (He db s) as Hs. destruct (exec db s) as [db1 []]; cbn [fst] in *; [|done].
  eapply sameLedgers_trans; [exact Hs|apply IH].
Qed.

Lemma runDown_keeps env dir f db : execKeeps -> sameLedgers db (runDown exec env dir f db).1.
Proof.
  intros He. unfold runDown. destruct (if reRead env (DownPath f) then readDown dir f else None); [|done].
  destruct (TrimSpace _) as [|x t]; [done|]. destruct (splitSQLStatements _) as [|s ss]; [done|].
  pose proof (execAll_keeps (s :: ss) He 0 db) as H. by destruct (execAll exec 0 (s :: ss) db) as [db1 [i|]].
Qed.

Lemma runDowns_facts env dir downs : execKeeps -> forall done db,
  let '(db', versions, failed) := runDowns exec env dir done downs db in
  sameLedgers db db' /\ (failed = None -> versions = done ++ map Version downs).
Proof.
  intros He. induction downs as [|f l IH]; intros done db; cbn [runDowns map]; [by rewrite app_nil_r|].
  pose proof (runDown_keeps env dir f db He) as Hk. destruct (runDown exec env dir f db) as [db1 [e|]]; cbn [fst] in Hk; [done|].
  specialize (IH (done ++ [Version f]) db1). destruct (runDowns exec env dir _ l db1) as [[db2 vs] fl].
  destruct IH as [H1 H2]. split; [by eapply sameLedgers_trans|]. intros H. rewrite H2 by done. by rewrite <-app_assoc.
Qed.

Lemma byVersion_version files v f : byVersion files v = Some f -> Version f = v.
Proof.
  unfold byVersion. intros H%last_Some_elem_of. by apply list_elem_of_filter in H as [? _].
Qed.

Lemma downOf_version files r f : downOf files r = Some f -> Version f = rvVersion r.
Proof.
  unfold downOf. destruct (byVersion _ _) as [g|] eqn:E; [|done]. destruct (nonempty _); [|done].
  intros [= <-]. by eapply byVersion_version.
Qed.

(** With no down missing, the downs are those of the rows, in order. *)
Lemma downs_versions files revs : missingDowns files revs = [] -> map Version (omap (downOf files) revs) = map rvVersion revs.
Proof.
  induction revs as [|r l IH]; [done|]. cbn [missingDowns omap list_omap].
  destruct (downOf files r) as [f|] eqn:E; cbn [map]; [|done].
  intros H. rewrite (downOf_version _ _ _ E). f_equal. by apply IH.
Qed.

(** A rollback that did something: the rows of the newest batch are gone from both
    ledgers, and no others. *)
Lemma Rollback_done env driver dir db db' b n :
  execKeeps -> Rollback exec env driver dir db = (db', Ok (RolledBack b n)) ->
  let '(batch, revs) := lastBatch (ensureRevisionsTable db) in
  b = batch /\ n = length revs /\
  rows db' = filter (fun r => rvVersion r ∉ map rvVersion revs) (rows db) /\
  dbAtlas db' = filter (fun v => v ∉ map rvVersion revs) <$> dbAtlas db.
Proof.
  intros He. unfold Rollback. destruct (reValid env); [|done]. destruct (reOpen env); [|done].
  destruct (reEnsure env); [|done]. destruct (reLast env); [|done]. cbn [negb]. cbv zeta.
  destruct (lastBatch _) as [batch revs]. destruct (_ || _) eqn:Hz; [done|].
  destruct (missingDowns _ revs) as [|m ms] eqn:Em; [|done]. set (downs := omap _ revs).
  destruct (_ && _); [done|]. unfold rollbackBody.
  pose proof (runDowns_facts env dir downs He [] (ensureRevisionsTable db)) as H.
  destruct (runDowns exec env dir [] downs _) as [[db1 vs] [[op pa]|]]; [done|]. destruct H as [[Hr Ha] Hv].
  specialize (Hv eq_refl). cbn [app] in Hv. subst downs. rewrite downs_versions in Hv by done.
  destruct (reDelete env); [|done]. destruct (reDeleteAtlas env); [|done]. cbn [negb].
  destruct (_ && _); [done|]. intros [= <- <- <-]. subst vs.
  destruct revs as [|r0 revs]; [by rewrite orb_true_r in Hz|]. set (vs := map rvVersion (r0 :: revs)).
  assert (vs <> []) as Hvs by done. split; [done|]. split; [subst vs; by rewrite length_map|].
  unfold deleteAtlasRevisions, deleteRevisions. destruct vs as [|v vs]; [done|]. rewrite Hr. cbn [ensureRevisionsTable setRevisions dbAtlas dbRevisions].
  change (dbAtlas (ensureRevisionsTable db)) with (dbAtlas db) in Ha. rewrite Ha.
  destruct (dbAtlas db) as [al|]; done.
Qed.

(** ** Rolling back a run *)

Lemma NoDup_app_versions (l new : list Revision) :
  NoDup (map rvVersion (l ++ new)) ->
  filter (fun r => rvVersion r ∉ map rvVersion new) (l ++ new) = l.
Proof.
  rewrite map_app. intros (_ & Hd & _)%NoDup_app. rewrite filter_app.
  rewrite filter_all; [rewrite filter_none; [by rewrite app_nil_r|]|].
  - apply Forall_forall. intros r Hr Hn. apply Hn. by apply list_elem_of_fmap_2.
  - apply Forall_forall. intros r Hr. apply Hd. by apply list_elem_of_fmap_2.
Qed.

Lemma filter_batch (l new : list Revision) b :
  Forall (fun r => rvBatch r < b)%Z l -> Forall (fun r => rvBatch r = b) new ->
  filter (fun r => rvBatch r = b) (l ++ new) = new.
Proof.
  intros Hl Hn. rewrite filter_app, filter_none, filter_all; [done|done|].
  eapply Forall_impl; [exact Hl|]. cbn. lia.
Qed.

Lemma newRows_batch b now files : Forall (fun r => rvBatch r = b) (newRows b now files).
Proof. apply Forall_map. apply Forall_forall. done. Qed.

(** The newest batch after a run is what the run recorded. *)
Lemma lastBatch_new db l b now files :
  rows db = l ++ newRows b now files -> files <> [] -> Forall (fun r => rvBatch r < b)%Z l ->
  exists revs, lastBatch (ensureRevisionsTable db) = (b, revs) /\ revs ≡ₚ newRows b now files.
Proof.
  intros Hr Hne Hl. unfold lastBatch. rewrite rows_ensure, Hr, (maxBatch_app l _ b).
  - eexists. split; [reflexivity|]. by rewrite orderBy_perm, filter_batch by (done || apply newRows_batch).
  - by destruct files.
  - done.
  - apply newRows_batch.
Qed.

Lemma filter_versions (revs new : list Revision) {A} (f : A -> bytes) (l : list A) :
  revs ≡ₚ new -> filter (fun x => f x ∉ map rvVersion revs) l = filter (fun x => f x ∉ map rvVersion new) l.
Proof.
  intros Hp. apply list_filter_iff. intros x. by rewrite Hp.
Qed.

(** Rolling back right after a run that recorded migrations undoes its records: the rollback
    takes the same batch and as many versions, framework_migrations is as before the run,
    and the Atlas table has lost the versions the run recorded and no others. *)
Theorem rollback_undoes_migrate (env : MigrateEnv S) renv driver dir dir' db db1 db2 n b b' n' :
  applyKeeps env -> execKeeps -> inRange (rows db) ->
  Migrate env dir db = (db1, Ok (Applied n b)) ->
  Rollback exec renv driver dir' db1 = (db2, Ok (RolledBack b' n')) ->
  b' = b /\ n' = n /\ rows db2 = rows db /\
  exists applied, length applied = n /\
    rows db1 = rows db ++ newRows b (meNow env) applied /\
    dbAtlas db2 = filter (fun v => v ∉ map Version applied) <$> dbAtlas db1.
Proof.
  intros Ha He Hr Hm Hb. apply Migrate_applied in Hm as (applied & Hne & -> & Hbatch & -> & Hnd & _).
  set (db0 := meApply env (ensureRevisionsTable db)) in *.
  assert (rows db0 = rows db) as Hrows.
  { unfold rows. subst db0. destruct (Ha (ensureRevisionsTable db)) as [-> _]. done. }
  rewrite Hrows in *. destruct (nextBatch_newer db0) as [_ Hlt]; [by rewrite Hrows|]. rewrite <-Hbatch, Hrows in Hlt.
  apply Rollback_done in Hb; [|done]. set (dbm := setRevisions _ db0) in *.
  destruct (lastBatch_new dbm (rows db) b (meNow env) applied eq_refl Hne Hlt) as (revs & E & Hp).
  rewrite E in Hb. destruct Hb as (-> & -> & Hrow & Hatl).
  assert (map rvVersion (newRows b (meNow env) applied) = map Version applied) as Hv.
  { unfold newRows. by rewrite map_map. }
  split; [done|]. split; [by rewrite Hp; unfold newRows; rewrite length_map|]. split.
  - rewrite Hrow, (filter_versions _ _ rvVersion _ Hp). by apply NoDup_app_versions.
  - exists applied. split; [done|]. split; [done|]. rewrite Hatl. destruct (dbAtlas dbm) as [al|]; [|done]. cbn. f_equal.
    rewrite (filter_versions _ _ (fun v => v) _ Hp). by rewrite Hv.
Qed.

(** ** A rollback that fails *)

Definition isMySQL (driver : DatabaseDriver) : bool := driver_is driver DatabaseDriverMySQL.

Lemma rollbackBody_keeps env dir downs db db' vs e :
  execKeeps -> reDeleteAtlas env = true -> rollbackBody exec env dir downs db = (db', vs, Some e) -> sameLedgers db db'.
Proof.
  intros He Hd. unfold rollbackBody. pose proof (runDowns_facts env dir downs He [] db) as H.
  destruct (runDowns exec env dir [] downs db) as [[db1 vs1] [e1|]]; destruct H as [H _].
  - by intros [= <- <- <-].
  - destruct (reDelete env); cbn [negb]; [|by intros [= <- <- <-]]. by rewrite Hd.
Qed.

(** A failed rollback leaves a transactional database as it was, its revisions table made if
    it was missing; on MySQL, where statements commit one by one, it leaves both ledgers as
    they were unless the very last deletion is what failed. *)
Theorem failed_rollback_keeps renv driver dir db db' e :
  Rollback exec renv driver dir db = (db', Err e) ->
  (isMySQL driver = false -> db' = db \/ db' = ensureRevisionsTable db) /\
  (execKeeps -> reDeleteAtlas renv = true -> rows db' = rows db /\ dbAtlas db' = dbAtlas db).
Proof.
  unfold Rollback, isMySQL. destruct (reValid renv); [|by intros [= <- <-]; auto]. destruct (reOpen renv); [|by intros [= <- <-]; auto].
  destruct (reEnsure renv); [|by intros [= <- <-]; auto]. destruct (reLast renv); [|by intros [= <- <-]; auto]. cbn [negb]. cbv zeta.
  destruct (lastBatch _) as [batch revs]. destruct (_ || _); [done|].
  destruct (missingDowns _ revs) as [|m ms]; [|by intros [= <- <-]; auto].
  set (downs := omap _ revs). set (my := driver_is driver DatabaseDriverMySQL).
  destruct (negb my && negb (reBegin renv)); [by intros [= <- <-]; auto|].
  destruct (rollbackBody exec renv dir downs _) as [[db1 vs] [[op pa]|]] eqn:E.
  - destruct my; cbn [negb]; intros [= <- <-]; [|by auto]. split; [done|]. intros He Hd.
    destruct (rollbackBody_keeps _ _ _ _ _ _ _ He Hd E) as [H1 H2]. unfold rows. by rewrite H1, H2.
  - destruct (negb my && negb (reCommit renv)); [|done]. by intros [= <- <-]; auto.
Qed.

(** ** Every sequence of runs *)

(** What the ledgers are after any run: each version once, batches numbered from
    one, and every recorded version one that Atlas has. *)
Definition ledgerInv db : Prop :=
  NoDup (map rvVersion (rows db)) /\ Forall (fun r => 1 <= rvBatch r)%Z (rows db) /\
  forall r, r ∈ rows db -> rvVersion r ∈ default [] (dbAtlas db).

Lemma ledgerInv_same db db' : rows db' = rows db -> default [] (dbAtlas db') = default [] (dbAtlas db) -> ledgerInv db -> ledgerInv db'.
Proof. unfold ledgerInv. by intros -> ->. Qed.

Lemma Migrate_inv (env : MigrateEnv S) dir db :
  applyKeeps env -> inRange (rows db) -> ledgerInv db -> ledgerInv (Migrate env dir db).1.
Proof.
  intros Ha Hr Hi. pose proof (Migrate_ends env dir db) as H. destruct (Migrate env dir db) as [db' res]. cbn [fst].
  set (db0 := meApply env (ensureRevisionsTable db)) in *.
  assert (rows db0 = rows db) as Hrows.
  { unfold rows. subst db0. destruct (Ha (ensureRevisionsTable db)) as [-> _]. done. }
  assert (ledgerInv db0) as H0.
  { destruct Hi as (H1 & H2 & H3). unfold ledgerInv. rewrite Hrows. split; [done|]. split; [done|].
    intros r Hin. destruct (Ha (ensureRevisionsTable db)) as [_ [new Hn]]. fold db0 in Hn. rewrite Hn.
    apply elem_of_app. left. by apply H3. }
  destruct H as [[[-> |[-> | ->]] _]|(n & b & -> & applied & _ & _ & Hb & -> & Hnd & Happ)]; [done..|].
  destruct H0 as (_ & H2 & H3). split; [done|]. change (rows (setRevisions ?l _)) with l.
  assert (1 <= b)%Z by (subst b; apply nextBatch_newer; by rewrite Hrows).
  split.
  - apply Forall_app. split; [done|]. eapply Forall_impl; [apply newRows_batch|]. cbn. lia.
  - intros r Hin. change (dbAtlas (setRevisions _ db0)) with (dbAtlas db0).
    apply elem_of_app in Hin as [Hin|Hin]; [by apply H3|]. apply list_elem_of_fmap in Hin as (f & -> & Hf).
    rewrite Happ in Hf. apply list_elem_of_filter in Hf as [Hf _]. unfold listAtlasVersions in Hf.
    by apply elem_of_list_to_set in Hf.
Qed.

(** A rollback, however it ends, takes versions out of the records, and out of
    the Atlas table no others than those. *)
Definition withdraws db db' : Prop :=
  exists vs : list bytes, rows db' = filter (fun r => rvVersion r ∉ vs) (rows db) /\
    (dbAtlas db' = dbAtlas db \/ dbAtlas db' = filter (fun v => v ∉ vs) <$> dbAtlas db).

Lemma withdraws_same db db' : sameLedgers db db' -> withdraws db db'.
Proof.
  intros [H1 H2]. exists []. split; [|by left]. unfold rows. rewrite H1, filter_all; [done|].
  apply Forall_forall. intros r _. apply not_elem_of_nil.
Qed.

Lemma deleteRevisions_rows vs db : rows (deleteRevisions vs db) = filter (fun r => rvVersion r ∉ vs) (rows db).
Proof.
  unfold deleteRevisions. destruct vs as [|v vs].
  - rewrite filter_all; [done|]. apply Forall_forall. intros r _. apply not_elem_of_nil.
  - unfold rows. destruct (dbRevisions db) eqn:E; [done|by rewrite E].
Qed.

Lemma rollbackBody_withdraws env dir downs db : execKeeps -> withdraws db (rollbackBody exec env dir downs db).1.1.
Proof.
  intros He. unfold rollbackBody. pose proof (runDowns_facts env dir downs He [] db) as H.
  destruct (runDowns exec env dir [] downs db) as [[db1 vs] [e|]]; destruct H as [H _]; cbn [fst]; [by apply withdraws_same|].
  destruct (reDelete env); cbn [negb fst]; [|by apply withdraws_same]. destruct H as [H1 H2].
  assert (rows db1 = rows db) as Hr by (unfold rows; by rewrite H1).
  assert (dbAtlas (deleteRevisions vs db1) = dbAtlas db) as Ha.
  { rewrite <-H2. unfold deleteRevisions. destruct vs; [done|]. by destruct (dbRevisions db1). }
  exists vs. destruct (reDeleteAtlas env); cbn [negb fst].
  - assert (rows (deleteAtlasRevisions vs (deleteRevisions vs db1)) = rows (deleteRevisions vs db1)) as ->.
    { unfold deleteAtlasRevisions. destruct vs; [done|]. by destruct (dbAtlas (deleteRevisions _ _)). }
    rewrite deleteRevisions_rows, Hr. split; [done|]. unfold deleteAtlasRevisions. destruct vs as [|v vs].
    + by left.
    + right. rewrite Ha. destruct (dbAtlas db) as [al|]; [done|exact Ha].
  - rewrite deleteRevisions_rows, Hr. split; [done|]. by left.
Qed.

Lemma Rollback_withdraws env driver dir db : execKeeps -> withdraws db (Rollback exec env driver dir db).1.
Proof.
  intros He. assert (withdraws db db) as Hid by (by apply withdraws_same).
  unfold Rollback. destruct (reValid env); [|done]. destruct (reOpen env); [|done].
  destruct (reEnsure env); [|done]. cbn [negb]. cbv zeta. destruct (reLast env); [|done]. cbn [negb].
  destruct (lastBatch _) as [batch revs]. destruct (_ || _); [done|].
  destruct (missingDowns _ revs) as [|m ms]; [|done]. set (downs := omap _ revs). destruct (_ && _); [done|].
  pose proof (rollbackBody_withdraws env dir downs (ensureRevisionsTable db) He) as H.
  destruct (rollbackBody exec env dir downs _) as [[db1 vs] [[op pa]|]]; cbn [fst] in *.
  - by destruct (negb _).
  - by destruct (_ && _).
Qed.

Lemma withdraws_inv db db' : withdraws db db' -> ledgerInv db -> ledgerInv db'.
Proof.
  intros (vs & Hr & Ha) (H1 & H2 & H3). unfold ledgerInv. rewrite Hr. split; [|split].
  - apply NoDup_ListNoDup. apply NoDup_ListNoDup in H1. clear -H1.
    induction (rows db) as [|r l IH]; [done|]. inversion H1 as [|? ? Hn Hl]; subst. rewrite filter_cons.
    case_decide; [|by apply IH]. cbn [map]. constructor; [|by apply IH]. intros Hin. apply Hn.
    apply in_map_iff in Hin as (x & Hx & Hin). apply in_map_iff. exists x. split; [done|].
    apply list_elem_of_In, list_elem_of_filter in Hin as [_ Hin]. by apply list_elem_of_In.
  - apply Forall_forall. intros r [_ Hin]%list_elem_of_filter. rewrite Forall_forall in H2. by apply H2.
  - intros r [Hnv Hin]%list_elem_of_filter. specialize (H3 r Hin). destruct Ha as [-> | ->]; [done|].
    destruct (dbAtlas db) as [al|]; [|done]. cbn in *. by apply list_elem_of_filter.
Qed.
End facts.

(** The commands that move the ledgers, each with any outcome. *)
Inductive ledgerStep {S} : Db S -> Db S -> Prop :=
| StepMigrate env dir db :
    applyKeeps env -> inRange (rows db) -> ledgerStep db (Migrate env dir db).1
| StepRollback exec env driver dir db :
    execKeeps exec -> ledgerStep db (Rollback exec env driver dir db).1
| StepSeed exec valid openOk entries db :
    execKeeps exec -> ledgerStep db (Seed exec valid openOk entries db).1.

Lemma seedAll_keeps {S} (exec : Db S -> bytes -> Db S * bool) files :
  execKeeps exec -> forall db, sameLedgers db (seedAll exec files db).1.
Proof.
  intros He. induction files as [|[name data] l IH]; intros db; [done|]. cbn [seedAll].
  destruct (TrimSpace _) as [|x t]; [done|]. destruct (splitSQLStatements _) as [|s ss]; [done|].
  pose proof (execAll_keeps exec (s :: ss) He 0 db) as H. destruct (execAll exec 0 (s :: ss) db) as [db1 [i|]]; [done|].
  eapply sameLedgers_trans; [exact H|apply IH].
Qed.

Lemma Seed_keeps {S} (exec : Db S -> bytes -> Db S * bool) valid openOk entries db :
  execKeeps exec -> sameLedgers db (Seed exec valid openOk entries db).1.
Proof.
  intros He. unfold Seed. destruct valid; [|done]. cbn [negb]. destruct ((listSeedFiles entries).1.1) as [|f fs]; [done|].
  destruct openOk; [|done]. cbn [negb]. pose proof (seedAll_keeps exec (f :: fs) He db) as H.
  by destruct (seedAll exec (f :: fs) db) as [db1 []].
Qed.

(** C11. Through any sequence of runs, rollbacks and seeds, with every call failing or not,
    no version is recorded twice, batches are numbered from one, and no version is recorded
    that Atlas does not have. *)
Theorem ledger_always_sound {S} (db db' : Db S) : rtc ledgerStep db db' -> ledgerInv db -> ledgerInv db'.
Proof.
  induction 1 as [|db1 db2 db3 Hs _ IH]; [done|]. intros Hi. apply IH. inversion Hs as [env dir ? Ha Hr|exec env driver dir ? He|exec valid o es ? He]; subst.
  - by apply Migrate_inv.
  - eapply withdraws_inv; [by apply Rollback_withdraws|done].
  - eapply withdraws_inv; [|done]. by apply withdraws_same, Seed_keeps.
Qed.

(** ** On a concrete directory *)

Module LedgerSample.
Definition version : bytes := &"20240101000000".
Definition dir : option Dir :=
  Some (mkDir {[&"20240101000000_init.sql" := &"CREATE TABLE users (id int);"]}
         (Some {[&"20240101000000_init.down.sql" := &"DROP TABLE users;"]})).

(** Atlas that applies the one version; statements that succeed and change nothing the model sees. *)
Definition apply (db : Db unit) : Db unit := mkDb (dbRevisions db) (Some (default [] (dbAtlas db) ++ [version])) tt.
Definition env : MigrateEnv unit := mkMigrateEnv true true true true apply true true true true 7.
Definition renv : RollbackEnv := mkRollbackEnv true true true true true (fun _ => true) true true true.
Definition exec (db : Db unit) (stmt : bytes) : Db unit * bool := (db, true).

Definition db0 : Db unit := mkDb None None tt.
Definition db1 : Db unit := mkDb (Some [mkRevision version (&"init") 1 7]) (Some [version]) tt.

Lemma apply_keeps : applyKeeps env.
Proof. intros db. split; [done|]. by exists [version]. Qed.

Lemma exec_keeps : execKeeps exec.
Proof. done. Qed.
End LedgerSample.

Lemma rollback_undoes_migrate_witness :
  Migrate LedgerSample.env LedgerSample.dir LedgerSample.db0 = (LedgerSample.db1, Ok (Applied 1 1)) /\
  rows (Rollback LedgerSample.exec LedgerSample.renv DatabaseDriverPostgres LedgerSample.dir LedgerSample.db1).1 = [].
Proof.
  split; [vm_compute; reflexivity|].
  refine (proj1 (proj2 (proj2 (rollback_undoes_migrate LedgerSample.exec LedgerSample.env LedgerSample.renv DatabaseDriverPostgres
    LedgerSample.dir LedgerSample.dir LedgerSample.db0 LedgerSample.db1 _ 1 1 1 1
    LedgerSample.apply_keeps LedgerSample.exec_keeps _ _ _)))).
  - constructor.
  - vm_compute. reflexivity.
  - vm_compute. reflexivity.
Defined.

(** The deletion from the revisions fails: the database is put back. *)
Definition failingDelete : RollbackEnv := mkRollbackEnv true true true true true (fun _ => true) false true true.

Lemma failed_rollback_keeps_witness :
  let db' := (Rollback LedgerSample.exec failingDelete DatabaseDriverMySQL LedgerSample.dir LedgerSample.db1).1 in
  rows db' = rows LedgerSample.db1 /\ dbAtlas db' = dbAtlas LedgerSample.db1.
Proof.
  refine (proj2 (failed_rollback_keeps LedgerSample.exec failingDelete DatabaseDriverMySQL LedgerSample.dir LedgerSample.db1 _
    (RollbackFailed (&"delete revisions") [] [LedgerSample.version]) _) LedgerSample.exec_keeps eq_refl).
  vm_compute. reflexivity.
Defined.

Lemma ledger_always_sound_witness :
  ledgerInv (Rollback LedgerSample.exec LedgerSample.renv DatabaseDriverPostgres LedgerSample.dir
    (Migrate LedgerSample.env LedgerSample.dir LedgerSample.db0).1).1.
Proof.
  apply (ledger_always_sound LedgerSample.db0).
  - eapply rtc_l; [apply StepMigrate; [apply LedgerSample.apply_keeps|constructor]|].
    eapply rtc_l; [apply StepRollback, LedgerSample.exec_keeps|apply rtc_refl].
  - split; [constructor|]. split; [constructor|]. intros r Hr. by apply not_elem_of_nil in Hr.
Defined.

(** On MySQL the two deletions of a rollback are two commits: when the second fails, the
    rollback fails with a message that says framework_migrations is unchanged, while its
    rows are gone and Atlas still has them. *)
Theorem mysql_rollback_half_recorded :
  let failing := mkRollbackEnv true true true true true (fun _ => true) true false true in
  Rollback LedgerSample.exec failing DatabaseDriverMySQL LedgerSample.dir LedgerSample.db1 =
  (mkDb (Some []) (Some [LedgerSample.version]) tt,
   Err (RollbackFailed (&"delete atlas revisions") [] [LedgerSample.version])).
Proof. vm_compute. reflexivity. Qed.
