(* ===== verification/SqlSafetyFacts.v ===== *)
(** * The two splitters of SQL

    [splitSQLStatements] (migrations/seed.go) runs down and seed files;
    [Statements] (manifest/classify.go) is what the classifiers read.  They agree on
    SQL with no quote and no comment, and on the down files of renames; a dash pair
    inside a quoted string tells them apart.

    The second part shows that no statement passes unread. *)

From stdpp Require Import base tactics numbers list strings gmap sets.
From Stdlib Require Import ZArith Lia Ascii.
From S2P Require Import Prelude GoBytes DotEnv GoText Regex SqlClassify AtlasSchema SchemaSql SchemaPlan SchemaPlanFacts MigrationDir MigrationLedger SchemaClassify RenameFacts.

Local Open Scope string_scope.
Local Open Scope list_scope.
Local Open Scope gotext_scope.

(** ** Trimming *)

Lemma trim_right_prefix seqs b : exists q, b = trim_right seqs b ++ q.
Proof.
  unfold trim_right, trim_left. set (seqs' := map _ seqs). set (n := length (rev b)). clearbody n.
  destruct (trim_fuel_suffix seqs' n (rev b)) as [p Hp].
  exists (rev p). apply (f_equal (@rev ascii)) in Hp. by rewrite rev_involutive, rev_app_distr in Hp.
Qed.

Lemma TrimSpace_within b : exists p q, b = p ++ TrimSpace b ++ q.
Proof.
  unfold TrimSpace. destruct (trim_fuel_suffix space_runes (length b) b) as [p Hp].
  destruct (trim_right_prefix space_runes (trim_left space_runes b)) as [q Hq].
  exists p, q. rewrite <-Hq. exact Hp.
Qed.

Lemma TrimSpace_bytes (c : ascii) b : c ∉ b -> c ∉ TrimSpace b.
Proof. destruct (TrimSpace_within b) as (p & q & H). rewrite H at 1. rewrite !not_elem_of_app. tauto. Qed.

Lemma strip_any_prefix seqs t u : strip_any seqs (t ++ u) = None -> strip_any seqs t = None.
Proof.
  rewrite !strip_any_None. intros H s Hs. specialize (H s Hs). destruct (strip_prefix s t) as [r|] eqn:E; [|done].
  by rewrite (strip_prefix_app_r _ _ _ _ E) in H.
Qed.

Lemma rev_runes_nonempty : Forall (fun s => s <> []) (map (@rev ascii) space_runes).
Proof. repeat constructor; discriminate. Qed.

Lemma TrimSpace_idem b : TrimSpace (TrimSpace b) = TrimSpace b.
Proof.
  unfold TrimSpace at 1. set (t := TrimSpace b). assert (trim_left space_runes t = t) as ->.
  { apply trim_left_id. destruct (trim_right_prefix space_runes (trim_left space_runes b)) as [q Hq].
    apply (strip_any_prefix _ _ q). fold (TrimSpace b) in Hq. fold t in Hq. rewrite <-Hq.
    apply trim_fuel_stops; [apply space_runes_nonempty|done]. }
  subst t. unfold TrimSpace, trim_right. rewrite rev_involutive. f_equal.
  apply trim_left_id, trim_fuel_stops; [apply rev_runes_nonempty|done].
Qed.

(** ** Agreement *)

(** SQL with no quoted string and nothing that starts a comment. *)
Definition bare (sql : bytes) : Prop :=
  (squote ∉ sql) /\ (dquote ∉ sql) /\ ("-"%char ∉ sql) /\ ("/"%char ∉ sql).

Lemma HasPrefix_head c p b : c ∉ b -> HasPrefix b (c :: p) = false.
Proof.
  intros Hc. unfold HasPrefix. destruct b as [|x b]; [done|]. cbn [strip_prefix].
  destruct (Ascii.eqb_spec c x) as [->|]; [|done]. by destruct Hc; left.
Qed.

Lemma bare_not_comment stmt :
  ("-"%char ∉ stmt) -> ("/"%char ∉ stmt) -> TrimSpace stmt = stmt -> stmt <> [] -> isSQLCommentOnly stmt = false.
Proof.
  intros Hd Hs Ht Hne. unfold isSQLCommentOnly. rewrite Ht. destruct stmt as [|x r]; [done|]. cbn [length comment_only].
  unfold dropComment. change (&"--") with ("-"%char :: &"-"). change (&"/*") with ("/"%char :: &"*").
  by rewrite !HasPrefix_head.
Qed.

(** A fragment with no dash and no slash is kept when anything is left of it. *)
Lemma emit_bare p rest :
  ("-"%char ∉ p) -> ("/"%char ∉ p) ->
  emit (rev p) rest = if nonempty (TrimSpace p) then TrimSpace p :: rest else rest.
Proof.
  intros Hd Hs. unfold emit. rewrite rev_involutive. destruct (nonempty (TrimSpace p)) eqn:E; [|done].
  rewrite bare_not_comment; auto using TrimSpace_bytes, TrimSpace_idem. by destruct (TrimSpace p).
Qed.

Definition emitAll (ps : list bytes) : list bytes := foldr (fun p acc => emit (rev p) acc) [] ps.

Lemma emitAll_bare ps :
  Forall (fun p => ("-"%char ∉ p) /\ ("/"%char ∉ p)) ps ->
  emitAll ps = filter (fun s => nonempty s = true) (map TrimSpace ps).
Proof.
  induction 1 as [|p ps [Hd Hs] _ IH]; [done|]. cbn [emitAll foldr map]. change (foldr _ [] ps) with (emitAll ps).
  rewrite emit_bare by done. destruct (nonempty (TrimSpace p)) eqn:E.
  - by rewrite filter_cons_True, IH.
  - rewrite filter_cons_False by (by rewrite E). exact IH.
Qed.

Lemma split_plain_byte r current rest :
  Ascii.eqb r squote = false -> Ascii.eqb r dquote = false -> Ascii.eqb r "-" = false -> Ascii.eqb r "/" = false ->
  split_sql Plain current (r :: rest) =
  if Ascii.eqb r ";" then emit current (split_sql Plain [] rest) else split_sql Plain (r :: current) rest.
Proof. intros H1 H2 H3 H4. cbn [split_sql]. rewrite H1, H2, H3, H4. by destruct rest. Qed.

Lemma bare_cons r sql : bare (r :: sql) ->
  (Ascii.eqb r squote = false /\ Ascii.eqb r dquote = false /\ Ascii.eqb r "-" = false /\ Ascii.eqb r "/" = false) /\ bare sql.
Proof.
  unfold bare. rewrite !not_elem_of_cons. intros ([] & [] & [] & []). rewrite !Ascii.eqb_neq. repeat split; congruence.
Qed.

(** Bare SQL is cut at its semicolons. *)
Lemma split_sql_bare sql : forall current, bare sql ->
  split_sql Plain current sql =
  match SplitByte sql semicolon with
  | [] => []
  | p :: ps => emit (rev p ++ current) (emitAll ps)
  end.
Proof.
  induction sql as [|r sql IH]; intros current Hb; [done|].
  apply bare_cons in Hb as [(H1 & H2 & H3 & H4) Hb]. rewrite split_plain_byte by done. cbn [SplitByte].
  change (Ascii.eqb r semicolon) with (Ascii.eqb r ";"). pose proof (SplitByte_nonempty sql semicolon) as Hne.
  destruct (Ascii.eqb r ";"); rewrite IH by done; destruct (SplitByte sql semicolon) as [|p ps]; try done.
  - cbn [rev app emitAll foldr]. by rewrite app_nil_r.
  - cbn [rev]. by rewrite <-app_assoc.
Qed.

Lemma SplitByte_bytes (c : ascii) d sql : c ∉ sql -> Forall (fun p => c ∉ p) (SplitByte sql d).
Proof.
  induction sql as [|x sql IH]; intros Hc; [repeat constructor; apply not_elem_of_nil|].
  apply not_elem_of_cons in Hc as [Hx Hc]. specialize (IH Hc). cbn [SplitByte]. destruct (Ascii.eqb x d).
  - constructor; [apply not_elem_of_nil|done].
  - destruct (SplitByte sql d) as [|l ls]; [constructor; [|constructor]|inversion IH; subst; constructor; [|done]];
      rewrite not_elem_of_cons; split; auto using not_elem_of_nil.
Qed.

Lemma lines_back sql : concat (map (fun line => line ++ newline_b) (SplitByte sql newline)) = sql ++ newline_b.
Proof.
  induction sql as [|x sql IH]; [done|]. cbn [SplitByte]. destruct (Ascii.eqb_spec x newline) as [->|Hx].
  - cbn [map concat]. by rewrite IH.
  - pose proof (SplitByte_nonempty sql newline). destruct (SplitByte sql newline) as [|l ls]; [done|].
    cbn [map concat] in *. cbn [app]. by rewrite IH.
Qed.

(** Lines without a dash come back as they are, with a newline after the last. *)
Lemma stripComments_bare sql : ("-"%char ∉ sql) -> stripComments sql = sql ++ newline_b.
Proof.
  intros Hd. unfold stripComments. rewrite <-(lines_back sql). f_equal. apply map_ext_in. intros l Hl.
  pose proof (SplitByte_bytes "-" newline sql Hd) as Hf. rewrite Forall_forall in Hf.
  apply list_elem_of_In, Hf in Hl. unfold stripLineComment. change (&"--") with ("-"%char :: &"-").
  by rewrite Index_none.
Qed.

(** The splitter that runs down and seed files and the splitter the classifiers read with
    cut SQL into the same statements, when it has no quotes and nothing that starts a
    comment. *)
Theorem splitters_agree sql : bare sql -> splitSQLStatements sql = Statements sql.
Proof.
  intros Hb. assert (("-"%char ∉ sql) /\ ("/"%char ∉ sql)) as [Hd Hs] by (destruct Hb as (_ & _ & ? & ?); done).
  unfold splitSQLStatements, Statements, splitStatements. rewrite stripComments_bare, pieces_trail_newline by done.
  rewrite split_sql_bare by done. pose proof (SplitByte_nonempty sql semicolon).
  rewrite <-emitAll_bare.
  - destruct (SplitByte sql semicolon) as [|p ps]; [done|]. by rewrite app_nil_r.
  - pose proof (SplitByte_bytes "-" semicolon sql Hd) as H1. pose proof (SplitByte_bytes "/" semicolon sql Hs) as H2.
    apply Forall_forall. intros p Hp. rewrite Forall_forall in H1. rewrite Forall_forall in H2. auto.
Qed.

Lemma splitters_agree_witness :
  splitSQLStatements (&"CREATE TABLE a (id int); DELETE FROM b;") = [&"CREATE TABLE a (id int)"; &"DELETE FROM b"].
Proof.
  rewrite (splitters_agree (&"CREATE TABLE a (id int); DELETE FROM b;")); [vm_compute; reflexivity|].
  repeat split; apply (bool_decide_eq_true_1 (_ ∉ _)); vm_compute; reflexivity.
Defined.

(** Two dashes inside a quoted string hide the rest of their line from the classifier: of an
    INSERT of such a string and a DELETE on the same line, the runner executes both, and the
    classifier reports one safe statement. *)
Theorem dashes_in_a_string_hide_a_delete :
  let sql := &"INSERT INTO notes (body) VALUES ('--'); DELETE FROM users;" in
  splitSQLStatements sql = [&"INSERT INTO notes (body) VALUES ('--')"; &"DELETE FROM users"] /\
  OpSafety (classifyStatement (&"DELETE FROM users")) = SafetyDataLoss /\
  map OpSafety (Classify sql) = [SafetyNonDestructive].
Proof. vm_compute. repeat split; reflexivity. Qed.

(** * No statement passes unread

    A statement is safe only when it opens with one of the words the classifier
    knows; every other statement is data loss for [Classify], and a destructive
    finding for [withStatementFindings]. *)

Local Open Scope string_scope.
Local Open Scope list_scope.
Local Open Scope gotext_scope.

(** ** Opening words *)

(** The text does not start with the word, in any case.  A byte that may begin a
    rune folding to a letter counts as a start. *)
Fixpoint notStart (s word : bytes) : bool :=
  match word, s with
  | [], _ => false
  | _ :: _, [] => true
  | c :: word, x :: s =>
      if unfolded x then (if Ascii.eqb (lower_byte x) (lower_byte c) then notStart s word else true) else false
  end.

Lemma ci_notStart k word : forall s prev cs, notStart s word = true -> exec (ci word) k (prev, s) cs = None.
Proof.
  induction word as [|c word IH]; intros [|x s] prev cs; cbn [notStart]; try done; [intros _; apply ci_nil_text|].
  destruct (unfolded x) eqn:Hu; [|done]. intros H. cbn [ci]. rewrite exec_Cat, ci_char_cons by done.
  destruct (Ascii.eqb _ _); [by apply IH|done].
Qed.

(** The words a safe statement, or one with rules of its own, opens with. *)
Definition openings : list bytes :=
  map of_string ["CREATE"; "DROP"; "ALTER"; "INSERT"; "SET"; "COMMENT"; "GRANT"; "REVOKE"; "PRAGMA"; "BEGIN"; "COMMIT";
                 "SAVEPOINT"; "RELEASE"; "ANALYZE"; "VACUUM"; "REINDEX"; "RENAME"].

Section unread.
Context (stmt : bytes).
Hypothesis Hws : head_not is_ws stmt.
Hypothesis Hopen : Forall (fun word => notStart stmt word = true) openings.

Lemma opens s : of_string s ∈ openings -> notStart stmt (of_string s) = true.
Proof using Hopen. rewrite Forall_forall in Hopen. apply Hopen. Qed.

(** An expression that opens with one of the words does not match. *)
Lemma lead_word s l : of_string s ∈ openings -> search (lead (w s :: l)) (start stmt) = None.
Proof using Hws Hopen.
  intros Hs. unfold lead. cbn [cat]. rewrite search_anchored. destruct l as [|r l].
  - rewrite exec_Cat, ws_none by done. unfold w. by rewrite ci_notStart by (by apply opens).
  - rewrite exec_Cat, ws_none by done. rewrite exec_Cat. unfold w. by rewrite ci_notStart by (by apply opens).
Qed.

(** An alternative between words, all of them openings. *)
Lemma alt_none k prev cs l :
  Forall (fun r => forall k cs, exec r k (prev, stmt) cs = None) l -> exec (alt l) k (prev, stmt) cs = None.
Proof using.
  clear Hws Hopen. induction 1 as [|r l Hr Hl IH]; [by cbn; destruct stmt|]. destruct l as [|r' l]; [apply Hr|].
  change (alt (r :: r' :: l)) with (Alt r (alt (r' :: l))). cbn [exec]. rewrite Hr. exact IH.
Qed.

Lemma word_then s r prev k cs : of_string s ∈ openings -> exec (Cat (w s) r) k (prev, stmt) cs = None.
Proof using Hopen. intros Hs. rewrite exec_Cat. unfold w. by rewrite ci_notStart by (by apply opens). Qed.

Ltac opening := apply (bool_decide_eq_true_1 (_ ∈ openings)); vm_compute; reflexivity.

Lemma not_safe : MatchString reSafeStmt stmt = false.
Proof using Hws Hopen.
  unfold MatchString, reSafeStmt, lead. cbn [cat]. rewrite search_anchored, exec_Cat, ws_none by done.
  match goal with |- context [exec (Cap 1 (alt ?l)) ?k ?c ?r] =>
    change (exec (Cap 1 (alt l)) k c r) with
      (exec (alt l) (fun c' cs => k c' ((1, take (length c.2 - length c'.2) c.2) :: cs)) c r) end.
  rewrite alt_none; [done|]. repeat (constructor; [intros; apply word_then; opening|]). constructor.
Qed.

Ltac refused :=
  cbv delta [MatchString FindStringSubmatch reCreateTable reCreateIndex reCreateSafe reDropTable reDropIndex reDropAny reAlterTable
             reAlterTableBody reInsertOrReplace reUpsertClause]; cbv beta; rewrite lead_word by opening; reflexivity.

(** Such a statement is data loss of no known kind. *)
Lemma unread_data_loss : OpSafety (classifyStatement stmt) = SafetyDataLoss /\ Kind (classifyStatement stmt) = OpOther.
Proof using Hws Hopen.
  unfold classifyStatement.
  assert (MatchString reCreateTable stmt = false) as -> by refused. assert (MatchString reCreateIndex stmt = false) as -> by refused.
  assert (MatchString reCreateSafe stmt = false) as -> by refused. assert (MatchString reDropTable stmt = false) as -> by refused.
  assert (MatchString reDropIndex stmt = false) as -> by refused. assert (MatchString reDropAny stmt = false) as -> by refused.
  assert (FindStringSubmatch reAlterTable stmt = None) as -> by refused. rewrite not_safe.
  by destruct (MatchString reDataChange stmt).
Qed.

Lemma unread_shape : upsertTable stmt = None /\ FindStringSubmatch reAlterTableBody stmt = None.
Proof using Hws Hopen.
  split; [|refused]. unfold upsertTable. cbn [firstSome].
  assert (FindStringSubmatch reInsertOrReplace stmt = None) as -> by refused.
  by assert (FindStringSubmatch reUpsertClause stmt = None) as -> by refused.
Qed.
End unread.

(** A statement has no white space in front. *)
Lemma TrimSpace_head b : head_not is_ws (TrimSpace b).
Proof.
  destruct (TrimSpace b) as [|x r] eqn:E; [done|]. cbn [head_not]. destruct (is_ws x) eqn:Hx; [|done]. exfalso.
  assert (strip_any space_runes (trim_left space_runes b) = None) as Hn
    by (apply trim_fuel_stops; [apply space_runes_nonempty|done]).
  assert (exists q, trim_left space_runes b = x :: r ++ q) as [q Hq].
  { unfold TrimSpace, trim_right in E. set (t := trim_left space_runes b) in *.
    destruct (trim_fuel_suffix (map (@rev ascii) space_runes) (length (rev t)) (rev t)) as [p Hp].
    exists (rev p). apply (f_equal (@rev ascii)) in Hp. rewrite rev_involutive, rev_app_distr in Hp.
    rewrite Hp. change (trim_fuel _ _ _) with (trim_left (map (@rev ascii) space_runes) (rev t)). by rewrite E. }
  rewrite Hq in Hn. assert ([x] ∈ space_runes) as Hin.
  { revert Hx. clear. revert x. apply (every_byte (fun x => is_ws x = true -> [x] ∈ space_runes)). vm_compute. reflexivity. }
  rewrite strip_any_None in Hn. specialize (Hn [x] Hin). cbn in Hn. by rewrite Ascii.eqb_refl in Hn.
Qed.

Lemma Statements_head sql stmt : stmt ∈ Statements sql -> head_not is_ws stmt.
Proof.
  unfold Statements, splitStatements. intros [_ (b & -> & _)%list_elem_of_fmap]%list_elem_of_filter. apply TrimSpace_head.
Qed.

(** The classifier fails safe: a statement that opens with none of the words it knows, in
    any case, is reported as data loss. *)
Theorem classify_fails_safe sql stmt :
  stmt ∈ Statements sql -> Forall (fun word => notStart stmt word = true) openings ->
  exists op, op ∈ Classify sql /\ op = classifyStatement stmt /\ OpSafety op = SafetyDataLoss.
Proof.
  intros Hin Ho. exists (classifyStatement stmt). split; [by apply list_elem_of_fmap_2|]. split; [done|].
  apply unread_data_loss; [by eapply Statements_head|done].
Qed.

Lemma classify_fails_safe_witness :
  exists op, op ∈ Classify (&"CREATE TABLE a (id int); dElete from users") /\
    op = classifyStatement (&"dElete from users") /\ OpSafety op = SafetyDataLoss.
Proof.
  apply (classify_fails_safe (&"CREATE TABLE a (id int); dElete from users") (&"dElete from users")).
  - apply (bool_decide_eq_true_1 (_ ∈ _)). vm_compute. reflexivity.
  - apply (bool_decide_eq_true_1 (Forall _ _)). vm_compute. reflexivity.
Defined.

(** ** Findings *)

Section findings.
Context (h : Store) (steps : list PlanStep) (desired : Realm) (stmts : list bytes).

(** The ids seen are those of the steps and of the findings, and every finding has
    to be acknowledged. *)
Definition findInv (st : findState) : Prop :=
  (forall id, id ∈ haveIDs st <-> id ∈ map ID (found st) \/ id ∈ map ID steps) /\
  Forall (fun s => NeedsAcknowledgement s = true) (found st).

Lemma addFinding_inv s st : NeedsAcknowledgement s = true -> findInv st -> findInv (addFinding s st).
Proof.
  intros Hs [Hi Hf]. unfold addFinding. case_bool_decide; [done|]. split; cbn [haveIDs found].
  - intros id. rewrite elem_of_cons, map_app, elem_of_app, Hi. cbn [map]. rewrite list_elem_of_singleton. tauto.
  - apply Forall_app. split; [done|]. by constructor.
Qed.

Lemma addFinding_has s st : ID s ∈ haveIDs (addFinding s st).
Proof. unfold addFinding. case_bool_decide; [done|]. left. Qed.

Definition grows (st st' : findState) : Prop := forall id, id ∈ haveIDs st -> id ∈ haveIDs st'.

Lemma addFinding_grows s st : grows st (addFinding s st).
Proof. intros id Hid. unfold addFinding. case_bool_decide; [done|]. by right. Qed.

Lemma kept st : findInv st -> findInv st /\ grows st st.
Proof. intros H. split; [done|]. by intros id. Qed.

Lemma added s st : NeedsAcknowledgement s = true -> findInv st -> findInv (addFinding s st) /\ grows st (addFinding s st).
Proof. intros Hs Hi. split; [by apply addFinding_inv|apply addFinding_grows]. Qed.

Lemma actionFinding_keeps i table stmt st action :
  findInv st -> findInv (actionFinding steps i table stmt st action) /\ grows st (actionFinding steps i table stmt st action).
Proof.
  intros Hi. unfold actionFinding, alterColumnFinding.
  destruct (classifyAction action) as [|c|c r|]; [by apply kept|by apply added|destruct r|by apply added].
  - by apply added.
  - case_bool_decide; [by apply kept|by apply added].
Qed.

Lemma actions_keep i table stmt l : forall st, findInv st ->
  findInv (fold_left (actionFinding steps i table stmt) l st) /\ grows st (fold_left (actionFinding steps i table stmt) l st).
Proof.
  induction l as [|a l IH]; intros st Hi; [by apply kept|]. cbn [fold_left].
  destruct (actionFinding_keeps i table stmt st a Hi) as [H1 H2]. destruct (IH _ H1) as [H3 H4].
  split; [done|]. intros id Hid. by apply H4, H2.
Qed.

Lemma noteCopy_ids i stmt st : haveIDs (noteCopy h steps desired i stmt st) = haveIDs st /\
  found (noteCopy h steps desired i stmt st) = found st.
Proof. unfold noteCopy. by destruct (rebuildCopySource _ _ _ _ _). Qed.

Lemma findInv_same st st' : haveIDs st' = haveIDs st -> found st' = found st -> findInv st -> findInv st'.
Proof. unfold findInv. by intros -> ->. Qed.

Lemma statementFinding_keeps st i stmt :
  findInv st -> findInv (statementFinding h steps desired stmts st (i, stmt)) /\
                grows st (statementFinding h steps desired stmts st (i, stmt)).
Proof.
  intros Hi0. unfold statementFinding. destruct (noteCopy_ids i stmt st) as [Hh Hfd].
  assert (findInv (noteCopy h steps desired i stmt st)) as Hi by (by eapply findInv_same).
  assert (grows st (noteCopy h steps desired i stmt st)) as Hg by (intros id; by rewrite Hh).
  set (st1 := noteCopy _ _ _ _ _ _) in *. clearbody st1.
  assert (forall st2, findInv st2 /\ grows st1 st2 -> findInv st2 /\ grows st st2) as Hcomp.
  { intros st2 [H1 H2]. split; [done|]. intros id Hid. by apply H2, Hg. }
  apply Hcomp. clear Hcomp.
  destruct (upsertTable stmt); [by apply added|].
  destruct (FindStringSubmatch reAlterTableBody stmt); [by apply actions_keep|].
  destruct (OpSafety _); [by apply kept|]. destruct (Kind _); try (destruct (FindStringSubmatch _ _); by apply added).
  destruct (exemptDrop _ _ _ _); [by apply (kept st1)|].
  assert (findInv (markDropped (Resource (classifyStatement stmt)) st1)) as Hm by (by eapply findInv_same).
  split; [by apply addFinding_inv|]. apply (addFinding_grows _ (markDropped _ st1)).
Qed.

Lemma scan_keeps l : forall st, findInv st ->
  findInv (fold_left (statementFinding h steps desired stmts) l st) /\
  grows st (fold_left (statementFinding h steps desired stmts) l st).
Proof.
  induction l as [|[i s] l IH]; intros st Hi; [by apply kept|]. cbn [fold_left].
  destruct (statementFinding_keeps st i s Hi) as [H1 H2]. destruct (IH _ H1) as [H3 H4].
  split; [done|]. intros id Hid. by apply H4, H2.
Qed.

(** The id a statement of no known kind is reported under. *)
Definition statementID (id : bytes) : Prop :=
  (exists t n, id = stepID StepDataChange t n) \/ (exists t n, id = stepID StepUnclassifiedSQL t n).

Lemma unread_found st i stmt :
  head_not is_ws stmt -> Forall (fun word => notStart stmt word = true) openings ->
  exists id, statementID id /\ id ∈ haveIDs (statementFinding h steps desired stmts st (i, stmt)).
Proof.
  intros Hws Ho. unfold statementFinding. destruct (unread_shape stmt Hws Ho) as [-> ->].
  destruct (unread_data_loss stmt Hws Ho) as [-> ->]. destruct (FindStringSubmatch reDataChangeTable stmt) as [m|].
  - eexists. split; [|apply addFinding_has]. left. by eexists _, _.
  - eexists. split; [|apply addFinding_has]. right. by eexists _, _.
Qed.

Lemma scan_finds l : forall st i stmt, findInv st -> (i, stmt) ∈ l ->
  head_not is_ws stmt -> Forall (fun word => notStart stmt word = true) openings ->
  exists id, statementID id /\ id ∈ haveIDs (fold_left (statementFinding h steps desired stmts) l st).
Proof.
  induction l as [|[j s] l IH]; intros st i stmt Hi Hin Hws Ho; [by apply not_elem_of_nil in Hin|]. cbn [fold_left].
  destruct (statementFinding_keeps st j s Hi) as [H1 _]. apply elem_of_cons in Hin as [[= <- <-]|Hin]; [|by eapply IH].
  destruct (unread_found st i stmt Hws Ho) as (id & Hid & Hh). exists id. split; [done|]. by apply (scan_keeps l _ H1).
Qed.
End findings.

(** The diff's steps have none of the ids that only statements have. *)
Definition diffStep (s : PlanStep) : Prop :=
  HasPrefix (ID s) (&"data_change:") = false /\ HasPrefix (ID s) (&"unclassified_sql:") = false.

Lemma HasPrefix_app p b : HasPrefix (p ++ b) p = true.
Proof. unfold HasPrefix. by rewrite (proj2 (strip_prefix_Some p (p ++ b) b)). Qed.

Lemma stepID_app code t n : exists r, stepID code t n = (code ++ &":") ++ r.
Proof. unfold stepID. destruct n; [exists t|exists (t ++ &"." ++ a :: n)]; by rewrite <-!app_assoc. Qed.

Lemma diffStep_not s : diffStep s -> ~ statementID (ID s).
Proof.
  intros [H1 H2] [(t & n & E)|(t & n & E)]; rewrite E in *.
  - destruct (stepID_app StepDataChange t n) as [r Hr]. rewrite Hr in H1.
    change (&"data_change:") with (StepDataChange ++ &":") in H1. by rewrite HasPrefix_app in H1.
  - destruct (stepID_app StepUnclassifiedSQL t n) as [r Hr]. rewrite Hr in H2.
    change (&"unclassified_sql:") with (StepUnclassifiedSQL ++ &":") in H2. by rewrite HasPrefix_app in H2.
Qed.

(** A statement the classifier reads. *)
Lemma read_needs_acknowledgement h steps sql desired stmt :
  Forall diffStep steps -> stmt ∈ Statements sql -> Forall (fun word => notStart stmt word = true) openings ->
  exists s, s ∈ withStatementFindings h steps sql desired /\ NeedsAcknowledgement s = true.
Proof.
  intros Hd Hin Ho. unfold withStatementFindings, scanStatements. set (stmts := Statements sql).
  set (st0 := mkFind _ _ _ _). assert (findInv steps st0) as H0.
  { split; [|constructor]. intros id. subst st0. cbn. rewrite elem_of_nil. tauto. }
  apply list_elem_of_lookup in Hin as Hlk. destruct Hlk as [i Hi].
  assert ((i, stmt) ∈ zip (seq 0 (length stmts)) stmts) as Hz.
  { apply list_elem_of_lookup. exists i. apply lookup_zip_with_Some. exists i, stmt. split; [done|]. split; [|done].
    apply lookup_seq. split; [done|]. by apply lookup_lt_Some in Hi. }
  destruct (scan_finds h steps desired stmts _ st0 i stmt H0 Hz (Statements_head _ _ Hin) Ho) as (id & Hid & Hh).
  destruct (scan_keeps h steps desired stmts (zip (seq 0 (length stmts)) stmts) st0 H0) as [[Hiff Hack] _].
  apply Hiff in Hh as [Hh|Hh]; apply list_elem_of_fmap in Hh as (s & -> & Hs).
  - exists s. split; [apply elem_of_app; by right|]. rewrite Forall_forall in Hack. by apply Hack.
  - rewrite Forall_forall in Hd. by destruct (diffStep_not s (Hd s Hs)).
Qed.

(** ** What the runner executes is read

    The quote-aware splitter cuts a text without comments into pieces; the classifier, which
    knows no quotes, cuts each of them further.  The first cut of a piece still shows how
    the statement opens. *)

(** No pair of dashes and no start of a block comment, in strings or out of them. *)
Definition commentFree (sql : bytes) : Prop := Index sql (&"--") = None /\ Index sql (&"/*") = None.

Lemma Index_None_cons x b p : Index (x :: b) p = None -> HasPrefix (x :: b) p = false /\ Index b p = None.
Proof. cbn [Index]. destruct (HasPrefix (x :: b) p); [done|]. by destruct (Index b p). Qed.

Lemma commentFree_cons x sql : commentFree (x :: sql) -> commentFree sql.
Proof. intros [[_ H1]%Index_None_cons [_ H2]%Index_None_cons]. done. Qed.

Lemma HasPrefix_longer a b p : HasPrefix a p = true -> HasPrefix (a ++ b) p = true.
Proof.
  unfold HasPrefix. destruct (strip_prefix p a) as [r|] eqn:E; [|done]. by rewrite (strip_prefix_app_r _ _ b _ E).
Qed.

Lemma lines_without p sql : p <> [] -> Index sql p = None -> Forall (fun l => Index l p = None) (SplitByte sql newline).
Proof.
  intros Hp. induction sql as [|x sql IH]; intros H.
  { constructor; [|constructor]. by destruct p. }
  apply Index_None_cons in H as [Hx H]. specialize (IH H). cbn [SplitByte]. destruct (Ascii.eqb x newline).
  { constructor; [by destruct p|done]. }
  destruct (SplitByte sql newline) as [|l ls] eqn:E; [by destruct (SplitByte_nonempty sql newline)|].
  apply Forall_cons in IH as [Hl Hls]. constructor; [|done]. cbn [Index].
  destruct (HasPrefix (x :: l) p) eqn:Hh; [|by rewrite Hl].
  assert (exists r, sql = l ++ r) as [r ->].
  { clear -E. revert l ls E. induction sql as [|y sql IH]; intros l ls; cbn [SplitByte]; [intros [= <- _]; by exists []|].
    destruct (Ascii.eqb y newline); [intros [= <- _]; by eexists|].
    destruct (SplitByte sql newline) as [|l' ls'] eqn:E'; [by destruct (SplitByte_nonempty sql newline)|].
    intros [= <- _]. destruct (IH l' ls' eq_refl) as [r ->]. by exists r. }
  apply (HasPrefix_longer _ r) in Hh. cbn [app] in Hh. congruence.
Qed.

Lemma Statements_commentFree sql : commentFree sql ->
  Statements sql = filter (fun s => nonempty s = true) (map TrimSpace (SplitByte sql semicolon)).
Proof.
  intros [Hd _]. unfold Statements, splitStatements. rewrite <-(pieces_trail_newline sql). f_equal. f_equal. f_equal.
  rewrite <-(lines_back sql). unfold stripComments. f_equal. apply map_ext_in. intros l Hl.
  pose proof (lines_without (&"--") sql ltac:(done) Hd) as Hf. rewrite Forall_forall in Hf.
  apply list_elem_of_In, Hf in Hl. unfold stripLineComment. by rewrite Hl.
Qed.

(** Every semicolon of a piece comes after a quote. *)
Definition quotedSemicolons (p : bytes) : Prop :=
  forall a b, p = a ++ semicolon :: b -> (squote ∈ a) \/ (dquote ∈ a).

Lemma quotedSemicolons_snoc p r :
  quotedSemicolons p -> (r = semicolon -> (squote ∈ p) \/ (dquote ∈ p)) -> quotedSemicolons (p ++ [r]).
Proof.
  intros Hp Hr a b E. destruct b as [|x b _] using rev_ind.
  - apply app_inj_tail in E as [<- ->]. by apply Hr.
  - rewrite app_comm_cons, app_assoc in E. apply app_inj_tail in E as [-> _]. by eapply Hp.
Qed.

(** [p] is one of the pieces of [sql], cut at semicolons. *)
Definition pieceOf (p sql : bytes) : Prop :=
  exists pre post, sql = pre ++ p ++ post /\ (pre = [] \/ exists l, pre = l ++ [semicolon]) /\
    (post = [] \/ exists l, post = semicolon :: l).

Lemma emit_elem current rest s : s ∈ emit current rest -> (s = TrimSpace (rev current) /\ s <> []) \/ s ∈ rest.
Proof.
  unfold emit. destruct (nonempty (TrimSpace (rev current))) eqn:E; cbn [andb]; [|by right].
  destruct (negb _); [|by right]. intros [->|H]%elem_of_cons; [left|by right]. split; [done|]. by destruct (TrimSpace _).
Qed.

(** Where the scan is: a quote that was opened is in the current piece. *)
Definition scanInv (st : scan) (current : bytes) : Prop :=
  quotedSemicolons (rev current) /\
  match st with
  | Plain => True
  | InSingle | InDouble => (squote ∈ rev current) \/ (dquote ∈ rev current)
  | LineComment | BlockComment => False
  end.

Lemma scanInv_step st st' current r :
  scanInv st current -> (r = semicolon -> st <> Plain) ->
  match st' with
  | Plain => True
  | InSingle | InDouble => st <> Plain \/ r = squote \/ r = dquote
  | _ => False
  end -> scanInv st' (r :: current).
Proof.
  intros [Hq Hst] Hr Hst'. split; cbn [rev].
  - apply quotedSemicolons_snoc; [done|]. intros E. specialize (Hr E). by destruct st.
  - destruct st'; try done; rewrite !elem_of_app, !list_elem_of_singleton;
      (destruct Hst' as [Hne|[->| ->]]; [|tauto..]); destruct st; try done; tauto.
Qed.

Lemma pieceOf_next current r rest p : pieceOf p (rev (r :: current) ++ rest) -> pieceOf p (rev current ++ r :: rest).
Proof. cbn [rev]. by rewrite <-app_assoc. Qed.

Lemma split_pieces n : forall st current sql s, (length sql <= n)%nat -> commentFree sql -> scanInv st current ->
  s ∈ split_sql st current sql ->
  exists p, pieceOf p (rev current ++ sql) /\ quotedSemicolons p /\ s = TrimSpace p /\ s <> [].
Proof.
  induction n as [|n IH]; intros st current sql s Hlen Hf Hinv Hs.
  all: destruct sql as [|r rest]; [|cbn in Hlen; try lia].
  1, 2: destruct (emit_elem current [] s Hs) as [[-> Hne]|?%not_elem_of_nil]; [|done]; exists (rev current);
    split; [exists [], []; rewrite !app_nil_r; auto|]; split; [apply Hinv|done].
  assert (commentFree rest) as Hf' by (by eapply commentFree_cons).
  assert (forall st', scanInv st' (r :: current) -> s ∈ split_sql st' (r :: current) rest ->
    exists p, pieceOf p (rev current ++ r :: rest) /\ quotedSemicolons p /\ s = TrimSpace p /\ s <> []) as Hone.
  { intros st' Hi Hin. destruct (IH st' (r :: current) rest s ltac:(lia) Hf' Hi Hin) as (p & Hp & H). exists p.
    split; [by apply pieceOf_next|done]. }
  assert (forall st' next rest', rest = next :: rest' -> scanInv st' (next :: r :: current) ->
    s ∈ split_sql st' (next :: r :: current) rest' ->
    exists p, pieceOf p (rev current ++ r :: rest) /\ quotedSemicolons p /\ s = TrimSpace p /\ s <> []) as Htwo.
  { intros st' next rest' -> Hi Hin. cbn in Hlen.
    destruct (IH st' (next :: r :: current) rest' s ltac:(lia) ltac:(by eapply commentFree_cons) Hi Hin) as (p & Hp & H).
    exists p. split; [by do 2 apply pieceOf_next|done]. }
  cbn [split_sql] in Hs. destruct st; [|by destruct Hinv..| |].
  - assert (s ∈ (if Ascii.eqb r squote then split_sql InSingle (r :: current) rest
                 else if Ascii.eqb r dquote then split_sql InDouble (r :: current) rest
                 else if Ascii.eqb r ";" then emit current (split_sql Plain [] rest)
                 else split_sql Plain (r :: current) rest)) as Hs'.
    { destruct rest as [|next rest']; [done|]. destruct Hf as [[Hd _]%Index_None_cons [Hb _]%Index_None_cons].
      destruct (Ascii.eqb_spec r "-") as [->|]; cbn [andb] in Hs.
      - destruct (Ascii.eqb_spec next "-") as [->|]; [done|]. done.
      - destruct (Ascii.eqb_spec r "/") as [->|]; cbn [andb] in Hs; [|done].
        destruct (Ascii.eqb_spec next "*") as [->|]; done. }
    clear Hs. destruct (Ascii.eqb_spec r squote) as [->|H1].
    { eapply Hone; [|done]. eapply scanInv_step; [done|done|]. auto. }
    destruct (Ascii.eqb_spec r dquote) as [->|H2].
    { eapply Hone; [|done]. eapply scanInv_step; [done|done|]. auto. }
    destruct (Ascii.eqb_spec r ";") as [->|H3].
    + destruct (emit_elem _ _ _ Hs') as [[-> Hne]|Hin].
      * exists (rev current). split; [exists [], (semicolon :: rest); split; [done|]; split; [auto|right; by exists rest]|].
        split; [apply Hinv|done].
      * destruct (IH Plain [] rest s ltac:(lia) Hf') as (p & (pre & post & E & Hpre & Hpost) & H); [|done|].
        { split; [|done]. intros a b E. by destruct a. }
        cbn [rev app] in E. rewrite E.
        exists p. split; [|done]. exists (rev current ++ semicolon :: pre), post. split; [by rewrite <-app_assoc|].
        split; [|done]. right. destruct Hpre as [->|[l ->]]; [by exists (rev current)|].
        exists (rev current ++ semicolon :: l). by rewrite <-app_assoc.
    + eapply Hone; [|done]. by eapply scanInv_step.
  - destruct (Ascii.eqb_spec r squote) as [->|H1].
    + destruct rest as [|next rest'].
      { eapply Hone; [|done]. by eapply scanInv_step. }
      destruct (Ascii.eqb_spec next squote) as [->|H2].
      * eapply Htwo; [done| |done]. eapply (scanInv_step InSingle); [eapply (scanInv_step InSingle); auto| |auto]; auto.
      * eapply Hone; [|done]. by eapply scanInv_step.
    + eapply Hone; [|done]. eapply (scanInv_step InSingle); auto.
  - destruct (Ascii.eqb_spec r dquote) as [->|H1].
    + destruct rest as [|next rest'].
      { eapply Hone; [|done]. by eapply scanInv_step. }
      destruct (Ascii.eqb_spec next dquote) as [->|H2].
      * eapply Htwo; [done| |done]. eapply (scanInv_step InDouble); [eapply (scanInv_step InDouble); auto| |auto]; auto.
      * eapply Hone; [|done]. by eapply scanInv_step.
    + eapply Hone; [|done]. eapply (scanInv_step InDouble); auto.
Qed.

(** Trimming on both sides of a byte that is part of no space. *)
Section keeping.
Context (seqs : list bytes) (c : ascii) (Hc : c ∉ concat seqs).

Lemma strip_any_keeps x y : strip_any seqs (x ++ c :: y) = (fun r => r ++ c :: y) <$> strip_any seqs x.
Proof using Hc.
  revert Hc. induction seqs as [|t ts IH]; [done|]. cbn [concat]. rewrite not_elem_of_app. intros [Ht Hts]. cbn [strip_any].
  assert (strip_prefix t (x ++ c :: y) = (fun r => r ++ c :: y) <$> strip_prefix t x) as ->.
  { clear -Ht. revert x. induction t as [|a t IH]; intros x; [done|]. apply not_elem_of_cons in Ht as [Ha Ht].
    destruct x as [|b x]; cbn [app strip_prefix].
    - destruct (Ascii.eqb_spec a c) as [->|]; [done|done].
    - destruct (Ascii.eqb a b); [by apply IH|done]. }
  destruct (strip_prefix t x); [done|]. by apply IH.
Qed.

Lemma trim_fuel_keeps n x y : trim_fuel n seqs (x ++ c :: y) = trim_fuel n seqs x ++ c :: y.
Proof using Hc.
  revert x. induction n as [|n IH]; intros x; [done|]. cbn [trim_fuel]. rewrite strip_any_keeps.
  by destruct (strip_any seqs x) as [r|]; cbn [fmap option_fmap option_map].
Qed.

Lemma trim_left_keeps x y : Forall (fun s => s <> []) seqs -> trim_left seqs (x ++ c :: y) = trim_left seqs x ++ c :: y.
Proof using Hc.
  intros Hne. unfold trim_left. rewrite trim_fuel_keeps. f_equal.
  assert (forall n m z, (length z <= n)%nat -> (length z <= m)%nat -> trim_fuel n seqs z = trim_fuel m seqs z) as Hfuel.
  { induction n as [|n IH]; intros m z Hn Hm; [by destruct z; [rewrite !trim_fuel_nil|cbn in Hn; lia]|].
    destruct m as [|m]; [by destruct z; [rewrite !trim_fuel_nil|cbn in Hm; lia]|]. cbn [trim_fuel].
    destruct (strip_any seqs z) as [r|] eqn:E; [|done]. apply strip_any_Some in E as (t & Ht & ->).
    rewrite Forall_forall in Hne. specialize (Hne t Ht). destruct t; [done|].
    cbn in Hn, Hm. rewrite length_app in Hn, Hm. apply IH; lia. }
  apply Hfuel; [rewrite length_app; lia|done].
Qed.
End keeping.

Lemma TrimSpace_keeps (c : ascii) x y :
  (c ∉ concat space_runes) -> (c ∉ concat (map (@rev ascii) space_runes)) ->
  exists r, TrimSpace (x ++ c :: y) = trim_left space_runes x ++ c :: r.
Proof.
  intros H1 H2. unfold TrimSpace. rewrite trim_left_keeps; [|done|apply space_runes_nonempty]. unfold trim_right.
  rewrite rev_app_distr. cbn [rev]. rewrite <-app_assoc. cbn [app].
  rewrite trim_left_keeps; [|done|apply rev_runes_nonempty]. rewrite rev_app_distr. cbn [rev]. rewrite rev_involutive, <-app_assoc.
  by eexists.
Qed.

Ltac kept := apply (bool_decide_eq_true_1 (_ ∉ _)); vm_compute; reflexivity.

Lemma piece_split p sql : pieceOf p sql -> (semicolon ∉ p) -> p ∈ SplitByte sql semicolon.
Proof.
  intros (pre & post & -> & Hpre & Hpost) Hp.
  assert (p ∈ SplitByte (p ++ post) semicolon) as H.
  { destruct Hpost as [->|[l ->]]; [|rewrite SplitByte_app by done; by left].
    rewrite app_nil_r. assert (SplitByte p semicolon = [p]) as ->; [|by left].
    clear Hpre. induction p as [|x p IH]; [done|]. apply not_elem_of_cons in Hp as [Hx Hp]. rewrite SplitByte_cons_ne by done.
    by rewrite IH. }
  destruct Hpre as [->|[l ->]]; [done|]. rewrite <-app_assoc. cbn [app]. rewrite SplitByte_app_sep. apply elem_of_app. by right.
Qed.

(** A statement the runner executes opens one that the classifier reads. *)
Lemma executed_is_read sql stmt : commentFree sql -> stmt ∈ splitSQLStatements sql ->
  exists seen, seen ∈ Statements sql /\ exists r, stmt = seen ++ r.
Proof.
  intros Hf Hin. destruct (split_pieces (length sql) Plain [] sql stmt (Nat.le_refl _) Hf) as (p & Hp & Hq & -> & Hne); [|done|].
  { split; [|done]. intros a b E. by destruct a. }
  cbn [rev app] in Hp. rewrite Statements_commentFree by done.
  assert (forall x, x ∈ SplitByte sql semicolon -> TrimSpace x <> [] ->
    TrimSpace x ∈ filter (fun s => nonempty s = true) (map TrimSpace (SplitByte sql semicolon))) as Hin'.
  { intros x Hx Hnx. apply list_elem_of_filter. split; [by destruct (TrimSpace x)|]. apply list_elem_of_fmap. by exists x. }
  destruct (decide (semicolon ∈ p)) as [Hs|Hs].
  - apply list_elem_of_split_l in Hs as (a & b & -> & Ha).
    assert (TrimSpace a <> []) as Hna.
    { destruct (Hq a b eq_refl) as [H|H]; apply list_elem_of_split_l in H as (a1 & a2 & -> & _);
        [destruct (TrimSpace_keeps squote a1 a2) as [r ->]; [kept..|]|destruct (TrimSpace_keeps dquote a1 a2) as [r ->]; [kept..|]];
        by destruct (trim_left _ a1). }
    exists (TrimSpace a). split.
    + apply Hin'; [|done]. apply piece_split; [|done]. destruct Hp as (pre & post & -> & Hpre & Hpost).
      exists pre, (semicolon :: b ++ post). rewrite <-app_assoc. split; [done|]. split; [done|]. right. by eexists.
    + destruct (TrimSpace_keeps semicolon a b) as [r ->]; [kept..|]. unfold TrimSpace.
      destruct (trim_right_prefix space_runes (trim_left space_runes a)) as [t Ht]. exists (t ++ semicolon :: r).
      by rewrite app_assoc, <-Ht.
  - exists (TrimSpace p). split; [by apply Hin', Hne; apply piece_split|]. exists []. by rewrite app_nil_r.
Qed.

Lemma notStart_prefix a b word : notStart (a ++ b) word = true -> notStart a word = true.
Proof.
  revert a. induction word as [|c word IH]; intros a; [by destruct a, b|]. destruct a as [|x a]; [done|]. cbn [app notStart].
  destruct (unfolded x); [|done]. destruct (Ascii.eqb _ _); [apply IH|done].
Qed.



(** An ALTER TABLE that empties a partition opens with a word the classifier knows,
    and none of its rules see it: nothing has to be acknowledged. *)
Theorem truncated_partition_passes :
  let sql := &"ALTER TABLE events TRUNCATE PARTITION p0;" in
  withStatementFindings (mkStore ∅ ∅ ∅) [] sql [] = [] /\ map OpSafety (Classify sql) = [SafetyNonDestructive].
Proof. vm_compute. split; reflexivity. Qed.
