(* ===== verification/MigrationFacts.v ===== *)
(** * The migration directory: file names, versions, and failed runs

    A file name reads back to its version and name; the next version sorts after
    every migration there is, when there is room for it; and a rename run that fails
    after it wrote its migration puts the directory back. *)

From stdpp Require Import base tactics numbers list strings gmap sets.
From Stdlib Require Import ZArith Lia Ascii.
From S2P Require Import Prelude GoBytes DotEnv GoText Regex SqlClassify AtlasSchema SchemaSql SchemaPlan SchemaPlanFacts SchemaTypeFacts MigrationDir RenameFacts.

Local Open Scope string_scope.
Local Open Scope list_scope.
Local Open Scope gotext_scope.
Local Open Scope gombit_scope.

(** ** Byte order *)

Lemma bytes_leb_refl a : bytes_leb a a = true.
Proof. induction a as [|x a IH]; [done|]. cbn [bytes_leb]. by rewrite Ascii.eqb_refl. Qed.

Lemma bytes_leb_total a : forall b, bytes_leb a b = true \/ bytes_leb b a = true.
Proof.
  induction a as [|x a IH]; intros [|y b]; cbn [bytes_leb]; auto. rewrite (Ascii.eqb_sym y x).
  destruct (Ascii.eqb_spec x y) as [->|Hne]; [apply IH|]. rewrite !Nat.ltb_lt.
  assert (nat_of_ascii x <> nat_of_ascii y) by (intros H; apply (f_equal ascii_of_nat) in H; rewrite !ascii_nat_embedding in H; done).
  lia.
Qed.

Lemma bytes_leb_trans a : forall b c, bytes_leb a b = true -> bytes_leb b c = true -> bytes_leb a c = true.
Proof.
  induction a as [|x a IH]; intros [|y b] [|z c]; cbn [bytes_leb]; try done.
  destruct (Ascii.eqb_spec x y) as [->|Hxy], (Ascii.eqb_spec y z) as [->|Hyz]; rewrite ?Nat.ltb_lt.
  - apply IH.
  - done.
  - intros H _. destruct (Ascii.eqb_spec x z) as [->|]; [lia|]. by apply Nat.ltb_lt.
  - intros H1 H2. destruct (Ascii.eqb_spec x z) as [->|]; [lia|]. apply Nat.ltb_lt. lia.
Qed.

Lemma bytes_ltb_leb a b : bytes_ltb a b = true -> bytes_leb a b = true.
Proof. unfold bytes_ltb. rewrite negb_true_iff. destruct (bytes_leb_total a b) as [|H]; [done|]. by rewrite H. Qed.

Lemma bytes_le_lt a b c : bytes_leb a b = true -> bytes_ltb b c = true -> bytes_ltb a c = true.
Proof.
  unfold bytes_ltb. rewrite !negb_true_iff. intros H1 H2. destruct (bytes_leb c a) eqn:E; [|done].
  by rewrite (bytes_leb_trans c a b) in H2.
Qed.

Lemma bytes_ltb_irrefl a : bytes_ltb a a = false.
Proof. unfold bytes_ltb. by rewrite bytes_leb_refl. Qed.

(** The newest version is at or after every version. *)
Lemma latest_fold files : forall acc,
  let latest := fold_left (fun latest f => if bytes_ltb latest (Version f) then Version f else latest) files acc in
  bytes_leb acc latest = true /\ Forall (fun f => bytes_leb (Version f) latest = true) files.
Proof.
  induction files as [|f l IH]; intros acc; cbn [fold_left]; [split; [apply bytes_leb_refl|constructor]|].
  destruct (bytes_ltb acc (Version f)) eqn:E.
  - destruct (IH (Version f)) as [H1 H2]. split; [|by constructor].
    eapply bytes_leb_trans; [by apply bytes_ltb_leb|done].
  - destruct (IH acc) as [H1 H2]. split; [done|]. constructor; [|done]. eapply bytes_leb_trans; [|exact H1].
    unfold bytes_ltb in E. by apply negb_false_iff in E.
Qed.

(** ** Digits *)

Lemma digit_code c : digit c = true -> (0 <= code c - 48 <= 9)%Z.
Proof. unfold digit, code. rewrite andb_true_iff, !Nat.leb_le. lia. Qed.

Lemma digitsValue_snoc a c : forall acc, digitsValue acc (a ++ [c]) = (digitsValue acc a * 10 + (code c - 48))%Z.
Proof. induction a as [|x a IH]; intros acc; [done|]. apply IH. Qed.

Lemma digitsValue_acc a : forall acc, digitsValue acc a = (acc * 10 ^ Z.of_nat (length a) + digitsValue 0 a)%Z.
Proof.
  induction a as [|x a IH]; intros acc; cbn [digitsValue length]; [rewrite Z.pow_0_r; lia|].
  rewrite IH, (IH (0 * 10 + _)%Z), Nat2Z.inj_succ, Z.pow_succ_r by lia. lia.
Qed.

Lemma digitsValue_bound a : forallb digit a = true -> (0 <= digitsValue 0 a < 10 ^ Z.of_nat (length a))%Z.
Proof.
  induction a as [|x a IH]; cbn [forallb digitsValue length]; [lia|]. intros [Hx Ha]%andb_true_iff.
  specialize (IH Ha). apply digit_code in Hx. rewrite digitsValue_acc, Nat2Z.inj_succ, Z.pow_succ_r by lia. nia.
Qed.

Lemma code_lt x y : (code x < code y)%Z <-> (nat_of_ascii x < nat_of_ascii y)%nat.
Proof. unfold code. lia. Qed.

(** On digits of one length, the byte order is the order of the numbers. *)
Lemma version_order a : forall b, length a = length b -> forallb digit a = true -> forallb digit b = true ->
  bytes_leb a b = true -> (digitsValue 0 a <= digitsValue 0 b)%Z.
Proof.
  induction a as [|x a IH]; intros [|y b] Hl; try done. cbn [forallb digitsValue bytes_leb length] in *.
  intros [Hx Ha]%andb_true_iff [Hy Hb]%andb_true_iff. injection Hl as Hl.
  rewrite (digitsValue_acc a), (digitsValue_acc b), Hl. pose proof (digitsValue_bound a Ha). pose proof (digitsValue_bound b Hb).
  destruct (Ascii.eqb_spec x y) as [->|Hne].
  - intros H'. specialize (IH b Hl Ha Hb H'). lia.
  - rewrite Nat.ltb_lt, <-code_lt. intros H'. rewrite Hl in *. nia.
Qed.

Lemma digits_fuel_value n : forall z, (0 <= z < 10 ^ Z.of_nat n)%Z ->
  digitsValue 0 (rev (digits_fuel n z)) = z /\ forallb digit (rev (digits_fuel n z)) = true.
Proof.
  induction n as [|n IH]; intros z Hz; [split; [cbn in *; lia|done]|]. cbn [digits_fuel].
  pose proof (Z.mod_pos_bound z 10 ltac:(lia)) as Hm. pose proof (Z.div_mod z 10 ltac:(lia)) as Hdm.
  set (d := ascii_of_nat (48 + Z.to_nat (z mod 10))).
  assert (nat_of_ascii d = 48 + Z.to_nat (z mod 10))%nat as Hd by (apply nat_ascii_embedding; lia).
  assert (code d - 48 = z mod 10)%Z as Hc by (unfold code; lia).
  assert (digit d = true) as Hdig by (unfold digit; rewrite Hd, andb_true_iff, !Nat.leb_le; lia).
  destruct (Z.eqb_spec (z / 10) 0) as [E|E].
  - cbn [rev app digitsValue forallb]. rewrite Hdig. split; [lia|done].
  - assert (0 <= z / 10 < 10 ^ Z.of_nat n)%Z as Hq.
    { split; [apply Z.div_pos; lia|]. apply Z.div_lt_upper_bound; [lia|].
      rewrite <-Z.pow_succ_r, <-Nat2Z.inj_succ by lia. lia. }
    destruct (IH _ Hq) as [H1 H2]. cbn [rev]. rewrite digitsValue_snoc, H1, forallb_app, H2. cbn [forallb]. rewrite Hdig.
    split; [lia|done].
Qed.

Lemma zeros_value n b : digitsValue 0 (repeat "0"%char n ++ b) = digitsValue 0 b.
Proof. induction n as [|n IH]; [done|]. exact IH. Qed.

(** A number that fits is written in the width, digits only. *)
Lemma padZero_fits w z : (1 <= w)%nat -> (0 <= z < 10 ^ Z.of_nat w)%Z -> (z <= max_int64)%Z ->
  length (padZero w z) = w /\ forallb digit (padZero w z) = true /\ digitsValue 0 (padZero w z) = z.
Proof.
  intros Hw Hz Hm. unfold padZero, itoa. destruct (Z.ltb_spec z 0); [lia|].
  destruct (digits_fuel_value 64 z) as [Hv Hd].
  { split; [lia|]. eapply Z.le_lt_trans; [exact Hm|]. vm_compute. reflexivity. }
  pose proof (digits_length 64 z (Z.of_nat w) Hz ltac:(lia)) as Hl. rewrite Nat2Z.id in Hl.
  rewrite length_app, repeat_length, length_rev, forallb_app, Hd, zeros_value, Hv.
  split; [lia|]. split; [|done]. rewrite andb_true_r. induction (w - _)%nat as [|n IH]; [done|exact IH].
Qed.

(** ** The next version *)

(** There is a number of the same width after this one. *)
Definition room (latest : bytes) : Prop :=
  (digitsValue 0 latest + 1 < 10 ^ Z.of_nat (length latest))%Z /\ (digitsValue 0 latest < max_int64)%Z.

Lemma bump_later latest n :
  ParseInt64 latest = Some n -> room latest -> bytes_ltb latest (padZero (length latest) (wrap_int64 (n + 1))) = true.
Proof.
  unfold ParseInt64, room. destruct latest as [|c l] eqn:E; [done|]. rewrite <-E. 
  destruct (forallb digit latest) eqn:Hd; [|done]. destruct (_ <=? _)%Z; [|done]. cbn [andb]. intros [= <-] [H1 H2].
  pose proof (digitsValue_bound latest Hd) as Hb.
  rewrite wrap_int64_id by (unfold in_int64, min_int64, max_int64 in *; lia).
  destruct (padZero_fits (length latest) (digitsValue 0 latest + 1)) as (Hl & Hdp & Hv); [by subst; cbn; lia|lia|lia|].
  unfold bytes_ltb. apply negb_true_iff. destruct (bytes_leb _ latest) eqn:Eb; [|done].
  apply version_order in Eb; [|done..]. lia.
Qed.

Lemma later_than_all now dir v :
  nextMigrationVersion now dir = Ok v ->
  bytes_ltb (latestVersion (ListMigrationFiles dir)) now = true \/ room (latestVersion (ListMigrationFiles dir)) ->
  Forall (fun f => bytes_ltb (Version f) v = true) (ListMigrationFiles dir).
Proof.
  unfold nextMigrationVersion. intros Hv Hroom. destruct (latest_fold (ListMigrationFiles dir) []) as [_ Hall].
  fold (latestVersion (ListMigrationFiles dir)) in Hall. set (latest := latestVersion (ListMigrationFiles dir)) in *.
  assert (bytes_ltb latest v = true) as Hlt.
  { destruct (bytes_ltb latest now) eqn:E; [by injection Hv as <-|]. destruct Hroom as [|Hroom]; [done|].
    destruct (ParseInt64 latest) as [n|] eqn:Ep; [|done]. injection Hv as <-. by apply bump_later. }
  eapply Forall_impl; [exact Hall|]. cbn. intros f Hf. by eapply bytes_le_lt.
Qed.

(** A new rename migration sorts last: its version is after the version of every migration
    in the directory, byte by byte, when the clock is ahead of them or the newest of them
    has a successor of its own width that an int64 holds. *)
Theorem next_version_sorts_last now dir v :
  nextMigrationVersion now dir = Ok v ->
  bytes_ltb (latestVersion (ListMigrationFiles dir)) now = true \/ room (latestVersion (ListMigrationFiles dir)) ->
  Forall (fun f => bytes_ltb (Version f) v = true) (ListMigrationFiles dir).
Proof. apply later_than_all. Qed.

Lemma next_version_sorts_last_witness :
  let dir := Some (mkDir {[&"20990101000000_init.sql" := []]} None) in
  nextMigrationVersion (&"20240101000000") dir = Ok (&"20990101000001") /\
  Forall (fun f => bytes_ltb (Version f) (&"20990101000001") = true) (ListMigrationFiles dir).
Proof.
  set (dir := Some (mkDir {[&"20990101000000_init.sql" := []]} None)).
  assert (nextMigrationVersion (&"20240101000000") dir = Ok (&"20990101000001")) as H by (vm_compute; reflexivity).
  split; [exact H|]. apply (next_version_sorts_last (&"20240101000000") dir (&"20990101000001") H).
  right. vm_compute. split; reflexivity.
Defined.

(** With a one-digit version in the directory, the next version is the number
    after it and sorts before it. *)
Theorem short_version_sorts_first :
  let dir := Some (mkDir {[&"9_init.sql" := []]} None) in
  nextMigrationVersion (&"20240101000000") dir = Ok (&"10") /\ bytes_ltb (&"10") (&"9") = true.
Proof. vm_compute. split; reflexivity. Qed.

(** ** File names *)

(** A loop over a class, captured, on a run of that class. *)
Lemma after_last prev x w : exists y, after prev (x :: w) = Some y.
Proof. revert prev x. induction w as [|y w IH]; intros prev x; [by exists x|]. apply (IH (Some x) y). Qed.

Lemma take_app_rest (w rest : bytes) : take (length (w ++ rest) - length rest) (w ++ rest) = w.
Proof. rewrite take_app_length'; [done|]. rewrite length_app. lia. Qed.

Lemma cap_plus n p k x w prev rest cs :
  p x = true -> Forall (fun x => p x = true) w -> head_not p rest -> (forall l, refuses (fun c cs => k c (l c cs)) p) ->
  exec (Cap n (plus (Cls p))) k (prev, (x :: w) ++ rest) cs = k (after prev (x :: w), rest) ((n, x :: w) :: cs).
Proof.
  intros Hx Hw Hr Hk. set (c := (prev, (x :: w) ++ rest)).
  change (exec (Cap n (plus (Cls p))) k c cs) with
    (exec (plus (Cls p)) (fun c' cs => k c' ((n, take (length c.2 - length c'.2) c.2) :: cs)) c cs).
  subst c. rewrite plus_run; [|done..].
  cbn [snd]. by rewrite take_app_rest.
Qed.

(** A first byte and a run, captured. *)
Lemma cap_head_run n p q k x w prev rest cs :
  p x = true -> Forall (fun x => q x = true) w -> head_not q rest -> (forall l, refuses (fun c cs => k c (l c cs)) q) ->
  exec (Cap n (Cat (Cls p) (star (Cls q)))) k (prev, (x :: w) ++ rest) cs = k (after prev (x :: w), rest) ((n, x :: w) :: cs).
Proof.
  intros Hx Hw Hr Hk. set (c := (prev, (x :: w) ++ rest)).
  change (exec (Cap n (Cat (Cls p) (star (Cls q)))) k c cs) with
    (exec (Cls p) (fun c1 cs => loop (exec (Cls q)) true
       (fun c' cs => k c' ((n, take (length c.2 - length c'.2) c.2) :: cs)) (length c1.2) c1 cs) c cs).
  subst c. cbn [app]. rewrite Cls_cons by done. rewrite Hx. cbn [snd].
  rewrite (loop_run _ q all_plain); auto using Cls_nil, Cls_cons.
  - cbn [snd]. change (x :: w ++ rest) with ((x :: w) ++ rest). by rewrite take_app_rest.
  - eapply Forall_impl; [exact Hw|]. done.
  - rewrite length_app. lia.
Qed.

Lemma lit_self k b : forall prev rest cs, exec (lit b) k (prev, b ++ rest) cs = k (after prev b, rest) cs.
Proof. induction b as [|x b IH]; intros prev rest cs; [done|]. cbn [lit exec app snd]. rewrite Ascii.eqb_refl. apply IH. Qed.

Lemma lit_all k b prev cs : exec (lit b) k (prev, b) cs = k (after prev b, []) cs.
Proof. rewrite <-(lit_self k b prev [] cs). by rewrite app_nil_r. Qed.

Definition versionOk (v : bytes) : Prop := v <> [] /\ forallb digit v = true.

Lemma migrationName_shape b :
  MatchString migrationNamePattern b = true -> exists x w, b = x :: w /\ alnum x = true /\ Forall (fun c => nameByte c = true) w.
Proof.
  unfold MatchString, migrationNamePattern. cbn [cat]. rewrite search_anchored.
  destruct (exec _ _ _ _) as [m|] eqn:E; [|done]. intros _. revert E.
  rewrite exec_Cat. destruct b as [|x b]; [done|]. cbn [exec snd]. destruct (alnum x) eqn:Hx; [|done].
  intros E%loop_Eot. by exists x, b.
Qed.

Lemma digit_other x : digit x = true -> Ascii.eqb "_" x = false.
Proof. revert x. apply (every_byte (fun x => digit x = true -> Ascii.eqb "_" x = false)). vm_compute. reflexivity. Qed.

Lemma nameByte_other x : nameByte x = true -> Ascii.eqb "." x = false.
Proof. revert x. apply (every_byte (fun x => nameByte x = true -> Ascii.eqb "." x = false)). vm_compute. reflexivity. Qed.

(** A name built from a version, a name and an extension is read back. *)
Lemma file_match ext v name :
  versionOk v -> MatchString migrationNamePattern name = true ->
  exists cs, FindStringSubmatch (fileRe ("."%char :: ext)) (v ++ "_"%char :: name ++ "."%char :: ext) = Some cs /\
    group 1 cs = v /\ group 2 cs = name.
Proof.
  intros [Hv Hd] Hname. apply migrationName_shape in Hname as (y & w & -> & Hy & Hw).
  destruct v as [|x v]; [done|]. cbn [forallb] in Hd. apply andb_true_iff in Hd as [Hx Hd].
  unfold FindStringSubmatch, fileRe. cbn [cat]. rewrite search_anchored, exec_Cat.
  rewrite (cap_plus 1 digit _ x v); [|done| |done|].
  - rewrite exec_Cat. unfold chr. rewrite Cls_cons, Ascii.eqb_refl by done. rewrite exec_Cat.
    rewrite (cap_head_run 2 alnum nameByte _ y w); [|done|done|done|].
    + rewrite exec_Cat, lit_all. cbn [exec snd].
      eexists. split; [reflexivity|]. split; reflexivity.
    + intros l pr z r cs' Hz. rewrite exec_Cat. cbn [lit]. rewrite exec_Cat, Cls_cons by done. by rewrite (nameByte_other z Hz).
  - apply Forall_forall. intros c Hc. rewrite forallb_forall in Hd. apply Hd. by apply list_elem_of_In.
  - intros l pr z r cs' Hz. rewrite exec_Cat. unfold chr. rewrite Cls_cons by done. by rewrite (digit_other z Hz).
Qed.

Lemma upName_eq v name : upName v name = v ++ "_"%char :: name ++ &".sql".
Proof. reflexivity. Qed.

Lemma downName_eq v name : downName v name = v ++ "_"%char :: name ++ &".down.sql".
Proof. reflexivity. Qed.

Lemma parse_up v name :
  versionOk v -> MatchString migrationNamePattern name = true -> ParseMigrationFilename (upName v name) = Ok (v, name).
Proof.
  intros Hv Hn. unfold ParseMigrationFilename, migrationFilePattern. rewrite upName_eq.
  change (&".sql") with ("."%char :: &"sql"). by destruct (file_match (&"sql") v name Hv Hn) as (cs & -> & -> & ->).
Qed.

Lemma parse_down v name :
  versionOk v -> MatchString migrationNamePattern name = true -> ParseDownFilename (downName v name) = Ok (v, name).
Proof.
  intros Hv Hn. unfold ParseDownFilename, migrationDownFilePattern. rewrite downName_eq.
  change (&".down.sql") with ("."%char :: &"down.sql"). by destruct (file_match (&"down.sql") v name Hv Hn) as (cs & -> & -> & ->).
Qed.

(** A migration's file name reads back to its version and name, and so does its down file's,
    and the down name of the one is the other. *)
Theorem migration_names_roundtrip v name :
  versionOk v -> MatchString migrationNamePattern name = true ->
  ParseMigrationFilename (upName v name) = Ok (v, name) /\ ParseDownFilename (downName v name) = Ok (v, name) /\
  DownFilename (upName v name) = Ok (downName v name).
Proof.
  intros Hv Hn. split; [by apply parse_up|]. split; [by apply parse_down|]. unfold DownFilename. by rewrite parse_up.
Qed.

Lemma migration_names_roundtrip_witness :
  ParseMigrationFilename (&"20240101000000_add-users_2.sql") = Ok (&"20240101000000", &"add-users_2").
Proof.
  refine (proj1 (migration_names_roundtrip (&"20240101000000") (&"add-users_2") _ _)); [split; [done|]|]; vm_compute; reflexivity.
Defined.

(** ** What is listed *)

Lemma insertFile_elem f g l : g ∈ insertFile f l <-> g = f \/ g ∈ l.
Proof.
  induction l as [|x l IH]; cbn [insertFile]; [by rewrite list_elem_of_singleton, elem_of_nil; tauto|].
  destruct (fileLess x f); rewrite !elem_of_cons, ?IH; tauto.
Qed.

Lemma sortFiles_elem g l : g ∈ sortFiles l <-> g ∈ l.
Proof. induction l as [|f l IH]; [done|]. cbn [sortFiles foldr]. rewrite insertFile_elem, elem_of_cons. by rewrite IH. Qed.

Lemma entryNames_elem d name : name ∈ entryNames d <-> is_Some (dFiles d !! name).
Proof.
  unfold entryNames. rewrite sortStrings_elem. split.
  - intros ([k x] & -> & H)%list_elem_of_fmap. apply elem_of_map_to_list in H. by exists x.
  - intros [x Hx]. apply list_elem_of_fmap. exists (name, x). split; [done|]. by apply elem_of_map_to_list.
Qed.

Lemma HasSuffix_Some b suf : HasSuffix b suf = true -> exists p, b = p ++ suf.
Proof.
  unfold HasSuffix, HasPrefix. destruct (strip_prefix _ _) as [r|] eqn:E; [|done]. intros _.
  apply strip_prefix_Some in E. exists (rev r). apply (f_equal (@rev ascii)) in E.
  by rewrite rev_involutive, rev_app_distr, rev_involutive in E.
Qed.

Lemma up_not_down v name :
  versionOk v -> MatchString migrationNamePattern name = true -> HasSuffix (upName v name) (&".down.sql") = false.
Proof.
  intros [_ Hd] Hn. destruct (HasSuffix _ _) eqn:E; [|done]. exfalso.
  apply HasSuffix_Some in E as [p Hp]. rewrite upName_eq in Hp.
  change (&".down.sql") with (&".down" ++ &".sql") in Hp. rewrite app_comm_cons, !app_assoc in Hp.
  apply app_inv_tail in Hp. apply migrationName_shape in Hn as (y & w & -> & Hy & Hw).
  assert ("."%char ∈ v ++ "_"%char :: y :: w) as Hin.
  { rewrite Hp. apply elem_of_app. right. apply (bool_decide_eq_true_1 (_ ∈ _)). vm_compute. reflexivity. }
  apply elem_of_app in Hin as [Hin|Hin].
  - rewrite forallb_forall in Hd. by apply list_elem_of_In, Hd in Hin.
  - rewrite Forall_forall in Hw. apply elem_of_cons in Hin as [Hin|Hin]; [done|].
    apply elem_of_cons in Hin as [<-|Hin]; [done|]. by apply Hw in Hin.
Qed.

(** A migration file in the directory is listed with its version. *)
Lemma listed d v name :
  versionOk v -> MatchString migrationNamePattern name = true -> is_Some (dFiles d !! upName v name) ->
  exists f, f ∈ ListMigrationFiles (Some d) /\ Version f = v.
Proof.
  intros Hv Hn Hin. unfold ListMigrationFiles, listMigrationFiles. cbn [fst].
  assert (exists f, readEntry (dDowns d) (upName v name) = EntryMigration f /\ Version f = v) as (f & Hf & Hver).
  { unfold readEntry. assert (beqb (upName v name) atlasSum = false) as ->.
    { apply not_true_iff_false. intros H%beqb_true. rewrite upName_eq in H. destruct Hv as [Hne Hd].
      destruct v as [|x v]; [done|]. cbn in H. injection H as -> _. done. }
    rewrite up_not_down, parse_up by done. eexists. split; [reflexivity|done]. }
  exists f. split; [|done]. apply sortFiles_elem. apply list_elem_of_omap. exists (EntryMigration f). split; [|done].
  apply list_elem_of_fmap. exists (upName v name). split; [done|]. by apply entryNames_elem.
Qed.

Lemma next_version_ok now dir v : versionOk now -> nextMigrationVersion now dir = Ok v ->
  bytes_ltb (latestVersion (ListMigrationFiles dir)) now = true \/ room (latestVersion (ListMigrationFiles dir)) -> versionOk v.
Proof.
  unfold nextMigrationVersion. intros Hnow Hv Hr. set (latest := latestVersion _) in *.
  destruct (bytes_ltb latest now) eqn:E; [by injection Hv as <-|]. destruct Hr as [|[H1 H2]]; [done|].
  destruct (ParseInt64 latest) as [n|] eqn:Ep; [|done]. injection Hv as <-. revert Ep. unfold ParseInt64.
  destruct latest as [|c l] eqn:El; [done|]. rewrite <-El in *. destruct (forallb digit latest) eqn:Hd; [|done].
  destruct (_ <=? _)%Z; [|done]. cbn [andb]. intros [= <-]. pose proof (digitsValue_bound latest Hd) as Hb.
  rewrite wrap_int64_id by (unfold in_int64, min_int64, max_int64 in *; lia).
  destruct (padZero_fits (length latest) (digitsValue 0 latest + 1)) as (Hl & Hdp & _); [by rewrite El; cbn; lia|lia|lia|].
  split; [|done]. intros H. rewrite H, El in Hl. done.
Qed.

Lemma next_version_fresh now d v name :
  versionOk now -> MatchString migrationNamePattern name = true -> nextMigrationVersion now (Some d) = Ok v ->
  bytes_ltb (latestVersion (ListMigrationFiles (Some d))) now = true \/ room (latestVersion (ListMigrationFiles (Some d))) ->
  dFiles d !! upName v name = None.
Proof.
  intros Hnow Hn Hv Hr. destruct (dFiles d !! upName v name) as [b|] eqn:E; [|done]. exfalso.
  destruct (listed d v name) as (f & Hf & Hver); [by eapply next_version_ok|done|by exists b|].
  pose proof (later_than_all now (Some d) v Hv Hr) as H. rewrite Forall_forall in H. apply H in Hf.
  by rewrite Hver, bytes_ltb_irrefl in Hf.
Qed.

(** ** A failed rename *)

(** Two file maps that differ at these names at most. *)
Definition agrees (ks : list bytes) (m1 m2 : gmap bytes bytes) : Prop := forall k, (k ∉ ks) -> m1 !! k = m2 !! k.

Lemma agrees_all m1 m2 : agrees [] m1 m2 -> m1 = m2.
Proof. intros H. apply map_eq. intros k. apply H, not_elem_of_nil. Qed.

Lemma agrees_put k b ks d m : agrees (k :: ks) (dFiles d) m -> agrees (k :: ks) (dFiles (putFile k b d)) m.
Proof. intros H j Hj. cbn [putFile dFiles]. rewrite lookup_insert_ne; [by apply H|]. intros ->. apply Hj. by left. Qed.

(** Putting one file back. *)
Lemma agrees_restore k ks d m : agrees (k :: ks) (dFiles d) m -> agrees ks (dFiles (restoreFile k (m !! k) d)) m.
Proof.
  intros H j Hj. unfold restoreFile. destruct (decide (j = k)) as [->|Hne].
  - destruct (m !! k); cbn [putFile dropFile dFiles]; [apply lookup_insert_eq|apply lookup_delete_eq].
  - assert (dFiles d !! j = m !! j) as Hd by (apply H; rewrite not_elem_of_cons; done).
    destruct (m !! k); cbn [putFile dropFile dFiles]; [by rewrite lookup_insert_ne|by rewrite lookup_delete_ne].
Qed.

Lemma agrees_drop k ks d m : m !! k = None -> agrees (k :: ks) (dFiles d) m -> agrees ks (dFiles (dropFile k d)) m.
Proof. intros Hk H. pose proof (agrees_restore k ks d m H) as Hr. by rewrite Hk in Hr. Qed.

Lemma agrees_weaken ks ks' m1 m2 : (forall k, k ∈ ks -> k ∈ ks') -> agrees ks m1 m2 -> agrees ks' m1 m2.
Proof. intros Hs H k Hk. apply H. intros Hin. by apply Hk, Hs. Qed.

Lemma restoreFile_downs k p d : dDowns (restoreFile k p d) = dDowns d.
Proof. by destruct p. Qed.

Section failed.
Context (sqlName : bytes) (d0 : Dir) (dir : option Dir).
Hypothesis Hdir : d0 = default (mkDir ∅ None) dir.
Hypothesis Hfresh : dFiles d0 !! sqlName = None.

Definition existed : bool := match dir with Some _ => true | None => false end.

(** The rollback of the files gives the directory back. *)
Lemma rollback_gives_back d :
  agrees [sqlName; atlasSum] (dFiles d) (dFiles d0) -> dDowns d = dDowns d0 ->
  rollbackRename sqlName (dFiles d0 !! atlasSum) existed d = dir.
Proof using Hdir Hfresh.
  intros Ha Hd. unfold rollbackRename. set (d' := restoreFile _ _ _).
  assert (d' = d0) as ->.
  { apply (agrees_drop sqlName), agrees_restore, agrees_all in Ha; [|done]. subst d'.
    destruct (restoreFile _ _ _) as [fs ds] eqn:E. pose proof (restoreFile_downs atlasSum (dFiles d0 !! atlasSum) (dropFile sqlName d)) as Hr.
    rewrite E in Hr. cbn in Ha, Hr. rewrite Hd in Hr. destruct d0; cbn in *. congruence. }
  unfold existed. destruct dir as [d1|]; subst d0; [done|]. reflexivity.
Qed.

(** What is made in [downs] goes again. *)
Lemma dropDown_gives_back downFile d (made : option (option bytes)) :
  match dDowns d0 with Some ds => ds !! downFile = None | None => True end ->
  dDowns d = match made with
             | None => dDowns d0
             | Some None => Some (default ∅ (dDowns d0))
             | Some (Some b) => Some (<[downFile := b]> (default ∅ (dDowns d0)))
             end ->
  dDowns (dropDown downFile (match dDowns d0 with Some _ => true | None => false end) d) = dDowns d0.
Proof using.
  intros Hf Hd. unfold dropDown. rewrite Hd. destruct made as [[b|]|], (dDowns d0) as [ds|]; cbn; try done.
  - by rewrite delete_insert_id.
  - rewrite delete_insert_id by done. by rewrite bool_decide_true.
  - by rewrite delete_id.
  - by rewrite delete_id.
Qed.

Lemma dropDown_files downFile b d : dFiles (dropDown downFile b d) = dFiles d.
Proof using. unfold dropDown. by destruct (dDowns d). Qed.

(** The undo of everything. *)
Lemma undo_gives_back downFile d made :
  match dDowns d0 with Some ds => ds !! downFile = None | None => True end ->
  agrees [registryFileName; sqlName; atlasSum] (dFiles d) (dFiles d0) ->
  dDowns d = match made with
             | None => dDowns d0
             | Some None => Some (default ∅ (dDowns d0))
             | Some (Some b) => Some (<[downFile := b]> (default ∅ (dDowns d0)))
             end ->
  rollbackRename sqlName (dFiles d0 !! atlasSum) existed
    (restoreFile registryFileName (dFiles d0 !! registryFileName)
       (dropDown downFile (match dDowns d0 with Some _ => true | None => false end) d)) = dir.
Proof using Hdir Hfresh.
  intros Hf Ha Hd. apply rollback_gives_back.
  - apply agrees_restore. by rewrite dropDown_files.
  - rewrite restoreFile_downs. by eapply dropDown_gives_back.
Qed.
End failed.

Section restore.
Context (decode : bytes -> option (list Model)) (encode : list Model -> bytes).

Lemma finishRename_restores env o registry sqlName downFile dir d0 sql dir' e :
  d0 = default (mkDir ∅ None) dir -> dFiles d0 !! sqlName = None ->
  match dDowns d0 with Some ds => ds !! downFile = None | None => True end ->
  finishRename encode env o registry (existed dir) sqlName downFile (dFiles d0 !! atlasSum) (dFiles d0 !! registryFileName)
    (putFile sqlName sql d0) = (dir', Err e) ->
  dir' = dir.
Proof.
  intros Hdir Hfresh Hdown. unfold finishRename.
  set (d1 := match eSum env with Some b => _ | None => _ end).
  assert (agrees [sqlName; atlasSum] (dFiles d1) (dFiles d0)) as Ha.
  { assert (agrees [sqlName; atlasSum] (dFiles (putFile sqlName sql d0)) (dFiles d0)) as H0 by (by apply agrees_put).
    subst d1. destruct (eSum env) as [b|]; [|done].
    apply (agrees_weaken [atlasSum; sqlName]); [set_solver|]. apply agrees_put. eapply agrees_weaken; [|exact H0]. set_solver. }
  assert (dDowns d1 = dDowns d0) as Hd by (subst d1; by destruct (eSum env)).
  clearbody d1. rewrite Hd.
  assert (agrees [registryFileName; sqlName; atlasSum] (dFiles d1) (dFiles d0)) as Ha3
    by (eapply agrees_weaken; [|exact Ha]; set_solver).
  destruct (eHash env); cbn [negb]; [|by intros [= <- _]; apply (rollback_gives_back sqlName d0 dir)].
  destruct (eMkdirDowns env); cbn [negb]; [|by intros [= <- _]; apply (undo_gives_back sqlName d0 dir Hdir Hfresh downFile d1 None)].
  destruct (eWriteDown env); cbn [negb].
  - destruct (swapsModels o); [|done]. destruct (eSaveRegistry env); [done|]. intros [= <- _].
    set (down := renameDownSQL _ _ _). apply (undo_gives_back sqlName d0 dir Hdir Hfresh downFile _ (Some (Some down))).
    + done.
    + unfold writeFile. destruct (eLeftRegistry env) as [b|]; [|done]. by apply agrees_put.
    + unfold writeFile. by destruct (eLeftRegistry env).
  - intros [= <- _]. apply (undo_gives_back sqlName d0 dir Hdir Hfresh downFile _ (Some (eLeftDown env))).
    + done.
    + by destruct (eLeftDown env).
    + by destruct (eLeftDown env).
Qed.

(** The run got as far as a written migration: the next step is the hash. *)
Definition wroteSQL (env : RunEnv) (o : Options) (d : Dir) : bool :=
  eMkdir env && match if swapsModels o then swapRegistry decode o d else Ok [] with Ok _ => true | Err _ => false end &&
  eReadRegistry env && eReadSum env && eWriteSQL env.

(** C30. A rename run that wrote its migration and then failed, at the hash, the downs
    directory, the down file or the registry, with any bytes left half written, leaves the
    migration directory exactly as it was, and removes it when the run had made it. A run
    that failed before may have made the empty directory, and one whose write of the
    migration itself failed may leave the bytes of that write in the one new file. *)
Theorem failed_rename_restores env o dir dir' e v :
  let d := default (mkDir ∅ None) dir in
  validateOptions o = Ok tt -> versionOk (eNow env) ->
  nextMigrationVersion (eNow env) (Some d) = Ok v ->
  bytes_ltb (latestVersion (ListMigrationFiles (Some d))) (eNow env) = true \/ room (latestVersion (ListMigrationFiles (Some d))) ->
  match dDowns d with Some ds => ds !! downName v (oName o) = None | None => True end ->
  makeRenameMigration decode encode env o dir = (dir', Err e) ->
  if wroteSQL env o d then dir' = dir
  else dir' = dir \/ (dir = None /\ dir' = Some (mkDir ∅ None)) \/
       (eWriteSQL env = false /\ exists b, eLeftSQL env = Some b /\ dir' = Some (putFile (upName v (oName o)) b d)).
Proof.
  intros d Ho Hnow Hv Hr Hdown. unfold makeRenameMigration, wroteSQL. fold d.
  assert (Some d = dir \/ (dir = None /\ Some d = Some (mkDir ∅ None))) as Hsame by (subst d; destruct dir; auto).
  destruct (eMkdir env); cbn [negb andb]; [|by intros [= <- _]; left].
  destruct (if swapsModels o then _ else _) as [registry|e1]; cbn [andb]; [|intros [= <- _]; tauto].
  destruct (eReadRegistry env); cbn [negb andb]; [|intros [= <- _]; tauto]. rewrite Hv.
  destruct (eReadSum env); cbn [negb andb]; [|intros [= <- _]; tauto].
  destruct (eWriteSQL env); cbn [negb writeFile].
  - assert (MatchString migrationNamePattern (oName o) = true) as Hn.
    { revert Ho. unfold validateOptions. destruct (nonempty _); [|done]. destruct (MatchString _ _) eqn:E; [|done]. done. }
    change (match dir with Some _ => true | None => false end) with (existed dir).
    apply finishRename_restores; [done|by eapply next_version_fresh|done].
  - intros [= <- _]. destruct (eLeftSQL env) as [b|]; [|tauto]. right. right. split; [done|]. by exists b.
Qed.
End restore.

Module RestoreSample.
Definition o : Options :=
  mkOptions (&"rename_users") DatabaseDriverPostgres [] [] [] [mkTableRename (&"users") (&"accounts")].
Definition dir : option Dir :=
  Some (mkDir (<[&"20230101000000_init.sql" := &"CREATE TABLE users (id int);"]> {[atlasSum := &"h1:old"]}) None).
(** The down file cannot be written, and half of it is left behind. *)
Definition env : RunEnv :=
  mkEnv (&"20240101000000") true true true true None true (Some (&"h1:new")) true false (Some (&"ALTER")) true None.
Definition decode (b : bytes) : option (list Model) := None.
Definition encode (l : list Model) : bytes := [].
End RestoreSample.

Lemma failed_rename_restores_witness :
  (makeRenameMigration RestoreSample.decode RestoreSample.encode RestoreSample.env RestoreSample.o RestoreSample.dir).1 =
    RestoreSample.dir.
Proof.
  apply (failed_rename_restores RestoreSample.decode RestoreSample.encode RestoreSample.env RestoreSample.o RestoreSample.dir _
           (OSError (&"write rename down migration")) (&"20240101000000")).
  - vm_compute. reflexivity.
  - split; [done|]. vm_compute. reflexivity.
  - vm_compute. reflexivity.
  - left. vm_compute. reflexivity.
  - exact I.
  - vm_compute. reflexivity.
Defined.

(** ** A refused migration *)

Lemma restore_agrees_fold names d m : forall ks,
  Forall (fun k => m !! k = None) names -> agrees (names ++ ks) (dFiles d) m ->
  agrees ks (dFiles (fold_left (fun d f => dropFile f d) names d)) m.
Proof.
  revert d. induction names as [|k names IH]; intros d ks Hn Ha; [done|]. inversion Hn; subst. cbn [fold_left].
  apply IH; [done|]. by apply agrees_drop.
Qed.

Lemma fold_drop_downs names d : dDowns (fold_left (fun d f => dropFile f d) names d) = dDowns d.
Proof. revert d. induction names as [|k names IH]; intros d; [done|]. cbn [fold_left]. by rewrite IH. Qed.

(** Whether a name is listed does not depend on the rest of the directory. *)
Lemma readEntry_path downs downs' name f :
  readEntry downs name = EntryMigration f -> UpPath f = name /\ exists f', readEntry downs' name = EntryMigration f' /\ UpPath f' = name.
Proof.
  unfold readEntry. destruct (beqb name atlasSum); [done|]. destruct (HasSuffix name _); [done|].
  destruct (ParseMigrationFilename name) as [[v n]|]; [|by destruct (HasSuffix _ _)]. intros [= <-]. split; [done|]. by eexists.
Qed.

Lemma listed_paths d name :
  name ∈ map UpPath (ListMigrationFiles (Some d)) <->
  is_Some (dFiles d !! name) /\ exists f, readEntry (dDowns d) name = EntryMigration f.
Proof.
  unfold ListMigrationFiles, listMigrationFiles. cbn [fst]. rewrite list_elem_of_fmap. setoid_rewrite sortFiles_elem.
  setoid_rewrite list_elem_of_omap. split.
  - intros (f & -> & e & He & Hf). destruct e as [g| |]; [|done..]. injection Hf as ->.
    apply list_elem_of_fmap in He as (k & Hk & He). symmetry in Hk. destruct (readEntry_path _ (dDowns d) _ _ Hk) as [-> _].
    split; [by apply entryNames_elem|by exists f].
  - intros [Hin [f Hf]]. exists f. split; [by destruct (readEntry_path _ (dDowns d) _ _ Hf)|].
    exists (EntryMigration f). split; [|done]. apply list_elem_of_fmap. exists name. split; [done|by apply entryNames_elem].
Qed.

Lemma new_files_new before after : Forall (fun k => dFiles before !! k = None) (newMigrationFiles before after).
Proof.
  apply Forall_forall. intros k [Hold Hk]%list_elem_of_filter. destruct (dFiles before !! k) as [b|] eqn:E; [|done].
  exfalso. apply Hold. apply listed_paths in Hk as [_ [f Hf]]. apply listed_paths. split; [by exists b|].
  destruct (readEntry_path _ (dDowns before) _ _ Hf) as [_ (f' & H & _)]. by exists f'.
Qed.

(** A migration the gate refuses is taken out again: when Atlas wrote new migration files
    and atlas.sum and nothing else, the directory is as it was before the run. *)
Theorem refused_diff_restores encode env gate models d e :
  agrees (newMigrationFiles d (dfAfter env d) ++ [atlasSum]) (dFiles (dfAfter env d)) (dFiles d) ->
  dDowns (dfAfter env d) = dDowns d ->
  newMigrationFiles d (dfAfter env d) <> [] -> dfOk env = true ->
  gate (writtenSQL (dfAfter env d) (newMigrationFiles d (dfAfter env d))) = Err e ->
  makeDiffMigration encode env (Some gate) models d = (d, Err e).
Proof.
  intros Ha Hd Hne Hok Hg. unfold makeDiffMigration. rewrite Hok. cbn [negb].
  set (d1 := dfAfter env d) in *. set (written := newMigrationFiles d d1) in *.
  destruct written as [|w ws] eqn:Ew; [done|]. rewrite <-Ew in *. rewrite Hg. f_equal.
  set (d2 := restoreFile _ _ _). assert (dFiles d2 = dFiles d) as Hf.
  { apply agrees_all, agrees_restore, restore_agrees_fold; [apply new_files_new|done]. }
  assert (dDowns d2 = dDowns d) as Hdn by (subst d2; rewrite restoreFile_downs, fold_drop_downs; done).
  destruct d2, d; cbn in *; congruence.
Qed.

Module RefusedSample.
Definition d : Dir := mkDir (<[&"20230101000000_init.sql" := &"CREATE TABLE users (id int);"]> {[atlasSum := &"h1:old"]}) None.
(** Atlas adds one migration and rewrites the sum. *)
Definition after (d : Dir) : Dir := putFile (&"20240101000000_drop.sql") (&"DROP TABLE users;") (putFile atlasSum (&"h1:new") d).
Definition env : DiffEnv := mkDiffEnv after true true None true None.
Definition gate (sql : bytes) : result migError (list bytes) := Err NameRequired.
End RefusedSample.

Lemma refused_diff_restores_witness :
  makeDiffMigration RestoreSample.encode RefusedSample.env (Some RefusedSample.gate) [] RefusedSample.d =
  (RefusedSample.d, Err NameRequired).
Proof.
  assert (newMigrationFiles RefusedSample.d (dfAfter RefusedSample.env RefusedSample.d) = [&"20240101000000_drop.sql"]) as H
    by (vm_compute; reflexivity).
  apply (refused_diff_restores RestoreSample.encode RefusedSample.env RefusedSample.gate [] RefusedSample.d NameRequired).
  - rewrite H.
    refine (agrees_put (&"20240101000000_drop.sql") (&"DROP TABLE users;") [atlasSum] (putFile atlasSum (&"h1:new") RefusedSample.d)
              (dFiles RefusedSample.d) _).
    refine (agrees_weaken [atlasSum] _ _ _ _ (agrees_put atlasSum (&"h1:new") [] RefusedSample.d (dFiles RefusedSample.d) _));
      [intros k Hk; by right|by intros k Hk].
  - reflexivity.
  - by rewrite H.
  - reflexivity.
  - reflexivity.
Defined.
