(* ===== verification/ResourcePolicy.v ===== *)
(** * resourcepolicy: from a model's fields to the API it exposes

    The field policy of [src/resourcepolicy/policy.go] and the reading of a parsed
    GORM schema of [schema.go].  A GORM schema is data here ([Schema]): its parser,
    [schema.Parse], is an argument of [FromModel].  A pointer to a schema field is
    its address, so that the identity tests of the code are kept; a struct tag is
    its key and value pairs; a Go type is a pointer, a named struct looked up in the
    program's struct definitions, or something the walk does not enter.  Since Go
    types may be recursive the walk over them takes fuel, and [walk_returns] says
    how much is enough. *)

From stdpp Require Import base tactics numbers list strings gmap sets.
From Stdlib Require Import ZArith Lia Ascii.
From S2P Require Import Prelude GoBytes DotEnv GoText SchemaPlan.

Local Open Scope string_scope.
Local Open Scope list_scope.
Local Open Scope gotext_scope.
Local Open Scope gombit_scope.

(** ** Facts of persistence *)

Record FieldFacts := {
  GoName : bytes;
  Column : bytes;
  PrimaryKey : bool;
  AutoIncrement : bool;
  AutoTime : bool;
  SoftDelete : bool;
  NotNull : bool;
  HasDefault : bool;
  Creatable : bool;
  Readable : bool;
}.

#[export] Instance FieldFacts_eq_dec : EqDecision FieldFacts.
Proof. solve_decision. Defined.

Definition dbBacked (f : FieldFacts) : bool := negb (beqb (Column f) []).

Definition managed (f : FieldFacts) : bool := AutoIncrement f || AutoTime f || SoftDelete f.

Definition dbSuppliesCreateValue (f : FieldFacts) : bool :=
  AutoIncrement f || (AutoTime f && Creatable f).

Definition requiresCreateValue (f : FieldFacts) : bool :=
  if negb (dbBacked f) then false
  else (NotNull f || PrimaryKey f) && negb (HasDefault f) && negb (dbSuppliesCreateValue f).

Inductive CreateSource := CreateSourceNone | CreateSourceRequest | CreateSourceServer.

#[export] Instance CreateSource_eq_dec : EqDecision CreateSource.
Proof. solve_decision. Defined.

Definition CreateSource_String (s : CreateSource) : bytes :=
  match s with
  | CreateSourceRequest => &"request"
  | CreateSourceServer => &"server"
  | CreateSourceNone => &"none"
  end.

Record Resolved := {
  rFacts : FieldFacts;
  InRequest : bool;
  InResponse : bool;
  rCreateSource : CreateSource;
  Filterable : bool;
  Sortable : bool;
  Searchable : bool;
  Aggregatable : bool;
}.

Definition NeedsCreateValue (r : Resolved) : bool := requiresCreateValue (rFacts r).

Record Field := { fFacts : FieldFacts; fTag : bytes }.

(** ** The tag *)

Record policyTag := {
  present : bool;
  tread : bool;
  twrite : bool;
  tserver : bool;
  thidden : bool;
  tfilterable : bool;
  tsortable : bool;
  tsearchable : bool;
  taggregatable : bool;
}.

Definition noPolicy : policyTag := Build_policyTag false false false false false false false false false.

(** The errors of the package, by their message and what it quotes. *)
Inductive policyError :=
| EmptyToken (tag : bytes)
| UnknownToken (tok : bytes)
| HiddenWithReadWrite
| WriteAndServer
| NotAColumn (goName : bytes)
| ManagedWritten (column : bytes)
| NotCreatableWritten (column : bytes)
| NotReadableRead (column : bytes)
| QueryableNotVisible (column : bytes)
| RequiredNotCreatable (column : bytes)
| RequiredManaged (column : bytes)
| RequiredNoSource (column : bytes)
| Shadowed (goName column : bytes)
| ContainerPolicy (path : bytes)
| SchemaParse (msg : bytes).

(** The switch on one token: what it sets, or [None] for an unknown one. *)
Definition applyToken (p : policyTag) (tok : bytes) : option policyTag :=
  let '(Build_policyTag pr rd wr se hi fi so sa ag) := p in
  if beqb tok (&"read") then Some (Build_policyTag pr true wr se hi fi so sa ag)
  else if beqb tok (&"write") then Some (Build_policyTag pr rd true se hi fi so sa ag)
  else if beqb tok (&"server") then Some (Build_policyTag pr rd wr true hi fi so sa ag)
  else if beqb tok (&"-") then Some (Build_policyTag pr rd wr se true fi so sa ag)
  else if beqb tok (&"filterable") then Some (Build_policyTag pr rd wr se hi true so sa ag)
  else if beqb tok (&"sortable") then Some (Build_policyTag pr rd wr se hi fi true sa ag)
  else if beqb tok (&"searchable") then Some (Build_policyTag pr rd wr se hi fi so true ag)
  else if beqb tok (&"aggregatable") then Some (Build_policyTag pr rd wr se hi fi so sa true)
  else None.

Fixpoint applyTokens (tag : bytes) (p : policyTag) (toks : list bytes) : result policyError policyTag :=
  match toks with
  | [] => Ok p
  | tok :: toks =>
      let t := TrimSpace tok in
      match applyToken p t with
      | Some p => applyTokens tag p toks
      | None => if beqb t [] then Err (EmptyToken tag) else Err (UnknownToken t)
      end
  end.

Definition parsePolicyTag (tag : bytes) : result policyError policyTag :=
  let tag := TrimSpace tag in
  if beqb tag [] then Ok noPolicy
  else
    let? p := applyTokens tag (Build_policyTag true false false false false false false false false)
                (SplitByte tag ",") in
    if thidden p && (tread p || twrite p) then Err HiddenWithReadWrite
    else if twrite p && tserver p then Err WriteAndServer
    else Ok p.

(** ** Resolving one field *)

(** Where the field appears and where its value comes from. *)
Definition surfaces (facts : FieldFacts) (tag : policyTag) : bool * bool * CreateSource :=
  if present tag then
    (tread tag, twrite tag,
     if twrite tag then CreateSourceRequest
     else if tserver tag then CreateSourceServer else CreateSourceNone)
  else
    let inRequest := Creatable facts && negb (managed facts) in
    (Readable facts && negb (SoftDelete facts), inRequest,
     if inRequest then CreateSourceRequest else CreateSourceNone).

Definition Resolve (facts : FieldFacts) (gombitTag : bytes) : result policyError Resolved :=
  let? tag := parsePolicyTag gombitTag in
  let r := Build_Resolved facts false false CreateSourceNone false false false false in
  if negb (dbBacked facts) then
    if present tag then Err (NotAColumn (GoName facts)) else Ok r
  else if (twrite tag || tserver tag) && managed facts then Err (ManagedWritten (Column facts))
  else if (twrite tag || tserver tag) && negb (Creatable facts) then Err (NotCreatableWritten (Column facts))
  else if tread tag && negb (Readable facts) then Err (NotReadableRead (Column facts))
  else
    let '(inResponse, inRequest, source) := surfaces facts tag in
    let q (b : bool) := present tag && b in
    let r := Build_Resolved facts inRequest inResponse source
               (q (tfilterable tag)) (q (tsortable tag)) (q (tsearchable tag)) (q (taggregatable tag)) in
    if (Filterable r || Sortable r || Searchable r || Aggregatable r) && negb (InResponse r)
    then Err (QueryableNotVisible (Column facts))
    else if requiresCreateValue facts && bool_decide (rCreateSource r = CreateSourceNone) then
      Err (if negb (Creatable facts) then RequiredNotCreatable (Column facts)
           else if managed facts then RequiredManaged (Column facts)
           else RequiredNoSource (Column facts))
    else Ok r.

Fixpoint ResolveAll (fields : list Field) : result policyError (list Resolved) :=
  match fields with
  | [] => Ok []
  | f :: fields =>
      let? r := Resolve (fFacts f) (fTag f) in
      let? out := ResolveAll fields in
      Ok (r :: out)
  end.

Definition columnsWhere (keep : Resolved -> bool) (resolved : list Resolved) : list bytes :=
  sortStrings (omap (fun r => if negb (beqb (Column (rFacts r)) []) && keep r
                              then Some (Column (rFacts r)) else None) resolved).

Definition RequestColumns : list Resolved -> list bytes := columnsWhere InRequest.
Definition ResponseColumns : list Resolved -> list bytes := columnsWhere InResponse.
Definition ServerColumns : list Resolved -> list bytes :=
  columnsWhere (fun r => bool_decide (rCreateSource r = CreateSourceServer)).

(** ** The parsed schema *)

Definition StructTag : Type := list (bytes * bytes).

Definition TagGet (tag : StructTag) (key : bytes) : bytes :=
  match list_find (fun kv : bytes * bytes => beqb kv.1 key = true) tag with
  | Some (_, kv) => kv.2
  | None => []
  end.

Definition fieldPtr : Type := positive.

(** A [*schema.Field]: its address and what the package reads of it. *)
Record SchemaField := {
  Addr : fieldPtr;
  sName : bytes;
  DBName : bytes;
  BindNames : list bytes;
  sTag : StructTag;
  sPrimaryKey : bool;
  sAutoIncrement : bool;
  AutoCreateTime : Z;
  AutoUpdateTime : Z;
  sNotNull : bool;
  HasDefaultValue : bool;
  sCreatable : bool;
  sReadable : bool;
}.

(** A delete clause: [gorm.SoftDeleteDeleteClause] as a value or a pointer, which
    may be nil, with the field it names, which may be nil; or another clause. *)
Inductive DeleteClause :=
| SoftDeleteValue (field : option fieldPtr)
| SoftDeletePointer (clause : option (option fieldPtr))
| OtherClause.

Inductive gotype :=
| TPointer (elem : gotype)
| TStruct (name : bytes)
| TOther.

Record StructField := {
  stName : bytes;
  stPkgPath : bytes;
  stAnonymous : bool;
  stTag : StructTag;
  stType : gotype;
}.

(** The struct types of the program, by name. *)
Definition structs : Type := bytes -> list StructField.

Record Schema := {
  Fields_ : list SchemaField;
  DBNames : list bytes;
  FieldsByDBName : gmap bytes SchemaField;
  DeleteClauses : list DeleteClause;
  ModelType : option gotype;
}.

Definition clauseField (c : DeleteClause) : option fieldPtr :=
  match c with
  | SoftDeleteValue f => f
  | SoftDeletePointer (Some f) => f
  | SoftDeletePointer None | OtherClause => None
  end.

Definition softDeleteFields (sch : Schema) : gset fieldPtr :=
  list_to_set (omap clauseField (DeleteClauses sch)).

Definition factsFromSchema (f : SchemaField) (softDelete : bool) : FieldFacts := {|
  GoName := sName f;
  Column := DBName f;
  PrimaryKey := sPrimaryKey f;
  AutoIncrement := sAutoIncrement f;
  AutoTime := negb (AutoCreateTime f =? 0)%Z || negb (AutoUpdateTime f =? 0)%Z;
  SoftDelete := softDelete;
  NotNull := sNotNull f;
  HasDefault := HasDefaultValue f;
  Creatable := sCreatable f;
  Readable := sReadable f;
|}.

(** [owner] is [f.Schema]. *)
Definition FactsFromSchema (owner : option Schema) (f : SchemaField) : FieldFacts :=
  factsFromSchema f
    (match owner with
     | Some sch => bool_decide (Addr f ∈ softDeleteFields sch)
     | None => false
     end).

Definition gombitTag (tag : StructTag) : bytes := TagGet tag (&"gombit").

(** ** Policies on embedded containers *)

Fixpoint derefType (t : gotype) : gotype := match t with TPointer t => derefType t | t => t end.

Definition pathKey (path : list bytes) : bytes := Join path (&".").

Definition keptPaths (sch : Schema) : gset bytes :=
  list_to_set (map (fun f => pathKey (BindNames f)) (Fields_ sch)).

(** The walk of [walkContainerPolicy] over the fields of a struct; [None] when the
    fuel runs out. *)
Section walk.
Variable Γ : structs.
Variable kept : gset bytes.

Definition walkFields (walk : gotype -> list bytes -> option (result policyError unit)) (prefix : list bytes) :
    list StructField -> option (result policyError unit) :=
  fix go fs :=
    match fs with
    | [] => Some (Ok tt)
    | f :: fs =>
        if negb (beqb (stPkgPath f) []) && negb (stAnonymous f) then go fs
        else
          let path := prefix ++ [stName f] in
          if bool_decide (pathKey path ∈ kept) then go fs
          else if negb (beqb (gombitTag (stTag f)) []) then Some (Err (ContainerPolicy (pathKey path)))
          else match derefType (stType f) with
               | TStruct name =>
                   match walk (TStruct name) path with
                   | Some (Ok _) => go fs
                   | r => r
                   end
               | _ => go fs
               end
    end.

Fixpoint walkContainerPolicy (fuel : nat) (t : gotype) (prefix : list bytes) : option (result policyError unit) :=
  match fuel with
  | O => None
  | S fuel =>
      match derefType t with
      | TStruct name => walkFields (walkContainerPolicy fuel) prefix (Γ name)
      | _ => Some (Ok tt)
      end
  end.
End walk.

Definition validateNoEmbeddedContainerPolicy (Γ : structs) (fuel : nat) (sch : Schema) : option (result policyError unit) :=
  match ModelType sch with
  | Some t => walkContainerPolicy Γ (keptPaths sch) fuel t []
  | None => Some (Ok tt)
  end.

(** ** The resolver's input *)

(** Whether [f] is the field its column maps to. *)
Definition effective (sch : Schema) (f : SchemaField) : bool :=
  negb (beqb (DBName f) []) &&
  match FieldsByDBName sch !! DBName f with Some g => Pos.eqb (Addr g) (Addr f) | None => false end.

Definition softFlag (sch : Schema) (f : SchemaField) : bool := bool_decide (Addr f ∈ softDeleteFields sch).

(** The loop over [sch.Fields]: the first policy that cannot be honored. *)
Fixpoint checkTagged (sch : Schema) (fs : list SchemaField) : result policyError unit :=
  match fs with
  | [] => Ok tt
  | f :: fs =>
      if beqb (gombitTag (sTag f)) [] then checkTagged sch fs
      else if effective sch f then checkTagged sch fs
      else
        let? _ := Resolve (factsFromSchema f (softFlag sch f)) (gombitTag (sTag f)) in
        Err (Shadowed (sName f) (DBName f))
  end.

Definition emitted (sch : Schema) : list Field :=
  omap (fun name =>
    match FieldsByDBName sch !! name with
    | Some f => Some (Build_Field (factsFromSchema f (softFlag sch f)) (gombitTag (sTag f)))
    | None => None
    end) (DBNames sch).

Definition FromSchema (Γ : structs) (fuel : nat) (sch : Schema) : option (result policyError (list Field)) :=
  match validateNoEmbeddedContainerPolicy Γ fuel sch with
  | None => None
  | Some (Err e) => Some (Err e)
  | Some (Ok _) => Some (let? _ := checkTagged sch (Fields_ sch) in Ok (emitted sch))
  end.

(** [parsed] is what [schema.Parse] returns for the model. *)
Definition FromModel (Γ : structs) (fuel : nat) (parsed : result bytes Schema) : option (result policyError (list Field)) :=
  match parsed with
  | Err msg => Some (Err (SchemaParse msg))
  | Ok sch => FromSchema Γ fuel sch
  end.

Definition ResolvedFromModel (Γ : structs) (fuel : nat) (parsed : result bytes Schema) :
    option (result policyError (list Resolved)) :=
  match FromModel Γ fuel parsed with
  | None => None
  | Some (Err e) => Some (Err e)
  | Some (Ok fields) => Some (ResolveAll fields)
  end.
