(* ===== verification/ResourcePolicyFacts.v ===== *)
(** * resourcepolicy: what a resolved model promises

    The tag is read as a set of tokens ([policyOf], independent of their order), a
    resolved field never promises what persistence will not do, and no policy of a
    model is dropped on the way from its struct to the resolved columns. *)

From stdpp Require Import base tactics numbers list strings gmap sets.
From Stdlib Require Import ZArith Lia Ascii Sorted.
From S2P Require Import Prelude GoBytes DotEnv GoText SchemaPlan SchemaPlanFacts MigrationDir MigrationFacts ResourcePolicy.

Local Open Scope string_scope.
Local Open Scope list_scope.
Local Open Scope gotext_scope.
Local Open Scope gombit_scope.

Lemma result_bind_Ok {E A B} (m : result E A) (f : A -> result E B) b :
  result_bind m f = Ok b <-> exists a, m = Ok a /\ f a = Ok b.
Proof. destruct m; simpl; split; [eauto|by intros (? & [= <-] & ?)|done|by intros (? & ? & ?)]. Qed.

(** ** The tag as a set of tokens *)

Definition tokens (tag : bytes) : list bytes := map TrimSpace (SplitByte (TrimSpace tag) ",").

Definition declares (tag tok : bytes) : bool := bool_decide (tok ∈ tokens tag).

(** The policy a tag states, read off its tokens. *)
Definition policyOf (tag : bytes) : policyTag :=
  if beqb (TrimSpace tag) [] then noPolicy
  else Build_policyTag true (declares tag (&"read")) (declares tag (&"write")) (declares tag (&"server"))
         (declares tag (&"-")) (declares tag (&"filterable")) (declares tag (&"sortable"))
         (declares tag (&"searchable")) (declares tag (&"aggregatable")).

Definition knownTokens : list bytes :=
  [&"read"; &"write"; &"server"; &"-"; &"filterable"; &"sortable"; &"searchable"; &"aggregatable"].

Definition wellFormedTag (tag : bytes) : Prop :=
  TrimSpace tag = [] \/
  Forall (.∈ knownTokens) (tokens tag) /\
  ~ (declares tag (&"-") = true /\ (declares tag (&"read") = true \/ declares tag (&"write") = true)) /\
  ~ (declares tag (&"write") = true /\ declares tag (&"server") = true).

(** What one token adds, as a record of disjunctions. *)
Definition addTokens (p : policyTag) (l : list bytes) : policyTag :=
  let has t := bool_decide (t ∈ l) in
  Build_policyTag (present p) (tread p || has (&"read")) (twrite p || has (&"write"))
    (tserver p || has (&"server")) (thidden p || has (&"-")) (tfilterable p || has (&"filterable"))
    (tsortable p || has (&"sortable")) (tsearchable p || has (&"searchable"))
    (taggregatable p || has (&"aggregatable")).

Lemma bool_decide_cons (t x : bytes) l : bool_decide (t ∈ x :: l) = bool_decide (t = x) || bool_decide (t ∈ l).
Proof. repeat case_bool_decide; set_solver. Qed.

Lemma applyToken_Some p t p' l :
  applyToken p t = Some p' -> t ∈ knownTokens /\ addTokens p' l = addTokens p (t :: l).
Proof.
  destruct p as [pr rd wr se hi fi so sa ag]. unfold applyToken.
  repeat (destruct (beqb t _) eqn:?E; [apply beqb_true in E as ->; intros [= <-]; clear|clear E]); [..|done];
    (split; [by apply (bool_decide_eq_true_1 _); vm_compute|]);
    unfold addTokens; rewrite !bool_decide_cons; simpl; f_equal; by rewrite ?orb_true_r, ?orb_false_r.
Qed.

Lemma applyToken_None p t : applyToken p t = None <-> (t ∉ knownTokens).
Proof.
  destruct p as [pr rd wr se hi fi so sa ag]. unfold applyToken, knownTokens, beqb.
  repeat case_bool_decide; set_solver.
Qed.

Lemma addTokens_nil p : addTokens p [] = p.
Proof. destruct p. unfold addTokens. simpl. f_equal; apply orb_false_r. Qed.

Lemma applyTokens_Ok tag l : forall p p',
  applyTokens tag p l = Ok p' <-> Forall (.∈ knownTokens) (map TrimSpace l) /\ p' = addTokens p (map TrimSpace l).
Proof.
  induction l as [|t l IH]; intros p p'; cbn [applyTokens map].
  - rewrite addTokens_nil. split; [by intros [= ->]|by intros [_ ->]].
  - destruct (applyToken p (TrimSpace t)) as [q|] eqn:E.
    + rewrite IH. destruct (applyToken_Some _ _ _ (map TrimSpace l) E) as [H1 ->].
      rewrite Forall_cons. tauto.
    + apply applyToken_None in E. split; [by case_match|]. rewrite Forall_cons. tauto.
Qed.

(** The code's tag parser is the reference: a tag is accepted exactly when it is
    well formed, and then read as the set of its tokens. *)
Lemma parsePolicyTag_Ok tag p : parsePolicyTag tag = Ok p <-> wellFormedTag tag /\ p = policyOf tag.
Proof.
  unfold parsePolicyTag, policyOf, wellFormedTag. destruct (beqb _ _) eqn:E; [apply beqb_true in E|].
  { split; [by intros [= <-]; auto|by intros [_ ->]]. }
  assert (TrimSpace tag <> []) by (intros Ht; by rewrite Ht in E).
  rewrite result_bind_Ok. setoid_rewrite applyTokens_Ok. fold (tokens tag). unfold declares, addTokens. cbn.
  split.
  - intros (q & [H1 ->] & H2). cbn in H2. revert H2.
    repeat case_bool_decide; cbn; intros [= <-]; split; try done; right; split_and!; naive_solver.
  - intros [[?|(H1 & H2 & H3)] ->]; [done|]. eexists. split; [by split|]. cbn. revert H2 H3.
    repeat case_bool_decide; cbn; naive_solver.
Qed.

(** The order of the tokens does not matter. *)
Lemma policyOf_permutation tag tag' :
  TrimSpace tag <> [] -> TrimSpace tag' <> [] -> Permutation (tokens tag) (tokens tag') -> policyOf tag = policyOf tag'.
Proof.
  intros H H' Hp. unfold policyOf, declares, beqb. rewrite (bool_decide_eq_false_2 (TrimSpace tag = [])), (bool_decide_eq_false_2 (TrimSpace tag' = [])) by done.
  f_equal; apply bool_decide_ext; by rewrite Hp.
Qed.

(** ** A resolved field *)

(** What a resolved field may promise, given the facts of persistence. *)
Record sound (r : Resolved) : Prop := {
  sound_query : Filterable r || Sortable r || Searchable r || Aggregatable r = true -> InResponse r = true;
  sound_response : InResponse r = true -> dbBacked (rFacts r) = true /\ Readable (rFacts r) = true;
  sound_request : InRequest r = true <-> rCreateSource r = CreateSourceRequest;
  sound_source : rCreateSource r <> CreateSourceNone ->
    dbBacked (rFacts r) = true /\ Creatable (rFacts r) = true /\ managed (rFacts r) = false;
  sound_required : NeedsCreateValue r = true -> rCreateSource r <> CreateSourceNone;
}.

Lemma requires_backed f : requiresCreateValue f = true -> dbBacked f = true.
Proof. unfold requiresCreateValue. by destruct (dbBacked f). Qed.

Lemma policyOf_consistent tag :
  wellFormedTag tag -> twrite (policyOf tag) && tserver (policyOf tag) = false.
Proof.
  unfold wellFormedTag, policyOf. intros [H|(_ & _ & H)].
  - by rewrite H.
  - case_match; [done|]. cbn. destruct (declares tag _), (declares tag _); naive_solver.
Qed.

(** The record a column resolves to, before the checks on it. *)
Definition resolvedAs (facts : FieldFacts) (p : policyTag) : Resolved :=
  let '(inResponse, inRequest, source) := surfaces facts p in
  let q (b : bool) := present p && b in
  Build_Resolved facts inRequest inResponse source
    (q (tfilterable p)) (q (tsortable p)) (q (tsearchable p)) (q (taggregatable p)).

Lemma Resolve_Ok facts tag r : Resolve facts tag = Ok r ->
  wellFormedTag tag /\
  let p := policyOf tag in
  (dbBacked facts = false /\ present p = false /\
     r = Build_Resolved facts false false CreateSourceNone false false false false) \/
  (dbBacked facts = true /\
   (twrite p || tserver p) && managed facts = false /\
   (twrite p || tserver p) && negb (Creatable facts) = false /\
   tread p && negb (Readable facts) = false /\
   r = resolvedAs facts p /\
   (Filterable r || Sortable r || Searchable r || Aggregatable r) && negb (InResponse r) = false /\
   requiresCreateValue facts && bool_decide (rCreateSource r = CreateSourceNone) = false).
Proof.
  unfold Resolve, resolvedAs. rewrite result_bind_Ok. intros (p & [Hw ->]%parsePolicyTag_Ok & H). split; [done|].
  cbn zeta. destruct (dbBacked facts); cbn [negb] in H; [right|left; by case_match; simplify_eq].
  destruct (surfaces facts _) as [[? ?] ?].
  repeat match type of H with (if ?c then _ else _) = _ => destruct c eqn:?; [done|] end. by simplify_eq.
Qed.

Lemma Resolve_facts facts tag r : Resolve facts tag = Ok r -> rFacts r = facts.
Proof.
  intros (_ & [(_ & _ & ->)|(_ & _ & _ & _ & -> & _)])%Resolve_Ok; [done|].
  unfold resolvedAs. by destruct (surfaces facts _) as [[? ?] ?].
Qed.

Lemma Resolve_sound facts tag r : Resolve facts tag = Ok r -> sound r.
Proof.
  intros H. pose proof (Resolve_facts _ _ _ H) as Hf.
  apply Resolve_Ok in H as (Hw & [(Hb & _ & ->)|(Hb & Hm & Hc & Hr & -> & Hq & Hs)]).
  - split; try done. unfold NeedsCreateValue. simpl. intros H%requires_backed. congruence.
  - apply policyOf_consistent in Hw. destruct (policyOf tag) as [pr rd wr se hi fi so sa ag].
    unfold resolvedAs, surfaces in *. cbn in *.
    split; unfold NeedsCreateValue; destruct pr; cbn in *.
    + intros H. rewrite H in Hq. by apply negb_false_iff.
    + done.
    + intros ->. split; [done|]. by apply negb_false_iff.
    + intros [H _]%andb_true_iff. done.
    + destruct wr, se; split; done.
    + destruct (Creatable facts && _); split; done.
    + intros H. destruct wr, se; cbn in *; try done; by apply negb_false_iff in Hc.
    + intros H. destruct (Creatable facts && _) eqn:E; [|done]. apply andb_true_iff in E as [? ?%negb_true_iff]. done.
    + intros H ?. rewrite H, bool_decide_eq_true_2 in Hs; done.
    + intros H ?. rewrite H, bool_decide_eq_true_2 in Hs; done.
Qed.

(** A tagged column's API is exactly what its tag declares. *)
Definition declaredAs (tag : bytes) (r : Resolved) : Prop :=
  InResponse r = declares tag (&"read") /\ InRequest r = declares tag (&"write") /\
  (rCreateSource r = CreateSourceServer <-> declares tag (&"server") = true) /\
  Filterable r = declares tag (&"filterable") /\ Sortable r = declares tag (&"sortable") /\
  Searchable r = declares tag (&"searchable") /\ Aggregatable r = declares tag (&"aggregatable").

Lemma Resolve_declared facts tag r :
  Resolve facts tag = Ok r -> TrimSpace tag <> [] -> declaredAs tag r.
Proof.
  intros H Ht. apply Resolve_Ok in H as (Hw & H). pose proof (policyOf_consistent tag Hw) as Hc.
  assert (He : beqb (TrimSpace tag) [] = false) by (by apply bool_decide_eq_false_2).
  unfold policyOf in *. rewrite He in *. cbn [twrite tserver present] in *.
  destruct H as [(_ & ? & _)|(_ & _ & _ & _ & -> & _)]; [done|]. unfold resolvedAs, surfaces, declaredAs. cbn - [of_string].
  split_and!; try done. revert Hc. by destruct (declares tag (&"write")), (declares tag (&"server")).
Qed.

(** ** All the fields *)

Lemma ResolveAll_Ok fields : forall rs,
  ResolveAll fields = Ok rs <-> Forall2 (fun f r => Resolve (fFacts f) (fTag f) = Ok r) fields rs.
Proof.
  induction fields as [|f fields IH]; intros rs; cbn [ResolveAll].
  - split; [by intros [= <-]|by inversion 1].
  - rewrite result_bind_Ok. split.
    + intros (r & Hr & (out & Ho & [= <-])%result_bind_Ok). constructor; [done|]. by apply IH.
    + inversion 1 as [|? ? ? rs' Hr Hrs]; subst. apply IH in Hrs. rewrite Hrs. eauto.
Qed.

Lemma columnsWhere_elem keep rs c :
  c ∈ columnsWhere keep rs <-> exists r, r ∈ rs /\ keep r = true /\ dbBacked (rFacts r) = true /\ Column (rFacts r) = c.
Proof.
  unfold columnsWhere, dbBacked. rewrite sortStrings_elem, list_elem_of_omap. split.
  - intros (r & Hr & H). destruct (negb _ && keep r) eqn:E; [|done]. apply andb_true_iff in E as [??].
    simplify_eq. eauto.
  - intros (r & Hr & Hk & Hb & <-). exists r. split; [done|]. by rewrite Hb, Hk.
Qed.

Lemma insert_sorted_sorted x l :
  StronglySorted (fun a b => bytes_leb a b = true) l ->
  StronglySorted (fun a b => bytes_leb a b = true) (insert_sorted x l).
Proof.
  induction 1 as [|y l Hl IH Hy]; cbn [insert_sorted]; [repeat constructor|]. destruct (bytes_leb x y) eqn:E.
  - constructor; [by constructor|]. constructor; [done|]. eapply Forall_impl; [exact Hy|]. intros z. by apply bytes_leb_trans.
  - constructor; [done|]. apply Forall_forall. intros z [->|Hz]%insert_sorted_elem.
    + destruct (bytes_leb_total x y) as [H|H]; congruence.
    + rewrite Forall_forall in Hy. auto.
Qed.

Lemma sortStrings_sorted l : StronglySorted (fun a b => bytes_leb a b = true) (sortStrings l).
Proof. induction l as [|x l IH]; cbn; [constructor|by apply insert_sorted_sorted]. Qed.

(** ** Containers *)

Section containers.
Context (Γ : structs) (kept : gset bytes).

(** A field the walk visits: [container_at t prefix path f] when [f] is reached
    from [t] at [path] through exported or embedded fields GORM did not keep. *)
Inductive container_at : gotype -> list bytes -> list bytes -> StructField -> Prop :=
| container_here t prefix name f :
    derefType t = TStruct name -> f ∈ Γ name ->
    (stPkgPath f = [] \/ stAnonymous f = true) -> pathKey (prefix ++ [stName f]) ∉ kept ->
    container_at t prefix (prefix ++ [stName f]) f
| container_below t prefix name f path g :
    derefType t = TStruct name -> f ∈ Γ name ->
    (stPkgPath f = [] \/ stAnonymous f = true) -> pathKey (prefix ++ [stName f]) ∉ kept ->
    container_at (stType f) (prefix ++ [stName f]) path g ->
    container_at t prefix path g.

Lemma derefType_idem t : derefType (derefType t) = derefType t.
Proof. by induction t. Qed.

Lemma container_deref t prefix path f : container_at t prefix path f <-> container_at (derefType t) prefix path f.
Proof.
  split; (inversion 1; subst; [eapply container_here|eapply container_below]; eauto;
    by rewrite ?derefType_idem in *).
Qed.

Lemma visible_false f : negb (beqb (stPkgPath f) []) && negb (stAnonymous f) = false <->
  stPkgPath f = [] \/ stAnonymous f = true.
Proof.
  rewrite andb_false_iff, !negb_false_iff, beqb_true. done.
Qed.

(** What the walk over the fields of a struct says, given what the walk below does. *)
Lemma walkFields_Ok walk prefix fs :
  walkFields kept walk prefix fs = Some (Ok tt) <->
  Forall (fun f => (stPkgPath f = [] \/ stAnonymous f = true) -> pathKey (prefix ++ [stName f]) ∉ kept ->
    gombitTag (stTag f) = [] /\
    forall name, derefType (stType f) = TStruct name -> walk (TStruct name) (prefix ++ [stName f]) = Some (Ok tt)) fs.
Proof.
  induction fs as [|f fs IH]; [by split|]. rewrite Forall_cons. cbn [walkFields].
  destruct (negb (beqb (stPkgPath f) []) && _) eqn:Ev.
  { rewrite IH. split; [|tauto]. intros H. split; [|done]. intros Hv%visible_false. congruence. }
  apply visible_false in Ev. case_bool_decide as Hk; [rewrite IH; tauto|].
  destruct (beqb (gombitTag (stTag f)) []) eqn:Et; cbn [negb].
  - apply beqb_true in Et. destruct (derefType (stType f)) as [t'|name|] eqn:Ed.
    + rewrite IH. naive_solver.
    + destruct (walk (TStruct name) (prefix ++ [stName f])) as [[[]|e]|] eqn:Ew; [rewrite IH; naive_solver|..];
        (split; [done|]; intros [H _]; destruct (H Ev Hk) as [_ Hn]; specialize (Hn name eq_refl); congruence).
    + rewrite IH. naive_solver.
  - split; [done|]. intros [H _]. destruct (H Ev Hk) as [Ht _]. by rewrite Ht in Et.
Qed.

(** A walk that ends well visited no tagged field. *)
Lemma walk_Ok fuel : forall t prefix,
  walkContainerPolicy Γ kept fuel t prefix = Some (Ok tt) ->
  forall path f, container_at t prefix path f -> gombitTag (stTag f) = [].
Proof.
  induction fuel as [|fuel IH]; intros t prefix H path f Hc; [done|]. cbn [walkContainerPolicy] in H.
  inversion Hc as [? ? name ? Hd Hin Hv Hk|? ? name g ? ? Hd Hin Hv Hk Hg]; subst; rewrite Hd in H;
    apply walkFields_Ok in H; rewrite Forall_forall in H; destruct (H _ Hin Hv Hk) as [Ht Hw]; [done|].
  apply container_deref in Hg. destruct (derefType (stType g)) as [?|name'|] eqn:Ed; try by inversion Hg.
  - exfalso. clear -Ed. induction (stType g); naive_solver.
  - eauto.
Qed.

Lemma walkFields_Some walk prefix fs :
  Forall (fun f => (stPkgPath f = [] \/ stAnonymous f = true) -> pathKey (prefix ++ [stName f]) ∉ kept ->
    forall name, derefType (stType f) = TStruct name -> is_Some (walk (TStruct name) (prefix ++ [stName f]))) fs ->
  is_Some (walkFields kept walk prefix fs).
Proof.
  induction 1 as [|f fs Hf _ IH]; [by eexists|]. cbn [walkFields].
  destruct (negb (beqb (stPkgPath f) []) && _) eqn:Ev; [done|]. apply visible_false in Ev.
  case_bool_decide as Hk; [done|]. case_match; [by eexists|]. destruct (derefType (stType f)) as [|name|] eqn:Ed; try done.
  destruct (Hf Ev Hk name eq_refl) as [r ->]. destruct r; [done|by eexists].
Qed.

(** Fuel: one more than the depth of the containers is enough. *)
Lemma walk_returns n : forall t prefix,
  (forall path f, container_at t prefix path f -> (length path < length prefix + n)%nat) ->
  is_Some (walkContainerPolicy Γ kept (S n) t prefix).
Proof.
  induction n as [|n IH]; intros t prefix H; cbn [walkContainerPolicy]; destruct (derefType t) as [|name|] eqn:Ed; eauto;
    apply walkFields_Some, Forall_forall; intros f Hf Hv Hk name' Hd.
  - pose proof (H _ f (container_here _ _ _ _ Ed Hf Hv Hk)) as Hl. rewrite length_app in Hl. simpl in Hl. lia.
  - apply IH. intros path g Hg. rewrite <- Hd in Hg. apply container_deref in Hg.
    pose proof (H _ g (container_below _ _ _ _ _ _ Ed Hf Hv Hk Hg)). rewrite length_app. simpl. lia.
Qed.
End containers.

(** ** From a parsed model to its API *)

(** What GORM's parser promises of a schema: an address is one field, columns are
    listed once, and a column's field is the one stored under its name. *)
Record wfSchema (sch : Schema) : Prop := {
  wf_addr : forall f g, f ∈ Fields_ sch -> FieldsByDBName sch !! DBName f = Some g -> Addr g = Addr f -> g = f;
  wf_names : forall n f, FieldsByDBName sch !! n = Some f -> n ∈ DBNames sch /\ DBName f = n;
  wf_nodup : NoDup (DBNames sch);
}.

Lemma checkTagged_Ok sch fs :
  checkTagged sch fs = Ok tt ->
  Forall (fun f => gombitTag (sTag f) = [] \/ effective sch f = true) fs.
Proof.
  induction fs as [|f fs IH]; cbn [checkTagged]; [constructor|].
  destruct (beqb _ []) eqn:Et; [apply beqb_true in Et; constructor; auto|].
  destruct (effective sch f) eqn:Ee; [constructor; auto|]. intros (r & _ & ?)%result_bind_Ok. done.
Qed.

Lemma effective_emitted sch f : wfSchema sch -> f ∈ Fields_ sch -> effective sch f = true ->
  Build_Field (factsFromSchema f (softFlag sch f)) (gombitTag (sTag f)) ∈ emitted sch.
Proof.
  intros Hw Hf [_ He]%andb_true_iff. destruct (FieldsByDBName sch !! DBName f) as [g|] eqn:Eg; [|done].
  apply Pos.eqb_eq in He. pose proof (wf_addr _ Hw f g Hf Eg He) as ->.
  unfold emitted. apply list_elem_of_omap. exists (DBName f). split; [|by rewrite Eg].
  by apply (wf_names _ Hw (DBName f) f).
Qed.

Lemma ResolvedFromModel_Ok Γ fuel sch rs :
  ResolvedFromModel Γ fuel (Ok sch) = Some (Ok rs) ->
  validateNoEmbeddedContainerPolicy Γ fuel sch = Some (Ok tt) /\
  checkTagged sch (Fields_ sch) = Ok tt /\
  Forall2 (fun f r => Resolve (fFacts f) (fTag f) = Ok r) (emitted sch) rs.
Proof.
  unfold ResolvedFromModel, FromModel, FromSchema.
  destruct (validateNoEmbeddedContainerPolicy Γ fuel sch) as [[[]|e]|]; try done.
  destruct (checkTagged sch _) as [[]|e] eqn:Ec; [|done]. cbn [result_bind].
  intros [= H]. split_and!; [done|done|]. by apply ResolveAll_Ok.
Qed.

Lemma Forall2_facts fields rs :
  Forall2 (fun f r => Resolve (fFacts f) (fTag f) = Ok r) fields rs -> map rFacts rs = map fFacts fields.
Proof. induction 1 as [|f r fields rs H _ IH]; cbn [map]; [done|]. by rewrite IH, (Resolve_facts _ _ _ H). Qed.

Lemma emitted_columns sch : wfSchema sch -> sublist (map (fun f => Column (fFacts f)) (emitted sch)) (DBNames sch).
Proof.
  intros Hw. unfold emitted. induction (DBNames sch) as [|n l IH]; cbn [omap list_omap map]; [constructor|].
  destruct (FieldsByDBName sch !! n) as [f|] eqn:E; cbn [map]; [|by constructor].
  destruct (wf_names _ Hw n f E) as [_ Hn]. cbn. rewrite Hn. by constructor.
Qed.

Lemma resolved_columns_NoDup sch rs : wfSchema sch ->
  Forall2 (fun f r => Resolve (fFacts f) (fTag f) = Ok r) (emitted sch) rs ->
  NoDup (map (fun r => Column (rFacts r)) rs).
Proof.
  intros Hw H%Forall2_facts. rewrite <- (map_map rFacts Column), H, map_map.
  eapply sublist_NoDup; [apply (wf_nodup _ Hw)|by apply emitted_columns].
Qed.

Lemma NoDup_map_eq {A B} (g : A -> B) (l : list A) x y :
  NoDup (map g l) -> x ∈ l -> y ∈ l -> g x = g y -> x = y.
Proof.
  induction l as [|z l IH]; cbn [map]; [by intros _ ?%not_elem_of_nil|].
  intros [Hz Hn]%NoDup_cons [->|Hx]%elem_of_cons [->|Hy]%elem_of_cons E; auto.
  - destruct Hz. rewrite E. by apply list_elem_of_fmap_2.
  - destruct Hz. rewrite <- E. by apply list_elem_of_fmap_2.
Qed.

Lemma Forall2_elem_of_l {A B} (P : A -> B -> Prop) l k x : Forall2 P l k -> x ∈ l -> exists y, y ∈ k /\ P x y.
Proof.
  intros H [i Hi]%list_elem_of_lookup. destruct (Forall2_lookup_l _ _ _ _ _ H Hi) as (y & Hy & ?).
  exists y. split; [by eapply list_elem_of_lookup_2|done].
Qed.

Lemma Forall2_elem_of_r {A B} (P : A -> B -> Prop) l k y : Forall2 P l k -> y ∈ k -> exists x, x ∈ l /\ P x y.
Proof.
  intros H [i Hi]%list_elem_of_lookup. destruct (Forall2_lookup_r _ _ _ _ _ H Hi) as (x & Hx & ?).
  exists x. split; [by eapply list_elem_of_lookup_2|done].
Qed.

(** C12. No policy is dropped: when a model resolves, every field with a gombit tag is in
    the result with its own facts and exactly the policy its tag declares, no embedded
    container that is not kept carries a tag, and the result has one entry for each column
    the database layer maps, in its order. *)
Theorem no_policy_dropped Γ fuel sch rs :
  wfSchema sch ->
  ResolvedFromModel Γ fuel (Ok sch) = Some (Ok rs) ->
  (forall f, f ∈ Fields_ sch -> TrimSpace (gombitTag (sTag f)) <> [] ->
     exists r, r ∈ rs /\ rFacts r = factsFromSchema f (softFlag sch f) /\ declaredAs (gombitTag (sTag f)) r) /\
  (forall t path f, ModelType sch = Some t -> container_at Γ (keptPaths sch) t [] path f -> gombitTag (stTag f) = []) /\
  map rFacts rs = omap (fun n => (fun f => factsFromSchema f (softFlag sch f)) <$> FieldsByDBName sch !! n) (DBNames sch).
Proof.
  intros Hw (Hc & Ht & Hr)%ResolvedFromModel_Ok. split_and!.
  - intros f Hf Htag. apply checkTagged_Ok in Ht. rewrite Forall_forall in Ht.
    destruct (Ht f Hf) as [E|He]; [by rewrite E in Htag|].
    destruct (Forall2_elem_of_l _ _ _ _ Hr (effective_emitted _ _ Hw Hf He)) as (r & Hin & H). cbn in H.
    exists r. split_and!; [done|by apply Resolve_facts in H|by eapply Resolve_declared].
  - intros t path f Hm. unfold validateNoEmbeddedContainerPolicy in Hc. rewrite Hm in Hc. by apply (walk_Ok _ _ _ _ _ Hc).
  - rewrite (Forall2_facts _ _ Hr). unfold emitted. clear. induction (DBNames sch) as [|n l IH]; [done|].
    cbn. destruct (FieldsByDBName sch !! n); cbn; by rewrite IH.
Qed.

(** A resolved model never promises over HTTP what persistence will not do: every column
    needed to create a row comes from the request or from the server and never from both, a
    column that cannot be read is in no response, and one that cannot be created or is
    managed is in neither list. *)
Theorem exposed_surface_sound Γ fuel sch rs :
  wfSchema sch ->
  ResolvedFromModel Γ fuel (Ok sch) = Some (Ok rs) ->
  Forall sound rs /\
  (forall r, r ∈ rs -> NeedsCreateValue r = true ->
     Column (rFacts r) ∈ RequestColumns rs \/ Column (rFacts r) ∈ ServerColumns rs) /\
  (forall c, c ∈ RequestColumns rs -> (c ∉ ServerColumns rs)) /\
  (forall r, r ∈ rs -> Readable (rFacts r) = false -> (Column (rFacts r) ∉ ResponseColumns rs)) /\
  (forall r, r ∈ rs -> Creatable (rFacts r) = false \/ managed (rFacts r) = true ->
     (Column (rFacts r) ∉ RequestColumns rs) /\ (Column (rFacts r) ∉ ServerColumns rs)).
Proof.
  intros Hw (_ & _ & Hr)%ResolvedFromModel_Ok. pose proof (resolved_columns_NoDup _ _ Hw Hr) as Hn.
  assert (Hs : forall r, r ∈ rs -> sound r).
  { intros r Hin. destruct (Forall2_elem_of_r _ _ _ _ Hr Hin) as (f & _ & H). by apply Resolve_sound in H. }
  assert (Hu : forall keep r, r ∈ rs -> Column (rFacts r) ∈ columnsWhere keep rs -> keep r = true /\ dbBacked (rFacts r) = true).
  { intros keep r Hin (r' & Hin' & Hk & Hb & E)%columnsWhere_elem.
    by rewrite (NoDup_map_eq _ _ r' r Hn Hin' Hin E) in *. }
  split_and!; [by apply Forall_forall|..].
  - intros r Hin H. destruct (sound_source _ (Hs r Hin) (sound_required _ (Hs r Hin) H)) as (Hb & _).
    pose proof (sound_required _ (Hs r Hin) H). destruct (rCreateSource r) eqn:E; [done|left|right];
      apply columnsWhere_elem; exists r; split_and!; try done; [by apply (sound_request _ (Hs r Hin))|by rewrite E].
  - intros c (r & Hin & Hk & Hb & <-)%columnsWhere_elem [H _]%Hu; [|done].
    apply bool_decide_eq_true in H. apply (sound_request _ (Hs r Hin)) in Hk. congruence.
  - intros r Hin Hre [H _]%Hu; [|done]. apply (sound_response _ (Hs r Hin)) in H as [_ ?]. congruence.
  - intros r Hin Hcm.
    assert (rCreateSource r = CreateSourceNone) as E.
    { destruct (decide (rCreateSource r = CreateSourceNone)) as [|Hne]; [done|].
      destruct (sound_source _ (Hs r Hin) Hne) as (_ & ? & ?). destruct Hcm; congruence. }
    split; intros [H _]%Hu; try done; [apply (sound_request _ (Hs r Hin)) in H; congruence|].
    apply bool_decide_eq_true in H. congruence.
Qed.

(** ** A concrete model *)

Definition exampleField (a : positive) (name column : bytes) (tag : bytes) (pk ai nn : bool) (created : Z) : SchemaField := {|
  Addr := a; sName := name; DBName := column; BindNames := [name];
  sTag := [(&"json", column); (&"gombit", tag)];
  sPrimaryKey := pk; sAutoIncrement := ai; AutoCreateTime := created; AutoUpdateTime := 0%Z;
  sNotNull := nn; HasDefaultValue := false; sCreatable := true; sReadable := true |}.

(** A book: an auto-increment key, a title the request sets, a slug a hook sets, an
    auto timestamp; and an embedded container with no tag of its own. *)
Definition bookId : SchemaField := exampleField 1 (&"ID") (&"id") [] true true true 0.
Definition bookTitle : SchemaField := exampleField 2 (&"Title") (&"title") (&"sortable, read,write") false false true 0.
Definition bookSlug : SchemaField := exampleField 3 (&"Slug") (&"slug") (&"server,-") false false true 0.
Definition bookCreated : SchemaField := exampleField 4 (&"CreatedAt") (&"created_at") [] false false true 1.

Definition bookSchema : Schema := {|
  Fields_ := [bookId; bookTitle; bookSlug; bookCreated];
  DBNames := [&"id"; &"title"; &"slug"; &"created_at"];
  FieldsByDBName := list_to_map [(&"id", bookId); (&"title", bookTitle); (&"slug", bookSlug); (&"created_at", bookCreated)];
  DeleteClauses := [OtherClause];
  ModelType := Some (TPointer (TStruct (&"Book"))) |}.

Definition bookStructs : structs := fun name =>
  if beqb name (&"Book") then
    [Build_StructField (&"Base") [] true [] (TStruct (&"Base"));
     Build_StructField (&"Title") [] false [(&"gombit", &"sortable, read,write")] TOther;
     Build_StructField (&"Slug") [] false [(&"gombit", &"server,-")] TOther;
     Build_StructField (&"cache") (&"books") false [(&"gombit", &"read")] TOther]
  else if beqb name (&"Base") then [Build_StructField (&"Extra") [] false [] TOther]
  else [].

Definition bookResolved : list Resolved :=
  [Build_Resolved (factsFromSchema bookId false) false true CreateSourceNone false false false false;
   Build_Resolved (factsFromSchema bookTitle false) true true CreateSourceRequest false true false false;
   Build_Resolved (factsFromSchema bookSlug false) false false CreateSourceServer false false false false;
   Build_Resolved (factsFromSchema bookCreated false) false true CreateSourceNone false false false false].

Lemma bookSchema_wf : wfSchema bookSchema.
Proof.
  split.
  - intros f g Hf. unfold bookSchema in Hf. cbn [Fields_] in Hf. rewrite !elem_of_cons in Hf.
    destruct Hf as [-> | [-> | [-> | [-> | []%not_elem_of_nil]]]]; vm_compute; by intros [= <-].
  - intros n f H. cbn [FieldsByDBName bookSchema] in H. apply elem_of_list_to_map_2 in H. rewrite !elem_of_cons in H.
    destruct H as [[= -> ->] | [[= -> ->] | [[= -> ->] | [[= -> ->] | []%not_elem_of_nil]]]];
      (split; [apply (bool_decide_eq_true_1 _); by vm_compute|done]).
  - apply (bool_decide_eq_true_1 _). by vm_compute.
Qed.

Lemma bookResolved_eq : ResolvedFromModel bookStructs 3 (Ok bookSchema) = Some (Ok bookResolved).
Proof. by vm_compute. Qed.

Lemma no_policy_dropped_witness :
  exists r, r ∈ bookResolved /\ rFacts r = factsFromSchema bookSlug (softFlag bookSchema bookSlug) /\ declaredAs (&"server,-") r.
Proof.
  destruct (no_policy_dropped bookStructs 3 bookSchema bookResolved bookSchema_wf bookResolved_eq) as (H & _ & _).
  apply (H bookSlug); [apply list_elem_of_In; simpl; tauto|by vm_compute].
Defined.

Lemma exposed_surface_sound_witness : &"slug" ∉ RequestColumns bookResolved.
Proof.
  destruct (exposed_surface_sound bookStructs 3 bookSchema bookResolved bookSchema_wf bookResolved_eq) as (_ & _ & H & _).
  intros Hin. apply (H _ Hin). apply (bool_decide_eq_true_1 _). by vm_compute.
Defined.
