(* ===== verification/UpgradeDiff.v ===== *)
(** * upgrade: the unified diff of an automatic change

    [src/upgrade/diff.go]: the edit script of [myers] (Myers' O(ND) search, with
    the common prefix and suffix set aside and a bound on the edits), the grouping
    of its lines into hunks, and the text.  The arrays of the search are lists read
    and written at [Z] indices; [None] is an index out of range, which Go panics
    on, or a loop that ran out of fuel, and [UpgradePatchFacts] shows neither
    happens.  Lengths and indices stay far below 2^63 and are plain integers. *)

From stdpp Require Import base tactics numbers list strings gmap sets.
From Stdlib Require Import ZArith Lia Ascii.
From S2P Require Import Prelude GoBytes DotEnv GoText.

Local Open Scope string_scope.
Local Open Scope list_scope.
Local Open Scope gotext_scope.
Local Open Scope Z_scope.

(** ** Arrays *)

Definition zget {A} (l : list A) (i : Z) : option A := if i <? 0 then None else l !! Z.to_nat i.

Definition zset {A} (l : list A) (i : Z) (x : A) : option (list A) :=
  if (0 <=? i) && (i <? Z.of_nat (length l)) then Some (<[Z.to_nat i := x]> l) else None.

Definition zslice {A} (l : list A) (lo hi : Z) : list A := take (Z.to_nat (hi - lo)) (drop (Z.to_nat lo) l).

(** ** Lines *)

(** [strings.SplitAfter] at newlines. *)
Fixpoint splitAfterNewline (s : bytes) : list bytes :=
  match s with
  | [] => [[]]
  | c :: s =>
      if Ascii.eqb c newline then [c] :: splitAfterNewline s
      else match splitAfterNewline s with
           | l :: ls => (c :: l) :: ls
           | [] => [[c]]
           end
  end.

Definition noNewlineMarker : bytes := newline_b ++ &"\ No newline at end of file" ++ newline_b.

Definition diffLines (s : bytes) : list bytes :=
  match s with
  | [] => []
  | _ =>
      let lines := splitAfterNewline s in
      match rev lines with
      | [] :: ls => rev ls
      | l :: ls => rev ls ++ [l ++ noNewlineMarker]
      | [] => lines
      end
  end.

(** ** The edit script *)

(** The kinds are the bytes ' ', '-' and '+'. *)
Inductive opKind := Kept | Removed | Added.

#[export] Instance opKind_eq_dec : EqDecision opKind.
Proof. solve_decision. Defined.

Definition kindByte (k : opKind) : ascii :=
  match k with Kept => " " | Removed => "-" | Added => "+" end%char.

Record diffOp := { okind : opKind; oa : Z; ob : Z }.

Definition maxEdits : Z := 2000.

Section middle.
Variables a b : list bytes.
Let n : Z := Z.of_nat (length a).
Let m : Z := Z.of_nat (length b).
Let max : Z := n + m.

(** The inner loop along a diagonal: the [x] it stops at. *)
Fixpoint slide (fuel : nat) (x y : Z) : option Z :=
  if (x <? n) && (y <? m) then
    l ← zget a x;
    r ← zget b y;
    if beqb l r then match fuel with O => None | S fuel => slide fuel (x + 1) (y + 1) end
    else Some x
  else Some x.

(** Whether the best path to diagonal [k] ends in an insertion. *)
Definition down (at_ : Z -> option Z) (d k : Z) : option bool :=
  if k =? - d then Some true
  else if k =? d then Some false
  else l ← at_ (k - 1); r ← at_ (k + 1); Some (l <? r).

(** The loop over the diagonals of round [d]: [c] of them are left, from [k]. *)
Fixpoint diagonals (c : nat) (d k : Z) (v : list Z) : option (bool * list Z) :=
  match c with
  | O => Some (false, v)
  | S c =>
      dn ← down (fun j => zget v (max + j)) d k;
      x ← (if (dn : bool) then zget v (max + k + 1) else l ← zget v (max + k - 1); Some (l + 1));
      x ← slide (length a) x (x - k);
      v ← zset v (max + k) x;
      if (n <=? x) && (m <=? x - k) then Some (true, v)
      else diagonals c d (k + 2) v
  end.

(** The rounds, [c] of them left, from [d]; the trace is kept newest first. *)
Fixpoint rounds (c : nat) (d : Z) (v : list Z) (trace : list (list Z * Z)) : option (bool * list (list Z * Z)) :=
  match c with
  | O => Some (false, trace)
  | S c =>
      let lo := Z.max 0 (max - d - 1) in
      let hi := Z.min (Z.of_nat (length v)) (max + d + 2) in
      let trace := (zslice v lo hi, lo) :: trace in
      '(found, v) ← diagonals (Z.to_nat (d + 1)) d (- d) v;
      if (found : bool) then Some (true, trace) else rounds c (d + 1) v trace
  end.

(** The walk back along a diagonal, until it meets the previous point's row or column. *)
Fixpoint unslide (fuel : nat) (x y prevX prevY : Z) (ops : list diffOp) : option (Z * Z * list diffOp) :=
  if (prevX <? x) && (prevY <? y) then
    match fuel with
    | O => None
    | S fuel => unslide fuel (x - 1) (y - 1) prevX prevY (Build_diffOp Kept (x - 1) (y - 1) :: ops)
    end
  else Some (x, y, ops).

(** The walk back through the trace.  The code appends and reverses at the end. *)
Fixpoint walkBack (trace : list (list Z * Z)) (x y : Z) (ops : list diffOp) : option (list diffOp) :=
  match trace with
  | [] => Some ops
  | (vd, off) :: trace =>
      let d := Z.of_nat (length trace) in
      let at_ j := zget vd (max + j - off) in
      let k := x - y in
      dn ← down at_ d k;
      let prevK := if (dn : bool) then k + 1 else k - 1 in
      prevX ← at_ prevK;
      let prevY := prevX - prevK in
      '(x, y, ops) ← unslide (Z.to_nat x) x y prevX prevY ops;
      if 0 <? d then
        if x =? prevX then walkBack trace x (y - 1) (Build_diffOp Added x (y - 1) :: ops)
        else walkBack trace (x - 1) y (Build_diffOp Removed (x - 1) y :: ops)
      else walkBack trace x y ops
  end.

(** Every line of [a] removed and every line of [b] added. *)
Definition replaceAll : list diffOp :=
  map (fun i => Build_diffOp Removed (Z.of_nat i) 0) (seq 0 (length a)) ++
  map (fun j => Build_diffOp Added n (Z.of_nat j)) (seq 0 (length b)).

Definition middle : option (list diffOp) :=
  let limit := Z.min max maxEdits in
  '(found, trace) ← rounds (Z.to_nat (limit + 1)) 0 (replicate (Z.to_nat (2 * max + 2)) 0) [];
  if (found : bool) then walkBack trace n m [] else Some replaceAll.
End middle.

(** The length of the common prefix: the first loop of [myers]. *)
Fixpoint commonPrefix (a b : list bytes) : nat :=
  match a, b with
  | x :: a, y :: b => if beqb x y then S (commonPrefix a b) else O
  | _, _ => O
  end.

(** The second loop compares from the ends of what the prefix leaves. *)
Definition commonSuffix (pre : nat) (a b : list bytes) : nat :=
  commonPrefix (rev (drop pre a)) (rev (drop pre b)).

Definition myers (a b : list bytes) : option (list diffOp) :=
  let pre := commonPrefix a b in
  let suf := commonSuffix pre a b in
  if Nat.eqb pre (length a) && Nat.eqb pre (length b) then Some []
  else
    let cut (l : list bytes) := take (length l - suf - pre) (drop pre l) in
    mid ← middle (cut a) (cut b);
    Some (map (fun i => Build_diffOp Kept (Z.of_nat i) (Z.of_nat i)) (seq 0 pre) ++
          map (fun op => Build_diffOp (okind op) (oa op + Z.of_nat pre) (ob op + Z.of_nat pre)) mid ++
          map (fun i => Build_diffOp Kept (Z.of_nat (length a - suf + i)) (Z.of_nat (length b - suf + i))) (seq 0 suf)).

(** ** Hunks *)

Definition context : nat := 3.

Definition isKept (op : diffOp) : bool := match okind op with Kept => true | _ => false end.

(** The run of kept lines from the start of [ops]. *)
Fixpoint keptRun (ops : list diffOp) : nat :=
  match ops with
  | op :: ops => if isKept op then S (keptRun ops) else O
  | [] => O
  end.

(** The loop that finds a hunk's end, from index [e] where [rest] begins. *)
Fixpoint hunkEnd (fuel : nat) (e : nat) (rest : list diffOp) : nat :=
  match fuel with
  | O => e
  | S fuel =>
      match rest with
      | [] => e
      | op :: rest' =>
          if negb (isKept op) then hunkEnd fuel (S e) rest'
          else
            let run := keptRun rest in
            if Nat.eqb run (length rest) || Nat.ltb (2 * context) run then e
            else hunkEnd fuel (e + run) (drop run rest)
      end
  end.

(** A hunk: its ranges and its lines. *)
Record hunk := { aStart : Z; aCount : nat; bStart : Z; bCount : nat; hbody : list (opKind * bytes) }.

Definition opLine (a b : list bytes) (op : diffOp) : option (opKind * bytes) :=
  l ← (match okind op with Added => zget b (ob op) | _ => zget a (oa op) end);
  Some (okind op, l).

Definition countA (l : list diffOp) : nat := length (filter (fun op => okind op <> Added) l).
Definition countB (l : list diffOp) : nat := length (filter (fun op => okind op <> Removed) l).

Definition hunkOf (a b : list bytes) (ops : list diffOp) : option hunk :=
  first ← head ops;
  body ← mapM (opLine a b) ops;
  Some (Build_hunk (oa first) (countA ops) (ob first) (countB ops) body).

(** The loop of [unifiedDiff] from index [i]. *)
Fixpoint hunksFrom (fuel : nat) (a b : list bytes) (ops : list diffOp) (i : nat) : option (list hunk) :=
  match fuel with
  | O => None
  | S fuel =>
      match ops !! i with
      | None => Some []
      | Some op =>
          if isKept op then hunksFrom fuel a b ops (S i)
          else
            let start := (i - context)%nat in
            let end_ := hunkEnd (length ops) i (drop i ops) in
            let stop := Nat.min (end_ + context) (length ops) in
            h ← hunkOf a b (take (stop - start) (drop start ops));
            hs ← hunksFrom fuel a b ops stop;
            Some (h :: hs)
      end
  end.

Definition diffHunks (before after : bytes) : option (list hunk) :=
  let a := diffLines before in
  let b := diffLines after in
  ops ← myers a b;
  hunksFrom (S (length ops)) a b ops 0.

(** ** The text *)

Definition hunkRange (start : Z) (count : nat) : bytes :=
  match count with
  | O => Sprintf "%s,0" [itoa start]
  | _ => Sprintf "%s,%s" [itoa (start + 1); itoa (Z.of_nat count)]
  end.

Definition renderHunk (h : hunk) : bytes :=
  Sprintf "@@ -%s +%s @@" [hunkRange (aStart h) (aCount h); hunkRange (bStart h) (bCount h)] ++ newline_b ++
  concat (map (fun kl : opKind * bytes => kindByte kl.1 :: kl.2) (hbody h)).

Definition unifiedDiff (path before after : bytes) : option bytes :=
  ops ← myers (diffLines before) (diffLines after);
  match ops with
  | [] => Some []
  | _ =>
      hs ← hunksFrom (S (length ops)) (diffLines before) (diffLines after) ops 0;
      Some (Sprintf "--- a/%s" [path] ++ newline_b ++ Sprintf "+++ b/%s" [path] ++ newline_b ++ concat (map renderHunk hs))
  end.
