(* ===== verification/UpgradePatchFacts.v ===== *)
(** * upgrade: the diff turns the old file into the new one

    The search of [middle] computes the furthest points [reach] of [d] edits on
    each diagonal; the walk back rebuilds an edit script of exactly that length;
    and the hunks cut from a script, applied to the old lines as a patch is, give
    the new ones.

    The second part is about the hunks and the patch. *)

From stdpp Require Import base tactics numbers list strings gmap sets.
From Stdlib Require Import ZArith Lia Ascii.
From S2P Require Import Prelude GoBytes DotEnv GoText UpgradeDiff.

Local Open Scope string_scope.
Local Open Scope list_scope.
Local Open Scope gotext_scope.
Local Open Scope Z_scope.

(** ** Arrays *)

Lemma zget_nat {A} (l : list A) (i : nat) : zget l (Z.of_nat i) = l !! i.
Proof. unfold zget. rewrite (proj2 (Z.ltb_ge _ _)) by lia. by rewrite Nat2Z.id. Qed.

Lemma zget_Some {A} (l : list A) i : 0 <= i < Z.of_nat (length l) -> is_Some (zget l i).
Proof.
  intros H. unfold zget. rewrite (proj2 (Z.ltb_ge _ _)) by lia. apply lookup_lt_is_Some. lia.
Qed.

Lemma zget_range {A} (l : list A) i x : zget l i = Some x -> 0 <= i < Z.of_nat (length l).
Proof.
  unfold zget. destruct (Z.ltb_spec i 0); [done|]. intros ?%lookup_lt_Some. lia.
Qed.

Lemma zset_Some {A} (l : list A) i x : 0 <= i < Z.of_nat (length l) ->
  exists l', zset l i x = Some l' /\ length l' = length l /\
    forall j, zget l' j = if j =? i then Some x else zget l j.
Proof.
  intros H. unfold zset. rewrite (proj2 (Z.leb_le _ _)), (proj2 (Z.ltb_lt _ _)) by lia. cbn.
  eexists. split_and!; [done|apply length_insert|]. intros j. unfold zget.
  destruct (Z.eqb_spec j i) as [->|Hne].
  - rewrite (proj2 (Z.ltb_ge _ _)) by lia. apply list_lookup_insert_eq. lia.
  - destruct (Z.ltb_spec j 0); [done|]. apply list_lookup_insert_ne. lia.
Qed.

Lemma zslice_get {A} (l : list A) lo hi i : 0 <= lo -> lo <= i < hi -> hi <= Z.of_nat (length l) ->
  zget (zslice l lo hi) (i - lo) = zget l i.
Proof.
  intros ? ? ?. unfold zget, zslice. rewrite !(proj2 (Z.ltb_ge _ _)) by lia.
  rewrite lookup_take_lt, lookup_drop by lia. f_equal. lia.
Qed.

(** ** Scripts *)

Section script.
Variables a b : list bytes.

(** [script i j ops i' j']: the operations take position [i] of [a] and [j] of [b]
    to [i'] and [j'], one line at a time. *)
Inductive script : Z -> Z -> list diffOp -> Z -> Z -> Prop :=
| script_nil i j : script i j [] i j
| script_kept i j l ops i' j' :
    zget a i = Some l -> zget b j = Some l -> script (i + 1) (j + 1) ops i' j' ->
    script i j (Build_diffOp Kept i j :: ops) i' j'
| script_removed i j l ops i' j' :
    zget a i = Some l -> script (i + 1) j ops i' j' ->
    script i j (Build_diffOp Removed i j :: ops) i' j'
| script_added i j l ops i' j' :
    zget b j = Some l -> script i (j + 1) ops i' j' ->
    script i j (Build_diffOp Added i j :: ops) i' j'.

Lemma script_app i j ops i' j' ops' i'' j'' :
  script i j ops i' j' -> script i' j' ops' i'' j'' -> script i j (ops ++ ops') i'' j''.
Proof. induction 1; cbn [app]; eauto using script. Qed.
End script.

Definition edits (ops : list diffOp) : nat := length (filter (fun op => okind op <> Kept) ops).

Lemma edits_app l l' : edits (l ++ l') = (edits l + edits l')%nat.
Proof. unfold edits. by rewrite list_basics.list.filter_app, length_app. Qed.

Lemma edits_cons op l : edits (op :: l) = ((if isKept op then 0 else 1) + edits l)%nat.
Proof. unfold edits, isKept. rewrite list_basics.list.filter_cons. case_decide; destruct (okind op); done. Qed.

(** ** The search *)

Section search.
Variables a b : list bytes.
Local Abbreviation n := (Z.of_nat (length a)).
Local Abbreviation m := (Z.of_nat (length b)).

Definition slides (x y x' : Z) : Prop :=
  x <= x' /\ (forall i, x <= i < x' -> exists l, zget a i = Some l /\ zget b (i - x + y) = Some l) /\
  ~ (exists l, zget a x' = Some l /\ zget b (x' - x + y) = Some l).

Lemma slides_stop x y : ~ (exists l, zget a x = Some l /\ zget b y = Some l) -> slides x y x.
Proof.
  intros H. split_and!; [lia|intros; lia|]. by replace (x - x + y) with y by lia.
Qed.

Lemma slides_step x y l x' :
  zget a x = Some l -> zget b y = Some l -> slides (x + 1) (y + 1) x' -> slides x y x'.
Proof.
  intros Ha Hb (H1 & H2 & H3). split_and!; [lia| |].
  - intros i Hi. destruct (decide (i = x)) as [->|]; [exists l; by replace (x - x + y) with y by lia|].
    replace (i - x + y) with (i - (x + 1) + (y + 1)) by lia. apply H2. lia.
  - by replace (x' - x + y) with (x' - (x + 1) + (y + 1)) by lia.
Qed.

Lemma slide_spec fuel : forall x y, 0 <= x -> 0 <= y -> n - x <= Z.of_nat fuel ->
  exists x', slide a b fuel x y = Some x' /\ slides x y x'.
Proof.
  induction fuel as [|fuel IH]; intros x y Hx Hy Hf; cbn [slide];
    (destruct (Z.ltb_spec x (Z.of_nat (length a))); cbn [andb]; [|exists x; split; [done|];
       apply slides_stop; intros (l & [? ?]%zget_range & _); lia]); [lia|].
  destruct (Z.ltb_spec y (Z.of_nat (length b)));
    [|exists x; split; [done|]; apply slides_stop; intros (l & _ & [? ?]%zget_range); lia].
  destruct (zget_Some a x) as [l Hl]; [lia|]. destruct (zget_Some b y) as [r Hr]; [lia|].
  rewrite Hl, Hr. cbn. destruct (beqb l r) eqn:E.
  - apply beqb_true in E as ->. destruct (IH (x + 1) (y + 1)) as (x' & -> & H1); [lia..|].
    exists x'. eauto using slides_step.
  - exists x. split; [done|]. apply slides_stop. intros (l' & ? & ?). simplify_eq. by rewrite beqb_refl in E.
Qed.

Definition snake (x y : Z) : Z := default x (slide a b (length a) x y).

Lemma snake_spec x y : 0 <= x -> 0 <= y -> slide a b (length a) x y = Some (snake x y) /\ slides x y (snake x y).
Proof. intros. destruct (slide_spec (length a) x y) as (x' & E & ?); [lia..|]. unfold snake. by rewrite E. Qed.

(** Beyond the ends nothing slides, and a slide does not leave the grid. *)
Lemma slides_in x y x' : slides x y x' -> x' = x \/ (x' <= n /\ x' - x + y <= m).
Proof.
  intros (H1 & H2 & _). destruct (decide (x' = x)) as [|Hne]; [by left|right].
  destruct (H2 (x' - 1)) as (l & [? ?]%zget_range & [? ?]%zget_range); lia.
Qed.

(** The furthest [x] of [d] edits, on the diagonal [2 i - d]. *)
Fixpoint reach (d i : nat) : Z :=
  match d with
  | O => snake 0 0
  | S d' =>
      let x := match i with
               | O => reach d' 0
               | S i' => if Nat.eqb i d then reach d' i' + 1
                         else if reach d' i' <? reach d' i then reach d' i else reach d' i' + 1
               end in
      snake x (x - (2 * Z.of_nat i - Z.of_nat d))
  end.

Definition diag (d i : nat) : Z := 2 * Z.of_nat i - Z.of_nat d.

(** Where round [S d] starts on diagonal [i], before it slides. *)
Definition start (d i : nat) : Z :=
  match i with
  | O => reach d 0
  | S i' => if Nat.eqb i (S d) then reach d i' + 1
            else if reach d i' <? reach d i then reach d i else reach d i' + 1
  end.

Lemma reach_S d i : reach (S d) i = snake (start d i) (start d i - diag (S d) i).
Proof. done. Qed.

Lemma start_cases d i : (i <= S d)%nat ->
  (start d i = reach d i /\ (i <= d)%nat) \/
  (exists i', i = S i' /\ (i' <= d)%nat /\ start d i = reach d i' + 1).
Proof.
  intros Hi. unfold start. destruct i as [|i']; [left; split; [done|lia]|].
  destruct (Nat.eqb_spec (S i') (S d)); [right; exists i'; split_and!; [done|lia|done]|].
  destruct (Z.ltb_spec (reach d i') (reach d (S i'))); [left; split; [done|lia]|].
  right. exists i'. split_and!; [done|lia|done].
Qed.

Lemma start_ge d i : (i <= d)%nat -> reach d i <= start d i /\ reach d i + 1 <= start d (S i).
Proof.
  intros Hi. unfold start. split.
  - destruct i as [|i']; [lia|]. destruct (Nat.eqb_spec (S i') (S d)); [lia|].
    destruct (Z.ltb_spec (reach d i') (reach d (S i'))); lia.
  - destruct (Nat.eqb_spec (S i) (S d)); [lia|].
    destruct (Z.ltb_spec (reach d i) (reach d (S i))); lia.
Qed.

Lemma reach_bounds d : forall i, (i <= d)%nat -> 0 <= reach d i /\ diag d i <= reach d i.
Proof.
  induction d as [|d IH]; intros i Hi.
  - destruct (snake_spec 0 0) as (_ & H & _); [lia..|]. unfold diag. cbn [reach]. lia.
  - assert (0 <= start d i /\ diag (S d) i <= start d i) as [H0 H1].
    { destruct (start_cases d i Hi) as [[-> Hl]|(i' & -> & Hl & ->)];
        destruct (IH _ Hl); unfold diag in *; lia. }
    rewrite reach_S. destruct (snake_spec (start d i) (start d i - diag (S d) i)) as (_ & H & _); lia.
Qed.

Lemma start_bounds d i : (i <= S d)%nat -> 0 <= start d i /\ diag (S d) i <= start d i.
Proof.
  intros Hi. destruct (start_cases d i Hi) as [[-> Hl]|(i' & -> & Hl & ->)];
    destruct (reach_bounds _ _ Hl); unfold diag in *; lia.
Qed.

Lemma reach_slides d i : (i <= S d)%nat -> slides (start d i) (start d i - diag (S d) i) (reach (S d) i).
Proof. intros Hi. destruct (start_bounds d i Hi). rewrite reach_S. apply snake_spec; lia. Qed.

(** One more edit gets at least one step further, either way. *)
Lemma reach_mono d i : (i <= d)%nat -> reach d i <= reach (S d) i /\ reach d i + 1 <= reach (S d) (S i).
Proof.
  intros Hi. destruct (start_ge d i Hi). destruct (reach_slides d i) as (? & _); [lia|].
  destruct (reach_slides d (S i)) as (? & _); [lia|]. lia.
Qed.

(** A point beyond the end of [a] was nearly there a round before, and so for [b]. *)
Lemma beyond_a d : forall i, (i <= d)%nat -> n < reach d i ->
  exists d' i', d = S d' /\ i = S i' /\ (i' <= d')%nat /\ reach d i - 1 <= reach d' i'.
Proof.
  induction d as [|d IH]; intros i Hi Hn.
  - destruct (snake_spec 0 0) as (_ & Hs); [lia..|]. destruct (slides_in _ _ _ Hs); cbn [reach] in Hn; lia.
  - destruct (slides_in _ _ _ (reach_slides d i Hi)) as [E|[? ?]]; [|lia].
    destruct (start_cases d i Hi) as [[Hs Hl]|(i' & -> & Hl & Hs)].
    + destruct (IH i Hl) as (d' & i' & -> & -> & Hl' & Hr); [lia|].
      exists (S d'), i'. destruct (reach_mono d' i' Hl'). split_and!; [done|done|lia|lia].
    + exists d, i'. split_and!; [done|done|done|lia].
Qed.

Lemma beyond_b d : forall i, (i <= d)%nat -> m < reach d i - diag d i ->
  exists d', d = S d' /\ (i <= d')%nat /\ reach d i <= reach d' i.
Proof.
  induction d as [|d IH]; intros i Hi Hn.
  - destruct (snake_spec 0 0) as (_ & Hs); [lia..|].
    unfold diag in Hn. destruct (slides_in _ _ _ Hs); cbn [reach] in Hn; lia.
  - destruct (slides_in _ _ _ (reach_slides d i Hi)) as [E|[? ?]]; [|lia].
    destruct (start_cases d i Hi) as [[Hs Hl]|(i' & -> & Hl & Hs)].
    + exists d. split_and!; [done|done|lia].
    + destruct (IH i' Hl) as (d' & -> & Hl' & Hr); [unfold diag in *; lia|].
      exists (S d'). destruct (reach_mono d' i' Hl'). split_and!; [done|lia|lia].
Qed.

Definition arrived (d i : nat) : Prop := n <= reach d i /\ m <= reach d i - diag d i.

(** The first round that arrives does so exactly. *)
Lemma arrived_exact d i : (i <= d)%nat -> arrived d i ->
  (forall d' i', (d' < d)%nat -> (i' <= d')%nat -> ~ arrived d' i') ->
  reach d i = n /\ diag d i = n - m.
Proof.
  intros Hi [H1 H2] Hfirst.
  assert (reach d i <= n).
  { destruct (Z_le_gt_dec (reach d i) n) as [|Hn]; [done|exfalso].
    destruct (beyond_a d i Hi) as (d' & i' & -> & -> & Hl & Hr); [lia|].
    apply (Hfirst d' i'); [lia|done|]. unfold arrived, diag in *. lia. }
  assert (reach d i - diag d i <= m).
  { destruct (Z_le_gt_dec (reach d i - diag d i) m) as [|Hn]; [done|exfalso].
    destruct (beyond_b d i Hi) as (d' & -> & Hl & Hr); [lia|].
    apply (Hfirst d' i); [lia|done|]. unfold arrived, diag in *. lia. }
  lia.
Qed.

(** The furthest points are furthest: no script of [d] edits gets further. *)
Lemma reach_furthest i j ops x y : script a b i j ops x y ->
  forall d p, (p <= d)%nat -> diag d p = i - j -> i <= reach d p ->
  exists p', (p' <= d + edits ops)%nat /\ diag (d + edits ops) p' = x - y /\ x <= reach (d + edits ops) p'.
Proof.
  induction 1 as [i j|i j l ops x y Ha Hb _ IH|i j l ops x y Ha _ IH|i j l ops x y Hb _ IH]; intros d p Hp Hd Hr;
    rewrite ?edits_cons; cbn [isKept okind].
  - exists p. unfold edits. cbn. rewrite Nat.add_0_r. done.
  - destruct (IH d p Hp) as (p' & ?); [lia| |exists p'; done].
    destruct (decide (reach d p = i)) as [E|]; [|lia]. exfalso.
    assert (exists s t, slides s t (reach d p) /\ reach d p - s + t = j) as (s & t & (_ & _ & Hs) & Ht).
    { destruct d as [|d].
      - exists 0, 0. destruct (snake_spec 0 0) as [_ ?]; [lia..|]. split; [done|].
        unfold diag in Hd. cbn [reach] in *. lia.
      - exists (start d p), (start d p - diag (S d) p). split; [by apply reach_slides|lia]. }
    apply Hs. exists l. rewrite Ht, E. done.
  - destruct (IH (S d) (S p)) as (p' & H1 & H2 & H3); [lia|unfold diag in *; lia|pose proof (reach_mono d p Hp); lia|].
    exists p'. replace (d + (1 + edits ops))%nat with (S d + edits ops)%nat by lia. done.
  - destruct (IH (S d) p) as (p' & H1 & H2 & H3); [lia|unfold diag in *; lia|pose proof (reach_mono d p Hp); lia|].
    exists p'. replace (d + (1 + edits ops))%nat with (S d + edits ops)%nat by lia. done.
Qed.

Local Abbreviation max := (Z.of_nat (length a) + Z.of_nat (length b)).

(** ** The arrays hold the furthest points *)

Definition start0 (d i : nat) : Z := match d with O => 0 | S d => start d i end.

Lemma reach_start0 d i : (i <= d)%nat ->
  0 <= start0 d i /\ diag d i <= start0 d i /\ reach d i = snake (start0 d i) (start0 d i - diag d i) /\
  slides (start0 d i) (start0 d i - diag d i) (reach d i).
Proof.
  intros Hi. destruct d as [|d]; cbn [start0].
  - assert (i = O) as -> by lia. destruct (snake_spec 0 0) as [_ ?]; [lia..|]. unfold diag. split_and!; [lia|lia|done|done].
  - destruct (start_bounds d i Hi). pose proof (reach_slides d i Hi). by split_and!.
Qed.

(** What a round reads: the previous round's points, at their diagonals. *)
Definition agrees (at_ : Z -> option Z) (d : nat) : Prop :=
  match d with
  | O => at_ 1 = Some 0
  | S d => forall i, (i <= d)%nat -> at_ (diag d i) = Some (reach d i)
  end.

Lemma down_spec at_ d i : (i <= d)%nat -> agrees at_ d ->
  exists dn prev,
    down at_ (Z.of_nat d) (diag d i) = Some dn /\
    at_ (if dn : bool then diag d i + 1 else diag d i - 1) = Some prev /\
    start0 d i = (if dn then prev else prev + 1) /\
    match d with
    | O => dn = true /\ prev = 0
    | S d' => exists i', (i' <= d')%nat /\ prev = reach d' i' /\ diag d' i' = if dn then diag d i + 1 else diag d i - 1
    end.
Proof.
  intros Hi Hv. unfold down. destruct d as [|d]; cbn [agrees start0] in *.
  { assert (i = O) as -> by lia. exists true, 0. unfold diag. cbn. by split_and!. }
  assert (Hup : (i <= d)%nat -> at_ (diag (S d) i + 1) = Some (reach d i)).
  { intros Hl. rewrite <- (Hv i Hl). f_equal. unfold diag. lia. }
  assert (Hlo : forall i', i = S i' -> at_ (diag (S d) i - 1) = Some (reach d i')).
  { intros i' ->. rewrite <- (Hv i') by lia. f_equal. unfold diag. lia. }
  destruct (Z.eqb_spec (diag (S d) i) (- Z.of_nat (S d))) as [E|E].
  { assert (i = O) as -> by (unfold diag in E; lia). exists true, (reach d 0). split_and!; [done|apply Hup; lia|done|].
    exists O. unfold diag. split_and!; [lia|done|lia]. }
  destruct i as [|i']; [unfold diag in E; lia|]. specialize (Hlo i' eq_refl).
  cbn [start]. destruct (Z.eqb_spec (diag (S d) (S i')) (Z.of_nat (S d))) as [E'|E'].
  { assert (i' = d) as -> by (unfold diag in E'; lia). rewrite Nat.eqb_refl. exists false, (reach d d). split_and!; [done|done|done|].
    exists d. unfold diag. split_and!; [lia|done|lia]. }
  assert (S i' <= d)%nat as Hl by (unfold diag in E'; lia). specialize (Hup Hl). rewrite Hlo, Hup. cbn.
  destruct (Nat.eqb_spec i' d); [lia|]. destruct (Z.ltb_spec (reach d i') (reach d (S i'))).
  - exists true, (reach d (S i')). split_and!; [done|done|done|]. exists (S i'). unfold diag. split_and!; [lia|done|lia].
  - exists false, (reach d i'). split_and!; [done|done|done|]. exists i'. unfold diag. split_and!; [lia|done|lia].
Qed.

Definition at_of (v : list Z) (j : Z) : option Z := zget v (max + j).

Lemma diagonals_spec c : forall d i v,
  c = (S d - i)%nat -> (i <= S d)%nat -> Z.of_nat d <= max -> Z.of_nat (length v) = 2 * max + 2 ->
  agrees (at_of v) d ->
  (forall i', (i' < i)%nat -> at_of v (diag d i') = Some (reach d i') /\ ~ arrived d i') ->
  exists found v', diagonals a b c (Z.of_nat d) (diag d i) v = Some (found, v') /\ length v' = length v /\
    if found : bool then exists i', (i' <= d)%nat /\ arrived d i'
    else forall i', (i' <= d)%nat -> at_of v' (diag d i') = Some (reach d i') /\ ~ arrived d i'.
Proof.
  induction c as [|c IH]; intros d i v Hc Hi Hd Hlen Hv Hdone; cbn [diagonals].
  { exists false, v. split_and!; [done|done|]. intros i' Hi'. apply Hdone. lia. }
  assert (i <= d)%nat as Hi' by lia.
  destruct (down_spec _ d i Hi' Hv) as (dn & prev & Hdn & Hat & Hst & _). unfold at_of in Hdn, Hat. rewrite Hdn. cbn [mbind option_bind].
  destruct (reach_start0 d i Hi') as (H0 & H1 & Hsn & Hsl).
  destruct (snake_spec (start0 d i) (start0 d i - diag d i)) as [Hslide _]; [lia..|]. rewrite <- Hsn in Hslide.
  assert ((if dn then zget v (max + diag d i + 1) else l ← zget v (max + diag d i - 1); Some (l + 1)) = Some (start0 d i)) as ->.
  { rewrite Hst. destruct dn; [by rewrite <- Z.add_assoc|]. by rewrite <- Z.add_sub_assoc, Hat. }
  cbn [mbind option_bind]. rewrite Hslide. cbn [mbind option_bind].
  destruct (zset_Some v (max + diag d i) (reach d i)) as (v' & Hset & Hlen' & Hget); [unfold diag in *; lia|].
  rewrite Hset. cbn [mbind option_bind].
  destruct ((n <=? reach d i) && (m <=? reach d i - diag d i)) eqn:Earr.
  { apply andb_true_iff in Earr as [?%Z.leb_le ?%Z.leb_le]. exists true, v'. split_and!; [done|done|]. exists i. by split_and!. }
  replace (diag d i + 2) with (diag d (S i)) by (unfold diag; lia). rewrite <- Hlen'.
  apply IH; [lia|lia|done|lia| |].
  - destruct d as [|d']; cbn [agrees] in *; [|intros j Hj]; unfold at_of; rewrite Hget, (proj2 (Z.eqb_neq _ _));
      [done|unfold diag; lia|by apply Hv|unfold diag; lia].
  - intros j Hj. unfold at_of. rewrite Hget. destruct (Z.eqb_spec (max + diag d j) (max + diag d i)) as [E|E].
    + assert (j = i) as -> by (unfold diag in E; lia). split; [done|]. unfold arrived. intros [?%Z.leb_le ?%Z.leb_le].
      rewrite H, H2 in Earr. done.
    + apply Hdone. destruct (decide (j = i)) as [->|]; [done|lia].
Qed.

(** A trace, newest first: each entry is what its round read. *)
Inductive tracks : list (list Z * Z) -> Prop :=
| tracks_nil : tracks []
| tracks_cons vd off tr :
    agrees (fun j => zget vd (max + j - off)) (length tr) -> tracks tr -> tracks ((vd, off) :: tr).

Lemma slice_agrees v d : Z.of_nat (length v) = 2 * max + 2 -> Z.of_nat d <= max -> agrees (at_of v) d ->
  let lo := Z.max 0 (max - Z.of_nat d - 1) in
  agrees (fun j => zget (zslice v lo (Z.min (Z.of_nat (length v)) (max + Z.of_nat d + 2))) (max + j - lo)) d.
Proof.
  intros Hlen Hd Hv lo. unfold at_of in Hv.
  destruct d as [|d']; cbn [agrees] in *; [|intros i Hi; specialize (Hv i Hi); unfold diag in *];
    rewrite zslice_get; [done|lia..|done|lia|lia|lia].
Qed.

Lemma rounds_spec c : forall d v tr,
  Z.of_nat d + Z.of_nat c <= max + 1 -> Z.of_nat (length v) = 2 * max + 2 ->
  agrees (at_of v) d -> tracks tr -> length tr = d ->
  (forall d' i', (d' < d)%nat -> (i' <= d')%nat -> ~ arrived d' i') ->
  exists found tr', rounds a b c (Z.of_nat d) v tr = Some (found, tr') /\
    if found : bool then
      tracks tr' /\ exists D i, length tr' = S D /\ (i <= D < d + c)%nat /\ arrived D i /\
        (forall d' i', (d' < D)%nat -> (i' <= d')%nat -> ~ arrived d' i')
    else forall d' i', (d' < d + c)%nat -> (i' <= d')%nat -> ~ arrived d' i'.
Proof.
  induction c as [|c IH]; intros d v tr Hc Hlen Hv Htr Hl Hno; cbn [rounds].
  { exists false, tr. split; [done|]. intros d' i' Hd. apply Hno. lia. }
  replace (Z.to_nat (Z.of_nat d + 1)) with (S d - 0)%nat by lia.
  replace (- Z.of_nat d) with (diag d 0) by (unfold diag; lia).
  destruct (diagonals_spec (S d - 0) d 0 v) as (found & v' & -> & Hlen' & Hr); [lia|lia|lia|done|done|lia|].
  cbn [mbind option_bind]. assert (Htr' := slice_agrees v d Hlen ltac:(lia) Hv).
  assert (tracks ((zslice v (Z.max 0 (max - Z.of_nat d - 1)) (Z.min (Z.of_nat (length v)) (max + Z.of_nat d + 2)), Z.max 0 (max - Z.of_nat d - 1)) :: tr))
    as Htr2 by (constructor; [by rewrite Hl|done]).
  destruct found.
  - eexists true, _. split; [done|]. split; [done|]. destruct Hr as (i & Hi & Ha).
    exists d, i. split_and!; [cbn; lia|lia|lia|done|done].
  - replace (Z.of_nat d + 1) with (Z.of_nat (S d)) by lia. replace (d + S c)%nat with (S d + c)%nat by lia.
    apply IH; [lia|lia|by intros i Hi; apply Hr|done|cbn; lia|].
    intros d' i' Hd Hi. destruct (decide (d' = d)) as [->|]; [by apply Hr|apply Hno; lia].
Qed.

(** ** The walk back *)

Lemma unslide_spec s t prevX prevY i' j' :
  (s = prevX /\ prevY < t) \/ (prevX < s /\ t = prevY) ->
  forall fuel x y ops, (Z.to_nat (x - s) <= fuel)%nat -> s <= x -> y = x - s + t ->
    (forall i, s <= i < x -> exists l, zget a i = Some l /\ zget b (i - s + t) = Some l) ->
    script a b x y ops i' j' ->
    exists ops', unslide fuel x y prevX prevY ops = Some (s, t, ops') /\ script a b s t ops' i' j' /\ edits ops' = edits ops.
Proof.
  intros Hp. induction fuel as [|fuel IH]; intros x y ops Hf Hx -> Hm Hs; cbn [unslide];
    destruct ((prevX <? x) && (prevY <? x - s + t)) eqn:E.
  - apply andb_true_iff in E as [?%Z.ltb_lt ?%Z.ltb_lt]. lia.
  - assert (x = s) as -> by lia. exists ops. rewrite Z.sub_diag in *. by split_and!.
  - apply andb_true_iff in E as [?%Z.ltb_lt ?%Z.ltb_lt]. destruct (Hm (x - 1)) as (l & Ha & Hb); [lia|].
    destruct (IH (x - 1) (x - s + t - 1) (Build_diffOp Kept (x - 1) (x - s + t - 1) :: ops)) as (ops' & H1 & H2 & H3);
      [lia|lia|lia|intros i Hi; apply Hm; lia| |exists ops'; by rewrite H3, edits_cons in *].
    econstructor; [exact Ha|by replace (x - s + t - 1) with (x - 1 - s + t) by lia|].
    by replace (x - 1 + 1) with x by lia; replace (x - s + t - 1 + 1) with (x - s + t) by lia.
  - apply andb_false_iff in E. assert (x = s) as ->.
    { destruct (decide (x = s)); [done|]. destruct E as [?%Z.ltb_ge|?%Z.ltb_ge]; lia. }
    exists ops. rewrite Z.sub_diag in *. by split_and!.
Qed.

Lemma walkBack_spec tr : tracks tr -> forall i x y ops i' j',
  (S i <= length tr)%nat -> x = reach (pred (length tr)) i -> y = x - diag (pred (length tr)) i ->
  x <= n -> y <= m -> script a b x y ops i' j' ->
  exists ops', walkBack a b tr x y ops = Some ops' /\ script a b 0 0 ops' i' j' /\
    edits ops' = (pred (length tr) + edits ops)%nat.
Proof.
  induction 1 as [|vd off tr Hag Htr IH]; intros i x y ops i' j' Hi Hx Hy Hn Hm Hs; cbn [length pred] in *; [lia|].
  cbn [walkBack]. replace (x - y) with (diag (length tr) i) by lia.
  destruct (down_spec _ (length tr) i ltac:(lia) Hag) as (dn & prev & -> & Hat & Hst & Hcase). cbn [mbind option_bind].
  rewrite Hat. cbn [mbind option_bind].
  destruct (reach_start0 (length tr) i ltac:(lia)) as (H0 & H1 & _ & (H2 & H3 & _)). rewrite <- Hx in *.
  set (s := start0 (length tr) i) in *.
  destruct (unslide_spec s (s - diag (length tr) i) prev (prev - (if dn then diag (length tr) i + 1 else diag (length tr) i - 1)) i' j'
    ltac:(destruct dn; lia) (Z.to_nat x) x y ops) as (ops' & -> & Hs' & He); [lia|lia|lia|done|done|]. cbn [mbind option_bind].
  destruct (length tr) as [|d] eqn:El.
  - destruct Hcase as [-> ->]. destruct tr; [|done]. cbn. exists ops'. split_and!; [done| |by rewrite He].
    assert (i = O) as -> by lia. unfold diag in Hs'. subst s. cbn in Hs'. done.
  - destruct Hcase as (j & Hj & Hp & Hd). cbn [Init.Nat.pred] in IH. clearbody s.
    rewrite (proj2 (Z.ltb_lt _ _)) by lia.
    destruct dn.
    + rewrite (proj2 (Z.eqb_eq _ _)) by lia.
      destruct (zget_Some b (s - diag (S d) i - 1)) as [l Hl]; [destruct (reach_bounds d j Hj); lia|].
      destruct (IH j s (s - diag (S d) i - 1) (Build_diffOp Added s (s - diag (S d) i - 1) :: ops') i' j')
        as (out & -> & ? & E); [lia|lia|lia|lia|lia| |exists out; rewrite edits_cons in E; cbn in E; split_and!; [done|done|lia]].
      econstructor; [exact Hl|]. by replace (s - diag (S d) i - 1 + 1) with (s - diag (S d) i) by lia.
    + rewrite (proj2 (Z.eqb_neq _ _)) by lia.
      destruct (zget_Some a (s - 1)) as [l Hl]; [destruct (reach_bounds d j Hj); lia|].
      destruct (IH j (s - 1) (s - diag (S d) i) (Build_diffOp Removed (s - 1) (s - diag (S d) i) :: ops') i' j')
        as (out & -> & ? & E); [lia|lia|lia|lia|lia| |exists out; rewrite edits_cons in E; cbn in E; split_and!; [done|done|lia]].
      econstructor; [exact Hl|]. by replace (s - 1 + 1) with s by lia.
Qed.
End search.

(** ** The edit distance *)

(** [lev e a b]: [b] is [a] with [e] lines removed or added. *)
Inductive lev : nat -> list bytes -> list bytes -> Prop :=
| lev_nil : lev 0 [] []
| lev_kept e x a b : lev e a b -> lev e (x :: a) (x :: b)
| lev_removed e x a b : lev e a b -> lev (S e) (x :: a) b
| lev_added e x a b : lev e a b -> lev (S e) a (x :: b).

Lemma lev_app e a b e' a' b' : lev e a b -> lev e' a' b' -> lev (e + e') (a ++ a') (b ++ b').
Proof. induction 1; intros; cbn; eauto using lev. Qed.

Lemma lev_rev e a b : lev e a b -> lev e (rev a) (rev b).
Proof.
  induction 1; cbn [rev]; [constructor|..].
  - rewrite <- (Nat.add_0_r e). apply lev_app; [done|]. repeat constructor.
  - rewrite <- (app_nil_r (rev b)), <- Nat.add_1_r. apply lev_app; [done|]. repeat constructor.
  - rewrite <- (app_nil_r (rev a)), <- Nat.add_1_r. apply lev_app; [done|]. repeat constructor.
Qed.

Lemma lev_swap e a b : lev e a b -> lev e b a.
Proof. induction 1; eauto using lev. Qed.

(** Leaving out the first line of either side costs at most one edit. *)
Lemma lev_tail_r e a x b : lev e a (x :: b) -> exists e', (e' <= S e)%nat /\ lev e' a b.
Proof.
  intros H. remember (x :: b) as xb eqn:E. induction H as [|e y a b' H IH|e y a b' H IH|e y a b' H IH]; simplify_eq.
  - exists (S e). split; [lia|]. by constructor.
  - destruct (IH eq_refl) as (e' & ? & ?). exists (S e'). split; [lia|]. by constructor.
  - exists e. split; [lia|done].
Qed.

Lemma lev_tail e x a b : lev e (x :: a) (x :: b) -> exists e', (e' <= e)%nat /\ lev e' a b.
Proof.
  inversion 1 as [|? ? ? ? H'|e' ? ? ? H'|e' ? ? ? H']; subst.
  - by exists e.
  - apply lev_tail_r in H' as (e'' & ? & ?). exists e''. split; [lia|done].
  - apply lev_swap, lev_tail_r in H' as (e'' & ? & ?%lev_swap). exists e''. split; [lia|done].
Qed.

Lemma lev_strip_prefix p e a b : lev e (p ++ a) (p ++ b) -> exists e', (e' <= e)%nat /\ lev e' a b.
Proof.
  revert e. induction p as [|x p IH]; intros e H; [by exists e|].
  apply lev_tail in H as (e' & ? & (e'' & ? & ?)%IH). exists e''. split; [lia|done].
Qed.

Lemma lev_strip_suffix s e a b : lev e (a ++ s) (b ++ s) -> exists e', (e' <= e)%nat /\ lev e' a b.
Proof.
  intros H%lev_rev. rewrite !rev_app_distr in H. apply lev_strip_prefix in H as (e' & ? & H%lev_rev).
  rewrite !rev_involutive in H. eauto.
Qed.

Lemma zget_drop (a : list bytes) i l : zget a i = Some l -> drop (Z.to_nat i) a = l :: drop (Z.to_nat (i + 1)) a.
Proof.
  intros H. pose proof (zget_range _ _ _ H). unfold zget in H. rewrite (proj2 (Z.ltb_ge _ _)) in H by lia.
  rewrite (drop_S a l (Z.to_nat i) H). f_equal. f_equal. lia.
Qed.

Lemma zget_cons_S (a : list bytes) x (i : Z) : 0 <= i -> zget (x :: a) (i + 1) = zget a i.
Proof.
  intros. unfold zget. rewrite !(proj2 (Z.ltb_ge _ _)) by lia. by replace (Z.to_nat (i + 1)) with (S (Z.to_nat i)) by lia.
Qed.

Lemma lev_script e a b : lev e a b -> forall pa pb,
  exists ops, script (pa ++ a) (pb ++ b) (Z.of_nat (length pa)) (Z.of_nat (length pb)) ops
    (Z.of_nat (length (pa ++ a))) (Z.of_nat (length (pb ++ b))) /\ edits ops = e.
Proof.
  assert (Hget : forall (p l : list bytes) x, zget (p ++ x :: l) (Z.of_nat (length p)) = Some x).
  { intros. by rewrite zget_nat, lookup_app_r, Nat.sub_diag by lia. }
  assert (Happ : forall (p l : list bytes) x, p ++ x :: l = (p ++ [x]) ++ l) by (intros; by rewrite <- app_assoc).
  assert (Hlen : forall (p : list bytes) x, Z.of_nat (length (p ++ [x])) = Z.of_nat (length p) + 1)
    by (intros; rewrite length_app; cbn; lia).
  induction 1 as [|e x a b _ IH|e x a b _ IH|e x a b _ IH]; intros pa pb.
  - exists []. rewrite !app_nil_r. split; [constructor|done].
  - destruct (IH (pa ++ [x]) (pb ++ [x])) as (ops & Hs & <-). rewrite <- !Happ, !Hlen in Hs.
    eexists (_ :: ops). split; [eapply script_kept; [apply Hget|apply Hget|exact Hs]|by rewrite edits_cons].
  - destruct (IH (pa ++ [x]) pb) as (ops & Hs & <-). rewrite <- !Happ, !Hlen in Hs.
    eexists (_ :: ops). split; [eapply script_removed; [apply Hget|exact Hs]|by rewrite edits_cons].
  - destruct (IH pa (pb ++ [x])) as (ops & Hs & <-). rewrite <- !Happ, !Hlen in Hs.
    eexists (_ :: ops). split; [eapply script_added; [apply Hget|exact Hs]|by rewrite edits_cons].
Qed.

(** ** [middle] *)

Lemma script_kept_run a b i j (len : nat) :
  (forall t : nat, (t < len)%nat -> exists l, zget a (i + Z.of_nat t) = Some l /\ zget b (j + Z.of_nat t) = Some l) ->
  script a b i j (map (fun t => Build_diffOp Kept (i + Z.of_nat t) (j + Z.of_nat t)) (seq 0 len)) (i + Z.of_nat len) (j + Z.of_nat len).
Proof.
  induction len as [|len IH]; intros H; [rewrite !Z.add_0_r; constructor|].
  rewrite seq_S, map_app. eapply script_app; [apply IH; intros t Ht; apply H; lia|].
  destruct (H len) as (l & Ha & Hb); [lia|]. cbn. econstructor; [exact Ha|exact Hb|].
  replace (i + Z.of_nat (S len)) with (i + Z.of_nat len + 1) by lia.
  replace (j + Z.of_nat (S len)) with (j + Z.of_nat len + 1) by lia. constructor.
Qed.

Lemma replaceAll_script a b :
  script a b 0 0 (replaceAll a b) (Z.of_nat (length a)) (Z.of_nat (length b)) /\
  edits (replaceAll a b) = (length a + length b)%nat.
Proof.
  unfold replaceAll. rewrite edits_app. split.
  - eapply (script_app _ _ _ _ _ (Z.of_nat (length a)) 0).
    + assert (forall len, (len <= length a)%nat ->
        script a b 0 0 (map (fun i => Build_diffOp Removed (Z.of_nat i) 0) (seq 0 len)) (Z.of_nat len) 0) as H; [|by apply H].
      induction len as [|len IH]; intros Hl; [constructor|]. rewrite seq_S, map_app.
      eapply script_app; [apply IH; lia|]. destruct (zget_Some a (Z.of_nat len)) as [l Hg]; [lia|].
      cbn. econstructor; [exact Hg|]. replace (Z.of_nat (S len)) with (Z.of_nat len + 1) by lia. constructor.
    + assert (forall len, (len <= length b)%nat ->
        script a b (Z.of_nat (length a)) 0 (map (fun j => Build_diffOp Added (Z.of_nat (length a)) (Z.of_nat j)) (seq 0 len))
          (Z.of_nat (length a)) (Z.of_nat len)) as H; [|by apply H].
      induction len as [|len IH]; intros Hl; [constructor|]. rewrite seq_S, map_app.
      eapply script_app; [apply IH; lia|]. destruct (zget_Some b (Z.of_nat len)) as [l Hg]; [lia|].
      cbn. econstructor; [exact Hg|]. replace (Z.of_nat (S len)) with (Z.of_nat len + 1) by lia. constructor.
  - assert (forall k f l, (forall x : nat, okind (f x) = k) -> k <> Kept -> edits (map f l) = length l) as H.
    { intros k f l Hk Hn. induction l as [|x l IH]; [done|]. cbn [map]. rewrite edits_cons, IH. unfold isKept. rewrite Hk.
      by destruct k. }
    by rewrite (H Removed), (H Added), !length_seq.
Qed.

Lemma middle_spec a b :
  exists ops, middle a b = Some ops /\ script a b 0 0 ops (Z.of_nat (length a)) (Z.of_nat (length b)) /\
    forall e, lev e a b -> (Z.of_nat e <= maxEdits) -> (edits ops <= e)%nat.
Proof.
  unfold middle. cbn zeta. set (max := Z.of_nat (length a) + Z.of_nat (length b)).
  assert (Harr : forall e, lev e a b -> exists p, (p <= e)%nat /\ arrived a b e p).
  { intros e (ops & Hs & <-)%(fun H => lev_script _ _ _ H [] []). cbn in Hs.
    destruct (reach_furthest a b _ _ _ _ _ Hs 0 0) as (p & Hp & Hd & Hr); [done|done| |].
    - destruct (reach_bounds a b 0 0); [done|lia].
    - exists p. split; [lia|]. unfold arrived. cbn [Nat.add] in *. lia. }
  destruct (rounds_spec a b (Z.to_nat (Z.min max maxEdits + 1)) 0 (replicate (Z.to_nat (2 * max + 2)) 0) [])
    as (found & tr & Hr & Hcase); [unfold maxEdits; lia|rewrite length_replicate; lia| |constructor|done|lia|].
  { cbn. unfold at_of, zget. rewrite (proj2 (Z.ltb_ge _ _)) by lia. apply lookup_replicate_2. lia. }
  change (Z.of_nat 0) with 0 in Hr. rewrite Hr. cbn [mbind option_bind]. destruct found.
  - destruct Hcase as (Htr & D & i & Hl & Hi & Ha & Hno).
    destruct (arrived_exact a b D i ltac:(lia) Ha Hno) as [Hx Hd].
    destruct (walkBack_spec a b tr Htr i (Z.of_nat (length a)) (Z.of_nat (length b)) [] (Z.of_nat (length a)) (Z.of_nat (length b)))
      as (ops & -> & Hs & He); [lia|rewrite Hl; cbn; lia|rewrite Hl; cbn; lia|lia|lia|constructor|].
    exists ops. split_and!; [done|done|]. rewrite He, Hl. cbn. intros e (p & Hp & Hap)%Harr _.
    destruct (decide (e < D)%nat) as [Hlt|]; [|unfold edits; cbn; lia]. by destruct (Hno e p Hlt Hp).
  - destruct (replaceAll_script a b) as [Hs He]. exists (replaceAll a b). split_and!; [done|done|].
    intros e (p & Hp & Hap)%Harr Hm. rewrite He.
    destruct (decide (e < length a + length b)%nat) as [Hlt|]; [|lia]. destruct (Hcase e p); [lia|done|done].
Qed.

(** * upgrade: hunks applied to the old lines give the new ones

    [myers] as a whole, the lines of a text, and the hunks of [unifiedDiff]: a
    reference [patch] applies them to the old lines, checking every kept and removed
    line and the position of every hunk. *)

Local Open Scope string_scope.
Local Open Scope list_scope.
Local Open Scope gotext_scope.
Local Open Scope Z_scope.

(** ** [myers] *)

Lemma commonPrefix_spec a : forall b,
  (commonPrefix a b <= length a)%nat /\ (commonPrefix a b <= length b)%nat /\
  take (commonPrefix a b) a = take (commonPrefix a b) b.
Proof.
  induction a as [|x a IH]; intros [|y b]; cbn; try (split_and!; lia || done).
  destruct (beqb x y) eqn:E; cbn; [|split_and!; lia || done]. apply beqb_true in E as ->.
  destruct (IH b) as (? & ? & ->). split_and!; lia || done.
Qed.

Lemma commonPrefix_full a b : commonPrefix a b = length a -> commonPrefix a b = length b -> a = b.
Proof.
  intros H1 H2. destruct (commonPrefix_spec a b) as (_ & _ & H). revert H.
  rewrite H1 at 1. rewrite H2, !take_ge by lia. done.
Qed.

(** A list is its prefix, its middle and its suffix. *)
Lemma three_parts {A} (l : list A) (p s : nat) : (p + s <= length l)%nat ->
  l = take p l ++ take (length l - s - p) (drop p l) ++ drop (length l - s) l.
Proof.
  intros H. rewrite <- (take_drop p l) at 1. f_equal. rewrite <- (take_drop (length l - s - p) (drop p l)) at 1.
  f_equal. rewrite drop_drop. f_equal. lia.
Qed.

Lemma commonSuffix_spec pre a b : (pre <= length a)%nat -> (pre <= length b)%nat ->
  let s := commonSuffix pre a b in
  (pre + s <= length a)%nat /\ (pre + s <= length b)%nat /\ drop (length a - s) a = drop (length b - s) b.
Proof.
  intros Ha Hb s. destruct (commonPrefix_spec (rev (drop pre a)) (rev (drop pre b))) as (H1 & H2 & H3).
  fold (commonSuffix pre a b) in *. fold s in H1, H2, H3. rewrite !length_rev, !length_drop in *.
  split_and!; [lia..|].
  rewrite !firstn_rev in H3. apply (f_equal (@rev _)) in H3. rewrite !rev_involutive, !length_drop, !drop_drop in H3.
  by replace (pre + (length a - pre - s))%nat with (length a - s)%nat in H3 by lia;
    replace (pre + (length b - pre - s))%nat with (length b - s)%nat in H3 by lia.
Qed.

Lemma lookup_common {A} (l k : list A) i j t : drop i l = drop j k -> l !! (i + t)%nat = k !! (j + t)%nat.
Proof. intros H. by rewrite <- !lookup_drop, H. Qed.

(** A script of the middles, moved behind the prefix. *)
Lemma script_shift a b a' b' (p : nat) i j ops i' j' :
  (forall t l, zget a' t = Some l -> zget a (t + Z.of_nat p) = Some l) ->
  (forall t l, zget b' t = Some l -> zget b (t + Z.of_nat p) = Some l) ->
  script a' b' i j ops i' j' ->
  script a b (i + Z.of_nat p) (j + Z.of_nat p)
    (map (fun op => Build_diffOp (okind op) (oa op + Z.of_nat p) (ob op + Z.of_nat p)) ops) (i' + Z.of_nat p) (j' + Z.of_nat p).
Proof.
  intros Ha Hb. induction 1; cbn [map okind oa ob]; [constructor|..];
    (econstructor; [eauto..|]); rewrite <- ?Z.add_assoc, ?(Z.add_comm (Z.of_nat p) 1), ?Z.add_assoc; eauto.
Qed.

Lemma zget_cut (l : list bytes) (p s : nat) t x :
  zget (take (length l - s - p) (drop p l)) t = Some x -> zget l (t + Z.of_nat p) = Some x.
Proof.
  intros H. pose proof (zget_range _ _ _ H). unfold zget in *.
  rewrite (proj2 (Z.ltb_ge t 0)) in H by lia. rewrite (proj2 (Z.ltb_ge _ _)) by lia.
  apply lookup_take_Some in H as [H _]. rewrite lookup_drop in H. rewrite <- H. f_equal. lia.
Qed.

Lemma edits_map f l : (forall op, okind (f op) = okind op) -> edits (map f l) = edits l.
Proof. intros H. induction l as [|op l IH]; [done|]. cbn [map]. rewrite !edits_cons, IH. unfold isKept. by rewrite H. Qed.

Lemma edits_kept {A} (f : A -> diffOp) l : (forall x, okind (f x) = Kept) -> edits (map f l) = O.
Proof. intros H. induction l as [|x l IH]; [done|]. cbn [map]. rewrite edits_cons, IH. unfold isKept. by rewrite H. Qed.

Lemma script_empty a b i j i' j' : script a b i j [] i' j' -> i' = i /\ j' = j.
Proof. by inversion 1. Qed.

Lemma myers_spec a b :
  exists ops, myers a b = Some ops /\ (ops = [] <-> a = b) /\
    (a <> b -> script a b 0 0 ops (Z.of_nat (length a)) (Z.of_nat (length b))) /\
    forall e, lev e a b -> Z.of_nat e <= maxEdits -> (edits ops <= e)%nat.
Proof.
  unfold myers. destruct (commonPrefix_spec a b) as (Hpa & Hpb & Hp). set (p := commonPrefix a b) in *.
  destruct (commonSuffix_spec p a b Hpa Hpb) as (Hsa & Hsb & Hs). set (s := commonSuffix p a b) in *.
  destruct (Nat.eqb p (length a) && Nat.eqb p (length b)) eqn:E.
  { apply andb_true_iff in E as [E1%Nat.eqb_eq E2%Nat.eqb_eq]. exists [].
    pose proof (commonPrefix_full a b E1 E2) as ->. split_and!; [done|done|done|]. unfold edits. cbn. lia. }
  assert (a <> b) as Hne.
  { intros ->. apply andb_false_iff in E.
    assert (commonPrefix b b = length b) as Hb by (clear; induction b as [|x b IH]; cbn; [done|by rewrite beqb_refl, IH]).
    subst p. rewrite Hb, Nat.eqb_refl in E. by destruct E. }
  set (A := take (length a - s - p) (drop p a)). set (B := take (length b - s - p) (drop p b)).
  destruct (middle_spec A B) as (mid & -> & Hmid & Hmin). cbn [mbind option_bind].
  eexists. split; [done|].
  assert (HlA : Z.of_nat (length A) + Z.of_nat p = Z.of_nat (length a - s)).
  { subst A. rewrite length_take, length_drop. lia. }
  assert (HlB : Z.of_nat (length B) + Z.of_nat p = Z.of_nat (length b - s)).
  { subst B. rewrite length_take, length_drop. lia. }
  match goal with |- (?o = [] <-> _) /\ _ => assert (Hscript : script a b 0 0 o (Z.of_nat (length a)) (Z.of_nat (length b))) end.
  { eapply (script_app _ _ _ _ _ (0 + Z.of_nat p) (0 + Z.of_nat p)).
    { apply (script_kept_run a b 0 0 p). intros t Ht. rewrite !Z.add_0_l, !zget_nat.
      destruct (lookup_lt_is_Some_2 a t) as [l Hl]; [lia|]. exists l. split; [done|].
      rewrite <- (lookup_take_lt b p), <- Hp, lookup_take_lt by lia. done. }
    eapply script_app; [eapply script_shift; [apply zget_cut|apply zget_cut|exact Hmid]|].
    rewrite HlA, HlB.
    pose proof (script_kept_run a b (Z.of_nat (length a - s)) (Z.of_nat (length b - s)) s) as Hrun.
    replace (Z.of_nat (length a)) with (Z.of_nat (length a - s) + Z.of_nat s) by lia.
    replace (Z.of_nat (length b)) with (Z.of_nat (length b - s) + Z.of_nat s) by lia.
    erewrite map_ext; [apply Hrun|intros t; cbn; by rewrite !Nat2Z.inj_add].
    intros t Ht. rewrite <- !Nat2Z.inj_add, !zget_nat.
    destruct (lookup_lt_is_Some_2 a (length a - s + t)) as [l Hl]; [lia|]. exists l. split; [done|].
    by rewrite <- Hl, (lookup_common a b _ _ t Hs). }
  split_and!; [|done|].
  - split; [|done]. intros Hnil. rewrite Hnil in Hscript. apply script_empty in Hscript as [? ?].
    destruct a, b; cbn in *; (done || lia).
  - intros e He Hm. rewrite (three_parts a p s), (three_parts b p s), Hp, Hs in He by lia.
    apply lev_strip_prefix in He as (e1 & ? & (e2 & ? & He)%lev_strip_suffix).
    rewrite !edits_app, edits_kept, edits_map, edits_kept by done. specialize (Hmin e2 He). lia.
Qed.

(** ** Applying hunks *)

(** The lines of a hunk against the old lines: what they become, and the old lines left. *)
Fixpoint applyBody (body : list (opKind * bytes)) (a : list bytes) : option (list bytes * list bytes) :=
  match body with
  | [] => Some ([], a)
  | (Added, l) :: body => '(o, r) ← applyBody body a; Some (l :: o, r)
  | (k, l) :: body =>
      match a with
      | x :: a =>
          if beqb x l then '(o, r) ← applyBody body a; Some (match k with Kept => x :: o | _ => o end, r)
          else None
      | [] => None
      end
  end.

(** A patch: [a] holds the old lines from position [posA], and the new lines so far
    end at [posB].  A hunk applies where its ranges say, in order, with the counts
    its lines have. *)
Fixpoint patch (posA posB : Z) (a : list bytes) (hs : list hunk) : option (list bytes) :=
  match hs with
  | [] => Some a
  | h :: hs =>
      let gap := Z.to_nat (aStart h - posA) in
      if (posA <=? aStart h) && (bStart h - posB =? aStart h - posA) && Nat.leb gap (length a) then
        '(o, r) ← applyBody (hbody h) (drop gap a);
        if Nat.eqb (aCount h + length r) (length (drop gap a)) && Nat.eqb (bCount h) (length o) then
          rest ← patch (aStart h + Z.of_nat (aCount h)) (bStart h + Z.of_nat (bCount h)) r hs;
          Some (take gap a ++ o ++ rest)
        else None
      else None
  end.

Section hunks.
Variables a b : list bytes.

Lemma script_app_inv i j l1 l2 i' j' : script a b i j (l1 ++ l2) i' j' ->
  exists i1 j1, script a b i j l1 i1 j1 /\ script a b i1 j1 l2 i' j'.
Proof.
  revert i j. induction l1 as [|op l1 IH]; intros i j; cbn [app]; [by exists i, j; eauto using script|].
  inversion 1; subst; edestruct IH as (i1 & j1 & ? & ?); eauto; exists i1, j1; eauto using script.
Qed.

Lemma countA_cons op l : countA (op :: l) = ((if decide (okind op = Added) then 0 else 1) + countA l)%nat.
Proof. unfold countA. rewrite list_basics.list.filter_cons. repeat case_decide; done. Qed.

Lemma countB_cons op l : countB (op :: l) = ((if decide (okind op = Removed) then 0 else 1) + countB l)%nat.
Proof. unfold countB. rewrite list_basics.list.filter_cons. repeat case_decide; done. Qed.

Lemma script_counts i j ops i' j' : script a b i j ops i' j' ->
  i' = i + Z.of_nat (countA ops) /\ j' = j + Z.of_nat (countB ops).
Proof.
  induction 1; rewrite ?countA_cons, ?countB_cons; cbn [okind]; [split; unfold countA, countB; cbn; lia|..];
    repeat case_decide; done || lia.
Qed.

Lemma mapM_opLine op ops k l body : okind op = k -> (match k with Added => zget b (ob op) | _ => zget a (oa op) end) = Some l ->
  mapM (opLine a b) ops = Some body -> mapM (opLine a b) (op :: ops) = Some ((k, l) :: body).
Proof.
  intros <- H1 H2. apply mapM_Some. apply mapM_Some in H2. constructor; [|done]. unfold opLine. by rewrite H1.
Qed.

(** The lines of a script, applied. *)
Lemma script_applies i j ops i' j' : script a b i j ops i' j' ->
  exists body o, mapM (opLine a b) ops = Some body /\
    applyBody body (drop (Z.to_nat i) a) = Some (o, drop (Z.to_nat i') a) /\
    length o = countB ops /\ drop (Z.to_nat j) b = o ++ drop (Z.to_nat j') b.
Proof.
  induction 1 as [i j|i j l ops i' j' Ha Hb Hs (body & o & Hm & Hap & Hl & Hd)|i j l ops i' j' Ha Hs (body & o & Hm & Hap & Hl & Hd)
    |i j l ops i' j' Hb Hs (body & o & Hm & Hap & Hl & Hd)].
  - exists [], []. done.
  - exists ((Kept, l) :: body), (l :: o). rewrite countB_cons. cbn [okind]. split_and!; [|..|by cbn; rewrite Hl|].
    + by apply mapM_opLine.
    + cbn. rewrite (zget_drop _ _ _ Ha), beqb_refl, Hap. done.
    + by rewrite (zget_drop _ _ _ Hb), Hd.
  - exists ((Removed, l) :: body), o. rewrite countB_cons. cbn [okind]. split_and!; [| |done|done].
    + by apply mapM_opLine.
    + cbn. rewrite (zget_drop _ _ _ Ha), beqb_refl, Hap. done.
  - exists ((Added, l) :: body), (l :: o). rewrite countB_cons. cbn [okind]. split_and!; [| |by cbn; rewrite Hl|].
    + by apply mapM_opLine.
    + cbn. by rewrite Hap.
    + by rewrite (zget_drop _ _ _ Hb), Hd.
Qed.

(** Kept lines are the same on both sides. *)
Lemma script_kept_same i j ops i' j' : script a b i j ops i' j' -> Forall (fun op => isKept op = true) ops ->
  i' = i + Z.of_nat (length ops) /\ j' = j + Z.of_nat (length ops) /\
  exists s, length s = length ops /\ drop (Z.to_nat i) a = s ++ drop (Z.to_nat i') a /\ drop (Z.to_nat j) b = s ++ drop (Z.to_nat j') b.
Proof.
  induction 1 as [i j|i j l ops i' j' Ha Hb Hs IH|i j l ops i' j' Ha Hs IH|i j l ops i' j' Hb Hs IH];
    intros Hk; [|apply Forall_cons_1 in Hk as [Hk1 Hk2]; try done..].
  - split_and!; [cbn; lia..|]. by exists [].
  - destruct (IH Hk2) as (-> & -> & s & Hl & H1 & H2). split_and!; [cbn; lia..|].
    exists (l :: s). cbn [length]. rewrite (zget_drop _ _ _ Ha), (zget_drop _ _ _ Hb), H1, H2, Hl. done.
Qed.

Lemma script_range i j ops i' j' : script a b i j ops i' j' -> 0 <= i -> 0 <= j ->
  i <= i' /\ j <= j' /\ (i' = i \/ i' <= Z.of_nat (length a)).
Proof.
  induction 1 as [| ? ? ? ? ? ? [? ?]%zget_range [? ?]%zget_range _ IH| ? ? ? ? ? ? [? ?]%zget_range _ IH|
    ? ? ? ? ? ? [? ?]%zget_range _ IH]; intros; [lia|..]; specialize (IH ltac:(lia) ltac:(lia)); lia.
Qed.
End hunks.

Lemma keptRun_le ops : (keptRun ops <= length ops)%nat.
Proof. induction ops as [|op ops IH]; cbn; [lia|]. case_match; lia. Qed.

Lemma keptRun_kept ops c op : (c < keptRun ops)%nat -> ops !! c = Some op -> isKept op = true.
Proof.
  revert c. induction ops as [|o ops IH]; intros c; cbn; [lia|]. destruct (isKept o) eqn:E; [|lia].
  destruct c as [|c]; cbn; [by intros _ [= <-]|]. intros H. apply IH. lia.
Qed.

Lemma hunkEnd_spec fuel : forall e rest, (length rest <= fuel)%nat ->
  let r := hunkEnd fuel e rest in
  (e <= r <= e + length rest)%nat /\
  (keptRun (drop (r - e) rest) = length (drop (r - e) rest) \/ (2 * context < keptRun (drop (r - e) rest))%nat).
Proof.
  induction fuel as [|fuel IH]; intros e rest Hf r; subst r; cbn [hunkEnd].
  { destruct rest; [|cbn in Hf; lia]. rewrite Nat.sub_diag. cbn. lia. }
  destruct rest as [|op rest]; [rewrite Nat.sub_diag; cbn; lia|].
  destruct (isKept op) eqn:Ek; cbn [negb].
  - destruct (Nat.eqb_spec (keptRun (op :: rest)) (length (op :: rest))) as [E|E]; cbn [orb].
    { rewrite Nat.sub_diag. split; [lia|]. by left. }
    destruct (Nat.ltb_spec (2 * context) (keptRun (op :: rest))) as [H|H].
    { rewrite Nat.sub_diag. split; [lia|]. by right. }
    set (run := keptRun (op :: rest)) in *.
    assert (1 <= run)%nat by (subst run; cbn; rewrite Ek; lia).
    assert (run <= length (op :: rest))%nat by apply keptRun_le.
    destruct (IH (e + run)%nat (drop run (op :: rest))) as [Hr1 Hr2]; [rewrite length_drop; cbn in *; lia|].
    rewrite length_drop in Hr1. split; [lia|]. rewrite drop_drop in Hr2.
    by replace (run + (hunkEnd fuel (e + run) (drop run (op :: rest)) - (e + run)))%nat
      with (hunkEnd fuel (e + run) (drop run (op :: rest)) - e)%nat in Hr2 by lia.
  - destruct (IH (S e) rest) as [H1 H2]; [cbn in Hf; lia|]. split; [cbn; lia|].
    by replace (hunkEnd fuel (S e) rest - e)%nat with (S (hunkEnd fuel (S e) rest - S e)) by lia.
Qed.

Lemma hunkEnd_change fuel e op rest : isKept op = false -> (length (op :: rest) <= fuel)%nat ->
  (S e <= hunkEnd fuel e (op :: rest))%nat.
Proof.
  destruct fuel as [|fuel]; cbn; [lia|]. intros -> H. cbn. destruct (hunkEnd_spec fuel (S e) rest); [lia|]. lia.
Qed.

(** After a hunk, the next change is further than its context. *)
Lemma hunkEnd_gap ops i c op :
  let e := hunkEnd (length ops) i (drop i ops) in
  let stop := Nat.min (e + context) (length ops) in
  (i <= length ops)%nat -> (stop <= c)%nat -> ops !! c = Some op -> isKept op = false -> (stop + context <= c)%nat.
Proof.
  intros e stop Hi Hc Hop Hk. pose proof (lookup_lt_Some _ _ _ Hop).
  destruct (hunkEnd_spec (length ops) i (drop i ops)) as [H1 H2]; [rewrite length_drop; lia|]. fold e in H1, H2.
  rewrite length_drop in H1. rewrite drop_drop in H2. replace (i + (e - i))%nat with e in H2 by lia.
  assert (stop = Nat.min (e + context) (length ops)) as Hstop by done. clearbody stop e. unfold context in *.
  assert (keptRun (drop e ops) <= c - e)%nat.
  { destruct (decide (c - e < keptRun (drop e ops))%nat) as [Hlt|]; [|lia].
    pose proof (keptRun_kept (drop e ops) (c - e) op Hlt) as Hkept. rewrite lookup_drop in Hkept.
    replace (e + (c - e))%nat with c in Hkept by lia. rewrite (Hkept Hop) in Hk. done. }
  destruct H2 as [E|?]; [rewrite E, length_drop in *; lia|lia].
Qed.

Section patching.
Variables a b : list bytes.
Variable ops : list diffOp.
Local Abbreviation N := (Z.of_nat (length a)).
Local Abbreviation M := (Z.of_nat (length b)).

Lemma script_head i j op l i' j' : script a b i j (op :: l) i' j' -> oa op = i /\ ob op = j.
Proof. by inversion 1. Qed.

Lemma script_hunk i j l i' j' : script a b i j l i' j' -> l <> [] ->
  exists body o, hunkOf a b l = Some (Build_hunk i (countA l) j (countB l) body) /\
    applyBody body (drop (Z.to_nat i) a) = Some (o, drop (Z.to_nat i') a) /\
    length o = countB l /\ drop (Z.to_nat j) b = o ++ drop (Z.to_nat j') b.
Proof.
  intros Hs Hne. destruct (script_applies a b _ _ _ _ _ Hs) as (body & o & Hm & H). exists body, o. split; [|done].
  destruct l as [|op l]; [done|]. apply script_head in Hs as [<- <-]. unfold hunkOf. cbn [head mbind option_bind]. by rewrite Hm.
Qed.

(** One hunk and the gap before it. *)
Lemma patch_hunk i j gap mid i1 j1 i2 j2 hs rest :
  0 <= i -> 0 <= j -> script a b i j gap i1 j1 -> Forall (fun op => isKept op = true) gap ->
  script a b i1 j1 mid i2 j2 -> mid <> [] -> i2 <= N ->
  patch i2 j2 (drop (Z.to_nat i2) a) hs = Some (drop (Z.to_nat j2) b) -> rest = hs ->
  exists h, hunkOf a b mid = Some h /\ patch i j (drop (Z.to_nat i) a) (h :: rest) = Some (drop (Z.to_nat j) b).
Proof.
  intros Hi Hj Hgap Hk Hmid Hne HN Hp ->.
  destruct (script_kept_same a b _ _ _ _ _ Hgap Hk) as (Ei & Ej & s & Hls & Hsa & Hsb).
  destruct (script_hunk _ _ _ _ _ Hmid Hne) as (body & o & -> & Hap & Hlo & Hob).
  destruct (script_counts a b _ _ _ _ _ Hmid) as [Ei2 Ej2].
  eexists. split; [done|]. cbn [patch aStart bStart aCount bCount hbody].
  replace (Z.to_nat (i1 - i)) with (length s) by lia.
  rewrite (proj2 (Z.leb_le _ _)), (proj2 (Z.eqb_eq _ _)) by lia. rewrite Hsa at 1.
  rewrite (proj2 (Nat.leb_le _ _)) by (rewrite length_app; lia). cbn [andb].
  rewrite Hsa. rewrite drop_app_length, take_app_length, Hap. cbn [mbind option_bind].
  rewrite (proj2 (Nat.eqb_eq _ _)), Hlo, Nat.eqb_refl by (rewrite !length_drop; lia). cbn [andb].
  rewrite <- Ei2, <- Ej2, Hp. cbn [mbind option_bind]. by rewrite Hsb, Hob.
Qed.

Lemma hunksFrom_applies fuel : forall q i iq jq,
  (length ops < i + fuel)%nat -> (q <= i <= length ops)%nat -> 0 <= iq -> 0 <= jq ->
  script a b iq jq (drop q ops) N M ->
  (forall c op, (q <= c < i)%nat -> ops !! c = Some op -> isKept op = true) ->
  (q = 0%nat \/ forall c op, (q <= c)%nat -> ops !! c = Some op -> isKept op = false -> (q + context <= c)%nat) ->
  exists hs, hunksFrom fuel a b ops i = Some hs /\ patch iq jq (drop (Z.to_nat iq) a) hs = Some (drop (Z.to_nat jq) b).
Proof.
  induction fuel as [|fuel IH]; intros q i iq jq Hf Hqi Hiq Hjq Hs Hkept Hnext; [lia|]. cbn [hunksFrom].
  destruct (ops !! i) as [op|] eqn:Ei.
  2:{ apply lookup_ge_None in Ei. exists []. split; [done|]. cbn [patch].
    destruct (script_kept_same a b _ _ _ _ _ Hs) as (_ & _ & s & _ & Ha & Hb).
    - apply Forall_forall. intros op [c Hc]%list_elem_of_lookup. rewrite lookup_drop in Hc.
      apply (Hkept (q + c)%nat); [|done]. apply lookup_lt_Some in Hc. lia.
    - rewrite Ha, Hb, !Nat2Z.id, !drop_all. done. }
  pose proof (lookup_lt_Some _ _ _ Ei) as Hlt.
  destruct (isKept op) eqn:Ek.
  { apply (IH q (S i)); try done; [lia|lia|]. intros c op' Hc Hop. destruct (decide (c = i)) as [->|]; [congruence|].
    apply (Hkept c); [lia|done]. }
  set (start := (i - context)%nat). set (e := hunkEnd (length ops) i (drop i ops)).
  set (stop := Nat.min (e + context) (length ops)).
  assert (q <= start)%nat as Hqs.
  { destruct Hnext as [->|Hn]; [lia|]. pose proof (Hn i op ltac:(lia) Ei Ek). subst start. lia. }
  assert (S i <= e)%nat as He.
  { subst e. rewrite (drop_S ops op i Ei). apply hunkEnd_change; [done|].
    rewrite <- (drop_S ops op i Ei), length_drop. lia. }
  assert (start <= i < stop)%nat as Hss by (unfold start, stop, context in *; lia).
  assert (stop <= length ops)%nat as Hsl by (unfold stop; lia).
  assert (drop q ops = take (start - q) (drop q ops) ++ take (stop - start) (drop start ops) ++ drop stop ops) as Hsplit.
  { rewrite <- (take_drop (start - q) (drop q ops)) at 1. f_equal. rewrite drop_drop.
    replace (q + (start - q))%nat with start by lia. rewrite <- (take_drop (stop - start) (drop start ops)) at 1.
    f_equal. rewrite drop_drop. f_equal. lia. }
  rewrite Hsplit in Hs. apply script_app_inv in Hs as (i1 & j1 & Hg & (i2 & j2 & Hm & Hr)%script_app_inv).
  destruct (script_range a b _ _ _ _ _ Hg) as (? & ? & _); [done..|].
  destruct (script_range a b _ _ _ _ _ Hm) as (? & ? & _); [lia..|].
  destruct (script_range a b _ _ _ _ _ Hr) as (? & ? & _); [lia..|].
  destruct (IH stop stop i2 j2) as (hs & Hhs & Hp); [lia|lia|lia|lia|done|lia| |].
  { right. intros c op' Hc Hop Hk. by apply (hunkEnd_gap ops i c op'); [lia|..]. }
  destruct (patch_hunk iq jq (take (start - q) (drop q ops)) (take (stop - start) (drop start ops)) i1 j1 i2 j2 hs hs)
    as (h & Hh & Hpatch); try done.
  - apply Forall_forall. intros op' [c Hc]%list_elem_of_lookup. apply lookup_take_Some in Hc as [Hc Hcl].
    rewrite lookup_drop in Hc. apply (Hkept (q + c)%nat); [lia|done].
  - intros Hnil. apply (f_equal length) in Hnil. rewrite length_take, length_drop in Hnil. cbn in Hnil. lia.
  - exists (h :: hs). split; [|done]. rewrite Hh. cbn [mbind option_bind]. by rewrite Hhs.
Qed.
End patching.

(** ** The lines of a text *)

Lemma splitAfterNewline_spec s : exists ls l,
  splitAfterNewline s = ls ++ [l] /\ s = concat ls ++ l /\ (newline ∉ l) /\
  Forall (fun x => exists y, x = y ++ [newline] /\ (newline ∉ y)) ls.
Proof.
  induction s as [|c s (ls & l & E & Hs & Hl & Hls)]; cbn [splitAfterNewline].
  { exists [], []. split_and!; [done|done|by apply not_elem_of_nil|constructor]. }
  rewrite E. destruct (Ascii.eqb_spec c newline) as [->|Hc].
  - exists ([newline] :: ls), l. split_and!; [done|by cbn; rewrite Hs|done|].
    constructor; [|done]. exists []. split; [done|by apply not_elem_of_nil].
  - destruct ls as [|x ls]; cbn [app].
    + exists [], (c :: l). cbn in Hs. subst s. split_and!; [done|done| |constructor]. by apply not_elem_of_cons.
    + apply Forall_cons in Hls as [(y & -> & Hy) Hls]. exists ((c :: y ++ [newline]) :: ls), l.
      split_and!; [done|by cbn in *; rewrite Hs|done|]. constructor; [|done].
      exists (c :: y). split; [done|]. by apply not_elem_of_cons.
Qed.

Lemma diffLines_spec s : exists ls l,
  s = concat ls ++ l /\ (newline ∉ l) /\ Forall (fun x => exists y, x = y ++ [newline] /\ (newline ∉ y)) ls /\
  diffLines s = match l with [] => ls | _ => ls ++ [l ++ noNewlineMarker] end.
Proof.
  destruct (splitAfterNewline_spec s) as (ls & l & E & Hs & Hl & Hls). exists ls, l. split_and!; [done..|].
  assert (diffLines s = match rev (ls ++ [l]) with [] :: ls => rev ls | l :: ls => rev ls ++ [l ++ noNewlineMarker] | [] => ls ++ [l] end) as ->.
  { rewrite <- E. by destruct s. }
  rewrite rev_app_distr. cbn. destruct l; by rewrite rev_involutive.
Qed.

Lemma noNewlineMarker_in (l : bytes) : newline ∈ l ++ noNewlineMarker.
Proof. apply elem_of_app. right. apply elem_of_app. left. by apply list_elem_of_singleton. Qed.

Lemma marked_line (l y : bytes) : l ++ noNewlineMarker = y ++ [newline] -> newline ∈ y.
Proof.
  intros H. assert (y = l ++ newline_b ++ &"\ No newline at end of file") as ->.
  { apply (app_inv_tail [newline]). rewrite <- H. unfold noNewlineMarker, newline_b. by rewrite <- !app_assoc. }
  apply elem_of_app. right. apply elem_of_app. left. by apply list_elem_of_singleton.
Qed.

(** The lines of a text determine it. *)
Lemma diffLines_inj s s' : diffLines s = diffLines s' -> s = s'.
Proof.
  destruct (diffLines_spec s) as (ls & l & -> & Hl & Hls & ->). destruct (diffLines_spec s') as (ls' & l' & -> & Hl' & Hls' & ->).
  assert (Hno : forall (l : bytes) ls ls', l <> [] -> Forall (fun x => exists y, x = y ++ [newline] /\ (newline ∉ y)) ls -> ls <> ls' ++ [l ++ noNewlineMarker]).
  { intros x k k' _ Hk ->. apply Forall_app in Hk as [_ Hk]. apply Forall_singleton in Hk as (y & Hy & Hn).
    by apply Hn, (marked_line x). }
  destruct l as [|c l], l' as [|c' l'].
  - by intros ->.
  - intros E. by apply Hno in E.
  - intros E. symmetry in E. by apply Hno in E.
  - intros [-> [= -> E]]%app_inj_tail. by rewrite (app_inv_tail _ _ _ E).
Qed.

(** ** The claims *)

(** C20. The unified diff an upgrade shows is the change it makes: for every two texts the
    diff is computed, its hunks applied to the lines of the first give the lines of the
    second, it is empty exactly when the texts are equal, and its text is the two headers
    and the hunks. *)
Theorem diff_applies path before after :
  exists ops hs text,
    myers (diffLines before) (diffLines after) = Some ops /\
    diffHunks before after = Some hs /\
    patch 0 0 (diffLines before) hs = Some (diffLines after) /\
    unifiedDiff path before after = Some text /\ (text = [] <-> before = after) /\
    (before <> after -> text = Sprintf "--- a/%s" [path] ++ newline_b ++ Sprintf "+++ b/%s" [path] ++ newline_b ++ concat (map renderHunk hs)).
Proof.
  destruct (myers_spec (diffLines before) (diffLines after)) as (ops & Hm & Hnil & Hs & _).
  assert (exists hs, hunksFrom (S (length ops)) (diffLines before) (diffLines after) ops 0 = Some hs /\
    patch 0 0 (diffLines before) hs = Some (diffLines after)) as (hs & Hh & Hp).
  { destruct (decide (diffLines before = diffLines after)) as [E|Hne].
    - apply Hnil in E as ->. exists []. split; [done|]. cbn. by rewrite (proj1 Hnil eq_refl).
    - destruct (hunksFrom_applies (diffLines before) (diffLines after) ops (S (length ops)) 0 0 0 0) as (hs & Hh & Hp);
        [lia|lia|lia|lia|by apply Hs|lia|by left|]. by exists hs. }
  destruct (decide (before = after)) as [->|Hne].
  - assert (ops = []) as -> by (by apply Hnil). exists [], hs, []. unfold diffHunks, unifiedDiff. by rewrite Hm.
  - assert (ops <> []) as Hops by (intros E%Hnil; by apply diffLines_inj in E).
    unfold diffHunks, unifiedDiff. rewrite Hm. cbn [mbind option_bind]. rewrite Hh. cbn [mbind option_bind].
    destruct ops as [|op ops]; [done|]. do 3 eexists. split_and!; [done|done|done|done| |done]. split; [|done].
    intros E. apply (f_equal length) in E. rewrite length_app in E. cbn in E. lia.
Qed.

(** C36. The edit script of a diff is found for every two files, leads from the first to the
    second, and is a shortest one whenever one within the limit of edits exists. *)
Theorem myers_shortest a b :
  exists ops, myers a b = Some ops /\
    (a <> b -> script a b 0 0 ops (Z.of_nat (length a)) (Z.of_nat (length b))) /\
    forall e, lev e a b -> Z.of_nat e <= maxEdits -> (edits ops <= e)%nat.
Proof. destruct (myers_spec a b) as (ops & ? & _ & ? & ?). by exists ops. Qed.
