(* ===== verification/GoEncoding.v ===== *)
(** * Encodings of the Go library

    Decimal numbers ([strconv.Itoa], [FormatInt] and [ParseInt]), base64 and query
    strings. *)

From stdpp Require Import base tactics numbers list strings gmap sets.
From Stdlib Require Import ZArith Lia Ascii.
From S2P Require Import Prelude GoBytes DotEnv GoText Regex MigrationDir MigrationFacts SchemaPlan SchemaPlanFacts StorageKey StorageOptions.

Local Open Scope string_scope.
Local Open Scope list_scope.
Local Open Scope gotext_scope.
Local Open Scope Z_scope.

(** [strconv.ParseInt(s, 10, 64)]: an optional sign, at least one digit, digits
    only, within the range. *)
Definition ParseInt (b : bytes) : option Z :=
  let '(neg, ds) :=
    match b with
    | c :: r => if Ascii.eqb c "-" then (true, r) else if Ascii.eqb c "+" then (false, r) else (false, b)
    | [] => (false, b)
    end in
  match ds with
  | [] => None
  | _ =>
      if forallb digit ds then
        let v := digitsValue 0 ds in
        if neg : bool then (if v <=? 2 ^ 63 then Some (- v) else None)
        else (if v <=? max_int64 then Some v else None)
      else None
  end.

Lemma digits_fuel_nonempty n z : digits_fuel (S n) z <> [].
Proof. cbn [digits_fuel]. by case_match. Qed.

(** The decimal digits of a natural number that fits. *)
Lemma itoa_digits z : 0 <= z < 10 ^ 64 ->
  itoa z <> [] /\ forallb digit (itoa z) = true /\ digitsValue 0 (itoa z) = z.
Proof.
  intros Hz. unfold itoa. rewrite (proj2 (Z.ltb_ge _ _)) by lia.
  destruct (digits_fuel_value 64 z Hz) as [Hv Hd]. split_and!; [|done|done].
  intros H. apply (f_equal (@rev _)) in H. rewrite rev_involutive in H. by apply digits_fuel_nonempty in H.
Qed.

Lemma itoa_inj y z : 0 <= y < 10 ^ 64 -> 0 <= z < 10 ^ 64 -> itoa y = itoa z -> y = z.
Proof.
  intros Hy Hz E. destruct (itoa_digits y Hy) as (_ & _ & <-). destruct (itoa_digits z Hz) as (_ & _ & <-). by rewrite E.
Qed.

Lemma digit_not_sign c : digit c = true -> Ascii.eqb c "-" = false /\ Ascii.eqb c "+" = false.
Proof. revert c. apply (every_byte (fun c => digit c = true -> Ascii.eqb c "-" = false /\ Ascii.eqb c "+" = false)). vm_compute. reflexivity. Qed.

Lemma itoa_neg z : z < 0 -> itoa z = "-"%char :: itoa (- z).
Proof.
  intros Hz. unfold itoa. generalize (digits_fuel 64 (- z)). intros l.
  destruct (Z.ltb_spec z 0); [|lia]. destruct (Z.ltb_spec (- z) 0); [lia|]. reflexivity.
Qed.

(** An int64 printed in decimal reads back as itself. *)
Lemma ParseInt_itoa z : in_int64 z -> ParseInt (itoa z) = Some z.
Proof.
  unfold in_int64, min_int64, max_int64. intros Hz. assert (0 < 10 ^ 64 /\ 2 ^ 63 < 10 ^ 64) as [? ?] by (vm_compute; split; reflexivity).
  unfold ParseInt. destruct (Z.ltb_spec z 0) as [Hneg|Hpos].
  - destruct (itoa_digits (- z)) as (Hne & Hd & Hv); [lia|].
    rewrite (itoa_neg z Hneg). rewrite Ascii.eqb_refl. destruct (itoa (- z)) as [|c r] eqn:E; [by destruct Hne|]. rewrite Hd, Hv, (proj2 (Z.leb_le _ _)) by lia.
    f_equal. lia.
  - destruct (itoa_digits z) as (Hne & Hd & Hv); [lia|]. destruct (itoa z) as [|c r] eqn:E; [by destruct Hne|].
    destruct (digit_not_sign c) as [-> ->]; [by cbn in Hd; apply andb_true_iff in Hd as [? _]|].
    rewrite Hd, Hv. unfold max_int64. by rewrite (proj2 (Z.leb_le _ _)) by lia.
Qed.

Lemma ParseInt_range b z : ParseInt b = Some z -> in_int64 z.
Proof.
  unfold ParseInt, in_int64, min_int64, max_int64.
  destruct (match b with | c :: r => _ | [] => _ end) as [neg ds]. destruct ds as [|c r] eqn:E; [done|]. rewrite <- E.
  destruct (forallb digit ds) eqn:Hd; [|done]. pose proof (digitsValue_bound ds Hd).
  destruct neg; case_match eqn:H1; intros [= <-]; apply Z.leb_le in H1; lia.
Qed.

(** * encoding/base64: RawURLEncoding

    Three bytes are four characters of the URL alphabet, without padding; decoding
    skips line breaks and fails on any other character and on a lone last one. *)

Local Open Scope string_scope.
Local Open Scope list_scope.
Local Open Scope gotext_scope.
Local Open Scope Z_scope.

Definition alphabet : bytes := &"ABCDEFGHIJKLMNOPQRSTUVWXYZabcdefghijklmnopqrstuvwxyz0123456789-_".

Definition b64char (n : Z) : ascii := nth (Z.to_nat n) alphabet "A"%char.
Definition b64value (c : ascii) : option Z := Z.of_nat <$> (fst <$> list_find (fun x => x = c) alphabet).

Definition of_code (n : Z) : ascii := ascii_of_nat (Z.to_nat n).

(** [EncodeToString] *)
Fixpoint b64encode (b : bytes) : bytes :=
  match b with
  | x :: y :: z :: r =>
      b64char (code x / 4) :: b64char (code x mod 4 * 16 + code y / 16) ::
      b64char (code y mod 16 * 4 + code z / 64) :: b64char (code z mod 64) :: b64encode r
  | [x; y] => [b64char (code x / 4); b64char (code x mod 4 * 16 + code y / 16); b64char (code y mod 16 * 4)]
  | [x] => [b64char (code x / 4); b64char (code x mod 4 * 16)]
  | [] => []
  end.

Fixpoint b64groups (l : list Z) : option bytes :=
  match l with
  | p :: q :: r :: s :: l =>
      out ← b64groups l;
      Some (of_code (p * 4 + q / 16) :: of_code (q mod 16 * 16 + r / 4) :: of_code (r mod 4 * 64 + s) :: out)
  | [p; q; r] => Some [of_code (p * 4 + q / 16); of_code (q mod 16 * 16 + r / 4)]
  | [p; q] => Some [of_code (p * 4 + q / 16)]
  | [_] => None
  | [] => Some []
  end.

(** [DecodeString] *)
Definition b64decode (b : bytes) : option bytes :=
  l ← mapM b64value (filter (fun c => c <> byte_of 10 /\ c <> byte_of 13) b);
  b64groups l.

Lemma code_range c : 0 <= code c < 256.
Proof. unfold code. pose proof (nat_ascii_bounded c). lia. Qed.

Lemma of_code_code c : of_code (code c) = c.
Proof. unfold of_code, code. rewrite Nat2Z.id. apply ascii_nat_embedding. Qed.

Lemma b64_char_value n : 0 <= n < 64 ->
  b64value (b64char n) = Some n /\ b64char n <> byte_of 10 /\ b64char n <> byte_of 13.
Proof.
  intros Hn. assert (Forall (fun n => b64value (b64char n) = Some n /\ b64char n <> byte_of 10 /\ b64char n <> byte_of 13)
    (map Z.of_nat (seq 0 64))) as H by (apply (bool_decide_eq_true_1 _); by vm_compute).
  rewrite Forall_forall in H. apply H. apply list_elem_of_fmap. exists (Z.to_nat n). split; [lia|].
  apply elem_of_seq. lia.
Qed.

(** The sextets of an encoding. *)
Fixpoint sextets (b : bytes) : list Z :=
  match b with
  | x :: y :: z :: r =>
      code x / 4 :: code x mod 4 * 16 + code y / 16 :: code y mod 16 * 4 + code z / 64 :: code z mod 64 :: sextets r
  | [x; y] => [code x / 4; code x mod 4 * 16 + code y / 16; code y mod 16 * 4]
  | [x] => [code x / 4; code x mod 4 * 16]
  | [] => []
  end.

(** Induction three bytes at a time. *)
Lemma triple_ind (P : bytes -> Prop) :
  P [] -> (forall x, P [x]) -> (forall x y, P [x; y]) -> (forall x y z r, P r -> P (x :: y :: z :: r)) -> forall b, P b.
Proof.
  intros H0 H1 H2 H3 b. cut (P b /\ (forall x, P (x :: b)) /\ forall x y, P (x :: y :: b)); [tauto|].
  induction b as [|c b (I1 & I2 & I3)]; [auto|]. split_and!; [auto|auto|]. intros x y. by apply H3.
Qed.

Lemma encode_sextets b : b64encode b = map b64char (sextets b) /\ Forall (fun n => 0 <= n < 64) (sextets b).
Proof.
  induction b as [|x|x y|x y z r [E IH]] using triple_ind; cbn [b64encode sextets map]; (split; [by rewrite ?E|]);
    repeat apply Forall_cons_2; try done; try apply Forall_nil_2;
    try (pose proof (code_range x); Z.div_mod_to_equations; lia);
    try (pose proof (code_range x); pose proof (code_range y); Z.div_mod_to_equations; lia);
    pose proof (code_range y); pose proof (code_range z); Z.div_mod_to_equations; lia.
Qed.

Lemma groups_sextets b : b64groups (sextets b) = Some b.
Proof.
  assert (H1 : forall x y, code x / 4 * 4 + (code x mod 4 * 16 + code y / 16) / 16 = code x).
  { intros x y. pose proof (code_range x). pose proof (code_range y). Z.div_mod_to_equations. lia. }
  assert (H1' : forall x, code x / 4 * 4 + (code x mod 4 * 16) / 16 = code x).
  { intros x. pose proof (code_range x). Z.div_mod_to_equations. lia. }
  assert (H2 : forall x y z, (code x mod 4 * 16 + code y / 16) mod 16 * 16 + (code y mod 16 * 4 + code z / 64) / 4 = code y).
  { intros x y z. pose proof (code_range x). pose proof (code_range y). pose proof (code_range z). Z.div_mod_to_equations. lia. }
  assert (H2' : forall x y, (code x mod 4 * 16 + code y / 16) mod 16 * 16 + (code y mod 16 * 4) / 4 = code y).
  { intros x y. pose proof (code_range x). pose proof (code_range y). Z.div_mod_to_equations. lia. }
  assert (H3 : forall y z, (code y mod 16 * 4 + code z / 64) mod 4 * 64 + code z mod 64 = code z).
  { intros y z. pose proof (code_range y). pose proof (code_range z). Z.div_mod_to_equations. lia. }
  induction b as [|x|x y|x y z r IH] using triple_ind; cbn [sextets b64groups].
  - done.
  - by rewrite H1', of_code_code.
  - by rewrite H1, H2', !of_code_code.
  - rewrite IH. cbn [mbind option_bind]. by rewrite H1, H2, H3, !of_code_code.
Qed.

(** What is encoded decodes to itself. *)
Lemma b64_roundtrip b : b64decode (b64encode b) = Some b.
Proof.
  destruct (encode_sextets b) as [E Hr]. unfold b64decode. rewrite E.
  assert (filter (fun c => c <> byte_of 10 /\ c <> byte_of 13) (map b64char (sextets b)) = map b64char (sextets b)) as ->.
  { clear E. induction Hr as [|n l Hn _ IH]; [done|]. cbn [map]. rewrite filter_cons, decide_True, IH; [done|].
    by apply b64_char_value. }
  assert (mapM b64value (map b64char (sextets b)) = Some (sextets b)) as ->; [|apply groups_sextets].
  clear E. apply mapM_Some. induction Hr as [|n l Hn _ IH]; [constructor|]. constructor; [|done]. by apply b64_char_value.
Qed.

Lemma b64encode_inj a b : b64encode a = b64encode b -> a = b.
Proof. intros E. pose proof (b64_roundtrip a) as Ha. rewrite E, b64_roundtrip in Ha. congruence. Qed.

(** An encoding is made of the characters of the alphabet. *)
Lemma b64encode_chars b : Forall (.∈ alphabet) (b64encode b).
Proof.
  destruct (encode_sextets b) as [-> Hr]. induction Hr as [|n l Hn _ IH]; [constructor|]. constructor; [|done].
  unfold b64char. apply list_elem_of_In, nth_In. change (length alphabet) with 64%nat. lia.
Qed.

(** * net/url: query strings

    [QueryEscape], [QueryUnescape], [Values.Encode] and [URL.Query], which skips a
    setting that is malformed or holds a semicolon.  A [url.Values] is a map from
    names to lists of values. *)

Local Open Scope string_scope.
Local Open Scope list_scope.
Local Open Scope gotext_scope.
Local Open Scope Z_scope.

Definition queryPlain (c : ascii) : bool := within 48 57 c || within 65 90 c || within 97 122 c || bool_decide (c ∈ &"-_.~").

Definition queryByte (c : ascii) : bytes :=
  if queryPlain c then [c]
  else if Ascii.eqb c " " then &"+"
  else ["%"%char; hexdigit (code c / 16); hexdigit (code c mod 16)].

Definition QueryEscape (b : bytes) : bytes := concat (map queryByte b).

(** The value of a hexadecimal digit, of either case. *)
Definition hexValue (c : ascii) : option Z :=
  if within 48 57 c then Some (code c - 48)
  else if within 97 102 c then Some (code c - 87)
  else if within 65 70 c then Some (code c - 55)
  else None.

Fixpoint QueryUnescape (b : bytes) : option bytes :=
  match b with
  | [] => Some []
  | c :: r =>
      if Ascii.eqb c "%" then
        match r with
        | h :: l :: r =>
            x ← hexValue h; y ← hexValue l; out ← QueryUnescape r;
            Some (ascii_of_nat (Z.to_nat (16 * x + y)) :: out)
        | _ => None
        end
      else out ← QueryUnescape r; Some ((if Ascii.eqb c "+" then " "%char else c) :: out)
  end.

(** One setting, [None] when it is skipped. *)
Definition querySetting (s : bytes) : option (bytes * bytes) :=
  if bool_decide (";"%char ∈ s) || beqb s [] then None
  else
    let '(k, v) := match CutByte s "=" with Some kv => kv | None => (s, []) end in
    k ← QueryUnescape k; v ← QueryUnescape v; Some (k, v).

Definition addValue (q : gmap bytes (list bytes)) (kv : bytes * bytes) : gmap bytes (list bytes) :=
  <[kv.1 := (q !!! kv.1) ++ [kv.2]]> q.

(** [URL.Query]: ParseQuery without its error. *)
Definition Query (raw : bytes) : gmap bytes (list bytes) :=
  fold_left addValue (omap querySetting (SplitByte raw "&")) ∅.

(** The settings of [q], by name; [Encode] joins them. *)
Definition settings (q : gmap bytes (list bytes)) : list (bytes * bytes) :=
  concat (map (fun k => map (pair k) (q !!! k)) (sortStrings (map fst (map_to_list q)))).

Definition setting (kv : bytes * bytes) : bytes := QueryEscape kv.1 ++ "="%char :: QueryEscape kv.2.

Definition Encode (q : gmap bytes (list bytes)) : bytes := Join (map setting (settings q)) (&"&").

(** [Values.Get]: the first value, empty for none. *)
Definition Get (q : gmap bytes (list bytes)) (k : bytes) : bytes := match q !!! k with v :: _ => v | [] => [] end.

(** ** Round trips *)

Lemma unescape_byte c rest : QueryUnescape (queryByte c ++ rest) = out ← QueryUnescape rest; Some (c :: out).
Proof. destruct c as [[] [] [] [] [] [] [] []]; reflexivity. Qed.

Lemma QueryUnescape_Escape b : QueryUnescape (QueryEscape b) = Some b.
Proof.
  unfold QueryEscape. induction b as [|c b IH]; [done|]. cbn [map concat]. by rewrite unescape_byte, IH.
Qed.

Lemma queryByte_safe c : forallb (fun x => negb (bool_decide (x ∈ &"&=;"))) (queryByte c) = true.
Proof. destruct c as [[] [] [] [] [] [] [] []]; reflexivity. Qed.

Lemma QueryEscape_safe b (c : ascii) : c ∈ &"&=;" -> (c ∉ QueryEscape b).
Proof.
  intros Hc. unfold QueryEscape. induction b as [|x b IH]; [by apply not_elem_of_nil|]. cbn [map concat].
  intros [H|H]%elem_of_app; [|done]. pose proof (queryByte_safe x) as Hs. rewrite forallb_forall in Hs.
  apply list_elem_of_In, Hs in H. by rewrite bool_decide_eq_true_2 in H.
Qed.

Ltac in_list := apply (bool_decide_eq_true_1 _); vm_compute; reflexivity.

(** A setting that is written is read back. *)
Lemma querySetting_setting kv : querySetting (setting kv) = Some kv.
Proof.
  destruct kv as [k v]. unfold querySetting, setting. cbn [fst snd].
  assert (";"%char ∉ QueryEscape k ++ "="%char :: QueryEscape v) as Hs.
  { intros [H|[?|H]%elem_of_cons]%elem_of_app; [|done|]; eapply QueryEscape_safe in H; try done; in_list. }
  rewrite bool_decide_eq_false_2 by done. cbn [orb].
  assert (beqb (QueryEscape k ++ "="%char :: QueryEscape v) [] = false) as -> by (by destruct (QueryEscape k)).
  rewrite CutByte_app by (apply QueryEscape_safe; in_list). by rewrite !QueryUnescape_Escape.
Qed.

Lemma SplitByte_none b x : x ∉ b -> SplitByte b x = [b].
Proof.
  induction b as [|c b IH]; intros Hn; [done|]. apply not_elem_of_cons in Hn as [Hc Hn]. cbn [SplitByte].
  rewrite (proj2 (Ascii.eqb_neq c x)) by done. by rewrite IH.
Qed.

Lemma SplitByte_Join l : l <> [] -> Forall (fun s => "&"%char ∉ s) l -> SplitByte (Join l (&"&")) "&" = l.
Proof.
  induction l as [|s l IH]; [done|]. intros _ Hl. apply Forall_cons in Hl as [Hs Hl].
  destruct l as [|s' l]; [by apply SplitByte_none|].
  change (Join (s :: s' :: l) (&"&")) with (s ++ "&"%char :: Join (s' :: l) (&"&")).
  rewrite SplitByte_app by done. by rewrite IH.
Qed.

Lemma omap_setting ps : omap querySetting (map setting ps) = ps.
Proof. induction ps as [|kv ps IH]; [done|]. cbn [map omap list_omap]. by rewrite querySetting_setting, IH. Qed.

Lemma Query_join ps : Query (Join (map setting ps) (&"&")) = fold_left addValue ps ∅.
Proof.
  unfold Query. destruct ps as [|kv ps]; [done|]. rewrite SplitByte_Join; [by rewrite omap_setting|done|].
  apply Forall_map, Forall_forall. intros [k v] _. unfold setting. cbn [fst snd].
  intros [H|[?|H]%elem_of_cons]%elem_of_app; [|done|]; eapply QueryEscape_safe in H; try done; in_list.
Qed.

Lemma addValues_lookup ps k : forall q : gmap bytes (list bytes),
  fold_left addValue ps q !! k =
  match map snd (filter (fun kv => kv.1 = k) ps) with [] => q !! k | vs => Some (q !!! k ++ vs) end.
Proof.
  induction ps as [|[k' v] ps IH]; intros q; cbn [fold_left]; [done|]. rewrite IH, filter_cons. unfold addValue. cbn [fst snd].
  case_decide as E; cbn [fst] in E.
  - subst k'. cbn [map snd]. rewrite lookup_insert_eq, lookup_total_insert_eq.
    destruct (map snd (filter _ ps)); [done|]. by rewrite <- app_assoc.
  - rewrite lookup_insert_ne, lookup_total_insert_ne by done. done.
Qed.

Lemma one_key (x k : bytes) (vs : list bytes) :
  map snd (filter (fun kv : bytes * bytes => kv.1 = k) (map (pair x) vs)) = if decide (x = k) then vs else [].
Proof.
  destruct (decide (x = k)) as [E|E]; (induction vs as [|v vs IH]; [done|]); cbn [map]; rewrite filter_cons; cbn [fst].
  - rewrite decide_True by done. cbn [map snd]. by rewrite IH.
  - by rewrite decide_False by done.
Qed.

Lemma settings_filter (q : gmap bytes (list bytes)) k l : NoDup l ->
  map snd (filter (fun kv => kv.1 = k) (concat (map (fun k => map (pair k) (q !!! k)) l))) =
  if bool_decide (k ∈ l) then q !!! k else [].
Proof.
  induction l as [|x l IH]; intros Hn; [done|]. apply NoDup_cons in Hn as [Hx Hn]. cbn [map concat].
  rewrite filter_app, map_app, IH by done.
  rewrite one_key. destruct (decide (x = k)) as [E|E].
  - subst x. rewrite (bool_decide_eq_false_2 (k ∈ l)), (bool_decide_eq_true_2 (k ∈ k :: l)), app_nil_r by (done || left). done.
  - cbn [app].
    assert (bool_decide (k ∈ x :: l) = bool_decide (k ∈ l)) as -> by (apply bool_decide_ext; rewrite elem_of_cons; naive_solver). done.
Qed.

Lemma sortStrings_perm l : Permutation (sortStrings l) l.
Proof.
  induction l as [|x l IH]; [done|]. cbn [sortStrings foldr]. fold (sortStrings l).
  assert (forall k, Permutation (insert_sorted x k) (x :: k)) as H.
  { induction k as [|y k IHk]; [done|]. cbn [insert_sorted]. case_match; [done|]. rewrite IHk. apply perm_swap. }
  by rewrite H, IH.
Qed.

(** What [Encode] writes, [Query] reads, for values with no empty list. *)
Lemma Query_Encode q : (forall k l, q !! k = Some l -> l <> []) -> Query (Encode q) = q.
Proof.
  intros Hq. unfold Encode. rewrite Query_join. apply map_eq. intros k. rewrite addValues_lookup. unfold settings.
  assert (NoDup (sortStrings (map fst (map_to_list q)))) as Hn by (rewrite sortStrings_perm; apply NoDup_fst_map_to_list).
  rewrite settings_filter by done. rewrite lookup_empty.
  destruct (q !! k) as [l|] eqn:E.
  - rewrite bool_decide_eq_true_2.
    + rewrite (lookup_total_correct _ _ _ E), lookup_total_empty. specialize (Hq k l E). by destruct l.
    + rewrite sortStrings_elem. apply list_elem_of_fmap. exists (k, l). split; [done|]. by apply elem_of_map_to_list.
  - rewrite bool_decide_eq_false_2; [done|]. rewrite sortStrings_elem.
    intros ([k' l] & -> & H%elem_of_map_to_list)%list_elem_of_fmap. cbn in E. congruence.
Qed.
