(* ===== verification/UpgradePlan.v ===== *)
(** * upgrade: the manifest, the compatibility policy and the dependency plan

    [src/internal/frameworkmod/frameworkmod.go] (which replace of go.mod decides the
    build), [src/upgrade/manifest.go] (the releases, their validation and the path
    between two), [policy.go] (how large a release must be), and the part of
    [plan.go] and [apply.go] that changes go.mod.  [golang.org/x/mod/semver] is the
    record [Semver], an argument; go.mod arrives parsed.

    The second part has the plan and its application. *)

From stdpp Require Import base tactics numbers list strings gmap sets.
From Stdlib Require Import ZArith Lia Ascii.
From S2P Require Import Prelude GoBytes DotEnv GoText Regex.

Local Open Scope string_scope.
Local Open Scope list_scope.
Local Open Scope gotext_scope.
Local Open Scope gombit_scope.

(** The operations of [golang.org/x/mod/semver] and [module] the package uses. *)
Record Semver := {
  sv_IsValid : bytes -> bool;
  sv_Canonical : bytes -> bytes;
  sv_Build : bytes -> bytes;
  sv_Prerelease : bytes -> bytes;
  sv_Major : bytes -> bytes;
  sv_MajorMinor : bytes -> bytes;
  sv_Compare : bytes -> bytes -> Z;
  sv_IsPseudoVersion : bytes -> bool;
}.

(** ** go.mod *)

Definition ModulePath : bytes := &"github.com/gombit-dev/gombit".

Record Replacement := { rpPath : bytes; rpVersion : bytes; ForVersion : bytes }.

#[export] Instance Replacement_eq_dec : EqDecision Replacement.
Proof. solve_decision. Defined.

#[export] Instance Replacement_countable : Countable Replacement.
Proof.
  refine (inj_countable' (fun r => (rpPath r, rpVersion r, ForVersion r)) (fun t => Build_Replacement t.1.1 t.1.2 t.2) _).
  by intros [].
Defined.

Definition Local (r : Replacement) : bool := beqb (rpVersion r) [].

Definition Replacement_String (r : Replacement) : bytes :=
  if Local r then rpPath r else rpPath r ++ &" " ++ rpVersion r.

(** [Resolve]: the index of the replacement, which the code returns a pointer to. *)
Fixpoint resolveFrom (i : nat) (wildcard : option nat) (replaces : list Replacement) (version : bytes) : option nat :=
  match replaces with
  | [] => wildcard
  | r :: replaces =>
      if beqb (ForVersion r) version then Some i
      else resolveFrom (S i) (if beqb (ForVersion r) [] then Some i else wildcard) replaces version
  end.

Definition Resolve (replaces : list Replacement) (version : bytes) : option nat := resolveFrom 0 None replaces version.

Definition resolved (replaces : list Replacement) (version : bytes) : option Replacement :=
  i ← Resolve replaces version; replaces !! i.

Record Declaration := { Required : bytes; Replace : option Replacement; Replaces : list Replacement }.

Definition Declaration_Release (d : Declaration) : bytes :=
  match Replace d with
  | None => Required d
  | Some r => if beqb (rpPath r) ModulePath && negb (Local r) then rpVersion r else []
  end.

(** A parsed require (path and version) and replace (old and new path and version). *)
Record modReplace := { oldPath : bytes; oldVersion : bytes; newPath : bytes; newVersion : bytes }.

Inductive upError :=
| RequiredTwice (v w : bytes)
| NotRequired
| ConflictingReplaces (old : bytes)
| BadFormat
| NoReleases
| FirstNotBaseline (v : bytes)
| UnreleasedNotLast
| NotCanonical (v : bytes)
| NotAscending (v : bytes)
| DuplicateChange (id : bytes)
| BadChange (id why : bytes)
| NoUpgradePath (why : bytes)
| NoSuchAction (id : bytes)
| CheckFailed (id : bytes)
| NotListed (v : bytes)
| PolicyRefused (v : bytes)
| NotNewest (v : bytes)
| StillUnreleased
| FirstMajorDeprecates (v : bytes)
| NoTarget
| PlanFailed (why : bytes)
| GoCommandFailed
| DetectFailed
| WrongBuild (v : bytes)
| SnapshotFailed
| RestoreFailed (e : upError).

Fixpoint frameworkReplaces (byOld : gmap bytes (bytes * bytes)) (l : list modReplace) : result upError (list Replacement) :=
  match l with
  | [] => Ok []
  | r :: l =>
      if negb (beqb (oldPath r) ModulePath) then frameworkReplaces byOld l
      else match byOld !! oldVersion r with
           | Some prev =>
               if bool_decide (prev = (newPath r, newVersion r)) then frameworkReplaces byOld l
               else Err (ConflictingReplaces (oldVersion r))
           | None =>
               let? out := frameworkReplaces (<[oldVersion r := (newPath r, newVersion r)]> byOld) l in
               Ok (Build_Replacement (newPath r) (newVersion r) (oldVersion r) :: out)
           end
  end.

Fixpoint requiredVersion (required : bytes) (l : list (bytes * bytes)) : result upError bytes :=
  match l with
  | [] => Ok required
  | (path, version) :: l =>
      if negb (beqb path ModulePath) then requiredVersion required l
      else if negb (beqb required []) then Err (RequiredTwice required version)
      else requiredVersion version l
  end.

Definition Parse (requires : list (bytes * bytes)) (replaces : list modReplace) : result upError Declaration :=
  let? required := requiredVersion [] requires in
  if beqb required [] then Err NotRequired
  else
    let? rs := frameworkReplaces ∅ replaces in
    Ok (Build_Declaration required (resolved rs required) rs).

(** ** The manifest *)

Definition Unreleased : bytes := &"unreleased".
Definition KindAutomatic : bytes := &"automatic".
Definition KindManual : bytes := &"manual".
Definition KindInformational : bytes := &"informational".

Definition areas : list bytes :=
  [&"api"; &"behavior"; &"cli"; &"client"; &"config"; &"dependency"; &"scaffold"; &"schema"; &"security"].

Record ConfigChange := { ccVar : bytes; ccChange : bytes; ccTo : bytes; ccFrom : bytes; ccEnvironment : bytes }.

Record SchemaChange := { scModel : bytes; scTable : bytes; scJoin : bool; scChange : bytes; scDestructive : bool }.

Record Change := {
  cID : bytes; cKind : bytes; cBreaking : bool; cArea : bytes; cSummary : bytes; cDetails : bytes; cAction : bytes;
  cRefs : list Z; cConfig : list ConfigChange; cSchema : list SchemaChange; cDeprecates : list bytes }.

Record Release := { rlVersion : bytes; Changes : list Change }.
Record Manifest := { Format : Z; Releases : list Release }.

Definition ManifestFormat : Z := 1%Z.

Definition lowerDigit (c : ascii) : bool := within 97 122 c || digit c.
Definition upperByte (c : ascii) : bool := within 65 90 c.

Definition changeID : re :=
  cat [Bot; plus (Cls lowerDigit); star (Cat (lit (&"-")) (plus (Cls lowerDigit))); Eot].
Definition configVar : re :=
  cat [Bot; Cls upperByte; star (Cls (fun c => upperByte c || digit c || Ascii.eqb c "_")); Eot].
Definition schemaModel : re :=
  cat [Bot; Cls (within 97 122); star (Cls lowerDigit);
       star (cat [lit (&"/"); Cls (within 97 122); star (Cls lowerDigit)]);
       lit (&"."); Cls upperByte; star (Cls (fun c => letter c || digit c)); Eot].
Definition schemaTable : re :=
  cat [Bot; Cls (within 97 122); star (Cls (fun c => lowerDigit c || Ascii.eqb c "_")); Eot].

Definition isEmpty (b : bytes) : bool := beqb b [].
Definition oneOf (b : bytes) (l : list bytes) : bool := bool_decide (b ∈ l).

Definition ConfigChange_validate (cc : ConfigChange) : bool :=
  MatchString configVar (ccVar cc) &&
  oneOf (ccEnvironment cc) [[]; &"development"; &"test"; &"production"] &&
  (if beqb (ccChange cc) (&"renamed") then
     MatchString configVar (ccTo cc) && negb (beqb (ccTo cc) (ccVar cc)) &&
     isEmpty (ccFrom cc) && isEmpty (ccEnvironment cc)
   else if beqb (ccChange cc) (&"removed") then isEmpty (ccTo cc) && isEmpty (ccFrom cc) && isEmpty (ccEnvironment cc)
   else if beqb (ccChange cc) (&"default") then negb (beqb (ccFrom cc) (ccTo cc))
   else if oneOf (ccChange cc) [&"required"; &"refused"] then isEmpty (ccTo cc) && isEmpty (ccFrom cc)
   else if beqb (ccChange cc) (&"added") then isEmpty (ccTo cc) && isEmpty (ccFrom cc) && isEmpty (ccEnvironment cc)
   else false).

Definition SchemaChange_validate (sc : SchemaChange) : bool :=
  MatchString schemaModel (scModel sc) && MatchString schemaTable (scTable sc) &&
  oneOf (scChange sc) [&"added"; &"altered"; &"removed"] &&
  negb (scDestructive sc && beqb (scChange sc) (&"added")).

Section manifest.
Variable sv : Semver.
(** Whether this gombit implements an action: [LookupAction]. *)
Variable implements : bytes -> bool.
(** Whether an entry's table is a join table its model declares: [joinTable]. *)
Variable joinTable : SchemaChange -> bool.

(** [seen] are the tables of the change so far. *)
Fixpoint schemaEntries (kind : bytes) (seen : list bytes) (l : list SchemaChange) : bool :=
  match l with
  | [] => true
  | sc :: l =>
      SchemaChange_validate sc &&
      negb (beqb kind KindInformational && (negb (beqb (scChange sc) (&"added")) || joinTable sc)) &&
      negb (oneOf (scTable sc) seen) && schemaEntries kind (scTable sc :: seen) l
  end.

Definition validateSchema (c : Change) : bool :=
  match cSchema c with
  | [] => true
  | _ => beqb (cArea c) (&"schema") && negb (beqb (cKind c) KindAutomatic) && schemaEntries (cKind c) [] (cSchema c)
  end.

Definition validSymbol (s : bytes) : bool :=
  negb (isEmpty s) && forallb (fun ch => negb (byte_in (&" `" ++ map byte_of [9; 10]%nat) ch)) s && Contains s (&".").

(** [Change.validate]: the error names the change. *)
Definition Change_validate (c : Change) : result upError unit :=
  let bad why := Err (BadChange (cID c) why) in
  if negb (MatchString changeID (cID c)) then bad (&"id")
  else if negb (oneOf (cArea c) areas) then bad (&"area")
  else if isEmpty (TrimSpace (cSummary c)) || Contains (cSummary c) newline_b then bad (&"summary")
  else if negb (forallb (fun r => 0 <? r)%Z (cRefs c)) then bad (&"ref")
  else if negb (bool_decide (cConfig c = [])) && negb (oneOf (cArea c) [&"config"; &"security"]) then bad (&"config area")
  else if negb (beqb (cKind c) KindManual) && negb (bool_decide (cConfig c = [])) &&
          (beqb (cArea c) (&"security") || existsb (fun cc => negb (beqb (ccChange cc) (&"added"))) (cConfig c))
       then bad (&"config is manual")
  else if negb (forallb ConfigChange_validate (cConfig c)) then bad (&"config entry")
  else if negb (validateSchema c) then bad (&"schema")
  else if negb (forallb validSymbol (cDeprecates c)) then bad (&"deprecates")
  else if beqb (cKind c) KindAutomatic then
    if implements (cAction c) then Ok tt else bad (&"action")
  else if oneOf (cKind c) [KindManual; KindInformational] then
    if negb (isEmpty (cAction c)) then bad (&"only automatic names an action")
    else if beqb (cKind c) KindManual && isEmpty (TrimSpace (cDetails c)) then bad (&"details")
    else Ok tt
  else bad (&"kind").

(** The changes of a release: each valid, and its id not yet declared. *)
Fixpoint checkChanges (ids : list bytes) (l : list Change) : result upError (list bytes) :=
  match l with
  | [] => Ok ids
  | c :: l =>
      let? _ := Change_validate c in
      if oneOf (cID c) ids then Err (DuplicateChange (cID c)) else checkChanges (cID c :: ids) l
  end.

(** The loop over the releases; [prev] is the release before, none for the first. *)
Fixpoint checkReleases (prev : option bytes) (ids : list bytes) (l : list Release) : result upError unit :=
  match l with
  | [] => Ok tt
  | r :: l =>
      let? _ :=
        (if bool_decide (prev = None) && (beqb (rlVersion r) Unreleased || negb (Nat.eqb (length (Changes r)) 0)) then
           Err (FirstNotBaseline (rlVersion r))
         else if beqb (rlVersion r) Unreleased then
           (if Nat.eqb (length l) 0 then Ok tt else Err UnreleasedNotLast)
         else if negb (sv_IsValid sv (rlVersion r)) || negb (beqb (sv_Canonical sv (rlVersion r)) (rlVersion r)) ||
                 negb (isEmpty (sv_Build sv (rlVersion r))) then Err (NotCanonical (rlVersion r))
         else match prev with
              | Some p => if (0 <=? sv_Compare sv p (rlVersion r))%Z then Err (NotAscending (rlVersion r)) else Ok tt
              | None => Ok tt
              end) in
      let? ids := checkChanges ids (Changes r) in
      checkReleases (Some (rlVersion r)) ids l
  end.

Definition Manifest_validate (m : Manifest) : result upError unit :=
  if negb (Format m =? ManifestFormat)%Z then Err BadFormat
  else if Nat.eqb (length (Releases m)) 0 then Err NoReleases
  else checkReleases None [] (Releases m).

Definition findRelease (m : Manifest) (version : bytes) : option nat :=
  fst <$> list_find (fun r => rlVersion r = version) (Releases m).

(** [Manifest.Release] *)
Definition Manifest_Release (m : Manifest) (version : bytes) : result upError Release :=
  match list_find (fun r => rlVersion r = version) (Releases m) with
  | Some (_, r) => Ok r
  | None => Err (NoUpgradePath (&"not listed"))
  end.

Definition Latest (m : Manifest) : bytes :=
  match list_find (fun r => rlVersion r <> Unreleased) (rev (Releases m)) with
  | Some (_, r) => rlVersion r
  | None => []
  end.

Definition firstVersion (m : Manifest) : bytes := match Releases m with r :: _ => rlVersion r | [] => [] end.

(** [index]: the position of a release, or why it has none. *)
Definition index (m : Manifest) (version : bytes) : result upError nat :=
  let no why := Err (NoUpgradePath why) in
  if isEmpty version then no (&"no version")
  else if beqb version Unreleased then no (&"not a release")
  else if negb (sv_IsValid sv version) then no (&"not a semantic version")
  else match findRelease m version with
       | Some i => Ok i
       | None =>
           if sv_IsPseudoVersion sv version then no (&"pseudo-version")
           else if negb (isEmpty (sv_Prerelease sv version)) then no (&"pre-release")
           else if (sv_Compare sv version (firstVersion m) <? 0)%Z then no (&"too old")
           else if (0 <? sv_Compare sv version (Latest m))%Z then no (&"too new")
           else no (&"missing")
       end.

(** The releases after position [i] up to position [j]. *)
Definition between (m : Manifest) (i j : nat) : list Release := take (j - i) (drop (S i) (Releases m)).

Definition Path (m : Manifest) (from to : bytes) : result upError (list Release) :=
  let? i := index m from in
  let? j := index m to in
  if Nat.ltb j i then Err (NoUpgradePath (&"downgrade")) else Ok (between m i j).

(** The framework an application builds against ([baseline.go]). *)
Record Framework := {
  fwVersion : bytes; fwRequired : bytes; fwReplace : option Replacement; fwLocal : bool; fwWorkspace : bytes }.

Definition PathFrom (m : Manifest) (fw : Framework) (to : bytes) : result upError (list Release) :=
  if negb (isEmpty (fwWorkspace fw)) then Err (NoUpgradePath (&"workspace"))
  else if fwLocal fw && bool_decide (fwReplace fw <> None) then Err (NoUpgradePath (&"local directory"))
  else if bool_decide (fwReplace fw <> None) && isEmpty (fwVersion fw) then Err (NoUpgradePath (&"fork"))
  else Path m (fwVersion fw) to.

(** [detectFramework], once go.mod is read and the go command said which go.work applies. *)
Definition detectFramework (d : Declaration) (work : bytes) : Framework :=
  if negb (isEmpty work) then Build_Framework [] (Required d) None false work
  else Build_Framework (Declaration_Release d) (Required d) (Replace d)
         (match Replace d with Some r => Local r | None => false end) [].

(** ** Classification *)

Record Classification := {
  Automatic : list Change; Manual : list Change; Informational : list Change; Breaking : list Change }.

Definition classify1 (c : Classification) (ch : Change) : Classification :=
  let br := if cBreaking ch then Breaking c ++ [ch] else Breaking c in
  if beqb (cKind ch) KindAutomatic then Build_Classification (Automatic c ++ [ch]) (Manual c) (Informational c) br
  else if beqb (cKind ch) KindManual then Build_Classification (Automatic c) (Manual c ++ [ch]) (Informational c) br
  else if beqb (cKind ch) KindInformational then Build_Classification (Automatic c) (Manual c) (Informational c ++ [ch]) br
  else Build_Classification (Automatic c) (Manual c) (Informational c) br.

Definition Classify (releases : list Release) : Classification :=
  fold_left (fun c r => fold_left classify1 (Changes r) c) releases (Build_Classification [] [] [] []).

(** ** The compatibility policy *)

Inductive Bump := BumpPatch | BumpMinor | BumpMajor.

Definition bumpSize (b : Bump) : nat := match b with BumpPatch => 0 | BumpMinor => 1 | BumpMajor => 2 end.

Definition Bump_String (b : Bump) : bytes :=
  match b with BumpMinor => &"minor" | BumpMajor => &"major" | BumpPatch => &"patch" end.

Definition bumpBetween (prev next : bytes) : Bump :=
  if negb (beqb (sv_Major sv prev) (sv_Major sv next)) then BumpMajor
  else if negb (beqb (sv_MajorMinor sv prev) (sv_MajorMinor sv next)) then BumpMinor
  else BumpPatch.

Definition breakingIDs (changes : list Change) : list bytes :=
  omap (fun c => if cBreaking c && negb (beqb (cArea c) (&"security")) then Some (cID c) else None) changes.

Definition RequiredBump (prev : bytes) (changes : list Change) : Bump * list bytes :=
  let breaking := breakingIDs changes in
  if Nat.eqb (length breaking) 0 then (BumpPatch, [])
  else if beqb (sv_Major sv prev) (&"v0") then (BumpMinor, breaking)
  else (BumpMajor, breaking).

Definition stable (v : bytes) : bool := negb (beqb v Unreleased) && isEmpty (sv_Prerelease sv v).

Definition stableBefore (m : Manifest) (i : nat) : bytes :=
  match list_find (fun r => stable (rlVersion r) = true) (rev (take i (Releases m))) with
  | Some (_, r) => rlVersion r
  | None => []
  end.

(** The loop down from [end] stops at [prev]. *)
Fixpoint shippedBack (prev : bytes) (l : list Release) : list Change :=
  match l with
  | [] => []
  | r :: l => if beqb (rlVersion r) prev then [] else Changes r ++ shippedBack prev l
  end.

Definition shippedSince (m : Manifest) (prev : bytes) (end_ : nat) : list Change :=
  shippedBack prev (rev (take end_ (Releases m))).

Definition policyExceptions : list bytes := [&"v0.7.1"].

Definition CheckPolicy (m : Manifest) (version : bytes) : result upError unit :=
  match findRelease m version with
  | None => Err (NotListed version)
  | Some i =>
      if beqb version Unreleased then Err (NotListed version)
      else
        let prev := stableBefore m i in
        if isEmpty prev || oneOf version policyExceptions then Ok tt
        else
          let '(need, breaking) := RequiredBump prev (shippedSince m prev (S i)) in
          if Nat.ltb (bumpSize (bumpBetween prev version)) (bumpSize need) then Err (PolicyRefused version) else Ok tt
  end.

(** [checkFirstMajor]: [i] is the position of v1.0.0, which the caller found. *)
Definition checkFirstMajor (m : Manifest) (tag : bytes) : result upError unit :=
  if negb (beqb tag (&"v1.0.0")) then Ok tt
  else
    match findRelease m tag with
    | None => Ok tt
    | Some i =>
        let line := sv_MajorMinor sv (stableBefore m i) in
        match list_find (fun r =>
                negb (beqb (rlVersion r) Unreleased || negb (beqb (sv_Major sv (rlVersion r)) (&"v0")) ||
                      (sv_Compare sv (sv_MajorMinor sv (rlVersion r)) line <? 0)%Z) &&
                existsb (fun c => negb (Nat.eqb (length (cDeprecates c)) 0)) (Changes r) = true)
                (take i (Releases m)) with
        | Some (_, r) => Err (FirstMajorDeprecates (rlVersion r))
        | None => Ok tt
        end
    end.

Definition CheckRelease (m : Manifest) (tag : bytes) : result upError unit :=
  let? _ := Manifest_Release m tag in
  if negb (beqb (Latest m) tag) then Err (NotNewest tag)
  else
    let pending := match Manifest_Release m Unreleased with Ok r => negb (Nat.eqb (length (Changes r)) 0) | Err _ => false end in
    if pending then Err StillUnreleased
    else
      let? _ := CheckPolicy m tag in
      checkFirstMajor m tag.
End manifest.

(** * upgrade: the plan and its application

    [src/upgrade/plan.go] (the plan of an upgrade, and the go.mod directives it
    changes), [apply.go] (the go commands, the snapshot and its restore, the lines
    that changed) and the version arithmetic of [policy.go].  The go command, the
    checks of the automatic actions and the analyses of configuration and schema
    take their outcome from the caller. *)

Local Open Scope string_scope.
Local Open Scope list_scope.
Local Open Scope gotext_scope.
Local Open Scope gombit_scope.

(** ** Version arithmetic *)

(** The digits at the start of a text, as [Sscanf]'s %d reads them. *)
Fixpoint scanDigits (acc : Z) (b : bytes) : Z * bytes :=
  match b with
  | c :: r => if digit c then scanDigits (10 * acc + (code c - 48)) r else (acc, b)
  | [] => (acc, b)
  end.

(** One %d after the literal [lit]: [None] when the input does not match. *)
Definition scanInt (lit_ : bytes) (b : bytes) : option (Z * bytes) :=
  match CutPrefix b lit_ with
  | Some (c :: r) => if digit c then Some (scanDigits 0 (c :: r)) else None
  | _ => None
  end.

(** [fmt.Sscanf(v, "v%d.%d.%d", ...)]: what was not read stays zero. *)
Definition scanVersion (v : bytes) : Z * Z * Z :=
  match scanInt (&"v") v with
  | None => (0, 0, 0)%Z
  | Some (major, v) =>
      match scanInt (&".") v with
      | None => (major, 0, 0)%Z
      | Some (minor, v) =>
          match scanInt (&".") v with
          | None => (major, minor, 0)%Z
          | Some (patch, _) => (major, minor, patch)
          end
      end
  end.

Definition version3 (major minor patch : Z) : bytes :=
  &"v" ++ itoa major ++ &"." ++ itoa minor ++ &"." ++ itoa patch.

Definition nextRelease (prev : bytes) (b : Bump) : bytes :=
  let '(major, minor, patch) := scanVersion prev in
  match b with
  | BumpMajor => version3 (major + 1) 0 0
  | BumpMinor => version3 major (minor + 1) 0
  | BumpPatch => version3 major minor (patch + 1)
  end.

Definition UpcomingReleases (latest : bytes) : list bytes :=
  [nextRelease latest BumpPatch; nextRelease latest BumpMinor; nextRelease latest BumpMajor].

Definition RemovableFrom (since : bytes) : bytes :=
  let '(major, minor, _) := scanVersion since in
  if (major =? 0)%Z then version3 0 (minor + 2) 0 else version3 (major + 1) 0 0.

Definition RemovableFromMajor (sv : Semver) (since : bytes) : bytes :=
  if beqb (sv_Major sv since) (&"v0") then &"v1.0.0" else [].

(** ** The directives of go.mod the upgrade changes *)

Record DependencyChange := {
  dcModule : bytes; dcDirective : bytes; dcForVersion : bytes; dcFrom : bytes; dcTo : bytes; dcNote : bytes }.

Definition require_b : bytes := &"require".
Definition replace_b : bytes := &"replace".

(** A replace of every version by the framework, which the upgrade moves. *)
Definition moveNote (was : Replacement) : bytes :=
  &"it replaces every version of the framework, so it would keep the build on " ++ rpVersion was ++ &" (move it, or drop it)".

Definition dropNote (was : Replacement) (target : bytes) : bytes :=
  let for_ := if beqb (ForVersion was) [] then &"every version of the framework" else ForVersion was in
  &"it replaces " ++ for_ ++ &", so once the require is at " ++ target ++ &" the build would use " ++
  Replacement_String was ++ &", not the release: drop it".

Definition deadNote (a : Replacement) : bytes :=
  &"it replaces " ++ ForVersion a ++ &" only, so it stops applying once the require moves: drop it".

Definition moveChange (was : Replacement) (target : bytes) : DependencyChange :=
  Build_DependencyChange ModulePath replace_b [] (Replacement_String was) target (moveNote was).

Definition dropChange (was : Replacement) (target : bytes) : DependencyChange :=
  Build_DependencyChange ModulePath replace_b (ForVersion was) (Replacement_String was) [] (dropNote was target).

Definition deadChange (a : Replacement) : DependencyChange :=
  Build_DependencyChange ModulePath replace_b (ForVersion a) (Replacement_String a) [] (deadNote a).

(** The loop: the changes and what was reported; [None] when the fuel runs out. *)
Fixpoint settleReplaces (fuel : nat) (target : bytes) (replaces reported : list Replacement) :
    option (list DependencyChange * list Replacement) :=
  match fuel with
  | O => None
  | S fuel =>
      match Resolve replaces target with
      | None => Some ([], reported)
      | Some i =>
          match replaces !! i with
          | None => None
          | Some was =>
              if beqb (rpPath was) ModulePath && beqb (rpVersion was) target then Some ([], reported)
              else
                let reported := was :: reported in
                if beqb (ForVersion was) [] && beqb (rpPath was) ModulePath && negb (Local was) then
                  '(cs, rep) ← settleReplaces fuel target (<[i := Build_Replacement ModulePath target []]> replaces) reported;
                  Some (moveChange was target :: cs, rep)
                else
                  '(cs, rep) ← settleReplaces fuel target (filter (fun x => x <> was) replaces) reported;
                  Some (dropChange was target :: cs, rep)
          end
      end
  end.

Definition frameworkDirectives (d : Declaration) (target : bytes) : option (list DependencyChange) :=
  let require :=
    if beqb (Required d) target then []
    else [Build_DependencyChange ModulePath require_b [] (Required d) target []] in
  '(cs, reported) ← settleReplaces (length (Replaces d) + 2) target (Replaces d) [];
  let dead :=
    match resolved (Replaces d) (Required d) with
    | Some a =>
        if beqb (ForVersion a) (Required d) && negb (beqb (Required d) target) && negb (bool_decide (a ∈ reported))
        then [deadChange a] else []
    | None => []
    end in
  Some (require ++ cs ++ dead).

(** ** The plan *)

(** An automatic action: what it does, and the outcome of its check on the application. *)
Record Action := { aDescription : bytes; aCheck : option (result bytes bool) }.

Record Plan := {
  pCurrent : bytes; pTarget : bytes; pDependencies : list DependencyChange; pReleases : list Release;
  pAutomatic : list (Change * bytes); pManual : list Change; pBreaking : list Change;
  pInformational : list Change; pContract : list Change }.

Section plan.
Variable sv : Semver.
Variable lookupAction : bytes -> option Action.

(** The loop over the automatic changes: those needed, and the ids of those not. *)
Fixpoint planActions (l : list Change) : result upError (list (Change * bytes) * list bytes) :=
  match l with
  | [] => Ok ([], [])
  | ch :: l =>
      match lookupAction (cAction ch) with
      | None => Err (NoSuchAction (cID ch))
      | Some a =>
          match aCheck a with
          | Some (Err e) => Err (CheckFailed (cID ch))
          | Some (Ok false) =>
              let? rest := planActions l in Ok (rest.1, cID ch :: rest.2)
          | _ => let? rest := planActions l in Ok ((ch, aDescription a) :: rest.1, rest.2)
          end
      end
  end.

Definition contractChanges (releases : list Release) : list Change :=
  concat (map (fun r => filter (fun ch => cArea ch = &"client") (Changes r)) releases).

(** [analyses]: whether AnalyzeConfig and AnalyzeSchema succeeded. *)
Definition PlanUpgradeWith (m : Manifest) (fw : Framework) (d : Declaration) (analyses : result bytes unit) (to : bytes) :
    result upError Plan :=
  let to := if isEmpty to then Latest m else to in
  let? releases := PathFrom sv m fw to in
  let? deps :=
    (if beqb (fwVersion fw) to then Ok []
     else match frameworkDirectives d to with
          | Some cs => Ok cs
          | None => Err (PlanFailed (&"directives"))
          end) in
  let c := Classify releases in
  match analyses with
  | Err why => Err (PlanFailed why)
  | Ok _ =>
      let? acts := planActions (Automatic c) in
      Ok (Build_Plan (fwVersion fw) to deps releases acts.1 (Manual c)
            (filter (fun ch => cID ch ∉ acts.2) (Breaking c)) (Informational c) (contractChanges releases))
  end.
End plan.

(** ** Applying it *)

(** The go commands, and their arguments after "go". *)
Inductive goCommand :=
| DropReplace (module version : bytes)
| EditReplace (module version new to : bytes)
| GoGet (module target : bytes).

Definition atVersion (module version : bytes) : bytes :=
  if beqb version [] then module else module ++ &"@" ++ version.

Definition goArgs (c : goCommand) : list bytes :=
  match c with
  | DropReplace mod_ v => [&"mod"; &"edit"; &"-dropreplace=" ++ atVersion mod_ v; &"go.mod"]
  | EditReplace mod_ v new to => [&"mod"; &"edit"; &"-replace=" ++ atVersion mod_ v ++ &"=" ++ new ++ &"@" ++ to; &"go.mod"]
  | GoGet mod_ target => [&"get"; &"-modfile=go.mod"; mod_ ++ &"@" ++ target]
  end.

(** The command of one change; the require is moved by go get, last. *)
Definition replaceCommand (d : DependencyChange) : option goCommand :=
  if negb (beqb (dcDirective d) replace_b) then None
  else if beqb (dcTo d) [] then Some (DropReplace (dcModule d) (dcForVersion d))
  else Some (EditReplace (dcModule d) (dcForVersion d) (dcModule d) (dcTo d)).

Definition dependencyCommands (target : bytes) (changes : list DependencyChange) : list goCommand :=
  omap replaceCommand changes ++ [GoGet ModulePath target].

(** go.mod and go.sum: their bytes, none for a missing file. *)
Record modFiles := { goMod : option bytes; goSum : option bytes }.

(** What the world decides of one run. *)
Record applyWorld := {
  wGo : nat -> list bytes -> modFiles -> modFiles * bool;
  wSnapshot : nat -> bool;
  wRestoreMod : bool;
  wRestoreSum : bool;
  wDetect : modFiles -> result unit bytes;
  wVendor : bool;
}.

Fixpoint runCommands (W : applyWorld) (n : nat) (cmds : list goCommand) (f : modFiles) : modFiles * bool :=
  match cmds with
  | [] => (f, true)
  | c :: cmds =>
      let '(f, ok) := wGo W n (goArgs c) f in
      if (ok : bool) then runCommands W (S n) cmds f else (f, false)
  end.

(** [restore]: both files are tried, and a file that cannot be written stays as it is. *)
Definition restore (W : applyWorld) (before now : modFiles) : modFiles * bool :=
  (Build_modFiles (if wRestoreMod W then goMod before else goMod now)
                  (if wRestoreSum W then goSum before else goSum now),
   wRestoreMod W && wRestoreSum W).

Definition fail_ (W : applyWorld) (before now : modFiles) (cause : upError) : modFiles * result upError bool :=
  let '(f, ok) := restore W before now in
  (f, Err (if ok : bool then cause else RestoreFailed cause)).

(** [ApplyDependenciesWith]: the files it leaves, and whether vendor must be refreshed. *)
Definition ApplyDependencies (W : applyWorld) (to : bytes) (plan : result upError Plan) (f : modFiles) :
    modFiles * result upError bool :=
  if isEmpty to then (f, Err NoTarget)
  else match plan with
       | Err e => (f, Err e)
       | Ok plan =>
           if beqb (pCurrent plan) (pTarget plan) then (f, Ok false)
           else if negb (wSnapshot W 0) then (f, Err SnapshotFailed)
           else
             let '(f', ok) := runCommands W 0 (dependencyCommands (pTarget plan) (pDependencies plan)) f in
             if negb ok then fail_ W f f' GoCommandFailed
             else match wDetect W f' with
                  | Err _ => fail_ W f f' DetectFailed
                  | Ok v =>
                      if negb (beqb v (pTarget plan)) then fail_ W f f' (WrongBuild v)
                      else if negb (wSnapshot W 1) then fail_ W f f' SnapshotFailed
                      else (f', Ok (wVendor W))
                  end
       end.

(** ** The lines that changed *)

Definition crlf : bytes := [byte_of 13; newline].

Definition splitLines (data : bytes) : list bytes :=
  filter (fun l => TrimSpace l <> []) (SplitByte (ReplaceAll data crlf newline_b) newline).

Definition countLines (l : list bytes) : gmap bytes nat :=
  fold_left (fun n x => <[x := S (n !!! x)]> n) l ∅.

(** The lines of the list beyond what [have] counts, each counted once. *)
Fixpoint beyond (have : gmap bytes nat) (l : list bytes) : list bytes :=
  match l with
  | [] => []
  | x :: l =>
      match have !!! x with
      | O => x :: beyond have l
      | S n => beyond (<[x := n]> have) l
      end
  end.

Record FileChange := { fcRemoved : list bytes; fcAdded : list bytes }.

Definition lineChange (before after : bytes) : FileChange :=
  let b := splitLines before in
  let a := splitLines after in
  Build_FileChange (beyond (countLines a) b) (beyond (countLines b) a).
