(* ===== verification/UpgradeFacts.v ===== *)
(** * upgrade: the plan is complete, and its commands land on the target *)

From stdpp Require Import base tactics numbers list strings gmap sets.
From Stdlib Require Import ZArith Lia Ascii.
From S2P Require Import Prelude GoBytes DotEnv GoText Regex MigrationDir MigrationFacts GoEncoding ResourcePolicyFacts UpgradePlan.

Local Open Scope string_scope.
Local Open Scope list_scope.
Local Open Scope gotext_scope.
Local Open Scope gombit_scope.

(** ** Which replace applies *)

Lemma resolveFrom_cases l v : forall i w,
  (exists k r, resolveFrom i w l v = Some (i + k)%nat /\ l !! k = Some r /\ ForVersion r = v) \/
  ((forall r, r ∈ l -> ForVersion r <> v) /\
   ((exists k r, resolveFrom i w l v = Some (i + k)%nat /\ l !! k = Some r /\ ForVersion r = []) \/
    (resolveFrom i w l v = w /\ forall r, r ∈ l -> ForVersion r <> []))).
Proof.
  induction l as [|r l IH]; intros i w; cbn [resolveFrom].
  { right. split; [by intros r ?%not_elem_of_nil|right]. split; [done|]. by intros r ?%not_elem_of_nil. }
  destruct (beqb (ForVersion r) v) eqn:E.
  { apply beqb_true in E. left. exists O, r. by rewrite Nat.add_0_r. }
  assert (ForVersion r <> v) by (intros Hv%beqb_true; congruence).
  destruct (IH (S i) (if beqb (ForVersion r) [] then Some i else w)) as [(k & r' & -> & Hk & Hv)|[Hno Hw]].
  { left. exists (S k), r'. split_and!; [f_equal; lia|done|done]. }
  right. split; [intros r' [->|Hr]%elem_of_cons; auto|].
  destruct Hw as [(k & r' & -> & Hk & Hv)|[-> Hw]].
  { left. exists (S k), r'. split_and!; [f_equal; lia|done|done]. }
  destruct (beqb (ForVersion r) []) eqn:Ew.
  - apply beqb_true in Ew. left. exists O, r. by rewrite Nat.add_0_r.
  - right. split; [done|]. intros r' [->|Hr]%elem_of_cons; auto. intros Hv%beqb_true. congruence.
Qed.

Definition distinct (replaces : list Replacement) : Prop := NoDup (map ForVersion replaces).

Lemma distinct_eq l r r' : distinct l -> r ∈ l -> r' ∈ l -> ForVersion r = ForVersion r' -> r = r'.
Proof. apply NoDup_map_eq. Qed.

(** With one replace per version, an exact one wins, then the one of every version. *)
Lemma Resolve_Some l v i r : Resolve l v = Some i -> l !! i = Some r ->
  ForVersion r = v \/ (ForVersion r = [] /\ forall r', r' ∈ l -> ForVersion r' <> v).
Proof.
  unfold Resolve. destruct (resolveFrom_cases l v 0 None) as [(k & r' & -> & Hk & Hv)|[Hno [(k & r' & -> & Hk & Hv)|[-> _]]]];
    cbn; intros [= <-] Hr; [left|right]; naive_solver.
Qed.

Lemma Resolve_is_Some l v i : Resolve l v = Some i -> exists r, l !! i = Some r.
Proof.
  unfold Resolve. destruct (resolveFrom_cases l v 0 None) as [(k & r' & -> & Hk & Hv)|[Hno [(k & r' & -> & Hk & Hv)|[-> _]]]];
    cbn; intros [= <-]; eauto.
Qed.

Lemma Resolve_None l v : Resolve l v = None -> forall r, r ∈ l -> ForVersion r <> v /\ ForVersion r <> [].
Proof.
  unfold Resolve. destruct (resolveFrom_cases l v 0 None) as [(k & r' & -> & Hk & Hv)|[Hno [(k & r' & -> & Hk & Hv)|[_ Hw]]]]; [done|done|auto].
Qed.

Lemma resolved_cases l v :
  match resolved l v with
  | Some r => r ∈ l /\ (ForVersion r = v \/ (ForVersion r = [] /\ forall r', r' ∈ l -> ForVersion r' <> v))
  | None => forall r, r ∈ l -> ForVersion r <> v /\ ForVersion r <> []
  end.
Proof.
  unfold resolved. destruct (Resolve l v) as [i|] eqn:E; cbn; [|by apply Resolve_None].
  destruct (Resolve_is_Some _ _ _ E) as [r Hr]. rewrite Hr. split; [by eapply list_elem_of_lookup_2|by eapply Resolve_Some].
Qed.

(** ** What the go commands do to go.mod *)

(** The require and the replaces of the framework; each command as the go command
    documents it. *)
Definition editGoMod (f : bytes * list Replacement) (c : goCommand) : bytes * list Replacement :=
  match c with
  | DropReplace m v => if beqb m ModulePath then (f.1, filter (fun r => ForVersion r <> v) f.2) else f
  | EditReplace m v new to =>
      if beqb m ModulePath then
        if bool_decide (v ∈ map ForVersion f.2)
        then (f.1, map (fun r => if beqb (ForVersion r) v then Build_Replacement new to v else r) f.2)
        else (f.1, f.2 ++ [Build_Replacement new to v])
      else f
  | GoGet m t => if beqb m ModulePath then (t, f.2) else f
  end.

Definition runEdits (req : bytes) (reps : list Replacement) (cs : list DependencyChange) : bytes * list Replacement :=
  fold_left editGoMod (omap replaceCommand cs) (req, reps).

(** The build at the target is the target release. *)
Definition lands (reps : list Replacement) (target : bytes) : Prop :=
  forall r, resolved reps target = Some r -> rpPath r = ModulePath /\ rpVersion r = target.

Lemma filter_ext_in {A} (P Q : A -> Prop) `{!forall x, Decision (P x), !forall x, Decision (Q x)} (l : list A) :
  (forall x, x ∈ l -> P x <-> Q x) -> filter P l = filter Q l.
Proof.
  induction l as [|x l IH]; intros Hpq; [done|]. rewrite !filter_cons.
  assert (P x <-> Q x) by (apply Hpq; left). rewrite IH by (intros; apply Hpq; by right). repeat case_decide; tauto.
Qed.

Lemma drop_filter was reps : distinct reps -> was ∈ reps ->
  filter (fun x => x <> was) reps = filter (fun r => ForVersion r <> ForVersion was) reps.
Proof.
  intros Hd Hin. apply filter_ext_in. intros r Hr. split; [|by intros ? ->].
  intros Hne E. apply Hne. by apply (distinct_eq reps).
Qed.

Lemma distinct_filter (P : Replacement -> Prop) `{!forall x, Decision (P x)} reps : distinct reps -> distinct (filter P reps).
Proof.
  unfold distinct. induction reps as [|r l IH]; [done|]. cbn [map]. intros [Hr Hn]%NoDup_cons.
  rewrite filter_cons. case_decide; [|auto]. cbn [map]. constructor; [|auto].
  intros (r' & E & Hr')%list_elem_of_fmap. apply list_elem_of_filter in Hr' as [_ Hr']. apply Hr. rewrite E. by apply list_elem_of_fmap_2.
Qed.

Lemma insert_map was i l v x : distinct l -> l !! i = Some was -> ForVersion was = v ->
  <[i := x]> l = map (fun r => if beqb (ForVersion r) v then x else r) l.
Proof.
  revert i. induction l as [|r l IH]; intros i; [done|]. cbn [map]. unfold distinct. cbn [map]. intros [Hr Hn]%NoDup_cons Hi Hv.
  destruct i as [|i]; cbn in Hi |- *.
  - injection Hi as ->. rewrite (proj2 (beqb_true _ _) Hv). f_equal. clear IH.
    induction l as [|r' l IH]; [done|]. cbn [map] in *. apply not_elem_of_cons in Hr as [Hne Hr]. apply NoDup_cons in Hn as [_ Hn].
    rewrite <- IH by done. destruct (beqb (ForVersion r') v) eqn:E; [|done]. apply beqb_true in E. congruence.
  - rewrite <- (IH i) by done. destruct (beqb (ForVersion r) v) eqn:E; [|done].
    apply beqb_true in E. destruct Hr. rewrite E, <- Hv. apply list_elem_of_fmap_2. by eapply list_elem_of_lookup_2.
Qed.

Lemma map_versions l v x : ForVersion x = v ->
  map ForVersion (map (fun r => if beqb (ForVersion r) v then x else r) l) = map ForVersion l.
Proof.
  intros Hx. rewrite map_map. apply map_ext. intros r. destruct (beqb _ v) eqn:E; [|done]. apply beqb_true in E. congruence.
Qed.

Definition movedTo (target : bytes) : Replacement := Build_Replacement ModulePath target [].
Definition moveAll (target : bytes) (reps : list Replacement) : list Replacement :=
  map (fun r => if beqb (ForVersion r) [] then movedTo target else r) reps.

(** The replace moved to the target decides the build from then on. *)
Lemma moved_resolved reps target was : target <> [] -> was ∈ reps -> ForVersion was = [] ->
  (forall r, r ∈ reps -> ForVersion r <> target) -> resolved (moveAll target reps) target = Some (movedTo target).
Proof.
  intros Ht Hin Hw Hno. pose proof (resolved_cases (moveAll target reps) target) as H.
  assert (Hel : forall r, r ∈ moveAll target reps -> r = movedTo target \/ (r ∈ reps /\ ForVersion r <> [])).
  { intros r (r0 & -> & Hr0)%list_elem_of_fmap. destruct (beqb (ForVersion r0) []) eqn:E; [by left|right].
    split; [done|]. intros E'%beqb_true. congruence. }
  destruct (resolved (moveAll target reps) target) as [r|].
  - destruct H as [Hr [Hv|[Hv _]]]; destruct (Hel r Hr) as [->|[Hr' Hne]]; try done. by destruct (Hno r).
  - destruct (H (movedTo target)) as [_ []]; [|done]. apply list_elem_of_fmap. exists was. by rewrite Hw.
Qed.

Lemma resolved_inv l v r : resolved l v = Some r -> exists i, Resolve l v = Some i /\ l !! i = Some r.
Proof. unfold resolved. destruct (Resolve l v) as [i|]; [|done]. eauto. Qed.

Lemma beqb_false a b : beqb a b = false <-> a <> b.
Proof. apply bool_decide_eq_false. Qed.

(** What the loop leaves: its changes, run as commands, land on the target. *)
Record settled (target : bytes) (reps rep : list Replacement) (cs : list DependencyChange) (rep' : list Replacement) : Prop := {
  settled_lands : forall req, distinct (runEdits req reps cs).2 /\ lands (runEdits req reps cs).2 target /\ (runEdits req reps cs).1 = req;
  settled_kept : forall req r, r ∈ reps -> r ∈ (runEdits req reps cs).2 \/ r ∈ rep';
  settled_reported : forall r, r ∈ rep' <-> r ∈ rep \/ (r ∈ reps /\ exists c, c ∈ cs /\ dcForVersion c = ForVersion r /\ dcFrom c = Replacement_String r);
}.

Lemma settled_nil target reps rep : distinct reps -> lands reps target -> settled target reps rep [] rep.
Proof.
  intros Hd Hl. split; [done|by left|]. intros r. split; [by left|]. intros [?|(_ & c & ?%not_elem_of_nil & _)]; done.
Qed.

Lemma runEdits_drop req reps was target cs : distinct reps -> was ∈ reps ->
  runEdits req reps (dropChange was target :: cs) = runEdits req (filter (fun x => x <> was) reps) cs.
Proof. intros Hd Hin. unfold runEdits. cbn. by rewrite (drop_filter was reps). Qed.

Lemma runEdits_move req reps was target cs : target <> [] -> was ∈ reps -> ForVersion was = [] ->
  runEdits req reps (moveChange was target :: cs) = runEdits req (moveAll target reps) cs.
Proof.
  intros Ht Hin Hw. unfold runEdits, moveAll, movedTo. cbn [omap list_omap]. unfold replaceCommand at 1. cbn [moveChange dcDirective dcTo dcModule dcForVersion].
  rewrite beqb_refl, (proj2 (beqb_false _ _) Ht). cbn [negb fold_left editGoMod fst snd]. rewrite beqb_refl, bool_decide_eq_true_2; [done|].
  rewrite <- Hw. by apply list_elem_of_fmap_2.
Qed.

Lemma settle_returns target fuel : target <> [] -> forall reps rep, distinct reps -> (length reps + 2 <= fuel)%nat ->
  exists cs rep', settleReplaces fuel target reps rep = Some (cs, rep') /\ settled target reps rep cs rep'.
Proof.
  intros Ht. induction fuel as [|fuel IH]; intros reps rep Hd Hf; [lia|]. cbn [settleReplaces].
  destruct (Resolve reps target) as [i|] eqn:Ei.
  2:{ exists [], rep. split; [done|]. apply settled_nil; [done|]. intros r (? & ? & _)%resolved_inv. congruence. }
  destruct (Resolve_is_Some _ _ _ Ei) as [was Hi]. rewrite Hi.
  pose proof (list_elem_of_lookup_2 _ _ _ Hi) as Hin.
  destruct (beqb (rpPath was) ModulePath && beqb (rpVersion was) target) eqn:Edone.
  { apply andb_true_iff in Edone as [?%beqb_true ?%beqb_true]. exists [], rep. split; [done|]. apply settled_nil; [done|].
    intros r (j & Hj & Hr)%resolved_inv. by simplify_eq. }
  destruct (beqb (ForVersion was) [] && beqb (rpPath was) ModulePath && negb (Local was)) eqn:Emove.
  - rewrite !andb_true_iff in Emove. destruct Emove as [[Hw%beqb_true _] _].
    destruct (Resolve_Some _ _ _ _ Ei Hi) as [?|[_ Hno]]; [congruence|].
    rewrite (insert_map was i reps [] _ Hd Hi Hw). fold (movedTo target) (moveAll target reps).
    pose proof (moved_resolved reps target was Ht Hin Hw Hno) as Hres.
    destruct (resolved_inv _ _ _ Hres) as (j & Hj & Hmv). destruct fuel as [|fuel]; [lia|].
    cbn [settleReplaces]. rewrite Hj, Hmv. cbn [rpPath rpVersion movedTo]. rewrite !beqb_refl. cbn [andb mbind option_bind].
    eexists _, _. split; [done|]. split.
    + intros req. rewrite runEdits_move by done. cbn. split_and!; [|by intros r Hr; rewrite Hres in Hr; injection Hr as <-|done].
      unfold distinct, moveAll. by rewrite map_versions.
    + intros req r Hr. rewrite runEdits_move by done. cbn. destruct (decide (r = was)) as [->|Hne]; [right; left|left].
      apply list_elem_of_fmap. exists r. split; [|done]. rewrite (proj2 (beqb_false _ _)); [done|].
      intros E. apply Hne. apply (distinct_eq reps); congruence || done.
    + intros r. rewrite elem_of_cons. split.
      * intros [->|?]; [right|by left]. split; [done|]. eexists. split; [left|]. by rewrite Hw.
      * intros [?|(Hr & c & ->%list_elem_of_singleton & Hv & _)]; [by right|left].
        apply (distinct_eq reps); [done..|]. rewrite <- Hv. done.
  - assert (Hlen : (length (filter (fun x => x <> was) reps) < length reps)%nat) by (apply length_filter_lt with was; naive_solver).
    destruct (IH (filter (fun x => x <> was) reps) (was :: rep)) as (cs & rep' & -> & [H1 H2 H3]); [by apply distinct_filter|lia|].
    cbn [mbind option_bind]. eexists _, _. split; [done|]. split.
    + intros req. by rewrite runEdits_drop.
    + intros req r Hr. rewrite runEdits_drop by done. destruct (decide (r = was)) as [->|Hne]; [right|apply H2; by apply list_elem_of_filter].
      apply H3. left. left.
    + intros r. rewrite H3. rewrite elem_of_cons. split.
      * intros [[->|?]|(Hr & c & Hc & Hv)]; [right|by left|right].
        -- split; [done|]. eexists. split; [left|]. done.
        -- apply list_elem_of_filter in Hr as [_ Hr]. split; [done|]. exists c. split; [by right|done].
      * intros [?|(Hr & c & [->|Hc]%elem_of_cons & Hv & Hs)]; [by left; right|..].
        -- left. left. by apply (distinct_eq reps).
        -- destruct (decide (r = was)) as [->|Hne]; [by left; left|right]. split; [by apply list_elem_of_filter|by exists c].
Qed.

Lemma frameworkReplaces_distinct l : forall byOld out, frameworkReplaces byOld l = Ok out ->
  distinct out /\ forall r, r ∈ out -> byOld !! ForVersion r = None.
Proof.
  induction l as [|r l IH]; intros byOld out; cbn [frameworkReplaces].
  { intros [= <-]. split; [constructor|]. by intros r ?%not_elem_of_nil. }
  destruct (negb _); [auto|]. destruct (byOld !! oldVersion r) eqn:E; [case_bool_decide; [auto|done]|].
  rewrite result_bind_Ok. intros (out' & [Hd Hn]%IH & [= <-]). split.
  - unfold distinct. cbn. constructor; [|done]. intros (r' & Er & Hr')%list_elem_of_fmap.
    apply Hn in Hr'. by rewrite <- Er, lookup_insert_eq in Hr'.
  - intros r' [->|Hr']%elem_of_cons; [done|]. apply Hn in Hr'.
    destruct (decide (oldVersion r = ForVersion r')) as [Er|]; [by rewrite Er, lookup_insert_eq in Hr'|by rewrite lookup_insert_ne in Hr'].
Qed.

Lemma Parse_Ok requires replaces d : Parse requires replaces = Ok d ->
  Required d <> [] /\ distinct (Replaces d) /\ Replace d = resolved (Replaces d) (Required d).
Proof.
  unfold Parse. rewrite result_bind_Ok. intros (req & _ & H). destruct (beqb req []) eqn:E; [done|].
  rewrite result_bind_Ok in H. destruct H as (rs & Hrs & [= <-]). cbn. apply beqb_false in E.
  split_and!; [done|by eapply frameworkReplaces_distinct|done].
Qed.

(** Dropping the replace of another version changes nothing at the target. *)
Lemma drop_other_lands l v target : distinct l -> v <> target -> v <> [] -> lands l target ->
  lands (filter (fun r => ForVersion r <> v) l) target.
Proof.
  intros Hd Hv Hv0 Hl r Hr. apply Hl. pose proof (resolved_cases (filter (fun r => ForVersion r <> v) l) target) as Hc.
  rewrite Hr in Hc. destruct Hc as [[Hrv Hin]%list_elem_of_filter Hcase].
  assert (Hno : (forall r', r' ∈ filter (fun r => ForVersion r <> v) l -> ForVersion r' <> target) -> forall r', r' ∈ l -> ForVersion r' <> target).
  { intros H r' Hr' E. destruct (decide (ForVersion r' = v)); [congruence|]. apply (H r'); [by apply list_elem_of_filter|done]. }
  pose proof (resolved_cases l target) as Hc. destruct (resolved l target) as [r0|].
  - destruct Hc as [Hin0 Hcase0]. f_equal. apply (distinct_eq l); [done..|].
    destruct Hcase as [E|[E H]], Hcase0 as [E0|[E0 H0]]; try congruence; [by destruct (H0 r)|by destruct (Hno H r0)].
  - destruct (Hc r Hin). destruct Hcase as [E|[E _]]; congruence.
Qed.

Lemma runEdits_app req reps cs cs' : runEdits req reps (cs ++ cs') =
  runEdits (runEdits req reps cs).1 (runEdits req reps cs).2 cs'.
Proof. unfold runEdits. rewrite omap_app, fold_left_app. by destruct (fold_left editGoMod (omap replaceCommand cs) (req, reps)). Qed.

Lemma landed_release reps target : target <> [] -> lands reps target ->
  Declaration_Release (Build_Declaration target (resolved reps target) reps) = target.
Proof.
  intros Ht Hl. unfold Declaration_Release. cbn. destruct (resolved reps target) as [r|] eqn:E; [|done].
  destruct (Hl r E) as [-> Hv]. unfold Local. by rewrite beqb_refl, Hv, (proj2 (beqb_false _ _) Ht).
Qed.

(** C24. The commands of an upgrade make the target the version the application builds with:
    whatever replace directives go.mod has, applying the planned commands to its requirement
    and directives leaves the target required and resolved to itself, and every directive
    that goes or moves is named in the plan. *)
Theorem directives_land requires replaces d target :
  Parse requires replaces = Ok d -> target <> [] ->
  exists cs, frameworkDirectives d target = Some cs /\
    let f := fold_left editGoMod (dependencyCommands target cs) (Required d, Replaces d) in
    f.1 = target /\
    Declaration_Release (Build_Declaration f.1 (resolved f.2 f.1) f.2) = target /\
    forall r, r ∈ Replaces d -> r ∈ f.2 \/
      exists c, c ∈ cs /\ dcForVersion c = ForVersion r /\ dcFrom c = Replacement_String r.
Proof.
  intros (Hreq & Hd & _)%Parse_Ok Ht.
  destruct (settle_returns target (length (Replaces d) + 2) Ht (Replaces d) [] Hd ltac:(lia)) as (cs & rep & Hs & [H1 H2 H3]).
  unfold frameworkDirectives. rewrite Hs. cbn [mbind option_bind]. eexists. split; [done|].
  set (dead := match resolved (Replaces d) (Required d) with Some a => _ | None => [] end).
  set (head := if beqb (Required d) target then [] else _).
  assert (Hhead : forall reps l, runEdits (Required d) reps (head ++ l) = runEdits (Required d) reps l).
  { intros reps l. subst head. by destruct (beqb (Required d) target). }
  assert (Hrun : fold_left editGoMod (dependencyCommands target (head ++ cs ++ dead)) (Required d, Replaces d) =
    (target, (runEdits (Required d) (Replaces d) (cs ++ dead)).2)).
  { unfold dependencyCommands. rewrite fold_left_app. change (fold_left editGoMod (omap replaceCommand (head ++ cs ++ dead)) _)
      with (runEdits (Required d) (Replaces d) (head ++ cs ++ dead)). rewrite Hhead. cbn. by rewrite beqb_refl. }
  cbn zeta. rewrite Hrun. cbn [fst snd]. destruct (H1 (Required d)) as (Hdist & Hland & Hreq').
  rewrite runEdits_app, Hreq'. set (reps := (runEdits (Required d) (Replaces d) cs).2) in *.
  assert (Hdead : dead = [] \/ exists a, a ∈ Replaces d /\ dead = [deadChange a] /\ ForVersion a = Required d /\ Required d <> target).
  { subst dead. pose proof (resolved_cases (Replaces d) (Required d)) as Hc. destruct (resolved (Replaces d) (Required d)) as [a|]; [|by left].
    destruct (beqb (ForVersion a) (Required d) && _ && _) eqn:E; [right|by left].
    rewrite !andb_true_iff, !negb_true_iff in E. destruct E as [[Ev%beqb_true Et%beqb_false] _]. exists a. by destruct Hc. }
  split; [done|]. destruct Hdead as [->|(a & Ha & -> & Hv & Hne)].
  - split; [by apply landed_release|]. intros r Hr. destruct (H2 (Required d) r Hr) as [?|[[]%not_elem_of_nil|(_ & c & ? & ?)]%H3]; [by left|right].
    exists c. split; [|done]. rewrite !elem_of_app. tauto.
  - assert (runEdits (Required d) reps [deadChange a] = (Required d, filter (fun r => ForVersion r <> ForVersion a) reps)) as -> by done.
    cbn [snd]. rewrite Hv. split.
    + apply landed_release; [done|]. by apply drop_other_lands.
    + intros r Hr. destruct (decide (ForVersion r = Required d)) as [Er|Er].
      * right. exists (deadChange a). rewrite !elem_of_app, list_elem_of_singleton. split; [tauto|].
        by rewrite (distinct_eq (Replaces d) r a) by congruence.
      * destruct (H2 (Required d) r Hr) as [?|[[]%not_elem_of_nil|(_ & c & ? & ?)]%H3]; [left; by apply list_elem_of_filter|right].
        exists c. split; [|done]. rewrite !elem_of_app. tauto.
Qed.

(** A fork of the version required today shadows a replace of every version. *)
Definition forkedRequires : list (bytes * bytes) := [(ModulePath, &"v0.8.0")].
Definition forkedReplaces : list modReplace :=
  [Build_modReplace ModulePath (&"v0.8.0") (&"example.com/fork") (&"v0.8.1");
   Build_modReplace ModulePath [] ModulePath (&"v0.7.0")].
Definition fork : Replacement := Build_Replacement (&"example.com/fork") (&"v0.8.1") (&"v0.8.0").
Definition pinned : Replacement := Build_Replacement ModulePath (&"v0.7.0") [].
Definition forkedDecl : Declaration := Build_Declaration (&"v0.8.0") (Some fork) [fork; pinned].

Lemma directives_land_witness :
  Parse forkedRequires forkedReplaces = Ok forkedDecl /\
  exists cs, frameworkDirectives forkedDecl (&"v0.9.0") = Some cs /\ length cs = 3%nat /\
    (fold_left editGoMod (dependencyCommands (&"v0.9.0") cs) (Required forkedDecl, Replaces forkedDecl)).1 = &"v0.9.0".
Proof.
  split; [by vm_compute|].
  destruct (directives_land forkedRequires forkedReplaces forkedDecl (&"v0.9.0")) as (cs & Hcs & H1 & _); [by vm_compute|done|].
  exists cs. split; [exact Hcs|]. split; [|exact H1]. vm_compute in Hcs. injection Hcs as <-. reflexivity.
Defined.

(** ** The path *)

Lemma index_Ok sv m v i : index sv m v = Ok i <->
  v <> [] /\ v <> Unreleased /\ sv_IsValid sv v = true /\ findRelease m v = Some i.
Proof.
  unfold index, isEmpty. destruct (beqb v []) eqn:E1; [apply beqb_true in E1; naive_solver|].
  destruct (beqb v Unreleased) eqn:E2; [apply beqb_true in E2; naive_solver|].
  apply beqb_false in E1, E2. destruct (sv_IsValid sv v); cbn [negb]; [|naive_solver].
  destruct (findRelease m v) as [k|]; [naive_solver|].
  split; [|naive_solver]. repeat case_match; naive_solver.
Qed.

Lemma findRelease_Some m v i : findRelease m v = Some i -> exists r, Releases m !! i = Some r /\ rlVersion r = v.
Proof.
  unfold findRelease. destruct (list_find _ (Releases m)) as [[k r]|] eqn:E; [|done]. intros [= <-].
  apply list_find_Some in E as (? & ? & _). eauto.
Qed.

Lemma Path_Ok sv m from to rs : Path sv m from to = Ok rs <->
  exists i j, index sv m from = Ok i /\ index sv m to = Ok j /\ (i <= j)%nat /\ rs = between m i j.
Proof.
  unfold Path. rewrite result_bind_Ok. split.
  - intros (i & Hi & (j & Hj & H)%result_bind_Ok). destruct (Nat.ltb_spec j i); [done|]. injection H as <-. eauto 10.
  - intros (i & j & Hi & Hj & Hle & ->). exists i. split; [done|]. rewrite Hj. cbn [result_bind]. by rewrite (proj2 (Nat.ltb_ge _ _)).
Qed.

Lemma between_app m i j k : (i <= j)%nat -> (j <= k)%nat -> (j < length (Releases m))%nat ->
  between m i j ++ between m j k = between m i k.
Proof.
  intros Hij Hjk Hl. unfold between. rewrite <- (take_drop (j - i) (take (k - i) (drop (S i) (Releases m)))). f_equal.
  - rewrite take_take. f_equal. lia.
  - rewrite skipn_firstn_comm, drop_drop. f_equal; [lia|]. f_equal. lia.
Qed.

(** An upgrade in two steps crosses what the upgrade in one does. *)
Lemma Path_composes sv m a b c p q :
  Path sv m a b = Ok p -> Path sv m b c = Ok q -> Path sv m a c = Ok (p ++ q).
Proof.
  rewrite !Path_Ok. intros (i & j & Hi & Hj & Hij & ->) (j' & k & Hj' & Hk & Hjk & ->). simplify_eq.
  assert (j' = j) as -> by congruence.
  exists i, k. split_and!; [done|done|lia|]. apply between_app; [done|done|].
  apply index_Ok in Hj as (_ & _ & _ & (r & Hr & _)%findRelease_Some). by apply lookup_lt_Some in Hr.
Qed.

(** ** Validation *)

Definition allChanges (rs : list Release) : list Change := concat (map Changes rs).

Lemma checkChanges_Ok implements joinTable l : forall ids ids',
  checkChanges implements joinTable ids l = Ok ids' ->
  Forall (fun c => Change_validate implements joinTable c = Ok tt) l /\
  NoDup (map cID l) /\ (forall c, c ∈ l -> cID c ∉ ids) /\ ids' = rev (map cID l) ++ ids.
Proof.
  induction l as [|c l IH]; intros ids ids'; cbn [checkChanges map].
  { intros [= <-]. split_and!; [constructor|constructor|by intros c ?%not_elem_of_nil|done]. }
  rewrite result_bind_Ok. intros ([] & Hc & H). unfold oneOf in H. case_bool_decide as Hin; [done|].
  apply IH in H as (Hv & Hn & Hd & ->). split_and!.
  - by constructor.
  - constructor; [|done]. intros (c' & E & Hc')%list_elem_of_fmap. apply (Hd c' Hc'). rewrite E. left.
  - intros c' [->|Hc']%elem_of_cons; [done|]. intros H. apply (Hd c' Hc'). by right.
  - cbn. by rewrite <- app_assoc.
Qed.

Lemma checkReleases_Ok sv implements joinTable l : forall prev ids,
  checkReleases sv implements joinTable prev ids l = Ok tt ->
  Forall (fun c => Change_validate implements joinTable c = Ok tt) (allChanges l) /\
  NoDup (map cID (allChanges l)) /\ (forall c, c ∈ allChanges l -> cID c ∉ ids).
Proof.
  induction l as [|r l IH]; intros prev ids.
  { intros _. split_and!; [constructor|constructor|by intros c ?%not_elem_of_nil]. }
  cbn [checkReleases]. rewrite result_bind_Ok. intros ([] & _ & (ids' & (Hv & Hn & Hd & ->)%checkChanges_Ok & H)%result_bind_Ok).
  apply IH in H as (Hv' & Hn' & Hd'). unfold allChanges in *. cbn [map concat]. split_and!.
  - by apply Forall_app.
  - rewrite map_app. apply NoDup_app. split_and!; [done| |done].
    intros x Hx Hx'. apply list_elem_of_fmap in Hx' as (c & -> & Hc). apply (Hd' c Hc). apply elem_of_app. left.
    apply list_elem_of_In. rewrite <- in_rev. by apply list_elem_of_In.
  - intros c [Hc|Hc]%elem_of_app; [auto|]. intros H. apply (Hd' c Hc). apply elem_of_app. by right.
Qed.

Lemma Change_validate_kind implements joinTable c : Change_validate implements joinTable c = Ok tt ->
  cKind c = KindAutomatic \/ cKind c = KindManual \/ cKind c = KindInformational.
Proof.
  unfold Change_validate. cbn zeta. intros H.
  do 9 match type of H with (if ?c then _ else _) = _ => destruct c; [done|] end.
  destruct (beqb (cKind c) KindAutomatic) eqn:E; [apply beqb_true in E; auto|].
  unfold oneOf in H. case_bool_decide as Hin; [|done]. rewrite !elem_of_cons in Hin.
  destruct Hin as [?|[?|?%not_elem_of_nil]]; auto. done.
Qed.

(** ** Classification *)

Lemma classify_spec l : forall c,
  fold_left classify1 l c = Build_Classification
    (Automatic c ++ filter (fun ch => cKind ch = KindAutomatic) l)
    (Manual c ++ filter (fun ch => cKind ch = KindManual) l)
    (Informational c ++ filter (fun ch => cKind ch = KindInformational) l)
    (Breaking c ++ filter (fun ch => cBreaking ch = true) l).
Proof.
  induction l as [|ch l IH]; intros c; cbn [fold_left]; [rewrite !app_nil_r; by destruct c|].
  rewrite IH. rewrite !filter_cons. unfold classify1.
  assert (Hk : KindAutomatic <> KindManual /\ KindAutomatic <> KindInformational /\ KindManual <> KindInformational) by done.
  destruct Hk as (H1 & H2 & H3).
  destruct (beqb (cKind ch) KindAutomatic) eqn:Ea; [apply beqb_true in Ea|apply beqb_false in Ea];
    [|destruct (beqb (cKind ch) KindManual) eqn:Em; [apply beqb_true in Em|apply beqb_false in Em];
      [|destruct (beqb (cKind ch) KindInformational) eqn:Ei; [apply beqb_true in Ei|apply beqb_false in Ei]]];
    cbn [Automatic Manual Informational Breaking]; destruct (cBreaking ch); repeat case_decide; try congruence;
    rewrite <- ?app_assoc; done.
Qed.

Lemma Classify_spec rs : Classify rs = Build_Classification
  (filter (fun ch => cKind ch = KindAutomatic) (allChanges rs)) (filter (fun ch => cKind ch = KindManual) (allChanges rs))
  (filter (fun ch => cKind ch = KindInformational) (allChanges rs)) (filter (fun ch => cBreaking ch = true) (allChanges rs)).
Proof.
  unfold Classify, allChanges.
  assert (forall c, fold_left (fun c r => fold_left classify1 (Changes r) c) rs c = fold_left classify1 (concat (map Changes rs)) c) as ->.
  { induction rs as [|r rs IH]; intros c; [done|]. cbn [fold_left map concat]. by rewrite fold_left_app, IH. }
  by rewrite classify_spec.
Qed.

(** ** The plan *)

(** An automatic change whose check says the application does not need it. *)
Definition notNeeded (lookupAction : bytes -> option Action) (ch : Change) : Prop :=
  cKind ch = KindAutomatic /\ exists a, lookupAction (cAction ch) = Some a /\ aCheck a = Some (Ok false).

Lemma planActions_Ok lookupAction l : forall acts, planActions lookupAction l = Ok acts ->
  (forall ch, ch ∈ l -> (exists desc, (ch, desc) ∈ acts.1) \/
     (exists a, lookupAction (cAction ch) = Some a /\ aCheck a = Some (Ok false))) /\
  (forall id, id ∈ acts.2 -> exists ch a, ch ∈ l /\ cID ch = id /\ lookupAction (cAction ch) = Some a /\ aCheck a = Some (Ok false)) /\
  (forall ch desc, (ch, desc) ∈ acts.1 -> ch ∈ l).
Proof.
  induction l as [|ch l IH]; intros acts; cbn [planActions].
  { intros [= <-]. split_and!; [by intros ch ?%not_elem_of_nil|by intros id ?%not_elem_of_nil|by intros ch d ?%not_elem_of_nil]. }
  destruct (lookupAction (cAction ch)) as [a|] eqn:Ea; [|done].
  assert (Hneed : (let? rest := planActions lookupAction l in Ok ((ch, aDescription a) :: rest.1, rest.2)) = Ok acts ->
    (forall ch', ch' ∈ ch :: l -> (exists desc, (ch', desc) ∈ acts.1) \/
       (exists a, lookupAction (cAction ch') = Some a /\ aCheck a = Some (Ok false))) /\
    (forall id, id ∈ acts.2 -> exists ch' a, ch' ∈ ch :: l /\ cID ch' = id /\ lookupAction (cAction ch') = Some a /\ aCheck a = Some (Ok false)) /\
    (forall ch' desc, (ch', desc) ∈ acts.1 -> ch' ∈ ch :: l)).
  { rewrite result_bind_Ok. intros (rest & (H1 & H2 & H3)%IH & [= <-]). cbn. split_and!.
    - intros ch' [->|Hc]%elem_of_cons; [left; eexists; left|]. destruct (H1 ch' Hc) as [[d ?]|?]; [left; exists d; by right|by right].
    - intros id (ch' & a' & ? & ?)%H2. exists ch', a'. split; [by right|done].
    - intros ch' d [[= -> ->]|Hc]%elem_of_cons; [left|right; by eapply H3]. }
  destruct (aCheck a) as [[[]|e]|] eqn:Ec; [auto| |done|auto]. clear Hneed.
  rewrite result_bind_Ok. intros (rest & (H1 & H2 & H3)%IH & [= <-]). cbn. split_and!.
  - intros ch' [->|Hc]%elem_of_cons; [right; eauto|]. destruct (H1 ch' Hc) as [[d ?]|?]; [left; exists d; done|by right].
  - intros id [->|Hid]%elem_of_cons; [exists ch, a; split_and!; [left|done..]|].
    destruct (H2 id Hid) as (ch' & a' & ? & ?). exists ch', a'. split; [by right|done].
  - intros ch' d Hc. right. by eapply H3.
Qed.

Lemma between_sub m i j c : c ∈ allChanges (between m i j) -> c ∈ allChanges (Releases m).
Proof.
  unfold allChanges, between. intros Hc. apply list_elem_of_In, in_concat in Hc as (cs & Hcs & Hin).
  apply list_elem_of_In, in_concat. exists cs. split; [|done]. apply in_map_iff in Hcs as (r & <- & Hr).
  apply in_map. apply list_elem_of_In in Hr. apply list_elem_of_In.
  apply list_elem_of_lookup in Hr as (k & Hk). apply lookup_take_Some in Hk as [Hk _]. rewrite lookup_drop in Hk.
  by eapply list_elem_of_lookup_2.
Qed.

Lemma PlanUpgrade_Ok sv lookupAction m fw d analyses to p :
  PlanUpgradeWith sv lookupAction m fw d analyses to = Ok p ->
  exists i j acts, index sv m (fwVersion fw) = Ok i /\ index sv m (pTarget p) = Ok j /\ (i <= j)%nat /\
    pCurrent p = fwVersion fw /\ pTarget p = (if isEmpty to then Latest m else to) /\
    pReleases p = between m i j /\ planActions lookupAction (Automatic (Classify (between m i j))) = Ok acts /\
    pAutomatic p = acts.1 /\ pManual p = Manual (Classify (between m i j)) /\
    pInformational p = Informational (Classify (between m i j)) /\
    pBreaking p = filter (fun ch => cID ch ∉ acts.2) (Breaking (Classify (between m i j))).
Proof.
  unfold PlanUpgradeWith. set (t := if isEmpty to then _ else _). rewrite result_bind_Ok. intros (rs & Hrs & H).
  unfold PathFrom in Hrs. do 3 match type of Hrs with (if ?c then _ else _) = _ => destruct c; [done|] end.
  apply Path_Ok in Hrs as (i & j & Hi & Hj & Hij & ->).
  rewrite result_bind_Ok in H. destruct H as (deps & _ & H). destruct analyses; [|done].
  rewrite result_bind_Ok in H. destruct H as (acts & Ha & [= <-]). cbn. exists i, j, acts. split_and!; done.
Qed.

(** An upgrade plan leaves out nothing: the plan over a valid manifest has the releases
    after the current one up to the target, and every change of theirs is listed as manual,
    informational or automatic, unless its action found nothing to do in the application; a
    breaking one is listed as breaking. *)
Theorem plan_complete sv implements joinTable lookupAction m fw d analyses to p :
  Manifest_validate sv implements joinTable m = Ok tt ->
  PlanUpgradeWith sv lookupAction m fw d analyses to = Ok p ->
  (exists i j, index sv m (fwVersion fw) = Ok i /\ index sv m (pTarget p) = Ok j /\ pReleases p = between m i j) /\
  forall ch, ch ∈ allChanges (pReleases p) ->
    (ch ∈ pManual p \/ ch ∈ pInformational p \/ (exists desc, (ch, desc) ∈ pAutomatic p) \/ notNeeded lookupAction ch) /\
    (cBreaking ch = true -> ch ∈ pBreaking p \/ notNeeded lookupAction ch).
Proof.
  intros Hval (i & j & acts & Hi & Hj & _ & _ & _ & -> & Ha & -> & -> & -> & ->)%PlanUpgrade_Ok. split; [eauto 10|].
  unfold Manifest_validate in Hval. do 2 match type of Hval with (if ?c then _ else _) = _ => destruct c; [done|] end.
  apply checkReleases_Ok in Hval as (Hv & Hn & _).
  rewrite Classify_spec in *. cbn [Automatic Manual Informational Breaking] in *.
  intros ch Hch. pose proof (between_sub _ _ _ _ Hch) as Hall.
  pose proof (planActions_Ok _ _ _ Ha) as (H1 & H2 & _). split.
  - rewrite Forall_forall in Hv. destruct (Change_validate_kind _ _ _ (Hv ch Hall)) as [K|[K|K]].
    + destruct (H1 ch) as [?|?]; [by apply list_elem_of_filter|auto|]. right. right. right. by split.
    + left. by apply list_elem_of_filter.
    + right. left. by apply list_elem_of_filter.
  - intros Hb. destruct (decide (cID ch ∈ acts.2)) as [Hid|Hid].
    + right. destruct (H2 _ Hid) as (ch' & a & [K Hc']%list_elem_of_filter & Eid & ? & ?).
      pose proof (NoDup_map_eq _ _ ch' ch Hn (between_sub _ _ _ _ Hc') Hall Eid) as <-. split; eauto.
    + left. by rewrite !list_elem_of_filter.
Qed.

(** ** The size of a release *)

Lemma scanDigits_app ds : forall acc rest, forallb digit ds = true ->
  match rest with c :: _ => digit c = false | [] => True end ->
  scanDigits acc (ds ++ rest) = (digitsValue acc ds, rest).
Proof.
  induction ds as [|c ds IH]; intros acc rest Hd Hr; cbn [app scanDigits digitsValue].
  - destruct rest as [|c r]; cbn [scanDigits]; [done|]. by rewrite Hr.
  - cbn [forallb] in Hd. apply andb_true_iff in Hd as [Hc Hd]. rewrite Hc, IH by done. f_equal. f_equal. lia.
Qed.

Lemma scanInt_itoa (lit_ : bytes) z rest : (0 <= z < 10 ^ 64)%Z ->
  match rest with c :: _ => digit c = false | [] => True end ->
  scanInt lit_ (lit_ ++ itoa z ++ rest) = Some (z, rest).
Proof.
  intros Hz Hr. unfold scanInt, CutPrefix. rewrite (proj2 (strip_prefix_Some lit_ _ _) eq_refl).
  destruct (itoa_digits z Hz) as (Hne & Hd & Hv). revert Hne Hd Hv. generalize (itoa z) as ds. intros ds Hne Hd Hv.
  pose proof (scanDigits_app ds 0 rest Hd Hr) as Hs. rewrite Hv in Hs. destruct ds as [|c ds]; [done|].
  cbn [app] in *. cbn [forallb] in Hd. apply andb_true_iff in Hd as [-> _]. by rewrite Hs.
Qed.

Lemma scanVersion_version3 a b c : (0 <= a < 10 ^ 64)%Z -> (0 <= b < 10 ^ 64)%Z -> (0 <= c < 10 ^ 64)%Z ->
  scanVersion (version3 a b c) = (a, b, c).
Proof.
  intros Ha Hb Hc. unfold scanVersion, version3.
  rewrite (scanInt_itoa (&"v") a (&"." ++ itoa b ++ &"." ++ itoa c) Ha eq_refl).
  rewrite (scanInt_itoa (&".") b (&"." ++ itoa c) Hb eq_refl).
  by rewrite <- (app_nil_r (itoa c)), (scanInt_itoa (&".") c [] Hc I).
Qed.

(** What is documented of [semver.Major] and [semver.MajorMinor] on plain releases. *)
Record semverLaws (sv : Semver) : Prop := {
  law_Major : forall a b c, (0 <= a < 10 ^ 64)%Z -> (0 <= b < 10 ^ 64)%Z -> (0 <= c < 10 ^ 64)%Z ->
    sv_Major sv (version3 a b c) = &"v" ++ itoa a;
  law_MajorMinor : forall a b c, (0 <= a < 10 ^ 64)%Z -> (0 <= b < 10 ^ 64)%Z -> (0 <= c < 10 ^ 64)%Z ->
    sv_MajorMinor sv (version3 a b c) = &"v" ++ itoa a ++ &"." ++ itoa b;
}.

(** The release after another by a bump is, by the policy's own measure, exactly that bump.
    *)
Theorem next_release_is_its_bump sv a b c bump :
  semverLaws sv -> (0 <= a < 10 ^ 18)%Z -> (0 <= b < 10 ^ 18)%Z -> (0 <= c < 10 ^ 18)%Z ->
  bumpBetween sv (version3 a b c) (nextRelease (version3 a b c) bump) = bump /\
  forall changes, (Nat.ltb (bumpSize (bumpBetween sv (version3 a b c) (nextRelease (version3 a b c) bump)))
                           (bumpSize (RequiredBump sv (version3 a b c) changes).1) = false <->
                   (bumpSize (RequiredBump sv (version3 a b c) changes).1 <= bumpSize bump)%nat).
Proof.
  intros [L1 L2] Ha Hb Hc.
  assert (Hbig : (10 ^ 18 + 1 < 10 ^ 64)%Z) by (vm_compute; reflexivity).
  assert (Hinj : forall x y, (0 <= x <= 10 ^ 18)%Z -> (0 <= y <= 10 ^ 18)%Z -> itoa x = itoa y -> x = y)
    by (intros x y Hx Hy; apply itoa_inj; lia).
  assert (Hbump : bumpBetween sv (version3 a b c) (nextRelease (version3 a b c) bump) = bump).
  { unfold nextRelease. rewrite scanVersion_version3 by lia. unfold bumpBetween. rewrite !L1, !L2 by lia.
    destruct bump.
    - rewrite !L1, !L2, !beqb_refl by lia. done.
    - rewrite !L1, !L2, beqb_refl by lia. cbn [negb]. rewrite (proj2 (beqb_false _ _)); [done|].
      intros E. do 2 apply app_inv_head in E. apply app_inv_head in E. apply Hinj in E; lia.
    - rewrite !L1 by lia. rewrite (proj2 (beqb_false _ _)); [done|].
      intros E. apply app_inv_head in E. apply Hinj in E; lia. }
  split; [done|]. intros changes. rewrite Hbump. by rewrite Nat.ltb_ge.
Qed.

(** ** Applying *)

(** A failed upgrade leaves the files as they were, unless restoring them failed too. *)
Lemma failed_upgrade_restores W to plan f f' e :
  ApplyDependencies W to plan f = (f', Err e) -> (forall c, e <> RestoreFailed c) -> f' = f \/ plan = Err e.
Proof.
  assert (Hfail : forall now cause f' e, fail_ W f now cause = (f', Err e) -> (forall c, e <> RestoreFailed c) -> f' = f).
  { intros now cause g e'. unfold fail_, restore. destruct (wRestoreMod W), (wRestoreSum W); cbn; intros [= <- <-] H;
      [by destruct f|by destruct (H cause)..]. }
  unfold ApplyDependencies. destruct (isEmpty to); [intros [= -> <-]; auto|]. destruct plan as [p|e0]; [|intros [= -> ->]; auto].
  destruct (beqb _ _); [done|]. destruct (wSnapshot W 0); cbn [negb]; [|intros [= -> <-]; auto].
  destruct (runCommands W 0 _ f) as [f1 ok]. destruct ok; cbn [negb]; [|intros H1 H2; left; by eapply Hfail].
  destruct (wDetect W f1) as [v|]; [|intros H1 H2; left; by eapply Hfail].
  destruct (negb (beqb v _)); [intros H1 H2; left; by eapply Hfail|].
  destruct (wSnapshot W 1); cbn [negb]; [done|intros H1 H2; left; by eapply Hfail].
Qed.

(** A successful one builds against its target. *)
Lemma applied_upgrade_builds W to p f f' vendor :
  ApplyDependencies W to (Ok p) f = (f', Ok vendor) ->
  (pCurrent p = pTarget p /\ f' = f) \/ wDetect W f' = Ok (pTarget p).
Proof.
  unfold ApplyDependencies. destruct (isEmpty to); [done|]. destruct (beqb _ _) eqn:E; [apply beqb_true in E; intros [= -> _]; auto|].
  destruct (wSnapshot W 0); cbn [negb]; [|done].
  assert (Hf : forall now cause, (fail_ W f now cause).2 <> Ok vendor) by (intros; unfold fail_; by destruct (restore W f now)).
  destruct (runCommands W 0 _ f) as [f1 ok]. destruct ok; cbn [negb]; [|intros H; by destruct (Hf f1 GoCommandFailed); rewrite H].
  destruct (wDetect W f1) as [v|] eqn:Ed; [|intros H; by destruct (Hf f1 DetectFailed); rewrite H].
  destruct (beqb v (pTarget p)) eqn:Ev; cbn [negb]; [|intros H; by destruct (Hf f1 (WrongBuild v)); rewrite H].
  apply beqb_true in Ev as ->. destruct (wSnapshot W 1); cbn [negb]; [|intros H; by destruct (Hf f1 SnapshotFailed); rewrite H].
  intros [= -> _]. by right.
Qed.

(** ** The lines that changed *)

Definition occurrences (x : bytes) (l : list bytes) : nat := length (filter (fun y => y = x) l).

Lemma occurrences_cons x y l : occurrences x (y :: l) = ((if decide (y = x) then 1 else 0) + occurrences x l)%nat.
Proof. unfold occurrences. rewrite filter_cons. by case_decide. Qed.

Lemma countLines_spec l x : countLines l !!! x = occurrences x l.
Proof.
  unfold countLines. rewrite <- (Nat.add_0_l (occurrences x l)).
  assert (forall (m : gmap bytes nat), fold_left (fun n x => <[x := S (n !!! x)]> n) l m !!! x = (m !!! x + occurrences x l)%nat) as H; [|by rewrite H, lookup_total_empty].
  induction l as [|y l IH]; intros m; cbn [fold_left]; [unfold occurrences; cbn; lia|].
  rewrite IH, occurrences_cons. destruct (decide (y = x)) as [->|Hne].
  - rewrite lookup_total_insert_eq. lia.
  - rewrite lookup_total_insert_ne by done. lia.
Qed.

Lemma beyond_spec x l : forall have : gmap bytes nat, occurrences x (beyond have l) = (occurrences x l - have !!! x)%nat.
Proof.
  induction l as [|y l IH]; intros have; cbn [beyond]; [done|]. rewrite occurrences_cons.
  destruct (have !!! y) as [|n] eqn:E.
  - rewrite occurrences_cons, IH. destruct (decide (y = x)) as [->|]; lia.
  - rewrite IH. destruct (decide (y = x)) as [->|Hne].
    + rewrite lookup_total_insert_eq. lia.
    + rewrite lookup_total_insert_ne by done. lia.
Qed.

(** The report accounts for every line: what was there and was added is what is
    there now and was removed, and no line is reported both ways. *)
Lemma lineChange_accounts before after x :
  (occurrences x (splitLines before) + occurrences x (fcAdded (lineChange before after)) =
   occurrences x (splitLines after) + occurrences x (fcRemoved (lineChange before after)))%nat /\
  (occurrences x (fcAdded (lineChange before after)) = 0 \/ occurrences x (fcRemoved (lineChange before after)) = 0)%nat.
Proof. unfold lineChange. cbn [fcAdded fcRemoved]. rewrite !beyond_spec, !countLines_spec. lia. Qed.

(** ** A concrete manifest *)

Definition cutDot (n : nat) (v : bytes) : bytes := Join (take n (SplitByte v ".")) (&".").

Definition plainSemver : Semver := {|
  sv_IsValid := fun v => HasPrefix v (&"v");
  sv_Canonical := fun v => v;
  sv_Build := fun _ => [];
  sv_Prerelease := fun _ => [];
  sv_Major := cutDot 1;
  sv_MajorMinor := cutDot 2;
  sv_Compare := fun a b => if beqb a b then 0%Z else if SchemaPlan.bytes_leb a b then (-1)%Z else 1%Z;
  sv_IsPseudoVersion := fun _ => false |}.

Lemma digits_no_dot ds : forallb digit ds = true -> ("."%char : ascii) ∉ ds.
Proof.
  intros H Hin. rewrite forallb_forall in H. apply list_elem_of_In in Hin. apply H in Hin. done.
Qed.

Lemma version3_split a b c : (0 <= a < 10 ^ 64)%Z -> (0 <= b < 10 ^ 64)%Z -> (0 <= c < 10 ^ 64)%Z ->
  SplitByte (version3 a b c) "." = [&"v" ++ itoa a; itoa b; itoa c].
Proof.
  intros (_ & Ha & _)%itoa_digits (_ & Hb & _)%itoa_digits (_ & Hc & _)%itoa_digits. unfold version3.
  revert Ha Hb Hc. generalize (itoa a) (itoa b) (itoa c). intros x y z Hx%digits_no_dot Hy%digits_no_dot Hz%digits_no_dot.
  rewrite app_assoc. cbn [app of_string]. change (&"." ++ y ++ &"." ++ z) with ("."%char :: y ++ "."%char :: z).
  rewrite (SplitByte_app (&"v" ++ x)), (SplitByte_app y) by (done || by apply not_elem_of_cons). f_equal. f_equal.
  clear -Hz. induction z as [|c z IH]; [done|]. apply not_elem_of_cons in Hz as [Hc Hz]. cbn [SplitByte].
  rewrite (proj2 (Ascii.eqb_neq c ".")) by done. by rewrite IH.
Qed.

Lemma plainSemver_laws : semverLaws plainSemver.
Proof.
  split; intros a b c Ha Hb Hc; cbn [sv_Major sv_MajorMinor plainSemver]; unfold cutDot; rewrite version3_split by done;
    cbn [take firstn Join]; rewrite <- ?app_assoc; done.
Qed.

Lemma next_release_is_its_bump_witness :
  bumpBetween plainSemver (version3 0 8 2) (nextRelease (version3 0 8 2) BumpMinor) = BumpMinor.
Proof. apply (next_release_is_its_bump plainSemver 0 8 2 BumpMinor plainSemver_laws); lia. Defined.

Definition exampleChange (id kind action : bytes) (breaking : bool) : Change :=
  Build_Change id kind breaking (&"api") (&"what changed") (&"what to do") action [1%Z] [] [] [].

Definition exampleManifest : Manifest := Build_Manifest 1
  [Build_Release (&"v0.1.0") [];
   Build_Release (&"v0.2.0") [exampleChange (&"renamed-api") KindManual [] true; exampleChange (&"baseline") KindAutomatic (&"record-baseline") true];
   Build_Release (&"v0.3.0") [exampleChange (&"new-api") KindInformational [] false]].

Definition exampleActions (name : bytes) : option Action :=
  if beqb name (&"record-baseline") then Some (Build_Action (&"record the baseline") (Some (Ok false))) else None.

Definition examplePlan : Plan := Build_Plan (&"v0.1.0") (&"v0.3.0")
  [Build_DependencyChange ModulePath require_b [] (&"v0.1.0") (&"v0.3.0") []]
  (drop 1 (Releases exampleManifest)) [] [exampleChange (&"renamed-api") KindManual [] true]
  [exampleChange (&"renamed-api") KindManual [] true] [exampleChange (&"new-api") KindInformational [] false] [].

Lemma plan_complete_witness :
  exampleChange (&"baseline") KindAutomatic (&"record-baseline") true ∈ pBreaking examplePlan \/
  notNeeded exampleActions (exampleChange (&"baseline") KindAutomatic (&"record-baseline") true).
Proof.
  refine (proj2 (proj2 (plan_complete plainSemver (fun a => negb (isEmpty a)) (fun _ => false) exampleActions exampleManifest
    (Build_Framework (&"v0.1.0") (&"v0.1.0") None false []) (Build_Declaration (&"v0.1.0") None []) (Ok tt) [] examplePlan _ _) _ _) _).
  - by vm_compute.
  - by vm_compute.
  - apply list_elem_of_In. right. left. reflexivity.
  - reflexivity.
Defined.
