(* ===== verification/UrlBase.v ===== *)
(** * internal/urlbase: the URLs an application is served under

    The canonical form of an API prefix, and the checks of the bases of storage
    URLs.  [net/url]'s parser is an argument of [Base] and [Root]. *)

From stdpp Require Import base tactics numbers list strings gmap sets.
From Stdlib Require Import ZArith Lia Ascii.
From S2P Require Import Prelude GoBytes DotEnv GoText StorageKey.

Local Open Scope string_scope.
Local Open Scope list_scope.
Local Open Scope gotext_scope.
Local Open Scope Z_scope.

(** The messages of the package. *)
Inductive urlProblem :=
| MustStartWithSlash
| OnlySlashes
| NotUTF8
| DotSegment
| BadSegment
| TrailingSlash
| Unparsable (msg : bytes)
| HasExtras
| NotHTTP
| NotAPath
| NotPlain
| NotAbsolute.

Definition slash_b : bytes := &"/".

(** [strings.TrimRight(prefix, "/")] *)
Definition TrimRightSlash (b : bytes) : bytes := trim_right [slash_b] b.

Definition prefixRune (r : Z) : bool :=
  ((97 <=? r) && (r <=? 122)) || ((65 <=? r) && (r <=? 90)) || ((48 <=? r) && (r <=? 57)) ||
  (160 <=? r) || bool_decide (r ∈ map code (&"._-~!$&'()+,;=@")).

Definition isPrefixSegment (segment : bytes) : bool :=
  if beqb segment [] then false else forallb prefixRune (runes segment).

Fixpoint checkSegments (segs : list bytes) : option urlProblem :=
  match segs with
  | [] => None
  | s :: segs =>
      if beqb s (&".") || beqb s (&"..") then Some DotSegment
      else if negb (isPrefixSegment s) then Some BadSegment
      else checkSegments segs
  end.

Definition apiPrefix (prefix : bytes) : result urlProblem bytes :=
  if negb (HasPrefix prefix slash_b) then Err MustStartWithSlash
  else
    let canonical := TrimRightSlash prefix in
    if beqb canonical [] then Err OnlySlashes
    else if negb (ValidString canonical) then Err NotUTF8
    else match checkSegments (SplitByte (drop 1 canonical) slash) with
         | Some p => Err p
         | None => Ok canonical
         end.

Definition CanonicalAPIPrefix (prefix : bytes) : bytes :=
  match apiPrefix prefix with Ok canonical => canonical | Err _ => [] end.

(** [None] is the empty string: no problem. *)
Definition APIPrefixProblem (prefix : bytes) : option urlProblem :=
  match apiPrefix prefix with
  | Err p => Some p
  | Ok canonical => if beqb canonical prefix then None else Some TrailingSlash
  end.

(** ** Storage URLs *)

(** What is read of a [*url.URL]. *)
Record URL := {
  uScheme : bytes; uHost : bytes; uPath : bytes; uEscapedPath : bytes;
  uRawQuery : bytes; uForceQuery : bool; uFragment : bytes; uUser : bool }.

Definition IsAbs (u : URL) : bool := negb (beqb (uScheme u) []).

Section parse.
Variable urlParse : bytes -> result bytes URL.

Definition parse (raw : bytes) : result urlProblem URL :=
  match urlParse raw with
  | Err msg => Err (Unparsable msg)
  | Ok u =>
      if negb (beqb (uRawQuery u) []) || uForceQuery u || negb (beqb (uFragment u) []) || HasSuffix raw slash_b || uUser u
      then Err HasExtras
      else if IsAbs u && (negb (beqb (uScheme u) (&"http")) && negb (beqb (uScheme u) (&"https")) || beqb (uHost u) [])
      then Err NotHTTP
      else Ok u
  end.

Definition Base (base : bytes) : result urlProblem bytes :=
  match parse base with
  | Err p => Err p
  | Ok u =>
      if negb (IsAbs u) && (negb (beqb (uHost u) []) || negb (HasPrefix base slash_b)) then Err NotAPath
      else if beqb (uPath u) [] || negb (beqb (uEscapedPath u) (uPath u)) then Err NotPlain
      else Ok (uPath u)
  end.

Definition Root (root : bytes) : option urlProblem :=
  match parse root with
  | Err p => Some p
  | Ok u =>
      if negb (IsAbs u) then Some NotAbsolute
      else if negb (beqb (uEscapedPath u) (uPath u)) then Some NotPlain
      else None
  end.
End parse.

(** ** The canonical form *)

Definition segmentOk (s : bytes) : Prop :=
  s <> [] /\ s <> &"." /\ s <> &".." /\ forallb prefixRune (runes s) = true.

Lemma checkSegments_None segs : checkSegments segs = None <-> Forall segmentOk segs.
Proof.
  induction segs as [|s segs IH]; cbn [checkSegments]; [by split|]. rewrite Forall_cons, <- IH.
  unfold segmentOk, isPrefixSegment.
  destruct (beqb s (&".")) eqn:E1; [apply beqb_true in E1; naive_solver|].
  destruct (beqb s (&"..")) eqn:E2; [apply beqb_true in E2; naive_solver|]. cbn [orb].
  assert (s <> &"." /\ s <> &"..") by (split; intros H%beqb_true; congruence).
  destruct (beqb s []) eqn:E3; [apply beqb_true in E3; cbn; naive_solver|].
  assert (s <> []) by (intros H'%beqb_true; congruence).
  destruct (forallb prefixRune (runes s)); cbn [negb]; naive_solver.
Qed.

(** A prefix that has a canonical form: it starts with '/', is UTF-8, and is made of
    good segments, so none is empty and it does not end with '/'. *)
Definition canonicalForm (c : bytes) : Prop :=
  exists segs, segs <> [] /\ Forall segmentOk segs /\ c = concat (map (fun s => slash :: s) segs) /\ ValidString c = true /\
    SplitByte (drop 1 c) slash = segs.

Lemma split_concat b : SplitByte b slash <> [] /\ slash :: b = concat (map (fun s => slash :: s) (SplitByte b slash)).
Proof.
  split; [apply SplitByte_nonempty|].
  induction b as [|c b IH]; [done|]. cbn [SplitByte]. destruct (Ascii.eqb_spec c slash) as [->|Hc].
  - cbn [map concat]. by rewrite <- IH.
  - destruct (SplitByte b slash) as [|s segs] eqn:E; [by apply SplitByte_nonempty in E|].
    cbn [map concat app] in *. by injection IH as ->.
Qed.

Lemma trim_fuel_slashes n b : exists k, b = repeat slash k ++ trim_fuel n (map (@rev ascii) [slash_b]) b.
Proof.
  revert b. induction n as [|n IH]; intros b; [by exists O|]. cbn [trim_fuel map].
  destruct (strip_any [rev slash_b] b) as [r|] eqn:E; [|by exists O].
  apply strip_any_Some in E as (x & ->%list_elem_of_singleton & ->).
  destruct (IH r) as [k Hk]. exists (S k). cbn [repeat app rev slash_b]. by rewrite Hk at 1.
Qed.

Lemma TrimRightSlash_app p : exists k, p = TrimRightSlash p ++ repeat slash k.
Proof.
  unfold TrimRightSlash, trim_right, trim_left. destruct (trim_fuel_slashes (length (rev p)) (rev p)) as [k Hk].
  exists k. rewrite <- (rev_involutive p) at 1. rewrite Hk at 1. rewrite rev_app_distr. f_equal.
  clear. induction k as [|k IH]; [done|]. cbn [repeat rev]. rewrite IH. by rewrite <- repeat_cons.
Qed.

Lemma apiPrefix_Ok p c : apiPrefix p = Ok c -> canonicalForm c /\ exists k, p = c ++ repeat slash k.
Proof.
  unfold apiPrefix. destruct (HasPrefix p slash_b) eqn:Hp; cbn [negb]; [|done].
  destruct (beqb (TrimRightSlash p) []) eqn:He; [done|]. destruct (ValidString _) eqn:Hv; cbn [negb]; [|done].
  destruct (checkSegments _) eqn:Hs; [done|]. intros [= <-]. destruct (TrimRightSlash_app p) as [k Hk]. split; [|by exists k].
  apply checkSegments_None in Hs. exists (SplitByte (drop 1 (TrimRightSlash p)) slash).
  destruct (split_concat (drop 1 (TrimRightSlash p))) as [Hne Hc]. split_and!; [done|done| |done|done].
  rewrite <- Hc. apply HasPrefix_true in Hp as [r Hr]. destruct (TrimRightSlash p) as [|x t]; [by rewrite beqb_refl in He|].
  rewrite Hr in Hk. by injection Hk as <- _.
Qed.

Lemma SplitByte_no_sep b x s : s ∈ SplitByte b x -> (x ∉ s).
Proof.
  revert s. induction b as [|c b IH]; intros s; cbn [SplitByte].
  - intros ->%list_elem_of_singleton. by apply not_elem_of_nil.
  - destruct (Ascii.eqb_spec c x) as [->|Hc].
    + intros [->|Hs]%elem_of_cons; [by apply not_elem_of_nil|auto].
    + destruct (SplitByte b x) as [|t ts]; intros Hs.
      * apply list_elem_of_singleton in Hs as ->. set_solver.
      * apply elem_of_cons in Hs as [->|Hs]; [|apply IH; by right]. apply not_elem_of_cons. split; [done|]. apply IH. left.
Qed.

(** A canonical prefix is its own canonical form. *)
Lemma canonical_fixed c : canonicalForm c -> apiPrefix c = Ok c.
Proof.
  intros (segs & Hne & Hok & Hc & Hv & Hs).
  assert (TrimRightSlash c = c) as Ht.
  { destruct segs as [|s segs _] using rev_ind; [done|]. apply Forall_app in Hok as [_ Hok]. apply Forall_singleton in Hok as [Hsne _].
    destruct s as [|x s _] using rev_ind; [done|].
    rewrite Hc, map_app, concat_app. cbn [map concat]. rewrite app_nil_r.
    change (slash :: s ++ [x]) with ((slash :: s) ++ [x]). rewrite app_assoc. apply trim_right_last.
    - by repeat constructor.
    - cbn. intros ->%list_elem_of_singleton.
      apply (SplitByte_no_sep (drop 1 c) slash (s ++ [slash])); [rewrite Hs; apply elem_of_app; right; left|].
      apply elem_of_app. right. left. }
  unfold apiPrefix. rewrite Ht, Hv, Hs, (proj2 (checkSegments_None segs) Hok).
  destruct segs as [|s segs]; [done|]. rewrite Hc. cbn [map concat app]. done.
Qed.

(** The canonical form of an API prefix is a sequence of clean segments, is its own
    canonical form and no problem, differs from the prefix only by final slashes, and a
    route under it has one more segment. *)
Theorem canonical_prefix p :
  CanonicalAPIPrefix p <> [] ->
  let c := CanonicalAPIPrefix p in
  canonicalForm c /\ (exists k, p = c ++ repeat slash k) /\
  CanonicalAPIPrefix c = c /\ APIPrefixProblem c = None /\
  (APIPrefixProblem p = None <-> p = c) /\
  forall route, (slash ∉ route) -> SplitByte (drop 1 (c ++ slash :: route)) slash = SplitByte (drop 1 c) slash ++ [route].
Proof.
  unfold CanonicalAPIPrefix at 1. destruct (apiPrefix p) as [c|] eqn:E; [|done]. intros Hne.
  assert (CanonicalAPIPrefix p = c) as -> by (unfold CanonicalAPIPrefix; by rewrite E). cbn zeta. destruct (apiPrefix_Ok p c E) as [Hc Hk].
  pose proof (canonical_fixed c Hc) as Hf. split_and!; [done|done| | |..].
  - unfold CanonicalAPIPrefix. by rewrite Hf.
  - unfold APIPrefixProblem. by rewrite Hf, beqb_refl.
  - unfold APIPrefixProblem. rewrite E. destruct (beqb c p) eqn:Eb; [apply beqb_true in Eb; by split|].
    split; [done|]. intros ->. by rewrite beqb_refl in Eb.
  - intros route Hr. destruct Hc as (segs & _ & _ & Hc & _ & Hs).
    assert (drop 1 (c ++ slash :: route) = drop 1 c ++ slash :: route) as ->.
    { destruct c; [|done]. done. }
    rewrite SplitByte_app_sep. f_equal. rewrite <- (app_nil_r route) at 1. clear -Hr.
    induction route as [|x r IH]; [done|]. apply not_elem_of_cons in Hr as [Hx Hr]. cbn [app SplitByte].
    rewrite (proj2 (Ascii.eqb_neq x slash)) by done. by rewrite IH.
Qed.

Lemma canonical_prefix_witness :
  CanonicalAPIPrefix (&"/api/v1+beta//") = &"/api/v1+beta" /\ CanonicalAPIPrefix (&"/api/v1+beta") = &"/api/v1+beta".
Proof.
  split; [by vm_compute|].
  destruct (canonical_prefix (&"/api/v1+beta//")) as (_ & _ & H & _); [by vm_compute|].
  assert (CanonicalAPIPrefix (&"/api/v1+beta//") = &"/api/v1+beta") as Hc by (by vm_compute). by rewrite Hc in H.
Defined.
