(* ===== verification/Presign.v ===== *)
(** * storage/presign, storage/direct.go: signed URLs and the handler that serves them

    A [Signer] makes read URLs and upload grants, and [Handler] serves them over the
    memory store.  HMAC-SHA256, the JSON of a map of strings, [net/url]'s parser,
    [mime.FormatMediaType] and the arguments of the store are arguments here.  The clock
    [Now] is read where the code reads it, so each reading is an argument; a request's
    context is the sequence of the answers of its [Err], and the time of each is [at]. *)

From stdpp Require Import base tactics numbers list strings gmap sets.
From Stdlib Require Import ZArith Lia Ascii.
From S2P Require Import Prelude GoBytes DotEnv GoText StorageKey StorageOptions StorageStream StorageMemory StorageClaims StorageUpload GoEncoding UrlBase.

Local Open Scope string_scope.
Local Open Scope list_scope.
Local Open Scope gotext_scope.
Local Open Scope Z_scope.

(** ** Direct uploads *)

Record UploadURLOptions := mkUploadURLOptions {
  uoExpires : duration; uoSize : Z; uoContentType : bytes; uoMetadata : gmap bytes bytes }.

Record UploadRequest := mkUploadRequest {
  urMethod : bytes; urURL : bytes; urHeader : gmap bytes bytes; urExpires : time }.

(** ** Times *)

(** [time.Time.Unix] and [time.Unix(sec, 0)], whose count of seconds since the year 1
    is an int64. *)
Definition Unix (t : time) : Z := t / Second.
Definition unixToInternal : Z := 62135596800.
Definition timeUnix (sec : Z) : time := (wrap_int64 (sec + unixToInternal) - unixToInternal) * Second.

(** [Time.Sub], which saturates. *)
Definition Sub (a b : time) : duration := Z.max min_int64 (Z.min max_int64 (a - b)).

(** ** The signer *)

Inductive signError := ErrExpired | ErrSignature.

Record Config := mkConfig { cBase : bytes; cSecret : bytes; cPublicPrefix : bytes; cScope : bytes }.
Record Signer := mkSigner { base : bytes; path : bytes; secret : bytes; public : bytes; scope : bytes }.

Definition MinSecretBytes : Z := 32.

Inductive newError := BadBase (p : urlProblem) | ShortSecret (n : Z) | BadPublicPrefix (e : serror).

(** What the request's context is under [context.WithTimeout]: the parent's end or the
    deadline, whichever is seen first, and it does not change then. *)
Fixpoint WithDeadline (parent : context) (at_ : nat -> time) (deadline : time) (k : nat) : option ctxerr :=
  let fresh := match parent k with
               | Some e => Some e
               | None => if deadline <=? at_ k then Some CtxDeadline else None
               end in
  match k with
  | O => fresh
  | S k' => match WithDeadline parent at_ deadline k' with Some e => Some e | None => fresh end
  end.

(** The parts of a message, each with its length. *)
Definition framed (part : bytes) : bytes := itoa (Z.of_nat (length part)) ++ ":"%char :: part.
Definition message (parts : list bytes) : bytes := concat (map framed parts).

Definition readKind : bytes := &"gombit-storage-url-v2".
Definition uploadKind : bytes := &"gombit-storage-upload-v1".

(** The names of the settings. *)
Definition q_expires : bytes := &"expires".
Definition q_signature : bytes := &"signature".
Definition q_size : bytes := &"size".
Definition q_type : bytes := &"type".
Definition q_meta : bytes := &"meta".

(** [len(q[name])] *)
Definition count (q : gmap bytes (list bytes)) (name : bytes) : Z := Z.of_nat (length (q !!! name)).

(** A verified upload. *)
Record grant := mkGrant {
  g_size : Z; g_contentType : bytes; g_metadata : gmap bytes bytes; g_expires : time }.

(** [storage.ValidateUploadURLOptions] *)
Section Options.
Variable parseMediaType : bytes -> option bytes.
Variable encodedLen : bytes -> Z.

Definition ValidateUploadURLOptions (opts : UploadURLOptions) : option serror :=
  match ValidateURLOptions (SignedURL (uoExpires opts)) with
  | Some e => Some e
  | None =>
      if uoSize opts <? 0 then Some (Because ErrInvalidOptions (NegativeSize (uoSize opts)))
      else ValidatePutOptions parseMediaType encodedLen (mkPutOptions (uoContentType opts) None (uoMetadata opts) false)
  end.
End Options.

Section Signer.
Variable hmac : bytes -> bytes -> bytes.

(** [mac] *)
Definition mac (s : Signer) (kind key : bytes) (parts : list bytes) : bytes :=
  b64encode (hmac (secret s) (message ([kind; scope s; path s; key] ++ parts))).

Definition sign (s : Signer) (key expires : bytes) : bytes := mac s readKind key [expires].

Definition expiry (now : time) (ttl : duration) : Z := wrap_int64 (Unix now + Z.quot ttl Second).

(** [Signer.URL] *)
Definition signerURL (s : Signer) (key : bytes) (opts : URLOptions) (now : time) : result serror bytes :=
  match ValidateKey key with
  | Some e => Err e
  | None =>
      match ValidateURLOptions opts with
      | Some e => Err e
      | None =>
          let u := base s ++ slash :: EscapeKey key in
          if negb (Signed opts) then
            if negb (IsPublic (public s) key) then Err (Sentinel ErrNotPublic) else Ok u
          else
            let e := itoa (expiry now (Expires opts)) in
            Ok (u ++ &"?expires=" ++ e ++ &"&signature=" ++ sign s key e)
      end
  end.

(** [Signer.Verify]; [None] is nil. *)
Definition Verify (s : Signer) (key : bytes) (q : gmap bytes (list bytes)) (now : time) : option signError :=
  if bool_decide (q !! q_signature = None) && bool_decide (q !! q_expires = None) && IsPublic (public s) key then None
  else
    let e := Get q q_expires in
    let sig := Get q q_signature in
    if negb (count q q_expires =? 1) || negb (count q q_signature =? 1) then Some ErrSignature
    else match ParseInt e with
    | None => Some ErrSignature
    | Some expires =>
        if expires <=? 0 then Some ErrSignature
        else if negb (beqb sig (sign s key e)) then Some ErrSignature
        else if negb (Before now (timeUnix expires)) then Some ErrExpired
        else None
    end.

Section Uploads.
Variable marshal : gmap bytes bytes -> result serror bytes.
Variable unmarshal : bytes -> option (gmap bytes bytes).
Variable parseMediaType : bytes -> option bytes.
Variable encodedLen : bytes -> Z.

Definition encodeMetadata (md : gmap bytes bytes) : result serror bytes :=
  if bool_decide (md = ∅) then Ok []
  else match marshal md with
  | Err e => Err e
  | Ok b => Ok (b64encode b)
  end.

(** The query of an upload URL. *)
Definition uploadQuery (s : Signer) (key e sz contentType meta : bytes) : gmap bytes (list bytes) :=
  let q := <[q_expires := [e]]> (<[q_size := [sz]]> (<[q_type := [contentType]]> ∅)) in
  let q := if beqb meta [] then q else <[q_meta := [meta]]> q in
  <[q_signature := [mac s uploadKind key [e; sz; contentType; meta]]]> q.

(** [Signer.UploadURL] *)
Definition signerUploadURL (s : Signer) (key : bytes) (opts : UploadURLOptions) (now : time) : result serror UploadRequest :=
  match ValidateKey key with
  | Some e => Err e
  | None =>
      match ValidateUploadURLOptions parseMediaType encodedLen opts with
      | Some e => Err e
      | None =>
          let contentType := if beqb (uoContentType opts) [] then DefaultContentType else uoContentType opts in
          match encodeMetadata (uoMetadata opts) with
          | Err e => Err e
          | Ok meta =>
              let expires := expiry now (uoExpires opts) in
              let q := uploadQuery s key (itoa expires) (itoa (uoSize opts)) contentType meta in
              Ok (mkUploadRequest (&"PUT") (base s ++ slash :: EscapeKey key ++ &"?" ++ Encode q)
                    {[ &"Content-Type" := contentType ]} (timeUnix expires))
          end
      end
  end.

(** [Signer.verifyUpload] *)
Definition verifyUpload (s : Signer) (key : bytes) (q : gmap bytes (list bytes)) (now : time) : result signError grant :=
  if existsb (fun name => negb (count q name =? 1)) [q_expires; q_size; q_type; q_signature] then Err ErrSignature
  else if 1 <? count q q_meta then Err ErrSignature
  else
    let e := Get q q_expires in
    let sz := Get q q_size in
    let contentType := Get q q_type in
    let meta := Get q q_meta in
    if negb (beqb (Get q q_signature) (mac s uploadKind key [e; sz; contentType; meta])) then Err ErrSignature
    else match ParseInt e with
    | None => Err ErrSignature
    | Some expires =>
        if negb (Before now (timeUnix expires)) then Err ErrExpired
        else match ParseInt sz with
        | None => Err ErrSignature
        | Some n =>
            if n <? 0 then Err ErrSignature
            else if beqb meta [] then Ok (mkGrant n contentType ∅ (timeUnix expires))
            else match b64decode meta with
            | None => Err ErrSignature
            | Some b =>
                match unmarshal b with
                | None => Err ErrSignature
                | Some md => Ok (mkGrant n contentType md (timeUnix expires))
                end
            end
        end
    end.
End Uploads.
End Signer.

(** [New] *)
Definition New (urlParse : bytes -> result bytes URL) (cfg : Config) : result newError Signer :=
  match Base urlParse (cBase cfg) with
  | Err p => Err (BadBase p)
  | Ok p =>
      if Z.of_nat (length (cSecret cfg)) <? MinSecretBytes then Err (ShortSecret (Z.of_nat (length (cSecret cfg))))
      else match ValidatePublicPrefix (cPublicPrefix cfg) with
      | Some e => Err (BadPublicPrefix e)
      | None => Ok (mkSigner (cBase cfg) p (cSecret cfg) (cPublicPrefix cfg) (cScope cfg))
      end
  end.

(** ** The handler *)

(** What is read of a request; the query and the path are those of [r.URL]. *)
Record Request (R : Type) := mkRequest {
  rMethod : bytes;
  rPath : bytes;
  rRawQuery : bytes;
  rContentType : bytes;
  rContentLength : Z;
  rBody : option R;
  rContext : context }.
Arguments mkRequest {_} _ _ _ _ _ _ _.
Arguments rMethod {_} _.
Arguments rPath {_} _.
Arguments rRawQuery {_} _.
Arguments rContentType {_} _.
Arguments rContentLength {_} _.
Arguments rBody {_} _.
Arguments rContext {_} _.

(** The D10 envelopes the handler writes. *)
Inductive envelope :=
| MethodNotAllowed
| NotFound
| LinkInvalid
| UploadLinkInvalid
| UploadMismatch
| UploadTooLong
| LinkUsed
| StorageError (c : category).

(** An error, an object with its headers, handed to [http.ServeContent], or a stored
    upload with its headers. *)
Inductive response :=
| Refused (header : gmap bytes bytes) (e : envelope)
| Served (header : gmap bytes bytes) (modTime : time) (body : ctxReader bytesReader)
| Stored (header : gmap bytes bytes).

(** [int(math.Max(0, d.Seconds()))] *)
Definition maxAge (d : duration) : Z := Z.max 0 (Z.quot d Second).

Definition presignTimeout : duration := SignedUploadTimeout.

Definition errorHeader : gmap bytes bytes :=
  {[ &"Content-Type" := &"application/json; charset=utf-8"; &"Cache-Control" := &"no-store" ]}.

Definition writeError (e : envelope) : response := Refused errorHeader e.

Section Handler.
Variable hmac : bytes -> bytes -> bytes.
Variable unmarshal : bytes -> option (gmap bytes bytes).
Variable parseMediaType : bytes -> option bytes.
Variable encodedLen : bytes -> Z.
Variable sum256hex : bytes -> bytes.
(** [mime.FormatMediaType("inline", {"filename": name})], empty when it fails. *)
Variable formatInline : bytes -> bytes.
Context {R : Type} `{Reader R}.

(** The headers of an object. *)
Definition objectHeader (s : Signer) (key : bytes) (q : gmap bytes (list bytes)) (info : ObjectInfo) (now : time) : gmap bytes bytes :=
  let h : gmap bytes bytes := {[ &"Content-Type" := oContentType info ]} in
  let h := <[&"X-Content-Type-Options" := &"nosniff"]> h in
  let h := <[&"Content-Security-Policy" := &"default-src 'none'; sandbox"]> h in
  let h := if beqb (oETag info) [] then h else <[&"ETag" := quoted (oETag info)]> h in
  let name := oMetadata info !!! FilenameMetadata in
  let d := formatInline name in
  let h := if beqb name [] || beqb d [] then h else <[&"Content-Disposition" := d]> h in
  if IsPublic (public s) key then <[&"Cache-Control" := &"no-cache"]> h
  else
    let expires := match ParseInt (Get q q_expires) with Some e => e | None => 0 end in
    <[&"Cache-Control" := &"private, max-age=" ++ itoa (maxAge (Sub (timeUnix expires) now))]> h.

(** [serveUpload]: [now1], [now2] and [now3] are the readings of the signer's clock by
    verifyUpload and for the timeout, and the time of the object. *)
Definition serveUpload (fuel : nat) (room : nat -> nat) (r : Request R) (s : Signer) (key : bytes)
    (q : gmap bytes (list bytes)) (at_ : nat -> time) (now1 now2 now3 : time) (st : Store) (k : nat) :
    option (response * Store * nat) :=
  match verifyUpload hmac unmarshal s key q now1 with
  | Err _ => Some (writeError UploadLinkInvalid, st, k)
  | Ok g =>
      if negb (beqb (rContentType r) (g_contentType g)) || negb (rContentLength r =? g_size g)
      then Some (writeError UploadMismatch, st, k)
      else
        let body : bytesReader + R := match rBody r with Some b => inr b | None => inl (NewReader []) end in
        let deadline := Add (at_ k) (Sub (Add (g_expires g) presignTimeout) now2) in
        let ctx := WithDeadline (rContext r) at_ deadline in
        match Put parseMediaType encodedLen sum256hex ctx fuel room key body
                (mkPutOptions (g_contentType g) (Some (g_size g)) (g_metadata g) true) now3 st k with
        | None => None
        | Some (Err err, st, k) =>
            let late := bool_decide (ctx k <> None) && bool_decide (rContext r (S k) = None) in
            Some (if late then writeError UploadTooLong
                  else if Is err ErrExists then writeError LinkUsed
                  else writeError (StorageError (MapError err)), st, S (S k))
        | Some (Ok info, st, k) =>
            let h : gmap bytes bytes := {[ &"Cache-Control" := &"no-store" ]} in
            Some (Stored (if beqb (oETag info) [] then h else <[&"ETag" := quoted (oETag info)]> h), st, k)
        end
  end.

(** [Handler].  An object is served by [http.ServeContent], the branch of a reader that seeks:
    the memory store's readers do.  The plain copy of a reader that does not seek
    (presign.go:341-349) is not modelled. *)
Definition Handler (fuel : nat) (room : nat -> nat) (r : Request R) (s : Signer) (at_ : nat -> time)
    (now1 now2 now3 : time) (st : Store) (k : nat) : option (response * Store * nat) :=
  if negb (beqb (rMethod r) (&"GET")) && negb (beqb (rMethod r) (&"HEAD")) && negb (beqb (rMethod r) (&"PUT"))
  then Some (Refused (<[&"Allow" := &"GET, HEAD, PUT"]> errorHeader) MethodNotAllowed, st, k)
  else match CutPrefix (rPath r) (path s ++ [slash]) with
  | None => Some (writeError NotFound, st, k)
  | Some key =>
      if bool_decide (ValidateKey key <> None) then Some (writeError NotFound, st, k)
      else
        let q := Query (rRawQuery r) in
        if beqb (rMethod r) (&"PUT") then serveUpload fuel room r s key q at_ now1 now2 now3 st k
        else match Verify hmac s key q now1 with
        | Some _ => Some (writeError LinkInvalid, st, k)
        | None =>
            match Open (rContext r) key st k with
            | (Err err, k) => Some (writeError (StorageError (MapError err)), st, k)
            | (Ok (body, info), k) => Some (Served (objectHeader s key q info now2) (oModTime info) body, st, k)
            end
        end
  end.
End Handler.

(** ** The URLs of a store *)

Section StoreURL.
Variable hmac : bytes -> bytes -> bytes.
Variable marshal : gmap bytes bytes -> result serror bytes.
Variable parseMediaType : bytes -> option bytes.
Variable encodedLen : bytes -> Z.

Definition wrapResult {A} (o : op) (key : bytes) (r : result serror A) : result serror A :=
  match r with Ok a => Ok a | Err e => Err (Wrap o key e) end.

Definition StoreURL (ctx : context) (s : option Signer) (key : bytes) (opts : URLOptions) (now : time) (k : nat) :
    result serror bytes * nat :=
  match ValidateKey key with
  | Some e => (Err (Wrap op_url key e), k)
  | None =>
      match ValidateURLOptions opts with
      | Some e => (Err (Wrap op_url key e), k)
      | None =>
          match ctx k with
          | Some e => (Err (Wrap op_url key (ctx_error e)), S k)
          | None =>
              match s with
              | None => (Err (Wrap op_url key (Sentinel ErrUnsupported)), S k)
              | Some s => (wrapResult op_url key (signerURL hmac s key opts now), S k)
              end
          end
      end
  end.

Definition StoreUploadURL (ctx : context) (s : option Signer) (key : bytes) (opts : UploadURLOptions) (now : time) (k : nat) :
    result serror UploadRequest * nat :=
  match ValidateKey key with
  | Some e => (Err (Wrap op_upload_url key e), k)
  | None =>
      match ValidateUploadURLOptions parseMediaType encodedLen opts with
      | Some e => (Err (Wrap op_upload_url key e), k)
      | None =>
          match ctx k with
          | Some e => (Err (Wrap op_upload_url key (ctx_error e)), S k)
          | None =>
              match s with
              | None => (Err (Wrap op_upload_url key (Sentinel ErrUnsupported)), S k)
              | Some s => (wrapResult op_upload_url key (signerUploadURL hmac marshal parseMediaType encodedLen s key opts now), S k)
              end
          end
      end
  end.

(** [storage.UploadURL]: [d] is the store's own method when it is a DirectUploader. *)
Definition UploadURL (d : option (bytes -> UploadURLOptions -> result serror UploadRequest)) (key : bytes) (opts : UploadURLOptions) :
    result serror UploadRequest :=
  match d with
  | Some f => f key opts
  | None =>
      match ValidateKey key with
      | Some e => Err (Wrap op_upload_url key e)
      | None =>
          match ValidateUploadURLOptions parseMediaType encodedLen opts with
          | Some e => Err (Wrap op_upload_url key e)
          | None => Err (Wrap op_upload_url key (Sentinel ErrUnsupported))
          end
      end
  end.
End StoreURL.
