(* ===== verification/PresignFacts.v ===== *)
(** * storage/presign: what a signature allows

    A message is framed in one way only, so a signature is good for exactly one kind,
    scope, path, key and expiry; a made URL works until its expiry; and the handler
    serves and stores nothing else. *)

From stdpp Require Import base tactics numbers list strings gmap sets.
From Stdlib Require Import ZArith Lia Ascii.
From S2P Require Import Prelude GoBytes DotEnv GoText StorageKey StorageOptions StorageStream StorageMemory StorageMemoryFacts StorageClaims StorageUpload Regex GoEncoding UrlBase UpgradeFacts Presign.

Local Open Scope string_scope.
Local Open Scope list_scope.
Local Open Scope gotext_scope.
Local Open Scope Z_scope.

(** ** Framing *)

(** A Go string: its length is an int. *)
Definition goString (b : bytes) : Prop := Z.of_nat (length b) <= max_int64.

Lemma int_small z : 0 <= z <= max_int64 -> 0 <= z < 10 ^ 64.
Proof. assert (max_int64 < 10 ^ 64) by (vm_compute; reflexivity). lia. Qed.

Lemma digits_plain b : forallb digit b = true -> (":"%char ∉ b).
Proof.
  intros Hd Hin. rewrite forallb_forall in Hd. apply list_elem_of_In, Hd in Hin. done.
Qed.

Lemma framed_inj p q r1 r2 : goString p -> goString q -> framed p ++ r1 = framed q ++ r2 -> p = q /\ r1 = r2.
Proof.
  unfold goString, framed. intros Hp Hq. rewrite <- !app_assoc. cbn [app].
  pose proof (int_small _ (conj (Zle_0_nat (length p)) Hp)) as Hp'. pose proof (int_small _ (conj (Zle_0_nat (length q)) Hq)) as Hq'.
  destruct (itoa_digits _ Hp') as (_ & Hdp & _). destruct (itoa_digits _ Hq') as (_ & Hdq & _). intros E.
  pose proof (CutByte_app (itoa (Z.of_nat (length p))) ":"%char (p ++ r1) (digits_plain _ Hdp)) as Cp. rewrite E in Cp.
  rewrite CutByte_app in Cp by (by apply digits_plain). injection Cp as Ei Er.
  apply itoa_inj in Ei; [|done|done]. apply app_inj_1 in Er as [-> ->]; [done|lia].
Qed.

Lemma message_inj : forall a b, Forall goString a -> Forall goString b -> message a = message b -> a = b.
Proof.
  assert (forall p r, framed p ++ r <> []) as Hne.
  { intros p r H. apply (f_equal (fun l => ":"%char ∈ l)) in H. assert (":"%char ∈ @nil ascii) as Hn; [|by apply not_elem_of_nil in Hn].
    rewrite <- H. unfold framed. rewrite !elem_of_app. left. right. left. }
  induction a as [|p a IH]; intros [|q b] Ha Hb; [done| | |].
  - intros H. by destruct (Hne q (message b)).
  - intros H. by destruct (Hne p (message a)).
  - intros H. apply Forall_cons in Ha as [? ?]. apply Forall_cons in Hb as [? ?].
    apply framed_inj in H as [-> H]; [|done|done]. f_equal. by apply IH.
Qed.

(** ** Plain settings *)

Lemma QueryEscape_plain b : forallb queryPlain b = true -> QueryEscape b = b.
Proof.
  unfold QueryEscape. induction b as [|c b IH]; [done|]. cbn [forallb]. intros [Hc Hb]%andb_true_iff. cbn [map concat].
  assert (queryByte c = [c]) as -> by (unfold queryByte; by rewrite Hc). by rewrite IH.
Qed.

Lemma b64_plain b : forallb queryPlain (b64encode b) = true.
Proof.
  apply forallb_forall. intros c Hc. apply list_elem_of_In in Hc.
  pose proof (b64encode_chars b) as H. rewrite Forall_forall in H. specialize (H c Hc).
  assert (Forall (fun c => queryPlain c = true) alphabet) as Ha by (apply (bool_decide_eq_true_1 _); vm_compute; reflexivity).
  rewrite Forall_forall in Ha. auto.
Qed.

Lemma digit_plain c : digit c = true -> queryPlain c = true.
Proof. revert c. apply (every_byte (fun c => digit c = true -> queryPlain c = true)). vm_compute. reflexivity. Qed.

Lemma itoa_plain z : 0 <= z <= max_int64 -> forallb queryPlain (itoa z) = true.
Proof.
  intros Hz. destruct (itoa_digits z (int_small z Hz)) as (_ & Hd & _). revert Hd.
  rewrite !forallb_forall. intros Hd c Hc. by apply digit_plain, Hd.
Qed.

(** ** Times *)

(** The seconds an int64 counts from the year 1 as from 1970. *)
Definition representable (sec : Z) : Prop := 0 <= sec /\ sec + unixToInternal <= max_int64.

Lemma timeUnix_exact sec : representable sec -> timeUnix sec = sec * Second.
Proof.
  intros [? ?]. unfold timeUnix. rewrite wrap_int64_id; [f_equal; lia|].
  unfold in_int64, min_int64, max_int64, unixToInternal in *. lia.
Qed.

Lemma representable_int64 sec : representable sec -> in_int64 sec /\ 0 <= sec <= max_int64.
Proof. unfold representable, in_int64, min_int64, max_int64, unixToInternal. lia. Qed.

(** The second a grant of [ttl] made at [now] ends with. *)
Definition endOf (now : time) (ttl : duration) : Z := Unix now + Z.quot ttl Second.

Lemma expiry_exact now ttl : representable (endOf now ttl) -> expiry now ttl = endOf now ttl.
Proof. intros H. apply wrap_int64_id. by apply representable_int64. Qed.

(** A grant lives for more than its lifetime less a second and at most for its lifetime. *)
Lemma lifetime now ttl : ValidateURLOptions (SignedURL ttl) = None ->
  ttl - Second < endOf now ttl * Second - now <= ttl.
Proof.
  intros H%ValidateURLOptions_None. cbn [Signed Expires SignedURL] in H. destruct H as [H1 [q ->]].
  unfold endOf, Unix, Second in *.
  rewrite Z.quot_mul by lia. pose proof (Z.div_mod now 1000000000). pose proof (Z.mod_pos_bound now 1000000000). lia.
Qed.

(** ** Reading *)

Section Reading.
Variable hmac : bytes -> bytes -> bytes.
Variable unmarshal : bytes -> option (gmap bytes bytes).
Variable parseMediaType : bytes -> option bytes.
Variable encodedLen : bytes -> Z.
Variable sum256hex : bytes -> bytes.
Variable formatInline : bytes -> bytes.
Context {R : Type} {RR : Reader R} {RL : ReaderLaws R}.

Local Abbreviation Handle := (Handler hmac unmarshal parseMediaType encodedLen sum256hex formatInline).

(** The parts a signature covers. *)
Definition covered (s : Signer) (kind key : bytes) (parts : list bytes) : list bytes := [kind; scope s; path s; key] ++ parts.

(** Two messages, both given, with one HMAC. *)
Definition collision (k : bytes) (a b : list bytes) : Prop :=
  message a <> message b /\ hmac k (message a) = hmac k (message b).

(** A signature is good for one message: for another one, it shows a collision. *)
Lemma mac_binds s s' kind kind' key key' parts parts' :
  secret s = secret s' -> Forall goString (covered s kind key parts) -> Forall goString (covered s' kind' key' parts') ->
  mac hmac s kind key parts = mac hmac s' kind' key' parts' ->
  covered s kind key parts = covered s' kind' key' parts' \/
  collision (secret s) (covered s kind key parts) (covered s' kind' key' parts').
Proof.
  intros Hs H1 H2 E. unfold mac in E. apply b64encode_inj in E. rewrite <- Hs in E.
  destruct (decide (message (covered s kind key parts) = message (covered s' kind' key' parts'))) as [Em|Em].
  - left. by apply message_inj.
  - right. by split.
Qed.

Lemma count_one q name : (count q name =? 1) = true -> exists v, q !! name = Some [v] /\ Get q name = v.
Proof.
  unfold count, Get. rewrite lookup_total_alt. intros H%Z.eqb_eq. destruct (q !! name) as [[|v [|? ?]]|]; cbn in H; [lia| |lia|lia].
  by exists v.
Qed.

Lemma one_count q name v : q !! name = Some [v] -> (count q name =? 1) = true /\ Get q name = v.
Proof. unfold count, Get. rewrite lookup_total_alt. by intros ->. Qed.

(** What a request that may read the object carries. *)
Definition readAllowed (s : Signer) (key : bytes) (q : gmap bytes (list bytes)) (now : time) : Prop :=
  (IsPublic (public s) key = true /\ q !! q_signature = None /\ q !! q_expires = None) \/
  exists e x, q !! q_expires = Some [e] /\ q !! q_signature = Some [sign hmac s key e] /\
    ParseInt e = Some x /\ 0 < x /\ now < timeUnix x.

Lemma Verify_None s key q now : Verify hmac s key q now = None <-> readAllowed s key q now.
Proof.
  unfold Verify, readAllowed. split.
  - destruct (bool_decide (q !! q_signature = None) && bool_decide (q !! q_expires = None) && IsPublic (public s) key) eqn:Ep.
    { apply andb_true_iff in Ep as [[H1%bool_decide_eq_true H2%bool_decide_eq_true]%andb_true_iff H3]. by left. }
    destruct (count q q_expires =? 1) eqn:C1; cbn [negb orb]; [|done].
    destruct (count q q_signature =? 1) eqn:C2; cbn [negb]; [|done].
    apply count_one in C1 as (e & He & ->). apply count_one in C2 as (sig & Hsig & ->).
    destruct (ParseInt e) as [x|] eqn:Ex; [|done]. destruct (Z.leb_spec x 0); [done|].
    destruct (beqb sig (sign hmac s key e)) eqn:Eb; cbn [negb]; [|done]. apply beqb_true in Eb as ->.
    destruct (Before now (timeUnix x)) eqn:Et; cbn [negb]; [|done]. apply Before_true in Et. intros _. right. by exists e, x.
  - intros [(H1 & H2 & H3)|(e & x & H1 & H2 & H3 & H4 & H5)].
    + by rewrite H1, H2, H3.
    + rewrite (bool_decide_eq_false_2 (q !! q_signature = None)) by (rewrite H2; done). cbn [andb].
      destruct (one_count q _ _ H1) as [-> ->]. destruct (one_count q _ _ H2) as [-> ->]. cbn [negb orb].
      rewrite H3, (proj2 (Z.leb_gt _ _)) by done. rewrite beqb_refl. cbn [negb]. by rewrite (proj2 (Before_true _ _)).
Qed.

(** C5. The handler of signed URLs serves an object only to a GET or a HEAD of its path,
    without changing the store, and only when the object is public and the request carries
    no part of a signature, or the request carries, once each, an expiry that has not passed
    and the signer's signature of exactly that key and expiry. A signature made with the
    same secret for another kind of message, scope, path, key or expiry would be an HMAC
    collision between the two given messages. *)
Theorem served_only_if_signed fuel room (r : Request R) s at_ now1 now2 now3 st k h modTime body st' k' :
  Handle fuel room r s at_ now1 now2 now3 st k = Some (Served h modTime body, st', k') ->
  (rMethod r = &"GET" \/ rMethod r = &"HEAD") /\ st' = st /\
  exists key o, rPath r = path s ++ slash :: key /\ st !! key = Some o /\
    body = ContextReader (rContext r) (NewReader (odata o)) /\ h !! &"Content-Type" = Some (oContentType (oinfo o)) /\
    readAllowed s key (Query (rRawQuery r)) now1 /\
    forall e sig s' kind' key' parts',
      Query (rRawQuery r) !! q_expires = Some [e] -> Query (rRawQuery r) !! q_signature = Some [sig] ->
      secret s' = secret s -> sig = mac hmac s' kind' key' parts' ->
      Forall goString (covered s readKind key [e]) -> Forall goString (covered s' kind' key' parts') ->
      (kind' = readKind /\ scope s' = scope s /\ path s' = path s /\ key' = key /\ parts' = [e]) \/
      collision (secret s) (covered s readKind key [e]) (covered s' kind' key' parts').
Proof.
  unfold Handler. destruct (negb _ && negb _ && negb _) eqn:Em; [done|]. destruct (CutPrefix _ _) as [key|] eqn:Ec; [|done].
  case_bool_decide as Hk; [done|]. destruct (beqb (rMethod r) (&"PUT")) eqn:Eput.
  { unfold serveUpload. repeat (case_match; simplify_eq; try done); intros H'; repeat (case_match; simplify_eq). }
  destruct (Verify hmac s key _ now1) eqn:Ev; [done|]. unfold Open, get.
  destruct (ValidateKey key); [done|]. destruct (rContext r k); [done|]. destruct (st !! key) as [o|] eqn:Eo; [|done].
  intros [= <- <- <- <- <-]. split.
  { destruct (beqb (rMethod r) (&"GET")) eqn:E1; [left; by apply beqb_true|]. destruct (beqb (rMethod r) (&"HEAD")) eqn:E2; [right; by apply beqb_true|].
    done. }
  split; [done|]. apply strip_prefix_Some in Ec. apply Verify_None in Ev. exists key, o. split_and!; [|done|done| |done|].
  - rewrite Ec, <- app_assoc. done.
  - unfold objectHeader. repeat case_match; by simplify_map_eq.
  - intros e sig s' kind' key' parts' He Hsig Hs Hmac H1 H2.
    destruct Ev as [(_ & Hn & _)|(e' & x & He' & Hs' & _)]; [congruence|].
    assert (e' = e) as -> by congruence. assert (sig = sign hmac s key e) as E by congruence. rewrite Hmac in E.
    destruct (mac_binds s s' readKind kind' key key' [e] parts' (eq_sym Hs) H1 H2 (eq_sym E)) as [Heq|Hc]; [left|by right].
    unfold covered in Heq. cbn [app] in Heq. by injection Heq as <- <- <- <- <-.
Qed.

(** The query a signed URL carries. *)
Definition readQuery (e sig : bytes) : gmap bytes (list bytes) := <[q_signature := [sig]]> (<[q_expires := [e]]> ∅).

Lemma readQuery_parsed e sig : forallb queryPlain e = true -> forallb queryPlain sig = true ->
  Query (&"expires=" ++ e ++ &"&signature=" ++ sig) = readQuery e sig.
Proof.
  intros He Hs. pose proof (Query_join [(q_expires, e); (q_signature, sig)]) as Hq. cbn [map Join] in Hq. unfold setting in Hq.
  cbn [fst snd] in Hq. rewrite (QueryEscape_plain e), (QueryEscape_plain sig) in Hq by done.
  assert (QueryEscape q_expires = q_expires /\ QueryEscape q_signature = q_signature) as [E1 E2] by (by vm_compute).
  rewrite E1, E2 in Hq. rewrite <- !app_assoc in Hq.
  change (&"expires=") with (q_expires ++ &"="). change (&"&signature=") with (&"&" ++ q_signature ++ &"=").
  rewrite <- !app_assoc. etransitivity; [exact Hq|]. cbn [fold_left]. unfold addValue, readQuery. cbn [fst snd].
  rewrite lookup_total_empty, lookup_total_insert_ne by done. by rewrite lookup_total_empty.
Qed.

Lemma readQuery_verify s key x now : representable x -> 0 < x ->
  Verify hmac s key (readQuery (itoa x) (sign hmac s key (itoa x))) now =
  if Before now (x * Second) then None else Some ErrExpired.
Proof.
  intros Hx Hpos. destruct (representable_int64 x Hx) as [Hi _].
  pose proof (ParseInt_itoa x Hi) as Hp. generalize dependent (itoa x). intros e Hp.
  assert (readQuery e (sign hmac s key e) !! q_expires = Some [e]) as H1.
  { unfold readQuery. by rewrite lookup_insert_ne, lookup_insert_eq by done. }
  assert (readQuery e (sign hmac s key e) !! q_signature = Some [sign hmac s key e]) as H2.
  { unfold readQuery. by rewrite lookup_insert_eq. }
  unfold Verify. rewrite (bool_decide_eq_false_2 (_ !! q_signature = None)) by (rewrite H2; done). cbn [andb].
  destruct (one_count _ _ _ H1) as [-> ->]. destruct (one_count _ _ _ H2) as [-> ->]. cbn [negb orb].
  rewrite Hp, (proj2 (Z.leb_gt _ _)) by done. rewrite beqb_refl. cbn [negb]. rewrite timeUnix_exact by done.
  by destruct (Before now (x * Second)).
Qed.

(** A signed URL is the base, the escaped key and a query; the query, read back, opens that
    key at every moment before one instant and is refused as expired from then on. The
    instant is more than the lifetime less a second, and at most the lifetime, after the
    signing. The handler serves the stored object to a GET with that path and query before
    the instant and refuses it afterwards. *)
Theorem signed_url_lives s key ttl now u :
  signerURL hmac s key (SignedURL ttl) now = Ok u -> 0 <= now -> representable (endOf now ttl) ->
  exists raw last, u = base s ++ slash :: EscapeKey key ++ &"?" ++ raw /\
    ttl - Second < last - now <= ttl /\
    (forall t, Verify hmac s key (Query raw) t = if Before t last then None else Some ErrExpired) /\
    forall fuel room (r : Request R) at_ t t2 t3 st k o,
      rMethod r = &"GET" -> rPath r = path s ++ slash :: key -> rRawQuery r = raw ->
      rContext r k = None -> st !! key = Some o ->
      Handle fuel room r s at_ t t2 t3 st k =
      if Before t last
      then Some (Served (objectHeader formatInline s key (Query raw) (oinfo o) t2) (oModTime (oinfo o))
                   (ContextReader (rContext r) (NewReader (odata o))), st, S k)
      else Some (writeError LinkInvalid, st, k).
Proof.
  unfold signerURL. destruct (ValidateKey key) eqn:Ek; [done|]. destruct (ValidateURLOptions _) eqn:Eo; [done|].
  cbn [negb Signed SignedURL Expires]. intros Hu Hnow Hrep. rewrite (expiry_exact _ _ Hrep) in Hu.
  pose proof (lifetime now ttl Eo) as Hlife.
  assert (0 < endOf now ttl) as Hpos.
  { apply ValidateURLOptions_None in Eo. cbn [Signed Expires SignedURL] in Eo. unfold Second in *. lia. }
  destruct (representable_int64 _ Hrep) as [_ Hz]. pose proof (itoa_plain _ Hz) as Hplain.
  pose proof (fun t => readQuery_verify s key _ t Hrep Hpos) as Hv.
  generalize dependent (itoa (endOf now ttl)). intros e Hu Hplain Hv.
  pose proof (readQuery_parsed e (sign hmac s key e) Hplain (b64_plain _)) as Hq.
  exists (&"expires=" ++ e ++ &"&signature=" ++ sign hmac s key e), (endOf now ttl * Second).
  rewrite Hq. split_and!; [| | |exact Hv|]; [|lia|lia|].
  - injection Hu as <-. rewrite <- app_assoc. done.
  - intros fuel room r at_ t t2 t3 st k o Hm Hp Hr Hctx Hst.
    unfold Handler. rewrite Hm, Hp, Hr. unfold CutPrefix.
    rewrite (proj2 (strip_prefix_Some (path s ++ [slash]) _ key)) by (by rewrite <- app_assoc).
    rewrite Ek, bool_decide_eq_false_2 by (by intros H).
    assert (beqb (&"GET") (&"GET") = true /\ beqb (&"GET") (&"PUT") = false) as [-> ->] by (by vm_compute). cbn [negb andb].
    rewrite Hq, Hv. destruct (Before t _); [|done]. unfold Open, get. by rewrite Ek, Hctx, Hst.
Qed.

(** ** Uploads *)

(** What an upload of [g] carries. *)
Definition uploadAllowed (s : Signer) (key : bytes) (q : gmap bytes (list bytes)) (now : time) (g : grant) : Prop :=
  exists e sz x, let meta := Get q q_meta in
    q !! q_expires = Some [e] /\ q !! q_size = Some [sz] /\ q !! q_type = Some [g_contentType g] /\
    q !! q_signature = Some [mac hmac s uploadKind key [e; sz; g_contentType g; meta]] /\ count q q_meta <= 1 /\
    ParseInt e = Some x /\ g_expires g = timeUnix x /\ now < g_expires g /\
    ParseInt sz = Some (g_size g) /\ 0 <= g_size g /\
    (meta = [] /\ g_metadata g = ∅ \/
     meta <> [] /\ exists b, b64decode meta = Some b /\ unmarshal b = Some (g_metadata g)).

Lemma verifyUpload_Ok s key q now g : verifyUpload hmac unmarshal s key q now = Ok g <-> uploadAllowed s key q now g.
Proof.
  unfold verifyUpload, uploadAllowed. cbn [existsb]. split.
  - destruct (count q q_expires =? 1) eqn:C1; [|done]. destruct (count q q_size =? 1) eqn:C2; [|done].
    destruct (count q q_type =? 1) eqn:C3; [|done]. destruct (count q q_signature =? 1) eqn:C4; [|done]. cbn [negb orb].
    apply count_one in C1 as (e & He & ->). apply count_one in C2 as (sz & Hsz & ->).
    apply count_one in C3 as (ct & Hct & ->). apply count_one in C4 as (sig & Hsig & ->).
    destruct (Z.ltb_spec 1 (count q q_meta)); [done|]. destruct (beqb sig _) eqn:Eb; cbn [negb]; [|done]. apply beqb_true in Eb as ->.
    destruct (ParseInt e) as [x|] eqn:Ex; [|done]. destruct (Before now _) eqn:Et; cbn [negb]; [|done]. apply Before_true in Et.
    destruct (ParseInt sz) as [n|] eqn:En; [|done]. destruct (Z.ltb_spec n 0); [done|].
    destruct (beqb (Get q q_meta) []) eqn:Em.
    + apply beqb_true in Em. intros [= <-]. exists e, sz, x. cbn. split_and!; try done. by left.
    + apply beqb_false in Em. destruct (b64decode _) as [b|] eqn:Ed; [|done]. destruct (unmarshal b) as [md|] eqn:Eu; [|done].
      intros [= <-]. exists e, sz, x. cbn. split_and!; try done. right. split; [done|]. by exists b.
  - intros (e & sz & x & He & Hsz & Hct & Hsig & Hm & Hx & Hg & Ht & Hn & Hpos & Hmd). cbn zeta in Hsig.
    destruct (one_count q _ _ He) as [-> ->]. destruct (one_count q _ _ Hsz) as [-> ->].
    destruct (one_count q _ _ Hct) as [-> ->]. destruct (one_count q _ _ Hsig) as [-> ->]. cbn [negb orb].
    rewrite (proj2 (Z.ltb_ge _ _)) by done. rewrite beqb_refl. cbn [negb]. rewrite Hx, <- Hg, (proj2 (Before_true _ _) Ht). cbn [negb].
    rewrite Hn, (proj2 (Z.ltb_ge _ _)) by done. destruct g as [gn gc gm ge]. cbn in *. destruct Hmd as [[-> ->]|(Hne & b & -> & ->)].
    + by rewrite beqb_refl.
    + by rewrite (proj2 (beqb_false _ _) Hne).
Qed.

(** An object is prepared only when the context's last answer was that it is alive. *)
Lemma prepare_live {R'} `{Reader R'} c fuel room key (b : R') opts now k o k' :
  prepare parseMediaType encodedLen sum256hex c fuel room key b opts now k = Some (Ok o, k') -> c (pred k') = None.
Proof.
  unfold prepare. destruct (ValidateKey key); [done|]. destruct (ValidatePutOptions _ _ _); [done|].
  destruct (c k); [done|]. destruct (ReadFrom _ _ _ _ _ _) as [[[data err] k1]|]; [|done]. destruct err; [done|].
  destruct (c k1) eqn:E; [done|]. by intros [= <- <-].
Qed.

Lemma Put_live {R'} `{Reader R'} c fuel room key (b : R') opts now st k info st' k' :
  Put parseMediaType encodedLen sum256hex c fuel room key b opts now st k = Some (Ok info, st', k') -> c (pred k') = None.
Proof.
  unfold Put. destruct (prepare _ _ _ _ _ _ _ _ _ _ _) as [[[o|e] k1]|] eqn:E; [|done|done].
  intros [= _ <-]. by eapply prepare_live.
Qed.

Lemma WithDeadline_alive parent at_ d k : WithDeadline parent at_ d k = None -> parent k = None /\ at_ k < d.
Proof.
  assert (match parent k with Some e => Some e | None => if d <=? at_ k then Some CtxDeadline else None end = None -> parent k = None /\ at_ k < d) as Hf.
  { destruct (parent k); [done|]. destruct (Z.leb_spec d (at_ k)); done. }
  destruct k as [|k]; cbn [WithDeadline]; [done|]. by destruct (WithDeadline parent at_ d k).
Qed.

Definition bodyBytes (r : Request R) : bytes := match rBody r with Some b => pending b | None => [] end.

(** The options an upload of [g] is stored with. *)
Definition grantOptions (g : grant) : PutOptions := mkPutOptions (g_contentType g) (Some (g_size g)) (g_metadata g) true.

(** What the handler did when it stored an upload. *)
Definition storedUpload (r : Request R) (s : Signer) (at_ : nat -> time) (now1 now2 now3 : time) (st st' : Store) (k k' : nat) : Prop :=
  exists key g, rMethod r = &"PUT" /\ rPath r = path s ++ slash :: key /\ st !! key = None /\
    uploadAllowed s key (Query (rRawQuery r)) now1 g /\
    rContentType r = g_contentType g /\ rContentLength r = g_size g /\ Z.of_nat (length (bodyBytes r)) = g_size g /\
    st' = <[key := mkObject (bodyBytes r) (stored_info sum256hex key (bodyBytes r) (grantOptions g) now3)]> st /\
    at_ (pred k') < Add (at_ k) (Sub (Add (g_expires g) presignTimeout) now2) /\
    forall s' kind' key' parts', secret s' = secret s ->
      Get (Query (rRawQuery r)) q_signature = mac hmac s' kind' key' parts' ->
      let parts := [Get (Query (rRawQuery r)) q_expires; Get (Query (rRawQuery r)) q_size; g_contentType g; Get (Query (rRawQuery r)) q_meta] in
      Forall goString (covered s uploadKind key parts) -> Forall goString (covered s' kind' key' parts') ->
      covered s uploadKind key parts = covered s' kind' key' parts' \/
      collision (secret s) (covered s uploadKind key parts) (covered s' kind' key' parts').

(** C10. Every request to the handler of signed URLs returns. It leaves the store as it was,
    or it is a PUT that stores one object under a key that held none, so no object is ever
    replaced or removed. It stores only with an unexpired upload signature made for that
    key, with the signed content type, of exactly the signed length and with the signed
    metadata, and no later than the timeout after the grant's end; a signature made for
    anything else would be an HMAC collision. *)
Theorem uploads_store_once fuel room (r : Request R) s at_ now1 now2 now3 st k :
  (forall b, rBody r = Some b -> rvalid b) -> (forall j, (0 < room j)%nat) -> (length (bodyBytes r) < fuel)%nat ->
  exists resp st' k', Handle fuel room r s at_ now1 now2 now3 st k = Some (resp, st', k') /\ st ⊆ st' /\
    ((st' = st /\ forall h, resp <> Stored h) \/
     (exists h, resp = Stored h) /\ storedUpload r s at_ now1 now2 now3 st st' k k').
Proof.
  intros Hv Hroom Hfuel.
  assert (forall resp k', (forall h, resp <> Stored h) -> exists resp' st' k'', Some (resp, st, k') = Some (resp', st', k'') /\ st ⊆ st' /\
    ((st' = st /\ forall h, resp' <> Stored h) \/ (exists h, resp' = Stored h) /\ storedUpload r s at_ now1 now2 now3 st st' k k'')) as Same.
  { intros resp k' H. exists resp, st, k'. split_and!; [done|done|]. by left. }
  unfold Handler. destruct (negb _ && negb _ && negb _) eqn:Em; [by apply Same|]. destruct (CutPrefix _ _) as [key|] eqn:Ec; [|by apply Same].
  case_bool_decide as Hk; [by apply Same|]. apply strip_prefix_Some in Ec.
  destruct (beqb (rMethod r) (&"PUT")) eqn:Eput; cycle 1.
  { destruct (Verify _ _ _ _ _); [by apply Same|]. destruct (Open _ _ _ _) as [[[body info]|e] k1]; by apply Same. }
  apply beqb_true in Eput. unfold serveUpload.
  destruct (verifyUpload _ _ _ _ _ _) as [g|] eqn:Eg; [|by apply Same]. apply verifyUpload_Ok in Eg.
  destruct (beqb (rContentType r) (g_contentType g)) eqn:E1; cbn [negb orb]; [|by apply Same]. apply beqb_true in E1.
  destruct (Z.eqb_spec (rContentLength r) (g_size g)) as [E2|]; cbn [negb]; [|by apply Same].
  set (body := match rBody r with Some b => inr b | None => inl (NewReader []) end : bytesReader + R).
  assert (pending body = bodyBytes r) as Hpend by (unfold body, bodyBytes; by destruct (rBody r)).
  assert (rvalid body) as Hval by (unfold body; destruct (rBody r) eqn:Eb; cbn; auto).
  set (c := WithDeadline _ _ _).
  destruct (Put_spec parseMediaType encodedLen sum256hex c fuel room key body (grantOptions g) now3 st k Hval Hroom) as (res & st' & k' & HP & Hres).
  { by rewrite Hpend. }
  fold (grantOptions g). rewrite HP. destruct res as [info|err].
  - destruct Hres as ((_ & _ & _ & Hsz & Habs) & -> & ->). rewrite Hpend in *. specialize (Habs eq_refl). specialize (Hsz _ eq_refl).
    apply Put_live, WithDeadline_alive in HP as [_ Hlive].
    do 3 eexists. split; [done|]. split; [by apply insert_subseteq|]. right. split; [by eexists|].
    exists key, g. split_and!; try done; [by rewrite Ec, <- app_assoc|].
    intros s' kind' key' parts' Hs Hmac parts H1 H2. apply mac_binds; [done..|]. rewrite <- Hmac.
    destruct Eg as (e & sz & x & He & Hz & _ & Hsig & _). unfold parts.
    rewrite (proj2 (one_count _ _ _ He)), (proj2 (one_count _ _ _ Hz)). by rewrite (proj2 (one_count _ _ _ Hsig)).
  - destruct Hres as [-> _]. apply Same. intros h. by repeat case_match.
Qed.

(** ** Grants *)

Lemma WithDeadline_None parent at_ d k :
  (forall j, parent j = None) -> (forall j, at_ j < d) -> WithDeadline parent at_ d k = None.
Proof.
  intros Hp Ht. induction k as [|k IH]; cbn [WithDeadline]; [|rewrite IH]; rewrite Hp, (proj2 (Z.leb_gt _ _)) by done; done.
Qed.

(** A source that ends and is not cut is not why a copy of its length fails. *)
Lemma copy_succeeds {R'} `{ReaderLaws R'} c (b : R') n e :
  (forall j, c j = None) -> (forall e, ~ cut b e) -> final b = Sentinel EOF -> Z.of_nat (length (pending b)) = n ->
  ~ copy_failure c b (Some n) e.
Proof.
  intros Hc Hcut Hf Hn [(i & d & Hd & _)|[Hx|[[-> Hx]|(m & [= <-] & Hm & _)]]]; [by rewrite Hc in Hd|by eapply Hcut|done|done].
Qed.

Lemma uploadQuery_parsed s key e sz ct meta : Query (Encode (uploadQuery hmac s key e sz ct meta)) = uploadQuery hmac s key e sz ct meta.
Proof.
  apply Query_Encode. intros k l. unfold uploadQuery. destruct (beqb meta []);
    rewrite !lookup_insert_Some, lookup_empty; naive_solver.
Qed.

Lemma uploadQuery_allowed s key x n ct meta md now :
  in_int64 x -> in_int64 n -> 0 <= n -> now < timeUnix x ->
  (meta = [] /\ md = ∅ \/ meta <> [] /\ exists b, b64decode meta = Some b /\ unmarshal b = Some md) ->
  uploadAllowed s key (uploadQuery hmac s key (itoa x) (itoa n) ct meta) now (mkGrant n ct md (timeUnix x)).
Proof.
  intros Hx Hn Hpos Ht Hmd. pose proof (ParseInt_itoa x Hx) as Px. pose proof (ParseInt_itoa n Hn) as Pn.
  generalize dependent (itoa x). generalize dependent (itoa n). intros sz Pn e Px. unfold uploadAllowed.
  exists e, sz, x. cbn [g_contentType g_expires g_size g_metadata].
  set (q := uploadQuery hmac s key e sz ct meta).
  assert (Get q q_meta = meta /\ count q q_meta <= 1) as [-> ?].
  { unfold q, uploadQuery, Get, count. rewrite lookup_total_insert_ne by done.
    destruct (beqb meta []) eqn:E; [apply beqb_true in E as ->|].
    - rewrite !lookup_total_insert_ne, lookup_total_empty by done. done.
    - by rewrite lookup_total_insert_eq. }
  split_and!; try done; unfold q, uploadQuery; destruct (beqb meta []);
    repeat (rewrite lookup_insert_eq || rewrite lookup_insert_ne by done); done.
Qed.

Lemma uploadQuery_expired s key x sz ct meta now :
  in_int64 x -> timeUnix x <= now ->
  verifyUpload hmac unmarshal s key (uploadQuery hmac s key (itoa x) sz ct meta) now = Err ErrExpired.
Proof.
  intros Hx Ht. pose proof (ParseInt_itoa x Hx) as Px. generalize dependent (itoa x). intros e Px.
  set (q := uploadQuery hmac s key e sz ct meta).
  assert (Get q q_meta = meta /\ (1 <? count q q_meta) = false) as [Em Ec].
  { unfold q, uploadQuery, Get, count. rewrite lookup_total_insert_ne by done.
    destruct (beqb meta []) eqn:E; [apply beqb_true in E as ->|].
    - by rewrite !lookup_total_insert_ne, lookup_total_empty by done.
    - by rewrite lookup_total_insert_eq. }
  assert (q !! q_expires = Some [e] /\ q !! q_size = Some [sz] /\ q !! q_type = Some [ct] /\
    q !! q_signature = Some [mac hmac s uploadKind key [e; sz; ct; meta]]) as (H1 & H2 & H3 & H4).
  { split_and!; unfold q, uploadQuery; destruct (beqb meta []);
      repeat (rewrite lookup_insert_eq || rewrite lookup_insert_ne by done); done. }
  unfold verifyUpload. cbn [existsb]. destruct (one_count q _ _ H1) as [-> ->]. destruct (one_count q _ _ H2) as [-> ->].
  destruct (one_count q _ _ H3) as [-> ->]. destruct (one_count q _ _ H4) as [-> ->]. cbn [negb orb].
  rewrite Ec, Em, beqb_refl. cbn [negb]. by rewrite Px, (proj2 (Before_false _ _) Ht).
Qed.

(** A request that does what an upload grant says. *)
Definition uploadRequest (s : Signer) (key raw ct : bytes) (r : Request R) (b : R) : Prop :=
  rMethod r = &"PUT" /\ rPath r = path s ++ slash :: key /\ rRawQuery r = raw /\ rContentType r = ct /\ rBody r = Some b /\
  rContentLength r = Z.of_nat (length (pending b)) /\ rvalid b /\ final b = Sentinel EOF /\ (forall e, ~ cut b e) /\
  forall j, rContext r j = None.

Lemma serve_granted fuel room (r : Request R) b s key raw ct g at_ t t2 t3 st k :
  uploadRequest s key raw ct r b -> ValidateKey key = None -> uploadAllowed s key (Query raw) t g ->
  ct = g_contentType g -> Z.of_nat (length (pending b)) = g_size g ->
  ValidatePutOptions parseMediaType encodedLen (grantOptions g) = None ->
  (forall j, (0 < room j)%nat) -> (length (pending b) < fuel)%nat ->
  (forall j, at_ j < Add (at_ k) (Sub (Add (g_expires g) presignTimeout) t2)) -> st !! key = None ->
  exists h k', Handle fuel room r s at_ t t2 t3 st k =
    Some (Stored h, <[key := mkObject (pending b) (stored_info sum256hex key (pending b) (grantOptions g) t3)]> st, k').
Proof.
  intros (Hm & Hp & Hr & Hct & Hb & Hl & Hv & Hf & Hcut & Hctx) Hk Hg -> Hsz Hopts Hroom Hfuel Hat Hst.
  unfold Handler. rewrite Hm, Hp, Hr. unfold CutPrefix.
  rewrite (proj2 (strip_prefix_Some (path s ++ [slash]) _ key)) by (by rewrite <- app_assoc).
  rewrite Hk, bool_decide_eq_false_2 by (by intros ?).
  assert (beqb (&"PUT") (&"GET") = false /\ beqb (&"PUT") (&"HEAD") = false /\ beqb (&"PUT") (&"PUT") = true) as (-> & -> & ->)
    by (by vm_compute).
  cbn [negb andb]. unfold serveUpload. rewrite (proj2 (verifyUpload_Ok _ _ _ _ _) Hg), Hct, beqb_refl, Hl, Hsz, Z.eqb_refl. cbn [negb orb].
  rewrite Hb. set (c := WithDeadline _ _ _). fold (grantOptions g).
  destruct (Put_spec parseMediaType encodedLen sum256hex c fuel room key (inr b : bytesReader + R) (grantOptions g) t3 st k)
    as (res & st' & k' & -> & Hres); [exact Hv|exact Hroom|exact Hfuel|].
  destruct res as [info|err].
  - destruct Hres as (_ & -> & ->). eauto.
  - destruct Hres as [_ Hres]. destruct Hres as (e & _ & He).
    + unfold put_allowed. split_and!; [by apply ValidateKey_None|done|by cbn; rewrite Hf|by intros n [= <-]|done].
    + exfalso. revert He. apply copy_succeeds; [|exact Hcut|exact Hf|exact Hsz]. intros j. by apply WithDeadline_None.
Qed.

(** C35. An upload grant works: a PUT to its path and query with the granted content type
    and a body of the granted length, made before the grant ends and within the timeout,
    stores under a free key exactly the body, with the content type and metadata the grant
    was asked for; from its end on the grant is refused as expired. JSON is assumed to read
    back the metadata it wrote, and the default media type to be one. *)
Theorem upload_grant_accepted marshal s key opts now u :
  signerUploadURL hmac marshal parseMediaType encodedLen s key opts now = Ok u ->
  (forall b, marshal (uoMetadata opts) = Ok b -> b <> [] /\ unmarshal b = Some (uoMetadata opts)) ->
  parseMediaType DefaultContentType = Some DefaultContentType ->
  in_int64 (uoSize opts) -> representable (endOf now (uoExpires opts)) ->
  exists raw ct, urMethod u = &"PUT" /\ urURL u = base s ++ slash :: EscapeKey key ++ &"?" ++ raw /\
    urHeader u !! &"Content-Type" = Some ct /\ uoExpires opts - Second < urExpires u - now <= uoExpires opts /\
    (forall t, urExpires u <= t -> verifyUpload hmac unmarshal s key (Query raw) t = Err ErrExpired) /\
    forall fuel room (r : Request R) b at_ t t2 t3 st k,
      uploadRequest s key raw ct r b -> Z.of_nat (length (pending b)) = uoSize opts -> t < urExpires u ->
      (forall j, (0 < room j)%nat) -> (length (pending b) < fuel)%nat ->
      (forall j, at_ j < Add (at_ k) (Sub (Add (urExpires u) presignTimeout) t2)) -> st !! key = None ->
      exists h k' info, Handle fuel room r s at_ t t2 t3 st k = Some (Stored h, <[key := mkObject (pending b) info]> st, k') /\
        oKey info = key /\ oSize info = uoSize opts /\ oContentType info = ct /\ oMetadata info = uoMetadata opts.
Proof.
  unfold signerUploadURL. destruct (ValidateKey key) eqn:Ek; [done|]. unfold ValidateUploadURLOptions.
  destruct (ValidateURLOptions _) eqn:Eo; [done|]. destruct (Z.ltb_spec (uoSize opts) 0); [done|].
  destruct (ValidatePutOptions _ _ _) eqn:Ep; [done|].
  set (ct := if beqb (uoContentType opts) [] then DefaultContentType else uoContentType opts).
  destruct (encodeMetadata _ _) as [meta|] eqn:Em; [|done]. intros Hu Hjson Hdef Hsz Hrep. injection Hu as <-.
  rewrite expiry_exact by done. destruct (representable_int64 _ Hrep) as [Hx _].
  pose proof (lifetime now _ Eo) as Hlife. pose proof (timeUnix_exact _ Hrep) as Htu.
  assert (meta = [] /\ uoMetadata opts = ∅ \/ meta <> [] /\ exists b, b64decode meta = Some b /\ unmarshal b = Some (uoMetadata opts)) as Hmeta.
  { unfold encodeMetadata in Em. case_bool_decide as E; [left; by injection Em as <-|]. destruct (marshal _) as [b|] eqn:Eb; [|done].
    injection Em as <-. destruct (Hjson b eq_refl) as [Hne Hun]. right. split.
    - intros H'. apply Hne, b64encode_inj. by rewrite H'.
    - exists b. by rewrite b64_roundtrip. }
  exists (Encode (uploadQuery hmac s key (itoa (endOf now (uoExpires opts))) (itoa (uoSize opts)) ct meta)), ct.
  cbn [urMethod urURL urHeader urExpires]. rewrite uploadQuery_parsed.
  split; [done|]. split; [done|]. split; [by rewrite lookup_singleton_eq|]. split; [rewrite Htu; lia|].
  split; [intros t Ht; by apply uploadQuery_expired|].
  intros fuel room r b at_ t t2 t3 st k Hr Hlen Ht Hroom Hfuel Hat Hst.
  destruct (serve_granted fuel room r b s key _ ct (mkGrant (uoSize opts) ct (uoMetadata opts) (timeUnix (endOf now (uoExpires opts))))
    at_ t t2 t3 st k Hr Ek) as (h & k' & ->); try done.
  - rewrite uploadQuery_parsed. by apply uploadQuery_allowed.
  - revert Ep. rewrite !ValidatePutOptions_None. cbn. intros (Hc & _ & Hmd). split_and!; [|by intros n [= <-]|done].
    unfold ct. destruct (beqb (uoContentType opts) []); [|done]. by apply default_content_type_ok.
  - do 3 eexists. split; [done|]. unfold stored_info. cbn. rewrite Hlen. split_and!; try done.
    unfold ct. destruct (beqb (uoContentType opts) []) eqn:E; [done|]. apply beqb_false in E. by rewrite bool_decide_eq_false_2.
Qed.
End Reading.

(** ** A signer at work *)

Module Demo.
Definition hmac (k m : bytes) : bytes := k ++ m.
Definition s0 : Signer := mkSigner (&"/_storage") (&"/_storage") (&"0123456789abcdef0123456789abcdef") (&"public/") (&"app dev").
Definition key : bytes := &"docs/a b.txt".
Definition now : time := 1700000000 * Second + 5.
Definition media (b : bytes) : option bytes := Some b.
Definition encLen (b : bytes) : Z := Z.of_nat (length b).
Definition digest (b : bytes) : bytes := &"etag".
Definition inline (b : bytes) : bytes := &"inline".
Definition md : gmap bytes bytes := {[ &"filename" := &"a.txt" ]}.
Definition marshal (m : gmap bytes bytes) : result serror bytes := Ok (&"{}").
Definition unmarshal (b : bytes) : option (gmap bytes bytes) := Some md.
Definition room (_ : nat) : nat := 512%nat.
Definition clock (_ : nat) : time := now.
Definition obj : object := mkObject (&"hello") (mkObjectInfo key 5 (&"text/plain") (&"etag") 0 ∅).
Definition st0 : gmap bytes object := {[ key := obj ]}.
Definition raw : bytes := &"expires=1700000060&signature=" ++ sign hmac s0 key (&"1700000060").
Definition get : Request bytesReader := mkRequest (&"GET") (&"/_storage/" ++ key) raw [] 0 None (fun _ => None).
Definition opts : UploadURLOptions := mkUploadURLOptions (60 * Second) 5 (&"text/plain") md.
Definition put (raw : bytes) : Request bytesReader :=
  mkRequest (&"PUT") (&"/_storage/" ++ key) raw (&"text/plain") 5 (Some (NewReader (&"hello"))) (fun _ => None).
End Demo.

Local Abbreviation DemoHandler :=
  (Handler Demo.hmac Demo.unmarshal Demo.media Demo.encLen Demo.digest Demo.inline).

Lemma served_only_if_signed_witness :
  readAllowed Demo.hmac Demo.s0 Demo.key (Query Demo.raw) Demo.now.
Proof.
  destruct (served_only_if_signed Demo.hmac Demo.unmarshal Demo.media Demo.encLen Demo.digest Demo.inline
    10 Demo.room Demo.get Demo.s0 Demo.clock Demo.now Demo.now Demo.now Demo.st0 0
    (objectHeader Demo.inline Demo.s0 Demo.key (Query Demo.raw) (oinfo Demo.obj) Demo.now) 0
    (ContextReader (fun _ => None) (NewReader (&"hello"))) Demo.st0 1) as (_ & _ & key & o & Hp & _ & _ & _ & Hr & _).
  - vm_compute. reflexivity.
  - assert (key = Demo.key) as -> by (apply (app_inv_head (&"/_storage/")); symmetry; exact Hp). exact Hr.
Defined.

Lemma signed_url_lives_witness :
  exists raw, signerURL Demo.hmac Demo.s0 Demo.key (SignedURL (60 * Second)) Demo.now =
    Ok (&"/_storage" ++ slash :: EscapeKey Demo.key ++ &"?" ++ raw) /\
    Verify Demo.hmac Demo.s0 Demo.key (Query raw) Demo.now = None.
Proof.
  destruct (signed_url_lives (R := bytesReader) Demo.hmac Demo.unmarshal Demo.media Demo.encLen Demo.digest Demo.inline Demo.s0 Demo.key (60 * Second) Demo.now
    (&"/_storage" ++ slash :: EscapeKey Demo.key ++ &"?" ++ Demo.raw)) as (raw & last & Hu & Hl & Hv & _).
  - vm_compute. reflexivity.
  - by vm_compute.
  - by vm_compute.
  - exists raw. split.
    + change (&"/_storage") with (base Demo.s0). rewrite <- Hu. vm_compute. reflexivity.
    + rewrite Hv. rewrite (proj2 (Before_true _ _)); [done|]. unfold Second in *. lia.
Defined.

Definition demoGrant : bytes :=
  Encode (uploadQuery Demo.hmac Demo.s0 Demo.key (&"1700000060") (&"5") (&"text/plain") (b64encode (&"{}"))).

Lemma uploads_store_once_witness :
  exists h st' k', DemoHandler 10%nat Demo.room (Demo.put demoGrant) Demo.s0 Demo.clock Demo.now Demo.now Demo.now ∅ 0%nat = Some (Stored h, st', k') /\
    storedUpload Demo.hmac Demo.unmarshal Demo.digest (Demo.put demoGrant) Demo.s0 Demo.clock Demo.now Demo.now Demo.now ∅ st' 0 k'.
Proof.
  destruct (uploads_store_once Demo.hmac Demo.unmarshal Demo.media Demo.encLen Demo.digest Demo.inline
    10 Demo.room (Demo.put demoGrant) Demo.s0 Demo.clock Demo.now Demo.now Demo.now ∅ 0) as (resp & st' & k' & HH & _ & Hcase).
  - done.
  - intros j. unfold Demo.room. lia.
  - cbn. lia.
  - destruct Hcase as [[-> Hn]|[[h ->] Hs]]; [|exists h, st', k'; split; [exact HH|exact Hs]].
    assert (match DemoHandler 10%nat Demo.room (Demo.put demoGrant) Demo.s0 Demo.clock Demo.now Demo.now Demo.now ∅ 0%nat with
            | Some (Stored _, _, _) => true | _ => false end = true) as Hs by (vm_compute; reflexivity).
    rewrite HH in Hs. destruct resp as [| |h]; [discriminate Hs|discriminate Hs|by destruct (Hn h)].
Defined.

Lemma upload_grant_accepted_witness :
  exists raw h k' info, DemoHandler 10%nat Demo.room (Demo.put raw) Demo.s0 Demo.clock Demo.now Demo.now Demo.now ∅ 0%nat =
    Some (Stored h, <[Demo.key := mkObject (&"hello") info]> ∅, k') /\ oMetadata info = Demo.md.
Proof.
  destruct (upload_grant_accepted (R := bytesReader) Demo.hmac Demo.unmarshal Demo.media Demo.encLen Demo.digest Demo.inline Demo.marshal
    Demo.s0 Demo.key Demo.opts Demo.now
    (mkUploadRequest (&"PUT") (&"/_storage" ++ slash :: EscapeKey Demo.key ++ &"?" ++ demoGrant)
      {[ &"Content-Type" := &"text/plain" ]} (1700000060 * Second))) as (raw & ct & _ & _ & Hct & _ & _ & H).
  - vm_compute. reflexivity.
  - intros b [= <-]. done.
  - done.
  - by vm_compute.
  - by vm_compute.
  - exists raw. destruct (H 10%nat Demo.room (Demo.put raw) (NewReader (&"hello")) Demo.clock Demo.now Demo.now Demo.now ∅ 0%nat)
      as (h & k' & info & HH & _ & _ & _ & Hm).
    + vm_compute in Hct. injection Hct as <-. unfold uploadRequest.
      split_and!; [reflexivity|reflexivity|reflexivity|reflexivity|reflexivity|reflexivity|exact I|reflexivity|by intros e []|reflexivity].
    + reflexivity.
    + reflexivity.
    + intros j. unfold Demo.room. lia.
    + cbn. lia.
    + intros j. reflexivity.
    + reflexivity.
    + exists h, k', info. split; [exact HH|exact Hm].
Defined.
