(* ===== verification/AuthBackground.v ===== *)
(** * auth/background.go: work that outlives its request

    The runner that auth routes hand their mail to: a token bucket that admits, a bounded
    queue, a fixed set of workers, and a shutdown that drains and then cancels.  A method
    that holds the mutex is one step; the workers, the tasks, the shutdown's waits and the
    calls of [close] interleave in any order ([step]).  A task is a number; when it returns
    is up to it.  The bucket counts in float64, whose rounding is an argument. *)

From stdpp Require Import base tactics numbers list sorting.
From Stdlib Require Import ZArith Lia QArith Qminmax Lqa.
From S2P Require Import Prelude Float64.

Local Open Scope list_scope.
Local Open Scope Z_scope.

Definition backgroundWorkers : Z := 16.
Definition backgroundBurst : Z := 32.
Definition backgroundQueue : Z := 64.
Definition tailTimeout : duration := 5 * Second.
Definition backgroundTaskTimeout : duration := 30 * Second.
Definition backgroundWorstCase : duration := backgroundTaskTimeout + 3 * tailTimeout.
Definition backgroundClosedRetryAfter : duration := 5 * Second.

(** The fields of [backgroundRunner] under its mutex, and its settings. *)
Record backgroundRunner := mkRunner {
  pending : list nat;
  started : bool;
  closed : bool;
  tokens : Q;
  last : time;
  burst : Q;
  rate : Q;
  workerCount : Z;
  queueCap : Z }.

Definition set_pending (l : list nat) (r : backgroundRunner) : backgroundRunner :=
  mkRunner l (started r) (closed r) (tokens r) (last r) (burst r) (rate r) (workerCount r) (queueCap r).
Definition set_started (r : backgroundRunner) : backgroundRunner :=
  mkRunner (pending r) true (closed r) (tokens r) (last r) (burst r) (rate r) (workerCount r) (queueCap r).
Definition set_closed (r : backgroundRunner) : backgroundRunner :=
  mkRunner (pending r) (started r) true (tokens r) (last r) (burst r) (rate r) (workerCount r) (queueCap r).
Definition set_bucket (t : Q) (now : time) (r : backgroundRunner) : backgroundRunner :=
  mkRunner (pending r) (started r) (closed r) t now (burst r) (rate r) (workerCount r) (queueCap r).

(** What [submit] returns: nil, a backgroundBusyError, or errBackgroundDiscarded. *)
Inductive answer := Accepted | Busy (retryAfter : duration) | Discarded.

Section Runner.
Variable rnd : Q -> Q.

(** [Duration.Seconds] *)
Definition seconds (d : duration) : Q :=
  rnd (float64 rnd (Z.quot d Second) + rnd (float64 rnd (Z.rem d Second) / inject_Z Second))%Q.

(** [Time.Sub], which saturates. *)
Definition since (a b : time) : duration := Z.max min_int64 (Z.min max_int64 (a - b)).

Definition newBackgroundRunner (now : time) : backgroundRunner :=
  mkRunner [] false false (inject_Z backgroundBurst) now (inject_Z backgroundBurst)
    (rnd (float64 rnd backgroundWorkers / seconds backgroundWorstCase))%Q backgroundWorkers backgroundQueue.

(** [admit]: the wait until the next token, [None] when one was taken. *)
Definition admitToken (now : time) (r : backgroundRunner) : option duration * backgroundRunner :=
  let elapsed := seconds (since now (last r)) in
  let t := if negb (Qle_bool elapsed 0)
           then (let x := rnd (tokens r + rnd (elapsed * rate r))%Q in if Qle_bool (burst r) x then burst r else x)
           else tokens r in
  if Qle_bool 1 t then (None, set_bucket (rnd (t - 1)%Q) now r)
  else (Some (trunc (rnd (rnd (rnd (1 - t) / rate r) * float64 rnd Second))%Q), set_bucket t now r).

(** [submit] *)
Definition submit (now : time) (task : nat) (r : backgroundRunner) : answer * backgroundRunner :=
  if closed r then (Busy backgroundClosedRetryAfter, r)
  else
    let '(wait, r) := admitToken now r in
    match wait with
    | Some wait => (Busy wait, r)
    | None =>
        let r := set_started r in
        if queueCap r <=? Z.of_nat (length (pending r)) then (Discarded, r)
        else (Accepted, set_pending (pending r ++ [task]) r)
    end.

(** [next]: [None] while it waits; then a task, or none once closed and drained. *)
Definition next (r : backgroundRunner) : option (option nat * backgroundRunner) :=
  match pending r with
  | task :: rest => Some (Some task, set_pending rest r)
  | [] => if closed r then Some (None, r) else None
  end.

(** ** The runner among its goroutines *)

(** Where a worker is in [work]: in [next], in a task's run, or returned. *)
Inductive worker := Waiting | Running (task : nat) | Exited.

(** The error of a shutdown that cancelled; whether tasks ignored that. *)
Inductive closeError := CtxError | DidNotStop.

(** Where the shutdown is: not begun, in its first select, past the cancel, in the grace,
    returned, and [closing] closed. *)
Inductive phase :=
| Open | Draining | Cancelled | Grace
| Returned (err : option closeError)
| Published (err : option closeError).

#[export] Instance closeError_eq_dec : EqDecision closeError.
Proof. solve_decision. Defined.
#[export] Instance phase_eq_dec : EqDecision phase.
Proof. solve_decision. Defined.

Record world := mkWorld {
  runner : backgroundRunner;
  workers : list worker;
  stopped : bool;         (* the context [stop] is cancelled *)
  shutdown : phase;
  (* what happened *)
  queued : list nat;
  ran : list nat;
  finished : list nat;
  dropped : list nat }.

Inductive event :=
| Submit (now : time) (task : nat)
| Take (i : nat) | Exit (i : nat) | Finish (i : nat)
| Close
| DrainDone | CtxDone | Release | GraceDone | GraceTimer | Publish
| JoinResult | JoinCtx.

(** What a caller sees. *)
Inductive label :=
| Answered (now : time) (a : answer)
| Closing
| CloseReturns (err : option closeError)
| CloseCtx
| Silent.

Definition allExited (l : list worker) : bool := forallb (fun w => match w with Exited => true | _ => false end) l.

Definition with_shutdown (p : phase) (w : world) : world :=
  mkWorld (runner w) (workers w) (stopped w) p (queued w) (ran w) (finished w) (dropped w).

Definition cancel (p : phase) (w : world) : world :=
  mkWorld (runner w) (workers w) true p (queued w) (ran w) (finished w) (dropped w).

(** A request's [submit]; the first admitted one starts the workers. *)
Definition submits (now : time) (task : nat) (w : world) : world * label :=
  let '(a, r) := submit now task (runner w) in
  let ws := if started r && negb (started (runner w)) then repeat Waiting (Z.to_nat (workerCount r)) else workers w in
  let q := match a with Accepted => queued w ++ [task] | _ => queued w end in
  (mkWorld r ws (stopped w) (shutdown w) q (ran w) (finished w) (dropped w), Answered now a).

Definition takes (i : nat) (w : world) : option world :=
  match workers w !! i, next (runner w) with
  | Some Waiting, Some (Some task, r) =>
      Some (mkWorld r (<[i := Running task]> (workers w)) (stopped w) (shutdown w) (queued w) (ran w ++ [task]) (finished w) (dropped w))
  | _, _ => None
  end.

Definition exits (i : nat) (w : world) : option world :=
  match workers w !! i, next (runner w) with
  | Some Waiting, Some (None, r) =>
      Some (mkWorld r (<[i := Exited]> (workers w)) (stopped w) (shutdown w) (queued w) (ran w) (finished w) (dropped w))
  | _, _ => None
  end.

Definition finishes (i : nat) (w : world) : option world :=
  match workers w !! i with
  | Some (Running task) =>
      Some (mkWorld (runner w) (<[i := Waiting]> (workers w)) (stopped w) (shutdown w) (queued w) (ran w) (finished w ++ [task]) (dropped w))
  | _ => None
  end.

(** [r.pending = nil] after the cancel. *)
Definition releases (w : world) : world :=
  mkWorld (set_pending [] (runner w)) (workers w) (stopped w) Grace (queued w) (ran w) (finished w) (dropped w ++ pending (runner w)).

Definition closes (w : world) : world :=
  mkWorld (set_closed (runner w)) (workers w) (stopped w) Draining (queued w) (ran w) (finished w) (dropped w).

(** One step, [None] where it cannot happen. *)
Definition step (e : event) (w : world) : option (world * label) :=
  let silent (o : option world) := (fun w => (w, Silent)) <$> o in
  match e, shutdown w with
  | Submit now task, _ => Some (submits now task w)
  | Take i, _ => silent (takes i w)
  | Exit i, _ => silent (exits i w)
  | Finish i, _ => silent (finishes i w)
  (* close, the first call *)
  | Close, Open => Some (closes w, Closing)
  (* shutdown: <-done or <-ctx.Done() *)
  | DrainDone, Draining => if allExited (workers w) then Some (cancel (Returned None) w, Silent) else None
  | CtxDone, Draining => Some (cancel Cancelled w, Silent)
  | Release, Cancelled => Some (releases w, Silent)
  | GraceDone, Grace => if allExited (workers w) then Some (with_shutdown (Returned (Some CtxError)) w, Silent) else None
  | GraceTimer, Grace => Some (with_shutdown (Returned (Some DidNotStop)) w, Silent)
  (* close(r.closing), and the first call returns *)
  | Publish, Returned err => Some (with_shutdown (Published err) w, CloseReturns err)
  (* another call: the result once it is there, or the caller's own context *)
  | JoinResult, Published err => Some (w, CloseReturns err)
  | JoinCtx, (Draining | Cancelled | Grace | Returned _) => Some (w, CloseCtx)
  | _, _ => None
  end.

Fixpoint run (es : list event) (w : world) : option (world * list label) :=
  match es with
  | [] => Some (w, [])
  | e :: es =>
      match step e w with
      | None => None
      | Some (w, l) =>
          match run es w with
          | None => None
          | Some (w, ls) => Some (w, l :: ls)
          end
      end
  end.

Definition newWorld (now : time) : world := mkWorld (newBackgroundRunner now) [] false Open [] [] [] [].
End Runner.

(** ** The invariant *)

Definition runningOf (w : worker) : option nat := match w with Running t => Some t | _ => None end.
Definition running (ws : list worker) : list nat := omap runningOf ws.
Arguments running : simpl never.
Arguments allExited : simpl never.

(** The shutdown has dropped what was waiting. *)
Definition released (p : phase) : Prop :=
  match p with Grace | Returned (Some _) | Published (Some _) => True | _ => False end.

(** The shutdown found every worker gone before its context ended. *)
Definition drained (p : phase) : Prop := p = Returned None \/ p = Published None.

Record inv (w : world) : Prop := {
  inv_settings : workerCount (runner w) = backgroundWorkers /\ queueCap (runner w) = backgroundQueue;
  inv_workers : Z.of_nat (length (workers w)) = if started (runner w) then backgroundWorkers else 0;
  inv_idle : started (runner w) = false -> pending (runner w) = [];
  inv_queue : Z.of_nat (length (pending (runner w))) <= backgroundQueue;
  inv_closed : closed (runner w) = true <-> shutdown w <> Open;
  inv_exited : Exited ∈ workers w -> closed (runner w) = true /\ pending (runner w) = [];
  inv_tasks : queued w = ran w ++ dropped w ++ pending (runner w);
  inv_kept : dropped w <> [] -> released (shutdown w);
  inv_released : released (shutdown w) -> pending (runner w) = [];
  inv_ran : ran w ≡ₚ running (workers w) ++ finished w;
  inv_drained : drained (shutdown w) -> allExited (workers w) = true /\ pending (runner w) = [] }.

Lemma running_insert ws i x y :
  ws !! i = Some x -> running (<[i := y]> ws) ++ option_list (runningOf x) ≡ₚ option_list (runningOf y) ++ running ws.
Proof.
  intros Hi. unfold running. rewrite <- (take_drop_middle ws i x Hi) at 2.
  assert (i < length ws)%nat by (by eapply lookup_lt_Some). rewrite insert_take_drop by done.
  rewrite !omap_app. cbn [omap list_omap]. destruct (runningOf x), (runningOf y); cbn [option_list option_rect app]; solve_Permutation.
Qed.

Section Facts.
Variable rnd : Q -> Q.

Lemma admitToken_bucket now r : exists t, (admitToken rnd now r).2 = set_bucket t now r.
Proof. unfold admitToken. destruct (Qle_bool 1 _); eauto. Qed.

(** What [submit] does to the runner. *)
Lemma submit_cases now task r :
  (closed r = true /\ submit rnd now task r = (Busy backgroundClosedRetryAfter, r)) \/
  closed r = false /\ exists t,
    (exists d, submit rnd now task r = (Busy d, set_bucket t now r)) \/
    (submit rnd now task r = (Discarded, set_started (set_bucket t now r)) /\ queueCap r <= Z.of_nat (length (pending r))) \/
    (submit rnd now task r = (Accepted, set_pending (pending r ++ [task]) (set_started (set_bucket t now r))) /\
     Z.of_nat (length (pending r)) < queueCap r).
Proof.
  unfold submit. destruct (closed r); [by left|]. right. split; [done|]. destruct (admitToken_bucket now r) as [t Ht].
  destruct (admitToken rnd now r) as [wait r']. cbn in Ht. subst r'. exists t. destruct wait as [d|]; [left; by exists d|].
  cbn [set_started set_bucket queueCap pending]. destruct (Z.leb_spec (queueCap r) (Z.of_nat (length (pending r)))); [right; by left|right; by right].
Qed.

Lemma inv_new now : inv (newWorld rnd now).
Proof.
  split; cbn; try done.
  by intros ?%not_elem_of_nil.
Qed.

Lemma started_workers ws n : Exited ∈ repeat Waiting n ++ ws -> Exited ∈ ws.
Proof. intros [H|H]%elem_of_app; [|done]. apply list_elem_of_In, repeat_spec in H. done. Qed.

Lemma running_waiting n : running (repeat Waiting n) = [].
Proof. induction n as [|n IH]; [done|]. unfold running in *. cbn. by rewrite IH. Qed.

Lemma not_started_no_workers w : inv w -> started (runner w) = false -> workers w = [].
Proof. intros Hw Hs. pose proof (inv_workers w Hw) as Hl. rewrite Hs in Hl. destruct (workers w); [done|]. cbn in Hl. lia. Qed.

Lemma inv_submits now task w : inv w -> inv (submits rnd now task w).1.
Proof.
  intros Hw. unfold submits. pose proof (inv_closed w Hw) as Hcl.
  destruct (submit_cases now task (runner w)) as [[Hc ->]|[Hc (t & Hcase)]].
  { cbn [fst]. assert (started (runner w) && negb (started (runner w)) = false) as -> by (by destruct (started (runner w))).
    destruct Hw. by split. }
  assert (shutdown w = Open) as Hp by (destruct (decide (shutdown w = Open)) as [|Hn]; [done|]; apply Hcl in Hn; congruence).
  assert (dropped w = []) as Hd.
  { destruct (dropped w) as [|x l] eqn:E; [done|]. assert (released (shutdown w)) as Hr by (apply (inv_kept w Hw); by rewrite E).
    by rewrite Hp in Hr. }
  assert (forall x, Exited ∈ workers w -> x) as Hne by (intros x Hx; apply (inv_exited w Hw) in Hx as [? _]; congruence).
  destruct (inv_settings w Hw) as [Hwc Hqc].
  assert (forall r', started r' = true -> workerCount r' = workerCount (runner w) ->
    let ws := if started r' && negb (started (runner w)) then repeat Waiting (Z.to_nat (workerCount r')) else workers w in
    Z.of_nat (length ws) = backgroundWorkers /\ (Exited ∉ ws) /\ running ws = running (workers w)) as Hws.
  { intros r' Hs Hn. rewrite Hs, Hn, Hwc. cbn [andb]. pose proof (inv_workers w Hw) as Hl. destruct (started (runner w)) eqn:Es; cbn [negb].
    - split_and!; [done| |done]. intros Hx. by apply Hne.
    - rewrite repeat_length. split_and!; [done| |].
      + intros Hx. apply list_elem_of_In, repeat_spec in Hx. done.
      + by rewrite running_waiting, (not_started_no_workers w Hw Es). }
  destruct Hcase as [(d & ->)|[(-> & _)|(-> & Hlt)]]; cbn [fst].
  - assert (started (set_bucket t now (runner w)) && negb (started (runner w)) = false) as -> by (cbn; by destruct (started (runner w))).
    destruct Hw. by split.
  - destruct (Hws (set_started (set_bucket t now (runner w)))) as (H1 & H2 & H3); [done|done|].
    match type of H3 with running ?x = _ => generalize dependent x end. intros ws H1 H2 H3. destruct Hw. split; cbn; try done.
    + by rewrite H3.
    + rewrite Hp. intros [?|?]; done.
  - destruct (Hws (set_pending (pending (runner w) ++ [task]) (set_started (set_bucket t now (runner w))))) as (H1 & H2 & H3); [done|done|].
    match type of H3 with running ?x = _ => generalize dependent x end. intros ws H1 H2 H3. destruct Hw. split; cbn; try done.
    + rewrite length_app. cbn. lia.
    + rewrite inv_tasks0, Hd. cbn. by rewrite app_assoc.
    + rewrite Hp. done.
    + by rewrite H3.
    + rewrite Hp. intros [?|?]; done.
Qed.

Lemma allExited_elem ws x : allExited ws = true -> x ∈ ws -> x = Exited.
Proof.
  unfold allExited. rewrite forallb_forall. intros H Hx. apply list_elem_of_In, H in Hx. by destruct x.
Qed.

(** The workers only leave once nothing waits. *)
Lemma allExited_pending w : inv w -> allExited (workers w) = true -> pending (runner w) = [].
Proof.
  intros Hw Ha. destruct (started (runner w)) eqn:Es; [|by apply (inv_idle w Hw)].
  pose proof (inv_workers w Hw) as Hl. rewrite Es in Hl. destruct (workers w) as [|x l] eqn:E; [done|].
  apply (inv_exited w Hw). rewrite E. assert (x = Exited) as -> by (eapply allExited_elem; [done|left]). left.
Qed.

Lemma allExited_running ws : allExited ws = true -> running ws = [].
Proof.
  unfold running. induction ws as [|x ws IH]; [done|]. intros H. assert (x = Exited) as -> by (eapply allExited_elem; [done|left]).
  cbn in *. by apply IH.
Qed.

Lemma elem_of_insert_other (ws : list worker) i x y : x <> y -> x ∈ <[i := y]> ws -> x ∈ ws.
Proof.
  intros Hne [j Hj]%list_elem_of_lookup. destruct (decide (i = j)) as [->|Hij].
  - destruct (decide (j < length ws)%nat); [rewrite list_lookup_insert_eq in Hj by done; congruence|].
    rewrite list_insert_ge in Hj by lia. by eapply list_elem_of_lookup_2.
  - rewrite list_lookup_insert_ne in Hj by done. by eapply list_elem_of_lookup_2.
Qed.

Lemma no_exit_while_busy w i x : inv w -> workers w !! i = Some x -> x <> Exited -> allExited (workers w) = true -> False.
Proof. intros Hw Hi Hx Ha. apply Hx. eapply allExited_elem; [done|]. by eapply list_elem_of_lookup_2. Qed.

Lemma inv_takes i w w' : inv w -> takes i w = Some w' -> inv w'.
Proof.
  intros Hw. unfold takes, next. destruct (workers w !! i) as [[| |]|] eqn:Ei; [|done..].
  destruct (pending (runner w)) as [|task rest] eqn:Ep; [by destruct (closed (runner w))|]. intros [= <-].
  pose proof (running_insert _ _ _ (Running task) Ei) as Hperm. cbn [runningOf option_list option_rect app] in Hperm. rewrite app_nil_r in Hperm.
  pose proof (no_exit_while_busy w i Waiting Hw Ei) as Hbusy. destruct Hw. rewrite Ep in *. split; cbn; try done.
  - by rewrite length_insert.
  - intros Hs. by apply inv_idle0 in Hs.
  - cbn in inv_queue0. lia.
  - intros Hx. apply elem_of_insert_other in Hx; [|done]. by apply inv_exited0 in Hx as [_ ?].
  - rewrite inv_tasks0. destruct (dropped w) as [|d l]; [by rewrite <- app_assoc|]. exfalso.
    assert (released (shutdown w)) as Hr by (by apply inv_kept0). by apply inv_released0 in Hr.
  - intros Hr. by apply inv_released0 in Hr.
  - rewrite Hperm. rewrite inv_ran0. cbn. solve_Permutation.
  - intros Hd. apply inv_drained0 in Hd as [? ?]. done.
Qed.

Lemma inv_exits i w w' : inv w -> exits i w = Some w' -> inv w'.
Proof.
  intros Hw. unfold exits, next. destruct (workers w !! i) as [[| |]|] eqn:Ei; [|done..].
  destruct (pending (runner w)) as [|task rest] eqn:Ep; [|done]. destruct (closed (runner w)) eqn:Ec; [|done]. intros [= <-].
  pose proof (running_insert _ _ _ Exited Ei) as Hperm. cbn [runningOf option_list option_rect app] in Hperm. rewrite app_nil_r in Hperm.
  pose proof (no_exit_while_busy w i Waiting Hw Ei) as Hbusy. destruct Hw. split; cbn; try done.
  - by rewrite length_insert.
  - by rewrite Hperm.
  - intros Hd. apply inv_drained0 in Hd as [Ha ?]. by destruct Hbusy.
Qed.

Lemma inv_finishes i w w' : inv w -> finishes i w = Some w' -> inv w'.
Proof.
  intros Hw. unfold finishes. destruct (workers w !! i) as [[|task|]|] eqn:Ei; [done| |done|done]. intros [= <-].
  pose proof (running_insert _ _ _ Waiting Ei) as Hperm. cbn [runningOf option_list option_rect app] in Hperm.
  pose proof (no_exit_while_busy w i (Running task) Hw Ei) as Hbusy. destruct Hw. split; cbn; try done.
  - by rewrite length_insert.
  - intros Hx. apply elem_of_insert_other in Hx; [|done]. by apply inv_exited0.
  - rewrite inv_ran0, <- Hperm. solve_Permutation.
  - intros Hd. apply inv_drained0 in Hd as [Ha ?]. by destruct Hbusy.
Qed.

(** A shutdown that moves on without touching the queue keeps the invariant. *)
Lemma inv_moves w p b : inv w -> p <> Open -> closed (runner w) = true -> (dropped w <> [] -> released p) ->
  (released p -> pending (runner w) = []) -> (drained p -> allExited (workers w) = true) ->
  inv (mkWorld (runner w) (workers w) b p (queued w) (ran w) (finished w) (dropped w)).
Proof.
  intros Hw Hp Hc Hk Hr Hd. pose proof (allExited_pending w Hw). destruct Hw. split; cbn; try done. intros Hx. auto.
Qed.

Lemma inv_step e w w' l : inv w -> step rnd e w = Some (w', l) -> inv w'.
Proof.
  intros Hw. pose proof (allExited_pending w Hw) as Hpend. pose proof (inv_closed w Hw) as Hcl. unfold step.
  assert (shutdown w <> Open -> closed (runner w) = true) as Hc by (by intros ?%Hcl).
  destruct e as [now task|i|i|i| | | | | | | | | ].
  - intros H. pose proof (inv_submits now task w Hw) as Hs. injection H as H. by rewrite H in Hs.
  - destruct (takes i w) eqn:E; [|done]. intros [= <- <-]. by eapply inv_takes.
  - destruct (exits i w) eqn:E; [|done]. intros [= <- <-]. by eapply inv_exits.
  - destruct (finishes i w) eqn:E; [|done]. intros [= <- <-]. by eapply inv_finishes.
  - destruct (shutdown w) eqn:Ep; try done. intros [= <- <-]. destruct Hw. split; cbn; try done.
    + naive_solver.
    + intros Hd. apply inv_kept0 in Hd. by rewrite Ep in Hd.
    + intros [?|?]; done.
  - destruct (shutdown w) eqn:Ep; try done. destruct (allExited (workers w)) eqn:Ea; [|done]. intros [= <- <-].
    apply inv_moves; try done; [by apply Hc|]. intros Hd. apply (inv_kept w Hw) in Hd. by rewrite Ep in Hd.
  - destruct (shutdown w) eqn:Ep; try done. intros [= <- <-]. apply inv_moves; try done; [by apply Hc| |by intros [?|?]].
    intros Hd. apply (inv_kept w Hw) in Hd. by rewrite Ep in Hd.
  - destruct (shutdown w) eqn:Ep; try done. intros [= <- <-].
    assert (dropped w = []) as Hd.
    { destruct (dropped w) eqn:E; [done|]. assert (released (shutdown w)) as Hr by (apply (inv_kept w Hw); by rewrite E). by rewrite Ep in Hr. }
    destruct Hw. split; cbn; try done.
    + naive_solver.
    + intros Hx. by apply inv_exited0 in Hx as [? _].
    + rewrite inv_tasks0, Hd. by rewrite app_nil_r.
    + by intros [?|?].
  - destruct (shutdown w) eqn:Ep; try done. destruct (allExited (workers w)) eqn:Ea; [|done]. intros [= <- <-].
    apply inv_moves; try done; [by apply Hc|by intros _; apply Hpend].
  - destruct (shutdown w) eqn:Ep; try done. intros [= <- <-].
    apply inv_moves; try done; [by apply Hc| |by intros [?|?]]. intros _. apply (inv_released w Hw). by rewrite Ep.
  - destruct (shutdown w) as [| | | |err|] eqn:Ep; try done. intros [= <- <-]. pose proof (inv_kept w Hw) as Hk. pose proof (inv_released w Hw) as Hr.
    pose proof (inv_drained w Hw) as Hd. rewrite Ep in *. apply inv_moves; try done; [by apply Hc|].
    intros [?|[= ->]]; [done|]. apply Hd. by left.
  - destruct (shutdown w) eqn:Ep; try done. by intros [= <- <-].
  - destruct (shutdown w) eqn:Ep; try done; by intros [= <- <-].
Qed.

Lemma inv_run es : forall w w' ls, inv w -> run rnd es w = Some (w', ls) -> inv w'.
Proof.
  induction es as [|e es IH]; intros w w' ls Hw; cbn [run]; [by intros [= <- <-]|].
  destruct (step rnd e w) as [[w1 l]|] eqn:E; [|done]. apply inv_step in E; [|done].
  destruct (run rnd es w1) as [[w2 ls']|] eqn:E2; [|done]. intros [= <- <-]. by eapply IH.
Qed.

(** ** Admission *)

(** What [admit] looks at. *)
Definition sameBucket (r r' : backgroundRunner) : Prop :=
  closed r = closed r' /\ tokens r = tokens r' /\ last r = last r' /\ burst r = burst r' /\ rate r = rate r'.

Inductive arrival := Arrives (now : time) | Closes.

(** The bucket and the closed flag alone, fed with the arrivals: the wait a request is
    answered with, [None] when it is admitted. *)
Fixpoint verdicts (r : backgroundRunner) (l : list arrival) : list (option duration) :=
  match l with
  | [] => []
  | Arrives now :: l =>
      if closed r then Some backgroundClosedRetryAfter :: verdicts r l
      else let '(wait, r) := admitToken rnd now r in wait :: verdicts r l
  | Closes :: l => verdicts (set_closed r) l
  end.

Definition arrivals (ls : list label) : list arrival :=
  omap (fun l => match l with Answered now _ => Some (Arrives now) | Closing => Some Closes | _ => None end) ls.

(** What a client is told: a wait, or that its request was accepted. *)
Definition told (a : answer) : option duration := match a with Busy d => Some d | _ => None end.
Definition answers (ls : list label) : list (option duration) :=
  omap (fun l => match l with Answered _ a => Some (told a) | _ => None end) ls.

Lemma admit_same now r r' : sameBucket r r' -> closed r = false ->
  (admitToken rnd now r).1 = (admitToken rnd now r').1 /\ sameBucket (admitToken rnd now r).2 (admitToken rnd now r').2.
Proof.
  intros (Hc & Ht & Hl & Hb & Hr) _. unfold admitToken. rewrite <- Ht, <- Hl, <- Hb, <- Hr.
  destruct (Qle_bool 1 _); (split; [done|]); by repeat split.
Qed.

Lemma submit_same now task r r' : sameBucket r r' ->
  let a := submit rnd now task r in
  if closed r then told a.1 = Some backgroundClosedRetryAfter /\ a.2 = r
  else told a.1 = (admitToken rnd now r').1 /\ sameBucket a.2 (admitToken rnd now r').2.
Proof.
  intros Hs. cbn zeta. unfold submit. destruct (closed r) eqn:Hc; [done|]. destruct (admit_same now r r' Hs Hc) as [H1 H2].
  destruct (admitToken rnd now r) as [wait r1]. cbn [fst snd] in *. destruct wait as [d|]; [done|].
  destruct (_ <=? _); done.
Qed.

(** Only a request and a close change what the bucket sees. *)
Lemma step_same e w w' l r : step rnd e w = Some (w', l) -> sameBucket (runner w) r ->
  match l with
  | Answered now a =>
      if closed r then told a = Some backgroundClosedRetryAfter /\ sameBucket (runner w') r
      else told a = (admitToken rnd now r).1 /\ sameBucket (runner w') (admitToken rnd now r).2
  | Closing => sameBucket (runner w') (set_closed r)
  | _ => sameBucket (runner w') r
  end.
Proof.
  intros Hstep Hs. unfold step in Hstep. destruct e as [now task|i|i|i| | | | | | | | | ].
  - injection Hstep as H. unfold submits in H. pose proof (submit_same now task (runner w) r Hs) as Hsub. cbn zeta in Hsub.
    destruct (submit rnd now task (runner w)) as [a r1]. injection H as <- <-. cbn [runner fst snd] in *.
    pose proof Hs as (Hcl & _). rewrite <- Hcl. destruct (closed (runner w)) eqn:Ec; [|done]. by destruct Hsub as [-> ->].
  - destruct (takes i w) as [w1|] eqn:E; [|done]. injection Hstep as <- <-. unfold takes, next in E. repeat (case_match; simplify_eq; try done).
  - destruct (exits i w) as [w1|] eqn:E; [|done]. injection Hstep as <- <-. unfold exits, next in E. repeat (case_match; simplify_eq; try done).
  - destruct (finishes i w) as [w1|] eqn:E; [|done]. injection Hstep as <- <-. unfold finishes in E. repeat (case_match; simplify_eq; try done).
  - destruct (shutdown w); try done. injection Hstep as <- <-. destruct Hs as (_ & Hs). by split.
  - destruct (shutdown w); try done. destruct (allExited _); [|done]. by injection Hstep as <- <-.
  - destruct (shutdown w); try done. by injection Hstep as <- <-.
  - destruct (shutdown w); try done. by injection Hstep as <- <-.
  - destruct (shutdown w); try done. destruct (allExited _); [|done]. by injection Hstep as <- <-.
  - destruct (shutdown w); try done. by injection Hstep as <- <-.
  - destruct (shutdown w); try done. by injection Hstep as <- <-.
  - destruct (shutdown w); try done. by injection Hstep as <- <-.
  - destruct (shutdown w); try done; by injection Hstep as <- <-.
Qed.

Lemma run_verdicts es : forall w w' ls r, run rnd es w = Some (w', ls) -> sameBucket (runner w) r ->
  answers ls = verdicts r (arrivals ls).
Proof.
  induction es as [|e es IH]; intros w w' ls r; cbn [run]; [by intros [= <- <-]|].
  destruct (step rnd e w) as [[w1 l]|] eqn:E; [|done]. destruct (run rnd es w1) as [[w2 ls']|] eqn:E2; [|done].
  intros [= <- <-] Hs. pose proof (step_same e w w1 l r E Hs) as Hstep. unfold answers, arrivals.
  destruct l as [now a| | | |]; cbn [omap list_omap]; fold (answers ls') (arrivals ls'); cbn [verdicts]; try by eapply IH.
  destruct (closed r); [|destruct (admitToken rnd now r) as [wait r']]; destruct Hstep as [-> Hstep]; cbn [fst snd] in *; f_equal; by eapply IH.
Qed.

(** C26. What a client is answered depends only on when requests arrived and when the
    service was closed: the answers of any run are those of the token bucket alone fed with
    the arrivals, so two runs with the same arrivals answer alike, whatever their tasks,
    their workers and the queue do. A discarded task is answered as an accepted one. *)
Theorem answers_by_arrival t0 es es' w w' ls ls' :
  run rnd es (newWorld rnd t0) = Some (w, ls) -> run rnd es' (newWorld rnd t0) = Some (w', ls') ->
  arrivals ls = arrivals ls' ->
  answers ls = answers ls' /\ answers ls = verdicts (newBackgroundRunner rnd t0) (arrivals ls).
Proof.
  intros H H' E. apply (run_verdicts _ _ _ _ (newBackgroundRunner rnd t0)) in H; [|done].
  apply (run_verdicts _ _ _ _ (newBackgroundRunner rnd t0)) in H'; [|done]. split; [|done]. by rewrite H, H', E.
Qed.

(** ** Close *)

Lemma step_published e w w' l err : step rnd e w = Some (w', l) ->
  (shutdown w = Published err -> shutdown w' = Published err) /\ (l = CloseReturns err -> shutdown w' = Published err).
Proof.
  unfold step. destruct e as [now task|i|i|i| | | | | | | | | ].
  - unfold submits. destruct (submit rnd now task (runner w)). by intros [= <- <-].
  - destruct (takes i w) as [w1|] eqn:E; [|done]. intros [= <- <-]. unfold takes, next in E. repeat (case_match; simplify_eq; try done).
  - destruct (exits i w) as [w1|] eqn:E; [|done]. intros [= <- <-]. unfold exits, next in E. repeat (case_match; simplify_eq; try done).
  - destruct (finishes i w) as [w1|] eqn:E; [|done]. intros [= <- <-]. unfold finishes in E. repeat (case_match; simplify_eq; try done).
  - destruct (shutdown w); try done. by intros [= <- <-].
  - destruct (shutdown w); try done. destruct (allExited _); [|done]. by intros [= <- <-].
  - destruct (shutdown w); try done. by intros [= <- <-].
  - destruct (shutdown w); try done. by intros [= <- <-].
  - destruct (shutdown w); try done. destruct (allExited _); [|done]. by intros [= <- <-].
  - destruct (shutdown w); try done. by intros [= <- <-].
  - destruct (shutdown w); try done. intros [= <- <-]. split; [done|]. by intros [= ->].
  - destruct (shutdown w) eqn:Ep; try done. intros [= <- <-]. split; [congruence|]. intros [= ->]. done.
  - destruct (shutdown w) eqn:Ep; try done; by intros [= <- <-].
Qed.

Lemma run_published es : forall w w' ls err, run rnd es w = Some (w', ls) ->
  (shutdown w = Published err \/ CloseReturns err ∈ ls) -> shutdown w' = Published err.
Proof.
  induction es as [|e es IH]; intros w w' ls err; cbn [run].
  - intros [= <- <-] [?|?%not_elem_of_nil]; done.
  - destruct (step rnd e w) as [[w1 l]|] eqn:E; [|done]. destruct (run rnd es w1) as [[w2 ls']|] eqn:E2; [|done].
    intros [= <- <-] H. destruct (step_published e w w1 l err E) as [H1 H2]. eapply IH; [done|].
    destruct H as [H|[H|H]%elem_of_cons]; [left; auto|left; auto|by right].
Qed.

(** C14. A close that reports success is true: when any call of Close has returned nil,
    every task that was queued has finished, none was dropped, no worker is left and none of
    that changes any more; all calls that return the result of the shutdown return the same.
    *)
Theorem close_means_done t0 es w ls :
  run rnd es (newWorld rnd t0) = Some (w, ls) ->
  (CloseReturns None ∈ ls ->
     finished w ≡ₚ queued w /\ dropped w = [] /\ pending (runner w) = [] /\ Forall (fun x => x = Exited) (workers w)) /\
  (forall err err', CloseReturns err ∈ ls -> CloseReturns err' ∈ ls -> err = err').
Proof.
  intros H. pose proof (inv_run _ _ _ _ (inv_new t0) H) as Hw. split.
  - intros Hn. assert (shutdown w = Published None) as Hp by (eapply run_published; [exact H|by right]).
    destruct (inv_drained w Hw) as [Ha Hpend]; [right; done|].
    assert (dropped w = []) as Hd.
    { destruct (dropped w) eqn:E; [done|]. assert (released (shutdown w)) as Hr by (apply (inv_kept w Hw); by rewrite E). by rewrite Hp in Hr. }
    split_and!; [|done|done|].
    + rewrite (inv_tasks w Hw), (inv_ran w Hw), Hd, Hpend, (allExited_running _ Ha). by rewrite !app_nil_r.
    + apply Forall_forall. intros x Hx. by eapply allExited_elem.
  - intros err err' H1 H2. assert (shutdown w = Published err) by (eapply run_published; [exact H|by right]).
    assert (shutdown w = Published err') by (eapply run_published; [exact H|by right]). congruence.
Qed.

(** Close always returns: from any state after it was called, the shutdown reaches its
    result by its own steps (the end of its context, the cancel, the grace's timer), at most
    four, without anything done by a worker or a task. *)
Theorem close_returns w :
  shutdown w <> Open ->
  exists own w' ls' err, run rnd own w = Some (w', ls') /\ shutdown w' = Published err /\ (length own <= 4)%nat /\
    Forall (fun e => e = CtxDone \/ e = Release \/ e = GraceTimer \/ e = Publish) own /\
    workers w' = workers w /\ finished w' = finished w.
Proof.
  intros Hp. destruct (shutdown w) as [| | | |err|err] eqn:E; [done|..].
  - exists [CtxDone; Release; GraceTimer; Publish]. cbn. rewrite E. cbn. do 3 eexists. split_and!; [done|done|lia|by repeat (constructor; auto)|done|done].
  - exists [Release; GraceTimer; Publish]. cbn. rewrite E. cbn. do 3 eexists. split_and!; [done|done|lia|by repeat (constructor; auto)|done|done].
  - exists [GraceTimer; Publish]. cbn. rewrite E. cbn. do 3 eexists. split_and!; [done|done|lia|by repeat (constructor; auto)|done|done].
  - exists [Publish]. cbn. rewrite E. cbn. do 3 eexists. split_and!; [done|done|lia|by repeat (constructor; auto)|done|done].
  - exists []. cbn. do 3 eexists. split_and!; [done|done|lia|constructor|done|done].
Qed.

(** ** Bounds *)

Context `{Rounding rnd}.

Lemma admit_tokens now r : (0 <= tokens r <= inject_Z backgroundBurst)%Q -> burst r = inject_Z backgroundBurst -> (0 <= rate r)%Q ->
  (0 <= tokens (admitToken rnd now r).2 <= inject_Z backgroundBurst)%Q.
Proof.
  intros Ht Hb Hr. unfold admitToken. set (x := if negb _ then _ else _).
  assert (0 <= x <= inject_Z backgroundBurst)%Q as Hx.
  { unfold x. rewrite Hb. destruct (Qle_bool (seconds rnd _) 0) eqn:E; cbn [negb]; [done|].
    destruct (Qle_bool (inject_Z backgroundBurst) _) eqn:E2; [by vm_compute; split|].
    split; [|apply Qlt_le_weak, Qnot_le_lt; rewrite <- Qle_bool_iff; congruence].
    apply (rnd_nonneg rnd). assert (0 <= rnd (seconds rnd (since now (last r)) * rate r))%Q; [|lra].
    apply (rnd_nonneg rnd). apply Qmult_le_0_compat; [|done]. apply Qlt_le_weak, Qnot_le_lt. rewrite <- Qle_bool_iff. congruence. }
  destruct (Qle_bool 1 x) eqn:E; cbn; [|done]. apply Qle_bool_iff in E. split; [apply (rnd_nonneg rnd); lra|].
  apply (rnd_le_int rnd _ backgroundBurst); [by vm_compute|]. lra.
Qed.

(** The bucket's settings do not change and its tokens stay in range. *)
Definition bucketOk (r : backgroundRunner) : Prop :=
  (0 <= tokens r <= inject_Z backgroundBurst)%Q /\ burst r = inject_Z backgroundBurst /\ (0 <= rate r)%Q.

Lemma bucketOk_same r r' : sameBucket r r' -> bucketOk r' -> bucketOk r.
Proof. intros (_ & Ht & _ & Hb & Hr). unfold bucketOk. by rewrite Ht, Hb, Hr. Qed.

Lemma admitToken_settings now r : burst (admitToken rnd now r).2 = burst r /\ rate (admitToken rnd now r).2 = rate r.
Proof. destruct (admitToken_bucket now r) as [t ->]. done. Qed.

Lemma bucketOk_admitToken now r : bucketOk r -> bucketOk (admitToken rnd now r).2.
Proof.
  intros (Ht & Hb & Hr). destruct (admitToken_settings now r) as [E1 E2]. unfold bucketOk. rewrite E1, E2.
  split_and!; [by apply admit_tokens|by apply admit_tokens|done|done].
Qed.

Lemma step_bucket e w w' l : step rnd e w = Some (w', l) -> bucketOk (runner w) -> bucketOk (runner w').
Proof.
  intros E Hb. pose proof (step_same e w w' l (runner w) E) as Hs. destruct l as [now a| | | |].
  - destruct (closed (runner w)); (destruct Hs as [_ Hs]; [done|]); eapply bucketOk_same; [exact Hs|done|exact Hs|]. by apply bucketOk_admitToken.
  - eapply bucketOk_same; [by apply Hs|]. done.
  - eapply bucketOk_same; [by apply Hs|]. done.
  - eapply bucketOk_same; [by apply Hs|]. done.
  - eapply bucketOk_same; [by apply Hs|]. done.
Qed.

Lemma run_bucket es : forall w w' ls, run rnd es w = Some (w', ls) -> bucketOk (runner w) -> bucketOk (runner w').
Proof.
  induction es as [|e es IH]; intros w w' ls; cbn [run]; [by intros [= <- <-]|].
  destruct (step rnd e w) as [[w1 l]|] eqn:E; [|done]. destruct (run rnd es w1) as [[w2 ls']|] eqn:E2; [|done].
  intros [= <- <-] Hb. eapply IH; [done|]. by eapply step_bucket.
Qed.

Lemma seconds_nonneg d : 0 <= d -> (0 <= seconds rnd d)%Q.
Proof.
  intros Hd. unfold seconds. apply (rnd_nonneg rnd).
  assert (0 <= float64 rnd (Z.quot d Second))%Q.
  { apply (rnd_nonneg rnd). change 0%Q with (inject_Z 0). rewrite <- Zle_Qle. apply Z.quot_pos; unfold Second; lia. }
  assert (0 <= rnd (float64 rnd (Z.rem d Second) / inject_Z Second))%Q; [|lra].
  apply (rnd_nonneg rnd). apply Qle_shift_div_l; [by vm_compute|]. rewrite Qmult_0_l. apply (rnd_nonneg rnd).
  change 0%Q with (inject_Z 0). rewrite <- Zle_Qle. apply Z.rem_nonneg; unfold Second; lia.
Qed.

Lemma bucketOk_new t0 : bucketOk (newBackgroundRunner rnd t0).
Proof.
  split; [by vm_compute; split|]. split; [done|]. cbn. apply (rnd_nonneg rnd). unfold Qdiv. apply Qmult_le_0_compat.
  - apply (rnd_nonneg rnd). by vm_compute.
  - apply Qinv_le_0_compat, seconds_nonneg. by vm_compute.
Qed.

(** C29. The resources are bounded whatever the work does: at every moment at most sixteen
    workers exist, at most that many tasks run, at most sixty-four wait, the bucket holds
    between none and thirty-two tokens, and every queued task has run, was dropped by the
    shutdown or waits, in the order of arrival, each once; those that ran have finished or
    are running. *)
Theorem background_bounded t0 es w ls :
  run rnd es (newWorld rnd t0) = Some (w, ls) ->
  Z.of_nat (length (workers w)) <= backgroundWorkers /\ Z.of_nat (length (running (workers w))) <= backgroundWorkers /\
  Z.of_nat (length (pending (runner w))) <= backgroundQueue /\
  (0 <= tokens (runner w) <= inject_Z backgroundBurst)%Q /\
  queued w = ran w ++ dropped w ++ pending (runner w) /\ ran w ≡ₚ running (workers w) ++ finished w /\
  (dropped w <> [] -> released (shutdown w)).
Proof.
  intros Hr. pose proof (inv_run _ _ _ _ (inv_new t0) Hr) as Hw. pose proof (run_bucket _ _ _ _ Hr (bucketOk_new t0)) as (Ht & _).
  assert (Z.of_nat (length (workers w)) <= backgroundWorkers) as Hl.
  { rewrite (inv_workers w Hw). destruct (started _); by vm_compute. }
  assert (forall ws, length (running ws) <= length ws)%nat as Hrun.
  { intros ws. unfold running. induction ws as [|[] ws IH]; cbn; lia. }
  specialize (Hrun (workers w)). split_and!; [done|lia|by apply (inv_queue w Hw)|apply Ht|apply Ht|by apply (inv_tasks w Hw)|by apply (inv_ran w Hw)|by apply (inv_kept w Hw)].
Qed.
End Facts.

(** ** A service at work *)

Definition demoRun : list event :=
  [Submit 0 1; Take 0; Submit 5 2; Take 3; Close; Submit 9 4; Finish 0; Finish 3] ++ map Exit (seq 0 16) ++ [DrainDone; Publish; JoinResult].
Definition idleRun : list event := [Submit 0 7; Submit 5 8; Close; Submit 9 9].
Definition resultOf (es : list event) : world * list label :=
  match run (fun x => x) es (newWorld (fun x => x) 0) with Some r => r | None => (newWorld (fun x => x) 0, []) end.

Lemma answers_by_arrival_witness :
  answers (resultOf demoRun).2 = answers (resultOf idleRun).2 /\ length (answers (resultOf demoRun).2) = 3%nat.
Proof.
  split; [|vm_compute; reflexivity].
  apply (answers_by_arrival (fun x => x) 0 demoRun idleRun (resultOf demoRun).1 (resultOf idleRun).1 (resultOf demoRun).2 (resultOf idleRun).2);
    vm_compute; reflexivity.
Defined.

Lemma close_means_done_witness :
  CloseReturns None ∈ (resultOf demoRun).2 /\ finished (resultOf demoRun).1 ≡ₚ queued (resultOf demoRun).1 /\
  queued (resultOf demoRun).1 = [1; 2]%nat.
Proof.
  assert (CloseReturns None ∈ (resultOf demoRun).2) as H.
  { apply list_elem_of_lookup. exists 25%nat. vm_compute. reflexivity. }
  split; [exact H|]. split; [|vm_compute; reflexivity].
  apply (close_means_done (fun x => x) 0 demoRun (resultOf demoRun).1 (resultOf demoRun).2); [vm_compute; reflexivity|exact H].
Defined.

Lemma close_returns_witness :
  exists own w' ls' err, run (fun x => x) own (resultOf [Submit 0 1; Take 0; Close]).1 = Some (w', ls') /\ shutdown w' = Published err /\
    running (workers w') = [1]%nat.
Proof.
  destruct (close_returns (fun x => x) (resultOf [Submit 0 1; Take 0; Close]).1) as (own & w' & ls' & err & H1 & H2 & _ & _ & H3 & _).
  - vm_compute. discriminate.
  - exists own, w', ls', err. split; [exact H1|]. split; [exact H2|]. rewrite H3. vm_compute. reflexivity.
Defined.

Lemma background_bounded_witness :
  Z.of_nat (length (running (workers (resultOf [Submit 0 1; Take 0; Submit 5 2; Take 3]).1))) <= backgroundWorkers /\
  running (workers (resultOf [Submit 0 1; Take 0; Submit 5 2; Take 3]).1) = [1; 2]%nat.
Proof.
  split; [|vm_compute; reflexivity].
  destruct (background_bounded (fun x => x) 0 [Submit 0 1; Take 0; Submit 5 2; Take 3] (resultOf [Submit 0 1; Take 0; Submit 5 2; Take 3]).1
    (resultOf [Submit 0 1; Take 0; Submit 5 2; Take 3]).2) as (_ & H & _); [vm_compute; reflexivity|exact H].
Defined.
