(* ===== verification/GenFiles.v ===== *)
(** * resourcegen/fstx.go, internal/atomicfile, the writes of resourcegen/generate.go

    Files a generator replaces as one transaction.  A path is the list of its names, the
    last one first; the file system maps paths to files and directories.  Every call to the
    operating system may fail: [env k] says whether the [k]-th does, and then it changes
    nothing.  Temporary files are kept apart, since CreateTemp picks a name nothing else
    has.  The rename is that of Unix (replace_other.go). *)

From stdpp Require Import base tactics numbers list strings gmap sets.
From Stdlib Require Import ZArith Lia Ascii.
From S2P Require Import Prelude GoBytes GoText StorageKey StorageOptions SchemaPlan.

Local Open Scope string_scope.
Local Open Scope list_scope.
Local Open Scope gotext_scope.
Local Open Scope Z_scope.

Abbreviation path := (list bytes) (only parsing).

Inductive node := File (content : bytes) (mode : Z) | Directory.

#[export] Instance node_eq_dec : EqDecision node.
Proof. solve_decision. Defined.

Inductive oserr :=
| NotExist
| Exists_
| NotDir
| IsDir
| NotEmpty
| Fault               (* any other failure of the system *)
| NotDurable (e : oserr).

#[export] Instance oserr_eq_dec : EqDecision oserr.
Proof. solve_decision. Defined.

Record world := mkWorld { fs : gmap path node; temps : gmap nat (path * (bytes * Z)); tick : nat }.

Definition with_fs (f : gmap path node) (w : world) : world := mkWorld f (temps w) (S (tick w)).
Definition with_temps (t : gmap nat (path * (bytes * Z))) (w : world) : world := mkWorld (fs w) t (S (tick w)).
Definition tock (w : world) : world := mkWorld (fs w) (temps w) (S (tick w)).

(** [filepath.Dir] *)
Definition Dir (p : path) : path := tail p.

Section Env.
Variable env : nat -> bool.

(** ** The operating system *)

(** Why a path is not there: an ancestor may be a file. *)
Fixpoint missing_because (f : gmap path node) (p : path) : oserr :=
  match p with
  | [] => NotExist
  | _ :: q => match f !! q with
              | Some (File _ _) => NotDir
              | Some Directory => NotExist
              | None => missing_because f q
              end
  end.

Definition osStat (p : path) (w : world) : result oserr node * world :=
  if env (tick w) then (Err Fault, tock w)
  else match fs w !! p with
  | Some n => (Ok n, tock w)
  | None => (Err (missing_because (fs w) p), tock w)
  end.

Definition osReadFile (p : path) (w : world) : result oserr bytes * world :=
  if env (tick w) then (Err Fault, tock w)
  else match fs w !! p with
  | Some (File c _) => (Ok c, tock w)
  | Some Directory => (Err IsDir, tock w)
  | None => (Err (missing_because (fs w) p), tock w)
  end.

Definition osMkdir (p : path) (w : world) : option oserr * world :=
  if env (tick w) then (Some Fault, tock w)
  else match fs w !! p with
  | Some _ => (Some Exists_, tock w)
  | None => match fs w !! Dir p with
            | Some Directory => (None, with_fs (<[p := Directory]> (fs w)) w)
            | _ => (Some (missing_because (fs w) p), tock w)
            end
  end.

(** [os.MkdirAll]: the parents first. *)
Fixpoint osMkdirAll (p : path) (w : world) : option oserr * world :=
  match fs w !! p with
  | Some Directory => (None, w)
  | Some (File _ _) => (Some NotDir, w)
  | None =>
      match p with
      | [] => (Some NotExist, w)
      | _ :: q =>
          match osMkdirAll q w with
          | (Some e, w) => (Some e, w)
          | (None, w) => osMkdir p w
          end
      end
  end.

Definition children (f : gmap path node) (p : path) : Prop := exists name n, f !! (name :: p) = Some n.

(** Whether a directory holds nothing. *)
Definition emptyDir (p : path) (w : world) : bool :=
  bool_decide (filter (fun e => Dir e.1 = p /\ e.1 <> p) (map_to_list (fs w)) = []) &&
  bool_decide (filter (fun e => e.2.1 = p) (map_to_list (temps w)) = []).

(** [os.Remove] *)
Definition osRemove (p : path) (w : world) : option oserr * world :=
  if env (tick w) then (Some Fault, tock w)
  else match fs w !! p with
  | None => (Some (missing_because (fs w) p), tock w)
  | Some (File _ _) => (None, with_fs (delete p (fs w)) w)
  | Some Directory => if emptyDir p w then (None, with_fs (delete p (fs w)) w) else (Some NotEmpty, tock w)
  end.

(** [os.CreateTemp] in a directory: a handle. *)
Definition osCreateTemp (dir : path) (w : world) : result oserr nat * world :=
  if env (tick w) then (Err Fault, tock w)
  else match fs w !! dir with
  | Some Directory => (Ok (tick w), with_temps (<[tick w := (dir, ([], 384))]> (temps w)) w)
  | _ => (Err (missing_because (fs w) dir), tock w)
  end.

(** A call on a temporary file that changes it to [g]. *)
Definition onTemp (g : bytes * Z -> bytes * Z) (h : nat) (w : world) : option oserr * world :=
  if env (tick w) then (Some Fault, tock w)
  else (None, with_temps (alter (fun '(d, c) => (d, g c)) h (temps w)) w).

Definition osRemoveTemp (h : nat) (w : world) : world :=
  if env (tick w) then tock w else with_temps (delete h (temps w)) w.

(** [replace]: rename(2) of a temporary file over [p]. *)
Definition replace (h : nat) (p : path) (w : world) : option oserr * world :=
  if env (tick w) then (Some Fault, tock w)
  else match temps w !! h, fs w !! p with
  | None, _ => (Some NotExist, tock w)
  | Some _, Some Directory => (Some IsDir, tock w)
  | Some (_, (c, m)), _ => (None, mkWorld (<[p := File c m]> (fs w)) (delete h (temps w)) (S (tick w)))
  end.

(** [syncDir]: a file system that cannot sync reports nothing. *)
Definition syncDir (w : world) : option oserr * world :=
  if env (tick w) then (Some Fault, tock w) else (None, tock w).

(** ** internal/atomicfile *)

(** [Committed] *)
Definition Committed (err : option oserr) : bool :=
  match err with None | Some (NotDurable _) => true | _ => false end.

(** The temporary file has its mode and content, synced and closed: the calls in turn. *)
Definition fillTemp (h : nat) (content : bytes) (mode : Z) (w : world) : option oserr * world :=
  match onTemp (fun c => (c.1, mode)) h w with
  | (Some e, w) => (Some e, tock w)
  | (None, w) =>
      match onTemp (fun c => (content, c.2)) h w with
      | (Some e, w) => (Some e, tock w)
      | (None, w) =>
          match onTemp id h w with
          | (Some e, w) => (Some e, tock w)
          | (None, w) => onTemp id h w
          end
      end
  end.

(** [atomicfile.Write]; the deferred removal of the temporary file is [osRemoveTemp]. *)
Definition Write (p : path) (content : bytes) (mode : Z) (w : world) : option oserr * world :=
  match osCreateTemp (Dir p) w with
  | (Err e, w) => (Some e, w)
  | (Ok h, w) =>
      match fillTemp h content mode w with
      | (Some e, w) => (Some e, osRemoveTemp h w)
      | (None, w) =>
          match replace h p w with
          | (Some e, w) => (Some e, osRemoveTemp h w)
          | (None, w) =>
              match syncDir w with
              | (Some e, w) => (Some (NotDurable e), osRemoveTemp h w)
              | (None, w) => (None, osRemoveTemp h w)
              end
          end
      end
  end.

(** ** resourcegen/fstx.go *)

Record fsStep := mkStep { sPath : path; sExisted : bool; sPrior : bytes; sMode : Z; sCreated : list path }.

(** The loop of [mkdirAllTracked]: the missing directories, deepest first. *)
Fixpoint missingDirs (d : path) (w : world) : result oserr (list path) * world :=
  match osStat d w with
  | (Ok _, w) => (Ok [], w)
  | (Err NotExist, w) =>
      match d with
      | [] => (Ok [d], w)
      | _ :: q =>
          match missingDirs q w with
          | (Ok l, w) => (Ok (d :: l), w)
          | (Err e, w) => (Err e, w)
          end
      end
  | (Err e, w) => (Err e, w)
  end.

Definition mkdirAllTracked (dir : path) (w : world) : result oserr (list path) * world :=
  match missingDirs dir w with
  | (Err e, w) => (Err e, w)
  | (Ok missing, w) =>
      match osMkdirAll dir w with
      | (Some e, w) => (Err e, w)
      | (None, w) => (Ok missing, w)
      end
  end.

Fixpoint removeDirs (dirs : list path) (w : world) : world :=
  match dirs with
  | [] => w
  | d :: dirs => removeDirs dirs (osRemove d w).2
  end.

(** [fsTx.write]; the steps are kept with the last one first. *)
Definition txWrite (steps : list fsStep) (p : path) (content : bytes) (w : world) : option oserr * list fsStep * world :=
  let finish existed prior mode w :=
    match mkdirAllTracked (Dir p) w with
    | (Err e, w) => (Some e, steps, w)
    | (Ok created, w) =>
        let '(err, w) := Write p content mode w in
        if negb (Committed err) then (err, steps, removeDirs created w)
        else (err, mkStep p existed prior mode created :: steps, w)
    end in
  match osStat p w with
  | (Err NotExist, w) => finish false [] 420 w
  | (Err e, w) => (Some e, steps, w)
  | (Ok n, w) =>
      match osReadFile p w with
      | (Err e, w) => (Some e, steps, w)
      | (Ok prior, w) => finish true prior (match n with File _ m => m | Directory => 420 end) w
      end
  end.

(** [cmp.Or] of two errors *)
Definition orErr (a b : option oserr) : option oserr := match a with Some _ => a | None => b end.

(** [fsTx.rollback]: the first undo that did not happen, and the first that is not durable. *)
Fixpoint rollback (steps : list fsStep) (failed notDurable : option oserr) (w : world) : option oserr * option oserr * world :=
  match steps with
  | [] => (failed, notDurable, w)
  | s :: steps =>
      let '(failed, notDurable, w) :=
        if sExisted s then
          let '(err, w) := Write (sPath s) (sPrior s) (sMode s) w in
          if negb (Committed err) then (orErr failed err, notDurable, w)
          else match err with
               | Some e => (failed, orErr notDurable (Some e), w)
               | None => (failed, notDurable, w)
               end
        else match osRemove (sPath s) w with
             | (None, w) | (Some NotExist, w) => (failed, notDurable, w)
             | (Some e, w) => (orErr failed (Some e), notDurable, w)
             end in
      rollback steps failed notDurable (removeDirs (sCreated s) w)
  end.

(** What [rollbackNote] reports after an error. *)
Inductive note := RolledBack | RollbackFailed (e : oserr) | NotSynced (e : oserr).

Definition rollbackNote (steps : list fsStep) (w : world) : note * world :=
  match rollback steps None None w with
  | (Some e, _, w) => (RollbackFailed e, w)
  | (None, Some e, w) => (NotSynced e, w)
  | (None, None, w) => (RolledBack, w)
  end.

(** ** The plan of resourcegen/generate.go *)

Record plannedFile := mkPlanned { relPath : bytes; action : bytes; pContent : bytes; pWrite : bool }.
Record fileSpec := mkSpec { fRel : bytes; fContent : bytes; fOwned : bool; fSeedOnce : bool }.
Inductive Ownership := GeneratorOwned | SeedOnce.
Record GeneratedArtifact := mkArtifact { aPath : bytes; aContent : bytes; aOwnership : Ownership }.

Definition GeneratedBanner : bytes := &"Code generated by gombit make resource. DO NOT EDIT.".
Definition resourcesTSRel : bytes := &"frontend/src/resources.tsx".

Inductive planError := ReadFailed (rel : bytes) (e : oserr) | RefuseGenerated (rel : bytes) | RefuseForeign (rel : bytes).

(** [filepath.Join(WorkDir, relPath)] *)
Variable full : bytes -> path.

Definition checkOverwrite (existing : bytes) (file : fileSpec) (force : bool) : option planError :=
  if force then None
  else if fOwned file then None
  else if beqb (fRel file) resourcesTSRel && Contains existing GeneratedBanner then None
  else if Contains existing GeneratedBanner then Some (RefuseGenerated (fRel file))
  else Some (RefuseForeign (fRel file)).

(** What a file holds before the run; [None] when it does not exist. *)
Definition readExisting (rel : bytes) (w : world) : result planError (option bytes) * world :=
  match osReadFile (full rel) w with
  | (Ok c, w) => (Ok (Some c), w)
  | (Err NotExist, w) => (Ok None, w)
  | (Err e, w) => (Err (ReadFailed rel e), w)
  end.

Fixpoint planWrites (force : bool) (files : list fileSpec) (w : world) : result planError (list plannedFile) * world :=
  match files with
  | [] => (Ok [], w)
  | file :: files =>
      let item (act : bytes) (write : bool) := mkPlanned (fRel file) act (if write then fContent file else []) write in
      let continue (o : option plannedFile) w :=
        match planWrites force files w with
        | (Ok l, w) => (Ok (option_list o ++ l), w)
        | (Err e, w) => (Err e, w)
        end in
      match readExisting (fRel file) w with
      | (Err e, w) => (Err e, w)
      | (Ok None, w) => continue (Some (item (&"create") true)) w
      | (Ok (Some existing), w) =>
          if beqb existing (fContent file) then continue None w
          else if fSeedOnce file && negb force then continue (Some (item (&"keep") false)) w
          else match checkOverwrite existing file force with
               | Some e => (Err e, w)
               | None => continue (Some (item (&"modify") true)) w
               end
      end
  end.

Definition resolveArtifact (art : GeneratedArtifact) (w : world) : result planError plannedFile * world :=
  let item (act : bytes) (write : bool) := mkPlanned (aPath art) act (if write then aContent art else []) write in
  match readExisting (aPath art) w with
  | (Err e, w) => (Err e, w)
  | (Ok existing, w) =>
      match aOwnership art, existing with
      | SeedOnce, Some _ => (Ok (item (&"keep") false), w)
      | SeedOnce, None => (Ok (item (&"seed") true), w)
      | GeneratorOwned, Some c =>
          if beqb c (aContent art) then (Ok (item (&"keep") false), w) else (Ok (item (&"modify") true), w)
      | GeneratorOwned, None => (Ok (item (&"create") true), w)
      end
  end.

Fixpoint resolveArtifacts (arts : list GeneratedArtifact) (w : world) : result planError (list plannedFile) * world :=
  match arts with
  | [] => (Ok [], w)
  | a :: arts =>
      match resolveArtifact a w with
      | (Err e, w) => (Err e, w)
      | (Ok item, w) =>
          match resolveArtifacts arts w with
          | (Ok l, w) => (Ok (item :: l), w)
          | (Err e, w) => (Err e, w)
          end
      end
  end.

(** [sort.Slice] on the paths; two entries of one path, whose order Go leaves open, keep
    the order they came in. *)
Fixpoint insertPlanned (x : plannedFile) (l : list plannedFile) : list plannedFile :=
  match l with
  | [] => [x]
  | y :: l => if bytes_leb (relPath x) (relPath y) then x :: y :: l else y :: insertPlanned x l
  end.

(** [ResourcePlan.resolve] *)
Definition resolve (force : bool) (files : list fileSpec) (arts : list GeneratedArtifact) (w : world) :
    result planError (list plannedFile) * world :=
  match planWrites force files w with
  | (Err e, w) => (Err e, w)
  | (Ok planned, w) =>
      match resolveArtifacts arts w with
      | (Err e, w) => (Err e, w)
      | (Ok l, w) => (Ok (foldr insertPlanned [] (planned ++ l)), w)
      end
  end.

(** What [applyWrites] returns: nil, or an error with what the rollback did. *)
Inductive applied := Applied | Failed (e : oserr) (n : note).

(** Whether printing an action fails. *)
Variable stdout : nat -> bool.

(** [applyWrites]; the printing at [tick] is a call like any other. *)
Fixpoint applyLoop (steps : list fsStep) (planned : list plannedFile) (w : world) : applied * world :=
  match planned with
  | [] => (Applied, w)
  | item :: planned =>
      if stdout (tick w) then let '(n, w) := rollbackNote steps (tock w) in (Failed Fault n, w)
      else
        let w := tock w in
        if negb (pWrite item) then applyLoop steps planned w
        else match txWrite steps (full (relPath item)) (pContent item) w with
             | (Some e, steps, w) => let '(n, w) := rollbackNote steps w in (Failed e n, w)
             | (None, steps, w) => applyLoop steps planned w
             end
  end.

Definition applyWrites (planned : list plannedFile) (w : world) : applied * world := applyLoop [] planned w.

Inductive outcome := PlanFailed (e : planError) | Ran (a : applied).

(** [ResourcePlan.Apply] *)
Definition Apply (force : bool) (files : list fileSpec) (arts : list GeneratedArtifact) (w : world) : outcome * world :=
  match resolve force files arts w with
  | (Err e, w) => (PlanFailed e, w)
  | (Ok planned, w) => let '(a, w) := applyWrites planned w in (Ran a, w)
  end.
End Env.
