(* ===== verification/GenFilesFacts.v ===== *)
(** * The generator's writes: together or not at all

    The files after a run are those of the plan, or those there were before it; without a
    failing call the directories are as well; and a developer's file is not overwritten. *)

From stdpp Require Import base tactics numbers list strings gmap sets.
From Stdlib Require Import ZArith Lia Ascii.
From S2P Require Import Prelude GoBytes GoText StorageKey StorageOptions SchemaPlan GenFiles.

Local Open Scope string_scope.
Local Open Scope list_scope.
Local Open Scope gotext_scope.
Local Open Scope Z_scope.

Definition fileOf (n : node) : option (bytes * Z) := match n with File c m => Some (c, m) | Directory => None end.
Definition filesOf (f : gmap path node) : gmap path (bytes * Z) := omap fileOf f.

(** The root is a directory and every file and directory is in one. *)
Definition wf (f : gmap path node) : Prop :=
  f !! [] = Some Directory /\ forall x p n, f !! (x :: p) = Some n -> f !! p = Some Directory.

Lemma filesOf_lookup f p : filesOf f !! p = f !! p ≫= fileOf.
Proof. apply lookup_omap. Qed.

Lemma filesOf_insert_file f p c m : filesOf (<[p := File c m]> f) = <[p := (c, m)]> (filesOf f).
Proof. unfold filesOf. by rewrite omap_insert_Some with (y := (c, m)). Qed.

Lemma filesOf_insert_dir f p : f !! p = None -> filesOf (<[p := Directory]> f) = filesOf f.
Proof.
  intros Hn. unfold filesOf. rewrite omap_insert_None by done. apply delete_id. by rewrite lookup_omap, Hn.
Qed.

Lemma filesOf_delete f p : filesOf (delete p f) = delete p (filesOf f).
Proof. apply omap_delete. Qed.

Section Facts.
Variable env : nat -> bool.

(** ** One write *)

Lemma fillTemp_fs h c m w err w' : fillTemp env h c m w = (err, w') -> fs w' = fs w.
Proof. unfold fillTemp, onTemp. intros H. repeat (case_match; simplify_eq; try done). Qed.

Lemma fillTemp_done h c m w w' d x : temps w !! h = Some (d, x) ->
  fillTemp env h c m w = (None, w') -> temps w' !! h = Some (d, (c, m)).
Proof.
  unfold fillTemp, onTemp. intros Ht H. repeat (case_match; simplify_eq; try done). cbn. by rewrite !lookup_alter_eq, Ht.
Qed.

Lemma missing_not_committed f q : Committed (Some (missing_because f q)) = false.
Proof. induction q as [|x q IH]; [done|]. cbn [missing_because]. by repeat case_match. Qed.

(** After a write the target holds what it held or the new content, whole, as
    [Committed] says, and nothing else changed. *)
Lemma Write_spec p c m w err w' : Write env p c m w = (err, w') ->
  (Committed err = true /\ fs w' = <[p := File c m]> (fs w) /\ fs w !! p <> Some Directory) \/
  (Committed err = false /\ fs w' = fs w).
Proof.
  unfold Write. destruct (osCreateTemp env (Dir p) w) as [[h|e] w1] eqn:E1; cycle 1.
  { unfold osCreateTemp in E1. intros [= <- <-]. right. repeat (case_match; simplify_eq; try done).
    all: split; [apply missing_not_committed|done]. }
  assert (fs w1 = fs w /\ exists d x, temps w1 !! h = Some (d, x)) as [F1 (d & x & T1)].
  { unfold osCreateTemp in E1. repeat (case_match; simplify_eq; try done). split; [done|]. exists (Dir p), ([], 384). cbn. by rewrite lookup_insert_eq. }
  destruct (fillTemp env h c m w1) as [[e|] w2] eqn:E2.
  { pose proof (fillTemp_fs _ _ _ _ _ _ E2) as F2. intros [= <- <-]. right. split.
    - unfold fillTemp, onTemp in E2. by repeat (case_match; simplify_eq; try done).
    - unfold osRemoveTemp. case_match; cbn; congruence. }
  pose proof (fillTemp_fs _ _ _ _ _ _ E2) as F2. pose proof (fillTemp_done _ _ _ _ _ _ _ T1 E2) as T2.
  unfold replace. destruct (env (tick w2)).
  { intros [= <- <-]. right. split; [done|]. unfold osRemoveTemp. case_match; cbn; congruence. }
  rewrite T2. assert (fs w2 = fs w) as F by congruence. rewrite F. destruct (fs w !! p) as [[? ?|]|] eqn:Ep.
  - unfold syncDir, osRemoveTemp. intros H. left. repeat (case_match; simplify_eq; try done).
  - intros [= <- <-]. right. split; [done|]. unfold osRemoveTemp. case_match; cbn; congruence.
  - unfold syncDir, osRemoveTemp. intros H. left. repeat (case_match; simplify_eq; try done).
Qed.

(** ** Directories *)

Lemma osStat_fs p w : fs (osStat env p w).2 = fs w.
Proof. unfold osStat. by repeat case_match. Qed.

Lemma osStat_missing p w w' : osStat env p w = (Err NotExist, w') -> fs w !! p = None.
Proof. unfold osStat. intros H. by repeat (case_match; simplify_eq). Qed.

Lemma osReadFile_spec p w r w' : osReadFile env p w = (r, w') ->
  fs w' = fs w /\ (forall c, r = Ok c -> exists m, fs w !! p = Some (File c m)) /\ (r = Err NotExist -> fs w !! p = None).
Proof. unfold osReadFile. intros H. repeat (case_match; simplify_eq; try done); naive_solver. Qed.

Lemma osStat_Ok p w n w' : osStat env p w = (Ok n, w') -> fs w !! p = Some n.
Proof. unfold osStat. intros H. by repeat (case_match; simplify_eq). Qed.

Lemma missingDirs_spec d : forall w r w', missingDirs env d w = (r, w') ->
  fs w' = fs w /\ forall l, r = Ok l -> Forall (fun x => fs w !! x = None) l.
Proof.
  induction d as [|x q IH]; intros w r w'; cbn [missingDirs].
  - pose proof (osStat_fs [] w) as Hf. destruct (osStat env [] w) as [[n|e] w1] eqn:E; cbn [snd] in Hf.
    + intros [= <- <-]. split; [done|]. by intros l [= <-].
    + destruct e; intros [= <- <-]; (split; [done|]); try done. intros l [= <-]. apply osStat_missing in E. by repeat constructor.
  - pose proof (osStat_fs (x :: q) w) as Hf. destruct (osStat env (x :: q) w) as [[n|e] w1] eqn:E; cbn [snd] in Hf.
    + intros [= <- <-]. split; [done|]. by intros l [= <-].
    + destruct e; try (intros [= <- <-]; by split). apply osStat_missing in E.
      destruct (missingDirs env q w1) as [[l|e] w2] eqn:E2; apply IH in E2 as [Hf2 Hl]; intros [= <- <-]; (split; [congruence|]); [|done].
      intros l' [= <-]. constructor; [done|]. rewrite <- Hf. by apply Hl.
Qed.

Lemma osMkdir_spec p w err w' : osMkdir env p w = (err, w') ->
  (err = None /\ fs w !! p = None /\ fs w' = <[p := Directory]> (fs w)) \/ (err <> None /\ fs w' = fs w).
Proof. unfold osMkdir. intros H. repeat (case_match; simplify_eq; try (by right)). by left. Qed.

Lemma osMkdirAll_spec p : forall w err w', osMkdirAll env p w = (err, w') ->
  filesOf (fs w') = filesOf (fs w) /\ fs w ⊆ fs w' /\ (err = None -> fs w' !! p = Some Directory).
Proof.
  induction p as [|x q IH]; intros w err w'; cbn [osMkdirAll].
  - destruct (fs w !! []) as [[? ?|]|] eqn:E; intros [= <- <-]; done.
  - destruct (fs w !! (x :: q)) as [[? ?|]|] eqn:E; [by intros [= <- <-]..|].
    destruct (osMkdirAll env q w) as [[e|] w1] eqn:E1; apply IH in E1 as (H1 & H2 & H3); [by intros [= <- <-]|].
    intros [(-> & Hn & Hf)|[He Hf]]%osMkdir_spec; rewrite Hf; [|done]. split_and!.
    + by rewrite filesOf_insert_dir.
    + etransitivity; [exact H2|]. by apply insert_subseteq.
    + intros _. by rewrite lookup_insert_eq.
Qed.

Lemma mkdir_created d : forall w l w1 w1' w2, missingDirs env d w = (Ok l, w1) -> fs w1' = fs w ->
  osMkdirAll env d w1' = (None, w2) -> Forall (fun x => fs w2 !! x = Some Directory) l.
Proof.
  induction d as [|x q IH]; intros w l w1 w1' w2; cbn [missingDirs osMkdirAll]; intros H Hf.
  - destruct (osStat env [] w) as [[n|e] w3] eqn:E; [by injection H as <- <-|]. destruct e; try done.
    rewrite Hf, (osStat_missing _ _ _ E). done.
  - pose proof (osStat_fs (x :: q) w) as Hs. destruct (osStat env (x :: q) w) as [[n|e] w3] eqn:E; cbn [snd] in Hs; [by injection H as <- <-|].
    destruct e; try done. rewrite Hf, (osStat_missing _ _ _ E).
    destruct (missingDirs env q w3) as [[l'|e] w4] eqn:E2; [|done]. injection H as <- <-.
    destruct (osMkdirAll env q w1') as [[e|] w5] eqn:E3; [done|]. intros [(_ & Hn & Hf2)|[He _]]%osMkdir_spec; [|done].
    rewrite Hf2. constructor; [by rewrite lookup_insert_eq|].
    assert (Forall (fun x => fs w5 !! x = Some Directory) l') as Hl by (eapply IH; [exact E2|by rewrite Hf, Hs|exact E3]).
    eapply Forall_impl; [exact Hl|]. cbn. intros y Hy. rewrite lookup_insert_ne; [done|]. intros <-. congruence.
Qed.

Definition notFile (f : gmap path node) (d : path) : Prop := forall c m, f !! d <> Some (File c m).

Lemma osRemove_spec p w err w' : osRemove env p w = (err, w') ->
  (err = None /\ fs w' = delete p (fs w) /\ is_Some (fs w !! p)) \/ (err <> None /\ fs w' = fs w /\ (err = Some NotExist -> fs w !! p = None)).
Proof.
  unfold osRemove. destruct (env (tick w)); [intros [= <- <-]; by right|].
  destruct (fs w !! p) as [[c m|]|] eqn:E; [intros [= <- <-]; left; by eauto| |intros [= <- <-]; by right].
  destruct (emptyDir p w); intros [= <- <-]; [left; by eauto|by right].
Qed.

Lemma filesOf_delete_dir f d : notFile f d -> filesOf (delete d f) = filesOf f.
Proof.
  intros Hd. rewrite filesOf_delete. apply delete_id. rewrite filesOf_lookup. destruct (f !! d) as [[c m|]|] eqn:E; [|done|done]. by destruct (Hd c m).
Qed.

Lemma notFile_delete f d q : notFile f d -> notFile (delete q f) d.
Proof. intros H c m. destruct (decide (q = d)) as [->|?]; [by rewrite lookup_delete_eq|]. rewrite lookup_delete_ne by done. apply H. Qed.

Lemma removeDirs_spec l : forall w, Forall (notFile (fs w)) l ->
  filesOf (fs (removeDirs env l w)) = filesOf (fs w) /\ fs (removeDirs env l w) ⊆ fs w /\
  forall q, (q ∉ l) -> fs (removeDirs env l w) !! q = fs w !! q.
Proof.
  induction l as [|d l IH]; intros w Hl; cbn [removeDirs]; [done|]. apply Forall_cons in Hl as [Hd Hl].
  destruct (osRemove env d w) as [err w1] eqn:E. cbn [snd]. apply osRemove_spec in E as [(_ & Hf & _)|(_ & Hf & _)].
  - destruct (IH w1) as (H1 & H2 & H3).
    { rewrite Hf. eapply Forall_impl; [exact Hl|]. intros x Hx. by apply notFile_delete. }
    rewrite Hf in *. split_and!.
    + rewrite H1. by apply filesOf_delete_dir.
    + etransitivity; [exact H2|]. apply delete_subseteq.
    + intros q Hq. apply not_elem_of_cons in Hq as [? ?]. rewrite H3 by done. by rewrite lookup_delete_ne.
  - destruct (IH w1) as (H1 & H2 & H3); [by rewrite Hf|]. rewrite Hf in *. split_and!; [done|done|].
    intros q Hq. apply not_elem_of_cons in Hq as [? ?]. by apply H3.
Qed.

(** ** The transaction *)

(** A step undone, on the files. *)
Definition undo1 (F : gmap path (bytes * Z)) (s : fsStep) : gmap path (bytes * Z) :=
  if sExisted s then <[sPath s := (sPrior s, sMode s)]> F else delete (sPath s) F.
Definition undoFiles (steps : list fsStep) (F : gmap path (bytes * Z)) : gmap path (bytes * Z) := fold_left undo1 steps F.

(** The steps undo what was done to the files [F0]; their targets are files and the
    directories they created are there. *)
Record undoable (F0 : gmap path (bytes * Z)) (steps : list fsStep) (w : world) : Prop := {
  un_files : undoFiles steps (filesOf (fs w)) = F0;
  un_paths : Forall (fun s => exists x, filesOf (fs w) !! sPath s = Some x) steps;
  un_dirs : Forall (fun s => Forall (fun d => fs w !! d = Some Directory) (sCreated s)) steps }.

Lemma undoable_mono F0 steps w w' : undoable F0 steps w -> filesOf (fs w') = filesOf (fs w) ->
  (forall s d, s ∈ steps -> d ∈ sCreated s -> fs w !! d = Some Directory -> fs w' !! d = Some Directory) -> undoable F0 steps w'.
Proof.
  intros [H1 H2 H3] Hf Hd. split; [by rewrite Hf|by rewrite Hf|]. rewrite Forall_forall in *. intros s Hs.
  specialize (H3 s Hs). rewrite Forall_forall in *. intros d Hin. by eapply Hd; eauto.
Qed.

(** The files after a write of [c] at [p]: a file that was there keeps its mode. *)
Definition written (p : path) (c : bytes) (F : gmap path (bytes * Z)) : gmap path (bytes * Z) :=
  <[p := (c, match F !! p with Some (_, m) => m | None => 420 end)]> F.

Lemma mkdirAllTracked_spec d w r w' : mkdirAllTracked env d w = (r, w') ->
  filesOf (fs w') = filesOf (fs w) /\ fs w ⊆ fs w' /\
  forall l, r = Ok l -> Forall (fun x => fs w !! x = None /\ fs w' !! x = Some Directory) l.
Proof.
  unfold mkdirAllTracked. destruct (missingDirs env d w) as [[l|e] w1] eqn:E1; pose proof (missingDirs_spec _ _ _ _ E1) as [Hf Hl].
  - destruct (osMkdirAll env d w1) as [[e|] w2] eqn:E2; pose proof (osMkdirAll_spec _ _ _ _ E2) as (H1 & H2 & _); rewrite Hf in H1, H2;
      intros [= <- <-]; (split_and!; [done|done|]); [done|].
    intros l' [= <-]. pose proof (mkdir_created _ _ _ _ _ _ E1 Hf E2) as Hd. specialize (Hl l eq_refl).
    rewrite Forall_forall in *. naive_solver.
  - intros [= <- <-]. by rewrite Hf.
Qed.

Lemma subseteq_dir (f g : gmap path node) d : f ⊆ g -> f !! d = Some Directory -> g !! d = Some Directory.
Proof. intros Hs Hd. by apply (lookup_weaken f g). Qed.

(** The part of [txWrite] that makes the directories and writes. *)
Lemma txWrite_finish F0 steps p c w w1 existed prior mode err steps' w' :
  undoable F0 steps w -> fs w1 = fs w ->
  (if existed : bool then filesOf (fs w) !! p = Some (prior, mode) else fs w !! p = None /\ mode = 420) ->
  match mkdirAllTracked env (Dir p) w1 with
  | (Err e, w) => (Some e, steps, w)
  | (Ok created, w) =>
      let '(err, w) := Write env p c mode w in
      if negb (Committed err) then (err, steps, removeDirs env created w)
      else (err, mkStep p existed prior mode created :: steps, w)
  end = (err, steps', w') ->
  undoable F0 steps' w' /\ (err = None -> filesOf (fs w') = written p c (filesOf (fs w))).
Proof.
  intros Hu Hf Hp. destruct (mkdirAllTracked env (Dir p) w1) as [[l|e] w2] eqn:E1; pose proof (mkdirAllTracked_spec _ _ _ _ E1) as (M1 & M2 & M3);
    rewrite Hf in M1, M2; cycle 1.
  { intros [= <- <- <-]. split; [|done]. eapply undoable_mono; [exact Hu|done|]. intros s d _ _. by apply subseteq_dir. }
  specialize (M3 l eq_refl). rewrite Hf in M3.
  assert (filesOf (fs w) !! p = if existed then Some (prior, mode) else None) as Hfile.
  { destruct existed; [done|]. rewrite filesOf_lookup. by destruct Hp as [-> _]. }
  destruct (Write env p c mode w2) as [err' w3] eqn:E2. apply Write_spec in E2 as [(Hc & H3 & Hnd)|(Hc & H3)]; rewrite Hc; cbn [negb].
  - intros [= <- <- <-]. destruct Hu as [U1 U2 U3].
    assert (filesOf (fs w3) = <[p := (c, mode)]> (filesOf (fs w))) as Hw3 by (by rewrite H3, filesOf_insert_file, M1). split.
    + split.
      * cbn [undoFiles fold_left]. rewrite <- U1. unfold undoFiles. f_equal. unfold undo1. cbn [sExisted sPath sPrior sMode]. rewrite Hw3.
        destruct existed; [by rewrite insert_insert_eq, insert_id|by rewrite delete_insert_id].
      * rewrite Hw3. constructor; [exists (c, mode); by rewrite lookup_insert_eq|]. eapply Forall_impl; [exact U2|]. cbv beta.
        intros s [x Hx]. destruct (decide (p = sPath s)) as [->|Hne]; [exists (c, mode); by rewrite lookup_insert_eq|exists x; by rewrite lookup_insert_ne].
      * assert (forall d, fs w2 !! d = Some Directory -> fs w3 !! d = Some Directory) as Hd.
        { intros d Hd. rewrite H3, lookup_insert_ne; [done|]. by intros <-. }
        constructor; [cbn; eapply Forall_impl; [exact M3|]; cbv beta; intros x [_ ?]; auto|].
        eapply Forall_impl; [exact U3|]. cbv beta. intros s Hs. eapply Forall_impl; [exact Hs|]. cbv beta. intros x Hx. by apply Hd, (subseteq_dir (fs w)).
    + intros _. rewrite Hw3. unfold written. rewrite Hfile. destruct existed; [done|]. by destruct Hp as [_ ->].
  - intros [= <- <- <-]. split; [|intros ->; done].
    destruct (removeDirs_spec l w3) as (R1 & R2 & R3).
    { rewrite H3. eapply Forall_impl; [exact M3|]. intros x [_ Hx] c' m'. congruence. }
    eapply undoable_mono; [exact Hu|congruence|]. intros s d Hs Hd Hdir. rewrite R3; [rewrite H3; by eapply subseteq_dir|].
    intros Hin. rewrite Forall_forall in M3. destruct (M3 d Hin) as [? _]. congruence.
Qed.

Lemma txWrite_spec F0 steps p c w err steps' w' : undoable F0 steps w -> txWrite env steps p c w = (err, steps', w') ->
  undoable F0 steps' w' /\ (err = None -> filesOf (fs w') = written p c (filesOf (fs w))).
Proof.
  intros Hu. unfold txWrite. pose proof (osStat_fs p w) as Hs. destruct (osStat env p w) as [[n|e] w1] eqn:E1; cbn [snd] in Hs.
  - destruct (osReadFile env p w1) as [[prior|e] w2] eqn:E2; apply osReadFile_spec in E2 as (Hr & Hc & _); rewrite Hs in *; cycle 1.
    { intros [= <- <- <-]. split; [|done]. eapply undoable_mono; [exact Hu|by rewrite Hr|]. intros s d _ _. by rewrite Hr. }
    destruct (Hc prior eq_refl) as [m Hm]. apply osStat_Ok in E1. assert (n = File prior m) as -> by congruence.
    apply txWrite_finish; [done|done|]. by rewrite filesOf_lookup, Hm.
  - destruct e; try (intros [= <- <- <-]; split; [|done]; eapply undoable_mono; [exact Hu|by rewrite Hs|]; intros s d _ _; by rewrite Hs).
    apply osStat_missing in E1. by apply txWrite_finish.
Qed.

(** ** Undoing *)

Lemma rollback_failed_mono steps : forall e n w, exists e' n' w', rollback env steps (Some e) n w = (Some e', n', w').
Proof.
  induction steps as [|s steps IH]; intros e n w; cbn [rollback]; [eauto|].
  repeat (case_match; simplify_eq; try (cbn [orErr]); try apply IH).
Qed.

(** When nothing failed, the rollback put the files back. *)
Lemma rollback_files steps : forall n w n' w',
  Forall (fun s => Forall (notFile (fs w)) (sCreated s)) steps ->
  (forall s s' d, s ∈ steps -> s' ∈ steps -> d ∈ sCreated s' -> sPath s <> d) ->
  rollback env steps None n w = (None, n', w') -> filesOf (fs w') = undoFiles steps (filesOf (fs w)).
Proof.
  induction steps as [|s steps IH]; intros n w n' w' Hd Hp; cbn [rollback]; [by intros [= <- <-]|].
  apply Forall_cons in Hd as [Hds Hd].
  assert (forall w1 nn, filesOf (fs w1) = undo1 (filesOf (fs w)) s ->
    (forall d, (exists s', s' ∈ s :: steps /\ d ∈ sCreated s') -> notFile (fs w) d -> notFile (fs w1) d) ->
    rollback env steps None nn (removeDirs env (sCreated s) w1) = (None, n', w') -> filesOf (fs w') = undoFiles (s :: steps) (filesOf (fs w))) as Go.
  { intros w1 nn Hf Hnf Hr. destruct (removeDirs_spec (sCreated s) w1) as (R1 & R2 & _).
    { rewrite Forall_forall in *. intros d Hin. apply Hnf; [exists s; split; [left|done]|auto]. }
    apply IH in Hr.
    - rewrite Hr, R1, Hf. done.
    - rewrite Forall_forall in *. intros s' Hs'. specialize (Hd s' Hs'). rewrite Forall_forall in *. intros d Hin c m Hl.
      eapply (Hnf d); [exists s'; split; [by right|done]|by apply Hd|]. eapply lookup_weaken; [exact Hl|done].
    - intros a b d Ha Hb. apply Hp; by right. }
  destruct (sExisted s) eqn:Ex.
  - destruct (Write env (sPath s) (sPrior s) (sMode s) w) as [err w1] eqn:E. apply Write_spec in E as [(Hc & Hf & _)|(Hc & Hf)]; rewrite Hc; cbn [negb].
    + assert (filesOf (fs w1) = undo1 (filesOf (fs w)) s) as H1 by (unfold undo1; by rewrite Ex, Hf, filesOf_insert_file).
      assert (forall d, (exists s', s' ∈ s :: steps /\ d ∈ sCreated s') -> notFile (fs w) d -> notFile (fs w1) d) as H2.
      { intros d (s' & Hs' & Hin) Hnf c m. rewrite Hf, lookup_insert_ne; [apply Hnf|]. eapply Hp; [left|exact Hs'|done]. }
      destruct err as [e|]; by apply Go.
    + destruct err as [e|]; [|done]. cbn [orErr]. intros H. destruct (rollback_failed_mono steps e n (removeDirs env (sCreated s) w1)) as (? & ? & ? & Hm). congruence.
  - destruct (osRemove env (sPath s) w) as [err w1] eqn:E. apply osRemove_spec in E as [(-> & Hf & _)|(Hne & Hf & Hnx)].
    + apply Go; [unfold undo1; by rewrite Ex, Hf, filesOf_delete|]. intros d _ Hnf. rewrite Hf. by apply notFile_delete.
    + destruct err as [e|]; [|done]. destruct (decide (e = NotExist)) as [->|Hx].
      * apply Go; [|by rewrite Hf]. unfold undo1. rewrite Ex, Hf. symmetry. apply delete_id. rewrite filesOf_lookup. by rewrite Hnx.
      * intros H. exfalso. assert (exists x y z, rollback env steps (Some e) n (removeDirs env (sCreated s) w1) = (Some x, y, z)) as (x & y & z & Hm) by apply rollback_failed_mono.
        destruct e; try done; cbn [orErr] in H; congruence.
Qed.

Lemma undoable_rollback F0 steps w n' w' : undoable F0 steps w -> rollback env steps None None w = (None, n', w') -> filesOf (fs w') = F0.
Proof.
  intros [U1 U2 U3] H. rewrite <- U1. apply rollback_files in H; [done|..].
  - eapply Forall_impl; [exact U3|]. cbv beta. intros s Hs. eapply Forall_impl; [exact Hs|]. intros d Hd c m. congruence.
  - intros s s' d Hs Hs' Hd E. subst d. rewrite Forall_forall in U2, U3. destruct (U2 s Hs) as [x Hx]. specialize (U3 s' Hs').
    rewrite Forall_forall in U3. specialize (U3 _ Hd). by rewrite filesOf_lookup, U3 in Hx.
Qed.

(** ** The run *)

Variable full : bytes -> path.
Variable stdout : nat -> bool.

(** The files after the writes of a plan. *)
Definition planned1 (F : gmap path (bytes * Z)) (item : plannedFile) : gmap path (bytes * Z) :=
  if pWrite item then written (full (relPath item)) (pContent item) F else F.

Lemma applyLoop_spec planned : forall F0 steps w a w', undoable F0 steps w ->
  applyLoop env full stdout steps planned w = (a, w') ->
  match a with
  | Applied => filesOf (fs w') = fold_left planned1 planned (filesOf (fs w))
  | Failed _ n => (forall e, n <> RollbackFailed e) -> filesOf (fs w') = F0
  end.
Proof.
  assert (forall F0 steps w e a w', undoable F0 steps w -> (let '(n, w) := rollbackNote env steps w in (Failed e n, w)) = (a, w') ->
    match a with Applied => False | Failed _ n => (forall e, n <> RollbackFailed e) -> filesOf (fs w') = F0 end) as Roll.
  { intros F0 steps w e a w' Hu. unfold rollbackNote. destruct (rollback env steps None None w) as [[[x|] [y|]] w1] eqn:E; intros [= <- <-]; intros Hn.
    - by destruct (Hn x).
    - by destruct (Hn x).
    - by eapply undoable_rollback.
    - by eapply undoable_rollback. }
  induction planned as [|item planned IH]; intros F0 steps w a w' Hu; cbn [applyLoop]; [by intros [= <- <-]|].
  assert (undoable F0 steps (tock w)) as Hu' by (destruct Hu; by split).
  destruct (stdout (tick w)).
  { intros H. apply (Roll F0) in H; [|done]. by destruct a. }
  cbn [fold_left]. unfold planned1 at 2. destruct (pWrite item); cbn [negb]; [|by apply (IH F0 steps (tock w))].
  destruct (txWrite env steps (full (relPath item)) (pContent item) (tock w)) as [[err steps'] w1] eqn:E.
  apply (txWrite_spec F0) in E as [Hu1 Hok]; [|done]. destruct err as [e|].
  - intros H. apply (Roll F0) in H; [|done]. by destruct a.
  - intros H. apply (IH F0) in H; [|done]. rewrite (Hok eq_refl) in H. exact H.
Qed.

(** C13. The generator's files land together or not at all, whatever call fails and however
    often: a run that succeeds leaves exactly the planned contents, each file with the mode
    it had, and every other file as it was; a run that fails leaves every file as it was
    before, unless the error says that the rollback failed. *)
Theorem generated_files_atomic planned w a w' :
  applyWrites env full stdout planned w = (a, w') ->
  match a with
  | Applied => filesOf (fs w') = fold_left planned1 planned (filesOf (fs w))
  | Failed _ n => (forall e, n <> RollbackFailed e) -> filesOf (fs w') = filesOf (fs w)
  end.
Proof. unfold applyWrites. intros H. apply (applyLoop_spec _ (filesOf (fs w))) in H; [done|]. by split. Qed.
End Facts.

(** ** Without a failing call *)

Section NoFault.
Local Abbreviation sound := (fun _ : nat => false).
Local Abbreviation at_ f k := (mkWorld f ∅ k).

Lemma emptyDir_true (p : path) f k : (forall x, f !! (x :: p) = None) -> emptyDir p (at_ f k) = true.
Proof.
  intros Hc. unfold emptyDir. cbn [fs temps]. rewrite map_to_list_empty.
  rewrite bool_decide_eq_true_2; [done|]. destruct (filter _ _) as [|[q n] l] eqn:E; [done|]. exfalso.
  assert ((q, n) ∈ filter (fun e : path * node => Dir e.1 = p /\ e.1 <> p) (map_to_list f)) as Hin by (rewrite E; left).
  apply list_elem_of_filter in Hin as [[Hd Hne] Hin]. cbn in Hd, Hne. apply elem_of_map_to_list in Hin.
  destruct q as [|x q]; cbn in Hd; [by subst|]. subst q. by rewrite Hc in Hin.
Qed.

Lemma Write_ok f k (p : path) c m : f !! Dir p = Some Directory -> f !! p <> Some Directory ->
  exists k', Write sound p c m (at_ f k) = (None, at_ (<[p := File c m]> f) k').
Proof.
  intros Hd Hp. unfold Write, osCreateTemp. cbn [tick fs]. rewrite Hd. unfold fillTemp, onTemp, with_temps. cbn [tick fs temps].
  unfold replace. cbn [tick fs temps]. rewrite !lookup_alter_eq, lookup_insert_eq. cbn [fmap option_fmap option_map id fst snd].
  destruct (f !! p) as [[? ?|]|]; [|done|]; unfold syncDir, osRemoveTemp, with_temps, tock; cbn [tick fs temps];
    (eexists; f_equal; f_equal; apply map_eq; intros j; rewrite lookup_empty;
     destruct (decide (j = k)) as [->|Hj]; [by rewrite lookup_delete_eq|by rewrite !lookup_delete_ne, !lookup_alter_ne, lookup_insert_ne by done]).
Qed.

(** The missing directories are made, and their removal undoes that. *)
Lemma make_then_remove q : forall x f k, wf f -> missing_because f (x :: q) = NotExist ->
  exists l k1, missingDirs sound q (at_ f k) = (Ok l, at_ f k1) /\
    forall k2, exists f2 k3, osMkdirAll sound q (at_ f k2) = (None, at_ f2 k3) /\ wf f2 /\ f2 !! q = Some Directory /\
      (forall r, (length q < length r)%nat -> f2 !! r = f !! r) /\
      forall k4, exists k5, removeDirs sound l (at_ f2 k4) = at_ f k5.
Proof.
  induction q as [|y q IH]; intros x f k Hwf Hm; cbn [missing_because] in Hm.
  - destruct Hwf as [Hr Hwf]. cbn [missingDirs osMkdirAll]. unfold osStat. cbn [tick fs]. rewrite Hr.
    exists [], (S k). split; [done|]. intros k2. exists f, k2. cbn [fs]. rewrite Hr. split_and!; try done. intros k4. by exists k4.
  - destruct (f !! (y :: q)) as [[c m|]|] eqn:Eq; [done| |].
    + cbn [missingDirs osMkdirAll]. unfold osStat. cbn [tick fs]. rewrite Eq.
      exists [], (S k). split; [done|]. intros k2. exists f, k2. cbn [fs]. rewrite Eq. split_and!; try done; try apply Hwf. intros k4. by exists k4.
    + change (missing_because f (y :: q) = NotExist) in Hm. destruct (IH y f (S k) Hwf Hm) as (l & k1 & Hl & Hmk). exists ((y :: q) :: l), k1. split.
      { cbn [missingDirs]. unfold osStat. cbn [tick fs]. rewrite Eq, Hm. unfold tock. cbn [fs temps tick]. by rewrite Hl. }
      intros k2. destruct (Hmk k2) as (f2 & k3 & Hmk2 & Hwf2 & Hq & Hr & Hrem).
      assert (f2 !! (y :: q) = None) as Hnone by (rewrite Hr; [done|cbn; lia]).
      exists (<[y :: q := Directory]> f2), (S k3). split_and!.
      * cbn [osMkdirAll fs]. rewrite Eq, Hmk2. unfold osMkdir. cbn [tick fs]. rewrite Hnone. cbn [Dir tail]. by rewrite Hq.
      * split; [rewrite lookup_insert_ne by done; apply Hwf2|]. intros z r n. destruct (decide (y :: q = z :: r)) as [[= -> ->]|Hne].
        -- intros _. rewrite lookup_insert_ne; [done|]. intros E. apply (f_equal length) in E. cbn in E. lia.
        -- rewrite lookup_insert_ne by done. intros Hz%Hwf2. destruct (decide (y :: q = r)) as [<-|?]; [by rewrite lookup_insert_eq|by rewrite lookup_insert_ne].
      * by rewrite lookup_insert_eq.
      * intros r Hlen. rewrite lookup_insert_ne by (intros <-; cbn in Hlen; lia). apply Hr. cbn in Hlen. lia.
      * intros k4. cbn [removeDirs]. unfold osRemove. cbn [tick fs]. rewrite lookup_insert_eq, emptyDir_true.
        -- cbn [snd]. unfold with_fs. cbn [fs temps tick]. rewrite delete_insert_id by done. apply Hrem.
        -- intros z. rewrite lookup_insert_ne by (intros E; apply (f_equal length) in E; cbn in E; lia). rewrite Hr by (cbn; lia).
           destruct (f !! (z :: y :: q)) eqn:Ez; [|done]. apply Hwf in Ez. congruence.
Qed.

(** The steps undo what was done to the tree [f0]. *)
Definition restores (f0 : gmap path node) (steps : list fsStep) (f : gmap path node) : Prop :=
  forall k, exists k', rollback sound steps None None (at_ f k) = (None, None, at_ f0 k').

Lemma wf_insert_file f (x : bytes) q c m : wf f -> f !! q = Some Directory -> f !! (x :: q) <> Some Directory -> wf (<[x :: q := File c m]> f).
Proof.
  intros [Hr Hwf] Hq Hx. split; [by rewrite lookup_insert_ne|]. intros z r n.
  assert (forall y, y <> x :: q -> f !! y = Some Directory -> <[x :: q := File c m]> f !! y = Some Directory) as Keep by (intros y ? ?; by rewrite lookup_insert_ne).
  assert (q <> x :: q) by (intros E; apply (f_equal length) in E; cbn in E; lia).
  destruct (decide (x :: q = z :: r)) as [[= -> ->]|Hne]; [by intros _; apply Keep|].
  rewrite lookup_insert_ne by done. intros Hz%Hwf. apply Keep; [|done]. intros ->. done.
Qed.

(** The end of [txWrite], once the directories are there. *)
Lemma write_restores f0 steps x q c prior mode existed created f f2 k : wf f2 -> f2 !! q = Some Directory -> f2 !! (x :: q) <> Some Directory ->
  restores f0 steps f -> (forall k4, exists k5, removeDirs sound created (at_ f2 k4) = at_ f k5) ->
  (if existed : bool then f2 !! (x :: q) = Some (File prior mode) else f2 !! (x :: q) = None) ->
  exists k1, Write sound (x :: q) c mode (at_ f2 k) = (None, at_ (<[x :: q := File c mode]> f2) k1) /\
    wf (<[x :: q := File c mode]> f2) /\
    restores f0 (mkStep (x :: q) existed prior mode created :: steps) (<[x :: q := File c mode]> f2).
Proof.
  intros Hwf Hq Hx Hr Hrem Hold. assert (q <> x :: q) by (intros E; apply (f_equal length) in E; cbn in E; lia).
  destruct (Write_ok f2 k (x :: q) c mode) as [k1 E]; [done|done|]. exists k1. split; [done|]. split; [by apply wf_insert_file|].
  intros k2. cbn [rollback sExisted sPath sPrior sMode sCreated]. destruct existed.
  - destruct (Write_ok (<[x :: q := File c mode]> f2) k2 (x :: q) prior mode) as [k3 E2].
    { cbn [Dir tail]. by rewrite lookup_insert_ne by done. }
    { by rewrite lookup_insert_eq. }
    rewrite E2. cbn [Committed negb]. rewrite insert_insert_eq, insert_id by done. destruct (Hrem k3) as [k5 ->]. apply Hr.
  - unfold osRemove. cbn [tick fs]. rewrite lookup_insert_eq. unfold with_fs. cbn [fs temps tick]. rewrite delete_insert_id by done.
    destruct (Hrem (S k2)) as [k5 ->]. apply Hr.
Qed.

Lemma txWrite_restores f0 steps p c f k err steps' w' : wf f -> restores f0 steps f ->
  txWrite sound steps p c (at_ f k) = (err, steps', w') ->
  exists f' k', w' = at_ f' k' /\ wf f' /\ restores f0 steps' f'.
Proof.
  intros Hwf Hr. unfold txWrite, osStat. cbn [tick fs]. destruct (f !! p) as [n|] eqn:Ep.
  - unfold osReadFile, tock. cbn [tick fs temps]. rewrite Ep. destruct n as [prior m|]; [|intros [= <- <- <-]; eauto].
    destruct p as [|x q]; [destruct Hwf as [Hroot _]; by rewrite Hroot in Ep|]. pose proof (proj2 Hwf x q _ Ep) as Hq. cbn [Dir tail].
    assert (exists k1, mkdirAllTracked sound q (at_ f (S (S k))) = (Ok [], at_ f k1)) as [k1 ->].
    { unfold mkdirAllTracked. destruct q as [|y q]; cbn [missingDirs]; unfold osStat; cbn [tick fs]; rewrite Hq; cbn [osMkdirAll]; cbn [fs tock]; rewrite Hq; by eexists. }
    destruct (write_restores f0 steps x q c prior m true [] f f k1) as (k2 & -> & Hw & Hres); [done|done|congruence|done|intros k4; by exists k4|done|].
    cbn [Committed negb]. intros [= <- <- <-]. eauto.
  - destruct (missing_because f p) eqn:Em; try (intros [= <- <- <-]; eauto).
    destruct p as [|x q]; [destruct Hwf as [Hroot _]; by rewrite Hroot in Ep|].
    destruct (make_then_remove q x f (S k) Hwf Em) as (l & k1 & Hl & Hmk). unfold tock. cbn [fs temps tick]. cbn [Dir tail].
    unfold mkdirAllTracked. rewrite Hl. destruct (Hmk k1) as (f2 & k3 & -> & Hwf2 & Hq & Hlen & Hrem).
    assert (f2 !! (x :: q) = None) as Hx by (rewrite Hlen; [done|cbn; lia]).
    destruct (write_restores f0 steps x q c [] 420 false l f f2 k3) as (k4 & -> & Hw & Hres); [done|done|congruence|done|done|done|].
    cbn [Committed negb]. intros [= <- <- <-]. eauto.
Qed.

Variable full : bytes -> path.
Variable stdout : nat -> bool.

Lemma applyLoop_restores planned : forall f0 steps f k e n w', wf f -> restores f0 steps f ->
  applyLoop sound full stdout steps planned (at_ f k) = (Failed e n, w') -> n = RolledBack /\ exists k', w' = at_ f0 k'.
Proof.
  induction planned as [|item planned IH]; intros f0 steps f k e n w' Hwf Hr; cbn [applyLoop]; [done|].
  unfold rollbackNote, tock. cbn [tick fs temps]. destruct (stdout k).
  { destruct (Hr (S k)) as [k' ->]. intros [= <- <- <-]. eauto. }
  destruct (pWrite item); cbn [negb]; [|by apply IH].
  destruct (txWrite sound steps (full (relPath item)) (pContent item) (at_ f (S k))) as [[err steps'] w1] eqn:E.
  apply (txWrite_restores f0) in E as (f' & k' & -> & Hwf' & Hr'); [|done|done]. destruct err as [e'|]; [|by apply IH].
  destruct (Hr' k') as [k2 ->]. intros [= <- <- <-]. eauto.
Qed.

(** When no call of the system fails and a run still does, because the output is closed or a
    target cannot be written, the tree is exactly as it was found: the files, the
    directories and no temporary file. *)
Theorem failed_generation_leaves_no_trace planned w e n w' :
  wf (fs w) -> temps w = ∅ -> applyWrites sound full stdout planned w = (Failed e n, w') ->
  n = RolledBack /\ fs w' = fs w /\ temps w' = ∅.
Proof.
  intros Hwf Ht H. destruct w as [f t k]. cbn in *. subst t. apply (applyLoop_restores _ f) in H as (-> & k' & ->); [done|done|].
  intros k0. by exists k0.
Qed.
End NoFault.

(** ** What a run may overwrite *)

Section Ownership.
Variable env : nat -> bool.
Variable full : bytes -> path.
Variable stdout : nat -> bool.

(** Whether a run without --force may replace the content [c] of [p]. *)
Definition replaceable (files : list fileSpec) (arts : list GeneratedArtifact) (p : path) (c : bytes) : Prop :=
  (exists f, f ∈ files /\ full (fRel f) = p /\ fSeedOnce f = false /\
     (fOwned f = true \/ fRel f = resourcesTSRel /\ Contains c GeneratedBanner = true)) \/
  (exists a, a ∈ arts /\ full (aPath a) = p /\ aOwnership a = GeneratorOwned).

Definition mayWrite (files : list fileSpec) (arts : list GeneratedArtifact) (F : gmap path (bytes * Z)) (item : plannedFile) : Prop :=
  pWrite item = true -> forall c m, F !! full (relPath item) = Some (c, m) -> replaceable files arts (full (relPath item)) c.

Lemma readExisting_spec rel w r w' : readExisting env full rel w = (r, w') ->
  fs w' = fs w /\ forall o, r = Ok o -> fst <$> filesOf (fs w) !! full rel = o.
Proof.
  unfold readExisting. destruct (osReadFile env (full rel) w) as [[c|e] w1] eqn:E; apply osReadFile_spec in E as (Hf & Hc & Hn).
  - intros [= <- <-]. split; [done|]. intros o [= <-]. destruct (Hc c eq_refl) as [m Hm]. by rewrite filesOf_lookup, Hm.
  - destruct e; intros [= <- <-]; (split; [done|]); try done. intros o [= <-]. by rewrite filesOf_lookup, Hn.
Qed.

Lemma checkOverwrite_None existing f : checkOverwrite existing f false = None ->
  fOwned f = true \/ fRel f = resourcesTSRel /\ Contains existing GeneratedBanner = true.
Proof.
  unfold checkOverwrite. destruct (fOwned f); [by left|]. destruct (beqb (fRel f) resourcesTSRel) eqn:E; cbn [andb].
  - apply beqb_true in E. destruct (Contains existing GeneratedBanner); [by right|done].
  - by destruct (Contains existing GeneratedBanner).
Qed.

Lemma replaceable_cons f files arts p c : replaceable files arts p c -> replaceable (f :: files) arts p c.
Proof. intros [(g & Hg & H)|H]; [left; exists g; split; [by right|done]|by right]. Qed.

Lemma planWrites_spec arts files : forall w l w', planWrites env full false files w = (l, w') ->
  fs w' = fs w /\ forall items, l = Ok items -> Forall (mayWrite files arts (filesOf (fs w))) items.
Proof.
  induction files as [|f files IH]; intros w l w'; cbn [planWrites]; [intros [= <- <-]; split; [done|by intros ? [= <-]]|].
  destruct (readExisting env full (fRel f) w) as [[o|e] w1] eqn:E; apply readExisting_spec in E as [Hf Ho]; [|by intros [= <- <-]].
  specialize (Ho o eq_refl).
  assert (forall (x : option plannedFile) l w', match planWrites env full false files w1 with (Ok l, w) => (Ok (option_list x ++ l), w) | (Err e, w) => (Err e, w) end = (l, w') ->
    (forall y, x = Some y -> mayWrite (f :: files) arts (filesOf (fs w)) y) ->
    fs w' = fs w /\ forall items, l = Ok items -> Forall (mayWrite (f :: files) arts (filesOf (fs w))) items) as Go.
  { intros x l0 w0 H Hx. destruct (planWrites env full false files w1) as [[l1|e1] w2] eqn:E1; apply IH in E1 as [Hf1 Hl1]; injection H as <- <-;
      (split; [congruence|]); [|done]. intros items [= <-]. specialize (Hl1 l1 eq_refl). rewrite Hf in Hl1. apply Forall_app. split.
    - destruct x as [y|]; cbn; [|constructor]. constructor; [by apply Hx|constructor].
    - eapply Forall_impl; [exact Hl1|]. intros item Hi Hw c m Hc. by apply replaceable_cons, (Hi Hw c m). }
  destruct o as [existing|]; cycle 1.
  { intros H. eapply Go; [exact H|]. intros y [= <-] _ c m Hc. cbn in Hc. by rewrite Hc in Ho. }
  destruct (beqb existing (fContent f)); [intros H; eapply Go; [exact H|done]|].
  destruct (fSeedOnce f) eqn:Es; cbn [andb negb]; [intros H; eapply Go; [exact H|]; by intros y [= <-]|].
  destruct (checkOverwrite existing f false) eqn:Ec; [by intros [= <- <-]|]. intros H. eapply Go; [exact H|].
  intros y [= <-] _ c m Hc. cbn in Hc. rewrite Hc in Ho. injection Ho as <-. left. exists f. split; [left|]. split_and!; [done|done|by apply checkOverwrite_None].
Qed.

Lemma resolveArtifacts_spec files arts : forall w l w', resolveArtifacts env full arts w = (l, w') ->
  fs w' = fs w /\ forall items, l = Ok items -> Forall (mayWrite files arts (filesOf (fs w))) items.
Proof.
  induction arts as [|a arts IH]; intros w l w'; cbn [resolveArtifacts]; [intros [= <- <-]; split; [done|by intros ? [= <-]]|].
  destruct (resolveArtifact env full a w) as [[item|e] w1] eqn:E.
  - assert (fs w1 = fs w /\ mayWrite files (a :: arts) (filesOf (fs w)) item) as [Hf Hi].
    { unfold resolveArtifact in E. destruct (readExisting env full (aPath a) w) as [[o|e] w2] eqn:E2; apply readExisting_spec in E2 as [Hf Ho]; [|done].
      specialize (Ho o eq_refl). destruct (aOwnership a) eqn:Ea, o as [c|]; [destruct (beqb c (aContent a))| | |]; injection E as <- <-; (split; [done|]); try done.
      - intros _ c' m Hc. cbn in Hc. right. exists a. split; [left|]. done.
      - intros _ c' m Hc. cbn in Hc. by rewrite Hc in Ho.
      - intros _ c' m Hc. cbn in Hc. by rewrite Hc in Ho. }
    destruct (resolveArtifacts env full arts w1) as [[l1|e1] w2] eqn:E1; apply IH in E1 as [Hf1 Hl1]; intros [= <- <-]; (split; [congruence|]); [|done].
    intros items [= <-]. constructor; [done|]. specialize (Hl1 l1 eq_refl). rewrite Hf in Hl1. eapply Forall_impl; [exact Hl1|].
    intros x Hx Hw c m Hc. destruct (Hx Hw c m Hc) as [?|(b & Hb & ?)]; [by left|]. right. exists b. split; [by right|done].
  - intros [= <- <-]. split; [|done]. unfold resolveArtifact in E.
    destruct (readExisting env full (aPath a) w) as [[o|e'] w2] eqn:E2; apply readExisting_spec in E2 as [Hf _]; [|by injection E as <- <-].
    destruct (aOwnership a), o as [c|]; try done. by destruct (beqb c (aContent a)).
Qed.

Lemma insertPlanned_elem x y l : x ∈ insertPlanned y l -> x = y \/ x ∈ l.
Proof.
  induction l as [|z l IH]; cbn [insertPlanned]; [intros ->%list_elem_of_singleton; by left|]. case_match; [by rewrite elem_of_cons|].
  rewrite !elem_of_cons. intuition.
Qed.

Lemma sorted_elem x l : x ∈ foldr insertPlanned [] l -> x ∈ l.
Proof.
  induction l as [|y l IH]; cbn [foldr]; [done|]. intros [->|H]%insertPlanned_elem; [left|right; auto].
Qed.

Lemma planned_keeps files arts F0 p c0 m planned : F0 !! p = Some (c0, m) ->
  (forall item, item ∈ planned -> mayWrite files arts F0 item) -> forall F c, F !! p = Some (c, m) -> (c = c0 \/ replaceable files arts p c0) ->
  exists c', fold_left (planned1 full) planned F !! p = Some (c', m) /\ (c' = c0 \/ replaceable files arts p c0).
Proof.
  intros H0. induction planned as [|item planned IH]; intros Hi F c Hc Hok; cbn [fold_left]; [eauto|].
  assert (forall x, x ∈ planned -> mayWrite files arts F0 x) as Hi' by (intros x Hx; apply Hi; by right).
  unfold planned1 at 2. destruct (pWrite item) eqn:Ew; [|by eapply IH]. unfold written.
  destruct (decide (full (relPath item) = p)) as [E|Hne].
  - eapply (IH Hi'); [rewrite E, lookup_insert_eq, Hc; reflexivity|]. right. rewrite <- E. eapply (Hi item); [left|done|]. by rewrite E.
  - eapply (IH Hi'); [by rewrite lookup_insert_ne|done].
Qed.

(** C28. A run without --force keeps the developer's files: a file that was there is still
    there with its mode, and its content is what it was unless the run registers something
    in it (a file it edits additively, the resource list with the generator's banner) or it
    is an artifact the generator owns; a file that is seeded once is never replaced. This
    holds whether the run succeeds or fails, unless the rollback failed. *)
Theorem developer_files_kept files arts w o w' :
  Apply env full stdout false files arts w = (o, w') ->
  (forall e e', o <> Ran (Failed e (RollbackFailed e'))) ->
  forall p c m, filesOf (fs w) !! p = Some (c, m) ->
    exists c', filesOf (fs w') !! p = Some (c', m) /\ (c' = c \/ replaceable files arts p c).
Proof.
  unfold Apply, resolve. intros H Hn p c m Hp.
  destruct (planWrites env full false files w) as [[l|e] w1] eqn:E1; apply (planWrites_spec arts) in E1 as [Hf1 Hl1]; cycle 1.
  { injection H as <- <-. rewrite Hf1. eauto. }
  destruct (resolveArtifacts env full arts w1) as [[l2|e] w2] eqn:E2; apply (resolveArtifacts_spec files) in E2 as [Hf2 Hl2]; rewrite Hf1 in *; cycle 1.
  { injection H as <- <-. rewrite Hf2. eauto. }
  destruct (applyWrites env full stdout (foldr insertPlanned [] (l ++ l2)) w2) as [a w3] eqn:E3. injection H as <- <-.
  unfold applyWrites in E3. apply (applyLoop_spec env full stdout _ (filesOf (fs w2))) in E3; [|by split]. rewrite Hf2 in E3.
  destruct a as [|e n]; cycle 1.
  { rewrite E3; [eauto|]. intros e' ->. by eapply Hn. }
  rewrite E3. eapply (planned_keeps files arts (filesOf (fs w))); [exact Hp| |exact Hp|by left].
  intros item Hin. apply sorted_elem in Hin. assert (Forall (mayWrite files arts (filesOf (fs w))) (l ++ l2)) as Hall.
  { apply Forall_app. split; [by apply Hl1|by apply Hl2]. }
  rewrite Forall_forall in Hall. by apply Hall.
Qed.
End Ownership.

(** ** A run *)

Module GenDemo.
Definition full (rel : bytes) : path := rev (SplitByte rel slash).
Definition tree : gmap path node :=
  {[ [] := Directory; [&"app"] := Directory; full (&"app/model.go") := File (&"mine") 384 ]}.
Definition w0 : world := mkWorld tree ∅ 0.
Definition plan : list plannedFile :=
  [mkPlanned (&"app/gen/a.go") (&"create") (&"A") true; mkPlanned (&"app/model.go") (&"keep") [] false;
   mkPlanned (&"app/list.go") (&"create") (&"L") true; mkPlanned (&"app/gen/sub/b.go") (&"create") (&"B") true].
Definition quiet (_ : nat) : bool := false.
Definition files : list fileSpec := [mkSpec (&"app/model.go") (&"generated") false true; mkSpec (&"app/list.go") (&"L") true false].
Definition arts : list GeneratedArtifact := [mkArtifact (&"app/gen/a.go") (&"A") GeneratorOwned; mkArtifact (&"app/hooks.go") (&"H") SeedOnce].
End GenDemo.

(** A write whose directories are made only in part leaves the ones that were: the error
    of MkdirAll forgets them, and the rollback reports that the tree is restored. *)
Example mkdir_fault_leaves_a_directory :
  let '(a, w) := applyWrites (Nat.eqb 6) GenDemo.full GenDemo.quiet
                   [mkPlanned (&"app/x/y/z.go") (&"create") (&"Z") true] GenDemo.w0 in
  a = Failed Fault RolledBack /\ fs w !! GenDemo.full (&"app/x") = Some Directory /\ GenDemo.tree !! GenDemo.full (&"app/x") = None.
Proof. vm_compute. repeat split. Qed.

Lemma generated_files_atomic_witness :
  let w := (applyWrites (Nat.eqb 36) GenDemo.full GenDemo.quiet GenDemo.plan GenDemo.w0).2 in
  filesOf (fs w) = filesOf GenDemo.tree /\ tick w = 43%nat.
Proof.
  pose proof (generated_files_atomic (Nat.eqb 36) GenDemo.full GenDemo.quiet GenDemo.plan GenDemo.w0 _ _ (surjective_pairing _)) as H.
  assert ((applyWrites (Nat.eqb 36) GenDemo.full GenDemo.quiet GenDemo.plan GenDemo.w0).1 = Failed (NotDurable Fault) RolledBack) as E
    by (vm_compute; reflexivity).
  rewrite E in H. split; [apply H; discriminate|vm_compute; reflexivity].
Defined.

Lemma failed_generation_leaves_no_trace_witness :
  let w := (applyWrites (fun _ => false) GenDemo.full (Nat.eqb 25) GenDemo.plan GenDemo.w0).2 in
  fs w = GenDemo.tree /\ temps w = ∅ /\ tick w = 29%nat.
Proof.
  destruct (failed_generation_leaves_no_trace GenDemo.full (Nat.eqb 25) GenDemo.plan GenDemo.w0 Fault RolledBack
    (applyWrites (fun _ => false) GenDemo.full (Nat.eqb 25) GenDemo.plan GenDemo.w0).2) as (_ & H1 & H2).
  - split; [vm_compute; reflexivity|]. intros x p n. unfold GenDemo.w0, GenDemo.tree. cbn [fs].
    rewrite !lookup_insert_Some, lookup_singleton_Some. intros [[? _]|[_ [[E _]|[_ [E _]]]]]; [done| |].
    + injection E as <- <-. by left.
    + vm_compute in E. injection E as <- <-. right. split; [discriminate|]. by left.
  - reflexivity.
  - vm_compute. reflexivity.
  - split; [exact H1|]. split; [exact H2|]. vm_compute. reflexivity.
Defined.

Lemma developer_files_kept_witness :
  let r := Apply GenDemo.quiet GenDemo.full GenDemo.quiet false GenDemo.files GenDemo.arts GenDemo.w0 in
  r.1 = Ran Applied /\ filesOf (fs r.2) !! GenDemo.full (&"app/model.go") = Some (&"mine", 384).
Proof.
  assert ((Apply GenDemo.quiet GenDemo.full GenDemo.quiet false GenDemo.files GenDemo.arts GenDemo.w0).1 = Ran Applied) as E by (vm_compute; reflexivity).
  split; [exact E|].
  destruct (developer_files_kept GenDemo.quiet GenDemo.full GenDemo.quiet GenDemo.files GenDemo.arts GenDemo.w0 _ _ (surjective_pairing _))
    with (p := GenDemo.full (&"app/model.go")) (c := &"mine") (m := 384) as (c' & Hc & [->|Hr]).
  - intros e e'. rewrite E. discriminate.
  - vm_compute. reflexivity.
  - exact Hc.
  - exfalso. destruct Hr as [(f & Hf & Hp & Hs & _)|(a & Ha & Hp & _)].
    + unfold GenDemo.files in Hf. apply elem_of_cons in Hf as [->|Hf]; [discriminate Hs|].
      apply list_elem_of_singleton in Hf as ->. vm_compute in Hp. discriminate Hp.
    + unfold GenDemo.arts in Ha. apply elem_of_cons in Ha as [->|Ha]; [vm_compute in Hp; discriminate Hp|].
      apply list_elem_of_singleton in Ha as ->. vm_compute in Hp. discriminate Hp.
Defined.
