(* ===== verification/ListQuery.v ===== *)
(** * database/listquery.go, database/aggregate.go: the query surface of a list

    Exact filters, text search, ordering and aggregates asked for in a query string.  A
    query is the list of the clauses added to it; what the database does with them is a
    reference here: [like] for LIKE with an escape character, and the order of ORDER BY
    over columns whose values are ranked.  [uuid.Parse] and LOWER are arguments.  The
    message of a validation error is kept as the field it names. *)

From stdpp Require Import base tactics numbers list strings gmap sets sorting.
From Stdlib Require Import ZArith Lia Ascii.
From S2P Require Import Prelude GoBytes DotEnv GoText Regex StorageKey StorageOptions MigrationDir MigrationFacts GoEncoding.

Local Open Scope string_scope.
Local Open Scope list_scope.
Local Open Scope gotext_scope.
Local Open Scope Z_scope.

Inductive FilterKind := FilterString | FilterInt | FilterInt64 | FilterUint | FilterBool | FilterUUID.

(** A bound value. *)
Inductive value := VText (b : bytes) | VInt (z : Z) | VBool (b : bool).

Inductive clause :=
| WhereEq (column : bytes) (v : value)
| WhereAnyLike (columns : list bytes) (pattern : bytes)
| OrderBy (column : bytes) (desc : bool).

(** A D10 validation error, by the field it is keyed on. *)
Inductive queryError := Invalid (field : bytes).

Inductive textProblem := HasNul | BadUTF8.

(** [TextProblem] *)
Definition TextProblem (s : bytes) : option textProblem :=
  if bool_decide (byte_of 0 ∈ s) then Some HasNul
  else if negb (ValidString s) then Some BadUTF8
  else None.

(** [strconv.ParseUint(s, 10, 64)] *)
Definition ParseUint (b : bytes) : option Z :=
  match b with
  | [] => None
  | _ => if forallb digit b then (let v := digitsValue 0 b in if v <? 2 ^ 64 then Some v else None) else None
  end.

(** [strconv.ParseBool] *)
Definition ParseBool (b : bytes) : option bool :=
  if bool_decide (b ∈ [&"1"; &"t"; &"T"; &"true"; &"TRUE"; &"True"]) then Some true
  else if bool_decide (b ∈ [&"0"; &"f"; &"F"; &"false"; &"FALSE"; &"False"]) then Some false
  else None.

Section Query.
Variable uuidParse : bytes -> option bytes.

(** The value of [FilterEq]'s switch. *)
Definition coerce (kind : FilterKind) (raw : bytes) : option value :=
  match kind with
  | FilterInt | FilterInt64 => VInt <$> ParseInt raw
  | FilterUint => u ← ParseUint raw; if max_int64 <? u then None else Some (VInt u)
  | FilterBool => VBool <$> ParseBool raw
  | FilterUUID => VText <$> uuidParse raw
  | FilterString => match TextProblem raw with Some _ => None | None => Some (VText raw) end
  end.

Definition FilterEq (q : list clause) (column : bytes) (kind : FilterKind) (raw : bytes) : result queryError (list clause) :=
  let raw := TrimSpace raw in
  if beqb raw [] then Ok q
  else match coerce kind raw with
  | None => Err (Invalid column)
  | Some v => Ok (q ++ [WhereEq column v])
  end.
End Query.

(** [escapeLike] *)
Definition escapeLike (s : bytes) : bytes :=
  ReplaceAll (ReplaceAll (ReplaceAll s (&"\") (&"\\")) (&"%") (&"\%")) (&"_") (&"\_").

(** [Search] *)
Definition Search_ (q : list clause) (columns : list bytes) (term : bytes) : result queryError (list clause) :=
  let term := TrimSpace term in
  if beqb term [] || bool_decide (columns = []) then Ok q
  else match TextProblem term with
  | Some _ => Err (Invalid (&"search"))
  | None => Ok (q ++ [WhereAnyLike columns (&"%" ++ escapeLike term ++ &"%")])
  end.

(** [ParseOrdering] *)
Definition ParseOrdering (ordering : bytes) : bytes * bool :=
  let field := TrimSpace ordering in
  if HasPrefix field (&"-") then (TrimSpace (TrimPrefix field (&"-")), true) else (field, false).

(** [Ordering] *)
Definition Ordering (q : list clause) (ordering : bytes) (allowed : list bytes) (fallback : bytes) : result queryError (list clause) :=
  let '(field, desc) := ParseOrdering ordering in
  if beqb field [] then Ok (if beqb fallback [] then q else q ++ [OrderBy fallback false])
  else if negb (bool_decide (field ∈ allowed)) then Err (Invalid (&"ordering"))
  else
    let q := q ++ [OrderBy field desc] in
    Ok (if negb (beqb fallback []) && negb (beqb fallback field) then q ++ [OrderBy fallback desc] else q).

(** ** Aggregates *)

Record AggregateSpec := mkSpec { Func : bytes; Column : bytes; Key : bytes }.

(** The keys of [aggregateSQL]. *)
Definition aggregateFuncs : list bytes := [&"sum"; &"avg"; &"min"; &"max"].

Fixpoint aggregateLoop (allowed : gmap bytes bytes) (parts : list bytes) (seen : list bytes) (specs : list AggregateSpec) :
    result queryError (list AggregateSpec) :=
  match parts with
  | [] => Ok specs
  | part :: parts =>
      let part := TrimSpace part in
      if beqb part [] then aggregateLoop allowed parts seen specs
      else match CutByte part ":" with
      | None => Err (Invalid (&"aggregate"))
      | Some (fnRaw, field) =>
          let fn := ToLower (TrimSpace fnRaw) in
          if negb (bool_decide (fn ∈ aggregateFuncs)) then Err (Invalid (&"aggregate"))
          else
            let field := TrimSpace field in
            match allowed !! field with
            | None => Err (Invalid (&"aggregate"))
            | Some col =>
                let key := fn ++ &":" ++ field in
                if bool_decide (key ∈ seen) then aggregateLoop allowed parts seen specs
                else aggregateLoop allowed parts (key :: seen) (specs ++ [mkSpec fn col key])
            end
      end
  end.

(** [ParseAggregates]; nil is the empty list. *)
Definition ParseAggregates (raw : bytes) (allowed : gmap bytes bytes) : result queryError (list AggregateSpec) :=
  let raw := TrimSpace raw in
  if beqb raw [] then Ok [] else aggregateLoop allowed (SplitByte raw ",") [] [].

(** ** What the database does *)

(** [s LIKE p ESCAPE '\']; a pattern that ends in the escape matches nothing. *)
Fixpoint like (p s : bytes) : bool :=
  match p with
  | [] => bool_decide (s = [])
  | c :: p' =>
      if Ascii.eqb c "%" then
        (fix any (s : bytes) : bool := like p' s || match s with [] => false | _ :: s => any s end) s
      else if Ascii.eqb c "_" then match s with [] => false | _ :: s => like p' s end
      else if Ascii.eqb c "\" then
        match p', s with
        | x :: p'', y :: s => Ascii.eqb x y && like p'' s
        | _, _ => false
        end
      else match s with y :: s => Ascii.eqb c y && like p' s | [] => false end
  end.

(** ORDER BY: a row's value in a column has a rank. *)
Section Order.
Context {row : Type}.
Variable rank : bytes -> row -> Z.

Fixpoint inOrder (cs : list clause) (a b : row) : Prop :=
  match cs with
  | [] => True
  | OrderBy col desc :: cs =>
      (if desc then rank col b < rank col a else rank col a < rank col b) \/ (rank col a = rank col b /\ inOrder cs a b)
  | _ :: cs => inOrder cs a b
  end.
End Order.

(** ** Search finds literal text *)

Lemma ReplaceAll_byte b x new : ReplaceAll b [x] new = concat (map (fun c => if Ascii.eqb c x then new else [c]) b).
Proof.
  unfold ReplaceAll. induction b as [|c b IH]; [done|]. cbn [length ReplaceAll_fuel map concat strip_prefix].
  rewrite (Ascii.eqb_sym x c). destruct (Ascii.eqb c x); by rewrite IH.
Qed.

Lemma ReplaceAll_byte_app a b x new : ReplaceAll (a ++ b) [x] new = ReplaceAll a [x] new ++ ReplaceAll b [x] new.
Proof. rewrite !ReplaceAll_byte. by rewrite map_app, concat_app. Qed.

(** The characters LIKE reads. *)
Definition isMeta (c : ascii) : bool := Ascii.eqb c "%" || Ascii.eqb c "_" || Ascii.eqb c "\".
Definition escapeChar (c : ascii) : bytes := if isMeta c then ["\"%char; c] else [c].

Lemma escapeLike_app a b : escapeLike (a ++ b) = escapeLike a ++ escapeLike b.
Proof. unfold escapeLike. change (&"\") with ["\"%char]. change (&"%") with ["%"%char]. change (&"_") with ["_"%char]. by rewrite !ReplaceAll_byte_app. Qed.

Lemma escapeLike_char c : escapeLike [c] = escapeChar c.
Proof. destruct c as [[] [] [] [] [] [] [] []]; reflexivity. Qed.

Lemma escapeLike_cons c s : escapeLike (c :: s) = escapeChar c ++ escapeLike s.
Proof. rewrite <- escapeLike_char. apply (escapeLike_app [c]). Qed.

Lemma like_escaped t : forall p s, like (escapeLike t ++ p) s = true <-> exists r, s = t ++ r /\ like p r = true.
Proof.
  induction t as [|c t IH]; intros p s; [cbn; naive_solver|]. rewrite escapeLike_cons, <- app_assoc. unfold escapeChar, isMeta.
  destruct (Ascii.eqb c "%" || Ascii.eqb c "_" || Ascii.eqb c "\") eqn:Em.
  - change (like (["\"%char; c] ++ escapeLike t ++ p) s) with
      (match s with y :: s => Ascii.eqb c y && like (escapeLike t ++ p) s | [] => false end).
    destruct s as [|y s]; [naive_solver|]. rewrite andb_true_iff, IH, Ascii.eqb_eq. naive_solver.
  - apply orb_false_iff in Em as [[E1 E2]%orb_false_iff E3]. cbn [app like]. rewrite E1, E2, E3.
    destruct s as [|y s]; [naive_solver|]. rewrite andb_true_iff, IH, Ascii.eqb_eq. naive_solver.
Qed.

Lemma like_any p s : like ("%"%char :: p) s = true <-> exists a b, s = a ++ b /\ like p b = true.
Proof.
  cbn [like]. change (Ascii.eqb "%" "%") with true. cbv iota. induction s as [|y s IH].
  - rewrite orb_false_r. split; [intros H; by exists [], []|]. intros (a & b & E & H). by destruct a, b.
  - rewrite orb_true_iff, IH. split.
    + intros [H|(a & b & -> & H)]; [by exists [], (y :: s)|by exists (y :: a), b].
    + intros (a & b & E & H). destruct a as [|z a]; [left; cbn in E; by rewrite E|]. injection E as -> ->. right. by exists a, b.
Qed.

(** The pattern of a search finds the text, wherever it is. *)
Lemma like_contains t s : like (&"%" ++ escapeLike t ++ &"%") s = true <-> exists a b, s = a ++ t ++ b.
Proof.
  change (&"%" ++ escapeLike t ++ &"%") with ("%"%char :: escapeLike t ++ ["%"%char]). rewrite like_any. split.
  - intros (a & r & -> & H). apply like_escaped in H as (b & -> & _). by exists a, b.
  - intros (a & b & ->). exists a, (t ++ b). split; [done|]. apply like_escaped. exists b. split; [done|].
    apply like_any. exists b, []. split; [by rewrite app_nil_r|done].
Qed.

Section Search.
(** LOWER of the database. *)
Variable lower : bytes -> bytes.
(** It changes letters, not the characters LIKE reads. *)
Hypothesis lower_escaped : forall t, lower (escapeLike t) = escapeLike (lower t).
Hypothesis lower_around : forall t, lower (&"%" ++ t ++ &"%") = &"%" ++ lower t ++ &"%".
Context {row : Type}.
Variable text : bytes -> row -> bytes.

(** Whether a row is selected: [LOWER(col) LIKE LOWER(pattern) ESCAPE '\'], for some column. *)
Definition selected (c : clause) (r : row) : Prop :=
  match c with
  | WhereAnyLike columns pattern => exists col, col ∈ columns /\ like (lower pattern) (lower (text col r)) = true
  | _ => True
  end.

(** C27. A search is for literal text: a term that is accepted adds one condition, and a row
    satisfies it exactly when one of the columns contains the trimmed term, whatever percent
    signs, underscores and backslashes the term holds, up to case. *)
Theorem search_is_literal q columns term q' :
  Search_ q columns term = Ok q' -> TrimSpace term <> [] -> columns <> [] ->
  TextProblem (TrimSpace term) = None /\
  exists c, q' = q ++ [c] /\ forall r, selected c r <->
    exists col a b, col ∈ columns /\ lower (text col r) = a ++ lower (TrimSpace term) ++ b.
Proof.
  unfold Search_. intros H Ht Hc. destruct (beqb (TrimSpace term) []) eqn:E; [by apply beqb_true in E|]. rewrite bool_decide_eq_false_2 in H by done.
  cbn [orb] in H. destruct (TextProblem (TrimSpace term)) eqn:Ep; [done|]. split; [done|].
  remember (&"%" ++ escapeLike (TrimSpace term) ++ &"%") as pat eqn:Epat. injection H as <-. eexists. split; [done|].
  intros r. cbn [selected]. rewrite Epat, lower_around, lower_escaped. split.
  - intros (col & Hin & (a & b & Hl)%like_contains). by exists col, a, b.
  - intros (col & a & b & Hin & Hl). exists col. split; [done|]. apply like_contains. by exists a, b.
Qed.
End Search.

(** ** Pages of an ordered list *)

Section Pages.
Context {row : Type}.
Variable rank : bytes -> row -> Z.

Lemma inOrder_antisym cs fallback desc (a b : row) : (rank fallback a = rank fallback b -> a = b) ->
  inOrder rank (cs ++ [OrderBy fallback desc]) a b -> inOrder rank (cs ++ [OrderBy fallback desc]) b a -> a = b.
Proof.
  intros Hu. induction cs as [|[]cs IH]; cbn [app inOrder]; try done.
  - destruct desc; intros [?|[? _]] [?|[? _]]; try lia; auto.
  - destruct desc0; intros [?|[? ?]] [?|[? ?]]; try lia; auto.
Qed.

Lemma Ordering_cases q ordering allowed fallback q' : Ordering q ordering allowed fallback = Ok q' -> fallback <> [] ->
  exists cs desc, q' = q ++ cs ++ [OrderBy fallback desc] /\
    Forall (fun c => exists col d, c = OrderBy col d /\ col ∈ allowed) cs.
Proof.
  unfold Ordering. destruct (ParseOrdering ordering) as [field desc]. intros H Hf.
  destruct (beqb fallback []) eqn:E; [by apply beqb_true in E|]. destruct (beqb field []) eqn:E1.
  - injection H as <-. by exists [], false.
  - case_bool_decide as Hin; [|done]. cbn [negb andb] in H. injection H as <-. destruct (beqb fallback field) eqn:E2; cbn [negb].
    + apply beqb_true in E2 as ->. by exists [], desc.
    + exists [OrderBy field desc], desc. split; [by rewrite <- app_assoc|]. constructor; [by exists field, desc|constructor].
Qed.

(** The page [i] of a result. *)
Definition page (per i : nat) (l : list row) : list row := take per (drop (i * per) l).

Lemma pages_take per (l : list row) n : concat (map (fun i => page per i l) (seq 0 n)) = take (n * per) l.
Proof.
  induction n as [|n IH]; [done|]. rewrite seq_S, map_app, concat_app, IH. cbn [map concat]. rewrite app_nil_r. unfold page.
  rewrite Nat.add_0_l, take_take_drop. f_equal. lia.
Qed.

(** C25. Pages do not repeat or lose rows: with a unique column to fall back on, whatever
    ordering a client asks for and is allowed, the database has one order to return the rows
    in, so that the pages of any number of separate runs of the query, each in the order
    asked for, together hold every row exactly once. Only declared columns reach ORDER BY.
    *)
Theorem pages_cover_rows q ordering allowed fallback q' (rows : list row) (runs : nat -> list row) per n :
  Ordering q ordering allowed fallback = Ok q' -> fallback <> [] ->
  (forall a b, a ∈ rows -> b ∈ rows -> rank fallback a = rank fallback b -> a = b) ->
  (forall i, runs i ≡ₚ rows /\ StronglySorted (inOrder rank (drop (length q) q')) (runs i)) ->
  (length rows <= n * per)%nat ->
  concat (map (fun i => page per i (runs i)) (seq 0 n)) ≡ₚ rows /\
  Forall (fun c => exists col d, c = OrderBy col d /\ (col ∈ allowed \/ col = fallback)) (drop (length q) q').
Proof.
  intros Ho Hf Hu Hr Hn. destruct (Ordering_cases _ _ _ _ _ Ho Hf) as (cs & desc & -> & Hcs). rewrite drop_app_length in *.
  assert (forall i, runs i = runs 0%nat) as Hsame.
  { intros i. destruct (Hr i) as [Hp Hs]. destruct (Hr 0%nat) as [Hp0 Hs0]. eapply StronglySorted_unique_strong; [|exact Hs|exact Hs0|by rewrite Hp, Hp0].
    intros a b Ha Hb. apply inOrder_antisym. apply Hu; [by rewrite <- Hp|by rewrite <- Hp0]. }
  split.
  - rewrite (map_ext (fun i => page per i (runs i)) (fun i => page per i (runs 0%nat))) by (intros i; by rewrite Hsame).
    rewrite pages_take, take_ge; [by apply Hr|]. rewrite (proj1 (Hr 0%nat)). done.
  - apply Forall_app. split; [|by repeat (constructor; eauto)]. eapply Forall_impl; [exact Hcs|]. cbv beta. naive_solver.
Qed.
End Pages.

(** ** Filters and aggregates *)

(** What every database can compare the column with. *)
Definition bindable (kind : FilterKind) (v : value) : Prop :=
  match kind, v with
  | (FilterInt | FilterInt64), VInt z => in_int64 z
  | FilterUint, VInt z => 0 <= z <= max_int64
  | FilterBool, VBool _ => True
  | FilterString, VText t => TextProblem t = None /\ t <> []
  | FilterUUID, VText _ => True
  | _, _ => False
  end.

Lemma ParseUint_range b z : ParseUint b = Some z -> 0 <= z < 2 ^ 64.
Proof.
  unfold ParseUint. destruct b as [|c b]; [done|]. destruct (forallb digit (c :: b)) eqn:Hd; [|done].
  pose proof (digitsValue_bound (c :: b) Hd) as Hb. generalize dependent (digitsValue 0 (c :: b)). intros v Hb.
  destruct (Z.ltb_spec v (2 ^ 64)); [|done]. intros [= <-]. lia.
Qed.

(** A filter binds what the column's type holds on every database: a raw value that is
    accepted adds one equality whose value fits (an unsigned one the signed column of
    PostgreSQL too), and is the number or text the trimmed value spells; a blank one adds
    nothing; everything else is refused and names the column. *)
Theorem filter_binds uuidParse q column kind raw :
  match FilterEq uuidParse q column kind raw with
  | Ok q' => (TrimSpace raw = [] /\ q' = q) \/
      exists v, TrimSpace raw <> [] /\ q' = q ++ [WhereEq column v] /\ coerce uuidParse kind (TrimSpace raw) = Some v /\ bindable kind v
  | Err e => e = Invalid column /\ TrimSpace raw <> [] /\ coerce uuidParse kind (TrimSpace raw) = None
  end.
Proof.
  unfold FilterEq. destruct (beqb (TrimSpace raw) []) eqn:E; [left; by apply beqb_true in E|].
  assert (TrimSpace raw <> []) as Hne by (intros H; by rewrite H, beqb_refl in E).
  destruct (coerce uuidParse kind (TrimSpace raw)) as [v|] eqn:Ec; [|done]. right. exists v. split_and!; [done|done|done|].
  unfold coerce in Ec. destruct kind; cbn [bindable].
  - destruct (TextProblem (TrimSpace raw)) eqn:Et; [done|]. by injection Ec as <-.
  - destruct (ParseInt (TrimSpace raw)) eqn:Ep; [|done]. injection Ec as <-. by eapply ParseInt_range.
  - destruct (ParseInt (TrimSpace raw)) eqn:Ep; [|done]. injection Ec as <-. by eapply ParseInt_range.
  - destruct (ParseUint (TrimSpace raw)) as [u|] eqn:Ep; [|done]. cbn [mbind option_bind] in Ec.
    destruct (Z.ltb_spec max_int64 u); [done|]. injection Ec as <-. apply ParseUint_range in Ep. lia.
  - destruct (ParseBool (TrimSpace raw)); [|done]. by injection Ec as <-.
  - destruct (uuidParse (TrimSpace raw)); [|done]. by injection Ec as <-.
Qed.

(** A requested aggregate, read. *)
Definition requested (part : bytes) : option bytes :=
  '(fn, field) ← CutByte (TrimSpace part) ":"; Some (ToLower (TrimSpace fn) ++ &":" ++ TrimSpace field).

Definition declared (allowed : gmap bytes bytes) (s : AggregateSpec) : Prop :=
  Func s ∈ aggregateFuncs /\ exists field, allowed !! field = Some (Column s) /\ Key s = Func s ++ &":" ++ field.

Lemma aggregateLoop_spec allowed parts : forall seen specs out,
  (forall k, k ∈ seen <-> k ∈ map Key specs) -> NoDup (map Key specs) -> Forall (declared allowed) specs ->
  aggregateLoop allowed parts seen specs = Ok out ->
  NoDup (map Key out) /\ Forall (declared allowed) out /\ (forall k, k ∈ map Key specs -> k ∈ map Key out) /\
  forall part, part ∈ parts -> TrimSpace part <> [] -> exists k, requested part = Some k /\ k ∈ map Key out.
Proof.
  induction parts as [|part parts IH]; intros seen specs out Hs Hn Hd; cbn [aggregateLoop].
  { intros [= <-]. split_and!; [done|done|done|]. by intros part ?%not_elem_of_nil. }
  assert (forall seen specs, (forall k, k ∈ seen <-> k ∈ map Key specs) -> NoDup (map Key specs) -> Forall (declared allowed) specs ->
    (TrimSpace part <> [] -> exists k, requested part = Some k /\ k ∈ map Key specs) -> aggregateLoop allowed parts seen specs = Ok out ->
    NoDup (map Key out) /\ Forall (declared allowed) out /\ (forall k, k ∈ map Key specs -> k ∈ map Key out) /\
    forall p, p ∈ part :: parts -> TrimSpace p <> [] -> exists k, requested p = Some k /\ k ∈ map Key out) as Go.
  { intros seen' specs' Hs' Hn' Hd' Hp H. destruct (IH seen' specs' out Hs' Hn' Hd' H) as (H1 & H2 & H3 & H4). split_and!; [done|done|done|].
    intros p [->|Hin]%elem_of_cons Hne; [|by apply H4]. destruct (Hp Hne) as (k & Hk & Hin). exists k. split; [done|]. by apply H3. }
  destruct (beqb (TrimSpace part) []) eqn:E; [apply beqb_true in E; by apply Go|].
  destruct (CutByte (TrimSpace part) ":") as [[fnRaw field]|] eqn:Ec; [|done].
  case_bool_decide as Hf; cbn [negb]; [|done]. destruct (allowed !! TrimSpace field) as [col|] eqn:Ea; [|done].
  assert (requested part = Some (ToLower (TrimSpace fnRaw) ++ &":" ++ TrimSpace field)) as Hreq by (unfold requested; by rewrite Ec).
  assert (declared allowed (mkSpec (ToLower (TrimSpace fnRaw)) col (ToLower (TrimSpace fnRaw) ++ &":" ++ TrimSpace field))) as Hdecl by (split; [done|by exists (TrimSpace field)]).
  generalize dependent (ToLower (TrimSpace fnRaw) ++ &":" ++ TrimSpace field). intros key Hreq Hdecl. case_bool_decide as Hin.
  - apply Go; try done. intros _. exists key. split; [done|]. by apply Hs.
  - intros H. destruct (Go (key :: seen) (specs ++ [mkSpec (ToLower (TrimSpace fnRaw)) col key])) as (H1 & H2 & H3 & H4); [..|done|].
    + intros k. rewrite map_app, elem_of_app, elem_of_cons. cbn [map Key]. rewrite list_elem_of_singleton, Hs. naive_solver.
    + rewrite map_app. apply NoDup_app. split_and!; [done| |apply NoDup_singleton]. intros k Hk. cbn [map Key]. rewrite list_elem_of_singleton. intros ->. by apply Hin, Hs.
    + apply Forall_app. split; [done|]. by constructor.
    + intros _. exists key. split; [done|]. rewrite map_app, elem_of_app. right. left.
    + split_and!; [done|done| |done]. intros k Hk. apply H3. rewrite map_app, elem_of_app. by left.
Qed.

(** Aggregates are computed over declared columns only: the resolved list has each key once,
    each with one of the four functions over the column of a declared field and the key that
    names both, and every pair that was asked for is in it. *)
Theorem aggregates_declared raw allowed specs :
  ParseAggregates raw allowed = Ok specs ->
  NoDup (map Key specs) /\ Forall (declared allowed) specs /\
  forall part, part ∈ SplitByte (TrimSpace raw) "," -> TrimSpace part <> [] -> exists k, requested part = Some k /\ k ∈ map Key specs.
Proof.
  unfold ParseAggregates. destruct (beqb (TrimSpace raw) []) eqn:E.
  - apply beqb_true in E. intros [= <-]. rewrite E. split_and!; [constructor|constructor|]. cbn. intros part ->%list_elem_of_singleton Hne. by destruct Hne.
  - intros H. apply aggregateLoop_spec in H as (H1 & H2 & _ & H4); [done|done|constructor|constructor].
Qed.

(** ** Examples *)

Definition asciiLower (b : bytes) : bytes := map lower_byte b.

Lemma asciiLower_char c : map lower_byte (escapeChar c) = escapeChar (lower_byte c).
Proof. destruct c as [[] [] [] [] [] [] [] []]; reflexivity. Qed.

Lemma asciiLower_escaped t : asciiLower (escapeLike t) = escapeLike (asciiLower t).
Proof.
  unfold asciiLower. induction t as [|c t IH]; [reflexivity|]. cbn [map]. rewrite !escapeLike_cons, map_app, IH. by rewrite asciiLower_char.
Qed.

Lemma asciiLower_around t : asciiLower (&"%" ++ t ++ &"%") = &"%" ++ asciiLower t ++ &"%".
Proof. unfold asciiLower. by rewrite !map_app. Qed.

Lemma search_is_literal_witness :
  exists c, Search_ [] [&"title"] (&" 50%_OFF ") = Ok [c] /\
    selected asciiLower (fun _ r => r) c (&"now 50%_off all") /\ ~ selected asciiLower (fun _ r => r) c (&"now 50 or off").
Proof.
  destruct (search_is_literal asciiLower asciiLower_escaped asciiLower_around (row := bytes) (fun _ r => r) [] [&"title"] (&" 50%_OFF ")
    [WhereAnyLike [&"title"] (&"%50\%\_OFF%")]) as (_ & c & Hc & Hr).
  - vm_compute. reflexivity.
  - vm_compute. discriminate.
  - discriminate.
  - exists c. split; [|split].
    + injection Hc as <-. vm_compute. reflexivity.
    + apply Hr. exists (&"title"), (&"now "), (&" all"). split; [left|vm_compute; reflexivity].
    + injection Hc as <-. cbn [selected]. intros (col & _ & H). vm_compute in H. discriminate H.
Defined.

Definition demoRank (col : bytes) (r : Z * Z) : Z := if beqb col (&"id") then r.1 else r.2.
Definition demoRows : list (Z * Z) := [(1, 5); (2, 5); (3, 4)].
Definition demoSorted : list (Z * Z) := [(2, 5); (1, 5); (3, 4)].

Lemma pages_cover_rows_witness :
  Ordering [] (&"-views") [&"views"] (&"id") = Ok [OrderBy (&"views") true; OrderBy (&"id") true] /\
  concat (map (fun i => page 2 i demoSorted) (seq 0 2)) ≡ₚ demoRows.
Proof.
  split; [vm_compute; reflexivity|].
  apply (pages_cover_rows demoRank [] (&"-views") [&"views"] (&"id") [OrderBy (&"views") true; OrderBy (&"id") true] demoRows (fun _ => demoSorted) 2 2).
  - vm_compute. reflexivity.
  - vm_compute. discriminate.
  - intros a b Ha Hb E. unfold demoRows in *. rewrite !elem_of_cons in Ha, Hb. vm_compute in E.
    destruct Ha as [->|[->|[->|[]%not_elem_of_nil]]]; destruct Hb as [->|[->|[->|[]%not_elem_of_nil]]]; done.
  - intros _. split; [apply perm_swap|]. unfold demoSorted. cbn [drop length].
    repeat (apply SSorted_cons || apply SSorted_nil || apply Forall_cons_2 || apply Forall_nil_2); cbn [inOrder]; unfold demoRank; vm_compute; tauto.
  - cbn. lia.
Defined.

Lemma aggregates_declared_witness :
  exists specs, ParseAggregates (&"sum:total, AVG:total,sum:total") {[ &"total" := &"total_cents" ]} = Ok specs /\ NoDup (map Key specs) /\
    map Key specs = [&"sum:total"; &"avg:total"].
Proof.
  exists [mkSpec (&"sum") (&"total_cents") (&"sum:total"); mkSpec (&"avg") (&"total_cents") (&"avg:total")].
  assert (ParseAggregates (&"sum:total, AVG:total,sum:total") {[ &"total" := &"total_cents" ]} =
    Ok [mkSpec (&"sum") (&"total_cents") (&"sum:total"); mkSpec (&"avg") (&"total_cents") (&"avg:total")]) as E by (vm_compute; reflexivity).
  split; [exact E|]. split; [|reflexivity]. exact (proj1 (aggregates_declared _ _ _ E)).
Defined.
