(* ===== verification/AuthCsrf.v ===== *)
(** * auth/csrf.go, auth/cookie.go: the double-submit defence

    The middleware in front of every route in cookie mode, and the endpoint that hands out
    the token.  HMAC-SHA256 and the random bytes are arguments ([None]: the generator
    failed); a cookie arrives decoded. *)

From stdpp Require Import base tactics numbers list strings gmap sets.
From Stdlib Require Import ZArith Lia Ascii.
From S2P Require Import Prelude GoBytes DotEnv GoText StorageKey StorageOptions.

Local Open Scope string_scope.
Local Open Scope list_scope.
Local Open Scope gotext_scope.
Local Open Scope Z_scope.

(** ** Cookies *)

Record CookieConfig := { CookieSecure : bool; CookieSameSite : bytes }.

Inductive SameSite := Lax | Strict.

Record Cookie := mkCookie {
  cName : bytes; cValue : bytes; cPath : bytes; cMaxAge : Z; cSecure : bool; cHttpOnly : bool; cSameSite : SameSite }.

Definition CSRFCookieName : bytes := &"gombit_csrf".
Definition csrfCookieMaxAge : duration := 24 * Hour.

Definition EffectiveCookieSameSite (cfg : CookieConfig) : bytes :=
  if beqb (CookieSameSite cfg) [] then &"lax" else CookieSameSite cfg.

Definition cookieSameSite (mode : bytes) : SameSite := if beqb mode (&"strict") then Strict else Lax.

Definition csrfCookie (value : bytes) (cfg : CookieConfig) : Cookie :=
  mkCookie CSRFCookieName value (&"/") (Z.quot csrfCookieMaxAge Second) (CookieSecure cfg) false
    (cookieSameSite (EffectiveCookieSameSite cfg)).

(** ** Tokens *)

(** [hex.EncodeToString] *)
Definition lowerHex (n : Z) : ascii := byte_of (Z.to_nat (if n <? 10 then 48 + n else 87 + n)).
Definition hexByte (c : ascii) : bytes := [lowerHex (code c / 16); lowerHex (code c mod 16)].
Definition hexEncode (b : bytes) : bytes := concat (map hexByte b).

Definition csrfTokenBytes : nat := 32.

Section Csrf.
Variable hmac : bytes -> bytes -> bytes.

Definition csrfSignature (secret token : bytes) : bytes := hexEncode (hmac secret token).

(** [newCSRFTokenValue]; [buf] is what rand.Read filled in. *)
Definition newCSRFTokenValue (secret : bytes) (buf : option bytes) : option bytes :=
  match buf with
  | None => None
  | Some buf => let token := hexEncode buf in Some (token ++ &"." ++ csrfSignature secret token)
  end.

Definition validCSRFTokenValue (secret value : bytes) : bool :=
  match CutByte value "." with
  | None => false
  | Some (token, sig) =>
      if beqb token [] || beqb sig [] then false else beqb sig (csrfSignature secret token)
  end.

(** ** The middleware *)

(** What is read of a request; [None] for a cookie that is missing. *)
Record Request := mkRequest { Method : bytes; rqPath : bytes; rqCookie : option bytes; rqHeader : bytes }.

(** The request goes on, with the cookie that was set, or a 403 is written. *)
Inductive verdict := Next (set : option Cookie) | Rejected.

Definition isSafeCSRFMethod (method : bytes) : bool := bool_decide (method ∈ [&"GET"; &"HEAD"; &"OPTIONS"]).

Definition validCSRFRequest (r : Request) (secret : bytes) : bool :=
  match rqCookie r with
  | None => false
  | Some cookie =>
      if beqb cookie [] then false
      else
        let header := TrimSpace (rqHeader r) in
        if beqb header [] || negb (beqb header cookie) then false else validCSRFTokenValue secret cookie
  end.

Definition ensureCSRFCookie (r : Request) (secret : bytes) (cfg : CookieConfig) (buf : option bytes) : option Cookie :=
  match rqCookie r with
  | Some (_ :: _) => None
  | _ => (fun value => csrfCookie value cfg) <$> newCSRFTokenValue secret buf
  end.

(** The paths kept of [exemptPaths]. *)
Definition exemptSet (paths : list bytes) : list bytes := filter (fun p => p <> []) (map TrimSpace paths).

Definition CSRFMiddleware (secret : bytes) (cfg : CookieConfig) (exemptPaths : list bytes) (buf : option bytes) (r : Request) : verdict :=
  if isSafeCSRFMethod (Method r) then Next (ensureCSRFCookie r secret cfg buf)
  else if bool_decide (rqPath r ∈ exemptSet exemptPaths) then Next None
  else if negb (validCSRFRequest r secret) then Rejected
  else Next None.

(** [issueCSRFToken]: the token and its cookie, [None] for a 500. *)
Definition issueCSRFToken (secret : bytes) (cfg : CookieConfig) (existing : bytes) (buf : option bytes) : option (bytes * Cookie) :=
  let value := TrimSpace existing in
  if validCSRFTokenValue secret value then Some (value, csrfCookie value cfg)
  else (fun fresh => (fresh, csrfCookie fresh cfg)) <$> newCSRFTokenValue secret buf.

(** ** What passes *)

Lemma CutByte_Some b c l r : CutByte b c = Some (l, r) -> b = l ++ c :: r /\ (c ∉ l).
Proof using.
  revert l. induction b as [|x b IH]; intros l; cbn [CutByte]; [done|].
  destruct (Ascii.eqb_spec x c) as [->|Hx].
  - intros [= <- <-]. split; [done|]. apply not_elem_of_nil.
  - destruct (CutByte b c) as [[l' r']|]; [|done]. intros [= <- <-]. destruct (IH l' eq_refl) as [-> Hn].
    split; [done|]. rewrite not_elem_of_cons. by split.
Qed.

(** A value the holder of the secret made: a token and its signature. *)
Definition signedValue (secret value : bytes) : Prop :=
  exists token, token <> [] /\ ("."%char ∉ token) /\ csrfSignature secret token <> [] /\ value = token ++ &"." ++ csrfSignature secret token.

Lemma beqb_false_iff (a b : bytes) : beqb a b = false <-> a <> b.
Proof using. rewrite <- beqb_true. by destruct (beqb a b). Qed.

Lemma validCSRFTokenValue_spec secret value : validCSRFTokenValue secret value = true <-> signedValue secret value.
Proof.
  unfold validCSRFTokenValue, signedValue. split.
  - destruct (CutByte value ".") as [[token sig]|] eqn:E; [|done]. apply CutByte_Some in E as [-> Hn].
    destruct (beqb token []) eqn:E1; [done|]. destruct (beqb sig []) eqn:E2; [done|]. cbn [orb]. intros ->%beqb_true.
    apply beqb_false_iff in E1, E2. by exists token.
  - intros (token & Hne & Hn & Hs & ->). change (&"." ++ csrfSignature secret token) with ("."%char :: csrfSignature secret token).
    rewrite CutByte_app by done. apply beqb_false_iff in Hne, Hs. rewrite Hne, Hs. cbn [orb]. apply beqb_refl.
Qed.

(** What a browser echoes: the cookie's value in the header, spaces around it dropped. *)
Lemma validCSRFRequest_spec r secret :
  validCSRFRequest r secret = true <->
  exists value, rqCookie r = Some value /\ TrimSpace (rqHeader r) = value /\ signedValue secret value.
Proof.
  unfold validCSRFRequest. destruct (rqCookie r) as [cookie|]; [|naive_solver]. split.
  - destruct (beqb cookie []) eqn:E1; [done|]. destruct (beqb (TrimSpace (rqHeader r)) []) eqn:E2; [done|].
    destruct (beqb (TrimSpace (rqHeader r)) cookie) eqn:E3; [|done]. cbn [orb negb].
    intros H%validCSRFTokenValue_spec. apply beqb_true in E3. by exists cookie.
  - intros (value & [= ->] & -> & Hs). assert (value <> []) as Hne by (destruct Hs as ([|? ?] & ? & ? & ? & ->); done).
    apply beqb_false_iff in Hne. rewrite Hne, beqb_refl. cbn [orb negb]. by apply validCSRFTokenValue_spec.
Qed.

(** ** Hexadecimal *)

Definition plain (c : ascii) : Prop := (c ∉ heads space_runes) /\ (c ∉ heads (map (@rev ascii) space_runes)).

Lemma hexByte_plain c : Forall (fun d => plain d /\ d <> "."%char) (hexByte c).
Proof using.
  revert c. apply (every_byte (fun c => Forall (fun d => plain d /\ d <> "."%char) (hexByte c))).
  vm_compute. reflexivity.
Qed.

Lemma hexEncode_plain b : Forall (fun d => plain d /\ d <> "."%char) (hexEncode b).
Proof using. apply Forall_concat, Forall_map, Forall_true. intros c. apply hexByte_plain. Qed.

Lemma hexEncode_dot b : "."%char ∉ hexEncode b.
Proof using. intros H. pose proof (hexEncode_plain b) as Hp. rewrite Forall_forall in Hp. by destruct (Hp _ H). Qed.

Lemma hexEncode_length b : length (hexEncode b) = (2 * length b)%nat.
Proof using. induction b as [|c b IH]; [done|]. cbn [hexEncode map concat hexByte app length] in *. unfold hexEncode in IH. lia. Qed.

(** Made values: signed, and without a byte that trimming would take. *)
Lemma made_signed secret buf value :
  (forall s t, length (hmac s t) = 32%nat) -> length buf = csrfTokenBytes ->
  newCSRFTokenValue secret (Some buf) = Some value -> signedValue secret value /\ TrimSpace value = value.
Proof.
  intros Hh Hb. unfold newCSRFTokenValue. intros [= <-]. split.
  - exists (hexEncode buf). split_and!; [| apply hexEncode_dot | |done]; intros H%(f_equal length); unfold csrfSignature in H;
      rewrite hexEncode_length, ?Hb, ?Hh in H; done.
  - apply trim_both_id; [apply space_runes_nonempty|]. unfold csrfSignature.
    assert (plain ".") as Hd by (split; apply (bool_decide_unpack _); vm_compute; exact I).
    apply Forall_app; split; [|constructor; [exact Hd|]];
      (eapply Forall_impl; [apply hexEncode_plain|]; by intros ? [? _]).
Qed.

(** C15. What the middleware lets through: a request reaches the handlers if and only if its
    method is GET, HEAD or OPTIONS, or its path is one of the exempt ones, or it carries in
    its cookie a token with the signature of the secret and echoes exactly that value in the
    header. So a request of another site, which cannot read the cookie to fill in the
    header, and one whose cookie was planted by someone without the secret, are refused. *)
Theorem csrf_guard secret cfg exemptPaths buf r :
  (exists set, CSRFMiddleware secret cfg exemptPaths buf r = Next set) <->
  (Method r ∈ [&"GET"; &"HEAD"; &"OPTIONS"]) \/
  (rqPath r <> [] /\ exists p, (p ∈ exemptPaths) /\ TrimSpace p = rqPath r) \/
  exists token, token <> [] /\ ("."%char ∉ token) /\ csrfSignature secret token <> [] /\
    rqCookie r = Some (token ++ &"." ++ csrfSignature secret token) /\
    TrimSpace (rqHeader r) = token ++ &"." ++ csrfSignature secret token.
Proof.
  unfold CSRFMiddleware, isSafeCSRFMethod. case_bool_decide as Hm; [naive_solver|].
  assert (rqPath r ∈ exemptSet exemptPaths <-> rqPath r <> [] /\ exists p, (p ∈ exemptPaths) /\ TrimSpace p = rqPath r) as He.
  { unfold exemptSet. rewrite list_elem_of_filter, list_elem_of_fmap. naive_solver. }
  rewrite <- He. case_bool_decide as Hp; [naive_solver|].
  pose proof (validCSRFRequest_spec r secret) as Hv. unfold signedValue in Hv.
  destruct (validCSRFRequest r secret); cbn [negb].
  - split; [intros _; right; right|by eexists]. destruct (proj1 Hv eq_refl) as (value & Hc & Ht & token & ? & ? & ? & ->). by exists token.
  - split; [by intros [? ?]|]. intros [?|[?|(token & ? & ? & ? & ? & ?)]]; [done..|].
    assert (false = true); [|done]. apply Hv. eexists. split_and!; [done..|]. by exists token.
Qed.

(** C39. A minted token works, and goes on working: for a safe request without the cookie
    the middleware sets one that scripts of the page can read, and every later request that
    carries it and echoes it, whatever its method and path, goes through; the token endpoint
    hands the same value out again instead of a new one, so that the copy of another tab
    stays valid. *)
Theorem csrf_roundtrip secret cfg exemptPaths buf r
    (Hhmac : forall s t, length (hmac s t) = 32%nat) (Hbuf : length buf = csrfTokenBytes)
    (Hsafe : Method r ∈ [&"GET"; &"HEAD"; &"OPTIONS"]) (Hnone : rqCookie r = None \/ rqCookie r = Some []) :
  exists ck, CSRFMiddleware secret cfg exemptPaths (Some buf) r = Next (Some ck) /\
    cName ck = CSRFCookieName /\ cHttpOnly ck = false /\
    (forall buf' r', rqCookie r' = Some (cValue ck) -> rqHeader r' = cValue ck ->
       CSRFMiddleware secret cfg exemptPaths buf' r' = Next None) /\
    (forall buf', issueCSRFToken secret cfg (cValue ck) buf' = Some (cValue ck, ck)).
Proof.
  destruct (newCSRFTokenValue secret (Some buf)) as [value|] eqn:E; [|done].
  destruct (made_signed secret buf value Hhmac Hbuf E) as [Hs Ht].
  exists (csrfCookie value cfg). unfold CSRFMiddleware at 1, isSafeCSRFMethod. rewrite bool_decide_true by done.
  unfold ensureCSRFCookie at 1. rewrite E. split_and!; [by destruct Hnone as [-> | ->]|done|done| |].
  - intros buf' r' Hc Hh. change (cValue (csrfCookie value cfg)) with value in Hc, Hh. unfold CSRFMiddleware. destruct (isSafeCSRFMethod (Method r')).
    + unfold ensureCSRFCookie. rewrite Hc. destruct Hs as ([|? ?] & ? & _ & _ & ->); done.
    + case_bool_decide; [done|]. assert (validCSRFRequest r' secret = true) as ->; [|done].
      apply validCSRFRequest_spec. exists value. by rewrite Hh, Ht.
  - intros buf'. cbn [csrfCookie cValue]. unfold issueCSRFToken. rewrite Ht.
    by apply validCSRFTokenValue_spec in Hs as ->.
Qed.
End Csrf.

(** ** A concrete run *)

Definition hmac1 (s t : bytes) : bytes := take 32 (s ++ rev t ++ repeat "h"%char 32).

Lemma hmac1_length s t : length (hmac1 s t) = 32%nat.
Proof. unfold hmac1. rewrite length_take, !length_app, repeat_length. lia. Qed.

Lemma csrf_roundtrip_witness :
  exists ck, CSRFMiddleware hmac1 (&"secret") {| CookieSecure := true; CookieSameSite := [] |} [&"/hooks"]
    (Some (repeat "r"%char 32)) (mkRequest (&"GET") (&"/") None []) = Next (Some ck).
Proof.
  edestruct (csrf_roundtrip hmac1 (&"secret") {| CookieSecure := true; CookieSameSite := [] |} [&"/hooks"]
    (repeat "r"%char 32) (mkRequest (&"GET") (&"/") None []) hmac1_length) as (ck & H & _).
  - reflexivity.
  - left.
  - left. reflexivity.
  - exists ck. exact H.
Defined.
